(* ===== verification/_CoqProject ===== *)
-Q . S2P
Prelude.v
Ledger.v
Saga.v
SagaFacts.v
SagaRecover.v
GoStrings.v
GoPath.v
Grubenv.v
Crash.v
Disk.v
OpenWrtAB.v
OpenWrtABFacts.v
OpenWrtABDownload.v
Slotboot.v
SlotbootFacts.v
NodeRegistry.v
BusTokens.v
BusTokensFacts.v
BusAdmission.v
BusSessions.v
BusTombstones.v
BusTakeover.v
BusRace.v
BootVerify.v
GoRunes.v
GoSort.v
BackupMembers.v
BackupPlan.v
BackupReport.v
BackupGrants.v
BackupIngest.v
BackupIngestFacts.v
BackupFanOut.v
BackupFanOutFacts.v
UpdatePlan.v
UpdatePlanFacts.v
UpdateCascade.v
UpdateMoves.v
UpdateRun.v
UpdateGate.v
UpdateBudget.v
UpdateResume.v
NodeUpdateStore.v
NodeUpdate.v
NodeUpdateFacts.v
NodeUpdateInventory.v
NodeUpdateAfter.v
SealFragment.v
SealFiles.v
SealGate.v
SealRotate.v
SealSafety.v
SealHistory.v
SealCapture.v
Releases.v
ReleaseSource.v
GoNet.v
FirewallIntent.v
FirewallUci.v
FirewallBox.v
FirewallSim.v
FirewallPlan.v
FirewallApply.v
FirewallSync.v
GoDuration.v
BackupEstimate.v
BackupRuns.v
BackupSchedule.v
BackupState.v
BackupStateFacts.v
BackupTarget.v
BackupTargetFacts.v
BackupTargetWrite.v
BackupRun.v
BackupRunFacts.v
BackupRunAfter.v
StorageDisk.v
StorageClaim.v
StorageClaimFacts.v
StorageHealth.v
