(* ===== verification/Prelude.v ===== *)
(** * Rasputin control plane: a verification library

    Rasputin runs a small cluster: an api on the control-plane node
    (src/api), an agent on every node (src/agent), the messages between them
    (src/proto) and the backup transfer package both use (src/backupxfer).
    Every change to the cluster is a job of the api's saga runner; jobs talk to
    agents over a bus that admits only nodes with a live join token; nodes are
    updated into an A/B slot and checked to have restarted into it; backups are pulled
    from the nodes to an ingest endpoint; the operator's firewall intents are
    compiled and applied by the firewall's agent; the secret store's seal key is
    rotated.  This library models the parts that
    decide something and proves what they promise.

    ** How programs are modelled

    Go functions are Rocq functions with the source's names.  A function that
    only computes is a pure function; one that threads state is a program of
    the state monad [M] of this file, with [result] for Go's [(T, error)] and
    [error] for what [Error()] and [errors.Is] observe of an error.  An [int]
    is a [Z], wrapped with [wrap64] where it is multiplied or parsed.  A map is
    a [gmap].  What the code does not decide is an argument of the definitions:
    an oracle that says which database statement, file operation or bus call
    fails, indexed by a tick so that every fault pattern is covered; the clock;
    the answers of other processes; third-party cryptography.  A theorem over
    every oracle is a theorem about every crash point.  Goroutines that share
    state are cut at their locks, channel operations and outside calls, and an
    executable [step] interleaves them in any order; the theorems are about
    every reachable state.

    A crash point is a stop of the process between two calls or inside one; the
    effects of the calls that returned are in place.  What a power cut takes of
    them is modelled where the source leaves it open: Disk marks what was written
    and not yet synced, [power_cut] lets a cut tear it, and OpenWrtABDownload
    says what that does to a download, which is renamed into place unsynced.
    The seal directory and the backup target sync every file and directory
    before the next step relies on it, and there a returned call counts as on
    the medium; that each of those syncs is made is not proved.

    Everything terminates without fuel except where the source waits or
    retries: a wait runs over the list of its iterations (BootVerify,
    [wait_child] of UpdateCascade) and has no value while the list has not
    decided, and there are theorems that say when it decides; the upload loop
    of BackupFanOut runs on the source's own bound of attempts; the collapse of
    repeated separators in GoPath is bounded by the length of the string, of
    which each round consumes a part; GoNet reads at most the eight groups an
    IPv6 address has; the wait for the secret store (SealRotate) runs on the
    number of polls its timeout allows; a wait for a log line (FirewallUci) runs
    over the lines and says how it ended; ParseDuration (GoDuration) reads at
    most as many pieces as its text has characters, and two more.
    UpdateBudget bounds the cascade's schedules.

    ** Files

    Shared: this file (errors, results, the state monad with its triples,
    [yields] and [preserves], their hint databases and tactics), GoStrings,
    GoRunes, GoPath, GoSort, GoNet, GoDuration (the packages strings, bytes,
    unicode/utf8, path/filepath, sort, net and the durations of time, as far as
    they are used), Crash (programs that
    can stop anywhere, with a postcondition for a return and one for a stop).

    The job engine, api/internal/jobs.  Ledger: store.go, types.go, schema.go,
    the three tables and their statements.  Saga: saga.go, [run], [runStep],
    [Submit], [SubmitChild], [Recover] and their parts on a [World] of ledger,
    trace and tick.  SagaFacts and SagaRecover prove that an irreversible step
    is run at most once across crashes, that the steps run are a prefix of the
    workflow, each but the last to success, that a run ends in one verdict that is
    recorded and fires its hook, that it touches no other job, that recovery
    and submission are exact; and two limits: a lost row lets a step run
    twice, a negative retry count panics.

    The firewall's updater, agent/internal/updater.  Disk: storage that fails,
    tears and loses power.  Grubenv: grubenv.go, the environment block.
    OpenWrtAB: openwrt_ab.go, espmount.go, expectedsha.go, trust.go,
    bundlepath.go, with the path rules in GoPath.  Slotboot: slotboot.go, the
    bootloader repair.  The Facts files and OpenWrtABDownload prove the codec's
    round trip, that bundle paths stay inside the store, that an install or a
    download that stops anywhere leaves nothing bootable or acceptable that was
    not verified (a power cut can still tear an artifact that was accepted, since
    it is renamed into place unsynced), that bootloader files are replaced whole and at most once;
    and a fallback that leaves the slot marked good.

    Admission.  NodeRegistry: api/internal/inventory/registry.go.  BusTokens:
    api/internal/busauth, tokens, tombstones, sessions, takeovers, the agent's
    own token; its registry is any instance of an interface class that
    BusAdmission discharges with NodeRegistry.  BusTokensFacts, BusAdmission,
    BusSessions, BusTombstones, BusTakeover: the bus admits the live tokens and
    only those, a revoke is final, closes every session and survives the loss of
    the database, one session per token, no operator revoke takes the control
    plane's own token.  BusRace: the same under every
    interleaving of admissions, mints, refreshes and revokes; and two limits,
    an alert and a superseded connection that outlive a revoke.

    Restart verification, api/internal/bootverify: BootVerify.  What a passed
    wait proves, what a wait ended by its bound says, and the degraded pass of
    a node that reports no identity.

    Backup of app volumes.  BackupMembers (proto/backup.go: names and paths),
    BackupPlan (storage/fanout_plan.go), BackupReport (storage/assemble.go),
    BackupGrants (backupxfer/token.go, presenter.go, wire.go), BackupIngest
    (backupxfer/server.go, the upload handlers interleaved; the number of
    upload slots is a parameter, 1 by default), BackupFanOut (storage/fanout.go,
    transfer_route.go).  The plan accounts for every owed volume; a receipt of
    the open generation stands for a stored file; a fan-out's report claims a
    volume only on a receipt; and a receipt that crosses into the next
    generation makes that generation's report wrong.

    Backup runs.  BackupEstimate (storage/target_estimate.go, staging.go): what
    a run will need, in 64-bit arithmetic; the api's sum is the one the agent
    compares with the free space.  BackupRuns (backup_store.go): the ledger of
    runs, where a verdict is given once.  BackupSchedule (backup_schedule.go):
    the operator's cadence and retention stored and read back, and when a run is
    due.  BackupState and BackupStateFacts (backup_state.go,
    proto/backupstate.go): the badge of every app, and that OK has a run behind
    it, with no failed attempt since; and three badges that mislead.  BackupTarget (agent/internal/storage/
    archive.go): preflight, write, prune and the staging sweep on a medium that
    fails.  BackupTargetFacts: a prune touches nothing it keeps, wherever it
    stops, and settles; and the half-deleted generation that costs a whole one.
    BackupTargetWrite: a write is all or nothing.  BackupRun (backup_jobs.go,
    store_capture.go, staging.go): the steps of the job over all of these, the
    terminal hook and the sweep at start.  BackupRunFacts: the row of a run is
    the truth about it.  BackupRunAfter: what a run leaves behind (the capture
    lock, the secret store, the staging root, stranded rows), and two runs whose
    record misleads.

    Claiming a disk.  StorageDisk (agent/internal/storage: blockdev.go,
    protect.go, lsblk.go, fingerprint.go, client.go): the disks the machine runs
    from, read out of mountinfo and sysfs, the fingerprint, and the claim that
    formats a disk, on a machine that may change between any two looks.
    StorageClaim (api/internal/storage: jobs.go, store.go, types.go, wipe.go,
    eligibility.go, claim_purpose.go, enumerate.go): the ledger of targets, the
    staged key, the token of a wipe and the steps of backup.target.claim.
    StorageClaimFacts: a disk is formatted only as it was confirmed, on both
    sides of the bus, and the row says what was done; and a set that cannot be
    read is formatted without its token.  StorageHealth (health.go,
    target_health.go): the write probe and the poll; a health on record against
    the disks the agent had attached and mounted when it looked, and the two
    records that say more than was seen: an agent that could not look is
    recorded as a missing disk, and a disk that was not probed can read OK.

    Fleet update, api/internal/updater/system_jobs.go.  UpdatePlan: targets,
    skips, canaries, preview.  UpdateCascade: the tiers, canaries, soak, bounded
    fan-out, failure budget, report and verdict, with the launch loop and its
    goroutines interleaved.  UpdatePlanFacts: every node is planned for what it
    is or left out for a true reason, one canary per tier and image.
    UpdateMoves: tiers come once; the cascade as rules, and that
    it implements an abstract dispatcher that starts every target once and
    abandons some only after a failure.  UpdateRun: the report is the truth,
    and green means every node, for a run closed by the process that planned it.
    UpdateGate: nothing is started before its tier's canaries succeeded, after a
    canary did not, or while another tier is under way.  UpdateBudget: how many nodes at a time and how many can be lost;
    the cascade ends and never jams.  UpdateResume:
    selfupdate_system.go on the ledger and the runner, how a run is closed when its last target was the control plane itself: as the
    live summary would close it, but for a node whose job was never submitted,
    over which it can turn green.

    Node update, api/internal/updater/jobs.go, verify.go, selfupdate.go,
    storecheck.go, fallback.go and store.go.  NodeUpdateStore: the statements of
    the update store and the inventory's version columns, constraints included.
    NodeUpdate: the eight steps of node.update, the verify contract, commit and
    rollback, the terminal hook, the start-up sweep and the control plane's
    finish of its own update.  The state carries a transcript of every request
    and reply; the node, the driver, the clock and the secret store answer by a
    tick, so each may differ at every call.  The runner's control flow is
    restated over these bodies, which have effects, because a body of Saga.v is
    a function of its context.  A wait for a new boot is the list of its polls,
    closed by one the context cut off, so it always decides.  NodeUpdateFacts:
    the verdict and the gap marks on the row against the transcript.
    NodeUpdateInventory: what the inventory vouches for afterwards, while the
    database answers, and two runs that leave an old version confirmed.  NodeUpdateAfter: the fallback
    detector, the sweep and the resume, and two runs whose record is wrong: a
    rollback turned into a commit by the step's retry, and a good update
    recorded as a rollback after one lost statement.

    The seal key, api/internal/secretstore/sealrotate.  SealFragment:
    fragment.go, keyid.go.  SealFiles: files.go and atrest.go on a directory
    whose calls fail, tear and lose power.  SealGate: gate.go, the lock between
    rotations and captures.  SealRotate: rotator.go, over any secret store that
    keeps the laws of a class.  SealSafety: every step from every tree.
    SealHistory: in every history of runs, crashes and restarts the files on
    disk open the store, and the one history in which they do not.  SealCapture:
    a capture sees one tree, under every interleaving.

    Releases, api/internal/releases.  Releases: version.go, registry.go,
    source.go, check.go; comparing versions is comparing their numbers, and the
    Updates page tells the fleet's state.  ReleaseSource: github.go,
    manifestsig.go, nodeimage.go, bakedfirewall.go, security.go; an offered
    release is signed from the floor on and, when its own tag can be read, the
    newest of the readable ones; and a tag that cannot be read is believed.

    The firewall.  FirewallIntent: api/internal/firewall/compile.go, the
    operator's intents as a UCI state.  FirewallUci: agent/internal/openwrt,
    uci.go, uci_render.go, dnsmasq.go, every operation of the agent, which may
    die before any command.  FirewallBox: the class of laws uci and ubus keep,
    and what a list of edits comes to.  FirewallSim: an executable box that keeps
    them.  FirewallPlan: what compiles is what the agent's strict reader takes.
    FirewallApply: wherever an apply stops, each file is old or new as a whole.
    FirewallSync: what was applied is what is read back, the deployment mode is
    recorded last; and what an interrupted apply leaves.

    ** What is not modelled

    Log lines, event timestamps and progress callbacks; JSON encodings of
    structs that are written and read back by the same code (a value is kept
    as itself); SQL beyond the statements named; HTTP and NATS transport;
    cryptography (SHA-256, HMAC, Ed25519, CMS are parameters).  Of the fleet
    update, the fallback that rebuilds a missing plan.  Of the
    rest of the program: the tar and the seal of the identity archive; restore;
    the boot-time mount of data disks; apps,
    mesh, observability, the console.  Those that decide something (volume
    rules, restore plans) would be next.  uci, ubus, the secret store, the
    release host and the signature verifier are other programs: classes with
    laws, each with an instance that shows the laws can hold. *)

From Stdlib Require Export ZArith Lia.
From stdpp Require Export strings pretty.
From stdpp Require Export base gmap sets list fin_maps sorting relations.

Open Scope string_scope.
Open Scope list_scope.
Open Scope Z_scope.

(** ** Go errors

    A Go error value is what the code can observe of it: the text [Error()]
    returns and the sentinels [errors.Is] finds on its chain.  A sentinel is
    named by its Go identifier. *)
Record error := mkError { err_text : string; err_chain : list string }.

#[export] Instance error_eq_dec : EqDecision error.
Proof. solve_decision. Defined.

(** [errors.New(text)] for an error no sentinel test looks at. *)
Definition errors_New (text : string) : error := mkError text [].

(** A package-level sentinel [var name = errors.New(text)]. *)
Definition sentinel (name text : string) : error := mkError text [name].

(** [fmt.Errorf("...%w...", e)]: new text, the wrapped chain. *)
Definition wrapf (text : string) (e : error) : error := mkError text (err_chain e).

Definition errors_Is (e : error) (name : string) : bool :=
  bool_decide (name ∈ err_chain e).

(** Double quotes around a string: the verb %q, without its escapes. *)
Definition dquote : string := String (Ascii.ascii_of_nat 34) EmptyString.
Definition quote (s : string) : string := dquote +:+ s +:+ dquote.

Definition newline : string := String (Ascii.ascii_of_nat 10) EmptyString.

(** [errors.Join(e1, e2)] of two non-nil errors. *)
Definition errors_Join (e1 e2 : error) : error :=
  mkError (err_text e1 +:+ newline +:+ err_text e2) (err_chain e1 ++ err_chain e2).

(** ** Results of fallible Go functions: [(T, error)] *)
Inductive result (A : Type) : Type :=
| Ok (a : A)
| Fail (e : error).
Arguments Ok {A} _.
Arguments Fail {A} _.

#[export] Instance result_eq_dec {A} `{EqDecision A} : EqDecision (result A).
Proof. solve_decision. Defined.

#[export] Instance result_ret : MRet result := λ _ a, Ok a.
#[export] Instance result_bind : MBind result := λ _ _ f r,
  match r with Ok a => f a | Fail e => Fail e end.
#[export] Instance result_fmap : FMap result := λ _ _ f r,
  match r with Ok a => Ok (f a) | Fail e => Fail e end.

Definition is_ok {A} (r : result A) : bool :=
  match r with Ok _ => true | Fail _ => false end.

(** ** Machine integers: Go's [int] and [int64] on the 64-bit targets *)
Definition int64_min : Z := - 2 ^ 63.
Definition int64_max : Z := 2 ^ 63 - 1.
Definition wrap64 (n : Z) : Z := (n + 2 ^ 63) mod 2 ^ 64 - 2 ^ 63.
Definition in_int64 (n : Z) : Prop := int64_min ≤ n ≤ int64_max.

Lemma wrap64_id n : in_int64 n → wrap64 n = n.
Proof. unfold in_int64, wrap64, int64_min, int64_max. intros. rewrite Z.mod_small; lia. Qed.

(** ** State-passing programs

    [M S A] is code that threads a state [S].  Every component that mutates a
    store, a table or a boot medium is written in it, in the order the source
    performs its calls. *)
Definition M (S A : Type) : Type := S → A * S.

#[export] Instance M_ret {S} : MRet (M S) := λ _ a s, (a, s).
#[export] Instance M_bind {S} : MBind (M S) := λ _ _ f m s,
  let '(a, s') := m s in f a s'.

Definition get {S} : M S S := λ s, (s, s).
Definition put {S} (s : S) : M S unit := λ _, (tt, s).
Definition modify {S} (f : S → S) : M S unit := λ s, (tt, f s).

(** Run [m] for its effect only. *)
Definition exec {S A} (m : M S A) (s : S) : S := snd (m s).
Definition eval {S A} (m : M S A) (s : S) : A := fst (m s).

(** [for _, x := range l { body(x) }] with no early exit. *)
Fixpoint for_each {S A} (body : A → M S unit) (l : list A) : M S unit :=
  match l with
  | [] => mret tt
  | x :: l => body x ≫= λ _, for_each body l
  end.

(** ** Hoare triples for [M] *)
Definition triple {S A} (P : S → Prop) (m : M S A) (Q : A → S → Prop) : Prop :=
  ∀ s, P s → Q (fst (m s)) (snd (m s)).

Create HintDb triples discriminated.

Section triple.
Context {S : Type}.
Implicit Types P I : S → Prop.

Lemma triple_ret {A} (a : A) (Q : A → S → Prop) : triple (Q a) (mret a) Q.
Proof. by intros s. Qed.

Lemma triple_bind {A B} P (R : A → S → Prop) (Q : B → S → Prop)
    (m : M S A) (f : A → M S B) :
  triple P m R → (∀ a, triple (R a) (f a) Q) → triple P (m ≫= f) Q.
Proof.
  intros Hm Hf s HP. specialize (Hm s HP). unfold mbind, M_bind.
  destruct (m s) as [a s']. by apply Hf.
Qed.

Lemma triple_conseq {A} P P' (Q Q' : A → S → Prop) (m : M S A) :
  triple P' m Q' → (∀ s, P s → P' s) → (∀ a s, Q' a s → Q a s) → triple P m Q.
Proof. intros Hm HP HQ s Hs. by apply HQ, Hm, HP. Qed.

(** What a precondition says of no state. *)
Lemma triple_pure {A} (φ : Prop) (P : S → Prop) (m : M S A) (Q : A → S → Prop) : (φ → triple P m Q) → triple (λ s, φ ∧ P s) m Q.
Proof. intros Hm s [Hφ Hs]. by apply Hm. Qed.
Lemma triple_exists {A X} (P : X → S → Prop) (m : M S A) (Q : A → S → Prop) : (∀ x, triple (P x) m Q) → triple (λ s, ∃ x, P x s) m Q.
Proof. intros Hm s [x Hs]. by eapply Hm. Qed.

(** Invariants: the special case where pre- and postcondition agree. *)
Definition preserves {A} I (m : M S A) : Prop := triple I m (λ _, I).

Lemma preserves_ret {A} I (a : A) : preserves I (mret a).
Proof. by intros s. Qed.

Lemma preserves_bind {A B} I (m : M S A) (f : A → M S B) :
  preserves I m → (∀ a, preserves I (f a)) → preserves I (m ≫= f).
Proof. apply triple_bind. Qed.

Lemma preserves_get I : preserves I get.
Proof. by intros s. Qed.

Lemma preserves_modify I (f : S → S) : (∀ s, I s → I (f s)) → preserves I (modify f).
Proof. intros H s. apply H. Qed.

Lemma preserves_for_each {A} I (body : A → M S unit) l :
  (∀ x, x ∈ l → preserves I (body x)) → preserves I (for_each body l).
Proof.
  induction l as [|x l IH]; intros H; [apply preserves_ret|].
  apply preserves_bind; [apply H; set_solver|]. intros _. apply IH. set_solver.
Qed.

Lemma preserves_exec {A} I (m : M S A) s : preserves I m → I s → I (exec m s).
Proof. intros H. apply H. Qed.
End triple.

(** Transition properties: [m] only ever moves the state along [R]. *)
Definition yields {S A} (R : relation S) (m : M S A) : Prop := ∀ s, R s (snd (m s)).

Section yields.
Context {S : Type} (R : relation S) `{!PreOrder R}.

Lemma yields_ret {A} (a : A) : yields R (mret a).
Proof. intros s. reflexivity. Qed.

Lemma yields_get : yields R get.
Proof. intros s. reflexivity. Qed.

Lemma yields_bind {A B} (m : M S A) (f : A → M S B) :
  yields R m → (∀ a, yields R (f a)) → yields R (m ≫= f).
Proof.
  intros Hm Hf s. specialize (Hm s). unfold mbind, M_bind.
  destruct (m s) as [a s']. etransitivity; [exact Hm|apply Hf].
Qed.

Lemma yields_for_each {A} (body : A → M S unit) l :
  (∀ x, x ∈ l → yields R (body x)) → yields R (for_each body l).
Proof.
  induction l as [|x l IH]; intros H; [apply yields_ret|].
  apply yields_bind; [apply H; set_solver|]. intros _. apply IH. set_solver.
Qed.

Lemma yields_exec {A} (m : M S A) s : yields R m → R s (exec m s).
Proof. intros H. apply H. Qed.

(** An upward-closed fact survives a transition-respecting program. *)
Lemma yields_preserves {A} (I : S → Prop) (m : M S A) :
  yields R m → (∀ s s', R s s' → I s → I s') → preserves I m.
Proof. intros Hm HI s Hs. eapply HI; [apply Hm|done]. Qed.
End yields.

Lemma yields_mono {S A} (R R' : relation S) (m : M S A) :
  yields R m → (∀ s s', R s s' → R' s s') → yields R' m.
Proof. intros Hm H s. apply H, Hm. Qed.

(** Split [yields] and [preserves] goals along the program text; the leaves
    go to the [yields] and [triples] databases. *)
Create HintDb yields discriminated.

Ltac yield :=
  repeat first
    [ solve [eauto with yields]
    | apply yields_ret; [apply _]
    | apply yields_get; [apply _]
    | apply yields_for_each; [apply _|intros ? ?]
    | apply yields_bind; [apply _| |intros ?]
    | match goal with
      | |- yields _ (match ?x with _ => _ end) => destruct x eqn:?
      end ].

Ltac preserve :=
  repeat first
    [ solve [eauto with triples]
    | apply preserves_ret
    | apply preserves_get
    | apply preserves_for_each; intros ? ?
    | apply preserves_bind; [|intros ?]
    | match goal with
      | |- preserves _ (match ?x with _ => _ end) => destruct x eqn:?
      end ].

(** Running a bind from a given state. *)
Lemma bind_run {S A B} (m : M S A) (f : A → M S B) s :
  (m ≫= f) s = f (eval m s) (exec m s).
Proof. unfold mbind, M_bind, eval, exec. by destruct (m s). Qed.

Lemma exec_bind {S A B} (m : M S A) (f : A → M S B) s :
  exec (m ≫= f) s = exec (f (eval m s)) (exec m s).
Proof. unfold exec at 1. by rewrite bind_run. Qed.

Lemma eval_bind {S A B} (m : M S A) (f : A → M S B) s :
  eval (m ≫= f) s = eval (f (eval m s)) (exec m s).
Proof. unfold eval at 1. by rewrite bind_run. Qed.

Lemma exec_ret {S A} (a : A) (s : S) : exec (mret a) s = s.
Proof. done. Qed.

Lemma eval_ret {S A} (a : A) (s : S) : eval (mret a) s = a.
Proof. done. Qed.

(** ** Small shared lemmas *)

Lemma bool_decide_eqb_true (x y : string) : bool_decide (x = y) = true ↔ x = y.
Proof. apply bool_decide_eq_true. Qed.

(** Case analysis on every [bool_decide] and [match] of the goal. *)
Ltac split_ifs := repeat (case_bool_decide || case_match); simplify_eq/=.
