(* ===== verification/Ledger.v ===== *)
(** * The job ledger (api/internal/jobs/store.go, types.go, schema.go)

    The SQLite database behind the job engine: three tables, the statements
    [Store] runs on them and the scans that turn rows back into the Go structs.
    A statement either executes or returns the driver's error; the error comes
    in as an argument, so every theorem covers every fault pattern. *)

From S2P Require Import Prelude.

(** ** Time

    A [time.Time] is the number of nanoseconds since the epoch; the ledger
    stores milliseconds. *)
Definition tsMillis (t : Z) : Z := t / 1000000.
Definition fromMillis (ms : Z) : Z := ms * 1000000.
Definition fromNullMillis (n : option Z) : option Z := fromMillis <$> n.

(** ** Data (types.go) *)
Inductive Status :=
| StatusQueued | StatusRunning | StatusSucceeded | StatusFailed | StatusCancelled.

Inductive StepStatus :=
| StepPending | StepRunning | StepSucceeded | StepFailed | StepCompensated.

#[export] Instance Status_eq_dec : EqDecision Status.
Proof. solve_decision. Defined.
#[export] Instance StepStatus_eq_dec : EqDecision StepStatus.
Proof. solve_decision. Defined.

Definition StepStatus_text (s : StepStatus) : string :=
  match s with
  | StepPending => "pending" | StepRunning => "running" | StepSucceeded => "succeeded"
  | StepFailed => "failed" | StepCompensated => "compensated"
  end.

Record Job := mkJob {
  j_ID : string; j_Kind : string; j_Spec : string; j_Status : Status;
  j_CreatedBy : string; j_CreatedAt : Z; j_StartedAt : option Z;
  j_FinishedAt : option Z; j_ParentID : option string; j_Error : string }.

(** [st_Result] is a nilable [json.RawMessage]. *)
Record JobStep := mkStep {
  st_JobID : string; st_Seq : Z; st_Name : string; st_Status : StepStatus;
  st_StartedAt : option Z; st_FinishedAt : option Z; st_Attempt : Z;
  st_Result : option string; st_Error : string }.

(** The event types of proto/jobs.go. *)
Inductive JobEventType :=
| JobCreated | JobStarted | JobStepStarted | JobStepSucceeded | JobStepFailed
| JobStepRetrying | JobSucceeded | JobFailed | JobLog.

#[export] Instance JobEventType_eq_dec : EqDecision JobEventType.
Proof. solve_decision. Defined.

Record StepEventData := mkStepEvent {
  sed_Seq : Z; sed_Name : string; sed_Attempt : Z; sed_Result : option string; sed_Error : string }.

(** What an event carries, before [json.Marshal]: the ledger's [data] column
    holds its encoding, and the empty text where there is none. *)
Inductive EventData :=
| DataNone
| DataJob (j : Job)
| DataStep (d : StepEventData)
| DataLog (level message : string)
| DataError (msg : string)
| DataRecovered (msg : string).

#[export] Instance Job_eq_dec : EqDecision Job.
Proof. solve_decision. Defined.
#[export] Instance JobStep_eq_dec : EqDecision JobStep.
Proof. solve_decision. Defined.
#[export] Instance StepEventData_eq_dec : EqDecision StepEventData.
Proof. solve_decision. Defined.
#[export] Instance EventData_eq_dec : EqDecision EventData.
Proof. solve_decision. Defined.

Record JobEvent := mkEvent {
  ev_ID : Z; ev_JobID : string; ev_Ts : Z; ev_Type : JobEventType; ev_Data : EventData }.

(** ** Rows: the columns of schema.go *)
Record job_row := mkJobRow {
  jr_kind : string; jr_spec : string; jr_status : Status; jr_created_by : string;
  jr_created_at : Z; jr_started_at : option Z; jr_finished_at : option Z;
  jr_parent_id : option string; jr_error : option string }.

Record step_row := mkStepRow {
  sr_name : string; sr_status : StepStatus; sr_started_at : option Z;
  sr_finished_at : option Z; sr_attempt : Z; sr_result : option string;
  sr_error : option string }.

(** [jobs] is keyed by its TEXT PRIMARY KEY, [job_steps] by (job_id, seq), and
    [job_events] is in the order of its AUTOINCREMENT id. *)
Record Store := mkStore {
  jobs : gmap string job_row;
  job_steps : gmap (string * Z) step_row;
  job_events : list JobEvent }.

Definition empty_store : Store := mkStore ∅ ∅ [].

Definition set_jobs (f : gmap string job_row → gmap string job_row) (s : Store) : Store :=
  mkStore (f (jobs s)) (job_steps s) (job_events s).
Definition set_steps (f : gmap (string * Z) step_row → gmap (string * Z) step_row) (s : Store) : Store :=
  mkStore (jobs s) (f (job_steps s)) (job_events s).
Definition set_events (f : list JobEvent → list JobEvent) (s : Store) : Store :=
  mkStore (jobs s) (job_steps s) (f (job_events s)).

(** SQLite's refusal of an INSERT whose primary key is taken. *)
Definition errConstraint : error := errors_New "constraint failed: UNIQUE constraint failed".

(** A statement: with a driver fault it changes nothing. *)
Definition stmt (flt : option error) (s : Store) (run : Store * option error) : Store * option error :=
  match flt with Some e => (s, Some e) | None => run end.

(** A query: the rows, or the driver fault. *)
Definition query {A} (flt : option error) (rows : A) : result A :=
  match flt with Some e => Fail e | None => Ok rows end.

(** ** Jobs *)
Definition CreateJob (flt : option error) (s : Store) (j : Job) : Store * option error :=
  let parent := match j_ParentID j with Some p => if bool_decide (p = "") then None else Some p | None => None end in
  stmt flt s
    match jobs s !! j_ID j with
    | Some _ => (s, Some errConstraint)
    | None =>
        (set_jobs <[j_ID j := mkJobRow (j_Kind j) (j_Spec j) (j_Status j) (j_CreatedBy j)
            (tsMillis (j_CreatedAt j)) None None parent None]> s, None)
    end.

Definition terminal (s : Status) : bool :=
  match s with
  | StatusSucceeded | StatusFailed | StatusCancelled => true
  | StatusQueued | StatusRunning => false
  end.

Definition Status_text (s : Status) : string :=
  match s with
  | StatusQueued => "queued" | StatusRunning => "running" | StatusSucceeded => "succeeded"
  | StatusFailed => "failed" | StatusCancelled => "cancelled"
  end.

(** INSERT ... ON CONFLICT(id) DO NOTHING; the flag is [RowsAffected == 1]. *)
Definition RecordFinishedJob (flt : option error) (s : Store) (j : Job) : Store * result bool :=
  if negb (terminal (j_Status j)) then
    (s, Fail (errors_New ("jobs: record finished job " +:+ j_ID j +:+ ": status " +:+
          quote (Status_text (j_Status j)) +:+ " is not terminal")))
  else
    match flt with
    | Some e => (s, Fail e)
    | None =>
        match jobs s !! j_ID j with
        | Some _ => (s, Ok false)
        | None =>
            (set_jobs <[j_ID j := mkJobRow (j_Kind j) (j_Spec j) (j_Status j) (j_CreatedBy j)
                (tsMillis (j_CreatedAt j)) (tsMillis <$> j_StartedAt j) (tsMillis <$> j_FinishedAt j)
                None (if bool_decide (j_Error j = "") then None else Some (j_Error j))]> s, Ok true)
        end
    end.

Definition MarkJobStarted (flt : option error) (s : Store) (id : string) (ts : Z) : Store * option error :=
  stmt flt s (set_jobs (alter (λ r, mkJobRow (jr_kind r) (jr_spec r) StatusRunning (jr_created_by r)
    (jr_created_at r) (Some (tsMillis ts)) (jr_finished_at r) (jr_parent_id r) (jr_error r)) id) s, None).

Definition MarkJobSucceeded (flt : option error) (s : Store) (id : string) (ts : Z) : Store * option error :=
  stmt flt s (set_jobs (alter (λ r, mkJobRow (jr_kind r) (jr_spec r) StatusSucceeded (jr_created_by r)
    (jr_created_at r) (jr_started_at r) (Some (tsMillis ts)) (jr_parent_id r) (jr_error r)) id) s, None).

Definition MarkJobFailed (flt : option error) (s : Store) (id errMsg : string) (ts : Z) : Store * option error :=
  stmt flt s (set_jobs (alter (λ r, mkJobRow (jr_kind r) (jr_spec r) StatusFailed (jr_created_by r)
    (jr_created_at r) (jr_started_at r) (Some (tsMillis ts)) (jr_parent_id r) (Some errMsg)) id) s, None).

(** A row as the Go struct. *)
Definition scanJob (id : string) (r : job_row) : Job :=
  mkJob id (jr_kind r) (jr_spec r) (jr_status r) (jr_created_by r) (fromMillis (jr_created_at r))
    (fromNullMillis (jr_started_at r)) (fromNullMillis (jr_finished_at r)) (jr_parent_id r)
    (default "" (jr_error r)).

(** No row is the nil job, not an error. *)
Definition GetJob (flt : option error) (s : Store) (id : string) : result (option Job) :=
  query flt (scanJob id <$> jobs s !! id).

(** *** The listings *)
Definition all_jobs (s : Store) : list Job :=
  (λ p : string * job_row, scanJob p.1 p.2) <$> map_to_list (jobs s).

Definition created_le (a b : Job) : Prop := j_CreatedAt a ≤ j_CreatedAt b.
#[export] Instance created_le_dec a b : Decision (created_le a b).
Proof. unfold created_le. apply _. Defined.

Definition by_created_asc (l : list Job) : list Job := merge_sort created_le l.
Definition by_created_desc (l : list Job) : list Job := merge_sort (flip created_le) l.

Definition ListJobsByStatus (flt : option error) (s : Store) (statuses : list Status) : result (list Job) :=
  match statuses with
  | [] => Ok []
  | _ => query flt (by_created_asc (filter (λ j, j_Status j ∈ statuses) (all_jobs s)))
  end.

Definition ListChildJobs (flt : option error) (s : Store) (parentID : string) : result (list Job) :=
  query flt (by_created_asc (filter (λ j, j_ParentID j = Some parentID) (all_jobs s))).

Definition clamp_limit (limit : Z) : Z :=
  if bool_decide (limit ≤ 0) || bool_decide (500 < limit) then 100 else limit.

Definition ListJobsByKind (flt : option error) (s : Store) (kind : string) (limit : Z) : result (list Job) :=
  query flt (take (Z.to_nat (clamp_limit limit))
    (by_created_desc (filter (λ j, j_Kind j = kind) (all_jobs s)))).

Definition ListAllJobsByKind (flt : option error) (s : Store) (kind : string) : result (list Job) :=
  query flt (by_created_desc (filter (λ j, j_Kind j = kind) (all_jobs s))).

Definition ListJobs (flt : option error) (s : Store) (limit : Z) : result (list Job) :=
  query flt (take (Z.to_nat (clamp_limit limit)) (by_created_desc (all_jobs s))).

(** ** Steps *)
Definition CreateStep (flt : option error) (s : Store) (st : JobStep) : Store * option error :=
  stmt flt s
    match job_steps s !! (st_JobID st, st_Seq st) with
    | Some _ => (s, Some errConstraint)
    | None =>
        (set_steps <[(st_JobID st, st_Seq st) := mkStepRow (st_Name st) (st_Status st)
            (tsMillis <$> st_StartedAt st) None (st_Attempt st) None None]> s, None)
    end.

(** The result column is [string(result)]: the empty text for a nil result. *)
Definition MarkStepSucceeded (flt : option error) (s : Store) (jobID : string) (seq attempt : Z)
    (res : option string) (ts : Z) : Store * option error :=
  stmt flt s (set_steps (alter (λ r, mkStepRow (sr_name r) StepSucceeded (sr_started_at r)
    (Some (tsMillis ts)) attempt (Some (default "" res)) (sr_error r)) (jobID, seq)) s, None).

Definition MarkStepFailed (flt : option error) (s : Store) (jobID : string) (seq : Z)
    (errMsg : string) (ts : Z) : Store * option error :=
  stmt flt s (set_steps (alter (λ r, mkStepRow (sr_name r) StepFailed (sr_started_at r)
    (Some (tsMillis ts)) (sr_attempt r) (sr_result r) (Some errMsg)) (jobID, seq)) s, None).

Definition scanStep (jobID : string) (seq : Z) (r : step_row) : JobStep :=
  mkStep jobID seq (sr_name r) (sr_status r) (fromNullMillis (sr_started_at r))
    (fromNullMillis (sr_finished_at r)) (sr_attempt r) (sr_result r) (default "" (sr_error r)).

Definition seq_le (a b : JobStep) : Prop := st_Seq a ≤ st_Seq b.
#[export] Instance seq_le_dec a b : Decision (seq_le a b).
Proof. unfold seq_le. apply _. Defined.

Definition steps_of (s : Store) (jobID : string) : list JobStep :=
  merge_sort seq_le
    ((λ p : string * Z * step_row, scanStep p.1.1 p.1.2 p.2)
       <$> filter (λ p : string * Z * step_row, p.1.1 = jobID) (map_to_list (job_steps s))).

Definition ListSteps (flt : option error) (s : Store) (jobID : string) : result (list JobStep) :=
  query flt (steps_of s jobID).

(** ** Events *)
Definition AppendEvent (flt : option error) (s : Store) (jobID : string) (t : JobEventType)
    (data : EventData) (ts : Z) : Store * option error :=
  stmt flt s (set_events (λ l, l ++ [mkEvent (Z.of_nat (length l) + 1) jobID (fromMillis (tsMillis ts)) t data]) s, None).

Definition ListEvents (flt : option error) (s : Store) (jobID : string) : result (list JobEvent) :=
  query flt (filter (λ e, ev_JobID e = jobID) (job_events s)).

(** ** Lemmas on the statements *)

Lemma all_jobs_elem s j :
  j ∈ all_jobs s ↔ ∃ r, jobs s !! j_ID j = Some r ∧ j = scanJob (j_ID j) r.
Proof.
  unfold all_jobs. rewrite list_elem_of_fmap. split.
  - intros ([i r] & -> & Hin%elem_of_map_to_list). by exists r.
  - intros (r & Hr & Hj). exists (j_ID j, r). split; [done|].
    by apply elem_of_map_to_list.
Qed.

#[local] Instance created_le_total : Total created_le.
Proof. intros a b. unfold created_le. lia. Qed.

Lemma by_created_asc_perm l : by_created_asc l ≡ₚ l.
Proof. apply merge_sort_Permutation. Qed.

Lemma by_created_desc_perm l : by_created_desc l ≡ₚ l.
Proof. apply merge_sort_Permutation. Qed.

Lemma all_jobs_NoDup s : NoDup (j_ID <$> all_jobs s).
Proof.
  unfold all_jobs. rewrite <- list_fmap_compose.
  replace (_ <$> map_to_list (jobs s)) with ((map_to_list (jobs s)).*1); [apply NoDup_fst_map_to_list|].
  apply list_fmap_ext. by intros ? [].
Qed.

Lemma ListJobsByStatus_elem s sts l j :
  ListJobsByStatus None s sts = Ok l →
  j ∈ l ↔ j_Status j ∈ sts ∧ j ∈ all_jobs s.
Proof.
  unfold ListJobsByStatus. destruct sts as [|st sts].
  - intros [= <-]. set_solver.
  - intros [= <-]. by rewrite by_created_asc_perm, list_elem_of_filter.
Qed.

Lemma steps_of_elem s jobID st :
  st ∈ steps_of s jobID ↔
  st_JobID st = jobID ∧
  ∃ r, job_steps s !! (jobID, st_Seq st) = Some r ∧ st = scanStep jobID (st_Seq st) r.
Proof.
  unfold steps_of. rewrite merge_sort_Permutation, list_elem_of_fmap. split.
  - intros ([[i q] r] & -> & [<- Hin]%list_elem_of_filter). simpl.
    apply elem_of_map_to_list in Hin. eauto.
  - intros (Hid & r & Hr & ->). exists (jobID, st_Seq st, r). simpl in *. split; [done|].
    apply list_elem_of_filter. split; [done|]. by apply elem_of_map_to_list.
Qed.

Lemma steps_of_NoDup s jobID : NoDup (steps_of s jobID).
Proof.
  unfold steps_of. rewrite merge_sort_Permutation. apply NoDup_fmap_2_strong.
  - intros [[i q] r] [[i' q'] r'] [_ H1]%list_elem_of_filter [_ H2]%list_elem_of_filter [= -> ->].
    apply elem_of_map_to_list in H1, H2. by simplify_eq.
  - apply NoDup_filter, NoDup_map_to_list.
Qed.

#[local] Instance seq_le_total : Total seq_le.
Proof. intros a b. unfold seq_le. lia. Qed.
#[local] Instance seq_le_trans : Transitive seq_le.
Proof. intros a b c. unfold seq_le. lia. Qed.

Lemma steps_of_sorted s jobID : StronglySorted seq_le (steps_of s jobID).
Proof. apply StronglySorted_merge_sort; apply _. Qed.

(** A listing depends on nothing but the job's own rows. *)
Lemma steps_of_ext s s' jobID :
  (∀ q, job_steps s !! (jobID, q) = job_steps s' !! (jobID, q)) → steps_of s jobID = steps_of s' jobID.
Proof.
  intros H. apply (StronglySorted_unique_strong seq_le); [|apply steps_of_sorted..|].
  - intros a b Ha Hb Hab Hba. rewrite steps_of_elem in Ha, Hb.
    destruct Ha as (_ & ra & Hra & Ea), Hb as (_ & rb & Hrb & Eb).
    assert (st_Seq a = st_Seq b) as Hq by (unfold seq_le in *; lia).
    rewrite Ea, Eb, Hq. f_equal. rewrite Hq, H in Hra. congruence.
  - apply NoDup_Permutation; [apply steps_of_NoDup..|]. intros st. rewrite !steps_of_elem.
    by setoid_rewrite H.
Qed.

(** A primary key leaves one row per (job, seq): names are found by seq. *)
Lemma steps_of_nonempty s jobID seq r :
  job_steps s !! (jobID, seq) = Some r → scanStep jobID seq r ∈ steps_of s jobID.
Proof. intros H. apply steps_of_elem. simpl. eauto. Qed.

(** The monotone part of the ledger: rows are only ever added or updated, and
    a step row keeps its name. *)
Definition ledger_le (s s' : Store) : Prop :=
  (∀ id r, jobs s !! id = Some r → ∃ r', jobs s' !! id = Some r' ∧ jr_kind r' = jr_kind r ∧
      jr_spec r' = jr_spec r ∧ jr_created_at r' = jr_created_at r) ∧
  (∀ k r, job_steps s !! k = Some r → ∃ r', job_steps s' !! k = Some r' ∧ sr_name r' = sr_name r) ∧
  job_events s `prefix_of` job_events s'.

#[export] Instance ledger_le_preorder : PreOrder ledger_le.
Proof.
  split.
  - intros s. repeat split; eauto.
  - intros s1 s2 s3 (Hj1 & Hs1 & He1) (Hj2 & Hs2 & He2). split_and!.
    + intros id r Hr. destruct (Hj1 _ _ Hr) as (r' & Hr' & ?&?&?).
      destruct (Hj2 _ _ Hr') as (r'' & Hr'' & ?&?&?). exists r''. split_and!; congruence.
    + intros k r Hr. destruct (Hs1 _ _ Hr) as (r' & Hr' & ?).
      destruct (Hs2 _ _ Hr') as (r'' & Hr'' & ?). exists r''. split; congruence.
    + by etrans.
Qed.

Lemma stmt_le flt s s' e : ledger_le s s' → ledger_le s (stmt flt s (s', e)).1.
Proof. intros H. by destruct flt. Qed.

Lemma set_jobs_alter_le f id s :
  (∀ r, jr_kind (f r) = jr_kind r ∧ jr_spec (f r) = jr_spec r ∧ jr_created_at (f r) = jr_created_at r) →
  ledger_le s (set_jobs (alter f id) s).
Proof.
  intros Hf. split_and!; simpl; eauto.
  intros i r Hr. rewrite lookup_alter. case_decide; simplify_eq; rewrite Hr; simpl; eauto.
Qed.

Lemma set_jobs_insert_le id r s : jobs s !! id = None → ledger_le s (set_jobs <[id:=r]> s).
Proof.
  intros Hn. split_and!; simpl; eauto.
  intros i r' Hr. rewrite lookup_insert_ne by congruence. eauto.
Qed.

Lemma set_steps_alter_le f k s :
  (∀ r, sr_name (f r) = sr_name r) → ledger_le s (set_steps (alter f k) s).
Proof.
  intros Hf. split_and!; simpl; eauto.
  intros i r Hr. rewrite lookup_alter. case_decide; simplify_eq; rewrite Hr; simpl; eauto.
Qed.

Lemma set_steps_insert_le k r s : job_steps s !! k = None → ledger_le s (set_steps <[k:=r]> s).
Proof.
  intros Hn. split_and!; simpl; eauto.
  intros i r' Hr. rewrite lookup_insert_ne by congruence. eauto.
Qed.

Create HintDb ledger discriminated.

Lemma CreateJob_le flt s j : ledger_le s (CreateJob flt s j).1.
Proof. unfold CreateJob. destruct flt; [done|]. simpl. case_match; [done|]. by apply set_jobs_insert_le. Qed.
Lemma RecordFinishedJob_le flt s j : ledger_le s (RecordFinishedJob flt s j).1.
Proof.
  unfold RecordFinishedJob. repeat case_match; try done.
  all: by apply set_jobs_insert_le.
Qed.
Lemma MarkJobStarted_le flt s id ts : ledger_le s (MarkJobStarted flt s id ts).1.
Proof. by apply stmt_le, set_jobs_alter_le. Qed.
Lemma MarkJobSucceeded_le flt s id ts : ledger_le s (MarkJobSucceeded flt s id ts).1.
Proof. by apply stmt_le, set_jobs_alter_le. Qed.
Lemma MarkJobFailed_le flt s id m ts : ledger_le s (MarkJobFailed flt s id m ts).1.
Proof. by apply stmt_le, set_jobs_alter_le. Qed.
Lemma CreateStep_le flt s st : ledger_le s (CreateStep flt s st).1.
Proof. unfold CreateStep. destruct flt; [done|]. simpl. case_match; [done|]. by apply set_steps_insert_le. Qed.
Lemma MarkStepSucceeded_le flt s id q a r ts : ledger_le s (MarkStepSucceeded flt s id q a r ts).1.
Proof. by apply stmt_le, set_steps_alter_le. Qed.
Lemma MarkStepFailed_le flt s id q m ts : ledger_le s (MarkStepFailed flt s id q m ts).1.
Proof. by apply stmt_le, set_steps_alter_le. Qed.
Lemma AppendEvent_le flt s id t d ts : ledger_le s (AppendEvent flt s id t d ts).1.
Proof. apply stmt_le. split_and!; simpl; eauto. by apply prefix_app_r. Qed.

#[export] Hint Resolve CreateJob_le RecordFinishedJob_le MarkJobStarted_le MarkJobSucceeded_le
  MarkJobFailed_le CreateStep_le MarkStepSucceeded_le MarkStepFailed_le AppendEvent_le : ledger.
