(* ===== verification/Saga.v ===== *)
(** * The saga runner (api/internal/jobs/saga.go)

    Every state-changing operation of the control plane is a job: a linear
    workflow of steps the runner drives while it writes the ledger.  The model
    threads a [World]: the ledger, the ordered trace of what the runner did
    outside it (step bodies called, events published, backoff waits, terminal
    hooks), and a tick that numbers every database statement and clock reading.

    What the runner does not decide comes in as parameters: which statements
    the driver fails ([db_fault]), what the clock reads, which ids ULID mints,
    which raw messages [encoding/json] accepts, and what each step body returns
    at each call.  A step body is any function of its [StepCtx] and of the tick
    at which it is called, so it may answer differently on every attempt. *)

From S2P Require Import Prelude Ledger.

(** ** Step bodies and workflows *)
Record StepCtx := mkStepCtx {
  sc_JobID : string; sc_Spec : string; sc_PriorResults : gmap string string; sc_CreatedBy : string }.

(** What one call of a step's [Do] did: the lines it logged through
    [StepCtx.Log] before returning, and the pair it returned. *)
Record DoResult := mkDo {
  do_logs : list (string * string); do_result : option string; do_err : option error }.

Definition DoFn : Type := StepCtx → nat → DoResult.

Record WorkflowStep := mkWStep {
  ws_Name : string; ws_Do : DoFn; ws_Timeout : Z; ws_Retries : Z; ws_Irreversible : bool }.

(** [wf_OnTerminal] says whether the workflow sets the hook; its calls are in
    the trace. *)
Record Workflow := mkWorkflow {
  wf_Kind : string; wf_Steps : list WorkflowStep; wf_OnTerminal : bool }.

Definition ErrStopWorkflow : error := sentinel "ErrStopWorkflow" "jobs: stop workflow early".
Definition ErrIrreversibleReplay : error := sentinel "ErrIrreversibleReplay" "jobs: irreversible step refused".
Definition ErrSecretInSpec : error := sentinel "ErrSecretInSpec" "jobs: a job spec cannot carry a secret.Value".
Definition ErrRawSpec : error :=
  sentinel "ErrRawSpec" "jobs: a pre-marshalled spec is accepted only through SubmitRawSpec".

(** The first step, in order, that is Irreversible and declares retries. *)
Fixpoint validate_steps (kind : string) (i : Z) (steps : list WorkflowStep) : option error :=
  match steps with
  | [] => None
  | s :: steps =>
      if ws_Irreversible s && bool_decide (0 < ws_Retries s) then
        Some (errors_New ("jobs: workflow " +:+ quote kind +:+ " step " +:+ pretty i +:+ " (" +:+ quote (ws_Name s) +:+
          "): an Irreversible step cannot declare Retries (got " +:+ pretty (ws_Retries s) +:+
          ") — a retry would repeat the side effect the declaration exists to protect"))
      else validate_steps kind (i + 1) steps
  end.

Definition ValidateWorkflow (w : Workflow) : option error := validate_steps (wf_Kind w) 0 (wf_Steps w).

(** [None] is the panic. *)
Definition Register (registry : gmap string Workflow) (w : Workflow) : option (gmap string Workflow) :=
  match ValidateWorkflow w with
  | Some _ => None
  | None => Some (<[wf_Kind w := w]> registry)
  end.

(** ** The world *)
Inductive effect :=
| EDo (jobID : string) (seq : Z) (name : string) (attempt : Z) (rows : gmap (string * Z) step_row)
    (** a step body was called; [rows] is the step table at that moment *)
| EPublish (jobID : string) (t : JobEventType) (data : EventData)
| EWait (delay : Z)
| ETerminal (kind jobID : string) (success : bool) (errMsg : string)
| ESpawn (jobID : string).

Record World := mkWorld { w_store : Store; w_trace : list effect; w_tick : nat }.

Inductive RecoverDecision := RecoverFail | RecoverDefer.

#[export] Instance RecoverDecision_eq_dec : EqDecision RecoverDecision.
Proof. solve_decision. Defined.

(** How a Go call ended: it returned an error value, or it panicked. *)
Inductive outcome := Returned (e : option error) | Panicked.

(** The argument of [Submit], as [encodeSpec] tells values apart: what
    [secret.Contains] and [json.Marshal] answer is carried by the value. *)
Inductive SpecArg :=
| SpecNil
| SpecRaw (bytes : string)
| SpecTyped (has_secret : bool) (encoded : result string).

Definition encodeSpec (kind : string) (spec : SpecArg) : result string :=
  match spec with
  | SpecNil => Ok "{}"
  | SpecRaw _ => Fail (wrapf (err_text ErrRawSpec +:+ ": job kind " +:+ quote kind) ErrRawSpec)
  | SpecTyped true _ => Fail (wrapf (err_text ErrSecretInSpec +:+ ": job kind " +:+ quote kind) ErrSecretInSpec)
  | SpecTyped false (Fail e) => Fail (wrapf ("jobs: marshal " +:+ kind +:+ " spec: " +:+ err_text e) e)
  | SpecTyped false (Ok b) => Ok b
  end.

Definition restart_msg : string := "control plane restarted mid-job".

Section Runner.
Context (db_fault : nat → option error).
Context (clock : nat → Z).
Context (mint : nat → string).
Context (json_valid : string → bool).
Context (backoff : Z → Z).

(** *** Primitive actions *)
Definition db {A} (op : option error → Store → Store * A) : M World A := λ w,
  let '(s, a) := op (db_fault (w_tick w)) (w_store w) in
  (a, mkWorld s (w_trace w) (S (w_tick w))).

Definition dbq {A} (op : option error → Store → result A) : M World (result A) := λ w,
  (op (db_fault (w_tick w)) (w_store w), mkWorld (w_store w) (w_trace w) (S (w_tick w))).

Definition time_now : M World Z := λ w,
  (clock (w_tick w), mkWorld (w_store w) (w_trace w) (S (w_tick w))).

Definition tell (e : effect) : M World unit := λ w,
  (tt, mkWorld (w_store w) (w_trace w ++ [e]) (w_tick w)).

(** Whether [json.Marshal] accepts the event's data: it refuses a struct
    whose raw message is not JSON.  An empty [Result] is left out by its
    [omitempty] tag, an empty [Spec] is not. *)
Definition marshals (d : EventData) : bool :=
  match d with
  | DataJob j => json_valid (j_Spec j)
  | DataStep d => match sed_Result d with
                  | Some r => bool_decide (r = "") || json_valid r
                  | None => true
                  end
  | _ => true
  end.

Definition emit (jobID : string) (t : JobEventType) (data : EventData) : M World unit :=
  let raw := if marshals data then data else DataNone in
  now ← time_now;
  _ ← db (λ f s, AppendEvent f s jobID t raw now);
  tell (EPublish jobID t raw).

Definition fireTerminal (wf : Workflow) (jobID : string) (success : bool) (errMsg : string) : M World unit :=
  if wf_OnTerminal wf then tell (ETerminal (wf_Kind wf) jobID success errMsg) else mret tt.

(** *** Submission *)

(** Everything after the spec is bytes.  [prepare] is the optional callback,
    here its answer for the minted id: what it does on the way (the capture of a
    secret under that id) belongs to the caller's state, not to this world. *)
Definition create (workflows : gmap string Workflow) (kind raw createdBy parentID : string)
    (prepare : option (string → option error)) : M World (result Job) :=
  match workflows !! kind with
  | None => mret (Fail (errors_New ("unknown job kind " +:+ quote kind)))
  | Some wf =>
      id ← (λ w, (mint (w_tick w), w)) : M World string;
      now ← time_now;
      let j := mkJob id kind raw StatusQueued createdBy now None None
                 (if bool_decide (parentID = "") then None else Some parentID) "" in
      match (match prepare with Some p => p id | None => None end) with
      | Some e => mret (Fail e)
      | None =>
          err ← db (λ f s, CreateJob f s j);
          match err with
          | Some e => mret (Fail (wrapf ("create job: " +:+ err_text e) e))
          | None =>
              _ ← emit id JobCreated (DataJob j);
              _ ← tell (ESpawn id);
              mret (Ok j)
          end
      end
  end.

Definition submit (workflows : gmap string Workflow) (kind : string) (spec : SpecArg)
    (createdBy parentID : string) (prepare : option (string → option error)) : M World (result Job) :=
  match encodeSpec kind spec with
  | Fail e => mret (Fail e)
  | Ok raw => create workflows kind raw createdBy parentID prepare
  end.

Definition Submit (workflows : gmap string Workflow) (kind : string) (spec : SpecArg) (createdBy : string) :=
  submit workflows kind spec createdBy "" None.

Definition SubmitPrepared (workflows : gmap string Workflow) (kind : string) (spec : SpecArg)
    (createdBy : string) (prepare : string → option error) :=
  submit workflows kind spec createdBy "" (Some prepare).

Definition SubmitChild (workflows : gmap string Workflow) (kind : string) (spec : SpecArg)
    (createdBy parentID : string) : M World (result Job) :=
  if bool_decide (parentID = "") then
    mret (Fail (errors_New "SubmitChild requires a parentID; call Submit for a root job"))
  else submit workflows kind spec createdBy parentID None.

Definition SubmitRawSpec (workflows : gmap string Workflow) (kind spec createdBy : string) :=
  create workflows kind (if bool_decide (spec = "") then "{}" else spec) createdBy "" None.

(** *** Running one step *)

Definition replay_error (text : string) : error :=
  wrapf (err_text ErrIrreversibleReplay +:+ ": " +:+ text) ErrIrreversibleReplay.

Definition assertNoPriorAttempt (jobID : string) (seq : Z) (step : WorkflowStep) : M World (option error) :=
  steps ← dbq (λ f s, ListSteps f s jobID);
  match steps with
  | Fail e => mret (Some (replay_error ("job " +:+ jobID +:+ " step " +:+ pretty seq +:+ " (" +:+ quote (ws_Name step) +:+
                "): cannot read the step ledger: " +:+ err_text e)))
  | Ok l =>
      match list_find (λ st, st_Seq st = seq ∨ st_Name st = ws_Name step) l with
      | Some (_, st) => mret (Some (replay_error ("job " +:+ jobID +:+ " step " +:+ pretty seq +:+ " (" +:+
            quote (ws_Name step) +:+ ") already has a recorded attempt (ledger seq " +:+ pretty (st_Seq st) +:+ " " +:+
            quote (st_Name st) +:+ ", status " +:+ StepStatus_text (st_Status st) +:+ ", attempt " +:+
            pretty (st_Attempt st) +:+ "); an irreversible step is never re-run")))
      | None => mret None
      end
  end.

Definition call_do (j : Job) (seq : Z) (step : WorkflowStep) (attempt : Z)
    (prior : gmap string string) : M World DoResult :=
  w ← get;
  _ ← tell (EDo (j_ID j) seq (ws_Name step) attempt (job_steps (w_store w)));
  let r := ws_Do step (mkStepCtx (j_ID j) (j_Spec j) prior (j_CreatedBy j)) (w_tick w) in
  _ ← for_each (λ '(lvl, msg), emit (j_ID j) JobLog (DataLog lvl msg)) (do_logs r);
  mret r.

Definition err_string (e : option error) : string := default "" (err_text <$> e).

(** [n] is the number of attempts left, [attempt] the loop variable. *)
Fixpoint attempts (j : Job) (seq : Z) (step : WorkflowStep) (n : nat) (attempt : Z)
    (lastErr : option error) (prior : gmap string string) {struct n} : M World (outcome * gmap string string) :=
  match n with
  | O =>
      match lastErr with
      | None => mret (Panicked, prior)
      | Some e =>
          ts ← time_now;
          _ ← db (λ f s, MarkStepFailed f s (j_ID j) seq (err_text e) ts);
          _ ← emit (j_ID j) JobStepFailed (DataStep (mkStepEvent seq (ws_Name step) 0 None (err_text e)));
          mret (Returned (Some e), prior)
      end
  | S n =>
      _ ← (if bool_decide (0 < attempt) then
             _ ← emit (j_ID j) JobStepRetrying
                   (DataStep (mkStepEvent seq (ws_Name step) attempt None (err_string lastErr)));
             if bool_decide (0 < backoff attempt) then tell (EWait (backoff attempt)) else mret tt
           else mret tt);
      r ← call_do j seq step attempt prior;
      let succeed :=
        ts ← time_now;
        _ ← db (λ f s, MarkStepSucceeded f s (j_ID j) seq attempt (do_result r) ts);
        emit (j_ID j) JobStepSucceeded (DataStep (mkStepEvent seq (ws_Name step) attempt (do_result r) "")) in
      match do_err r with
      | None =>
          _ ← succeed;
          mret (Returned None,
            match do_result r with Some v => <[ws_Name step := v]> prior | None => prior end)
      | Some e =>
          if errors_Is e "ErrStopWorkflow" then
            _ ← succeed;
            mret (Returned (Some ErrStopWorkflow), prior)
          else attempts j seq step n (attempt + 1) (Some e) prior
      end
  end.

Definition maxAttempts (step : WorkflowStep) : Z :=
  if ws_Irreversible step then 1 else wrap64 (ws_Retries step + 1).

Definition runStep (j : Job) (seq : Z) (step : WorkflowStep) (prior : gmap string string)
    : M World (outcome * gmap string string) :=
  refused ← (if ws_Irreversible step then assertNoPriorAttempt (j_ID j) seq step else mret None);
  match refused with
  | Some e =>
      _ ← emit (j_ID j) JobStepFailed (DataStep (mkStepEvent seq (ws_Name step) 0 None (err_text e)));
      mret (Returned (Some e), prior)
  | None =>
      startedAt ← time_now;
      _ ← db (λ f s, CreateStep f s (mkStep (j_ID j) seq (ws_Name step) StepRunning (Some startedAt) None 0 None ""));
      _ ← emit (j_ID j) JobStepStarted (DataStep (mkStepEvent seq (ws_Name step) 0 None ""));
      attempts j seq step (Z.to_nat (maxAttempts step)) 0 None prior
  end.

(** *** Running a job *)
Fixpoint run_steps (j : Job) (seq : Z) (steps : list WorkflowStep) (prior : gmap string string)
    : M World outcome :=
  match steps with
  | [] => mret (Returned None)
  | step :: steps =>
      p ← runStep j seq step prior;
      match p with
      | (Panicked, _) => mret Panicked
      | (Returned None, prior) => run_steps j (seq + 1) steps prior
      | (Returned (Some e), _) =>
          if errors_Is e "ErrStopWorkflow" then mret (Returned None) else mret (Returned (Some e))
      end
  end.

Definition finish_failed (wf : Workflow) (jobID : string) (e : error) : M World unit :=
  now ← time_now;
  _ ← db (λ f s, MarkJobFailed f s jobID (err_text e) now);
  _ ← emit jobID JobFailed (DataError (err_text e));
  fireTerminal wf jobID false (err_text e).

Definition finish_succeeded (wf : Workflow) (jobID : string) : M World unit :=
  now ← time_now;
  _ ← db (λ f s, MarkJobSucceeded f s jobID now);
  _ ← emit jobID JobSucceeded DataNone;
  fireTerminal wf jobID true "".

Definition run (j : Job) (wf : Workflow) : M World outcome :=
  now ← time_now;
  _ ← db (λ f s, MarkJobStarted f s (j_ID j) now);
  _ ← emit (j_ID j) JobStarted DataNone;
  out ← run_steps j 0 (wf_Steps wf) ∅;
  match out with
  | Panicked => mret Panicked
  | Returned (Some e) => _ ← finish_failed wf (j_ID j) e; mret out
  | Returned None => _ ← finish_succeeded wf (j_ID j); mret out
  end.

(** *** Startup recovery and deferred completion *)
Definition recover_step (jobID : string) (now : Z) (st : JobStep) : M World unit :=
  if bool_decide (st_Status st = StepRunning) then
    _ ← db (λ f s, MarkStepFailed f s jobID (st_Seq st) restart_msg now); mret tt
  else mret tt.

Definition steps_or_nil (r : result (list JobStep)) : list JobStep :=
  match r with Ok l => l | Fail _ => [] end.

Definition recover_fail (workflows : gmap string Workflow) (j : Job) : M World unit :=
  now ← time_now;
  err ← db (λ f s, MarkJobFailed f s (j_ID j) restart_msg now);
  match err with
  | Some _ => mret tt
  | None =>
      steps ← dbq (λ f s, ListSteps f s (j_ID j));
      _ ← for_each (recover_step (j_ID j) now) (steps_or_nil steps);
      _ ← emit (j_ID j) JobFailed (DataRecovered restart_msg);
      match workflows !! j_Kind j with
      | Some wf => fireTerminal wf (j_ID j) false restart_msg
      | None => mret tt
      end
  end.

Definition recover_job (workflows : gmap string Workflow)
    (decider : option (Job → list JobStep → RecoverDecision)) (j : Job) : M World unit :=
  match decider with
  | Some d =>
      steps ← dbq (λ f s, ListSteps f s (j_ID j));
      if bool_decide (d j (steps_or_nil steps) = RecoverDefer) then mret tt
      else recover_fail workflows j
  | None => recover_fail workflows j
  end.

Definition Recover (workflows : gmap string Workflow)
    (decider : option (Job → list JobStep → RecoverDecision)) : M World (option error) :=
  inFlight ← dbq (λ f s, ListJobsByStatus f s [StatusQueued; StatusRunning]);
  match inFlight with
  | Fail e => mret (Some e)
  | Ok l => _ ← for_each (recover_job workflows decider) l; mret None
  end.

Definition FinishDeferred (workflows : gmap string Workflow) (jobID : string) (success : bool)
    (errMsg : string) : M World unit :=
  now ← time_now;
  r ← dbq (λ f s, GetJob f s jobID);
  let wf := match r with Ok (Some j) => workflows !! j_Kind j | _ => None end in
  let fire (ok : bool) (msg : string) : M World unit :=
    match wf with Some wf => fireTerminal wf jobID ok msg | None => mret tt end in
  if success then
    _ ← db (λ f s, MarkJobSucceeded f s jobID now);
    _ ← emit jobID JobSucceeded DataNone;
    fire true ""
  else
    _ ← db (λ f s, MarkJobFailed f s jobID errMsg now);
    _ ← emit jobID JobFailed (DataError errMsg);
    fire false errMsg.
End Runner.
