(* ===== verification/SagaFacts.v ===== *)
(** * What the saga runner guarantees

    Theorems about [Saga].  The shared relation [own id P] says what a program
    acting for job [id] may do to the world: grow the ledger monotonically,
    touch no other job's rows, and append to the trace only effects in [P].
    Every runner action is shown to respect it once, for every fault pattern;
    the properties follow from it. *)

From S2P Require Import Prelude Ledger Saga.

(** ** The transition relation of a job's own actions *)
Record own (id : string) (P : effect → Prop) (w w' : World) : Prop := {
  own_le : ledger_le (w_store w) (w_store w');
  own_jobs i : i ≠ id → jobs (w_store w') !! i = jobs (w_store w) !! i;
  own_steps i q : i ≠ id → job_steps (w_store w') !! (i, q) = job_steps (w_store w) !! (i, q);
  own_events i : i ≠ id → filter (λ e, ev_JobID e = i) (job_events (w_store w'))
                        = filter (λ e, ev_JobID e = i) (job_events (w_store w));
  own_trace : ∃ new, w_trace w' = w_trace w ++ new ∧ Forall P new }.

#[export] Instance own_preorder id P : PreOrder (own id P).
Proof.
  split.
  - intros w. split; try done. exists []. by rewrite app_nil_r.
  - intros w1 w2 w3 [L1 J1 S1 E1 (n1 & T1 & F1)] [L2 J2 S2 E2 (n2 & T2 & F2)]. split.
    + by etrans.
    + intros i Hi. by rewrite J2, J1.
    + intros i q Hi. by rewrite S2, S1.
    + intros i Hi. by rewrite E2, E1.
    + exists (n1 ++ n2). rewrite T2, T1, app_assoc. split; [done|]. by apply Forall_app.
Qed.

Lemma own_weaken id (P Q : effect → Prop) w w' :
  (∀ e, P e → Q e) → own id P w w' → own id Q w w'.
Proof.
  intros H [L J S E (n & T & F)]. split; try done. exists n. split; [done|].
  by eapply Forall_impl.
Qed.

(** The effects a program appended. *)
Definition new_effects (w w' : World) : list effect := drop (length (w_trace w)) (w_trace w').

Lemma own_new id P w w' : own id P w w' → Forall P (new_effects w w').
Proof. intros [_ _ _ _ (n & T & F)]. unfold new_effects. by rewrite T, drop_app_length. Qed.

(** Effects other than a step body's call. *)
Definition quiet (e : effect) : Prop := match e with EDo _ _ _ _ _ => False | _ => True end.

(** Store-level locality of the statements the runner issues for job [id]. *)
Definition local_to (id : string) (s s' : Store) : Prop :=
  ledger_le s s' ∧
  (∀ i, i ≠ id → jobs s' !! i = jobs s !! i) ∧
  (∀ i q, i ≠ id → job_steps s' !! (i, q) = job_steps s !! (i, q)) ∧
  (∀ i, i ≠ id → filter (λ e, ev_JobID e = i) (job_events s') = filter (λ e, ev_JobID e = i) (job_events s)).

Lemma local_refl id s : local_to id s s.
Proof. refine (conj _ (conj _ (conj _ _))); done. Qed.

Lemma local_jobs id f s :
  ledger_le s (set_jobs f s) → (∀ i, i ≠ id → f (jobs s) !! i = jobs s !! i) →
  local_to id s (set_jobs f s).
Proof. intros. refine (conj _ (conj _ (conj _ _))); done. Qed.

Lemma local_steps id f s :
  ledger_le s (set_steps f s) → (∀ i q, i ≠ id → f (job_steps s) !! (i, q) = job_steps s !! (i, q)) →
  local_to id s (set_steps f s).
Proof. intros. refine (conj _ (conj _ (conj _ _))); done. Qed.

Lemma local_stmt id flt s s' e : local_to id s s' → local_to id s (stmt flt s (s', e)).1.
Proof. destruct flt; [intros; apply local_refl|done]. Qed.

Create HintDb locality discriminated.

Lemma MarkJobStarted_local flt s id ts : local_to id s (MarkJobStarted flt s id ts).1.
Proof. apply local_stmt, local_jobs; [by apply set_jobs_alter_le|]. intros. by rewrite lookup_alter_ne. Qed.
Lemma MarkJobSucceeded_local flt s id ts : local_to id s (MarkJobSucceeded flt s id ts).1.
Proof. apply local_stmt, local_jobs; [by apply set_jobs_alter_le|]. intros. by rewrite lookup_alter_ne. Qed.
Lemma MarkJobFailed_local flt s id m ts : local_to id s (MarkJobFailed flt s id m ts).1.
Proof. apply local_stmt, local_jobs; [by apply set_jobs_alter_le|]. intros. by rewrite lookup_alter_ne. Qed.
Lemma MarkStepSucceeded_local flt s id q a r ts : local_to id s (MarkStepSucceeded flt s id q a r ts).1.
Proof. apply local_stmt, local_steps; [by apply set_steps_alter_le|]. intros. by rewrite lookup_alter_ne by congruence. Qed.
Lemma MarkStepFailed_local flt s id q m ts : local_to id s (MarkStepFailed flt s id q m ts).1.
Proof. apply local_stmt, local_steps; [by apply set_steps_alter_le|]. intros. by rewrite lookup_alter_ne by congruence. Qed.
Lemma CreateStep_local flt s st id : st_JobID st = id → local_to id s (CreateStep flt s st).1.
Proof.
  intros <-. unfold CreateStep. destruct flt; [apply local_refl|]. simpl.
  case_match; [apply local_refl|].
  apply local_steps; [by apply set_steps_insert_le|]. intros. by rewrite lookup_insert_ne by congruence.
Qed.
Lemma CreateJob_local flt s j : local_to (j_ID j) s (CreateJob flt s j).1.
Proof.
  unfold CreateJob. destruct flt; [apply local_refl|]. simpl.
  case_match eqn:E; [apply local_refl|].
  apply local_jobs; [by apply set_jobs_insert_le|]. intros. by rewrite lookup_insert_ne by congruence.
Qed.
Lemma AppendEvent_local flt s id t d ts : local_to id s (AppendEvent flt s id t d ts).1.
Proof.
  apply local_stmt. refine (conj (AppendEvent_le None _ _ _ _ _) (conj _ (conj _ _))); try done.
  intros i Hi. simpl. rewrite filter_app, filter_cons_False, filter_nil by (simpl; congruence). by rewrite app_nil_r.
Qed.

#[export] Hint Resolve MarkJobStarted_local MarkJobSucceeded_local MarkJobFailed_local
  MarkStepSucceeded_local MarkStepFailed_local CreateStep_local CreateJob_local AppendEvent_local : locality.

Section Facts.
Context (db_fault : nat → option error).
Context (clock : nat → Z).
Context (json_valid : string → bool).
Context (backoff : Z → Z).

Abbreviation emit := (emit db_fault clock json_valid).
Abbreviation runStep := (runStep db_fault clock json_valid backoff).
Abbreviation attempts := (attempts db_fault clock json_valid backoff).
Abbreviation run_steps := (run_steps db_fault clock json_valid backoff).
Abbreviation run := (run db_fault clock json_valid backoff).

(** *** Every action respects [own] *)
Lemma own_db {A} id P (op : option error → Store → Store * A) :
  (∀ f s, local_to id s (op f s).1) → yields (own id P) (db db_fault op).
Proof.
  intros H w. unfold db. specialize (H (db_fault (w_tick w)) (w_store w)).
  destruct (op _ _) as [s a]. simpl in *. destruct H as (?&?&?&?). split; try done.
  exists []. by rewrite app_nil_r.
Qed.

Lemma own_dbq {A} id P (op : option error → Store → result A) : yields (own id P) (dbq db_fault op).
Proof. intros w. split; try done. exists []. by rewrite app_nil_r. Qed.

Lemma own_now id P : yields (own id P) (time_now clock).
Proof. intros w. split; try done. exists []. by rewrite app_nil_r. Qed.

Lemma own_tell id (P : effect → Prop) e : P e → yields (own id P) (tell e).
Proof. intros He w. split; try done. exists [e]. split; [done|]. by constructor. Qed.

Lemma own_emit id (P : effect → Prop) t d :
  (∀ d', P (EPublish id t d')) → yields (own id P) (emit id t d).
Proof.
  intros HP. unfold Saga.emit.
  apply yields_bind; [apply _|apply own_now|intros now].
  apply yields_bind; [apply _|apply own_db; intros; apply AppendEvent_local|intros _].
  by apply own_tell.
Qed.

Lemma own_fireTerminal (P : effect → Prop) id wf ok msg :
  (P (ETerminal (wf_Kind wf) id ok msg)) → yields (own id P) (fireTerminal wf id ok msg).
Proof. intros HP. unfold fireTerminal. destruct (wf_OnTerminal wf); [by apply own_tell|apply yields_ret, _]. Qed.

(** Effects of job [id] that are neither step bodies nor terminal hooks, and
    with the terminal hooks. *)
Definition aux0 (id : string) (e : effect) : Prop :=
  match e with
  | EPublish i _ _ => i = id
  | EWait _ => True
  | _ => False
  end.
Definition aux (id : string) (e : effect) : Prop :=
  match e with ETerminal _ i _ _ => i = id | _ => aux0 id e end.
End Facts.

#[export] Hint Extern 1 (yields (own _ _) (Saga.emit _ _ _ _ _ _)) => apply own_emit; done : yields.
#[export] Hint Extern 1 (yields (own _ _) (time_now _)) => apply own_now : yields.
#[export] Hint Extern 1 (yields (own _ _) (dbq _ _)) => apply own_dbq : yields.
#[export] Hint Extern 1 (yields (own _ _) (tell _)) => apply own_tell; done : yields.
#[export] Hint Extern 1 (yields (own _ _) (fireTerminal _ _ _ _)) => apply own_fireTerminal; done : yields.
#[export] Hint Extern 2 (yields (own _ _) (db _ _)) => apply own_db; intros; auto with locality : yields.

(** ** Step bodies and the ledger *)

(** The ledger holds a row of job [id] named [name], or at [seq]. *)
Definition recorded (id name : string) (rows : gmap (string * Z) step_row) : Prop :=
  ∃ q r, rows !! (id, q) = Some r ∧ sr_name r = name.

Definition steps_le (m m' : gmap (string * Z) step_row) : Prop :=
  ∀ k r, m !! k = Some r → ∃ r', m' !! k = Some r' ∧ sr_name r' = sr_name r.

#[export] Instance steps_le_dec m m' : Decision (steps_le m m').
Proof.
  destruct (decide (map_Forall (λ k r,
    sr_name <$> m' !! k = Some (sr_name r)) m)) as [H|H]; [left|right].
  - intros k r Hr. specialize (H k r Hr). apply fmap_Some in H as (r' & ? & ?). by exists r'.
  - intros Hle. apply H. intros k r Hr. destruct (Hle k r Hr) as (r' & -> & <-). done.
Defined.

Lemma recorded_le id name m m' : steps_le m m' → recorded id name m → recorded id name m'.
Proof. intros H (q & r & Hr & <-). destruct (H _ _ Hr) as (r' & ? & ?). by exists q, r'. Qed.

Lemma own_steps_le id P w w' :
  own id P w w' → steps_le (job_steps (w_store w)) (job_steps (w_store w')).
Proof. by intros [(_ & H & _) _ _ _ _]. Qed.

(** The row a step body's call is entitled to: its own, under its own name. *)
Definition has_row (id : string) (seq : Z) (name : string) (w : World) : Prop :=
  ∃ r, job_steps (w_store w) !! (id, seq) = Some r ∧ sr_name r = name.

Lemma own_has_row id seq name P w w' : own id P w w' → has_row id seq name w → has_row id seq name w'.
Proof.
  intros Hown (r & Hr & <-). destruct (own_steps_le _ _ _ _ Hown _ _ Hr) as (r' & ? & ?).
  by exists r'.
Qed.

Section Calls.
Context (db_fault : nat → option error).
Context (clock : nat → Z).
Context (json_valid : string → bool).
Context (backoff : Z → Z).

Abbreviation emit := (emit db_fault clock json_valid).
Abbreviation call_do := (call_do db_fault clock json_valid).
Abbreviation runStep := (runStep db_fault clock json_valid backoff).
Abbreviation attempts := (attempts db_fault clock json_valid backoff).
Abbreviation run_steps := (run_steps db_fault clock json_valid backoff).
Abbreviation run := (run db_fault clock json_valid backoff).

(** Invariants over a run: the world moved along [own id P] from [w0], and an
    upward-closed fact [F] still holds. *)
Definition since (id : string) (P : effect → Prop) (F : World → Prop) (w0 w : World) : Prop :=
  own id P w0 w ∧ F w.

Definition upward (id : string) (F : World → Prop) : Prop :=
  ∀ P w w', own id P w w' → F w → F w'.

Lemma since_yields {A} id (P Q : effect → Prop) F w0 (m : M World A) :
  yields (own id Q) m → (∀ e, Q e → P e) → upward id F → preserves (since id P F w0) m.
Proof.
  intros Hm HQ HF w [Hown Hw]. specialize (Hm w). split.
  - etrans; [done|]. by eapply own_weaken.
  - by eapply HF.
Qed.

(** A step body's call, for effects [P] that admit it whenever [F] holds. *)
Lemma call_do_since id P F w0 j seq step att prior :
  j_ID j = id → upward id F → (∀ e, aux0 id e → P e) →
  (∀ w, F w → P (EDo id seq (ws_Name step) att (job_steps (w_store w)))) →
  preserves (since id P F w0) (call_do j seq step att prior).
Proof.
  intros <- HF Haux HP. unfold Saga.call_do. intros w [Hown Hw].
  rewrite bind_run, bind_run. simpl. rewrite bind_run. simpl.
  assert (yields (own (j_ID j) (aux0 (j_ID j)))
    (for_each (λ '(lvl, msg), emit (j_ID j) JobLog (DataLog lvl msg))
      (do_logs (ws_Do step (mkStepCtx (j_ID j) (j_Spec j) prior (j_CreatedBy j)) (w_tick w))))) as Hlog.
  { apply yields_for_each; [apply _|]. intros [lvl msg] _. apply own_emit; done. }
  set (w1 := exec (tell _) _).
  assert (own (j_ID j) P w w1) as H1 by (apply own_tell; auto).
  specialize (Hlog w1). apply (own_weaken _ _ P) in Hlog; [|done].
  split; [etrans; [exact Hown|]; etrans; [exact H1|exact Hlog]|].
  eapply HF; [exact Hlog|]. by eapply HF.
Qed.

Lemma attempts_since id P F w0 j seq step n a lastErr prior :
  j_ID j = id → upward id F → (∀ e, aux0 id e → P e) →
  (∀ w att, F w → P (EDo id seq (ws_Name step) att (job_steps (w_store w)))) →
  preserves (since id P F w0) (attempts j seq step n a lastErr prior).
Proof.
  intros Hid HF Haux HP.
  assert (∀ B (m : M World B), yields (own id (aux0 id)) m → preserves (since id P F w0) m) as Hq.
  { intros B m Hm. by eapply since_yields. }
  revert a lastErr prior. induction n as [|n IH]; intros a lastErr prior; simpl; subst id.
  - destruct lastErr; [|apply preserves_ret]. apply Hq. yield.
  - apply preserves_bind; [apply Hq; yield|intros _].
    apply preserves_bind; [apply call_do_since; auto|intros r].
    destruct (do_err r) as [e|]; [destruct (errors_Is e _)|].
    + apply preserves_bind; [apply Hq; yield|intros _; apply preserves_ret].
    + apply IH.
    + apply preserves_bind; [apply Hq; yield|intros _; apply preserves_ret].
Qed.

(** Effects of job [id]: its auxiliary ones, its hooks and its step bodies. *)
Definition of_job (id : string) (e : effect) : Prop :=
  match e with EDo i _ _ _ _ => i = id | _ => aux id e end.

Lemma aux0_aux id e : aux0 id e → aux id e.
Proof. by destruct e. Qed.

Lemma aux_of_job id e : aux id e → of_job id e.
Proof. by destruct e. Qed.

Lemma since_refl id P (F : World → Prop) w : F w → since id P F w w.
Proof. by split. Qed.

Lemma assertNoPriorAttempt_own id seq step :
  yields (own id (aux0 id)) (assertNoPriorAttempt db_fault id seq step).
Proof. unfold assertNoPriorAttempt. yield. Qed.

Lemma create_step_own (id : string) seq name startedAt :
  yields (own id (aux0 id))
    (db db_fault (λ f s, CreateStep f s (mkStep id seq name StepRunning (Some startedAt) None 0 None ""))).
Proof. apply own_db. intros. by apply CreateStep_local. Qed.

(** One step, for any effects that admit its body's calls. *)
Lemma runStep_since id P F w0 j seq step prior :
  j_ID j = id → upward id F → (∀ e, aux0 id e → P e) →
  (∀ w att, F w → P (EDo id seq (ws_Name step) att (job_steps (w_store w)))) →
  preserves (since id P F w0) (runStep j seq step prior).
Proof.
  intros Hid HF Haux HP.
  assert (∀ B (m : M World B), yields (own id (aux0 id)) m → preserves (since id P F w0) m) as Hq.
  { intros B m Hm. by eapply since_yields. }
  unfold Saga.runStep. subst id.
  apply preserves_bind.
  { destruct (ws_Irreversible step); [apply Hq, assertNoPriorAttempt_own|apply preserves_ret]. }
  intros [e|].
  - apply Hq. yield.
  - apply preserves_bind; [apply Hq; yield|intros t].
    apply preserves_bind; [apply Hq, create_step_own|intros _].
    apply preserves_bind; [apply Hq; yield|intros _].
    by apply attempts_since.
Qed.

Lemma run_steps_since id P F w0 j seq steps prior :
  (∀ i step prior, steps !! i = Some step →
     preserves (since id P F w0) (runStep j (seq + Z.of_nat i) step prior)) →
  preserves (since id P F w0) (run_steps j seq steps prior).
Proof.
  revert seq prior. induction steps as [|step steps IH]; intros seq prior Hstep; simpl.
  - apply preserves_ret.
  - apply preserves_bind.
    { specialize (Hstep 0%nat step prior eq_refl). by rewrite Z.add_0_r in Hstep. }
    intros [[[e|]|] prior']; [destruct (errors_Is e _); apply preserves_ret| |apply preserves_ret].
    apply IH. intros i st pr Hi. specialize (Hstep (S i) st pr Hi).
    by replace (seq + 1 + Z.of_nat i) with (seq + Z.of_nat (S i)) by lia.
Qed.

(** The job as a whole: the steps plus the runner's own bookkeeping. *)
Lemma run_since id P F w0 j wf :
  j_ID j = id → upward id F → (∀ e, aux id e → P e) →
  (∀ i step prior, wf_Steps wf !! i = Some step →
     preserves (since id P F w0) (runStep j (Z.of_nat i) step prior)) →
  preserves (since id P F w0) (run j wf).
Proof.
  intros Hid HF Haux Hstep.
  assert (∀ B (m : M World B), yields (own id (aux id)) m → preserves (since id P F w0) m) as Hq.
  { intros B m Hm. by eapply since_yields. }
  unfold Saga.run. subst id.
  apply preserves_bind; [apply Hq; yield|intros t].
  apply preserves_bind; [apply Hq; yield|intros _].
  apply preserves_bind; [apply Hq; yield|intros _].
  apply preserves_bind; [by apply run_steps_since|].
  intros [[e|]|]; [| |apply preserves_ret].
  - apply Hq. unfold finish_failed. yield.
  - apply Hq. unfold finish_succeeded. yield.
Qed.

Lemma run_own j wf : yields (own (j_ID j) (of_job (j_ID j))) (run j wf).
Proof.
  intros w.
  assert (preserves (since (j_ID j) (of_job (j_ID j)) (λ _, True) w) (run j wf)) as H.
  { apply run_since; [done|by intros ?|apply aux_of_job|].
    intros i step prior _. apply runStep_since; [done|by intros ?|by intros []|done]. }
  apply H. by apply since_refl.
Qed.

(** *** Irreversible steps *)

(** A recorded step is refused, whatever the driver does. *)
Lemma assertNoPriorAttempt_recorded id seq step w :
  recorded id (ws_Name step) (job_steps (w_store w)) →
  ∃ e, eval (assertNoPriorAttempt db_fault id seq step) w = Some e.
Proof.
  intros (q & r & Hr & Hn). unfold assertNoPriorAttempt. rewrite eval_bind.
  unfold eval at 2. simpl. unfold ListSteps, query.
  destruct (db_fault (w_tick w)); simpl; [eauto|].
  destruct (list_find _ _) as [[? st]|] eqn:E; [simpl; eauto|].
  apply list_find_None in E. rewrite Forall_forall in E.
  destruct (E _ (steps_of_nonempty _ _ _ _ Hr)). by right.
Qed.

(** A refused step: an event, and no call. *)
Lemma runStep_recorded id P w0 j seq step prior :
  j_ID j = id → ws_Irreversible step = true → (∀ e, aux0 id e → P e) →
  let F := λ w, recorded id (ws_Name step) (job_steps (w_store w)) in
  preserves (since id P F w0) (runStep j seq step prior).
Proof.
  intros Hid Hirr Haux F.
  assert (upward id F) as HF.
  { intros Q w w' Hown HFw. eapply recorded_le; [by eapply own_steps_le|done]. }
  subst id. intros w [Hown Hw].
  destruct (assertNoPriorAttempt_recorded (j_ID j) seq step w Hw) as [e He].
  unfold Saga.runStep. rewrite Hirr, bind_run, He.
  assert (preserves (since (j_ID j) P F w0) (
     emit (j_ID j) JobStepFailed (DataStep (mkStepEvent seq (ws_Name step) 0 None (err_text e))) ≫= λ _,
     mret (Returned (Some e), prior))) as H.
  { eapply since_yields; [|done|done]. yield. }
  apply H. eapply since_yields; [apply assertNoPriorAttempt_own|done|done|done].
Qed.

Lemma assertNoPriorAttempt_store id seq step w :
  w_store (exec (assertNoPriorAttempt db_fault id seq step) w) = w_store w.
Proof. unfold assertNoPriorAttempt. rewrite exec_bind. repeat case_match; done. Qed.

(** An accepted step has no row at its position yet. *)
Lemma assertNoPriorAttempt_None id seq step w :
  db_fault (w_tick w) = None →
  eval (assertNoPriorAttempt db_fault id seq step) w = None →
  job_steps (w_store w) !! (id, seq) = None.
Proof.
  intros Hok. unfold assertNoPriorAttempt. rewrite eval_bind.
  unfold eval at 2. simpl. unfold ListSteps, query. rewrite Hok.
  destruct (job_steps (w_store w) !! (id, seq)) as [r|] eqn:Hr; [|done]. simpl.
  destruct (list_find _ _) as [[? st]|] eqn:E; [done|].
  apply list_find_None in E. rewrite Forall_forall in E.
  destruct (E _ (steps_of_nonempty _ _ _ _ Hr)). by left.
Qed.

(** With no fault, the body of an Irreversible step is only ever called with
    its row already in the ledger. *)
Lemma runStep_records id P w0 j seq step prior :
  (∀ n, db_fault n = None) → j_ID j = id → ws_Irreversible step = true → (∀ e, aux0 id e → P e) →
  (∀ w att, has_row id seq (ws_Name step) w →
     P (EDo id seq (ws_Name step) att (job_steps (w_store w)))) →
  preserves (since id P (λ _, True) w0) (runStep j seq step prior).
Proof.
  intros Hok <- Hirr Haux HP w [Hown _]. set (id := j_ID j) in *.
  assert (∀ B (m : M World B), yields (own id (aux0 id)) m → preserves (since id P (λ _, True) w0) m) as Hq.
  { intros B m Hm. by eapply since_yields. }
  unfold Saga.runStep. rewrite Hirr, bind_run. fold id.
  pose proof (assertNoPriorAttempt_None id seq step w (Hok _)) as Hnone.
  destruct (eval (assertNoPriorAttempt db_fault id seq step) w) as [e|] eqn:Heval.
  - apply (Hq _ (emit id JobStepFailed _ ≫= λ _, mret (Returned (Some e), prior))); [yield|].
    by apply Hq; [apply assertNoPriorAttempt_own|].
  - specialize (Hnone eq_refl).
    set (w1 := exec _ w). rewrite bind_run. set (w2 := exec _ w1). rewrite bind_run.
    set (w3 := exec _ w2).
    assert (has_row id seq (ws_Name step) w3) as Hrow.
    { assert (job_steps (w_store w1) !! (id, seq) = None) as Hn1.
      { unfold w1. by rewrite assertNoPriorAttempt_store. }
      unfold w3, w2, exec, db. simpl. rewrite Hok. unfold CreateStep. simpl.
      rewrite Hn1. simpl. exists (mkStepRow (ws_Name step) StepRunning
        (tsMillis <$> Some (clock (w_tick w1))) None 0 None None).
      split; [apply lookup_insert_eq|done]. }
    assert (since id P (has_row id seq (ws_Name step)) w0 w3) as H3.
    { split; [|done]. etrans; [done|]. eapply own_weaken; [exact Haux|].
      transitivity w1; [apply assertNoPriorAttempt_own|].
      transitivity w2; [apply (own_now clock)|apply create_step_own]. }
    rewrite bind_run.
    assert (upward id (has_row id seq (ws_Name step))) as HF.
    { intros Q ???. by apply own_has_row with (P := Q). }
    assert (since id P (has_row id seq (ws_Name step)) w0
      (exec (emit id JobStepStarted (DataStep (mkStepEvent seq (ws_Name step) 0 None ""))) w3)) as H4.
    { apply (since_yields _ _ (aux0 id)); try done. apply own_emit; done. }
    destruct (attempts_since id P (has_row id seq (ws_Name step)) w0 j seq step
      (Z.to_nat (maxAttempts step)) 0 None prior eq_refl HF Haux HP _ H4) as [Hfin _].
    by split.
Qed.
End Calls.

(** ** C1: at most once *)

(** The effects a first run may have: its calls of Irreversible steps see their
    own row in the ledger. *)
Definition entitled (id : string) (wf : Workflow) (e : effect) : Prop :=
  match e with
  | EDo i q nm _ rows =>
      i = id ∧ ∀ st, wf_Steps wf !! Z.to_nat q = Some st → ws_Irreversible st = true →
        nm = ws_Name st ∧ recorded id nm rows
  | _ => aux id e
  end.

Lemma run_entitled F clk jv bo j wf w :
  (∀ n, F n = None) →
  Forall (entitled (j_ID j) wf) (new_effects w (exec (run F clk jv bo j wf) w)).
Proof.
  intros Hok. eapply own_new.
  assert (∀ e, aux (j_ID j) e → entitled (j_ID j) wf e) as Haux by (by intros []).
  assert (preserves (since (j_ID j) (entitled (j_ID j) wf) (λ _, True) w) (run F clk jv bo j wf)) as H.
  { apply run_since; [done|by intros ?|done|]. intros i step prior Hi.
    destruct (ws_Irreversible step) eqn:Hirr.
    - apply runStep_records; [done|done|done|by intros []|].
      intros w' att (r & Hr & Hn). split; [done|].
      rewrite Nat2Z.id. intros st Hst _. simplify_eq. split; [done|]. by exists (Z.of_nat i), r.
    - apply runStep_since; [done|by intros ?|by intros []|]. intros w' att _. split; [done|].
      rewrite Nat2Z.id. intros st Hst ?. congruence. }
  apply H. by apply since_refl.
Qed.

(** C1. The body of an Irreversible step never runs twice for one job: if a run
    of job [j] called the body of an Irreversible step (its database answering),
    then from any later ledger, a crash right after that call included, no run
    of the same job (under any workflow in which that name is Irreversible, any
    step order, any database faults) calls a body of that name again. *)
Theorem irreversible_at_most_once F1 clk1 jv1 bo1 F2 clk2 jv2 bo2 j wf1 wf2 w0 w2 i st a rows :
  (∀ n, F1 n = None) →
  wf_Steps wf1 !! i = Some st → ws_Irreversible st = true →
  EDo (j_ID j) (Z.of_nat i) (ws_Name st) a rows
    ∈ new_effects w0 (exec (run F1 clk1 jv1 bo1 j wf1) w0) →
  steps_le rows (job_steps (w_store w2)) →
  (∀ st', st' ∈ wf_Steps wf2 → ws_Name st' = ws_Name st → ws_Irreversible st' = true) →
  ∀ id' q a' rows', EDo id' q (ws_Name st) a' rows'
    ∉ new_effects w2 (exec (run F2 clk2 jv2 bo2 j wf2) w2).
Proof.
  intros Hok Hst Hirr Hcall Hle Hwf2 id' q a' rows' Hin.
  pose proof (run_entitled F1 clk1 jv1 bo1 j wf1 w0 Hok) as Hent.
  rewrite Forall_forall in Hent. destruct (Hent _ Hcall) as [_ Hrec].
  rewrite Nat2Z.id in Hrec. destruct (Hrec st Hst Hirr) as [_ Hrec0].
  set (P := λ e, match e with EDo _ _ nm _ _ => nm ≠ ws_Name st | _ => True end).
  set (Rec := λ w, recorded (j_ID j) (ws_Name st) (job_steps (w_store w))).
  assert (upward (j_ID j) Rec) as HF.
  { intros Q w w' Hown HFw. eapply recorded_le; [by eapply own_steps_le|done]. }
  assert (preserves (since (j_ID j) P Rec w2) (run F2 clk2 jv2 bo2 j wf2)) as H.
  { apply run_since; [done|done|by intros []|]. intros k step prior Hk.
    destruct (decide (ws_Name step = ws_Name st)) as [Hn|Hn].
    - unfold Rec. rewrite <- Hn. apply runStep_recorded; [done| |by intros []].
      apply Hwf2; [by eapply list_elem_of_lookup_2|done].
    - by apply runStep_since; [|done|intros []|]. }
  destruct (H w2) as [Hown _]; [apply since_refl; by eapply recorded_le|].
  apply own_new in Hown. rewrite Forall_forall in Hown. by apply (Hown _ Hin).
Qed.

(** Non-vacuity: a firmware write that succeeds, and the same job picked up
    again by a process whose workflow moved the step. *)
Definition w_empty : World := mkWorld empty_store [] 0.
Definition ok_step (name : string) (irr : bool) : WorkflowStep :=
  mkWStep name (λ _ _, mkDo [] (Some "{}") None) 1000 0 irr.
Definition job0 : Job := mkJob "job-1" "node.update" "{}" StatusQueued "op" 0 None None None "".
Definition wf_first : Workflow := mkWorkflow "node.update" [ok_step "precheck" false; ok_step "install" true] false.
Definition wf_second : Workflow := mkWorkflow "node.update" [ok_step "install" true] false.
Definition no_fault : nat → option error := λ _, None.
Definition still : nat → Z := λ _, 0.

Lemma irreversible_at_most_once_witness :
  (∃ rows, EDo "job-1" 1 "install" 0 rows
    ∈ new_effects w_empty (exec (run no_fault still (λ _, true) (λ n, n) job0 wf_first) w_empty)) ∧
  ∀ id' q a' rows', EDo id' q "install" a' rows'
    ∉ new_effects (exec (run no_fault still (λ _, true) (λ n, n) job0 wf_first) w_empty)
        (exec (run no_fault still (λ _, true) (λ n, n) job0 wf_second)
          (exec (run no_fault still (λ _, true) (λ n, n) job0 wf_first) w_empty)).
Proof.
  split.
  { eexists. vm_compute. repeat (first [apply list_elem_of_here | apply list_elem_of_further]). }
  eapply (irreversible_at_most_once no_fault still (λ _, true) (λ n, n) no_fault still (λ _, true) (λ n, n)
    job0 wf_first wf_second w_empty _ 1 (ok_step "install" true)).
  - reflexivity.
  - reflexivity.
  - reflexivity.
  - vm_compute. repeat (first [apply list_elem_of_here | apply list_elem_of_further]).
  - apply (bool_decide_unpack _). vm_compute. exact I.
  - intros st' Hst' _. apply list_elem_of_singleton in Hst'. by subst.
Defined.

(** ** C2: every run settles its job *)

(** A step the runner can end with a verdict: at least one attempt. *)
Definition runnable (st : WorkflowStep) : Prop :=
  ws_Irreversible st = true ∨ 0 ≤ ws_Retries st < int64_max.

#[export] Instance runnable_dec st : Decision (runnable st).
Proof. unfold runnable. apply _. Defined.

Lemma runnable_attempts st : runnable st → (0 < Z.to_nat (maxAttempts st))%nat.
Proof.
  unfold runnable, maxAttempts. destruct (ws_Irreversible st); [lia|]. intros [?|H]; [done|].
  rewrite wrap64_id; unfold in_int64, int64_min, int64_max in *; lia.
Qed.

(** A run's verdict, as the ledger and the hook state it. *)
Definition succeeded (e : option error) : bool := match e with None => true | Some _ => false end.
Definition verdict (e : option error) : Status := if succeeded e then StatusSucceeded else StatusFailed.

(** The hooks among a list of effects. *)
Definition hooks (l : list effect) : list (string * bool * string) :=
  omap (λ e, match e with ETerminal _ i ok m => Some (i, ok, m) | _ => None end) l.

Section Settle.
Context (F : nat → option error) (clk : nat → Z) (jv : string → bool) (bo : Z → Z).

Lemma attempts_no_panic j seq step n a e prior w :
  (0 < n)%nat ∨ is_Some e → (eval (attempts F clk jv bo j seq step n a e prior) w).1 ≠ Panicked.
Proof.
  revert a e prior w. induction n as [|n IH]; intros a e prior w Hn; simpl.
  - destruct Hn as [?|[e' ->]]; [lia|]. by rewrite !eval_bind.
  - rewrite eval_bind. set (w1 := exec _ w). rewrite eval_bind.
    destruct (do_err _) as [e'|]; [destruct (errors_Is e' _)|].
    + by rewrite eval_bind.
    + apply IH. right. eauto.
    + by rewrite eval_bind.
Qed.

Lemma runStep_no_panic j seq step prior w :
  runnable step → (eval (runStep F clk jv bo j seq step prior) w).1 ≠ Panicked.
Proof.
  intros Hr. unfold runStep. rewrite eval_bind. case_match.
  - by rewrite eval_bind.
  - rewrite !eval_bind. apply attempts_no_panic. left. by apply runnable_attempts.
Qed.

Lemma run_steps_no_panic j seq steps prior w :
  Forall runnable steps → eval (run_steps F clk jv bo j seq steps prior) w ≠ Panicked.
Proof.
  intros Hall. revert seq prior w.
  induction Hall as [|st steps Hr Hall IH]; intros seq prior w; simpl; [done|].
  rewrite eval_bind. pose proof (runStep_no_panic j seq st prior w Hr) as Hnp.
  destruct (eval _ w) as [[[e|]|] prior']; [by destruct (errors_Is e _)|apply IH|done].
Qed.

(** The bookkeeping before the first step. *)
Lemma run_start_own id w :
  own id (aux0 id) w
    (exec (emit F clk jv id JobStarted DataNone)
      (exec (db F (λ f s, MarkJobStarted f s id (eval (time_now clk) w))) (exec (time_now clk) w))).
Proof.
  etrans; [apply (own_now clk)|]. etrans; [|by apply own_emit].
  apply own_db. intros. auto with locality.
Qed.

(** No step fires a hook. *)
Definition hookless (e : effect) : Prop := match e with ETerminal _ _ _ _ => False | _ => True end.

Lemma run_steps_hookless j seq steps prior :
  yields (own (j_ID j) hookless) (run_steps F clk jv bo j seq steps prior).
Proof.
  intros w. assert (preserves (since (j_ID j) hookless (λ _, True) w)
    (run_steps F clk jv bo j seq steps prior)) as H.
  { apply run_steps_since. intros i st pr _.
    by apply runStep_since; [|intros ?|intros []|]. }
  apply H. by apply since_refl.
Qed.

Lemma hooks_none l : Forall hookless l → hooks l = [].
Proof. induction 1 as [|[] l]; simpl; done. Qed.

Lemma new_effects_own id P w w' : own id P w w' → w_trace w' = w_trace w ++ new_effects w w'.
Proof. intros [_ _ _ _ (n & T & _)]. unfold new_effects. by rewrite T, drop_app_length. Qed.

Lemma hooks_trans id P Q w1 w2 w3 :
  own id P w1 w2 → own id Q w2 w3 →
  hooks (new_effects w1 w3) = hooks (new_effects w1 w2) ++ hooks (new_effects w2 w3).
Proof.
  intros H1 H2. pose proof (new_effects_own _ _ _ _ H1) as T1.
  pose proof (new_effects_own _ _ _ _ H2) as T2. unfold hooks. rewrite <- omap_app. f_equal.
  unfold new_effects at 1. by rewrite T2, T1, <- app_assoc, drop_app_length.
Qed.

(** What the closing bookkeeping of a run writes. *)
Definition verdict_row (e : option error) (ts : Z) (r : job_row) : job_row :=
  mkJobRow (jr_kind r) (jr_spec r) (verdict e) (jr_created_by r)
    (jr_created_at r) (jr_started_at r) (Some (tsMillis ts)) (jr_parent_id r)
    (match e with Some e => Some (err_text e) | None => jr_error r end).

Definition finish (wf : Workflow) (id : string) (e : option error) : M World unit :=
  match e with
  | Some e => finish_failed F clk jv wf id e
  | None => finish_succeeded F clk jv wf id
  end.

Lemma emit_jobs id t d w : jobs (w_store (exec (emit F clk jv id t d) w)) = jobs (w_store w).
Proof.
  unfold emit. rewrite !exec_bind. unfold exec, db, AppendEvent, stmt, tell. simpl. by destruct (F _).
Qed.

Lemma emit_steps id t d w : job_steps (w_store (exec (emit F clk jv id t d) w)) = job_steps (w_store w).
Proof.
  unfold emit. rewrite !exec_bind. unfold exec, db, AppendEvent, stmt, tell. simpl. by destruct (F _).
Qed.

Lemma fire_store wf id ok m w : w_store (exec (fireTerminal wf id ok m) w) = w_store w.
Proof. unfold fireTerminal. by destruct (wf_OnTerminal wf). Qed.

Lemma finish_exec wf id e w :
  exec (finish wf id e) w =
  exec (fireTerminal wf id (succeeded e) (default "" (err_text <$> e)))
    (exec (emit F clk jv id (match e with Some _ => JobFailed | None => JobSucceeded end)
             (match e with Some e => DataError (err_text e) | None => DataNone end))
      (exec (db F (λ f s, match e with
                          | Some e => MarkJobFailed f s id (err_text e) (clk (w_tick w))
                          | None => MarkJobSucceeded f s id (clk (w_tick w)) end))
        (exec (time_now clk) w))).
Proof. destruct e; simpl; unfold finish_failed, finish_succeeded; by rewrite !exec_bind. Qed.

Lemma finish_spec wf id e w r :
  (∀ n, F n = None) → jobs (w_store w) !! id = Some r →
  let w' := exec (finish wf id e) w in
  own id (aux id) w w' ∧
  jobs (w_store w') !! id = Some (verdict_row e (clk (w_tick w)) r) ∧
  hooks (new_effects w w') =
    if wf_OnTerminal wf then [(id, succeeded e, default "" (err_text <$> e))] else [].
Proof.
  intros Hok Hr w'. split.
  { apply (yields_exec (own id (aux id))). destruct e; simpl; unfold finish_failed, finish_succeeded; yield. }
  unfold w'. rewrite finish_exec. set (w1 := exec (db F _) _). set (w2 := exec (emit _ _ _ _ _ _) w1).
  split.
  { rewrite fire_store. unfold w2. rewrite emit_jobs. unfold w1, exec, db. simpl. rewrite Hok.
    destruct e; simpl; by rewrite lookup_alter_eq, Hr. }
  assert (own id hookless w w2) as H2.
  { transitivity w1; [|apply own_emit; done]. etransitivity; [apply (own_now clk)|].
    apply own_db. intros. destruct e; auto with locality. }
  rewrite (hooks_trans id hookless (λ _, True) w w2); [|done|by apply own_fireTerminal].
  rewrite (hooks_none (new_effects w w2)) by (by eapply own_new).
  unfold fireTerminal, new_effects. destruct (wf_OnTerminal wf); simpl.
  - by rewrite drop_app_length.
  - by rewrite drop_all.
Qed.
End Settle.

(** C2. Every run settles its job, exactly once.  With a database that answers
    and steps that allow at least one attempt, a run returns a verdict (it does
    not hang and does not panic), the job's row ends [succeeded] or [failed]
    according to that verdict with its finish time set and the error text kept,
    and the workflow's terminal hook, when it has one, fired exactly once, with
    that verdict. *)
Theorem run_settles F clk jv bo j wf w r :
  (∀ n, F n = None) → jobs (w_store w) !! j_ID j = Some r → Forall runnable (wf_Steps wf) →
  ∃ e r' ts, eval (run F clk jv bo j wf) w = Returned e ∧
    let w' := exec (run F clk jv bo j wf) w in
    jobs (w_store w') !! j_ID j = Some r' ∧
    jr_status r' = (verdict e) ∧
    jr_finished_at r' = Some ts ∧
    (∀ e', e = Some e' → jr_error r' = Some (err_text e')) ∧
    hooks (new_effects w w') =
      if wf_OnTerminal wf then [(j_ID j, succeeded e, default "" (err_text <$> e))] else [].
Proof.
  intros Hok Hr Hall. unfold run. rewrite !eval_bind, !exec_bind.
  set (w3 := exec (emit _ _ _ _ _ _) _).
  assert (own (j_ID j) (aux0 (j_ID j)) w w3) as H03.
  { apply run_start_own. }
  set (w4 := exec (run_steps F clk jv bo j 0 (wf_Steps wf) ∅) w3).
  assert (own (j_ID j) hookless w3 w4) as H34 by apply run_steps_hookless.
  destruct (own_le _ _ _ _ H03) as (Hj03 & _). destruct (Hj03 _ _ Hr) as (r3 & Hr3 & _).
  destruct (own_le _ _ _ _ H34) as (Hj34 & _). destruct (Hj34 _ _ Hr3) as (r4 & Hr4 & _).
  pose proof (run_steps_no_panic F clk jv bo j 0 (wf_Steps wf) ∅ w3 Hall) as Hnp.
  destruct (eval (run_steps F clk jv bo j 0 (wf_Steps wf) ∅) w3) as [e|]; [|done].
  exists e, (verdict_row e (clk (w_tick w4)) r4), (tsMillis (clk (w_tick w4))).
  destruct (finish_spec F clk jv wf (j_ID j) e w4 r4 Hok Hr4) as (Hown & Hrow & Hhk).
  split; [destruct e; by rewrite eval_bind|]. simpl.
  replace (exec _ w4) with (exec (finish F clk jv wf (j_ID j) e) w4) by (destruct e; simpl; by rewrite exec_bind).
  split_and!; [done|by destruct e|done|by intros e' ->|].
  assert (own (j_ID j) hookless w w4) as H04.
  { etrans; [eapply own_weaken; [|exact H03]; by intros []|exact H34]. }
  rewrite (hooks_trans _ _ _ w w4 _ H04 Hown), Hhk.
  by rewrite (hooks_none (new_effects w w4)) by (by eapply own_new).
Qed.

Definition failing_step : WorkflowStep :=
  mkWStep "verify" (λ _ _, mkDo [("warn", "no answer")] None (Some (errors_New "timeout"))) 1000 1 false.
Definition wf_failing : Workflow := mkWorkflow "node.update" [ok_step "precheck" false; failing_step] true.
Definition w_queued : World :=
  mkWorld (mkStore {["job-1" := mkJobRow "node.update" "{}" StatusQueued "op" 0 None None None None]} ∅ []) [] 0.

Lemma run_settles_witness :
  ∃ e r' ts, eval (run no_fault still (λ _, true) (λ n, n) job0 wf_failing) w_queued = Returned e ∧
    let w' := exec (run no_fault still (λ _, true) (λ n, n) job0 wf_failing) w_queued in
    jobs (w_store w') !! "job-1" = Some r' ∧ jr_status r' = verdict e ∧ jr_finished_at r' = Some ts ∧
    (∀ e', e = Some e' → jr_error r' = Some (err_text e')) ∧
    hooks (new_effects w_queued w') = [("job-1", succeeded e, default "" (err_text <$> e))].
Proof.
  apply (run_settles no_fault still (λ _, true) (λ n, n) job0 wf_failing w_queued
    (mkJobRow "node.update" "{}" StatusQueued "op" 0 None None None None)).
  - reflexivity.
  - vm_compute. reflexivity.
  - apply (bool_decide_unpack _). vm_compute. exact I.
Defined.

(** ** Jobs do not interfere *)

(** A run touches nothing but its own job: whatever faults it meets, the
    rows of every other job in the three tables are unchanged, and every event
    it publishes, hook it fires and body it calls is for its own job.  Runs of
    different jobs therefore commute on the ledger. *)
Theorem run_frame F clk jv bo j wf w i :
  i ≠ j_ID j →
  let w' := exec (run F clk jv bo j wf) w in
  jobs (w_store w') !! i = jobs (w_store w) !! i ∧
  steps_of (w_store w') i = steps_of (w_store w) i ∧
  ListEvents None (w_store w') i = ListEvents None (w_store w) i ∧
  Forall (of_job (j_ID j)) (new_effects w w').
Proof.
  intros Hi w'. pose proof (run_own F clk jv bo j wf w) as Hown. change (snd _) with w' in Hown.
  split_and!.
  - by apply (own_jobs _ _ _ _ Hown).
  - apply steps_of_ext. intros q. by apply (own_steps _ _ _ _ Hown).
  - unfold ListEvents, query. f_equal. by apply (own_events _ _ _ _ Hown).
  - by eapply own_new.
Qed.

Lemma run_frame_witness :
  jobs (w_store (exec (run no_fault still (λ _, true) (λ n, n) job0 wf_first) w_queued)) !! "job-2" = None.
Proof.
  destruct (run_frame no_fault still (λ _, true) (λ n, n) job0 wf_first w_queued "job-2") as [H _].
  - vm_compute. discriminate.
  - rewrite H. vm_compute. reflexivity.
Defined.

(** ** C4: which bodies are called, how often, in what order *)

Definition calls (l : list effect) : list (Z * string * Z) :=
  omap (λ e, match e with EDo _ q nm a _ => Some (q, nm, a) | _ => None end) l.

(** [k] attempts of one step, numbered from [a]. *)
Fixpoint attempt_calls (seq : Z) (name : string) (a : Z) (k : nat) : list (Z * string * Z) :=
  match k with O => [] | S k => (seq, name, a) :: attempt_calls seq name (a + 1) k end.

(** Step after step, [ks] attempts each. *)
Fixpoint saga_calls (seq : Z) (steps : list WorkflowStep) (ks : list nat) : list (Z * string * Z) :=
  match steps, ks with
  | st :: steps, k :: ks => attempt_calls seq (ws_Name st) 0 k ++ saga_calls (seq + 1) steps ks
  | _, _ => []
  end.

(** What a body answered: a plain success, the early stop, or a failure that
    may be retried. *)
Definition done_ok (r : DoResult) : Prop := do_err r = None.
Definition asked_stop (r : DoResult) : Prop := ∃ e, do_err r = Some e ∧ errors_Is e "ErrStopWorkflow" = true.
Definition failed_with (e : error) (r : DoResult) : Prop :=
  do_err r = Some e ∧ errors_Is e "ErrStopWorkflow" = false.

(** The results later steps may read: those of the steps that succeeded. *)
Definition remember (st : WorkflowStep) (rs : list DoResult) (prior : gmap string string) : gmap string string :=
  match last rs ≫= do_result with Some v => <[ws_Name st := v]> prior | None => prior end.

Fixpoint prior_after (steps : list WorkflowStep) (es : list (list DoResult)) (prior : gmap string string)
    : gmap string string :=
  match steps, es with
  | st :: steps, rs :: es => prior_after steps es (remember st rs prior)
  | _, _ => prior
  end.

(** The answers [rs] of one executed step: each is what the body answers in
    its context, there are at most as many as the step may try, and another
    attempt was made only after a failure. *)
Record step_log (j : Job) (st : WorkflowStep) (prior : gmap string string) (rs : list DoResult) : Prop := {
  sl_bound : (length rs ≤ Z.to_nat (maxAttempts st))%nat;
  sl_answers : Forall (λ r, ∃ tick, r = ws_Do st (mkStepCtx (j_ID j) (j_Spec j) prior (j_CreatedBy j)) tick) rs;
  sl_retried : ∀ i r, rs !! i = Some r → (S i < length rs)%nat → ∃ e, failed_with e r }.

Definition ended_ok (rs : list DoResult) : Prop := ∃ r, last rs = Some r ∧ done_ok r.
Definition ended_stop (rs : list DoResult) : Prop := ∃ r, last rs = Some r ∧ asked_stop r.

(** A step that fails the job: every attempt it may make failed, or it is
    Irreversible and was refused before its body was called. *)
Definition ended_failed (st : WorkflowStep) (rs : list DoResult) (e : error) : Prop :=
  (length rs = Z.to_nat (maxAttempts st) ∧ ∃ r, last rs = Some r ∧ failed_with e r) ∨
  (ws_Irreversible st = true ∧ rs = [] ∧ errors_Is e "ErrIrreversibleReplay" = true).

(** How the executed steps [es] end a run of [steps] with the outcome [out]. *)
Definition ends_as (steps : list WorkflowStep) (es : list (list DoResult)) (out : outcome) : Prop :=
  match out with
  | Returned None => (length es = length steps ∧ Forall ended_ok es) ∨ ∃ rs, last es = Some rs ∧ ended_stop rs
  | Returned (Some e) => ∃ st rs, last es = Some rs ∧ steps !! pred (length es) = Some st ∧ ended_failed st rs e
  | Panicked => ∃ st, last es = Some [] ∧ steps !! pred (length es) = Some st ∧ maxAttempts st ≤ 0
  end.

(** The executed steps are a prefix of the workflow in which every step but
    the last succeeded. *)
Record run_log (j : Job) (steps : list WorkflowStep) (prior : gmap string string) (es : list (list DoResult)) : Prop := {
  rl_prefix : (length es ≤ length steps)%nat;
  rl_steps : ∀ i st rs, steps !! i = Some st → es !! i = Some rs →
    step_log j st (prior_after (take i steps) (take i es) prior) rs;
  rl_succeeded : ∀ i rs, es !! i = Some rs → (S i < length es)%nat → ended_ok rs }.

Definition made (cs : list (Z * string * Z)) (w w' : World) : Prop :=
  ∃ new, w_trace w' = w_trace w ++ new ∧ calls new = cs.

Lemma made_trans cs1 cs2 w1 w2 w3 : made cs1 w1 w2 → made cs2 w2 w3 → made (cs1 ++ cs2) w1 w3.
Proof.
  intros (n1 & T1 & <-) (n2 & T2 & <-). exists (n1 ++ n2).
  rewrite T2, T1, app_assoc. split; [done|]. apply omap_app.
Qed.

Lemma made_new cs w w' : made cs w w' → calls (new_effects w w') = cs.
Proof. intros (n & T & <-). unfold new_effects. by rewrite T, drop_app_length. Qed.

Lemma calls_quiet l : Forall quiet l → calls l = [].
Proof. induction 1 as [|[] l]; simpl; done. Qed.

Lemma made_quiet id P w w' : (∀ e, P e → quiet e) → own id P w w' → made [] w w'.
Proof.
  intros HP [_ _ _ _ (new & T & Hall)]. exists new. split; [done|].
  apply calls_quiet. by eapply Forall_impl.
Qed.

Lemma aux_quiet id e : aux id e → quiet e.
Proof. by destruct e. Qed.
Lemma aux0_quiet id e : aux0 id e → quiet e.
Proof. by destruct e. Qed.

Section Discipline.
Context (F : nat → option error) (clk : nat → Z) (jv : string → bool) (bo : Z → Z).

Lemma made_yields {A} id (m : M World A) w : yields (own id (aux id)) m → made [] w (exec m w).
Proof. intros H. eapply made_quiet; [apply aux_quiet|apply H]. Qed.

Lemma made_bind {A B} cs1 cs2 (m : M World A) (f : A → M World B) w :
  made cs1 w (exec m w) → made cs2 (exec m w) (exec (f (eval m w)) (exec m w)) →
  made (cs1 ++ cs2) w (exec (m ≫= f) w).
Proof. intros H1 H2. rewrite exec_bind. by eapply made_trans. Qed.

(** A quiet prefix, then the rest. *)
Lemma made_then {A B} id cs (m : M World A) (f : A → M World B) w :
  yields (own id (aux id)) m → made cs (exec m w) (exec (f (eval m w)) (exec m w)) →
  made cs w (exec (m ≫= f) w).
Proof. intros H1 H2. eapply (made_bind [] cs); [by eapply made_yields|done]. Qed.

Lemma call_do_made j seq step a prior w :
  made [(seq, ws_Name step, a)] w (exec (call_do F clk jv j seq step a prior) w).
Proof.
  unfold call_do. rewrite exec_bind.
  change [(seq, ws_Name step, a)] with ([(seq, ws_Name step, a)] ++ @nil (Z * string * Z)).
  eapply made_bind.
  - by eexists [_].
  - eapply (made_yields (j_ID j)). apply yields_bind; [apply _| |intros _; apply yields_ret, _].
    apply yields_for_each; [apply _|]. intros [lvl msg] _. auto with yields.
Qed.

(** What [attempts] leaves, started at attempt [a] with [n] left and [e] the
    last failure. *)
Definition attempts_end (st : WorkflowStep) (n : nat) (e : option error) (prior : gmap string string)
    (rs : list DoResult) (p : outcome * gmap string string) : Prop :=
  match p.1 with
  | Returned None => ended_ok rs ∧ p.2 = remember st rs prior
  | Returned (Some e') =>
      (ended_stop rs ∧ errors_Is e' "ErrStopWorkflow" = true) ∨
      (length rs = n ∧ ((rs = [] ∧ e = Some e') ∨ ∃ r, last rs = Some r ∧ failed_with e' r))
  | Panicked => n = 0%nat ∧ rs = [] ∧ e = None
  end.

Lemma attempts_end_cons st n e e' prior r rs p :
  failed_with e r → attempts_end st n (Some e) prior rs p → attempts_end st (S n) e' prior (r :: rs) p.
Proof.
  intros Hr. unfold attempts_end, ended_ok, ended_stop, remember.
  destruct p as [[[e1|]|] prior']; simpl; [|intros [(x & Hx & Hok) ->]|by intros (-> & -> & ?)].
  - intros [[(x & Hx & Hs) He]|[<- H]]; [left|right; split; [done|]].
    + split; [|done]. exists x. by rewrite last_cons, Hx.
    + right. destruct H as [[-> [= ->]]|(x & Hx & Hf)]; [by exists r|]. exists x. by rewrite last_cons, Hx.
  - rewrite last_cons, Hx. split; [by exists x|done].
Qed.

(** Another attempt in front of the log of the rest. *)
Lemma retried_cons r rs :
  (rs ≠ [] → ∃ e, failed_with e r) →
  (∀ i r', rs !! i = Some r' → (S i < length rs)%nat → ∃ e, failed_with e r') →
  ∀ i r', (r :: rs) !! i = Some r' → (S i < length (r :: rs))%nat → ∃ e, failed_with e r'.
Proof.
  intros H1 H2 [|i] r' Hi Hl; simpl in *; [|apply (H2 i); [done|lia]].
  simplify_eq. apply H1. intros ->. simpl in Hl. lia.
Qed.

Lemma call_do_eval j seq step a prior w :
  eval (call_do F clk jv j seq step a prior) w
  = ws_Do step (mkStepCtx (j_ID j) (j_Spec j) prior (j_CreatedBy j)) (w_tick w).
Proof. unfold call_do. by rewrite !eval_bind. Qed.

Lemma attempts_made j seq step n a e prior w :
  let m := attempts F clk jv bo j seq step n a e prior in
  ∃ rs, (length rs ≤ n)%nat ∧
    Forall (λ r, ∃ tick, r = ws_Do step (mkStepCtx (j_ID j) (j_Spec j) prior (j_CreatedBy j)) tick) rs ∧
    (∀ i r, rs !! i = Some r → (S i < length rs)%nat → ∃ e, failed_with e r) ∧
    attempts_end step n e prior rs (eval m w) ∧
    made (attempt_calls seq (ws_Name step) a (length rs)) w (exec m w).
Proof.
  revert a e w. induction n as [|n IH]; intros a e w m; subst m.
  - exists []. split_and!; [done|done|by intros ?| |]; unfold attempts_end.
    + simpl. destruct e; simpl; [rewrite !eval_bind; simpl|]; auto.
    + simpl. destruct e; [|by exists []; rewrite app_nil_r]. eapply (made_yields (j_ID j)). yield.
  - simpl. set (retry := if bool_decide (0 < a) then _ else _).
    assert (yields (own (j_ID j) (aux (j_ID j))) retry) as Hretry by (unfold retry; yield).
    rewrite exec_bind, eval_bind. set (w1 := exec retry w). rewrite exec_bind, eval_bind.
    pose proof (call_do_made j seq step a prior w1) as Hcall.
    set (w2 := exec (call_do F clk jv j seq step a prior) w1) in *.
    rewrite call_do_eval. set (ctx := mkStepCtx _ _ _ _). set (r := ws_Do step ctx (w_tick w1)).
    assert (∀ k w3, made (attempt_calls seq (ws_Name step) (a + 1) k) w2 w3 →
      made (attempt_calls seq (ws_Name step) a (S k)) w w3) as Hstep.
    { intros k w3 H3. eapply (made_trans [] _ w w1); [by eapply made_yields|].
      by eapply (made_trans [_]). }
    assert (∃ tick, r = ws_Do step ctx tick) as Hans by (by eexists).
    destruct (do_err r) as [e'|] eqn:Herr; [destruct (errors_Is e' _) eqn:Hstop|].
    + exists [r]. split_and!; [simpl; lia|by repeat constructor|by apply retried_cons; [|intros ?]| |].
      * rewrite eval_bind. left. split; [|done]. by exists r; split; [|exists e'].
      * apply Hstep. eapply (made_yields (j_ID j)). yield.
    + destruct (IH (a + 1) (Some e') w2) as (rs & Hk & Ha & Hr & He & Hm). exists (r :: rs).
      split_and!; [simpl; lia|by constructor|apply retried_cons; [by exists e'|done]| |by apply Hstep].
      by eapply attempts_end_cons.
    + exists [r]. split_and!; [simpl; lia|by repeat constructor|by apply retried_cons; [|intros ?]| |].
      * rewrite eval_bind. unfold attempts_end, remember. simpl. by split; [exists r|].
      * apply Hstep. eapply (made_yields (j_ID j)). yield.
Qed.

(** How one step leaves the loop. *)
Definition step_end (st : WorkflowStep) (prior : gmap string string) (rs : list DoResult)
    (p : outcome * gmap string string) : Prop :=
  match p.1 with
  | Returned None => ended_ok rs ∧ p.2 = remember st rs prior
  | Returned (Some e) =>
      if errors_Is e "ErrStopWorkflow" then ended_stop rs else ended_failed st rs e
  | Panicked => rs = [] ∧ maxAttempts st ≤ 0
  end.

Lemma attempts_step_end st prior rs p :
  attempts_end st (Z.to_nat (maxAttempts st)) None prior rs p → step_end st prior rs p.
Proof.
  unfold attempts_end, step_end. destruct (p.1) as [[e|]|]; [|done|intros (? & -> & _); split; [done|lia]].
  intros [[H ->]|[Hl [[_ ?]|(r & Hr & [Hf Hs])]]]; [done|done|].
  rewrite Hs. left. split; [done|]. by exists r.
Qed.

Lemma replay_refused j seq step w e :
  eval (assertNoPriorAttempt F (j_ID j) seq step) w = Some e →
  errors_Is e "ErrIrreversibleReplay" = true ∧ errors_Is e "ErrStopWorkflow" = false.
Proof.
  unfold assertNoPriorAttempt. rewrite eval_bind. repeat case_match; intros [= <-]; done.
Qed.

Lemma runStep_made j seq step prior w :
  let m := runStep F clk jv bo j seq step prior in
  ∃ rs, step_log j step prior rs ∧ step_end step prior rs (eval m w) ∧
    made (attempt_calls seq (ws_Name step) 0 (length rs)) w (exec m w).
Proof.
  intros m. subst m. unfold runStep. rewrite exec_bind, eval_bind.
  set (refused := if ws_Irreversible step then _ else _).
  assert (made [] w (exec refused w)) as H1.
  { apply (made_yields (j_ID j)). unfold refused.
    destruct (ws_Irreversible step); [|apply yields_ret, _].
    eapply yields_mono; [apply assertNoPriorAttempt_own|]. intros w1 w2.
    apply own_weaken, aux0_aux. }
  destruct (eval refused w) as [e|] eqn:Href.
  - exists []. split_and!; [split; [simpl; lia|done|by intros ?]| |].
    + unfold refused in Href. destruct (ws_Irreversible step) eqn:Hirr; [|done].
      apply replay_refused in Href as [Hrep Hstop].
      rewrite eval_bind. unfold step_end. simpl. rewrite Hstop. by right.
    + eapply (made_trans []); [done|]. eapply (made_yields (j_ID j)). yield.
  - rewrite !exec_bind, !eval_bind.
    set (w2 := exec (emit _ _ _ _ _ _) _).
    destruct (attempts_made j seq step (Z.to_nat (maxAttempts step)) 0 None prior w2)
      as (rs & Hk & Ha & Hr & He & Hm).
    exists rs. split_and!; [done|by apply attempts_step_end|]. eapply (made_trans []); [|exact Hm].
    eapply (made_trans []); [exact H1|]. eapply made_quiet; [apply (aux_quiet (j_ID j))|].
    etrans; [apply (own_now clk)|]. etrans; [|apply own_emit; done].
    apply own_db. intros. by apply CreateStep_local.
Qed.

(** One executed step in front of the log of the rest. *)
Lemma run_log_cons j st steps prior rs es :
  step_log j st prior rs → (es ≠ [] → ended_ok rs) → run_log j steps (remember st rs prior) es →
  run_log j (st :: steps) prior (rs :: es).
Proof.
  intros Hst Hok [Hp Hs Hr]. split.
  - simpl. lia.
  - intros [|i] st' rs' H1 H2; simpl in *; [by simplify_eq|by apply Hs].
  - intros [|i] rs' Hi Hl; simpl in *; [|apply (Hr i); [done|lia]].
    simplify_eq. apply Hok. intros ->. simpl in Hl. lia.
Qed.

Lemma run_log_nil j steps prior : run_log j steps prior [].
Proof. split; [simpl; lia|by intros ? ? ? _ ?|by intros ? ? ?]. Qed.

Lemma ends_as_cons st steps rs es out :
  ended_ok rs → ends_as steps es out → es ≠ [] ∨ steps = [] →
  ends_as (st :: steps) (rs :: es) out.
Proof.
  intros Hok H Hne.
  assert (∀ x, last es = Some x → es ≠ []) as Hlast by (by intros ? ? ->).
  assert (∀ x, last es = Some x → last (rs :: es) = Some x) as Hl by (intros ? Hx; by rewrite last_cons, Hx).
  assert (∀ x, last es = Some x → (st :: steps) !! pred (length (rs :: es)) = steps !! pred (length es)) as Hi
    by (intros ? ?%Hlast; by destruct es).
  destruct out as [[e|]|]; simpl in *.
  - destruct H as (st' & rs' & H1 & H2 & H3). exists st', rs'. by rewrite (Hl _ H1), (Hi _ H1).
  - destruct H as [[H1 H2]|(rs' & H1 & H2)]; [left|right].
    + split; [lia|by constructor].
    + exists rs'. by rewrite (Hl _ H1).
  - destruct H as (st' & H1 & H2 & H3). exists st'. by rewrite (Hl _ H1), (Hi _ H1).
Qed.

Lemma run_steps_made j seq steps prior w :
  let m := run_steps F clk jv bo j seq steps prior in
  ∃ es, run_log j steps prior es ∧ ends_as steps es (eval m w) ∧ (es ≠ [] ∨ steps = []) ∧
    made (saga_calls seq steps (length <$> es)) w (exec m w).
Proof.
  revert seq prior w. induction steps as [|st steps IH]; intros seq prior w m; subst m.
  { exists []. split_and!; [apply run_log_nil|by left|by right|]. exists []. by rewrite app_nil_r. }
  simpl. rewrite exec_bind, eval_bind.
  destruct (runStep_made j seq st prior w) as (rs & Hst & Hend & Hm).
  set (w1 := exec _ w) in *.
  assert (run_log j (st :: steps) prior [rs]) as Hone by (by apply run_log_cons; [| |apply run_log_nil]).
  assert (made (saga_calls seq (st :: steps) (length <$> [rs])) w w1) as Hstop.
  { simpl. replace (saga_calls (seq + 1) steps []) with (@nil (Z * string * Z)) by (by destruct steps).
    by rewrite app_nil_r. }
  unfold step_end in Hend. destruct (eval _ w) as [[[e|]|] prior']; simpl in Hend.
  - exists [rs]. destruct (errors_Is e _); split_and!; try done; simpl; try (by left).
    + right. by exists rs.
    + by exists st, rs.
  - destruct Hend as [Hok ->]. destruct (IH (seq + 1) (remember st rs prior) w1) as (es & Hl & He & Hne & Hm').
    exists (rs :: es). split_and!; [by apply run_log_cons|by apply ends_as_cons|by left|].
    by eapply made_trans.
  - destruct Hend as [-> Hmax]. exists [[]]. split_and!; try done; simpl; [by exists st|by left].
Qed.
End Discipline.

(** C4. The discipline of step bodies, for every fault pattern and whatever the
    bodies answer.  The executed steps [es] are a prefix of the workflow, one
    list of answers per step; the bodies called are exactly those steps in
    order, each at attempts 0, 1, 2, ... without gaps.  Every executed step
    but the last was called and its last answer was a success; a step is
    called again only after an answer that failed, at most [Retries + 1]
    times, and once when it is Irreversible; its context holds the results of
    the steps before it and nothing else.  Nothing is called after the first
    step that did not succeed, and the run's outcome is that step's: the job
    succeeds when every step did or the last one called asked to stop, it
    fails with the error of a step that used up its attempts or was refused
    as Irreversible, and it panics only on a step with no attempt to make. *)
Theorem run_call_discipline F clk jv bo j wf w :
  ∃ es, run_log j (wf_Steps wf) ∅ es ∧
    calls (new_effects w (exec (run F clk jv bo j wf) w)) = saga_calls 0 (wf_Steps wf) (length <$> es) ∧
    ends_as (wf_Steps wf) es (eval (run F clk jv bo j wf) w) ∧
    ∀ i rs st, es !! i = Some rs → wf_Steps wf !! i = Some st → ws_Irreversible st = true → (length rs ≤ 1)%nat.
Proof.
  unfold run. rewrite !exec_bind, !eval_bind. set (w3 := exec (emit _ _ _ _ _ _) _).
  destruct (run_steps_made F clk jv bo j 0 (wf_Steps wf) ∅ w3) as (es & Hl & He & _ & Hm).
  exists es. split_and!; [done| | |].
  - apply made_new. rewrite <- (app_nil_r (saga_calls _ _ _)). eapply (made_trans []).
    { eapply made_quiet; [apply (aux0_quiet (j_ID j))|apply run_start_own]. }
    eapply made_trans; [exact Hm|]. apply (made_yields (j_ID j)).
    destruct (eval _ w3) as [[e|]|]; unfold finish_failed, finish_succeeded; yield.
  - by destruct (eval (run_steps _ _ _ _ _ _ _ _) w3) as [[e|]|]; rewrite ?eval_bind.
  - intros i rs st Hk Hst Hirr. destruct (rl_steps _ _ _ _ Hl _ _ _ Hst Hk) as [Hle _ _].
    unfold maxAttempts in Hle. by rewrite Hirr in Hle.
Qed.
