(* ===== verification/SagaRecover.v ===== *)
(** * Startup recovery, submission and the runner's limits

    [Recover] leaves no job in flight that nobody owns; [Submit] and its
    variants refuse without a trace; and the two situations in which the
    runner's promises stop (a lost step row, a negative retry count). *)

From S2P Require Import Prelude Ledger Saga SagaFacts.

(** ** Recover *)

(** What recovery writes over a job row and over a running step row. *)
Definition recovered_job (now : Z) (r : job_row) : job_row :=
  mkJobRow (jr_kind r) (jr_spec r) StatusFailed (jr_created_by r) (jr_created_at r) (jr_started_at r)
    (Some (tsMillis now)) (jr_parent_id r) (Some restart_msg).

Definition recovered_step (now : Z) (r : step_row) : step_row :=
  mkStepRow (sr_name r) StepFailed (sr_started_at r) (Some (tsMillis now)) (sr_attempt r) (sr_result r)
    (Some restart_msg).

Section Recovery.
Context (F : nat → option error) (clk : nat → Z) (jv : string → bool).
Context (Hok : ∀ n, F n = None).
Context (wfs : gmap string Workflow).

Lemma recover_step_own id now st : yields (own id (aux id)) (recover_step F id now st).
Proof. unfold recover_step. yield. Qed.

(** The listing shows a row running at [q]. *)
Definition shows_running (q : Z) (l : list JobStep) : bool :=
  existsb (λ st, bool_decide (st_Seq st = q) && bool_decide (st_Status st = StepRunning)) l.

(** A pass over the listing fails exactly the rows it shows running. *)
Lemma recover_steps_spec id now l w q :
  let w' := exec (for_each (recover_step F id now) l) w in
  job_steps (w_store w') !! (id, q) =
    (if shows_running q l
     then recovered_step now <$> job_steps (w_store w) !! (id, q)
     else job_steps (w_store w) !! (id, q)) ∧
  jobs (w_store w') = jobs (w_store w).
Proof.
  revert w. induction l as [|st l IH]; intros w; simpl; [done|].
  rewrite exec_bind. destruct (IH (exec (recover_step F id now st) w)) as [-> ->].
  unfold recover_step. rewrite orb_comm. case_bool_decide as Hrun.
  - unfold exec. simpl. unfold mbind, M_bind, db. simpl. rewrite Hok. simpl. split; [|done].
    rewrite andb_true_r. case_bool_decide as Hq.
    + subst q. rewrite lookup_alter_eq, orb_true_r.
      destruct (job_steps (w_store w) !! (id, st_Seq st)); simpl; by destruct (shows_running _ _).
    + rewrite lookup_alter_ne by congruence. by rewrite orb_false_r.
  - rewrite exec_ret, andb_false_r, orb_false_r. done.
Qed.

(** The listing shows a row running exactly when it is. *)
Lemma listed_running s id q r :
  job_steps s !! (id, q) = Some r →
  shows_running q (steps_of s id) = bool_decide (sr_status r = StepRunning).
Proof.
  intros Hr. apply eq_true_iff_eq. unfold shows_running. rewrite existsb_exists, bool_decide_eq_true.
  setoid_rewrite andb_true_iff. setoid_rewrite bool_decide_eq_true. split.
  - intros (st & Hin & <- & Hrun). apply list_elem_of_In, steps_of_elem in Hin as (_ & r' & Hr' & Hst).
    rewrite Hst in Hrun. simpl in Hrun. congruence.
  - intros Hrun. exists (scanStep id q r). split; [|done]. by apply list_elem_of_In, steps_of_nonempty.
Qed.

(** Hooks recovery owes for one job. *)
Definition recovery_hooks (id kind : string) : list (string * bool * string) :=
  match wfs !! kind with
  | Some wf => if wf_OnTerminal wf then [(id, false, restart_msg)] else []
  | None => []
  end.

Lemma recover_fail_own j : yields (own (j_ID j) (aux (j_ID j))) (recover_fail F clk jv wfs j).
Proof.
  unfold recover_fail. apply yields_bind; [apply _|auto with yields|intros now].
  apply yields_bind; [apply _|auto with yields|intros err].
  destruct err; [apply yields_ret, _|].
  apply yields_bind; [apply _|auto with yields|intros r].
  apply yields_bind; [apply _|apply yields_for_each; [apply _|intros ? _; apply recover_step_own]|intros _].
  yield.
Qed.

(** The world once the job's row is failed and its steps are listed. *)
Definition failed_world (j : Job) (w : World) : World :=
  mkWorld (set_jobs (alter (recovered_job (clk (w_tick w))) (j_ID j)) (w_store w)) (w_trace w) (3 + w_tick w).

Lemma recover_fail_exec j w :
  exec (recover_fail F clk jv wfs j) w =
  exec (match wfs !! j_Kind j with
        | Some wf => fireTerminal wf (j_ID j) false restart_msg
        | None => mret tt
        end)
    (exec (emit F clk jv (j_ID j) JobFailed (DataRecovered restart_msg))
      (exec (for_each (recover_step F (j_ID j) (clk (w_tick w))) (steps_of (w_store w) (j_ID j)))
        (failed_world j w))).
Proof.
  unfold recover_fail. rewrite !exec_bind.
  replace (eval (db F _) _) with (@None error) by (unfold eval, db; simpl; by rewrite Hok).
  rewrite !exec_bind.
  replace (exec (dbq F _) _) with (failed_world j w) by (unfold exec, dbq, db; simpl; by rewrite Hok).
  replace (steps_or_nil _) with (steps_of (w_store w) (j_ID j)); [done|].
  unfold eval, dbq, exec, db, ListSteps, query. simpl. by rewrite !Hok.
Qed.

Lemma recover_fail_spec j w r :
  jobs (w_store w) !! j_ID j = Some r →
  let w' := exec (recover_fail F clk jv wfs j) w in
  let now := clk (w_tick w) in
  jobs (w_store w') !! j_ID j = Some (recovered_job now r) ∧
  (∀ q sr, job_steps (w_store w) !! (j_ID j, q) = Some sr →
     job_steps (w_store w') !! (j_ID j, q) =
       Some (if bool_decide (sr_status sr = StepRunning) then recovered_step now sr else sr)) ∧
  hooks (new_effects w w') = recovery_hooks (j_ID j) (j_Kind j).
Proof.
  intros Hr w' now. unfold w'. rewrite recover_fail_exec.
  set (w3 := exec (for_each _ _) _). set (w4 := exec (emit _ _ _ _ _ _) w3).
  assert (jobs (w_store w3) !! j_ID j = Some (recovered_job now r)) as Hj3.
  { destruct (recover_steps_spec (j_ID j) now (steps_of (w_store w) (j_ID j)) (failed_world j w) 0) as [_ Hj].
    unfold w3, now in *. rewrite Hj. simpl. by rewrite lookup_alter_eq, Hr. }
  assert (∀ q sr, job_steps (w_store w) !! (j_ID j, q) = Some sr → job_steps (w_store w3) !! (j_ID j, q) =
    Some (if bool_decide (sr_status sr = StepRunning) then recovered_step now sr else sr)) as Hq3.
  { intros q sr Hsr.
    destruct (recover_steps_spec (j_ID j) now (steps_of (w_store w) (j_ID j)) (failed_world j w) q) as [Hq _].
    unfold w3, now in *. rewrite Hq, (listed_running _ _ _ sr) by done. simpl. rewrite Hsr.
    by case_bool_decide. }
  assert (own (j_ID j) hookless w w4) as H04.
  { transitivity w3; [|by apply own_emit]. transitivity (failed_world j w).
    - pose proof (MarkJobFailed_local None (w_store w) (j_ID j) restart_msg now) as (?&?&?&?).
      split; try done. exists []. by rewrite app_nil_r.
    - apply (yields_exec (own (j_ID j) hookless)). apply yields_for_each; [apply _|].
      intros st _. unfold recover_step. yield. }
  pose proof (hooks_none (new_effects w w4) (own_new _ _ _ _ H04)) as Hn.
  assert (∀ m : M World unit, yields (own (j_ID j) (aux (j_ID j))) m → hooks (new_effects w (exec m w4))
    = hooks (new_effects w4 (exec m w4))) as Hh.
  { intros m Hm. by rewrite (hooks_trans _ _ _ w w4 (exec m w4) H04 (Hm w4)), Hn. }
  unfold recovery_hooks. destruct (wfs !! j_Kind j) as [wf|].
  - rewrite fire_store. unfold w4. rewrite emit_jobs, emit_steps. split_and!; [done|done|].
    rewrite Hh by auto with yields. unfold fireTerminal, new_effects.
    destruct (wf_OnTerminal wf); simpl; [by rewrite drop_app_length|by rewrite drop_all].
  - rewrite exec_ret. unfold w4. rewrite emit_jobs, emit_steps. by split_and!.
Qed.

(** *** The whole pass *)
Context (dec : option (Job → list JobStep → RecoverDecision)).

Definition deferred (s : Store) (j : Job) : bool :=
  match dec with
  | Some d => bool_decide (d j (steps_of s (j_ID j)) = RecoverDefer)
  | None => false
  end.

Definition same_rows (id : string) (s s' : Store) : Prop :=
  jobs s' !! id = jobs s !! id ∧ ∀ q, job_steps s' !! (id, q) = job_steps s !! (id, q).

(** The job's row and its running steps are failed, nothing else of it changed. *)
Definition failed_over (id : string) (s s' : Store) : Prop :=
  ∃ now r, jobs s !! id = Some r ∧ jobs s' !! id = Some (recovered_job now r) ∧
    ∀ q sr, job_steps s !! (id, q) = Some sr →
      job_steps s' !! (id, q) =
        Some (if bool_decide (sr_status sr = StepRunning) then recovered_step now sr else sr).

Definition fate (s : Store) (j : Job) (s' : Store) : Prop :=
  if deferred s j then same_rows (j_ID j) s s' else failed_over (j_ID j) s s'.

Definition owed_hooks (s : Store) (j : Job) : list (string * bool * string) :=
  if deferred s j then [] else recovery_hooks (j_ID j) (j_Kind j).

Lemma recover_job_own j : yields (own (j_ID j) (aux (j_ID j))) (recover_job F clk jv wfs dec j).
Proof.
  unfold recover_job. destruct dec as [d|]; [|apply recover_fail_own].
  apply yields_bind; [apply _|auto with yields|intros r].
  destruct (bool_decide _); [apply yields_ret, _|apply recover_fail_own].
Qed.

Lemma recover_job_spec j w r :
  jobs (w_store w) !! j_ID j = Some r →
  let w' := exec (recover_job F clk jv wfs dec j) w in
  fate (w_store w) j (w_store w') ∧ hooks (new_effects w w') = owed_hooks (w_store w) j.
Proof.
  intros Hr w'. unfold w', recover_job, fate, owed_hooks, deferred. destruct dec as [d|].
  - rewrite exec_bind. set (w1 := exec (dbq F _) w).
    replace (steps_or_nil _) with (steps_of (w_store w) (j_ID j))
      by (unfold eval, dbq, ListSteps, query; simpl; by rewrite Hok).
    case_bool_decide.
    + rewrite exec_ret. unfold new_effects, same_rows, w1. simpl. by rewrite drop_all.
    + destruct (recover_fail_spec j w1 r Hr) as (H1 & H2 & H3). split; [|exact H3].
      exists (clk (w_tick w1)), r. done.
  - destruct (recover_fail_spec j w r Hr) as (H1 & H2 & H3). split; [|exact H3].
    exists (clk (w_tick w)), r. done.
Qed.

Lemma fate_ext j s1 s2 s3 s4 :
  same_rows (j_ID j) s1 s2 → same_rows (j_ID j) s3 s4 → fate s2 j s3 → fate s1 j s4.
Proof.
  intros [Hj12 Hs12] [Hj34 Hs34]. unfold fate, deferred.
  rewrite (steps_of_ext s2 s1) by done. destruct dec as [d|]; [destruct (bool_decide _)|].
  2,3: intros (now & r & Hr & Hr' & Hq); exists now, r; rewrite <- Hj12, Hj34; split_and!; [done..|];
    intros q sr Hsr; rewrite Hs34; apply Hq; by rewrite Hs12.
  intros [Hj Hs]. split; [congruence|]. intros q. by rewrite Hs34, Hs, Hs12.
Qed.

Lemma owed_hooks_ext j s1 s2 : same_rows (j_ID j) s1 s2 → owed_hooks s2 j = owed_hooks s1 j.
Proof. intros [_ Hs]. unfold owed_hooks, deferred. by rewrite (steps_of_ext s2 s1). Qed.

Lemma recover_list_spec l w :
  NoDup (j_ID <$> l) → (∀ j, j ∈ l → is_Some (jobs (w_store w) !! j_ID j)) →
  let w' := exec (for_each (recover_job F clk jv wfs dec) l) w in
  (∀ id, id ∉ j_ID <$> l → same_rows id (w_store w) (w_store w')) ∧
  (∀ j, j ∈ l → fate (w_store w) j (w_store w')) ∧
  hooks (new_effects w w') = concat (owed_hooks (w_store w) <$> l) ∧
  (∃ new, w_trace w' = w_trace w ++ new).
Proof.
  revert w. induction l as [|j l IH]; intros w Hnd Hrow; simpl.
  { unfold new_effects. rewrite exec_ret, drop_all. split_and!; [done|by intros ? ?%not_elem_of_nil|done|].
    exists []. by rewrite app_nil_r. }
  apply NoDup_cons in Hnd as [Hj Hnd].
  destruct (Hrow j) as [r Hr]; [set_solver|]. rewrite exec_bind.
  destruct (recover_job_spec j w r Hr) as [Hfate Hhook].
  pose proof (recover_job_own j w) as Hown. set (w1 := exec (recover_job F clk jv wfs dec j) w) in *.
  assert (∀ id, id ≠ j_ID j → same_rows id (w_store w) (w_store w1)) as Hsame.
  { intros id Hid. split; [by apply (own_jobs _ _ _ _ Hown)|]. intros q. by apply (own_steps _ _ _ _ Hown). }
  destruct (IH w1 Hnd) as (Hout & Hin & Hhooks & n2 & T2).
  { intros j' Hj'. destruct (Hsame (j_ID j')) as [-> _]; [|apply Hrow; set_solver].
    intros Heq. apply Hj. rewrite <- Heq. by apply list_elem_of_fmap_2. }
  set (w2 := exec (for_each _ l) w1) in *.
  destruct (own_trace _ _ _ _ Hown) as (n1 & T1 & _). change (snd _) with w1 in T1.
  split_and!.
  - intros id Hid. destruct (Hsame id) as [A B]; [set_solver|]. destruct (Hout id) as [C D]; [set_solver|].
    split; [congruence|]. intros q. by rewrite D, B.
  - intros j' [->|Hj']%elem_of_cons.
    + by eapply (fate_ext j _ (w_store w) (w_store w1)); [|apply Hout|].
    + eapply (fate_ext j' _ (w_store w1) (w_store w2)); [|done|by apply Hin].
      apply Hsame. intros Heq. apply Hj. rewrite <- Heq. by apply list_elem_of_fmap_2.
  - assert (new_effects w w2 = n1 ++ n2) as -> by (unfold new_effects; by rewrite T2, T1, <- app_assoc, drop_app_length).
    assert (new_effects w w1 = n1) as E1 by (unfold new_effects; by rewrite T1, drop_app_length).
    assert (new_effects w1 w2 = n2) as E2 by (unfold new_effects; by rewrite T2, drop_app_length).
    unfold hooks in *. rewrite omap_app, <- E1, <- E2, Hhook, Hhooks. f_equal.
    f_equal. apply list_fmap_ext. intros i j' Hj'. apply owed_hooks_ext, Hsame.
    intros Heq. apply Hj. rewrite <- Heq. apply list_elem_of_fmap_2. by eapply list_elem_of_lookup_2.
  - exists (n1 ++ n2). by rewrite T2, T1, app_assoc.
Qed.
End Recovery.

(** C5. Recovery at startup leaves no orphan: for every job the ledger holds
    when the api starts, a job already terminal keeps its row and its steps; a
    job in flight that the decider defers is left exactly as it was; every other
    job in flight ends [failed] with the restart message, its running steps
    failed with it and its other steps untouched.  The terminal hook of its
    workflow fires once per job failed, and for no other job. *)
Theorem recover_clears F clk jv wfs dec w :
  (∀ n, F n = None) →
  let w' := exec (Recover F clk jv wfs dec) w in
  let in_flight := by_created_asc
    (filter (λ j, j_Status j ∈ [StatusQueued; StatusRunning]) (all_jobs (w_store w))) in
  eval (Recover F clk jv wfs dec) w = None ∧
  (∀ id r, jobs (w_store w) !! id = Some r →
    if terminal (jr_status r) then same_rows id (w_store w) (w_store w')
    else fate dec (w_store w) (scanJob id r) (w_store w')) ∧
  hooks (new_effects w w') = concat (owed_hooks wfs dec (w_store w) <$> in_flight).
Proof.
  intros Hok w' l. unfold w', Recover. rewrite eval_bind, exec_bind.
  replace (eval (dbq F _) w) with (Ok l) by (unfold eval, dbq, ListJobsByStatus, query; simpl; by rewrite Hok).
  rewrite exec_bind. set (w1 := exec (dbq F _) w). split; [by rewrite eval_bind|].
  assert (∀ j, j ∈ l ↔ j_Status j ∈ [StatusQueued; StatusRunning] ∧ j ∈ all_jobs (w_store w)) as Hl.
  { intros j. unfold l. by rewrite by_created_asc_perm, list_elem_of_filter. }
  destruct (recover_list_spec F clk jv Hok wfs dec l w1) as (Hout & Hin & Hhooks & _).
  - unfold l. rewrite by_created_asc_perm. eapply sublist_NoDup; [apply (all_jobs_NoDup (w_store w))|].
    apply fmap_sublist, sublist_filter.
  - intros j Hj. apply Hl in Hj as [_ (r & Hr & _)%all_jobs_elem]. eauto.
  - rewrite exec_ret. split; [|exact Hhooks]. intros id r Hr. destruct (terminal (jr_status r)) eqn:Ht.
    + apply Hout. intros (j & -> & [Hst Hj]%Hl)%list_elem_of_fmap.
      apply all_jobs_elem in Hj as (r' & Hr' & Hj). simplify_eq. rewrite Hj in Hst. simpl in Hst.
      destruct (jr_status r); set_solver.
    + apply (Hin (scanJob id r)). apply Hl. split; [|apply all_jobs_elem; eauto].
      simpl. destruct (jr_status r); set_solver.
Qed.

Definition w_crashed : World :=
  mkWorld (mkStore
    {["job-1" := mkJobRow "node.update" "{}" StatusRunning "op" 0 (Some 1) None None None;
      "job-2" := mkJobRow "app.deploy" "{}" StatusSucceeded "op" 0 (Some 1) (Some 2) None None]}
    {[("job-1", 0) := mkStepRow "precheck" StepSucceeded (Some 1) (Some 2) 0 (Some "{}") None;
      ("job-1", 1) := mkStepRow "install" StepRunning (Some 2) None 0 None None]} []) [] 0.

Lemma recover_clears_witness :
  fate None (w_store w_crashed)
    (scanJob "job-1" (mkJobRow "node.update" "{}" StatusRunning "op" 0 (Some 1) None None None))
    (w_store (exec (Recover no_fault still (λ _, true) ∅ None) w_crashed)).
Proof.
  destruct (recover_clears no_fault still (λ _, true) ∅ None w_crashed) as (_ & H & _); [reflexivity|].
  apply (H "job-1" (mkJobRow "node.update" "{}" StatusRunning "op" 0 (Some 1) None None None)).
  vm_compute. reflexivity.
Defined.

(** ** Submission *)

Definition carries_secret (spec : SpecArg) : bool :=
  match spec with SpecTyped s _ => s | _ => false end.
Definition pre_marshalled (spec : SpecArg) : bool :=
  match spec with SpecRaw _ => true | _ => false end.

Lemma encodeSpec_ok kind spec b :
  encodeSpec kind spec = Ok b → carries_secret spec = false ∧ pre_marshalled spec = false.
Proof. destruct spec as [| |[] []]; simpl; try done. Qed.

(** The row a submission writes. *)
Definition queued_row (j : Job) : job_row :=
  mkJobRow (j_Kind j) (j_Spec j) StatusQueued (j_CreatedBy j) (tsMillis (j_CreatedAt j)) None None
    (j_ParentID j) None.

(** C6. Submission is all or nothing, for every fault pattern: a refused
    submission (a spec that carries a secret or is already raw bytes, a kind no
    workflow is registered for, a [prepare] that fails, a database error, an id
    already taken) leaves the ledger as it was, publishes nothing and starts
    nothing; an accepted one adds exactly one queued row under a fresh id, whose
    spec is the encoding of a spec that carries no secret, announces it and
    starts it once. *)
Theorem submit_all_or_nothing F clk mint jv wfs kind spec by_ parent prepare w :
  let r := eval (submit F clk mint jv wfs kind spec by_ parent prepare) w in
  let w' := exec (submit F clk mint jv wfs kind spec by_ parent prepare) w in
  match r with
  | Fail _ => w_store w' = w_store w ∧ w_trace w' = w_trace w
  | Ok j =>
      carries_secret spec = false ∧ pre_marshalled spec = false ∧
      encodeSpec kind spec = Ok (j_Spec j) ∧ is_Some (wfs !! kind) ∧ j_Kind j = kind ∧
      (match prepare with Some p => p (j_ID j) | None => None end) = None ∧
      jobs (w_store w) !! j_ID j = None ∧
      jobs (w_store w') = <[j_ID j := queued_row j]> (jobs (w_store w)) ∧
      job_steps (w_store w') = job_steps (w_store w) ∧
      ∃ d, new_effects w w' = [EPublish (j_ID j) JobCreated d; ESpawn (j_ID j)]
  end.
Proof.
  unfold submit. destruct (encodeSpec kind spec) as [raw|e] eqn:Henc; [|done].
  apply encodeSpec_ok in Henc as Hspec. destruct Hspec as [Hsec Hraw].
  unfold create. destruct (wfs !! kind) as [wf|] eqn:Hwf; [|done].
  unfold eval, exec. rewrite !bind_run. unfold eval, exec. cbn [fst snd time_now].
  set (id := mint (w_tick w)).
  destruct (match prepare with Some p => p id | None => None end) as [e|] eqn:Hp; [done|].
  rewrite !bind_run. unfold eval, exec, db, CreateJob. cbn [w_tick w_store j_ID].
  destruct (F (S (w_tick w))) as [e|]; [done|]. cbn [stmt].
  destruct (jobs (w_store w) !! id) as [r|] eqn:Hid; [done|]. cbn [fst snd].
  rewrite !bind_run. cbn [eval exec fst snd tell mret M_ret w_store w_trace]. unfold M_ret. simpl.
  rewrite emit_jobs, emit_steps. simpl. split_and!; try done.
  - f_equal. unfold queued_row. simpl. f_equal. repeat case_bool_decide; done.
  - eexists. unfold new_effects, emit. rewrite !exec_bind. unfold exec, tell, db. simpl.
    destruct (AppendEvent _ _ _ _ _ _) as [s e]. simpl. rewrite <- app_assoc. simpl. apply drop_app_length.
Qed.

(** ** Two limits *)

Lemma db_store F {A} (op : option error → Store → Store * A) w :
  w_store (exec (db F op) w) = (op (F (w_tick w)) (w_store w)).1.
Proof. unfold exec, db. by destruct (op _ _). Qed.

Lemma CreateStep_jobs flt s st : jobs (CreateStep flt s st).1 = jobs s.
Proof. unfold CreateStep. destruct flt; simpl; [done|]. by case_match. Qed.

Lemma runStep_zero F clk jv bo j seq step prior w :
  ws_Irreversible step = false → Z.to_nat (maxAttempts step) = 0%nat →
  let w' := exec (runStep F clk jv bo j seq step prior) w in
  eval (runStep F clk jv bo j seq step prior) w = (Panicked, prior) ∧
  own (j_ID j) (aux0 (j_ID j)) w w' ∧ jobs (w_store w') = jobs (w_store w).
Proof.
  intros Hirr Hmax w'. unfold w', runStep. rewrite Hirr, Hmax, !eval_bind, !exec_bind.
  rewrite eval_ret, exec_ret, !eval_bind, !exec_bind. cbn [attempts]. rewrite eval_ret, exec_ret.
  split_and!; [done| |].
  - etrans; [apply (own_now clk)|]. etrans; [|by apply own_emit]. apply own_db. intros. by apply CreateStep_local.
  - rewrite emit_jobs, db_store. apply CreateStep_jobs.
Qed.

(** A retryable step. *)
Definition retry_step (name : string) (do_ : DoFn) (timeout retries : Z) : WorkflowStep :=
  mkWStep name do_ timeout retries false.

(** [ValidateWorkflow] admits a negative [Retries], and the runner does not
    survive one: the retry loop runs zero times and [lastErr.Error()] is a nil
    dereference, so the run panics, the job's row is left [running] and no hook
    fires. *)
Theorem negative_retries_panics F clk jv bo j kind name do_ timeout retries hook steps w r :
  (∀ n, F n = None) → jobs (w_store w) !! j_ID j = Some r →
  int64_min ≤ retries → retries < 0 →
  let st := retry_step name do_ timeout retries in
  let wf := mkWorkflow kind (st :: steps) hook in
  (ValidateWorkflow (mkWorkflow kind [st] hook) = None) ∧
  eval (run F clk jv bo j wf) w = Panicked ∧
  (∃ r', jobs (w_store (exec (run F clk jv bo j wf) w)) !! j_ID j = Some r' ∧ jr_status r' = StatusRunning) ∧
  hooks (new_effects w (exec (run F clk jv bo j wf) w)) = [].
Proof.
  intros Hok Hr Hmin Hneg st wf. split; [done|].
  assert (Z.to_nat (maxAttempts st) = 0%nat) as Hmax.
  { unfold maxAttempts. simpl. rewrite wrap64_id; unfold in_int64, int64_max, int64_min in *; lia. }
  unfold run, wf. rewrite !eval_bind, !exec_bind. simpl wf_Steps.
  set (w3 := exec (emit _ _ _ _ _ _) _).
  assert (∃ r', jobs (w_store w3) !! j_ID j = Some r' ∧ jr_status r' = StatusRunning) as H3.
  { unfold w3. rewrite emit_jobs. unfold exec, db. simpl. rewrite Hok. simpl.
    rewrite lookup_alter_eq, Hr. simpl. eauto. }
  pose proof (run_start_own F clk jv (j_ID j) w : own _ _ _ w3) as H03.
  destruct (runStep_zero F clk jv bo j 0 st ∅ w3 eq_refl Hmax) as (He & H34 & Hj).
  cbn [run_steps]. rewrite eval_bind, exec_bind, He. split; [done|]. rewrite eval_ret, !exec_ret. split.
  - destruct H3 as (r' & Hr' & Hst). exists r'. by rewrite Hj.
  - apply hooks_none. eapply own_new. eapply own_weaken; [|etrans; [exact H03|exact H34]]. by intros [].
Qed.

Definition wf_negative : Workflow :=
  mkWorkflow "node.update" [mkWStep "verify" (λ _ _, mkDo [] None None) 1000 (-1) false] true.

Lemma negative_retries_panics_witness :
  ValidateWorkflow wf_negative = None ∧
  eval (run no_fault still (λ _, true) (λ n, n) job0 wf_negative) w_queued = Panicked.
Proof.
  destruct (negative_retries_panics no_fault still (λ _, true) (λ n, n) job0 "node.update" "verify"
    (λ _ _, mkDo [] None None) 1000 (-1) true [] w_queued
    (mkJobRow "node.update" "{}" StatusQueued "op" 0 None None None None)) as (H1 & H2 & _).
  - reflexivity.
  - vm_compute. reflexivity.
  - vm_compute. discriminate.
  - reflexivity.
  - exact (conj H1 H2).
Defined.

Definition flaky_insert : nat → option error :=
  λ n, if bool_decide (n = 6%nat) then Some (errors_New "database is locked") else None.

(** The at-most-once guarantee of Irreversible steps rests on the step row
    being written: [runStep] logs a failed [CreateStep] and goes on.  If that
    one statement fails, the body runs with no record, and a later run of the
    same job, with the database back, runs it a second time. *)
Theorem lost_row_runs_twice :
  let w1 := exec (run flaky_insert still (λ _, true) (λ n, n) job0 wf_second) w_queued in
  let w2 := exec (run no_fault still (λ _, true) (λ n, n) job0 wf_second) w1 in
  calls (new_effects w_queued w1) = [(0, "install", 0)] ∧
  calls (new_effects w1 w2) = [(0, "install", 0)].
Proof. vm_compute. done. Qed.
