(* ===== verification/GoStrings.v ===== *)
(** * Go's string functions

    The functions of packages [strings], [bytes] and [sort] the modelled
    sources call, on byte strings.  [TrimSpace] and [Fields] treat the six
    ASCII white-space bytes as space; the sources apply them to ASCII input
    only (kernel command lines, grubenv blocks, version files), where that is
    what Go's Unicode test amounts to. *)
From Stdlib Require Import Ascii String.
From S2P Require Import Prelude.
Open Scope string_scope.
Open Scope list_scope.
#[local] Arguments String.append : simpl nomatch.

(** ** Characters and tests *)

Definition char (n : nat) : ascii := ascii_of_nat n.
Definition is_space (c : ascii) : bool :=
  let n := nat_of_ascii c in
  Nat.eqb n 32 || (Nat.leb 9 n && Nat.leb n 13).

(** [for _, c := range s { if !p(c) { return false } } return true] *)
Fixpoint all_chars (p : ascii → bool) (s : string) : bool :=
  match s with
  | EmptyString => true
  | String c s => p c && all_chars p s
  end.

(** The character [c] does not occur in [s]. *)
Definition without (c : ascii) (s : string) : bool :=
  all_chars (λ d, negb (Ascii.eqb d c)) s.

Fixpoint HasPrefix (s p : string) {struct p} : bool :=
  match p, s with
  | EmptyString, _ => true
  | String c p, String d s => Ascii.eqb c d && HasPrefix s p
  | String _ _, EmptyString => false
  end.

(** [strings.Contains] *)
Fixpoint Contains (s p : string) : bool :=
  HasPrefix s p ||
  match s with
  | EmptyString => false
  | String _ s => Contains s p
  end.

Fixpoint drop_str (n : nat) (s : string) : string :=
  match n, s with
  | O, _ => s
  | S n, String _ s => drop_str n s
  | S _, EmptyString => EmptyString
  end.

Fixpoint take_str (n : nat) (s : string) : string :=
  match n, s with
  | S n, String c s => String c (take_str n s)
  | _, _ => EmptyString
  end.

(** proto.ShortFingerprint. *)
Definition ShortFingerprint (fp : string) : string := take_str (String.length fp `min` 12)%nat fp.

Definition HasSuffix (s p : string) : bool :=
  Nat.leb (String.length p) (String.length s) && String.eqb (drop_str (String.length s - String.length p) s) p.

Definition TrimSuffix (s p : string) : string :=
  if HasSuffix s p then take_str (String.length s - String.length p) s else s.

(** A run of [n] copies of [c]. *)
Fixpoint repeat_char (c : ascii) (n : nat) : string :=
  match n with O => EmptyString | S n => String c (repeat_char c n) end.

(** ** Splitting and joining *)

(** [strings.Split(s, string(sep))] for a one-byte separator. *)
Fixpoint Split (sep : ascii) (s : string) : list string :=
  match s with
  | EmptyString => [EmptyString]
  | String c s =>
      if Ascii.eqb c sep then EmptyString :: Split sep s
      else match Split sep s with
           | [] => [String c EmptyString]
           | w :: ws => String c w :: ws
           end
  end.

(** [i := strings.IndexByte(s, c)] with the two halves around it:
    [Some (s[:i], s[i+1:])], or [None] when [c] does not occur. *)
Fixpoint cut_at (c : ascii) (s : string) : option (string * string) :=
  match s with
  | EmptyString => None
  | String d s =>
      if Ascii.eqb d c then Some (EmptyString, s)
      else match cut_at c s with
           | Some (l, r) => Some (String d l, r)
           | None => None
           end
  end.

(** Matching a regular expression by hand: the longest prefix of characters
    of a class and the rest, and one expected character. *)
Fixpoint span (p : ascii → bool) (s : string) : string * string :=
  match s with
  | EmptyString => (EmptyString, EmptyString)
  | String c r => if p c then let '(a, b) := span p r in (String c a, b) else (EmptyString, s)
  end.
Definition eat (c : ascii) (s : string) : option string :=
  match s with
  | String d r => if Ascii.eqb c d then Some r else None
  | EmptyString => None
  end.

(** [strings.Fields] *)
Fixpoint fields_aux (s : string) (cur : string) : list string :=
  match s with
  | EmptyString => if String.eqb cur EmptyString then [] else [cur]
  | String c s =>
      if is_space c
      then (if String.eqb cur EmptyString then [] else [cur]) ++ fields_aux s EmptyString
      else fields_aux s (cur +:+ String c EmptyString)
  end.
Definition Fields (s : string) : list string := fields_aux s EmptyString.

(** [strings.Join] *)
Fixpoint Join (l : list string) (sep : string) : string :=
  match l with
  | [] => EmptyString
  | [x] => x
  | x :: l => x +:+ sep +:+ Join l sep
  end.

Fixpoint TrimLeft (s : string) : string :=
  match s with
  | String c s' => if is_space c then TrimLeft s' else s
  | EmptyString => EmptyString
  end.
Fixpoint TrimRight (s : string) : string :=
  match s with
  | EmptyString => EmptyString
  | String c s =>
      let r := TrimRight s in
      if is_space c && String.eqb r EmptyString then EmptyString else String c r
  end.
Definition TrimSpace (s : string) : string := TrimRight (TrimLeft s).

(** [sort.Strings]: bytewise lexicographic order. *)
Definition string_le (a b : string) : Prop := String.leb a b = true.
#[export] Instance string_le_dec : RelDecision string_le.
Proof. intros a b. unfold string_le. apply _. Defined.
Definition sort_Strings (l : list string) : list string := merge_sort string_le l.

(** ** Laws *)

#[export] Instance ascii_eq_decision : EqDecision ascii := ascii_dec.

Lemma app_nil_s (s : string) : s +:+ EmptyString = s.
Proof. induction s as [|c s IH]; simpl; [done|]. by f_equal. Qed.
Lemma app_assoc_s (a b c : string) : (a +:+ b) +:+ c = a +:+ (b +:+ c).
Proof. induction a as [|x a IH]; simpl; [done|]. by f_equal. Qed.
Lemma length_app_s (a b : string) : String.length (a +:+ b) = (String.length a + String.length b)%nat.
Proof. induction a as [|x a IH]; simpl; [done|]. by f_equal. Qed.
Lemma length_repeat_char c n : String.length (repeat_char c n) = n.
Proof. induction n as [|n IH]; simpl; [done|]. by f_equal. Qed.
Lemma drop_str_app (a b : string) : drop_str (String.length a) (a +:+ b) = b.
Proof. by induction a. Qed.
Lemma take_str_app (a b : string) : take_str (String.length a) (a +:+ b) = a.
Proof. induction a as [|c a IH]; simpl; [by destruct b|]. by f_equal. Qed.
Lemma take_drop_str n (s : string) : take_str n s +:+ drop_str n s = s.
Proof. revert s. induction n as [|n IH]; intros [|c s]; simpl; try done. f_equal. apply IH. Qed.
Lemma length_take_str n (s : string) : String.length (take_str n s) = (n `min` String.length s)%nat.
Proof. revert s. induction n as [|n IH]; intros [|c s]; simpl; auto. Qed.
Lemma length_drop_str n (s : string) : String.length (drop_str n s) = (String.length s - n)%nat.
Proof. revert s. induction n as [|n IH]; intros [|c s]; simpl; auto. Qed.
Lemma drop_str_all n (s : string) : (String.length s ≤ n)%nat → drop_str n s = EmptyString.
Proof. revert s. induction n as [|n IH]; intros [|c s]; simpl; intros; auto with lia. Qed.
Lemma take_str_all n (s : string) : (String.length s ≤ n)%nat → take_str n s = s.
Proof. revert s. induction n as [|n IH]; intros [|c s]; simpl; intros; auto with lia. f_equal. apply IH. lia. Qed.

Lemma all_chars_app p a b : all_chars p (a +:+ b) = all_chars p a && all_chars p b.
Proof. induction a as [|c a IH]; simpl; [done|]. by rewrite IH, andb_assoc. Qed.
Lemma all_chars_repeat p c n : p c = true → all_chars p (repeat_char c n) = true.
Proof. intros H. induction n as [|n IH]; simpl; [done|]. by rewrite H. Qed.
Lemma all_chars_impl (p q : ascii → bool) s :
  (∀ c, p c = true → q c = true) → all_chars p s = true → all_chars q s = true.
Proof. intros H. induction s as [|c s IH]; simpl; [done|]. rewrite !andb_true_iff. intros [??]. auto. Qed.

Lemma HasPrefix_spec s p : HasPrefix s p = true ↔ ∃ r, s = p +:+ r.
Proof.
  revert s. induction p as [|c p IH]; intros s.
  { simpl. split; [|done]. intros _. by exists s. }
  destruct s as [|d s]; simpl; [by split; [|intros [? ?]]|].
  rewrite andb_true_iff, Ascii.eqb_eq, IH. split.
  - intros [-> [r ->]]. by exists r.
  - intros [r [= -> ->]]. eauto.
Qed.

Lemma Split_cons sep s : ∃ w ws, Split sep s = w :: ws.
Proof. destruct s as [|c s]; simpl; [eauto|]. destruct (Ascii.eqb c sep); [eauto|]. destruct (Split sep s); eauto. Qed.

(** One separator ends one piece. *)
Lemma Split_app sep a b :
  without sep a = true → Split sep (a +:+ String sep b) = a :: Split sep b.
Proof.
  unfold without. induction a as [|c a IH]; simpl; [by rewrite Ascii.eqb_refl|].
  rewrite andb_true_iff, negb_true_iff. intros [-> H]. by rewrite IH.
Qed.

Lemma Split_plain sep a : without sep a = true → Split sep a = [a].
Proof.
  unfold without. induction a as [|c a IH]; simpl; [done|].
  rewrite andb_true_iff, negb_true_iff. intros [-> H]. by rewrite IH.
Qed.

Lemma Split_pieces sep s w : w ∈ Split sep s → without sep w = true.
Proof.
  unfold without. revert w. induction s as [|c s IH]; intros w; simpl; [intros ->%list_elem_of_singleton; done|].
  destruct (Ascii.eqb c sep) eqn:E.
  - intros [->|H]%elem_of_cons; [done|by apply IH].
  - destruct (Split_cons sep s) as (v & vs & Hs). rewrite Hs in *.
    intros [->|H]%elem_of_cons; simpl; [rewrite E|]; simpl; apply IH; set_solver.
Qed.

Lemma cut_at_app c a b : without c a = true → cut_at c (a +:+ String c b) = Some (a, b).
Proof.
  unfold without. induction a as [|d a IH]; simpl; [by rewrite Ascii.eqb_refl|].
  rewrite andb_true_iff, negb_true_iff. intros [-> H]. by rewrite IH.
Qed.

Lemma cut_at_Some c s a b : cut_at c s = Some (a, b) → s = a +:+ String c b ∧ without c a = true.
Proof.
  unfold without. revert a. induction s as [|d s IH]; intros a; simpl; [done|].
  destruct (Ascii.eqb d c) eqn:E.
  - intros [= <- <-]. apply Ascii.eqb_eq in E. by subst.
  - destruct (cut_at c s) as [[l r]|]; [|done]. intros [= <- <-].
    destruct (IH l eq_refl) as [-> H]. simpl. by rewrite E.
Qed.

Lemma span_app p a c b : all_chars p a = true → p c = false → span p (a +:+ String c b) = (a, String c b).
Proof.
  intros Ha Hc. induction a as [|d a IH]; simpl in *; [by rewrite Hc|].
  apply andb_true_iff in Ha as [-> Ha]. by rewrite (IH Ha).
Qed.
Lemma span_all p a : all_chars p a = true → span p a = (a, EmptyString).
Proof.
  induction a as [|d a IH]; simpl; [done|]. intros [-> Ha]%andb_true_iff. by rewrite (IH Ha).
Qed.
Lemma span_spec p s a b : span p s = (a, b) → s = a +:+ b ∧ all_chars p a = true.
Proof.
  revert a b. induction s as [|c s IH]; intros a b; simpl; [by intros [= <- <-]|].
  destruct (p c) eqn:E; [|by intros [= <- <-]]. destruct (span p s) as [a' b']. intros [= <- <-].
  destruct (IH a' b' eq_refl) as [-> H]. simpl. by rewrite E.
Qed.

Lemma fields_aux_word (w s cur : string) :
  all_chars (λ c, negb (is_space c)) w = true → fields_aux (w +:+ s) cur = fields_aux s (cur +:+ w).
Proof.
  revert cur. induction w as [|c w IH]; intros cur; simpl; [by rewrite app_nil_s|].
  rewrite andb_true_iff, negb_true_iff. intros [-> H]. rewrite IH by done. f_equal. by rewrite app_assoc_s.
Qed.

(** A non-empty word without white space. *)
Definition is_word (w : string) : bool :=
  negb (String.eqb w EmptyString) && all_chars (λ c, negb (is_space c)) w.

Lemma Fields_Join l : Forall (λ w, is_word w = true) l → Fields (Join l " ") = l.
Proof.
  unfold Fields, is_word. induction 1 as [|w l [Hne Hw]%andb_true_iff Hl IH]; [done|].
  apply negb_true_iff in Hne. destruct l as [|v l].
  - simpl. rewrite <- (app_nil_s w) at 1. rewrite fields_aux_word by done. simpl. by rewrite Hne.
  - change (Join (w :: v :: l) " ") with (w +:+ " " +:+ Join (v :: l) " ").
    rewrite fields_aux_word by done. simpl. rewrite Hne. simpl. f_equal. apply IH.
Qed.

(** ** Order *)

Lemma ascii_compare_trans_lt a b c :
  Ascii.compare a b = Lt → Ascii.compare b c = Lt → Ascii.compare a c = Lt.
Proof. unfold Ascii.compare. rewrite !N.compare_lt_iff. lia. Qed.
Lemma ascii_compare_refl a : Ascii.compare a a = Eq.
Proof. unfold Ascii.compare. apply N.compare_refl. Qed.

Lemma string_compare_le_trans a b c :
  String.compare a b ≠ Gt → String.compare b c ≠ Gt → String.compare a c ≠ Gt.
Proof.
  revert b c. induction a as [|x a IH]; intros [|y b] [|z c]; simpl; try done.
  destruct (Ascii.compare x y) eqn:Exy; [|
    |done]; destruct (Ascii.compare y z) eqn:Eyz; try done.
  - apply Ascii.compare_eq_iff in Exy, Eyz. subst. rewrite ascii_compare_refl. apply IH.
  - apply Ascii.compare_eq_iff in Exy. subst. by rewrite Eyz.
  - apply Ascii.compare_eq_iff in Eyz. subst. by rewrite Exy.
  - by rewrite (ascii_compare_trans_lt _ _ _ Exy Eyz).
Qed.

Lemma string_le_compare a b : string_le a b ↔ String.compare a b ≠ Gt.
Proof. unfold string_le, String.leb. by destruct (String.compare a b). Qed.

#[export] Instance string_le_trans : Transitive string_le.
Proof. intros a b c. rewrite !string_le_compare. apply string_compare_le_trans. Qed.
#[export] Instance string_le_antisymm : AntiSymm (=) string_le.
Proof. intros a b. apply String.leb_antisym. Qed.
#[export] Instance string_le_total : Total string_le.
Proof. intros a b. apply String.leb_total. Qed.

Lemma sort_Strings_perm l : sort_Strings l ≡ₚ l.
Proof. apply merge_sort_Permutation. Qed.

(** The sorted list does not depend on the order a map was ranged in. *)
Lemma sort_Strings_canonical l l' : l ≡ₚ l' → sort_Strings l = sort_Strings l'.
Proof.
  intros H. apply (StronglySorted_unique string_le).
  - apply Sorted_StronglySorted; [apply _|]. apply Sorted_merge_sort; apply _.
  - apply Sorted_StronglySorted; [apply _|]. apply Sorted_merge_sort; apply _.
  - by rewrite !sort_Strings_perm.
Qed.
