(* ===== verification/GoPath.v ===== *)
(** * Package path/filepath on Unix, and the agent's bundle paths

    The lexical functions [Clean], [Join], [Abs] and [Rel], on the list of a
    path's components, and agent/internal/updater/bundlepath.go, which confines
    a path named on the bus to the bundle store with them. *)
From Stdlib Require Import Ascii String.
From S2P Require Import Prelude GoStrings.
#[local] Arguments String.append : simpl nomatch.

Definition slash : ascii := char 47.
Definition IsAbs (s : string) : bool := HasPrefix s "/".

(** ** Clean *)

(** Empty and "." components carry nothing. *)
Definition names (s : string) : list string :=
  filter (λ c, c ≠ EmptyString ∧ c ≠ ".") (Split slash s).

(** One component onto the stack of those before it, innermost first: ".."
    drops the innermost one, stays at the root of an absolute path, and piles
    up at the front of a relative one. *)
Definition push (rooted : bool) (stack : list string) (c : string) : list string :=
  if String.eqb c ".." then
    match stack with
    | [] => if rooted then [] else [".."]
    | t :: st => if String.eqb t ".." then ".." :: stack else st
    end
  else c :: stack.

Definition resolve (rooted : bool) (l : list string) : list string := reverse (foldl (push rooted) [] l).
Definition components (s : string) : list string := resolve (IsAbs s) (names s).

Definition render (rooted : bool) (l : list string) : string :=
  if rooted then "/" +:+ Join l "/"
  else match l with [] => "." | _ => Join l "/" end.

Definition Clean (s : string) : string := render (IsAbs s) (components s).

(** [filepath.Join]: leading empty elements are dropped. *)
Fixpoint filepath_Join (elems : list string) : string :=
  match elems with
  | [] => EmptyString
  | e :: es => if String.eqb e EmptyString then filepath_Join es else Clean (Join (e :: es) "/")
  end.

Definition Abs (cwd s : string) : string :=
  if IsAbs s then Clean s else filepath_Join [cwd; s].

(** ** Rel *)
Fixpoint strip_common (b t : list string) : list string * list string :=
  match b, t with
  | x :: b', y :: t' => if String.eqb x y then strip_common b' t' else (b, t)
  | _, _ => (b, t)
  end.

Definition Rel (base targ : string) : result string :=
  if Bool.eqb (IsAbs base) (IsAbs targ) then
    let '(b, t) := strip_common (components base) (components targ) in
    match b with
    | ".." :: _ => Fail (errors_New ("Rel: can't make " +:+ targ +:+ " relative to " +:+ base))
    | _ => Ok (render false (((λ _, "..") <$> b) ++ t))
    end
  else Fail (errors_New ("Rel: can't make " +:+ targ +:+ " relative to " +:+ base)).

(** ** bundlepath.go *)
Definition errBadBundleID : error :=
  sentinel "errBadBundleID" "bundle id is not a safe filename component".
Definition errBundlePathEscape : error :=
  sentinel "errBundlePathEscape" "bundle path escapes the bundle store".
Definition bundlesSubdir : string := "bundles".
Definition maxBundleIDLen : nat := 128.

Definition in_range (lo hi : nat) (c : ascii) : bool :=
  Nat.leb lo (nat_of_ascii c) && Nat.leb (nat_of_ascii c) hi.

Definition id_char (c : ascii) : bool :=
  in_range 97 122 c || in_range 65 90 c || in_range 48 57 c ||
  (Ascii.eqb c "." || Ascii.eqb c "_" || Ascii.eqb c "-").

Definition validBundleID (id : string) : bool :=
  if String.eqb id EmptyString || bool_decide (maxBundleIDLen < String.length id)%nat
     || String.eqb id "." || String.eqb id ".."
  then false else all_chars id_char id.

(** [getwd] stands for os.Getwd, which [filepath.Abs] asks for a relative
    path: the working directory, or its error. *)
Definition abs_or (getwd : result string) (s : string) : result string :=
  if IsAbs s then Ok (Clean s) else (λ cwd, Abs cwd s) <$> getwd.

Definition resolveBundlePath (getwd : result string) (stateDir bundleID localPath ext : string) : result string :=
  if negb (validBundleID bundleID) then
    Fail (wrapf (err_text errBadBundleID +:+ ": " +:+ quote bundleID) errBadBundleID)
  else if String.eqb localPath EmptyString then
    Ok (filepath_Join [stateDir; bundlesSubdir; bundleID +:+ ext])
  else
    store ← abs_or getwd (filepath_Join [stateDir; bundlesSubdir]);
    abs ← abs_or getwd localPath;
    let escape := Fail (wrapf (err_text errBundlePathEscape +:+ ": " +:+ quote localPath
                    +:+ " is not inside " +:+ store) errBundlePathEscape) in
    match Rel store abs with
    | Fail _ => escape
    | Ok rel =>
        if String.eqb rel "." || String.eqb rel ".." || HasPrefix rel "../" then escape
        else Ok (Clean localPath)
    end.

(** ** Laws of the path functions *)

(** What [Split] leaves between separators, minus the empty names. *)
Definition proper (c : string) : Prop := c ≠ EmptyString ∧ c ≠ "." ∧ without slash c = true.

Lemma Split_app_gen sep a b : Split sep (a +:+ String sep b) = Split sep a ++ Split sep b.
Proof.
  induction a as [|c a IH]; simpl; [by rewrite Ascii.eqb_refl|].
  destruct (Ascii.eqb c sep); [by rewrite IH|]. rewrite IH.
  destruct (Split_cons sep a) as (w & ws & ->). done.
Qed.

Lemma names_join a b : names (a +:+ "/" +:+ b) = names a ++ names b.
Proof. unfold names. change ("/" +:+ b) with (String slash b). by rewrite Split_app_gen, filter_app. Qed.

Lemma names_proper s : Forall proper (names s).
Proof.
  apply Forall_forall. unfold names. intros c [[Hne Hd] Hc]%list_elem_of_filter.
  split_and!; [done..|]. by eapply Split_pieces.
Qed.

Lemma names_single c : proper c → names c = [c].
Proof.
  intros (Hne & Hd & Hs). unfold names. rewrite Split_plain by done.
  by rewrite filter_cons_True, filter_nil.
Qed.

Lemma names_Join l : Forall proper l → names (Join l "/") = l.
Proof.
  induction 1 as [|c l Hc Hl IH]; [done|]. destruct l as [|d l]; [by apply names_single|].
  change (Join (c :: d :: l) "/") with (c +:+ "/" +:+ Join (d :: l) "/").
  by rewrite names_join, IH, names_single.
Qed.

Lemma names_render r l : Forall proper l → names (render r l) = l.
Proof.
  intros Hl. unfold render. destruct r.
  - change ("/" +:+ Join l "/") with ("" +:+ "/" +:+ Join l "/"). rewrite names_join. by rewrite names_Join.
  - destruct l; [done|]. by apply names_Join.
Qed.

Lemma IsAbs_app c s : proper c → IsAbs (c +:+ s) = false.
Proof.
  intros (Hne & _ & Hs). destruct c as [|x c]; [done|]. unfold without in Hs. simpl in Hs.
  apply andb_true_iff in Hs as [Hs _]. apply negb_true_iff in Hs.
  change (Ascii.eqb slash x && true = false). by rewrite Ascii.eqb_sym, Hs.
Qed.

Lemma IsAbs_render r l : Forall proper l → IsAbs (render r l) = r.
Proof.
  intros Hl. destruct r; [done|]. simpl. destruct Hl as [|c l Hc _]; [done|].
  destruct l as [|d l]; [rewrite <- (app_nil_s c)|]; by apply IsAbs_app.
Qed.

Lemma push_proper r st c : proper c → Forall proper st → Forall proper (push r st c).
Proof.
  intros Hc Hst. unfold push. destruct (String.eqb c "..") eqn:E; [|by constructor].
  apply String.eqb_eq in E as ->. destruct Hst as [|t st Ht Hst]; [destruct r; [constructor|by apply Forall_singleton]|].
  destruct (String.eqb t ".."); [|done].
  apply Forall_cons_2; [done|]. by apply Forall_cons_2.
Qed.

Lemma foldl_push_proper r l st : Forall proper l → Forall proper st → Forall proper (foldl (push r) st l).
Proof. intros Hl. revert st. induction Hl; intros; simpl; auto using push_proper. Qed.

Lemma components_proper s : Forall proper (components s).
Proof. apply Forall_reverse, foldl_push_proper; [apply names_proper|constructor]. Qed.

Definition no_up (l : list string) : Prop := Forall (λ c, c ≠ "..") l.

Lemma foldl_push_no_up l st : no_up st → no_up (foldl (push true) st l).
Proof.
  revert st. induction l as [|c l IH]; intros st Hst; [done|]. apply IH. unfold push.
  destruct (String.eqb_spec c ".."); [|by constructor]. destruct Hst as [|t st Ht Hst]; [constructor|].
  by rewrite (proj2 (String.eqb_neq _ _)).
Qed.

Lemma resolve_no_up l : no_up (resolve true l).
Proof. apply Forall_reverse, foldl_push_no_up. constructor. Qed.

(** Names that are not ".." are kept as they come. *)
Lemma foldl_push_names r l st : no_up l → foldl (push r) st l = reverse l ++ st.
Proof.
  intros H. revert st. induction H as [|c l Hc _ IH]; intros st; [done|]. simpl.
  rewrite IH, reverse_cons, <- app_assoc. unfold push. by rewrite (proj2 (String.eqb_neq _ _)).
Qed.

Lemma resolve_app_names r l l' : no_up l' → resolve r (l ++ l') = resolve r l ++ l'.
Proof.
  intros H. unfold resolve. rewrite foldl_app, (foldl_push_names r l' _) by done.
  by rewrite reverse_app, reverse_involutive.
Qed.

(** Resolving a relative path first changes nothing for the absolute one. *)
Lemma foldl_push_resolved l acc st :
  foldl (push true) st (reverse (foldl (push false) acc l))
    = foldl (push true) (foldl (push true) st (reverse acc)) l.
Proof.
  revert acc. induction l as [|c l IH]; intros acc; simpl; [done|]. rewrite IH. f_equal.
  unfold push at 2. destruct (String.eqb_spec c "..") as [->|Hc].
  - destruct acc as [|t acc]; [done|]. destruct (String.eqb_spec t "..") as [->|Ht].
    + by rewrite (reverse_cons _ ".."), foldl_app.
    + rewrite reverse_cons, foldl_app. simpl. generalize (foldl (push true) st (reverse acc)). intros X.
      apply String.eqb_neq in Ht. unfold push. rewrite Ht. simpl. by rewrite Ht.
  - by rewrite reverse_cons, foldl_app.
Qed.

Definition root_names (cwd s : string) : list string :=
  if IsAbs s then names s else names cwd ++ names s.

Lemma components_Abs cwd s : IsAbs cwd = true → components (Abs cwd s) = resolve true (root_names cwd s).
Proof.
  intros Hc. unfold Abs, root_names.
  assert (∀ u, IsAbs u = true → components (Clean u) = resolve true (names u)) as HC.
  { intros u Hu. unfold Clean. unfold components at 1.
    rewrite IsAbs_render, names_render by apply components_proper. rewrite Hu.
    unfold components. rewrite Hu. rewrite <- (app_nil_l (resolve true (names u))) at 1.
    rewrite resolve_app_names by apply resolve_no_up. done. }
  destruct (IsAbs s) eqn:Hs; [by apply HC|]. cbn [filepath_Join].
  destruct (String.eqb cwd EmptyString) eqn:E; [apply String.eqb_eq in E as ->; done|].
  change (Join [cwd; s] "/") with (cwd +:+ "/" +:+ s).
  rewrite HC by by destruct cwd. by rewrite names_join.
Qed.

Lemma components_Abs_Clean cwd s :
  IsAbs cwd = true → components (Abs cwd (Clean s)) = components (Abs cwd s).
Proof.
  intros Hc. rewrite !components_Abs by done. unfold root_names, Clean.
  rewrite IsAbs_render, names_render by apply components_proper. unfold components, resolve.
  destruct (IsAbs s) eqn:Hs.
  - f_equal. rewrite (foldl_push_names true (reverse _)) by apply resolve_no_up.
    by rewrite reverse_involutive, app_nil_r.
  - f_equal. by rewrite !foldl_app, foldl_push_resolved.
Qed.

Lemma components_Abs_Join cwd d l : IsAbs cwd = true → l ≠ [] → Forall proper l →
  components (Abs cwd (filepath_Join (d :: l)))
    = resolve true ((if IsAbs d then [] else names cwd) ++ names d ++ l).
Proof.
  intros Hc Hne Hl. cbn [filepath_Join].
  assert (filepath_Join l = Clean (Join l "/")) as Hj.
  { destruct Hl as [|c l [Hn _] _]; [done|]. simpl. by rewrite (proj2 (String.eqb_neq _ _)). }
  destruct (String.eqb_spec d EmptyString) as [->|Hd].
  - rewrite Hj, components_Abs_Clean, components_Abs by done. unfold root_names. simpl.
    rewrite names_Join by done.
    assert (IsAbs (Join l "/") = false) as ->; [|done].
    destruct l as [|c l]; [done|]. by apply (IsAbs_render false (c :: l)).
  - rewrite components_Abs_Clean, components_Abs by done. unfold root_names.
    destruct l as [|c l]; [done|].
    change (Join (d :: c :: l) "/") with (d +:+ "/" +:+ Join (c :: l) "/").
    rewrite names_join, names_Join by done. destruct d as [|x d]; [done|].
    assert (IsAbs (String x d +:+ "/" +:+ Join (c :: l) "/") = IsAbs (String x d)) as -> by done.
    by destruct (IsAbs (String x d)).
Qed.

(** ** The bundle store *)

Lemma strip_common_spec b t b' t' : strip_common b t = (b', t') → ∃ c, b = c ++ b' ∧ t = c ++ t'.
Proof.
  revert t. induction b as [|x b IH]; intros [|y t]; simpl; try (intros [= <- <-]; by exists []).
  destruct (String.eqb_spec x y) as [->|]; [|intros [= <- <-]; by exists []].
  intros (c & -> & ->)%IH. by exists (y :: c).
Qed.

(** The guard of [resolveBundlePath]: a relative path it accepts goes down. *)
Lemma Rel_down base targ rel :
  IsAbs targ = true → no_up (components targ) → Rel base targ = Ok rel →
  String.eqb rel "." || String.eqb rel ".." || HasPrefix rel "../" = false →
  ∃ rest, rest ≠ [] ∧ components targ = components base ++ rest.
Proof.
  unfold Rel. intros Ht Hup. destruct (Bool.eqb _ _); [|done].
  destruct (strip_common _ _) as [b t] eqn:Hs. apply strip_common_spec in Hs as (c & Hb & Htc).
  destruct b as [|x b].
  - intros [= <-] Hg. exists t. split; [|by rewrite Htc, Hb, app_nil_r].
    intros ->. done.
  - intros Hr Hg. exfalso.
    assert (rel = render false (((λ _, "..") <$> (x :: b)) ++ t)) as ->.
    { repeat (case_match; try done); congruence. }
    revert Hg. rewrite fmap_cons, <- app_comm_cons. unfold render.
    destruct (((λ _ : string, "..") <$> b) ++ t) as [|y l]; [done|].
    change (Join (".." :: y :: l) "/") with ("../" +:+ Join (y :: l) "/"). done.
Qed.

Lemma id_char_not_slash id : all_chars id_char id = true → without slash id = true.
Proof.
  apply all_chars_impl. intros c Hc. apply negb_true_iff. destruct (Ascii.eqb_spec c slash); [by subst|done].
Qed.

Lemma bundle_name_proper id ext : validBundleID id = true → ext ∈ [".rootfs"; ".raucb"] →
  proper (id +:+ ext) ∧ id +:+ ext ≠ "..".
Proof.
  unfold validBundleID. destruct (_ || _) eqn:E; [done|]. intros Hc Hext.
  rewrite !orb_false_iff in E. destruct E as [[[Hne _] _] _].
  assert (without slash (id +:+ ext) = true) as Hs.
  { unfold without. rewrite all_chars_app. apply andb_true_iff. split; [by apply id_char_not_slash|].
    set_unfold in Hext. by destruct Hext as [->|[->|[]]]. }
  assert (2 < String.length (id +:+ ext))%nat as Hl.
  { rewrite length_app_s. set_unfold in Hext. destruct Hext as [->|[->|[]]]; simpl; lia. }
  unfold proper. split_and!; [| |done|]; intros H; rewrite H in Hl; simpl in Hl; lia.
Qed.

(** [p], taken from the working directory [cwd], names something strictly
    inside the directory [dir], with no ".." left in it. *)
Definition inside (cwd dir p : string) : Prop :=
  ∃ rest, rest ≠ [] ∧ Forall (λ c, proper c ∧ c ≠ "..") rest ∧
    components (Abs cwd p) = components (Abs cwd dir) ++ rest.

Lemma abs_or_Ok cwd s : abs_or (Ok cwd) s = Ok (Abs cwd s).
Proof. unfold abs_or, Abs. by destruct (IsAbs s). Qed.

Lemma IsAbs_Abs cwd s : IsAbs cwd = true → IsAbs (Abs cwd s) = true.
Proof.
  intros Hc. unfold Abs. destruct (IsAbs s) eqn:Hs.
  - unfold Clean. by rewrite IsAbs_render, Hs by apply components_proper.
  - cbn [filepath_Join]. destruct (String.eqb cwd EmptyString) eqn:E; [apply String.eqb_eq in E as ->; done|].
    unfold Clean. rewrite IsAbs_render by apply components_proper. by destruct cwd.
Qed.

(** C11. A bundle command cannot name a file outside the bundle store: for
    every bundle id and local path that arrive on the bus, a path
    [resolveBundlePath] accepts lies strictly inside the bundle store, and a
    refusal is one of the two errors the file distinguishes. *)
Theorem bundle_path_confined (cwd stateDir bundleID localPath ext : string) :
  IsAbs cwd = true → ext ∈ [".rootfs"; ".raucb"] →
  match resolveBundlePath (Ok cwd) stateDir bundleID localPath ext with
  | Ok p => inside cwd (filepath_Join [stateDir; bundlesSubdir]) p ∧ validBundleID bundleID = true
  | Fail e => (errors_Is e "errBadBundleID" = true ∧ validBundleID bundleID = false) ∨
              (errors_Is e "errBundlePathEscape" = true ∧ localPath ≠ EmptyString)
  end.
Proof.
  intros Hc Hext. unfold resolveBundlePath. destruct (validBundleID bundleID) eqn:Hid; cbn [negb]; [|by left].
  assert (proper bundlesSubdir) as Hsub by done.
  destruct (String.eqb_spec localPath EmptyString) as [->|Hl].
  - split; [|done]. destruct (bundle_name_proper _ _ Hid Hext) as [Hp Hup].
    exists [bundleID +:+ ext]. split_and!; [done|by constructor|].
    assert (Forall proper [bundlesSubdir; bundleID +:+ ext]) as Hl by by apply Forall_cons_2, Forall_singleton.
    assert (Forall proper [bundlesSubdir]) by by apply Forall_singleton.
    rewrite !components_Abs_Join by done.
    change [bundlesSubdir; bundleID +:+ ext] with ([bundlesSubdir] ++ [bundleID +:+ ext]).
    rewrite !(app_assoc (names stateDir)), app_assoc. apply resolve_app_names. by constructor.
  - rewrite !abs_or_Ok. cbn [mbind result_bind]. destruct (Rel _ _) as [rel|e] eqn:Hr; [|by right].
    destruct (_ || _) eqn:Hg; [by right|]. split; [|done].
    pose proof (resolve_no_up (root_names cwd localPath)) as Hup. rewrite <- components_Abs in Hup by done.
    destruct (Rel_down _ _ _ (IsAbs_Abs cwd localPath Hc) Hup Hr Hg) as (rest & Hne & Heq).
    exists rest. split_and!; [done| |by rewrite components_Abs_Clean].
    pose proof (components_proper (Abs cwd localPath)) as Hp. rewrite Heq in Hp, Hup.
    apply Forall_app in Hp as [_ Hp]. apply Forall_app in Hup as [_ Hup]. by apply Forall_and.
Qed.

Lemma bundle_path_confined_witness :
  inside "/root" (filepath_Join ["/var/lib/rasputin"; "bundles"])
    "/var/lib/rasputin/bundles/2026.10.3.rootfs" ∧ validBundleID "2026.10.3" = true.
Proof.
  apply (bundle_path_confined "/root" "/var/lib/rasputin" "2026.10.3"
    "/var/lib/rasputin/bundles/x/../2026.10.3.rootfs" ".rootfs").
  - reflexivity.
  - apply (bool_decide_unpack _). vm_compute. exact I.
Defined.
