(* ===== verification/Grubenv.v ===== *)
(** * The GRUB environment block

    The codec of agent/internal/updater/grubenv.go: [parseGrubenv] and
    [encodeGrubenv] on bytes, [decodeAB] and [encodeAB] on the A/B boot
    counter, and what makes a read-modify-write of the block exact. *)
From Stdlib Require Import Ascii String.
From S2P Require Import Prelude GoStrings.
#[local] Arguments String.append : simpl nomatch.

Definition nl : ascii := char 10.
Definition eq_sign : ascii := char 61.
Definition grubenvPadByte : ascii := char 35.
Definition grubenvSignature : string := "# GRUB Environment Block" +:+ String nl EmptyString.
Definition grubenvSize : nat := 1024.

Abbreviation env := (gmap string string).

(** ** Bytes *)

(** The body of [parseGrubenv]'s loop. *)
Definition parse_line (kv : env) (line : string) : env :=
  if String.eqb line EmptyString || HasPrefix line "#" then kv
  else match cut_at eq_sign line with
       | Some (k, v) => if String.eqb k EmptyString then kv else <[k := v]> kv
       | None => kv
       end.

Definition parseGrubenv (b : string) : env :=
  let body := if HasPrefix b grubenvSignature then drop_str (String.length grubenvSignature) b else b in
  foldl parse_line ∅ (Split nl body).

(** [m[k]] on a [map[string]string]: the zero value when absent. *)
Definition get_str (kv : env) (k : string) : string := default EmptyString (kv !! k).

Definition entry (kv : env) (k : string) : string :=
  k +:+ String eq_sign (get_str kv k +:+ String nl EmptyString).

Definition entries (kv : env) (keys : list string) : string :=
  foldr (λ k s, entry kv k +:+ s) EmptyString keys.

(** [encodeGrubenv] with the map's keys as a [range] loop produced them. *)
Definition encode_keys (keys : list string) (kv : env) (size : nat) : result string :=
  let buf := grubenvSignature +:+ entries kv (sort_Strings keys) in
  if bool_decide (size < String.length buf)%nat then
    Fail (errors_New ("grubenv: " +:+ pretty (String.length buf) +:+ " bytes of entries exceed "
      +:+ pretty size +:+ "-byte block"))
  else Ok (buf +:+ repeat_char grubenvPadByte (size - String.length buf)).

Definition encodeGrubenv (kv : env) (size : nat) : result string :=
  encode_keys (map_to_list kv).*1 kv size.

(** ** The A/B counter *)

Record abState := mkAB {
  ab_order : list string;
  ab_ok : gmap string bool;
  ab_try : gmap string bool }.

(** [m[k]] on a [map[string]bool]. *)
Definition flag (m : gmap string bool) (k : string) : bool := default false (m !! k).

Definition is_one (kv : env) (k : string) : bool := String.eqb (get_str kv k) "1".

Definition decodeAB (kv : env) : abState :=
  let order := Fields (get_str kv "ORDER") in
  let order := if bool_decide (order = []) then ["A"; "B"] else order in
  let ok := <["A" := is_one kv "A_OK"]> {[ "B" := is_one kv "B_OK" ]} in
  let ok := match kv !! "A_OK", kv !! "B_OK" with
            | None, None => <["A" := true]> ok
            | _, _ => ok
            end in
  mkAB order ok (<["A" := is_one kv "A_TRY"]> {[ "B" := is_one kv "B_TRY" ]}).

Definition b2s (b : bool) : string := if b then "1" else "0".

Definition ab_keys : list string := ["ORDER"; "A_OK"; "A_TRY"; "B_OK"; "B_TRY"].

Definition encodeAB (kv : env) (st : abState) : env :=
  let out := filter (λ p, p.1 ∉ ab_keys) kv in
  let out := <["ORDER" := Join (ab_order st) " "]> out in
  let out := <["A_OK" := b2s (flag (ab_ok st) "A")]> out in
  let out := <["B_OK" := b2s (flag (ab_ok st) "B")]> out in
  let out := <["A_TRY" := b2s (flag (ab_try st) "A")]> out in
  <["B_TRY" := b2s (flag (ab_try st) "B")]> out.

(** ** Well-formed environments: what the block can carry *)

Definition wf_key (k : string) : bool :=
  negb (String.eqb k EmptyString) && negb (HasPrefix k "#") && without eq_sign k && without nl k.
Definition wf_val (v : string) : bool := without nl v.
Definition wf_env (kv : env) : Prop := map_Forall (λ k v, wf_key k = true ∧ wf_val v = true) kv.

#[export] Instance wf_env_dec kv : Decision (wf_env kv).
Proof. unfold wf_env. apply _. Defined.

Lemma wf_insert kv k v : wf_key k = true → wf_val v = true → wf_env kv → wf_env (<[k := v]> kv).
Proof. intros. by apply map_Forall_insert_2. Qed.
Lemma wf_delete kv k : wf_env kv → wf_env (delete k kv).
Proof. apply map_Forall_delete. Qed.

Create HintDb grubenv discriminated.
#[export] Hint Resolve wf_insert wf_delete : grubenv.

Lemma HasPrefix_app_hash k s : String.eqb k EmptyString = false → HasPrefix (k +:+ s) "#" = HasPrefix k "#".
Proof. by destruct k. Qed.
Lemma eqb_app_empty k s : String.eqb k EmptyString = false → String.eqb (k +:+ s) EmptyString = false.
Proof. by destruct k. Qed.

(** ** Reading back what was written *)

Lemma parse_line_entry kv k v :
  wf_key k = true → parse_line kv (k +:+ String eq_sign v) = <[k := v]> kv.
Proof.
  unfold wf_key. rewrite !andb_true_iff, !negb_true_iff. intros [[[Hne Hh] Heq] Hnl].
  unfold parse_line. rewrite eqb_app_empty, HasPrefix_app_hash, Hh by done. simpl.
  by rewrite cut_at_app, Hne.
Qed.

Lemma parse_line_pad kv n : parse_line kv (repeat_char grubenvPadByte n) = kv.
Proof. by destruct n. Qed.

Lemma entry_line kv k : wf_key k = true → wf_val (get_str kv k) = true →
  without nl (k +:+ String eq_sign (get_str kv k)) = true.
Proof.
  unfold wf_key, wf_val, without. rewrite !andb_true_iff. intros [_ Hk] Hv.
  by rewrite all_chars_app, Hk; simpl; rewrite Hv.
Qed.

Lemma Split_entries kv keys tail :
  Forall (λ k, wf_key k = true ∧ wf_val (get_str kv k) = true) keys →
  Split nl (entries kv keys +:+ tail)
    = ((λ k, k +:+ String eq_sign (get_str kv k)) <$> keys) ++ Split nl tail.
Proof.
  induction 1 as [|k keys [Hk Hv] _ IH]; [done|].
  rewrite fmap_cons, <- app_comm_cons, <- IH, <- Split_app by by apply entry_line.
  f_equal. simpl. unfold entry. rewrite !app_assoc_s. simpl. by rewrite app_assoc_s.
Qed.

Lemma foldl_entries kv keys m k :
  Forall (λ k, wf_key k = true) keys →
  foldl parse_line m ((λ k, k +:+ String eq_sign (get_str kv k)) <$> keys) !! k
    = if bool_decide (k ∈ keys) then Some (get_str kv k) else m !! k.
Proof.
  intros H. revert m. induction H as [|k' keys Hk _ IH]; intros m; [done|]. simpl.
  rewrite parse_line_entry, IH by done. destruct (decide (k = k')) as [->|Hne].
  - rewrite lookup_insert_eq. repeat case_bool_decide; set_solver.
  - rewrite lookup_insert_ne by done. repeat case_bool_decide; set_solver.
Qed.

Lemma wf_keys_sorted kv : wf_env kv →
  Forall (λ k, wf_key k = true ∧ wf_val (get_str kv k) = true) (sort_Strings (map_to_list kv).*1).
Proof.
  intros Hwf. apply Forall_forall. intros k Hk. rewrite sort_Strings_perm in Hk.
  apply list_elem_of_fmap in Hk as ([k' v] & -> & Hkv). apply elem_of_map_to_list in Hkv.
  unfold get_str. simpl. rewrite Hkv. by apply Hwf.
Qed.

Lemma elem_of_sorted_keys (kv : env) k :
  k ∈ sort_Strings (map_to_list kv).*1 ↔ is_Some (kv !! k).
Proof.
  rewrite sort_Strings_perm, list_elem_of_fmap. split.
  - intros ([k' v] & -> & H%elem_of_map_to_list). by exists v.
  - intros [v H]. exists (k, v). by rewrite elem_of_map_to_list.
Qed.

Lemma parse_padded kv n : wf_env kv →
  parseGrubenv ((grubenvSignature +:+ entries kv (sort_Strings (map_to_list kv).*1))
    +:+ repeat_char grubenvPadByte n) = kv.
Proof.
  intros Hwf. unfold parseGrubenv. rewrite app_assoc_s.
  replace (HasPrefix _ _) with true by (symmetry; apply HasPrefix_spec; eauto).
  rewrite drop_str_app, Split_entries by by apply wf_keys_sorted.
  rewrite (Split_plain nl) by by apply all_chars_repeat.
  rewrite foldl_app. simpl. rewrite parse_line_pad. apply map_eq. intros k.
  rewrite foldl_entries by (eapply Forall_impl; [by apply wf_keys_sorted|]; by intros ? []).
  case_bool_decide as Hk; rewrite elem_of_sorted_keys in Hk; unfold get_str.
  - by destruct Hk as [v ->].
  - rewrite lookup_empty. by apply eq_None_not_Some in Hk.
Qed.

(** Whatever bytes were read, the parsed environment is one the block can
    carry, so the next write keeps it. *)
Lemma parse_line_wf kv line : without nl line = true → wf_env kv → wf_env (parse_line kv line).
Proof.
  intros Hnl Hwf. unfold parse_line.
  destruct (String.eqb line EmptyString || HasPrefix line "#") eqn:E; [done|].
  apply orb_false_iff in E as [_ Hh].
  destruct (cut_at eq_sign line) as [[k v]|] eqn:Hc; [|done].
  apply cut_at_Some in Hc as [-> Hk]. destruct (String.eqb k EmptyString) eqn:Hne; [done|].
  unfold without in Hnl. rewrite all_chars_app in Hnl. apply andb_true_iff in Hnl as [Hkn Hv].
  simpl in Hv. rewrite HasPrefix_app_hash in Hh by done.
  apply wf_insert; [|done|done]. unfold wf_key. rewrite Hne, Hh, Hk. exact Hkn.
Qed.

Lemma foldl_wf lines kv :
  Forall (λ l, without nl l = true) lines → wf_env kv → wf_env (foldl parse_line kv lines).
Proof.
  intros H. revert kv. induction H as [|l lines Hl _ IH]; intros kv Hkv; [done|].
  apply IH. by apply parse_line_wf.
Qed.

Lemma parseGrubenv_wf b : wf_env (parseGrubenv b).
Proof.
  apply foldl_wf; [|apply map_Forall_empty]. apply Forall_forall. intros l. apply Split_pieces.
Qed.

(** ** The A/B counter through the codec *)

Lemma get_str_insert kv k v : get_str (<[k := v]> kv) k = v.
Proof. unfold get_str. by rewrite lookup_insert_eq. Qed.
Lemma get_str_insert_ne kv k k' v : k ≠ k' → get_str (<[k := v]> kv) k' = get_str kv k'.
Proof. intros. unfold get_str. by rewrite lookup_insert_ne. Qed.
Lemma is_one_b2s kv k b : kv !! k = Some (b2s b) → is_one kv k = b.
Proof. unfold is_one, get_str. intros ->. by destruct b. Qed.

Lemma encodeAB_lookup kv st k :
  encodeAB kv st !! k =
    if String.eqb k "ORDER" then Some (Join (ab_order st) " ") else
    if String.eqb k "A_OK" then Some (b2s (flag (ab_ok st) "A")) else
    if String.eqb k "B_OK" then Some (b2s (flag (ab_ok st) "B")) else
    if String.eqb k "A_TRY" then Some (b2s (flag (ab_try st) "A")) else
    if String.eqb k "B_TRY" then Some (b2s (flag (ab_try st) "B")) else kv !! k.
Proof.
  unfold encodeAB. rewrite !lookup_insert. repeat case_decide; subst; try done.
  rewrite !(proj2 (String.eqb_neq _ _)) by done.
  apply option_eq. intros v. rewrite map_lookup_filter_Some. simpl. unfold ab_keys. set_solver.
Qed.

(** A counter that stands for exactly the two slots. *)
Definition ab_wf (st : abState) : Prop :=
  ab_order st ≠ [] ∧ Forall (λ w, is_word w = true) (ab_order st) ∧
  (∃ a b, ab_ok st = <["A" := a]> {[ "B" := b ]}) ∧
  (∃ a b, ab_try st = <["A" := a]> {[ "B" := b ]}).

Lemma decode_encodeAB kv st : ab_wf st → decodeAB (encodeAB kv st) = st.
Proof.
  intros (Hne & Hw & (oa & ob & Ho) & (ta & tb & Ht)). destruct st as [order ok try_]. simpl in *. subst.
  unfold decodeAB. rewrite !encodeAB_lookup. simpl.
  rewrite (is_one_b2s _ "A_OK" oa), (is_one_b2s _ "B_OK" ob), (is_one_b2s _ "A_TRY" ta), (is_one_b2s _ "B_TRY" tb)
    by (rewrite encodeAB_lookup; reflexivity).
  unfold get_str. rewrite encodeAB_lookup. simpl. rewrite Fields_Join by done. by rewrite bool_decide_false.
Qed.

Lemma encodeAB_other kv st k : k ∉ ab_keys → encodeAB kv st !! k = kv !! k.
Proof.
  intros H. rewrite encodeAB_lookup. unfold ab_keys in H.
  by rewrite !(proj2 (String.eqb_neq _ _)) by set_solver.
Qed.

Lemma wf_b2s b : wf_val (b2s b) = true.
Proof. by destruct b. Qed.

Lemma word_no_nl w : is_word w = true → without nl w = true.
Proof.
  unfold is_word. rewrite andb_true_iff. intros [_ H]. revert H. apply all_chars_impl. intros c.
  rewrite !negb_true_iff. destruct (Ascii.eqb c nl) eqn:E; [|done]. apply Ascii.eqb_eq in E. by subst.
Qed.

Lemma Join_words l : Forall (λ w, is_word w = true) l → without nl (Join l " ") = true.
Proof.
  induction 1 as [|w l Hw Hl IH]; [done|]. destruct l as [|v l]; [by apply word_no_nl|].
  change (Join (w :: v :: l) " ") with (w +:+ " " +:+ Join (v :: l) " ").
  unfold without in *. rewrite !all_chars_app, IH.
  apply andb_true_iff. split; [by apply word_no_nl|done].
Qed.

Lemma encodeAB_wf kv st :
  Forall (λ w, is_word w = true) (ab_order st) → wf_env kv → wf_env (encodeAB kv st).
Proof.
  intros Hw Hkv. unfold encodeAB.
  repeat (apply wf_insert; [reflexivity|apply wf_b2s || by apply Join_words|]).
  intros k v [H _]%map_lookup_filter_Some. by apply Hkv.
Qed.
#[export] Hint Resolve encodeAB_wf wf_b2s : grubenv.

(** [decodeAB] always yields such a counter: [ORDER] is split at white space,
    and an empty one is replaced by the default. *)
Lemma fields_aux_words s cur :
  all_chars (λ c, negb (is_space c)) cur = true →
  Forall (λ w, is_word w = true) (fields_aux s cur).
Proof.
  revert cur. induction s as [|c s IH]; intros cur Hc; simpl.
  - destruct (String.eqb cur EmptyString) eqn:E; constructor; [|done]. unfold is_word. by rewrite E.
  - destruct (is_space c) eqn:E.
    + apply Forall_app. split; [|by apply IH].
      destruct (String.eqb cur EmptyString) eqn:E'; constructor; [|done]. unfold is_word. by rewrite E'.
    + apply IH. rewrite all_chars_app, Hc. simpl. by rewrite E.
Qed.

Lemma Fields_words s : Forall (λ w, is_word w = true) (Fields s).
Proof. by apply fields_aux_words. Qed.

Lemma decodeAB_wf kv : ab_wf (decodeAB kv).
Proof.
  unfold decodeAB, ab_wf. simpl. split_and!.
  - by case_bool_decide.
  - case_bool_decide; [by repeat constructor|apply Fields_words].
  - destruct (kv !! "A_OK"), (kv !! "B_OK"); eauto.
  - eauto.
Qed.

(** ** Claims *)

(** Bytes the entries of [kv] take, signature included. *)
Definition env_bytes (kv : env) : nat :=
  String.length grubenvSignature +
  sum_list_with (λ p, String.length p.1 + String.length p.2 + 2)%nat (map_to_list kv).

Lemma length_entries kv keys :
  String.length (entries kv keys)
    = sum_list_with (λ k, String.length k + String.length (get_str kv k) + 2)%nat keys.
Proof.
  induction keys as [|k keys IH]; [done|]. simpl. unfold entry.
  rewrite !length_app_s, IH. simpl. rewrite length_app_s. simpl. lia.
Qed.

Lemma sum_list_with_perm {A} (f : A → nat) l l' : l ≡ₚ l' → sum_list_with f l = sum_list_with f l'.
Proof. induction 1; simpl; lia. Qed.

Lemma length_block kv keys : keys ≡ₚ (map_to_list kv).*1 →
  String.length (grubenvSignature +:+ entries kv (sort_Strings keys)) = env_bytes kv.
Proof.
  intros Hp. rewrite length_app_s, length_entries. unfold env_bytes. f_equal.
  rewrite (sum_list_with_perm _ _ (map_to_list kv).*1) by by rewrite sort_Strings_perm.
  assert (∀ l, (∀ p, p ∈ l → kv !! p.1 = Some p.2) →
    sum_list_with (λ k, String.length k + String.length (get_str kv k) + 2)%nat l.*1
    = sum_list_with (λ p, String.length p.1 + String.length p.2 + 2)%nat l) as H.
  { induction l as [|[k v] l IH]; intros Hl; [done|]. rewrite fmap_cons.
    cbn [sum_list_with fst snd]. rewrite IH by set_solver.
    unfold get_str. assert (kv !! k = Some v) as -> by (apply (Hl (k, v)); set_solver). done. }
  apply H. intros [k v]. apply elem_of_map_to_list.
Qed.

Lemma encode_spec kv size : wf_env kv →
  match encodeGrubenv kv size with
  | Ok b => String.length b = size ∧ HasPrefix b grubenvSignature = true ∧ parseGrubenv b = kv
  | Fail _ => (size < env_bytes kv)%nat
  end.
Proof.
  intros Hwf. unfold encodeGrubenv, encode_keys. rewrite length_block by done.
  case_bool_decide as Hs; [done|]. split_and!.
  - rewrite length_app_s, length_repeat_char, length_block by done. lia.
  - apply HasPrefix_spec. rewrite app_assoc_s. eauto.
  - by apply parse_padded.
Qed.

(** C9. The grubenv codec is exact: whatever order Go ranges over the map in,
    the block is the same; an environment of well-formed entries that fits is
    encoded in exactly [size] bytes that begin with the signature and parse
    back to the same environment; one that does not fit is refused, and
    nothing is dropped silently. *)
Theorem grubenv_roundtrip (kv : env) (size : nat) (keys : list string) :
  wf_env kv → keys ≡ₚ (map_to_list kv).*1 →
  encode_keys keys kv size = encodeGrubenv kv size ∧
  match encodeGrubenv kv size with
  | Ok b => String.length b = size ∧ HasPrefix b grubenvSignature = true ∧ parseGrubenv b = kv
  | Fail _ => (size < env_bytes kv)%nat
  end.
Proof.
  intros Hwf Hp. split; [|by apply encode_spec].
  unfold encodeGrubenv, encode_keys. by rewrite (sort_Strings_canonical keys (map_to_list kv).*1).
Qed.

Definition env_flashed : env :=
  <["ORDER" := "A B"]> (<["A_OK" := "1"]> (<["A_TRY" := "0"]> (<["B_OK" := "0"]> {[ "B_TRY" := "0" ]}))).

Lemma grubenv_roundtrip_witness :
  wf_env env_flashed ∧
  match encodeGrubenv env_flashed 1024 with
  | Ok b => String.length b = 1024%nat ∧ HasPrefix b grubenvSignature = true ∧ parseGrubenv b = env_flashed
  | Fail _ => (1024 < env_bytes env_flashed)%nat
  end.
Proof.
  assert (wf_env env_flashed) as Hwf by (apply (bool_decide_unpack _); vm_compute; exact I).
  split; [exact Hwf|].
  destruct (grubenv_roundtrip env_flashed 1024 (map_to_list env_flashed).*1 Hwf) as [_ H];
    [reflexivity|exact H].
Defined.

(** The A/B counter survives the environment: folding a counter into any
    environment and decoding it again gives the counter back, no other key
    changes, and a decoded counter is always one that can be folded back. *)
Theorem ab_roundtrip (kv : env) (b : string) :
  let st := decodeAB (parseGrubenv b) in
  decodeAB (encodeAB kv st) = st ∧
  (∀ k, k ∉ ab_keys → encodeAB kv st !! k = kv !! k) ∧
  (wf_env kv → wf_env (encodeAB kv st)).
Proof.
  intros st. pose proof (decodeAB_wf (parseGrubenv b)) as Hst. split_and!.
  - by apply decode_encodeAB.
  - intros k. apply encodeAB_other.
  - apply encodeAB_wf. apply Hst.
Qed.
