(* ===== verification/Crash.v ===== *)
(** * Programs that a crash can stop

    A program threads a state and may stop part way: [None] says that the
    process died or the power went, with the state as it was left.  The
    judgement [ensures] has a postcondition for a return and another for the
    point of a crash, so an invariant that [keeps] proves holds wherever the
    program stops.  What a power loss then takes of the effects of calls that
    had returned is not decided here: Disk keeps track of what was not synced and
    says what a cut may tear; SealFiles and BackupTarget count a returned call
    as on the medium.  Disk instantiates the state with the firewall's storage,
    SealFiles with the seal directory of the secret store. *)
From S2P Require Import Prelude GoStrings.

(** ** Programs: [None] when the power went *)
Definition IO (S A : Type) : Type := S → option A * S.
Definition ret {S A} (a : A) : IO S A := λ d, (Some a, d).
Definition bind {S A B} (m : IO S A) (f : A → IO S B) : IO S B := λ d,
  match m d with
  | (Some a, d') => f a d'
  | (None, d') => (None, d')
  end.

(** [x, err := m; if err != nil { return err }] *)
Definition bindR {S A B} (m : IO S (result A)) (f : A → IO S (result B)) : IO S (result B) :=
  bind m (λ r, match r with Ok a => f a | Fail e => ret (Fail e) end).
(** The same with the error wrapped: [fmt.Errorf(pre + "%w" + post, err)]. *)
Definition wrapE {S A} (pre post : string) (m : IO S (result A)) : IO S (result A) :=
  bind m (λ r, ret match r with Ok a => Ok a | Fail e => Fail (wrapf (pre +:+ err_text e +:+ post) e) end).

Declare Scope io_scope.
Delimit Scope io_scope with io.
Notation "x <- m ; k" := (bind m (λ x, k)) (at level 100, m at next level, right associativity) : io_scope.
Notation "x <-? m ; k" := (bindR m (λ x, k)) (at level 100, m at next level, right associativity) : io_scope.
Open Scope io_scope.

(** [errors.Join(err, later)] of a result and a cleanup. *)
Definition join_errors (r1 r2 : result unit) : result unit :=
  match r1, r2 with
  | Ok _, r => r
  | r, Ok _ => r
  | Fail e1, Fail e2 => Fail (errors_Join e1 e2)
  end.

(** ** Reasoning: a postcondition on return, another where the power went *)
Definition ensures {S A} (P : S → Prop) (m : IO S A) (Q : A → S → Prop) (C : S → Prop) : Prop :=
  ∀ d, P d → match m d with (Some a, d') => Q a d' | (None, d') => C d' end.

Lemma ensures_ret {S A} (a : A) (Q : A → S → Prop) C : ensures (Q a) (ret a) Q C.
Proof. by intros d. Qed.

Lemma ensures_bind {S A B} P (m : IO S A) (f : A → IO S B) R Q C :
  ensures P m R C → (∀ a, ensures (R a) (f a) Q C) → ensures P (bind m f) Q C.
Proof.
  intros Hm Hf d HP. specialize (Hm d HP). unfold bind.
  destruct (m d) as [[a|] d']; [by apply Hf|done].
Qed.

(** A call whose result is not looked at. *)
Lemma ensures_seq {S A B} P (m : IO S A) (k : IO S B) (R : S → Prop) Q C :
  ensures P m (λ _, R) C → ensures R k Q C → ensures P (bind m (λ _, k)) Q C.
Proof. intros Hm Hk. by apply (ensures_bind _ _ _ (λ _, R)). Qed.

(** A precondition that says nothing of the state. *)
Lemma ensures_assume {S A} (φ : Prop) (P : S → Prop) (m : IO S A) Q C :
  (φ → ensures P m Q C) → ensures (λ d, φ ∧ P d) m Q C.
Proof. intros H d [Hφ HP]. by apply H. Qed.

Lemma ensures_conseq {S A} (P P' : S → Prop) (m : IO S A) (Q Q' : A → S → Prop) (C C' : S → Prop) :
  ensures P' m Q' C' → (∀ d, P d → P' d) → (∀ a d, Q' a d → Q a d) → (∀ d, C' d → C d) → ensures P m Q C.
Proof.
  intros Hm HP HQ HC d Hd. specialize (Hm d (HP d Hd)).
  destruct (m d) as [[a|] d']; auto.
Qed.

Lemma ensures_pre {S A} (P P' : S → Prop) (m : IO S A) (Q : A → S → Prop) (C : S → Prop) :
  ensures P' m Q C → (∀ d, P d → P' d) → ensures P m Q C.
Proof. intros Hm HP d Hd. by apply Hm, HP. Qed.

Lemma ensures_bindR {S A B} P (m : IO S (result A)) (f : A → IO S (result B)) R Q C :
  ensures P m R C → (∀ a, ensures (R (Ok a)) (f a) Q C) → (∀ e d, R (Fail e) d → Q (Fail e) d) →
  ensures P (bindR m f) Q C.
Proof.
  intros Hm Hf Hq. apply (ensures_bind _ _ _ R); [done|].
  intros [a|e]; [apply Hf|]. intros d Hd. simpl. by apply Hq.
Qed.

Lemma ensures_wrapE {S A} P pre post (m : IO S (result A)) R Q C :
  ensures P m R C → (∀ a d, R (Ok a) d → Q (Ok a) d) →
  (∀ e e' d, R (Fail e) d → Q (Fail e') d) → ensures P (wrapE pre post m) Q C.
Proof.
  intros Hm Ho Hf. apply (ensures_bind _ _ _ R); [done|].
  intros [a|e] d Hd; simpl; eauto.
Qed.

(** [I] holds wherever the program stops. *)
Definition keeps {S A} (I : S → Prop) (m : IO S A) : Prop := ensures I m (λ _, I) I.

Lemma ensures_keeps {S A} (P C : S → Prop) (m : IO S A) :
  keeps P m → (∀ d, P d → C d) → ensures P m (λ _, P) C.
Proof. intros Hm HC d Hd. specialize (Hm d Hd). destruct (m d) as [[a|] d']; auto. Qed.

Lemma keeps_ret {S A} (I : S → Prop) (a : A) : keeps I (ret a).
Proof. by intros d. Qed.
Lemma keeps_bind {S A B} I (m : IO S A) (f : A → IO S B) :
  keeps I m → (∀ a, keeps I (f a)) → keeps I (bind m f).
Proof. apply ensures_bind. Qed.
Lemma keeps_bindR {S A B} I (m : IO S (result A)) (f : A → IO S (result B)) :
  keeps I m → (∀ a, keeps I (f a)) → keeps I (bindR m f).
Proof. intros Hm Hf. apply keeps_bind; [done|]. intros [a|e]; [apply Hf|apply keeps_ret]. Qed.
Lemma keeps_wrapE {S A} I pre post (m : IO S (result A)) : keeps I m → keeps I (wrapE pre post m).
Proof. intros H. apply keeps_bind; [done|]. intros. apply keeps_ret. Qed.
Lemma keeps_final {S A} I (m : IO S A) d : keeps I m → I d → I (snd (m d)).
Proof. intros H Hd. specialize (H d Hd). by destruct (m d) as [[a|] d']. Qed.

(** ** Calls that fail

    What an oracle may decide for a call: nothing goes wrong, an error (a write
    may have stored a prefix), a crash (the program never continues), or a write
    the medium silently corrupts.  The oracle is asked by tick, so that a
    theorem over every oracle is one about every fault pattern. *)
Inductive Fault :=
| NoFault
| Err (stored : nat) (e : error)
| PowerLoss (stored : nat)
| Corrupt (bytes : string).

(** No write is corrupted without the writer hearing of it. *)
Definition honest (F : nat → Fault) : Prop := ∀ n s, F n ≠ Corrupt s.

(** A state that counts its calls. *)
Class Ticking (S : Type) := { tick : S → nat; next : S → S }.

Section Calls.
Context {S : Type} `{!Ticking S} (F : nat → Fault).

(** A call whose failure changes nothing. *)
Definition sys {A} (act : S → result A * S) : IO S (result A) := λ d,
  match F (tick d) with
  | Err _ e => (Some (Fail e), next d)
  | PowerLoss _ => (None, next d)
  | NoFault | Corrupt _ => let '(r, d') := act (next d) in (Some r, d')
  end.

(** A write of [data]: [put s] is the effect of [s] reaching the medium. *)
Definition sys_write (put : string → S → S) (data : string) : IO S (result unit) := λ d,
  match F (tick d) with
  | NoFault => (Some (Ok tt), put data (next d))
  | Err n e => (Some (Fail e), put (take_str n data) (next d))
  | PowerLoss n => (None, put (take_str n data) (next d))
  | Corrupt s => (Some (Ok tt), put s (next d))
  end.

(** What a call does, fault by fault. *)
Lemma sys_ensures {A} (act : S → result A * S) P Q C :
  (∀ d, P d → let '(r, d') := act (next d) in Q r d') →
  (∀ d e, P d → Q (Fail e) (next d)) → (∀ d, P d → C (next d)) →
  ensures P (sys act) Q C.
Proof.
  intros Ho He Hc d Hd. unfold sys. specialize (Ho d Hd).
  destruct (F (tick d)); auto; destruct (act (next d)) as [r d']; done.
Qed.

Lemma sys_write_ensures put data P Q C :
  (∀ d, P d → Q (Ok tt) (put data (next d))) →
  (∀ d n e, P d → Q (Fail e) (put (take_str n data) (next d))) →
  (∀ d n, P d → C (put (take_str n data) (next d))) →
  (∀ d s, F (tick d) = Corrupt s → P d → Q (Ok tt) (put s (next d))) →
  ensures P (sys_write put data) Q C.
Proof. intros Ho He Hc Hx d Hd. unfold sys_write. destruct (F (tick d)) eqn:E; eauto. Qed.

(** A property of the state that no tick counter enters. *)
Class Timeless (I : S → Prop) := timeless d : I d → I (next d).

Lemma keeps_sys {A} I `{!Timeless I} (act : S → result A * S) :
  (∀ d, I d → I (snd (act d))) → keeps I (sys act).
Proof.
  intros H. apply sys_ensures.
  - intros d Hd%timeless. specialize (H _ Hd). by destruct (act (next d)).
  - intros d _. apply timeless.
  - intros d. apply timeless.
Qed.
End Calls.

Create HintDb keeps discriminated.

Ltac keep :=
  repeat first
    [ solve [eauto with keeps typeclass_instances]
    | apply keeps_ret
    | apply keeps_bindR; [|intros ?]
    | apply keeps_wrapE
    | apply keeps_bind; [|intros ?]
    | match goal with
      | |- keeps _ (match ?x with _ => _ end) => destruct x eqn:?
      end ].
