(* ===== verification/Disk.v ===== *)
(** * Faulty storage

    The I/O of the firewall's updater: the node's own files, the files on the
    EFI system partition, the raw slot partitions.  Every system call asks an
    oracle what goes wrong: nothing, an error (a write may have stored a
    prefix), a stop (the program never continues), or a write the medium
    silently corrupts.  A theorem that holds for every oracle holds wherever
    the program can stop.

    The state is what the running kernel shows.  [d_dirty] names the files and
    devices with bytes that were written and not yet synced: a write marks, a
    sync clears, a rename takes the mark along.  [power_cut] is what may be left
    of a state once the machine itself goes down: a marked file or device holds
    any bytes at all, an unmarked one what it held.  Creations, renames and
    removals are taken to survive in order, as on a journalled file system. *)
From Stdlib Require Import Ascii String.
From S2P Require Import Prelude GoStrings.
From S2P Require Export Crash.
#[local] Arguments String.append : simpl nomatch.

(** A path on the node's own file system, or one below the ESP's mount point. *)
Inductive Path := Fs (p : string) | Esp (p : string).

#[export] Instance Path_eq_dec : EqDecision Path.
Proof. solve_decision. Defined.

(** What a sync is about. *)
Inductive Place := File (p : Path) | Dev (dev : string).
#[export] Instance Place_eq_dec : EqDecision Place.
Proof. solve_decision. Defined.

Record Disk := mkDisk {
  d_tick : nat;
  d_fs : gmap string string;
  d_esp : gmap string string;
  d_dev : gmap string string;   (* raw block devices *)
  d_block : string;             (* what [block info] prints *)
  d_mods : list string;         (* kernel modules loaded *)
  d_reboots : list (string * Z); (* reboot requests: reason, delay *)
  d_dirty : list Place          (* written, not synced *)
}.

Definition d_next (d : Disk) : Disk :=
  mkDisk (S (d_tick d)) (d_fs d) (d_esp d) (d_dev d) (d_block d) (d_mods d) (d_reboots d) (d_dirty d).
#[export] Instance disk_ticks : Ticking Disk := { tick := d_tick; next := d_next }.
Definition set_fs (f : gmap string string → gmap string string) (d : Disk) : Disk :=
  mkDisk (d_tick d) (f (d_fs d)) (d_esp d) (d_dev d) (d_block d) (d_mods d) (d_reboots d) (d_dirty d).
Definition set_esp (f : gmap string string → gmap string string) (d : Disk) : Disk :=
  mkDisk (d_tick d) (d_fs d) (f (d_esp d)) (d_dev d) (d_block d) (d_mods d) (d_reboots d) (d_dirty d).
Definition set_dev (f : gmap string string → gmap string string) (d : Disk) : Disk :=
  mkDisk (d_tick d) (d_fs d) (d_esp d) (f (d_dev d)) (d_block d) (d_mods d) (d_reboots d) (d_dirty d).
Definition add_mod (m : string) (d : Disk) : Disk :=
  mkDisk (d_tick d) (d_fs d) (d_esp d) (d_dev d) (d_block d) (d_mods d ++ [m]) (d_reboots d) (d_dirty d).
Definition add_reboot (r : string * Z) (d : Disk) : Disk :=
  mkDisk (d_tick d) (d_fs d) (d_esp d) (d_dev d) (d_block d) (d_mods d) (d_reboots d ++ [r]) (d_dirty d).

Definition set_dirty (f : list Place → list Place) (d : Disk) : Disk :=
  mkDisk (d_tick d) (d_fs d) (d_esp d) (d_dev d) (d_block d) (d_mods d) (d_reboots d) (f (d_dirty d)).
Definition mark (x : Place) : Disk → Disk := set_dirty (cons x).
Definition unmark (x : Place) : Disk → Disk := set_dirty (filter (λ y, y ≠ x)).
(** The mark of [x] passes to [y]. *)
Definition pass_mark (x y : Place) : Disk → Disk :=
  set_dirty (λ l, (if decide (x ∈ l) then [y] else []) ++ filter (λ z, z ≠ x ∧ z ≠ y) l).

Definition lookup_path (d : Disk) (p : Path) : option string :=
  match p with Fs p => d_fs d !! p | Esp p => d_esp d !! p end.
Definition store_path (p : Path) (s : string) (d : Disk) : Disk :=
  match p with Fs p => set_fs <[p := s]> d | Esp p => set_esp <[p := s]> d end.
Definition delete_path (p : Path) (d : Disk) : Disk :=
  match p with Fs p => set_fs (delete p) d | Esp p => set_esp (delete p) d end.

#[global] Abbreviation IO := (Crash.IO Disk).

(** ** System calls *)
Definition not_exist (p : string) : error :=
  mkError ("open " +:+ p +:+ ": no such file or directory") ["fs.ErrNotExist"].
Definition path_name (p : Path) : string := match p with Fs p => p | Esp p => p end.

Section Calls.
Context (F : nat → Fault).

Definition os_ReadFile (p : Path) : IO (result string) :=
  sys F (λ d, (match lookup_path d p with Some s => Ok s | None => Fail (not_exist (path_name p)) end, d)).
Definition os_Stat (p : Path) : IO (result nat) :=
  sys F (λ d, (match lookup_path d p with Some s => Ok (String.length s) | None => Fail (not_exist (path_name p)) end, d)).
(** [os.OpenFile(path, os.O_WRONLY, …)]: no create, no truncate. *)
Definition os_OpenWr (p : Path) : IO (result unit) :=
  sys F (λ d, (match lookup_path d p with Some _ => Ok tt | None => Fail (not_exist (path_name p)) end, d)).
(** [os.OpenFile(path, O_WRONLY|O_CREATE|O_TRUNC, …)] *)
Definition os_Create (p : Path) : IO (result unit) := sys F (λ d, (Ok tt, mark (File p) (store_path p EmptyString d))).
(** [f.Sync()] on an open file or device. *)
Definition fsync (x : Place) : IO (result unit) := sys F (λ d, (Ok tt, unmark x d)).
Definition os_Rename (p q : Path) : IO (result unit) :=
  sys F (λ d, match lookup_path d p with
            | Some s => (Ok tt, pass_mark (File p) (File q) (store_path q s (delete_path p d)))
            | None => (Fail (not_exist (path_name p)), d)
            end).
Definition os_Remove (p : Path) : IO (result unit) :=
  sys F (λ d, match lookup_path d p with
            | Some s => (Ok tt, unmark (File p) (delete_path p d))
            | None => (Fail (not_exist (path_name p)), d)
            end).

(** Bytes of [old] with [new] written over it at [off]. *)
Definition overwrite (off : nat) (new old : string) : string :=
  take_str off old +:+ new +:+ drop_str (off + String.length new) old.

(** [f.WriteAt(data, 0)] on an open existing file. *)
Definition write_at (p : Path) (data : string) : IO (result unit) :=
  sys_write F (λ s d, match lookup_path d p with
                    | Some old => mark (File p) (store_path p (overwrite 0 s old) d)
                    | None => d
                    end) data.
(** [f.Write(data)] on a file [os_Create] just emptied. *)
Definition write_new (p : Path) (data : string) : IO (result unit) := sys_write F (λ s d, mark (File p) (store_path p s d)) data.

(** [out.Write(chunk)] on a block device, at the descriptor's offset. *)
Definition dev_write (dev : string) (off : nat) (chunk : string) : IO (result unit) :=
  sys_write F (λ s d, mark (Dev dev) (set_dev (alter (overwrite off s) dev) d)) chunk.
Definition dev_open (dev : string) : IO (result unit) :=
  sys F (λ d, (match d_dev d !! dev with Some _ => Ok tt | None => Fail (not_exist dev) end, d)).

(** An external command with no effect on the modelled state. *)
Definition command : IO (result unit) := sys F (λ d, (Ok tt, d)).
End Calls.

(** ** Reasoning *)

(** A property of the bytes the kernel shows: neither the tick counter nor the
    marks enter. *)
Class Timeless (I : Disk → Prop) := {
  bytes_tick :: Crash.Timeless I;
  bytes_marks f d : I d → I (set_dirty f d) }.
Ltac bytewise := intros; split; [by intros ?|by intros ? ?].

Lemma timeless {I : Disk → Prop} `{!Timeless I} d : I d → I (d_next d).
Proof. exact (Crash.timeless (I := I) d). Qed.

(** ** When the machine goes down *)
Record power_cut (d d' : Disk) : Prop := {
  cut_files p : File p ∉ d_dirty d → lookup_path d' p = lookup_path d p;
  cut_devs x : Dev x ∉ d_dirty d → d_dev d' !! x = d_dev d !! x;
  cut_entries p : is_Some (lookup_path d' p) ↔ is_Some (lookup_path d p) }.

Lemma overwrite_full new old :
  String.length new = String.length old → overwrite 0 new old = new.
Proof. intros H. unfold overwrite. simpl. rewrite drop_str_all by lia. apply app_nil_s. Qed.

Lemma keeps_read F I `{!Timeless I} p : keeps I (os_ReadFile F p).
Proof. apply keeps_sys; [apply _|done]. Qed.
Lemma keeps_stat F I `{!Timeless I} p : keeps I (os_Stat F p).
Proof. apply keeps_sys; [apply _|done]. Qed.
Lemma keeps_open F I `{!Timeless I} p : keeps I (os_OpenWr F p).
Proof. apply keeps_sys; [apply _|done]. Qed.
Lemma keeps_fsync F I `{!Timeless I} x : keeps I (fsync F x).
Proof. apply keeps_sys; [apply _|]. intros d. apply bytes_marks. Qed.
Lemma keeps_command F I `{!Timeless I} : keeps I (command F).
Proof. apply keeps_sys; [apply _|done]. Qed.
Lemma keeps_dev_open F I `{!Timeless I} dev : keeps I (dev_open F dev).
Proof. apply keeps_sys; [apply _|done]. Qed.
#[export] Hint Resolve keeps_read keeps_stat keeps_open keeps_fsync keeps_command keeps_dev_open : keeps.
