(* ===== verification/OpenWrtAB.v ===== *)
(** * The firewall's A/B update backend

    agent/internal/updater: openwrt_ab.go (slots, download, install, the boot
    counter), the file operations of grubenv.go, the ESP mount of espmount.go
    and the download gates of expectedsha.go and trust.go, on the faulty
    storage of Disk.v.

    Outside the model and passed in: the reply of an HTTP fetch, SHA-256, the
    CMS verification of package artifactsig (a function of the files it reads),
    the name os.CreateTemp picks, and the agent's one reboot function. *)
From Stdlib Require Import Ascii String.
From S2P Require Import Prelude GoStrings GoPath Grubenv Disk.
#[local] Arguments String.append : simpl nomatch.
Open Scope io_scope.

(** ** Slots *)
Definition SlotA : string := "a".
Definition SlotB : string := "b".
Definition SlotUnknown : string := "unknown".

Definition slotLetter (s : string) : string :=
  if String.eqb s SlotA then "A" else if String.eqb s SlotB then "B" else EmptyString.

Definition bootedSlotFromCmdline (cmdline : string) : string :=
  if Contains cmdline "PARTLABEL=rootfs-0" || Contains cmdline "rauc.slot=A" || Contains cmdline "rasputin.slot=A"
  then SlotA
  else if Contains cmdline "PARTLABEL=rootfs-1" || Contains cmdline "rauc.slot=B" || Contains cmdline "rasputin.slot=B"
  then SlotB
  else SlotUnknown.

Definition otherSlot (s : string) : string :=
  if String.eqb s SlotA then SlotB else if String.eqb s SlotB then SlotA else SlotUnknown.

(** ** What [block info] says *)
Definition blockInfoDev (line : string) : string :=
  match Fields line with
  | [] => EmptyString
  | f :: _ => TrimSuffix f ":"
  end.

Definition slots_line (acc : string * string) (l : string) : string * string :=
  if negb (Contains l ("TYPE=" +:+ quote "squashfs")) then acc
  else if Contains l ("MOUNT=" +:+ quote "/rom") then (blockInfoDev l, acc.2)
  else (acc.1, blockInfoDev l).

Definition parseSquashfsSlots (out : string) : string * string :=
  foldl slots_line (EmptyString, EmptyString) (Split nl out).

Fixpoint esp_lines (legacy : string) (ls : list string) : string :=
  match ls with
  | [] => legacy
  | l :: ls =>
      if negb (Contains l ("TYPE=" +:+ quote "vfat")) then esp_lines legacy ls
      else if Contains l ("LABEL=" +:+ quote "RASPUTINEFI") then blockInfoDev l
      else if Contains l ("LABEL=" +:+ quote "RASPUTIN-FW") then esp_lines (blockInfoDev l) ls
      else esp_lines legacy ls
  end.
Definition parseESPDevice (out : string) : string := esp_lines EmptyString (Split nl out).

(** ** The download's gates *)
Definition isLowerHex (s : string) : bool := all_chars (λ c, in_range 48 57 c || in_range 97 102 c) s.

Definition requireExpectedSHA (bundleID expectedSHA : string) : option error :=
  if String.eqb expectedSHA EmptyString then
    Some (errors_New ("the control plane sent no expected sha256 for bundle " +:+ bundleID +:+
      "; this node will not install an artifact it cannot check against a stated hash — update the control plane"))
  else if negb (Nat.eqb (String.length expectedSHA) 64) || negb (isLowerHex expectedSHA) then
    Some (errors_New ("the control plane sent " +:+ quote expectedSHA +:+ " as the expected sha256 for bundle "
      +:+ bundleID +:+ ", which is not a lowercase hex sha256 digest and cannot match any artifact"))
  else None.

(** What the trust source answers: an error, or a config with or without roots. *)
Inductive TrustAnswer := TrustError (e : error) | TrustNoRoots | TrustRoots.
Definition errNoTrustRoots : error := sentinel "errNoTrustRoots"
  "mesh trust source returned no root pool; refusing to fall back to the system roots".
Definition trustedClient (trust : TrustAnswer) : result unit :=
  match trust with
  | TrustError e => Fail e
  | TrustNoRoots => Fail errNoTrustRoots
  | TrustRoots => Ok tt
  end.

(** An HTTP exchange: a request that cannot be built or sent, or a status, a
    declared length and a body that arrives in chunks and may break off. *)
Inductive HttpReply :=
| BadRequest (e : error)
| NoReply (e : error)
| Reply (status : Z) (chunks : list string) (broken : option error).

Definition maxSignatureBytes : Z := 2 ^ 20.
Definition concat_chunks (l : list string) : string := foldr (λ c s, c +:+ s) EmptyString l.

Record OpenWrtABBackend := mkBackend {
  o_stateDir : string;
  o_grubenvPath : string;
  o_procCmdline : string;
  o_versionFile : string }.

Record UpdatePrecheckAck := mkAck {
  ack_OK : bool; ack_ActiveSlot : string; ack_InactiveSlot : string; ack_CurrentVersion : string;
  ack_AvailableBytes : Z; ack_Backend : string; ack_Detail : string }.

Definition rebootReason (verb bundleID : string) : string :=
  if String.eqb bundleID EmptyString then verb else verb +:+ " bundle=" +:+ ShortFingerprint bundleID.
Definition errNoRebooter : error :=
  sentinel "errNoRebooter" "update backend has no rebooter wired, so it cannot reboot this node".
Definition SigPathFor (p : string) : string := p +:+ ".sig".

Section Backend.
Context (F : nat → Fault).
Context (getwd : result string).
Context (http : string → HttpReply).
Context (sha256_hex : string → string).
Context (VerifyDefault : gmap string string → string → option error).
Context (trust : TrustAnswer).
Context (tmp_name : string).
Context (rebooter : option (string → Z → result Z)).
Context (ctx_err : nat → option error).
Context (o : OpenWrtABBackend).

(** *** The ESP (espmount.go) *)

(** [m.unmount]: a failed sync is logged, a failed umount is returned. *)
Definition unmount : IO (result unit) :=
  _ <- command F;
  command F.

(** [m.mount]: os.MkdirTemp, then mount; a failure removes the mount point. *)
Definition mount : IO (result unit) :=
  _ <-? command F;
  r <- command F;
  match r with
  | Ok _ => ret (Ok tt)
  | Fail e => _ <- command F; ret (Fail e)
  end.

Definition block_info : IO (result string) := sys F (λ d, (Ok (d_block d), d)).

Definition WithESP {A} (nothing : A) (fn : IO (A * result unit)) : IO (A * result unit) :=
  r <- block_info;
  match r with
  | Fail e => ret (nothing, Fail (wrapf ("resolve ESP: block info: " +:+ err_text e) e))
  | Ok info =>
      let dev := parseESPDevice info in
      if String.eqb dev EmptyString then
        ret (nothing, Fail (errors_New "resolve ESP: no vfat partition labelled RASPUTINEFI, or legacy RASPUTIN-FW, in `block info`"))
      else
        m <- mount;
        match m with
        | Fail e => ret (nothing, Fail (wrapf ("mount ESP " +:+ dev +:+ ": " +:+ err_text e) e))
        | Ok _ =>
            out <- fn;
            u <- unmount;
            let fnErr := match out.2 with
                         | Ok _ => Ok tt
                         | Fail e => Fail (wrapf ("ESP " +:+ dev +:+ ": " +:+ err_text e) e)
                         end in
            ret (out.1, join_errors fnErr u)
        end
  end.

(** *** The environment block on disk (grubenv.go) *)
Definition readGrubenv (p : Path) : IO (result env) :=
  b <-? os_ReadFile F p;
  ret (Ok (parseGrubenv b)).

Definition writeGrubenv (p : Path) (kv : env) : IO (result unit) :=
  n <-? wrapE "grubenv: " " (must be pre-created at provisioning)" (os_Stat F p);
  let size := if bool_decide (n < String.length grubenvSignature)%nat then grubenvSize else n in
  match encodeGrubenv kv size with
  | Fail e => ret (Fail e)
  | Ok block =>
      _ <-? os_OpenWr F p;
      _ <-? write_at F p block;
      fsync F (File p)
  end.

(** [withGrubenv]: the wired path, or the ESP mounted for the operation. *)
Definition esp_grubenv : Path := Esp "boot/grub/grubenv".
Definition grubenv_path : Path :=
  if String.eqb (o_grubenvPath o) EmptyString then esp_grubenv else Fs (o_grubenvPath o).
Definition withGrubenv_out {A} (nothing : A) (fn : Path → IO (A * result unit)) : IO (A * result unit) :=
  if String.eqb (o_grubenvPath o) EmptyString then WithESP nothing (fn esp_grubenv)
  else fn (Fs (o_grubenvPath o)).
Definition withGrubenv (fn : Path → IO (result unit)) : IO (result unit) :=
  r <- withGrubenv_out tt (λ p, x <- fn p; ret (tt, x));
  ret r.2.

(** *** The boot counter *)
Definition set_flags (ok try_ : bool) (letter : string) (st : abState) : abState :=
  mkAB (ab_order st) (<[letter := ok]> (ab_ok st)) (<[letter := try_]> (ab_try st)).

Definition deactivateSlot (letter : string) : IO (result unit) :=
  withGrubenv (λ p,
    kv <-? readGrubenv p;
    let st := set_flags false false letter (decodeAB kv) in
    writeGrubenv p (encodeAB kv st)).

Definition activateSlot (letter : string) : IO (result unit) :=
  withGrubenv (λ p,
    kv <-? readGrubenv p;
    let other := if String.eqb letter "A" then "B" else "A" in
    let st := set_flags true false letter (decodeAB kv) in
    writeGrubenv p (encodeAB kv (mkAB [letter; other] (ab_ok st) (ab_try st)))).

Definition markRunning (good : bool) : IO (result unit) :=
  cmdline <-? os_ReadFile F (Fs (o_procCmdline o));
  let running := slotLetter (bootedSlotFromCmdline cmdline) in
  if String.eqb running EmptyString then
    ret (Fail (errors_New "openwrt-ab: cannot determine running slot from cmdline"))
  else withGrubenv (λ p,
    kv <-? readGrubenv p;
    let st := set_flags good false running (decodeAB kv) in
    let kv := if good then delete (running +:+ "_REPAIR") kv else kv in
    writeGrubenv p (encodeAB kv st)).

(** *** Reboots *)
Definition requestReboot (reason : string) (delay : Z) : IO (result Z) :=
  match rebooter with
  | None => ret (Fail errNoRebooter)
  | Some rb => λ d, match rb reason delay with
                    | Ok n => (Some (Ok n), add_reboot (reason, n) d)
                    | Fail e => (Some (Fail e), d)
                    end
  end.
Definition Reboot (bundleID : string) (delaySeconds : Z) : IO (result Z) :=
  requestReboot (rebootReason "update.reboot" bundleID) delaySeconds.
Definition MarkGood : IO (result unit) := markRunning true.
Definition MarkGoodOnBoot : IO (result unit) := markRunning true.
Definition MarkBad (bundleID : string) : IO (result unit) :=
  _ <-? markRunning false;
  _ <- requestReboot (rebootReason "update.mark-bad" bundleID) 2;
  ret (Ok tt).

(** *** Precheck *)
Definition Precheck : IO UpdatePrecheckAck :=
  r <- os_ReadFile F (Fs (o_procCmdline o));
  match r with
  | Fail e => ret (mkAck false EmptyString EmptyString EmptyString 0 "openwrt-ab" (err_text e))
  | Ok cmdline =>
      let active := bootedSlotFromCmdline cmdline in
      if String.eqb active SlotUnknown then
        ret (mkAck false EmptyString EmptyString EmptyString 0 "openwrt-ab"
               "could not determine booted slot from /proc/cmdline")
      else
        v <- os_ReadFile F (Fs (o_versionFile o));
        let version := match v with Ok b => TrimSpace b | Fail _ => EmptyString end in
        ret (mkAck true active (otherSlot active) version 0 "openwrt-ab" EmptyString)
  end.

(** *** The bundle store *)
Definition bundles_dir : string := filepath_Join [o_stateDir o; "bundles"].

(** os.ReadDir: the names right below [dir], sorted. *)
Definition dir_name (dir p : string) : option string :=
  if HasPrefix p (dir +:+ "/") then
    let n := drop_str (String.length dir + 1) p in
    if without slash n && negb (String.eqb n EmptyString) then Some n else None
  else None.
Definition os_ReadDir (dir : string) : IO (result (list string)) :=
  sys F (λ d, (Ok (sort_Strings (omap (dir_name dir) (map_to_list (d_fs d)).*1)), d)).

Fixpoint prune_each (keep : string) (names : list string) : IO unit :=
  match names with
  | [] => ret tt
  | n :: ns =>
      if String.eqb n keep || String.eqb n (keep +:+ ".version") || String.eqb n (keep +:+ ".sig")
      then prune_each keep ns
      else if HasSuffix n ".rootfs" || HasSuffix n ".version" || HasSuffix n ".sig" || HasPrefix n "download-"
      then (_ <- os_Remove F (Fs (filepath_Join [bundles_dir; n])); prune_each keep ns)
      else prune_each keep ns
  end.
Definition pruneBundles (keepID : string) : IO unit :=
  r <- os_ReadDir bundles_dir;
  match r with
  | Fail _ => ret tt
  | Ok names => prune_each (keepID +:+ ".rootfs") names
  end.

(** os.WriteFile *)
Definition os_WriteFile (p : Path) (data : string) : IO (result unit) :=
  _ <-? os_Create F p;
  write_new F p data.

Definition downloadSignature (sigURL dest : string) : IO (result unit) :=
  match http sigURL with
  | BadRequest e => ret (Fail (wrapf ("openwrt-ab download: signature request: " +:+ err_text e) e))
  | NoReply e => ret (Fail (wrapf ("openwrt-ab download: fetch signature " +:+ sigURL +:+ ": " +:+ err_text e) e))
  | Reply status chunks broken =>
      if Z.eqb status 404 then
        ret (Fail (errors_New ("openwrt-ab download: the control plane has no signature staged for this artifact ("
          +:+ sigURL +:+ " returned 404); re-pull the release so the .sig is staged with it")))
      else if negb (Z.eqb status 200) then
        ret (Fail (errors_New ("openwrt-ab download: fetch signature " +:+ sigURL +:+ ": http " +:+ pretty status)))
      else
        let der := concat_chunks chunks in
        if Z.ltb maxSignatureBytes (Z.of_nat (String.length der)) then
          ret (Fail (errors_New ("openwrt-ab download: signature " +:+ sigURL +:+ " exceeds "
            +:+ pretty maxSignatureBytes +:+ " bytes")))
        else match broken with
        | Some e => ret (Fail (wrapf ("openwrt-ab download: read signature " +:+ sigURL +:+ ": " +:+ err_text e) e))
        | None =>
            if String.eqb der EmptyString then
              ret (Fail (errors_New ("openwrt-ab download: signature " +:+ sigURL +:+ " is empty")))
            else wrapE ("openwrt-ab download: write signature " +:+ dest +:+ ": ") EmptyString
                   (os_WriteFile (Fs dest) der)
        end
  end.

(** The copy loop: each chunk to the temp file and the running hash. *)
Definition append_file (p : string) (chunk : string) : IO (result unit) :=
  sys_write F (λ s d, mark (File (Fs p)) (set_fs (alter (λ old, old +:+ s) p) d)) chunk.
Fixpoint copy_body (chunks : list string) (broken : option error) (seen : string) : IO (result string) :=
  match chunks with
  | [] => ret match broken with Some e => Fail e | None => Ok seen end
  | c :: cs =>
      if String.eqb c EmptyString then copy_body cs broken seen
      else (_ <-? append_file tmp_name c; copy_body cs broken (seen +:+ c))
  end.

(** [(localPath, observedSHA, err)] *)
Definition DownloadOut : Type := string * string * option error.
Definition refused (e : error) : DownloadOut := (EmptyString, EmptyString, Some e).

(** The transfer, from the temp file to the rename, without its deferred
    removal of the temp file.  The temp file is closed and not synced. *)
Definition transfer (dest expectedSHA : string) (chunks : list string) (broken : option error) : IO DownloadOut :=
  c <- copy_body chunks broken EmptyString;
  match c with
  | Fail e => ret (refused e)
  | Ok body =>
      cl <- command F;
      match cl with
      | Fail e => ret (refused e)
      | Ok _ =>
          let observed := sha256_hex body in
          if negb (String.eqb observed expectedSHA) then ret (EmptyString, observed, Some (errors_New "sha mismatch"))
          else
            rn <- os_Rename F (Fs tmp_name) (Fs dest);
            match rn with
            | Fail e => ret (refused e)
            | Ok _ => ret (dest, observed, None)
            end
      end
  end.

Definition fetch (url dest expectedSHA : string) : IO DownloadOut :=
  match http url with
  | BadRequest e | NoReply e => ret (refused e)
  | Reply status chunks broken =>
      if negb (Z.eqb status 200) then ret (refused (errors_New ("http " +:+ pretty status)))
      else
        t <- os_Create F (Fs tmp_name);
        match t with
        | Fail e => ret (refused e)
        | Ok _ =>
            out <- transfer dest expectedSHA chunks broken;
            _ <- os_Remove F (Fs tmp_name);
            ret out
        end
  end.

Definition dl_prefix (e : error) : error := wrapf ("openwrt-ab download: " +:+ err_text e) e.

Definition Download (bundleID url sigURL expectedSHA : string) : IO DownloadOut :=
  match resolveBundlePath getwd (o_stateDir o) bundleID EmptyString ".rootfs" with
  | Fail e => ret (refused (dl_prefix e))
  | Ok dest =>
      match trustedClient trust with
      | Fail e => ret (refused (dl_prefix e))
      | Ok _ =>
          _ <- pruneBundles bundleID;
          if String.eqb sigURL EmptyString then
            ret (refused (errors_New ("openwrt-ab download: the control plane sent no signature URL for bundle "
              +:+ bundleID +:+ "; this node will not install an unsigned artifact — update the control plane")))
          else match requireExpectedSHA bundleID expectedSHA with
          | Some e => ret (refused (dl_prefix e))
          | None =>
              s <- downloadSignature sigURL (SigPathFor dest);
              match s with
              | Fail e => ret (refused e)
              | Ok _ => fetch url dest expectedSHA
              end
          end
      end
  end.

(** *** Install *)
Definition defaultVerifySig (path : string) : IO (result unit) :=
  sys F (λ d, (match VerifyDefault (d_fs d) path with Some e => Fail e | None => Ok tt end, d)).

Definition defaultResolveDevice (slot : string) : IO (result string) :=
  cmdline <-? os_ReadFile F (Fs "/proc/cmdline");
  let booted := slotLetter (bootedSlotFromCmdline cmdline) in
  if String.eqb booted EmptyString then ret (Fail (errors_New "cannot determine booted slot from /proc/cmdline"))
  else
    info <-? wrapE "block info: " EmptyString block_info;
    let '(active, inactive) := parseSquashfsSlots info in
    if String.eqb active EmptyString || String.eqb inactive EmptyString then
      ret (Fail (errors_New ("block info: expected two squashfs slots (active=" +:+ quote active
        +:+ " inactive=" +:+ quote inactive +:+ ")")))
    else ret (Ok (if String.eqb slot booted then active else inactive)).

(** The loop of [defaultWriteSlot]: [chunks] is how the reads split the file;
    each round checks the context, reads, writes at the descriptor's offset. *)
Definition ctx_check : IO (result unit) := λ d,
  match ctx_err (d_tick d) with Some e => (Some (Fail e), d) | None => (Some (Ok tt), d) end.
Fixpoint write_chunks (dev : string) (off : nat) (chunks : list string) : IO (result unit) :=
  _ <-? ctx_check;
  _ <-? command F;
  match chunks with
  | [] => ret (Ok tt)
  | c :: cs => _ <-? dev_write F dev off c; write_chunks dev (off + String.length c) cs
  end.

Context (split_reads : string → list string).

Definition defaultWriteSlot (src dev : string) : IO (result unit) :=
  img <-? os_ReadFile F (Fs src);
  _ <-? command F;
  _ <-? dev_open F dev;
  _ <-? write_chunks dev 0 (split_reads img);
  fsync F (Dev dev).

Definition installedVersion (localPath : string) : IO string :=
  r <- os_ReadFile F (Fs (localPath +:+ ".version"));
  ret match r with Ok b => TrimSpace b | Fail _ => EmptyString end.

Definition Install (bundleID localPath targetSlot : string) : IO (result string) :=
  match resolveBundlePath getwd (o_stateDir o) bundleID localPath ".rootfs" with
  | Fail e => ret (Fail (wrapf ("openwrt-ab install: " +:+ err_text e) e))
  | Ok localPath =>
      let letter := slotLetter targetSlot in
      if String.eqb letter EmptyString then
        ret (Fail (errors_New ("openwrt-ab install: invalid target slot " +:+ quote targetSlot)))
      else
        _ <-? wrapE "openwrt-ab install: signature verify: " EmptyString (defaultVerifySig localPath);
        dev <-? wrapE ("openwrt-ab install: resolve slot " +:+ letter +:+ ": ") EmptyString (defaultResolveDevice letter);
        _ <-? wrapE ("openwrt-ab install: deactivate slot " +:+ letter +:+ ": ") EmptyString (deactivateSlot letter);
        _ <-? wrapE ("openwrt-ab install: write slot " +:+ letter +:+ " (" +:+ dev +:+ "): ") EmptyString
                (defaultWriteSlot localPath dev);
        _ <-? wrapE ("openwrt-ab install: activate slot " +:+ letter +:+ ": ") EmptyString (activateSlot letter);
        v <- installedVersion localPath;
        ret (Ok v)
  end.
End Backend.
