(* ===== verification/OpenWrtABFacts.v ===== *)
(** * The firewall's A/B update is crash safe

    What [Install] leaves on the disk wherever it stops, and what the boot
    counter's read-modify-writes do. *)
From Stdlib Require Import Ascii String.
From S2P Require Import Prelude GoStrings GoPath Grubenv Disk OpenWrtAB.
#[local] Arguments String.append : simpl nomatch.
Open Scope io_scope.

(** The environment on the ESP. *)
Definition grub_file : string := "boot/grub/grubenv".
Definition env_of (d : Disk) : option env := parseGrubenv <$> d_esp d !! grub_file.

(** The node's files and the slot partitions are [fs] and [dv]. *)
Definition files (fs dv : gmap string string) (d : Disk) : Prop := d_fs d = fs ∧ d_dev d = dv.
#[export] Instance files_timeless fs dv : Timeless (files fs dv).
Proof. bytewise. Qed.

Lemma ensures_and {A} P I (m : IO A) Q C :
  ensures P m Q C → keeps I m → ensures (λ d, P d ∧ I d) m (λ a d, Q a d ∧ I d) (λ d, C d ∧ I d).
Proof.
  intros Hm Hk d [HP HI]. specialize (Hm d HP). specialize (Hk d HI). by destruct (m d) as [[a|] d'].
Qed.

Lemma ensures_pure {A} (φ : Prop) P (m : IO A) Q C :
  (φ → ensures P m Q C) → ensures (λ d, P d ∧ φ) m Q C.
Proof. intros H d [HP Hφ]. by apply H. Qed.

(** ** The block's read-modify-write *)

Lemma stat_spec F I `{!Timeless I} :
  ensures I (os_Stat F esp_grubenv)
    (λ r d, I d ∧ ∀ n, r = Ok n → ∃ old, d_esp d !! grub_file = Some old ∧ String.length old = n) I.
Proof.
  apply sys_ensures; [|by intros; split; [apply timeless|]|intros; by apply timeless].
  intros d Hd. simpl. split; [by apply timeless|]. intros n.
  destruct (d_esp d !! "boot/grub/grubenv") as [old|] eqn:E; [|done].
  intros [= <-]. by exists old.
Qed.

Lemma overwrite_long new old : (String.length old ≤ String.length new)%nat → overwrite 0 new old = new.
Proof. intros H. unfold overwrite. simpl. rewrite drop_str_all by lia. apply app_nil_s. Qed.

Lemma encode_parse kv size b :
  wf_env kv → encodeGrubenv kv size = Ok b → parseGrubenv b = kv ∧ String.length b = size.
Proof.
  intros Hwf He. pose proof (encode_spec kv size Hwf) as H. rewrite He in H. naive_solver.
Qed.

(** The file holds a block of [n] bytes. *)
Definition block_of (n : nat) (d : Disk) : Prop :=
  ∃ old, d_esp d !! grub_file = Some old ∧ String.length old = n.
#[export] Instance block_of_timeless n : Timeless (block_of n).
Proof. bytewise. Qed.
#[export] Instance and_timeless I J `{!Timeless I, !Timeless J} : Timeless (λ d, I d ∧ J d).
Proof. split; [intros d [HI HJ]; split; by apply timeless|intros f d [HI HJ]; split; by apply bytes_marks]. Qed.
#[export] Instance env_is_timeless kv : Timeless (λ d, env_of d = Some kv).
Proof. bytewise. Qed.

(** What a write of the block leaves alone. *)
Class GrubFrame (Fr : Disk → Prop) := {
  frame_timeless :: Timeless Fr;
  frame_store s d : Fr d → Fr (set_esp <[grub_file := s]> d) }.
#[export] Instance files_frame fs dv : GrubFrame (files fs dv).
Proof. split; [apply _|done]. Qed.

Lemma write_block_spec F Fr `{!GrubFrame Fr} kv n b :
  honest F → parseGrubenv b = kv → (n ≤ String.length b)%nat →
  ensures (λ d, Fr d ∧ block_of n d) (write_at F esp_grubenv b)
    (λ r d, Fr d ∧ (r = Ok tt → env_of d = Some kv)) Fr.
Proof.
  intros HF Hb Hn. apply sys_write_ensures.
  - intros d [Hf (old & Ho & Hl)]. unfold grub_file in Ho. simpl. rewrite Ho. split; [by apply bytes_marks, frame_store, timeless|]. intros _.
    unfold env_of. simpl. rewrite lookup_insert_eq. simpl. by rewrite overwrite_long, Hb by lia.
  - intros d k e [Hf (old & Ho & _)]. unfold grub_file in Ho. simpl. rewrite Ho.
    split; [by apply bytes_marks, frame_store, timeless|done].
  - intros d k [Hf (old & Ho & _)]. unfold grub_file in Ho. simpl. rewrite Ho. by apply bytes_marks, frame_store, timeless.
  - intros d s HC. by apply HF in HC.
Qed.

(** A write of the block is all or an error, and touches nothing else. *)
Lemma writeGrubenv_spec F Fr `{!GrubFrame Fr} kv : honest F → wf_env kv →
  ensures Fr (writeGrubenv F esp_grubenv kv)
    (λ r d, Fr d ∧ (r = Ok tt → env_of d = Some kv)) Fr.
Proof.
  intros HF Hwf. unfold writeGrubenv.
  apply (ensures_bindR _ _ _ (λ r d, Fr d ∧ ∀ n, r = Ok n → block_of n d)).
  { eapply ensures_wrapE; [apply stat_spec; apply _|done|by intros ??? [? _]]. }
  2: { by intros e d [? _]. }
  intros n. case_match eqn:He; [|by intros d [? _]]. 
  apply encode_parse in He as [Hp Hl]; [|done].
  assert (n ≤ String.length a)%nat .
  { rewrite Hl. change (String.length grubenvSignature) with 25%nat in *. clear Hl.
    case_bool_decide; unfold grubenvSize; lia. }
  apply (ensures_bindR _ _ _ (λ r d, Fr d ∧ block_of n d)).
  { eapply ensures_conseq; [apply (keeps_open _ (λ d, Fr d ∧ block_of n d)); apply _| | |];
      [intros d [? Hn]; split; [done|by apply Hn]|done|by intros d [? _]]. }
  2: { by intros e d [? _]. }
  intros _. apply (ensures_bindR _ _ _ (λ r d, Fr d ∧ (r = Ok tt → env_of d = Some kv))).
  { by apply (write_block_spec F Fr kv n). }
  2: { by intros e d [? _]. }
  intros []. eapply ensures_conseq;
    [apply (keeps_fsync _ (λ d, Fr d ∧ env_of d = Some kv)); apply _| | |].
  - intros d [? Hn]. split; [done|by apply Hn].
  - by intros r d [? ?].
  - by intros d [? _].
Qed.

(** ** Under a mounted ESP *)

Lemma keeps_mount F I `{!Timeless I} : keeps I (mount F).
Proof. unfold mount. keep. Qed.
Lemma keeps_unmount F I `{!Timeless I} : keeps I (unmount F).
Proof. unfold unmount. keep. Qed.
Lemma keeps_block_info F I `{!Timeless I} : keeps I (block_info F).
Proof. apply keeps_sys; [apply _|done]. Qed.
#[export] Hint Resolve keeps_mount keeps_unmount keeps_block_info : keeps.

(** [R] describes what a program on the mounted ESP leaves.  It must hold of
    the untouched state when the mount fails, and of any failure when it holds
    of the program's own result, since a failed umount is joined to it. *)
Lemma WithESP_gen {A} F (P I : Disk → Prop) (R : A * result unit → Disk → Prop) (no : A) (fn : IO (A * result unit))
    `{!Timeless P} `{!∀ r, Timeless (R r)} :
  (∀ d, P d → I d) → (∀ r d, R r d → I d) →
  (∀ e d, P d → R (no, Fail e) d) → (∀ a r e d, R (a, r) d → R (a, Fail e) d) →
  ensures P fn R I → ensures P (WithESP F no fn) R I.
Proof.
  intros HPI HRI Hno Hfail Hfn. unfold WithESP.
  eapply ensures_bind; [apply ensures_keeps; [apply keeps_block_info, _|done]|].
  intros [info|e]; [|intros d Hd; by apply Hno].
  case_match; [intros d Hd; by apply Hno|].
  eapply ensures_bind; [apply ensures_keeps; [apply keeps_mount, _|done]|].
  intros [[]|e]; [|intros d Hd; by apply Hno].
  apply (ensures_bind _ _ _ _ _ _ Hfn). intros [a r].
  eapply ensures_bind; [apply ensures_keeps; [apply (keeps_unmount F), _|apply HRI]|].
  intros u d HR. simpl. destruct r as [[]|e]; destruct u as [[]|e']; simpl; eauto.
Qed.

(** The usual case: a nil error from [WithESP] means the program had none. *)
Lemma WithESP_spec {A} F (P I : Disk → Prop) (Q : A → Disk → Prop) (no : A) (fn : IO (A * result unit))
    `{!Timeless P} `{!Timeless I} `{!∀ a, Timeless (Q a)} :
  (∀ d, P d → I d) →
  ensures P fn (λ r d, I d ∧ (r.2 = Ok tt → Q r.1 d)) I →
  ensures P (WithESP F no fn) (λ r d, I d ∧ (r.2 = Ok tt → Q r.1 d)) I.
Proof.
  intros HPI Hfn. apply (WithESP_gen F P I (λ r d, I d ∧ (r.2 = Ok tt → Q r.1 d))); auto.
  - intros [a r]. split.
    + intros d [HI HQ]. split; [by apply timeless|]. intros Hr. apply timeless. by apply HQ.
    + intros f d [HI HQ]. split; [by apply bytes_marks|]. intros Hr. apply bytes_marks. by apply HQ.
  - by intros r d [? _].
  - intros e d Hd. by split; auto.
  - by intros a r e d [? _].
Qed.

Lemma withGrubenv_spec F o (P I Q : Disk → Prop) (fn : Path → IO (result unit))
    `{!Timeless P} `{!Timeless I} `{!Timeless Q} :
  o_grubenvPath o = EmptyString → (∀ d, P d → I d) →
  ensures P (fn esp_grubenv) (λ r d, I d ∧ (r = Ok tt → Q d)) I →
  ensures P (withGrubenv F o fn) (λ r d, I d ∧ (r = Ok tt → Q d)) I.
Proof.
  intros Ho HPI Hfn. unfold withGrubenv, withGrubenv_out. rewrite Ho. simpl.
  apply (ensures_bind _ _ _ (λ r d, I d ∧ (r.2 = Ok tt → Q d))); [|by intros [a r] d].
  apply (WithESP_spec F P I (λ _, Q)); try apply _; [done|].
  eapply ensures_bind; [exact Hfn|]. by intros r d.
Qed.

(** One read-modify-write under a mounted ESP: on success the environment on
    the disk is [f] of the one that was there. *)
Definition rewrote (f : env → env) (kv0 : option env) (d : Disk) : Prop :=
  ∃ kv, kv0 = Some kv ∧ env_of d = Some (f kv).
#[export] Instance rewrote_timeless f kv0 : Timeless (rewrote f kv0).
Proof. bytewise. Qed.
#[export] Instance env_eq_timeless kv0 : Timeless (λ d, env_of d = kv0).
Proof. bytewise. Qed.

Lemma read_env_spec F (P : Disk → Prop) kv0 `{!Timeless P} :
  ensures (λ d, P d ∧ env_of d = kv0) (readGrubenv F esp_grubenv)
    (λ r d, P d ∧ ∀ kv, r = Ok kv → kv0 = Some kv ∧ wf_env kv) P.
Proof.
  unfold readGrubenv.
  apply (ensures_bindR _ _ _ (λ r d, P d ∧ ∀ b, r = Ok b → kv0 = Some (parseGrubenv b))).
  - apply sys_ensures; simpl.
    + intros d [HP <-]. simpl. split; [by apply timeless|].
      unfold env_of, grub_file. intros b. simpl. by destruct (d_esp d !! _); intros [= ->].
    + intros d e [HP _]. split; [by apply timeless|done].
    + intros d [HP _]. by apply timeless.
  - intros b d [HP Hb]. simpl. split; [done|]. intros kv [= <-]. split; [by apply Hb|apply parseGrubenv_wf].
  - naive_solver.
Qed.

Lemma rmw_spec F o Fr `{!GrubFrame Fr} (f : env → env) (kv0 : option env) :
  honest F → o_grubenvPath o = EmptyString → (∀ kv, wf_env kv → wf_env (f kv)) →
  ensures (λ d, Fr d ∧ env_of d = kv0)
    (withGrubenv F o (λ p, kv <-? readGrubenv F p; writeGrubenv F p (f kv)))
    (λ r d, Fr d ∧ (r = Ok tt → rewrote f kv0 d))
    Fr.
Proof.
  intros HF Ho Hf. apply (withGrubenv_spec F o _ Fr (rewrote f kv0)); try apply _; [done|by intros d [? _]|].
  eapply ensures_bindR; [apply read_env_spec; apply _| |naive_solver].
  intros kv. apply (ensures_pre _ (λ d, Fr d ∧ (kv0 = Some kv ∧ wf_env kv))); [|naive_solver].
  apply ensures_pure. intros [-> Hwf].
  eapply ensures_conseq; [apply (writeGrubenv_spec F Fr (f kv) HF); auto|done| |done].
  intros r d [Hd Hr]. split; [done|]. intros ->. exists kv. auto.
Qed.

(** ** The three edits of the boot counter *)

Definition is_letter (l : string) : Prop := l = "A" ∨ l = "B".

Lemma slotLetter_letter s : slotLetter s ≠ EmptyString → is_letter (slotLetter s).
Proof. unfold slotLetter, is_letter. repeat case_match; [by left|by right|done]. Qed.

Definition deactivated_env (letter : string) (kv : env) : env :=
  encodeAB kv (set_flags false false letter (decodeAB kv)).
Definition activated_env (letter : string) (kv : env) : env :=
  let st := set_flags true false letter (decodeAB kv) in
  encodeAB kv (mkAB [letter; if String.eqb letter "A" then "B" else "A"] (ab_ok st) (ab_try st)).

Lemma set_flags_wf ok t letter st : is_letter letter → ab_wf st → ab_wf (set_flags ok t letter st).
Proof.
  unfold ab_wf, set_flags, is_letter. simpl.
  intros [->| ->] (Hne & Hw & (a & b & ->) & (a' & b' & ->)); (split_and!; [done..| |]).
  all: try (do 2 eexists; by rewrite insert_insert_eq).
  all: do 2 eexists; by rewrite insert_insert_ne, insert_singleton_eq by done.
Qed.

Lemma deactivated_env_wf letter kv : wf_env kv → wf_env (deactivated_env letter kv).
Proof. apply encodeAB_wf. apply decodeAB_wf. Qed.
Lemma activated_env_wf letter kv : is_letter letter → wf_env kv → wf_env (activated_env letter kv).
Proof. intros [->| ->]; apply encodeAB_wf; by repeat constructor. Qed.

Lemma decode_deactivated letter kv : is_letter letter →
  decodeAB (deactivated_env letter kv) = set_flags false false letter (decodeAB kv).
Proof. intros. apply decode_encodeAB, set_flags_wf, decodeAB_wf. done. Qed.

Lemma decode_activated letter kv : is_letter letter →
  decodeAB (activated_env letter kv) =
    mkAB [letter; if String.eqb letter "A" then "B" else "A"]
      (<[letter := true]> (ab_ok (decodeAB kv))) (<[letter := false]> (ab_try (decodeAB kv))).
Proof.
  intros Hl. apply decode_encodeAB.
  destruct (set_flags_wf true false letter (decodeAB kv) Hl (decodeAB_wf kv)) as (_ & _ & ? & ?).
  unfold ab_wf. simpl. split_and!; [done| |done|done]. destruct Hl as [->| ->]; by repeat constructor.
Qed.

(** GRUB reads [<slot>_OK]. *)
Definition deactivated (d : Disk) (letter : string) : Prop :=
  ∃ kv, env_of d = Some kv ∧ kv !! (letter +:+ "_OK") = Some "0".

Lemma deactivated_env_flag letter kv : is_letter letter →
  deactivated_env letter kv !! (letter +:+ "_OK") = Some "0".
Proof.
  intros [->| ->]; unfold deactivated_env; rewrite encodeAB_lookup; simpl; unfold flag; by rewrite lookup_insert_eq.
Qed.

(** ** Writing the slot *)

Lemma drop_drop_str n m s : drop_str n (drop_str m s) = drop_str (m + n) s.
Proof. revert s. induction m as [|m IH]; intros [|c s]; simpl; try done. by destruct n. Qed.

Lemma overwrite_app s c old :
  overwrite (String.length s) c (overwrite 0 s old) = overwrite 0 (s +:+ c) old.
Proof.
  unfold overwrite. simpl. rewrite take_str_app, length_app_s.
  rewrite <- (drop_drop_str (String.length c) (String.length s) (s +:+ _)), drop_str_app, drop_drop_str.
  by rewrite app_assoc_s.
Qed.

(** The state while device [dev] is being written: files and the ESP as they
    were, the other partitions untouched. *)
Definition writing (fs esp dv : gmap string string) (dev : string) (d : Disk) : Prop :=
  d_fs d = fs ∧ d_esp d = esp ∧ ∀ x, x ≠ dev → d_dev d !! x = dv !! x.
#[export] Instance writing_timeless fs esp dv dev : Timeless (writing fs esp dv dev).
Proof. bytewise. Qed.
#[export] Instance dev_timeless dev s : Timeless (λ d, d_dev d !! dev = s).
Proof. bytewise. Qed.

Lemma writing_write fs esp dv dev off s d :
  writing fs esp dv dev d → writing fs esp dv dev (mark (Dev dev) (set_dev (alter (overwrite off s) dev) d)).
Proof. intros (? & ? & Hx). split_and!; [done..|]. intros x Hne. simpl. rewrite lookup_alter_ne by done. by apply Hx. Qed.

Lemma ctx_keeps I ce : keeps I (ctx_check ce).
Proof. intros d Hd. unfold ctx_check. by destruct (ce _). Qed.

Lemma write_chunks_spec F ce fs esp dv dev old s chunks :
  honest F →
  ensures (λ d, writing fs esp dv dev d ∧ d_dev d !! dev = Some (overwrite 0 s old))
    (write_chunks F ce dev (String.length s) chunks)
    (λ r d, writing fs esp dv dev d ∧ (r = Ok tt → d_dev d !! dev = Some (overwrite 0 (s +:+ concat_chunks chunks) old)))
    (writing fs esp dv dev).
Proof.
  intros HF. revert s. induction chunks as [|c cs IH]; intros s; cbn [write_chunks].
  all: eapply ensures_bindR; [apply ensures_keeps; [apply ctx_keeps|by intros d [? _]]| |naive_solver]; intros [].
  all: eapply ensures_bindR;
    [apply ensures_keeps; [apply keeps_command, _|by intros d [? _]]| |naive_solver]; intros [].
  - intros d [Hw Hd]. simpl. by rewrite app_nil_s.
  - eapply ensures_bindR with (R := λ r d, writing fs esp dv dev d ∧
      (r = Ok tt → d_dev d !! dev = Some (overwrite 0 (s +:+ c) old))); [| |naive_solver].
    + apply sys_write_ensures.
      * intros d [Hw Hd]. split; [by apply (writing_write _ _ _ _ _ _ (d_next d))|]. intros [].
        simpl. by rewrite lookup_alter_eq, Hd; simpl; rewrite overwrite_app.
      * intros d n e [Hw _]. split; [by apply (writing_write _ _ _ _ _ _ (d_next d))|done].
      * intros d n [Hw _]. by apply (writing_write _ _ _ _ _ _ (d_next d)).
      * intros d x HC. by apply HF in HC.
    + intros []. rewrite <- length_app_s. simpl. rewrite <- app_assoc_s.
      eapply ensures_pre; [apply IH|]. naive_solver.
Qed.

Lemma defaultWriteSlot_spec F ce split fs esp dv src dev :
  honest F → (∀ s, concat_chunks (split s) = s) →
  ensures (λ d, d_fs d = fs ∧ d_esp d = esp ∧ d_dev d = dv) (defaultWriteSlot F ce split src dev)
    (λ r d, writing fs esp dv dev d ∧ (r = Ok tt → ∃ img old, fs !! src = Some img ∧ dv !! dev = Some old ∧
       d_dev d !! dev = Some (overwrite 0 img old)))
    (writing fs esp dv dev).
Proof.
  intros HF Hs. unfold defaultWriteSlot.
  set (P := λ d, d_fs d = fs ∧ d_esp d = esp ∧ d_dev d = dv).
  assert (Timeless P) by bytewise.
  assert (∀ d, P d → writing fs esp dv dev d) as HPw by (intros d (? & ? & Hd); unfold writing; by rewrite Hd).
  apply (ensures_bindR _ _ _ (λ r d, P d ∧ ∀ img, r = Ok img → fs !! src = Some img)).
  { apply sys_ensures; simpl.
    - intros d (Hf & ? & ?). rewrite Hf. split; [done|]. intros img. by destruct (fs !! src); intros [= ->].
    - done.
    - intros d Hd. by apply HPw. }
  2: { intros e d [Hd _]. split; [by apply HPw|done]. }
  intros img. eapply ensures_pre; [|intros d [Hd Hi]; exact (conj Hd (Hi img eq_refl))].
  apply ensures_pure. intros Himg.
  eapply ensures_bindR; [apply ensures_keeps; [by apply keeps_command|exact HPw]| |];
    [|intros e d Hd; split; [by apply HPw|done]]. intros [].
  apply (ensures_bindR _ _ _ (λ r d, P d ∧ (r = Ok tt → ∃ old, dv !! dev = Some old))).
  { apply sys_ensures; simpl.
    - intros d (? & ? & Hd). rewrite Hd. split; [done|]. destruct (dv !! dev); naive_solver.
    - done.
    - intros d Hd. by apply HPw. }
  2: { intros e d [Hd _]. split; [by apply HPw|done]. }
  intros []. eapply ensures_pre; [|intros d [Hd Hi]; exact (conj Hd (Hi eq_refl))].
  apply ensures_pure. intros [old Hold].
  apply (ensures_bindR _ _ _ (λ r d, writing fs esp dv dev d ∧
    (r = Ok tt → d_dev d !! dev = Some (overwrite 0 (concat_chunks (split img)) old)))); [| |naive_solver].
  { eapply ensures_pre; [apply (write_chunks_spec F ce fs esp dv dev old EmptyString); done|].
    intros d Hd. split; [by apply HPw|]. destruct Hd as (_ & _ & ->). rewrite Hold.
    unfold overwrite. by rewrite <- (take_drop_str 0 old) at 1. }
  intros []. eapply ensures_conseq;
    [apply (keeps_fsync _ (λ d, writing fs esp dv dev d ∧ d_dev d !! dev = Some (overwrite 0 img old))); apply _| | |].
  - intros d [? Hd]. split; [done|]. rewrite Hd, Hs by done. done.
  - naive_solver.
  - by intros d [? _].
Qed.

(** ** Install *)

Lemma ensures_step {A B} P pre post (m : IO (result A)) (f : A → IO (result B)) R Q C :
  ensures P m R C → (∀ a, ensures (R (Ok a)) (f a) Q C) → (∀ e e' d, R (Fail e) d → Q (Fail e') d) →
  ensures P (bindR (wrapE pre post m) f) Q C.
Proof.
  intros Hm Hf Hq. apply (ensures_bindR _ _ _ (λ r d, match r with Ok a => R (Ok a) d | Fail e => Q (Fail e) d end)).
  - eapply ensures_wrapE; [exact Hm|done|]. simpl. eauto.
  - done.
  - done.
Qed.

(** Nothing the update works on has changed since [d0]. *)
Definition same (d0 d : Disk) : Prop :=
  d_fs d = d_fs d0 ∧ d_esp d = d_esp d0 ∧ d_dev d = d_dev d0 ∧ d_block d = d_block d0.
#[export] Instance same_timeless d0 : Timeless (same d0).
Proof. bytewise. Qed.

(** The partition [defaultResolveDevice] finds for a slot. *)
Definition target_dev (d : Disk) (letter : string) : option string :=
  cmdline ← d_fs d !! "/proc/cmdline";
  let '(active, inactive) := parseSquashfsSlots (d_block d) in
  Some (if String.eqb letter (slotLetter (bootedSlotFromCmdline cmdline)) then active else inactive).

Lemma resolve_spec F d0 letter (C : Disk → Prop) : (∀ d, same d0 d → C d) →
  ensures (same d0) (defaultResolveDevice F letter)
    (λ r d, same d0 d ∧ ∀ dev, r = Ok dev → target_dev d0 letter = Some dev) C.
Proof.
  intros HC. unfold defaultResolveDevice.
  apply (ensures_bindR _ _ _ (λ r d, same d0 d ∧ ∀ c, r = Ok c → d_fs d0 !! "/proc/cmdline" = Some c));
    [| |naive_solver].
  { apply sys_ensures; [|done|intros d Hd; by apply HC].
    intros d (Hf & Hs). simpl. rewrite Hf. split; [done|]. intros c. by destruct (d_fs d0 !! _); intros [= ->]. }
  intros c. eapply ensures_pre; [|intros d [Hd Hi]; exact (conj Hd (Hi c eq_refl))].
  apply ensures_pure. intros Hc. case_match; [by intros d|].
  apply (ensures_step _ _ _ _ _ (λ r d, same d0 d ∧ ∀ i, r = Ok i → i = d_block d0)); [| |naive_solver].
  { apply sys_ensures; [|done|intros d Hd; by apply HC].
    intros d Hd. simpl. split; [done|]. destruct Hd as (_ & _ & _ & ->). by intros i [= <-]. }
  intros i. eapply ensures_pre; [|intros d [Hd Hi]; exact (conj Hd (Hi i eq_refl))].
  apply ensures_pure. intros ->. unfold target_dev. rewrite Hc. simpl.
  destruct (parseSquashfsSlots (d_block d0)) as [active inactive]. case_match; [by intros d|].
  intros d Hd. simpl. split; [done|]. by intros dev [= <-].
Qed.

(** Slot [letter] holds all of the verified artifact at [lp]. *)
Definition installed (V : gmap string string → string → option error) (d0 : Disk) (letter lp : string) (d : Disk) : Prop :=
  ∃ dev img old, target_dev d0 letter = Some dev ∧ V (d_fs d0) lp = None ∧
    d_fs d0 !! lp = Some img ∧ d_dev d0 !! dev = Some old ∧ d_dev d !! dev = Some (overwrite 0 img old).

(** The states [Install] can stop in. *)
Definition safe V (d0 : Disk) (letter lp : string) (d : Disk) : Prop :=
  d_dev d = d_dev d0 ∨
  ∃ dev, target_dev d0 letter = Some dev ∧ (∀ x, x ≠ dev → d_dev d !! x = d_dev d0 !! x) ∧
    (deactivated d letter ∨ installed V d0 letter lp d).

(** The environment a completed install leaves. *)
Definition armed (d0 : Disk) (letter : string) (d : Disk) : Prop :=
  is_letter letter ∧ ∃ kv, env_of d0 = Some kv ∧ env_of d = Some (activated_env letter (deactivated_env letter kv)).
#[export] Instance installed_timeless V d0 letter lp : Timeless (installed V d0 letter lp).
Proof. bytewise. Qed.
#[export] Instance armed_timeless d0 letter : Timeless (armed d0 letter).
Proof. bytewise. Qed.

(** Up to the end of the slot write. *)
Lemma write_phase F ce split V d0 letter lp dev :
  honest F → (∀ s, concat_chunks (split s) = s) → is_letter letter →
  V (d_fs d0) lp = None → target_dev d0 letter = Some dev →
  ensures (λ d, files (d_fs d0) (d_dev d0) d ∧ rewrote (deactivated_env letter) (env_of d0) d)
    (defaultWriteSlot F ce split lp dev)
    (λ r d, (∀ x, x ≠ dev → d_dev d !! x = d_dev d0 !! x) ∧ rewrote (deactivated_env letter) (env_of d0) d ∧
       (r = Ok tt → installed V d0 letter lp d))
    (safe V d0 letter lp).
Proof.
  intros HF Hs Hl HV Ht d [[Hf Hd] Hr].
  pose proof (defaultWriteSlot_spec F ce split (d_fs d0) (d_esp d) (d_dev d0) lp dev HF Hs d) as H.
  specialize (H (conj Hf (conj eq_refl Hd))).
  assert (∀ d', d_esp d' = d_esp d → rewrote (deactivated_env letter) (env_of d0) d') as Hrw.
  { intros d' He. destruct Hr as (kv & ? & Hkv). exists kv. split; [done|]. unfold env_of. by rewrite He. }
  destruct (defaultWriteSlot F ce split lp dev d) as [[r|] d'].
  - destruct H as [(_ & He & Hx) Hok]. split_and!; [done|by apply Hrw|].
    intros ->. destruct (Hok eq_refl) as (img & old & ? & ? & ?). by exists dev, img, old.
  - destruct H as (_ & He & Hx). right. exists dev. split_and!; [done..|]. left.
    destruct (Hrw d' He) as (kv & _ & Hkv). eexists. split; [exact Hkv|]. by apply deactivated_env_flag.
Qed.

(** Arming the written slot. *)
Lemma arm_phase F o V d0 letter lp dev :
  honest F → o_grubenvPath o = EmptyString → is_letter letter → target_dev d0 letter = Some dev →
  ensures (λ d, (∀ x, x ≠ dev → d_dev d !! x = d_dev d0 !! x) ∧
      rewrote (deactivated_env letter) (env_of d0) d ∧ installed V d0 letter lp d)
    (activateSlot F o letter)
    (λ r d, safe V d0 letter lp d ∧ installed V d0 letter lp d ∧ (r = Ok tt → armed d0 letter d))
    (safe V d0 letter lp).
Proof.
  intros HF Ho Hl Ht d (Hx & Hr & Hi).
  pose proof (rmw_spec F o (files (d_fs d) (d_dev d)) (activated_env letter) (env_of d) HF Ho
    (λ kv, activated_env_wf letter kv Hl) d (conj (conj eq_refl eq_refl) eq_refl)) as H.
  change (withGrubenv F o _) with (activateSlot F o letter) in H.
  assert (∀ d', d_dev d' = d_dev d → safe V d0 letter lp d' ∧ installed V d0 letter lp d') as Hsafe.
  { intros d' Hd'. assert (installed V d0 letter lp d') by (unfold installed in *; by rewrite Hd').
    split; [|done]. right. exists dev. rewrite Hd'. auto. }
  destruct (activateSlot F o letter d) as [[r|] d'].
  - destruct H as [[_ Hd'] Hok]. destruct (Hsafe d' Hd'). split_and!; [done..|].
    intros ->. destruct (Hok eq_refl) as (kv' & Hkv' & Henv). destruct Hr as (kv & Hkv & Hkv2).
    split; [done|]. exists kv. split; [done|]. rewrite Henv. congruence.
  - destruct H as [_ Hd']. by apply Hsafe.
Qed.

Lemma Install_spec F getwd V ce split o d0 bundleID lp0 slot :
  honest F → o_grubenvPath o = EmptyString → (∀ s, concat_chunks (split s) = s) →
  let lp := match resolveBundlePath getwd (o_stateDir o) bundleID lp0 ".rootfs" with Ok p => p | Fail _ => lp0 end in
  ensures (same d0) (Install F getwd V ce o split bundleID lp0 slot)
    (λ r d, safe V d0 (slotLetter slot) lp d ∧
       ∀ v, r = Ok v → installed V d0 (slotLetter slot) lp d ∧ armed d0 (slotLetter slot) d)
    (safe V d0 (slotLetter slot) lp).
Proof.
  intros HF Ho Hs lp. unfold Install, lp. clear lp.
  assert (∀ lp d, same d0 d → safe V d0 (slotLetter slot) lp d) as Hsame by (intros lp d (_ & _ & ? & _); by left).
  destruct (resolveBundlePath _ _ _ _ _) as [lp|e]; [|intros d Hd; split; [by apply Hsame|done]].
  case_match eqn:Hl; [intros d Hd; split; [by apply Hsame|done]|].
  apply String.eqb_neq, slotLetter_letter in Hl. set (letter := slotLetter slot) in *.
  apply (ensures_step _ _ _ _ _ (λ r d, same d0 d ∧ (r = Ok tt → V (d_fs d0) lp = None)));
    [| |by intros e e' d [? _]; split; [apply Hsame|]].
  { apply sys_ensures; [|done|intros d Hd; by apply Hsame].
    intros d Hd. simpl. split; [done|]. destruct Hd as [-> _]. by destruct (V _ lp). }
  intros []. eapply ensures_pre; [|intros d [Hd Hi]; exact (conj Hd (Hi eq_refl))]. apply ensures_pure. intros HV.
  eapply ensures_step; [apply resolve_spec, Hsame| |by intros e e' d [? _]; split; [apply Hsame|]].
  intros dev. eapply ensures_pre; [|intros d [Hd Hi]; exact (conj Hd (Hi dev eq_refl))]. apply ensures_pure. intros Ht.
  eapply ensures_step.
  { eapply ensures_conseq;
      [apply (rmw_spec F o (files (d_fs d0) (d_dev d0)) (deactivated_env letter) (env_of d0) HF Ho (deactivated_env_wf letter))| | |].
    - intros d (Hf & He & Hd & _). split; [done|]. unfold env_of. by rewrite He.
    - intros r d H. exact H.
    - intros d [_ ?]. by left. }
  2: { intros e e' d [[_ ?] _]. split; [by left|done]. }
  intros []. eapply ensures_step.
  { eapply ensures_pre; [by apply (write_phase F ce split V d0 letter lp dev)|]. intros d [Hd Hr]. auto. }
  2: { intros e e' d (Hx & (kv & _ & Hkv) & _). split; [|done]. right. exists dev. split_and!; [done..|]. left.
       eexists. split; [exact Hkv|]. by apply deactivated_env_flag. }
  intros []. eapply ensures_step.
  { eapply ensures_pre; [by apply (arm_phase F o V d0 letter lp dev)|]. intros d (? & ? & Hi). auto. }
  2: { intros e e' d (? & _). done. }
  intros []. set (I := λ d, safe V d0 letter lp d ∧ installed V d0 letter lp d ∧ armed d0 letter d).
  assert (Timeless I) by bytewise.
  apply (ensures_pre _ I); [|intros d (? & ? & Ha); unfold I; auto].
  eapply ensures_bind; [apply (ensures_keeps I); [unfold installedVersion; keep|by intros d [? _]]|].
  intros v d (? & ? & ?). simpl. auto.
Qed.

(** C12. An update of the firewall survives every way it can be cut short.
    For every fault and power loss that is not a silently corrupted write:
    only the target's partition is ever written; wherever [Install] stops, if
    GRUB would boot the target slot then that partition either is as it was or
    holds the whole artifact, whose signature was verified before the first
    byte was written; and a nil error means the artifact is in place and the
    counter trials it first, with the other slot's flags as they were.
    Of GRUB (its grub.cfg is not part of the repository) only this is used:
    it does not boot a slot whose OK flag is 0. *)
Theorem install_crash_safe F getwd V ce split o d bundleID lp0 slot (grub : env → option string) :
  honest F → o_grubenvPath o = EmptyString → (∀ s, concat_chunks (split s) = s) →
  (∀ kv X, grub kv = Some X → kv !! (X +:+ "_OK") ≠ Some "0") →
  let letter := slotLetter slot in
  let lp := match resolveBundlePath getwd (o_stateDir o) bundleID lp0 ".rootfs" with Ok p => p | Fail _ => lp0 end in
  let '(r, d') := Install F getwd V ce o split bundleID lp0 slot d in
  (∀ x, target_dev d letter ≠ Some x → d_dev d' !! x = d_dev d !! x) ∧
  (∀ kv, env_of d' = Some kv → grub kv = Some letter → d_dev d' = d_dev d ∨ installed V d letter lp d') ∧
  (∀ v, r = Some (Ok v) → installed V d letter lp d' ∧
     ∃ kv kv', env_of d = Some kv ∧ env_of d' = Some kv' ∧
       decodeAB kv' = mkAB [letter; if String.eqb letter "A" then "B" else "A"]
         (<[letter := true]> (ab_ok (decodeAB kv))) (<[letter := false]> (ab_try (decodeAB kv)))).
Proof.
  intros HF Ho Hs Hg letter lp.
  pose proof (Install_spec F getwd V ce split o d bundleID lp0 slot HF Ho Hs d) as H. fold lp letter in H.
  specialize (H ltac:(done)).
  assert (∀ d', safe V d letter lp d' →
    (∀ x, target_dev d letter ≠ Some x → d_dev d' !! x = d_dev d !! x) ∧
    (∀ kv, env_of d' = Some kv → grub kv = Some letter → d_dev d' = d_dev d ∨ installed V d letter lp d')) as Hsafe.
  { intros d' [Hd|(dev & Ht & Hx & Hc)]; [by rewrite Hd; split; auto|]. split.
    - intros x Hne. apply Hx. congruence.
    - intros kv Hkv Hgr. destruct Hc as [(kv' & Hkv' & H0)|?]; [|by right].
      exfalso. apply (Hg kv letter Hgr). congruence. }
  destruct (Install _ _ _ _ _ _ _ _ _ d) as [[r|] d'].
  - destruct H as [H1 H2]. destruct (Hsafe d' H1). split_and!; [done..|]. intros v [= ->].
    destruct (H2 v eq_refl) as [Hi (Hl & kv & Hkv & Hkv')]. split; [done|]. do 2 eexists. split_and!; [done..|].
    rewrite decode_activated, decode_deactivated by done. simpl. by rewrite !insert_insert_eq.
  - destruct (Hsafe d' H). done.
Qed.

(** A firewall booted from slot A with a staged artifact. *)
Definition block_line (dev fstype rest : string) : string :=
  dev +:+ ": TYPE=" +:+ quote fstype +:+ " " +:+ rest +:+ newline.
Definition grub_block : string :=
  match encodeGrubenv env_flashed 256 with Ok b => b | Fail _ => EmptyString end.
Definition bundle_file : string := "/var/lib/rasputin/bundles/b1.rootfs".
Definition disk0 : Disk :=
  mkDisk 0 (<["/proc/cmdline" := "root=PARTLABEL=rootfs-0"]> {[ bundle_file := "NEW IMAGE" ]})
    {[ grub_file := grub_block ]}
    (<["/dev/sda2" := "slot A as flashed"]> {[ "/dev/sda3" := "slot B as flashed" ]})
    (block_line "/dev/sda1" "vfat" ("LABEL=" +:+ quote "RASPUTINEFI")
      +:+ block_line "/dev/sda2" "squashfs" ("MOUNT=" +:+ quote "/rom")
      +:+ block_line "/dev/sda3" "squashfs" EmptyString) [] [] [].
Definition no_faults : nat → Fault := λ _, NoFault.
Definition accept : gmap string string → string → option error := λ _ _, None.
Definition no_ctx : nat → option error := λ _, None.
Definition one_read : string → list string := λ s, [s].
Definition backend0 : OpenWrtABBackend :=
  mkBackend "/var/lib/rasputin" EmptyString "/proc/cmdline" "/etc/rasputin/image-version".
Definition grub0 (kv : env) : option string :=
  if is_one kv "A_OK" then Some "A" else if is_one kv "B_OK" then Some "B" else None.
Definition after_install : option (result string) * Disk :=
  Install no_faults (Ok "/") accept no_ctx backend0 one_read "b1" EmptyString "b" disk0.

Lemma install_crash_safe_witness :
  fst after_install = Some (Ok EmptyString) ∧ installed accept disk0 "B" bundle_file (snd after_install).
Proof.
  assert (fst after_install = Some (Ok EmptyString)) as Hf by (vm_compute; reflexivity).
  split; [exact Hf|].
  pose proof (install_crash_safe no_faults (Ok "/") accept no_ctx one_read backend0 disk0 "b1" EmptyString "b" grub0) as H.
  fold after_install in H. rewrite (surjective_pairing after_install) in H.
  destruct H as (_ & _ & H).
  - intros n s. discriminate.
  - reflexivity.
  - intros s. apply app_nil_s.
  - intros kv X. unfold grub0, is_one, get_str. destruct (kv !! "A_OK") as [a|] eqn:Ea; simpl.
    + destruct (String.eqb_spec a "1") as [->|]; [intros [= <-]; simpl; congruence|].
      destruct (kv !! "B_OK") as [b|] eqn:Eb; simpl; [|discriminate].
      destruct (String.eqb_spec b "1") as [->|]; [intros [= <-]; simpl; congruence|discriminate].
    + destruct (kv !! "B_OK") as [b|] eqn:Eb; simpl; [|discriminate].
      destruct (String.eqb_spec b "1") as [->|]; [intros [= <-]; simpl; congruence|discriminate].
  - exact (proj1 (H EmptyString Hf)).
Defined.

(** ** Marking the running slot *)

Definition marked_env (good : bool) (letter : string) (kv : env) : env :=
  encodeAB (if good then delete (letter +:+ "_REPAIR") kv else kv) (set_flags good false letter (decodeAB kv)).

Lemma marked_env_wf good letter kv : wf_env kv → wf_env (marked_env good letter kv).
Proof. intros. apply encodeAB_wf; [apply decodeAB_wf|]. destruct good; auto with grubenv. Qed.

Lemma repair_key letter : is_letter letter → letter +:+ "_REPAIR" ∉ ab_keys.
Proof. intros [->| ->]; apply (bool_decide_unpack _); vm_compute; exact I. Qed.

Lemma markRunning_spec F o good d : honest F → o_grubenvPath o = EmptyString →
  ensures (λ d', files (d_fs d) (d_dev d) d' ∧ env_of d' = env_of d) (markRunning F o good)
    (λ r d', files (d_fs d) (d_dev d) d' ∧ (r = Ok tt → ∃ cmdline,
       let letter := slotLetter (bootedSlotFromCmdline cmdline) in
       d_fs d !! o_procCmdline o = Some cmdline ∧ is_letter letter ∧
       rewrote (marked_env good letter) (env_of d) d'))
    (files (d_fs d) (d_dev d)).
Proof.
  intros HF Ho. unfold markRunning. set (fin := files (d_fs d) (d_dev d)).
  apply (ensures_bindR _ _ _ (λ r d', (fin d' ∧ env_of d' = env_of d) ∧ ∀ c, r = Ok c → d_fs d !! o_procCmdline o = Some c)).
  - apply sys_ensures; [|done|by intros d' [? _]]. intros d' [[Hf ?] ?]. simpl. rewrite Hf.
    split; [done|]. intros c. by destruct (d_fs d !! _); intros [= ->].
  - intros c. eapply ensures_pre; [|intros d' [Hd Hi]; exact (conj Hd (Hi c eq_refl))].
    apply ensures_pure. intros Hc. case_match eqn:Hl; [intros d' [? _]; by split|].
    apply String.eqb_neq, slotLetter_letter in Hl. set (letter := slotLetter _) in *.
    eapply ensures_conseq; [apply (rmw_spec F o (files (d_fs d) (d_dev d)) (marked_env good letter) (env_of d) HF Ho
      (marked_env_wf good letter))|done| |done].
    intros r d' [Hd Hr]. split; [done|]. intros ->. exists c. auto.
  - intros e d' [[? _] _]. by split.
Qed.

(** Marking the running slot (good on a healthy boot, bad after a failed
    health check) changes exactly that slot's flags: on success the order, the
    other slot's flags and every other key are as they were, except that a
    good mark drops the slot's own repair flag; and whatever happens, no
    partition and no file outside the ESP is touched. *)
Theorem mark_running_exact F o good d :
  honest F → o_grubenvPath o = EmptyString →
  let '(r, d') := markRunning F o good d in
  d_fs d' = d_fs d ∧ d_dev d' = d_dev d ∧
  (r = Some (Ok tt) → ∃ cmdline kv kv', let letter := slotLetter (bootedSlotFromCmdline cmdline) in
     d_fs d !! o_procCmdline o = Some cmdline ∧ is_letter letter ∧
     env_of d = Some kv ∧ env_of d' = Some kv' ∧
     decodeAB kv' = set_flags good false letter (decodeAB kv) ∧
     ∀ k, k ∉ ab_keys → kv' !! k = if good && String.eqb k (letter +:+ "_REPAIR") then None else kv !! k).
Proof.
  intros HF Ho. pose proof (markRunning_spec F o good d HF Ho) as H.
  specialize (H d (conj (conj eq_refl eq_refl) eq_refl)).
  destruct (markRunning F o good d) as [[r|] d']; [|by destruct H as [? ?]].
  destruct H as [[Hf Hd] Hr]. split_and!; [done..|]. intros [= ->].
  destruct (Hr eq_refl) as (c & Hc & Hl & kv & Hkv & Hkv'). do 3 eexists. split_and!; [done..| |].
  - apply decode_encodeAB, set_flags_wf; [done|apply decodeAB_wf].
  - intros k Hk. unfold marked_env. rewrite encodeAB_other by done.
    destruct good; simpl; [|done]. destruct (String.eqb_spec k (slotLetter (bootedSlotFromCmdline c) +:+ "_REPAIR")) as [->|].
    + by rewrite lookup_delete_eq.
    + by rewrite lookup_delete_ne.
Qed.

Lemma mark_running_exact_witness :
  fst (markRunning no_faults backend0 true disk0) = Some (Ok tt) ∧
  d_dev (snd (markRunning no_faults backend0 true disk0)) = d_dev disk0.
Proof.
  split; [vm_compute; reflexivity|].
  pose proof (mark_running_exact no_faults backend0 true disk0) as H.
  destruct (markRunning no_faults backend0 true disk0) as [r d'].
  destruct H as (_ & H & _); [intros n s; discriminate|reflexivity|exact H].
Defined.
