(* ===== verification/OpenWrtABDownload.v ===== *)
(** * What a download can leave in the bundle store

    [Download] of openwrt_ab.go: the order of its gates, that no bytes with
    another digest than the stated one ever reach the artifact's path, and what
    is left when the machine goes down: the temp file is renamed into place
    without a sync, so a power cut can still tear an artifact that was
    delivered.  [Install] checks the signature over the bytes it finds before
    it writes anything (OpenWrtABFacts). *)
From Stdlib Require Import Ascii String.
From S2P Require Import Prelude GoStrings GoPath Grubenv Disk OpenWrtAB OpenWrtABFacts.
#[local] Arguments String.append : simpl nomatch.
Open Scope io_scope.

Section Download.
Context (F : nat → Fault) (http : string → HttpReply) (sha256_hex : string → string).
Context (tmp dest expectedSHA : string) (fs0 : gmap string string) (dirty0 : list Place).
Context (Hhonest : honest F) (Htmp : tmp ≠ dest) (Hsig : tmp ≠ SigPathFor dest).

(** What is at the artifact's path was there before, or has the stated digest;
    and it has unsynced bytes only if it had, or was put there just now. *)
Definition clean_bytes (d : Disk) : Prop :=
  ∀ s, d_fs d !! dest = Some s → fs0 !! dest = Some s ∨ sha256_hex s = expectedSHA.
Definition clean_marks (d : Disk) : Prop :=
  File (Fs dest) ∈ d_dirty d → File (Fs dest) ∈ dirty0 ∨ ∃ body, d_fs d !! dest = Some body ∧ sha256_hex body = expectedSHA.
Definition clean_store (d : Disk) : Prop := clean_bytes d ∧ clean_marks d.
#[export] Instance clean_store_timeless : Crash.Timeless clean_store.
Proof. by intros d. Qed.

(** A signature has been stored beside the artifact. *)
Definition signed (d : Disk) : Prop := ∃ der, der ≠ EmptyString ∧ d_fs d !! SigPathFor dest = Some der.
#[export] Instance signed_timeless : Timeless signed.
Proof. bytewise. Qed.

Lemma sig_other : SigPathFor dest ≠ dest.
Proof.
  unfold SigPathFor. intros H. apply (f_equal String.length) in H. rewrite length_app_s in H. simpl in H. lia.
Qed.

Lemma clean_remove p : keeps clean_store (os_Remove F (Fs p)).
Proof.
  apply keeps_sys; [apply _|]. intros d [Hb Hm]. simpl. destruct (d_fs d !! p) as [x|]; [|by split]. split.
  - intros s. simpl. intros [_ H]%lookup_delete_Some. by apply Hb.
  - intros [Hp Hin]%list_elem_of_filter. destruct (Hm Hin) as [|(body & Hl & Hs)]; [by left|right]. exists body.
    split; [|done]. simpl. rewrite lookup_delete_ne; [done|]. by intros ->.
Qed.

Lemma prune_each_clean o keep names : keeps clean_store (prune_each F o keep names).
Proof.
  induction names as [|n ns IH]; cbn [prune_each]; [apply keeps_ret|].
  case_match; [done|]. case_match; [|done]. apply keeps_bind; [apply clean_remove|done].
Qed.

Lemma pruneBundles_clean o id : keeps clean_store (pruneBundles F o id).
Proof.
  apply keeps_bind; [by apply keeps_sys; [apply _|]|]. intros [names|e]; [apply prune_each_clean|apply keeps_ret].
Qed.

(** Writing to another file. *)
Lemma clean_store_other p f d : p ≠ dest → (∀ q, q ≠ p → f (d_fs d) !! q = d_fs d !! q) →
  clean_store d → clean_store (mark (File (Fs p)) (set_fs f d)).
Proof.
  intros Hp Hf [Hb Hm]. assert (f (d_fs d) !! dest = d_fs d !! dest) as Hd by (by apply Hf). split.
  - intros s. simpl. rewrite Hd. apply Hb.
  - unfold clean_marks. simpl. rewrite Hd. intros [[= E]|Hin]%elem_of_cons; [by destruct Hp|by apply Hm].
Qed.
Lemma clean_store_ne p s d : p ≠ dest → clean_store d → clean_store (mark (File (Fs p)) (set_fs <[p := s]> d)).
Proof. intros Hp. apply clean_store_other; [done|]. intros q Hq. by rewrite lookup_insert_ne. Qed.

Lemma write_sig_spec der : der ≠ EmptyString →
  ensures clean_store (os_WriteFile F (Fs (SigPathFor dest)) der)
    (λ r d, clean_store d ∧ (r = Ok tt → signed d)) clean_store.
Proof.
  intros Hne. pose proof sig_other as Ho. unfold os_WriteFile.
  apply (ensures_bindR _ _ _ (λ _, clean_store)); [|intros []|by intros].
  - apply keeps_sys; [apply _|]. intros d Hd. by apply clean_store_ne.
  - apply sys_write_ensures.
    + intros d Hd. split; [by apply (clean_store_ne _ _ (d_next d))|]. intros _. exists der.
      split; [done|]. simpl. by rewrite lookup_insert_eq.
    + intros d n e Hd. split; [by apply (clean_store_ne _ _ (d_next d))|done].
    + intros d n Hd. by apply (clean_store_ne _ _ (d_next d)).
    + intros d s HC. by apply Hhonest in HC.
Qed.

Lemma downloadSignature_spec sigURL :
  ensures clean_store (downloadSignature F http sigURL (SigPathFor dest))
    (λ r d, clean_store d ∧ (r = Ok tt → signed d)) clean_store.
Proof.
  assert (∀ e, ensures clean_store (ret (Fail e)) (λ (r : result unit) d, clean_store d ∧ (r = Ok tt → signed d)) clean_store)
    as Hfail by (by intros e d).
  unfold downloadSignature. destruct (http sigURL) as [e|e|status chunks broken]; [apply Hfail..|].
  do 4 (case_match; [apply Hfail|]). case_match eqn:He; [apply Hfail|].
  apply String.eqb_neq in He.
  eapply ensures_wrapE; [by apply write_sig_spec|by intros [] d|by intros e e' d [? _]].
Qed.

(** The temp file holds what has been read so far. *)
Definition copied (seen : string) (d : Disk) : Prop := clean_store d ∧ signed d ∧ d_fs d !! tmp = Some seen.
#[export] Instance copied_timeless seen : Crash.Timeless (copied seen).
Proof. by intros d. Qed.

Definition sound (d : Disk) : Prop := clean_store d ∧ signed d.
#[export] Instance sound_timeless : Crash.Timeless sound.
Proof. by intros d. Qed.

Lemma sound_tmp f d : sound d → sound (mark (File (Fs tmp)) (set_fs (alter f tmp) d)).
Proof.
  intros [Hc (der & Hne & Hs)]. split.
  - apply clean_store_other; [done| |done]. intros q Hq. by rewrite lookup_alter_ne.
  - exists der. split; [done|]. simpl. by rewrite lookup_alter_ne.
Qed.

Lemma copy_body_spec chunks broken seen :
  ensures (copied seen) (copy_body F tmp chunks broken seen)
    (λ r d, sound d ∧ ∀ body, r = Ok body → copied body d) sound.
Proof.
  revert seen. induction chunks as [|c cs IH]; intros seen; cbn [copy_body].
  { intros d Hd. simpl. split; [split; apply Hd|]. destruct broken; [done|]. by intros b [= <-]. }
  case_match; [apply IH|].
  apply (ensures_bindR _ _ _ (λ r d, sound d ∧ (r = Ok tt → copied (seen +:+ c) d))); [|intros []|naive_solver].
  - apply sys_write_ensures.
    + intros d (Hc & Hs & Ht). destruct (sound_tmp (λ old, old +:+ c) (d_next d) (conj Hc Hs)) as [??].
      split; [done|]. intros _. split_and!; [done..|]. simpl. by rewrite lookup_alter_eq, Ht.
    + intros d n e (Hc & Hs & _). split; [by apply (sound_tmp _ (d_next d))|done].
    + intros d n (Hc & Hs & _). by apply (sound_tmp _ (d_next d)).
    + intros d s HC. by apply Hhonest in HC.
  - eapply ensures_pre; [apply IH|]. intros d [_ Hd]. by apply Hd.
Qed.

(** A nil error: the artifact and its signature are in the store. *)
Definition delivered (out : DownloadOut) (d : Disk) : Prop :=
  out.2 = None → out.1.1 = dest ∧ out.1.2 = expectedSHA ∧ signed d ∧
    ∃ body, d_fs d !! dest = Some body ∧ sha256_hex body = expectedSHA.
#[export] Instance delivered_timeless out : Crash.Timeless (delivered out).
Proof. by intros d. Qed.

Lemma refuse_delivered e d : delivered (refused e) d.
Proof. done. Qed.

Lemma rename_spec body : sha256_hex body = expectedSHA →
  ensures (copied body) (os_Rename F (Fs tmp) (Fs dest))
    (λ r d, clean_store d ∧ (r = Ok tt → delivered (dest, expectedSHA, None) d)) clean_store.
Proof.
  intros Hsha. apply sys_ensures; [|by intros d e (? & _)|by intros d (? & _)].
  intros d (Hc & (der & Hne & Hs) & Ht). simpl. rewrite Ht. split.
  - split; [intros s; simpl; rewrite lookup_insert_eq; intros [= <-]; by right|].
    intros _. right. exists body. simpl. by rewrite lookup_insert_eq.
  - intros _ _. split_and!; [done..| |].
    + exists der. split; [done|]. simpl. by rewrite lookup_insert_ne, lookup_delete_ne by (done || apply not_eq_sym, sig_other).
    + exists body. simpl. by rewrite lookup_insert_eq.
Qed.

Lemma transfer_spec chunks broken :
  ensures (copied EmptyString) (transfer F sha256_hex tmp dest expectedSHA chunks broken)
    (λ out d, clean_store d ∧ delivered out d) clean_store.
Proof.
  unfold transfer.
  eapply ensures_bind; [eapply ensures_conseq; [apply copy_body_spec|done|intros r d H; exact H|by intros d [? _]]|].
  intros [body|e]; [|intros d [[? _] _]; by split].
  eapply ensures_pre; [|intros d [_ H]; exact (H body eq_refl)].
  eapply ensures_bind; [apply ensures_keeps; [by apply (keeps_sys F (copied body) (λ d, (Ok tt, d)))|by intros d (? & _)]|].
  intros [[]|e]; [|intros d (? & _); by split].
  case_match eqn:Hs; [intros d (? & _); by split|].
  apply negb_false_iff, String.eqb_eq in Hs.
  eapply ensures_bind; [by apply rename_spec|]. rewrite Hs.
  intros [[]|e] d [Hc Hd]; simpl; [|by split]. split; [done|]. by apply Hd.
Qed.

Lemma create_tmp_spec :
  ensures sound (os_Create F (Fs tmp)) (λ r d, clean_store d ∧ (r = Ok tt → copied EmptyString d)) clean_store.
Proof.
  apply sys_ensures; [|by intros d e [? _]|by intros d [? _]].
  intros d [Hc (der & Hne & Hs)]. simpl.
  assert (clean_store (mark (File (Fs tmp)) (set_fs <[tmp:=""]> (d_next d)))) by by apply clean_store_ne.
  split; [done|]. intros _. split_and!; [done| |].
  - exists der. split; [done|]. simpl. by rewrite lookup_insert_ne.
  - simpl. by rewrite lookup_insert_eq.
Qed.

Lemma delivered_remove out : keeps (λ d, clean_store d ∧ delivered out d) (os_Remove F (Fs tmp)).
Proof.
  apply keeps_sys; [by intros d|]. intros d [[Hb Hm] Hd]. simpl. destruct (d_fs d !! tmp) as [x|]; [|done].
  split; [split|].
  { intros s. simpl. intros [_ H]%lookup_delete_Some. by apply Hb. }
  { intros [_ Hin]%list_elem_of_filter. destruct (Hm Hin) as [|(body & Hl & Hs)]; [by left|right]. exists body. simpl. by rewrite lookup_delete_ne. }
  intros Hn. destruct (Hd Hn) as (? & ? & (der & ? & ?) & (body & ? & ?)). split_and!; [done..| |].
  - exists der. split; [done|]. simpl. by rewrite lookup_delete_ne.
  - exists body. split; [|done]. simpl. by rewrite lookup_delete_ne.
Qed.

Lemma fetch_spec url :
  ensures sound (fetch F http sha256_hex tmp url dest expectedSHA)
    (λ out d, clean_store d ∧ delivered out d) clean_store.
Proof.
  unfold fetch. destruct (http url) as [e|e|status chunks broken]; [by intros d [? _]..|].
  case_match; [by intros d [? _]|].
  eapply ensures_bind; [apply create_tmp_spec|]. intros [[]|e]; [|by intros d [? _]].
  eapply ensures_bind; [eapply ensures_pre; [apply transfer_spec|by intros d [_ Hx]; apply Hx]|]. intros out.
  eapply ensures_bind; [apply ensures_keeps; [apply delivered_remove|by intros d [? _]]|].
  by intros r d.
Qed.
End Download.

(** C14. A download never puts unchecked bytes in the bundle store.  Wherever
    [Download] stops, what lies at the artifact's path either was there before
    or has the digest the command stated; and a nil error means that digest is
    a well-formed SHA-256, the artifact at the returned path has it, and a
    non-empty signature lies beside it.  When the machine itself goes down
    then or later, the path holds what was there before, or bytes with the
    stated digest, or, only once the download had put such bytes there, whatever
    is left of them: they are not synced before the rename
    ([download_not_synced]).  The temp name is the one os.CreateTemp picked, so
    it is neither of the two. *)
Theorem download_checked F getwd http sha256_hex trust tmp o d bundleID url sigURL expectedSHA dest :
  honest F → resolveBundlePath getwd (o_stateDir o) bundleID EmptyString ".rootfs" = Ok dest →
  tmp ≠ dest → tmp ≠ SigPathFor dest →
  let '(out, d') := Download F getwd http sha256_hex trust tmp o bundleID url sigURL expectedSHA d in
  (∀ s, d_fs d' !! dest = Some s → d_fs d !! dest = Some s ∨ sha256_hex s = expectedSHA) ∧
  (∀ d'' s, File (Fs dest) ∉ d_dirty d → power_cut d' d'' → d_fs d'' !! dest = Some s →
     d_fs d !! dest = Some s ∨ sha256_hex s = expectedSHA ∨
     File (Fs dest) ∈ d_dirty d' ∧ ∃ body, d_fs d' !! dest = Some body ∧ sha256_hex body = expectedSHA) ∧
  (∀ p observed, out = Some (p, observed, None) →
     p = dest ∧ observed = expectedSHA ∧ requireExpectedSHA bundleID expectedSHA = None ∧
     (∃ der, der ≠ EmptyString ∧ d_fs d' !! SigPathFor dest = Some der) ∧
     ∃ body, d_fs d' !! dest = Some body ∧ sha256_hex body = expectedSHA).
Proof.
  intros HF Hres Ht Hs. pose (cs := clean_store sha256_hex dest expectedSHA (d_fs d) (d_dirty d)).
  assert (ensures cs (Download F getwd http sha256_hex trust tmp o bundleID url sigURL expectedSHA)
    (λ out d', cs d' ∧ (out.2 = None → requireExpectedSHA bundleID expectedSHA = None) ∧
       delivered sha256_hex dest expectedSHA out d') cs) as H.
  { unfold Download. rewrite Hres. destruct (trustedClient trust) as [[]|e]; [|by intros d'].
    eapply ensures_bind; [apply pruneBundles_clean|]. intros [].
    case_match; [by intros d'|]. destruct (requireExpectedSHA _ _); [by intros d'|].
    eapply ensures_bind; [by apply downloadSignature_spec|]. intros [[]|e]; [|by intros d' [? _]].
    eapply ensures_conseq; [by apply (fetch_spec F http sha256_hex tmp dest expectedSHA (d_fs d) (d_dirty d))| | |done].
    - intros d' [? Hsg]. split; [done|]. by apply Hsg.
    - by intros out d' [? ?]. }
  assert (∀ d', cs d' → (∀ s, d_fs d' !! dest = Some s → d_fs d !! dest = Some s ∨ sha256_hex s = expectedSHA) ∧
    ∀ d'' s, File (Fs dest) ∉ d_dirty d → power_cut d' d'' → d_fs d'' !! dest = Some s →
      d_fs d !! dest = Some s ∨ sha256_hex s = expectedSHA ∨
      File (Fs dest) ∈ d_dirty d' ∧ ∃ body, d_fs d' !! dest = Some body ∧ sha256_hex body = expectedSHA) as Hcs.
  { intros d' [Hb Hm]. split; [exact Hb|]. intros d'' s Hclean Hcut Hl.
    destruct (decide (File (Fs dest) ∈ d_dirty d')) as [Hin|Hin].
    - destruct (Hm Hin) as [|Hbody]; [done|]. auto.
    - pose proof (cut_files _ _ Hcut (Fs dest) Hin) as E. simpl in E. destruct (Hb s) as [|]; [congruence|auto..]. }
  specialize (H d ltac:(split; [intros s; by left|by left])).
  destruct (Download _ _ _ _ _ _ _ _ _ _ _ d) as [[out|] d']; [|destruct (Hcs d' H); by split_and!].
  destruct H as (Hc & Hq & Hd). destruct (Hcs d' Hc). split_and!; [done..|]. intros p obs [= ->].
  destruct (Hd eq_refl) as (? & ? & ? & ?). split_and!; auto.
Qed.

Definition http0 (url : string) : HttpReply :=
  if String.eqb url "https://cp/sig" then Reply 200 ["DER"] None else Reply 200 ["squash"; "fs"] None.
Definition sha0 (s : string) : string := repeat_char "a" 64.

Definition after_download : option DownloadOut * Disk :=
  Download no_faults (Ok "/") http0 sha0 TrustRoots "/var/lib/rasputin/bundles/download-1.tmp" backend0
    "b1" "https://cp/b1" "https://cp/sig" (sha0 EmptyString) disk0.

Lemma download_checked_witness :
  fst after_download = Some (bundle_file, sha0 EmptyString, None) ∧
  ∃ body, d_fs (snd after_download) !! bundle_file = Some body ∧ sha0 body = sha0 EmptyString.
Proof.
  assert (fst after_download = Some (bundle_file, sha0 EmptyString, None)) as Hf by (vm_compute; reflexivity).
  split; [exact Hf|].
  pose proof (download_checked no_faults (Ok "/") http0 sha0 TrustRoots "/var/lib/rasputin/bundles/download-1.tmp"
    backend0 disk0 "b1" "https://cp/b1" "https://cp/sig" (sha0 EmptyString) bundle_file) as H.
  fold after_download in H. rewrite (surjective_pairing after_download) in H.
  destruct H as (_ & _ & H); [intros n s; discriminate|vm_compute; reflexivity|vm_compute; discriminate|vm_compute; discriminate|].
  destruct (H bundle_file (sha0 EmptyString) Hf) as (_ & _ & _ & _ & Hb). exact Hb.
Defined.

Lemma tear_cut d p s : File (Fs p) ∈ d_dirty d → is_Some (d_fs d !! p) → power_cut d (set_fs <[p := s]> d).
Proof.
  intros Hd Hs. split; [|done|].
  - intros [q|q] Hq; [|done]. simpl. rewrite lookup_insert_ne; [done|]. by intros <-.
  - intros [q|q]; [|done]. simpl. destruct (decide (p = q)) as [<-|Hne]; [rewrite lookup_insert_eq; split; eauto|by rewrite lookup_insert_ne].
Qed.

(** A delivered artifact is not on the disk yet: the machine going down right
    after a nil error can leave the path with no bytes. *)
Definition sha1 (s : string) : string := repeat_char (if String.eqb s "squashfs" then "a" else "b") 64.
Definition just_delivered : option DownloadOut * Disk :=
  Download no_faults (Ok "/") http0 sha1 TrustRoots "/var/lib/rasputin/bundles/download-1.tmp" backend0
    "b1" "https://cp/b1" "https://cp/sig" (sha1 "squashfs") disk0.
Definition torn : Disk := set_fs <[bundle_file := EmptyString]> (snd just_delivered).
Example download_not_synced :
  fst just_delivered = Some (bundle_file, sha1 "squashfs", None) ∧ d_fs (snd just_delivered) !! bundle_file = Some "squashfs" ∧
  power_cut (snd just_delivered) torn ∧ d_fs torn !! bundle_file = Some EmptyString.
Proof.
  assert (File (Fs bundle_file) ∈ d_dirty (snd just_delivered)) as Hd by (apply (bool_decide_unpack _); vm_compute; exact I).
  assert (is_Some (d_fs (snd just_delivered) !! bundle_file)) as Hs by (vm_compute; eauto).
  split; [vm_compute; reflexivity|]. split; [vm_compute; reflexivity|]. split; [exact (tear_cut _ _ EmptyString Hd Hs)|vm_compute; reflexivity].
Qed.
