(* ===== verification/Slotboot.v ===== *)
(** * The firewall's one-time bootloader repair

    agent/internal/updater/slotboot.go: installing the running rootfs's
    bootloader files on the ESP, and the repair the rootfs's kernel-match guard
    asks for.  The log records are left out. *)
From Stdlib Require Import Ascii String.
From S2P Require Import Prelude GoStrings GoPath Grubenv Disk OpenWrtAB.
#[local] Arguments String.append : simpl nomatch.
Open Scope io_scope.

Definition srcEFI : string := "boot/bootx64.efi".
Definition srcGrubCfg : string := "boot/grub.cfg".
Definition legacyKmods : string := "boot/legacy-kmods".
Definition espEFI : string := "EFI/BOOT/bootx64.efi".
Definition espGrubCfg : string := "boot/grub/grub.cfg".
Definition legacyModuleOrder : list string := ["fat"; "vfat"; "nls_cp437"; "nls_iso8859-1"; "nls_utf8"].
Definition ErrESPUnavailable : error := sentinel "ErrESPUnavailable" "the ESP could not be mounted".

Inductive RepairOutcome := RepairNone | RepairRepaired | RepairFallback.

Record bootFile := mkBootFile { bf_name : string; bf_data : string }.
Definition staged (f : bootFile) : string := bf_name f +:+ ".new".

Definition hasFilesystem (list_ name : string) : bool :=
  existsb (λ l, match last (Fields l) with Some f => String.eqb f name | None => false end) (Split nl list_).

Section Slotboot.
Context (F : nat → Fault).
Context (sha256 : string → string).
Context (o : OpenWrtABBackend).
Context (procOSRelease procKernelVersion : string).

(** [writeSynced]: create or truncate, write, sync, close. *)
Definition writeSynced (p : Path) (data : string) : IO (result unit) :=
  _ <-? os_Create F p;
  w <- write_new F p data;
  match w with
  | Fail e => c <- command F; ret (join_errors (Fail e) c)
  | Ok _ =>
      s <- fsync F (File p);
      match s with
      | Fail e => c <- command F; ret (join_errors (Fail e) c)
      | Ok _ => command F
      end
  end.

(** [syncDir]: open, sync, close.  The entries it makes durable are not among
    what a power cut loses. *)
Definition syncDir : IO (result unit) :=
  _ <-? command F;
  s <- command F;
  match s with
  | Fail e => c <- command F; ret (join_errors (Fail e) c)
  | Ok _ => command F
  end.

Fixpoint removeStaged (files : list bootFile) : IO (result unit) :=
  match files with
  | [] => ret (Ok tt)
  | f :: fs =>
      r <- os_Remove F (Esp (staged f));
      let err := match r with
                 | Fail e => if errors_Is e "fs.ErrNotExist" then Ok tt
                             else Fail (wrapf ("remove " +:+ staged f +:+ ": " +:+ err_text e) e)
                 | Ok _ => Ok tt
                 end in
      rest <- removeStaged fs;
      ret (join_errors err rest)
  end.

(** The first loop of [commitBootFiles]: every staged file is read back. *)
Fixpoint check_staged (all files : list bootFile) : IO (result unit) :=
  match files with
  | [] => ret (Ok tt)
  | f :: fs =>
      r <- os_ReadFile F (Esp (staged f));
      match r with
      | Fail e =>
          c <- removeStaged all;
          ret (join_errors (Fail (wrapf ("read back " +:+ staged f +:+ ": " +:+ err_text e) e)) c)
      | Ok got =>
          if negb (String.eqb (sha256 got) (sha256 (bf_data f))) then
            c <- removeStaged all;
            ret (join_errors (Fail (errors_New ("read-back of " +:+ staged f +:+ " does not match what was written"))) c)
          else check_staged all fs
      end
  end.

(** Its second loop: the renames. *)
Fixpoint rename_staged (files : list bootFile) : IO (result unit) :=
  match files with
  | [] => ret (Ok tt)
  | f :: fs =>
      r <- os_Rename F (Esp (staged f)) (Esp (bf_name f));
      match r with
      | Fail e =>
          c <- removeStaged files;
          ret (join_errors (Fail (wrapf ("rename " +:+ staged f +:+ " to " +:+ bf_name f +:+ ": " +:+ err_text e) e)) c)
      | Ok _ =>
          s <- syncDir;
          match s with
          | Fail e => ret (Fail (wrapf ("sync the directory of " +:+ bf_name f +:+ ": " +:+ err_text e) e))
          | Ok _ => rename_staged fs
          end
      end
  end.

Definition commitBootFiles (files : list bootFile) : IO (result unit) :=
  _ <-? check_staged files files;
  rename_staged files.

(** The staging loop of [installBootloader], with [changed] as it grows. *)
Fixpoint stage (want changed : list bootFile) : IO (list bootFile * result unit) :=
  match want with
  | [] => ret (changed, Ok tt)
  | f :: fs =>
      cur <- os_ReadFile F (Esp (bf_name f));
      let replace :=
        w <- writeSynced (Esp (staged f)) (bf_data f);
        match w with
        | Fail e => ret (changed, Fail (wrapf ("write " +:+ staged f +:+ ": " +:+ err_text e) e))
        | Ok _ => stage fs (changed ++ [f])
        end in
      match cur with
      | Fail e => if errors_Is e "fs.ErrNotExist" then replace
                  else ret (changed, Fail (wrapf ("read " +:+ bf_name f +:+ ": " +:+ err_text e) e))
      | Ok c => if String.eqb c (bf_data f) then stage fs changed else replace
      end
  end.

Definition read_source (srcRoot src : string) : IO (result string) :=
  wrapE ("read /" +:+ src +:+ " from the running rootfs: ") EmptyString (os_ReadFile F (Fs (filepath_Join [srcRoot; src]))).

Definition installBootloader (srcRoot : string) : IO (result unit) :=
  efi <-? read_source srcRoot srcEFI;
  cfg <-? read_source srcRoot srcGrubCfg;
  let want := [mkBootFile espEFI efi; mkBootFile espGrubCfg cfg] in
  s <- WithESP F [] (stage want []);
  match s.2 with
  | Fail e => ret (Fail (wrapf ("stage the bootloader files: " +:+ err_text e) e))
  | Ok _ =>
      if bool_decide (s.1 = []) then ret (Ok tt)
      else
        c <- WithESP F tt (r <- commitBootFiles s.1; ret (tt, r));
        match c.2 with
        | Fail e => ret (Fail (wrapf ("install the bootloader files: " +:+ err_text e) e))
        | Ok _ => ret (Ok tt)
        end
  end.

(** ** The repair *)
Definition runningKernelID : IO (result string) :=
  r <-? wrapE "read the running kernel release: " EmptyString (os_ReadFile F (Fs procOSRelease));
  v <-? wrapE "read the running kernel version: " EmptyString (os_ReadFile F (Fs procKernelVersion));
  ret (Ok (TrimSpace r +:+ " " +:+ TrimSpace v)).

(** ModuleLoader.Load *)
Definition Load (path : string) : IO (result unit) := sys F (λ d, (Ok tt, add_mod path d)).
Fixpoint load_each (srcRoot release : string) (mods : list string) : IO (result unit) :=
  match mods with
  | [] => ret (Ok tt)
  | m :: ms => _ <-? Load (filepath_Join [srcRoot; legacyKmods; release; m +:+ ".ko"]); load_each srcRoot release ms
  end.

Definition ensureVFAT (srcRoot : string) : IO (result unit) :=
  lst <-? wrapE "read the kernel's filesystem list: " EmptyString (os_ReadFile F (Fs "/proc/filesystems"));
  if hasFilesystem lst "vfat" then ret (Ok tt)
  else
    b <-? wrapE "vfat is not available and the bundled modules' kernel id is unreadable: " EmptyString
            (os_ReadFile F (Fs (filepath_Join [srcRoot; legacyKmods; "kernel-id"])));
    let legacy := TrimSpace b in
    running <-? runningKernelID;
    let release := match cut_at " " legacy with Some (r, _) => r | None => legacy end in
    if String.eqb legacy EmptyString || negb (String.eqb running legacy) then
      ret (Fail (errors_New ("vfat is not available, and the running kernel " +:+ quote running
        +:+ " is not the one the bundled modules were built for (" +:+ quote legacy +:+ ")")))
    else load_each srcRoot release legacyModuleOrder.

(** [editGrubenv]: [edit] answers whether it changed anything, and the keys. *)
Definition editGrubenv (p : Path) (edit : env → bool * env) : IO (result unit) :=
  kv <-? readGrubenv F p;
  if fst (edit kv) then writeGrubenv F p (snd (edit kv)) else ret (Ok tt).

Definition RepairResult : Type := RepairOutcome * option error.

Definition fallback (slot step : string) (cause : error) : IO RepairResult :=
  let err := wrapf ("repair slot " +:+ slot +:+ ": " +:+ step +:+ ": " +:+ err_text cause) cause in
  r <- withGrubenv F o (λ p, editGrubenv p (λ kv, (true, <[slot +:+ "_OK" := "0"]> kv)));
  ret (RepairFallback, Some match r with
                            | Fail m => errors_Join err (wrapf ("mark slot " +:+ slot +:+ " bad: " +:+ err_text m) m)
                            | Ok _ => err
                            end).

Definition espUnavailable (slot step : string) (cause : option error) : RepairResult :=
  let j := match cause with Some c => errors_Join ErrESPUnavailable c | None => ErrESPUnavailable end in
  (RepairNone, Some (wrapf ("repair slot " +:+ slot +:+ ": " +:+ step +:+ ": " +:+ err_text j) j)).

Definition refuse (step : string) (cause : error) : RepairResult :=
  (RepairNone, Some (wrapf ("repair slot: " +:+ step +:+ ": " +:+ err_text cause) cause)).

(** The first edit: a second mismatched boot after a repair. *)
Definition second_edit (slot : string) (kv : env) : bool * env :=
  if String.eqb (get_str kv (slot +:+ "_REPAIR")) "1" then
    (true, delete (slot +:+ "_REPAIR") (<[slot +:+ "_TRY" := "0"]> (<[slot +:+ "_OK" := "0"]> kv)))
  else (false, kv).
Definition rearm_edit (slot : string) (kv : env) : bool * env :=
  (true, <[slot +:+ "_REPAIR" := "1"]> (<[slot +:+ "_TRY" := "0"]> kv)).

(** The closure of the first [withGrubenv]: [(mounted, again)] and its error.
    [again] is set as soon as the flag has been read. *)
Definition first_look (slot : string) (p : Path) : IO ((bool * bool) * result unit) :=
  r <- readGrubenv F p;
  match r with
  | Fail e => ret ((true, false), Fail e)
  | Ok kv =>
      if fst (second_edit slot kv) then
        w <- writeGrubenv F p (snd (second_edit slot kv));
        ret ((true, true), w)
      else ret ((true, false), Ok tt)
  end.

Definition opt_err (r : result unit) : option error := match r with Fail e => Some e | Ok _ => None end.

Definition repairRunningSlot (srcRoot : string) : IO RepairResult :=
  c <- os_ReadFile F (Fs (o_procCmdline o));
  match c with
  | Fail e => ret (refuse "cmdline" (wrapf ("read " +:+ o_procCmdline o +:+ ": " +:+ err_text e) e))
  | Ok cmdline =>
      let slot := slotLetter (bootedSlotFromCmdline cmdline) in
      if String.eqb slot EmptyString then
        ret (refuse "cmdline" (errors_New "cannot determine the running slot from the kernel command line"))
      else
        v <- ensureVFAT srcRoot;
        match v with
        | Fail e => ret (espUnavailable slot "modules" (Some e))
        | Ok _ =>
            look <- withGrubenv_out F o (false, false) (first_look slot);
            let '((mounted, again), err) := look in
            if negb mounted then ret (espUnavailable slot "mount" (opt_err err))
            else match err with
            | Fail e => fallback slot "grubenv" e
            | Ok _ =>
                if again then ret (RepairFallback, None)
                else
                  i <- installBootloader srcRoot;
                  match i with
                  | Fail e => fallback slot "install_boot" e
                  | Ok _ =>
                      r <- withGrubenv F o (λ p, editGrubenv p (rearm_edit slot));
                      match r with
                      | Fail e => fallback slot "rearm" e
                      | Ok _ => ret (RepairRepaired, None)
                      end
                  end
            end
        end
  end.
End Slotboot.
