(* ===== verification/SlotbootFacts.v ===== *)
(** * The bootloader repair leaves a bootable ESP

    [installBootloader] and [repairRunningSlot] of slotboot.go, wherever they
    stop. *)
From Stdlib Require Import Ascii String.
From S2P Require Import Prelude GoStrings GoPath Grubenv Disk OpenWrtAB OpenWrtABFacts Slotboot.
#[local] Arguments String.append : simpl nomatch.
Open Scope io_scope.

Section Bootloader.
Context (F : nat → Fault) (sha256 : string → string) (efi cfg : string) (d0 : Disk).

Definition want : list bootFile := [mkBootFile espEFI efi; mkBootFile espGrubCfg cfg].
Definition boot_paths : list string :=
  [espEFI; espGrubCfg; espEFI +:+ ".new"; espGrubCfg +:+ ".new"].

(** [f]'s path on the ESP holds bytes with the digest of [f]'s. *)
Definition in_place (f : bootFile) (d : Disk) : Prop :=
  ∃ s, d_esp d !! bf_name f = Some s ∧ sha256 s = sha256 (bf_data f).
(** The same of its staged copy. *)
Definition ready (f : bootFile) (d : Disk) : Prop :=
  ∃ s, d_esp d !! staged f = Some s ∧ sha256 s = sha256 (bf_data f).

(** Wherever the install stops: nothing but the two files and their staged
    copies has changed, and each file is the old one or the new one. *)
Definition esp_ok (d : Disk) : Prop :=
  files (d_fs d0) (d_dev d0) d ∧
  (∀ p, p ∉ boot_paths → d_esp d !! p = d_esp d0 !! p) ∧
  ∀ f, f ∈ want → d_esp d !! bf_name f = d_esp d0 !! bf_name f ∨ in_place f d.
#[export] Instance esp_ok_timeless : Timeless esp_ok.
Proof. bytewise. Qed.

Lemma want_cases f : f ∈ want → f = mkBootFile espEFI efi ∨ f = mkBootFile espGrubCfg cfg.
Proof using. unfold want. rewrite !elem_of_cons. intros [?|[?|[]%elem_of_nil]]; auto. Qed.

Lemma staged_fresh f g : f ∈ want → g ∈ want → staged f ≠ bf_name g.
Proof using. intros [->| ->]%want_cases [->| ->]%want_cases; done. Qed.
Lemma staged_inj f g : f ∈ want → g ∈ want → staged f = staged g → f = g.
Proof using. intros [->| ->]%want_cases [->| ->]%want_cases; done. Qed.
Lemma name_inj f g : f ∈ want → g ∈ want → bf_name f = bf_name g → f = g.
Proof using. intros [->| ->]%want_cases [->| ->]%want_cases; done. Qed.
Lemma staged_path f : f ∈ want → staged f ∈ boot_paths ∧ bf_name f ∈ boot_paths.
Proof. intros [->| ->]%want_cases; split; apply (bool_decide_unpack _); vm_compute; exact I. Qed.

(** A change of one staged copy. *)
Lemma esp_ok_staged f g d : f ∈ want →
  (∀ p, p ≠ staged f → g (d_esp d) !! p = d_esp d !! p) → esp_ok d → esp_ok (set_esp g d).
Proof.
  intros Hf Hg (Hfs & Hout & Hok). split_and!; [done| |].
  - intros p Hp. simpl. rewrite Hg; [by apply Hout|]. intros ->. by apply Hp, staged_path.
  - intros h Hh. unfold in_place. simpl. rewrite Hg by by apply not_eq_sym, staged_fresh. by apply Hok.
Qed.

Lemma in_place_staged f h g d : f ∈ want → h ∈ want →
  (∀ p, p ≠ staged f → g (d_esp d) !! p = d_esp d !! p) → in_place h d → in_place h (set_esp g d).
Proof.
  intros Hf Hh Hg (s & Hs & Hd). exists s. split; [|done]. simpl.
  by rewrite Hg by by apply not_eq_sym, staged_fresh.
Qed.

(** Those of the files [l] that are in place stay so. *)
Definition all_in_place (l : list bootFile) (d : Disk) : Prop := ∀ f, f ∈ l → in_place f d.
#[export] Instance all_in_place_timeless l : Timeless (all_in_place l).
Proof. bytewise. Qed.
#[export] Instance ready_timeless f : Timeless (ready f).
Proof. bytewise. Qed.

Lemma keeps_command_esp I `{!Timeless I} : keeps I (command F).
Proof. apply keeps_command, _. Qed.

Lemma write_staged_ensures f data (I : Disk → Prop) `{!Timeless I} :
  (∀ g d, (∀ p, p ≠ staged f → g (d_esp d) !! p = d_esp d !! p) → I d → I (set_esp g d)) →
  keeps I (writeSynced F (Esp (staged f)) data).
Proof.
  intros HI. assert (∀ s d, I d → I (set_esp <[staged f := s]> d)) as Hins.
  { intros s d. apply HI. intros p Hp. by rewrite lookup_insert_ne. }
  unfold writeSynced. apply keeps_bindR; [by apply keeps_sys; [apply _|intros d Hd; apply bytes_marks, Hins]|intros []].
  apply keeps_bind.
  - apply sys_write_ensures; intros; simpl; by apply bytes_marks, Hins, timeless.
  - intros [[]|e]; keep.
Qed.

Lemma removeStaged_keeps fl : (∀ f, f ∈ fl → f ∈ want) → keeps esp_ok (removeStaged F fl).
Proof.
  induction fl as [|f fl IH]; intros Hfl; cbn [removeStaged]; [apply keeps_ret|].
  apply keeps_bind; [|intros r; apply keeps_bind; [apply IH; set_solver|intros; apply keeps_ret]].
  apply keeps_sys; [apply _|]. intros d Hd. cbn [lookup_path]. destruct (d_esp d !! staged f); [|done].
  simpl. apply (esp_ok_staged f); [set_solver| |done]. intros p Hp. by rewrite lookup_delete_ne.
Qed.

(** The check only reads: [E] is the ESP it sees throughout. *)
Lemma check_staged_spec E all fl : (∀ f, f ∈ all → f ∈ want) →
  ensures (λ d, esp_ok d ∧ d_esp d = E) (check_staged F sha256 all fl)
    (λ r d, esp_ok d ∧ (r = Ok tt → d_esp d = E ∧ ∀ f, f ∈ fl → ready f d)) esp_ok.
Proof.
  intros Hall. induction fl as [|f fl IH]; cbn [check_staged].
  { intros d [Hd Hr]. simpl. split; [done|]. intros _. split; [done|]. set_solver. }
  assert (∀ e, ensures esp_ok (c <- removeStaged F all; ret (join_errors (Fail e) c))
    (λ r d, esp_ok d ∧ (r = Ok tt → d_esp d = E ∧ ∀ g, g ∈ f :: fl → ready g d)) esp_ok) as Hfail.
  { intros e. eapply ensures_bind; [by apply removeStaged_keeps|]. intros [[]|e'] d Hd; by split. }
  apply (ensures_bind _ _ _ (λ r d, (esp_ok d ∧ d_esp d = E) ∧ ∀ s, r = Ok s → E !! staged f = Some s)).
  - apply sys_ensures; [|by intros d e [? ?]|by intros d [? _]].
    intros d [Hd HE]. simpl. rewrite HE. split_and!; [done..|]. intros s. by destruct (E !! staged f); intros [= ->].
  - intros [got|e]; [|eapply ensures_pre; [apply Hfail|by intros d [[? _] _]]].
    case_match eqn:Hs; [eapply ensures_pre; [apply Hfail|by intros d [[? _] _]]|].
    apply negb_false_iff, String.eqb_eq in Hs.
    eapply ensures_pre; [|intros d [Hd Hi]; exact (conj Hd (Hi got eq_refl))]. apply ensures_pure. intros Hgot.
    eapply ensures_conseq; [apply IH|done| |done]. intros r d [Hd Hr]. split; [done|].
    intros ->. destruct (Hr eq_refl) as [HE Hrd]. split; [done|].
    intros g [->|Hg]%elem_of_cons; [|by apply Hrd]. exists got. by rewrite HE.
Qed.

Lemma syncDir_keeps I `{!Timeless I} : keeps I (syncDir F).
Proof. unfold syncDir. keep. Qed.

(** The renames: [dn] are in place, [fl] are staged and checked. *)
Lemma rename_one f fl dn d : f ∈ want → (∀ g, g ∈ dn ++ fl → g ∈ want ∧ g ≠ f) →
  esp_ok d → all_in_place dn d → ready f d → (∀ g, g ∈ fl → ready g d) →
  ∀ s, d_esp d !! staged f = Some s →
  let d' := set_esp <[bf_name f := s]> (set_esp (delete (staged f)) d) in
  esp_ok d' ∧ all_in_place (dn ++ [f]) d' ∧ ∀ g, g ∈ fl → ready g d'.
Proof.
  intros Hf Hne (Hfs & Hout & Hok) Hdn (s' & Hs' & Hsha) Hfl s Hs. assert (s' = s) as -> by congruence. simpl. split_and!.
  - split_and!; [done| |].
    + intros p Hp. simpl. destruct (staged_path f Hf).
      rewrite lookup_insert_ne, lookup_delete_ne by set_solver. by apply Hout.
    + intros g Hg. unfold in_place. simpl. destruct (decide (bf_name f = bf_name g)) as [E|E].
      * apply name_inj in E as ->; [|done..]. right. exists s. by rewrite lookup_insert_eq.
      * rewrite lookup_insert_ne, lookup_delete_ne by (done || by apply staged_fresh). by apply Hok.
  - intros g [Hg| ->%list_elem_of_singleton]%elem_of_app.
    + destruct (Hdn g Hg) as (x & Hx & ?). destruct (Hne g) as [? Hgf]; [set_solver|].
      exists x. split; [|done]. simpl. rewrite lookup_insert_ne, lookup_delete_ne; [done|by apply staged_fresh|].
      intros E. apply Hgf. symmetry. by apply name_inj.
    + exists s. simpl. by rewrite lookup_insert_eq.
  - intros g Hg. destruct (Hfl g Hg) as (x & Hx & ?). destruct (Hne g) as [? Hgf]; [set_solver|].
    exists x. split; [|done]. simpl. rewrite lookup_insert_ne, lookup_delete_ne; [done| |].
    + intros E. apply Hgf. symmetry. by apply staged_inj.
    + by apply not_eq_sym, staged_fresh.
Qed.

Lemma rename_staged_spec fl : ∀ dn, NoDup (dn ++ fl) → (∀ f, f ∈ dn ++ fl → f ∈ want) →
  ensures (λ d, esp_ok d ∧ all_in_place dn d ∧ ∀ f, f ∈ fl → ready f d) (rename_staged F fl)
    (λ r d, esp_ok d ∧ (r = Ok tt → all_in_place (dn ++ fl) d)) esp_ok.
Proof.
  induction fl as [|f fl IH]; intros dn Hnd Hw; cbn [rename_staged].
  { intros d (? & ? & _). simpl. by rewrite app_nil_r. }
  assert (f ∈ want) as Hf by (apply Hw; set_solver).
  assert (∀ g, g ∈ dn ++ fl → g ∈ want ∧ g ≠ f) as Hne.
  { intros g Hg. split; [apply Hw; set_solver|]. intros ->.
    apply NoDup_app in Hnd as (_ & Hx & [Hy _]%NoDup_cons). set_solver. }
  apply (ensures_bind _ _ _ (λ r d, esp_ok d ∧ (r = Ok tt → all_in_place (dn ++ [f]) d ∧ ∀ g, g ∈ fl → ready g d))).
  { apply sys_ensures; [|by intros d e (? & _)|by intros d (? & _)].
    intros d (Hd & Hin & Hr). cbn [lookup_path next disk_ticks]. destruct (Hr f) as (s & Hs & Hsha); [set_solver|].
    change (d_esp (d_next d)) with (d_esp d). rewrite Hs.
    destruct (rename_one f fl dn (d_next d) Hf Hne Hd Hin) with (s := s) as (? & ? & ?);
      [by exists s|intros g Hg; apply Hr; set_solver|done|]. by split. }
  intros [[]|e].
  2: { eapply ensures_bind; [eapply ensures_pre; [apply (removeStaged_keeps (f :: fl)); set_solver|by intros d [? _]]|].
       intros [[]|e'] d Hd; by split. }
  eapply ensures_pre; [|intros d [Hd Hr]; exact (conj Hd (Hr eq_refl))].
  set (J := λ d, esp_ok d ∧ all_in_place (dn ++ [f]) d ∧ ∀ g, g ∈ fl → ready g d).
  assert (Timeless J) by bytewise.
  eapply ensures_bind; [apply (ensures_keeps J); [by apply syncDir_keeps|by intros d [? _]]|].
  intros [[]|e]; [|by intros d [? _]].
  replace (dn ++ f :: fl) with ((dn ++ [f]) ++ fl) in * by by rewrite <- app_assoc.
  by apply IH.
Qed.

Lemma commit_spec fl dn : NoDup (dn ++ fl) → (∀ f, f ∈ dn ++ fl → f ∈ want) →
  ensures (λ d, esp_ok d ∧ all_in_place dn d) (commitBootFiles F sha256 fl)
    (λ r d, esp_ok d ∧ (r = Ok tt → all_in_place (dn ++ fl) d)) esp_ok.
Proof.
  intros Hnd Hw d [Hd Hin]. revert d Hd Hin. intros d Hd Hin.
  assert (ensures (λ d', esp_ok d' ∧ d_esp d' = d_esp d) (commitBootFiles F sha256 fl)
    (λ r d, esp_ok d ∧ (r = Ok tt → all_in_place (dn ++ fl) d)) esp_ok) as H; [|by apply H].
  unfold commitBootFiles.
  eapply ensures_bindR; [apply (check_staged_spec (d_esp d)); set_solver| |by intros e d' [? _]].
  intros []. eapply ensures_pre; [by apply rename_staged_spec|].
  intros d' [Hd' Hr]. destruct (Hr eq_refl) as [HE Hrd]. split_and!; [done| |done].
  intros f Hf. destruct (Hin f Hf) as (s & ? & ?). exists s. by rewrite HE.
Qed.

(** The staging loop: [dn] have been looked at, [ch] of them staged. *)
Definition looked_at (dn ch : list bootFile) (d : Disk) : Prop :=
  ∀ f, f ∈ dn → f ∈ ch ∨ in_place f d.
#[export] Instance looked_at_timeless dn ch : Timeless (looked_at dn ch).
Proof. bytewise. Qed.

Lemma stage_spec fl : ∀ dn ch, (∀ f, f ∈ dn ++ fl → f ∈ want) → NoDup (dn ++ fl) → ch `sublist_of` dn →
  ensures (λ d, esp_ok d ∧ looked_at dn ch d) (stage F fl ch)
    (λ r d, esp_ok d ∧ (r.2 = Ok tt → looked_at (dn ++ fl) r.1 d ∧ r.1 `sublist_of` dn ++ fl)) esp_ok.
Proof.
  induction fl as [|f fl IH]; intros dn ch Hw Hnd Hch; cbn [stage].
  { intros d [? ?]. simpl. by rewrite app_nil_r. }
  assert (f ∈ want) as Hf by (apply Hw; set_solver).
  replace (dn ++ f :: fl) with ((dn ++ [f]) ++ fl) in * by by rewrite <- app_assoc.
  apply (ensures_bind _ _ _ (λ r d, (esp_ok d ∧ looked_at dn ch d) ∧ ∀ c, r = Ok c → d_esp d !! bf_name f = Some c)).
  { apply sys_ensures; [|by intros d e [? ?]|by intros d [? _]].
    intros d [Hd HE]. simpl. split_and!; [done..|]. intros s. by destruct (d_esp d !! _); intros [= ->]. }
  assert (ensures (λ d, esp_ok d ∧ looked_at dn ch d)
    (w <- writeSynced F (Esp (staged f)) (bf_data f);
     match w with
     | Ok _ => stage F fl (ch ++ [f])
     | Fail e => ret (ch, Fail (wrapf ("write " +:+ staged f +:+ ": " +:+ err_text e) e))
     end)
    (λ r d, esp_ok d ∧ (r.2 = Ok tt → looked_at ((dn ++ [f]) ++ fl) r.1 d ∧ r.1 `sublist_of` (dn ++ [f]) ++ fl)) esp_ok) as Hrep.
  { eapply ensures_bind; [apply ensures_keeps; [apply write_staged_ensures; [apply _|]|by intros d [? _]]|].
    - intros g d Hg [Hd Hl]. split; [by apply (esp_ok_staged f)|].
      intros h Hh. destruct (Hl h Hh) as [|]; [by left|]. right. apply (in_place_staged f); [done|apply Hw; set_solver|done..].
    - intros [[]|e]; [|by intros d [? _]]. eapply ensures_pre; [apply IH; [done|done|apply sublist_app; [done|reflexivity]]|].
      intros d [Hd Hl]. split; [done|]. intros h [Hh|Hh]%elem_of_app; [|set_solver]. destruct (Hl h Hh); set_solver. }
  intros [c|e].
  - case_match eqn:Hc; [|eapply ensures_pre; [exact Hrep|by intros d [? _]]].
    apply String.eqb_eq in Hc as ->. eapply ensures_pre; [apply IH; [done|done|by apply sublist_inserts_r]|].
    intros d [[Hd Hl] He]. split; [done|]. intros h [Hh| ->%list_elem_of_singleton]%elem_of_app; [by apply Hl|].
    right. exists (bf_data f). split; [by apply He|done].
  - case_match; [eapply ensures_pre; [exact Hrep|by intros d [? _]]|by intros d [[? _] _]].
Qed.
End Bootloader.

(** The sources of the two boot files, as [installBootloader] reads them. *)
Definition sources (d : Disk) (srcRoot efi cfg : string) : Prop :=
  d_fs d !! filepath_Join [srcRoot; srcEFI] = Some efi ∧ d_fs d !! filepath_Join [srcRoot; srcGrubCfg] = Some cfg.

(** Each boot file is as in [d0] or has the digest of the rootfs's, and nothing
    else has changed. *)
Definition boot_ok sha256 (d0 : Disk) (srcRoot : string) (d : Disk) : Prop :=
  files (d_fs d0) (d_dev d0) d ∧
  (d_esp d = d_esp d0 ∨ ∃ efi cfg, sources d0 srcRoot efi cfg ∧ esp_ok sha256 efi cfg d0 d).
Definition boot_done sha256 (d0 : Disk) (srcRoot : string) (d : Disk) : Prop :=
  ∃ efi cfg, sources d0 srcRoot efi cfg ∧ esp_ok sha256 efi cfg d0 d ∧ all_in_place sha256 (want efi cfg) d.

Definition unchanged (d0 d : Disk) : Prop := files (d_fs d0) (d_dev d0) d ∧ d_esp d = d_esp d0.
#[export] Instance unchanged_timeless d0 : Timeless (unchanged d0).
Proof. bytewise. Qed.

Lemma read_source_spec F d0 srcRoot src :
  ensures (unchanged d0) (read_source F srcRoot src)
    (λ r d, unchanged d0 d ∧ ∀ b, r = Ok b → d_fs d0 !! filepath_Join [srcRoot; src] = Some b) (unchanged d0).
Proof.
  apply (ensures_wrapE _ _ _ _ (λ r d, unchanged d0 d ∧ ∀ b, r = Ok b → d_fs d0 !! filepath_Join [srcRoot; src] = Some b));
    [|done|by intros e e' d [? _]].
  apply sys_ensures; [|done|done]. intros d Hd. split; [done|]. destruct Hd as [[Hf _] _].
  cbn [lookup_path fst next disk_ticks d_next d_fs]. rewrite Hf. intros b. by destruct (d_fs d0 !! _); intros [= ->].
Qed.

Lemma unchanged_esp_ok sha256 efi cfg d0 d : unchanged d0 d → esp_ok sha256 efi cfg d0 d.
Proof. intros [Hf He]. unfold esp_ok. rewrite He. auto. Qed.

Lemma not_staged_in_place sha256 efi cfg ch d :
  looked_at sha256 (want efi cfg) ch d → all_in_place sha256 (filter (λ f, bf_name f ∉ bf_name <$> ch) (want efi cfg)) d.
Proof.
  intros Hl f [Hn Hf]%list_elem_of_filter. destruct (Hl f Hf) as [Hc|]; [|done].
  exfalso. apply Hn. by apply list_elem_of_fmap_2.
Qed.

(** Staged files and the others, together. *)
Lemma want_split efi cfg ch : ch `sublist_of` want efi cfg →
  let dn := filter (λ f, bf_name f ∉ bf_name <$> ch) (want efi cfg) in
  NoDup (dn ++ ch) ∧ (∀ f, f ∈ dn ++ ch ↔ f ∈ want efi cfg).
Proof.
  intros Hs dn. assert (NoDup (want efi cfg)) as Hnd.
  { unfold want. constructor; [|apply NoDup_singleton]. by intros ?%list_elem_of_singleton. }
  pose proof (sublist_submseteq _ _ Hs) as Hsub. split.
  - apply NoDup_app. split_and!; [by apply NoDup_filter| |by eapply sublist_NoDup].
    intros f [Hn _]%list_elem_of_filter Hc. by apply Hn, list_elem_of_fmap_2.
  - intros f. split.
    + intros [[_ ?]%list_elem_of_filter|Hc]%elem_of_app; [done|]. by eapply elem_of_submseteq.
    + intros Hf. apply elem_of_app. destruct (decide (bf_name f ∈ bf_name <$> ch)) as [Hn|Hn].
      * right. apply list_elem_of_fmap in Hn as (g & Hg & Hgc).
        assert (g ∈ want efi cfg) by by eapply elem_of_submseteq.
        by rewrite (name_inj efi cfg f g).
      * left. by apply list_elem_of_filter.
Qed.

Lemma esp_ok_boot_ok sha256 d0 srcRoot efi cfg d :
  sources d0 srcRoot efi cfg → esp_ok sha256 efi cfg d0 d → boot_ok sha256 d0 srcRoot d.
Proof. intros Hs Hd. split; [apply Hd|]. right. eauto. Qed.

(** Staging and committing, given the sources. *)
Lemma install_files_spec F sha256 d0 srcRoot efi cfg : sources d0 srcRoot efi cfg →
  ensures (unchanged d0)
    (s <- WithESP F [] (stage F (want efi cfg) []);
     match s.2 with
     | Fail e => ret (Fail (wrapf ("stage the bootloader files: " +:+ err_text e) e))
     | Ok _ =>
         if bool_decide (s.1 = []) then ret (Ok tt)
         else
           c <- WithESP F tt (r <- commitBootFiles F sha256 s.1; ret (tt, r));
           match c.2 with
           | Fail e => ret (Fail (wrapf ("install the bootloader files: " +:+ err_text e) e))
           | Ok _ => ret (Ok tt)
           end
     end)
    (λ r d, boot_ok sha256 d0 srcRoot d ∧ (r = Ok tt → boot_done sha256 d0 srcRoot d))
    (boot_ok sha256 d0 srcRoot).
Proof.
  intros Hsrc. pose (ok := esp_ok sha256 efi cfg d0).
  assert (∀ d, ok d → boot_ok sha256 d0 srcRoot d) as Hbo by (intros d; by apply esp_ok_boot_ok).
  pose (Q := λ ch d, looked_at sha256 (want efi cfg) ch d ∧ ch `sublist_of` want efi cfg).
  assert (Timeless ok) by bytewise.
  assert (∀ ch, Timeless (Q ch)) by bytewise.
  apply (ensures_bind _ _ _ (λ s d, ok d ∧ (s.2 = Ok tt → Q s.1 d))).
  { eapply ensures_conseq; [apply (WithESP_spec F (unchanged d0) ok Q); try apply _|done|done|exact Hbo].
    - intros d. apply unchanged_esp_ok.
    - eapply ensures_pre; [apply (stage_spec F sha256 efi cfg d0 (want efi cfg) [] [])|].
      + done.
      + unfold want. constructor; [by intros ?%list_elem_of_singleton|apply NoDup_singleton].
      + constructor.
      + intros d Hd. split; [by apply unchanged_esp_ok|]. intros f Hf. by apply elem_of_nil in Hf. }
  intros [ch [[]|e]]; simpl; [|intros d [Hd _]; split; [by apply Hbo|done]].
  eapply ensures_pre; [|intros d [Hd Hq]; exact (conj (conj Hd (proj1 (Hq eq_refl))) (proj2 (Hq eq_refl)))].
  apply ensures_pure. intros Hsub. destruct (want_split efi cfg ch Hsub) as [Hnd Hall].
  case_bool_decide as Hch.
  { intros d [Hd Hl]. simpl. split; [by apply Hbo|]. intros _. exists efi, cfg. split_and!; [done..|].
    intros f Hf. destruct (Hl f Hf) as [Hc|]; [|done]. subst. by apply elem_of_nil in Hc. }
  set (dn := filter _ _) in *.
  apply (ensures_bind _ _ _ (λ c d, ok d ∧ (c.2 = Ok tt → all_in_place sha256 (dn ++ ch) d))).
  { eapply ensures_conseq; [apply (WithESP_spec F (λ d, ok d ∧ all_in_place sha256 dn d) ok (λ _ : unit, all_in_place sha256 (dn ++ ch))); try apply _| | |].
    - by intros d [? _].
    - eapply ensures_bind; [apply commit_spec; [done|intros f; apply Hall]|]. by intros r d.
    - intros d [Hd Hl]. split; [done|]. by apply not_staged_in_place.
    - done.
    - exact Hbo. }
  intros [[] [[]|e]] d [Hd Hp]; simpl; (split; [by apply Hbo|]); [|done]. intros _.
  exists efi, cfg. split_and!; [done..|]. intros f Hf. apply Hp; [done|by apply Hall].
Qed.

Lemma installBootloader_spec F sha256 d0 srcRoot :
  ensures (unchanged d0) (installBootloader F sha256 srcRoot)
    (λ r d, boot_ok sha256 d0 srcRoot d ∧ (r = Ok tt → boot_done sha256 d0 srcRoot d))
    (boot_ok sha256 d0 srcRoot).
Proof.
  assert (∀ d, unchanged d0 d → boot_ok sha256 d0 srcRoot d) as Hu by (intros d [? ?]; split; auto).
  assert (∀ src, ensures (unchanged d0) (read_source F srcRoot src)
    (λ r d, unchanged d0 d ∧ ∀ b, r = Ok b → d_fs d0 !! filepath_Join [srcRoot; src] = Some b)
    (boot_ok sha256 d0 srcRoot)) as Hread.
  { intros src. eapply ensures_conseq; [apply read_source_spec|done|done|exact Hu]. }
  unfold installBootloader.
  eapply ensures_bindR; [apply Hread| |intros e d [Hd _]; split; [by apply Hu|done]].
  intros efi. eapply ensures_pre; [|intros d [Hd Hi]; exact (conj Hd (Hi efi eq_refl))]. apply ensures_pure. intros He.
  eapply ensures_bindR; [apply Hread| |intros e d [Hd _]; split; [by apply Hu|done]].
  intros cfg. eapply ensures_pre; [|intros d [Hd Hi]; exact (conj Hd (Hi cfg eq_refl))]. apply ensures_pure. intros Hc.
  by apply install_files_spec.
Qed.

(** C15. The bootloader files are replaced all-or-nothing, file by file, even
    on a medium that corrupts writes without saying so: wherever
    [installBootloader] stops, each of the two files on the ESP is either the
    one that was there or has the digest of the running rootfs's copy, and
    nothing else on the ESP (grubenv included) but their staged copies has
    changed; a nil error means both have that digest. *)
Theorem bootloader_install_atomic F sha256 srcRoot d :
  let '(r, d') := installBootloader F sha256 srcRoot d in
  d_fs d' = d_fs d ∧ d_dev d' = d_dev d ∧
  (∀ p, p ∉ boot_paths → d_esp d' !! p = d_esp d !! p) ∧
  (∀ src dst, (src, dst) ∈ [(srcEFI, espEFI); (srcGrubCfg, espGrubCfg)] →
     d_esp d' !! dst = d_esp d !! dst ∨
     ∃ data got, d_fs d !! filepath_Join [srcRoot; src] = Some data ∧ d_esp d' !! dst = Some got ∧ sha256 got = sha256 data) ∧
  (r = Some (Ok tt) →
   ∀ src dst, (src, dst) ∈ [(srcEFI, espEFI); (srcGrubCfg, espGrubCfg)] →
     ∃ data got, d_fs d !! filepath_Join [srcRoot; src] = Some data ∧ d_esp d' !! dst = Some got ∧ sha256 got = sha256 data).
Proof.
  pose proof (installBootloader_spec F sha256 d srcRoot d ltac:(done)) as H.
  assert (∀ efi cfg src dst, sources d srcRoot efi cfg → (src, dst) ∈ [(srcEFI, espEFI); (srcGrubCfg, espGrubCfg)] →
    ∃ f, f ∈ want efi cfg ∧ bf_name f = dst ∧ d_fs d !! filepath_Join [srcRoot; src] = Some (bf_data f)) as Hw.
  { intros efi cfg src dst [He Hc]. rewrite !elem_of_cons. intros [[= -> ->]|[[= -> ->]|[]%elem_of_nil]].
    - exists (mkBootFile espEFI efi). split; [|done]. unfold want. set_solver.
    - exists (mkBootFile espGrubCfg cfg). split; [|done]. unfold want. set_solver. }
  assert (∀ d', boot_ok sha256 d srcRoot d' → d_fs d' = d_fs d ∧ d_dev d' = d_dev d ∧
    (∀ p, p ∉ boot_paths → d_esp d' !! p = d_esp d !! p) ∧
    (∀ src dst, (src, dst) ∈ [(srcEFI, espEFI); (srcGrubCfg, espGrubCfg)] →
     d_esp d' !! dst = d_esp d !! dst ∨
     ∃ data got, d_fs d !! filepath_Join [srcRoot; src] = Some data ∧ d_esp d' !! dst = Some got ∧ sha256 got = sha256 data)) as Hok.
  { intros d' [[Hf Hd] [He|(efi & cfg & Hs & _ & Hout & Hin)]]; [rewrite He; auto|]. split_and!; [done..|].
    intros src dst Hp. destruct (Hw efi cfg src dst Hs Hp) as (f & Hfw & <- & Hsrc).
    destruct (Hin f Hfw) as [?|(got & ? & ?)]; [by left|]. right. eauto. }
  destruct (installBootloader F sha256 srcRoot d) as [[r|] d']; [|destruct (Hok d' H) as (? & ? & ? & ?); by split_and!].
  destruct H as [H Hr]. destruct (Hok d' H) as (? & ? & ? & ?). split_and!; [done..|]. intros [= ->] src dst Hp.
  destruct (Hr eq_refl) as (efi & cfg & Hs & _ & Hin). destruct (Hw efi cfg src dst Hs Hp) as (f & Hfw & <- & Hsrc).
  destruct (Hin f Hfw) as (got & ? & ?). eauto.
Qed.

(** ** The repair *)

Definition repair_key_of (slot : string) : string := slot +:+ "_REPAIR".
Definition repaired_before (slot : string) (kv : env) : Prop := get_str kv (repair_key_of slot) = "1".

Lemma slot_key_wf slot suffix : is_letter slot → suffix ∈ ["_OK"; "_TRY"; "_REPAIR"] → wf_key (slot +:+ suffix) = true.
Proof. intros [->| ->] H; repeat (apply elem_of_cons in H as [->|H]; [done|]); by apply elem_of_nil in H. Qed.

Lemma second_edit_wf slot kv : is_letter slot → wf_env kv → wf_env (snd (second_edit slot kv)).
Proof.
  intros Hl Hwf. unfold second_edit. case_match; [|done]. simpl.
  apply wf_delete. repeat (apply wf_insert; [by apply slot_key_wf; [|set_solver]|done|]). done.
Qed.
Lemma rearm_edit_wf slot kv : is_letter slot → wf_env kv → wf_env (snd (rearm_edit slot kv)).
Proof.
  intros Hl Hwf. simpl. repeat (apply wf_insert; [by apply slot_key_wf; [|set_solver]|done|]). done.
Qed.
Lemma mark_bad_wf slot kv : is_letter slot → wf_env kv → wf_env (<[slot +:+ "_OK" := "0"]> kv).
Proof. intros Hl. apply wf_insert; [by apply slot_key_wf; [|set_solver]|done]. Qed.

(** What the first look at grubenv found and did, from the state [d0]. *)
Definition look (d0 : Disk) (slot : string) (out : (bool * bool) * result unit) (d : Disk) : Prop :=
  let '((mounted, again), r) := out in
  files (d_fs d0) (d_dev d0) d ∧
  (mounted = false → d_esp d = d_esp d0) ∧
  (mounted = true → r = Ok tt → ∃ kv, env_of d0 = Some kv ∧
     if again : bool then repaired_before slot kv ∧ env_of d = Some (snd (second_edit slot kv))
     else ¬ repaired_before slot kv ∧ d_esp d = d_esp d0).
#[export] Instance look_timeless d0 slot out : Timeless (look d0 slot out).
Proof. destruct out as [[m a] r]. bytewise. Qed.

Lemma first_look_spec F d0 slot : honest F → is_letter slot →
  ensures (unchanged d0) (first_look F slot esp_grubenv) (look d0 slot) (files (d_fs d0) (d_dev d0)).
Proof.
  intros HF Hl. unfold first_look.
  eapply ensures_bind.
  { eapply ensures_conseq; [apply (read_env_spec F (unchanged d0) (env_of d0)); apply _| |intros r d H; exact H|by intros d [? _]].
    intros d [Hf He]. split; [done|]. unfold env_of. by rewrite He. }
  intros [kv|e]; [|by intros d [[? _] _]].
  eapply ensures_pre; [|intros d [Hd Hi]; exact (conj Hd (Hi kv eq_refl))]. apply ensures_pure. intros [Hkv Hwf].
  unfold second_edit. destruct (String.eqb_spec (get_str kv (slot +:+ "_REPAIR")) "1") as [Hr|Hr]; simpl.
  - eapply ensures_bind.
    { eapply ensures_pre; [apply (writeGrubenv_spec F (files (d_fs d0) (d_dev d0))); [done|]|by intros d [? _]].
      pose proof (second_edit_wf slot kv Hl Hwf) as H. unfold second_edit in H. by rewrite Hr in H. }
    intros w d [Hd Hw]. split_and!; [done|done|]. intros _ Hok. exists kv. split_and!; [done..|].
    rewrite (Hw Hok). unfold second_edit. by rewrite Hr.
  - intros d [Hd He]. simpl. split_and!; [done|done|]. intros _ _. by exists kv.
Qed.

Lemma fallback_spec F o fs dv slot step e : honest F → o_grubenvPath o = EmptyString → is_letter slot →
  ensures (files fs dv) (fallback F o slot step e)
    (λ r d, files fs dv d ∧ r.1 = RepairFallback ∧ r.2 ≠ None) (files fs dv).
Proof.
  intros HF Ho Hl. unfold fallback.
  apply (ensures_bind _ _ _ (λ _ d, files fs dv d)); [|by intros r d].
  intros d Hd. pose proof (rmw_spec F o (files fs dv) (λ kv, <[slot +:+ "_OK" := "0"]> kv) (env_of d) HF Ho
    (λ kv, mark_bad_wf slot kv Hl) d (conj Hd eq_refl)) as H.
  change (withGrubenv F o _) with (withGrubenv F o (λ p, editGrubenv F p (λ kv, (true, <[slot +:+ "_OK" := "0"]> kv)))) in H.
  by destruct (withGrubenv F o _ d) as [[r|] d']; [destruct H|].
Qed.

Lemma load_each_keeps F d0 srcRoot rel mods : keeps (unchanged d0) (load_each F srcRoot rel mods).
Proof.
  induction mods as [|m ms IH]; cbn [load_each]; [apply keeps_ret|].
  apply keeps_bindR; [|intros; apply IH]. apply keeps_sys; [apply _|done].
Qed.

#[local] Hint Resolve load_each_keeps : keeps.

Lemma ensureVFAT_keeps F pr pv d0 srcRoot : keeps (unchanged d0) (ensureVFAT F pr pv srcRoot).
Proof. unfold ensureVFAT, runningKernelID. keep. Qed.

(** Outside the boot files the ESP is as in [d0]. *)
Lemma boot_ok_env sha256 d0 srcRoot d : boot_ok sha256 d0 srcRoot d → env_of d = env_of d0.
Proof.
  intros [_ [He|(efi & cfg & _ & _ & Hout & _)]]; unfold env_of; [by rewrite He|].
  rewrite Hout; [done|]. apply (bool_decide_unpack _). vm_compute. exact I.
Qed.

(** Both boot files have the digest of the rootfs's copies. *)
Definition boot_current sha256 (d0 : Disk) (srcRoot : string) (d : Disk) : Prop :=
  files (d_fs d0) (d_dev d0) d ∧
  ∃ efi cfg, sources d0 srcRoot efi cfg ∧ all_in_place sha256 (want efi cfg) d.
#[export] Instance boot_current_frame sha256 d0 srcRoot : GrubFrame (boot_current sha256 d0 srcRoot).
Proof.
  split; [bytewise|]. intros s d [Hf (efi & cfg & Hs & Hin)]. split; [done|]. exists efi, cfg.
  split; [done|]. intros f Hfw. destruct (Hin f Hfw) as (got & Hg & ?). exists got. split; [|done]. simpl.
  rewrite lookup_insert_ne; [done|]. by apply want_cases in Hfw as [->| ->].
Qed.

(** The rearm keeps the boot files. *)
Lemma rearm_spec F o sha256 d0 srcRoot slot : honest F → o_grubenvPath o = EmptyString → is_letter slot →
  ensures (λ d, boot_current sha256 d0 srcRoot d ∧ env_of d = env_of d0)
    (withGrubenv F o (λ p, editGrubenv F p (rearm_edit slot)))
    (λ r d, boot_current sha256 d0 srcRoot d ∧ (r = Ok tt → rewrote (λ kv, snd (rearm_edit slot kv)) (env_of d0) d))
    (boot_current sha256 d0 srcRoot).
Proof.
  intros HF Ho Hl. apply (rmw_spec F o (boot_current sha256 d0 srcRoot) (λ kv, snd (rearm_edit slot kv)) (env_of d0) HF Ho).
  intros kv. by apply rearm_edit_wf.
Qed.

(** What [repairRunningSlot] can end in, from [d0] with running slot [slot]. *)
Definition repair_end sha256 (d0 : Disk) (srcRoot slot : string) (out : RepairResult) (d : Disk) : Prop :=
  files (d_fs d0) (d_dev d0) d ∧
  match out with
  | (RepairNone, err) => err ≠ None ∧ d_esp d = d_esp d0
  | (RepairRepaired, err) => err = None ∧ boot_current sha256 d0 srcRoot d ∧
      ∃ kv, env_of d0 = Some kv ∧ ¬ repaired_before slot kv ∧ env_of d = Some (snd (rearm_edit slot kv))
  | (RepairFallback, None) =>
      ∃ kv, env_of d0 = Some kv ∧ repaired_before slot kv ∧ env_of d = Some (snd (second_edit slot kv))
  | (RepairFallback, Some _) => True
  end.

Lemma repair_end_fallback sha256 F o d0 srcRoot slot step e : honest F → o_grubenvPath o = EmptyString → is_letter slot →
  ensures (files (d_fs d0) (d_dev d0)) (fallback F o slot step e)
    (repair_end sha256 d0 srcRoot slot) (files (d_fs d0) (d_dev d0)).
Proof.
  intros HF Ho Hl. eapply ensures_conseq; [by apply fallback_spec|done| |done].
  intros [out [err|]] d (? & Ho' & Hne); [|done]. simpl in Ho'. subst. by split.
Qed.

(** The second half: install the bootloader and re-arm the trial. *)
Lemma repair_install_spec F sha256 o d0 srcRoot slot kv : honest F → o_grubenvPath o = EmptyString → is_letter slot →
  env_of d0 = Some kv → ¬ repaired_before slot kv →
  ensures (unchanged d0)
    (i <- installBootloader F sha256 srcRoot;
     match i with
     | Fail e => fallback F o slot "install_boot" e
     | Ok _ =>
         r <- withGrubenv F o (λ p, editGrubenv F p (rearm_edit slot));
         match r with
         | Fail e => fallback F o slot "rearm" e
         | Ok _ => ret (RepairRepaired, None)
         end
     end)
    (repair_end sha256 d0 srcRoot slot) (files (d_fs d0) (d_dev d0)).
Proof.
  intros HF Ho Hl Hkv Hnr.
  eapply ensures_bind; [eapply ensures_conseq; [apply installBootloader_spec|done|intros r d H; exact H|by intros d [? _]]|].
  intros [[]|e]; [|eapply ensures_pre; [by apply repair_end_fallback|by intros d [[? _] _]]].
  eapply ensures_bind.
  { eapply ensures_conseq; [by apply (rearm_spec F o sha256 d0 srcRoot slot)| |intros r d H; exact H|by intros d [? _]].
    intros d [Hb Hd]. pose proof (boot_ok_env _ _ _ _ Hb). destruct Hb as [Hf _].
    destruct (Hd eq_refl) as (efi & cfg & Hs & _ & Hin). split; [|done]. split; [done|]. eauto. }
  intros [[]|e]; [|eapply ensures_pre; [by apply repair_end_fallback|by intros d [[? _] _]]].
  intros d [Hb Hr]. destruct (Hr eq_refl) as (kv' & Hkv' & Henv). assert (kv' = kv) as -> by congruence.
  split; [apply Hb|]. simpl. split_and!; [done..|]. by exists kv.
Qed.

Lemma repairRunningSlot_spec F sha256 o pr pv srcRoot d0 cmdline : honest F → o_grubenvPath o = EmptyString →
  d_fs d0 !! o_procCmdline o = Some cmdline →
  ensures (unchanged d0) (repairRunningSlot F sha256 o pr pv srcRoot)
    (repair_end sha256 d0 srcRoot (slotLetter (bootedSlotFromCmdline cmdline))) (files (d_fs d0) (d_dev d0)).
Proof.
  intros HF Ho Hc. unfold repairRunningSlot. set (slot := slotLetter _).
  assert (∀ err, err ≠ None → ensures (unchanged d0) (ret (RepairNone, err)) (repair_end sha256 d0 srcRoot slot)
    (files (d_fs d0) (d_dev d0))) as Hnone by by intros err Herr d [? ?].
  apply (ensures_bind _ _ _ (λ r d, unchanged d0 d ∧ ∀ c, r = Ok c → c = cmdline)).
  { apply sys_ensures; [|by intros d e [? ?]|by intros d [? _]]. intros d [[Hf ?] ?]. simpl. rewrite Hf, Hc.
    split; [done|]. congruence. }
  intros [c|e]; [|eapply ensures_pre; [by apply Hnone|by intros d [? _]]].
  eapply ensures_pre; [|intros d [Hd Hi]; exact (conj Hd (Hi c eq_refl))]. apply ensures_pure. intros ->. fold slot.
  case_match eqn:Hl; [by apply Hnone|]. apply String.eqb_neq, slotLetter_letter in Hl. fold slot in Hl.
  eapply ensures_bind; [apply ensures_keeps; [apply ensureVFAT_keeps|by intros d [? _]]|].
  intros [[]|e]; [|by apply Hnone].
  apply (ensures_bind _ _ _ (look d0 slot)).
  { unfold withGrubenv_out. rewrite Ho. simpl.
    apply (WithESP_gen F (unchanged d0) (files (d_fs d0) (d_dev d0)) (look d0 slot)); try apply _.
    - by intros d [? _].
    - by intros [[m a] r] d [? _].
    - intros e d [Hf He]. split_and!; [done..|discriminate].
    - intros [m a] r e d (? & ? & _). by split_and!.
    - by apply first_look_spec. }
  intros [[[] []] [[]|e]]; simpl.
  all: try (eapply ensures_pre; [by apply repair_end_fallback|by intros d [? _]]).
  all: try (eapply ensures_pre; [by apply Hnone|intros d (? & He & _); split; [done|by apply He]]).
  - intros d (Hf & _ & H). destruct (H eq_refl eq_refl) as (kv & ? & ? & ?). split; [done|]. simpl. eauto.
  - intros d (Hf & _ & H). destruct (H eq_refl eq_refl) as (kv & Hkv & Hnr & He).
    by apply (repair_install_spec F sha256 o d0 srcRoot slot kv).
Qed.

(** The slot repair runs at most once per slot and reports what it did.
    From a boot of slot X: an outcome of none comes with an error and an
    untouched ESP; a repair is only ever done when grubenv carries no X_REPAIR
    flag, sets it, clears X_TRY and changes no other key, with both boot files
    at the rootfs's digest; a nil-error fallback is only ever the answer to
    that flag, and leaves X_OK and X_TRY 0 and the flag dropped.  No slot
    partition and no file outside the ESP is ever touched. *)
Theorem repair_at_most_once F sha256 o pr pv srcRoot d cmdline :
  honest F → o_grubenvPath o = EmptyString → d_fs d !! o_procCmdline o = Some cmdline →
  let X := slotLetter (bootedSlotFromCmdline cmdline) in
  let '(out, d') := repairRunningSlot F sha256 o pr pv srcRoot d in
  d_fs d' = d_fs d ∧ d_dev d' = d_dev d ∧
  match out with
  | Some (RepairNone, err) => err ≠ None ∧ d_esp d' = d_esp d
  | Some (RepairRepaired, err) => err = None ∧ boot_current sha256 d srcRoot d' ∧
      ∃ kv, env_of d = Some kv ∧ get_str kv (X +:+ "_REPAIR") ≠ "1" ∧
        env_of d' = Some (<[X +:+ "_REPAIR" := "1"]> (<[X +:+ "_TRY" := "0"]> kv))
  | Some (RepairFallback, None) =>
      ∃ kv, env_of d = Some kv ∧ get_str kv (X +:+ "_REPAIR") = "1" ∧
        env_of d' = Some (delete (X +:+ "_REPAIR") (<[X +:+ "_TRY" := "0"]> (<[X +:+ "_OK" := "0"]> kv)))
  | Some (RepairFallback, Some _) | None => True
  end.
Proof.
  intros HF Ho Hc X.
  pose proof (repairRunningSlot_spec F sha256 o pr pv srcRoot d cmdline HF Ho Hc d ltac:(done)) as H. fold X in H.
  destruct (repairRunningSlot F sha256 o pr pv srcRoot d) as [[[[] err]|] d'].
  - by destruct H as [[? ?] ?].
  - by destruct H as [[? ?] ?].
  - destruct H as [[? ?] H]. split_and!; [done..|]. destruct err; [done|].
    destruct H as (kv & ? & Hr & Henv). exists kv. split_and!; [done..|]. rewrite Henv.
    unfold second_edit, repaired_before, repair_key_of in *. by rewrite Hr.
  - by destruct H.
Qed.

(** A boot of slot B on the old kernel: the ESP lacks the boot files, the
    rootfs carries them. *)
Definition disk_mismatch : Disk :=
  mkDisk 0 (<["/proc/cmdline" := "root=PARTLABEL=rootfs-1"]> (<["/proc/filesystems" := "vfat"]>
      (<["/boot/bootx64.efi" := "EFI"]> {[ "/boot/grub.cfg" := "CFG" ]})))
    (d_esp disk0) (d_dev disk0) (d_block disk0) [] [] [].
Definition after_repair : option RepairResult * Disk :=
  repairRunningSlot no_faults (λ s, s) backend0 "r" "v" "/" disk_mismatch.

Lemma repair_at_most_once_witness :
  fst after_repair = Some (RepairRepaired, None) ∧ boot_current (λ s, s) disk_mismatch "/" (snd after_repair).
Proof.
  assert (fst after_repair = Some (RepairRepaired, None)) as Hf by (vm_compute; reflexivity).
  split; [exact Hf|].
  pose proof (repair_at_most_once no_faults (λ s, s) backend0 "r" "v" "/" disk_mismatch "root=PARTLABEL=rootfs-1") as H.
  fold after_repair in H. rewrite (surjective_pairing after_repair), Hf in H.
  destruct H as (_ & _ & _ & H & _); [intros n s; discriminate|reflexivity|vm_compute; reflexivity|exact H].
Defined.

Definition no_second_mount : nat → Fault :=
  λ n, if Nat.eqb n 9 then Err 0 (errors_New "block: I/O error") else NoFault.
Definition disk_no_efi : Disk :=
  mkDisk 0 (<["/proc/cmdline" := "root=PARTLABEL=rootfs-0"]> {[ "/proc/filesystems" := "vfat" ]})
    (d_esp disk0) (d_dev disk0) (d_block disk0) [] [] [].

(** A fallback outcome does not imply that the slot was marked bad: when
    the repair fails and the ESP then cannot be mounted again, the outcome is
    RepairFallback with X_OK still 1.  The command line tool prints that the
    slot was marked bad and exits 0 on this outcome. *)
Theorem fallback_may_not_mark :
  let '(out, d') := repairRunningSlot no_second_mount (λ s, s) backend0 "r" "v" "/" disk_no_efi in
  (∃ e, out = Some (RepairFallback, Some e)) ∧ (λ kv, get_str kv "A_OK") <$> env_of d' = Some "1".
Proof. vm_compute. eauto. Qed.
