(* ===== verification/NodeRegistry.v ===== *)
(** * The api's one in-memory node list

    api/internal/inventory/registry.go: what every node-facing admission reads.
    The registry is a value; its mutators return the new value together with
    the calls the hooks get, in order.  A time is a number of nanoseconds, the
    zero time 0. *)
From Stdlib Require Import Ascii String.
From S2P Require Import Prelude GoStrings.

(** ** Data *)

Record RegistryEntry := mkEntry {
  e_Member : bool;
  e_Role : string;
  e_TokenLive : bool;
  e_LastSeen : Z;
  e_tokens : gset string;
  e_Keys : gmap string string   (* purpose to SPKI hash *)
}.

Record KeyOwner := mkOwner { ko_NodeID : string; ko_Purpose : string }.
#[export] Instance KeyOwner_eq_dec : EqDecision KeyOwner.
Proof. solve_decision. Defined.

Record Registry := mkRegistry {
  r_entries : gmap string RegistryEntry;
  r_byKey : gmap string KeyOwner;
  r_membersLoaded : bool;
  r_tokensLoaded : bool
}.

Definition empty_entry : RegistryEntry := mkEntry false EmptyString false 0 ∅ ∅.
Definition NewRegistry : Registry := mkRegistry ∅ ∅ false false.

Definition admitted (e : RegistryEntry) : bool := e_Member e && e_TokenLive e.
Definition entry_empty (e : RegistryEntry) : bool :=
  negb (e_Member e) && negb (e_TokenLive e) && Z.eqb (e_LastSeen e) 0 && bool_decide (e_Keys e = ∅).
Definition loaded (r : Registry) : bool := r_membersLoaded r && r_tokensLoaded r.

(** ** Questions *)

Definition node_Admitted (r : Registry) (nodeID : string) : bool :=
  loaded r && match r_entries r !! nodeID with Some e => admitted e | None => false end.

Definition TokenAdmits (r : Registry) (nodeID tokenHash : string) : bool :=
  if String.eqb nodeID EmptyString || String.eqb tokenHash EmptyString then false
  else if negb (loaded r) then false
  else match r_entries r !! nodeID with
       | None => false
       | Some e => bool_decide (tokenHash ∈ e_tokens e)
       end.

Definition KeyOwner_of (r : Registry) (spki : string) : option KeyOwner :=
  if String.eqb spki EmptyString then None else r_byKey r !! spki.

Definition AdmitKey (r : Registry) (spki : string) : option KeyOwner :=
  if String.eqb spki EmptyString then None
  else if negb (loaded r) then None
  else match r_byKey r !! spki with
       | None => None
       | Some o =>
           match r_entries r !! ko_NodeID o with
           | Some e => if admitted e then Some o else None
           | None => None
           end
       end.

Definition IsMember (r : Registry) (nodeID : string) : bool :=
  if negb (r_membersLoaded r) then false
  else match r_entries r !! nodeID with Some e => e_Member e | None => false end.

Record Member := mkMember { m_ID : string; m_Role : string; m_LastSeen : Z }.
Definition member_le (a b : Member) : Prop := string_le (m_ID a) (m_ID b).
#[export] Instance member_le_dec : RelDecision member_le.
Proof. intros a b. unfold member_le. apply _. Defined.

Definition Members (r : Registry) : list Member :=
  if negb (r_membersLoaded r) then []
  else merge_sort member_le
    (omap (λ p, if e_Member p.2 then Some (mkMember p.1 (e_Role p.2) (e_LastSeen p.2)) else None)
       (map_to_list (r_entries r))).

Definition registry_Lookup (r : Registry) (nodeID : string) : option RegistryEntry := r_entries r !! nodeID.

Definition MemberCount (r : Registry) : nat :=
  length (filter (λ p, e_Member p.2 = true) (map_to_list (r_entries r))).

Definition lastSeen (r : Registry) (nodeID : string) : Z :=
  match r_entries r !! nodeID with Some e => e_LastSeen e | None => 0 end.

Definition Touch (nodeID : string) (t : Z) (r : Registry) : bool * Registry :=
  if negb (r_membersLoaded r) then (false, r)
  else match r_entries r !! nodeID with
       | None => (false, r)
       | Some e =>
           if negb (e_Member e) then (false, r)
           else
             let e' := if Z.ltb (e_LastSeen e) t
                       then mkEntry (e_Member e) (e_Role e) (e_TokenLive e) t (e_tokens e) (e_Keys e) else e in
             (true, mkRegistry (<[nodeID := e']> (r_entries r)) (r_byKey r) (r_membersLoaded r) (r_tokensLoaded r))
       end.

(** ** The one mutator *)

(** [reindexKeysLocked], on the two key maps as its range loops enumerate them. *)
Definition drop_key (nodeID : string) (byKey : gmap string KeyOwner) (spki : string) : gmap string KeyOwner :=
  match byKey !! spki with
  | Some o => if String.eqb (ko_NodeID o) nodeID then delete spki byKey else byKey
  | None => byKey
  end.
Definition gone_keys (before : list (string * string)) (after : gmap string string) : list string :=
  omap (λ kv, if String.eqb (default EmptyString (after !! kv.1)) kv.2 then None else Some kv.2) before.
Definition new_keys (before : gmap string string) (after : list (string * string)) : list (string * string) :=
  filter (λ kv, default EmptyString (before !! kv.1) ≠ kv.2) after.

Definition reindexKeysLocked (nodeID : string) (before after : gmap string string) (byKey : gmap string KeyOwner) :
    list string * gmap string KeyOwner :=
  let gone := gone_keys (map_to_list before) after in
  let byKey := foldl (drop_key nodeID) byKey gone in
  let byKey := foldl (λ m kv, <[kv.2 := mkOwner nodeID kv.1]> m) byKey (new_keys before (map_to_list after)) in
  (sort_Strings gone, byKey).

(** The hook calls of an update: the nodes excluded, then the keys retired. *)
Record HookCalls := mkCalls { hc_excluded : list string; hc_retired : list (string * list string) }.

Fixpoint add_retired (id : string) (gone : list string) (l : list (string * list string)) : list (string * list string) :=
  match l with
  | [] => [(id, gone)]
  | (i, g) :: l => if String.eqb i id then (i, g ++ gone) :: l else (i, g) :: add_retired id gone l
  end.

Definition update_one (change : string → RegistryEntry → RegistryEntry)
    (acc : gmap string RegistryEntry * gmap string KeyOwner * HookCalls) (id : string) :
    gmap string RegistryEntry * gmap string KeyOwner * HookCalls :=
  let '(entries, byKey, calls) := acc in
  let e := default empty_entry (entries !! id) in
  let c := change id e in
  let e' := mkEntry (e_Member c) (e_Role c) (bool_decide (e_tokens c ≠ ∅)) (e_LastSeen c) (e_tokens c) (e_Keys c) in
  let excluded := if admitted e && negb (admitted e') then hc_excluded calls ++ [id] else hc_excluded calls in
  let entries := if entry_empty e' then delete id entries else <[id := e']> entries in
  let '(gone, byKey) := reindexKeysLocked id (e_Keys e) (e_Keys e') byKey in
  let retired := if bool_decide (gone = []) then hc_retired calls else add_retired id gone (hc_retired calls) in
  (entries, byKey, mkCalls excluded retired).

Definition update (ids : list string) (change : string → RegistryEntry → RegistryEntry) (r : Registry) :
    HookCalls * Registry :=
  let '(entries, byKey, calls) := foldl (update_one change) (r_entries r, r_byKey r, mkCalls [] []) ids in
  (calls, mkRegistry entries byKey (r_membersLoaded r) (r_tokensLoaded r)).

Definition setKeys (nodeID : string) (keys : gmap string string) (r : Registry) : HookCalls * Registry :=
  update [nodeID] (λ _ e, mkEntry (e_Member e) (e_Role e) (e_TokenLive e) (e_LastSeen e) (e_tokens e) keys) r.

Definition member_change (role : string) (member : bool) (lastSeen_ : Z) (e : RegistryEntry) : RegistryEntry :=
  let seen := if Z.ltb (e_LastSeen e) lastSeen_ then lastSeen_ else e_LastSeen e in
  mkEntry member (if member then role else EmptyString) (e_TokenLive e) (if member then seen else 0)
    (e_tokens e) (if member then e_Keys e else ∅).
Definition setMember (nodeID role : string) (member : bool) (lastSeen_ : Z) (r : Registry) : HookCalls * Registry :=
  update [nodeID] (λ _ e, member_change role member lastSeen_ e) r.

Definition setTokens (e : RegistryEntry) (hashes : list string) : RegistryEntry :=
  mkEntry (e_Member e) (e_Role e) (e_TokenLive e) (e_LastSeen e)
    (list_to_set (filter (λ h, h ≠ EmptyString) hashes)) (e_Keys e).

Definition SetLiveTokens (nodeID : string) (hashes : list string) (r : Registry) : HookCalls * Registry :=
  update [nodeID] (λ _ e, setTokens e hashes) r.

Definition ReplaceLiveTokens (live : gmap string (list string)) (r : Registry) : HookCalls * Registry :=
  let ids := (map_to_list (r_entries r)).*1 ++
             filter (λ id, r_entries r !! id = None) (map_to_list live).*1 in
  let '(calls, r') := update ids (λ id e, setTokens e (default [] (live !! id))) r in
  (calls, mkRegistry (r_entries r') (r_byKey r') (r_membersLoaded r') true).

(** [loadMembers], given the rows of the nodes table or the query's error. *)
Definition loadMembers (rows : result (list (string * string * option Z))) (r : Registry) :
    option error * Registry :=
  match rows with
  | Fail e => (Some (wrapf ("inventory: load the node registry: " +:+ err_text e) e), r)
  | Ok ms =>
      let r' := foldl (λ r '(id, role, seen), snd (setMember id role true (default 0 seen) r)) r ms in
      (None, mkRegistry (r_entries r') (r_byKey r') true (r_tokensLoaded r'))
  end.

(** ** What an update does to one entry *)

(** The entry an update leaves for [e] under [change]. *)
Definition changed (change : string → RegistryEntry → RegistryEntry) (id : string) (e : RegistryEntry) : RegistryEntry :=
  let c := change id e in
  mkEntry (e_Member c) (e_Role c) (bool_decide (e_tokens c ≠ ∅)) (e_LastSeen c) (e_tokens c) (e_Keys c).
Definition kept (e : RegistryEntry) : option RegistryEntry := if entry_empty e then None else Some e.
Definition entry_at (entries : gmap string RegistryEntry) (id : string) : RegistryEntry :=
  default empty_entry (entries !! id).

Lemma update_one_lookup change entries byKey calls id id' :
  (update_one change (entries, byKey, calls) id).1.1 !! id'
    = if decide (id = id') then kept (changed change id (entry_at entries id)) else entries !! id'.
Proof.
  unfold update_one, changed, kept, entry_at. destruct (reindexKeysLocked _ _ _ _) as [gone bk]. simpl.
  destruct (entry_empty _), (decide (id = id')) as [->|]; simpl.
  - by rewrite lookup_delete_eq.
  - by rewrite lookup_delete_ne.
  - by rewrite lookup_insert_eq.
  - by rewrite lookup_insert_ne.
Qed.

Lemma update_one_excluded change entries byKey calls id :
  hc_excluded (update_one change (entries, byKey, calls) id).2
    = hc_excluded calls ++ (if admitted (entry_at entries id) && negb (admitted (changed change id (entry_at entries id)))
                            then [id] else []).
Proof.
  unfold update_one, changed, entry_at. destruct (reindexKeysLocked _ _ _ _) as [gone bk]. simpl.
  destruct (admitted _ && _); [done|]. by rewrite app_nil_r.
Qed.

(** ** The reverse index is sound *)

Definition index_ok (entries : gmap string RegistryEntry) (byKey : gmap string KeyOwner) : Prop :=
  ∀ k o, k ≠ EmptyString → byKey !! k = Some o →
    ∃ e, entries !! ko_NodeID o = Some e ∧ e_Keys e !! ko_Purpose o = Some k.

Lemma drop_keys_lookup n byKey gone k o :
  foldl (drop_key n) byKey gone !! k = Some o → byKey !! k = Some o ∧ (k ∈ gone → ko_NodeID o ≠ n).
Proof.
  revert byKey. induction gone as [|g gone IH]; intros byKey; simpl; [by split; [|set_solver]|].
  intros [Hk Hn]%IH. unfold drop_key in Hk. destruct (byKey !! g) as [og|] eqn:Eg; [|split; [done|set_solver]].
  destruct (String.eqb_spec (ko_NodeID og) n) as [<-|Hne].
  - apply lookup_delete_Some in Hk as [Hgk Hk]. split; [done|]. set_solver.
  - split; [done|]. intros [->|?]%elem_of_cons; [|by apply Hn]. congruence.
Qed.

Lemma add_keys_lookup n (byKey : gmap string KeyOwner) l k o :
  foldl (λ m (kv : string * string), <[kv.2 := mkOwner n kv.1]> m) byKey l !! k = Some o →
  (o = mkOwner n (ko_Purpose o) ∧ (ko_Purpose o, k) ∈ l) ∨ byKey !! k = Some o.
Proof.
  revert byKey. induction l as [|[p s] l IH]; intros byKey; simpl; [by right|].
  intros [[Ho Hin]|Hk]%IH; [left; set_solver|]. destruct (decide (s = k)) as [->|Hne].
  - rewrite lookup_insert_eq in Hk. injection Hk as <-. left. set_solver.
  - rewrite lookup_insert_ne in Hk by done. by right.
Qed.

(** After reindexing node [n], an index entry is one of [n]'s present keys, or
    another node's. *)
Lemma reindex_spec n before after byKey k o : k ≠ EmptyString →
  (reindexKeysLocked n before after byKey).2 !! k = Some o →
  (ko_NodeID o = n ∧ after !! ko_Purpose o = Some k) ∨
  (byKey !! k = Some o ∧ (ko_NodeID o = n → before !! ko_Purpose o = Some k → after !! ko_Purpose o = Some k)).
Proof.
  intros Hk. unfold reindexKeysLocked. simpl. intros [[Ho Hin]|H]%add_keys_lookup.
  - left. rewrite Ho. split; [done|]. apply list_elem_of_filter in Hin as [_ Hin%elem_of_map_to_list]. done.
  - right. apply drop_keys_lookup in H as [Hb Hg]. split; [done|]. intros Hn Hbp.
    destruct (decide (default EmptyString (after !! ko_Purpose o) = k)) as [E|E].
    + destruct (after !! ko_Purpose o); simpl in E; congruence.
    + exfalso. apply Hg; [|done]. unfold gone_keys. apply list_elem_of_omap. exists (ko_Purpose o, k).
      split; [by apply elem_of_map_to_list|]. simpl. by rewrite (proj2 (String.eqb_neq _ _)).
Qed.

Lemma entry_at_Some entries id e : entries !! id = Some e → entry_at entries id = e.
Proof. unfold entry_at. by intros ->. Qed.

Definition entries_ok (entries : gmap string RegistryEntry) : Prop :=
  ∀ id e, entries !! id = Some e → e_TokenLive e = bool_decide (e_tokens e ≠ ∅) ∧ entry_empty e = false.

Lemma kept_keys e p k : e_Keys e !! p = Some k → kept e = Some e.
Proof.
  unfold kept, entry_empty. intros Hk. rewrite (bool_decide_false (e_Keys e = ∅)); [by rewrite andb_false_r|].
  intros E. by rewrite E, lookup_empty in Hk.
Qed.

Lemma update_one_ok change entries byKey calls id :
  entries_ok entries → index_ok entries byKey →
  let acc := update_one change (entries, byKey, calls) id in
  entries_ok acc.1.1 ∧ index_ok acc.1.1 acc.1.2.
Proof.
  intros He Hi acc. split.
  - intros id' e'. unfold acc. rewrite update_one_lookup. case_decide; [|apply He].
    unfold kept. case_match eqn:E; [done|]. intros [= <-]. by split.
  - intros k o Hk Ho.
    assert (acc.1.2 = (reindexKeysLocked id (e_Keys (entry_at entries id)) (e_Keys (changed change id (entry_at entries id))) byKey).2) as E.
    { unfold acc, update_one, changed, entry_at. by destruct (reindexKeysLocked _ _ _ _). }
    rewrite E in Ho. unfold acc. rewrite update_one_lookup. apply reindex_spec in Ho as [[Hn Ha]|[Hb Hn]]; [| |done].
    + rewrite decide_True by done. eexists. split; [by eapply kept_keys|done].
    + destruct (Hi k o Hk Hb) as (e & Hent & Hkey). destruct (decide (id = ko_NodeID o)) as [->|Hne]; [|eauto].
      rewrite (entry_at_Some _ _ _ Hent) in *. specialize (Hn eq_refl Hkey). eexists. split; [by eapply kept_keys|done].
Qed.

Definition reg_ok (r : Registry) : Prop := entries_ok (r_entries r) ∧ index_ok (r_entries r) (r_byKey r).

Lemma update_ok ids change r : reg_ok r → reg_ok (update ids change r).2.
Proof.
  unfold update, reg_ok. intros Hr.
  assert (∀ acc, entries_ok acc.1.1 ∧ index_ok acc.1.1 acc.1.2 →
    entries_ok (foldl (update_one change) acc ids).1.1 ∧
    index_ok (foldl (update_one change) acc ids).1.1 (foldl (update_one change) acc ids).1.2) as H.
  { induction ids as [|id ids IH]; intros [[en bk] ca] Ha; [done|]. apply IH. destruct Ha. by apply (update_one_ok change en bk ca id). }
  specialize (H (r_entries r, r_byKey r, mkCalls [] []) Hr).
  by destruct (foldl _ _ ids) as [[en bk] ca].
Qed.

#[local] Arguments update_one : simpl never.
#[local] Arguments update : simpl never.

(** ** Hooks fire exactly when a node stops being admitted *)

Definition admitted_at (entries : gmap string RegistryEntry) (id : string) : bool := admitted (entry_at entries id).

Lemma kept_admitted e : admitted (default empty_entry (kept e)) = admitted e.
Proof.
  unfold kept. destruct (entry_empty e) eqn:E; [|done]. unfold entry_empty, admitted in *. simpl.
  destruct (e_Member e), (e_TokenLive e); simpl in *; done.
Qed.

Lemma update_one_admitted change entries byKey calls id :
  admitted_at (update_one change (entries, byKey, calls) id).1.1 id
    = admitted (changed change id (entry_at entries id)).
Proof. unfold admitted_at, entry_at at 1. rewrite update_one_lookup, decide_True by done. apply kept_admitted. Qed.

Lemma update_one_other change entries byKey calls id id' : id ≠ id' →
  entry_at (update_one change (entries, byKey, calls) id).1.1 id' = entry_at entries id'.
Proof. intros Hne. unfold entry_at. by rewrite update_one_lookup, decide_False. Qed.

Lemma foldl_update_other change ids acc id : id ∉ ids →
  entry_at (foldl (update_one change) acc ids).1.1 id = entry_at acc.1.1 id.
Proof.
  revert acc. induction ids as [|i ids IH]; intros [[en bk] ca] Hn; [done|]. simpl.
  rewrite IH by set_solver. apply update_one_other. set_solver.
Qed.

Lemma foldl_update_excluded change ids acc id : NoDup ids →
  id ∈ hc_excluded (foldl (update_one change) acc ids).2 ↔
  id ∈ hc_excluded acc.2 ∨
  (id ∈ ids ∧ admitted_at acc.1.1 id = true ∧ admitted_at (foldl (update_one change) acc ids).1.1 id = false).
Proof.
  intros Hnd. revert acc. induction Hnd as [|i ids Hi Hnd IH]; intros [[en bk] ca]; simpl.
  { split; [by left|]. intros [?|[?%elem_of_nil _]]; done. }
  rewrite IH, update_one_excluded, elem_of_app.
  destruct (decide (id = i)) as [->|Hne].
  - assert (admitted_at (foldl (update_one change) (update_one change (en, bk, ca) i) ids).1.1 i
      = admitted (changed change i (entry_at en i))) as Hfin.
    { unfold admitted_at. rewrite foldl_update_other by done. apply update_one_admitted. }
    rewrite Hfin, update_one_admitted. unfold admitted_at.
    destruct (admitted (entry_at en i)), (admitted (changed change i (entry_at en i))); simpl;
      rewrite ?list_elem_of_singleton, ?elem_of_nil, elem_of_cons; intuition discriminate.
  - assert (id ∉ (if admitted (entry_at en i) && negb (admitted (changed change i (entry_at en i))) then [i] else []))
      by (case_match; set_solver).
    unfold admitted_at at 1 4. rewrite update_one_other by done. rewrite elem_of_cons. tauto.
Qed.

(** The exclusion hook is exact: an update of the registry calls it for
    a node if and only if the node was admitted before it and is not after it,
    and once per node; entries of nodes it does not name are as they were. *)
Theorem exclusion_exact (ids : list string) change r :
  NoDup ids →
  let '(calls, r') := update ids change r in
  (∀ id, id ∈ hc_excluded calls ↔
     admitted_at (r_entries r) id = true ∧ admitted_at (r_entries r') id = false) ∧
  (∀ id, id ∉ ids → entry_at (r_entries r') id = entry_at (r_entries r) id).
Proof.
  intros Hnd. unfold update.
  pose proof (λ id, foldl_update_excluded change ids (r_entries r, r_byKey r, mkCalls [] []) id Hnd) as Hex.
  pose proof (foldl_update_other change ids (r_entries r, r_byKey r, mkCalls [] [])) as Hot.
  destruct (foldl _ _ ids) as [[en bk] ca]. simpl in *. split; [|exact Hot].
  intros id. rewrite Hex. split; [by intros [?%elem_of_nil|[_ ?]]|]. intros [Hb Ha]. right. split; [|done].
  destruct (decide (id ∈ ids)); [done|]. unfold admitted_at in *. rewrite Hot in Ha by done. congruence.
Qed.

(** ** Any history of the registry *)
Inductive RegOp :=
| OpSetKeys (n : string) (ks : gmap string string)
| OpSetMember (n role : string) (member : bool) (t : Z)
| OpSetLiveTokens (n : string) (hs : list string)
| OpReplaceLiveTokens (live : gmap string (list string))
| OpLoadMembers (rows : result (list (string * string * option Z)))
| OpTouch (n : string) (t : Z).

Definition apply_op (r : Registry) (op : RegOp) : Registry :=
  match op with
  | OpSetKeys n ks => (setKeys n ks r).2
  | OpSetMember n role m t => (setMember n role m t r).2
  | OpSetLiveTokens n hs => (SetLiveTokens n hs r).2
  | OpReplaceLiveTokens live => (ReplaceLiveTokens live r).2
  | OpLoadMembers rows => (loadMembers rows r).2
  | OpTouch n t => (Touch n t r).2
  end.

Lemma Touch_ok n t r : reg_ok r → reg_ok (Touch n t r).2.
Proof.
  intros [He Hi]. unfold Touch. case_match; [done|]. destruct (r_entries r !! n) as [e|] eqn:En; [|done].
  case_match eqn:Hm; [done|]. apply negb_false_iff in Hm. simpl.
  set (e' := if Z.ltb _ _ then _ else _).
  assert (e_Keys e' = e_Keys e ∧ e_tokens e' = e_tokens e ∧ e_TokenLive e' = e_TokenLive e ∧ e_Member e' = true) as (HK & HT & HL & HM).
  { unfold e'. case_match; auto. }
  split.
  - intros id x. simpl. destruct (decide (n = id)) as [->|Hne].
    + rewrite lookup_insert_eq. intros [= <-]. rewrite HT, HL. destruct (He id e En) as [-> _].
      split; [done|]. unfold entry_empty. by rewrite HM.
    + rewrite lookup_insert_ne by done. apply He.
  - intros k o Hk Ho. simpl in *. destruct (Hi k o Hk Ho) as (x & Hx & Hkey).
    destruct (decide (n = ko_NodeID o)) as [->|Hne].
    + rewrite lookup_insert_eq. eexists. split; [done|]. rewrite HK. congruence.
    + rewrite lookup_insert_ne by done. eauto.
Qed.

Lemma apply_op_ok r op : reg_ok r → reg_ok (apply_op r op).
Proof.
  intros Hr. destruct op as [n ks|n role m t|n hs|live|rows|n t]; cbn [apply_op].
  - unfold setKeys. by apply update_ok.
  - unfold setMember. by apply update_ok.
  - unfold SetLiveTokens. by apply update_ok.
  - unfold ReplaceLiveTokens. pose proof (update_ok ((map_to_list (r_entries r)).*1 ++
      filter (λ id, r_entries r !! id = None) (map_to_list live).*1)
      (λ id e, setTokens e (default [] (live !! id))) r Hr) as H.
    by destruct (update _ _ r).
  - destruct rows as [ms|e]; [|done]. cbn [loadMembers snd].
    enough (reg_ok (foldl (λ r '(id, role, seen), (setMember id role true (default 0 seen) r).2) r ms)) as [??] by by split.
    revert r Hr. induction ms as [|[[id role] seen] ms IH]; intros r Hr; [done|].
    cbn [foldl]. apply IH. unfold setMember. by apply update_ok.
  - by apply Touch_ok.
Qed.

Lemma reg_ok_new : reg_ok NewRegistry.
Proof. split; [intros id e|intros k o _]; simpl; by rewrite lookup_empty. Qed.

(** C19. A node-facing handshake is admitted on current facts only: in every
    state the registry can reach, a key [AdmitKey] accepts belongs to a node
    that is a current member, holds at least one live join token, and has this
    very key registered for the purpose the answer names; and nothing is
    accepted before both loads have run. *)
Theorem admit_key_sound (ops : list RegOp) spki o :
  let r := foldl apply_op NewRegistry ops in
  AdmitKey r spki = Some o →
  loaded r = true ∧ ∃ e, r_entries r !! ko_NodeID o = Some e ∧
    e_Member e = true ∧ e_tokens e ≠ ∅ ∧ e_Keys e !! ko_Purpose o = Some spki.
Proof.
  intros r. assert (reg_ok r) as [He Hi].
  { unfold r. generalize NewRegistry reg_ok_new. induction ops as [|op ops IH]; intros r0 Hr0; [done|].
    apply IH. by apply apply_op_ok. }
  clearbody r. unfold AdmitKey. destruct (String.eqb_spec spki EmptyString) as [|Hne]; [done|].
  destruct (loaded r); [|done]. destruct (r_byKey r !! spki) as [o'|] eqn:Ho; [|done]. simpl.
  destruct (r_entries r !! ko_NodeID o') as [e|] eqn:Ee; [|done]. destruct (admitted e) eqn:Ha; [|done].
  intros [= <-]. split; [done|]. exists e. destruct (Hi spki o' Hne Ho) as (e2 & He2 & Hk).
  apply andb_true_iff in Ha as [Hm Ht]. destruct (He _ _ Ee) as [Hl _]. rewrite Hl in Ht.
  apply bool_decide_eq_true in Ht. split_and!; [done..|]. congruence.
Qed.

Definition reg_history : list RegOp :=
  [OpLoadMembers (Ok [("fw1", "firewall", None)]); OpReplaceLiveTokens {[ "fw1" := ["h1"] ]};
   OpSetKeys "fw1" {[ "node" := "spki-1" ]}].

Lemma admit_key_sound_witness :
  loaded (foldl apply_op NewRegistry reg_history) = true ∧
  ∃ e, r_entries (foldl apply_op NewRegistry reg_history) !! "fw1" = Some e ∧
    e_Member e = true ∧ e_tokens e ≠ ∅ ∧ e_Keys e !! "node" = Some "spki-1".
Proof. apply (admit_key_sound reg_history "spki-1" (mkOwner "fw1" "node")). vm_compute. reflexivity. Defined.

Definition reg_loaded : Registry := foldl apply_op NewRegistry reg_history.
Definition last_revoked : HookCalls * Registry := update ["fw1"] (λ _ e, setTokens e []) reg_loaded.

Lemma exclusion_exact_witness :
  hc_excluded last_revoked.1 = ["fw1"] ∧
  (∀ id, id ∈ hc_excluded last_revoked.1 ↔
     admitted_at (r_entries reg_loaded) id = true ∧ admitted_at (r_entries last_revoked.2) id = false).
Proof.
  split; [vm_compute; reflexivity|].
  pose proof (exclusion_exact ["fw1"] (λ _ e, setTokens e []) reg_loaded) as H. fold last_revoked in H.
  destruct last_revoked as [calls r']. destruct H as [H _]; [apply NoDup_singleton|exact H].
Defined.
