(* ===== verification/BusTokens.v ===== *)
(** * Join tokens and bus sessions

    api/internal/busauth: the token table (tokens.go, role.go, nodeid.go), the
    revocation tombstones (tombstones.go), the live sessions (sessions.go,
    takeover.go), the pushes to the node registry (livenodes.go) and the
    controlplane's own token (agenttoken.go).

    Every database statement and file write asks an oracle for its error.  The
    JSON of a tombstone file is kept as the value it encodes.  SHA-256 and the
    random source are parameters.  The node registry is any implementation of
    the interface the package declares. *)
From Stdlib Require Import Ascii String.
From S2P Require Import Prelude GoStrings GoPath.

(** ** Node ids and roles *)

Definition dns_char (c : ascii) : bool := in_range 97 122 c || in_range 48 57 c || Ascii.eqb c "-".
Fixpoint last_char (s : string) : option ascii :=
  match s with
  | EmptyString => None
  | String c EmptyString => Some c
  | String _ s => last_char s
  end.
Definition ValidDNSLabel (s : string) : bool :=
  if Nat.ltb (String.length s) 1 || Nat.ltb 63 (String.length s) then false
  else all_chars dns_char s &&
       negb (HasPrefix s "-") && negb (bool_decide (last_char s = Some ("-"%char))).
Definition ValidNodeID (id : string) : bool := ValidDNSLabel id.

Definition ErrInvalidNodeID : error := sentinel "ErrInvalidNodeID" "invalid node id".
Definition NodeIDRule : string :=
  "a node id must be 1-63 characters of lowercase letters, digits and hyphens, and must not start or end with a hyphen".
Definition checkNodeID (id : string) : option error :=
  if ValidNodeID id then None
  else Some (wrapf (err_text ErrInvalidNodeID +:+ " " +:+ quote id +:+ ": " +:+ NodeIDRule) ErrInvalidNodeID).

Definition RoleControlPlane : string := "controlplane".
Definition AllRoles : list string := [RoleControlPlane; "firewall"; "compute"; "storage"].
Definition ValidRole (r : string) : bool := bool_decide (r ∈ AllRoles).

Definition ErrNoRole : error := sentinel "ErrNoRole" "join token has no valid node role".
Definition roleList : string := Join AllRoles ", ".
Definition checkRole (role : string) : option error :=
  if ValidRole role then None
  else Some (wrapf (err_text ErrNoRole +:+ ": " +:+ quote role +:+ " is not one of " +:+ roleList) ErrNoRole).

Definition ResolveRole (role label : string) : result string :=
  if negb (String.eqb role EmptyString) then
    match checkRole role with Some e => Fail e | None => Ok role end
  else if ValidRole label then Ok label
  else Fail (wrapf (err_text ErrNoRole +:+ ": no role given and the label " +:+ quote label
    +:+ " is not one of " +:+ roleList) ErrNoRole).

Definition ErrUnboundToken : error :=
  sentinel "ErrUnboundToken" "unbound join token: every token must be bound to a node id".
Definition ErrSelfAgentToken : error :=
  sentinel "ErrSelfAgentToken" "the controlplane's own bus agent token cannot be revoked: the api minted it for this controlplane's agent, and revoking it would take that agent off the bus with no way back from the UI — to rotate it, delete bus/agent.token in the api's data directory (/var/lib/rasputin on an appliance) and restart the api, which then mints a fresh token and revokes this one".
Definition ErrNoRows : error := sentinel "sql.ErrNoRows" "sql: no rows in result set".

(** ** The table *)
Record TokenRow := mkTokenRow {
  t_label : string; t_created_at : Z; t_last_used_at : option Z; t_revoked_at : option Z;
  t_node_id : option string; t_self_agent : bool; t_role : option string }.

(** What the bus admits a node with: unrevoked, bound to it, with a valid role. *)
Definition role_ok (r : option string) : bool := match r with Some r => ValidRole r | None => false end.
Definition row_live (node : string) (r : TokenRow) : bool :=
  bool_decide (t_revoked_at r = None) && bool_decide (t_node_id r = Some node) && role_ok (t_role r).

Definition set_revoked (at_ : Z) (r : TokenRow) : TokenRow :=
  mkTokenRow (t_label r) (t_created_at r) (t_last_used_at r) (Some at_) (t_node_id r) (t_self_agent r) (t_role r).
Definition set_last_used (at_ : Z) (r : TokenRow) : TokenRow :=
  mkTokenRow (t_label r) (t_created_at r) (Some at_) (t_revoked_at r) (t_node_id r) (t_self_agent r) (t_role r).
Definition set_role (role : string) (r : TokenRow) : TokenRow :=
  mkTokenRow (t_label r) (t_created_at r) (t_last_used_at r) (t_revoked_at r) (t_node_id r) (t_self_agent r) (Some role).
Definition set_self (b : bool) (r : TokenRow) : TokenRow :=
  mkTokenRow (t_label r) (t_created_at r) (t_last_used_at r) (t_revoked_at r) (t_node_id r) b (t_role r).

Abbreviation table := (gmap string TokenRow).

(** UPDATE … WHERE: every row the condition selects. *)
Definition update_where (p : string → TokenRow → bool) (f : TokenRow → TokenRow) (t : table) : table :=
  map_imap (λ h r, Some (if p h r then f r else r)) t.
Definition select (p : string → TokenRow → bool) (t : table) : list (string * TokenRow) :=
  filter (λ kv, p kv.1 kv.2 = true) (map_to_list t).

(** ** Tombstones *)
Record Tombstone := mkTomb { tb_Hash : string; tb_NodeID : string; tb_RevokedAt : Z }.
#[export] Instance Tombstone_eq_dec : EqDecision Tombstone.
Proof. solve_decision. Defined.

(** A tombstone file: what it decodes to, or the error of opening, reading,
    sizing or decoding it. *)
Inductive TombFile :=
| TfUnreadable (e : error)
| TfDecoded (version : Z) (l : list Tombstone).
Definition tombstoneFileVersion : Z := 1.

(** The zero [Tombstone] stands for an absent map entry, as in Go. *)
Definition zero_tomb : Tombstone := mkTomb EmptyString EmptyString 0.

Definition earlier (have t : Tombstone) : Tombstone :=
  if String.eqb (tb_Hash have) EmptyString ||
     (negb (Z.eqb (tb_RevokedAt t) 0) && Z.ltb (tb_RevokedAt t) (tb_RevokedAt have)) then
    mkTomb (tb_Hash t) (if String.eqb (tb_NodeID t) EmptyString then tb_NodeID have else tb_NodeID t) (tb_RevokedAt t)
  else
    mkTomb (tb_Hash have) (if String.eqb (tb_NodeID have) EmptyString then tb_NodeID t else tb_NodeID have) (tb_RevokedAt have).

Abbreviation tombset := (gmap string Tombstone).
Definition add_tomb (set : tombset) (h : string) (t : Tombstone) : tombset :=
  <[h := earlier (default zero_tomb (set !! h)) t]> set.

Fixpoint read_entries (path : string) (i : nat) (l : list Tombstone) (out : tombset) : result tombset :=
  match l with
  | [] => Ok out
  | t :: l =>
      if String.eqb (tb_Hash t) EmptyString then
        Fail (errors_New ("busauth: tombstones " +:+ path +:+ ": entry " +:+ pretty i +:+ " names no hash"))
      else read_entries path (S i) l (add_tomb out (tb_Hash t) t)
  end.

Definition ReadTombstoneFile (files : gmap string TombFile) (path : string) : result tombset :=
  match files !! path with
  | None => Ok ∅
  | Some (TfUnreadable e) => Fail e
  | Some (TfDecoded v l) =>
      if negb (Z.eqb v tombstoneFileVersion) then
        Fail (errors_New ("busauth: tombstones " +:+ path +:+ ": version " +:+ pretty v +:+ "; this build reads "
          +:+ pretty tombstoneFileVersion))
      else read_entries path 0 l ∅
  end.

Definition tomb_le (a b : Tombstone) : Prop := string_le (tb_Hash a) (tb_Hash b).
#[export] Instance tomb_le_dec : RelDecision tomb_le.
Proof. intros a b. unfold tomb_le. apply _. Defined.
Definition tomb_file (set : tombset) : TombFile :=
  TfDecoded tombstoneFileVersion (merge_sort tomb_le (map_to_list set).*2).

(** ** Sessions *)
Abbreviation session := (string * Z)%type.
Record grant := mkGrant { g_tokenID : string; g_nodeID : string; g_host : string }.
#[export] Instance grant_eq_dec : EqDecision grant.
Proof. solve_decision. Defined.
Abbreviation grants := (gmap session grant).

Record Conn := mkConn { c_ServerID : string; c_CID : Z; c_Host : string }.

Definition take_grants (match_ : grant → bool) (g : grants) : list (session * grant) * grants :=
  (filter (λ kv, match_ kv.2 = true) (map_to_list g), filter (λ kv, match_ kv.2 = false) g).
Definition prune_grants (open_ : gset session) (g : grants) : grants := filter (λ kv, kv.1 ∈ open_) g.

(** ** Takeovers *)
Definition takeoverHostsKept : nat := 4.
Record takeover := mkTakeover {
  tk_nodeID : string; tk_evictions : nat; tk_alternations : nat; tk_lastEvicted : string;
  tk_hosts : list string; tk_alternatingSince : Z; tk_lastAt : Z }.

Definition noteHost (host : string) (hosts : list string) : list string :=
  if String.eqb host EmptyString || bool_decide (takeoverHostsKept ≤ length hosts)%nat then hosts
  else if bool_decide (host ∈ hosts) then hosts
  else hosts ++ [host].

Definition note_record (now : Z) (evictedHost newHost : string) (r : takeover) : takeover :=
  let hosts := noteHost newHost (noteHost evictedHost (tk_hosts r)) in
  if negb (String.eqb evictedHost EmptyString) && negb (String.eqb newHost EmptyString)
     && negb (String.eqb evictedHost newHost) then
    let alternates := String.eqb (tk_lastEvicted r) newHost in
    mkTakeover (tk_nodeID r) (S (tk_evictions r))
      (if alternates then S (tk_alternations r) else tk_alternations r) evictedHost hosts
      (if alternates && Z.eqb (tk_alternatingSince r) 0 then now else tk_alternatingSince r) now
  else
    mkTakeover (tk_nodeID r) (S (tk_evictions r)) (tk_alternations r) (tk_lastEvicted r) hosts
      (tk_alternatingSince r) now.

Definition noteTakeover (now : Z) (tokenID nodeID evictedHost newHost : string) (tk : gmap string takeover) :
    gmap string takeover :=
  let r := default (mkTakeover nodeID 0 0 EmptyString [] 0 0) (tk !! tokenID) in
  <[tokenID := note_record now evictedHost newHost r]> tk.

Definition ForgetNode (nodeID : string) (tk : gmap string takeover) : gmap string takeover :=
  if String.eqb nodeID EmptyString then tk else filter (λ kv, tk_nodeID kv.2 ≠ nodeID) tk.

(** ** The node registry, as this package uses it *)
Class NodeRegistry (R : Type) := {
  nr_replace : gmap string (list string) → R → list string * R; (* excluded nodes, new registry *)
  nr_set : string → list string → R → list string * R;
  nr_admits : R → string → string → bool;
  nr_ready : R → bool
}.

(** What the package relies on, stated on the live token hashes the registry
    holds for a node. *)
Class NodeRegistryLaws (R : Type) `{!NodeRegistry R} := {
  nr_tokens : R → string → gset string;
  nr_admits_tokens r n h :
    nr_admits r n h = true ↔ nr_ready r = true ∧ n ≠ EmptyString ∧ h ≠ EmptyString ∧ h ∈ nr_tokens r n;
  nr_tokens_set n hs r n' h :
    h ∈ nr_tokens (nr_set n hs r).2 n' ↔ if decide (n' = n) then h ∈ hs ∧ h ≠ EmptyString else h ∈ nr_tokens r n';
  nr_tokens_replace live r n h :
    h ∈ nr_tokens (nr_replace live r).2 n ↔ h ∈ default [] (live !! n) ∧ h ≠ EmptyString
}.

(** What lstat and a read of the controlplane agent's token file yield. *)
Inductive AgentFile :=
| AfMissing
| AfStatError (text : string)
| AfIrregular (type : string)
| AfFile (perm : Z) (data : result string).

(** ** The store *)
Record Bus (R : Type) := mkBus {
  b_tick : nat;
  b_rows : table;
  b_grants : grants;
  b_disc : bool;              (* a Disconnector is attached *)
  b_open : gset session;      (* connections the bus server has open *)
  b_self : string;            (* selfNodeID *)
  b_sink : bool;              (* the registry is attached *)
  b_reg : R;
  b_tombPath : string;
  b_tomb : tombset;
  b_files : gmap string TombFile;
  b_tk : gmap string takeover;
  b_agent : AgentFile         (* the controlplane agent's token file *)
}.
Arguments mkBus {R}.
Arguments b_tick {R}. Arguments b_rows {R}. Arguments b_grants {R}. Arguments b_disc {R}.
Arguments b_open {R}. Arguments b_self {R}. Arguments b_sink {R}. Arguments b_reg {R}.
Arguments b_tombPath {R}. Arguments b_tomb {R}. Arguments b_files {R}. Arguments b_tk {R}. Arguments b_agent {R}.

Section Store.
Context {R : Type} `{!NodeRegistry R}.
Context (F : nat → option error) (clk : nat → Z) (HashToken : string → string) (rand : nat → result string).
Implicit Types b : Bus R.

Definition tick b : Bus R := mkBus (S (b_tick b)) (b_rows b) (b_grants b) (b_disc b) (b_open b) (b_self b)
  (b_sink b) (b_reg b) (b_tombPath b) (b_tomb b) (b_files b) (b_tk b) (b_agent b).
Definition with_rows (t : table) b : Bus R := mkBus (b_tick b) t (b_grants b) (b_disc b) (b_open b) (b_self b)
  (b_sink b) (b_reg b) (b_tombPath b) (b_tomb b) (b_files b) (b_tk b) (b_agent b).
Definition with_grants (g : grants) b : Bus R := mkBus (b_tick b) (b_rows b) g (b_disc b) (b_open b) (b_self b)
  (b_sink b) (b_reg b) (b_tombPath b) (b_tomb b) (b_files b) (b_tk b) (b_agent b).
Definition with_open (o : gset session) b : Bus R := mkBus (b_tick b) (b_rows b) (b_grants b) (b_disc b) o (b_self b)
  (b_sink b) (b_reg b) (b_tombPath b) (b_tomb b) (b_files b) (b_tk b) (b_agent b).
Definition with_reg (sink : bool) (r : R) b : Bus R := mkBus (b_tick b) (b_rows b) (b_grants b) (b_disc b) (b_open b)
  (b_self b) sink r (b_tombPath b) (b_tomb b) (b_files b) (b_tk b) (b_agent b).
Definition with_self (n : string) b : Bus R := mkBus (b_tick b) (b_rows b) (b_grants b) (b_disc b) (b_open b) n
  (b_sink b) (b_reg b) (b_tombPath b) (b_tomb b) (b_files b) (b_tk b) (b_agent b).
Definition with_tomb (path : string) (t : tombset) b : Bus R := mkBus (b_tick b) (b_rows b) (b_grants b) (b_disc b)
  (b_open b) (b_self b) (b_sink b) (b_reg b) path t (b_files b) (b_tk b) (b_agent b).
Definition with_file (path : string) (f : TombFile) b : Bus R := mkBus (b_tick b) (b_rows b) (b_grants b) (b_disc b)
  (b_open b) (b_self b) (b_sink b) (b_reg b) (b_tombPath b) (b_tomb b) (<[path := f]> (b_files b)) (b_tk b) (b_agent b).
Definition with_tk (tk : gmap string takeover) b : Bus R := mkBus (b_tick b) (b_rows b) (b_grants b) (b_disc b)
  (b_open b) (b_self b) (b_sink b) (b_reg b) (b_tombPath b) (b_tomb b) (b_files b) tk (b_agent b).
Definition with_disc b : Bus R := mkBus (b_tick b) (b_rows b) (b_grants b) true (b_open b)
  (b_self b) (b_sink b) (b_reg b) (b_tombPath b) (b_tomb b) (b_files b) (b_tk b) (b_agent b).
Definition with_agent (f : AgentFile) b : Bus R := mkBus (b_tick b) (b_rows b) (b_grants b) (b_disc b) (b_open b)
  (b_self b) (b_sink b) (b_reg b) (b_tombPath b) (b_tomb b) (b_files b) (b_tk b) f.

(** A database statement: its answer and the table it leaves, or its error. *)
Definition sql {A} (f : table → A * table) : M (Bus R) (result A) := λ b,
  match F (b_tick b) with
  | Some e => (Fail e, tick b)
  | None => let '(a, t) := f (b_rows b) in (Ok a, with_rows t (tick b))
  end.
Definition query {A} (f : table → A) : M (Bus R) (result A) := sql (λ t, (f t, t)).
Definition now : M (Bus R) Z := λ b, (clk (b_tick b), tick b).

(** [if err := m; err != nil { return err }] *)
Definition bindE {A B} (m : M (Bus R) (result A)) (k : A → M (Bus R) (result B)) : M (Bus R) (result B) :=
  m ≫= λ r, match r with Ok a => k a | Fail e => mret (Fail e) end.
Definition wrapM {A} (pre : string) (m : M (Bus R) (result A)) : M (Bus R) (result A) :=
  m ≫= λ r, mret match r with Ok a => Ok a | Fail e => Fail (wrapf (pre +:+ err_text e) e) end.

(** *** Sessions (sessions.go, takeover.go) *)
Definition TrackSessions : M (Bus R) unit := modify with_disc.

Definition pruneLocked : M (Bus R) unit := modify (λ b, with_grants (prune_grants (b_open b) (b_grants b)) b).
Definition takeHeldLocked (match_ : grant → bool) : M (Bus R) (list (session * grant)) := λ b,
  let '(taken, rest) := take_grants match_ (b_grants b) in (taken, with_grants rest b).
Definition takeLocked (match_ : grant → bool) : M (Bus R) (list session) :=
  held ← takeHeldLocked match_; mret (held.*1).

(** [d.DisconnectClient]: whether the connection was still open. *)
Definition DisconnectClient (k : session) : M (Bus R) bool := λ b,
  (bool_decide (k ∈ b_open b), with_open (b_open b ∖ {[k]}) b).
Fixpoint disconnect (l : list session) : M (Bus R) nat :=
  match l with
  | [] => mret 0%nat
  | k :: l => closed ← DisconnectClient k; n ← disconnect l; mret (if closed : bool then S n else n)
  end.

Definition DisconnectNode (nodeID : string) : M (Bus R) nat :=
  if String.eqb nodeID EmptyString then mret 0%nat
  else
    b ← get;
    if negb (b_disc b) then mret 0%nat
    else taken ← takeLocked (λ g, String.eqb (g_nodeID g) nodeID); disconnect taken.

(** The registry's exclusion hooks, as main wires them. *)
Definition exclusion_hooks (excluded : list string) : M (Bus R) unit :=
  for_each (λ n, _ ← DisconnectNode n; modify (λ b, with_tk (ForgetNode n (b_tk b)) b)) excluded.

(** *** Liveness pushes (livenodes.go) *)
Definition live_hashes (node : string) (t : table) : list string :=
  (select (λ h r, row_live node r && negb (String.eqb h EmptyString)) t).*1.
Definition liveTokenHashes (nodeID : string) : M (Bus R) (result (list string)) :=
  if String.eqb nodeID EmptyString then mret (Ok [])
  else wrapM ("busauth: live token for " +:+ quote nodeID +:+ ": ") (query (live_hashes nodeID)).

Definition push_node (node : string) : M (Bus R) unit :=
  if String.eqb node EmptyString then mret tt
  else
    r ← liveTokenHashes node;
    let hashes := match r with Ok hs => hs | Fail _ => [] end in
    b ← get;
    let '(excluded, reg) := nr_set node hashes (b_reg b) in
    _ ← modify (with_reg (b_sink b) reg);
    exclusion_hooks excluded.
Definition refreshNodes (nodeIDs : list string) : M (Bus R) unit :=
  b ← get;
  if b_sink b then for_each push_node nodeIDs else mret tt.

Definition bound_node (r : TokenRow) : option string :=
  match t_node_id r with Some n => if String.eqb n EmptyString then None else Some n | None => None end.
Definition add_live (set : gmap string (list string)) (kv : string * TokenRow) : gmap string (list string) :=
  match bound_node kv.2 with
  | Some n =>
      if bool_decide (t_revoked_at kv.2 = None) && negb (String.eqb kv.1 EmptyString) && role_ok (t_role kv.2)
      then <[n := default [] (set !! n) ++ [kv.1]]> set else set
  | None => set
  end.
Definition liveTokensByNode : M (Bus R) (result (gmap string (list string))) :=
  wrapM "busauth: load live nodes: " (query (λ t, foldl add_live ∅ (map_to_list t))).

(** SetNodeRegistry; [reg] is the registry object handed in. *)
Definition SetNodeRegistry (reg : R) : M (Bus R) (result unit) :=
  bindE liveTokensByNode (λ set,
    _ ← modify (with_reg true (nr_replace set reg).2);
    mret (Ok tt)).

Definition admits (plaintext presentedNodeID : string) : M (Bus R) bool :=
  if String.eqb plaintext EmptyString || String.eqb presentedNodeID EmptyString then mret false
  else
    b ← get;
    mret (b_sink b && nr_admits (b_reg b) presentedNodeID (HashToken plaintext)).

(** *** The token ledger (tokens.go) *)
Definition touchLastUsed (id : string) : M (Bus R) unit :=
  if String.eqb id EmptyString then mret tt
  else
    t ← now;
    _ ← sql (λ tb, (tt, alter (set_last_used t) id tb));
    mret tt.

Definition GenerateToken : M (Bus R) (result (string * string)) := λ b,
  (match rand (b_tick b) with
   | Ok p => Ok (p, HashToken p)
   | Fail e => Fail (wrapf ("busauth: rand: " +:+ err_text e) e)
   end, tick b).

(** INSERT: a duplicate key is a constraint error. *)
Definition insert_row (h : string) (r : TokenRow) (t : table) : result unit * table :=
  match t !! h with
  | Some _ => (Fail (errors_New "UNIQUE constraint failed: bus_tokens.token_hash"), t)
  | None => (Ok tt, <[h := r]> t)
  end.
Definition sql_insert (h : string) (r : TokenRow) : M (Bus R) (result unit) :=
  bindE (sql (insert_row h r)) (λ x, mret x).

Definition MintBound (label nodeID role : string) : M (Bus R) (result (string * string)) :=
  if String.eqb nodeID EmptyString then mret (Fail ErrUnboundToken)
  else match checkNodeID nodeID with Some e => mret (Fail e) | None =>
       match checkRole role with Some e => mret (Fail e) | None =>
  bindE GenerateToken (λ '(plaintext, id),
    t ← now;
    bindE (wrapM "busauth: insert token: " (sql_insert id (mkTokenRow label t None None (Some nodeID) false (Some role))))
      (λ _, _ ← refreshNodes [nodeID]; mret (Ok (plaintext, id))))
  end end.

Record PreseedToken := mkPreseed { p_Hash : string; p_NodeID : string; p_Label : string; p_Role : string }.

(** The checking pass: every entry, before anything is stored. *)
Fixpoint check_preseed (i : nat) (toks : list PreseedToken) : result (list (PreseedToken * string)) :=
  match toks with
  | [] => Ok []
  | tk :: toks =>
      let here e := Fail (wrapf ("busauth: preload entry " +:+ pretty i +:+ ": " +:+ err_text e) e) in
      if String.eqb (p_Hash tk) EmptyString then check_preseed (S i) toks
      else if String.eqb (p_NodeID tk) EmptyString then here ErrUnboundToken
      else match checkNodeID (p_NodeID tk) with Some e => here e | None =>
           match ResolveRole (p_Role tk) (p_Label tk) with
           | Fail e => Fail (wrapf ("busauth: preload entry " +:+ pretty i +:+ " (node " +:+ quote (p_NodeID tk)
                         +:+ "): " +:+ err_text e) e)
           | Ok role => (λ l, (tk, role) :: l) <$> check_preseed (S i) toks
           end end
  end.

Definition tombstoned (hash : string) : M (Bus R) bool :=
  b ← get; mret (bool_decide (is_Some (b_tomb b !! hash))).

(** INSERT OR IGNORE: whether a row was added. *)
Definition insert_or_ignore (h : string) (r : TokenRow) (t : table) : bool * table :=
  match t !! h with Some _ => (false, t) | None => (true, <[h := r]> t) end.

Fixpoint preload_each (t : Z) (l : list (PreseedToken * string)) (inserted : nat) : M (Bus R) (nat * option error) :=
  match l with
  | [] => mret (inserted, None)
  | (tk, role) :: l =>
      dead ← tombstoned (p_Hash tk);
      if dead : bool then preload_each t l inserted
      else
        r ← sql (insert_or_ignore (p_Hash tk)
                   (mkTokenRow (p_Label tk) t None None (Some (p_NodeID tk)) false (Some role)));
        match r with
        | Fail e => mret (inserted, Some (wrapf ("busauth: preload: " +:+ err_text e) e))
        | Ok false => preload_each t l inserted
        | Ok true => _ ← refreshNodes [p_NodeID tk]; preload_each t l (S inserted)
        end
  end.
Definition PreloadHashes (toks : list PreseedToken) : M (Bus R) (nat * option error) :=
  match check_preseed 0 toks with
  | Fail e => mret (0%nat, Some e)
  | Ok l => t ← now; preload_each t l 0
  end.

Definition Validate (plaintext presentedNodeID : string) : M (Bus R) (result bool) :=
  if String.eqb plaintext EmptyString then mret (Ok false)
  else
    let id := HashToken plaintext in
    bindE (wrapM "busauth: validate: " (query (λ t, t !! id))) (λ row,
      match row with
      | None => mret (Ok false)
      | Some r =>
          if bool_decide (is_Some (t_revoked_at r)) then mret (Ok false)
          else if bool_decide (bound_node r = None) then mret (Ok false)
          else if negb (bool_decide (t_node_id r = Some presentedNodeID)) then mret (Ok false)
          else if negb (role_ok (t_role r)) then mret (Ok false)
          else _ ← touchLastUsed id; mret (Ok true)
      end).

(** *** Tombstones (tombstones.go) *)

(** Times in nanoseconds since Go's zero time; [ms] is the Unix time in milliseconds. *)
Definition fromMs (ms : Z) : Z := (ms + 62135596800000) * 1000000.

Definition fault {A} (k : option error → M (Bus R) A) : M (Bus R) A := λ b, k (F (b_tick b)) (tick b).

Definition writeTombstoneFile (path : string) (set : tombset) : M (Bus R) (option error) :=
  fault (λ f, match f with
    | Some e => mret (Some (wrapf ("busauth: write tombstones " +:+ path +:+ ": " +:+ err_text e) e))
    | None => _ ← modify (with_file path (tomb_file set)); mret None
    end).

Definition add_all (set : tombset) (l : list Tombstone) : tombset := foldl (λ s t, add_tomb s (tb_Hash t) t) set l.

Definition recordTombstones (revoked : list Tombstone) : M (Bus R) unit :=
  match revoked with
  | [] => mret tt
  | _ =>
      b ← get;
      if String.eqb (b_tombPath b) EmptyString then mret tt
      else
        let set := add_all (b_tomb b) revoked in
        _ ← modify (with_tomb (b_tombPath b) set);
        _ ← writeTombstoneFile (b_tombPath b) set;
        mret tt
  end.

Definition coalesce (n : option string) : string := default EmptyString n.
Definition unrevoked (r : TokenRow) : bool := bool_decide (t_revoked_at r = None).

(** UPDATE … SET revoked_at = at WHERE p AND revoked_at IS NULL RETURNING token_hash, node_id. *)
Definition revoke_rows (at_ : Z) (p : string → TokenRow → bool) (t : table) : list Tombstone * table :=
  let hit := λ h r, p h r && unrevoked r in
  (map (λ kv, mkTomb kv.1 (coalesce (t_node_id kv.2)) (fromMs at_)) (select hit t),
   update_where hit (set_revoked at_) t).
Definition revokeReturning (p : string → TokenRow → bool) : M (Bus R) (result (list Tombstone)) :=
  at_ ← now; sql (revoke_rows at_ p).

(** *** The controlplane's own token (agenttoken.go) *)
Definition self_row (self : string) (r : TokenRow) : bool :=
  bool_decide (t_node_id r = Some self) && t_self_agent r && unrevoked r.

Definition isSelfAgentToken (id : string) : M (Bus R) (result bool) :=
  b ← get;
  let self := b_self b in
  if String.eqb self EmptyString || String.eqb id EmptyString then mret (Ok false)
  else wrapM ("busauth: check whether " +:+ quote id +:+ " is the controlplane agent's token: ")
         (query (λ t, match t !! id with Some r => self_row self r | None => false end)).

Definition nodeHasSelfAgentToken (nodeID : string) : M (Bus R) (result bool) :=
  b ← get;
  let self := b_self b in
  if String.eqb self EmptyString || negb (String.eqb nodeID self) then mret (Ok false)
  else wrapM ("busauth: check whether node " +:+ quote nodeID +:+ " holds the controlplane agent's token: ")
         (query (λ t, bool_decide (select (λ _ r, self_row self r) t ≠ []))).

(** *** Revocation (tokens.go) *)
Definition liveSessions (match_ : grant → bool) : M (Bus R) (gset session) :=
  b ← get;
  if negb (b_disc b) then mret ∅
  else
    _ ← pruneLocked;
    b ← get;
    mret (list_to_set (filter (λ kv, match_ kv.2 = true) (map_to_list (b_grants b))).*1).

Fixpoint close_each (snapshot : gset session) (rest : list session) (n : nat) : M (Bus R) nat :=
  match rest with
  | [] => mret n
  | k :: rest =>
      closed ← DisconnectClient k;
      close_each snapshot rest (if closed && negb (bool_decide (k ∈ snapshot)) then S n else n)
  end.
Definition closeRemaining (match_ : grant → bool) (snapshot : gset session) : M (Bus R) nat :=
  rest ← takeLocked match_;
  b ← get;
  if b_disc b then close_each snapshot rest (size snapshot) else mret (size snapshot).

Definition revoke (id : string) : M (Bus R) (result nat) :=
  bindE (wrapM "busauth: revoke: " (query (λ t, match t !! id with Some r => coalesce (t_node_id r) | None => EmptyString end)))
    (λ node,
    bindE (wrapM "busauth: revoke: " (revokeReturning (λ h _, String.eqb h id))) (λ revoked,
      match revoked with
      | [] => mret (Fail ErrNoRows)
      | _ =>
          let match_ := λ g, String.eqb (g_tokenID g) id in
          held ← liveSessions match_;
          _ ← refreshNodes [node];
          _ ← recordTombstones revoked;
          n ← closeRemaining match_ held;
          mret (Ok n)
      end)).

Definition Revoke (id : string) : M (Bus R) (result nat) :=
  bindE (isSelfAgentToken id) (λ protected,
    if protected : bool then mret (Fail ErrSelfAgentToken) else revoke id).

Definition RevokeByNodeID (nodeID : string) : M (Bus R) (result (nat * nat)) :=
  bindE (nodeHasSelfAgentToken nodeID) (λ protected,
    if protected : bool then mret (Fail ErrSelfAgentToken)
    else bindE (wrapM "busauth: revoke by node: " (revokeReturning (λ _ r, bool_decide (t_node_id r = Some nodeID))))
      (λ tombs,
      let match_ := λ g, String.eqb (g_nodeID g) nodeID in
      held ← liveSessions match_;
      _ ← refreshNodes [nodeID];
      _ ← recordTombstones tombs;
      n ← closeRemaining match_ held;
      mret (Ok (length tombs, n)))).

Definition revokeNodeTokensExcept (nodeID keep : string) : M (Bus R) (result (nat * nat)) :=
  r ← bindE (wrapM "busauth: revoke replaced tokens: "
               (revokeReturning (λ h r, bool_decide (t_node_id r = Some nodeID) && negb (String.eqb h keep))))
       (λ tombs,
         taken ← takeLocked (λ g, String.eqb (g_nodeID g) nodeID && negb (String.eqb (g_tokenID g) keep));
         _ ← recordTombstones tombs;
         n ← disconnect taken;
         mret (Ok (length tombs, n)));
  _ ← refreshNodes [nodeID];
  mret r.

(** *** Admission (sessions.go, takeover.go) *)
Fixpoint evictSuperseded (conn : Conn) (tokenID nodeID : string) (superseded : list (session * grant)) : M (Bus R) unit :=
  match superseded with
  | [] => mret tt
  | (k, g) :: rest =>
      _ ← DisconnectClient k;
      t ← now;
      _ ← modify (λ b, with_tk (noteTakeover (fromMs t) tokenID nodeID (g_host g) (c_Host conn) (b_tk b)) b);
      evictSuperseded conn tokenID nodeID rest
  end.

Definition Admit (conn : Conn) (plaintext presentedNodeID : string) : M (Bus R) bool :=
  ok ← admits plaintext presentedNodeID;
  if negb ok then mret false
  else
    b ← get;
    if negb (b_disc b) then _ ← touchLastUsed (HashToken plaintext); mret true
    else
      _ ← pruneLocked;
      let id := HashToken plaintext in
      superseded ← takeHeldLocked (λ g, String.eqb (g_tokenID g) id);
      _ ← modify (λ b, with_grants
            (<[(c_ServerID conn, c_CID conn) := mkGrant id presentedNodeID (c_Host conn)]> (b_grants b)) b);
      _ ← touchLastUsed id;
      _ ← evictSuperseded conn id presentedNodeID superseded;
      mret true.

(** *** The agent token at start (agenttoken.go) *)
Definition AgentTokenLabel : string := "controlplane agent (minted by the api at start)".

Definition adoptSelfAgentToken (id nodeID : string) : M (Bus R) (option error) :=
  if String.eqb id EmptyString || String.eqb nodeID EmptyString then mret None
  else
    r ← sql (λ t, (tt, update_where (λ h r, String.eqb h id && bool_decide (t_node_id r = Some nodeID))
                         (λ r, set_role RoleControlPlane (set_self true r)) t));
    match r with
    | Fail e => mret (Some (wrapf ("busauth: mark the controlplane agent's token: " +:+ err_text e) e))
    | Ok _ =>
        r ← sql (λ t, (tt, update_where (λ h r, negb (String.eqb h id) && bool_decide (t_node_id r = Some nodeID))
                             (set_self false) t));
        match r with
        | Fail e => mret (Some (wrapf ("busauth: unmark the controlplane agent's replaced tokens: " +:+ err_text e) e))
        | Ok _ => _ ← refreshNodes [nodeID]; mret None
        end
    end.
Definition adopt (id nodeID : string) : M (Bus R) unit := _ ← adoptSelfAgentToken id nodeID; mret tt.

(** The reason, and the id the file names when it is usable. *)
Definition agentTokenProblem (nodeID : string) : M (Bus R) (result (string * string)) :=
  b ← get;
  match b_agent b with
  | AfMissing => mret (Ok ("there is no token file", EmptyString))
  | AfStatError t => mret (Ok ("the token file cannot be inspected (" +:+ t +:+ ")", EmptyString))
  | AfIrregular t => mret (Ok ("the token file is not a regular file (" +:+ t +:+ ")", EmptyString))
  | AfFile perm data =>
      if negb (Z.eqb (Z.land perm 63) 0) then
        mret (Ok ("the token file's mode is " +:+ pretty perm
          +:+ ", open to more than its owner, so the token may have been read", EmptyString))
      else match data with
      | Fail e => mret (Ok ("the token file cannot be read (" +:+ err_text e +:+ ")", EmptyString))
      | Ok data =>
          let token := TrimSpace data in
          if String.eqb token EmptyString then mret (Ok ("the token file is empty", EmptyString))
          else bindE (Validate token nodeID) (λ ok,
            if ok : bool then mret (Ok (EmptyString, HashToken token))
            else mret (Ok ("the token in the file is not a live token bound to " +:+ quote nodeID
              +:+ " (revoked, from a restored database, or from another controlplane)", EmptyString)))
      end
  end.

(** Outcome: the reason a token was minted, and the error. *)
Definition EnsureAgentToken (path nodeID : string) : M (Bus R) (string * option error) :=
  if String.eqb nodeID EmptyString then mret (EmptyString, Some ErrUnboundToken)
  else match checkNodeID nodeID with Some e => mret (EmptyString, Some e) | None =>
    _ ← modify (with_self nodeID);
    p ← agentTokenProblem nodeID;
    match p with
    | Fail e => mret (EmptyString, Some e)
    | Ok (reason, liveID) =>
        if String.eqb reason EmptyString then _ ← adopt liveID nodeID; mret (EmptyString, None)
        else
          m ← MintBound AgentTokenLabel nodeID RoleControlPlane;
          match m with
          | Fail e => mret (EmptyString, Some (wrapf ("busauth: mint the controlplane agent's token: " +:+ err_text e) e))
          | Ok (plaintext, id) =>
              fault (λ f, match f with
              | Some e =>
                  _ ← revoke id;
                  mret (EmptyString, Some (wrapf ("busauth: write the controlplane agent's token to " +:+ path +:+ ": " +:+ err_text e) e))
              | None =>
                  _ ← modify (with_agent (AfFile 384 (Ok (plaintext +:+ newline))));
                  _ ← adopt id nodeID;
                  r ← revokeNodeTokensExcept nodeID id;
                  match r with
                  | Fail e => mret (reason, Some (wrapf ("busauth: the new controlplane agent token is in place, but revoking the ones it replaces failed: " +:+ err_text e) e))
                  | Ok _ => mret (reason, None)
                  end
              end)
          end
    end
  end.

(** *** The tombstone file in use *)
Definition union_tombs (live other : tombset) : tombset :=
  foldl (λ s kv, add_tomb s kv.1 kv.2) live (map_to_list other).

Definition MergeTombstoneFiles (into from : string) : M (Bus R) (nat * option error) :=
  b ← get;
  match ReadTombstoneFile (b_files b) into with
  | Fail e => mret (0%nat, Some e)
  | Ok live =>
      match ReadTombstoneFile (b_files b) from with
      | Fail e => mret (0%nat, Some e)
      | Ok other =>
          let added := length (filter (λ kv, live !! kv.1 = None) (map_to_list other)) in
          if bool_decide (added = 0%nat) then mret (0%nat, None)
          else e ← writeTombstoneFile into (union_tombs live other); mret (added, e)
      end
  end.

Definition revoked_tombs (t : table) : list Tombstone :=
  omap (λ kv, match t_revoked_at kv.2 with
              | Some at_ => Some (mkTomb kv.1 (coalesce (t_node_id kv.2)) (fromMs at_))
              | None => None
              end) (map_to_list t).

(** Re-apply each tombstone; yields the rows revoked and the nodes touched. *)
Fixpoint reapply (at_ : Z) (l : list (string * Tombstone)) (n : nat) (touched : list string) :
    M (Bus R) (nat * list string * option error) :=
  match l with
  | [] => mret (n, touched, None)
  | (h, tb) :: l =>
      r ← sql (revoke_rows at_ (λ h' _, String.eqb h' h));
      match r with
      | Fail e => mret (n, touched, Some (wrapf ("busauth: re-apply tombstone: " +:+ err_text e) e))
      | Ok [] => reapply at_ l n touched
      | Ok (t :: _) =>
          let node := if String.eqb (tb_NodeID t) EmptyString then tb_NodeID tb else tb_NodeID t in
          reapply at_ l (S n) (touched ++ [node])
      end
  end.

Definition UseTombstoneFile (path : string) : M (Bus R) (nat * nat * option error) :=
  b ← get;
  match ReadTombstoneFile (b_files b) path with
  | Fail e => mret (0%nat, 0%nat, Some e)
  | Ok set =>
      r ← wrapM "busauth: read revoked tokens: " (query revoked_tombs);
      match r with
      | Fail e => mret (0%nat, 0%nat, Some e)
      | Ok l =>
          let added := length (filter (λ t, set !! tb_Hash t = None) l) in
          let set := add_all set l in
          _ ← (if bool_decide (added = 0%nat) then mret None else writeTombstoneFile path set);
          at_ ← now;
          x ← reapply at_ (map_to_list set) 0 [];
          let '(n, touched, err) := x in
          _ ← (if bool_decide (err = None) then modify (with_tomb path set) else mret tt);
          _ ← refreshNodes touched;
          mret (added, n, err)
      end
  end.

(** *** Start and counts *)
Definition no_role (r : TokenRow) : bool := bool_decide (coalesce (t_role r) = EmptyString).

(** OpenStore's migration step. *)
Fixpoint backfill_labels (roles : list string) : M (Bus R) (option error) :=
  match roles with
  | [] => mret None
  | role :: roles =>
      r ← sql (λ t, (tt, update_where (λ _ r, no_role r && String.eqb (t_label r) role) (set_role role) t));
      match r with
      | Fail e => mret (Some (wrapf ("busauth: backfill role " +:+ quote role +:+ " from labels: " +:+ err_text e) e))
      | Ok _ => backfill_labels roles
      end
  end.
Definition backfillRoles : M (Bus R) (option error) :=
  r ← sql (λ t, (tt, update_where (λ _ r, no_role r && t_self_agent r) (set_role RoleControlPlane) t));
  match r with
  | Fail e => mret (Some (wrapf ("busauth: backfill the controlplane agent token's role: " +:+ err_text e) e))
  | Ok _ => backfill_labels AllRoles
  end.

Definition CountActiveUnbound : M (Bus R) (result nat) :=
  wrapM "busauth: count unbound: "
    (query (λ t, length (select (λ _ r, bool_decide (bound_node r = None) && unrevoked r) t))).
Definition CountActiveRoleless : M (Bus R) (result nat) :=
  wrapM "busauth: count role-less tokens: "
    (query (λ t, length (select (λ _ r, unrevoked r && bool_decide (bound_node r ≠ None) && negb (role_ok (t_role r))) t))).
Definition NodeHasLiveToken (nodeID : string) : M (Bus R) (result bool) :=
  bindE (liveTokenHashes nodeID) (λ hashes, mret (Ok (bool_decide (hashes ≠ [])))).

Record TokenInfo := mkTokenInfo {
  ti_ID : string; ti_Label : string; ti_NodeID : option string; ti_Role : string; ti_CreatedAt : Z;
  ti_LastUsedAt : option Z; ti_RevokedAt : option Z; ti_SelfAgent : bool }.
Definition token_info (self : string) (kv : string * TokenRow) : TokenInfo :=
  let r := kv.2 in
  mkTokenInfo kv.1 (t_label r) (t_node_id r) (if role_ok (t_role r) then coalesce (t_role r) else EmptyString)
    (fromMs (t_created_at r)) (fromMs <$> t_last_used_at r) (fromMs <$> t_revoked_at r)
    (t_self_agent r && negb (String.eqb self EmptyString) && bool_decide (t_node_id r = Some self) && unrevoked r).
Definition newer (a b : string * TokenRow) : Prop := (t_created_at b.2 ≤ t_created_at a.2)%Z.
#[local] Instance newer_dec : RelDecision newer.
Proof using. intros a b. unfold newer. apply _. Defined.
Definition List : M (Bus R) (result (list TokenInfo)) :=
  b ← get;
  wrapM "busauth: list: " (query (λ t, map (token_info (b_self b)) (merge_sort newer (map_to_list t)))).
End Store.
