(* ===== verification/BusTokensFacts.v ===== *)
(** * Join tokens and bus sessions: what the bus admits, and for how long

    The store of BusTokens.v as a step relation: every operation of the
    package, the connections opening and closing, the registry's own changes
    and api restarts, in any order and under any database faults. *)
From Stdlib Require Import Ascii String.
From S2P Require Import Prelude GoStrings GoPath BusTokens.

#[local] Arguments String.eqb : simpl never.

(** ** The table *)

Lemma update_where_lookup p f (t : table) h :
  update_where p f t !! h = (λ r, if p h r then f r else r) <$> t !! h.
Proof. unfold update_where. rewrite map_lookup_imap. by destruct (t !! h). Qed.

Lemma elem_of_select p (t : table) h r : (h, r) ∈ select p t ↔ t !! h = Some r ∧ p h r = true.
Proof. unfold select. rewrite list_elem_of_filter, elem_of_map_to_list. naive_solver. Qed.

(** A row only ever gains: it stays, bound to the same node, and a revocation
    stays as it was. *)
Definition row_evolves (r r' : TokenRow) : Prop :=
  t_node_id r' = t_node_id r ∧ (∀ at_, t_revoked_at r = Some at_ → t_revoked_at r' = Some at_).
Definition rows_evolve (t t' : table) : Prop :=
  ∀ h r, t !! h = Some r → ∃ r', t' !! h = Some r' ∧ row_evolves r r'.

#[export] Instance row_evolves_preorder : PreOrder row_evolves.
Proof. split; [by split|]. intros x y z [H1 H2] [H3 H4]. split; [congruence|eauto]. Qed.
#[export] Instance rows_evolve_preorder : PreOrder rows_evolve.
Proof.
  split; [intros t h r Hr; by exists r|]. intros x y z H1 H2 h r Hr.
  destruct (H1 h r Hr) as (r1 & Hr1 & E1). destruct (H2 h r1 Hr1) as (r2 & Hr2 & E2).
  exists r2. split; [done|]. by etransitivity.
Qed.

Lemma update_where_evolves p f (t : table) :
  (∀ h r, p h r = true → row_evolves r (f r)) → rows_evolve t (update_where p f t).
Proof.
  intros Hf h r Hr. rewrite update_where_lookup, Hr. simpl. eexists. split; [done|].
  destruct (p h r) eqn:E; [by eapply Hf|done].
Qed.
Lemma insert_evolves h r (t : table) : t !! h = None → rows_evolve t (<[h := r]> t).
Proof. intros Hn h' r' Hr'. exists r'. rewrite lookup_insert_ne; [done|]. intros ->. congruence. Qed.
Lemma alter_evolves f h (t : table) : (∀ r, row_evolves r (f r)) → rows_evolve t (alter f h t).
Proof.
  intros Hf h' r' Hr'. destruct (decide (h = h')) as [->|Hne].
  - rewrite lookup_alter_eq, Hr'. by exists (f r').
  - rewrite lookup_alter_ne by done. by exists r'.
Qed.
Lemma revoke_rows_evolves at_ p (t : table) : rows_evolve t (revoke_rows at_ p t).2.
Proof.
  apply update_where_evolves. intros h r [_ Hu]%andb_true_iff. split; [done|].
  intros a Ha. unfold unrevoked in Hu. apply bool_decide_eq_true in Hu. congruence.
Qed.
Lemma insert_row_evolves h r (t : table) : rows_evolve t (insert_row h r t).2.
Proof. unfold insert_row. destruct (t !! h) eqn:E; [done|]. by apply insert_evolves. Qed.
Lemma insert_or_ignore_evolves h r (t : table) : rows_evolve t (insert_or_ignore h r t).2.
Proof. unfold insert_or_ignore. destruct (t !! h) eqn:E; [done|]. by apply insert_evolves. Qed.

(** A presented token the table accepts. *)
Definition live_in (t : table) (n h : string) : Prop := ∃ r, t !! h = Some r ∧ row_live n r = true.
Definition revoked_in (t : table) (h : string) : Prop := ∃ r at_, t !! h = Some r ∧ t_revoked_at r = Some at_.

Lemma revoked_not_live t n h : revoked_in t h → ¬ live_in t n h.
Proof.
  intros (r & at_ & Hr & Ha) (r' & Hr' & Hl). rewrite Hr in Hr'. injection Hr' as <-.
  unfold row_live in Hl. by rewrite Ha in Hl.
Qed.
Lemma revoked_in_evolves t t' h : rows_evolve t t' → revoked_in t h → revoked_in t' h.
Proof. intros He (r & at_ & Hr & Ha). destruct (He h r Hr) as (r' & Hr' & _ & Hr''). exists r', at_. eauto. Qed.

Lemma elem_of_live_hashes n h (t : table) : h ∈ live_hashes n t ↔ live_in t n h ∧ h ≠ EmptyString.
Proof.
  unfold live_hashes. rewrite list_elem_of_fmap. split.
  - intros ([h' r] & -> & [Hr [Hl He]%andb_true_iff]%elem_of_select). simpl.
    split; [by exists r|]. by destruct (String.eqb_spec h' EmptyString).
  - intros [(r & Hr & Hl) Hn]. exists (h, r). split; [done|]. apply elem_of_select. split; [done|].
    rewrite Hl. by destruct (String.eqb_spec h EmptyString).
Qed.

(** ** Programs that leave the table and the registry alone *)
Section Facts.
Context {R : Type} `{!NodeRegistry R} `{HL : !NodeRegistryLaws R}.
Context (F : nat → option error) (clk : nat → Z) (HashToken : string → string) (rand : nat → result string).
Implicit Types b : Bus R.

Definition same_core b b' : Prop :=
  b_rows b' = b_rows b ∧ b_sink b' = b_sink b ∧ b_reg b' = b_reg b.
#[export] Instance same_core_preorder : PreOrder same_core.
Proof using. split; [done|]. intros x y z (?&?&?) (?&?&?). split_and!; congruence. Qed.

Definition evolves b b' : Prop := rows_evolve (b_rows b) (b_rows b').
#[export] Instance evolves_preorder : PreOrder evolves.
Proof using. split; [by intros b; unfold evolves|]. unfold evolves. intros x y z H1 H2. by etransitivity. Qed.

Section gen.
Context (Q : relation (Bus R)) `{HQ : !PreOrder Q}.
Lemma yields_bindE {A B} (m : M (Bus R) (result A)) (k : A → M (Bus R) (result B)) :
  yields Q m → (∀ a, yields Q (k a)) → yields Q (bindE m k).
Proof using HQ. intros Hm Hk. unfold bindE. yield; auto. Qed.
Lemma yields_wrapM {A} pre (m : M (Bus R) (result A)) : yields Q m → yields Q (wrapM pre m).
Proof using HQ. intros Hm. unfold wrapM. yield; auto. Qed.
Lemma yields_fault {A} (k : option error → M (Bus R) A) :
  (∀ b, Q b (tick b)) → (∀ f, yields Q (k f)) → yields Q (fault F k).
Proof using HQ. intros Ht Hk b. unfold fault. etransitivity; [apply Ht|apply Hk]. Qed.
Lemma yields_modify (f : Bus R → Bus R) : (∀ b, Q b (f b)) → yields Q (modify f).
Proof using. intros Hf b. apply Hf. Qed.
Lemma yields_sql {A} (f : table → A * table) :
  (∀ b, Q b (tick b)) → (∀ b, Q b (with_rows (f (b_rows b)).2 (tick b))) → yields Q (sql F f).
Proof using. intros Ht Hf b. unfold sql. destruct (F _); [apply Ht|]. specialize (Hf b). by destruct (f (b_rows b)). Qed.
End gen.
End Facts.

Ltac bus_step :=
  lazymatch goal with
  | |- yields _ (mret _) => apply yields_ret; apply _
  | |- yields _ get => apply yields_get; apply _
  | |- yields _ (modify _) => apply yields_modify; intros ?
  | |- yields _ (for_each _ _) => apply yields_for_each; [apply _|intros ? ?]
  | |- yields _ (bindE _ _) => apply yields_bindE; [apply _| |intros ?]
  | |- yields _ (wrapM _ _) => apply yields_wrapM; [apply _|]
  | |- yields _ (fault _ _) => apply yields_fault; [apply _| |intros ?]
  | |- yields _ (sql _ _) => apply yields_sql
  | |- yields _ (mbind _ _) => apply yields_bind; [apply _| |intros ?]
  | |- yields _ (match ?x with _ => _ end) => destruct x eqn:?
  | |- yields _ ((λ _, _) _) => cbv beta
  end.
Ltac bus := repeat first [ solve [eauto with yields] | bus_step ].

Section Ops.
Context {R : Type} `{!NodeRegistry R} `{HL : !NodeRegistryLaws R}.
Context (F : nat → option error) (clk : nat → Z) (HashToken : string → string) (rand : nat → result string).
Implicit Types b : Bus R.

#[local] Hint Constants Opaque : yields.

(** Operations on sessions, takeovers and tombstones only. *)
#[local] Hint Extern 1 (same_core _ _) => (by repeat split) : yields.
#[local] Hint Extern 1 (∀ b, same_core b _) => (by repeat split) : yields.

Lemma core_query {A} (f : table → A) : yields same_core (query (R:=R) F f).
Proof using. unfold query. bus. Qed.
Lemma core_now : yields same_core (now (R:=R) clk).
Proof using. by intros b. Qed.
Lemma core_takeHeld m : yields same_core (takeHeldLocked (R:=R) m).
Proof using. by intros b. Qed.
Lemma core_prune : yields same_core (pruneLocked (R:=R)).
Proof using. by intros b. Qed.
Lemma core_discclient k : yields same_core (DisconnectClient (R:=R) k).
Proof using. by intros b. Qed.
#[local] Hint Resolve core_query core_now core_takeHeld core_prune core_discclient : yields.
Lemma core_take m : yields same_core (takeLocked (R:=R) m).
Proof using. unfold takeLocked. bus. Qed.
Lemma core_disconnect l : yields same_core (disconnect (R:=R) l).
Proof using. induction l; simpl; bus. Qed.
#[local] Hint Resolve core_take core_disconnect : yields.
Lemma core_hooks l : yields same_core (exclusion_hooks (R:=R) l).
Proof using. unfold exclusion_hooks, DisconnectNode. bus. Qed.
Lemma core_liveHashes n : yields same_core (liveTokenHashes (R:=R) F n).
Proof using. unfold liveTokenHashes. bus. Qed.
Lemma core_writeTomb p s : yields same_core (writeTombstoneFile (R:=R) F p s).
Proof using. unfold writeTombstoneFile. bus. Qed.
#[local] Hint Resolve core_hooks core_liveHashes core_writeTomb : yields.
Lemma core_record l : yields same_core (recordTombstones (R:=R) F l).
Proof using. unfold recordTombstones. bus. Qed.
Lemma core_liveSessions m : yields same_core (liveSessions (R:=R) m).
Proof using. unfold liveSessions. bus. Qed.
Lemma core_close_each s l n : yields same_core (close_each (R:=R) s l n).
Proof using. revert n. induction l; intros n; simpl; bus. Qed.
#[local] Hint Resolve core_record core_liveSessions core_close_each : yields.
Lemma core_closeRemaining m s : yields same_core (closeRemaining (R:=R) m s).
Proof using. unfold closeRemaining. bus. Qed.
Lemma core_evict c t n l : yields same_core (evictSuperseded (R:=R) clk c t n l).
Proof using. induction l as [|[k g] l IH]; simpl; bus. Qed.
Lemma core_isSelf i : yields same_core (isSelfAgentToken (R:=R) F i).
Proof using. unfold isSelfAgentToken. bus. Qed.
Lemma core_nodeHasSelf n : yields same_core (nodeHasSelfAgentToken (R:=R) F n).
Proof using. unfold nodeHasSelfAgentToken. bus. Qed.
Lemma core_generate : yields same_core (GenerateToken (R:=R) HashToken rand).
Proof using. by intros b. Qed.
Lemma core_admits p n : yields same_core (admits (R:=R) HashToken p n).
Proof using. unfold admits. bus. Qed.
Lemma core_merge i f : yields same_core (MergeTombstoneFiles (R:=R) F i f).
Proof using. unfold MergeTombstoneFiles. bus. Qed.
Lemma core_tombstoned h : yields same_core (tombstoned (R:=R) h).
Proof using. unfold tombstoned. bus. Qed.
#[local] Hint Resolve core_tombstoned core_closeRemaining core_evict core_isSelf core_nodeHasSelf core_generate core_admits core_merge : yields.

Lemma core_evolves {A} (m : M (Bus R) A) : yields same_core m → yields evolves m.
Proof using. intros H. eapply yields_mono; [exact H|]. intros b b' (E&_). unfold evolves. by rewrite E. Qed.

(** Operations that keep the rows: the pushes to the registry. *)
#[local] Hint Extern 2 (yields evolves _) => (apply core_evolves; solve [eauto 1 with yields]) : yields.
#[local] Hint Extern 1 (evolves _ _) => (unfold evolves; simpl; reflexivity) : yields.
Lemma evolves_refresh ns : yields evolves (refreshNodes (R:=R) F ns).
Proof using. unfold refreshNodes, push_node. bus. Qed.
#[local] Hint Resolve evolves_refresh : yields.

Lemma evolves_sql {A} (f : table → A * table) :
  (∀ t, rows_evolve t (f t).2) → yields evolves (sql (R:=R) F f).
Proof using. intros Hf. apply yields_sql; intros b; unfold evolves; simpl; [done|apply Hf]. Qed.

Ltac rows_leaf :=
  cbn [snd];
  lazymatch goal with
  | |- rows_evolve _ (insert_row _ _ _).2 => apply insert_row_evolves
  | |- rows_evolve _ (insert_or_ignore _ _ _).2 => apply insert_or_ignore_evolves
  | |- rows_evolve _ (revoke_rows _ _ _).2 => apply revoke_rows_evolves
  | |- rows_evolve _ (update_where _ _ _) => apply update_where_evolves; intros ? ? ?; split; [reflexivity|intros ? Hrev; exact Hrev]
  | |- rows_evolve _ (alter _ _ _) => apply alter_evolves; intros ?; split; [reflexivity|intros ? Hrev; exact Hrev]
  end.
#[local] Hint Extern 0 (yields evolves (sql _ _)) => (apply evolves_sql; intros ?; rows_leaf) : yields.

Lemma evolves_touch i : yields evolves (touchLastUsed (R:=R) F clk i).
Proof using.
  unfold touchLastUsed. bus.
Qed.
Lemma evolves_mint l n r : yields evolves (MintBound (R:=R) F clk HashToken rand l n r).
Proof using.
  unfold MintBound, sql_insert. bus.
Qed.
Lemma evolves_preload_each t l n : yields evolves (preload_each (R:=R) F t l n).
Proof using.
  revert n. induction l as [|[tk role] l IH]; intros n; simpl; bus.
Qed.
Lemma evolves_revokeReturning p : yields evolves (revokeReturning (R:=R) F clk p).
Proof using. unfold revokeReturning. bus. Qed.
#[local] Hint Resolve evolves_touch evolves_mint evolves_preload_each evolves_revokeReturning : yields.
Lemma evolves_preload l : yields evolves (PreloadHashes (R:=R) F clk l).
Proof using. unfold PreloadHashes. bus. Qed.
Lemma evolves_revoke i : yields evolves (revoke (R:=R) F clk i).
Proof using. unfold revoke. bus. Qed.
#[local] Hint Resolve evolves_preload evolves_revoke : yields.
Lemma evolves_Revoke i : yields evolves (Revoke (R:=R) F clk i).
Proof using. unfold Revoke. bus. Qed.
Lemma evolves_RevokeByNodeID n : yields evolves (RevokeByNodeID (R:=R) F clk n).
Proof using. unfold RevokeByNodeID. bus. Qed.
Lemma evolves_except n k : yields evolves (revokeNodeTokensExcept (R:=R) F clk n k).
Proof using. unfold revokeNodeTokensExcept. bus. Qed.
Lemma evolves_Admit c p n : yields evolves (Admit (R:=R) F clk HashToken c p n).
Proof using. unfold Admit. bus. Qed.
Lemma evolves_Validate p n : yields evolves (Validate (R:=R) F clk HashToken p n).
Proof using. unfold Validate. bus. Qed.
Lemma evolves_adopt i n : yields evolves (adopt (R:=R) F i n).
Proof using.
  unfold adopt, adoptSelfAgentToken. bus.
Qed.
#[local] Hint Resolve evolves_except evolves_Validate evolves_adopt : yields.
Lemma evolves_ensure p n : yields evolves (EnsureAgentToken (R:=R) F clk HashToken rand p n).
Proof using.
  unfold EnsureAgentToken, agentTokenProblem. bus.
Qed.
Lemma evolves_reapply t l n ns : yields evolves (reapply (R:=R) F t l n ns).
Proof using.
  revert n ns. induction l as [|[h tb] l IH]; intros n ns; simpl; bus.
Qed.
#[local] Hint Resolve evolves_reapply : yields.
Lemma evolves_use p : yields evolves (UseTombstoneFile (R:=R) F clk p).
Proof using. unfold UseTombstoneFile. bus. Qed.
Lemma evolves_backfill : yields evolves (backfillRoles (R:=R) F).
Proof using.
  unfold backfillRoles. bus. induction AllRoles as [|r l IH]; simpl; bus.
Qed.
End Ops.

Create HintDb bus_core discriminated.
#[export] Hint Constants Opaque : bus_core.
#[export] Hint Resolve core_query core_now core_takeHeld core_prune core_discclient core_take core_disconnect
  core_hooks core_liveHashes core_writeTomb core_record core_liveSessions core_close_each core_closeRemaining
  core_evict core_isSelf core_nodeHasSelf core_generate core_admits core_merge core_tombstoned : bus_core.
#[export] Hint Resolve evolves_Admit evolves_mint evolves_preload evolves_Revoke evolves_RevokeByNodeID
  evolves_ensure evolves_use evolves_backfill evolves_refresh : bus_core.
