(* ===== verification/BusAdmission.v ===== *)
(** * The registry follows the token table

    Every operation of the store leaves the registry holding, for every node,
    only hashes of live tokens bound to it, and all of them when no database
    statement failed; and the node registry is such a registry. *)
From Stdlib Require Import Ascii String.
From S2P Require Import Prelude GoStrings GoPath NodeRegistry BusTokens BusTokensFacts.

#[local] Arguments String.eqb : simpl never.

(** * The node registry discharges what the token store relies on

    api/internal/inventory.Registry as the token store's NodeRegistry: its
    mutators are the store's pushes, the nodes they exclude the hook calls. *)
#[local] Arguments update_one : simpl never.
#[local] Arguments update : simpl never.
#[local] Arguments SetLiveTokens : simpl never.

#[export] Instance inventory_registry : NodeRegistry Registry := {
  nr_replace live r := let '(calls, r') := ReplaceLiveTokens live r in (hc_excluded calls, r');
  nr_set n hs r := let '(calls, r') := SetLiveTokens n hs r in (hc_excluded calls, r');
  nr_admits := TokenAdmits;
  nr_ready := loaded
}.

Definition live_tokens (r : Registry) (n : string) : gset string := e_tokens (entry_at (r_entries r) n).
#[local] Arguments live_tokens : simpl never.

Lemma kept_tokens e : e_TokenLive e = bool_decide (e_tokens e ≠ ∅) →
  e_tokens (default empty_entry (kept e)) = e_tokens e.
Proof.
  unfold kept, entry_empty. intros ->. case_match eqn:E; [|done].
  apply andb_true_iff in E as [[[_ E]%andb_true_iff _]%andb_true_iff _].
  apply negb_true_iff, bool_decide_eq_false in E. simpl. symmetry. by apply dec_stable.
Qed.

Lemma update_tokens ids change r n :
  e_tokens (entry_at (r_entries (update ids change r).2) n)
    = e_tokens (entry_at (foldl (update_one change) (r_entries r, r_byKey r, mkCalls [] []) ids).1.1 n).
Proof. unfold update. by destruct (foldl _ _ ids) as [[en bk] ca]. Qed.

Lemma foldl_update_tokens ch ids acc n (f : string → gset string) :
  (∀ id e, e_tokens (ch id e) = f id) →
  e_tokens (entry_at (foldl (update_one ch) acc ids).1.1 n)
    = if decide (n ∈ ids) then f n else e_tokens (entry_at acc.1.1 n).
Proof.
  intros Hf. revert acc. induction ids as [|i ids IH]; intros [[en bk] ca]; [done|]. simpl. rewrite IH.
  unfold entry_at at 1. rewrite update_one_lookup. destruct (decide (i = n)) as [->|Hne].
  - rewrite kept_tokens by done. unfold changed. simpl. rewrite Hf.
    rewrite (decide_True (P := n ∈ n :: ids)) by set_solver. by case_decide.
  - case_decide; [by rewrite decide_True by set_solver|]. rewrite decide_False by set_solver. done.
Qed.

Lemma setTokens_elem e hs h : h ∈ e_tokens (setTokens e hs) ↔ h ∈ hs ∧ h ≠ EmptyString.
Proof. simpl. rewrite elem_of_list_to_set, list_elem_of_filter. tauto. Qed.

#[export] Instance inventory_registry_laws : NodeRegistryLaws Registry.
Proof.
  refine {| nr_tokens := live_tokens |}.
  - intros r n h. simpl. unfold TokenAdmits, live_tokens, entry_at.
    destruct (String.eqb_spec n EmptyString), (String.eqb_spec h EmptyString); simpl; try naive_solver.
    destruct (loaded r); simpl; [|naive_solver].
    destruct (r_entries r !! n) as [e|]; simpl; [|set_solver]. rewrite bool_decide_eq_true. naive_solver.
  - intros n hs r n' h. unfold nr_set, inventory_registry. destruct (SetLiveTokens n hs r) as [calls r'] eqn:E. cbn [snd].
    assert (live_tokens r' n' = live_tokens (update [n] (λ _ e, setTokens e hs) r).2 n') as ->.
    { unfold SetLiveTokens in E. by rewrite E. }
    unfold live_tokens. rewrite update_tokens, (foldl_update_tokens _ _ _ _ (λ _, e_tokens (setTokens empty_entry hs))) by done.
    destruct (decide (n' = n)) as [->|Hne].
    + rewrite decide_True by set_solver. apply setTokens_elem.
    + by rewrite decide_False by set_solver.
  - intros live r n h. unfold nr_replace, inventory_registry, ReplaceLiveTokens. set (ids := _ ++ _).
    pose proof (update_tokens ids (λ id e, setTokens e (default [] (live !! id))) r n) as Ht.
    rewrite (foldl_update_tokens _ _ _ _ (λ id, e_tokens (setTokens empty_entry (default [] (live !! id))))) in Ht by done.
    destruct (update ids _ r) as [calls r']. unfold live_tokens. cbn [r_entries snd fst] in *. rewrite Ht.
    case_decide as Hin; [apply setTokens_elem|].
    assert (r_entries r !! n = None) as Hr.
    { apply eq_None_not_Some. intros [e He]. apply Hin, elem_of_app. left. apply list_elem_of_fmap.
      exists (n, e). by rewrite elem_of_map_to_list. }
    assert (live !! n = None) as Hl.
    { apply eq_None_not_Some. intros [hs Hhs]. apply Hin, elem_of_app. right. apply list_elem_of_filter. split; [done|].
      apply list_elem_of_fmap. exists (n, hs). by rewrite elem_of_map_to_list. }
    unfold entry_at. rewrite Hr, Hl. set_solver.
Qed.

(** * Admission *)
Section Tracks.
Context {R : Type} `{!NodeRegistry R} `{HL : !NodeRegistryLaws R}.
Context (F : nat → option error).
Implicit Types b : Bus R.

(** No database statement and no file write fails. *)
Definition quiet : Prop := ∀ k, F k = None.

Definition sound_at b n h : Prop := h ∈ nr_tokens (b_reg b) n → live_in (b_rows b) n h.
Definition exact_at b n h : Prop := quiet → live_in (b_rows b) n h → h ∈ nr_tokens (b_reg b) n.

(** The registry follows the table, but for the nodes of [D]. *)
Definition tracks_but (D : string → Prop) b : Prop :=
  b_sink b = true → ∀ n h, ¬ D n → n ≠ EmptyString → h ≠ EmptyString → sound_at b n h ∧ exact_at b n h.
Definition nobody (n : string) : Prop := False.
Definition tracks : Bus R → Prop := tracks_but nobody.

Lemma tracks_mono (D D' : string → Prop) b : (∀ n, n ≠ EmptyString → D n → D' n) → tracks_but D b → tracks_but D' b.
Proof. intros HD H Hs n h Hn Hne. apply H; [done| |done]. intros ?. by apply Hn, HD. Qed.

Lemma tracks_core_eq D b b' : same_core b b' → tracks_but D b → tracks_but D b'.
Proof. unfold tracks_but, sound_at, exact_at. by intros (-> & -> & ->). Qed.

Lemma core_tracks {A} D (m : M (Bus R) A) : yields same_core m → preserves (tracks_but D) m.
Proof. intros Hm b. apply tracks_core_eq, Hm. Qed.

(** The rows changed, for the nodes of [D] only. *)
Lemma tracks_rows D t b :
  (∀ n h, ¬ D n → n ≠ EmptyString → live_in t n h ↔ live_in (b_rows b) n h) →
  tracks_but D b → tracks_but D (with_rows t (tick b)).
Proof.
  intros Ht H Hs n h Hn Hne Hh. destruct (H Hs n h Hn Hne Hh) as [H1 H2].
  unfold sound_at, exact_at in *. cbn [b_rows b_reg with_rows tick]. rewrite (Ht n h Hn Hne). by split.
Qed.

Lemma tracks_sql {A} (f : table → A * table) (P : Bus R → Prop) D D' :
  (∀ b, P b → tracks_but D b) →
  (∀ n, D n → D' n) →
  (∀ b n h, P b → ¬ D' n → n ≠ EmptyString → live_in (f (b_rows b)).2 n h ↔ live_in (b_rows b) n h) →
  triple P (sql F f) (λ r b, match r with Ok _ => tracks_but D' b | Fail _ => tracks_but D b ∧ ¬ quiet end).
Proof.
  intros HP HD Hf b Hb. unfold sql. destruct (F (b_tick b)) as [e|] eqn:E; simpl.
  - split; [by apply (tracks_core_eq D b), HP|]. intros Hq. by rewrite Hq in E.
  - destruct (f (b_rows b)) as [a t] eqn:Ef. cbn [fst snd]. apply tracks_rows.
    + intros n h Hn Hne. specialize (Hf b n h Hb Hn Hne). by rewrite Ef in Hf.
    + eapply tracks_mono; [|by apply HP]. auto.
Qed.

Lemma same_sql {A} (f : table → A * table) D :
  (∀ t n h, ¬ D n → n ≠ EmptyString → live_in (f t).2 n h ↔ live_in t n h) → preserves (tracks_but D) (sql F f).
Proof.
  intros Hf. eapply triple_conseq; [apply (tracks_sql f (tracks_but D) D D)|done|]; [done|done| |].
  - intros b n h _. apply Hf.
  - intros [a|e] b; [done|]. by intros [? _].
Qed.

(** A push puts one node right. *)
Lemma live_hashes_query n :
  triple (λ _, True) (liveTokenHashes (R:=R) F n) (λ r b, n ≠ EmptyString →
    match r with Ok hs => ∀ h, h ∈ hs ↔ live_in (b_rows b) n h ∧ h ≠ EmptyString | Fail _ => ¬ quiet end).
Proof.
  intros b _ Hn. unfold liveTokenHashes. destruct (String.eqb_spec n EmptyString); [done|].
  unfold wrapM, query, sql. rewrite bind_run. unfold eval, exec. destruct (F (b_tick b)) eqn:E; simpl.
  - intros Hq. by rewrite Hq in E.
  - intros h. by rewrite elem_of_live_hashes.
Qed.

Lemma tracks_push D n :
  triple (tracks_but D) (push_node F n) (λ _, tracks_but (λ m, D m ∧ m ≠ n)).
Proof.
  intros b Hb. unfold push_node. destruct (String.eqb_spec n EmptyString) as [->|Hn]; simpl.
  { eapply tracks_mono; [|exact Hb]. intros m Hm Hd. by split. }
  rewrite bind_run. pose proof (live_hashes_query n b I Hn) as Hq.
  pose proof (core_liveHashes F n b) as Hc. unfold eval, exec in *.
  destruct (liveTokenHashes F n b) as [r b1]. simpl in Hq, Hc.
  cbn [fst snd].
  rewrite bind_run. change (eval get b1) with b1. change (exec get b1) with b1. cbv beta zeta.
  destruct (nr_set _ _ _) as [ex reg] eqn:Es. rewrite bind_run.
  set (b2 := with_reg (b_sink b1) reg b1).
  change (exec (modify (with_reg (b_sink b1) reg)) b1) with b2.
  eapply (tracks_core_eq _ b2); [apply core_hooks|].
  apply (tracks_core_eq _ _ _ Hc) in Hb. intros Hs m h Hm Hmn Hh.
  pose proof (nr_tokens_set n (match r with Ok hs => hs | Fail _ => [] end) (b_reg b1) m h) as Ht. rewrite Es in Ht. simpl in Ht.
  unfold sound_at, exact_at. change (b_reg b2) with reg. change (b_rows b2) with (b_rows b1). rewrite Ht.
  destruct (decide (m = n)) as [->|Hmn'].
  - destruct r as [hs|e]; [rewrite Hq; tauto|]. split; [by intros [?%elem_of_nil _]|]. intros Hqq. by destruct Hq.
  - apply Hb; [done| |done..]. intros Hd. by apply Hm.
Qed.

Lemma tracks_refresh D ns :
  triple (tracks_but D) (refreshNodes F ns) (λ _, tracks_but (λ m, D m ∧ m ∉ ns)).
Proof.
  unfold refreshNodes. intros b Hb. rewrite bind_run.
  change (eval get b) with b. change (exec get b) with b. cbv beta.
  destruct (b_sink b) eqn:Es; simpl; [|intros Hs; congruence].
  clear Es. revert D b Hb. induction ns as [|n ns IH]; intros D b Hb; simpl.
  - eapply tracks_mono; [|exact Hb]. intros m _ Hd. split; [done|set_solver].
  - rewrite bind_run. unfold exec. pose proof (tracks_push D n b Hb) as Hp.
    specialize (IH _ _ Hp). eapply tracks_mono; [|exact IH]. intros m _ [[Hd Hmn] Hm]. split; [done|set_solver].
Qed.
Lemma refresh_clears ns D :
  (∀ n, D n → n ∈ ns) → triple (tracks_but D) (refreshNodes F ns) (λ _, tracks).
Proof.
  intros HD. eapply triple_conseq; [apply (tracks_refresh D ns)|done|].
  intros a b. apply tracks_mono. intros n _ [Hd Hn]. by apply Hn, HD.
Qed.
End Tracks.

Arguments tracks_but {R _ _} F D b.
Arguments tracks {R _ _} F.

Section Ops.
Context {R : Type} `{!NodeRegistry R} `{HL : !NodeRegistryLaws R}.
Context (F : nat → option error) (clk : nat → Z) (HashToken : string → string) (rand : nat → result string).
Implicit Types b : Bus R.
#[local] Abbreviation tracks_but := (tracks_but (R:=R) F).
#[local] Abbreviation tracks := (tracks (R:=R) F).

#[local] Hint Extern 2 (preserves _ _) => (apply core_tracks; solve [eauto 1 with bus_core]) : triples.

(** Triples through the error plumbing. *)
Lemma triple_bindE {A B} (P : Bus R → Prop) (Q : result A → Bus R → Prop) (Q' : result B → Bus R → Prop) m k :
  triple P m Q → (∀ a, triple (Q (Ok a)) (k a) Q') → (∀ e b, Q (Fail e) b → Q' (Fail e) b) → triple P (bindE m k) Q'.
Proof using. intros Hm Hk He. apply (triple_bind _ Q); [done|]. intros [a|e]; [apply Hk|]. intros b. apply He. Qed.
Lemma triple_wrapM {A} pre (P : Bus R → Prop) (Q Q' : result A → Bus R → Prop) m :
  triple P m Q → (∀ a b, Q (Ok a) b → Q' (Ok a) b) → (∀ e e' b, Q (Fail e) b → Q' (Fail e') b) → triple P (wrapM pre m) Q'.
Proof using. intros Hm H1 H2. apply (triple_bind _ Q); [done|]. intros [a|e] b; [apply H1|apply H2]. Qed.
Lemma preserves_bindE {A B} I (m : M (Bus R) (result A)) (k : A → M (Bus R) (result B)) :
  preserves I m → (∀ a, preserves I (k a)) → preserves I (bindE m k).
Proof using. intros Hm Hk. by apply (triple_bindE _ (λ _, I)). Qed.
Lemma preserves_wrapM {A} I pre (m : M (Bus R) (result A)) : preserves I m → preserves I (wrapM pre m).
Proof using. intros Hm. by apply (triple_wrapM _ _ (λ _, I)). Qed.

(** Which nodes an UPDATE … RETURNING of revocations disturbs. *)
Definition bound_by (p : string → TokenRow → bool) (t : table) (n : string) : Prop :=
  ∃ h r, t !! h = Some r ∧ p h r = true ∧ t_node_id r = Some n.

Lemma revoke_rows_nil at_ p t t' : revoke_rows at_ p t = ([], t') → t' = t.
Proof using.
  unfold revoke_rows. intros [= E <-]. apply map_eq. intros h. rewrite update_where_lookup.
  destruct (t !! h) as [r|] eqn:Hr; [|done]. simpl. destruct (p h r && unrevoked r) eqn:Hp; [|done].
  assert ((h, r) ∈ select (λ h r, p h r && unrevoked r) t) as Hin by (by apply elem_of_select).
  destruct (select _ t); [by apply elem_of_nil in Hin|done].
Qed.
Lemma revoke_rows_live at_ p t n h :
  ¬ bound_by p t n → live_in (revoke_rows at_ p t).2 n h ↔ live_in t n h.
Proof using.
  intros Hn. unfold live_in, revoke_rows. cbn [snd]. rewrite update_where_lookup. destruct (t !! h) as [r|] eqn:Hr; simpl.
  - split; intros (r' & [= <-] & Hl).
    + destruct (p h r && unrevoked r) eqn:Hp; [|eauto]. by unfold row_live in Hl.
    + destruct (p h r && unrevoked r) eqn:Hp; [|eauto]. exfalso. apply Hn. apply andb_true_iff in Hp as [Hp _].
      exists h, r. split_and!; [done..|]. unfold row_live in Hl.
      by apply andb_true_iff in Hl as [[_ Hb%bool_decide_eq_true]%andb_true_iff _].
  - split; intros (r' & [=] & _).
Qed.

Lemma tracks_revoke_sql at_ p (P : Bus R → Prop) (D D' : string → Prop) :
  (∀ b, P b → tracks_but D b) →
  (∀ n, D n → D' n) →
  (∀ b n, P b → n ≠ EmptyString → bound_by p (b_rows b) n → D' n) →
  triple P (sql F (revoke_rows at_ p)) (λ r b,
    match r with Ok (_ :: _) => tracks_but D' b | _ => tracks_but D b end).
Proof using.
  intros HP HD Hp b Hb. unfold sql. destruct (F (b_tick b)); cbn [fst snd]; [by apply (tracks_core_eq _ D b), HP|].
  destruct (revoke_rows at_ p (b_rows b)) as [l t] eqn:E. cbn [fst snd]. destruct l as [|x l].
  - apply revoke_rows_nil in E as ->. by apply (tracks_core_eq _ D b), HP.
  - apply tracks_rows.
    + intros n h Hn Hne. pose proof (revoke_rows_live at_ p (b_rows b) n h) as H. rewrite E in H. apply H.
      intros Hb'. apply Hn. by apply (Hp b n).
    + eapply tracks_mono; [|by apply HP]. auto.
Qed.

Lemma tracks_insert D b h r n :
  b_rows b !! h = None → t_node_id r = Some n → tracks_but D b →
  tracks_but (λ m, D m ∨ m = n) (with_rows (<[h := r]> (b_rows b)) (tick b)).
Proof using.
  intros Hh Hr Hb. apply tracks_rows.
  - intros m h' Hm _. unfold live_in. destruct (decide (h = h')) as [->|Hne].
    + rewrite lookup_insert_eq, Hh. split; [|by intros (? & [=] & _)]. intros (r' & [= <-] & Hl). exfalso. apply Hm. right.
      unfold row_live in Hl. rewrite Hr in Hl.
      apply andb_true_iff in Hl as [[_ E%bool_decide_eq_true]%andb_true_iff _]. congruence.
    + by rewrite lookup_insert_ne.
  - eapply tracks_mono; [|exact Hb]. auto.
Qed.

Lemma tracks_touch D i : preserves (tracks_but D) (touchLastUsed F clk i).
Proof using.
  unfold touchLastUsed. preserve. apply same_sql. intros t n h _ _. unfold live_in. simpl.
  destruct (decide (i = h)) as [->|Hne]; [|by rewrite lookup_alter_ne].
  rewrite lookup_alter_eq. destruct (t !! h) as [r|]; simpl; [|done].
  split; intros (r' & [= <-] & Hl); by eexists.
Qed.
#[local] Hint Resolve tracks_touch : triples.

Lemma refresh_one D n : (∀ m, D m → m = n) → triple (tracks_but D) (refreshNodes F [n]) (λ _, tracks).
Proof using. intros HD. apply refresh_clears. intros m Hm. rewrite (HD m Hm). constructor. Qed.

Lemma triple_ret' {A} (P : Bus R → Prop) (a : A) (Q : A → Bus R → Prop) : (∀ b, P b → Q a b) → triple P (mret a) Q.
Proof using. intros H b Hb. by apply H. Qed.

Lemma tracks_sql_insert h r n :
  t_node_id r = Some n →
  triple tracks (sql_insert F h r) (λ x b, match x with Ok _ => tracks_but (λ m, m = n) b | Fail _ => tracks b end).
Proof using.
  intros Hr b Hb. unfold sql_insert, bindE, sql. rewrite bind_run. unfold eval, exec.
  destruct (F (b_tick b)); [by apply (tracks_core_eq _ _ b)|].
  unfold insert_row. destruct (b_rows b !! h) eqn:E; [by apply (tracks_core_eq _ _ b)|].
  cbn. eapply tracks_mono; [|by apply tracks_insert]. by intros m _ [[]|].
Qed.

Lemma tracks_mint l n r : preserves tracks (MintBound F clk HashToken rand l n r).
Proof using.
  unfold MintBound. repeat (case_match; try apply preserves_ret).
  apply preserves_bindE; [preserve|]. intros [pl id]. apply preserves_bind; [preserve|intros t].
  set (Q := λ (x : result unit) b, match x with Ok _ => tracks_but (λ m, m = n) b | Fail _ => tracks b end).
  apply (triple_bindE _ Q).
  - by apply (triple_wrapM _ _ Q); [apply tracks_sql_insert| |].
  - intros x. apply (triple_bind _ (λ _, tracks)); [by apply refresh_one|]. intros _. by apply triple_ret'.
  - by intros e b.
Qed.

Lemma tracks_preload_each t l n : preserves tracks (preload_each F t l n).
Proof using.
  revert n. induction l as [|[tk role] l IH]; intros n; cbn [preload_each]; [apply preserves_ret|].
  apply preserves_bind; [preserve|]. intros [|]; [apply IH|].
  intros b Hb. rewrite bind_run. unfold eval, exec, sql. destruct (F (b_tick b)).
  { by apply (tracks_core_eq _ _ b). }
  unfold insert_or_ignore. destruct (b_rows b !! p_Hash tk) eqn:E; cbn [fst snd].
  { apply IH. by apply (tracks_core_eq _ _ b). }
  set (b1 := with_rows _ _). assert (tracks_but (λ m, m = p_NodeID tk) b1) as Hb1.
  { eapply tracks_mono; [|by eapply tracks_insert]. by intros m _ [[]|]. }
  rewrite bind_run. apply IH. by apply (refresh_one (λ m, m = p_NodeID tk) (p_NodeID tk)).
Qed.
Lemma tracks_preload l : preserves tracks (PreloadHashes F clk l).
Proof using. unfold PreloadHashes. preserve. apply tracks_preload_each. Qed.

(** Revocations: dirty exactly when rows were returned. *)
Definition revocable (p : string → TokenRow → bool) (D : string → Prop) b : Prop :=
  tracks b ∧ ∀ n, n ≠ EmptyString → bound_by p (b_rows b) n → D n.
Definition revoked_post (D : string → Prop) (r : result (list Tombstone)) b : Prop :=
  match r with Ok (_ :: _) => tracks_but D b | _ => tracks b end.

Lemma tracks_revokeReturning pre p D :
  triple (revocable p D) (wrapM pre (revokeReturning F clk p)) (revoked_post D).
Proof using.
  apply (triple_wrapM _ _ (revoked_post D)); [|done|done].
  apply (triple_bind _ (λ _, revocable p D)); [by intros b [? ?]|]. intros at_.
  apply (tracks_revoke_sql at_ p (revocable p D) nobody D); [by intros b [? _]|by intros n []|].
  intros b n [_ H]. apply H.
Qed.

Lemma close_after {A} m l ns D (k : nat → A) :
  (∀ n, D n → n ∈ ns) →
  triple (tracks_but D)
    (held ← liveSessions m; _ ← refreshNodes F ns; _ ← recordTombstones F l; n ← closeRemaining m held; mret (k n))
    (λ _, tracks).
Proof using.
  intros HD. apply (triple_bind _ (λ _, tracks_but D)); [apply core_tracks; eauto with bus_core|]. intros held.
  apply (triple_bind _ (λ _, tracks)); [by apply refresh_clears|]. intros _.
  change (preserves tracks (_ ← recordTombstones F l; n ← closeRemaining m held; mret (k n))). preserve.
Qed.

Lemma revocable_weaken p (D D' : string → Prop) b : (∀ n, D n → D' n) → revocable p D b → revocable p D' b.
Proof using. intros HD [H1 H2]. split; [done|]. intros n Hn Hb. by apply HD, H2. Qed.

Lemma tracks_revoke i : preserves tracks (revoke F clk i).
Proof using.
  set (p := λ (h : string) (_ : TokenRow), String.eqb h i).
  apply (triple_bindE _ (λ r b, match r with Ok node => revocable p (λ m, m = node) b | Fail _ => tracks b end)).
  - set (Q := λ (r : result string) b, match r with Ok node => revocable p (λ m, m = node) b | Fail _ => tracks b end).
    apply (triple_wrapM _ _ Q); [|done|done]. intros b Hb. unfold query, sql.
    destruct (F (b_tick b)); cbn; [by apply (tracks_core_eq _ _ b)|]. split; [by apply (tracks_core_eq _ _ b)|].
    cbn. intros n _ (h & r & Hr & Hp & Hn). unfold p in Hp. apply String.eqb_eq in Hp as ->. rewrite Hr, Hn. done.
  - intros node. apply (triple_bindE _ (revoked_post (λ m, m = node))); [apply tracks_revokeReturning| |by intros e b].
    intros [|x l]; [by apply triple_ret'|]. apply close_after. intros m ->. constructor.
  - by intros e b.
Qed.
#[local] Hint Resolve tracks_revoke : triples.

Lemma tracks_Revoke i : preserves tracks (Revoke F clk i).
Proof using. unfold Revoke. apply preserves_bindE; [preserve|intros [|]; preserve]. Qed.

Lemma tracks_RevokeByNodeID n : preserves tracks (RevokeByNodeID F clk n).
Proof using.
  unfold RevokeByNodeID. apply preserves_bindE; [preserve|]. intros [|]; [preserve|].
  apply (triple_bindE _ (revoked_post (λ m, m = n))).
  - eapply triple_conseq; [apply tracks_revokeReturning| |by intros ? ? H; exact H].
    intros b Hb. split; [done|]. intros m _ (h & r & _ & Hp & Hm). apply bool_decide_eq_true in Hp. congruence.
  - intros [|x l]; [eapply triple_conseq; [|intros b Hb; exact Hb|by intros ? ? H; exact H]|]; apply close_after.
    + intros m [].
    + intros m ->. constructor.
  - by intros e b.
Qed.

Lemma tracks_except n k : preserves tracks (revokeNodeTokensExcept F clk n k).
Proof using.
  unfold revokeNodeTokensExcept. set (D := λ m : string, m = n).
  apply (triple_bind _ (λ _, tracks_but D)).
  - apply (triple_bindE _ (revoked_post D)).
    + eapply triple_conseq; [apply tracks_revokeReturning| |by intros ? ? H; exact H].
      intros b Hb. split; [done|]. intros m _ (h & r & _ & Hp & Hm).
      apply andb_true_iff in Hp as [Hp%bool_decide_eq_true _]. unfold D. congruence.
    + intros l. apply (triple_conseq _ (tracks_but D) _ (λ _, tracks_but D)); [|intros b Hb|done].
      * change (preserves (tracks_but D) (taken ← takeLocked (λ g, String.eqb (g_nodeID g) n && negb (String.eqb (g_tokenID g) k));
          _ ← recordTombstones F l; c ← disconnect taken; mret (Ok (length l, c)))). preserve.
      * destruct l; [|done]. eapply tracks_mono; [|exact Hb]. by intros ? _ [].
    + intros e b Hb. eapply tracks_mono; [|exact Hb]. by intros ? _ [].
  - intros r. apply (triple_bind _ (λ _, tracks)); [by apply refresh_one|]. intros _. by apply triple_ret'.
Qed.
#[local] Hint Resolve tracks_except : triples.

Lemma tracks_Admit c pl n : preserves tracks (Admit F clk HashToken c pl n).
Proof using.
  unfold Admit. preserve.
Qed.
Lemma tracks_Validate pl n : preserves tracks (Validate F clk HashToken pl n).
Proof using.
  unfold Validate. repeat (case_match; try apply preserves_ret). apply preserves_bindE; [apply preserves_wrapM; preserve|].
  intros r. preserve.
Qed.
#[local] Hint Resolve tracks_Validate : triples.

(** Adoption can only give a row its role. *)
Lemma adopt_rows_live id n t m h : m ≠ n ∨ live_in t m h →
  live_in (update_where (λ h r, String.eqb h id && bool_decide (t_node_id r = Some n))
    (λ r, set_role RoleControlPlane (set_self true r)) t) m h ↔ live_in t m h.
Proof using.
  intros Hm. unfold live_in. rewrite update_where_lookup. destruct (t !! h) as [r|] eqn:Hr; simpl; [|by split; intros (? & [=] & _)].
  destruct (String.eqb h id && bool_decide (t_node_id r = Some n)) eqn:E; [|done].
  apply andb_true_iff in E as [_ E%bool_decide_eq_true].
  destruct Hm as [Hm|(r' & Hr' & Hl)]; [|rewrite Hr in Hr'; injection Hr' as <-].
  - split; intros (r' & [= <-] & Hl); exfalso; unfold row_live in Hl; simpl in Hl;
      apply andb_true_iff in Hl as [[_ H%bool_decide_eq_true]%andb_true_iff _]; congruence.
  - split; [by exists r|]. intros _. eexists. split; [done|]. unfold row_live in *. simpl.
    by apply andb_true_iff in Hl as [-> _].
Qed.

Definition self_false_rows (id n : string) (t : table) : unit * table :=
  (tt, update_where (λ h r, negb (String.eqb h id) && bool_decide (t_node_id r = Some n)) (set_self false) t).
Lemma self_false_live id n t m h : live_in (self_false_rows id n t).2 m h ↔ live_in t m h.
Proof using.
  unfold live_in, self_false_rows. cbn [snd]. rewrite update_where_lookup. destruct (t !! h) as [r|]; simpl; [|done].
  case_match; [|done]. split; intros (r' & [= <-] & Hl); by eexists.
Qed.

(** Half of [tracks]: nothing the registry holds is stale. *)
Definition sound b : Prop :=
  b_sink b = true → ∀ n h, n ≠ EmptyString → h ≠ EmptyString → sound_at b n h.
Lemma sound_tracks b : sound b → ¬ quiet F → tracks b.
Proof using. intros H Hq Hs n h _ Hn Hh. split; [by apply H|]. by intros ?. Qed.
Lemma tracks_sound b : tracks b → sound b.
Proof using. intros H Hs n h Hn Hh. by apply H; [|intros []| |]. Qed.

Lemma tracks_adopt i n : preserves tracks (adopt F i n).
Proof using.
  unfold adopt, adoptSelfAgentToken. apply preserves_bind; [|intros; apply preserves_ret].
  case_match; [apply preserves_ret|]. set (D := λ m : string, m = n).
  apply (triple_bind _ (λ r b, match r with Ok _ => tracks_but D b ∧ sound b | Fail _ => tracks b end)).
  - intros b Hb. unfold sql. destruct (F (b_tick b)); cbn [fst snd]; [by apply (tracks_core_eq _ _ b)|]. split.
    + apply tracks_rows; [intros m h Hm _; apply adopt_rows_live; by left|]. eapply tracks_mono; [|exact Hb]. by intros ? _ [].
    + intros Hs m h Hm Hh Hin. cbn. pose proof (tracks_sound b Hb Hs m h Hm Hh Hin) as Hl.
      apply adopt_rows_live; [by right|done].
  - intros [[]|e]; [|by apply triple_ret'].
    apply (triple_bind _ (λ r b, match r with Ok _ => tracks_but D b | Fail _ => tracks b end)).
    + intros b [Hb Hsd]. unfold sql. destruct (F (b_tick b)) eqn:E; cbn [fst snd].
      * apply sound_tracks; [exact Hsd|]. intros Hq. by rewrite Hq in E.
      * apply tracks_rows; [|done]. intros m h _ _. apply (self_false_live i n).
    + intros [[]|e]; [|by apply triple_ret']. apply (triple_bind _ (λ _, tracks)); [by apply refresh_one|].
      intros _. by apply triple_ret'.
Qed.
#[local] Hint Resolve tracks_adopt tracks_mint : triples.

Lemma tracks_ensure p n : preserves tracks (EnsureAgentToken F clk HashToken rand p n).
Proof using.
  unfold EnsureAgentToken, agentTokenProblem. repeat (case_match; try apply preserves_ret).
  apply preserves_bind; [by apply preserves_modify; intros b Hb; apply (tracks_core_eq _ _ b)|intros _].
  apply preserves_bind.
  { apply preserves_bind; [apply preserves_get|]. intros b0. repeat (case_match; try apply preserves_ret).
    apply preserves_bindE; [preserve|]. intros [|]; apply preserves_ret. }
  intros [[reason liveID]|e]; [|apply preserves_ret]. case_match; [preserve|].
  apply preserves_bind; [preserve|]. intros [[pl id]|e]; [|apply preserves_ret].
  intros b Hb. unfold fault. assert (tracks (tick b)) as Ht by by apply (tracks_core_eq _ _ b).
  revert Ht. generalize (tick b). clear Hb. destruct (F (b_tick b)) as [e|]; intros b1 Hb1.
  - revert b1 Hb1. change (preserves tracks (_ ← revoke (R:=R) F clk id; mret (EmptyString, Some (wrapf ("busauth: write the controlplane agent's token to " +:+ p +:+ ": " +:+ err_text e) e)))). preserve.
  - rewrite bind_run. set (b2 := exec _ _).
    assert (tracks b2) as Hb2 by by apply (tracks_core_eq _ _ b1). revert b2 Hb2. intros b2.
    generalize b2. clear b2. match goal with |- ∀ b, _ → tracks (?m b).2 => change (preserves tracks m) end. preserve.
Qed.

Lemma tracks_reapply at_ l n ns :
  triple (tracks_but (λ m, m ∈ ns)) (reapply F at_ l n ns) (λ x, tracks_but (λ m, m ∈ x.1.2)).
Proof using.
  revert n ns. induction l as [|[h tb] l IH]; intros n ns; cbn [reapply]; [by apply triple_ret'|].
  intros b Hb. rewrite bind_run. unfold eval, exec, sql. destruct (F (b_tick b)); cbn [fst snd].
  { by apply (tracks_core_eq _ _ b). }
  destruct (revoke_rows at_ (λ h' _, String.eqb h' h) (b_rows b)) as [rs t] eqn:E. cbn [fst snd]. destruct rs as [|t0 rs].
  { apply IH. apply revoke_rows_nil in E as ->. by apply (tracks_core_eq _ _ b). }
  apply IH. apply tracks_rows; [|eapply tracks_mono; [|exact Hb]; intros m _ Hm; apply elem_of_app; by left].
  intros m h' Hm Hne. pose proof (revoke_rows_live at_ (λ h' _, String.eqb h' h) (b_rows b) m h') as Hl. rewrite E in Hl.
  apply Hl. intros (h0 & r & Hr & Hp & Hn). apply String.eqb_eq in Hp as ->. apply Hm, elem_of_app. right.
  assert (t0 ∈ (revoke_rows at_ (λ h' _, String.eqb h' h) (b_rows b)).1) as Hin by (rewrite E; constructor).
  unfold revoke_rows in Hin. cbn [fst] in Hin. apply list_elem_of_In, in_map_iff in Hin as ([h1 r1] & <- & Hin).
  apply list_elem_of_In, elem_of_select in Hin as [Hr1 [Hp1%String.eqb_eq _]%andb_true_iff]. subst h1.
  rewrite Hr in Hr1. injection Hr1 as <-. simpl. rewrite Hn. simpl.
  destruct (String.eqb_spec m EmptyString); [done|]. constructor.
Qed.

Lemma tracks_use p : preserves tracks (UseTombstoneFile F clk p).
Proof using.
  unfold UseTombstoneFile. apply preserves_bind; [apply preserves_get|intros b0].
  case_match; [|apply preserves_ret]. apply preserves_bind; [apply preserves_wrapM; preserve|].
  intros [l|e]; [|apply preserves_ret]. apply preserves_bind; [preserve|intros _].
  apply preserves_bind; [preserve|intros at_].
  apply (triple_bind _ (λ x, tracks_but (λ m, m ∈ x.1.2))).
  { eapply triple_conseq; [apply tracks_reapply| |by intros ? ? Hx; exact Hx].
    intros b Hb. eapply tracks_mono; [|exact Hb]. by intros ? _ []. }
  intros [[n ns] err]. cbn [fst snd].
  apply (triple_bind _ (λ _, tracks_but (λ m, m ∈ ns))).
  { case_match; [|by apply triple_ret']. intros b Hb. by apply (tracks_core_eq _ _ b). }
  intros _. apply (triple_bind _ (λ _, tracks)); [by apply refresh_clears|]. intros _. by apply triple_ret'.
Qed.
End Ops.

(** ** Attaching the registry *)
Section Attach.
Context {R : Type} `{!NodeRegistry R} `{HL : !NodeRegistryLaws R}.
Context (F : nat → option error).
Implicit Types b : Bus R.

Lemma bound_some (r : TokenRow) n : bound_node r = Some n ↔ t_node_id r = Some n ∧ n ≠ EmptyString.
Proof.
  unfold bound_node. destruct (t_node_id r) as [m|]; [|naive_solver].
  destruct (String.eqb_spec m EmptyString); naive_solver.
Qed.

Lemma add_live_elem l (set : gmap string (list string)) n h :
  h ∈ default [] (foldl add_live set l !! n) ↔
  h ∈ default [] (set !! n) ∨ ∃ r, (h, r) ∈ l ∧ n ≠ EmptyString ∧ h ≠ EmptyString ∧ row_live n r = true.
Proof.
  revert set. induction l as [|[h0 r0] l IH]; intros set; simpl.
  { split; [by left|]. intros [?|(? & ?%elem_of_nil & _)]; done. }
  rewrite IH. clear IH.
  assert (h ∈ default [] (add_live set (h0, r0) !! n) ↔
    h ∈ default [] (set !! n) ∨ (h = h0 ∧ n ≠ EmptyString ∧ h ≠ EmptyString ∧ row_live n r0 = true)) as ->.
  2:{ setoid_rewrite elem_of_cons. split; [intros [[?|(-> & ?)]|(r & ? & ?)]|intros [?|(r & [[= -> ->]|?] & ?)]]; eauto 8. }
  unfold add_live. cbn [fst snd].
  destruct (bound_node r0) as [m|] eqn:Em.
  - apply bound_some in Em as [Em Hm]. unfold row_live. rewrite Em.
    destruct (bool_decide (t_revoked_at r0 = None)), (role_ok (t_role r0)), (String.eqb_spec h0 EmptyString) as [|Hh0]; simpl;
      rewrite ?andb_false_r; simpl; try naive_solver.
    destruct (decide (m = n)) as [->|Hne].
    + rewrite lookup_insert_eq, bool_decide_true by done. simpl. rewrite elem_of_app, list_elem_of_singleton. naive_solver.
    + rewrite lookup_insert_ne, bool_decide_false by congruence. naive_solver.
  - assert (∀ n, n ≠ EmptyString → row_live n r0 = false) as Hl.
    2:{ split; [by left|]. intros [?|(_ & Hn & _ & Hx)]; [done|]. by rewrite Hl in Hx. }
    intros m Hm. unfold row_live. rewrite (bool_decide_false (t_node_id r0 = Some m)); [by rewrite andb_false_r|].
    intros E. assert (bound_node r0 = Some m) by by apply bound_some. congruence.
Qed.

Lemma tracks_attach reg b : tracks F b → tracks F (exec (SetNodeRegistry F reg) b).
Proof.
  intros Hb. unfold SetNodeRegistry, liveTokensByNode, bindE, wrapM, query, sql.
  rewrite !exec_bind, !eval_bind. unfold eval, exec. destruct (F (b_tick b)) eqn:E; cbn [fst snd].
  { by apply (tracks_core_eq _ _ b). }
  change (tracks F (with_reg true (nr_replace (foldl add_live ∅ (map_to_list (b_rows b))) reg).2
    (with_rows (b_rows b) (tick b)))).
  intros _ n h _ Hn Hh. unfold sound_at, exact_at. cbn [b_reg b_rows with_reg with_rows tick].
  rewrite nr_tokens_replace, add_live_elem, lookup_empty. unfold live_in. setoid_rewrite elem_of_map_to_list.
  split; [intros [[?%elem_of_nil|(r & ? & ?)] _]; naive_solver|]. intros _ (r & ? & ?). naive_solver.
Qed.

End Attach.

(** ** Every history of the store *)
Section Reach.
Context {R : Type} `{!NodeRegistry R} `{HL : !NodeRegistryLaws R}.
Context (F : nat → option error) (clk : nat → Z) (HashToken : string → string) (rand : nat → result string).
Implicit Types b : Bus R.

(** A new api process on the same database and files, up to OpenStore. *)
Definition restarted b : Bus R :=
  mkBus (b_tick b) (b_rows b) ∅ false ∅ EmptyString false (b_reg b) EmptyString ∅ (b_files b) ∅ (b_agent b).

Inductive bus_step : relation (Bus R) :=
| step_open k b : bus_step b (with_open ({[k]} ∪ b_open b) b)
| step_closed k b : bus_step b (with_open (b_open b ∖ {[k]}) b)
| step_track b : bus_step b (exec TrackSessions b)
| step_admit c pl n b : bus_step b (exec (Admit F clk HashToken c pl n) b)
| step_mint l n r b : bus_step b (exec (MintBound F clk HashToken rand l n r) b)
| step_preload l b : bus_step b (exec (PreloadHashes F clk l) b)
| step_revoke i b : bus_step b (exec (Revoke F clk i) b)
| step_revoke_node n b : bus_step b (exec (RevokeByNodeID F clk n) b)
| step_ensure p n b : bus_step b (exec (EnsureAgentToken F clk HashToken rand p n) b)
| step_use p b : bus_step b (exec (UseTombstoneFile F clk p) b)
| step_merge i f b : bus_step b (exec (MergeTombstoneFiles F i f) b)
| step_attach reg b : bus_step b (exec (SetNodeRegistry F reg) b)
| step_registry reg b :                     (* inventory changes of the registry: members, keys, last-seen *)
    (∀ n, nr_tokens reg n = nr_tokens (b_reg b) n) → bus_step b (with_reg (b_sink b) reg b)
| step_excluded ns b : bus_step b (exec (exclusion_hooks ns) b)
| step_restart b : bus_step b (exec (backfillRoles F) (restarted b)).

Lemma step_tracks b b' : bus_step b b' → tracks F b → tracks F b'.
Proof using.
  intros Hs Hb. destruct Hs; try (by apply (tracks_core_eq _ _ b)).
  - by apply tracks_Admit.
  - by apply tracks_mint.
  - by apply tracks_preload.
  - by apply tracks_Revoke.
  - by apply tracks_RevokeByNodeID.
  - by apply tracks_ensure.
  - by apply tracks_use.
  - apply (tracks_core_eq _ _ b); [apply core_merge|done].
  - by apply tracks_attach.
  - intros Hs n h _ Hn Hh. unfold sound_at, exact_at. cbn. rewrite H. by apply Hb; [|intros []| |].
  - apply (tracks_core_eq _ _ b); [apply core_hooks|done].
  - intros Hs. exfalso. assert (yields (λ b b', b_sink b' = b_sink b) (backfillRoles (R:=R) F)) as Hy.
    { assert (PreOrder (λ b b' : Bus R, b_sink b' = b_sink b)) by (split; [done|intros ???; congruence]).
      unfold backfillRoles. bus; try done. induction AllRoles as [|r l IH]; simpl; bus; done. }
    specialize (Hy (restarted b)). unfold exec in Hs. by rewrite Hy in Hs.
Qed.

Lemma steps_tracks b b' : rtc bus_step b b' → tracks F b → tracks F b'.
Proof using. induction 1; [done|]. intros Hb. by eapply IHrtc, step_tracks. Qed.
End Reach.

(** ** Admission *)
Section Admission.
Context {R : Type} `{!NodeRegistry R} `{HL : !NodeRegistryLaws R}.
Context (F : nat → option error) (clk : nat → Z) (HashToken : string → string) (rand : nat → result string).
Implicit Types b : Bus R.

Definition admitted_by b (pl n : string) : Prop :=
  pl ≠ EmptyString ∧ n ≠ EmptyString ∧ b_sink b = true ∧ nr_admits (b_reg b) n (HashToken pl) = true.

Lemma admits_run pl n b : admits HashToken pl n b =
  (negb (String.eqb pl EmptyString) && negb (String.eqb n EmptyString) && b_sink b && nr_admits (b_reg b) n (HashToken pl), b).
Proof using. unfold admits. by destruct (String.eqb pl EmptyString), (String.eqb n EmptyString). Qed.

Lemma eval_const {A B} (m : M (Bus R) A) (x : B) b : eval (_ ← m; mret x) b = x.
Proof using. by rewrite eval_bind. Qed.

Lemma Admit_spec c pl n b : eval (Admit F clk HashToken c pl n) b = true ↔ admitted_by b pl n.
Proof using.
  unfold Admit, admitted_by. rewrite eval_bind. unfold eval at 2, exec. rewrite admits_run. cbn [fst snd].
  destruct (String.eqb_spec pl EmptyString), (String.eqb_spec n EmptyString), (b_sink b),
    (nr_admits (b_reg b) n (HashToken pl)); cbn [andb negb]; try (split; [done|by intros (?&?&?&?)]).
  split; [done|]. intros _. rewrite eval_bind. destruct (negb _); by rewrite ?eval_bind.
Qed.

(** C20. The bus admits exactly the live tokens.  In every state the store can
    reach from a fresh start on any database — whatever statements failed, in
    whatever order the operations ran — a connection is admitted only with a
    token that is in the table, unrevoked, bound to the node it presented and
    of a valid role; and when no statement failed and the registry is loaded,
    every such token is admitted. *)
Theorem admit_exact b0 b c pl n :
  b_sink b0 = false → rtc (bus_step F clk HashToken rand) b0 b →
  (eval (Admit F clk HashToken c pl n) b = true → live_in (b_rows b) n (HashToken pl)) ∧
  (quiet F → b_sink b = true → nr_ready (b_reg b) = true →
   pl ≠ EmptyString → n ≠ EmptyString → HashToken pl ≠ EmptyString →
   live_in (b_rows b) n (HashToken pl) → eval (Admit F clk HashToken c pl n) b = true).
Proof using.
  intros Hf Hs. assert (tracks F b) as Ht.
  { apply (steps_tracks F clk HashToken rand b0); [done|]. intros Hs'. congruence. }
  rewrite Admit_spec. unfold admitted_by. rewrite nr_admits_tokens. split.
  - intros (_ & Hn & Hsk & _ & _ & Hh & Hin).
    destruct (Ht Hsk n (HashToken pl)) as [Hx _]; [by intros []|done..|]. by apply Hx.
  - intros Hq Hsk Hr Hp Hn Hh Hl. split_and!; try done.
    destruct (Ht Hsk n (HashToken pl)) as [_ Hx]; [by intros []|done..|]. by apply Hx.
Qed.

Lemma step_evolves b b' : bus_step F clk HashToken rand b b' → evolves b b'.
Proof using.
  intros Hs. assert (∀ A (m : M (Bus R) A), yields evolves m → evolves b (exec m b)) as Hy by (intros A m H; apply H).
  destruct Hs; try (apply Hy; solve [eauto with bus_core]); try (solve [unfold evolves; simpl; reflexivity]).
  - apply Hy, core_evolves, core_merge.
  - unfold SetNodeRegistry, liveTokensByNode. apply Hy. apply yields_bindE; [apply _| |intros set].
    + apply yields_wrapM; [apply _|]. apply core_evolves, core_query.
    + apply yields_bind; [apply _|intros b0; unfold evolves; simpl; reflexivity|]. intros _. apply yields_ret, _.
  - apply Hy, core_evolves, core_hooks.
  - apply (evolves_backfill F (restarted b)).
Qed.
Lemma steps_evolve b b' : rtc (bus_step F clk HashToken rand) b b' → evolves b b'.
Proof using. induction 1; [by unfold evolves|]. etransitivity; [by apply step_evolves|done]. Qed.
End Admission.

(** A store on the inventory's registry: one firewall node, one minted token. *)
Definition no_faults (k : nat) : option error := None.
Definition seconds (k : nat) : Z := 1000 * Z.of_nat k.
Definition plain_hash (s : string) : string := "h:" +:+ s.
Definition one_token (k : nat) : result string := Ok "tok".
Definition fw_registry : Registry := (loadMembers (Ok [("fw1", "firewall", None)]) NewRegistry).2.
Definition empty_bus : Bus Registry :=
  mkBus 0 ∅ ∅ false ∅ EmptyString false fw_registry EmptyString ∅ ∅ ∅ AfMissing.
Definition attached_bus : Bus Registry := exec (SetNodeRegistry no_faults fw_registry) empty_bus.
Definition tracking_bus : Bus Registry := exec TrackSessions attached_bus.
Definition minted_bus : Bus Registry :=
  exec (MintBound no_faults seconds plain_hash one_token "fw" "fw1" "firewall") tracking_bus.

Lemma minted_reachable : rtc (bus_step no_faults seconds plain_hash one_token) empty_bus minted_bus.
Proof.
  eapply rtc_l; [apply (step_attach _ _ _ _ fw_registry)|]. eapply rtc_l; [apply step_track|].
  eapply rtc_l; [apply (step_mint _ _ _ _ "fw" "fw1" "firewall")|]. apply rtc_refl.
Qed.

Lemma admit_exact_witness :
  eval (Admit no_faults seconds plain_hash (mkConn "s" 7 "10.0.0.2") "tok" "fw1") minted_bus = true ∧
  live_in (b_rows minted_bus) "fw1" "h:tok".
Proof.
  assert (eval (Admit no_faults seconds plain_hash (mkConn "s" 7 "10.0.0.2") "tok" "fw1") minted_bus = true) as H
    by (vm_compute; reflexivity).
  split; [exact H|].
  exact (proj1 (admit_exact no_faults seconds plain_hash one_token empty_bus minted_bus
    (mkConn "s" 7 "10.0.0.2") "tok" "fw1" eq_refl minted_reachable) H).
Defined.
