(* ===== verification/BusSessions.v ===== *)
(** * Live sessions: one per token, and none past a revoke

    The session table of BusTokens.v along every history of the store. *)
From Stdlib Require Import Ascii String.
From S2P Require Import Prelude GoStrings GoPath NodeRegistry BusTokens BusTokensFacts BusAdmission.

#[local] Arguments String.eqb : simpl never.

Section Settle.
Context {R : Type} `{!NodeRegistry R}.
Context (F : nat → option error) (clk : nat → Z).
Implicit Types b : Bus R.
Implicit Types m : grant → bool.
Implicit Types k : session.

(** With no Disconnector nothing is recorded. *)
Definition unrecorded b : Prop := b_disc b = false → b_grants b = ∅.

(** No connection opens or is recorded, and a recorded one stays recorded or is closed. *)
Definition settles b b' : Prop :=
  unrecorded b →
  b_disc b' = b_disc b ∧ b_open b' ⊆ b_open b ∧ b_grants b' ⊆ b_grants b ∧
  (∀ k g, b_grants b !! k = Some g → b_grants b' !! k = Some g ∨ k ∉ b_open b').

Lemma settles_unrecorded b b' : settles b b' → unrecorded b → unrecorded b'.
Proof using.
  intros H Hu Hd. destruct (H Hu) as (Hd' & _ & Hg & _). rewrite Hd in Hd'. symmetry in Hd'.
  rewrite (Hu Hd') in Hg. apply map_empty. intros k. apply eq_None_not_Some. intros [g Hk].
  by apply (lookup_weaken _ _ _ _ Hk) in Hg.
Qed.

#[export] Instance settles_preorder : PreOrder settles.
Proof using.
  split; [intros b _; split_and!; [done..|eauto]|].
  intros x y z Hxy Hyz Hu. destruct (Hxy Hu) as (D1 & O1 & G1 & S1).
  destruct (Hyz (settles_unrecorded _ _ Hxy Hu)) as (D2 & O2 & G2 & S2).
  split_and!; [congruence|by etransitivity..|]. intros k g Hg. destruct (S1 k g Hg) as [H|H]; [by apply S2|]. right.
  intros Hk. by apply H, O2.
Qed.

Definition same_sess b b' : Prop := b_grants b' = b_grants b ∧ b_open b' = b_open b ∧ b_disc b' = b_disc b.
Lemma settles_same b b' : same_sess b b' → settles b b'.
Proof using. intros (E1 & E2 & E3) _. rewrite E1, E2, E3. split_and!; [done..|eauto]. Qed.

#[local] Hint Constants Opaque : yields.
#[local] Hint Extern 1 (settles _ _) => (apply settles_same; by repeat split) : yields.
#[local] Hint Extern 1 (∀ b, settles b _) => (intros ?; apply settles_same; by repeat split) : yields.

Lemma settles_sql {A} (f : table → A * table) : yields settles (sql (R:=R) F f).
Proof using.
  intros b. apply settles_same. unfold sql. destruct (F _); [by repeat split|]. by destruct (f _).
Qed.
Lemma settles_query {A} (f : table → A) : yields settles (query (R:=R) F f).
Proof using. apply settles_sql. Qed.
Lemma settles_now : yields settles (now (R:=R) clk).
Proof using. intros b. by apply settles_same. Qed.
Lemma settles_prune : yields settles (pruneLocked (R:=R)).
Proof using.
  intros b _. cbn. split_and!; [done..| |].
  - apply map_filter_subseteq.
  - intros k g Hg. destruct (decide (k ∈ b_open b)); [left; by apply map_lookup_filter_Some|by right].
Qed.
#[local] Hint Resolve settles_sql settles_query settles_now settles_prune : yields.

(** What a run of closes leaves. *)
Lemma disconnect_run l b :
  exec (disconnect l) b = with_open (b_open b ∖ list_to_set l) b.
Proof using.
  revert b. induction l as [|k l IH]; intros b; simpl.
  - unfold exec. simpl. rewrite difference_empty_L. by destruct b.
  - rewrite exec_bind, exec_bind, IH. cbn. rewrite difference_difference_l_L. done.
Qed.
Lemma close_each_run s l n b : exec (close_each s l n) b = with_open (b_open b ∖ list_to_set l) b.
Proof using.
  revert n b. induction l as [|k l IH]; intros n b; simpl.
  - unfold exec. simpl. rewrite difference_empty_L. by destruct b.
  - rewrite exec_bind, IH. cbn. rewrite difference_difference_l_L. done.
Qed.

(** Taking every matching record and closing it. *)
Definition closed_by (m : grant → bool) b : Bus R :=
  with_open (b_open b ∖ list_to_set ((take_grants m (b_grants b)).1.*1)) (with_grants (take_grants m (b_grants b)).2 b).

Lemma taken_elem m (gs : grants) k : k ∈ ((take_grants m gs).1.*1) ↔ ∃ g, gs !! k = Some g ∧ m g = true.
Proof using.
  unfold take_grants. cbn [fst]. rewrite list_elem_of_fmap. split.
  - intros ([k' g] & -> & [Hm Hg]%list_elem_of_filter). apply elem_of_map_to_list in Hg. by exists g.
  - intros (g & Hg & Hm). exists (k, g). split; [done|]. apply list_elem_of_filter. by rewrite elem_of_map_to_list.
Qed.
Lemma rest_lookup m (gs : grants) k g : (take_grants m gs).2 !! k = Some g ↔ gs !! k = Some g ∧ m g = false.
Proof using. unfold take_grants. cbn [snd]. by rewrite map_lookup_filter_Some. Qed.

Lemma settles_closed m b : settles b (closed_by m b).
Proof using.
  intros _. unfold closed_by. cbn. split_and!; [done|set_solver|apply map_filter_subseteq|].
  intros k g Hg. destruct (m g) eqn:Hm; [right|left; by apply rest_lookup].
  intros [_ Hk]%elem_of_difference. apply Hk, elem_of_list_to_set, taken_elem. eauto.
Qed.
Lemma closed_none m b k g : b_grants (closed_by m b) !! k = Some g → m g = false.
Proof using. unfold closed_by. cbn [b_grants with_open with_grants]. by intros [_ ?]%rest_lookup. Qed.

Lemma DisconnectNode_run n b : n ≠ EmptyString → b_disc b = true →
  exec (DisconnectNode n) b = closed_by (λ g, String.eqb (g_nodeID g) n) b.
Proof using.
  intros Hn Hd. unfold DisconnectNode. rewrite (proj2 (String.eqb_neq _ _) Hn). rewrite exec_bind.
  change (eval get b) with b. change (exec get b) with b. rewrite Hd. cbn [negb]. rewrite exec_bind, disconnect_run. done.
Qed.
Lemma settles_DisconnectNode n : yields settles (DisconnectNode (R:=R) n).
Proof using.
  intros b. destruct (decide (n = EmptyString)) as [->|Hn]; [by apply settles_same|].
  destruct (b_disc b) eqn:Hd.
  - change (settles b (exec (DisconnectNode n) b)). rewrite DisconnectNode_run by done. apply settles_closed.
  - apply settles_same. unfold DisconnectNode. rewrite (proj2 (String.eqb_neq _ _) Hn), bind_run.
    change (eval get b) with b. change (exec get b) with b. by rewrite Hd.
Qed.
#[local] Hint Resolve settles_DisconnectNode : yields.

Lemma settles_refresh ns : yields settles (refreshNodes (R:=R) F ns).
Proof using. unfold refreshNodes, push_node, liveTokenHashes, exclusion_hooks. bus. Qed.
Lemma settles_record l : yields settles (recordTombstones (R:=R) F l).
Proof using. unfold recordTombstones, writeTombstoneFile. bus. Qed.
Lemma recordTombstones_sess l b : same_sess b (exec (recordTombstones (R:=R) F l) b).
Proof using.
  assert (PreOrder same_sess) by (split; [done|intros ??? (?&?&?) (?&?&?); split_and!; congruence]).
  assert (yields same_sess (recordTombstones (R:=R) F l)) as Hy; [|apply Hy].
  unfold recordTombstones, writeTombstoneFile. bus; by repeat split.
Qed.
Lemma settles_live m : yields settles (liveSessions (R:=R) m).
Proof using. unfold liveSessions. bus. Qed.
Lemma settles_revokeReturning p : yields settles (revokeReturning (R:=R) F clk p).
Proof using. unfold revokeReturning. bus. Qed.

Lemma closeRemaining_run m s b : b_disc b = true → exec (closeRemaining m s) b = closed_by m b.
Proof using.
  intros Hd. unfold closeRemaining. rewrite !exec_bind.
  set (b1 := exec (takeLocked m) b). change (eval get b1) with b1. change (exec get b1) with b1.
  change (b_disc b1) with (b_disc b). rewrite Hd, close_each_run. done.
Qed.
Lemma closeRemaining_idle m s b : b_disc b = false → b_grants b = ∅ →
  same_sess b (exec (closeRemaining m s) b).
Proof using.
  intros Hd Hg. unfold closeRemaining. rewrite !exec_bind.
  set (b1 := exec (takeLocked m) b). change (eval get b1) with b1. change (exec get b1) with b1.
  change (b_disc b1) with (b_disc b). rewrite Hd. rewrite exec_ret.
  split_and!; [|done|done]. change (b_grants b1) with (take_grants m (b_grants b)).2. rewrite Hg.
  unfold take_grants. cbn [snd]. by rewrite map_filter_empty.
Qed.
Lemma settles_closeRemaining m s : yields settles (closeRemaining (R:=R) m s).
Proof using.
  intros b Hu. destruct (b_disc b) eqn:Hd.
  - change (closeRemaining m s b).2 with (exec (closeRemaining m s) b). rewrite closeRemaining_run, <- Hd by done.
    by apply settles_closed.
  - rewrite <- Hd. by apply settles_same; [apply closeRemaining_idle; [|apply Hu]|].
Qed.
#[local] Hint Resolve settles_refresh settles_record settles_live settles_revokeReturning settles_closeRemaining : yields.

Context (HashToken : string → string) (rand : nat → result string).

Lemma settles_touch i : yields settles (touchLastUsed (R:=R) F clk i).
Proof using. unfold touchLastUsed. bus. Qed.
Lemma settles_mint l n r : yields settles (MintBound (R:=R) F clk HashToken rand l n r).
Proof using. unfold MintBound, sql_insert. bus. intros b. by apply settles_same. Qed.
Lemma settles_preload_each t l n : yields settles (preload_each (R:=R) F t l n).
Proof using. revert n. induction l as [|[tk role] l IH]; intros n; simpl; unfold tombstoned; bus. Qed.
#[local] Hint Resolve settles_preload_each : yields.
Lemma settles_preload l : yields settles (PreloadHashes (R:=R) F clk l).
Proof using. unfold PreloadHashes. bus. Qed.
Lemma settles_revoke i : yields settles (revoke (R:=R) F clk i).
Proof using. unfold revoke. bus. Qed.
#[local] Hint Resolve settles_touch settles_mint settles_revoke : yields.
Lemma settles_Revoke i : yields settles (Revoke (R:=R) F clk i).
Proof using. unfold Revoke, isSelfAgentToken. bus. Qed.
Lemma settles_RevokeByNodeID n : yields settles (RevokeByNodeID (R:=R) F clk n).
Proof using. unfold RevokeByNodeID, nodeHasSelfAgentToken. bus. Qed.
Lemma settles_take_close {A} m l (f : nat → A) :
  yields settles (taken ← takeLocked m; _ ← recordTombstones F l; n ← disconnect (R:=R) taken; mret (f n)).
Proof using.
  intros b. change (settles b (exec (taken ← takeLocked m; _ ← recordTombstones F l; n ← disconnect taken; mret (f n)) b)).
  rewrite !exec_bind, exec_ret, disconnect_run.
  set (b1 := exec (takeLocked m) b). destruct (recordTombstones_sess l b1) as (E1 & E2 & E3).
  set (b2 := exec (recordTombstones F l) b1) in *. intros Hu.
  destruct (settles_closed m b Hu) as (H1 & H2 & H3 & H4). unfold closed_by in *. cbn [b_disc b_open b_grants with_open] in *.
  rewrite E1, E2, E3. split_and!; [exact H1|exact H2|exact H3|exact H4].
Qed.
Lemma settles_except n keep : yields settles (revokeNodeTokensExcept (R:=R) F clk n keep).
Proof using.
  unfold revokeNodeTokensExcept. apply yields_bind; [apply _| |intros r; bus].
  apply yields_bindE; [apply _|bus|intros l]. apply settles_take_close.
Qed.
Lemma settles_Validate p n : yields settles (Validate (R:=R) F clk HashToken p n).
Proof using. unfold Validate. bus. Qed.
Lemma settles_adopt i n : yields settles (adopt (R:=R) F i n).
Proof using. unfold adopt, adoptSelfAgentToken. bus. Qed.
#[local] Hint Resolve settles_except settles_Validate settles_adopt : yields.
Lemma settles_ensure p n : yields settles (EnsureAgentToken (R:=R) F clk HashToken rand p n).
Proof using. unfold EnsureAgentToken, agentTokenProblem. bus. Qed.
Lemma settles_reapply t l n ns : yields settles (reapply (R:=R) F t l n ns).
Proof using. revert n ns. induction l as [|[h tb] l IH]; intros n ns; simpl; bus. Qed.
Lemma settles_write p t : yields settles (writeTombstoneFile (R:=R) F p t).
Proof using. unfold writeTombstoneFile. bus. Qed.
#[local] Hint Resolve settles_reapply settles_write : yields.
Lemma settles_use p : yields settles (UseTombstoneFile (R:=R) F clk p).
Proof using. unfold UseTombstoneFile. bus. Qed.
Lemma settles_merge i f : yields settles (MergeTombstoneFiles (R:=R) F i f).
Proof using. unfold MergeTombstoneFiles. bus. Qed.
Lemma settles_attach reg : yields settles (SetNodeRegistry (R:=R) F reg).
Proof using. unfold SetNodeRegistry, liveTokensByNode. bus. Qed.
Lemma settles_hooks ns : yields settles (exclusion_hooks (R:=R) ns).
Proof using. unfold exclusion_hooks. bus. Qed.
Lemma settles_backfill : yields settles (backfillRoles (R:=R) F).
Proof using. unfold backfillRoles. bus. induction AllRoles; simpl; bus. Qed.
End Settle.

#[export] Hint Resolve settles_mint settles_preload settles_Revoke settles_RevokeByNodeID settles_ensure settles_use
  settles_merge settles_attach settles_hooks settles_backfill : bus_core.

(** ** The session table *)
Section Sessions.
Context {R : Type} `{!NodeRegistry R} `{HL : !NodeRegistryLaws R}.
Context (F : nat → option error) (clk : nat → Z) (HashToken : string → string) (rand : nat → result string).
Implicit Types b : Bus R.

(** At most one session per token, each of a node the token is bound to. *)
Definition one_session (gs : grants) : Prop :=
  ∀ k1 k2 g1 g2, gs !! k1 = Some g1 → gs !! k2 = Some g2 → g_tokenID g1 = g_tokenID g2 → k1 = k2.
Definition sessions_bound (gs : grants) (t : table) : Prop :=
  ∀ k g, gs !! k = Some g → ∃ r, t !! g_tokenID g = Some r ∧ t_node_id r = Some (g_nodeID g).
Definition sess_ok b : Prop := unrecorded b ∧ one_session (b_grants b) ∧ sessions_bound (b_grants b) (b_rows b).

Lemma one_session_sub (gs gs' : grants) : gs' ⊆ gs → one_session gs → one_session gs'.
Proof using. intros Hs H k1 k2 g1 g2 H1 H2. apply H; by eapply lookup_weaken. Qed.
Lemma sessions_bound_evolve gs gs' t t' :
  gs' ⊆ gs → rows_evolve t t' → sessions_bound gs t → sessions_bound gs' t'.
Proof using.
  intros Hs He H k g Hg. destruct (H k g) as (r & Hr & Hn); [by eapply lookup_weaken|].
  destruct (He _ _ Hr) as (r' & Hr' & Hn' & _). exists r'. split; [done|]. congruence.
Qed.
Lemma sess_ok_settles b b' : settles b b' → evolves b b' → sess_ok b → sess_ok b'.
Proof using.
  intros Hs He (Hu & H1 & H2). destruct (Hs Hu) as (_ & _ & Hg & _). split_and!.
  - by eapply settles_unrecorded.
  - by eapply one_session_sub.
  - by eapply sessions_bound_evolve.
Qed.

(** The table an admission leaves, when sessions are tracked. *)
Definition admitted_grants (c : Conn) (id n : string) b : grants :=
  <[(c_ServerID c, c_CID c) := mkGrant id n (c_Host c)]>
    (take_grants (λ g, String.eqb (g_tokenID g) id) (prune_grants (b_open b) (b_grants b))).2.

Definition same_grants b b' : Prop := b_grants b' = b_grants b ∧ b_disc b' = b_disc b.
#[local] Instance same_grants_preorder : PreOrder same_grants.
Proof using. split; [done|]. intros x y z [??] [??]. split; congruence. Qed.
Lemma touch_grants i b : same_grants b (exec (touchLastUsed F clk i) b) ∧ b_open (exec (touchLastUsed F clk i) b) = b_open b.
Proof using.
  unfold touchLastUsed. case_match; [done|]. rewrite exec_bind. unfold sql. rewrite exec_bind. unfold exec.
  by destruct (F _).
Qed.
Lemma evict_grants c t n l b :
  same_grants b (exec (evictSuperseded clk c t n l) b) ∧
  b_open (exec (evictSuperseded clk c t n l) b) = b_open b ∖ list_to_set l.*1.
Proof using.
  revert b. induction l as [|[k g] l IH]; intros b; simpl.
  { split; [done|]. unfold exec. simpl. by rewrite difference_empty_L. }
  rewrite !exec_bind. set (b1 := exec (modify _) _). destruct (IH b1) as [[E1 E2] E3].
  split; [split; [by rewrite E1|by rewrite E2]|]. rewrite E3. unfold b1. cbn. by rewrite difference_difference_l_L.
Qed.

Definition admits_bool (pl n : string) b : bool :=
  negb (String.eqb pl EmptyString) && negb (String.eqb n EmptyString) && b_sink b && nr_admits (b_reg b) n (HashToken pl).
Definition superseded_by (id : string) b : list (session * grant) :=
  (take_grants (λ g, String.eqb (g_tokenID g) id) (prune_grants (b_open b) (b_grants b))).1.

Lemma Admit_run c pl n b :
  Admit F clk HashToken c pl n b =
    if admits_bool pl n b then
      if b_disc b then
        (true, exec (evictSuperseded clk c (HashToken pl) n (superseded_by (HashToken pl) b))
           (exec (touchLastUsed F clk (HashToken pl)) (with_grants (admitted_grants c (HashToken pl) n b) b)))
      else (true, exec (touchLastUsed F clk (HashToken pl)) b)
    else (false, b).
Proof using.
  unfold Admit. rewrite bind_run. unfold eval, exec at 1. rewrite admits_run. cbn [fst snd].
  fold (admits_bool pl n b). destruct (admits_bool pl n b); cbn [negb]; [|done]. rewrite bind_run.
  change (eval get b) with b. change (exec get b) with b. destruct (b_disc b); cbn [negb]; rewrite !bind_run; [|done].
  unfold mret, M_ret. f_equal.
Qed.

Lemma Admit_tracked c pl n b :
  b_disc b = true → eval (Admit F clk HashToken c pl n) b = true →
  let b' := exec (Admit F clk HashToken c pl n) b in
  b_grants b' = admitted_grants c (HashToken pl) n b ∧ b_disc b' = true ∧
  b_open b' = b_open b ∖ list_to_set (superseded_by (HashToken pl) b).*1.
Proof using.
  intros Hd Ha b'. unfold eval in Ha. unfold b', exec. rewrite Admit_run, Hd in *.
  destruct (admits_bool pl n b); [|done]. cbn [snd]. clear b'.
  set (b2 := with_grants _ b). destruct (touch_grants (HashToken pl) b2) as [[E4 E5] E6].
  destruct (evict_grants c (HashToken pl) n (superseded_by (HashToken pl) b)
    (exec (touchLastUsed F clk (HashToken pl)) b2)) as [[E1 E2] E3].
  unfold exec in *. rewrite E1, E2, E3, E4, E5, E6. by split_and!.
Qed.

Lemma Admit_untracked c pl n b :
  b_disc b = false ∨ eval (Admit F clk HashToken c pl n) b = false →
  same_sess b (exec (Admit F clk HashToken c pl n) b).
Proof using.
  unfold eval, exec. rewrite Admit_run. destruct (admits_bool pl n b), (b_disc b) eqn:Hd; cbn [fst snd];
    intros H; try (by repeat split); [by destruct H|].
  destruct (touch_grants (HashToken pl) b) as [[E1 E2] E3]. unfold exec in *. by split_and!.
Qed.

Lemma admitted_one c id n b : one_session (b_grants b) → one_session (admitted_grants c id n b).
Proof using.
  intros H k1 k2 g1 g2. unfold admitted_grants. rewrite !lookup_insert_Some, !rest_lookup.
  unfold prune_grants. rewrite !map_lookup_filter_Some.
  intros [[<- <-]|(? & (? & ?) & E1)] [[<- <-]|(? & (? & ?) & E2)]; simpl; intros E; [done| | |by eapply H].
  - rewrite <- E, String.eqb_refl in E2. done.
  - rewrite E, String.eqb_refl in E1. done.
Qed.
Lemma admitted_bound c id n b :
  live_in (b_rows b) n id → sessions_bound (b_grants b) (b_rows b) → sessions_bound (admitted_grants c id n b) (b_rows b).
Proof using.
  intros (r & Hr & Hl) H k g. unfold admitted_grants. rewrite lookup_insert_Some, rest_lookup.
  unfold prune_grants. rewrite map_lookup_filter_Some. intros [[_ <-]|(_ & (Hg & _) & _)]; [|by eapply H].
  exists r. split; [done|]. unfold row_live in Hl. simpl.
  by apply andb_true_iff in Hl as [[_ E%bool_decide_eq_true]%andb_true_iff _].
Qed.

Lemma sess_ok_Admit c pl n b : tracks F b → sess_ok b → sess_ok (exec (Admit F clk HashToken c pl n) b).
Proof using.
  intros Ht (Hu & H1 & H2). pose proof (evolves_Admit F clk HashToken c pl n b) as He.
  change (evolves b (exec (Admit F clk HashToken c pl n) b)) in He.
  destruct (eval (Admit F clk HashToken c pl n) b) eqn:Ha; [destruct (b_disc b) eqn:Hd|].
  - destruct (Admit_tracked c pl n b Hd Ha) as (E1 & E2 & _). unfold sess_ok, unrecorded. rewrite E1, E2. split_and!; [done| |].
    + by apply admitted_one.
    + eapply sessions_bound_evolve; [done|exact He|]. apply admitted_bound; [|done].
      apply Admit_spec in Ha as (_ & Hn & Hsk & (_ & _ & Hh & Hin)%nr_admits_tokens).
      destruct (Ht Hsk n (HashToken pl)) as [Hx _]; [by intros []|done..|]. by apply Hx.
  - apply (sess_ok_settles b); [|done|by split_and!]. apply settles_same, Admit_untracked. by left.
  - apply (sess_ok_settles b); [|done|by split_and!]. apply settles_same, Admit_untracked. by right.
Qed.

(** A process that has just opened the store. *)
Definition fresh b : Prop := b_sink b = false ∧ b_grants b = ∅.
Lemma fresh_ok b : fresh b → tracks F b ∧ sess_ok b.
Proof using.
  intros [Hs Hg]. split; [intros ?; congruence|]. unfold sess_ok, one_session, sessions_bound. rewrite Hg.
  split_and!; [by intros _|by intros ????; rewrite lookup_empty|by intros ??; rewrite lookup_empty].
Qed.
Lemma step_sess_ok b b' : bus_step F clk HashToken rand b b' → tracks F b → sess_ok b → sess_ok b'.
Proof using.
  intros Hs Ht Hok. pose proof (step_evolves _ _ _ _ _ _ Hs) as He.
  assert (∀ A (m : M (Bus R) A), yields settles m → evolves b (exec m b) → sess_ok (exec m b)) as Hy.
  { intros A m Hm He'. eapply sess_ok_settles; [apply Hm|exact He'|done]. }
  destruct Hs; try (apply Hy; [solve [eauto with bus_core]|exact He]); try (by apply Hok).
  - destruct Hok as (Hu & H1 & H2). by split_and!.
  - by apply sess_ok_Admit.
  - eapply sess_ok_settles; [apply settles_backfill|exact He|]. by apply fresh_ok.
Qed.

Lemma steps_sess_ok b b' :
  rtc (bus_step F clk HashToken rand) b b' → tracks F b → sess_ok b → tracks F b' ∧ sess_ok b'.
Proof using. induction 1; [done|]. intros Ht Hok. apply IHrtc; [by eapply step_tracks|by eapply step_sess_ok]. Qed.


(** ** Revocation *)
Lemma bind_inv {A B} (m : M (Bus R) A) (f : A → M (Bus R) B) b c b' :
  (m ≫= f) b = (c, b') → ∃ a b1, m b = (a, b1) ∧ f a b1 = (c, b').
Proof using. unfold mbind, M_bind. destruct (m b) as [a b1] eqn:E. eauto. Qed.
Lemma bindE_Ok {A B} (m : M (Bus R) (result A)) (k : A → M (Bus R) (result B)) b c b' :
  bindE m k b = (Ok c, b') → ∃ a b1, m b = (Ok a, b1) ∧ k a b1 = (Ok c, b').
Proof using. intros ([a|e] & b1 & E & H)%bind_inv; [eauto|done]. Qed.
Lemma wrapM_Ok {A} pre (m : M (Bus R) (result A)) b c b' : wrapM pre m b = (Ok c, b') → m b = (Ok c, b').
Proof using. intros ([a|e] & b1 & E & H)%bind_inv; [|done]. by injection H as <- <-. Qed.
Lemma sql_Ok {A} (f : table → A * table) b a b' :
  sql F f b = (Ok a, b') → ∃ t, f (b_rows b) = (a, t) ∧ b' = with_rows t (tick b) ∧ F (b_tick b) = None.
Proof using. unfold sql. destruct (F (b_tick b)); [done|]. destruct (f (b_rows b)) as [x t]. intros [= -> <-]. eauto. Qed.
Lemma query_Ok {A} (f : table → A) b a b' :
  query F f b = (Ok a, b') → ∃ t, t = b_rows b ∧ a = f t ∧ b' = with_rows t (tick b) ∧ F (b_tick b) = None.
Proof using. intros (t & [= <- <-] & ? & ?)%sql_Ok. eauto 6. Qed.

Lemma revoke_rows_hit at_ p t x l t' h :
  (∀ h' r, p h' r = true → h' = h) → revoke_rows at_ p t = (x :: l, t') → revoked_in t' h.
Proof using.
  intros Hp E. unfold revoke_rows in E. injection E as El <-.
  destruct (select _ t) as [|[h1 r1] l1] eqn:Es; [done|].
  assert ((h1, r1) ∈ select (λ h r, p h r && unrevoked r) t) as Hin by (rewrite Es; constructor).
  apply elem_of_select in Hin as [Hr Hpu]. assert (h1 = h) as ->.
  { apply andb_true_iff in Hpu as [Hx _]. by eapply Hp. }
  exists (set_revoked at_ r1), at_. split; [|done]. by rewrite update_where_lookup, Hr; simpl; rewrite Hpu.
Qed.

Definition of_token (i : string) (g : grant) : bool := String.eqb (g_tokenID g) i.

(** A revoke that succeeds: the row is revoked, then pushed, recorded, closed. *)
Lemma revoke_stages i b n b' :
  revoke F clk i b = (Ok n, b') →
  ∃ b1 node tombs, same_sess b b1 ∧ revoked_in (b_rows b1) i ∧ evolves b b1 ∧
    (held ← liveSessions (of_token i); _ ← refreshNodes F [node]; _ ← recordTombstones F tombs;
     closeRemaining (of_token i) held) b1 = (n, b').
Proof using.
  intros (node & b0 & (t0 & -> & _ & -> & _)%wrapM_Ok%query_Ok & H)%bindE_Ok.
  apply bindE_Ok in H as (l & b1 & (at_ & b2 & Hn & H1)%wrapM_Ok%bind_inv & H2).
  injection Hn as <- <-. apply sql_Ok in H1 as (t & E & -> & _). destruct l as [|x l]; [done|].
  apply bind_inv in H2 as (held & c1 & G1 & H2). apply bind_inv in H2 as ([] & c2 & G2 & H2).
  apply bind_inv in H2 as ([] & c3 & G3 & H2). apply bind_inv in H2 as (m & c4 & G4 & [= <- <-]).
  exists (with_rows t (tick (tick (with_rows (b_rows b) (tick b))))), node, (x :: l).
  split_and!; [| | |unfold mbind, M_bind, of_token; rewrite G1, G2, G3; exact G4].
  - by repeat split.
  - refine (revoke_rows_hit _ _ _ _ _ _ _ _ E). intros h' r Hh. by apply String.eqb_eq in Hh.
  - unfold evolves. cbn. pose proof (revoke_rows_evolves (clk (S (b_tick b))) (λ h _, String.eqb h i) (b_rows b)) as Hev.
    cbn [b_tick b_rows with_rows tick] in E. by rewrite E in Hev.
Qed.

Definition open_sessions (m : grant → bool) b : gset session :=
  list_to_set (filter (λ kv, m kv.2 = true) (map_to_list (prune_grants (b_open b) (b_grants b)))).*1.

Lemma liveSessions_run (m : grant → bool) b : b_disc b = true →
  liveSessions m b = (open_sessions m b, with_grants (prune_grants (b_open b) (b_grants b)) b).
Proof using. intros Hd. unfold liveSessions. rewrite bind_run. change (eval get b) with b. change (exec get b) with b. by rewrite Hd. Qed.

Lemma elem_of_open_sessions m b k :
  k ∈ open_sessions m b ↔ ∃ g, b_grants b !! k = Some g ∧ m g = true ∧ k ∈ b_open b.
Proof using.
  unfold open_sessions. rewrite elem_of_list_to_set, list_elem_of_fmap. split.
  - intros ([k' g] & -> & [Hm Hg]%list_elem_of_filter). apply elem_of_map_to_list, map_lookup_filter_Some in Hg as [Hg Ho].
    by exists g.
  - intros (g & Hg & Hm & Ho). exists (k, g). split; [done|]. apply list_elem_of_filter. split; [done|].
    apply elem_of_map_to_list, map_lookup_filter_Some. done.
Qed.

Lemma close_each_count (snap : gset session) rest n b :
  Forall (λ k, k ∈ snap) rest → eval (close_each snap rest n) b = n.
Proof using.
  intros Hf. revert b. induction Hf as [|k rest Hk Hf IH]; intros b; simpl; [done|].
  rewrite eval_bind, bool_decide_true by done. cbn [negb]. rewrite andb_false_r. apply IH.
Qed.

(** The close: nothing recorded under [m] stays, and every session recorded
    before the push is closed; the count is that of the sessions then open. *)
Lemma close_final m b node tombs n b' :
  unrecorded b →
  (held ← liveSessions m; _ ← refreshNodes F [node]; _ ← recordTombstones F tombs; closeRemaining m held) b = (n, b') →
  (∀ k g, b_grants b' !! k = Some g → m g = false) ∧
  (∀ k g, b_grants b !! k = Some g → m g = true → k ∉ b_open b') ∧
  (b_disc b = true → n = size (open_sessions m b)) ∧ evolves b b'.
Proof using.
  intros Hu H. apply bind_inv in H as (held & c1 & G1 & H). apply bind_inv in H as (x1 & c2 & G2 & H).
  apply bind_inv in H as (x2 & c3 & G3 & G4).
  pose proof (settles_live m b) as S1. rewrite G1 in S1. pose proof (settles_refresh F [node] c1) as S2. rewrite G2 in S2.
  pose proof (settles_record F tombs c2) as S3. rewrite G3 in S3. cbn [snd] in S1, S2, S3.
  pose proof (core_liveSessions m b) as V1. rewrite G1 in V1. pose proof (evolves_refresh F [node] c1) as V2. rewrite G2 in V2.
  pose proof (core_record F tombs c2) as V3. rewrite G3 in V3.
  pose proof (core_closeRemaining m held c3) as V4. rewrite G4 in V4. cbn [snd] in V1, V2, V3, V4.
  assert (settles b c3) as S by (etransitivity; [exact S1|]; etransitivity; [exact S2|exact S3]).
  pose proof (S Hu) as (D & O & G & Acc).
  assert (evolves b b') as He.
  { unfold evolves in *. destruct V1 as (E1&_), V3 as (E3&_), V4 as (E4&_). rewrite E1 in V2. rewrite E4, E3. exact V2. }
  destruct (b_disc b) eqn:Hd.
  - assert (b' = closed_by m c3) as ->.
    { pose proof (closeRemaining_run m held c3 D) as Hc. unfold exec in Hc. by rewrite G4 in Hc. }
    split_and!; [by intros k g Hg; eapply closed_none| | |done].
    + intros k g Hg Hm Ho. pose proof (settles_closed m c3 (settles_unrecorded _ _ S Hu)) as (_ & O2 & _ & Acc2).
      destruct (Acc k g Hg) as [Hg'|Hn]; [|by apply Hn, O2]. destruct (Acc2 k g Hg') as [Hg2|Hn]; [|done].
      apply closed_none in Hg2. congruence.
    + intros _. rewrite (liveSessions_run m b Hd) in G1. injection G1 as <- <-.
      unfold closeRemaining in G4. apply bind_inv in G4 as (rest & c4 & Ht & G4).
      unfold takeLocked, takeHeldLocked, mbind, M_bind in Ht. destruct (take_grants m (b_grants c3)) as [tk rs] eqn:Etk.
      injection Ht as <- <-. apply bind_inv in G4 as (b5 & b6 & [= <- <-] & G4). cbn [b_disc with_grants] in G4. rewrite D in G4.
      assert (n = eval (close_each (open_sessions m b) tk.*1 (size (open_sessions m b))) (with_grants rs c3)) as ->
        by (unfold eval; by rewrite G4).
      apply close_each_count. apply Forall_forall. intros k Hk.
      assert (k ∈ (take_grants m (b_grants c3)).1.*1) as (g & Hg & Hm)%taken_elem by by rewrite Etk.
      apply elem_of_open_sessions. exists g.
      assert (b_grants (with_grants (prune_grants (b_open b) (b_grants b)) b) !! k = Some g) as Hg1.
      { pose proof (settles_unrecorded _ _ S1 Hu) as Hu1. destruct (S2 Hu1) as (_ & _ & G2' & _).
        destruct (S3 (settles_unrecorded _ _ S2 Hu1)) as (_ & _ & G3' & _). eapply lookup_weaken; [|exact G2'].
        by eapply lookup_weaken. }
      cbn in Hg1. apply map_lookup_filter_Some in Hg1 as [? ?]. done.
  - rewrite (Hu Hd) in *. pose proof (closeRemaining_idle m held c3) as Hi. unfold exec in Hi. rewrite G4 in Hi. cbn [snd] in Hi.
    assert (b_grants c3 = ∅) as Hc3. { apply (settles_unrecorded _ _ S Hu). congruence. }
    destruct Hi as (Hg' & _); [congruence|done|]. split_and!; [| |done|done].
    + intros k g. rewrite Hg', Hc3, lookup_empty. done.
    + intros k g. rewrite lookup_empty. done.
Qed.

Lemma revoked_refused b i c pl node : tracks F b → revoked_in (b_rows b) i → HashToken pl = i →
  eval (Admit F clk HashToken c pl node) b = false.
Proof using.
  intros Ht Hr Hi. destruct (eval _ b) eqn:Ha; [|done]. exfalso.
  apply Admit_spec in Ha as (_ & Hn & Hsk & (_ & _ & Hh & Hin)%nr_admits_tokens).
  destruct (Ht Hsk node (HashToken pl)) as [Hx _]; [by intros []|done..|].
  rewrite Hi in *. by eapply revoked_not_live, Hx.
Qed.

Lemma Revoke_inv i b n b' : Revoke F clk i b = (Ok n, b') →
  ∃ b1, same_sess b b1 ∧ same_core b b1 ∧ revoke F clk i b1 = (Ok n, b').
Proof using.
  intros (p & b1 & Hp & H)%bindE_Ok. destruct p; [done|]. exists b1. split_and!; [| |done].
  - unfold isSelfAgentToken in Hp. apply bind_inv in Hp as (b0 & b2 & [= <- <-] & Hp).
    destruct (_ || _); [by injection Hp as <-|]. by apply wrapM_Ok, query_Ok in Hp as (t & -> & _ & -> & _).
  - pose proof (core_isSelf F i b) as Hc. by rewrite Hp in Hc.
Qed.

(** C21. A revoke is final.  When Revoke succeeds on a store in any state it can
    reach, the row is revoked, no session is recorded under the token, every
    session that was recorded under it is closed, the count returned is that
    of the sessions that were open, and in every later state — after any
    operations, faults and restarts on this database — the bus refuses every
    connection that presents the token. *)
Theorem revoke_final b0 b i n b' :
  fresh b0 → rtc (bus_step F clk HashToken rand) b0 b → Revoke F clk i b = (Ok n, b') →
  revoked_in (b_rows b') i ∧
  (∀ k g, b_grants b' !! k = Some g → g_tokenID g ≠ i) ∧
  (∀ k g, b_grants b !! k = Some g → g_tokenID g = i → k ∉ b_open b') ∧
  (b_disc b = true → n = size (open_sessions (of_token i) b)) ∧
  (∀ b'' c pl node, rtc (bus_step F clk HashToken rand) b' b'' → HashToken pl = i →
     eval (Admit F clk HashToken c pl node) b'' = false).
Proof using.
  intros [Ht0 Hok0]%fresh_ok Hs Hr. destruct (steps_sess_ok _ _ Hs Ht0 Hok0) as [Ht (Hu & _)].
  assert (tracks F b') as Ht'.
  { pose proof (tracks_Revoke F clk i b Ht) as H. by rewrite Hr in H. }
  apply Revoke_inv in Hr as (b1 & (G1 & O1 & D1) & _ & Hr).
  apply revoke_stages in Hr as (b2 & nd & tombs & (G2 & O2 & D2) & Hrev & _ & Hcl).
  apply close_final in Hcl as (C1 & C2 & C3 & C4); [|intros Hd; rewrite G2, G1; apply Hu; congruence].
  assert (revoked_in (b_rows b') i) as Hrev' by by eapply revoked_in_evolves.
  unfold of_token, open_sessions in *. rewrite G2, G1, ?O2, ?O1, D2, D1 in *. split_and!; [done| | |done|].
  - intros k g Hg E. apply C1 in Hg. by rewrite E, String.eqb_refl in Hg.
  - intros k g Hg E. eapply C2; [done|]. by rewrite E, String.eqb_refl.
  - intros b'' c pl node Hs' Hi. eapply revoked_refused; [by eapply steps_tracks| |done].
    eapply revoked_in_evolves; [by eapply steps_evolve|done].
Qed.

(** One live session per token, the newest.  In every reachable state no
    two recorded sessions share a token, and each is a session of the node its
    token is bound to.  An admission records the new connection, and closes
    every other connection recorded under the token. *)
Theorem one_session_newest b0 b c pl n :
  fresh b0 → rtc (bus_step F clk HashToken rand) b0 b →
  one_session (b_grants b) ∧ sessions_bound (b_grants b) (b_rows b) ∧
  (b_disc b = true → eval (Admit F clk HashToken c pl n) b = true →
   b_grants (exec (Admit F clk HashToken c pl n) b) !! (c_ServerID c, c_CID c)
     = Some (mkGrant (HashToken pl) n (c_Host c)) ∧
   (∀ k g, b_grants b !! k = Some g → g_tokenID g = HashToken pl →
      k ∉ b_open (exec (Admit F clk HashToken c pl n) b))).
Proof using.
  intros [Ht0 Hok0]%fresh_ok Hs. destruct (steps_sess_ok _ _ Hs Ht0 Hok0) as [Ht (_ & H1 & H2)].
  split_and!; [done..|]. intros Hd Ha. destruct (Admit_tracked c pl n b Hd Ha) as (E1 & _ & E3).
  cbv zeta in E1, E3. rewrite E1, E3. split; [by unfold admitted_grants; rewrite lookup_insert_eq|].
  intros k g Hg Hi [Ho Hk]%elem_of_difference. apply Hk, elem_of_list_to_set. unfold superseded_by.
  apply taken_elem. exists g. split; [|by rewrite Hi, String.eqb_refl]. by apply map_lookup_filter_Some.
Qed.
End Sessions.

(** A node's session, taken over from a second host, then revoked. *)
Definition first_conn : Conn := mkConn "s" 7 "10.0.0.2".
Definition second_conn : Conn := mkConn "s" 8 "10.0.0.3".
Definition connected_bus : Bus Registry :=
  exec (Admit no_faults seconds plain_hash first_conn "tok" "fw1") (with_open ({[("s", 7%Z)]} ∪ b_open minted_bus) minted_bus).

Lemma connected_reachable : rtc (bus_step no_faults seconds plain_hash one_token) empty_bus connected_bus.
Proof.
  etransitivity; [exact minted_reachable|]. eapply rtc_l; [apply (step_open _ _ _ _ ("s", 7%Z))|].
  eapply rtc_l; [apply (step_admit _ _ _ _ first_conn "tok" "fw1")|]. apply rtc_refl.
Qed.

Lemma one_session_newest_witness :
  b_grants connected_bus !! ("s", 7) = Some (mkGrant "h:tok" "fw1" "10.0.0.2") ∧
  ("s", 7) ∉ b_open (exec (Admit no_faults seconds plain_hash second_conn "tok" "fw1") connected_bus).
Proof.
  assert (b_grants connected_bus !! ("s", 7) = Some (mkGrant "h:tok" "fw1" "10.0.0.2")) as Hg by (vm_compute; reflexivity).
  split; [exact Hg|].
  destruct (one_session_newest no_faults seconds plain_hash one_token empty_bus connected_bus second_conn "tok" "fw1"
    (conj eq_refl eq_refl) connected_reachable) as (_ & _ & H).
  destruct H as [_ H]; [vm_compute; reflexivity|vm_compute; reflexivity|]. exact (H _ _ Hg eq_refl).
Defined.

Definition revoked_bus : prod (result nat) (Bus Registry) := Revoke no_faults seconds "h:tok" connected_bus.

Lemma revoke_final_witness :
  revoked_bus.1 = Ok 1%nat ∧ ("s", 7) ∉ b_open revoked_bus.2 ∧
  eval (Admit no_faults seconds plain_hash first_conn "tok" "fw1") revoked_bus.2 = false.
Proof.
  assert (revoked_bus.1 = Ok 1%nat) as H1 by (vm_compute; reflexivity).
  destruct (revoke_final no_faults seconds plain_hash one_token empty_bus connected_bus "h:tok" 1 revoked_bus.2
    (conj eq_refl eq_refl) connected_reachable) as (_ & _ & Hc & _ & Ha).
  { rewrite <- H1. apply surjective_pairing. }
  split; [exact H1|]. split.
  - apply (Hc _ (mkGrant "h:tok" "fw1" "10.0.0.2")); vm_compute; reflexivity.
  - apply Ha; [apply rtc_refl|vm_compute; reflexivity].
Defined.
