(* ===== verification/BusTombstones.v ===== *)
(** * Revocations survive the loss of the database

    The tombstone file of api/internal/busauth/tombstones.go: what it holds
    after a revoke, and what a start on another database makes of it. *)
From Stdlib Require Import Ascii String.
From S2P Require Import Prelude GoStrings GoPath NodeRegistry BusTokens BusTokensFacts BusAdmission BusSessions.

#[local] Arguments String.eqb : simpl never.

(** ** Tombstone sets *)

Definition tombs_wf (s : tombset) : Prop := ∀ h t, s !! h = Some t → tb_Hash t = h ∧ h ≠ EmptyString.

Lemma earlier_zero t : earlier zero_tomb t = t.
Proof. unfold earlier. simpl. destruct t as [h n a]. simpl. by destruct (String.eqb_spec n EmptyString) as [->|]. Qed.

Lemma earlier_hash a b : tb_Hash a = tb_Hash b ∨ tb_Hash a = EmptyString → tb_Hash (earlier a b) = tb_Hash b.
Proof.
  unfold earlier. intros H. destruct (String.eqb_spec (tb_Hash a) EmptyString); simpl; [done|].
  destruct (_ && _); simpl; [done|]. by destruct H.
Qed.

Lemma add_tomb_dom s h t h' : is_Some (add_tomb s h t !! h') ↔ h' = h ∨ is_Some (s !! h').
Proof.
  unfold add_tomb. destruct (decide (h = h')) as [->|Hne].
  - rewrite lookup_insert_eq. split; [by left|]. by eexists.
  - rewrite lookup_insert_ne by done. split; [by right|]. by intros [->|?].
Qed.
Lemma add_all_dom s l h : is_Some (add_all s l !! h) ↔ is_Some (s !! h) ∨ ∃ t, t ∈ l ∧ tb_Hash t = h.
Proof.
  revert s. induction l as [|t l IH]; intros s; simpl.
  { split; [by left|]. intros [?|(? & ?%elem_of_nil & _)]; done. }
  rewrite IH, add_tomb_dom. setoid_rewrite elem_of_cons. split.
  - intros [[->|?]|(t' & ? & ?)]; eauto.
  - intros [?|(t' & [->|?] & ?)]; eauto.
Qed.

Lemma add_tomb_wf s t : tb_Hash t ≠ EmptyString → tombs_wf s → tombs_wf (add_tomb s (tb_Hash t) t).
Proof.
  intros Ht Hs h t' H. unfold add_tomb in H. destruct (decide (tb_Hash t = h)) as [<-|Hne].
  - rewrite lookup_insert_eq in H. injection H as <-. split; [|done]. apply earlier_hash.
    destruct (s !! tb_Hash t) as [t0|] eqn:E; simpl; [|by right]. left. by apply Hs in E as [-> _].
  - rewrite lookup_insert_ne in H by done. by apply Hs.
Qed.
Lemma add_all_wf s l : (∀ t, t ∈ l → tb_Hash t ≠ EmptyString) → tombs_wf s → tombs_wf (add_all s l).
Proof.
  revert s. induction l as [|t l IH]; intros s Hl Hs; simpl; [done|]. apply IH; [set_solver|].
  apply add_tomb_wf; [set_solver|done].
Qed.

(** Entries of distinct, fresh hashes are read as they are. *)
Lemma read_entries_spec path i l (out : tombset) :
  (∀ t, t ∈ l → tb_Hash t ≠ EmptyString) → NoDup (tb_Hash <$> l) → (∀ t, t ∈ l → out !! tb_Hash t = None) →
  read_entries path i l out = Ok (list_to_map ((λ t, (tb_Hash t, t)) <$> l) ∪ out).
Proof.
  revert i out. induction l as [|t l IH]; intros i out Hne Hnd Hout; simpl.
  { by rewrite map_empty_union. }
  destruct (String.eqb_spec (tb_Hash t) EmptyString) as [E|_]; [by destruct (Hne t); [constructor|]|].
  inversion Hnd as [|? ? Hn Hnd']; subst. assert (add_tomb out (tb_Hash t) t = <[tb_Hash t := t]> out) as ->.
  { unfold add_tomb. rewrite (Hout t) by constructor. simpl. by rewrite earlier_zero. }
  rewrite IH.
  - f_equal. rewrite <- insert_union_r; [by rewrite insert_union_l|].
    apply not_elem_of_list_to_map_1. rewrite <- list_fmap_compose. exact Hn.
  - intros t' Ht'. apply Hne. by constructor.
  - done.
  - intros t' Ht'. rewrite lookup_insert_ne; [apply Hout; by constructor|]. intros E. apply Hn. rewrite E.
    by apply list_elem_of_fmap_2.
Qed.

Lemma tomb_list_perm (s : tombset) : merge_sort tomb_le (map_to_list s).*2 ≡ₚ (map_to_list s).*2.
Proof. apply merge_sort_Permutation. Qed.

(** A written file reads back as the set. *)
Lemma tomb_file_roundtrip (files : gmap string TombFile) path s :
  tombs_wf s → ReadTombstoneFile (<[path := tomb_file s]> files) path = Ok s.
Proof.
  intros Hwf. unfold ReadTombstoneFile, tomb_file. rewrite lookup_insert_eq. cbn [Z.eqb tombstoneFileVersion Pos.eqb negb].
  set (l := merge_sort _ _).
  assert (∀ t, t ∈ l ↔ s !! tb_Hash t = Some t) as Hl.
  { intros t. unfold l. rewrite tomb_list_perm, list_elem_of_fmap. split.
    - intros ([h t'] & -> & H%elem_of_map_to_list). simpl. by destruct (Hwf h t' H) as [-> _].
    - intros H. exists (tb_Hash t, t). by rewrite elem_of_map_to_list. }
  assert (NoDup (tb_Hash <$> l)) as Hnd.
  { unfold l. rewrite tomb_list_perm, <- list_fmap_compose.
    replace ((tb_Hash ∘ snd) <$> map_to_list s) with ((map_to_list s).*1); [apply NoDup_fst_map_to_list|].
    apply list_fmap_ext. intros i [h t] H%list_elem_of_lookup_2%elem_of_map_to_list. simpl. by destruct (Hwf h t H). }
  rewrite read_entries_spec; [|by intros t [_ ?]%Hl%Hwf|done|by intros; apply lookup_empty].
  f_equal. rewrite map_union_empty. apply map_eq. intros h. apply option_eq. intros t.
  rewrite <- elem_of_list_to_map by (by rewrite <- list_fmap_compose).
  rewrite list_elem_of_fmap. split.
  - intros (t' & [= -> ->] & Ht). by apply Hl.
  - intros H. exists t. destruct (Hwf h t H) as [E _]. split; [by rewrite E|]. apply Hl. by rewrite E.
Qed.

(** ** A tombstoned hash gets no new row *)
Section Keep.
Context {R : Type} `{!NodeRegistry R} `{HL : !NodeRegistryLaws R}.
Context (F : nat → option error) (clk : nat → Z) (HashToken : string → string) (rand : nat → result string).
Context (h : string).
Implicit Types b : Bus R.

Definition keeps b b' : Prop :=
  is_Some (b_tomb b !! h) → (b_rows b !! h = None → b_rows b' !! h = None) ∧ is_Some (b_tomb b' !! h).
#[export] Instance keeps_preorder : PreOrder keeps.
Proof using.
  split; [by intros b H|]. intros x y z H1 H2 Hx. destruct (H1 Hx) as [A1 B1]. destruct (H2 B1) as [A2 B2].
  split; [auto|done].
Qed.

Lemma keeps_sql {A} (f : table → A * table) :
  (∀ t : table, t !! h = None → (f t).2 !! h = None) → yields keeps (sql (R:=R) F f).
Proof using.
  intros Hf b Hb. unfold sql. destruct (F _); [by split|]. specialize (Hf (b_rows b)).
  destruct (f (b_rows b)) as [a t]. by split.
Qed.
Lemma update_where_none p f (t : table) : t !! h = None → update_where p f t !! h = None.
Proof using. intros Ht. by rewrite update_where_lookup, Ht. Qed.
Lemma alter_none f i (t : table) : t !! h = None → alter f i t !! h = None.
Proof using. intros Ht. destruct (decide (i = h)) as [->|]; [by rewrite lookup_alter_eq, Ht|by rewrite lookup_alter_ne]. Qed.

Ltac keep_leaf :=
  cbn [snd];
  lazymatch goal with
  | |- update_where _ _ _ !! _ = _ => apply update_where_none
  | |- (revoke_rows _ _ _).2 !! _ = _ => apply update_where_none
  | |- alter _ _ _ !! _ = _ => apply alter_none
  | |- _ => idtac
  end; assumption.
#[local] Hint Constants Opaque : yields.
#[local] Hint Extern 0 (yields keeps (sql _ _)) => (apply keeps_sql; intros ? ?; keep_leaf) : yields.
#[local] Hint Extern 0 (yields keeps (query _ _)) => (apply keeps_sql; intros ? ?; keep_leaf) : yields.
#[local] Hint Extern 1 (keeps _ _) => (intros ?; split; [intros Hnone; exact Hnone|assumption]) : yields.
#[local] Hint Extern 1 (∀ b, keeps b _) => (intros ? ?; split; [intros Hnone; exact Hnone|assumption]) : yields.
#[local] Hint Extern 0 (yields keeps (now _)) => (intros ? ?; split; [intros Hnone; exact Hnone|assumption]) : yields.
#[local] Hint Extern 0 (yields keeps (takeHeldLocked _)) => (intros ? ?; split; [intros Hnone; exact Hnone|assumption]) : yields.
#[local] Hint Extern 0 (yields keeps pruneLocked) => (intros ? ?; split; [intros Hnone; exact Hnone|assumption]) : yields.
#[local] Hint Extern 0 (yields keeps (DisconnectClient _)) => (intros ? ?; split; [intros Hnone; exact Hnone|assumption]) : yields.
#[local] Hint Extern 0 (yields keeps (GenerateToken _ _)) => (intros ? ?; split; [intros Hnone; exact Hnone|assumption]) : yields.

Lemma keeps_disconnect l : yields keeps (disconnect (R:=R) l).
Proof using. induction l; simpl; bus. Qed.
Lemma keeps_write p s : yields keeps (writeTombstoneFile (R:=R) F p s).
Proof using. unfold writeTombstoneFile. bus. Qed.
#[local] Hint Resolve keeps_disconnect keeps_write : yields.
Lemma keeps_hooks ns : yields keeps (exclusion_hooks (R:=R) ns).
Proof using. unfold exclusion_hooks, DisconnectNode, takeLocked. bus. Qed.
#[local] Hint Resolve keeps_hooks : yields.
Lemma keeps_refresh ns : yields keeps (refreshNodes (R:=R) F ns).
Proof using. unfold refreshNodes, push_node, liveTokenHashes. bus. Qed.
Lemma keeps_record l : yields keeps (recordTombstones (R:=R) F l).
Proof using.
  unfold recordTombstones. destruct l as [|t l]; [bus|]. intros b Hb. rewrite bind_run.
  change (eval get b) with b. change (exec get b) with b. destruct (String.eqb _ _); [by split|].
  rewrite bind_run. set (b1 := exec (modify _) b).
  assert (keeps b1 (exec (writeTombstoneFile F (b_tombPath b) (add_all (b_tomb b) (t :: l))) b1)) as Hw by apply keeps_write.
  destruct Hw as [Hw1 Hw2]; [apply add_all_dom; by left|]. rewrite bind_run. split; [exact Hw1|exact Hw2].
Qed.
Lemma keeps_close_each s l n : yields keeps (close_each (R:=R) s l n).
Proof using. revert n. induction l; intros n; simpl; bus. Qed.
#[local] Hint Resolve keeps_refresh keeps_record keeps_close_each : yields.
Lemma keeps_closeRemaining m s : yields keeps (closeRemaining (R:=R) m s).
Proof using. unfold closeRemaining, takeLocked. bus. Qed.
#[local] Hint Resolve keeps_closeRemaining : yields.
Lemma keeps_revoke i : yields keeps (revoke (R:=R) F clk i).
Proof using. unfold revoke, revokeReturning, liveSessions. bus. Qed.
#[local] Hint Resolve keeps_revoke : yields.
Lemma keeps_Revoke i : yields keeps (Revoke (R:=R) F clk i).
Proof using. unfold Revoke, isSelfAgentToken. bus. Qed.
Lemma keeps_RevokeByNodeID n : yields keeps (RevokeByNodeID (R:=R) F clk n).
Proof using. unfold RevokeByNodeID, nodeHasSelfAgentToken, revokeReturning, liveSessions. bus. Qed.
Lemma keeps_except n k : yields keeps (revokeNodeTokensExcept (R:=R) F clk n k).
Proof using. unfold revokeNodeTokensExcept, revokeReturning, takeLocked. bus. Qed.
Lemma keeps_touch i : yields keeps (touchLastUsed (R:=R) F clk i).
Proof using. unfold touchLastUsed. bus. Qed.
#[local] Hint Resolve keeps_touch keeps_except : yields.
Lemma keeps_evict c t n l : yields keeps (evictSuperseded (R:=R) clk c t n l).
Proof using. induction l as [|[k g] l IH]; simpl; bus. Qed.
#[local] Hint Resolve keeps_evict : yields.
Lemma keeps_Admit c p n : yields keeps (Admit (R:=R) F clk HashToken c p n).
Proof using. unfold Admit, admits. bus. Qed.
Lemma keeps_Validate p n : yields keeps (Validate (R:=R) F clk HashToken p n).
Proof using. unfold Validate. bus. Qed.
Lemma keeps_adopt i n : yields keeps (adopt (R:=R) F i n).
Proof using. unfold adopt, adoptSelfAgentToken. bus. Qed.
#[local] Hint Resolve keeps_Validate keeps_adopt : yields.
Lemma keeps_attach reg : yields keeps (SetNodeRegistry (R:=R) F reg).
Proof using. unfold SetNodeRegistry, liveTokensByNode. bus. Qed.
Lemma keeps_merge i f : yields keeps (MergeTombstoneFiles (R:=R) F i f).
Proof using. unfold MergeTombstoneFiles. bus. Qed.

Lemma keeps_preload l : yields keeps (PreloadHashes (R:=R) F clk l).
Proof using.
  assert (∀ t l n, yields keeps (preload_each (R:=R) F t l n)) as He; [|unfold PreloadHashes; bus].
  intros t l'. induction l' as [|[tk role] l' IH]; intros n; [apply yields_ret; apply _|].
  intros b Hb. cbn [preload_each]. rewrite bind_run.
  change (exec (tombstoned (p_Hash tk)) b) with b.
  change (eval (tombstoned (p_Hash tk)) b) with (bool_decide (is_Some (b_tomb b !! p_Hash tk))).
  destruct (bool_decide_reflect (is_Some (b_tomb b !! p_Hash tk))) as [|Hn]; [by apply IH|].
  assert (p_Hash tk ≠ h) as Hne by (intros E; apply Hn; by rewrite E).
  match goal with |- _ ∧ is_Some (b_tomb (?m b).2 !! _) => assert (yields keeps m) as Hy; [|exact (Hy b Hb)] end.
  apply yields_bind; [apply _| |intros r; bus].
  apply keeps_sql. intros tb Htb. unfold insert_or_ignore. destruct (tb !! p_Hash tk); cbn [snd]; [done|].
  by rewrite lookup_insert_ne.
Qed.

Hypothesis Hrand : ∀ k p, rand k = Ok p → HashToken p ≠ h.
Lemma keeps_mint l n r : yields keeps (MintBound (R:=R) F clk HashToken rand l n r).
Proof using Hrand.
  unfold MintBound. repeat (case_match; try (apply yields_ret; apply _)).
  intros b Hb. unfold bindE. rewrite bind_run. unfold GenerateToken, eval, exec. cbn [fst snd].
  destruct (rand (b_tick b)) as [p|e] eqn:Er; [|by split].
  match goal with |- _ ∧ is_Some (b_tomb (?m ?b1).2 !! _) => assert (yields keeps m) as Hy; [|exact (Hy b1 Hb)] end.
  assert (∀ row, yields keeps (sql_insert (R:=R) F (HashToken p) row)) as Hi; [|cbv beta iota; bus].
  intros row. apply yields_bindE; [apply _| |intros x; bus]. apply keeps_sql. intros t Ht. unfold insert_row.
  destruct (t !! HashToken p); cbn [snd]; [done|]. rewrite lookup_insert_ne; [done|]. by eapply Hrand.
Qed.
#[local] Hint Resolve keeps_mint : yields.
Lemma keeps_ensure p n : yields keeps (EnsureAgentToken (R:=R) F clk HashToken rand p n).
Proof using Hrand. unfold EnsureAgentToken, agentTokenProblem. bus. Qed.
End Keep.

(** ** Starts on another database *)
Section Survive.
Context {R : Type} `{!NodeRegistry R} `{HL : !NodeRegistryLaws R}.
Context (F : nat → option error) (clk : nat → Z) (HashToken : string → string) (rand : nat → result string).
Implicit Types b : Bus R.

(** What the api does between loading the tombstones and its next restart. *)
Inductive serving : relation (Bus R) :=
| sv_open k b : serving b (with_open ({[k]} ∪ b_open b) b)
| sv_closed k b : serving b (with_open (b_open b ∖ {[k]}) b)
| sv_track b : serving b (exec TrackSessions b)
| sv_admit c pl n b : serving b (exec (Admit F clk HashToken c pl n) b)
| sv_mint l n r b : serving b (exec (MintBound F clk HashToken rand l n r) b)
| sv_preload l b : serving b (exec (PreloadHashes F clk l) b)
| sv_revoke i b : serving b (exec (Revoke F clk i) b)
| sv_revoke_node n b : serving b (exec (RevokeByNodeID F clk n) b)
| sv_ensure p n b : serving b (exec (EnsureAgentToken F clk HashToken rand p n) b)
| sv_merge i f b : serving b (exec (MergeTombstoneFiles F i f) b)
| sv_attach reg b : serving b (exec (SetNodeRegistry F reg) b)
| sv_registry reg b :
    (∀ n, nr_tokens reg n = nr_tokens (b_reg b) n) → serving b (with_reg (b_sink b) reg b)
| sv_excluded ns b : serving b (exec (exclusion_hooks ns) b).

Lemma serving_bus_step b b' : serving b b' → bus_step F clk HashToken rand b b'.
Proof using. destruct 1; by constructor. Qed.

Definition dead (t : table) (h : string) : Prop := ∀ r, t !! h = Some r → is_Some (t_revoked_at r).
Definition buried (h : string) b : Prop := is_Some (b_tomb b !! h) ∧ dead (b_rows b) h.

Lemma dead_not_live t n h : dead t h → ¬ live_in t n h.
Proof using.
  intros Hd (r & Hr & Hl). destruct (Hd r Hr) as [a Ha]. unfold row_live in Hl. by rewrite Ha in Hl.
Qed.
Lemma dead_evolves t t' h : rows_evolve t t' → (t !! h = None → t' !! h = None) → dead t h → dead t' h.
Proof using.
  intros He Hn Hd r' Hr'. destruct (t !! h) as [r|] eqn:E; [|by rewrite Hn in Hr'].
  destruct (He h r E) as (r2 & Hr2 & _ & Hrev). destruct (Hd r E) as [a Ha]. exists a. simplify_eq. auto.
Qed.
Lemma buried_keeps h b b' : evolves b b' → keeps h b b' → buried h b → buried h b'.
Proof using. intros He Hk [Ht Hd]. destruct (Hk Ht) as [Hn Ht']. split; [done|]. by eapply dead_evolves. Qed.

Lemma serving_keeps h b b' :
  (∀ k p, rand k = Ok p → HashToken p ≠ h) → serving b b' → keeps h b b'.
Proof using.
  intros Hr Hs. assert (∀ A (m : M (Bus R) A), yields (keeps h) m → keeps h b (exec m b)) as Hy by (intros A m H; apply H).
  destruct Hs; try (by intros ?); apply Hy; by eauto using keeps_Admit, keeps_mint, keeps_preload, keeps_Revoke,
    keeps_RevokeByNodeID, keeps_ensure, keeps_merge, keeps_attach, keeps_hooks.
Qed.
Lemma serving_buried h b b' :
  (∀ k p, rand k = Ok p → HashToken p ≠ h) → rtc serving b b' → buried h b → buried h b'.
Proof using.
  intros Hr. induction 1; [done|]. intros Hb. apply IHrtc. eapply buried_keeps; [|by apply serving_keeps|done].
  by eapply step_evolves, serving_bus_step.
Qed.

Lemma revoke_rows_dead at_ p (t : table) h :
  dead t h ∨ (∀ r, p h r = true) → dead (revoke_rows at_ p t).2 h.
Proof using.
  intros H r. unfold revoke_rows. cbn [snd]. rewrite update_where_lookup. destruct (t !! h) as [r0|] eqn:E; [|done].
  simpl. intros [= <-]. destruct (p h r0 && unrevoked r0) eqn:Hp; [by eexists|].
  destruct H as [H|H]; [by apply H|]. rewrite H in Hp. unfold unrevoked in Hp. simpl in Hp.
  apply bool_decide_eq_false in Hp. by apply not_eq_None_Some.
Qed.

Lemma reapply_dead at_ l n ns b h :
  (eval (reapply F at_ l n ns) b).2 = None → h ∈ l.*1 ∨ dead (b_rows b) h →
  dead (b_rows (exec (reapply F at_ l n ns) b)) h.
Proof using.
  revert n ns b. induction l as [|[h0 tb] l IH]; intros n ns b; cbn [reapply].
  { intros _ [?%elem_of_nil|?]; done. }
  unfold eval, exec in *. rewrite bind_run. unfold eval, exec.
  destruct (sql F (revoke_rows at_ (λ h' _, String.eqb h' h0)) b) as [r b1] eqn:Es. cbn [fst snd].
  destruct r as [rs|e]; [|done].
  apply sql_Ok in Es as (t & Et & -> & _). intros He Hh.
  assert (h ∈ l.*1 ∨ dead t h) as Hh'.
  { pose proof (revoke_rows_dead at_ (λ h' _, String.eqb h' h0) (b_rows b) h) as Hd. rewrite Et in Hd. cbn [snd] in Hd.
    destruct Hh as [[E|Hin]%elem_of_cons|Hd']; [|by left|].
    - right. apply Hd. right. intros _. cbn in E. rewrite E. apply String.eqb_refl.
    - right. apply Hd. by left. }
  destruct rs as [|x rs]; by eapply IH.
Qed.

Lemma dead_refresh ns b h : dead (b_rows b) h → dead (b_rows (exec (refreshNodes F ns) b)) h.
Proof using.
  assert (PreOrder (λ b b', b_rows b' = b_rows (R:=R) b)) by (split; [done|intros ???; congruence]).
  assert (yields (λ b b', b_rows b' = b_rows (R:=R) b) (refreshNodes F ns)) as Hy.
  { assert (∀ A (m : M (Bus R) A), yields same_core m → yields (λ b b', b_rows b' = b_rows b) m) as Hc
      by (intros A m Hm b0; apply Hm).
    unfold refreshNodes. apply yields_bind; [done|apply yields_get; done|intros b0].
    case_match; [|apply yields_ret; done]. apply yields_for_each; [done|intros n Hn]. unfold push_node.
    case_match; [apply yields_ret; done|]. apply yields_bind; [done|apply Hc, core_liveHashes|intros r].
    apply yields_bind; [done|apply yields_get; done|intros b1]. destruct (nr_set _ _ _) as [ex reg].
    apply yields_bind; [done|by intros b2|intros _]. apply Hc, core_hooks. }
  unfold exec. by rewrite (Hy b).
Qed.

(** Loading the file buries every hash it names. *)
Lemma use_buries path b set h x c1 :
  ReadTombstoneFile (b_files b) path = Ok set → is_Some (set !! h) →
  UseTombstoneFile F clk path b = ((x, None), c1) → buried h c1.
Proof using.
  intros Hread Hin H. unfold UseTombstoneFile in H. apply bind_inv in H as (b0 & b1 & [= <- <-] & H). rewrite Hread in H.
  apply bind_inv in H as ([l|e] & b2 & _ & H); [|by injection H].
  apply bind_inv in H as (w & b3 & _ & H). apply bind_inv in H as (at_ & b4 & _ & H).
  apply bind_inv in H as ([[n ns] err] & b5 & Hre & H). apply bind_inv in H as (u & b6 & Hw & H).
  apply bind_inv in H as (u2 & b7 & Hf & [= <- -> <-]).
  rewrite bool_decide_true in Hw by done. injection Hw as <- <-.
  assert (is_Some (add_all set l !! h)) as Ha by (apply add_all_dom; by left).
  assert (dead (b_rows b5) h) as Hd.
  { pose proof (reapply_dead at_ (map_to_list (add_all set l)) 0 [] b4 h) as Hd. unfold eval, exec in Hd. rewrite Hre in Hd.
    apply Hd; [done|]. left. destruct Ha as [t Ht]. apply list_elem_of_fmap. exists (h, t). by rewrite elem_of_map_to_list. }
  split.
  - pose proof (keeps_refresh F h ns (with_tomb path (add_all set l) b5)) as Hk. rewrite Hf in Hk. by apply Hk.
  - pose proof (dead_refresh ns (with_tomb path (add_all set l) b5) h Hd) as Hd'. unfold exec in Hd'. by rewrite Hf in Hd'.
Qed.
End Survive.

(** ** What a revoke writes *)
Section Record.
Context {R : Type} `{!NodeRegistry R} `{HL : !NodeRegistryLaws R}.
Context (F : nat → option error) (clk : nat → Z) (HashToken : string → string) (rand : nat → result string).
Implicit Types b : Bus R.

Definition same_tombs b b' : Prop :=
  b_tomb b' = b_tomb b ∧ b_tombPath b' = b_tombPath b ∧ b_files b' = b_files b.
#[local] Instance same_tombs_preorder : PreOrder same_tombs.
Proof using. split; [done|]. intros x y z (?&?&?) (?&?&?). split_and!; congruence. Qed.

#[local] Hint Constants Opaque : yields.
#[local] Hint Extern 1 (same_tombs _ _) => (by repeat split) : yields.
#[local] Hint Extern 1 (∀ b, same_tombs b _) => (by repeat split) : yields.
#[local] Hint Extern 0 (yields same_tombs (takeHeldLocked _)) => (by intros b) : yields.
#[local] Hint Extern 0 (yields same_tombs pruneLocked) => (by intros b) : yields.
#[local] Hint Extern 0 (yields same_tombs (DisconnectClient _)) => (by intros b) : yields.
#[local] Hint Extern 0 (yields same_tombs (query _ _)) => (unfold query) : yields.

Lemma tombs_disconnect l : yields same_tombs (disconnect (R:=R) l).
Proof using. induction l; simpl; bus. Qed.
Lemma tombs_close_each s l n : yields same_tombs (close_each (R:=R) s l n).
Proof using. revert n. induction l; intros n; simpl; bus. Qed.
#[local] Hint Resolve tombs_disconnect tombs_close_each : yields.
Lemma tombs_closeRemaining m s : yields same_tombs (closeRemaining (R:=R) m s).
Proof using. unfold closeRemaining, takeLocked. bus. Qed.
Lemma tombs_live m : yields same_tombs (liveSessions (R:=R) m).
Proof using. unfold liveSessions. bus. Qed.
Lemma tombs_refresh ns : yields same_tombs (refreshNodes (R:=R) F ns).
Proof using. unfold refreshNodes, push_node, liveTokenHashes, query, exclusion_hooks, DisconnectNode, takeLocked. bus. Qed.
Lemma tombs_isSelf i : yields same_tombs (isSelfAgentToken (R:=R) F i).
Proof using. unfold isSelfAgentToken, query. bus. Qed.

Lemma record_written l b : quiet F → l ≠ [] → b_tombPath b ≠ EmptyString →
  let b' := exec (recordTombstones F l) b in
  b_tomb b' = add_all (b_tomb b) l ∧ b_tombPath b' = b_tombPath b ∧
  b_files b' = <[b_tombPath b := tomb_file (add_all (b_tomb b) l)]> (b_files b).
Proof using.
  intros Hq Hl Hp. unfold recordTombstones. destruct l as [|t l]; [done|]. rewrite exec_bind.
  change (eval get b) with b. change (exec get b) with b. rewrite (proj2 (String.eqb_neq _ _) Hp).
  rewrite !exec_bind. unfold writeTombstoneFile, fault, exec. by rewrite Hq.
Qed.

Lemma revoke_rows_tombs at_ i t : Forall (λ x, tb_Hash x = i) (revoke_rows at_ (λ h _, String.eqb h i) t).1.
Proof using.
  apply Forall_forall. intros x Hx. unfold revoke_rows in Hx. cbn [fst] in Hx.
  apply list_elem_of_In, in_map_iff in Hx as ([h r] & <- & Hx). apply list_elem_of_In, elem_of_select in Hx as [_ Hx].
  by apply andb_true_iff in Hx as [->%String.eqb_eq _].
Qed.

(** The tombstone of a successful revoke is in the set and in the file. *)
Lemma revoke_written i b n b' :
  quiet F → b_tombPath b ≠ EmptyString → Revoke F clk i b = (Ok n, b') →
  ∃ x l, Forall (λ t, tb_Hash t = i) (x :: l) ∧ b_tomb b' = add_all (b_tomb b) (x :: l) ∧
    b_files b' = <[b_tombPath b := tomb_file (b_tomb b')]> (b_files b).
Proof using.
  intros Hq Hp (pr & b1 & G0 & H)%bindE_Ok. destruct pr; [done|].
  pose proof (tombs_isSelf i b) as T0. rewrite G0 in T0. cbn [snd] in T0.
  apply bindE_Ok in H as (node & b0 & (t0 & -> & _ & -> & _)%wrapM_Ok%query_Ok & H).
  apply bindE_Ok in H as (l & b2 & (at_ & b3 & Hn & H1)%wrapM_Ok%bind_inv & H2).
  injection Hn as <- <-. apply sql_Ok in H1 as (t & E & -> & _). destruct l as [|x l]; [done|].
  apply bind_inv in H2 as (held & c1 & G1 & H2). apply bind_inv in H2 as (u1 & c2 & G2 & H2).
  apply bind_inv in H2 as (u2 & c3 & G3 & H2). apply bind_inv in H2 as (m & c4 & G4 & [= <- <-]).
  match type of G1 with liveSessions ?mm ?bb = _ => pose proof (tombs_live mm bb) as T1 end. rewrite G1 in T1.
  pose proof (tombs_refresh [node] c1) as T2. rewrite G2 in T2.
  match type of G4 with closeRemaining ?mm ?ss ?bb = _ => pose proof (tombs_closeRemaining mm ss bb) as T4 end. rewrite G4 in T4.
  cbn [snd] in T1, T2, T4.
  destruct T0 as (T0a & T0b & T0c), T1 as (T1a & T1b & T1c), T2 as (T2a & T2b & T2c), T4 as (T4a & T4b & T4c).
  cbn [b_tomb b_tombPath b_files with_rows tick] in *.
  assert (b_tombPath c2 = b_tombPath b) as Ep by congruence.
  destruct (record_written (x :: l) c2 Hq) as (W1 & W2 & W3); [done|congruence|].
  unfold exec in W1, W2, W3. rewrite G3 in W1, W2, W3. cbn [snd] in W1, W2, W3.
  exists x, l. split_and!; [|congruence|rewrite T4c, W3, T4a, W1; congruence].
  pose proof (revoke_rows_tombs (clk (S (b_tick b1))) i (b_rows b1)) as Hf.
  cbn [b_tick b_rows with_rows tick] in E. by rewrite E in Hf.
Qed.
End Record.

Section Claim.
Context {R : Type} `{!NodeRegistry R} `{HL : !NodeRegistryLaws R}.
Context (HashToken : string → string).
Implicit Types b : Bus R.

(** C23. A revocation survives the database.  A revoke that succeeds, its file
    write included, leaves the tombstone file naming the token and every token
    it named before.  Start the api again on the same files and ANY table — an
    empty one, an old backup, one where the token is live — and let
    UseTombstoneFile succeed: from then on, whatever is preloaded, minted,
    merged, revoked or pushed, under any faults, every connection presenting
    the token is refused. *)
Theorem revocation_survives F clk b i n b' F' clk' rand t x c1 c2 conn pl node :
  quiet F → tombs_wf (b_tomb b) → i ≠ EmptyString → b_tombPath b ≠ EmptyString →
  Revoke F clk i b = (Ok n, b') →
  (∀ k p, rand k = Ok p → HashToken p ≠ i) → HashToken pl = i →
  UseTombstoneFile F' clk' (b_tombPath b) (restarted (with_rows t b')) = ((x, None), c1) →
  rtc (serving F' clk' HashToken rand) c1 c2 →
  (∃ set, ReadTombstoneFile (b_files b') (b_tombPath b) = Ok set ∧ is_Some (set !! i) ∧
     ∀ h, is_Some (b_tomb b !! h) → is_Some (set !! h)) ∧
  eval (Admit F' clk' HashToken conn pl node) c2 = false.
Proof using HL.
  intros Hq Hwf Hi Hp Hr Hrand Hpl Huse Hs.
  destruct (revoke_written F clk i b n b' Hq Hp Hr) as (t0 & l & Hl & Ht & Hf).
  assert (∀ t, t ∈ t0 :: l → tb_Hash t = i) as Hl' by (rewrite Forall_forall in Hl; exact Hl).
  assert (ReadTombstoneFile (b_files b') (b_tombPath b) = Ok (b_tomb b')) as Hread.
  { rewrite Hf. apply tomb_file_roundtrip. rewrite Ht. apply add_all_wf; [|done]. intros t1 H1. by rewrite (Hl' t1 H1). }
  assert (is_Some (b_tomb b' !! i)) as Hin.
  { rewrite Ht. apply add_all_dom. right. exists t0. split; [constructor|]. apply Hl'. constructor. }
  split.
  - exists (b_tomb b'). split_and!; [done..|]. intros h Hh. rewrite Ht. apply add_all_dom. by left.
  - assert (buried i c1) as Hb
      by (exact (use_buries F' clk' _ (restarted (with_rows t b')) (b_tomb b') i x c1 Hread Hin Huse)).
    apply (serving_buried F' clk' HashToken rand i c1 c2 Hrand Hs) in Hb as [_ Hd].
    assert (tracks F' c2) as Htr.
    { eapply (steps_tracks F' clk' HashToken rand); [|].
      - eapply rtc_subrel; [|exact Hs]. apply serving_bus_step.
      - pose proof (tracks_use F' clk' (b_tombPath b) (restarted (with_rows t b'))) as Hu. rewrite Huse in Hu.
        apply Hu. intros Hsk. done. }
    destruct (eval _ c2) eqn:Ha; [|done]. exfalso.
    apply Admit_spec in Ha as (_ & Hn & Hsk & (_ & _ & Hh & Hin')%nr_admits_tokens).
    destruct (Htr Hsk node (HashToken pl)) as [Hx _]; [by intros []|done..|].
    rewrite Hpl in *. by eapply dead_not_live, Hx.
Qed.
End Claim.

(** The store of the sessions example with its tombstone file in use; its token
    is revoked, and the api starts on a backup in which it is live. *)
Definition recording_bus : Bus Registry := with_tomb "/d/bus/tombstones.json" ∅ connected_bus.
Definition recorded_bus : Bus Registry := exec (Revoke no_faults seconds "h:tok") recording_bus.
Definition backup_rows : table := b_rows connected_bus.
Definition other_token (k : nat) : result string := Ok "other".
Definition restored_bus : Bus Registry :=
  exec (UseTombstoneFile no_faults seconds "/d/bus/tombstones.json") (restarted (with_rows backup_rows recorded_bus)).

Lemma revocation_survives_witness :
  live_in backup_rows "fw1" "h:tok" ∧
  eval (Admit no_faults seconds plain_hash first_conn "tok" "fw1")
    (exec (SetNodeRegistry no_faults fw_registry) restored_bus) = false.
Proof.
  split; [eexists; split; vm_compute; reflexivity|].
  refine (proj2 (revocation_survives plain_hash no_faults seconds recording_bus "h:tok" 1 recorded_bus
    no_faults seconds other_token backup_rows (0%nat, 1%nat) restored_bus
    (exec (SetNodeRegistry no_faults fw_registry) restored_bus) first_conn "tok" "fw1" _ _ _ _ _ _ _ _ _)).
  - intros k. reflexivity.
  - intros h t H. vm_compute in H. discriminate H.
  - discriminate.
  - discriminate.
  - vm_compute. reflexivity.
  - intros k p [= <-]. vm_compute. discriminate.
  - reflexivity.
  - vm_compute. reflexivity.
  - eapply rtc_l; [apply (sv_attach _ _ _ _ fw_registry)|apply rtc_refl].
Defined.

(** ** Which revocation a union keeps *)

(** The union of two tombstones of one hash keeps the first revocation
    whichever side is read first, as long as both carry a revocation time (and
    name the same node); but a tombstone without a time, which a file may hold,
    breaks this: read from one side the union has the time, from the other it
    has none. *)
Theorem earlier_stable a b :
  tb_Hash a = tb_Hash b → tb_Hash a ≠ EmptyString → tb_NodeID a = tb_NodeID b →
  (tb_RevokedAt a ≠ 0 → tb_RevokedAt b ≠ 0 →
   earlier a b = earlier b a ∧ tb_RevokedAt (earlier a b) = Z.min (tb_RevokedAt a) (tb_RevokedAt b)) ∧
  (tb_RevokedAt a = 0 → 0 < tb_RevokedAt b → tb_RevokedAt (earlier a b) = 0 ∧ tb_RevokedAt (earlier b a) = tb_RevokedAt b).
Proof.
  destruct a as [h n x], b as [h' n' y]. simpl. intros <- Hh <-. unfold earlier. simpl.
  destruct (String.eqb_spec h EmptyString) as [|_]; [done|]. cbn [orb].
  destruct (Z.eqb_spec x 0), (Z.eqb_spec y 0), (Z.ltb_spec x y), (Z.ltb_spec y x); cbn [negb andb tb_RevokedAt];
    (split; [intros ? ?; first [lia|split; [by destruct (String.eqb_spec n EmptyString) as [->|]; f_equal; lia|lia]]
            |intros ? ?; first [lia|by split]]).
Qed.

Lemma earlier_stable_witness :
  tb_RevokedAt (earlier (mkTomb "h" "fw1" 0) (mkTomb "h" "fw1" 5)) = 0 ∧
  tb_RevokedAt (earlier (mkTomb "h" "fw1" 5) (mkTomb "h" "fw1" 0)) = 5.
Proof.
  destruct (earlier_stable (mkTomb "h" "fw1" 0) (mkTomb "h" "fw1" 5)) as [_ H]; [reflexivity|discriminate|reflexivity|].
  apply H; reflexivity.
Defined.
