(* ===== verification/BusTakeover.v ===== *)
(** * Contested tokens

    api/internal/busauth/takeover.go: what the takeover records count, which
    alerts they raise, and when a record goes away.  agenttoken.go: the
    control plane's own token. *)
From Stdlib Require Import Ascii String.
From S2P Require Import Prelude GoStrings GoPath NodeRegistry BusTokens BusTokensFacts BusAdmission BusSessions.

#[local] Arguments String.eqb : simpl never.

(** ** The alerts *)
Record Alert := mkAlert {
  a_ID : string; a_Severity : string; a_Source : string; a_Title : string; a_Detail : string; a_Since : Z;
  a_RelatedKind : string; a_RelatedID : string }.

Record merged := mkMerged { mg_alternations : nat; mg_since : Z; mg_last : Z; mg_hosts : list string }.

Definition appendUnique (l : list string) (v : string) : list string := if bool_decide (v ∈ l) then l else l ++ [v].

Definition merge_record (byNode : gmap string merged) (kv : string * takeover) : gmap string merged :=
  let r := kv.2 in
  if bool_decide (tk_alternations r = 0%nat) then byNode
  else
    let m := default (mkMerged 0 (tk_alternatingSince r) (tk_lastAt r) []) (byNode !! tk_nodeID r) in
    <[tk_nodeID r := mkMerged (mg_alternations m + tk_alternations r)
        (if negb (Z.eqb (tk_alternatingSince r) 0) && Z.ltb (tk_alternatingSince r) (mg_since m)
         then tk_alternatingSince r else mg_since m)
        (if Z.ltb (mg_last m) (tk_lastAt r) then tk_lastAt r else mg_last m)
        (foldl appendUnique (mg_hosts m) (tk_hosts r))]> byNode.
Definition merge_records (tk : gmap string takeover) : gmap string merged := foldl merge_record ∅ (map_to_list tk).

Section Alerts.
Context (rfc3339 : Z → string).   (* time.Time.Format(time.RFC3339) *)

Definition session_alert (now : Z) (p : string * merged) : Alert :=
  let '(node, m) := p in
  mkAlert ("bus-session-alternating:" +:+ node) "crit" "security"
    ("Node " +:+ node +:+ "'s join token is in use from more than one place")
    ("The bus session for " +:+ node +:+ " has been taken back and forth between presenters "
      +:+ pretty (mg_alternations m) +:+ " time(s) — seen from " +:+ Join (mg_hosts m) ", " +:+ ", most recently "
      +:+ rfc3339 (mg_last m)
      +:+ ". A join token holds one live session, so each connection disconnects the other. Revoke this node's token and re-provision the node; the alert clears when the token is revoked or the node is removed.")
    (if Z.eqb (mg_since m) 0 then now else mg_since m) "node" node.

Definition alert_le (a b : Alert) : Prop := string_le (a_ID a) (a_ID b).
#[local] Instance alert_le_dec : RelDecision alert_le.
Proof. intros a b. unfold alert_le. apply _. Defined.
Definition SessionAlerts (now : Z) (tk : gmap string takeover) : list Alert :=
  merge_sort alert_le (map (session_alert now) (map_to_list (merge_records tk))).

Lemma merge_foldl_dom l byNode n :
  is_Some (foldl merge_record byNode l !! n) ↔
  is_Some (byNode !! n) ∨ ∃ kv, kv ∈ l ∧ tk_nodeID kv.2 = n ∧ tk_alternations kv.2 ≠ 0%nat.
Proof.
  revert byNode. induction l as [|kv l IH]; intros byNode; simpl.
  { split; [by left|]. intros [?|(? & ?%elem_of_nil & _)]; done. }
  rewrite IH. clear IH. setoid_rewrite elem_of_cons. unfold merge_record.
  destruct (bool_decide_reflect (tk_alternations kv.2 = 0%nat)) as [E|E].
  - split; [intros [?|(? & ? & ?)]|intros [?|(? & [->|?] & ? & ?)]]; eauto; done.
  - destruct (decide (tk_nodeID kv.2 = n)) as [<-|Hne].
    + rewrite lookup_insert_eq. split; [intros _; right; exists kv; eauto|left; by eexists].
    + rewrite lookup_insert_ne by done. split; [intros [?|(? & ? & ?)]|intros [?|(? & [->|?] & ? & ?)]]; eauto; done.
Qed.

(** One alert per contested node, and only those.  A node has a session
    alert if and only if some token of it has been handed back at least once,
    it is the only alert about the node, and the list is ordered by id. *)
Theorem session_alerts_exact now tk n :
  ((∃ a, a ∈ SessionAlerts now tk ∧ a_RelatedID a = n) ↔
   ∃ id r, tk !! id = Some r ∧ tk_nodeID r = n ∧ tk_alternations r ≠ 0%nat) ∧
  (∀ a, a ∈ SessionAlerts now tk → a_ID a = "bus-session-alternating:" +:+ a_RelatedID a) ∧
  NoDup (a_RelatedID <$> SessionAlerts now tk) ∧ StronglySorted alert_le (SessionAlerts now tk).
Proof.
  assert (∀ a, a ∈ SessionAlerts now tk ↔ ∃ p, p ∈ map_to_list (merge_records tk) ∧ a = session_alert now p) as Hin.
  { intros a. unfold SessionAlerts. rewrite merge_sort_Permutation, list_elem_of_fmap. naive_solver. }
  split_and!.
  - assert (is_Some (merge_records tk !! n) ↔ ∃ id r, tk !! id = Some r ∧ tk_nodeID r = n ∧ tk_alternations r ≠ 0%nat) as <-.
    { unfold merge_records. rewrite merge_foldl_dom, lookup_empty. split.
      - intros [[? [=]]|([id r] & H%elem_of_map_to_list & ?)]. eauto.
      - intros (id & r & H & ?). right. exists (id, r). by rewrite elem_of_map_to_list. }
    setoid_rewrite Hin. split.
    + intros (a & ([node m] & H%elem_of_map_to_list & ->) & <-). simpl. by eexists.
    + intros [m H]. exists (session_alert now (n, m)). split; [|done]. exists (n, m). by rewrite elem_of_map_to_list.
  - intros a ([node m] & _ & ->)%Hin. done.
  - unfold SessionAlerts. rewrite merge_sort_Permutation.
    replace (a_RelatedID <$> map (session_alert now) (map_to_list (merge_records tk)))
      with ((map_to_list (merge_records tk)).*1); [apply NoDup_fst_map_to_list|].
    rewrite <- list_fmap_compose. apply list_fmap_ext. by intros i [node m] _.
  - apply StronglySorted_merge_sort; [|].
    + intros a b c. unfold alert_le. apply string_le_trans.
    + intros a b. unfold alert_le. apply string_le_total.
Qed.
End Alerts.

(** ** What a record counts *)

(** A takeover between two known, different hosts. *)
Definition contested (e : string * string) : bool :=
  negb (String.eqb e.1 EmptyString) && negb (String.eqb e.2 EmptyString) && negb (String.eqb e.1 e.2).
(** Consecutive contested takeovers where the host just evicted takes the
    session back. *)
Fixpoint handbacks (prev : string) (l : list (string * string)) : nat :=
  match l with
  | [] => 0
  | (evicted, newcomer) :: l => (if String.eqb prev newcomer then 1 else 0) + handbacks evicted l
  end.

Definition note_all (r : takeover) (l : list (Z * (string * string))) : takeover :=
  foldl (λ r e, note_record e.1 e.2.1 e.2.2 r) r l.

Definition record_ok (r : takeover) : Prop :=
  NoDup (tk_hosts r) ∧ (length (tk_hosts r) ≤ takeoverHostsKept)%nat ∧ EmptyString ∉ tk_hosts r.

Lemma noteHost_ok h l : NoDup l → (length l ≤ takeoverHostsKept)%nat → EmptyString ∉ l →
  NoDup (noteHost h l) ∧ (length (noteHost h l) ≤ takeoverHostsKept)%nat ∧ EmptyString ∉ noteHost h l.
Proof.
  intros Hnd Hl Hn. unfold noteHost. destruct (String.eqb_spec h EmptyString); simpl; [done|].
  destruct (bool_decide_reflect (takeoverHostsKept ≤ length l)%nat); [done|].
  destruct (bool_decide_reflect (h ∈ l)); [done|]. split_and!.
  - apply NoDup_app. split_and!; [done|set_solver|apply NoDup_singleton].
  - rewrite length_app. simpl. lia.
  - set_solver.
Qed.

Lemma note_record_counts t e n r :
  tk_evictions (note_record t e n r) = S (tk_evictions r) ∧
  tk_alternations (note_record t e n r)
    = (tk_alternations r + (if contested (e, n) then if String.eqb (tk_lastEvicted r) n then 1 else 0 else 0))%nat ∧
  tk_lastEvicted (note_record t e n r) = (if contested (e, n) then e else tk_lastEvicted r) ∧
  tk_nodeID (note_record t e n r) = tk_nodeID r.
Proof.
  unfold note_record, contested. cbn [fst snd].
  destruct (_ && _); cbn [tk_evictions tk_alternations tk_lastEvicted tk_nodeID]; [|split_and!; try done; lia].
  destruct (String.eqb _ n); split_and!; try done; lia.
Qed.
Lemma note_record_ok t e n r : record_ok r → record_ok (note_record t e n r).
Proof.
  intros (H1 & H2 & H3). destruct (noteHost_ok e _ H1 H2 H3) as (G1 & G2 & G3).
  destruct (noteHost_ok n _ G1 G2 G3) as (K1 & K2 & K3).
  unfold record_ok, note_record. by destruct (_ && _).
Qed.

Lemma note_all_counts l r :
  tk_evictions (note_all r l) = (tk_evictions r + length l)%nat ∧
  tk_alternations (note_all r l)
    = (tk_alternations r + handbacks (tk_lastEvicted r) (filter (λ e, contested e = true) l.*2))%nat ∧
  (record_ok r → record_ok (note_all r l)).
Proof.
  revert r. induction l as [|[t [e n]] l IH]; intros r; cbn [note_all foldl length fmap list_fmap fst snd].
  { split_and!; try done; simpl; lia. }
  fold (note_all (note_record t e n r) l). destruct (IH (note_record t e n r)) as (I1 & I2 & I3).
  destruct (note_record_counts t e n r) as (E1 & E2 & E3 & _). rewrite I1, I2, E1, E2, E3. split_and!; [lia| |].
  - rewrite filter_cons. destruct (contested (e, n)); cbn [handbacks]; [rewrite decide_True by done|rewrite decide_False by done];
      cbn [handbacks]; lia.
  - intros Hr. by apply I3, note_record_ok.
Qed.

(** The first record of a token. *)
Definition new_record (node : string) : takeover := mkTakeover node 0 0 EmptyString [] 0 0.

Lemma handbacks_trade a b k : a ≠ b →
  handbacks a (concat (replicate k [(b, a); (a, b)])) = (2 * k)%nat.
Proof.
  intros Hne. induction k as [|k IH]; [done|]. cbn [replicate concat app handbacks].
  rewrite !String.eqb_refl, IH. lia.
Qed.

Lemma all_contested l : Forall (λ e, contested e = true) l → filter (λ e, contested e = true) l = l.
Proof. induction 1 as [|e l He Hl IH]; [done|]. rewrite filter_cons, decide_True by done. by rewrite IH. Qed.
Lemma one_host_uncontested h (l : list (Z * (string * string))) :
  Forall (λ e, e.2.1 = h ∧ e.2.2 = h) l → filter (λ e, contested e = true) l.*2 = [].
Proof.
  induction 1 as [|[t [x y]] l' [Hx Hy] Hl IH]; [done|]. cbn in *. subst. rewrite decide_False; [exact IH|].
  unfold contested. cbn. by rewrite String.eqb_refl, andb_false_r.
Qed.

(** What a takeover record counts.  After any sequence of takeovers of a
    token, its alternation count is exactly the number of times a host took the
    session back from the one that had just evicted it, reconnects from one
    host or from an unknown one apart; so takeovers from a single host never
    alternate, and two hosts trading the session k times back and forth after
    a first takeover count 2k.  The record names at most four hosts, none of
    them twice. *)
Theorem alternations_exact node l :
  let r := note_all (new_record node) l in
  tk_evictions r = length l ∧
  tk_alternations r = handbacks EmptyString (filter (λ e, contested e = true) l.*2) ∧
  (∀ h, Forall (λ e, e.2.1 = h ∧ e.2.2 = h) l → tk_alternations r = 0%nat) ∧
  (∀ t0 a b k, a ≠ b → a ≠ EmptyString → b ≠ EmptyString →
     l = (t0, (a, b)) :: ((λ e, (t0, e)) <$> concat (replicate k [(b, a); (a, b)])) → tk_alternations r = (2 * k)%nat) ∧
  record_ok r.
Proof.
  intros r. destruct (note_all_counts l (new_record node)) as (E1 & E2 & E3). fold r in E1, E2, E3.
  cbn [tk_evictions tk_alternations tk_lastEvicted new_record] in *. rewrite Nat.add_0_l in E1, E2. split_and!; [done..| | |].
  - intros h Hl. by rewrite E2, (one_host_uncontested h).
  - intros t0 a b k Hab Ha Hb ->. rewrite E2. cbn [fmap list_fmap fst snd].
    rewrite <- (list_fmap_compose (λ e, (t0, e)) snd). rewrite (list_fmap_ext _ id), list_fmap_id by done.
    assert (contested (a, b) = true ∧ contested (b, a) = true) as [Cab Cba].
    { unfold contested. cbn. rewrite !(proj2 (String.eqb_neq _ _)) by done. done. }
    rewrite filter_cons, decide_True by done. cbn [handbacks]. rewrite (proj2 (String.eqb_neq EmptyString b)) by done.
    rewrite all_contested; [by apply handbacks_trade|].
    apply Forall_concat, Forall_replicate. by repeat constructor.
  - apply E3. repeat split; [constructor|simpl; lia|set_solver].
Qed.

(** ** When a record goes away *)

(** A node with two live tokens: the first is traded between two hosts, and
    then revoked. *)
Definition third_conn : Conn := mkConn "s" 9 "10.0.0.2".
Definition two_tokens (k : nat) : result string := if Nat.ltb k 4 then Ok "tok" else Ok "tok2".
Definition admit_at (c : Conn) (b : Bus Registry) : Bus Registry :=
  exec (Admit no_faults seconds plain_hash c "tok" "fw1") (with_open ({[(c_ServerID c, c_CID c)]} ∪ b_open b) b).
Definition mint_at (b : Bus Registry) : Bus Registry :=
  exec (MintBound no_faults seconds plain_hash two_tokens "fw" "fw1" "firewall") b.
Definition traded (b : Bus Registry) : Bus Registry := admit_at third_conn (admit_at second_conn (admit_at first_conn b)).
Definition contested_bus : Bus Registry := traded (mint_at (mint_at tracking_bus)).
Definition sole_token_bus : Bus Registry := traded (mint_at tracking_bus).
Definition alerts_of (b : Bus Registry) : list string := a_RelatedID <$> SessionAlerts (λ _, EmptyString) 0 (b_tk b).

#[local] Abbreviation step := (bus_step no_faults seconds plain_hash two_tokens).
Lemma admit_at_steps c b : rtc step b (admit_at c b).
Proof.
  unfold admit_at. eapply rtc_l; [apply (step_open _ _ _ _ (c_ServerID c, c_CID c))|].
  eapply rtc_l; [apply (step_admit _ _ _ _ c "tok" "fw1")|]. apply rtc_refl.
Qed.
Lemma mint_at_step b : rtc step b (mint_at b).
Proof. apply rtc_once. apply (step_mint _ _ _ _ "fw" "fw1" "firewall"). Qed.
Lemma contested_reachable : rtc step empty_bus contested_bus.
Proof.
  unfold contested_bus, traded. etransitivity; [|apply admit_at_steps]. etransitivity; [|apply admit_at_steps].
  etransitivity; [|apply admit_at_steps]. etransitivity; [|apply mint_at_step]. etransitivity; [|apply mint_at_step].
  unfold tracking_bus, attached_bus. eapply rtc_l; [apply (step_attach _ _ _ _ fw_registry)|]. apply rtc_once, step_track.
Qed.

(** The alert can outlive the revoke it asks for.  A record goes away when
    the registry excludes the node, which a revoke of one of two live tokens
    does not do: here the contested token is revoked, its session is closed,
    and the alert telling the operator to revoke it stays; with a single live
    token the same revoke clears it. *)
Theorem alert_outlives_revoke :
  ∃ b, rtc (bus_step no_faults seconds plain_hash two_tokens) empty_bus b ∧
    alerts_of b = ["fw1"] ∧
    eval (Revoke no_faults seconds "h:tok") b = Ok 1%nat ∧
    alerts_of (exec (Revoke no_faults seconds "h:tok") b) = ["fw1"] ∧
    alerts_of sole_token_bus = ["fw1"] ∧
    alerts_of (exec (Revoke no_faults seconds "h:tok") sole_token_bus) = [].
Proof.
  exists contested_bus. split; [exact contested_reachable|].
  split; [vm_compute; reflexivity|]. split; [vm_compute; reflexivity|]. split; [vm_compute; reflexivity|].
  split; vm_compute; reflexivity.
Qed.

(** * The controlplane's own token

    api/internal/busauth/agenttoken.go: the operator's revokes never take the
    controlplane's own agent off the bus, and a start that fails keeps the
    credential it found. *)
Section Self.
Context {R : Type} `{!NodeRegistry R} `{HL : !NodeRegistryLaws R}.
Context (F : nat → option error) (clk : nat → Z) (HashToken : string → string) (rand : nat → result string).
Implicit Types b : Bus R.

(** The token EnsureAgentToken adopted, still live. *)
Definition own_token b (i : string) : Prop :=
  b_self b ≠ EmptyString ∧ i ≠ EmptyString ∧ ∃ r, b_rows b !! i = Some r ∧ self_row (b_self b) r = true.

Lemma isSelf_own i b : own_token b i →
  isSelfAgentToken F i b = (match F (b_tick b) with
    | Some e => Fail (wrapf (("busauth: check whether " +:+ quote i +:+ " is the controlplane agent's token: ") +:+ err_text e) e)
    | None => Ok true end, tick b).
Proof using.
  intros (Hs & Hi & r & Hr & Hself). unfold isSelfAgentToken. rewrite bind_run.
  change (eval get b) with b. change (exec get b) with b.
  rewrite (proj2 (String.eqb_neq _ _) Hs), (proj2 (String.eqb_neq _ _) Hi). cbn [orb].
  unfold wrapM, query, sql. rewrite bind_run. unfold eval, exec. destruct (F (b_tick b)); cbn [fst snd]; [reflexivity|].
  by rewrite Hr, Hself.
Qed.
Lemma nodeHasSelf_own i b : own_token b i →
  nodeHasSelfAgentToken F (b_self b) b = (match F (b_tick b) with
    | Some e => Fail (wrapf (("busauth: check whether node " +:+ quote (b_self b) +:+ " holds the controlplane agent's token: ") +:+ err_text e) e)
    | None => Ok true end, tick b).
Proof using.
  intros (Hs & Hi & r & Hr & Hself). unfold nodeHasSelfAgentToken. rewrite bind_run.
  change (eval get b) with b. change (exec get b) with b.
  rewrite (proj2 (String.eqb_neq _ _) Hs), String.eqb_refl. cbn [orb negb].
  unfold wrapM, query, sql. rewrite bind_run. unfold eval, exec. destruct (F (b_tick b)); cbn [fst snd]; [reflexivity|].
  rewrite bool_decide_true; [done|].
  assert ((i, r) ∈ select (λ _ r, self_row (b_self b) r) (b_rows b)) as Hin by (by apply elem_of_select).
  by intros E; rewrite E in Hin; apply elem_of_nil in Hin.
Qed.

(** The controlplane cannot be cut off from its own bus by an operator.
    While its agent's token is marked and live, revoking that token, or every
    token of its node, fails — with the refusal, or with the error of the check
    itself — and changes nothing: no row, no session, no registry entry. *)
Theorem self_token_guarded b i :
  own_token b i →
  (∃ e, Revoke F clk i b = (Fail e, tick b) ∧ (F (b_tick b) = None → e = ErrSelfAgentToken)) ∧
  (∃ e, RevokeByNodeID F clk (b_self b) b = (Fail e, tick b) ∧ (F (b_tick b) = None → e = ErrSelfAgentToken)).
Proof using.
  intros Ho. unfold Revoke, RevokeByNodeID, bindE. rewrite !bind_run. unfold eval, exec.
  rewrite (isSelf_own i b Ho), (nodeHasSelf_own i b Ho). cbn [fst snd].
  destruct (F (b_tick b)); split; eexists; split; done.
Qed.
End Self.

Definition self_bus : Bus Registry :=
  exec (EnsureAgentToken no_faults seconds plain_hash one_token "/d/bus/agent.token" "cp1") tracking_bus.

Lemma self_token_guarded_witness :
  t_revoked_at <$> b_rows self_bus !! "h:tok" = Some None ∧
  ∃ e, Revoke no_faults seconds "h:tok" self_bus = (Fail e, tick self_bus) ∧
    (no_faults (b_tick self_bus) = None → e = ErrSelfAgentToken).
Proof.
  split; [vm_compute; reflexivity|]. apply (self_token_guarded no_faults seconds self_bus "h:tok").
  split; [vm_compute; discriminate|]. split; [discriminate|].
  eexists. split; vm_compute; reflexivity.
Defined.
