(* ===== verification/BusRace.v ===== *)
(** * Admissions, revokes and mints running at once

    The concurrency of api/internal/busauth/sessions.go: the calls of
    BusTokens.v cut at their lock boundaries and database statements, and
    interleaved in any order.  A step is what one goroutine does under one lock
    (the session lock or the registry's), one statement, or one close. *)
From Stdlib Require Import Ascii String.
From S2P Require Import Prelude BusTokens.

(** Where a goroutine stands.  [c] is the token a refresh's caller revokes, if
    it is a revoke. *)
Inductive Thread :=
| TAdmit (k : session) (h node : string)         (* Admit, before the session lock *)
| TEvict (l : list session)                      (* Admit, recorded; closing what it superseded *)
| TMint (h node : string)                        (* MintBound, before its INSERT *)
| TRevoke (h : string)                           (* revoke, before its UPDATE *)
| TRefresh (c : option string) (node : string)   (* refreshNodes, before sinkMu *)
| THeld (c : option string) (node : string) (hs : gset string) (* sinkMu held, live hashes read *)
| TPushed (c : option string) (node : string)    (* sinkMu held, registry pushed *)
| THook (c : option string) (l : list session)   (* sinkMu held, in DisconnectNode, closing *)
| TClose (h : string)                            (* revoke, before closeRemaining takes the lock *)
| TKill (h : string) (l : list session)          (* closeRemaining, closing *)
| TRevoked (h : string)                          (* revoke returned a count *)
| TDone.

Record Sys := mkSys {
  y_rows : gmap string (string * bool);    (* token hash to its node, and whether it is unrevoked *)
  y_reg : gmap string (gset string);       (* the registry's live hashes per node *)
  y_lock : option nat;                     (* who holds sinkMu *)
  y_grants : gmap session (string * string); (* token and node per recorded session *)
  y_open : gset session;
  y_under : gmap session string;           (* the token each connection was admitted under *)
  y_thr : gmap nat Thread
}.

Definition y_live (node : string) (s : Sys) : gset string := dom (filter (λ kv, kv.2 = (node, true)) (y_rows s)).
Definition pruned (s : Sys) : gmap session (string * string) := filter (λ kv, kv.1 ∈ y_open s) (y_grants s).
Definition token_sessions (h : string) (g : gmap session (string * string)) : list session :=
  (map_to_list (filter (λ kv, kv.2.1 = h) g)).*1.
Definition node_sessions (n : string) (g : gmap session (string * string)) : list session :=
  (map_to_list (filter (λ kv, kv.2.2 = n) g)).*1.
Definition after_refresh (c : option string) : Thread := match c with Some h => TClose h | None => TDone end.

Definition set_thr (t : nat) (T : Thread) (s : Sys) : Sys :=
  mkSys (y_rows s) (y_reg s) (y_lock s) (y_grants s) (y_open s) (y_under s) (<[t := T]> (y_thr s)).
Definition set_open (o : gset session) (s : Sys) : Sys :=
  mkSys (y_rows s) (y_reg s) (y_lock s) (y_grants s) o (y_under s) (y_thr s).
Definition set_grants (g : gmap session (string * string)) (s : Sys) : Sys :=
  mkSys (y_rows s) (y_reg s) (y_lock s) g (y_open s) (y_under s) (y_thr s).
Definition set_rows (r : gmap string (string * bool)) (s : Sys) : Sys :=
  mkSys r (y_reg s) (y_lock s) (y_grants s) (y_open s) (y_under s) (y_thr s).
Definition set_lock (l : option nat) (s : Sys) : Sys :=
  mkSys (y_rows s) (y_reg s) l (y_grants s) (y_open s) (y_under s) (y_thr s).
Definition set_reg (r : gmap string (gset string)) (s : Sys) : Sys :=
  mkSys (y_rows s) r (y_lock s) (y_grants s) (y_open s) (y_under s) (y_thr s).
Definition set_under (u : gmap session string) (s : Sys) : Sys :=
  mkSys (y_rows s) (y_reg s) (y_lock s) (y_grants s) (y_open s) u (y_thr s).

Definition starting (T : Thread) : Prop :=
  match T with TAdmit _ _ _ | TMint _ _ | TRevoke _ => True | _ => False end.
Definition reg_at (node : string) (s : Sys) : gset string := default ∅ (y_reg s !! node).

Inductive sys_step : relation Sys :=
(* connections, and goroutines starting *)
| y_opens k s : y_under s !! k = None → sys_step s (set_open ({[k]} ∪ y_open s) s)
| y_closes k s : sys_step s (set_open (y_open s ∖ {[k]}) s)
| y_starts t T s : y_thr s !! t = None → starting T → sys_step s (set_thr t T s)
| y_prunes s : sys_step s (set_grants (pruned s) s)           (* liveSessions, under the session lock *)
(* Admit *)
| y_refuses t k h node s :
    y_thr s !! t = Some (TAdmit k h node) → h ∉ reg_at node s → sys_step s (set_thr t TDone s)
| y_admits t k h node s :
    y_thr s !! t = Some (TAdmit k h node) → h ∈ reg_at node s → y_under s !! k = None →
    sys_step s (set_thr t (TEvict (token_sessions h (pruned s)))
      (set_under (<[k := h]> (y_under s))
        (set_grants (<[k := (h, node)]> (filter (λ kv, kv.2.1 ≠ h) (pruned s))) s)))
| y_evicts t k l s :
    y_thr s !! t = Some (TEvict (k :: l)) → sys_step s (set_thr t (TEvict l) (set_open (y_open s ∖ {[k]}) s))
| y_admitted t s : y_thr s !! t = Some (TEvict []) → sys_step s (set_thr t TDone s)
(* MintBound and revoke, up to the refresh *)
| y_mints t h node s :
    y_thr s !! t = Some (TMint h node) → y_rows s !! h = None →
    sys_step s (set_thr t (TRefresh None node) (set_rows (<[h := (node, true)]> (y_rows s)) s))
| y_revokes t h node s :
    y_thr s !! t = Some (TRevoke h) → y_rows s !! h = Some (node, true) →
    sys_step s (set_thr t (TRefresh (Some h) node) (set_rows (<[h := (node, false)]> (y_rows s)) s))
| y_no_rows t h s :
    y_thr s !! t = Some (TRevoke h) → (∀ node, y_rows s !! h ≠ Some (node, true)) → sys_step s (set_thr t TDone s)
(* refreshNodes, under sinkMu *)
| y_reads t c node s :
    y_thr s !! t = Some (TRefresh c node) → y_lock s = None →
    sys_step s (set_thr t (THeld c node (y_live node s)) (set_lock (Some t) s))
| y_fails t c node s :                          (* the read failed: the node is pushed as holding none *)
    y_thr s !! t = Some (TRefresh c node) → y_lock s = None →
    sys_step s (set_thr t (THeld c node ∅) (set_lock (Some t) s))
| y_pushes t c node hs s :
    y_thr s !! t = Some (THeld c node hs) →
    sys_step s (set_thr t (TPushed c node) (set_reg (<[node := hs]> (y_reg s)) s))
| y_excludes t c node s :                       (* the exclusion hook: DisconnectNode takes the node's sessions *)
    y_thr s !! t = Some (TPushed c node) →
    sys_step s (set_thr t (THook c (node_sessions node (y_grants s)))
      (set_grants (filter (λ kv, kv.2.2 ≠ node) (y_grants s)) s))
| y_hook_closes t c k l s :
    y_thr s !! t = Some (THook c (k :: l)) → sys_step s (set_thr t (THook c l) (set_open (y_open s ∖ {[k]}) s))
| y_refreshed t c s :
    y_thr s !! t = Some (THook c []) ∨ (∃ node, y_thr s !! t = Some (TPushed c node)) →
    sys_step s (set_thr t (after_refresh c) (set_lock None s))
(* closeRemaining *)
| y_takes t h s :
    y_thr s !! t = Some (TClose h) →
    sys_step s (set_thr t (TKill h (token_sessions h (y_grants s))) (set_grants (filter (λ kv, kv.2.1 ≠ h) (y_grants s)) s))
| y_kills t h k l s :
    y_thr s !! t = Some (TKill h (k :: l)) → sys_step s (set_thr t (TKill h l) (set_open (y_open s ∖ {[k]}) s))
| y_returns t h s : y_thr s !! t = Some (TKill h []) → sys_step s (set_thr t (TRevoked h) s).

Definition sys_init (rows : gmap string (string * bool)) (reg : gmap string (gset string)) : Sys :=
  mkSys rows reg None ∅ ∅ ∅ ∅.

(** ** The invariant *)

Definition has (P : Thread → Prop) (thr : gmap nat Thread) : Prop := ∃ t T, thr !! t = Some T ∧ P T.

(** The revoker of [h]: its push is pending; its close is pending; it exists. *)
Definition pend (h n : string) (T : Thread) : Prop :=
  match T with TRefresh (Some h') n' => h' = h ∧ n' = n | THeld (Some h') n' _ => h' = h ∧ n' = n | _ => False end.
Definition act (h : string) (T : Thread) : Prop :=
  match T with
  | TRefresh (Some h') _ | THeld (Some h') _ _ | TPushed (Some h') _ | THook (Some h') _ | TClose h' => h' = h
  | _ => False
  end.
Definition own (h : string) (T : Thread) : Prop :=
  match T with TKill h' _ | TRevoked h' => h' = h | _ => act h T end.
Definition waits (h n : string) (T : Thread) : Prop := T = TRefresh (Some h) n.
Definition holds (T : Thread) : Prop :=
  match T with THeld _ _ _ | TPushed _ _ | THook _ _ => True | _ => False end.
Definition closing (k : session) (T : Thread) : Prop :=
  match T with TEvict l | THook _ l | TKill _ l => k ∈ l | _ => False end.

Lemma has_move (P : Thread → Prop) t T T' (thr : gmap nat Thread) :
  thr !! t = Some T → (P T → P T') → has P thr → has P (<[t := T']> thr).
Proof.
  intros Ht HP (t0 & T0 & H0 & HT0). destruct (decide (t0 = t)) as [->|Hne].
  - exists t, T'. rewrite lookup_insert_eq. split; [done|]. apply HP. congruence.
  - exists t0, T0. by rewrite lookup_insert_ne.
Qed.
Lemma has_new (P : Thread → Prop) t T' (thr : gmap nat Thread) : thr !! t = None → has P thr → has P (<[t := T']> thr).
Proof. intros Ht (t0 & T0 & H0 & HT0). exists t0, T0. rewrite lookup_insert_ne; [done|]. intros ->. congruence. Qed.
Lemma has_here (P : Thread → Prop) t T (thr : gmap nat Thread) : P T → has P (<[t := T]> thr).
Proof. intros H. exists t, T. by rewrite lookup_insert_eq. Qed.

(** The registry: a hash it holds is live, or its revoker has yet to push. *)
Definition covered (Q : string → string → Thread → Prop) (s : Sys) (h n : string) : Prop :=
  y_rows s !! h = Some (n, true) ∨ (y_rows s !! h = Some (n, false) ∧ has (Q h n) (y_thr s)).
Definition lock_ok (s : Sys) : Prop := ∀ t T, y_thr s !! t = Some T → holds T → y_lock s = Some t.
Definition held_ok (s : Sys) : Prop :=
  ∀ t c n hs h, y_thr s !! t = Some (THeld c n hs) → h ∈ hs → covered waits s h n.
Definition reg_ok (s : Sys) : Prop := ∀ n h, h ∈ reg_at n s → covered pend s h n.
(** Sessions: of a live token, or of one whose revoker has yet to take them. *)
Definition grants_ok (s : Sys) : Prop :=
  ∀ k h n, y_grants s !! k = Some (h, n) → covered (λ h _, act h) s h n.
(** One revoker per token, and its row is revoked. *)
Definition owners_ok (s : Sys) : Prop :=
  (∀ t T h, y_thr s !! t = Some T → own h T → ∃ n, y_rows s !! h = Some (n, false)) ∧
  (∀ t1 t2 T1 T2 h, y_thr s !! t1 = Some T1 → y_thr s !! t2 = Some T2 → own h T1 → own h T2 → t1 = t2).
(** An open connection is recorded, or someone is closing it. *)
Definition conns_ok (s : Sys) : Prop :=
  ∀ k h, y_under s !! k = Some h → k ∈ y_open s →
    (∃ n, y_grants s !! k = Some (h, n)) ∨ has (closing k) (y_thr s).

(** A covered fact survives a step: rows only turn from live to revoked, by the
    step that makes the revoker. *)
Definition moves (s s' : Sys) : Prop :=
  ∀ h n, y_rows s !! h = Some (n, true) →
    y_rows s' !! h = Some (n, true) ∨ (y_rows s' !! h = Some (n, false) ∧ has (waits h n) (y_thr s')).
Definition stays_revoked (s s' : Sys) : Prop :=
  ∀ h n, y_rows s !! h = Some (n, false) → y_rows s' !! h = Some (n, false).

Lemma step_rows s s' : sys_step s s' → moves s s' ∧ stays_revoked s s'.
Proof.
  intros Hs. split; intros h n Hr; destruct Hs; cbn in *; try (by left); try done.
  - left. rewrite lookup_insert_ne; [done|]. congruence.
  - destruct (decide (h0 = h)) as [->|Hne]; [|left; by rewrite lookup_insert_ne].
    right. rewrite lookup_insert_eq. rewrite Hr in H0. injection H0 as <-. split; [done|]. by apply has_here.
  - rewrite lookup_insert_ne; [done|]. congruence.
  - rewrite lookup_insert_ne; [done|]. congruence.
Qed.

Lemma covered_step (Q : string → string → Thread → Prop) s s' h n :
  sys_step s s' → (∀ T, waits h n T → Q h n T) → (has (Q h n) (y_thr s) → has (Q h n) (y_thr s')) →
  covered Q s h n → covered Q s' h n.
Proof.
  intros [Hm Hr]%step_rows HQ Hh [Hl|[Hl Hp]].
  - destruct (Hm h n Hl) as [?|[? (t & T & Ht & HT)]]; [by left|]. right. split; [done|]. exists t, T. split; [done|]. by apply HQ.
  - right. split; [by apply Hr|]. by apply Hh.
Qed.

Lemma step_lock s s' : sys_step s s' → lock_ok s → lock_ok s'.
Proof.
  intros Hs Hl t' T'. destruct Hs; cbn; try apply Hl;
    (destruct (decide (t' = t)) as [->|Hne];
     [rewrite lookup_insert_eq; intros [= <-] Hh; try done; try (by eapply Hl)
     |rewrite lookup_insert_ne by done; intros Ht Hh; try (by eapply Hl)]).
  - by destruct T.
  - specialize (Hl t' T' Ht Hh). congruence.
  - specialize (Hl t' T' Ht Hh). congruence.
  - destruct c; cbn; done.
  - exfalso. apply Hne. enough (Some t' = Some t) by congruence. rewrite <- (Hl t' T' Ht Hh).
    destruct H as [H|[node H]]; by eapply Hl.
Qed.

(** Pending work stays pending, but for the step that does it. *)
Ltac keep_has := first
  [ done
  | eapply has_move; [eassumption|unfold waits; try done; try congruence;
      try (match goal with c : option string |- _ => destruct c end; cbn; first [done|congruence])]
  | apply has_new; assumption ].

Lemma step_waits s s' h n : sys_step s s' → y_lock s ≠ None → has (waits h n) (y_thr s) → has (waits h n) (y_thr s').
Proof.
  intros Hs Hl Hh. destruct Hs; cbn in *; try (revert Hh; keep_has); try done.
  destruct H as [H|[node H]]; revert Hh; by keep_has.
Qed.

Lemma step_held s s' : sys_step s s' → lock_ok s → held_ok s → held_ok s'.
Proof.
  intros Hs Hl Hh t0 c0 n0 hs0 h Ht0 Hin.
  assert (y_thr s !! t0 = Some (THeld c0 n0 hs0) ∨ y_rows s' !! h = Some (n0, true)) as [Ht|?]; [| |by left].
  { destruct Hs; cbn in *; try (by left); destruct (decide (t0 = t)) as [->|Hne];
      try (rewrite lookup_insert_ne in Ht0 by done; by left); rewrite lookup_insert_eq in Ht0; try done.
    - injection Ht0 as ->. done.
    - injection Ht0 as <- <- <-. right. unfold y_live in Hin. apply elem_of_dom in Hin as [x Hx].
      apply map_lookup_filter_Some in Hx as [Hx E]. cbn in *. congruence.
    - injection Ht0 as <- <- <-. set_solver.
    - destruct c; cbn; done. }
  eapply (covered_step waits s); [done|done| |by eapply Hh]. apply step_waits; [done|].
  intros E. specialize (Hl t0 _ Ht I). congruence.
Qed.

Lemma covered_mono (Q Q' : string → string → Thread → Prop) s h n :
  (∀ T, Q h n T → Q' h n T) → covered Q s h n → covered Q' s h n.
Proof. intros HQ [?|[? (t & T & Ht & HT)]]; [by left|]. right. split; [done|]. exists t, T. auto. Qed.
Lemma waits_pend h n T : waits h n T → pend h n T.
Proof. by intros ->. Qed.
Lemma waits_act h n T : waits h n T → act h T.
Proof. by intros ->. Qed.

Lemma step_reg s s' : sys_step s s' → held_ok s → reg_ok s → reg_ok s'.
Proof.
  intros Hs Hh Hr n h Hin.
  assert (h ∈ reg_at n s → (has (pend h n) (y_thr s) → has (pend h n) (y_thr s')) → covered pend s' h n) as Hold.
  { intros Hi Hp. eapply covered_step; [done|intros T; apply waits_pend|done|by apply Hr]. }
  destruct Hs; cbn in *; try (by apply Hold; [|keep_has]).
  - unfold reg_at in Hin. cbn in Hin. destruct (decide (node = n)) as [->|Hne].
    + rewrite lookup_insert_eq in Hin. destruct (Hh t c n hs h H Hin) as [Hl|[Hl Hw]]; [by left|right].
      split; [done|]. destruct Hw as (t' & T' & Ht' & ->). exists t', (TRefresh (Some h) n). split; [|done]. cbn.
      rewrite lookup_insert_ne; [done|]. intros ->. congruence.
    + rewrite lookup_insert_ne in Hin by done. apply Hold; [done|]. eapply has_move; [exact H|]. cbn. destruct c; [|done].
      by intros [_ ?].
  - apply Hold; [done|]. destruct H as [H|[node H]]; (eapply has_move; [exact H|]); destruct c; cbn; done.
Qed.

Lemma step_grants s s' : sys_step s s' → reg_ok s → grants_ok s → grants_ok s'.
Proof.
  intros Hs Hr Hg k h n Hk.
  assert (∀ n', covered (λ h _, act h) s h n' → (has (act h) (y_thr s) → has (act h) (y_thr s')) →
    covered (λ h _, act h) s' h n') as Hold.
  { intros n' Hc Hp. eapply (covered_step (λ h _, act h)); [done|intros T; apply waits_act|done|done]. }
  destruct Hs; cbn in *; try (by apply Hold; [by eapply Hg|keep_has]).
  - apply Hold; [|done]. unfold pruned in Hk. apply map_lookup_filter_Some in Hk as [Hk _]. by eapply Hg.
  - assert (has (act h) (y_thr s) → has (act h) (<[t := TEvict (token_sessions h0 (pruned s))]> (y_thr s))) as Hp by keep_has.
    destruct (decide (k0 = k)) as [->|Hne].
    + rewrite lookup_insert_eq in Hk. injection Hk as <- <-. apply Hold; [|done].
      eapply (covered_mono pend (λ h _, act h)); [|by apply Hr]. intros T. destruct T; cbn; try done; destruct c; try done; by intros [? _].
    + rewrite lookup_insert_ne in Hk by done. apply Hold; [|done].
      apply map_lookup_filter_Some in Hk as [Hk _]. apply map_lookup_filter_Some in Hk as [Hk _]. by eapply Hg.
  - apply Hold; [|keep_has]. apply map_lookup_filter_Some in Hk as [Hk _]. by eapply Hg.
  - apply Hold; [by eapply Hg|]. destruct H as [H|[node H]]; (eapply has_move; [exact H|]); destruct c; cbn; done.
  - apply map_lookup_filter_Some in Hk as [Hk Hne]. apply Hold; [by eapply Hg|]. eapply has_move; [exact H|].
    cbn in *. congruence.
Qed.

Lemma step_owners s s' : sys_step s s' → owners_ok s → owners_ok s'.
Proof.
  intros Hs [Hrow Huniq]. pose proof (proj2 (step_rows s s' Hs)) as Hst.
  assert (∀ t' T' h, y_thr s' !! t' = Some T' → own h T' →
    (∃ T, y_thr s !! t' = Some T ∧ own h T) ∨
    (∃ n, y_rows s !! h = Some (n, true) ∧ y_rows s' !! h = Some (n, false) ∧ y_thr s !! t' = Some (TRevoke h) ∧
       ∀ t2, t2 ≠ t' → y_thr s' !! t2 = y_thr s !! t2)) as Hold.
  { intros t' T' h Ht' Ho. destruct Hs; cbn in *; try (left; by eauto);
      (destruct (decide (t' = t)) as [->|Hne]; [rewrite lookup_insert_eq in Ht'; injection Ht' as <-
        |rewrite lookup_insert_ne in Ht' by done; left; by eauto]); try done; try (left; eexists; split; [eassumption|]; done).
    - destruct T; cbn in *; done.
    - cbn in Ho. subst h0. right. exists node. rewrite lookup_insert_eq. split_and!; [done..|].
      intros t2 Hne. by rewrite lookup_insert_ne.
    - destruct c; [|done]. left. destruct H as [H|[node H]]; eexists; (split; [exact H|done]). }
  split.
  - intros t T h Ht Ho. destruct (Hold t T h Ht Ho) as [(T0 & HT0 & Ho0)|(n & _ & ? & _)]; [|by exists n].
    destruct (Hrow t T0 h HT0 Ho0) as [n Hn]. exists n. by apply Hst.
  - intros t1 t2 T1 T2 h H1 H2 O1 O2.
    destruct (Hold t1 T1 h H1 O1) as [(A1 & HA1 & OA1)|(n1 & R1 & _ & W1 & E1)];
    destruct (Hold t2 T2 h H2 O2) as [(A2 & HA2 & OA2)|(n2 & R2 & _ & W2 & E2)].
    + by eapply Huniq.
    + destruct (Hrow t1 A1 h HA1 OA1) as [m Hm]. congruence.
    + destruct (Hrow t2 A2 h HA2 OA2) as [m Hm]. congruence.
    + destruct (decide (t2 = t1)) as [->|Hne]; [done|]. exfalso. specialize (E1 t2 Hne). rewrite W2, H2 in E1.
      injection E1 as ->. done.
Qed.

Lemma elem_token_sessions h g k : k ∈ token_sessions h g ↔ ∃ n, g !! k = Some (h, n).
Proof.
  unfold token_sessions. rewrite list_elem_of_fmap. split.
  - intros ([k' [h' n]] & -> & H%elem_of_map_to_list). apply map_lookup_filter_Some in H as [H E]. cbn in *. subst. eauto.
  - intros [n H]. exists (k, (h, n)). split; [done|]. apply elem_of_map_to_list. by apply map_lookup_filter_Some.
Qed.
Lemma elem_node_sessions n g k : k ∈ node_sessions n g ↔ ∃ h, g !! k = Some (h, n).
Proof.
  unfold node_sessions. rewrite list_elem_of_fmap. split.
  - intros ([k' [h n']] & -> & H%elem_of_map_to_list). apply map_lookup_filter_Some in H as [H E]. cbn in *. subst. eauto.
  - intros [h H]. exists (k, (h, n)). split; [done|]. apply elem_of_map_to_list. by apply map_lookup_filter_Some.
Qed.

Lemma closing_rest (k k0 : session) l (P : Prop) : k ∉ ({[k0]} : gset session) → (k ∈ l → P) → k ∈ k0 :: l → P.
Proof. intros Hk HP [->|?]%elem_of_cons; [set_solver|auto]. Qed.

Lemma step_conns s s' : sys_step s s' → conns_ok s → conns_ok s'.
Proof.
  intros Hs Hc k h Hu Ho.
  destruct Hs; cbn in *; try (solve [destruct (Hc k h Hu Ho) as [?|Hcl]; [by left|right; revert Hcl; keep_has]]).
  - apply elem_of_union in Ho as [->%elem_of_singleton|Ho]; [congruence|by apply Hc].
  - apply elem_of_difference in Ho as [Ho _]. by apply Hc.
  - destruct (Hc k h Hu Ho) as [[n Hg]|?]; [left|by right]. exists n. unfold pruned. by apply map_lookup_filter_Some.
  - destruct (decide (k0 = k)) as [->|Hne].
    + rewrite lookup_insert_eq in Hu. injection Hu as <-. left. exists node. by rewrite lookup_insert_eq.
    + rewrite lookup_insert_ne in Hu by done. destruct (Hc k h Hu Ho) as [[n Hg]|Hcl]; [|right; revert Hcl; keep_has].
      assert (pruned s !! k = Some (h, n)) as Hp by (by apply map_lookup_filter_Some).
      destruct (decide (h = h0)) as [->|Hh].
      * right. apply has_here. cbn. apply elem_token_sessions. eauto.
      * left. exists n. rewrite lookup_insert_ne by done. by apply map_lookup_filter_Some.
  - apply elem_of_difference in Ho as [Ho Hk]. destruct (Hc k h Hu Ho) as [?|Hcl]; [by left|right]. revert Hcl.
    eapply has_move; [eassumption|]. cbn. by apply closing_rest.
  - destruct (Hc k h Hu Ho) as [?|Hcl]; [by left|right]. revert Hcl. eapply has_move; [eassumption|].
    by intros ?%elem_of_nil.
  - destruct (Hc k h Hu Ho) as [[n Hg]|Hcl]; [|right; revert Hcl; keep_has]. destruct (decide (n = node)) as [->|Hn].
    + right. apply has_here. cbn. apply elem_node_sessions. eauto.
    + left. exists n. by apply map_lookup_filter_Some.
  - apply elem_of_difference in Ho as [Ho Hk]. destruct (Hc k h Hu Ho) as [?|Hcl]; [by left|right]. revert Hcl.
    eapply has_move; [eassumption|]. cbn. by apply closing_rest.
  - destruct (Hc k h Hu Ho) as [?|Hcl]; [by left|right]. revert Hcl. destruct H as [H|[node H]]; (eapply has_move; [exact H|]); cbn.
    + by intros ?%elem_of_nil.
    + done.
  - destruct (Hc k h Hu Ho) as [[n Hg]|Hcl]; [|right; revert Hcl; keep_has]. destruct (decide (h = h0)) as [->|Hh].
    + right. apply has_here. cbn. apply elem_token_sessions. eauto.
    + left. exists n. by apply map_lookup_filter_Some.
  - apply elem_of_difference in Ho as [Ho Hk]. destruct (Hc k h Hu Ho) as [?|Hcl]; [by left|right]. revert Hcl.
    eapply has_move; [eassumption|]. cbn. by apply closing_rest.
  - destruct (Hc k h Hu Ho) as [?|Hcl]; [by left|right]. revert Hcl. eapply has_move; [eassumption|].
    by intros ?%elem_of_nil.
Qed.

(** ** What holds when a revoke returns *)
Record sys_ok (s : Sys) : Prop := {
  ok_lock : lock_ok s; ok_held : held_ok s; ok_reg : reg_ok s; ok_grants : grants_ok s;
  ok_owners : owners_ok s; ok_conns : conns_ok s }.

Lemma sys_init_ok rows reg :
  (∀ n h, h ∈ default ∅ (reg !! n) → rows !! h = Some (n, true)) → sys_ok (sys_init rows reg).
Proof.
  intros Hr. split.
  - by intros t T; cbn; rewrite lookup_empty.
  - by intros t c n hs h; cbn; rewrite lookup_empty.
  - intros n h Hin. left. by apply Hr.
  - by intros k h n; cbn; rewrite lookup_empty.
  - split; [by intros t T h; cbn; rewrite lookup_empty|by intros t1 t2 T1 T2 h; cbn; rewrite lookup_empty].
  - by intros k h; cbn; rewrite lookup_empty.
Qed.

Lemma step_ok s s' : sys_step s s' → sys_ok s → sys_ok s'.
Proof.
  intros Hs [H1 H2 H3 H4 H5 H6]. split; [by eapply step_lock|by eapply step_held|by eapply step_reg|
    by eapply step_grants|by eapply step_owners|by eapply step_conns].
Qed.
Lemma steps_ok s s' : rtc sys_step s s' → sys_ok s → sys_ok s'.
Proof. induction 1; [done|]. intros Hok. by eapply IHrtc, step_ok. Qed.

Lemma own_unique s t T h : owners_ok s → y_thr s !! t = Some T → own h T → ¬ act h T → ¬ has (act h) (y_thr s).
Proof.
  intros [_ Hu] Ht Ho Hn (t' & T' & Ht' & Ha). apply Hn.
  assert (own h T') as Ho' by (destruct T'; done). assert (t = t') as -> by by eapply Hu. congruence.
Qed.

(** C29. A revoke racing admissions, mints and other revokes.  Under every
    interleaving, once a revoke has returned, the registry no longer holds the
    token, no session is recorded under it, and every connection admitted under
    it is closed, or is one that another goroutine — an admission that had
    already superseded it, or a hook — has taken and is about to close. *)
Theorem revoke_race_safe rows reg s t h :
  (∀ n x, x ∈ default ∅ (reg !! n) → rows !! x = Some (n, true)) →
  rtc sys_step (sys_init rows reg) s → y_thr s !! t = Some (TRevoked h) →
  (∀ n, h ∉ reg_at n s) ∧
  (∀ k n, y_grants s !! k ≠ Some (h, n)) ∧
  (∀ k, y_under s !! k = Some h → k ∈ y_open s → ∃ t' T, t' ≠ t ∧ y_thr s !! t' = Some T ∧ closing k T).
Proof.
  intros Hr Hs Ht. destruct (steps_ok _ _ Hs (sys_init_ok _ _ Hr)) as [_ _ Hreg Hg Ho Hc].
  destruct (proj1 Ho t _ h Ht eq_refl) as [n0 Hrow].
  assert (¬ has (act h) (y_thr s)) as Hna
    by (apply (own_unique s t (TRevoked h)); [done|done|done|by intros []]).
  assert (∀ Q n, (∀ T, Q h n T → act h T) → ¬ covered Q s h n) as Hnc.
  { intros Q n HQ [E|[_ (t' & T' & Ht' & HT')]]; [congruence|]. apply Hna. exists t', T'. auto. }
  split_and!.
  - intros n Hin%Hreg. revert Hin. apply Hnc. intros T. destruct T; cbn; try done; destruct c; try done; by intros [? _].
  - intros k n Hk%Hg. revert Hk. by apply (Hnc (λ h _, act h)).
  - intros k Hu Hop. destruct (Hc k h Hu Hop) as [[n Hk]|(t' & T & Ht' & HT)].
    + exfalso. apply Hg in Hk. revert Hk. by apply (Hnc (λ h _, act h)).
    + exists t', T. split_and!; [|done..]. intros ->. rewrite Ht in Ht'. by injection Ht' as <-.
Qed.

(** One node, one token. *)
Definition race_rows : gmap string (string * bool) := {[ "h" := ("fw1", true) ]}.
Definition race_reg : gmap string (gset string) := {[ "fw1" := {[ "h" ]} ]}.
Definition race_init : Sys := sys_init race_rows race_reg.

Lemma race_sound n x : x ∈ default ∅ (race_reg !! n) → race_rows !! x = Some (n, true).
Proof.
  unfold race_reg, race_rows. destruct (decide (n = "fw1")) as [->|Hne].
  - rewrite lookup_singleton_eq. cbn. intros ->%elem_of_singleton. by rewrite lookup_singleton_eq.
  - rewrite lookup_singleton_ne by done. cbn. set_solver.
Qed.

(** A revoke on its own. *)
Definition lone1 : Sys := set_thr 0 (TRevoke "h") race_init.
Definition lone2 : Sys := set_thr 0 (TRefresh (Some "h") "fw1") (set_rows (<["h" := ("fw1", false)]> (y_rows lone1)) lone1).
Definition lone3 : Sys := set_thr 0 (THeld (Some "h") "fw1" (y_live "fw1" lone2)) (set_lock (Some 0%nat) lone2).
Definition lone4 : Sys := set_thr 0 (TPushed (Some "h") "fw1") (set_reg (<["fw1" := y_live "fw1" lone2]> (y_reg lone3)) lone3).
Definition lone5 : Sys := set_thr 0 (TClose "h") (set_lock None lone4).
Definition lone6 : Sys := set_thr 0 (TKill "h" (token_sessions "h" (y_grants lone5)))
  (set_grants (filter (λ kv, kv.2.1 ≠ "h") (y_grants lone5)) lone5).
Definition lone7 : Sys := set_thr 0 (TRevoked "h") lone6.

Lemma lone_reachable : rtc sys_step race_init lone7.
Proof.
  eapply rtc_l; [exact (y_starts 0 (TRevoke "h") race_init eq_refl I)|]. fold lone1.
  eapply rtc_l; [apply (y_revokes 0 "h" "fw1"); vm_compute; reflexivity|]. fold lone2.
  eapply rtc_l; [apply (y_reads 0 (Some "h") "fw1"); vm_compute; reflexivity|]. fold lone3.
  eapply rtc_l; [apply (y_pushes 0 (Some "h") "fw1" (y_live "fw1" lone2)); vm_compute; reflexivity|]. fold lone4.
  eapply rtc_l; [apply (y_refreshed 0 (Some "h")); right; exists "fw1"; vm_compute; reflexivity|]. fold lone5.
  eapply rtc_l; [apply (y_takes 0 "h"); vm_compute; reflexivity|]. fold lone6.
  eapply rtc_l; [apply (y_returns 0 "h"); vm_compute; reflexivity|]. apply rtc_refl.
Qed.

Lemma revoke_race_safe_witness :
  y_thr lone7 !! 0%nat = Some (TRevoked "h") ∧ (∀ n, "h" ∉ reg_at n lone7).
Proof.
  assert (y_thr lone7 !! 0%nat = Some (TRevoked "h")) as Ht by (vm_compute; reflexivity).
  split; [exact Ht|]. exact (proj1 (revoke_race_safe race_rows race_reg lone7 0 "h" race_sound lone_reachable Ht)).
Defined.

(** A second connection has superseded the first and not yet closed it when the
    revoke runs from start to end. *)
Definition first_k : session := ("s", 1%Z).
Definition second_k : session := ("s", 2%Z).

Ltac computes := match goal with |- ?P => apply (bool_decide_unpack P); vm_compute; exact I end.

(** When Revoke returns, a connection its token admitted may still be
    open: one that a newer admission superseded, is no longer recorded, and is
    closed only when that admission's goroutine gets to it. *)
Theorem connection_outlives_revoke :
  ∃ s t, rtc sys_step race_init s ∧ y_thr s !! t = Some (TRevoked "h") ∧
    y_under s !! first_k = Some "h" ∧ first_k ∈ y_open s.
Proof.
  eexists _, 2%nat. split.
  { eapply rtc_l; [apply (y_opens first_k); vm_compute; reflexivity|].
    eapply rtc_l; [apply (y_starts 0 (TAdmit first_k "h" "fw1")); [vm_compute; reflexivity|exact I]|].
    eapply rtc_l; [apply (y_admits 0 first_k "h" "fw1"); [vm_compute; reflexivity|computes|vm_compute; reflexivity]|].
    eapply rtc_l; [apply (y_opens second_k); vm_compute; reflexivity|].
    eapply rtc_l; [apply (y_starts 1 (TAdmit second_k "h" "fw1")); [vm_compute; reflexivity|exact I]|].
    eapply rtc_l; [apply (y_admits 1 second_k "h" "fw1"); [vm_compute; reflexivity|computes|vm_compute; reflexivity]|].
    eapply rtc_l; [apply (y_starts 2 (TRevoke "h")); [vm_compute; reflexivity|exact I]|].
    eapply rtc_l; [apply (y_revokes 2 "h" "fw1"); vm_compute; reflexivity|].
    eapply rtc_l; [apply (y_reads 2 (Some "h") "fw1"); vm_compute; reflexivity|].
    eapply rtc_l; [apply (y_pushes 2 (Some "h") "fw1" ∅); vm_compute; reflexivity|].
    eapply rtc_l; [apply (y_refreshed 2 (Some "h")); right; exists "fw1"; vm_compute; reflexivity|].
    eapply rtc_l; [apply (y_takes 2 "h"); vm_compute; reflexivity|].
    eapply rtc_l; [apply (y_kills 2 "h" second_k []); vm_compute; reflexivity|].
    eapply rtc_l; [apply (y_returns 2 "h"); vm_compute; reflexivity|]. apply rtc_refl. }
  split; [vm_compute; reflexivity|]. split; [vm_compute; reflexivity|]. computes.
Qed.
