(* ===== verification/BootVerify.v ===== *)
(** * Proof that a node restarted

    api/internal/bootverify/bootverify.go.  The loop of WaitForNewBoot runs on
    the list of its iterations: what the probe answered, whether the step's
    context was over when it did, and how the select at the end of the
    iteration went.  While the list has not decided, the function is still
    waiting. *)
From Stdlib Require Import Ascii String.
From S2P Require Import Prelude GoStrings.

#[local] Arguments String.eqb : simpl never.

Inductive Identity := Differs | Same | Unknown.
#[export] Instance Identity_eq_dec : EqDecision Identity.
Proof. solve_decision. Defined.

Definition Classify (prior current : string) : Identity :=
  if String.eqb prior EmptyString || String.eqb current EmptyString then Unknown
  else if String.eqb prior current then Same
  else Differs.

Definition ErrUnreadable : error := sentinel "ErrUnreadable" "the node's answer could not be read".
Definition ErrRestartUnverified : error := sentinel "ErrRestartUnverified" "restart not verified".
Definition DeadlineExceeded : error := sentinel "context.DeadlineExceeded" "context deadline exceeded".
Definition Canceled : error := sentinel "context.Canceled" "context canceled".
Definition ErrNoResponders : error := sentinel "nats.ErrNoResponders" "nats: no responders available for request".

(** ** The probes *)

(** A bus reply: the boot id of a readable answer, [None] for one that does not
    decode. *)
Abbreviation reply := (result (option string)).

Definition askPrecheck (precheck : reply) : result string :=
  match precheck with
  | Fail e => Fail e
  | Ok None => Fail ErrUnreadable
  | Ok (Some id) => Ok id
  end.

(** PrecheckProbe. *)
Definition PrecheckProbe (precheck : reply) : result string := askPrecheck precheck.

(** NodeProbe: the answer to diag.ping, then to update.precheck. *)
Definition NodeProbe (ping precheck : reply) : result string :=
  match ping with
  | Fail e => Fail e
  | Ok None => Fail ErrUnreadable
  | Ok (Some id) =>
      if negb (String.eqb id EmptyString) then Ok id
      else match askPrecheck precheck with
           | Ok id => Ok id
           | Fail e =>
               if errors_Is e "nats.ErrNoResponders" then Ok EmptyString
               else Fail (wrapf (err_text ErrUnreadable
                 +:+ ": diag.ping carried no boot id and update.precheck failed: " +:+ err_text e) ErrUnreadable)
           end
  end.

(** ** The wait *)
Record Poll := mkPoll {
  p_ask : result string;
  p_err : option error;    (* ctx.Err() when the probe returned *)
  p_done : option error    (* the select took ctx.Done(), with this ctx.Err() *)
}.

Definition PollCancelledByStep (ctxErr : option error) (ask : result string) : option error :=
  match ask, ctxErr with
  | Fail e, Some ce =>
      if errors_Is e "context.DeadlineExceeded" || errors_Is e "context.Canceled" then Some ce else None
  | _, _ => None
  end.

(** The three facts the wait keeps. *)
Record Facts := mkFacts { answeringPriorBoot : bool; everAnswered : bool; wentQuiet : bool }.
Definition no_facts : Facts := mkFacts false false false.

Definition deadlineVerdict (answers prior : string) (f : Facts) (ce : error) : Identity * option error :=
  let degraded := String.eqb prior EmptyString in
  if answeringPriorBoot f then
    (Same, Some (wrapf ("node never rebooted: still answering on boot " +:+ ShortFingerprint prior +:+ " after "
       +:+ err_text ce) ce))
  else if degraded && negb (wentQuiet f) then
    (Unknown, Some (wrapf ("node never rebooted: it answered " +:+ answers +:+ " throughout and never went quiet: "
       +:+ err_text ce) ce))
  else if everAnswered f then
    (Unknown, Some (wrapf ("node stopped answering and never came back — it rebooted or died and did not return: "
       +:+ err_text ce) ce))
  else (Unknown, Some (wrapf ("node never answered after the reboot was issued: " +:+ err_text ce) ce)).

(** One answer or failure: a decision, or the facts it leaves. *)
Definition observe (prior : string) (f : Facts) (ask : result string) : (Identity * option error) + Facts :=
  match ask with
  | Fail e =>
      if errors_Is e "ErrUnreadable" then inr f
      else inr (mkFacts false (everAnswered f) true)
  | Ok id =>
      let f := mkFacts (answeringPriorBoot f) true (wentQuiet f) in
      if String.eqb prior EmptyString then
        if negb (String.eqb id EmptyString) then inl (Unknown, None)
        else if wentQuiet f then inl (Unknown, None)
        else inr f
      else match Classify prior id with
           | Differs => inl (Differs, None)
           | Unknown => inl (Unknown, None)
           | Same => inr (mkFacts true true (wentQuiet f))
           end
  end.

Fixpoint wait_loop (answers prior : string) (polls : list Poll) (f : Facts) : option (Identity * option error) :=
  match polls with
  | [] => None
  | p :: polls =>
      match PollCancelledByStep (p_err p) (p_ask p) with
      | Some ce => Some (deadlineVerdict answers prior f ce)
      | None =>
          match observe prior f (p_ask p) with
          | inl r => Some r
          | inr f =>
              match p_done p with
              | Some ce => Some (deadlineVerdict answers prior f ce)
              | None => wait_loop answers prior polls f
              end
          end
      end
  end.
Definition WaitForNewBoot (answers prior : string) (polls : list Poll) : option (Identity * option error) :=
  wait_loop answers prior polls no_facts.

(** ** The verification of a restart *)
Record SystemRebootFailedEvt := mkRebootFailed { rf_Detail : string; rf_Definitive : bool }.
Definition reportDetail (ev : SystemRebootFailedEvt) : string :=
  if String.eqb (rf_Detail ev) EmptyString then "the agent gave no detail" else rf_Detail ev.

(** The reboot_failed handler over the events delivered: the first definitive
    one, and the latest detail of the others. *)
Definition on_report (acc : option SystemRebootFailedEvt * string) (ev : SystemRebootFailedEvt) :
    option SystemRebootFailedEvt * string :=
  if rf_Definitive ev then (match acc.1 with Some e => Some e | None => Some ev end, acc.2)
  else (acc.1, reportDetail ev).

Inductive Critical := Offline | OffBus.
Definition bootForMessage (id : string) : string :=
  if String.eqb id EmptyString then "(unknown)" else ShortFingerprint id.

Section Verify.
Context (rfc3339 : Z → string).

Definition criticalForMessage (ev : Critical * Z) : string :=
  let state := match ev.1 with
    | OffBus => "OFF BUS (critical: its heartbeat lapsed; the mesh still shows the machine)"
    | Offline => "OFFLINE (critical: its heartbeat lapsed and the mesh does not show the machine)"
    end in
  if negb (Z.eqb ev.2 0) then state +:+ ", last heard from at " +:+ rfc3339 ev.2 else state.

(** The subscriptions, in order, and the errors they return. *)
Fixpoint subscribe_all (sub : string → option error) (l : list string) : option error :=
  match l with
  | [] => None
  | s :: l => match sub s with
              | Some e => Some (wrapf ("subscribe " +:+ s +:+ ": " +:+ err_text e) e)
              | None => subscribe_all sub l
              end
  end.
Definition subjects (readCritical : bool) : list string :=
  ["registered"; "reboot_failed"] ++ (if readCritical then ["offline"; "off-bus"] else []).

(** [crit] are the critical transitions delivered; [failed_first] is the choice
    of a select on which both channels are ready. *)
Definition verifyRestart (nodeID prior : string) (readCritical : bool) (sub : string → option error)
    (reports : list SystemRebootFailedEvt) (crit : list (Critical * Z)) (failed_first : bool) (polls : list Poll) :
    option (Identity * option error) :=
  match subscribe_all sub (subjects readCritical) with
  | Some e => Some (Unknown, Some e)
  | None =>
      match WaitForNewBoot "pings" prior polls with
      | None => None
      | Some (verdict, werr) =>
          if bool_decide (werr = None) && bool_decide (verdict = Differs) then Some (verdict, None)
          else
            let '(failed, reported) := foldl on_report (None, EmptyString) reports in
            let critical := if readCritical then head crit else None in
            let on_failed ev := Some (Same, Some (wrapf (err_text ErrRestartUnverified +:+ ": " +:+ nodeID
              +:+ " reported that its reboot command failed with no shutdown under way, and it is still on boot "
              +:+ bootForMessage prior +:+ ": " +:+ reportDetail ev) ErrRestartUnverified)) in
            let on_critical ev := Some (verdict, Some (wrapf (err_text ErrRestartUnverified +:+ ": " +:+ nodeID +:+ " went "
              +:+ criticalForMessage ev +:+ " without answering on a boot other than " +:+ bootForMessage prior)
              ErrRestartUnverified)) in
            match failed, critical with
            | Some ev, None => on_failed ev
            | None, Some cv => on_critical cv
            | Some ev, Some cv => if failed_first then on_failed ev else on_critical cv
            | None, None =>
                match werr with
                | Some e =>
                    Some (verdict, Some (if String.eqb reported EmptyString then e
                      else wrapf (err_text e +:+ " (earlier, the node reported, without establishing that no shutdown was under way: "
                             +:+ reported +:+ ")") e))
                | None =>
                    Some (verdict, Some (wrapf (err_text ErrRestartUnverified +:+ ": " +:+ nodeID
                      +:+ (if String.eqb prior EmptyString
                           then " answered again, but it reported no boot identity before the command, so there is nothing to show it restarted"
                           else " was on boot " +:+ bootForMessage prior
                                +:+ " and answered again WITHOUT a boot identity, so there is nothing to show it restarted"))
                      ErrRestartUnverified))
                end
            end
      end
  end.
Definition VerifyRestart nodeID prior := verifyRestart nodeID prior false.
Definition VerifyReboot nodeID prior := verifyRestart nodeID prior true.
End Verify.

(** ** What a pass proves *)

Lemma Classify_spec prior id :
  (Classify prior id = Differs ↔ prior ≠ EmptyString ∧ id ≠ EmptyString ∧ id ≠ prior) ∧
  (Classify prior id = Same ↔ prior ≠ EmptyString ∧ id = prior) ∧
  (Classify prior id = Unknown ↔ prior = EmptyString ∨ id = EmptyString).
Proof.
  unfold Classify. destruct (String.eqb_spec prior EmptyString), (String.eqb_spec id EmptyString), (String.eqb_spec prior id);
    simpl; subst; naive_solver.
Qed.

(** A poll the step's bound neither cut off nor followed. *)
Definition undone (p : Poll) : Prop := PollCancelledByStep (p_err p) (p_ask p) = None ∧ p_done p = None.

(** With an identity to compare with, a poll decides exactly when it is
    answered by something else. *)
Lemma observe_prior prior f ask : prior ≠ EmptyString →
  match ask with
  | Ok id => if decide (id = prior) then observe prior f ask = inr (mkFacts true true (wentQuiet f))
             else ∃ v, observe prior f ask = inl (v, None) ∧ (v = Differs ↔ id ≠ EmptyString)
  | Fail e => ∃ f', observe prior f ask = inr f'
  end.
Proof.
  intros Hp. destruct ask as [id|e]; cbn [observe].
  - rewrite (proj2 (String.eqb_neq _ _) Hp). destruct (Classify_spec prior id) as (HD & HS & HU).
    case_decide as E; [subst; by rewrite (proj2 HS)|]. destruct (Classify prior id) eqn:Ec.
    + exists Differs. split; [done|]. split; [|done]. intros _. by apply HD.
    + by destruct (proj1 HS eq_refl).
    + exists Unknown. split; [done|]. destruct (proj1 HU eq_refl); [done|]. subst. split; [done|]. by intros [].
  - case_match; eauto.
Qed.

Lemma wait_pass answers prior polls f v :
  prior ≠ EmptyString → wait_loop answers prior polls f = Some (v, None) →
  ∃ p id, p ∈ polls ∧ p_ask p = Ok id ∧ id ≠ prior ∧ (v = Differs ↔ id ≠ EmptyString).
Proof.
  intros Hp. revert f. induction polls as [|p polls IH]; intros f; cbn [wait_loop]; [done|].
  assert (∀ f ce, deadlineVerdict answers prior f ce ≠ (v, None)) as Hd.
  { intros f0 ce. unfold deadlineVerdict. repeat case_match; congruence. }
  destruct (PollCancelledByStep _ _); [intros [= E]; by apply Hd in E|].
  pose proof (observe_prior prior f (p_ask p) Hp) as Ho. destruct (p_ask p) as [id|e] eqn:Ea.
  - destruct (decide (id = prior)) as [->|Hne].
    + rewrite Ho. destruct (p_done p); [intros [= E]; by apply Hd in E|]. intros (p' & id' & ? & ?)%IH.
      exists p', id'. split; [by constructor|done].
    + destruct Ho as (v' & -> & Hv). intros [= ->]. exists p, id. split_and!; [constructor|done..].
  - destruct Ho as [f' ->]. destruct (p_done p); [intros [= E]; by apply Hd in E|]. intros (p' & id' & ? & ?)%IH.
    exists p', id'. split; [by constructor|done].
Qed.

Lemma wait_finds answers prior polls f p id :
  prior ≠ EmptyString → Forall undone polls → p ∈ polls → p_ask p = Ok id → id ≠ prior →
  ∃ v, wait_loop answers prior polls f = Some (v, None).
Proof.
  intros Hp Hu Hin Ha Hne. revert f. induction Hu as [|q polls [Hc Hd] Hu IH]; intros f; [by apply elem_of_nil in Hin|].
  cbn [wait_loop]. rewrite Hc, Hd. pose proof (observe_prior prior f (p_ask q) Hp) as Ho.
  apply elem_of_cons in Hin as [->|Hin].
  - rewrite Ha in Ho. rewrite decide_False in Ho by done. destruct Ho as (v & Ho & _). rewrite Ha, Ho. eauto.
  - destruct (p_ask q) as [id'|e]; [destruct (decide (id' = prior))|].
    + rewrite Ho. by apply IH.
    + destruct Ho as (v & -> & _). eauto.
    + destruct Ho as [f' ->]. by apply IH.
Qed.

(** A node that answers truthfully: every boot has its identity, and an agent
    reports it or nothing, the same all through a boot. *)
Definition truthful (report : string → string) : Prop := ∀ b, report b = EmptyString ∨ report b = b.
Definition answered_by (report : string → string) (boots : list string) (polls : list Poll) : Prop :=
  Forall2 (λ b p, ∀ id, p_ask p = Ok id → id = report b) boots polls.

Lemma answered_lookup report boots polls p id :
  answered_by report boots polls → p ∈ polls → p_ask p = Ok id → ∃ b, (b, p) ∈ zip boots polls ∧ id = report b.
Proof.
  intros Hf. induction Hf as [|b q boots polls Hq Hf IH]; intros Hin Ha; [by apply elem_of_nil in Hin|].
  apply elem_of_cons in Hin as [->|Hin].
  - exists b. split; [constructor|by apply Hq].
  - destruct (IH Hin Ha) as (b' & ? & ?). exists b'. split; [by constructor|done].
Qed.

(** A pass is proof of a restart, and a restart that is seen passes.  Let
    the node report an identity on the boot it is told to leave.  If the wait
    passes, some poll was answered on another boot; the verdict is Differs
    exactly when that boot reports an identity.  Conversely, as long as the
    step's bound has not been reached, a poll answered from a boot that reports
    differently ends the wait with a pass. *)
Theorem new_boot_proof report boots polls answers b0 :
  truthful report → report b0 ≠ EmptyString → answered_by report boots polls →
  (∀ v, WaitForNewBoot answers (report b0) polls = Some (v, None) →
     ∃ b p, (b, p) ∈ zip boots polls ∧ is_ok (p_ask p) = true ∧ b ≠ b0 ∧ (v = Differs ↔ report b ≠ EmptyString)) ∧
  (Forall undone polls → ∀ b p, (b, p) ∈ zip boots polls → is_ok (p_ask p) = true → report b ≠ report b0 →
     ∃ v, WaitForNewBoot answers (report b0) polls = Some (v, None)).
Proof.
  intros Ht Hb0 Hans. split.
  - intros v (p & id & Hin & Ha & Hne & Hv)%wait_pass; [|done].
    destruct (answered_lookup _ _ _ p id Hans Hin Ha) as (b & Hz & ->). exists b, p. split_and!; [done|by rewrite Ha| |done].
    intros ->. done.
  - intros Hu b p Hz Hok Hne. destruct (p_ask p) as [id|e] eqn:Ha; [|done].
    apply (wait_finds answers (report b0) polls no_facts p id); [done|done| |done|].
    + by apply elem_of_zip_r in Hz.
    + assert (id = report b) as ->; [|done]. clear Hu. revert Hz. induction Hans as [|b' p' bs ps H1 H2 IH]; cbn.
      * by intros ?%elem_of_nil.
      * intros [[= -> ->]|?]%elem_of_cons; [by apply H1|by apply IH].
Qed.

Definition two_boots : list string := ["boot-a"; "boot-a"; "boot-b"].
Definition reboot_polls : list Poll :=
  [mkPoll (Ok "boot-a") None None; mkPoll (Fail ErrNoResponders) None None; mkPoll (Ok "boot-b") None None].

Lemma new_boot_proof_witness :
  WaitForNewBoot "pings" "boot-a" reboot_polls = Some (Differs, None) ∧
  ∃ b p, (b, p) ∈ zip two_boots reboot_polls ∧ is_ok (p_ask p) = true ∧ b ≠ "boot-a" ∧ (Differs = Differs ↔ b ≠ EmptyString).
Proof.
  assert (WaitForNewBoot "pings" "boot-a" reboot_polls = Some (Differs, None)) as H by reflexivity.
  split; [exact H|]. refine (proj1 (new_boot_proof (λ b, b) two_boots reboot_polls "pings" "boot-a" _ _ _) Differs H).
  - intros b. right. reflexivity.
  - discriminate.
  - repeat constructor; cbn; intros id E; congruence.
Defined.

(** ** What a deadline says *)

(** The facts, read off the answers in the order they came. *)
Definition unreadable (a : result string) : bool :=
  match a with Ok _ => false | Fail e => errors_Is e "ErrUnreadable" end.
Definition silent (a : result string) : bool :=
  match a with Ok _ => false | Fail e => negb (errors_Is e "ErrUnreadable") end.
Definition last_settled (seen : list (result string)) : option (result string) :=
  last (filter (λ a, unreadable a = false) seen).
Definition facts_of (seen : list (result string)) : Facts :=
  mkFacts (match last_settled seen with Some (Ok _) => true | _ => false end) (existsb is_ok seen) (existsb silent seen).

Lemma facts_snoc seen a prior :
  prior ≠ EmptyString → (∀ id, a = Ok id → id = prior) →
  observe prior (facts_of seen) a = inr (facts_of (seen ++ [a])).
Proof.
  intros Hp Ha. unfold facts_of, last_settled. rewrite filter_app, !existsb_app. destruct a as [id|e].
  - rewrite (Ha id eq_refl). pose proof (observe_prior prior (facts_of seen) (Ok prior) Hp) as H.
    cbv beta iota in H. rewrite decide_True in H by done. unfold facts_of, last_settled in H. rewrite H.
    rewrite (filter_cons_True _ (Ok prior)), filter_nil, last_snoc by done. cbn [wentQuiet existsb is_ok silent].
    cbn [orb]. by rewrite orb_true_r, orb_false_r.
  - cbn [observe]. destruct (errors_Is e "ErrUnreadable") eqn:E.
    + rewrite filter_cons_False, filter_nil, app_nil_r by (cbn; by rewrite E). cbn [existsb is_ok silent].
      rewrite E. cbn [negb orb]. by rewrite !orb_false_r.
    + rewrite (filter_cons_True _ (Fail e)), filter_nil, last_snoc by done. cbn [everAnswered existsb is_ok silent].
      rewrite E. cbn [negb orb]. by rewrite orb_true_r, orb_false_r.
Qed.

Lemma wait_deadline answers prior polls seen0 v e :
  prior ≠ EmptyString → Forall (λ a, ∀ id, a = Ok id → id = prior) seen0 →
  wait_loop answers prior polls (facts_of seen0) = Some (v, Some e) →
  ∃ seen ce, seen `prefix_of` seen0 ++ (p_ask <$> polls) ∧
    Forall (λ a, ∀ id, a = Ok id → id = prior) seen ∧ (v, Some e) = deadlineVerdict answers prior (facts_of seen) ce.
Proof.
  intros Hp. revert seen0. induction polls as [|p polls IH]; intros seen0 Hs; cbn [wait_loop]; [done|].
  destruct (PollCancelledByStep _ _) as [ce|].
  { intros [= E]. exists seen0, ce. split_and!; [by apply prefix_app_r|done|done]. }
  assert ((∀ id, p_ask p = Ok id → id = prior) ∨ (∃ v', observe prior (facts_of seen0) (p_ask p) = inl (v', None))) as [Hid|[v' ->]].
  { pose proof (observe_prior prior (facts_of seen0) (p_ask p) Hp) as H. destruct (p_ask p) as [id|e']; [|by left].
    destruct (decide (id = prior)) as [->|]; [left; by intros ? [= <-]|]. destruct H as (v' & ? & _). right. eauto. }
  2:{ done. }
  rewrite (facts_snoc seen0 (p_ask p) prior Hp Hid).
  assert (Forall (λ a, ∀ id, a = Ok id → id = prior) (seen0 ++ [p_ask p])) as Hs' by (apply Forall_app; by repeat constructor).
  assert (seen0 ++ (p_ask <$> (p :: polls)) = (seen0 ++ [p_ask p]) ++ (p_ask <$> polls)) as -> by by rewrite <- app_assoc.
  destruct (p_done p) as [ce|].
  - intros [= E]. exists (seen0 ++ [p_ask p]), ce. split_and!; [by apply prefix_app_r|done|done].
  - by apply IH.
Qed.

(** A deadline names what was last observed.  When the wait ends at the
    step's bound, no poll it completed was answered on another boot, and the
    verdict is Same exactly when the last answer or failure it could read was
    an answer, on the boot that was told to restart; a node that went silent
    after answering is never reported as still answering. *)
Theorem deadline_verdict_exact answers prior polls v e :
  prior ≠ EmptyString → WaitForNewBoot answers prior polls = Some (v, Some e) →
  ∃ seen ce, seen `prefix_of` (p_ask <$> polls) ∧ (∀ id, Ok id ∈ seen → id = prior) ∧
    v = (match last_settled seen with Some (Ok _) => Same | _ => Unknown end) ∧
    e = wrapf ((match last_settled seen with
      | Some (Ok _) => "node never rebooted: still answering on boot " +:+ ShortFingerprint prior +:+ " after "
      | _ => if existsb is_ok seen
             then "node stopped answering and never came back — it rebooted or died and did not return: "
             else "node never answered after the reboot was issued: "
      end) +:+ err_text ce) ce.
Proof.
  intros Hp H. change no_facts with (facts_of []) in H.
  apply (wait_deadline answers prior polls [] v e Hp) in H as (seen & ce & Hpre & Hs & E); [|constructor].
  exists seen, ce. split; [done|]. split.
  { intros id Hin. rewrite Forall_forall in Hs. by apply (Hs (Ok id)). }
  unfold deadlineVerdict in E. rewrite (proj2 (String.eqb_neq _ _) Hp) in E. cbn [andb facts_of answeringPriorBoot everAnswered] in E.
  destruct (last_settled seen) as [[id|e']|]; cbn in E.
  - injection E as -> ->. split; [done|]. by rewrite !app_assoc_s.
  - destruct (existsb is_ok seen); injection E as -> ->; by split.
  - destruct (existsb is_ok seen); injection E as -> ->; by split.
Qed.

Definition vanished_polls : list Poll :=
  [mkPoll (Ok "boot-a") None None; mkPoll (Fail ErrNoResponders) None None;
   mkPoll (Fail DeadlineExceeded) (Some DeadlineExceeded) None].

Lemma deadline_verdict_exact_witness :
  fst <$> WaitForNewBoot "pings" "boot-a" vanished_polls = Some Unknown ∧
  ∃ seen ce, seen `prefix_of` (p_ask <$> vanished_polls) ∧ (∀ id, Ok id ∈ seen → id = "boot-a") ∧
    Unknown = (match last_settled seen with Some (Ok _) => Same | _ => Unknown end) ∧
    wrapf ("node stopped answering and never came back — it rebooted or died and did not return: "
      +:+ err_text DeadlineExceeded) DeadlineExceeded
    = wrapf ((match last_settled seen with
      | Some (Ok _) => "node never rebooted: still answering on boot " +:+ ShortFingerprint "boot-a" +:+ " after "
      | _ => if existsb is_ok seen
             then "node stopped answering and never came back — it rebooted or died and did not return: "
             else "node never answered after the reboot was issued: "
      end) +:+ err_text ce) ce.
Proof.
  split; [vm_compute; reflexivity|].
  apply (deadline_verdict_exact "pings" "boot-a" vanished_polls Unknown); [discriminate|vm_compute; reflexivity].
Defined.

(** ** What a verified restart is *)
Lemma wait_differs answers prior polls f :
  wait_loop answers prior polls f = Some (Differs, None) →
  prior ≠ EmptyString ∧ ∃ p id, p ∈ polls ∧ p_ask p = Ok id ∧ id ≠ prior ∧ id ≠ EmptyString.
Proof.
  intros H. destruct (String.eqb_spec prior EmptyString) as [->|Hp].
  - exfalso. revert f H. induction polls as [|p polls IH]; intros f; cbn [wait_loop]; [done|].
    assert (∀ f ce, deadlineVerdict answers EmptyString f ce ≠ (Differs, None)) as Hd
      by (intros f0 ce; unfold deadlineVerdict; repeat case_match; congruence).
    destruct (PollCancelledByStep _ _); [intros [= E]; by apply Hd in E|].
    destruct (observe EmptyString f (p_ask p)) as [r|f'] eqn:Eo.
    + intros [= ->]. unfold observe in Eo. rewrite String.eqb_refl in Eo. repeat case_match; congruence.
    + destruct (p_done p); [intros [= E]; by apply Hd in E|]. apply IH.
  - split; [done|]. apply (wait_pass answers prior polls f Differs Hp) in H as (p & id & ? & ? & ? & Hv).
    exists p, id. split_and!; try done. by apply Hv.
Qed.

Lemma restart_verified_spec rfc3339 nodeID prior crit_read sub reports crit first polls v :
  verifyRestart rfc3339 nodeID prior crit_read sub reports crit first polls = Some (v, None) ↔
  v = Differs ∧ subscribe_all sub (subjects crit_read) = None ∧
  WaitForNewBoot "pings" prior polls = Some (Differs, None).
Proof.
  unfold verifyRestart. destruct (subscribe_all _ _) as [e|]; [naive_solver|].
  destruct (WaitForNewBoot "pings" prior polls) as [[w werr]|]; [|naive_solver].
  destruct (bool_decide_reflect (werr = None)) as [->|Hw], (bool_decide_reflect (w = Differs)) as [->|Hv]; cbn [andb];
    [naive_solver|..];
    (destruct (foldl _ _ reports) as [failed reported]; split; [|naive_solver]; intros H; exfalso;
     repeat case_match; congruence).
Qed.

(** Only a different boot identity verifies a restart.  Whatever events
    arrive and whichever is read first, verifyRestart returns without an error
    exactly when its subscriptions were made and the wait saw the node answer
    with an identity that is neither empty nor the one before; every other
    outcome is an error. *)
Theorem restart_verified_exact rfc3339 nodeID prior crit_read sub reports crit first polls v :
  (verifyRestart rfc3339 nodeID prior crit_read sub reports crit first polls = Some (v, None) ↔
   v = Differs ∧ subscribe_all sub (subjects crit_read) = None ∧
   WaitForNewBoot "pings" prior polls = Some (Differs, None)) ∧
  (WaitForNewBoot "pings" prior polls = Some (Differs, None) →
   prior ≠ EmptyString ∧ ∃ p id, p ∈ polls ∧ p_ask p = Ok id ∧ id ≠ prior ∧ id ≠ EmptyString).
Proof. split; [apply restart_verified_spec|apply wait_differs]. Qed.

(** ** The degraded wait *)

(** The degraded wait can pass on a node that never restarted.  With no
    identity before the command, an agent that reports none, and one poll lost
    to its own timeout in between — every answer coming from one and the same
    boot — the wait returns without an error; the verification of a plain
    restart refuses that pass. *)
Theorem degraded_pass_without_reboot :
  ∃ boots polls, answered_by (λ _, EmptyString) boots polls ∧ (∀ b, b ∈ boots → b = "boot-a") ∧
    Forall undone polls ∧
    WaitForNewBoot "prechecks" EmptyString polls = Some (Unknown, None) ∧
    ∀ rfc3339 n sub reports crit first v,
      verifyRestart rfc3339 n EmptyString false sub reports crit first polls ≠ Some (v, None).
Proof.
  exists ["boot-a"; "boot-a"; "boot-a"],
    [mkPoll (Ok EmptyString) None None; mkPoll (Fail DeadlineExceeded) None None; mkPoll (Ok EmptyString) None None].
  split_and!.
  - repeat constructor; cbn; congruence.
  - intros b Hb. repeat (apply elem_of_cons in Hb as [->|Hb]; [done|]). by apply elem_of_nil in Hb.
  - by repeat constructor.
  - done.
  - intros rfc3339 n sub reports crit first v (_ & _ & E)%restart_verified_spec. vm_compute in E. discriminate E.
Qed.

(** ** The probe *)

(** A node that answers is never taken for a silent one.  Whenever
    diag.ping gets a reply, NodeProbe answers with an identity, with none, or
    with an answer that cannot be read — never with a failure that counts as
    silence; and it reports none only when the ping carried none and
    update.precheck carried none or is answered by nobody. *)
Theorem node_probe_settled ping precheck :
  (∃ a, ping = Ok a) →
  silent (NodeProbe ping precheck) = false ∧
  (NodeProbe ping precheck = Ok EmptyString →
   ping = Ok (Some EmptyString) ∧
   (precheck = Ok (Some EmptyString) ∨ ∃ e, precheck = Fail e ∧ errors_Is e "nats.ErrNoResponders" = true)).
Proof.
  intros [a ->]. unfold NodeProbe. destruct a as [id|]; [|done].
  destruct (String.eqb_spec id EmptyString) as [->|Hid]; cbn [negb]; [|by split; [|intros [= ->]]].
  destruct precheck as [[id|]|e]; cbn [askPrecheck].
  - split; [done|]. intros [= ->]. eauto.
  - by split.
  - destruct (errors_Is e "nats.ErrNoResponders") eqn:E; [|by split].
    split; [done|]. intros _. split; [done|]. right. eauto.
Qed.

Lemma node_probe_settled_witness :
  silent (NodeProbe (Ok (Some EmptyString)) (Fail DeadlineExceeded)) = false ∧
  (NodeProbe (Ok (Some EmptyString)) (Fail DeadlineExceeded) = Ok EmptyString →
   Ok (Some EmptyString) = Ok (Some EmptyString) ∧
   (Fail DeadlineExceeded = Ok (Some EmptyString) ∨
    ∃ e, Fail DeadlineExceeded = Fail (A := option string) e ∧ errors_Is e "nats.ErrNoResponders" = true)).
Proof. apply (node_probe_settled (Ok (Some EmptyString)) (Fail DeadlineExceeded)). eexists. reflexivity. Defined.
