(* ===== verification/GoRunes.v ===== *)
(** * Go's rune-level string functions

    What [for _, r := range s], [strings.TrimSpace] and [strings.EqualFold]
    do on byte strings that need not be ASCII: the UTF-8 decoding of package
    unicode/utf8 (an invalid byte is one rune, U+FFFD) and the white space of
    [unicode.IsSpace]. *)
From Stdlib Require Import Ascii String.
From S2P Require Import Prelude GoStrings.
Open Scope string_scope.
Open Scope list_scope.
Open Scope nat_scope.
#[local] Arguments String.append : simpl nomatch.

Definition byte_in (lo hi : nat) (c : ascii) : bool :=
  Nat.leb lo (nat_of_ascii c) && Nat.leb (nat_of_ascii c) hi.
Definition continuation : ascii → bool := byte_in 128 191.

(** The bytes of [s] at an offset. *)
Definition byte_at (n : nat) (s : string) (p : ascii → bool) : bool :=
  match String.get n s with Some c => p c | None => false end.

(** [utf8.DecodeRuneInString(s)]'s width, for a non-empty [s]: the table of
    lead bytes and of the ranges their second byte may take. *)
Definition rune_width (s : string) : nat :=
  let lead := byte_at 0 s in
  let second p := byte_at 1 s p in
  let third := byte_at 2 s continuation in
  let fourth := byte_at 3 s continuation in
  if lead (byte_in 0 127) then 1
  else if lead (byte_in 194 223) && second continuation then 2
  else if lead (byte_in 224 224) && second (byte_in 160 191) && third then 3
  else if lead (byte_in 225 236) && second continuation && third then 3
  else if lead (byte_in 237 237) && second (byte_in 128 159) && third then 3
  else if lead (byte_in 238 239) && second continuation && third then 3
  else if lead (byte_in 240 240) && second (byte_in 144 191) && third && fourth then 4
  else if lead (byte_in 241 243) && second continuation && third && fourth then 4
  else if lead (byte_in 244 244) && second (byte_in 128 143) && third && fourth then 4
  else 1.

(** [for _, r := range s { out = append(out, f(r)) }] where [f] yields one
    ASCII character and treats every rune from 0x80 up alike: it is handed
    [None] for those.  [skip] counts the rest of the current rune's bytes. *)
Fixpoint map_runes (f : option ascii → ascii) (skip : nat) (s : string) : string :=
  match s with
  | EmptyString => EmptyString
  | String c s' =>
      match skip with
      | S k => map_runes f k s'
      | O => String (f (if byte_in 0 127 c then Some c else None))
                    (map_runes f (rune_width s - 1) s')
      end
  end.

(** The UTF-8 encodings of the runes [unicode.IsSpace] accepts. *)
Fixpoint bytes (l : list nat) : string :=
  match l with [] => EmptyString | n :: l => String (char n) (bytes l) end.
Definition spaces : list string :=
  bytes <$> ([[9]; [10]; [11]; [12]; [13]; [32]; [194; 133]; [194; 160]; [225; 154; 128]]
    ++ ((λ n, [226; 128; n]) <$> seq 128 11)
    ++ [[226; 128; 168]; [226; 128; 169]; [226; 128; 175]; [226; 129; 159]; [227; 128; 128]]).

(** The length of the space rune [s] starts with, 0 if it starts with none. *)
Definition space_width (s : string) : nat :=
  match filter (λ e, HasPrefix s e = true) spaces with
  | [] => 0
  | e :: _ => String.length e
  end.

Fixpoint skip_spaces (skip : nat) (s : string) : string :=
  match s with
  | EmptyString => EmptyString
  | String _ s' =>
      match skip with
      | S k => skip_spaces k s'
      | O => match space_width s with
             | O => s
             | S k => skip_spaces k s'
             end
      end
  end.

(** Nothing but space runes. *)
Definition all_space (s : string) : bool := String.eqb (skip_spaces 0 s) EmptyString.

Fixpoint trim_right (s : string) : string :=
  match s with
  | EmptyString => EmptyString
  | String c s' => if all_space s then EmptyString else String c (trim_right s')
  end.

(** [strings.TrimSpace].  No space encoding is a suffix of another or of a
    longer rune, so cutting the longest all-space suffix is what decoding
    from the end does. *)
Definition Trim (s : string) : string := trim_right (skip_spaces 0 s).

(** [strings.EqualFold] on ASCII strings, which is where it is used: hex
    digests. *)
Definition fold_byte (c : ascii) : ascii :=
  if byte_in 65 90 c then ascii_of_nat (nat_of_ascii c + 32) else c.
Fixpoint EqualFold (a b : string) : bool :=
  match a, b with
  | EmptyString, EmptyString => true
  | String c a, String d b => Ascii.eqb (fold_byte c) (fold_byte d) && EqualFold a b
  | _, _ => false
  end.

Example trim_nbsp : Trim (bytes [194; 160; 97; 32; 98; 227; 128; 128; 10]) = "a b".
Proof. vm_compute. reflexivity. Qed.
Example trim_partial : Trim (bytes [194; 97; 160]) = bytes [194; 97; 160].
Proof. vm_compute. reflexivity. Qed.

(** ** Laws *)

Lemma all_chars_map_runes (p : ascii → bool) f skip s :
  (∀ r, p (f r) = true) → all_chars p (map_runes f skip s) = true.
Proof.
  intros H. revert skip. induction s as [|c s IH]; intros [|k]; [done..| |apply IH].
  change (p (f (if byte_in 0 127 c then Some c else None)) &&
          all_chars p (map_runes f (rune_width (String c s) - 1) s) = true).
  by rewrite H, IH.
Qed.

Lemma map_runes_nonempty f c s : map_runes f 0 (String c s) ≠ EmptyString.
Proof. done. Qed.

Lemma EqualFold_refl a : EqualFold a a = true.
Proof. induction a as [|c a IH]; simpl; [done|]. by rewrite Ascii.eqb_refl. Qed.
