(* ===== verification/GoSort.v ===== *)
(** * [sort.SliceStable]

    Go documents the result and not the algorithm: the permutation of the
    slice that is ordered by [less] and keeps elements that are equal under
    it in their original order.  Insertion from the right computes it. *)
From Stdlib Require Import String.
From S2P Require Import Prelude GoStrings.
Open Scope list_scope.

Section stable.
Context {A : Type} (less : A → A → bool).

Fixpoint insert_stable (x : A) (l : list A) : list A :=
  match l with
  | [] => [x]
  | y :: l' => if less y x then y :: insert_stable x l' else x :: l
  end.
Definition SliceStable (l : list A) : list A := foldr insert_stable [] l.

Lemma insert_stable_perm x l : insert_stable x l ≡ₚ x :: l.
Proof.
  induction l as [|y l IH]; simpl; [done|]. destruct (less y x); [|done].
  rewrite IH. apply Permutation_swap.
Qed.

Lemma SliceStable_perm l : SliceStable l ≡ₚ l.
Proof. induction l as [|x l IH]; simpl; [done|]. by rewrite insert_stable_perm, IH. Qed.

(** Not less, the other way round. *)
Definition not_after (x y : A) : Prop := less y x = false.

Section order.
Context (asym : ∀ x y, less x y = true → less y x = false).
Context (trans : ∀ x y z, not_after x y → not_after y z → not_after x z).

Lemma insert_stable_sorted x l : StronglySorted not_after l → StronglySorted not_after (insert_stable x l).
Proof using asym trans.
  induction 1 as [|y l Hl IH Hy]; simpl; [repeat constructor|].
  destruct (less y x) eqn:E.
  - constructor; [done|]. rewrite insert_stable_perm. constructor; [by apply asym|done].
  - constructor; [by constructor|]. constructor; [done|].
    eapply Forall_impl; [exact Hy|]. intros z. by apply trans.
Qed.

Lemma SliceStable_sorted l : StronglySorted not_after (SliceStable l).
Proof using asym trans. induction l as [|x l IH]; simpl; [constructor|]. by apply insert_stable_sorted. Qed.

(** Sorting what is left of a slice leaves what is left of the sorted slice. *)
Lemma insert_stable_head x l : Forall (not_after x) l → insert_stable x l = x :: l.
Proof using. intros H. destruct l as [|y l]; [done|]. simpl. apply Forall_cons in H as [H _]. unfold not_after in H. by rewrite H. Qed.

Lemma insert_stable_keeps (P : A → Prop) `{!∀ x, Decision (P x)} x l : StronglySorted not_after l →
  filter P (insert_stable x l) = if decide (P x) then insert_stable x (filter P l) else filter P l.
Proof using trans.
  induction 1 as [|y l Hl IH Hy]; simpl; [rewrite filter_cons, filter_nil; by destruct (decide (P x))|].
  destruct (less y x) eqn:E.
  - rewrite !(filter_cons P y), IH. destruct (decide (P x)), (decide (P y)); try done. simpl. by rewrite E.
  - rewrite (filter_cons P x). destruct (decide (P x)); [|done]. rewrite insert_stable_head; [done|].
    rewrite Forall_forall in Hy. apply Forall_forall. intros z [_ [->|Hz]%elem_of_cons]%list_elem_of_filter; [done|].
    apply (trans _ y); [done|by apply Hy].
Qed.

Lemma SliceStable_filter (P : A → Prop) `{!∀ x, Decision (P x)} l : SliceStable (filter P l) = filter P (SliceStable l).
Proof using asym trans.
  induction l as [|x l IH]; [done|]. rewrite filter_cons. simpl. rewrite insert_stable_keeps by apply SliceStable_sorted.
  destruct (decide (P x)); simpl; by rewrite IH.
Qed.
End order.

(** Elements none of which is less than another keep their order. *)
Lemma insert_stable_filter (P : A → Prop) `{∀ x, Decision (P x)} x l :
  (∀ y, P y → P x → less y x = false) → filter P (insert_stable x l) = filter P (x :: l).
Proof.
  intros HP. induction l as [|y l IH]; simpl; [done|]. destruct (less y x) eqn:E; [|done].
  rewrite filter_cons, IH, !filter_cons. destruct (decide (P x)), (decide (P y)); try done.
  rewrite HP in E by done. done.
Qed.

Lemma SliceStable_stable (P : A → Prop) `{∀ x, Decision (P x)} l :
  (∀ x y, P x → P y → less x y = false) → filter P (SliceStable l) = filter P l.
Proof.
  intros HP. induction l as [|x l IH]; simpl; [done|].
  rewrite insert_stable_filter by auto. rewrite !filter_cons. by rewrite IH.
Qed.
End stable.

(** ** Three keys in turn, as the sources' comparison functions have it *)
Section keys.
Context {A : Type} (rank : A → Z) (major minor : A → string).

Definition less3 (x y : A) : bool :=
  if negb (rank x =? rank y)%Z then (rank x <? rank y)%Z
  else if negb (String.eqb (major x) (major y)) then String.ltb (major x) (major y)
  else String.ltb (minor x) (minor y).

Lemma ltb_false_le a b : String.ltb b a = false ↔ string_le a b.
Proof.
  rewrite string_le_compare. unfold String.ltb. rewrite (String.compare_antisym b a).
  by destruct (String.compare a b).
Qed.

Lemma ltb_asym a b : String.ltb a b = true → String.ltb b a = false.
Proof. unfold String.ltb. rewrite (String.compare_antisym b a). by destruct (String.compare a b). Qed.

Lemma less3_asym x y : less3 x y = true → less3 y x = false.
Proof using.
  unfold less3. rewrite (Z.eqb_sym (rank y)), (String.eqb_sym (major y)).
  destruct (Z.eqb_spec (rank x) (rank y)); cbn [negb]; [|rewrite Z.ltb_lt, Z.ltb_ge; lia].
  destruct (String.eqb (major x) (major y)); apply ltb_asym.
Qed.

(** The order in words: rank first, then the major name, then the minor. *)
Definition in_order (x y : A) : Prop :=
  (rank x < rank y)%Z ∨
  rank x = rank y ∧ (major x ≠ major y ∧ string_le (major x) (major y) ∨
                     major x = major y ∧ string_le (minor x) (minor y)).

Lemma not_after_less3 x y : not_after less3 x y ↔ in_order x y.
Proof using.
  unfold not_after, less3, in_order.
  destruct (Z.eqb_spec (rank y) (rank x)) as [Hr|Hr]; cbn [negb]; [|rewrite Z.ltb_ge; lia].
  destruct (String.eqb_spec (major y) (major x)) as [Hm|Hm]; cbn [negb]; rewrite ltb_false_le; naive_solver lia.
Qed.

Lemma less3_trans x y z : not_after less3 x y → not_after less3 y z → not_after less3 x z.
Proof using.
  rewrite !not_after_less3. unfold in_order.
  intros [H1|[E1 H1]] [H2|[E2 H2]]; [left; lia..|]. right. split; [congruence|].
  destruct H1 as [[N1 L1]|[M1 L1]], H2 as [[N2 L2]|[M2 L2]].
  - left. split; [|by transitivity (major y)]. intros E. apply N1. apply (anti_symm string_le); [done|by rewrite E].
  - left. by rewrite <- M2.
  - left. by rewrite M1.
  - right. split; [congruence|by transitivity (minor y)].
Qed.

Lemma SliceStable_in_order l : StronglySorted in_order (SliceStable less3 l).
Proof using.
  assert (StronglySorted (not_after less3) (SliceStable less3 l)) as H
    by (apply SliceStable_sorted; [apply less3_asym|apply less3_trans]).
  induction H as [|x l' _ IH Hx]; constructor; [done|].
  eapply Forall_impl; [exact Hx|]. intros y. apply not_after_less3.
Qed.
End keys.
