(* ===== verification/BackupMembers.v ===== *)
(** * Names of backup members

    proto/backup.go: the shape test of a staging name and of a generation id,
    the path one app volume's sealed member gets inside a generation
    directory, and the shape test the ingest endpoint holds that path to. *)
From Stdlib Require Import Ascii String.
From S2P Require Import Prelude GoStrings GoRunes GoPath.
Open Scope string_scope.
Open Scope list_scope.
Open Scope nat_scope.
#[local] Arguments String.append : simpl nomatch.

Definition alnum (c : ascii) : bool := byte_in 97 122 c || byte_in 65 90 c || byte_in 48 57 c.
Definition name_char (c : ascii) : bool :=
  alnum c || Ascii.eqb c "-"%char || Ascii.eqb c "_"%char || Ascii.eqb c "."%char.

(** A rune outside [name_char] ends the loop, and every byte of a rune above
    0x7F is outside it, so the test is one on bytes. *)
Definition BackupValidStagingName (s : string) : bool :=
  if String.eqb s EmptyString || Nat.ltb 128 (String.length s) then false
  else if String.eqb s "." || String.eqb s ".." || HasPrefix s "." then false
  else if negb (without slash s) || negb (without (char 92) s) then false
  else all_chars name_char s.

Definition BackupValidGenerationID (s : string) : bool := BackupValidStagingName s.

Definition BackupPartialDirPrefix : string := ".partial-".
Definition BackupPartialDirName (generationID : string) : string := BackupPartialDirPrefix +:+ generationID.
Definition BackupVolumesDir : string := "volumes".
Definition BackupMemberSuffix : string := ".rasputin-archive".

(** [strings.TrimLeft(s, ".")] *)
Fixpoint TrimLeft_dots (s : string) : string :=
  match s with
  | String c s' => if Ascii.eqb c "."%char then TrimLeft_dots s' else s
  | EmptyString => EmptyString
  end.

(** [strings.ReplaceAll(s, "..", "_")]: left to right, without overlap. *)
Fixpoint ReplaceAll_dots (s : string) : string :=
  match s with
  | EmptyString => EmptyString
  | String c s' =>
      if Ascii.eqb c "."%char then
        match s' with
        | String d s'' => if Ascii.eqb d "."%char then String "_"%char (ReplaceAll_dots s'')
                          else String c (ReplaceAll_dots s')
        | EmptyString => String c EmptyString
        end
      else String c (ReplaceAll_dots s')
  end.

(** [for strings.Contains(res, "..") { res = ReplaceAll(res, "..", "_") }].
    A pass that replaces something shortens the string, so the length of the
    string bounds the number of passes. *)
Fixpoint collapse (fuel : nat) (res : string) : string :=
  match fuel with
  | O => res
  | S fuel => if Contains res ".." then collapse fuel (ReplaceAll_dots res) else res
  end.

(** The body of the rune loop. *)
Definition member_rune (r : option ascii) : ascii :=
  match r with
  | Some c => if name_char c then c else "_"%char
  | None => "_"%char
  end.

Definition backupMemberSegment (s : string) : string :=
  let out := map_runes member_rune 0 (Trim s) in
  let res := TrimLeft_dots out in
  let res := collapse (String.length res) res in
  if String.eqb res EmptyString then "unnamed" else res.

Definition BackupMemberPath (appName volume : string) : string :=
  BackupVolumesDir +:+ "/" +:+ backupMemberSegment appName +:+ "/" +:+ backupMemberSegment volume +:+ BackupMemberSuffix.

Definition BackupValidMemberPath (p : string) : bool :=
  match Split slash p with
  | [d; app; file] =>
      if negb (String.eqb d BackupVolumesDir) then false
      else if negb (BackupValidStagingName app) || negb (BackupValidStagingName file) then false
      else if HasSuffix file BackupMemberSuffix then
        let stem := TrimSuffix file BackupMemberSuffix in
        negb (String.eqb stem EmptyString) && negb (HasPrefix stem ".")
      else false
  | _ => false
  end.

(** ** The reduction *)

Lemma name_char_member_rune r : name_char (member_rune r) = true.
Proof. destruct r as [c|]; simpl; [|done]. by destruct (name_char c) eqn:E. Qed.

Lemma all_chars_TrimLeft_dots p s : all_chars p s = true → all_chars p (TrimLeft_dots s) = true.
Proof.
  induction s as [|c s IH]; simpl; [done|]. intros H. apply andb_true_iff in H as [H1 H2].
  destruct (Ascii.eqb c _); [by apply IH|]. simpl. by rewrite H1.
Qed.

Lemma TrimLeft_dots_head s : HasPrefix (TrimLeft_dots s) "." = false.
Proof.
  induction s as [|c s IH]; [done|]. cbn [TrimLeft_dots]. destruct (Ascii.eqb c _) eqn:E; [done|].
  cbn [HasPrefix]. by rewrite (Ascii.eqb_sym _ c), E.
Qed.

(** Two characters at a time. *)
Lemma string_ind2 (P : string → Prop) :
  P EmptyString → (∀ c, P (String c EmptyString)) →
  (∀ c d s, P s → P (String d s) → P (String c (String d s))) → ∀ s, P s.
Proof.
  intros H0 H1 H2. assert (∀ s, P s ∧ ∀ c, P (String c s)) as H; [|intros s; apply H].
  induction s as [|d s [IH1 IH2]]; split; auto.
Qed.

Lemma all_chars_ReplaceAll p s : p "_"%char = true → all_chars p s = true → all_chars p (ReplaceAll_dots s) = true.
Proof.
  intros Hu. induction s as [|c|c d s IH1 IH2] using string_ind2; [done| |].
  - simpl. by destruct (Ascii.eqb c _).
  - cbn [ReplaceAll_dots all_chars] in *. intros H. apply andb_true_iff in H as [Hc H].
    apply andb_true_iff in H as [Hd H].
    destruct (Ascii.eqb c _); [destruct (Ascii.eqb d _) eqn:E|].
    + cbn [all_chars]. by rewrite Hu, IH1.
    + cbn [all_chars]. rewrite Hc. cbn [andb]. apply IH2. by rewrite Hd, H.
    + cbn [all_chars]. rewrite Hc. cbn [andb]. apply IH2. by rewrite Hd, H.
Qed.

Lemma ReplaceAll_head s : HasPrefix s "." = false → HasPrefix (ReplaceAll_dots s) "." = false.
Proof.
  destruct s as [|c s]; [done|]. cbn [HasPrefix ReplaceAll_dots]. rewrite (Ascii.eqb_sym c).
  destruct (Ascii.eqb "." c) eqn:E; [by destruct s|]. cbn [HasPrefix]. by rewrite E.
Qed.

Lemma Contains_dots_cons c s :
  Contains (String c s) ".." = (Ascii.eqb "." c && HasPrefix s ".") || Contains s "..".
Proof. cbn [Contains HasPrefix]. by rewrite ?andb_true_r. Qed.

(** One pass leaves no two adjacent dots: the loop runs at most once. *)
Lemma ReplaceAll_no_dots s : Contains (ReplaceAll_dots s) ".." = false.
Proof.
  induction s as [|c|c d s IH1 IH2] using string_ind2; [done| |].
  - simpl. destruct (Ascii.eqb c _) eqn:E; simpl; by rewrite ?andb_false_r.
  - change (ReplaceAll_dots (String c (String d s))) with
      (if Ascii.eqb c "." then if Ascii.eqb d "." then String "_" (ReplaceAll_dots s)
                               else String c (ReplaceAll_dots (String d s))
       else String c (ReplaceAll_dots (String d s))).
    destruct (Ascii.eqb c _) eqn:Ec; [destruct (Ascii.eqb d _) eqn:Ed|]; rewrite Contains_dots_cons.
    + by rewrite IH1.
    + rewrite IH2, ReplaceAll_head, andb_false_r; [done|]. cbn [HasPrefix]. by rewrite (Ascii.eqb_sym _ d), Ed.
    + by rewrite IH2, (Ascii.eqb_sym _ c), Ec.
Qed.

Lemma collapse_once fuel s :
  collapse (S fuel) s = if Contains s ".." then ReplaceAll_dots s else s.
Proof.
  cbn [collapse]. destruct (Contains s ".."); [|done]. destruct fuel as [|fuel]; [done|].
  cbn [collapse]. by rewrite ReplaceAll_no_dots.
Qed.

(** What a segment is: name characters, no leading dot, no two dots in a
    row, never empty. *)
Definition segment_ok (s : string) : Prop :=
  s ≠ EmptyString ∧ all_chars name_char s = true ∧ HasPrefix s "." = false ∧ Contains s ".." = false.

Lemma backupMemberSegment_ok s : segment_ok (backupMemberSegment s).
Proof.
  unfold backupMemberSegment. set (res := TrimLeft_dots _).
  assert (all_chars name_char res = true) as Hc.
  { apply all_chars_TrimLeft_dots, all_chars_map_runes, name_char_member_rune. }
  assert (HasPrefix res "." = false) as Hd by apply TrimLeft_dots_head.
  destruct res as [|c r]; [done|]. change (String.length (String c r)) with (S (String.length r)).
  rewrite collapse_once. set (s' := if Contains _ _ then _ else _).
  assert (all_chars name_char s' = true ∧ HasPrefix s' "." = false ∧ Contains s' ".." = false) as (H1 & H2 & H3).
  { subst s'. destruct (Contains (String c r) "..") eqn:E; [|done].
    split; [by apply all_chars_ReplaceAll|]. split; [by apply ReplaceAll_head|apply ReplaceAll_no_dots]. }
  clearbody s'. destruct (String.eqb_spec s' EmptyString) as [->|Hne]; [by vm_compute|].
  by repeat split.
Qed.

(** ** The endpoint's shape test *)

Lemma name_char_not c s : name_char c = false → all_chars name_char s = true → without c s = true.
Proof.
  intros Hc. unfold without. apply all_chars_impl. intros d Hd.
  destruct (Ascii.eqb_spec d c) as [->|]; [congruence|done].
Qed.

Lemma HasPrefix_app s r p : HasPrefix s p = true → HasPrefix (s +:+ r) p = true.
Proof. rewrite !HasPrefix_spec. intros [q ->]. exists (q +:+ r). apply app_assoc_s. Qed.

Lemma HasPrefix_dot_app s r : s ≠ EmptyString → HasPrefix (s +:+ r) "." = HasPrefix s ".".
Proof. by destruct s. Qed.

(** Of a name with the right characters, only the length is in question. *)
Lemma staging_name_segment s :
  s ≠ EmptyString → all_chars name_char s = true → HasPrefix s "." = false →
  BackupValidStagingName s = Nat.leb (String.length s) 128.
Proof.
  intros Hne Hc Hd. unfold BackupValidStagingName.
  rewrite (proj2 (String.eqb_neq _ _) Hne), Hd, Hc, !(name_char_not _ s) by done.
  assert (String.eqb s "." = false ∧ String.eqb s ".." = false) as [-> ->].
  { split; apply String.eqb_neq; intros ->; done. }
  rewrite Nat.leb_antisym. by destruct (Nat.ltb 128 (String.length s)).
Qed.

Lemma TrimSuffix_app s p : TrimSuffix (s +:+ p) p = s ∧ HasSuffix (s +:+ p) p = true.
Proof.
  assert (HasSuffix (s +:+ p) p = true) as H.
  { unfold HasSuffix. rewrite length_app_s, Nat.add_sub, drop_str_app, String.eqb_refl.
    by rewrite (proj2 (Nat.leb_le _ _)) by lia. }
  split; [|done]. unfold TrimSuffix. by rewrite H, length_app_s, Nat.add_sub, take_str_app.
Qed.

Lemma member_path_split a v :
  Split slash (BackupMemberPath a v) =
    [BackupVolumesDir; backupMemberSegment a; backupMemberSegment v +:+ BackupMemberSuffix].
Proof.
  destruct (backupMemberSegment_ok a) as (_ & Ha & _). destruct (backupMemberSegment_ok v) as (_ & Hv & _).
  unfold BackupMemberPath. change ("/" +:+ ?x) with (String slash x).
  rewrite Split_app by done. f_equal. change ("/" +:+ ?x) with (String slash x).
  rewrite Split_app by (by apply name_char_not). f_equal.
  apply Split_plain, name_char_not; [done|]. by rewrite all_chars_app, Hv.
Qed.

Lemma minted_member_valid a v :
  BackupValidMemberPath (BackupMemberPath a v) =
    Nat.leb (String.length (backupMemberSegment a)) 128 &&
    Nat.leb (String.length (backupMemberSegment v) + 17) 128.
Proof.
  unfold BackupValidMemberPath. rewrite member_path_split.
  destruct (backupMemberSegment_ok a) as (Ha1 & Ha2 & Ha3 & _).
  destruct (backupMemberSegment_ok v) as (Hv1 & Hv2 & Hv3 & _).
  set (sv := backupMemberSegment v) in *. destruct (TrimSuffix_app sv BackupMemberSuffix) as [-> ->].
  rewrite (proj2 (String.eqb_neq sv _) Hv1), Hv3. cbn [negb String.eqb].
  rewrite (staging_name_segment (backupMemberSegment a)) by done.
  rewrite (staging_name_segment (sv +:+ BackupMemberSuffix)).
  - rewrite length_app_s. change (String.length BackupMemberSuffix) with 17.
    change (String.eqb BackupVolumesDir BackupVolumesDir) with true. cbn [negb].
    by destruct (Nat.leb _ 128), (Nat.leb _ 128).
  - by destruct sv.
  - by rewrite all_chars_app, Hv2.
  - by rewrite HasPrefix_dot_app.
Qed.

Lemma staging_name_proper s : BackupValidStagingName s = true → proper s ∧ s ≠ "..".
Proof.
  unfold BackupValidStagingName, proper. intros H.
  destruct (String.eqb_spec s EmptyString); [done|]. destruct (Nat.ltb _ _); [done|].
  destruct (String.eqb_spec s "."); [done|]. destruct (String.eqb_spec s ".."); [done|].
  destruct (HasPrefix s "."); [done|]. destruct (without slash s); done.
Qed.

(** What the test accepts is three plain names. *)
Lemma valid_member_names p : BackupValidMemberPath p = true →
  ∃ app file, names p = [BackupVolumesDir; app; file] ∧ no_up (names p) ∧
              Split slash p = [BackupVolumesDir; app; file] ∧
              BackupValidStagingName app = true ∧ BackupValidStagingName file = true.
Proof.
  unfold BackupValidMemberPath, names. destruct (Split slash p) as [|d [|app [|file [|]]]]; try done.
  destruct (String.eqb_spec d BackupVolumesDir) as [->|]; [|done]. cbn [negb].
  destruct (BackupValidStagingName app) eqn:Ha; [|done]. destruct (BackupValidStagingName file) eqn:Hf; [|done].
  intros _. exists app, file.
  destruct (staging_name_proper app Ha) as [(A1 & A2 & A3) A4].
  destruct (staging_name_proper file Hf) as [(F1 & F2 & F3) F4].
  rewrite !filter_cons, filter_nil. repeat (rewrite decide_True by (split; done) || rewrite decide_True by done).
  repeat split; try done. repeat constructor; done.
Qed.

Lemma components_below dir p : dir ≠ EmptyString → no_up (names p) →
  components (dir +:+ "/" +:+ p) = components dir ++ names p.
Proof.
  intros Hd Hp. unfold components. rewrite names_join, resolve_app_names by done.
  f_equal. by destruct dir.
Qed.

(** The name the control plane mints for a volume's member and the shape
    the ingest endpoint accepts agree, whatever the app and the volume are
    called, exactly up to the endpoint's limit of 128 bytes on a file name;
    and a path the endpoint accepts stays inside the directory it is joined
    to, three names below it: the lexical resolution of the joined path is the
    directory's own followed by [volumes], one name and one file name. *)
Theorem member_path_exact :
  (∀ appName volume,
     BackupValidMemberPath (BackupMemberPath appName volume) = true ↔
       String.length (backupMemberSegment appName) ≤ 128 ∧
       String.length (backupMemberSegment volume) ≤ 111) ∧
  (∀ dir p, BackupValidMemberPath p = true → dir ≠ EmptyString →
     ∃ app file, components (dir +:+ "/" +:+ p) = components dir ++ [BackupVolumesDir; app; file] ∧
       BackupValidStagingName app = true ∧ BackupValidStagingName file = true).
Proof.
  split.
  - intros a v. rewrite minted_member_valid, andb_true_iff, !Nat.leb_le. lia.
  - intros dir p Hp Hd. destruct (valid_member_names p Hp) as (app & file & Hn & Hu & _ & Ha & Hf).
    exists app, file. rewrite components_below by done. by rewrite Hn.
Qed.

(** The reduction is not injective: two volumes of one app, with distinct
    names compose accepts, share a member. *)
Lemma members_may_collide :
  ∃ v1 v2, Trim v1 ≠ Trim v2 ∧ all_chars name_char v1 = true ∧ all_chars name_char v2 = true ∧
    BackupMemberPath "app" v1 = BackupMemberPath "app" v2.
Proof. exists "a..b", "a_b". by vm_compute. Qed.

(** A name the endpoint refuses although it was minted: 112 bytes. *)
Example minted_too_long :
  BackupValidMemberPath (BackupMemberPath "app" (repeat_char "d"%char 112)) = false.
Proof. vm_compute. reflexivity. Qed.
