(* ===== verification/BackupPlan.v ===== *)
(** * The backup plan of the app volumes

    api/internal/storage/fanout_plan.go: the join of the installed apps with
    the catalog's tiles into the volumes a run will stage, in order, and the
    records of those it will not.  The text operators read is the source's. *)
From Stdlib Require Import Ascii String.
From S2P Require Import Prelude GoStrings GoRunes GoSort BackupMembers.
Open Scope string_scope.
Open Scope list_scope.
Open Scope Z_scope.

(** ** Data *)

(** apps.App: the fields the plan reads. *)
Record App := mkApp { app_ID : string; app_Name : string; app_TargetNode : string; app_SourceTile : string }.

(** tileschema.Volume and the field of tileschema.Tile the plan reads. *)
Record Volume := mkVolume { v_Name : string; v_Backup : string; v_Quiesce : string }.
Record Tile := mkTile { t_Volumes : list Volume }.

Definition BackupCritical : string := "critical".
Definition BackupState : string := "state".
Definition BackupCache : string := "cache".
Definition BackupBulk : string := "bulk".
Definition BackupClasses : list string := [BackupCritical; BackupState; BackupCache; BackupBulk].

(** The interface TileVolumes: the catalog in effect. *)
Record TileVolumes := mkTileVolumes { tv_Get : string → option Tile; tv_Source : string }.

Record PlannedVolume := mkPlanned {
  pv_AppID : string; pv_AppName : string; pv_TileID : string; pv_NodeID : string;
  pv_Volume : string; pv_Class : string; pv_Quiesce : string }.

Definition volume_Member (p : PlannedVolume) : string := BackupMemberPath (pv_AppName p) (pv_Volume p).

Record VolumeRecord := mkRecord {
  r_App : string; r_AppID : string; r_TileID : string; r_Node : string;
  r_Volume : string; r_Class : string; r_Strategy : string;
  r_Captured : bool; r_Failed : bool; r_Reason : string;
  r_Member : string; r_SealedBy : string; r_KeyID : string;
  r_SealedSHA256 : string; r_SealedSizeBytes : Z;
  r_SizeBytes : Z; r_PlaintextBytes : Z; r_FileCount : Z; r_SHA256 : string;
  r_Consistency : string; r_Window : string;
  r_ServiceInterrupting : bool; r_DowntimeMillis : Z;
  r_AppRestored : bool; r_RestoreDetail : string;
  r_Databases : list string; r_SnapshotTool : string }.

Definition notCaptured (v : PlannedVolume) (reason : string) : VolumeRecord :=
  {| r_App := pv_AppName v; r_AppID := pv_AppID v; r_TileID := pv_TileID v; r_Node := pv_NodeID v;
     r_Volume := pv_Volume v; r_Class := pv_Class v; r_Strategy := pv_Quiesce v;
     r_Captured := false; r_Failed := false; r_Reason := reason;
     r_Member := EmptyString; r_SealedBy := EmptyString; r_KeyID := EmptyString;
     r_SealedSHA256 := EmptyString; r_SealedSizeBytes := 0;
     r_SizeBytes := 0; r_PlaintextBytes := 0; r_FileCount := 0; r_SHA256 := EmptyString;
     r_Consistency := EmptyString; r_Window := EmptyString;
     r_ServiceInterrupting := false; r_DowntimeMillis := 0;
     r_AppRestored := true; r_RestoreDetail := EmptyString;
     r_Databases := []; r_SnapshotTool := EmptyString |}.

Definition set_Failed (b : bool) (r : VolumeRecord) : VolumeRecord :=
  {| r_App := r_App r; r_AppID := r_AppID r; r_TileID := r_TileID r; r_Node := r_Node r;
     r_Volume := r_Volume r; r_Class := r_Class r; r_Strategy := r_Strategy r;
     r_Captured := r_Captured r; r_Failed := b; r_Reason := r_Reason r;
     r_Member := r_Member r; r_SealedBy := r_SealedBy r; r_KeyID := r_KeyID r;
     r_SealedSHA256 := r_SealedSHA256 r; r_SealedSizeBytes := r_SealedSizeBytes r;
     r_SizeBytes := r_SizeBytes r; r_PlaintextBytes := r_PlaintextBytes r; r_FileCount := r_FileCount r; r_SHA256 := r_SHA256 r;
     r_Consistency := r_Consistency r; r_Window := r_Window r;
     r_ServiceInterrupting := r_ServiceInterrupting r; r_DowntimeMillis := r_DowntimeMillis r;
     r_AppRestored := r_AppRestored r; r_RestoreDetail := r_RestoreDetail r;
     r_Databases := r_Databases r; r_SnapshotTool := r_SnapshotTool r |}.

Definition failedVolume (v : PlannedVolume) (reason : string) : VolumeRecord :=
  set_Failed true (notCaptured v reason).

Record AppEnumeration := mkEnumeration { AppsInstalled : Z; AppsResolved : Z; Catalog : string }.

Record AppVolumePlan := mkPlan {
  Stage : list PlannedVolume; Skipped : list VolumeRecord; plan_Enumeration : AppEnumeration }.

(** ** Reasons *)

Definition ReasonBulkStreamsDirect : string :=
  "classed `bulk`: §4.7 streams bulk volumes direct rather than staging them, and the direct-stream lane " +:+
  "is not built — this transport carries staged, sealed `critical`/`state` volumes only. The agent's staging verb refuses a bulk volume by design".
Definition ReasonUnclassified : string :=
  "installed from a custom compose file rather than a catalog tile, so no tile declares its volumes or " +:+
  "their backup class (§4.2). Nothing knows which of this app's volumes hold data worth keeping".
Definition ReasonTileWithdrawn : string :=
  "was installed from a catalog tile this build no longer ships, so its volumes have no classification to act on".
Definition ReasonTileDeclaresNoVolumes (tile catalog tile' : string) : string :=
  "was installed from catalog tile `" +:+ tile +:+ "`, and that tile as this cluster holds it (catalog " +:+ catalog +:+ ") declares no volumes. " +:+
  "An absent `volumes` array is what every tile published before §4.2's classification looks like — it is not a promise that the app has no data — " +:+
  "so nothing knows which of this app's volumes hold data worth keeping, and none was captured. " +:+
  "A catalog whose `" +:+ tile' +:+ "` tile classifies its volumes is needed: Apps → Catalog → CHECK NOW fetches the newest".
Definition reason_no_node : string := "the app is not deployed to any node, so no agent can stage its volume".
Definition reason_unknown_class (class : string) : string :=
  "declares backup class " +:+ quote class +:+ ", which is not one of " +:+ Join BackupClasses "|" +:+
  ". Nothing knows whether this volume holds data worth keeping".

(** ** The plan *)

Definition classRank (class : string) : Z :=
  if String.eqb class BackupCritical then 0
  else if String.eqb class BackupState then 1
  else if String.eqb class BackupBulk then 2
  else if String.eqb class BackupCache then 3
  else 4.

(** The two slices the loop appends to and the enumeration it counts in. *)
Record PlanState := mkPlanState {
  ps_stage : list PlannedVolume; ps_skipped : list VolumeRecord; ps_enum : AppEnumeration }.

Definition add_stage (p : PlannedVolume) (s : PlanState) : PlanState :=
  mkPlanState (ps_stage s ++ [p]) (ps_skipped s) (ps_enum s).
Definition add_skipped (r : VolumeRecord) (s : PlanState) : PlanState :=
  mkPlanState (ps_stage s) (ps_skipped s ++ [r]) (ps_enum s).

(** The body of the loop over a tile's volumes. *)
Definition plan_volume (a : App) (tileID : string) (s : PlanState) (v : Volume) : PlanState :=
  let pv := mkPlanned (app_ID a) (app_Name a) tileID (app_TargetNode a) (Trim (v_Name v)) (v_Backup v) (v_Quiesce v) in
  if String.eqb (v_Backup v) BackupCache then s
  else if String.eqb (v_Backup v) BackupBulk then add_skipped (notCaptured pv ReasonBulkStreamsDirect) s
  else if String.eqb (v_Backup v) BackupCritical || String.eqb (v_Backup v) BackupState then
    if String.eqb (Trim (pv_NodeID pv)) EmptyString then add_skipped (failedVolume pv reason_no_node) s
    else add_stage pv s
  else add_skipped (notCaptured pv (reason_unknown_class (v_Backup v))) s.

(** A record for a whole app: no list of volume names to record. *)
Definition unresolved (a : App) (tileID placeholder : string) : PlannedVolume :=
  mkPlanned (app_ID a) (app_Name a) tileID (app_TargetNode a) placeholder "unclassified" EmptyString.

(** The body of the loop over the installed apps. *)
Definition plan_app (tiles : TileVolumes) (s : PlanState) (oa : option App) : PlanState :=
  match oa with
  | None => s
  | Some a =>
      let e := ps_enum s in
      let s := mkPlanState (ps_stage s) (ps_skipped s) (mkEnumeration (AppsInstalled e + 1) (AppsResolved e) (Catalog e)) in
      let tileID := Trim (app_SourceTile a) in
      if String.eqb tileID EmptyString then
        add_skipped (notCaptured (unresolved a EmptyString "(unknown — no tile)") ReasonUnclassified) s
      else
        match tv_Get tiles tileID with
        | None => add_skipped (notCaptured (unresolved a tileID "(unknown — tile withdrawn)") ReasonTileWithdrawn) s
        | Some tile =>
            match t_Volumes tile with
            | [] => add_skipped (notCaptured (unresolved a tileID "(unknown — tile declares no volumes)")
                      (ReasonTileDeclaresNoVolumes tileID (Catalog e) tileID)) s
            | vs =>
                let e := ps_enum s in
                foldl (plan_volume a tileID)
                  (mkPlanState (ps_stage s) (ps_skipped s) (mkEnumeration (AppsInstalled e) (AppsResolved e + 1) (Catalog e))) vs
            end
        end
  end.

Definition stage_less : PlannedVolume → PlannedVolume → bool :=
  less3 (λ p, classRank (pv_Class p)) pv_AppName pv_Volume.
Definition skipped_less : VolumeRecord → VolumeRecord → bool :=
  less3 (λ r, classRank (r_Class r)) r_App r_Volume.

Definition PlanAppVolumes (installed : list (option App)) (tiles : TileVolumes) : AppVolumePlan :=
  let s := foldl (plan_app tiles) (mkPlanState [] [] (mkEnumeration 0 0 (tv_Source tiles))) installed in
  mkPlan (SliceStable stage_less (ps_stage s)) (SliceStable skipped_less (ps_skipped s)) (ps_enum s).

(** ** What the plan owes

    Independently of how the loop goes about it: every volume an installed
    app's tile declares, unless it is a cache, and one line for an app whose
    volumes nothing classifies. *)

Definition resolved (tiles : TileVolumes) (a : App) : option (list Volume) :=
  if String.eqb (Trim (app_SourceTile a)) EmptyString then None
  else match tv_Get tiles (Trim (app_SourceTile a)) with
       | Some (mkTile ((_ :: _) as vs)) => Some vs
       | _ => None
       end.

Definition declared (a : App) (v : Volume) : PlannedVolume :=
  mkPlanned (app_ID a) (app_Name a) (Trim (app_SourceTile a)) (app_TargetNode a)
    (Trim (v_Name v)) (v_Backup v) (v_Quiesce v).

Definition placeholder (tiles : TileVolumes) (a : App) : string :=
  if String.eqb (Trim (app_SourceTile a)) EmptyString then "(unknown — no tile)"
  else match tv_Get tiles (Trim (app_SourceTile a)) with
       | None => "(unknown — tile withdrawn)"
       | Some _ => "(unknown — tile declares no volumes)"
       end.

Definition owed (tiles : TileVolumes) (a : App) : list PlannedVolume :=
  match resolved tiles a with
  | Some vs => declared a <$> filter (λ v, v_Backup v ≠ BackupCache) vs
  | None => [unresolved a (Trim (app_SourceTile a)) (placeholder tiles a)]
  end.

Definition is_installed (installed : list (option App)) : list App := omap id installed.

(** The volume a record is about. *)
Definition about (r : VolumeRecord) : PlannedVolume :=
  mkPlanned (r_AppID r) (r_App r) (r_TileID r) (r_Node r) (r_Volume r) (r_Class r) (r_Strategy r).

Definition copied_class (c : string) : Prop := c = BackupCritical ∨ c = BackupState.

(** A volume to stage has a class that is copied and a node to ask. *)
Definition stageable (p : PlannedVolume) : Prop :=
  copied_class (pv_Class p) ∧ Trim (pv_NodeID p) ≠ EmptyString.

(** A record of a volume that was not taken says why, and is a failure
    exactly when its class is one this run copies. *)
Definition explained (r : VolumeRecord) : Prop :=
  r_Captured r = false ∧ r_Reason r ≠ EmptyString ∧ r_AppRestored r = true ∧
  (r_Failed r = true ↔ copied_class (r_Class r)).

Definition items (s : PlanState) : list PlannedVolume := ps_stage s ++ (about <$> ps_skipped s).

(** ** The loop pays it *)

Lemma about_notCaptured p reason : about (notCaptured p reason) = p.
Proof. by destruct p. Qed.
Lemma about_failedVolume p reason : about (failedVolume p reason) = p.
Proof. by destruct p. Qed.

Lemma items_add_stage p s : items (add_stage p s) ≡ₚ items s ++ [p].
Proof. unfold items. simpl. rewrite <- !(assoc_L (++)). by rewrite (comm (++) [p]). Qed.
Lemma items_add_skipped r s : items (add_skipped r s) = items s ++ [about r].
Proof. unfold items. simpl. by rewrite fmap_app, (assoc_L (++)). Qed.

Definition sound (s : PlanState) : Prop := Forall stageable (ps_stage s) ∧ Forall explained (ps_skipped s).

Lemma sound_add_stage p s : sound s → stageable p → sound (add_stage p s).
Proof. intros [H1 H2] Hp. split; [|done]. simpl. by rewrite Forall_app, Forall_singleton. Qed.
Lemma sound_add_skipped r s : sound s → explained r → sound (add_skipped r s).
Proof. intros [H1 H2] Hr. split; [done|]. simpl. by rewrite Forall_app, Forall_singleton. Qed.

Lemma explained_notCaptured p reason :
  reason ≠ EmptyString → ¬ copied_class (pv_Class p) → explained (notCaptured p reason).
Proof. intros H1 H2. repeat split; [done|done..| |]; by intros. Qed.

Lemma plan_volume_pays a s v :
  let s' := plan_volume a (Trim (app_SourceTile a)) s v in
  (sound s → sound s') ∧ ps_enum s' = ps_enum s ∧
  items s' ≡ₚ items s ++ (declared a <$> filter (λ v, v_Backup v ≠ BackupCache) [v]).
Proof.
  unfold plan_volume. fold (declared a v). rewrite filter_cons, filter_nil.
  destruct (String.eqb_spec (v_Backup v) BackupCache) as [->|Hc].
  { rewrite decide_False by auto. simpl. by rewrite (right_id_L [] (++)). }
  rewrite decide_True by done. simpl fmap.
  assert (∀ r, about r = declared a v → explained r →
            let s' := add_skipped r s in
            (sound s → sound s') ∧ ps_enum s' = ps_enum s ∧ items s' ≡ₚ items s ++ [declared a v]) as Hskip.
  { intros r Hr He. split; [|split; [done|]]. { intros. by apply sound_add_skipped. }
    by rewrite items_add_skipped, Hr. }
  destruct (String.eqb_spec (v_Backup v) BackupBulk) as [Hb|Hb].
  { apply Hskip; [apply about_notCaptured|]. apply explained_notCaptured; [done|]. simpl. rewrite Hb. by intros []. }
  destruct (String.eqb_spec (v_Backup v) BackupCritical) as [Hcr|Hcr];
    [|destruct (String.eqb_spec (v_Backup v) BackupState) as [Hs|Hs]]; simpl.
  3: { apply Hskip; [apply about_notCaptured|]. apply explained_notCaptured; [done|]. simpl. by intros []. }
  all: assert (copied_class (pv_Class (declared a v))) as Hcls by (unfold copied_class; simpl; auto).
  all: destruct (String.eqb_spec (Trim (app_TargetNode a)) EmptyString) as [Hn|Hn].
  1,3: apply Hskip; [apply about_failedVolume|repeat split; done].
  all: split; [intros; by apply sound_add_stage|split; [done|apply items_add_stage]].
Qed.

Lemma plan_volumes_pay a vs s :
  let s' := foldl (plan_volume a (Trim (app_SourceTile a))) s vs in
  (sound s → sound s') ∧ ps_enum s' = ps_enum s ∧
  items s' ≡ₚ items s ++ (declared a <$> filter (λ v, v_Backup v ≠ BackupCache) vs).
Proof.
  revert s. induction vs as [|v vs IH]; intros s; [simpl; by rewrite (right_id_L [] (++))|].
  cbn [foldl]. destruct (plan_volume_pays a s v) as (H1 & H2 & H3).
  destruct (IH (plan_volume a (Trim (app_SourceTile a)) s v)) as (I1 & I2 & I3).
  split; [auto|split; [by rewrite I2|]].
  rewrite I3, H3, <- (assoc_L (++)), <- fmap_app, <- filter_app. done.
Qed.

Definition resolves (tiles : TileVolumes) (a : App) : bool :=
  match resolved tiles a with Some _ => true | None => false end.

(** What the enumeration says after the apps [l] of a catalog. *)
Definition counts (tiles : TileVolumes) (l : list App) (e : AppEnumeration) : Prop :=
  AppsInstalled e = Z.of_nat (length l) ∧ AppsResolved e = Z.of_nat (length (filter (λ a, resolves tiles a = true) l)) ∧
  Catalog e = tv_Source tiles.

Lemma plan_app_pays tiles a s l : counts tiles l (ps_enum s) →
  let s' := plan_app tiles s (Some a) in
  (sound s → sound s') ∧ counts tiles (l ++ [a]) (ps_enum s') ∧ items s' ≡ₚ items s ++ owed tiles a.
Proof.
  intros (Hi & Hr & Hc). unfold plan_app, owed, placeholder.
  assert (counts tiles (l ++ [a]) (mkEnumeration (AppsInstalled (ps_enum s) + 1)
            (AppsResolved (ps_enum s) + (if resolves tiles a then 1 else 0)) (Catalog (ps_enum s)))) as Hn.
  { unfold counts. cbn [AppsInstalled AppsResolved Catalog]. rewrite Hi, Hr, filter_app, !length_app, filter_cons, filter_nil.
    destruct (resolves tiles a) eqn:E; [rewrite decide_True by done|rewrite decide_False by congruence]; cbn [length]; (split_and!; [lia|lia|done]). }
  unfold resolves in Hn. set (e := ps_enum s) in *.
  assert (∀ p reason, reason ≠ EmptyString → pv_Class p = "unclassified" → resolved tiles a = None →
    let s' := add_skipped (notCaptured p reason) (mkPlanState (ps_stage s) (ps_skipped s)
                (mkEnumeration (AppsInstalled e + 1) (AppsResolved e) (Catalog e))) in
    (sound s → sound s') ∧ counts tiles (l ++ [a]) (ps_enum s') ∧ items s' ≡ₚ items s ++ [p]) as Hskip.
  { intros p reason Hre Hcl Hno. rewrite Hno, Z.add_0_r in Hn. split; [|split; [done|]].
    - intros Hs. apply sound_add_skipped; [done|]. apply explained_notCaptured; [done|]. rewrite Hcl. by intros [].
    - by rewrite items_add_skipped, about_notCaptured. }
  unfold resolved in *.
  destruct (String.eqb_spec (Trim (app_SourceTile a)) EmptyString) as [Ht|Ht].
  { rewrite Ht. by apply Hskip. }
  destruct (tv_Get tiles (Trim (app_SourceTile a))) as [[[|v vs]]|] eqn:Eg; simpl t_Volumes; [by apply Hskip| |by apply Hskip].
  cbn zeta. destruct (plan_volumes_pay a (v :: vs) (mkPlanState (ps_stage s) (ps_skipped s)
    (mkEnumeration (AppsInstalled e + 1) (AppsResolved e + 1) (Catalog e)))) as (H1 & H2 & H3).
  split; [exact H1|]. split; [|exact H3].
  eapply eq_ind_r with (P := counts tiles (l ++ [a])); [exact Hn|exact H2].
Qed.

Lemma plan_apps_pay tiles installed s l : counts tiles l (ps_enum s) →
  let s' := foldl (plan_app tiles) s installed in
  (sound s → sound s') ∧ counts tiles (l ++ is_installed installed) (ps_enum s') ∧
  items s' ≡ₚ items s ++ (is_installed installed ≫= owed tiles).
Proof.
  unfold is_installed. revert s l. induction installed as [|[a|] installed IH]; intros s l Hc.
  - simpl. by rewrite !(right_id_L [] (++)).
  - cbn [foldl]. destruct (plan_app_pays tiles a s l Hc) as (H1 & H2 & H3).
    destruct (IH _ _ H2) as (I1 & I2 & I3). split; [auto|]. simpl. rewrite <- (assoc_L (++)) in I2.
    split; [exact I2|]. rewrite I3, H3. by rewrite <- (assoc_L (++)).
  - apply (IH s l Hc).
Qed.

Lemma plan_pays installed tiles :
  let p := PlanAppVolumes installed tiles in
  Stage p ++ (about <$> Skipped p) ≡ₚ is_installed installed ≫= owed tiles ∧
  Forall stageable (Stage p) ∧ Forall explained (Skipped p) ∧
  counts tiles (is_installed installed) (plan_Enumeration p).
Proof.
  unfold PlanAppVolumes. set (s0 := mkPlanState [] [] _).
  destruct (plan_apps_pay tiles installed s0 []) as (H1 & H2 & H3); [done|].
  destruct H1 as [H1 H1']; [by repeat constructor|]. cbn [Stage Skipped plan_Enumeration].
  set (s := foldl _ _ _) in *. rewrite !SliceStable_perm. done.
Qed.

(** C36. The plan accounts for the whole cluster.  What it will stage and
    what it records as not taken are together, one for one, the volumes the
    installed apps' tiles declare outside the cache class, and one line per
    app nothing classifies: nothing is dropped and nothing appears twice.
    What it will stage has a class that is copied and a node to ask; every
    record carries a reason, and is marked failed exactly when its class is
    one the run copies.  Both lists are ordered by class, then app, then
    volume, and the enumeration counts the apps and those that resolved. *)
Theorem plan_accounts (installed : list (option App)) (tiles : TileVolumes) :
  let p := PlanAppVolumes installed tiles in
  let apps := is_installed installed in
  Stage p ++ (about <$> Skipped p) ≡ₚ apps ≫= owed tiles ∧
  Forall stageable (Stage p) ∧
  Forall explained (Skipped p) ∧
  StronglySorted (in_order (λ v, classRank (pv_Class v)) pv_AppName pv_Volume) (Stage p) ∧
  StronglySorted (in_order (λ r, classRank (r_Class r)) r_App r_Volume) (Skipped p) ∧
  AppsInstalled (plan_Enumeration p) = Z.of_nat (length apps) ∧
  AppsResolved (plan_Enumeration p) = Z.of_nat (length (filter (λ a, resolves tiles a = true) apps)).
Proof.
  destruct (plan_pays installed tiles) as (H1 & H2 & H3 & H4 & H5 & H6).
  do 3 (split; [done|]). split; [apply SliceStable_in_order|]. split; [apply SliceStable_in_order|]. done.
Qed.

(** A two-app cluster: one tile with a volume of each class, one custom
    compose file, and a nil entry. *)
Example plan_small :
  let tile := mkTile [mkVolume "cfg" "state" "stop"; mkVolume "db" "critical" "sqlite";
                      mkVolume "tmp" "cache" "none"; mkVolume "media" "bulk" "none"] in
  let tiles := mkTileVolumes (λ id, if String.eqb id "vault" then Some tile else None) "v1" in
  let p := PlanAppVolumes [Some (mkApp "1" "b" "n1" " vault"); None; Some (mkApp "2" "a" "n1" "")] tiles in
  (pv_Volume <$> Stage p) = ["db"; "cfg"] ∧
  (r_Volume <$> Skipped p) = ["media"; "(unknown — no tile)"] ∧
  plan_Enumeration p = mkEnumeration 2 1 "v1".
Proof. vm_compute. done. Qed.
