(* ===== verification/BackupReport.v ===== *)
(** * The fan-out's report

    api/internal/storage/assemble.go: the report a run's manifest carries
    about the app volumes, built from the per-volume records, and when it may
    call the generation complete. *)
From Stdlib Require Import Ascii String.
From S2P Require Import Prelude GoStrings GoRunes BackupPlan.
Open Scope string_scope.
Open Scope list_scope.
Open Scope Z_scope.

Record AppVolumeReport := mkReport {
  a_Captured : list string; a_CapturedCount : Z; a_SkippedCount : Z;
  a_FailedCount : Z; a_Failed : list string; a_NodesConsulted : Z;
  a_Volumes : list VolumeRecord; a_AppsLeftDown : list string;
  a_Summary : string; a_BlockedBy : list string;
  a_Enumeration : AppEnumeration; a_Enumerated : bool }.

Definition Complete (r : AppVolumeReport) : bool :=
  if negb (a_Enumerated r) || negb (AppsResolved (a_Enumeration r) =? AppsInstalled (a_Enumeration r)) then false
  else forallb r_Captured (a_Volumes r).

Definition summarize (r : AppVolumeReport) : string :=
  let n := pretty (Z.of_nat (length (a_Volumes r))) in
  if negb (a_Enumerated r) then
    "The app-volume fan-out did not run for this archive, so nothing here says whether any app data was captured. This is not a complete backup."
  else if AppsInstalled (a_Enumeration r) =? 0 then
    "No app is installed on this cluster, so there was no app data to capture; the identity set is the whole of it."
  else if bool_decide (a_Volumes r = []) then
    "The " +:+ pretty (AppsInstalled (a_Enumeration r)) +:+ " installed app(s) declare only `cache` volumes, which §4.2 never copies, so there was no app data to capture."
  else if Complete r then
    "Captured " +:+ pretty (a_CapturedCount r) +:+ " of " +:+ n +:+ " classified app volume(s) across " +:+ pretty (a_NodesConsulted r) +:+ " node(s) — every one this cluster has."
  else if 0 <? a_FailedCount r then
    "Captured " +:+ pretty (a_CapturedCount r) +:+ " of " +:+ n +:+ " classified app volume(s); " +:+ pretty (a_FailedCount r) +:+ " FAILED (" +:+ Join (a_Failed r) ", " +:+ ") and " +:+ pretty (a_SkippedCount r - a_FailedCount r) +:+ " more were not captured — each is listed by name with its reason."
  else
    "Captured " +:+ pretty (a_CapturedCount r) +:+ " of " +:+ n +:+ " classified app volume(s); " +:+ pretty (a_SkippedCount r) +:+ " were NOT captured and are listed by name with their reason.".

#[export] Instance VolumeRecord_eq_dec : EqDecision VolumeRecord.
Proof. solve_decision. Defined.

Definition record_name (v : VolumeRecord) : string := r_App v +:+ "/" +:+ r_Volume v.

(** The body of the counting loop. *)
Definition tally (r : AppVolumeReport) (v : VolumeRecord) : AppVolumeReport :=
  let r := if r_Captured v
    then mkReport (a_Captured r ++ [record_name v]) (a_CapturedCount r) (a_SkippedCount r) (a_FailedCount r) (a_Failed r)
           (a_NodesConsulted r) (a_Volumes r) (a_AppsLeftDown r) (a_Summary r) (a_BlockedBy r) (a_Enumeration r) (a_Enumerated r)
    else mkReport (a_Captured r) (a_CapturedCount r) (a_SkippedCount r + 1)
           (if r_Failed v then a_FailedCount r + 1 else a_FailedCount r)
           (if r_Failed v then a_Failed r ++ [record_name v] else a_Failed r)
           (a_NodesConsulted r) (a_Volumes r) (a_AppsLeftDown r) (a_Summary r) (a_BlockedBy r) (a_Enumeration r) (a_Enumerated r) in
  if negb (r_AppRestored v) && negb (bool_decide (r_App v ∈ a_AppsLeftDown r))
  then mkReport (a_Captured r) (a_CapturedCount r) (a_SkippedCount r) (a_FailedCount r) (a_Failed r)
         (a_NodesConsulted r) (a_Volumes r) (a_AppsLeftDown r ++ [r_App v]) (a_Summary r) (a_BlockedBy r) (a_Enumeration r) (a_Enumerated r)
  else r.

(** [down], the set of apps already named, is the set of the list it guards. *)
Definition NewAppVolumeReport (enum : AppEnumeration) (records : list VolumeRecord) (nodesConsulted : Z) : AppVolumeReport :=
  let r := foldl tally (mkReport [] 0 0 0 [] nodesConsulted records [] EmptyString [] enum true) records in
  let r := mkReport (a_Captured r) (Z.of_nat (length (a_Captured r))) (a_SkippedCount r) (a_FailedCount r) (a_Failed r)
             (a_NodesConsulted r) (a_Volumes r) (a_AppsLeftDown r) (a_Summary r) (a_BlockedBy r) (a_Enumeration r) (a_Enumerated r) in
  mkReport (a_Captured r) (a_CapturedCount r) (a_SkippedCount r) (a_FailedCount r) (a_Failed r)
    (a_NodesConsulted r) (a_Volumes r) (a_AppsLeftDown r) (summarize r)
    (if existsb (λ v, negb (r_Captured v) && String.eqb (r_Class v) "bulk") (a_Volumes r)
     then ["design/storage.md §4.7 direct-stream lane for `bulk` volumes (not built)"] else [])
    (a_Enumeration r) (a_Enumerated r).

Definition unenumeratedReport : AppVolumeReport :=
  let r := mkReport [] 0 0 0 [] 0 [] [] EmptyString [] (mkEnumeration 0 0 EmptyString) false in
  mkReport [] 0 0 0 [] 0 [] [] (summarize r) [] (mkEnumeration 0 0 EmptyString) false.

(** ** The counts are those of the records *)

Definition taken (v : VolumeRecord) : Prop := r_Captured v = true.
Definition failed (v : VolumeRecord) : Prop := r_Captured v = false ∧ r_Failed v = true.
#[export] Instance taken_dec v : Decision (taken v).
Proof. unfold taken. apply _. Defined.
#[export] Instance failed_dec v : Decision (failed v).
Proof. unfold failed. apply _. Defined.

Record tallied (l : list VolumeRecord) (r : AppVolumeReport) : Prop := {
  ta_captured : a_Captured r = record_name <$> filter taken l;
  ta_skipped : a_SkippedCount r = Z.of_nat (length (filter (λ v, ¬ taken v) l));
  ta_failed : a_Failed r = record_name <$> filter failed l;
  ta_failedCount : a_FailedCount r = Z.of_nat (length (filter failed l));
  ta_down app : app ∈ a_AppsLeftDown r ↔ ∃ v, v ∈ l ∧ r_App v = app ∧ r_AppRestored v = false;
  ta_nodup : NoDup (a_AppsLeftDown r) }.

(** One more record at the end of the list. *)
Lemma records_snoc (Q : VolumeRecord → Prop) `{!∀ r, Decision (Q r)} (records : list VolumeRecord) (v : VolumeRecord) :
  filter Q (records ++ [v]) = filter Q records ++ match decide (Q v) with left _ => [v] | right _ => [] end.
Proof. rewrite filter_app, (filter_cons Q v). reflexivity. Qed.

Lemma tally_ok l r v : tallied l r → tallied (l ++ [v]) (tally r v).
Proof.
  intros [H1 H2 H3 H4 H5 H6]. unfold tally.
  set (r1 := if r_Captured v then _ else _).
  assert (a_Captured r1 = record_name <$> filter taken (l ++ [v]) ∧
    a_SkippedCount r1 = Z.of_nat (length (filter (λ v, ¬ taken v) (l ++ [v]))) ∧
    a_Failed r1 = record_name <$> filter failed (l ++ [v]) ∧
    a_FailedCount r1 = Z.of_nat (length (filter failed (l ++ [v]))) ∧ a_AppsLeftDown r1 = a_AppsLeftDown r) as (G1 & G2 & G3 & G4 & G5).
  { rewrite !records_snoc, !fmap_app, !length_app. subst r1. destruct (r_Captured v) eqn:Ec.
    - rewrite (decide_True (P := taken v)), (decide_False (P := ¬ taken v)), (decide_False (P := failed v))
        by (unfold taken, failed; naive_solver congruence).
      cbn [a_Captured a_SkippedCount a_Failed a_FailedCount a_AppsLeftDown fmap list_fmap length].
      rewrite !(right_id_L [] (++)). rewrite H1, H2, H3, H4. split_and!; try done; lia.
    - rewrite (decide_False (P := taken v)), (decide_True (P := ¬ taken v)) by (unfold taken; congruence).
      cbn [a_Captured a_SkippedCount a_Failed a_FailedCount a_AppsLeftDown fmap list_fmap length]. rewrite (right_id_L [] (++)).
      destruct (r_Failed v) eqn:Ef.
      + rewrite (decide_True (P := failed v)) by done. rewrite H1, H2, H3, H4. cbn. split_and!; try done; lia.
      + rewrite (decide_False (P := failed v)) by (unfold failed; naive_solver congruence).
        rewrite H1, H2, H3, H4. cbn. rewrite (right_id_L [] (++)). split_and!; try done; lia. }
  clearbody r1. rewrite <- G5 in H5, H6.
  destruct (r_AppRestored v) eqn:Er; cbn [negb andb].
  - split; try done. intros app. rewrite H5. setoid_rewrite elem_of_app. setoid_rewrite list_elem_of_singleton. naive_solver congruence.
  - case_bool_decide as Hin; cbn [negb]; split; try done; cbn [a_AppsLeftDown].
    + intros app. rewrite H5. setoid_rewrite elem_of_app. setoid_rewrite list_elem_of_singleton.
      split; [naive_solver|]. intros (v' & [Hv| ->] & <- & Hr); [naive_solver|]. by apply H5.
    + intros app. rewrite elem_of_app, H5, list_elem_of_singleton. setoid_rewrite elem_of_app.
      setoid_rewrite list_elem_of_singleton. naive_solver.
    + apply NoDup_app. split; [done|]. split; [|apply NoDup_singleton]. intros x Hx ->%list_elem_of_singleton. done.
Qed.

Lemma tally_all l done r : tallied done r → tallied (done ++ l) (foldl tally r l).
Proof.
  revert done r. induction l as [|v l IH]; intros dn r Hr; cbn [foldl]; [by rewrite (right_id_L [] (++))|].
  replace (dn ++ v :: l) with ((dn ++ [v]) ++ l) by by rewrite <- (assoc_L (++)).
  apply IH. by apply tally_ok.
Qed.

Lemma tally_frame l r : a_Volumes (foldl tally r l) = a_Volumes r ∧ a_NodesConsulted (foldl tally r l) = a_NodesConsulted r ∧
  a_Enumeration (foldl tally r l) = a_Enumeration r ∧ a_Enumerated (foldl tally r l) = a_Enumerated r.
Proof.
  revert r. induction l as [|v l IH]; intros r; [done|]. cbn [foldl]. destruct (IH (tally r v)) as (-> & -> & -> & ->).
  unfold tally. by destruct (r_Captured v), (negb (r_AppRestored v) && _).
Qed.

(** The report of a list of records. *)
Lemma report_of enum records n : let r := NewAppVolumeReport enum records n in
  a_Volumes r = records ∧ a_Enumeration r = enum ∧ a_Enumerated r = true ∧ a_NodesConsulted r = n ∧
  a_CapturedCount r = Z.of_nat (length (filter taken records)) ∧
  a_SkippedCount r = Z.of_nat (length (filter (λ v, ¬ taken v) records)) ∧
  a_Failed r = record_name <$> filter failed records ∧
  a_FailedCount r = Z.of_nat (length (filter failed records)) ∧
  (∀ app, app ∈ a_AppsLeftDown r ↔ ∃ v, v ∈ records ∧ r_App v = app ∧ r_AppRestored v = false).
Proof.
  unfold NewAppVolumeReport. set (r0 := mkReport [] 0 0 0 [] n records [] EmptyString [] enum true).
  destruct (tally_frame records r0) as (E1 & E2 & E3 & E4).
  assert (tallied [] r0) as H0.
  { split; try done; [|constructor]. intros app. simpl. split; [by intros ?%elem_of_nil|]. by intros (v & ?%elem_of_nil & _). }
  destruct (tally_all records [] r0 H0) as [H1 H2 H3 H4 H5 H6]. cbn [app] in *.
  set (r := foldl tally r0 records) in *. cbn [a_Volumes a_Enumeration a_Enumerated a_NodesConsulted a_CapturedCount
    a_SkippedCount a_Failed a_FailedCount a_AppsLeftDown].
  rewrite E1, E2, E3, E4, H1, length_fmap. done.
Qed.

Lemma Complete_report enum records n :
  Complete (NewAppVolumeReport enum records n) = true ↔
    AppsResolved enum = AppsInstalled enum ∧ Forall taken records.
Proof.
  destruct (report_of enum records n) as (E1 & E2 & E3 & _). unfold Complete. rewrite E1, E2, E3. cbn [negb orb].
  destruct (Z.eqb_spec (AppsResolved enum) (AppsInstalled enum)); cbn [negb]; [|naive_solver].
  rewrite forallb_forall, Forall_forall. setoid_rewrite list_elem_of_In. naive_solver.
Qed.

Lemma unenumerated_incomplete : Complete unenumeratedReport = false.
Proof. done. Qed.

Lemma counts_partition enum records n : let r := NewAppVolumeReport enum records n in
  a_CapturedCount r + a_SkippedCount r = Z.of_nat (length (a_Volumes r)) ∧ a_FailedCount r ≤ a_SkippedCount r.
Proof.
  destruct (report_of enum records n) as (E1 & _ & _ & _ & E5 & E6 & _ & E8 & _). cbn zeta. rewrite E1, E5, E6, E8.
  assert (length (filter taken records) + length (filter (λ v, ¬ taken v) records) = length records ∧
          length (filter failed records) ≤ length (filter (λ v, ¬ taken v) records))%nat; [|lia].
  clear. induction records as [|v l [IH1 IH2]]; [done|]. rewrite !filter_cons.
  destruct (decide (taken v)) as [Ht|Ht]; [rewrite (decide_False (P := ¬ taken v)) by auto|rewrite (decide_True (P := ¬ taken v)) by auto];
    destruct (decide (failed v)) as [Hf|Hf]; cbn [length]; try lia.
  unfold taken, failed in *. destruct Hf. congruence.
Qed.
