(* ===== verification/BackupGrants.v ===== *)
(** * Upload credentials and their wire shapes

    backupxfer/token.go, presenter.go and the paths of wire.go: what a
    credential authorises, minting and verifying one, who may present it, and
    the request path it is compared with.  HMAC-SHA-256, base64url and JSON
    are parameters; the credential's layout and every check on it are the
    source's.  Times are Unix nanoseconds, as [time.Time] holds them. *)
From Stdlib Require Import Ascii String.
From S2P Require Import Prelude GoStrings GoRunes GoPath BackupMembers.
Open Scope string_scope.
Open Scope list_scope.
Open Scope Z_scope.
#[local] Arguments String.append : simpl nomatch.

Record Grant := mkGrant {
  g_Generation : string; g_Member : string; g_NodeID : string; g_JobID : string;
  g_MaxBytes : Z; g_IssuedAt : Z; g_ExpiresAt : Z; g_Nonce : string; g_Use : string }.

Definition UseRestore : string := "restore".
Definition ForUpload (g : Grant) : bool := String.eqb (g_Use g) EmptyString.

Record Receipt := mkReceipt {
  rc_Generation : string; rc_Member : string; rc_NodeID : string;
  rc_SealedDigest : string; rc_SealedBytes : Z;
  rc_PlaintextDigest : string; rc_PlaintextBytes : Z;
  rc_KeyID : string; rc_Scope : string; rc_EphemeralPublicKey : string;
  rc_LandedAt : Z; rc_GrantID : string }.

(** An answer the endpoint refuses with. *)
Record Problem := mkProblem { p_Status : Z; p_Code : string }.
Definition CodeCredentialInvalid : string := "credential-invalid".
Definition CodeCredentialExpired : string := "credential-expired".
Definition CodeCredentialScope : string := "credential-scope".
Definition CodeNoGeneration : string := "no-generation".
Definition CodeMemberExists : string := "member-exists".
Definition CodeMemberInvalid : string := "member-invalid".
Definition CodeOverBound : string := "over-bound".

(** ** Unsigned 64-bit arithmetic and its decimal form *)
Definition wrapu64 (n : Z) : Z := n mod 2 ^ 64.

Definition digit (c : ascii) : option Z :=
  if byte_in 48 57 c then Some (Z.of_nat (nat_of_ascii c) - 48) else None.
Fixpoint digits_value (acc : Z) (s : string) : option Z :=
  match s with
  | EmptyString => Some acc
  | String c s => d ← digit c; digits_value (10 * acc + d) s
  end.
(** [strconv.ParseUint(s, 10, 64)] *)
Definition ParseUint (s : string) : option Z :=
  if String.eqb s EmptyString then None
  else v ← digits_value 0 s; if v <? 2 ^ 64 then Some v else None.

Definition sealChunkSize : Z := 65536.
Definition SealMagic : string := "RASPUTIN-ARCHIVE-1" +:+ newline.
Definition MaxHeaderBytes : Z := 4096.
Definition SealedSizeBound (plaintextBytes : Z) : Z :=
  let chunks := wrapu64 (plaintextBytes / sealChunkSize + 2) in
  wrapu64 (plaintextBytes + wrapu64 (chunks * 16) + Z.of_nat (String.length SealMagic) + MaxHeaderBytes).

(** ** Minting and verifying *)

Definition second : Z := 10 ^ 9.
Definition minute : Z := 60 * second.
Definition BackupTransferWork : Z := 45 * minute.
Definition BackupRestoreVolumeWork : Z := 45 * minute.
Definition CredentialTTL : Z := BackupTransferWork + 5 * minute.
Definition RestoreCredentialTTL : Z := BackupRestoreVolumeWork + 5 * minute.
Definition maxCredentialTTL : Z := Z.max CredentialTTL RestoreCredentialTTL.
Definition clockSkew : Z := 60.
Definition tokenPrefix : string := "rbx1".

Definition ErrCredentialMalformed : error :=
  sentinel "ErrCredentialMalformed" "backupxfer: credential is not a token this endpoint issues".
Definition ErrCredentialSignature : error :=
  sentinel "ErrCredentialSignature" "backupxfer: credential signature does not verify".
Definition ErrCredentialExpired : error :=
  sentinel "ErrCredentialExpired" "backupxfer: credential has expired".
Definition ErrCredentialNotYet : error :=
  sentinel "ErrCredentialNotYet" "backupxfer: credential is not valid yet".
Definition ErrGrantShape : error :=
  sentinel "ErrGrantShape" "backupxfer: grant names a generation or member of the wrong shape".

Definition dot : ascii := "."%char.

(** The encodings and the MAC the standard library provides. *)
Class Crypto := {
  b64enc : string → string;             (* base64.RawURLEncoding.EncodeToString *)
  b64dec : string → option string;      (* its DecodeString *)
  json_enc : Grant → string;            (* json.Marshal *)
  json_dec : string → option Grant;     (* json.Unmarshal into a zero Grant *)
  hmac_sha256 : string → string → string }.

(** What is documented of them: decoding undoes encoding, and the base64url
    alphabet has neither a dot nor a space. *)
Class CryptoOk `{Crypto} : Prop := {
  b64_dec_enc s : b64dec (b64enc s) = Some s;
  b64_alphabet s : all_chars (λ c, alnum c || Ascii.eqb c "-"%char || Ascii.eqb c "_"%char) (b64enc s) = true;
  json_dec_enc g : json_dec (json_enc g) = Some g }.

Section crypto.
Context `{Crypto}.

(** [key] is empty for a nil or unkeyed Authority; [nonce] is what
    crypto/rand yields. *)
Definition Mint (key : string) (nonce : result string) (now : Z) (g : Grant) (ttl : Z) : result string :=
  if String.eqb key EmptyString then Fail (errors_New "backupxfer: no authority key")
  else if negb (BackupValidGenerationID (g_Generation g)) || negb (BackupValidMemberPath (g_Member g)) then Fail ErrGrantShape
  else if String.eqb (Trim (g_NodeID g)) EmptyString || String.eqb (Trim (g_JobID g)) EmptyString then
    Fail (errors_New "backupxfer: a grant names its node and its run")
  else if g_MaxBytes g =? 0 then
    Fail (errors_New "backupxfer: a grant bounds what it may write; MaxBytes is zero")
  else if negb (String.eqb (g_Use g) EmptyString) && negb (String.eqb (g_Use g) UseRestore) then
    Fail (errors_New ("backupxfer: a grant's use is upload (empty) or " +:+ quote UseRestore +:+ ", not " +:+ quote (g_Use g)))
  else if (ttl <=? 0) || (maxCredentialTTL <? ttl) then
    Fail (errors_New "backupxfer: credential ttl is outside its bounds")
  else
    n ← nonce;
    let g := mkGrant (g_Generation g) (g_Member g) (g_NodeID g) (g_JobID g) (g_MaxBytes g)
               (now / second) ((now + ttl) / second) (b64enc n) (g_Use g) in
    let payload := tokenPrefix +:+ "." +:+ b64enc (json_enc g) in
    Ok (payload +:+ "." +:+ b64enc (hmac_sha256 key payload)).

Definition Verify (key : string) (now : Z) (token : string) : result Grant :=
  if String.eqb key EmptyString then Fail (errors_New "backupxfer: no authority key")
  else
    let token := Trim token in
    if Nat.ltb 4096 (String.length token) then Fail ErrCredentialMalformed
    else match Split dot token with
    | [prefix; body64; sig64] =>
        if negb (String.eqb prefix tokenPrefix) then Fail ErrCredentialMalformed
        else match b64dec sig64 with
        | None => Fail ErrCredentialMalformed
        | Some sig =>
            if negb (String.eqb sig (hmac_sha256 key (prefix +:+ "." +:+ body64))) then Fail ErrCredentialSignature
            else match b64dec body64 with
            | None => Fail ErrCredentialMalformed
            | Some body =>
                match json_dec body with
                | None => Fail ErrCredentialMalformed
                | Some g =>
                    let now := now / second in
                    if g_ExpiresAt g <=? now then Fail ErrCredentialExpired
                    else if wrap64 (now + clockSkew) <? g_IssuedAt g then Fail ErrCredentialNotYet
                    else if negb (BackupValidGenerationID (g_Generation g)) || negb (BackupValidMemberPath (g_Member g))
                         || String.eqb (Trim (g_NodeID g)) EmptyString || String.eqb (Trim (g_JobID g)) EmptyString
                         || (g_MaxBytes g =? 0)
                         || (negb (String.eqb (g_Use g) EmptyString) && negb (String.eqb (g_Use g) UseRestore))
                    then Fail ErrGrantShape
                    else Ok g
                end
            end
        end
    | _ => Fail ErrCredentialMalformed
    end.
End crypto.

(** ** Presenter and path *)

Definition CheckPresenter (g : Grant) (keyOwner : string) : option Problem :=
  if String.eqb keyOwner EmptyString || negb (String.eqb (g_NodeID g) keyOwner)
  then Some (mkProblem 403 CodeCredentialScope) else None.

Definition IngestPathPrefix : string := "/api/backup/ingest/".

(** [strings.CutPrefix] *)
Definition CutPrefix (s p : string) : option string :=
  if HasPrefix s p then Some (drop_str (String.length p) s) else None.

Definition SplitIngestPath (p : string) : option (string * string) :=
  rest ← CutPrefix p IngestPathPrefix;
  '(generation, member) ← cut_at slash rest;
  if negb (BackupValidGenerationID generation) || negb (BackupValidMemberPath member) then None
  else Some (generation, member).

(** ** Facts *)

(** Splitting loses nothing. *)
Lemma Split_Join sep s : Join (Split sep s) (String sep EmptyString) = s.
Proof.
  induction s as [|c s IH]; [done|]. cbn [Split]. destruct (Split_cons sep s) as (w & ws & E). rewrite E in *.
  destruct (Ascii.eqb_spec c sep) as [->|].
  - change (String sep (Join (w :: ws) (String sep EmptyString)) = String sep s). by rewrite IH.
  - rewrite <- IH. by destruct ws.
Qed.

Lemma Split_three s a b c : Split dot s = [a; b; c] → s = a +:+ "." +:+ b +:+ "." +:+ c.
Proof. intros E. by rewrite <- (Split_Join dot s), E. Qed.

(** The grant's scope is as Mint wants it. *)
Definition well_scoped (g : Grant) : Prop :=
  BackupValidGenerationID (g_Generation g) = true ∧ BackupValidMemberPath (g_Member g) = true ∧
  Trim (g_NodeID g) ≠ EmptyString ∧ Trim (g_JobID g) ≠ EmptyString ∧ g_MaxBytes g ≠ 0 ∧
  (g_Use g = EmptyString ∨ g_Use g = UseRestore).

Lemma Verify_Ok `{Crypto} key now token g : Verify key now token = Ok g →
  well_scoped g ∧ now / second < g_ExpiresAt g ∧
  ∃ body64 sig64, Trim token = tokenPrefix +:+ "." +:+ body64 +:+ "." +:+ sig64 ∧
    b64dec sig64 = Some (hmac_sha256 key (tokenPrefix +:+ "." +:+ body64)) ∧
    (b64dec body64 ≫= json_dec) = Some g.
Proof.
  unfold Verify, well_scoped. destruct (String.eqb key _); [done|]. destruct (Nat.ltb _ _); [done|].
  destruct (Split dot (Trim token)) as [|prefix [|body64 [|sig64 [|]]]] eqn:Es; try done.
  destruct (String.eqb_spec prefix tokenPrefix) as [->|]; [|done]. cbn [negb].
  destruct (b64dec sig64) as [sig|] eqn:Eg; [|done].
  destruct (String.eqb_spec sig (hmac_sha256 key (tokenPrefix +:+ "." +:+ body64))) as [->|]; [|done]. cbn [negb].
  destruct (b64dec body64) as [body|] eqn:Eb; [|done]. destruct (json_dec body) as [g'|] eqn:Ej; [|done].
  destruct (Z.leb_spec (g_ExpiresAt g') (now / second)); [done|]. destruct (_ <? _); [done|].
  destruct (BackupValidGenerationID _) eqn:?; [|done]. destruct (BackupValidMemberPath _) eqn:?; [|done].
  destruct (String.eqb_spec (Trim (g_NodeID g')) EmptyString); [done|].
  destruct (String.eqb_spec (Trim (g_JobID g')) EmptyString); [done|].
  destruct (Z.eqb_spec (g_MaxBytes g') 0); [done|]. simpl.
  destruct (String.eqb_spec (g_Use g') EmptyString) as [Hu|Hu];
    [|destruct (String.eqb_spec (g_Use g') UseRestore) as [Hv|Hv]; [|done]]; simpl; intros [= <-].
  all: split; [split_and!; (done || by auto)|split; [done|]].
  all: exists body64, sig64.
  all: split; [exact (Split_three _ _ _ _ Es)|split; [done|by rewrite Eb]].
Qed.
