(* ===== verification/BackupIngest.v ===== *)
(** * The backup ingest endpoint

    backupxfer/server.go: the generation that is open, the members that have
    landed in it, and the upload handlers, which run concurrently.  The
    handler's checks up to the lock are one function; from there a handler is
    a goroutine cut at its locks, its file operations and the arrival of its
    body, and [step] interleaves any number of them with the calls of the
    control plane's backup job. *)
From Stdlib Require Import Ascii String.
From S2P Require Import Prelude GoStrings GoRunes GoPath BackupMembers BackupGrants.
Open Scope string_scope.
Open Scope list_scope.
Open Scope Z_scope.

(** ** State *)

Record openGeneration := mkGen { og_id : string; og_jobID : string; og_gensDir : string; og_dir : string }.

(** The fields of Ingest its mutex guards.  [inflight] is a map to bool that
    only ever holds true. *)
Record Ingest := mkIngest {
  in_gen : option openGeneration;
  in_last : option openGeneration;
  in_landed : gmap string Receipt;
  in_inflight : gset string }.

(** A request, with what its body turns out to deliver: its bytes, whether it
    reaches its end, and its trailers. *)
Record Request := mkRequest {
  q_method : string; q_path : string; q_authorization : string; q_owner : string;
  q_plaintextBytes : string; q_plaintextDigest : string;
  q_body : string; q_complete : bool; q_trailerDigest : string; q_trailerBytes : string }.

(** The clear-text header of a sealed archive, as ReadHeader returns it. *)
Record Header := mkHeader { h_KeyID : string; h_Scope : string; h_EphemeralPublicKey : string }.

(** SHA-256 in hex, [strings.ToLower], and the parse of a sealed archive's
    header line, which is JSON. *)
Class Archive := {
  sha256_hex : string → string;
  ToLower : string → string;
  ReadHeader : string → option Header }.

Section ingest.
Context `{Crypto} `{Archive} (key : string).

(** ** The handler, up to the lock *)
Definition serve_checks (now : Z) (r : Request) : Grant * string * string + Problem :=
  if String.eqb (Trim (q_owner r)) EmptyString then inr (mkProblem 500 CodeCredentialInvalid)
  else if negb (String.eqb (q_method r) "PUT") then inr (mkProblem 405 CodeMemberInvalid)
  else match SplitIngestPath (q_path r) with
  | None => inr (mkProblem 400 CodeMemberInvalid)
  | Some (generation, member) =>
      match CutPrefix (q_authorization r) "Bearer " with
      | None => inr (mkProblem 401 CodeCredentialInvalid)
      | Some token =>
          if String.eqb (Trim token) EmptyString then inr (mkProblem 401 CodeCredentialInvalid)
          else match Verify key now token with
          | Fail e => if errors_Is e "ErrCredentialExpired" then inr (mkProblem 401 CodeCredentialExpired)
                      else inr (mkProblem 401 CodeCredentialInvalid)
          | Ok grant =>
              if negb (ForUpload grant) then inr (mkProblem 403 CodeCredentialScope)
              else match CheckPresenter grant (q_owner r) with
              | Some p => inr p
              | None =>
                  if negb (String.eqb (g_Generation grant) generation) || negb (String.eqb (g_Member grant) member)
                  then inr (mkProblem 403 CodeCredentialScope)
                  else match ParseUint (Trim (q_plaintextBytes r)) with
                  | Some declared =>
                      if (g_MaxBytes grant <? declared) || (g_MaxBytes grant <? SealedSizeBound declared)
                      then inr (mkProblem 413 CodeOverBound)
                      else inl (grant, generation, member)
                  | None => inl (grant, generation, member)
                  end
              end
          end
      end
  end.

(** Under the lock: the generation must be open for the grant's run, and the
    member neither landed nor landing. *)
Definition serve_claim (grant : Grant) (generation member : string) (i : Ingest) : openGeneration * Ingest + Problem :=
  match in_gen i with
  | None => inr (mkProblem 409 CodeNoGeneration)
  | Some gen =>
      if negb (String.eqb (og_id gen) generation) || negb (String.eqb (og_jobID gen) (g_JobID grant))
      then inr (mkProblem 409 CodeNoGeneration)
      else if bool_decide (is_Some (in_landed i !! member)) || bool_decide (member ∈ in_inflight i)
      then inr (mkProblem 409 CodeMemberExists)
      else inl (gen, mkIngest (in_gen i) (in_last i) (in_landed i) ({[member]} ∪ in_inflight i))
  end.

(** The deferred [delete(i.inflight, member)], and [i.landed[member] = rc]:
    both on the maps the endpoint holds when they run. *)
Definition forget (member : string) (i : Ingest) : Ingest :=
  mkIngest (in_gen i) (in_last i) (in_landed i) (in_inflight i ∖ {[member]}).
Definition record (member : string) (rc : Receipt) (i : Ingest) : Ingest :=
  mkIngest (in_gen i) (in_last i) (<[member := rc]> (in_landed i)) (in_inflight i).

(** ** The control plane's calls *)

(** Ingest.Open, past the shape checks and the directory calls: what it
    refuses is an open generation. *)
Definition Open (gensDir generationID jobID : string) (i : Ingest) : result Ingest :=
  if negb (IsAbs gensDir) || negb (String.eqb (Clean gensDir) gensDir) then
    Fail (errors_New ("backupxfer: " +:+ quote gensDir +:+ " is not an absolute, clean generations directory"))
  else if negb (BackupValidGenerationID generationID) then
    Fail (errors_New ("backupxfer: " +:+ quote generationID +:+ " is not a usable generation id"))
  else if String.eqb (Trim jobID) EmptyString then Fail (errors_New "backupxfer: a generation is opened by a run")
  else match in_gen i with
  | Some g => Fail (errors_New ("backupxfer: generation " +:+ og_id g +:+ " (run " +:+ og_jobID g +:+ ") is still open; one at a time"))
  | None =>
      let dir := filepath_Join [gensDir; BackupPartialDirName generationID] in
      Ok (mkIngest (Some (mkGen generationID jobID gensDir dir)) None ∅ ∅)
  end.

Definition Close (generationID : string) (i : Ingest) : Ingest :=
  match in_gen i with
  | Some g => if String.eqb (og_id g) generationID then mkIngest None (Some g) (in_landed i) (in_inflight i) else i
  | None => i
  end.

(** Is this the generation of that id? *)
Definition gen_is (generationID : string) (g : option openGeneration) : bool :=
  match g with Some g => String.eqb (og_id g) generationID | None => false end.

(** The locked half of Abandon: what it leaves, and the directory to remove. *)
Definition Abandon (generationID : string) (i : Ingest) : option string * Ingest :=
  let gen := if gen_is generationID (in_gen i) then in_gen i else in_last i in
  let i' := mkIngest (if gen_is generationID (in_gen i) then None else in_gen i)
                     (if gen_is generationID (in_last i) then None else in_last i)
                     (in_landed i) (in_inflight i) in
  (if gen_is generationID gen then og_dir <$> gen else None, i').

Definition Landed (generationID member : string) (i : Ingest) : option Receipt :=
  if gen_is generationID (in_gen i) then in_landed i !! member else None.

(** Ingest.Mint: only for the open generation and its run. *)
Definition ingest_Mint (i : Ingest) (nonce : result string) (now : Z) (g : Grant) (ttl : Z) : result string :=
  let refuse := Fail (errors_New ("backupxfer: no generation " +:+ g_Generation g +:+ " is open for run " +:+ g_JobID g)) in
  match in_gen i with
  | None => refuse
  | Some gen =>
      if negb (String.eqb (og_id gen) (g_Generation g)) || negb (String.eqb (og_jobID gen) (g_JobID g)) then refuse
      else Mint key nonce now g ttl
  end.

(** ** Goroutines

    A handler that has claimed its member, and an Abandon that has left the
    lock with a directory to remove. *)
Inductive Thread :=
| TQueued (r : Request) (g : Grant) (gen : openGeneration) (m : string)   (* waiting for the slot *)
| TBody (r : Request) (g : Grant) (gen : openGeneration) (m : string) (written : string) (* in land, copying *)
| TRenamed (r : Request) (g : Grant) (gen : openGeneration) (m : string) (rc : Receipt)  (* land has committed *)
| TRelease (m : string)      (* the handler returns: the slot first *)
| TLeave (m : string)        (* then the in-flight mark *)
| TRemove (dir : string)     (* Abandon, before RemoveAll *)
| TOver.

Record Sys := mkSys {
  y_in : Ingest;
  y_disk : gmap (string * string) string;  (* partial directory and path below it, to content *)
  y_slots : nat;                           (* upload slots left in the semaphore *)
  y_used : gmap string string;             (* generation ids opened so far, and their directories *)
  y_thr : gmap nat Thread }.

Definition set_in (i : Ingest) (s : Sys) : Sys := mkSys i (y_disk s) (y_slots s) (y_used s) (y_thr s).
Definition set_disk (d : gmap (string * string) string) (s : Sys) : Sys := mkSys (y_in s) d (y_slots s) (y_used s) (y_thr s).
Definition set_slots (b : nat) (s : Sys) : Sys := mkSys (y_in s) (y_disk s) b (y_used s) (y_thr s).
Definition set_used (u : gmap string string) (s : Sys) : Sys := mkSys (y_in s) (y_disk s) (y_slots s) u (y_thr s).
Definition set_thr (t : nat) (T : Thread) (s : Sys) : Sys := mkSys (y_in s) (y_disk s) (y_slots s) (y_used s) (<[t := T]> (y_thr s)).

(** The temporary file of a member, in its directory: ".upload-" and its name. *)
Definition temp_of (member : string) : string :=
  match Split slash member with
  | [d; app; file] => Join [d; app; ".upload-" +:+ file] "/"
  | _ => member
  end.

(** os.RemoveAll of a partial directory, or its rename by the write verb. *)
Definition without_dir (dir : string) (disk : gmap (string * string) string) : gmap (string * string) string :=
  filter (λ kv, kv.1.1 ≠ dir) disk.

(** A write through the handler's descriptor shows on the disk while the file
    still has its name. *)
Definition write_temp (k : string * string) (content : string) (disk : gmap (string * string) string) :=
  match disk !! k with Some _ => <[k := content]> disk | None => disk end.

(** The receipt land returns for [content]. *)
Definition receipt (r : Request) (g : Grant) (gen : openGeneration) (m content : string) (h : Header) (now : Z) : Receipt :=
  mkReceipt (og_id gen) m (g_NodeID g) (sha256_hex content) (Z.of_nat (String.length content))
    (ToLower (Trim (q_plaintextDigest r))) (default 0 (ParseUint (Trim (q_plaintextBytes r))))
    (h_KeyID h) (h_Scope h) (h_EphemeralPublicKey h) now (g_Nonce g).

(** What land checks once the body has ended. *)
Definition body_ok (r : Request) (g : Grant) (written : string) : bool :=
  let want := ToLower (Trim (q_trailerDigest r)) in
  q_complete r && String.eqb written (q_body r) && (Z.of_nat (String.length written) <=? g_MaxBytes g) &&
  negb (String.eqb want EmptyString) && String.eqb (sha256_hex written) want &&
  bool_decide (ParseUint (Trim (q_trailerBytes r)) = Some (Z.of_nat (String.length written))).

Inductive step : relation Sys :=
(* a handler *)
| s_claim t r now g gid m gen i s :
    y_thr s !! t = None → serve_checks now r = inl (g, gid, m) → serve_claim g gid m (y_in s) = inl (gen, i) →
    step s (set_thr t (TQueued r g gen m) (set_in i s))
| s_quit t r g gen m s :
    y_thr s !! t = Some (TQueued r g gen m) → step s (set_thr t (TLeave m) s)
| s_begin t r g gen m s :
    y_thr s !! t = Some (TQueued r g gen m) → y_slots s ≠ O → y_disk s !! (og_dir gen, m) = None →
    step s (set_thr t (TBody r g gen m EmptyString) (set_slots (pred (y_slots s))
             (set_disk (<[(og_dir gen, temp_of m) := EmptyString]> (y_disk s)) s)))
| s_refused t r g gen m disk s :
    y_thr s !! t = Some (TQueued r g gen m) → y_slots s ≠ O →
    disk = y_disk s ∨ disk = delete (og_dir gen, temp_of m) (y_disk s) →
    step s (set_thr t (TRelease m) (set_slots (pred (y_slots s)) (set_disk disk s)))
| s_write t r g gen m w c s :
    y_thr s !! t = Some (TBody r g gen m w) → HasPrefix (q_body r) (w +:+ c) = true →
    step s (set_thr t (TBody r g gen m (w +:+ c)) (set_disk (write_temp (og_dir gen, temp_of m) (w +:+ c) (y_disk s)) s))
| s_break t r g gen m w s :
    y_thr s !! t = Some (TBody r g gen m w) →
    step s (set_thr t (TRelease m) (set_disk (delete (og_dir gen, temp_of m) (y_disk s)) s))
| s_rename t r g gen m w h now c s :
    y_thr s !! t = Some (TBody r g gen m w) → ReadHeader w = Some h → body_ok r g w = true →
    y_disk s !! (og_dir gen, m) = None → y_disk s !! (og_dir gen, temp_of m) = Some c →
    step s (set_thr t (TRenamed r g gen m (receipt r g gen m w h now))
             (set_disk (<[(og_dir gen, m) := c]> (delete (og_dir gen, temp_of m) (y_disk s))) s))
| s_record t r g gen m rc s :
    y_thr s !! t = Some (TRenamed r g gen m rc) → step s (set_thr t (TRelease m) (set_in (record m rc (y_in s)) s))
| s_release t m s :
    y_thr s !! t = Some (TRelease m) → step s (set_thr t (TLeave m) (set_slots (S (y_slots s)) s))
| s_leave t m s :
    y_thr s !! t = Some (TLeave m) → step s (set_thr t TOver (set_in (forget m (y_in s)) s))
(* the backup job; a run's generation id is its own (proto.BackupGenerationID) *)
| s_open gensDir gid job i gen s :
    y_used s !! gid = None → Open gensDir gid job (y_in s) = Ok i → in_gen i = Some gen →
    step s (set_used (<[gid := og_dir gen]> (y_used s)) (set_in i s))
| s_close gid s : step s (set_in (Close gid (y_in s)) s)
| s_abandon t gid dir i s :
    y_thr s !! t = None → Abandon gid (y_in s) = (Some dir, i) → step s (set_thr t (TRemove dir) (set_in i s))
| s_remove t dir s :
    y_thr s !! t = Some (TRemove dir) → step s (set_thr t TOver (set_disk (without_dir dir (y_disk s)) s))
(* the write verb takes the directory of a generation that is no longer open *)
| s_publish dir s :
    (∀ gen, in_gen (y_in s) = Some gen → og_dir gen ≠ dir) →
    step s (set_disk (without_dir dir (y_disk s)) s).

(** backupxfer.New, with its concurrency. *)
Definition start (concurrency : nat) : Sys := mkSys (mkIngest None None ∅ ∅) ∅ concurrency ∅ ∅.
Definition reachable (concurrency : nat) (s : Sys) : Prop := rtc step (start concurrency) s.
End ingest.
