(* ===== verification/BackupIngestFacts.v ===== *)
(** * What the ingest endpoint keeps

    Invariants of [BackupIngest.step]: who may land a member, that a receipt
    of the open generation stands for a file with the digest it names, that a
    member is never overwritten; and the receipt that crosses from one
    generation into the next. *)
From Stdlib Require Import Ascii String.
From S2P Require Import Prelude GoStrings GoRunes GoPath BackupMembers BackupGrants BackupIngest.
Open Scope string_scope.
Open Scope list_scope.
Open Scope Z_scope.
#[local] Arguments String.append : simpl nomatch.

(** ** Names *)

Lemma valid_member_split m : BackupValidMemberPath m = true →
  ∃ app file, Split slash m = [BackupVolumesDir; app; file] ∧
    m = BackupVolumesDir +:+ "/" +:+ app +:+ "/" +:+ file ∧
    without slash app = true ∧ without slash file = true ∧ HasPrefix file "." = false.
Proof.
  intros Hm. destruct (valid_member_names m Hm) as (app & file & _ & _ & Es & Ha & Hf).
  exists app, file. split; [done|]. split.
  { rewrite <- (Split_Join slash m), Es. done. }
  split; [by destruct (staging_name_proper app Ha) as [(_ & _ & ?) _]|].
  split; [by destruct (staging_name_proper file Hf) as [(_ & _ & ?) _]|].
  revert Hf. unfold BackupValidStagingName. destruct (_ || _); [done|].
  destruct (HasPrefix file "."); [by rewrite orb_true_r|done].
Qed.

Lemma temp_of_valid m : BackupValidMemberPath m = true →
  ∃ app file, Split slash m = [BackupVolumesDir; app; file] ∧
    Split slash (temp_of m) = [BackupVolumesDir; app; ".upload-" +:+ file].
Proof.
  intros Hm. destruct (valid_member_split m Hm) as (app & file & Es & _ & Ha & Hf & _).
  exists app, file. split; [done|]. unfold temp_of. rewrite Es.
  change (Join [BackupVolumesDir; app; ".upload-" +:+ file] "/")
    with (BackupVolumesDir +:+ String slash (app +:+ String slash (".upload-" +:+ file))).
  rewrite !Split_app by done. rewrite Split_plain; [done|].
  unfold without in *. by rewrite all_chars_app, Hf.
Qed.

(** A temporary file is never a member. *)
Lemma temp_not_member m m' : BackupValidMemberPath m = true → BackupValidMemberPath m' = true → temp_of m ≠ m'.
Proof.
  intros Hm Hm' E. destruct (temp_of_valid m Hm) as (app & file & _ & Et).
  destruct (valid_member_split m' Hm') as (app' & file' & Es & _ & _ & _ & Hd).
  rewrite E, Es in Et. injection Et as -> ->. done.
Qed.

Lemma partial_dir_inj gd a gd' b :
  gd ≠ EmptyString → gd' ≠ EmptyString →
  BackupValidGenerationID a = true → BackupValidGenerationID b = true →
  filepath_Join [gd; BackupPartialDirName a] = filepath_Join [gd'; BackupPartialDirName b] → a = b.
Proof.
  assert (∀ gd a, gd ≠ EmptyString → BackupValidGenerationID a = true →
    names (filepath_Join [gd; BackupPartialDirName a]) = components gd ++ [BackupPartialDirName a]) as H.
  { clear. intros gd a Hgd Ha. cbn [filepath_Join]. rewrite (proj2 (String.eqb_neq _ _) Hgd).
    change (Join [gd; BackupPartialDirName a] "/") with (gd +:+ "/" +:+ BackupPartialDirName a).
    unfold Clean. rewrite names_render by apply components_proper.
    destruct (staging_name_proper a Ha) as [(_ & _ & Hs) _].
    assert (names (BackupPartialDirName a) = [BackupPartialDirName a]) as Hn.
    { apply names_single. split; [done|]. split; [done|].
      unfold BackupPartialDirName, BackupPartialDirPrefix, without in *. by rewrite all_chars_app, Hs. }
    rewrite components_below, Hn; [done|done|]. rewrite Hn. repeat constructor. done. }
  intros Hgd Hgd' Ha Hb E. apply (f_equal names) in E. rewrite !H in E by done.
  apply (f_equal last) in E. rewrite !last_snoc in E. injection E as E.
  unfold BackupPartialDirName in E. simpl in E. by simplify_eq.
Qed.

Section facts.
Context `{Crypto} `{Archive} (key : string).
#[local] Abbreviation step := (step key).

(** ** Authorisation *)

(** What stands behind a handler that has claimed a member: a credential of
    this endpoint, for uploads, issued to the node whose key presented it, for
    this member of this generation and its run. *)
Definition authorised (r : Request) (g : Grant) (gen : openGeneration) (m : string) : Prop :=
  well_scoped g ∧ ForUpload g = true ∧ g_NodeID g = q_owner r ∧ g_Member g = m ∧
  g_Generation g = og_id gen ∧ g_JobID g = og_jobID gen ∧
  ∃ token now, CutPrefix (q_authorization r) "Bearer " = Some token ∧ Verify key now token = Ok g.

Lemma serve_checks_inl now r g gid m : serve_checks key now r = inl (g, gid, m) →
  well_scoped g ∧ ForUpload g = true ∧ g_NodeID g = q_owner r ∧ g_Member g = m ∧ g_Generation g = gid ∧
  ∃ token, CutPrefix (q_authorization r) "Bearer " = Some token ∧ Verify key now token = Ok g.
Proof.
  unfold serve_checks. destruct (String.eqb _ _); [done|]. destruct (negb _); [done|].
  destruct (SplitIngestPath _) as [[gid' m']|]; [|done].
  destruct (CutPrefix _ _) as [token|] eqn:Et; [|done]. destruct (String.eqb _ _); [done|].
  destruct (Verify key now token) as [g'|e] eqn:Ev; [|by destruct (errors_Is _ _)].
  destruct (ForUpload g') eqn:Eu; [|done]. cbn [negb].
  unfold CheckPresenter. destruct (String.eqb (q_owner r) _); [done|]. cbn [orb].
  destruct (String.eqb_spec (g_NodeID g') (q_owner r)) as [En|]; [|done]. cbn [negb].
  destruct (String.eqb_spec (g_Generation g') gid') as [Eg|]; [|done].
  destruct (String.eqb_spec (g_Member g') m') as [Em|]; [|done]. cbn [negb orb].
  intros E. assert (g' = g ∧ gid' = gid ∧ m' = m) as (-> & -> & ->).
  { destruct (ParseUint _) as [d|]; [destruct (_ || _)|]; by simplify_eq. }
  destruct (Verify_Ok key now token g Ev) as (Hw & _). eauto 10.
Qed.

Lemma serve_claim_inl g gid m i gen i' : serve_claim g gid m i = inl (gen, i') →
  in_gen i = Some gen ∧ og_id gen = gid ∧ og_jobID gen = g_JobID g ∧ in_landed i !! m = None ∧
  in_gen i' = in_gen i ∧ in_last i' = in_last i ∧ in_landed i' = in_landed i.
Proof.
  unfold serve_claim. destruct (in_gen i) as [gen'|] eqn:Ei; [|done].
  destruct (String.eqb_spec (og_id gen') gid); [|done].
  destruct (String.eqb_spec (og_jobID gen') (g_JobID g)); [|done]. cbn [negb orb].
  case_bool_decide as Hl; [done|]. case_bool_decide; [done|]. cbn [orb]. intros [= <- <-].
  apply eq_None_not_Some in Hl. done.
Qed.

(** ** The invariant *)

Definition open_dir (s : Sys) (d : string) : Prop := ∃ g, in_gen (y_in s) = Some g ∧ og_dir g = d.

(** A member's file is there with the digest and the length of its receipt. *)
Definition stored (s : Sys) (d m : string) (rc : Receipt) : Prop :=
  ∃ c, y_disk s !! (d, m) = Some c ∧ sha256_hex c = rc_SealedDigest rc ∧
       Z.of_nat (String.length c) = rc_SealedBytes rc.

Definition known (s : Sys) (gen : openGeneration) : Prop := y_used s !! og_id gen = Some (og_dir gen).

Definition thread_ok (s : Sys) (T : Thread) : Prop :=
  match T with
  | TQueued r g gen m | TBody r g gen m _ => known s gen ∧ authorised r g gen m
  | TRenamed r g gen m rc =>
      known s gen ∧ authorised r g gen m ∧ rc_Generation rc = og_id gen ∧ rc_Member rc = m ∧
      rc_NodeID rc = q_owner r ∧ (open_dir s (og_dir gen) → stored s (og_dir gen) m rc)
  | TRemove d => (∃ gid, y_used s !! gid = Some d) ∧ ¬ open_dir s d
  | _ => True
  end.

Definition holds (T : Thread) : bool :=
  match T with TBody _ _ _ _ _ | TRenamed _ _ _ _ _ | TRelease _ => true | _ => false end.

Definition partial_dir (gid d : string) : Prop :=
  ∃ gd, gd ≠ EmptyString ∧ BackupValidGenerationID gid = true ∧ d = filepath_Join [gd; BackupPartialDirName gid].

Record Inv (s : Sys) : Prop := {
  inv_used gid d : y_used s !! gid = Some d → partial_dir gid d;
  inv_gen g : in_gen (y_in s) = Some g ∨ in_last (y_in s) = Some g → known s g;
  inv_landed m rc : in_landed (y_in s) !! m = Some rc →
    BackupValidMemberPath m = true ∧ rc_Member rc = m ∧
    ∃ d, y_used s !! rc_Generation rc = Some d ∧ (open_dir s d → stored s d m rc);
  inv_thread t T : y_thr s !! t = Some T → thread_ok s T;
  inv_slots : (y_slots s ≤ 1)%nat;
  inv_idle t T : y_slots s ≠ O → y_thr s !! t = Some T → holds T = false;
  inv_one t t' T T' : y_thr s !! t = Some T → y_thr s !! t' = Some T' → holds T = true → holds T' = true → t = t';
  inv_body t r g gen m w c : y_thr s !! t = Some (TBody r g gen m w) →
    y_disk s !! (og_dir gen, temp_of m) = Some c → c = w }.

(** What a step may do to the facts about directories: ids are added, no
    known directory becomes the open one, and the members in the open one
    stay. *)
Record frame (s s' : Sys) : Prop := {
  fr_used : y_used s ⊆ y_used s';
  fr_open d : open_dir s' d → (∃ gid, y_used s !! gid = Some d) → open_dir s d;
  fr_disk d m c : BackupValidMemberPath m = true → open_dir s' d →
    y_disk s !! (d, m) = Some c → y_disk s' !! (d, m) = Some c }.

Lemma frame_known s s' gen : frame s s' → known s gen → known s' gen.
Proof using. intros F Hk. eapply lookup_weaken; [exact Hk|apply F]. Qed.

Lemma frame_stored s s' gid d m rc : frame s s' → y_used s !! gid = Some d → BackupValidMemberPath m = true →
  (open_dir s d → stored s d m rc) → open_dir s' d → stored s' d m rc.
Proof using.
  intros F Hu Hm Hs Ho. destruct Hs as (c & Hc & ?); [apply (fr_open _ _ F); eauto|].
  exists c. split; [|done]. by apply (fr_disk _ _ F).
Qed.

Lemma authorised_valid r g gen m : authorised r g gen m → BackupValidMemberPath m = true.
Proof using. intros ((_ & ? & _) & _ & _ & <- & _). done. Qed.

Lemma frame_thread s s' T : frame s s' → thread_ok s T → thread_ok s' T.
Proof using.
  intros F. destruct T as [r g gen m|r g gen m w|r g gen m rc| | |d|]; simpl; try done.
  - intros [Hk Ha]. split; [by eapply frame_known|done].
  - intros [Hk Ha]. split; [by eapply frame_known|done].
  - intros (Hk & Ha & Hg & Hm & Hn & Hs). split; [by eapply frame_known|]. do 4 (split; [done|]).
    eapply frame_stored; [done|exact Hk|by eapply authorised_valid|done].
  - intros [[gid Hu] Hno]. split; [exists gid; eapply lookup_weaken; [done|apply F]|].
    intros Ho. apply Hno, (fr_open _ _ F); eauto.
Qed.

(** Receipts are carried along a frame. *)
Lemma frame_receipt s s' m rc : frame s s' → Inv s → in_landed (y_in s) !! m = Some rc →
  BackupValidMemberPath m = true ∧ rc_Member rc = m ∧
  ∃ d, y_used s' !! rc_Generation rc = Some d ∧ (open_dir s' d → stored s' d m rc).
Proof using.
  intros F I Hl. destruct (inv_landed _ I m rc Hl) as (Hm & Hr & d & Hu & Hs).
  split; [done|]. split; [done|]. exists d. split; [eapply lookup_weaken; [done|apply F]|].
  by eapply frame_stored.
Qed.

Lemma frame_landed s s' : frame s s' → Inv s → in_landed (y_in s') = in_landed (y_in s) →
  ∀ m rc, in_landed (y_in s') !! m = Some rc →
    BackupValidMemberPath m = true ∧ rc_Member rc = m ∧
    ∃ d, y_used s' !! rc_Generation rc = Some d ∧ (open_dir s' d → stored s' d m rc).
Proof using. intros F I -> m rc. by apply frame_receipt. Qed.

(** Lookups of the thread table after one thread moved. *)
Lemma thr_cases (thr : gmap nat Thread) t T t' T' :
  <[t := T]> thr !! t' = Some T' → (t' = t ∧ T' = T) ∨ (t' ≠ t ∧ thr !! t' = Some T').
Proof using. destruct (decide (t' = t)) as [->|]; [rewrite lookup_insert_eq; naive_solver|rewrite lookup_insert_ne by done; auto]. Qed.

Definition held (old : option Thread) : bool := match old with Some T => holds T | None => false end.

(** How a goroutine moves with respect to the slot. *)
Definition slot_move (s s' : Sys) (old : option Thread) (T : Thread) : Prop :=
  y_slots s' = y_slots s ∧ holds T = held old ∧
    (held old = false → ∀ k c, y_disk s' !! k = Some c → y_disk s !! k = Some c)
  ∨ y_slots s ≠ O ∧ y_slots s' = pred (y_slots s) ∧ holds T = true
  ∨ held old = true ∧ holds T = false ∧ y_slots s' = S (y_slots s) ∧ y_disk s' = y_disk s.

Lemma Inv_move s s' t T :
  Inv s → frame s s' → y_thr s' = <[t := T]> (y_thr s) → y_used s' = y_used s →
  (∀ g, in_gen (y_in s') = Some g ∨ in_last (y_in s') = Some g → in_gen (y_in s) = Some g ∨ in_last (y_in s) = Some g) →
  (∀ m rc, in_landed (y_in s') !! m = Some rc →
    BackupValidMemberPath m = true ∧ rc_Member rc = m ∧
    ∃ d, y_used s' !! rc_Generation rc = Some d ∧ (open_dir s' d → stored s' d m rc)) →
  thread_ok s' T → slot_move s s' (y_thr s !! t) T →
  (∀ r g gen m w c, T = TBody r g gen m w → y_disk s' !! (og_dir gen, temp_of m) = Some c → c = w) →
  Inv s'.
Proof using.
  intros I F Et Eu Hg Hl HT Hsl Hb. split.
  - intros gid d. rewrite Eu. apply I.
  - intros g Hin. eapply frame_known; [done|]. by apply (inv_gen _ I), Hg.
  - exact Hl.
  - intros t' T'. rewrite Et. intros [[-> ->]|[_ Ht]]%thr_cases; [done|].
    eapply frame_thread; [done|]. by apply (inv_thread _ I t').
  - pose proof (inv_slots _ I). destruct Hsl as [(-> & _)|[(? & -> & _)|(Ho & _ & -> & _)]]; [done|lia|].
    destruct (y_thr s !! t) as [T0|] eqn:E0; [|done]. destruct (y_slots s) as [|n] eqn:Es; [lia|].
    pose proof (inv_idle _ I t T0) as Hi. rewrite Es in Hi. simpl in Ho. rewrite Hi in Ho by done. done.
  - intros t' T' Hs. rewrite Et. pose proof (inv_slots _ I).
    intros [[-> ->]|[Hne Ht]]%thr_cases; destruct Hsl as [(Es & Eh & _)|[(? & Es & _)|(Ho & ? & Es & _)]].
    + rewrite Eh. destruct (y_thr s !! t) as [T0|] eqn:E0; [|done]. simpl. apply (inv_idle _ I t); [congruence|done].
    + lia.
    + done.
    + apply (inv_idle _ I t'); [congruence|done].
    + lia.
    + destruct (holds T') eqn:Eh'; [|done]. destruct (y_thr s !! t) as [T0|] eqn:E0; [|done].
      destruct Hne. by apply (inv_one _ I t' t T' T0).
  - intros t1 t2 T1 T2. rewrite Et.
    assert (∀ t' T', t' ≠ t → y_thr s !! t' = Some T' → holds T = true → holds T' = true → t' = t) as Haux.
    { intros t' T' Hne Ht' HT1 HT'. destruct Hsl as [(_ & Eh & _)|[(Hs & _)|(_ & ? & _)]]; [|by rewrite (inv_idle _ I t') in HT'|congruence].
      rewrite HT1 in Eh. destruct (y_thr s !! t) as [T0|] eqn:E0; [|done]. by apply (inv_one _ I t' t T' T0). }
    intros [[-> ->]|[Hn1 H1]]%thr_cases [[-> ->]|[Hn2 H2]]%thr_cases; [done| | |]; intros Hh1 Hh2.
    + symmetry. by eapply Haux.
    + by eapply Haux.
    + by apply (inv_one _ I t1 t2 T1 T2).
  - intros t' r g gen m w c. rewrite Et. intros [[-> <-]|[Hne Ht]]%thr_cases Hc; [by eapply Hb|].
    destruct (held (y_thr s !! t)) eqn:Eh.
    { destruct (y_thr s !! t) as [T0|] eqn:E0; [|done]. destruct Hne. by apply (inv_one _ I t' t _ T0 Ht E0). }
    eapply (inv_body _ I t'); [done|].
    destruct Hsl as [(_ & _ & Hd)|[(Hs & _)|(? & _)]]; [by apply Hd| |congruence].
    by pose proof (inv_idle _ I t' _ Hs Ht).
Qed.

Lemma Inv_env s s' :
  Inv s → frame s s' → y_thr s' = y_thr s → y_slots s' = y_slots s →
  (∀ k c, y_disk s' !! k = Some c → y_disk s !! k = Some c) →
  (∀ gid d, y_used s' !! gid = Some d → partial_dir gid d) →
  (∀ g, in_gen (y_in s') = Some g ∨ in_last (y_in s') = Some g → known s' g) →
  (∀ m rc, in_landed (y_in s') !! m = Some rc →
    BackupValidMemberPath m = true ∧ rc_Member rc = m ∧
    ∃ d, y_used s' !! rc_Generation rc = Some d ∧ (open_dir s' d → stored s' d m rc)) →
  Inv s'.
Proof using.
  intros I F Et Es Hd Hu Hg Hl. split; rewrite ?Et, ?Es; try done.
  - intros t T Ht. eapply frame_thread; [done|]. by apply (inv_thread _ I t).
  - apply I.
  - intros t T. apply I.
  - intros t t' T T'. apply I.
  - intros t r g gen m w c Ht Hc. eapply (inv_body _ I t); [done|]. by apply Hd.
Qed.

(** Frames of the kinds of change the steps make. *)
Lemma frame_keep s s' : y_used s' = y_used s → (∀ g, in_gen (y_in s') = Some g → in_gen (y_in s) = Some g) →
  (∀ d m c, BackupValidMemberPath m = true → open_dir s d → y_disk s !! (d, m) = Some c → y_disk s' !! (d, m) = Some c) →
  frame s s'.
Proof using.
  intros Eu Hg Hd. assert (∀ d, open_dir s' d → open_dir s d) as Ho by (intros d (g & ? & ?); exists g; auto).
  split; [by rewrite Eu|by auto|]. intros d m c Hm Hop. apply Hd; auto.
Qed.

Lemma lookup_write_temp (k k' : string * string) (c : string) (disk : gmap (string * string) string) :
  write_temp k c disk !! k' = if decide (k = k') then (match disk !! k with Some _ => Some c | None => None end) else disk !! k'.
Proof using.
  unfold write_temp. destruct (decide (k = k')) as [<-|Hne]; destruct (disk !! k) eqn:E; try done.
  - apply lookup_insert_eq.
  - by rewrite lookup_insert_ne.
Qed.

Lemma temp_key (d : string) m (d' : string) m' : BackupValidMemberPath m = true → BackupValidMemberPath m' = true → (d, temp_of m) ≠ (d', m').
Proof using. intros Hm Hm' [= _ E]. by apply (temp_not_member m m'). Qed.

Lemma lookup_without_dir (d : string) (k : string * string) (disk : gmap (string * string) string) : without_dir d disk !! k = if decide (k.1 = d) then None else disk !! k.
Proof using.
  unfold without_dir. destruct (decide (k.1 = d)) as [E|E].
  - apply map_lookup_filter_None. right. intros x _ Hx. by apply Hx.
  - destruct (disk !! k) as [c|] eqn:Ek; [by apply map_lookup_filter_Some|].
    apply map_lookup_filter_None. by left.
Qed.

Lemma Inv_claim t r now g gid m gen i s :
  Inv s → y_thr s !! t = None → serve_checks key now r = inl (g, gid, m) → serve_claim g gid m (y_in s) = inl (gen, i) →
  Inv (set_thr t (TQueued r g gen m) (set_in i s)).
Proof using.
  intros I Ht Hc Hk. destruct (serve_checks_inl _ _ _ _ _ Hc) as (Hw & Hu & Hn & Hm & Hgen & tok & Ha & Hv).
  destruct (serve_claim_inl _ _ _ _ _ _ Hk) as (Hg & Hid & Hj & _ & E1 & E2 & E3).
  assert (frame s (set_thr t (TQueued r g gen m) (set_in i s))) as F.
  { apply frame_keep; simpl; [done|by rewrite E1|done]. }
  eapply (Inv_move s _ t); [done|exact F|done|done| | | | |].
  - simpl. by rewrite E1, E2.
  - by apply (frame_landed s _ F I).
  - simpl. split; [apply (inv_gen _ I); auto|]. unfold authorised. eauto 15 using eq_trans.
  - left. simpl. rewrite Ht. done.
  - done.
Qed.

Lemma known_of s t T : Inv s → y_thr s !! t = Some T → thread_ok s T.
Proof using. intros I. apply I. Qed.

Lemma Inv_begin t r g gen m s :
  Inv s → y_thr s !! t = Some (TQueued r g gen m) → y_slots s ≠ O → y_disk s !! (og_dir gen, m) = None →
  Inv (set_thr t (TBody r g gen m EmptyString) (set_slots (pred (y_slots s))
        (set_disk (<[(og_dir gen, temp_of m) := EmptyString]> (y_disk s)) s))).
Proof using.
  intros I Ht Hs Hn. destruct (known_of _ _ _ I Ht) as [Hk Ha]. pose proof (authorised_valid _ _ _ _ Ha) as Hm.
  match goal with |- Inv ?s' => assert (frame s s') as F end.
  { apply frame_keep; simpl; [done|done|]. intros d m' c Hm' _ Hc. rewrite lookup_insert_ne; [done|by apply temp_key]. }
  eapply (Inv_move s _ t); [done|exact F|done|done|auto| | | |].
  - by apply (frame_landed s _ F I).
  - eapply (frame_thread _ _ _ F). by split.
  - right. left. done.
  - intros ? ? ? ? ? c [= <- <- <- <- <-]. simpl. rewrite lookup_insert_eq. by intros [= <-].
Qed.

Lemma Inv_refused t r g gen m disk s :
  Inv s → y_thr s !! t = Some (TQueued r g gen m) → y_slots s ≠ O →
  disk = y_disk s ∨ disk = delete (og_dir gen, temp_of m) (y_disk s) →
  Inv (set_thr t (TRelease m) (set_slots (pred (y_slots s)) (set_disk disk s))).
Proof using.
  intros I Ht Hs Hd. destruct (known_of _ _ _ I Ht) as [Hk Ha]. pose proof (authorised_valid _ _ _ _ Ha) as Hm.
  match goal with |- Inv ?s' => assert (frame s s') as F end.
  { apply frame_keep; simpl; [done|done|]. intros d m' c Hm' _ Hc. destruct Hd as [->| ->]; [done|].
    rewrite lookup_delete_ne; [done|by apply temp_key]. }
  eapply (Inv_move s _ t); [done|exact F|done|done|auto|by apply (frame_landed s _ F I)|done| |done].
  right. left. done.
Qed.

Lemma Inv_write t r g gen m w w' s :
  Inv s → y_thr s !! t = Some (TBody r g gen m w) →
  Inv (set_thr t (TBody r g gen m w') (set_disk (write_temp (og_dir gen, temp_of m) w' (y_disk s)) s)).
Proof using.
  intros I Ht. destruct (known_of _ _ _ I Ht) as [Hk Ha]. pose proof (authorised_valid _ _ _ _ Ha) as Hm.
  match goal with |- Inv ?s' => assert (frame s s') as F end.
  { apply frame_keep; simpl; [done|done|]. intros d m' c Hm' _ Hc. rewrite lookup_write_temp, decide_False; [done|by apply temp_key]. }
  eapply (Inv_move s _ t); [done|exact F|done|done|auto|by apply (frame_landed s _ F I)| | |].
  - eapply (frame_thread _ _ _ F). by split.
  - left. simpl. by rewrite Ht.
  - intros ? ? ? ? ? c [= <- <- <- <- <-]. simpl. rewrite lookup_write_temp, decide_True by done.
    destruct (y_disk s !! _); [by intros [= <-]|done].
Qed.

Lemma Inv_break t r g gen m w s :
  Inv s → y_thr s !! t = Some (TBody r g gen m w) →
  Inv (set_thr t (TRelease m) (set_disk (delete (og_dir gen, temp_of m) (y_disk s)) s)).
Proof using.
  intros I Ht. destruct (known_of _ _ _ I Ht) as [Hk Ha]. pose proof (authorised_valid _ _ _ _ Ha) as Hm.
  match goal with |- Inv ?s' => assert (frame s s') as F end.
  { apply frame_keep; simpl; [done|done|]. intros d m' c Hm' _ Hc. rewrite lookup_delete_ne; [done|by apply temp_key]. }
  eapply (Inv_move s _ t); [done|exact F|done|done|auto|by apply (frame_landed s _ F I)|done| |done].
  left. simpl. by rewrite Ht.
Qed.

Lemma Inv_rename t r g gen m w h now c s :
  Inv s → y_thr s !! t = Some (TBody r g gen m w) →
  y_disk s !! (og_dir gen, m) = None → y_disk s !! (og_dir gen, temp_of m) = Some c →
  Inv (set_thr t (TRenamed r g gen m (receipt r g gen m w h now))
        (set_disk (<[(og_dir gen, m) := c]> (delete (og_dir gen, temp_of m) (y_disk s))) s)).
Proof using.
  intros I Ht Hn Hc. destruct (known_of _ _ _ I Ht) as [Hk Ha]. pose proof (authorised_valid _ _ _ _ Ha) as Hm.
  pose proof (inv_body _ I _ _ _ _ _ _ _ Ht Hc) as ->.
  match goal with |- Inv ?s' => assert (frame s s') as F end.
  { apply frame_keep; simpl; [done|done|]. intros d m' c Hm' _ Hd.
    rewrite lookup_insert_ne by congruence. rewrite lookup_delete_ne; [done|by apply temp_key]. }
  eapply (Inv_move s _ t); [done|exact F|done|done|auto|by apply (frame_landed s _ F I)| | |done].
  - simpl. split; [by eapply frame_known|]. do 4 (split; [done || apply Ha|]).
    intros _. exists w. simpl. by rewrite lookup_insert_eq.
  - left. simpl. by rewrite Ht.
Qed.

Lemma Inv_record t r g gen m rc s :
  Inv s → y_thr s !! t = Some (TRenamed r g gen m rc) →
  Inv (set_thr t (TRelease m) (set_in (record m rc (y_in s)) s)).
Proof using.
  intros I Ht. destruct (known_of _ _ _ I Ht) as (Hk & Ha & Hg & Hm & _ & Hs).
  pose proof (authorised_valid _ _ _ _ Ha) as Hv.
  match goal with |- Inv ?s' => assert (frame s s') as F by (by apply frame_keep) end.
  eapply (Inv_move s _ t); [done|exact F|done|done|auto| |done| |done].
  - simpl. intros m' rc'. destruct (decide (m' = m)) as [->|Hne].
    + rewrite lookup_insert_eq. intros [= <-]. split; [done|]. split; [done|].
      exists (og_dir gen). rewrite Hg. split; [exact Hk|]. apply Hs.
    + rewrite lookup_insert_ne by done. intros Hl. exact (frame_receipt s _ _ _ F I Hl).
  - left. simpl. by rewrite Ht.
Qed.

(** A goroutine that only moves on, the in-flight marks changing at most. *)
Lemma Inv_quiet t old T i s :
  Inv s → y_thr s !! t = Some old → holds T = holds old → thread_ok s T →
  (∀ r g gen m w, T ≠ TBody r g gen m w) →
  in_gen i = in_gen (y_in s) → in_last i = in_last (y_in s) → in_landed i = in_landed (y_in s) →
  Inv (set_thr t T (set_in i s)).
Proof using.
  intros I Ht Hh HT Hb E1 E2 E3.
  match goal with |- Inv ?s' => assert (frame s s') as F by (apply frame_keep; simpl; [done|by rewrite E1|done]) end.
  eapply (Inv_move s _ t); [done|exact F|done|done|simpl; by rewrite E1, E2|by apply (frame_landed s _ F I)| | |].
  - by eapply frame_thread.
  - left. simpl. by rewrite Ht.
  - intros ? ? ? ? ? ? E. by destruct (Hb _ _ _ _ _ E).
Qed.

Lemma Inv_release t m s :
  Inv s → y_thr s !! t = Some (TRelease m) → Inv (set_thr t (TLeave m) (set_slots (S (y_slots s)) s)).
Proof using.
  intros I Ht. match goal with |- Inv ?s' => assert (frame s s') as F by (by apply frame_keep) end.
  eapply (Inv_move s _ t); [done|exact F|done|done|auto|by apply (frame_landed s _ F I)|done| |done].
  right. right. by rewrite Ht.
Qed.

Lemma Open_Ok gensDir gid job i i' gen : Open gensDir gid job i = Ok i' → in_gen i' = Some gen →
  in_gen i = None ∧ og_id gen = gid ∧ in_last i' = None ∧ in_landed i' = ∅ ∧ partial_dir gid (og_dir gen).
Proof using.
  unfold Open. destruct (IsAbs gensDir) eqn:Ea; [|done]. cbn [negb orb]. destruct (negb _); [done|].
  destruct (BackupValidGenerationID gid) eqn:Ev; [|done]. cbn [negb]. destruct (String.eqb _ _); [done|].
  destruct (in_gen i); [done|]. intros [= <-] [= <-]. do 4 (split; [done|]).
  exists gensDir. split; [by destruct gensDir|done].
Qed.

Lemma partial_dir_unique a b d : partial_dir a d → partial_dir b d → a = b.
Proof using. intros (gd & H1 & H2 & ->) (gd' & H3 & H4 & E). exact (partial_dir_inj gd a gd' b H1 H3 H2 H4 E). Qed.

Lemma Inv_open gensDir gid job i gen s :
  Inv s → y_used s !! gid = None → Open gensDir gid job (y_in s) = Ok i → in_gen i = Some gen →
  Inv (set_used (<[gid := og_dir gen]> (y_used s)) (set_in i s)).
Proof using.
  intros I Hu Ho Hg. destruct (Open_Ok _ _ _ _ _ _ Ho Hg) as (_ & <- & El & Ed & Hp).
  assert (∀ d, open_dir (set_used (<[og_id gen := og_dir gen]> (y_used s)) (set_in i s)) d → d = og_dir gen) as Hd.
  { intros d (g & Hin & <-). simpl in Hin. congruence. }
  apply (Inv_env s); [done| |done|done|done| | |].
  - split; [by apply insert_subseteq| |].
    + intros d ->%Hd [gid' Hu']. destruct (partial_dir_unique gid' (og_id gen) (og_dir gen)); [by apply (inv_used _ I)|done|].
      congruence.
    + intros d m c _ _ Hc. exact Hc.
  - simpl. intros gid' d. destruct (decide (gid' = og_id gen)) as [->|Hne].
    + rewrite lookup_insert_eq. by intros [= <-].
    + rewrite lookup_insert_ne by done. apply I.
  - simpl. intros g [Hin|Hin]; [|congruence]. assert (g = gen) as -> by congruence. apply lookup_insert_eq.
  - simpl. rewrite Ed. intros m rc. by rewrite lookup_empty.
Qed.

Lemma Inv_close gid s : Inv s → Inv (set_in (Close gid (y_in s)) s).
Proof using.
  intros I. unfold Close. destruct (in_gen (y_in s)) as [g|] eqn:Eg; [|by destruct s].
  destruct (String.eqb _ _); [|by destruct s].
  match goal with |- Inv ?s' => assert (frame s s') as F by (by apply frame_keep) end.
  apply (Inv_env s); [done|exact F|done|done|done|apply I| |by apply (frame_landed s _ F I)].
  simpl. intros g' [?|[= <-]]; [done|]. apply (inv_gen _ I). auto.
Qed.

Lemma Inv_abandon t gid dir i s :
  Inv s → y_thr s !! t = None → Abandon gid (y_in s) = (Some dir, i) → Inv (set_thr t (TRemove dir) (set_in i s)).
Proof using.
  intros I Ht. unfold Abandon.
  set (gen := if gen_is gid (in_gen (y_in s)) then in_gen (y_in s) else in_last (y_in s)).
  intros E. injection E as Edir <-.
  assert (∃ g, gen = Some g ∧ og_dir g = dir ∧ og_id g = gid) as (g & Eg & <- & Eid).
  { destruct gen as [g|] eqn:?; simpl in Edir; [|by destruct (gen_is _ _)].
    destruct (String.eqb_spec (og_id g) gid); [|done]. injection Edir as <-. eauto. }
  assert (known s g) as Hk.
  { apply (inv_gen _ I). subst gen. destruct (gen_is gid (in_gen (y_in s))); auto. }
  match goal with |- Inv ?s' => assert (frame s s') as F end.
  { apply frame_keep; simpl; [done| |done]. intros g'. by destruct (gen_is gid (in_gen (y_in s))). }
  eapply (Inv_move s _ t); [done|exact F|done|done| |by apply (frame_landed s _ F I)| | |done].
  - simpl. intros g'. destruct (gen_is gid (in_gen (y_in s))), (gen_is gid (in_last (y_in s))); naive_solver.
  - simpl. split; [by exists (og_id g)|]. intros (g' & Hin & Hd). simpl in Hin.
    destruct (gen_is gid (in_gen (y_in s))) eqn:Ei; [done|].
    assert (og_id g' = gid) as Hid; [|by rewrite Hin in Ei; simpl in Ei; rewrite Hid, String.eqb_refl in Ei].
    rewrite <- Eid. apply (partial_dir_unique _ _ (og_dir g)).
    + apply (inv_used _ I). rewrite <- Hd. apply (inv_gen _ I). auto.
    + by apply (inv_used _ I).
  - left. simpl. by rewrite Ht.
Qed.

Lemma Inv_remove t dir s : Inv s → y_thr s !! t = Some (TRemove dir) →
  Inv (set_thr t TOver (set_disk (without_dir dir (y_disk s)) s)).
Proof using.
  intros I Ht. destruct (known_of _ _ _ I Ht) as [_ Hno].
  match goal with |- Inv ?s' => assert (frame s s') as F end.
  { apply frame_keep; simpl; [done|done|]. intros d m c _ Ho Hc.
    rewrite lookup_without_dir. simpl. by rewrite decide_False by congruence. }
  eapply (Inv_move s _ t); [done|exact F|done|done|auto|by apply (frame_landed s _ F I)|done| |done].
  left. simpl. rewrite Ht. split; [done|]. split; [done|]. intros _ k c. rewrite lookup_without_dir.
  by destruct (decide _).
Qed.

Lemma Inv_publish dir s : Inv s → (∀ gen, in_gen (y_in s) = Some gen → og_dir gen ≠ dir) →
  Inv (set_disk (without_dir dir (y_disk s)) s).
Proof using.
  intros I Hno. match goal with |- Inv ?s' => assert (frame s s') as F end.
  { apply frame_keep; simpl; [done|done|]. intros d m c _ (g & Hg & Hd) Hc.
    rewrite lookup_without_dir. simpl. rewrite decide_False; [done|]. intros ->. by apply (Hno g Hg). }
  apply (Inv_env s); [done|exact F|done|done| |apply I|apply I|by apply (frame_landed s _ F I)].
  simpl. intros k c. rewrite lookup_without_dir. by destruct (decide _).
Qed.

Lemma Inv_step s s' : step s s' → Inv s → Inv s'.
Proof using.
  intros Hs I. destruct Hs.
  - by eapply Inv_claim.
  - change (set_thr ?t ?T s) with (set_thr t T (set_in (y_in s) s)). by eapply Inv_quiet.
  - by apply Inv_begin.
  - by eapply Inv_refused.
  - by eapply Inv_write.
  - by eapply Inv_break.
  - by eapply Inv_rename.
  - by eapply Inv_record.
  - by apply Inv_release.
  - by eapply Inv_quiet.
  - by eapply Inv_open.
  - by apply Inv_close.
  - by eapply Inv_abandon.
  - by apply Inv_remove.
  - by apply Inv_publish.
Qed.

Lemma Inv_start : Inv (start 1).
Proof using.
  split; simpl; try done.
  by intros g [?|?].
Qed.

Lemma Inv_reachable s : reachable key 1 s → Inv s.
Proof using.
  unfold reachable. generalize Inv_start. generalize (start 1).
  intros s0 I Hr. induction Hr as [|x y z Hs _ IH]; [done|]. apply IH. by eapply Inv_step.
Qed.

(** No step puts other content where a member is. *)
Lemma step_no_overwrite s s' d m c c' : Inv s → step s s' → BackupValidMemberPath m = true →
  y_disk s !! (d, m) = Some c → y_disk s' !! (d, m) = Some c' → c' = c.
Proof using.
  intros I Hs Hm Hc. destruct Hs as
    [ | |t r g gen m' s Ht Hs Hn|t r g gen m' disk s Ht Hs Hd|t r g gen m' w x s Ht|t r g gen m' w s Ht
    |t r g gen m' w h now c0 s Ht _ _ Hn| | | | | | | | ]; simpl; try congruence.
  - destruct (known_of _ _ _ I Ht) as [_ Ha%authorised_valid]. rewrite lookup_insert_ne by by apply temp_key. congruence.
  - destruct Hd as [->| ->]; [congruence|]. rewrite lookup_delete_Some. naive_solver congruence.
  - destruct (known_of _ _ _ I Ht) as [_ Ha%authorised_valid].
    rewrite lookup_write_temp, decide_False by by apply temp_key. congruence.
  - rewrite lookup_delete_Some. naive_solver congruence.
  - destruct (decide ((og_dir gen, m') = (d, m))) as [E|E]; [congruence|].
    rewrite lookup_insert_ne by done. rewrite lookup_delete_Some. naive_solver congruence.
  - rewrite lookup_without_dir. destruct (decide _); congruence.
  - rewrite lookup_without_dir. destruct (decide _); congruence.
Qed.

(** A receipt of the open generation stands for its file. *)
Lemma landed_stored s gid m rc : Inv s → Landed gid m (y_in s) = Some rc → rc_Generation rc = gid →
  rc_Member rc = m ∧
  ∃ d c, y_used s !! gid = Some d ∧ y_disk s !! (d, m) = Some c ∧
    sha256_hex c = rc_SealedDigest rc ∧ Z.of_nat (String.length c) = rc_SealedBytes rc.
Proof using.
  intros I. unfold Landed. intros Hl Hg. destruct (gen_is gid (in_gen (y_in s))) eqn:Ei; [|done].
  destruct (in_gen (y_in s)) as [gen|] eqn:Eg; [|done]. apply String.eqb_eq in Ei.
  destruct (inv_landed _ I m rc Hl) as (_ & Hm & d & Hu & Hs). split; [done|].
  assert (known s gen) as Hk by (apply (inv_gen _ I); auto). unfold known in Hk.
  assert (d = og_dir gen) as -> by congruence.
  destruct Hs as (c & ?); [by exists gen|]. exists (og_dir gen), c. by rewrite <- Hg.
Qed.

(** C39. The endpoint, under every interleaving of uploads with the opening,
    closing, abandoning and publishing of generations, at its default of one
    upload at a time.  What it reports as landed in the open generation, under
    a receipt of that generation, is a file in that generation's directory
    with the digest and the length of the receipt.  Whoever is writing holds
    a credential this endpoint signed, for uploads, issued to the node whose
    key the request was authenticated with, for that member of that
    generation and run.  And a member on the disk is never overwritten. *)
Theorem landed_is_stored (s : Sys) : reachable key 1 s →
  (∀ gid m rc, Landed gid m (y_in s) = Some rc → rc_Generation rc = gid →
     rc_Member rc = m ∧
     ∃ d c, y_used s !! gid = Some d ∧ y_disk s !! (d, m) = Some c ∧
       sha256_hex c = rc_SealedDigest rc ∧ Z.of_nat (String.length c) = rc_SealedBytes rc) ∧
  (∀ t r g gen m w, y_thr s !! t = Some (TBody r g gen m w) → authorised r g gen m) ∧
  (∀ s' d m c c', step s s' → BackupValidMemberPath m = true →
     y_disk s !! (d, m) = Some c → y_disk s' !! (d, m) = Some c' → c' = c).
Proof using.
  intros I%Inv_reachable. split; [|split].
  - intros gid m rc. by apply landed_stored.
  - intros t r g gen m w Ht. apply (known_of _ _ _ I Ht).
  - intros s' d m c c' Hs. by apply step_no_overwrite.
Qed.
End facts.

(** ** One run, step by step

    A concrete endpoint: encodings that keep text as it is, one credential it
    signed, and a sealed archive of three bytes. *)
Module Run.
Definition m1 : string := "volumes/vault/data.rasputin-archive".
Definition grant1 : Grant := mkGrant "gen1" m1 "n1" "job1" 9000 0 100 "nonce" EmptyString.

#[export] Instance crypto : Crypto := {|
  b64enc s := s; b64dec s := Some s;
  json_enc g := g_Generation g; json_dec s := if String.eqb s "gen1" then Some grant1 else None;
  hmac_sha256 key payload := key +:+ "-signed" |}.
#[export] Instance archive : Archive := {|
  sha256_hex s := "digest of " +:+ s; ToLower s := s;
  ReadHeader s := Some (mkHeader "key1" "full" "epk") |}.

Definition request1 : Request :=
  mkRequest "PUT" ("/api/backup/ingest/gen1/" +:+ m1) "Bearer rbx1.gen1.k-signed" "n1"
    "3" "plain" "abc" true "digest of abc" "3".

Definition gen_of (gid job : string) : openGeneration :=
  mkGen gid job "/mnt/generations" ("/mnt/generations/.partial-" +:+ gid).

Definition rc1 : Receipt := receipt request1 grant1 (gen_of "gen1" "job1") m1 "abc" (mkHeader "key1" "full" "epk") 7.

Definition s1 : Sys := set_used (<["gen1" := og_dir (gen_of "gen1" "job1")]> ∅)
  (set_in (mkIngest (Some (gen_of "gen1" "job1")) None ∅ ∅) (start 1)).
Definition s2 : Sys := set_thr 0 (TQueued request1 grant1 (gen_of "gen1" "job1") m1)
  (set_in (mkIngest (Some (gen_of "gen1" "job1")) None ∅ ({[m1]} ∪ ∅)) s1).
Definition s3 : Sys := set_thr 0 (TBody request1 grant1 (gen_of "gen1" "job1") m1 EmptyString)
  (set_slots (pred (y_slots s2)) (set_disk (<[(og_dir (gen_of "gen1" "job1"), temp_of m1) := EmptyString]> (y_disk s2)) s2)).
Definition s4 : Sys := set_thr 0 (TBody request1 grant1 (gen_of "gen1" "job1") m1 (EmptyString +:+ "abc"))
  (set_disk (write_temp (og_dir (gen_of "gen1" "job1"), temp_of m1) (EmptyString +:+ "abc") (y_disk s3)) s3).
Definition s5 : Sys := set_thr 0 (TRenamed request1 grant1 (gen_of "gen1" "job1") m1 rc1)
  (set_disk (<[(og_dir (gen_of "gen1" "job1"), m1) := "abc"]> (delete (og_dir (gen_of "gen1" "job1"), temp_of m1) (y_disk s4))) s4).

Lemma run5 : reachable "k" 1 s5.
Proof.
  unfold reachable. eapply rtc_l.
  { apply (s_open "k" "/mnt/generations" "gen1" "job1" (mkIngest (Some (gen_of "gen1" "job1")) None ∅ ∅) (gen_of "gen1" "job1"));
      by vm_compute. }
  change (rtc (step "k") s1 s5). eapply rtc_l.
  { apply (s_claim "k" 0%nat request1 7 grant1 "gen1" m1 (gen_of "gen1" "job1")
      (mkIngest (Some (gen_of "gen1" "job1")) None ∅ ({[m1]} ∪ ∅))); by vm_compute. }
  change (rtc (step "k") s2 s5). eapply rtc_l; [apply (s_begin "k" 0%nat request1 grant1 (gen_of "gen1" "job1") m1); by vm_compute|].
  change (rtc (step "k") s3 s5). eapply rtc_l; [apply (s_write "k" 0%nat request1 grant1 (gen_of "gen1" "job1") m1 EmptyString "abc"); by vm_compute|].
  change (rtc (step "k") s4 s5). apply rtc_once.
  apply (s_rename "k" 0%nat request1 grant1 (gen_of "gen1" "job1") m1 "abc" (mkHeader "key1" "full" "epk") 7 "abc"); by vm_compute.
Qed.

(** The receipt recorded while its generation is open. *)
Definition s6 : Sys := set_thr 0 (TRelease m1) (set_in (record m1 rc1 (y_in s5)) s5).

(** The same receipt recorded after the run was closed and the next run
    opened its own generation. *)
Definition c6 : Sys := set_in (Close "gen1" (y_in s5)) s5.
Definition c7 : Sys := set_used (<["gen2" := og_dir (gen_of "gen2" "job2")]> (y_used c6))
  (set_in (mkIngest (Some (gen_of "gen2" "job2")) None ∅ ∅) c6).
Definition c8 : Sys := set_thr 0 (TRelease m1) (set_in (record m1 rc1 (y_in c7)) c7).

Lemma run_recorded : reachable "k" 1 s6.
Proof. eapply rtc_r; [apply run5|]. apply (s_record "k" 0%nat request1 grant1 (gen_of "gen1" "job1")). by vm_compute. Qed.

Lemma run_crossed : reachable "k" 1 c8.
Proof.
  eapply rtc_r; [eapply rtc_r; [eapply rtc_r; [apply run5|apply (s_close "k" "gen1")]|]|].
  - apply (s_open "k" "/mnt/generations" "gen2" "job2" (mkIngest (Some (gen_of "gen2" "job2")) None ∅ ∅) (gen_of "gen2" "job2"));
      by vm_compute.
  - apply (s_record "k" 0%nat request1 grant1 (gen_of "gen1" "job1")). by vm_compute.
Qed.
End Run.

Lemma landed_is_stored_witness :
  reachable (H := Run.crypto) (H0 := Run.archive) "k" 1 Run.s6 ∧
  Landed "gen1" Run.m1 (y_in Run.s6) = Some Run.rc1 ∧
  ∃ d c, y_used Run.s6 !! "gen1" = Some d ∧ y_disk Run.s6 !! (d, Run.m1) = Some c.
Proof.
  split; [apply Run.run_recorded|]. split; [by vm_compute|].
  destruct (@landed_is_stored Run.crypto Run.archive "k" Run.s6 Run.run_recorded) as (HL & _ & _).
  destruct (HL "gen1" Run.m1 Run.rc1) as (_ & d & c & Hu & Hd & _); [by vm_compute..|].
  exists d, c. by split.
Defined.
