(* ===== verification/BackupFanOut.v ===== *)
(** * The backup fan-out

    api/internal/storage/fanout.go and transfer_route.go: one volume at a
    time, the hosting node is routed to, asked to stage, asked to seal and
    upload, what landed is read from the endpoint's own record, and the space
    is given back.  Bus replies, the inventory and the endpoint, which uploads
    move while the fan-out waits, are the environment.  Log lines are left
    out, and so are marshalling errors, which structs of strings and numbers
    do not have. *)
From Stdlib Require Import Ascii String.
From S2P Require Import Prelude GoStrings GoRunes BackupMembers BackupPlan BackupReport BackupGrants BackupIngest.
Open Scope string_scope.
Open Scope list_scope.
Open Scope Z_scope.

(** ** The bus's messages: the fields that are read *)

Record StageCmd := mkStageCmd {
  sc_AppID : string; sc_AppName : string; sc_Volume : string; sc_Class : string; sc_Quiesce : string; sc_StagingName : string }.

Record StageAck := mkStageAck {
  k_OK : bool; k_SizeBytes : Z; k_Digest : string; k_PlaintextBytes : Z; k_FileCount : Z;
  k_Consistency : string; k_Window : string; k_ServiceInterrupting : bool; k_DowntimeMillis : Z;
  k_AppRestored : bool; k_RestoreDetail : string; k_Databases : list string; k_SnapshotTool : string;
  k_Refusal : string; k_Detail : string }.

(** A request's outcome: nats.ErrNoResponders, another error, a reply that
    does not decode, or the decoded reply. *)
Inductive StageReply :=
| NoResponders
| StageError (e : error)
| Unreadable (e : error)
| Staged (ack : StageAck).

Record TransferCmd := mkTransferCmd {
  tc_StagingName : string; tc_Destination : string; tc_Credential : string;
  tc_PublicKey : string; tc_KeyID : string; tc_Scope : string; tc_GenerationID : string; tc_Member : string;
  tc_AppID : string; tc_AppName : string; tc_Volume : string; tc_PlaintextDigest : string; tc_PlaintextBytes : Z }.

Record TransferAck := mkTransferAck {
  x_OK : bool; x_PlaintextDigest : string; x_DestinationCode : string; x_Refusal : string; x_Detail : string }.

Definition BackupRefusalDestinationRefused : string := "destination-refused".
Definition BackupRefusalDestinationUnsupported : string := "destination-unsupported".
Definition BackupRefusalStagingMissing : string := "staging-missing".
Definition BackupRefusalDigestMismatch : string := "digest-mismatch".

(** inventory.NoResponder, as silenceReason reads it. *)
Record NoResponder := mkNoResponder { n_Online : bool; n_SilenceOffline : bool; n_StatusOffline : bool; n_String : string }.

(** proto.Node, as the router reads it. *)
Record Node := mkNode { nd_Capabilities : list string; nd_AgentVersion : string }.

(** ** The environment *)
Class Env (W : Type) := {
  w_ingest : W → Ingest;                                 (* the endpoint, as it stands *)
  w_left : W → option Z;                                 (* time until the step's deadline, if it has one *)
  w_now : W → Z;
  w_key : string;                                        (* the Authority's key *)
  w_nonce : M W (result string);                         (* crypto/rand *)
  w_Get : string → M W (result (option Node));           (* inventory *)
  w_NodeKeys : string → M W (result (gmap string string));
  w_ExplainNoResponder : string → M W NoResponder;
  w_stage : string → StageCmd → M W StageReply;          (* the three verbs, to a node *)
  w_transfer : string → TransferCmd → M W (option error * TransferAck);
  w_unstage : string → string → M W unit }.

(** ** The router *)

Definition ErrNoNodeListener : error := sentinel "ErrNoNodeListener"
  "this api has no node listener (RASPUTIN_HTTPS_ADDR is unset), so no node has a backup transfer route".
Definition ErrAgentPredatesKeyBoundTransfer : error :=
  sentinel "ErrAgentPredatesKeyBoundTransfer" "agent predates key-bound transfer".
Definition CapabilityKeyBoundTransfer : string := "key-bound-transfer".
Definition NodeKeyAgent : string := "agent".

Definition agentVersionOf (n : Node) : string :=
  let v := Trim (nd_AgentVersion n) in if String.eqb v EmptyString then "(version not reported)" else v.

Definition stageRPCBudget : Z := 30 * minute + 90 * second.
Definition transferRPCBudget : Z := BackupTransferWork + 90 * second.
Definition transferAttempts : nat := 2.

Record fanOutOpts := mkOpts {
  o_Nodes : bool;                  (* an inventory to read silences against *)
  o_JobID : string; o_GenerationID : string;
  o_Ingest : bool; o_Router : option string;  (* wired; the router with its ingest URL *)
  o_PublicKey : string; o_KeyID : string; o_Scope : string;
  o_Plan : list PlannedVolume; o_Skipped : list VolumeRecord; o_Enumeration : AppEnumeration }.

Section fanout.
Context `{Crypto} {W : Type} `{Env W}.

Definition route (nodeID dest : string) : M W (result string) :=
  n ← w_Get nodeID;
  match n with
  | Fail e => mret (Fail (wrapf ("node " +:+ nodeID +:+ ": reading it from inventory to route its backup transfer: " +:+ err_text e) e))
  | Ok None => mret (Fail (errors_New ("node " +:+ nodeID +:+ " is not in inventory, so there is no route for its backup transfer")))
  | Ok (Some n) =>
      if String.eqb dest EmptyString then
        mret (Fail (wrapf ("node " +:+ nodeID +:+ ": " +:+ err_text ErrNoNodeListener) ErrNoNodeListener))
      else if negb (bool_decide (CapabilityKeyBoundTransfer ∈ nd_Capabilities n)) then
        mret (Fail (wrapf ("node " +:+ nodeID +:+ " runs agent " +:+ agentVersionOf n +:+ ": its " +:+
          err_text ErrAgentPredatesKeyBoundTransfer +:+ "; update the node") ErrAgentPredatesKeyBoundTransfer))
      else
        keys ← w_NodeKeys nodeID;
        match keys with
        | Fail e => mret (Fail (wrapf ("node " +:+ nodeID +:+ ": reading its registered keys to route its backup transfer: " +:+ err_text e) e))
        | Ok keys =>
            if String.eqb (default EmptyString (keys !! NodeKeyAgent)) EmptyString then
              mret (Fail (errors_New ("node " +:+ nodeID +:+ " advertises key-bound transfer but has no registered agent key; see the inventory log for why its key report was refused")))
            else mret (Ok dest)
        end
  end.

(** ** One pass: the world and the routes remembered so far *)
Record Pass := mkPass { p_world : W; p_routes : gmap string (result string) }.

(** A call into the world. *)
Definition lift {A} (m : M W A) : M Pass A := λ p,
  let '(a, w) := m (p_world p) in (a, mkPass w (p_routes p)).

Definition routeFor (router node : string) : M Pass (result string) :=
  p ← get;
  match p_routes p !! node with
  | Some a => mret a
  | None =>
      a ← lift (route node router);
      _ ← modify (λ p, mkPass (p_world p) (<[node := a]> (p_routes p)));
      mret a
  end.

Definition budgetAllows (w : W) : bool :=
  match w_left w with None => true | Some rest => stageRPCBudget + transferRPCBudget <? rest end.

(** ** Sentences *)

Definition refusalReason (nodeID refusal detail : string) : string :=
  let r := Trim refusal in let r := if String.eqb r EmptyString then "refused" else r in
  let d := Trim detail in let d := if String.eqb d EmptyString then "no detail given" else d in
  nodeID +:+ " refused to stage it (" +:+ r +:+ "): " +:+ d.

Definition transferReason (nodeID : string) (ack : TransferAck) : string :=
  let r := Trim (x_Refusal ack) in let r := if String.eqb r EmptyString then "refused" else r in
  let r := if String.eqb (x_DestinationCode ack) EmptyString then r else r +:+ ", destination said " +:+ x_DestinationCode ack in
  let d := Trim (x_Detail ack) in let d := if String.eqb d EmptyString then "no detail given" else d in
  nodeID +:+ " could not upload it (" +:+ r +:+ "): " +:+ d.

Definition silenceReason (o : fanOutOpts) (node : string) : M Pass string :=
  let offline := "node " +:+ node +:+ " is OFFLINE: no agent answered the staging request on the bus, so nothing could copy this volume. " +:+
    "§4.4: an app whose node is offline at backup time has a FAILED backup, not a skipped one" in
  if o_Nodes o then
    why ← lift (w_ExplainNoResponder node);
    if n_Online why then
      mret (n_String why +:+ ". Nothing could copy this volume, so this app's backup is FAILED, not skipped — §4.4 as for an offline node, though this node is NOT offline")
    else if negb (n_SilenceOffline why) || negb (n_StatusOffline why) then
      mret (n_String why +:+ ". Nothing could copy this volume, so this app's backup is FAILED, not skipped — §4.4 as for an offline node")
    else mret offline
  else mret offline.

Definition reason_budget : string :=
  "the run's 2h0m0s app-volume budget was exhausted before this volume was reached. Volumes are staged one at a time " +:+
  "and each may take up to 30m0s to stage and 45m0s to transfer; a cluster whose app data cannot be moved inside the budget needs a longer one, " +:+
  "or fewer volumes classed `critical`/`state`".

(** ** One volume *)

(** The record once the stage verb has answered: failed until it lands. *)
Definition staged_record (pv : PlannedVolume) (ack : StageAck) (reason : string) : VolumeRecord :=
  {| r_App := pv_AppName pv; r_AppID := pv_AppID pv; r_TileID := pv_TileID pv; r_Node := pv_NodeID pv;
     r_Volume := pv_Volume pv; r_Class := pv_Class pv; r_Strategy := pv_Quiesce pv;
     r_Captured := false; r_Failed := true; r_Reason := reason;
     r_Member := EmptyString; r_SealedBy := EmptyString; r_KeyID := EmptyString;
     r_SealedSHA256 := EmptyString; r_SealedSizeBytes := 0;
     r_SizeBytes := 0; r_PlaintextBytes := 0; r_FileCount := 0; r_SHA256 := EmptyString;
     r_Consistency := k_Consistency ack; r_Window := k_Window ack;
     r_ServiceInterrupting := k_ServiceInterrupting ack; r_DowntimeMillis := k_DowntimeMillis ack;
     r_AppRestored := k_AppRestored ack; r_RestoreDetail := k_RestoreDetail ack;
     r_Databases := k_Databases ack; r_SnapshotTool := k_SnapshotTool ack |}.

Definition captured_record (o : fanOutOpts) (pv : PlannedVolume) (ack : StageAck) (rc : Receipt) : VolumeRecord :=
  {| r_App := pv_AppName pv; r_AppID := pv_AppID pv; r_TileID := pv_TileID pv; r_Node := pv_NodeID pv;
     r_Volume := pv_Volume pv; r_Class := pv_Class pv; r_Strategy := pv_Quiesce pv;
     r_Captured := true; r_Failed := false; r_Reason := EmptyString;
     r_Member := rc_Member rc; r_SealedBy := rc_NodeID rc; r_KeyID := o_KeyID o;
     r_SealedSHA256 := rc_SealedDigest rc; r_SealedSizeBytes := rc_SealedBytes rc;
     r_SizeBytes := k_SizeBytes ack; r_PlaintextBytes := k_PlaintextBytes ack; r_FileCount := k_FileCount ack; r_SHA256 := k_Digest ack;
     r_Consistency := k_Consistency ack; r_Window := k_Window ack;
     r_ServiceInterrupting := k_ServiceInterrupting ack; r_DowntimeMillis := k_DowntimeMillis ack;
     r_AppRestored := k_AppRestored ack; r_RestoreDetail := k_RestoreDetail ack;
     r_Databases := k_Databases ack; r_SnapshotTool := k_SnapshotTool ack |}.

Definition landed (o : fanOutOpts) (pv : PlannedVolume) (stage : StageAck) (xfer : TransferAck) (rc : Receipt) (node : string) : VolumeRecord :=
  if x_OK xfer && negb (String.eqb (x_PlaintextDigest xfer) EmptyString) && negb (EqualFold (x_PlaintextDigest xfer) (k_Digest stage)) then
    staged_record pv stage ("REFUSED: " +:+ node +:+ " staged " +:+ pv_Volume pv +:+ " with digest " +:+ ShortFingerprint (k_Digest stage) +:+
      " and sealed bytes hashing to " +:+ ShortFingerprint (x_PlaintextDigest xfer) +:+
      "; the member on the target is not the copy the stage verb described and is not indexed")
  else if negb (String.eqb (rc_PlaintextDigest rc) EmptyString) && negb (EqualFold (rc_PlaintextDigest rc) (k_Digest stage)) then
    staged_record pv stage ("REFUSED: the member that landed declares plaintext digest " +:+ ShortFingerprint (rc_PlaintextDigest rc) +:+
      " and the stage verb reported " +:+ ShortFingerprint (k_Digest stage) +:+ "; not indexed")
  else if negb (x_OK xfer) && String.eqb (x_Refusal xfer) BackupRefusalDigestMismatch then
    staged_record pv stage (transferReason node xfer)
  else captured_record o pv stage rc.

(** transferCommand: mint the attempt's credential, then the command. *)
Definition transferCommand (o : fanOutOpts) (g : Grant) (cmd : string → TransferCmd) : M Pass (result TransferCmd) :=
  nonce ← lift w_nonce;
  p ← get;
  match ingest_Mint w_key (w_ingest (p_world p)) nonce (w_now (p_world p)) g transferRPCBudget with
  | Fail e => mret (Fail (wrapf ("could not mint an upload credential for " +:+ g_Member g +:+ ": " +:+ err_text e) e))
  | Ok cred => mret (Ok (cmd cred))
  end.

(** A refusal a second attempt would only repeat. *)
Definition final_refusal (refusal : string) : bool :=
  String.eqb refusal BackupRefusalDestinationRefused || String.eqb refusal BackupRefusalDestinationUnsupported ||
  String.eqb refusal BackupRefusalStagingMissing || String.eqb refusal BackupRefusalDigestMismatch.

(** [for attempt := ...; attempt <= transferAttempts; attempt++], with
    [fuel] attempts to go. *)
Fixpoint transfer_loop (o : fanOutOpts) (pv : PlannedVolume) (ack : StageAck) (name node dest : string)
    (fuel : nat) (last : string) : M Pass VolumeRecord :=
  match fuel with
  | O => mret (staged_record pv ack ("the upload did not land after " +:+ pretty (Z.of_nat transferAttempts) +:+ " attempt(s); last: " +:+ last))
  | S fuel =>
      let member := volume_Member pv in
      tcmd ← transferCommand o
        (mkGrant (o_GenerationID o) member node (o_JobID o) (SealedSizeBound (k_SizeBytes ack)) 0 0 EmptyString EmptyString)
        (λ cred, mkTransferCmd name dest cred (o_PublicKey o) (o_KeyID o) (o_Scope o) (o_GenerationID o) member
                   (pv_AppID pv) (pv_AppName pv) (pv_Volume pv) (k_Digest ack) (k_SizeBytes ack));
      match tcmd with
      | Fail e => mret (staged_record pv ack (err_text e))
      | Ok cmd =>
          reply ← lift (w_transfer node cmd);
          let '(terr, tack) := reply in
          p ← get;
          match Landed (o_GenerationID o) member (w_ingest (p_world p)) with
          | Some rc => mret (landed o pv ack tack rc node)
          | None =>
              match terr with
              | Some e => transfer_loop o pv ack name node dest fuel
                            ("the transfer request to " +:+ node +:+ " failed: " +:+ err_text e)
              | None =>
                  if negb (x_OK tack) then
                    if final_refusal (x_Refusal tack) then mret (staged_record pv ack (transferReason node tack))
                    else transfer_loop o pv ack name node dest fuel (transferReason node tack)
                  else transfer_loop o pv ack name node dest fuel
                         (node +:+ " reported the upload of " +:+ member +:+ " as landed and the endpoint has no record of it")
              end
          end
      end
  end.

Definition unstage (node name : string) : M Pass unit := lift (w_unstage node name).

Definition captureOne (o : fanOutOpts) (router : string) (i : nat) (pv : PlannedVolume) : M Pass VolumeRecord :=
  let name := o_GenerationID o +:+ "." +:+ "vol" +:+ pretty (Z.of_nat i) in
  if negb (BackupValidStagingName name) then
    mret (failedVolume pv ("internal: " +:+ quote name +:+ " is not a valid staging name"))
  else
    let node := Trim (pv_NodeID pv) in
    dest ← routeFor router node;
    match dest with
    | Fail e => mret (failedVolume pv ("no upload route for node " +:+ node +:+ ", so the volume was not staged and its app was not stopped: " +:+ err_text e))
    | Ok dest =>
        reply ← lift (w_stage node (mkStageCmd (pv_AppID pv) (pv_AppName pv) (pv_Volume pv) (pv_Class pv) (pv_Quiesce pv) name));
        match reply with
        | NoResponders => reason ← silenceReason o node; mret (failedVolume pv reason)
        | StageError e =>
            _ ← unstage node name;
            mret (failedVolume pv ("the staging request to " +:+ node +:+ " failed: " +:+ err_text e +:+ ". Whether the app was stopped is unknown from here; " +:+
              "the agent's watchdog restarts it on a lost reply and again at its next start"))
        | Unreadable e =>
            _ ← unstage node name;
            mret (failedVolume pv ("the reply from " +:+ node +:+ " was unreadable: " +:+ err_text e))
        | Staged ack =>
            rec ←
              (if negb (k_OK ack) then mret (staged_record pv ack (refusalReason node (k_Refusal ack) (k_Detail ack)))
               else if String.eqb (k_Digest ack) EmptyString || (k_SizeBytes ack =? 0) then
                 mret (staged_record pv ack (node +:+ " reported a successful copy with no digest or a zero length, so there is nothing this run can verify before sealing it"))
               else transfer_loop o pv ack name node dest transferAttempts EmptyString);
            _ ← unstage node name;
            mret rec
        end
    end.

(** ** The pass *)

(** The loop over the plan: the records in order, and the nodes asked. *)
Fixpoint fan_loop (o : fanOutOpts) (router : string) (i : nat) (plan : list PlannedVolume) : M Pass (list VolumeRecord * list string) :=
  match plan with
  | [] => mret ([], [])
  | pv :: rest =>
      p ← get;
      if budgetAllows (p_world p) then
        rec ← captureOne o router i pv;
        more ← fan_loop o router (S i) rest;
        mret (rec :: more.1, pv_NodeID pv :: more.2)
      else mret ((λ v, failedVolume v reason_budget) <$> plan, [])
  end.

Definition errNoIngest : error := errors_New
  "this api has no ingest endpoint for volumes to land at, or cannot route uploads to it, so no app volume can be captured; refusing rather than recording every one as failed".

Definition runFanOut (o : fanOutOpts) : M W (result AppVolumeReport) := λ w,
  match o_Plan o with
  | [] => (Ok (NewAppVolumeReport (o_Enumeration o) (o_Skipped o) 0), w)
  | _ =>
      match o_Ingest o, o_Router o with
      | true, Some router =>
          let '((records, nodes), p) := fan_loop o router 0 (o_Plan o) (mkPass w ∅) in
          (Ok (NewAppVolumeReport (o_Enumeration o) (o_Skipped o ++ records) (Z.of_nat (length (remove_dups nodes)))), p_world p)
      | _, _ => (Fail errNoIngest, w)
      end
  end.
End fanout.
