(* ===== verification/BackupFanOutFacts.v ===== *)
(** * What a fan-out's report may be believed for

    Every planned volume ends in exactly one record; a record that says
    captured rests on a receipt the ingest endpoint itself reported for that
    member; a record that does not says why; and the report is complete
    exactly when nothing the cluster owes is missing. *)
From Stdlib Require Import Ascii String.
From S2P Require Import Prelude GoStrings GoRunes BackupMembers BackupPlan BackupReport BackupGrants.
From S2P Require Import BackupIngest BackupIngestFacts BackupFanOut.
Open Scope string_scope.
Open Scope list_scope.
Open Scope Z_scope.
#[local] Arguments String.append : simpl nomatch.

Lemma app_ne_l (a b : string) : a ≠ EmptyString → a +:+ b ≠ EmptyString.
Proof. by destruct a. Qed.
Lemma app_ne_r (a b : string) : b ≠ EmptyString → a +:+ b ≠ EmptyString.
Proof. by destruct a. Qed.
Ltac nonempty := first [done | apply app_ne_l; done | apply app_ne_r; nonempty].

Lemma about_staged pv ack reason : about (staged_record pv ack reason) = pv.
Proof. by destruct pv. Qed.
Lemma about_captured o pv ack rc : about (captured_record o pv ack rc) = pv.
Proof. by destruct pv. Qed.

Section facts.
Context `{Crypto} {W : Type} `{Env W}.

(** What a client may assume of the world: a fact no call into it breaks. *)
Class EnvInv (I : W → Prop) : Prop := {
  ei_nonce : preserves I w_nonce;
  ei_Get n : preserves I (w_Get n);
  ei_NodeKeys n : preserves I (w_NodeKeys n);
  ei_Explain n : preserves I (w_ExplainNoResponder n);
  ei_stage n c : preserves I (w_stage n c);
  ei_transfer n c : preserves I (w_transfer n c);
  ei_unstage n c : preserves I (w_unstage n c) }.

Context (I : W → Prop) `{!EnvInv I}.
Definition J (p : Pass) : Prop := I (p_world p).

#[local] Hint Resolve ei_nonce ei_Get ei_NodeKeys ei_Explain ei_stage ei_transfer ei_unstage : triples.

Lemma lift_ok {A} (m : M W A) : preserves I m → preserves J (lift m).
Proof using. intros Hm p Hp. unfold lift. specialize (Hm (p_world p) Hp). by destruct (m (p_world p)). Qed.
#[local] Hint Resolve lift_ok : triples.

Lemma route_ok n d : preserves I (route n d).
Proof using EnvInv0.
  unfold route. apply preserves_bind; [auto with triples|]. intros [[nd|]|e]; [|apply preserves_ret..].
  destruct (String.eqb _ _); [apply preserves_ret|]. destruct (negb _); [apply preserves_ret|].
  apply preserves_bind; [auto with triples|]. intros [ks|e]; [destruct (String.eqb _ _)|]; apply preserves_ret.
Qed.
#[local] Hint Resolve route_ok : triples.

Lemma routeFor_ok r n : preserves J (routeFor r n).
Proof using EnvInv0.
  unfold routeFor. apply preserves_bind; [apply preserves_get|]. intros p. destruct (_ !! n); [apply preserves_ret|].
  apply preserves_bind; [auto with triples|]. intros a.
  apply preserves_bind; [by apply preserves_modify|]. intros. apply preserves_ret.
Qed.

(** The record's captured volume really is what the endpoint reported, in
    some world the run saw. *)
Definition captured_from (o : fanOutOpts) (r : VolumeRecord) : Prop :=
  ∃ w ack rc, I w ∧
    Landed (o_GenerationID o) (volume_Member (about r)) (w_ingest w) = Some rc ∧
    r = captured_record o (about r) ack rc ∧
    k_OK ack = true ∧ k_Digest ack ≠ EmptyString ∧ k_SizeBytes ack ≠ 0 ∧
    (rc_PlaintextDigest rc = EmptyString ∨ EqualFold (rc_PlaintextDigest rc) (k_Digest ack) = true).

Definition honest (o : fanOutOpts) (r : VolumeRecord) : Prop :=
  if r_Captured r then r_Failed r = false ∧ captured_from o r else r_Reason r ≠ EmptyString.

Definition outcome (o : fanOutOpts) (pv : PlannedVolume) (r : VolumeRecord) (p : Pass) : Prop :=
  J p ∧ about r = pv ∧ honest o r ∧ (r_Captured r = false → r_Failed r = true).

Lemma outcome_failed o pv reason p : J p → reason ≠ EmptyString → outcome o pv (failedVolume pv reason) p.
Proof using. intros Hp Hr. repeat split; [done|apply about_failedVolume|done]. Qed.

Lemma outcome_staged o pv ack reason p : J p → reason ≠ EmptyString → outcome o pv (staged_record pv ack reason) p.
Proof using. intros Hp Hr. repeat split; [done|apply about_staged|done]. Qed.

Lemma outcome_landed o pv ack xfer rc node p :
  J p → Landed (o_GenerationID o) (volume_Member pv) (w_ingest (p_world p)) = Some rc →
  k_OK ack = true → k_Digest ack ≠ EmptyString → k_SizeBytes ack ≠ 0 →
  outcome o pv (landed o pv ack xfer rc node) p.
Proof using.
  intros Hp Hl H1 H2 H3. unfold landed.
  destruct (_ && _ && _); [apply outcome_staged; [done|nonempty]|].
  destruct (String.eqb_spec (rc_PlaintextDigest rc) EmptyString) as [He|He];
    [|destruct (EqualFold (rc_PlaintextDigest rc) (k_Digest ack)) eqn:Ef]; cbn [negb andb].
  3: by apply outcome_staged; [done|nonempty].
  all: destruct (_ && _); [apply outcome_staged; [done|unfold transferReason; nonempty]|].
  all: split; [done|]; split; [apply about_captured|]; split; [|done].
  all: split; [done|]; exists (p_world p), ack, rc; rewrite about_captured; split_and!; auto.
Qed.

Lemma transferCommand_ok o g cmd :
  triple J (transferCommand o g cmd) (λ a p, J p ∧ match a with Fail e => err_text e ≠ EmptyString | _ => True end).
Proof using EnvInv0.
  unfold transferCommand. eapply triple_bind; [apply lift_ok, ei_nonce|]. intros n.
  eapply triple_bind; [apply preserves_get|]. intros p q Hq. cbn beta.
  destruct (ingest_Mint _ _ _ _ _ _); split; try done.
Qed.

Lemma transfer_loop_ok o pv ack name node dest fuel last :
  k_OK ack = true → k_Digest ack ≠ EmptyString → k_SizeBytes ack ≠ 0 →
  triple J (transfer_loop o pv ack name node dest fuel last) (outcome o pv).
Proof using EnvInv0.
  intros H1 H2 H3. revert last. induction fuel as [|fuel IH]; intros last; cbn [transfer_loop].
  { intros p Hp. apply outcome_staged; [done|nonempty]. }
  eapply triple_bind; [apply transferCommand_ok|]. intros [cmd|e].
  2: { intros p [Hp He]. by apply outcome_staged. }
  eapply triple_bind with (R := λ _, J).
  { intros p [Hp _]. by apply (lift_ok _ (ei_transfer node cmd)). }
  intros [terr tack] p Hp. rewrite bind_run. change (eval get p) with p. change (exec get p) with p.
  destruct (Landed _ _ _) as [rc|] eqn:El; [by apply outcome_landed|].
  destruct terr as [e|]; [by apply IH|]. destruct (x_OK tack); cbn [negb]; [by apply IH|].
  destruct (final_refusal _); [|by apply IH]. apply outcome_staged; [done|unfold transferReason; nonempty].
Qed.

Lemma silenceReason_ok o node : triple J (silenceReason o node) (λ r p, J p ∧ r ≠ EmptyString).
Proof using EnvInv0.
  unfold silenceReason. destruct (o_Nodes o); [|intros p Hp; split; [done|nonempty]].
  eapply triple_bind; [apply lift_ok, ei_Explain|]. intros why p Hp.
  destruct (n_Online why); [split; [done|nonempty]|]. destruct (_ || _); split; first [done|nonempty].
Qed.

Lemma captureOne_ok o router i pv : triple J (captureOne o router i pv) (outcome o pv).
Proof using EnvInv0.
  unfold captureOne. destruct (negb _); [intros p Hp; apply outcome_failed; [done|nonempty]|].
  eapply triple_bind; [apply routeFor_ok|]. intros [dest|e].
  2: { intros p Hp. apply outcome_failed; [done|nonempty]. }
  eapply triple_bind; [apply lift_ok, ei_stage|]. intros [|e|e|ack].
  - eapply triple_bind; [apply silenceReason_ok|]. intros reason p [Hp Hr]. by apply outcome_failed.
  - eapply triple_bind; [apply lift_ok, ei_unstage|]. intros _ p Hp. apply outcome_failed; [done|nonempty].
  - eapply triple_bind; [apply lift_ok, ei_unstage|]. intros _ p Hp. apply outcome_failed; [done|nonempty].
  - eapply triple_bind with (R := outcome o pv).
    + destruct (k_OK ack) eqn:Ek; cbn [negb].
      2: { intros p Hp. apply outcome_staged; [done|unfold refusalReason; nonempty]. }
      destruct (String.eqb_spec (k_Digest ack) EmptyString); cbn [orb].
      { intros p Hp. apply outcome_staged; [done|nonempty]. }
      destruct (Z.eqb_spec (k_SizeBytes ack) 0).
      { intros p Hp. apply outcome_staged; [done|nonempty]. }
      by apply transfer_loop_ok.
    + intros r. eapply triple_bind with (R := λ _, outcome o pv r); [|intros _ p Hp; exact Hp].
      intros p (Hp & Hr). split; [|done]. by apply (lift_ok _ (ei_unstage _ _)).
Qed.

Lemma fan_loop_ok o router i plan : triple J (fan_loop o router i plan) (λ a p, J p ∧
  about <$> a.1 = plan ∧ Forall (λ r, honest o r ∧ (r_Captured r = false → r_Failed r = true)) a.1).
Proof using EnvInv0.
  revert i. induction plan as [|pv plan IH]; intros i; cbn [fan_loop]; [intros p Hp; by repeat constructor|].
  intros p Hp. rewrite bind_run. change (eval get p) with p. change (exec get p) with p.
  destruct (budgetAllows _).
  2: { split; [done|]. cbn [fst]. split.
       - change (about <$> ((λ v, failedVolume v reason_budget) <$> pv :: plan) = pv :: plan).
         rewrite <- list_fmap_compose. rewrite <- (list_fmap_id (pv :: plan)) at 2.
         apply list_fmap_ext. intros _ v _. apply about_failedVolume.
       - change (Forall (λ r, honest o r ∧ (r_Captured r = false → r_Failed r = true))
                   ((λ v, failedVolume v reason_budget) <$> pv :: plan)).
         apply Forall_fmap, Forall_true. intros v. by repeat split. }
  revert p Hp. change (triple J (captureOne o router i pv ≫= λ rec, fan_loop o router (S i) plan ≫=
    λ more, mret (rec :: more.1, pv_NodeID pv :: more.2)) (λ a p, J p ∧
      about <$> a.1 = pv :: plan ∧ Forall (λ r, honest o r ∧ (r_Captured r = false → r_Failed r = true)) a.1)).
  eapply triple_bind; [apply captureOne_ok|]. intros rec.
  intros p (Hp & Ha & Hh). rewrite bind_run. specialize (IH (S i) p Hp) as (Hq & Hb & Hf).
  unfold eval, exec. cbn. split; [done|]. split; [by rewrite Ha, Hb|by constructor].
Qed.

Lemma honest_explained o r : explained r → honest o r.
Proof using. intros (Hc & Hr & _). unfold honest. by rewrite Hc. Qed.

(** What a pass returns: the records of the plan after those it was given. *)
Lemma runFanOut_ok o w : I w →
  match eval (runFanOut o) w with
  | Fail e => e = errNoIngest ∧ o_Plan o ≠ [] ∧ (o_Ingest o = false ∨ o_Router o = None)
  | Ok rep => ∃ records n, rep = NewAppVolumeReport (o_Enumeration o) (o_Skipped o ++ records) n ∧
      about <$> records = o_Plan o ∧ Forall (λ r, honest o r ∧ (r_Captured r = false → r_Failed r = true)) records
  end.
Proof using EnvInv0.
  intros Hw. unfold runFanOut, eval. destruct (o_Plan o) as [|pv plan] eqn:Ep.
  { exists [], 0. cbn [fst]. rewrite (right_id_L [] (++)). by repeat constructor. }
  destruct (o_Ingest o) eqn:Ei; [|by cbn [fst]; auto]. destruct (o_Router o) as [router|] eqn:Er; [|by cbn [fst]; auto].
  pose proof (fan_loop_ok o router 0 (pv :: plan) (mkPass w ∅) Hw) as (_ & Ha & Hf).
  destruct (fan_loop o router 0 (pv :: plan) (mkPass w ∅)) as [[records nodes] p]. cbn [fst] in *.
  by exists records, (Z.of_nat (length (remove_dups nodes))).
Qed.
End facts.

Lemma Forall_resolves tiles (apps : list App) :
  Z.of_nat (length (filter (λ a, resolves tiles a = true) apps)) = Z.of_nat (length apps) ↔
  Forall (λ a, resolves tiles a = true) apps.
Proof.
  induction apps as [|a apps IH]; [by split|]. rewrite filter_cons, Forall_cons, <- IH.
  pose proof (length_filter (λ a, resolves tiles a = true) apps).
  destruct (decide (resolves tiles a = true)); cbn [length]; split; intros; naive_solver lia.
Qed.

(** C38. The report of a run over the whole cluster can be believed.  Whatever
    the bus, the nodes and the endpoint do (and whatever fact [I] about the
    world their calls keep), a run with a plan of the installed apps either
    refuses for want of an endpoint, or reports.  Its records are, one for
    one, the volumes the cluster owes.  A record that says captured is not
    marked failed, and rests on a stage the node acknowledged with a digest
    and on a receipt the endpoint itself reported for that very member, whose
    plaintext digest, where it has one, is the staged copy's; any other record
    gives a reason.  And the report calls itself complete exactly when every
    app resolved to a classifying tile and every record is captured. *)
Theorem fan_out_honest `{Crypto} {W : Type} `{Env W} (I : W → Prop) `{!EnvInv I}
    (installed : list (option App)) (tiles : TileVolumes) (o : fanOutOpts) (w : W) :
  I w →
  o_Plan o = Stage (PlanAppVolumes installed tiles) →
  o_Skipped o = Skipped (PlanAppVolumes installed tiles) →
  o_Enumeration o = plan_Enumeration (PlanAppVolumes installed tiles) →
  match eval (runFanOut o) w with
  | Fail e => e = errNoIngest ∧ o_Plan o ≠ [] ∧ (o_Ingest o = false ∨ o_Router o = None)
  | Ok rep =>
      about <$> a_Volumes rep ≡ₚ is_installed installed ≫= owed tiles ∧
      Forall (honest I o) (a_Volumes rep) ∧
      (Complete rep = true ↔
         Forall (λ a, resolves tiles a = true) (is_installed installed) ∧ Forall taken (a_Volumes rep)) ∧
      a_CapturedCount rep + a_SkippedCount rep = Z.of_nat (length (a_Volumes rep))
  end.
Proof.
  intros Hw E1 E2 E3. pose proof (runFanOut_ok I o w Hw) as Hr. destruct (eval (runFanOut o) w) as [rep|e]; [|done].
  destruct Hr as (records & n & -> & Ha & Hf).
  destruct (plan_pays installed tiles) as (P1 & _ & P3 & P4 & P5 & _).
  destruct (report_of (o_Enumeration o) (o_Skipped o ++ records) n) as (R1 & _).
  destruct (counts_partition (o_Enumeration o) (o_Skipped o ++ records) n) as [C1 _].
  rewrite R1. split; [|split; [|split]].
  - by rewrite fmap_app, Ha, E1, E2, (comm (++)).
  - rewrite Forall_app. split; [|eapply Forall_impl; [exact Hf|by intros r []]].
    rewrite E2. eapply Forall_impl; [exact P3|]. intros r. apply honest_explained.
  - rewrite Complete_report, E3, P4, P5. by rewrite Forall_resolves.
  - by rewrite R1 in C1.
Qed.

(** ** Two runs of one app

    A world at rest: the node answers, its upload is refused, and the endpoint
    stands as [i] says. *)
Module World.
Definition ack : StageAck := mkStageAck true 3 "plain" 3 1 "clean-shutdown" "" true 40 true "" [] "" "" "".

Definition env (i : Ingest) : Env unit := {|
  w_ingest _ := i; w_left _ := None; w_now _ := 7; w_key := "k";
  w_nonce := mret (Ok "n");
  w_Get _ := mret (Ok (Some (mkNode [CapabilityKeyBoundTransfer] "2026.09.1")));
  w_NodeKeys _ := mret (Ok {[NodeKeyAgent := "fp"]});
  w_ExplainNoResponder _ := mret (mkNoResponder false true true "");
  w_stage _ _ := mret (Staged ack);
  w_transfer _ _ := mret (None, mkTransferAck false "" CodeMemberExists BackupRefusalDestinationRefused "");
  w_unstage _ _ := mret tt |}.

Definition app : App := mkApp "01" "vault" "n1" "vaultwarden".
Definition tiles : TileVolumes :=
  mkTileVolumes (λ _, Some (mkTile [mkVolume "data" "critical" "stop"; mkVolume "tmp" "cache" "none"])) "v1".
Definition opts (gid job : string) : fanOutOpts :=
  let p := PlanAppVolumes [Some app] tiles in
  mkOpts true job gid true (Some "https://api:8443/api/backup/ingest/") "pk" "key1" "full" (Stage p) (Skipped p) (plan_Enumeration p).
End World.

Lemma World_inv i : EnvInv (H0 := World.env i) (λ _ : unit, True).
Proof. by split. Qed.

Lemma fan_out_honest_witness :
  ∃ rep, eval (runFanOut (H := Run.crypto) (H0 := World.env (y_in Run.s6)) (World.opts "gen1" "job1")) tt = Ok rep ∧
    Complete rep = true ∧ (r_Member <$> a_Volumes rep) = [Run.m1] ∧
    Forall (honest (H0 := World.env (y_in Run.s6)) (λ _, True) (World.opts "gen1" "job1")) (a_Volumes rep).
Proof.
  pose proof (@fan_out_honest Run.crypto unit (World.env (y_in Run.s6)) (λ _, True) (World_inv _)
    [Some World.app] World.tiles (World.opts "gen1" "job1") tt Logic.I eq_refl eq_refl eq_refl) as Hh.
  destruct (eval (runFanOut (World.opts "gen1" "job1")) tt) as [rep|e] eqn:Er.
  - exists rep. split; [done|]. vm_compute in Er. injection Er as <-.
    split; [by vm_compute|]. split; [by vm_compute|]. apply Hh.
  - vm_compute in Er. done.
Defined.

(** A receipt can cross into the next generation.  An upload that outlives
    its run, because the run was closed while the member was still being
    written, records its receipt in the map of the generation opened since.
    The next run's upload of that volume is refused as already landed, the
    endpoint reports the old receipt as the new generation's, and, when the
    data has not changed in between, the fan-out indexes the volume as
    captured and the report calls the generation complete, while the
    generation's directory holds no such member. *)
Theorem receipt_crosses_generations :
  reachable (H := Run.crypto) (H0 := Run.archive) "k" 1 Run.c8 ∧
  y_used Run.c8 !! "gen2" = Some "/mnt/generations/.partial-gen2" ∧
  y_disk Run.c8 !! ("/mnt/generations/.partial-gen2", Run.m1) = None ∧
  ∃ rep, eval (runFanOut (H := Run.crypto) (H0 := World.env (y_in Run.c8)) (World.opts "gen2" "job2")) tt = Ok rep ∧
    Complete rep = true ∧ (r_Member <$> a_Volumes rep) = [Run.m1].
Proof.
  split; [apply Run.run_crossed|]. split; [by vm_compute|]. split; [by vm_compute|].
  destruct (eval (runFanOut (World.opts "gen2" "job2")) tt) as [rep|e] eqn:Er; vm_compute in Er; [|done].
  exists rep. split; [done|]. injection Er as <-. by vm_compute.
Qed.
