(* ===== verification/UpdatePlan.v ===== *)
(** * The plan of a fleet update

    api/internal/updater/system_jobs.go, first half: which nodes a
    system.update touches, in which order, with which bundle, which are left
    out and why, and which nodes gate the others.  The inventory and the
    bundle store come in as what their queries returned. *)
From Stdlib Require Import Ascii String.
From S2P Require Import Prelude GoStrings GoSort.
Open Scope string_scope.
Open Scope list_scope.
Open Scope Z_scope.

(** ** Data *)

Definition role_compute : string := "compute".
Definition role_storage : string := "storage".
Definition role_controlplane : string := "controlplane".
Definition role_firewall : string := "firewall".

(** proto.Node, as the plan reads it.  [fn_gap] is [time.Since(LastSeen)] at
    the moment the plan looks at the node. *)
Record FleetNode := mkFleetNode { fn_ID : string; fn_Role : string; fn_Architecture : string; fn_gap : Z }.

Record Bundle := mkBundle { b_SHA256 : string; b_Version : string; b_Compatible : string }.

Inductive SkipReason := SkipExcluded | SkipOffline | SkipFirewallSKU | SkipNoArtifactForArch.
#[export] Instance SkipReason_eq_dec : EqDecision SkipReason.
Proof. solve_decision. Defined.
Definition Stranded (r : SkipReason) : bool := bool_decide (r = SkipNoArtifactForArch).

Record SkippedNode := mkSkipped {
  sn_NodeID : string; sn_Reason : SkipReason; sn_Detail : string; sn_Tier : string; sn_Compatible : string }.

Record plannedTarget := mkTarget {
  t_NodeID : string; t_BundleSHA256 : string; t_Compatible : string; t_Tier : string; t_Canary : bool }.
#[export] Instance plannedTarget_eq_dec : EqDecision plannedTarget.
Proof. solve_decision. Defined.

Record systemPlanState := mkPlanned {
  ps_BundleSHA256 : string; ps_BundleVer : string; ps_Component : string;
  ps_Targets : list plannedTarget; ps_Skipped : list SkippedNode; ps_SelfNodeID : string }.

(** proto.SystemUpdateSpec: the fields the plan reads. *)
Record SystemUpdateSpec := mkSpec {
  u_Version : string; u_Component : string; u_BundleSHA256 : string;
  u_ExcludeNodes : list string; u_CanaryNodes : list string }.

(** releases.Component, as the plan reads it, and the registry. *)
Inductive Kind := KindRAUC | KindSysupgrade | KindRootfsAB.
Record Component := mkComponent { c_ID : string; c_Label : string; c_Compatible : string; c_Kind : Kind }.
Definition FirewallCompatible : string := "rasputin-fw-n100".
Definition Components : list Component :=
  [mkComponent "os" "Rasputin OS" "rasputin-n100" KindRAUC;
   mkComponent "fw" "Rasputin OpenWrt Firewall" FirewallCompatible KindRootfsAB].
Definition ComponentByID (id : string) : option Component :=
  head (filter (λ c, c_ID c = id) Components).

Definition ArchCompatible (arch : string) : option string :=
  if String.eqb arch "amd64" then Some "rasputin-n100"
  else if String.eqb arch "arm64" then Some "rasputin-rpi-arm64"
  else None.

(** ** Which image a node takes *)

Definition expectedCompatible (n : FleetNode) : option string :=
  if String.eqb (fn_Role n) role_firewall then Some FirewallCompatible else ArchCompatible (fn_Architecture n).

Definition skuMismatchReason (want bundleCompat : string) : SkipReason :=
  if String.eqb want FirewallCompatible || String.eqb bundleCompat FirewallCompatible then SkipFirewallSKU else SkipNoArtifactForArch.

Definition componentCovers (comp : Component) (sku : string) : bool :=
  if (match c_Kind comp with KindRootfsAB => true | _ => false end) || String.eqb (c_Compatible comp) FirewallCompatible
  then String.eqb sku FirewallCompatible else negb (String.eqb sku FirewallCompatible).

Inductive NodeStatus := StatusOnline | StatusStale | StatusOffline.
Definition computeStatus (gap : Z) : NodeStatus :=
  if gap <? 30 * 10 ^ 9 then StatusOnline else if gap <? 120 * 10 ^ 9 then StatusStale else StatusOffline.
Definition online (n : FleetNode) : bool := match computeStatus (fn_gap n) with StatusOnline => true | _ => false end.

(** ** planTargets *)

(** [roleRank[r]]: a role the map does not have reads as zero. *)
Definition roleRank (r : string) : Z :=
  if String.eqb r role_compute then 0 else if String.eqb r role_storage then 1
  else if String.eqb r role_controlplane then 2 else if String.eqb r role_firewall then 3 else 0.

Definition skip (n : FleetNode) (r : SkipReason) (detail : string) : SkippedNode :=
  mkSkipped (fn_ID n) r detail (fn_Role n) (default EmptyString (expectedCompatible n)).

(** The body of the loop: the skip it records, or none for a target. *)
Definition skip_of (exclude : list string) (bundleCompat : string) (n : FleetNode) : option SkippedNode :=
  if bool_decide (fn_ID n ∈ exclude) then Some (skip n SkipExcluded "excluded from this run")
  else if negb (online n) then Some (skip n SkipOffline "not online when the plan was made")
  else if String.eqb bundleCompat EmptyString then None
  else match expectedCompatible n with
       | None => Some (skip n SkipNoArtifactForArch ("architecture " +:+ quote (fn_Architecture n) +:+ " has no known artifact"))
       | Some want =>
           if String.eqb want bundleCompat then None
           else Some (skip n (skuMismatchReason want bundleCompat) ("needs " +:+ want +:+ ", bundle is " +:+ bundleCompat))
       end.

Definition is_self (selfNodeID : string) (n : FleetNode) : bool :=
  negb (String.eqb selfNodeID EmptyString) && String.eqb (fn_ID n) selfNodeID.

Definition plan_less (selfNodeID : string) (x y : FleetNode) : bool :=
  if negb (roleRank (fn_Role x) =? roleRank (fn_Role y)) then roleRank (fn_Role x) <? roleRank (fn_Role y)
  else if negb (Bool.eqb (is_self selfNodeID x) (is_self selfNodeID y)) then is_self selfNodeID y
  else String.ltb (fn_ID x) (fn_ID y).

Definition planTargets (nodes : list FleetNode) (exclude : list string) (bundleCompat selfNodeID : string)
    : list FleetNode * list SkippedNode :=
  (SliceStable (plan_less selfNodeID) (filter (λ n, skip_of exclude bundleCompat n = None) nodes),
   omap (skip_of exclude bundleCompat) nodes).

(** ** Canaries *)

Definition canaryEligible (tier : string) : bool := String.eqb tier role_compute || String.eqb tier role_storage.

(** canaryGroup: one tier, one image. *)
Definition group_of (t : plannedTarget) : string * string := (t_Tier t, t_Compatible t).

(** The first pass over the targets: the default pick of each group, and the
    index of each id. *)
Fixpoint first_picks (i : nat) (targets : list plannedTarget) (chosen : gmap (string * string) nat) : gmap (string * string) nat :=
  match targets with
  | [] => chosen
  | t :: targets =>
      first_picks (S i) targets
        (if canaryEligible (t_Tier t) then
           match chosen !! group_of t with Some _ => chosen | None => <[group_of t := i]> chosen end
         else chosen)
  end.

Fixpoint index_ids (i : nat) (targets : list plannedTarget) (byID : gmap string nat) : gmap string nat :=
  match targets with
  | [] => byID
  | t :: targets => index_ids (S i) targets (<[t_NodeID t := i]> byID)
  end.

(** The loop over the overrides. *)
Fixpoint apply_overrides (targets : list plannedTarget) (byID : gmap string nat) (overrides : list string)
    (overriddenBy : gmap (string * string) string) (chosen : gmap (string * string) nat)
    : result (gmap (string * string) nat) :=
  match overrides with
  | [] => Ok chosen
  | id :: overrides =>
      match byID !! id with
      | None => Fail (errors_New ("canary override " +:+ quote id +:+ " is not a target of this plan"))
      | Some i =>
          match targets !! i with
          | None => Fail (errors_New "index out of range")
          | Some t =>
              if negb (canaryEligible (t_Tier t)) then
                Fail (errors_New ("canary override " +:+ quote id +:+ " is a " +:+ t_Tier t +:+ " node; the canary is never the controlplane or the firewall"))
              else match overriddenBy !! group_of t with
              | Some prev => Fail (errors_New ("canary overrides " +:+ quote prev +:+ " and " +:+ quote id +:+ " are both in " +:+
                               t_Tier t +:+ "/" +:+ t_Compatible t +:+ "; one canary per tier and architecture"))
              | None => apply_overrides targets byID overrides (<[group_of t := id]> overriddenBy) (<[group_of t := i]> chosen)
              end
          end
      end
  end.

Definition set_canary (t : plannedTarget) : plannedTarget :=
  mkTarget (t_NodeID t) (t_BundleSHA256 t) (t_Compatible t) (t_Tier t) true.

(** [for _, i := range chosen { targets[i].Canary = true }]: whatever order
    the map is ranged in, the chosen indices are marked. *)
Definition mark_chosen (chosen : gmap (string * string) nat) (targets : list plannedTarget) : list plannedTarget :=
  imap (λ i t, if bool_decide (i ∈ (map_to_list chosen).*2) then set_canary t else t) targets.

Definition assignCanaries (targets : list plannedTarget) (overrides : list string) : result (list plannedTarget) :=
  match apply_overrides targets (index_ids 0 targets ∅) overrides ∅ (first_picks 0 targets ∅) with
  | Fail e => Fail e
  | Ok chosen => Ok (mark_chosen chosen targets)
  end.

(** ** buildPlan *)

(** stagedByCompatible's map: the first bundle of the version with the image. *)
Definition stagedByCompatible (version : string) (bundles : list Bundle) (sku : string) : option Bundle :=
  head (filter (λ b, b_Version b = version ∧ b_Compatible b ≠ EmptyString ∧ b_Compatible b = sku) bundles).

(** What the release-keyed loop does with one node. *)
Inductive Resolution :=
| RSkip (s : SkippedNode)
| RMissing (sku id : string)
| RTarget (t : plannedTarget).

Definition resolve_node (comp : Component) (version : string) (bundles : list Bundle) (n : FleetNode) : Resolution :=
  match expectedCompatible n with
  | None => RSkip (mkSkipped (fn_ID n) SkipNoArtifactForArch
                     ("architecture " +:+ quote (fn_Architecture n) +:+ " has no known artifact") (fn_Role n) EmptyString)
  | Some want =>
      if negb (componentCovers comp want) then
        RSkip (mkSkipped (fn_ID n) SkipFirewallSKU ("needs " +:+ want +:+ ", this run updates " +:+ c_Label comp) (fn_Role n) want)
      else match stagedByCompatible version bundles want with
           | None => RMissing want (fn_ID n)
           | Some b => RTarget (mkTarget (fn_ID n) (b_SHA256 b) want (fn_Role n) false)
           end
  end.

Definition the_skip (r : Resolution) : option SkippedNode := match r with RSkip s => Some s | _ => None end.
Definition the_missing (r : Resolution) : option (string * string) := match r with RMissing sku id => Some (sku, id) | _ => None end.
Definition the_target (r : Resolution) : option plannedTarget := match r with RTarget t => Some t | _ => None end.

(** The refusal that names everything to stage: the images, sorted, each with
    its nodes, sorted. *)
Definition missing_text (missing : list (string * string)) : string :=
  Join ((λ sku, let ids := sort_Strings (filter (λ p, p.1 = sku) missing).*2 in
                sku +:+ " (" +:+ pretty (Z.of_nat (length ids)) +:+ " node(s): " +:+ Join ids ", " +:+ ")")
        <$> sort_Strings (remove_dups missing.*1)) "; ".

(** The two queries' answers: [getBundle] is asked for the spec's digest. *)
Definition buildPlan (list_nodes : result (list FleetNode)) (getBundle : result (option Bundle)) (listBundles : result (list Bundle))
    (spec : SystemUpdateSpec) (selfNodeID : string) : result systemPlanState :=
  if Bool.eqb (String.eqb (u_Version spec) EmptyString) (String.eqb (u_BundleSHA256 spec) EmptyString) then
    Fail (errors_New "exactly one of version or bundleSha256 is required")
  else match list_nodes with
  | Fail e => Fail (wrapf ("inventory: " +:+ err_text e) e)
  | Ok all =>
      if negb (String.eqb (u_BundleSHA256 spec) EmptyString) then
        match getBundle with
        | Fail e => Fail (wrapf ("bundle lookup: " +:+ err_text e) e)
        | Ok None => Fail (errors_New ("bundle " +:+ u_BundleSHA256 spec +:+ " not found"))
        | Ok (Some bundle) =>
            let '(nodes, skipped) := planTargets all (u_ExcludeNodes spec) (b_Compatible bundle) selfNodeID in
            let targets := (λ n, mkTarget (fn_ID n) (b_SHA256 bundle) (b_Compatible bundle) (fn_Role n) false) <$> nodes in
            match assignCanaries targets (u_CanaryNodes spec) with
            | Fail e => Fail e
            | Ok targets => Ok (mkPlanned (b_SHA256 bundle) (b_Version bundle) EmptyString targets skipped selfNodeID)
            end
        end
      else
        let compID := if String.eqb (u_Component spec) EmptyString then "os" else u_Component spec in
        match ComponentByID compID with
        | None => Fail (errors_New ("unknown component " +:+ quote compID))
        | Some comp =>
            match listBundles with
            | Fail e => Fail (wrapf ("list bundles: " +:+ err_text e) e)
            | Ok bundles =>
                let '(nodes, skipped) := planTargets all (u_ExcludeNodes spec) EmptyString selfNodeID in
                let rs := resolve_node comp (u_Version spec) bundles <$> nodes in
                let skipped := skipped ++ omap the_skip rs in
                match omap the_missing rs with
                | [] =>
                    match assignCanaries (omap the_target rs) (u_CanaryNodes spec) with
                    | Fail e => Fail e
                    | Ok targets => Ok (mkPlanned EmptyString (u_Version spec) (c_ID comp) targets skipped selfNodeID)
                    end
                | missing =>
                    Fail (errors_New (c_Label comp +:+ " " +:+ u_Version spec +:+ " is not staged for every architecture in this cluster — stage " +:+
                      missing_text missing +:+ " first"))
                end
            end
        end
  end.

Definition stranded (s : systemPlanState) : list SkippedNode := filter (λ sk, Stranded (sn_Reason sk) = true) (ps_Skipped s).

Definition targetIDs (s : systemPlanState) : list string := t_NodeID <$> ps_Targets s.
Definition canaryIDs (s : systemPlanState) : list string := t_NodeID <$> filter (λ t, t_Canary t = true) (ps_Targets s).

(** ** The preview *)

Record PlanTarget := mkPlanTarget { pt_NodeID : string; pt_Tier : string; pt_Compatible : string; pt_Canary : bool }.
Record SystemUpdatePlan := mkPreview {
  pv_BundleVersion : string; pv_Component : string; pv_Targets : list PlanTarget; pv_Skipped : list SkippedNode; pv_SelfNodeID : string }.

(** What the console is shown before a run: the plan the run would make. *)
Definition PreviewPlan (list_nodes : result (list FleetNode)) (getBundle : result (option Bundle)) (listBundles : result (list Bundle))
    (spec : SystemUpdateSpec) (selfNodeID : string) : result SystemUpdatePlan :=
  match buildPlan list_nodes getBundle listBundles spec selfNodeID with
  | Fail e => Fail e
  | Ok state =>
      Ok (mkPreview (ps_BundleVer state) (ps_Component state)
        ((λ t, mkPlanTarget (t_NodeID t) (t_Tier t) (t_Compatible t) (t_Canary t)) <$> ps_Targets state) (ps_Skipped state)
        (if existsb (λ t, String.eqb (t_NodeID t) (ps_SelfNodeID state)) (ps_Targets state) then ps_SelfNodeID state else EmptyString))
  end.

(** The plan step: what it publishes and what it stashes for the cascade. *)
Record PlannedEvt := mkPlannedEvt {
  pe_BundleID : string; pe_Detail : string; pe_Total : Z; pe_NSkipped : Z; pe_Stranded : Z; pe_Skipped : list SkippedNode }.
Definition systemPlan (list_nodes : result (list FleetNode)) (getBundle : result (option Bundle)) (listBundles : result (list Bundle))
    (spec : SystemUpdateSpec) (selfNodeID : string) : result (systemPlanState * PlannedEvt) :=
  match buildPlan list_nodes getBundle listBundles spec selfNodeID with
  | Fail e => Fail e
  | Ok state =>
      Ok (state, mkPlannedEvt (ps_BundleSHA256 state) (ps_BundleVer state) (Z.of_nat (length (ps_Targets state)))
                   (Z.of_nat (length (ps_Skipped state))) (Z.of_nat (length (stranded state))) (ps_Skipped state))
  end.
