(* ===== verification/UpdatePlanFacts.v ===== *)
(** * What a fleet update's plan guarantees

    Every node of the inventory is a target or a reasoned skip; a target takes
    the image of its own architecture and product; tiers come in order with
    the control plane's own node last in its tier; and each tier and image has
    exactly one canary, the operator's where one was named. *)
From Stdlib Require Import Ascii String.
From S2P Require Import Prelude GoStrings GoSort UpdatePlan.
Open Scope string_scope.
Open Scope list_scope.
Open Scope Z_scope.

(** ** Canaries *)

(** A choice: each group's pick is a target of that group, in an eligible
    tier, and every eligible target's group has one. *)
Definition chosen_ok (targets : list plannedTarget) (chosen : gmap (string * string) nat) : Prop :=
  (∀ g i, chosen !! g = Some i → ∃ t, targets !! i = Some t ∧ group_of t = g ∧ canaryEligible (t_Tier t) = true) ∧
  (∀ t, t ∈ targets → canaryEligible (t_Tier t) = true → is_Some (chosen !! group_of t)).

Lemma first_picks_ok pre targets chosen :
  chosen_ok pre chosen → chosen_ok (pre ++ targets) (first_picks (length pre) targets chosen).
Proof.
  revert pre chosen. induction targets as [|t targets IH]; intros pre chosen Hc; cbn [first_picks];
    [by rewrite (right_id_L [] (++))|].
  replace (pre ++ t :: targets) with ((pre ++ [t]) ++ targets) by by rewrite <- (assoc_L (++)).
  replace (S (length pre)) with (length (pre ++ [t])) by (rewrite length_app; simpl; lia).
  apply IH. destruct Hc as [H1 H2].
  assert (∀ i u, pre !! i = Some u → (pre ++ [t]) !! i = Some u) as Hpre by (intros; by apply lookup_app_l_Some).
  destruct (canaryEligible (t_Tier t)) eqn:Ee.
  - destruct (chosen !! group_of t) as [j|] eqn:Ej; split.
    + intros g i Hi. destruct (H1 g i Hi) as (u & ? & ?). eauto.
    + intros u [Hu| ->%list_elem_of_singleton]%elem_of_app Hel; eauto.
    + intros g i. destruct (decide (g = group_of t)) as [->|Hne].
      * rewrite lookup_insert_eq. intros [= <-]. exists t. by rewrite list_lookup_middle.
      * rewrite lookup_insert_ne by done. intros Hi. destruct (H1 g i Hi) as (u & ? & ?). eauto.
    + intros u [Hu| ->%list_elem_of_singleton]%elem_of_app Hel; [|rewrite lookup_insert_eq; eauto].
      destruct (decide (group_of u = group_of t)) as [->|Hne]; [rewrite lookup_insert_eq; eauto|].
      rewrite lookup_insert_ne by done. eauto.
  - split.
    + intros g i Hi. destruct (H1 g i Hi) as (u & ? & ?). eauto.
    + intros u [Hu| ->%list_elem_of_singleton]%elem_of_app Hel; [eauto|congruence].
Qed.

Lemma index_ids_ok pre targets byID :
  (∀ id i, byID !! id = Some i → ∃ t, pre !! i = Some t ∧ t_NodeID t = id) →
  ∀ id i, index_ids (length pre) targets byID !! id = Some i → ∃ t, (pre ++ targets) !! i = Some t ∧ t_NodeID t = id.
Proof.
  revert pre byID. induction targets as [|t targets IH]; intros pre byID Hc; cbn [index_ids];
    [by rewrite (right_id_L [] (++))|].
  replace (pre ++ t :: targets) with ((pre ++ [t]) ++ targets) by by rewrite <- (assoc_L (++)).
  replace (S (length pre)) with (length (pre ++ [t])) by (rewrite length_app; simpl; lia).
  apply IH. intros id i. destruct (decide (id = t_NodeID t)) as [->|Hne].
  - rewrite lookup_insert_eq. intros [= <-]. exists t. by rewrite list_lookup_middle.
  - rewrite lookup_insert_ne by done. intros (u & Hu & ?)%Hc. exists u. split; [by apply lookup_app_l_Some|done].
Qed.

(** A pick of each override stays a pick. *)
Lemma apply_overrides_ok targets byID overrides seen chosen chosen' :
  (∀ id i, byID !! id = Some i → ∃ t, targets !! i = Some t ∧ t_NodeID t = id) →
  apply_overrides targets byID overrides seen chosen = Ok chosen' →
  chosen_ok targets chosen →
  (∀ g, is_Some (seen !! g) → ∃ i, chosen !! g = Some i) →
  chosen_ok targets chosen' ∧
  (∀ g i, is_Some (seen !! g) → chosen !! g = Some i → chosen' !! g = Some i) ∧
  (∀ id, id ∈ overrides → ∃ t i, targets !! i = Some t ∧ t_NodeID t = id ∧ chosen' !! group_of t = Some i).
Proof.
  intros Hid. revert seen chosen. induction overrides as [|id overrides IH]; intros seen chosen; cbn [apply_overrides].
  { intros [= <-] Hc _. split; [done|]. split; [done|]. by intros id ?%elem_of_nil. }
  destruct (byID !! id) as [i|] eqn:Ei; [|done]. destruct (targets !! i) as [t|] eqn:Et; [|done].
  destruct (Hid id i Ei) as (t' & Et' & Hn). simplify_eq.
  destruct (canaryEligible (t_Tier t)) eqn:Ee; [|done]. cbn [negb].
  destruct (seen !! group_of t) as [prev|] eqn:Es; [done|]. intros Ha Hc Hs.
  assert (chosen_ok targets (<[group_of t := i]> chosen)) as Hc'.
  { destruct Hc as [H1 H2]. split.
    - intros g j. destruct (decide (g = group_of t)) as [->|Hne]; [rewrite lookup_insert_eq; intros [= <-]; eauto|].
      rewrite lookup_insert_ne by done. apply H1.
    - intros u Hu Hel. destruct (decide (group_of t = group_of u)) as [->|Hne]; [rewrite lookup_insert_eq; eauto|].
      rewrite lookup_insert_ne by done. eauto. }
  destruct (IH _ _ Ha Hc') as (G1 & G2 & G3).
  { intros g [x Hx]. destruct (decide (g = group_of t)) as [->|Hne]; [rewrite lookup_insert_eq; eauto|].
    rewrite !lookup_insert_ne in * by done. eauto. }
  split; [done|]. split.
  - intros g j [x Hx] Hj. assert (group_of t ≠ g) as Hne by congruence.
    apply G2; [exists x|]; by rewrite lookup_insert_ne.
  - intros id' [->|Hin]%elem_of_cons; [|by apply G3]. exists t, i. split; [done|]. split; [done|].
    apply G2; [by rewrite lookup_insert_eq|apply lookup_insert_eq].
Qed.

(** The targets without their marks. *)
Definition erase (t : plannedTarget) : plannedTarget :=
  mkTarget (t_NodeID t) (t_BundleSHA256 t) (t_Compatible t) (t_Tier t) false.

Lemma mark_chosen_lookup chosen targets i :
  mark_chosen chosen targets !! i =
    (λ t, if bool_decide (i ∈ (map_to_list chosen).*2) then set_canary t else t) <$> targets !! i.
Proof. apply list_lookup_imap. Qed.

Lemma mark_chosen_erase chosen targets : erase <$> mark_chosen chosen targets = erase <$> targets.
Proof.
  apply list_eq. intros i. rewrite !list_lookup_fmap, mark_chosen_lookup.
  destruct (targets !! i) as [t|]; [|done]. simpl. by destruct (bool_decide _).
Qed.

Lemma chosen_index (chosen : gmap (string * string) nat) i :
  i ∈ (map_to_list chosen).*2 ↔ ∃ g, chosen !! g = Some i.
Proof.
  rewrite list_elem_of_fmap. split.
  - intros ([g j] & -> & Hin). exists g. by apply elem_of_map_to_list.
  - intros [g Hg]. exists (g, i). split; [done|]. by apply elem_of_map_to_list.
Qed.

(** Marked means chosen for its own group. *)
Lemma marked_iff targets chosen i t :
  Forall (λ t, t_Canary t = false) targets → chosen_ok targets chosen →
  mark_chosen chosen targets !! i = Some t → (t_Canary t = true ↔ chosen !! group_of t = Some i).
Proof.
  intros Hf [H1 _]. rewrite mark_chosen_lookup. destruct (targets !! i) as [u|] eqn:Eu; [|done].
  intros [= <-]. case_bool_decide as Hin.
  - rewrite chosen_index in Hin. destruct Hin as [g Hg]. destruct (H1 g i Hg) as (u' & Hu & Hgr & _). simplify_eq.
    split; [done|]. by intros _.
  - rewrite Forall_lookup in Hf. rewrite (Hf i u Eu). split; [done|]. intros Hg. destruct Hin. rewrite chosen_index. eauto.
Qed.

Lemma assignCanaries_chosen targets overrides targets' : assignCanaries targets overrides = Ok targets' →
  ∃ chosen, targets' = mark_chosen chosen targets ∧ chosen_ok targets chosen ∧
    (∀ id, id ∈ overrides → ∃ t i, targets !! i = Some t ∧ t_NodeID t = id ∧ chosen !! group_of t = Some i).
Proof.
  unfold assignCanaries. destruct (apply_overrides _ _ _ _ _) as [chosen|e] eqn:Ea; [|done]. intros [= <-].
  destruct (apply_overrides_ok targets _ overrides ∅ _ chosen (index_ids_ok [] targets ∅ ltac:(by intros ??; rewrite lookup_empty)) Ea) as (G1 & _ & G3).
  - apply (first_picks_ok [] targets ∅). split; [by intros ??; rewrite lookup_empty|]. intros t Ht. by apply elem_of_nil in Ht.
  - intros g [x Hx]. by rewrite lookup_empty in Hx.
  - eauto.
Qed.

(** Exactly one canary per eligible group: some target of the group is the
    canary, no second one is, and no other target is a canary. *)
Lemma assignCanaries_exact targets overrides targets' :
  Forall (λ t, t_Canary t = false) targets → assignCanaries targets overrides = Ok targets' →
  (erase <$> targets' = erase <$> targets) ∧
  (∀ t, t ∈ targets' → t_Canary t = true → canaryEligible (t_Tier t) = true) ∧
  (∀ t, t ∈ targets' → canaryEligible (t_Tier t) = true →
     ∃ c, (c ∈ targets' ∧ t_Canary c = true ∧ group_of c = group_of t) ∧
       ∀ d, d ∈ targets' → t_Canary d = true → group_of d = group_of t → d = c) ∧
  (∀ id, id ∈ overrides → ∃ c, c ∈ targets' ∧ t_NodeID c = id ∧ t_Canary c = true).
Proof.
  intros Hf (chosen & -> & Hok & Hov)%assignCanaries_chosen.
  pose proof (λ i t, marked_iff targets chosen i t Hf Hok) as Hm.
  assert (∀ i t, targets !! i = Some t → chosen !! group_of t = Some i →
            mark_chosen chosen targets !! i = Some (set_canary t)) as Hset.
  { intros i t Ht Hg. rewrite mark_chosen_lookup, Ht. simpl. rewrite bool_decide_true; [done|].
    apply chosen_index. eauto. }
  split; [apply mark_chosen_erase|]. split_and!.
  - intros t [i Hi]%list_elem_of_lookup Hc. pose proof (proj1 (Hm i t Hi) Hc) as Hg.
    destruct (proj1 Hok _ _ Hg) as (u & Hu & Hgu & He). unfold group_of in Hgu. congruence.
  - intros t [i Hi]%list_elem_of_lookup He.
    assert (∃ u, targets !! i = Some u ∧ group_of u = group_of t) as (u & Hu & Hgu).
    { rewrite mark_chosen_lookup in Hi. destruct (targets !! i) as [u|]; [|done]. exists u.
      injection Hi as <-. by destruct (bool_decide _). }
    assert (is_Some (chosen !! group_of t)) as [j Hj].
    { rewrite <- Hgu. apply (proj2 Hok); [by eapply list_elem_of_lookup_2|]. unfold group_of in Hgu. congruence. }
    destruct (proj1 Hok _ _ Hj) as (c & Hcl & Hgc & _). exists (set_canary c). split.
    + rewrite <- Hgc in Hj. split_and!; [|done|done]. eapply list_elem_of_lookup_2. by apply Hset.
    + intros d [k Hk]%list_elem_of_lookup Hd Hgd. pose proof (proj1 (Hm k d Hk) Hd) as Hg.
      rewrite Hgd, Hj in Hg. injection Hg as ->. rewrite <- Hgc in Hj. rewrite (Hset _ _ Hcl Hj) in Hk. congruence.
  - intros id (t & i & Ht & Hid & Hg)%Hov. exists (set_canary t). split; [|done].
    eapply list_elem_of_lookup_2. by apply Hset.
Qed.

(** ** Who is planned *)

Lemma skip_of_id exclude compat n s : skip_of exclude compat n = Some s → sn_NodeID s = fn_ID n.
Proof.
  unfold skip_of. case_bool_decide; [by intros [= <-]|]. destruct (negb (online n)); [by intros [= <-]|].
  destruct (String.eqb compat _); [done|]. destruct (expectedCompatible n) as [want|]; [|by intros [= <-]].
  destruct (String.eqb want compat); [done|by intros [= <-]].
Qed.

Lemma planned_or_skipped exclude compat nodes :
  (fn_ID <$> filter (λ n, skip_of exclude compat n = None) nodes) ++ (sn_NodeID <$> omap (skip_of exclude compat) nodes)
    ≡ₚ fn_ID <$> nodes.
Proof.
  induction nodes as [|n nodes IH]; [done|]. rewrite filter_cons. cbn [omap list_omap].
  destruct (skip_of exclude compat n) as [s|] eqn:Es.
  - rewrite decide_False by done. csimpl. rewrite <- IH, (skip_of_id _ _ _ _ Es). symmetry. apply Permutation_middle.
  - rewrite decide_True by done. csimpl. by rewrite <- IH.
Qed.

Lemma resolve_node_skip comp version bundles n s : resolve_node comp version bundles n = RSkip s → sn_NodeID s = fn_ID n.
Proof.
  unfold resolve_node. destruct (expectedCompatible n) as [want|]; [|by intros [= <-]].
  destruct (componentCovers comp want); cbn [negb]; [|by intros [= <-]]. by destruct (stagedByCompatible version bundles want).
Qed.

Lemma resolve_node_target comp version bundles n t : resolve_node comp version bundles n = RTarget t →
  ∃ b, t = mkTarget (fn_ID n) (b_SHA256 b) (b_Compatible b) (fn_Role n) false ∧
    expectedCompatible n = Some (b_Compatible b) ∧ b ∈ bundles ∧ b_Version b = version ∧ componentCovers comp (b_Compatible b) = true.
Proof.
  unfold resolve_node. destruct (expectedCompatible n) as [want|]; [|done].
  destruct (componentCovers comp want) eqn:Ec; cbn [negb]; [|done].
  destruct (stagedByCompatible version bundles want) as [b|] eqn:Es; [|done]. intros [= <-].
  unfold stagedByCompatible in Es. apply head_Some_elem_of, list_elem_of_filter in Es as [(Hv & _ & Hc) Hb]. subst want. eauto 10.
Qed.

Lemma resolved_ids comp version bundles nodes : omap the_missing (resolve_node comp version bundles <$> nodes) = [] →
  (t_NodeID <$> omap the_target (resolve_node comp version bundles <$> nodes)) ++
  (sn_NodeID <$> omap the_skip (resolve_node comp version bundles <$> nodes)) ≡ₚ fn_ID <$> nodes.
Proof.
  induction nodes as [|n nodes IH]; [done|]. csimpl.
  destruct (resolve_node comp version bundles n) as [s|sku id|t] eqn:Er; csimpl; [|done|]; intros Hm; rewrite <- (IH Hm).
  - rewrite (resolve_node_skip _ _ _ _ _ Er). symmetry. apply Permutation_middle.
  - by destruct (resolve_node_target _ _ _ _ _ Er) as (b & -> & _).
Qed.

(** ** In which order *)

(** Tiers by rank, the control plane's own node after its tier's others, ids
    within. *)
Definition planned_before (self : string) (role1 id1 role2 id2 : string) : Prop :=
  let me id := negb (String.eqb self EmptyString) && String.eqb id self in
  roleRank role1 < roleRank role2 ∨
  roleRank role1 = roleRank role2 ∧ (me id1 = false ∧ me id2 = true ∨ me id1 = me id2 ∧ string_le id1 id2).
Definition target_before (self : string) (t u : plannedTarget) : Prop :=
  planned_before self (t_Tier t) (t_NodeID t) (t_Tier u) (t_NodeID u).
Definition node_before (self : string) (n m : FleetNode) : Prop :=
  planned_before self (fn_Role n) (fn_ID n) (fn_Role m) (fn_ID m).

Definition plan_rank (self : string) (n : FleetNode) : Z := 2 * roleRank (fn_Role n) + Z.b2z (is_self self n).

Lemma string_le_self s : string_le s s.
Proof. by destruct (string_le_total s s). Qed.

Lemma plan_less_keys self x y : plan_less self x y = less3 (plan_rank self) fn_ID (λ _, EmptyString) x y.
Proof.
  unfold plan_less, less3, plan_rank.
  destruct (Z.eqb_spec (roleRank (fn_Role x)) (roleRank (fn_Role y))) as [->|Hr]; cbn [negb].
  - destruct (is_self self x), (is_self self y); cbn [Bool.eqb negb Z.b2z];
      repeat first [rewrite Z.eqb_refl | rewrite (proj2 (Z.eqb_neq _ _)) by lia]; cbn [negb];
      try (symmetry; first [apply Z.ltb_lt | apply Z.ltb_ge]; lia).
    all: destruct (String.eqb_spec (fn_ID x) (fn_ID y)) as [->|]; cbn [negb]; [|done].
    all: apply ltb_false_le; apply string_le_self.
  - rewrite (proj2 (Z.eqb_neq _ _)) by (destruct (is_self self x), (is_self self y); simpl; lia). cbn [negb].
    apply eq_true_iff_eq. rewrite !Z.ltb_lt. destruct (is_self self x), (is_self self y); simpl; lia.
Qed.

Lemma SliceStable_ext {A} (f g : A → A → bool) l : (∀ x y, f x y = g x y) → SliceStable f l = SliceStable g l.
Proof.
  intros Hfg. induction l as [|x l IH]; [done|]. simpl. rewrite IH. clear IH. generalize (SliceStable g l) as k.
  induction k as [|y k IHk]; [done|]. simpl. by rewrite Hfg, IHk.
Qed.

Lemma StronglySorted_impl {A} (R S : A → A → Prop) l : (∀ x y, R x y → S x y) → StronglySorted R l → StronglySorted S l.
Proof. intros HRS. induction 1; constructor; [done|]. eapply Forall_impl; eauto. Qed.

Lemma StronglySorted_omap {A B} (R : A → A → Prop) (S : B → B → Prop) (f : A → option B) l :
  (∀ x y a b, R x y → f x = Some a → f y = Some b → S a b) → StronglySorted R l → StronglySorted S (omap f l).
Proof.
  intros HRS. induction 1 as [|x l _ IH Hx]; [constructor|]. csimpl. destruct (f x) as [a|] eqn:Ea; [|done].
  constructor; [done|]. apply list.Forall_forall. intros b (y & Hy & Hb)%list_elem_of_omap.
  apply (HRS x y); [|done..]. by eapply list.Forall_forall in Hx.
Qed.

Lemma sorted_nodes self l : StronglySorted (node_before self) (SliceStable (plan_less self) l).
Proof.
  rewrite (SliceStable_ext _ _ l (plan_less_keys self)).
  eapply StronglySorted_impl; [|apply SliceStable_in_order].
  intros x y. unfold in_order, plan_rank, node_before, planned_before. fold (is_self self x). fold (is_self self y).
  intros Ho. destruct (Z.lt_total (roleRank (fn_Role x)) (roleRank (fn_Role y))) as [Hl|[He|Hg]]; [by left|right|].
  - split; [done|].
    assert (is_self self x = is_self self y → string_le (fn_ID x) (fn_ID y)) as Hid.
    { intros E. rewrite E in Ho. destruct Ho as [?|[_ [[_ ?]|[-> _]]]]; [lia|done|apply string_le_self]. }
    destruct (is_self self x), (is_self self y); cbn [Z.b2z] in Ho; auto. exfalso. lia.
  - exfalso. destruct (is_self self x), (is_self self y); cbn [Z.b2z] in Ho; lia.
Qed.

(** ** What the plan promises of a target *)

(** [t] is a node of the inventory that is online and was not excluded, in
    the tier of its role, and is handed the bundle the run names, or the
    bundle of the run's version, made for what that node is.  A named bundle
    that says no product is the one the node itself must judge. *)
Definition planned_for (all : list FleetNode) (getBundle : result (option Bundle)) (listBundles : result (list Bundle))
    (spec : SystemUpdateSpec) (t : plannedTarget) : Prop :=
  ∃ n b, n ∈ all ∧ (fn_ID n ∉ u_ExcludeNodes spec) ∧ online n = true ∧
    erase t = mkTarget (fn_ID n) (b_SHA256 b) (b_Compatible b) (fn_Role n) false ∧
    (if String.eqb (u_Version spec) EmptyString
     then getBundle = Ok (Some b) ∧ (b_Compatible b = EmptyString ∨ expectedCompatible n = Some (b_Compatible b))
     else ∃ bundles, listBundles = Ok bundles ∧ b ∈ bundles ∧ b_Version b = u_Version spec ∧
            expectedCompatible n = Some (b_Compatible b)).

Lemma skip_of_None exclude compat n : skip_of exclude compat n = None →
  (fn_ID n ∉ exclude) ∧ online n = true ∧ (compat = EmptyString ∨ expectedCompatible n = Some compat).
Proof.
  unfold skip_of. case_bool_decide; [done|]. destruct (online n); cbn [negb]; [|done].
  destruct (String.eqb_spec compat EmptyString); [auto|]. destruct (expectedCompatible n) as [want|]; [|done].
  destruct (String.eqb_spec want compat) as [->|]; [auto|done].
Qed.

Lemma planTargets_in all exclude compat self n : n ∈ (fst (planTargets all exclude compat self)) →
  n ∈ all ∧ (fn_ID n ∉ exclude) ∧ online n = true ∧ (compat = EmptyString ∨ expectedCompatible n = Some compat).
Proof.
  unfold planTargets. cbn [fst]. rewrite (SliceStable_perm (plan_less self)), list_elem_of_filter.
  by intros [?%skip_of_None ?].
Qed.

Lemma planTargets_ids all exclude compat self :
  (fn_ID <$> (fst (planTargets all exclude compat self))) ++ (sn_NodeID <$> (snd (planTargets all exclude compat self))) ≡ₚ fn_ID <$> all.
Proof. unfold planTargets. cbn [fst snd]. rewrite (SliceStable_perm (plan_less self)). apply planned_or_skipped. Qed.

Lemma planTargets_sorted all exclude compat self : StronglySorted (node_before self) (fst (planTargets all exclude compat self)).
Proof. apply sorted_nodes. Qed.

Lemma fmap_as_omap {A B} (f : A → B) (l : list A) : f <$> l = omap (λ x, Some (f x)) l.
Proof. induction l as [|x l IH]; [done|]. csimpl. by f_equal. Qed.

Lemma omap_after_fmap {A B C} (g : A → B) (f : B → option C) (l : list A) : omap f (g <$> l) = omap (λ x, f (g x)) l.
Proof. induction l as [|x l IH]; [done|]. csimpl. by rewrite IH. Qed.

(** The plan before its canaries were chosen. *)
Definition raw_plan (all : list FleetNode) (getBundle : result (option Bundle)) (listBundles : result (list Bundle))
    (spec : SystemUpdateSpec) (self : string) (raw : list plannedTarget) (skipped : list SkippedNode) : Prop :=
  Forall (λ t, t_Canary t = false) raw ∧
  (t_NodeID <$> raw) ++ (sn_NodeID <$> skipped) ≡ₚ fn_ID <$> all ∧
  StronglySorted (target_before self) raw ∧
  Forall (planned_for all getBundle listBundles spec) raw.

Lemma raw_plan_bundle all getBundle listBundles spec self b :
  u_Version spec = EmptyString → getBundle = Ok (Some b) →
  raw_plan all getBundle listBundles spec self
    ((λ n, mkTarget (fn_ID n) (b_SHA256 b) (b_Compatible b) (fn_Role n) false)
       <$> (planTargets all (u_ExcludeNodes spec) (b_Compatible b) self).1)
    (planTargets all (u_ExcludeNodes spec) (b_Compatible b) self).2.
Proof.
  intros Hv Hg. split_and!.
  - apply Forall_fmap, Forall_true. done.
  - rewrite <- list_fmap_compose. apply planTargets_ids.
  - rewrite fmap_as_omap. eapply StronglySorted_omap; [|apply planTargets_sorted]. by intros x y t u Hxy [= <-] [= <-].
  - apply Forall_fmap, list.Forall_forall. intros n (Hin & Hex & Ho & Hc)%planTargets_in.
    exists n, b. rewrite Hv. cbn [String.eqb]. split_and!; auto.
Qed.

Lemma raw_plan_version all getBundle bundles spec self comp :
  u_Version spec ≠ EmptyString →
  let rs := resolve_node comp (u_Version spec) bundles <$> (planTargets all (u_ExcludeNodes spec) EmptyString self).1 in
  omap the_missing rs = [] →
  raw_plan all getBundle (Ok bundles) spec self (omap the_target rs)
    ((planTargets all (u_ExcludeNodes spec) EmptyString self).2 ++ omap the_skip rs).
Proof.
  intros Hv rs Hm.
  assert (∀ t, t ∈ omap the_target rs → ∃ n, n ∈ (planTargets all (u_ExcludeNodes spec) EmptyString self).1 ∧
            resolve_node comp (u_Version spec) bundles n = RTarget t) as Hin.
  { intros t (r & (n & -> & Hn)%list_elem_of_fmap & Ht)%list_elem_of_omap. exists n. split; [done|].
    by destruct (resolve_node _ _ _ n); simplify_eq/=. }
  split_and!.
  - apply list.Forall_forall. by intros t (n & _ & (b & -> & _)%resolve_node_target)%Hin.
  - rewrite fmap_app, (Permutation_app_comm (sn_NodeID <$> _) (sn_NodeID <$> omap _ _)), (assoc_L (++)).
    subst rs. rewrite (resolved_ids _ _ _ _ Hm). apply planTargets_ids.
  - subst rs. rewrite omap_after_fmap. eapply StronglySorted_omap; [|apply planTargets_sorted].
    intros x y t u Hxy Hx Hy.
    destruct (resolve_node _ _ _ x) eqn:Ex; simplify_eq/=. destruct (resolve_node _ _ _ y) eqn:Ey; simplify_eq/=.
    apply resolve_node_target in Ex as (? & -> & _). by apply resolve_node_target in Ey as (? & -> & _).
  - apply list.Forall_forall. intros t (n & (Hn & Hex & Ho & _)%planTargets_in & (b & -> & Hc & Hb & Hbv & _)%resolve_node_target)%Hin.
    exists n, b. destruct (String.eqb_spec (u_Version spec) EmptyString); [done|]. eauto 10.
Qed.

(** ** Why a node is left out *)

(** The product the run carries, as far as the skips are concerned. *)
Definition skip_justified (all : list FleetNode) (getBundle : result (option Bundle)) (spec : SystemUpdateSpec)
    (s : SkippedNode) : Prop :=
  ∃ n, n ∈ all ∧ fn_ID n = sn_NodeID s ∧ fn_Role n = sn_Tier s ∧
    match sn_Reason s with
    | SkipExcluded => fn_ID n ∈ u_ExcludeNodes spec
    | SkipOffline => online n = false
    | SkipFirewallSKU =>
        (** the firewall's image on one side and another product on the other *)
        ∃ want, expectedCompatible n = Some want ∧
          (want = FirewallCompatible ∨ (∃ b, getBundle = Ok (Some b) ∧ b_Compatible b = FirewallCompatible) ∨ u_Component spec = "fw")
    | SkipNoArtifactForArch =>
        (** no image is known for the node, or the one bundle is another's *)
        expectedCompatible n = None ∨
        ∃ want b, expectedCompatible n = Some want ∧ getBundle = Ok (Some b) ∧ want ≠ b_Compatible b ∧
          want ≠ FirewallCompatible ∧ b_Compatible b ≠ FirewallCompatible
    end.

Lemma skip_of_justified all getBundle spec b compat n s :
  n ∈ all → compat = EmptyString ∨ getBundle = Ok (Some b) ∧ b_Compatible b = compat →
  skip_of (u_ExcludeNodes spec) compat n = Some s → skip_justified all getBundle spec s.
Proof.
  intros Hn Hb. unfold skip_of. case_bool_decide; [by intros [= <-]; exists n|].
  destruct (online n) eqn:Eo; cbn [negb]; [|by intros [= <-]; exists n].
  destruct (String.eqb_spec compat EmptyString) as [|Hne]; [done|]. destruct Hb as [?|[Hg <-]]; [done|].
  destruct (expectedCompatible n) as [want|] eqn:Ew; [|intros [= <-]; exists n; simpl; auto].
  destruct (String.eqb_spec want (b_Compatible b)) as [|Hw]; [done|]. intros [= <-]. exists n. unfold skip, skuMismatchReason. simpl.
  split_and!; [done..|]. destruct (String.eqb_spec want FirewallCompatible); [simpl; eauto|].
  destruct (String.eqb_spec (b_Compatible b) FirewallCompatible); simpl; eauto 10.
Qed.

Lemma os_leaves_out want : componentCovers (mkComponent "os" "Rasputin OS" "rasputin-n100" KindRAUC) want = false → want = FirewallCompatible.
Proof. unfold componentCovers. simpl. by destruct (String.eqb_spec want FirewallCompatible). Qed.

Lemma resolve_node_justified all getBundle bundles spec comp n s :
  n ∈ all → ComponentByID (if String.eqb (u_Component spec) EmptyString then "os" else u_Component spec) = Some comp →
  resolve_node comp (u_Version spec) bundles n = RSkip s → skip_justified all getBundle spec s.
Proof.
  intros Hn Hc. unfold resolve_node. destruct (expectedCompatible n) as [want|] eqn:Ew;
    [|intros [= <-]; exists n; simpl; auto].
  destruct (componentCovers comp want) eqn:Ecov; cbn [negb]; [by destruct (stagedByCompatible _ _ _)|].
  intros [= <-]. exists n. simpl. split_and!; [done..|]. exists want. split; [done|].
  unfold ComponentByID in Hc. cbn in Hc.
  destruct (String.eqb_spec (u_Component spec) EmptyString) as [E|E].
  - injection Hc as <-. left. by apply os_leaves_out.
  - repeat case_decide; simplify_eq/=; first [by auto | left; by apply os_leaves_out].
Qed.

(** ** The plan as a whole *)

Lemma buildPlan_shape list_nodes getBundle listBundles spec self p :
  buildPlan list_nodes getBundle listBundles spec self = Ok p →
  ∃ all raw, list_nodes = Ok all ∧ assignCanaries raw (u_CanaryNodes spec) = Ok (ps_Targets p) ∧
    raw_plan all getBundle listBundles spec self raw (ps_Skipped p) ∧
    Forall (skip_justified all getBundle spec) (ps_Skipped p).
Proof.
  unfold buildPlan. destruct (Bool.eqb _ _) eqn:Eone; [done|]. destruct list_nodes as [all|e]; [|done]. intros Hp.
  exists all. destruct (String.eqb_spec (u_BundleSHA256 spec) EmptyString) as [Hs|Hs]; cbn [negb] in Hp.
  - destruct (String.eqb_spec (u_Version spec) EmptyString) as [Hv|Hv]; [done|].
    destruct (ComponentByID _) as [comp|] eqn:Ec; [|done]. destruct listBundles as [bundles|e]; [|done].
    destruct (planTargets all (u_ExcludeNodes spec) EmptyString self) as [nodes skipped] eqn:Ep.
    destruct (omap the_missing _) as [|m ms] eqn:Em; [|done]. destruct (assignCanaries _ _) as [ts|e] eqn:Ea; [|done].
    injection Hp as <-. cbn [ps_Targets ps_Skipped].
    pose proof (raw_plan_version all getBundle bundles spec self comp Hv) as Hraw. rewrite Ep in Hraw. cbn [fst snd] in Hraw.
    exists (omap the_target (resolve_node comp (u_Version spec) bundles <$> nodes)). split_and!; [done..|by apply Hraw|].
    pose proof (planTargets_in all (u_ExcludeNodes spec) EmptyString self) as Hin. rewrite Ep in Hin.
    apply Forall_app. split; apply list.Forall_forall.
    + injection Ep as _ <-. intros s (n & Hn & Hs')%list_elem_of_omap.
      apply (skip_of_justified _ _ _ (mkBundle EmptyString EmptyString EmptyString) EmptyString n s Hn); [by left|done].
    + intros s (r & (n & -> & Hn)%list_elem_of_fmap & Hr)%list_elem_of_omap.
      eapply (resolve_node_justified _ _ bundles); [apply Hin, Hn|done|]. by destruct (resolve_node _ _ _ n); simplify_eq/=.
  - destruct (String.eqb_spec (u_Version spec) EmptyString) as [Hv|Hv]; [|done].
    destruct getBundle as [[b|]|e]; [|done..].
    destruct (planTargets all (u_ExcludeNodes spec) (b_Compatible b) self) as [nodes skipped] eqn:Ep.
    destruct (assignCanaries _ _) as [ts|e] eqn:Ea; [|done]. injection Hp as <-. cbn [ps_Targets ps_Skipped].
    pose proof (raw_plan_bundle all (Ok (Some b)) listBundles spec self b Hv eq_refl) as Hraw. rewrite Ep in Hraw.
    eexists. split_and!; [done|exact Ea|exact Hraw|]. apply list.Forall_forall.
    injection Ep as _ <-. intros s (n & Hn & Hs')%list_elem_of_omap. 
    apply (skip_of_justified _ _ _ b (b_Compatible b) n s Hn); [by right|done].
Qed.

Lemma cons_parts {A} (x y : A) l k : x :: l = y :: k → x = y ∧ l = k.
Proof. by injection 1. Qed.

(** What depends on a target without its mark carries over to the marked. *)
Lemma erased_Forall (P : plannedTarget → Prop) l l' :
  (∀ t u, erase t = erase u → P t → P u) → erase <$> l' = erase <$> l → Forall P l → Forall P l'.
Proof.
  intros HP. revert l'. induction l as [|t l IH]; intros [|t' l'] E Hl; try done.
  apply cons_parts in E as [E1 E2]. apply Forall_cons in Hl as [??]. constructor; [by apply (HP t)|by apply IH].
Qed.

Lemma erased_sorted self l l' : erase <$> l' = erase <$> l →
  StronglySorted (target_before self) l → StronglySorted (target_before self) l'.
Proof.
  revert l'. induction l as [|t l IH]; intros [|t' l'] E Hl; try done.
  apply cons_parts in E as [E1 E2]. apply StronglySorted_inv in Hl as [Hl Ht]. constructor; [by apply IH|].
  apply (Forall_impl (target_before self t)).
  - revert Ht. apply erased_Forall; [|done]. intros u u' Eu. unfold target_before. by injection Eu as -> _ _ ->.
  - intros u. unfold target_before. by injection E1 as -> _ _ ->.
Qed.

Lemma erased_ids (l l' : list plannedTarget) : erase <$> l' = erase <$> l → t_NodeID <$> l' = t_NodeID <$> l.
Proof.
  intros E. assert (∀ k : list plannedTarget, t_NodeID <$> k = t_NodeID <$> (erase <$> k)) as Hk by (intros; by rewrite <- list_fmap_compose).
  by rewrite (Hk l'), (Hk l), E.
Qed.

(** C25. A plan leaves no node out in silence: every node of the inventory is
    exactly one of a target or a reasoned skip.  Each target is an online,
    not excluded node in the tier of its role and gets the named bundle, or
    the bundle of the named version, made for that node's product and
    architecture (a named bundle without a product string excepted); each skip's reason is
    true of its node; and targets come tier by tier, the control plane's own
    node after its tier's others, by id within. *)
Theorem plan_partition list_nodes getBundle listBundles spec self p :
  buildPlan list_nodes getBundle listBundles spec self = Ok p →
  ∃ all, list_nodes = Ok all ∧
    (t_NodeID <$> ps_Targets p) ++ (sn_NodeID <$> ps_Skipped p) ≡ₚ fn_ID <$> all ∧
    Forall (planned_for all getBundle listBundles spec) (ps_Targets p) ∧
    Forall (skip_justified all getBundle spec) (ps_Skipped p) ∧
    StronglySorted (target_before self) (ps_Targets p).
Proof.
  intros (all & raw & Hl & Ha & (Hf & Hids & Hsort & Hfor) & Hskip)%buildPlan_shape. exists all.
  destruct (assignCanaries_exact _ _ _ Hf Ha) as (Her & _). split_and!; [done|by rewrite (erased_ids _ _ Her)| |done|by eapply erased_sorted].
  revert Hfor. apply erased_Forall; [|done]. intros t u Htu (n & b & ? & ? & ? & Ht & ?). exists n, b. rewrite <- Htu. auto.
Qed.

(** The preview and the plan step are one resolution: whatever the console is
    shown is what the run stashes for the cascade. *)
Lemma preview_is_plan list_nodes getBundle listBundles spec self v p ev :
  PreviewPlan list_nodes getBundle listBundles spec self = Ok v → systemPlan list_nodes getBundle listBundles spec self = Ok (p, ev) →
  pt_NodeID <$> pv_Targets v = targetIDs p ∧ pt_NodeID <$> filter (λ t, pt_Canary t = true) (pv_Targets v) = canaryIDs p ∧
  pv_Skipped v = pe_Skipped ev ∧ (pv_SelfNodeID v ≠ EmptyString → pv_SelfNodeID v ∈ targetIDs p).
Proof.
  unfold PreviewPlan, systemPlan. destruct (buildPlan _ _ _ _ _) as [st|e]; [|done]. intros [= <-] [= <- <-]. cbn. split_and!.
  - by rewrite <- list_fmap_compose.
  - unfold canaryIDs. induction (ps_Targets st) as [|t l IH]; [done|]. csimpl. rewrite !filter_cons. cbn.
    case_decide; [cbn; by f_equal|done].
  - done.
  - destruct (existsb _ _) eqn:E; [|done]. intros _. apply existsb_exists in E as (t & Hin%list_elem_of_In & Hid%String.eqb_eq).
    rewrite <- Hid. by apply list_elem_of_fmap_2.
Qed.

(** Exactly one node per worker tier and image carries the risk for the
    others: every compute or storage target's group has one canary and no
    second, a canary is never the control plane or the firewall, and a node
    the operator named as canary is one. *)
Theorem canaries_exact list_nodes getBundle listBundles spec self p :
  buildPlan list_nodes getBundle listBundles spec self = Ok p →
  (∀ t, t ∈ ps_Targets p → t_Canary t = true → t_Tier t = role_compute ∨ t_Tier t = role_storage) ∧
  (∀ t, t ∈ ps_Targets p → t_Tier t = role_compute ∨ t_Tier t = role_storage →
     ∃ c, (c ∈ ps_Targets p ∧ t_Canary c = true ∧ group_of c = group_of t) ∧
       ∀ d, d ∈ ps_Targets p → t_Canary d = true → group_of d = group_of t → d = c) ∧
  (∀ id, id ∈ u_CanaryNodes spec → ∃ c, c ∈ ps_Targets p ∧ t_NodeID c = id ∧ t_Canary c = true).
Proof.
  assert (∀ s, canaryEligible s = true ↔ s = role_compute ∨ s = role_storage) as Hel.
  { intros s. unfold canaryEligible. rewrite orb_true_iff. by rewrite !String.eqb_eq. }
  intros (all & raw & Hl & Ha & (Hf & _) & _)%buildPlan_shape.
  destruct (assignCanaries_exact _ _ _ Hf Ha) as (_ & H1 & H2 & H3). split_and!; [| |done].
  - intros t Ht Hc. apply Hel. auto.
  - intros t Ht Hc. apply H2; [done|]. by apply Hel.
Qed.

(** *** A plan that holds *)

Definition small_fleet : list FleetNode :=
  [mkFleetNode "cp1" role_controlplane "amd64" 0; mkFleetNode "n3" role_compute "amd64" 0; mkFleetNode "n2" role_compute "arm64" 0;
   mkFleetNode "n1" role_compute "amd64" 0; mkFleetNode "n4" role_compute "amd64" (31 * 10 ^ 9); mkFleetNode "fw" role_firewall "amd64" 0].
Definition small_store : list Bundle :=
  [mkBundle "aa" "1.2" "rasputin-n100"; mkBundle "bb" "1.2" "rasputin-rpi-arm64"; mkBundle "cc" "1.1" "rasputin-n100"].
Definition small_spec : SystemUpdateSpec := mkSpec "1.2" EmptyString EmptyString [] ["n3"].
Definition small_plan : systemPlanState :=
  mkPlanned EmptyString "1.2" "os"
    [mkTarget "n1" "aa" "rasputin-n100" role_compute false; mkTarget "n2" "bb" "rasputin-rpi-arm64" role_compute true;
     mkTarget "n3" "aa" "rasputin-n100" role_compute true; mkTarget "cp1" "aa" "rasputin-n100" role_controlplane false]
    [mkSkipped "n4" SkipOffline "not online when the plan was made" role_compute "rasputin-n100";
     mkSkipped "fw" SkipFirewallSKU "needs rasputin-fw-n100, this run updates Rasputin OS" role_firewall "rasputin-fw-n100"]
    "cp1".

Lemma plan_partition_witness : buildPlan (Ok small_fleet) (Ok None) (Ok small_store) small_spec "cp1" = Ok small_plan ∧
  StronglySorted (target_before "cp1") (ps_Targets small_plan).
Proof.
  split; [vm_compute; reflexivity|].
  edestruct (plan_partition (Ok small_fleet) (Ok None) (Ok small_store) small_spec "cp1" small_plan) as (all & ? & ? & ? & ? & ?);
    [vm_compute; reflexivity|done].
Defined.

Lemma canaries_exact_witness : ∃ c, c ∈ ps_Targets small_plan ∧ t_NodeID c = "n3" ∧ t_Canary c = true.
Proof.
  destruct (canaries_exact (Ok small_fleet) (Ok None) (Ok small_store) small_spec "cp1" small_plan) as (_ & _ & H);
    [vm_compute; reflexivity|]. apply H. by left.
Defined.
