(* ===== verification/UpdateCascade.v ===== *)
(** * The cascade of a fleet update

    api/internal/updater/system_jobs.go, second half, with the knobs of
    proto/updates.go and proto/intorstring.go: the tiers in turn, each tier's
    canaries before its fan-out, the fan-out with so many nodes at a time and
    a failure budget, the report, and the verdict.

    The launch loop and the goroutines it starts are interleaved by [step]:
    the control state is where the launch loop stands and what each goroutine
    has done, cut at the calls of the child driver, at the grid's lock and at
    the semaphore.  What a child turns out to do is the action's argument:
    any answer of the driver, in any order. *)
From Stdlib Require Import Ascii String.
From S2P Require Import Prelude GoStrings Ledger UpdatePlan.
Open Scope string_scope.
Open Scope list_scope.
Open Scope Z_scope.

(** ** Knobs *)

Record IntOrString := mkIOS { ios_Value : Z; ios_Percent : bool }.
Definition Int (v : Z) : IntOrString := mkIOS v false.
Definition Percent (v : Z) : IntOrString := mkIOS v true.

Definition Resolve (v : IntOrString) (total : Z) : Z :=
  if negb (ios_Percent v) then ios_Value v
  else if total <=? 0 then 0
  else Z.quot (wrap64 (ios_Value v * total)) 100.

Definition ios_String (v : IntOrString) : string :=
  if ios_Percent v then pretty (ios_Value v) +:+ "%" else pretty (ios_Value v).

Definition ios_Validate (v : IntOrString) : option error :=
  if ios_Value v <? 0 then Some (errors_New (ios_String v +:+ ": must not be negative"))
  else if ios_Percent v && (100 <? ios_Value v) then Some (errors_New (ios_String v +:+ ": must not exceed 100%"))
  else None.

Definition DefaultMaxInFlight : IntOrString := Int 4.
Definition DefaultMaxFailures : IntOrString := Percent 15.
Definition UnlimitedFailures : Z := 0.

Definition ClampMaxInFlight (k tierSize : Z) : Z :=
  let k := if tierSize - 1 <? k then tierSize - 1 else k in
  if k <? 1 then 1 else k.

Definition ResolveMaxFailures (v : IntOrString) (tierSize : Z) : Z :=
  if negb (ios_Percent v) then ios_Value v
  else let n := Resolve v tierSize in if 0 <? n then n else 1.

(** The spec's fields the cascade reads. *)
Record Knobs := mkKnobs { kn_MaxInFlight : option IntOrString; kn_MaxFailures : option IntOrString; kn_CanarySoakSeconds : Z }.
Definition maxInFlight (kn : Knobs) : IntOrString := default DefaultMaxInFlight (kn_MaxInFlight kn).
Definition maxFailures (kn : Knobs) : IntOrString := default DefaultMaxFailures (kn_MaxFailures kn).

(** ** Tiers *)

Record tierGroup := mkTier { g_Tier : string; g_Targets : list plannedTarget }.

(** The scan: a target joins the last group when the tier is the same. *)
Definition group_step (out : list tierGroup) (t : plannedTarget) : list tierGroup :=
  match last out with
  | Some g => if String.eqb (g_Tier g) (t_Tier t)
              then removelast out ++ [mkTier (g_Tier g) (g_Targets g ++ [t])]
              else out ++ [mkTier (t_Tier t) [t]]
  | None => out ++ [mkTier (t_Tier t) [t]]
  end.
Definition groupByTier (targets : list plannedTarget) : list tierGroup := foldl group_step [] targets.

Definition canaries_of (g : tierGroup) : list plannedTarget := filter (λ t, t_Canary t = true) (g_Targets g).
Definition fanout_of (g : tierGroup) : list plannedTarget := filter (λ t, t_Canary t ≠ true) (g_Targets g).
Definition split (g : tierGroup) : list plannedTarget * list plannedTarget := (canaries_of g, fanout_of g).

Definition tierSize (g : tierGroup) : Z := Z.of_nat (length (g_Targets g)).
(** The fan-out's width, as runBounded takes it, and the tier's budget. *)
Definition width (kn : Knobs) (g : tierGroup) : Z :=
  let k := ClampMaxInFlight (Resolve (maxInFlight kn) (tierSize g)) (tierSize g) in
  if k <? 1 then 1 else k.
Definition budget (kn : Knobs) (g : tierGroup) : Z := ResolveMaxFailures (maxFailures kn) (tierSize g).

(** ** The grid and what is published *)

Inductive NodeOutcome := NodeOutcomeSucceeded | NodeOutcomeFailed | NodeOutcomeNotAttempted.
#[export] Instance NodeOutcome_eq_dec : EqDecision NodeOutcome.
Proof. solve_decision. Defined.

Record NodeResult := mkRow {
  r_NodeID : string; r_Outcome : NodeOutcome; r_Tier : string; r_Compatible : string;
  r_Canary : bool; r_ChildJobID : string; r_Detail : string }.

Inductive SystemUpdateChangeType :=
| SystemUpdateNodeStarted | SystemUpdateNodeSucceeded | SystemUpdateNodeFailed
| SystemUpdateCanaryPassed | SystemUpdateCanaryFailed | SystemUpdateBudgetSpent.

Record ChangeEvt := mkEvt {
  e_Change : SystemUpdateChangeType; e_NodeID : string; e_ChildJobID : string; e_BundleID : string;
  e_Detail : string; e_Tier : string; e_Compatible : string; e_Canary : bool }.

(** What happens, in order: a child is submitted, a child's end is seen, an
    event is published. *)
Inductive Ev :=
| ESubmit (t : plannedTarget) (isCanary : bool)
| EOutcome (t : plannedTarget) (r : result Status)
| EPub (e : ChangeEvt).

(** ** Waiting for a child *)

(** What ends one wait of the loop: a terminal event or the fallback tick, the
    deadline, or the parent's context. *)
Inductive Woken := WAgain | WDeadline | WCancelled (e : error).

(** The loop over what the store answers and how each wait ends; none when
    neither has come to an end. *)
Fixpoint wait_child (childID timeout : string) (reads : list (result (option Status) * Woken)) : option (result Status) :=
  match reads with
  | [] => None
  | (Fail e, _) :: _ => Some (Fail (wrapf ("get child: " +:+ err_text e) e))
  | (Ok None, _) :: _ => Some (Fail (errors_New ("child " +:+ childID +:+ " not found")))
  | (Ok (Some st), w) :: reads =>
      if terminal st then Some (Ok st)
      else match w with
           | WAgain => wait_child childID timeout reads
           | WDeadline => Some (Fail (errors_New ("child " +:+ childID +:+ " did not terminate within " +:+ timeout)))
           | WCancelled e => Some (Fail e)
           end
  end.

(** The subscription comes first. *)
Definition waitForChild (childID timeout : string) (subscribe : option error) (reads : list (result (option Status) * Woken))
    : option (result Status) :=
  match subscribe with
  | Some e => Some (Fail (wrapf ("subscribe child events: " +:+ err_text e) e))
  | None => wait_child childID timeout reads
  end.

(** A status it returns is one the store held, and final. *)
Lemma waitForChild_read childID timeout sub reads st :
  waitForChild childID timeout sub reads = Some (Ok st) → terminal st = true ∧ (Ok (Some st)) ∈ reads.*1.
Proof.
  unfold waitForChild. destruct sub; [done|]. induction reads as [|[[[st'|]|e] w] reads IH]; cbn; try done.
  destruct (terminal st') eqn:Et; [intros [= <-]; split; [done|by left]|]. destruct w; try done.
  intros [? ?]%IH. split; [done|by right].
Qed.

(** ** Control states *)

(** A goroutine of the fan-out: started, waiting for its child, or with its
    row written and its slot not yet given back. *)
Inductive Thread :=
| TSpawned (t : plannedTarget)
| TWaiting (t : plannedTarget) (childID : string)
| TRecorded (t : plannedTarget).

Record cascadeResult := mkResult {
  cr_Succeeded : list string; cr_Failed : list string; cr_Remaining : list string; cr_Canaries : list string;
  cr_Results : list NodeResult; cr_CanaryFailure : string; cr_BudgetSpent : list string }.

(** Where the step stands.  [holding] is the slot the launch loop has taken
    for the target at hand. *)
Inductive Phase :=
| PTier (tiers : list tierGroup)
| PCanary (g : tierGroup) (todo : list plannedTarget) (tiers : list tierGroup)
| PCanaryWait (g : tierGroup) (c : plannedTarget) (childID : string) (todo : list plannedTarget) (tiers : list tierGroup)
| PSoak (g : tierGroup) (tiers : list tierGroup)
| PFan (g : tierGroup) (todo : list plannedTarget) (holding : bool) (threads : list Thread) (tiers : list tierGroup)
| PDrain (g : tierGroup) (threads : list Thread) (tiers : list tierGroup)
| PReport
| PReturned (r : result cascadeResult).

Record Cascade := mkCascade {
  cs_phase : Phase;
  cs_grid : gmap string NodeResult;
  cs_budgetSpent : gmap string string;
  cs_canaries : list string;
  cs_canaryFailure : string;
  cs_trace : list Ev }.

Definition at_phase (ph : Phase) (s : Cascade) : Cascade :=
  mkCascade ph (cs_grid s) (cs_budgetSpent s) (cs_canaries s) (cs_canaryFailure s) (cs_trace s).
Definition append_event (e : Ev) (s : Cascade) : Cascade :=
  mkCascade (cs_phase s) (cs_grid s) (cs_budgetSpent s) (cs_canaries s) (cs_canaryFailure s) (cs_trace s ++ [e]).

(** ** runOne *)

Definition record_row (t : plannedTarget) (isCanary : bool) (outcome : NodeOutcome) (childID detail : string) (s : Cascade) : Cascade :=
  mkCascade (cs_phase s)
    (<[t_NodeID t := mkRow (t_NodeID t) outcome (t_Tier t) (t_Compatible t) isCanary childID detail]> (cs_grid s))
    (cs_budgetSpent s) (cs_canaries s) (cs_canaryFailure s) (cs_trace s).

Definition evt (t : plannedTarget) (isCanary : bool) (change : SystemUpdateChangeType) (childID detail : string) : Cascade → Cascade :=
  append_event (EPub (mkEvt change (t_NodeID t) childID (t_BundleSHA256 t) detail (t_Tier t) (t_Compatible t) isCanary)).

(** The driver's submit returned. *)
Definition runOne_submit (t : plannedTarget) (isCanary : bool) (r : result string) (s : Cascade) : Cascade :=
  let s := append_event (ESubmit t isCanary) s in
  match r with
  | Fail e => evt t isCanary SystemUpdateNodeFailed EmptyString (err_text e)
                (record_row t isCanary NodeOutcomeFailed EmptyString (err_text e) s)
  | Ok childID => evt t isCanary SystemUpdateNodeStarted childID EmptyString s
  end.

(** The driver's wait returned: the outcome, and the reason of a failure. *)
Definition wait_verdict (r : result Status) : option string :=
  match r with
  | Fail e => Some (err_text e)
  | Ok st => if bool_decide (st = StatusSucceeded) then None else Some ("child " +:+ Status_text st)
  end.

Definition runOne_wait (t : plannedTarget) (isCanary : bool) (childID : string) (r : result Status) (s : Cascade) : Cascade :=
  let s := append_event (EOutcome t r) s in
  match wait_verdict r with
  | Some detail => evt t isCanary SystemUpdateNodeFailed childID detail (record_row t isCanary NodeOutcomeFailed childID detail s)
  | None => evt t isCanary SystemUpdateNodeSucceeded childID EmptyString (record_row t isCanary NodeOutcomeSucceeded childID EmptyString s)
  end.

(** ** The canary gate *)

Definition group_String (t : plannedTarget) : string := t_Tier t +:+ "/" +:+ t_Compatible t.

Definition gateEvt (change : SystemUpdateChangeType) (t : plannedTarget) (detail : string) : Cascade → Cascade :=
  append_event (EPub (mkEvt change (t_NodeID t) EmptyString (t_BundleSHA256 t) detail (t_Tier t) (t_Compatible t) true)).

(** [break tiers]. *)
Definition canary_failed (c : plannedTarget) (s : Cascade) : Cascade :=
  gateEvt SystemUpdateCanaryFailed c "fan-out aborted; nothing else was touched"
    (mkCascade PReport (cs_grid s) (cs_budgetSpent s) (cs_canaries s)
       (t_NodeID c +:+ " (" +:+ group_String c +:+ ")") (cs_trace s)).

Definition canary_passed (g : tierGroup) (c : plannedTarget) (todo : list plannedTarget) (tiers : list tierGroup) (s : Cascade) : Cascade :=
  at_phase (PCanary g todo tiers) (gateEvt SystemUpdateCanaryPassed c "fan-out authorised for this architecture" s).

Definition name_canary (c : plannedTarget) (s : Cascade) : Cascade :=
  mkCascade (cs_phase s) (cs_grid s) (cs_budgetSpent s) (cs_canaries s ++ [t_NodeID c]) (cs_canaryFailure s) (cs_trace s).

(** ** The failure budget *)

Definition failed_in (tier : string) (grid : gmap string NodeResult) : Z :=
  Z.of_nat (size (filter (λ p : string * NodeResult, r_Outcome p.2 = NodeOutcomeFailed ∧ r_Tier p.2 = tier) grid)).

(** mayStart's answer. *)
Definition mayStart (kn : Knobs) (g : tierGroup) (grid : gmap string NodeResult) : bool :=
  if budget kn g =? UnlimitedFailures then true else failed_in (g_Tier g) grid <? budget kn g.

(** What it does when the answer is no. *)
Definition spend (kn : Knobs) (g : tierGroup) (s : Cascade) : Cascade :=
  match cs_budgetSpent s !! g_Tier g with
  | Some _ => s
  | None =>
      append_event (EPub (mkEvt SystemUpdateBudgetSpent EmptyString EmptyString EmptyString
        (pretty (failed_in (g_Tier g) (cs_grid s)) +:+ " of a budget of " +:+ pretty (budget kn g)
           +:+ " failed; new starts stopped, in-flight nodes finish") (g_Tier g) EmptyString false))
      (mkCascade (cs_phase s) (cs_grid s)
         (<[g_Tier g := "the " +:+ g_Tier g +:+ " tier's failure budget (" +:+ pretty (budget kn g)
              +:+ ") was spent before this node was started; it is untouched"]> (cs_budgetSpent s))
         (cs_canaries s) (cs_canaryFailure s) (cs_trace s))
  end.

(** ** The report *)

(** One target's row: the grid's, or one that says why there is none. *)
Definition result_row (grid : gmap string NodeResult) (budgetSpent : gmap string string) (canaryFailure : string)
    (t : plannedTarget) : NodeResult :=
  match grid !! t_NodeID t with
  | Some row => row
  | None =>
      let spent := default EmptyString (budgetSpent !! t_Tier t) in
      let detail :=
        if negb (String.eqb canaryFailure EmptyString) then "the canary gate aborted the run before this node was started; it is untouched"
        else if negb (String.eqb spent EmptyString) then spent
        else "the run stopped before this node was started; it is untouched" in
      mkRow (t_NodeID t) NodeOutcomeNotAttempted (t_Tier t) (t_Compatible t) (t_Canary t) EmptyString detail
  end.

Definition ids_with (o : NodeOutcome) (targets : list plannedTarget) (row : plannedTarget → NodeResult) : list string :=
  t_NodeID <$> filter (λ t, r_Outcome (row t) = o) targets.

Definition report (targets : list plannedTarget) (s : Cascade) : cascadeResult :=
  let row := result_row (cs_grid s) (cs_budgetSpent s) (cs_canaryFailure s) in
  mkResult (ids_with NodeOutcomeSucceeded targets row) (ids_with NodeOutcomeFailed targets row)
    (t_NodeID <$> filter (λ t, cs_grid s !! t_NodeID t = None) targets)
    (cs_canaries s) (row <$> targets) (cs_canaryFailure s)
    (g_Tier <$> filter (λ g, default EmptyString (cs_budgetSpent s !! g_Tier g) ≠ EmptyString) (groupByTier targets)).

(** ** Steps *)

(** What moves: the launch loop, the driver's answers for the canary and for
    the [i]th goroutine, the soak's end, a goroutine's slot. *)
Inductive Act :=
| ANext                              (* the launch loop goes on by itself *)
| ASubmitCanary (r : result string)
| AWaitCanary (r : result Status)
| ASoaked (r : result unit)          (* the time passed, or the step's context ended *)
| ASubmit (i : nat) (r : result string)
| AWait (i : nat) (r : result Status)
| ARelease (i : nat).

(** A goroutine's move. *)
Definition thread_step (a : Act) (threads : list Thread) (s : Cascade) : option (list Thread * Cascade) :=
  match a with
  | ASubmit i r =>
      match threads !! i with
      | Some (TSpawned t) =>
          Some (<[i := match r with Fail _ => TRecorded t | Ok child => TWaiting t child end]> threads, runOne_submit t false r s)
      | _ => None
      end
  | AWait i r =>
      match threads !! i with
      | Some (TWaiting t child) => Some (<[i := TRecorded t]> threads, runOne_wait t false child r s)
      | _ => None
      end
  | ARelease i =>
      match threads !! i with
      | Some (TRecorded t) => Some (delete i threads, s)
      | _ => None
      end
  | _ => None
  end.

(** The slots taken. *)
Definition in_flight (holding : bool) (threads : list Thread) : Z := Z.of_nat (length threads) + Z.b2z holding.

(** A whole number of seconds, as [time.Duration] prints it. *)
Definition duration_text (seconds : Z) : string :=
  let h := seconds / 3600 in let m := seconds / 60 mod 60 in
  (if 0 <? h then pretty h +:+ "h" else EmptyString) +:+
  (if 0 <? seconds / 60 then pretty m +:+ "m" else EmptyString) +:+ pretty (seconds mod 60) +:+ "s".

Section cascade.
Context (kn : Knobs) (targets : list plannedTarget).

Definition soak_error (e : error) : error :=
  wrapf ("cancelled during the " +:+ duration_text (kn_CanarySoakSeconds kn) +:+ " canary soak: " +:+ err_text e) e.

Definition step (a : Act) (s : Cascade) : option Cascade :=
  match cs_phase s, a with
  | PTier [], ANext => Some (at_phase PReport s)
  | PTier (g :: tiers), ANext => Some (at_phase (PCanary g (split g).1 tiers) s)
  | PCanary g (c :: todo) tiers, ASubmitCanary r =>
      let s := runOne_submit c true r (name_canary c s) in
      match r with
      | Fail _ => Some (canary_failed c s)
      | Ok child => Some (at_phase (PCanaryWait g c child todo tiers) s)
      end
  | PCanaryWait g c child todo tiers, AWaitCanary r =>
      let s := runOne_wait c true child r s in
      match wait_verdict r with
      | Some _ => Some (canary_failed c s)
      | None => Some (canary_passed g c todo tiers s)
      end
  | PCanary g [] tiers, ANext =>
      let '(cs, fanout) := split g in
      if bool_decide (cs ≠ []) && bool_decide (fanout ≠ []) && (0 <? kn_CanarySoakSeconds kn)
      then Some (at_phase (PSoak g tiers) s) else Some (at_phase (PFan g fanout false [] tiers) s)
  | PSoak g tiers, ASoaked (Ok _) => Some (at_phase (PFan g (split g).2 false [] tiers) s)
  | PSoak g tiers, ASoaked (Fail e) => Some (at_phase (PReturned (Fail (soak_error e))) s)
  | PFan g (t :: todo) false threads tiers, ANext =>
      if in_flight false threads <? width kn g then Some (at_phase (PFan g (t :: todo) true threads tiers) s) else None
  | PFan g (t :: todo) true threads tiers, ANext =>
      if mayStart kn g (cs_grid s) then Some (at_phase (PFan g todo false (threads ++ [TSpawned t]) tiers) s)
      else Some (at_phase (PDrain g threads tiers) (spend kn g s))
  | PFan g [] false threads tiers, ANext => Some (at_phase (PDrain g threads tiers) s)
  | PDrain g [] tiers, ANext => Some (at_phase (PTier tiers) s)
  | PFan g todo holding threads tiers, a =>
      '(threads, s) ← thread_step a threads s; Some (at_phase (PFan g todo holding threads tiers) s)
  | PDrain g threads tiers, a =>
      '(threads, s) ← thread_step a threads s; Some (at_phase (PDrain g threads tiers) s)
  | PReport, ANext => Some (at_phase (PReturned (Ok (report targets s))) s)
  | _, _ => None
  end.

(** The step's entry: the knobs are checked before anything is touched. *)
Definition cascade_start : result Cascade :=
  match ios_Validate (maxInFlight kn) with
  | Some e => Fail (wrapf ("maxInFlight: " +:+ err_text e) e)
  | None =>
      match ios_Validate (maxFailures kn) with
      | Some e => Fail (wrapf ("maxFailures: " +:+ err_text e) e)
      | None => Ok (mkCascade (PTier (groupByTier targets)) ∅ ∅ [] EmptyString [])
      end
  end.

Fixpoint run_schedule (acts : list Act) (s : Cascade) : option Cascade :=
  match acts with
  | [] => Some s
  | a :: acts => s ← step a s; run_schedule acts s
  end.

(** The states some schedule reaches. *)
Inductive reachable : Cascade → Prop :=
| reach_start s : cascade_start = Ok s → reachable s
| reach_step a s s' : reachable s → step a s = Some s' → reachable s'.

Lemma run_reachable acts s s' : reachable s → run_schedule acts s = Some s' → reachable s'.
Proof using.
  revert s. induction acts as [|a acts IH]; simpl; [by intros s Hs [= <-]|].
  intros s Hs. destruct (step a s) as [s1|] eqn:Es; simpl; [|done]. apply IH. by eapply reach_step.
Qed.
End cascade.

(** ** The verdict *)

Definition bracketed (l : list string) : string := "[" +:+ Join l " " +:+ "]".

Definition terminalError (r : cascadeResult) : option error :=
  let n {A} (l : list A) := pretty (Z.of_nat (length l)) in
  if negb (String.eqb (cr_CanaryFailure r) EmptyString) then
    Some (errors_New ("canary " +:+ cr_CanaryFailure r +:+ " failed — aborted before fan-out, " +:+ n (cr_Remaining r) +:+ " node(s) untouched"))
  else if bool_decide (cr_Failed r ≠ []) then
    if bool_decide (cr_BudgetSpent r ≠ []) then
      Some (errors_New (n (cr_Failed r) +:+ " of " +:+ n (cr_Results r) +:+ " node(s) failed (" +:+ bracketed (cr_Failed r) +:+ ") — the " +:+
        Join (cr_BudgetSpent r) "/" +:+ " failure budget stopped the run, " +:+ n (cr_Remaining r) +:+ " node(s) untouched"))
    else Some (errors_New (n (cr_Failed r) +:+ " of " +:+ n (cr_Results r) +:+ " node(s) failed (" +:+ bracketed (cr_Failed r) +:+ ")"))
  else None.

Record SystemUpdateCounts := mkCounts {
  ct_Total : Z; ct_Succeeded : Z; ct_Failed : Z; ct_Skipped : Z; ct_Stranded : Z; ct_NotAttempted : Z }.

Definition count {A} (P : A → Prop) `{∀ x, Decision (P x)} (l : list A) : Z := Z.of_nat (length (filter P l)).

(** The last step, from the children's statuses, the plan and the cascade's
    result: the counts, which are published, and the parent's verdict. *)
Definition systemSummarize (children : result (list Status)) (plan : systemPlanState) (cascade : cascadeResult)
    : result SystemUpdateCounts * option SystemUpdateCounts :=
  match children with
  | Fail e => (Fail (wrapf ("list children: " +:+ err_text e) e), None)
  | Ok children =>
      let grid := bool_decide (cr_Results cascade ≠ []) in
      let counts := mkCounts
        (if grid then Z.of_nat (length (cr_Results cascade)) else Z.of_nat (length children))
        (if grid then count (λ r, r_Outcome r = NodeOutcomeSucceeded) (cr_Results cascade) else count (λ s, s = StatusSucceeded) children)
        (if grid then count (λ r, r_Outcome r = NodeOutcomeFailed) (cr_Results cascade)
         else count (λ s, s = StatusFailed ∨ s = StatusCancelled) children)
        (Z.of_nat (length (ps_Skipped plan))) (Z.of_nat (length (stranded plan))) (Z.of_nat (length (cr_Remaining cascade))) in
      match terminalError cascade with
      | Some e => (Fail e, Some counts)
      | None =>
          if bool_decide (stranded plan ≠ []) then
            (Fail (errors_New (pretty (Z.of_nat (length (stranded plan))) +:+ " node(s) had no artifact for their architecture and were never updated (" +:+
               bracketed (sn_NodeID <$> stranded plan) +:+ ")")), Some counts)
          else (Ok counts, Some counts)
      end
  end.
