(* ===== verification/UpdateMoves.v ===== *)
(** * The cascade's moves, and what they amount to

    [step] written as rules, one per thing that can happen, and an abstract
    dispatcher that knows only which targets are pending, running and settled
    and that may abandon what is pending once a target has failed.  Every
    state of the cascade is one of the dispatcher's.  First, the tiers of a
    planned order. *)
From Stdlib Require Import Ascii String.
From S2P Require Import Prelude GoStrings Ledger UpdatePlan UpdateCascade.
Open Scope string_scope.
Open Scope list_scope.
Open Scope Z_scope.

(** * The tiers of a planned order

    Grouping a planned order by tier loses nothing and keeps the order; on a
    sorted plan of known roles no tier comes twice. *)
Definition all_of (tiers : list tierGroup) : list plannedTarget := mjoin (g_Targets <$> tiers).

Lemma all_of_app xs ys : all_of (xs ++ ys) = all_of xs ++ all_of ys.
Proof. unfold all_of. by rewrite fmap_app, join_app. Qed.

Lemma elem_of_all_of t tiers : t ∈ all_of tiers ↔ ∃ g, g ∈ tiers ∧ t ∈ g_Targets g.
Proof.
  unfold all_of. rewrite list_elem_of_join. split.
  - intros (l & Ht & (g & -> & Hg)%list_elem_of_fmap). eauto.
  - intros (g & Hg & Ht). exists (g_Targets g). split; [done|]. apply list_elem_of_fmap. eauto.
Qed.

(** The two things the scan does with a target. *)
Inductive grouped (out : list tierGroup) (t : plannedTarget) : list tierGroup → Prop :=
| grouped_joins init g : out = init ++ [g] → g_Tier g = t_Tier t → grouped out t (init ++ [mkTier (g_Tier g) (g_Targets g ++ [t])])
| grouped_opens : (∀ g, last out = Some g → g_Tier g ≠ t_Tier t) → grouped out t (out ++ [mkTier (t_Tier t) [t]]).

Lemma group_step_grouped out t : grouped out t (group_step out t).
Proof.
  unfold group_step. destruct (last out) as [g|] eqn:El; [|constructor 2; by intros g Hg; rewrite El in Hg].
  destruct (String.eqb_spec (g_Tier g) (t_Tier t)) as [E|E].
  - apply last_Some in El as [init ->]. rewrite removelast_last. by econstructor.
  - constructor 2. intros g' Hg. congruence.
Qed.

Lemma groupByTier_snoc targets t : groupByTier (targets ++ [t]) = group_step (groupByTier targets) t.
Proof. unfold groupByTier. by rewrite foldl_app. Qed.

Lemma groupByTier_all targets : all_of (groupByTier targets) = targets.
Proof.
  induction targets as [|t targets IH] using rev_ind; [done|]. rewrite groupByTier_snoc.
  destruct (group_step_grouped (groupByTier targets) t) as [init g E _|_].
  - rewrite E in IH. rewrite all_of_app in *. unfold all_of at 2 in IH. unfold all_of at 2. csimpl in *.
    rewrite (right_id_L [] (++)) in *. by rewrite (assoc_L (++)), IH.
  - rewrite all_of_app, IH. done.
Qed.

Lemma groupByTier_tier targets g t : g ∈ groupByTier targets → t ∈ g_Targets g → t_Tier t = g_Tier g.
Proof.
  revert g t. induction targets as [|u targets IH] using rev_ind; [by intros g t ?%elem_of_nil|]. intros g t.
  rewrite groupByTier_snoc. destruct (group_step_grouped (groupByTier targets) u) as [init h E Hh|_].
  - rewrite elem_of_app, list_elem_of_singleton. intros [Hg| ->].
    + apply IH. rewrite E. set_solver.
    + simpl. rewrite elem_of_app, list_elem_of_singleton. intros [Ht| ->]; [|done]. apply (IH h t); [|done]. rewrite E. set_solver.
  - rewrite elem_of_app, list_elem_of_singleton. intros [Hg| ->]; [by apply IH|]. simpl. by intros ->%list_elem_of_singleton.
Qed.

Lemma split_perm g : canaries_of g ++ fanout_of g ≡ₚ g_Targets g.
Proof.
  unfold canaries_of, fanout_of. induction (g_Targets g) as [|t l IH]; [done|]. rewrite !filter_cons.
  destruct (decide (t_Canary t = true)) as [E|E].
  - rewrite decide_False by auto. simpl. by rewrite IH.
  - rewrite decide_True by done. by rewrite <- Permutation_middle, IH.
Qed.

(** ** No tier twice *)

Definition KnownRole (r : string) : Prop := r ∈ [role_controlplane; role_firewall; role_compute; role_storage].

Lemma roleRank_inj r r' : KnownRole r → KnownRole r' → roleRank r = roleRank r' → r = r'.
Proof. unfold KnownRole. rewrite !elem_of_cons, !elem_of_nil. intros H1 H2. naive_solver. Qed.

Definition rank_le (t u : plannedTarget) : Prop := roleRank (t_Tier t) ≤ roleRank (t_Tier u).

Lemma StronglySorted_snoc {A} (R : A → A → Prop) l x : StronglySorted R (l ++ [x]) ↔ StronglySorted R l ∧ Forall (λ y, R y x) l.
Proof.
  induction l as [|y l IH]; simpl.
  - split; repeat constructor.
  - split.
    + intros [Hs Hy]%StronglySorted_inv. apply IH in Hs as [Hs Hx]. apply Forall_app in Hy as [Hy Hyx].
      split; [by constructor|]. constructor; [by apply Forall_inv in Hyx|done].
    + intros [[Hs Hy]%StronglySorted_inv Hx]. apply Forall_cons in Hx as [Hyx Hx].
      constructor; [by apply IH|]. apply Forall_app. auto.
Qed.

Lemma groupByTier_member targets g : g ∈ groupByTier targets → ∃ t, t ∈ g_Targets g.
Proof.
  revert g. induction targets as [|u targets IH] using rev_ind; [by intros g ?%elem_of_nil|]. intros g.
  rewrite groupByTier_snoc. destruct (group_step_grouped (groupByTier targets) u) as [init h E _|_];
    rewrite elem_of_app, list_elem_of_singleton; intros [Hg| ->].
  - apply IH. rewrite E. set_solver.
  - exists u. simpl. set_solver.
  - by apply IH.
  - exists u. simpl. set_solver.
Qed.

(** Ranks grow strictly from group to group, up to the last target's. *)
Lemma groupByTier_sorted targets :
  Forall (λ t, KnownRole (t_Tier t)) targets → StronglySorted rank_le targets →
  StronglySorted (λ g h, roleRank (g_Tier g) < roleRank (g_Tier h)) (groupByTier targets).
Proof.
  induction targets as [|t targets IH] using rev_ind; [constructor|].
  rewrite Forall_app, Forall_singleton, StronglySorted_snoc. intros [Hv Ht] [Hs Hle]. specialize (IH Hv Hs).
  rewrite groupByTier_snoc. destruct (group_step_grouped (groupByTier targets) t) as [init g E Hg|Hne].
  { rewrite E in IH. by rewrite !StronglySorted_snoc in *. }
  apply StronglySorted_snoc. split; [done|]. simpl. apply list.Forall_forall. intros h Hh.
  assert (∀ h, h ∈ groupByTier targets → KnownRole (g_Tier h) ∧ roleRank (g_Tier h) ≤ roleRank (t_Tier t)) as Hall.
  { intros k Hk. destruct (groupByTier_member _ _ Hk) as [u Hu].
    assert (u ∈ targets) as Hin by (rewrite <- (groupByTier_all targets); apply elem_of_all_of; eauto).
    rewrite <- (groupByTier_tier _ _ _ Hk Hu). rewrite list.Forall_forall in Hv, Hle. split; [by apply Hv|by apply Hle]. }
  destruct (Hall h Hh) as [Hvh Hrh]. apply Z.le_neq. split; [done|].
  intros E%roleRank_inj; [|done..]. destruct (last (groupByTier targets)) as [g|] eqn:El.
  - apply last_Some in El as [init El]. rewrite El in *. apply elem_of_app in Hh as [Hh| ->%list_elem_of_singleton].
    + apply StronglySorted_snoc in IH as [_ IH]. rewrite list.Forall_forall in IH. specialize (IH h Hh). simpl in IH.
      destruct (Hall g) as [_ Hg]; [set_solver|]. rewrite E in IH. lia.
    + by destruct (Hne g).
  - apply last_None in El. rewrite El in Hh. by apply elem_of_nil in Hh.
Qed.

Lemma groupByTier_NoDup targets :
  Forall (λ t, KnownRole (t_Tier t)) targets → StronglySorted rank_le targets → NoDup (g_Tier <$> groupByTier targets).
Proof.
  intros Hv Hs. induction (groupByTier_sorted _ Hv Hs) as [|g l _ IH Hg]; csimpl; constructor; [|done].
  intros (h & E & Hh)%list_elem_of_fmap. rewrite list.Forall_forall in Hg. specialize (Hg h Hh). rewrite E in Hg. lia.
Qed.

(** A key without duplicates tells the elements apart. *)
Lemma key_determines {A} (key : A → string) (l : list A) x y : NoDup (key <$> l) → x ∈ l → y ∈ l → key x = key y → x = y.
Proof.
  intros Hnd [i Hi]%list_elem_of_lookup [j Hj]%list_elem_of_lookup E.
  assert (i = j) as ->; [|congruence]. eapply (NoDup_lookup _ _ _ (key x) Hnd); rewrite list_lookup_fmap;
    [by rewrite Hi|by rewrite Hj, E].
Qed.

(** * The moves *)
(** ** Rules *)

(** The launch loop's moves that write nothing. *)
Inductive quiet (kn : Knobs) (grid : gmap string NodeResult) : Phase → Phase → Prop :=
| q_end : quiet kn grid (PTier []) PReport
| q_tier g ts : quiet kn grid (PTier (g :: ts)) (PCanary g (canaries_of g) ts)
| q_soak g ts : quiet kn grid (PCanary g [] ts) (PSoak g ts)
| q_fan g ts : quiet kn grid (PCanary g [] ts) (PFan g (fanout_of g) false [] ts)
| q_soaked g ts : quiet kn grid (PSoak g ts) (PFan g (fanout_of g) false [] ts)
| q_acquire g t todo ths ts : in_flight false ths < width kn g →
    quiet kn grid (PFan g (t :: todo) false ths ts) (PFan g (t :: todo) true ths ts)
| q_launch g t todo ths ts : mayStart kn g grid = true →
    quiet kn grid (PFan g (t :: todo) true ths ts) (PFan g todo false (ths ++ [TSpawned t]) ts)
| q_started g ths ts : quiet kn grid (PFan g [] false ths ts) (PDrain g ths ts)
| q_joined g ts : quiet kn grid (PDrain g [] ts) (PTier ts).

(** The goroutines of a fan-out. *)
Definition threads_of (ph : Phase) : option (list Thread) :=
  match ph with PFan _ _ _ ths _ | PDrain _ ths _ => Some ths | _ => None end.
Definition with_threads (ths : list Thread) (ph : Phase) : Phase :=
  match ph with PFan g todo h _ ts => PFan g todo h ths ts | PDrain g _ ts => PDrain g ths ts | _ => ph end.

(** A goroutine's moves. *)
Inductive thread_moves (s : Cascade) : list Thread → list Thread → Cascade → Prop :=
| tm_refused l k t e : thread_moves s (l ++ TSpawned t :: k) (l ++ TRecorded t :: k) (runOne_submit t false (Fail e) s)
| tm_submitted l k t child : thread_moves s (l ++ TSpawned t :: k) (l ++ TWaiting t child :: k) (runOne_submit t false (Ok child) s)
| tm_waited l k t child r : thread_moves s (l ++ TWaiting t child :: k) (l ++ TRecorded t :: k) (runOne_wait t false child r s)
| tm_released l k t : thread_moves s (l ++ TRecorded t :: k) (l ++ k) s.

Inductive moves (kn : Knobs) (targets : list plannedTarget) (s : Cascade) : Cascade → Prop :=
| m_quiet ph : quiet kn (cs_grid s) (cs_phase s) ph → moves kn targets s (at_phase ph s)
| m_cancelled g ts e : cs_phase s = PSoak g ts → moves kn targets s (at_phase (PReturned (Fail e)) s)
| m_canary_refused g c todo ts e : cs_phase s = PCanary g (c :: todo) ts →
    moves kn targets s (canary_failed c (runOne_submit c true (Fail e) (name_canary c s)))
| m_canary_submitted g c todo ts child : cs_phase s = PCanary g (c :: todo) ts →
    moves kn targets s (at_phase (PCanaryWait g c child todo ts) (runOne_submit c true (Ok child) (name_canary c s)))
| m_canary_failed g c child todo ts r detail : cs_phase s = PCanaryWait g c child todo ts → wait_verdict r = Some detail →
    moves kn targets s (canary_failed c (runOne_wait c true child r s))
| m_canary_passed g c child todo ts r : cs_phase s = PCanaryWait g c child todo ts → wait_verdict r = None →
    moves kn targets s (canary_passed g c todo ts (runOne_wait c true child r s))
| m_stopped g t todo ths ts : cs_phase s = PFan g (t :: todo) true ths ts → mayStart kn g (cs_grid s) = false →
    moves kn targets s (at_phase (PDrain g ths ts) (spend kn g s))
| m_thread ths ths' s' : threads_of (cs_phase s) = Some ths → thread_moves s ths ths' s' →
    moves kn targets s (at_phase (with_threads ths' (cs_phase s)) s')
| m_report : cs_phase s = PReport → moves kn targets s (at_phase (PReturned (Ok (report targets s))) s).

Lemma thread_step_moves a ths s ths' s' : thread_step a ths s = Some (ths', s') → thread_moves s ths ths' s'.
Proof.
  assert (∀ i th, ths !! i = Some th → ths = take i ths ++ th :: drop (S i) ths) as Hsplit
    by (intros; symmetry; by apply take_drop_middle).
  destruct a as [| | | |i r|i r|i]; try done; cbn [thread_step];
    destruct (ths !! i) as [[t|t child|t]|] eqn:Ei; try done; intros [= <- <-].
  - rewrite (Hsplit _ _ Ei) at 1. rewrite insert_take_drop by (by apply lookup_lt_is_Some; eexists).
    destruct r; constructor.
  - rewrite (Hsplit _ _ Ei) at 1. rewrite insert_take_drop by (by apply lookup_lt_is_Some; eexists). constructor.
  - rewrite (Hsplit _ _ Ei) at 1. rewrite delete_take_drop. by constructor.
Qed.

Lemma step_moves kn targets a s s' : step kn targets a s = Some s' → moves kn targets s s'.
Proof.
  unfold step. destruct (cs_phase s) as [ts|g todo ts|g c child todo ts|g ts|g todo h ths ts|g ths ts| |r] eqn:Eph.
  - destruct ts, a; try done; intros [= <-]; apply m_quiet; rewrite Eph; constructor.
  - destruct todo as [|c todo], a as [|r| | | | |]; try done; cbn [split].
    + destruct (_ && _); intros [= <-]; apply m_quiet; rewrite Eph; constructor.
    + destruct r; intros [= <-]; by econstructor.
  - destruct a as [| |r| | | |]; try done. destruct (wait_verdict r) eqn:Ev; intros [= <-]; [by eapply m_canary_failed|by eapply m_canary_passed].
  - destruct a as [| | |[u|e]| | |]; try done; intros [= <-]; [apply m_quiet; rewrite Eph; constructor|by eapply m_cancelled].
  - assert (∀ b, ('(ths', s1) ← thread_step b ths s; Some (at_phase (PFan g todo h ths' ts) s1)) = Some s' →
              moves kn targets s s') as Hth.
    { intros b. destruct (thread_step b ths s) as [[ths' s1]|] eqn:Et; [|done]. cbn. intros [= <-].
      apply thread_step_moves in Et. pose proof (m_thread kn targets s ths ths' s1) as M. rewrite Eph in M. by apply M. }
    destruct a; try (intros Hs; match goal with H : _ = Some s' |- _ => destruct todo, h; (by eapply Hth) end).
    destruct todo as [|t todo], h; try done.
    + intros [= <-]. apply m_quiet. rewrite Eph. constructor.
    + destruct (mayStart kn g (cs_grid s)) eqn:Em; intros [= <-]; [|by eapply m_stopped].
      apply m_quiet. rewrite Eph. by constructor.
    + destruct (Z.ltb_spec (in_flight false ths) (width kn g)); [|done]. intros [= <-]. apply m_quiet. rewrite Eph. by constructor.
  - assert (∀ b, ('(ths', s1) ← thread_step b ths s; Some (at_phase (PDrain g ths' ts) s1)) = Some s' →
              moves kn targets s s') as Hth.
    { intros b. destruct (thread_step b ths s) as [[ths' s1]|] eqn:Et; [|done]. cbn. intros [= <-].
      apply thread_step_moves in Et. pose proof (m_thread kn targets s ths ths' s1) as M. rewrite Eph in M. by apply M. }
    destruct ths as [|th ths], a; try (intros Hs; by eapply Hth). intros [= <-]. apply m_quiet. rewrite Eph. constructor.
  - destruct a; try done. intros [= <-]. by apply m_report.
  - done.
Qed.

(** ** The dispatcher *)

Record Dispatch := mkDispatch {
  d_pending : list plannedTarget; d_running : list plannedTarget; d_settled : list (plannedTarget * bool) }.

Inductive dispatch : Dispatch → Dispatch → Prop :=
| d_start t p p' r st : p ≡ₚ t :: p' → dispatch (mkDispatch p r st) (mkDispatch p' (t :: r) st)
| d_settle t ok p r r' st : r ≡ₚ t :: r' → dispatch (mkDispatch p r st) (mkDispatch p r' ((t, ok) :: st))
| d_abandon t p p' r st : (t, false) ∈ st → p' ⊆+ p → dispatch (mkDispatch p r st) (mkDispatch p' r st).

Definition d_all (d : Dispatch) : list plannedTarget := (d_settled d).*1 ++ d_running d ++ d_pending d.
Definition d_init (targets : list plannedTarget) : Dispatch := mkDispatch targets [] [].

(** Nothing is started twice, and nothing is forgotten unless something
    failed. *)
Definition d_accounts (targets : list plannedTarget) (d : Dispatch) : Prop :=
  d_all d ⊆+ targets ∧ (d_all d ≡ₚ targets ∨ ∃ t, (t, false) ∈ d_settled d).

Lemma dispatch_all d d' : dispatch d d' → d_all d' ⊆+ d_all d ∧ (d_all d' ≡ₚ d_all d ∨ ∃ t, (t, false) ∈ d_settled d').
Proof.
  destruct 1 as [t p p' r st Hp|t ok p r r' st Hr|t p p' r st Ht Hp]; unfold d_all; cbn [d_settled d_running d_pending].
  - assert (st.*1 ++ (t :: r) ++ p' ≡ₚ st.*1 ++ r ++ p) as -> by (rewrite Hp; solve_Permutation). auto.
  - assert (((t, ok) :: st).*1 ++ r' ++ p ≡ₚ st.*1 ++ r ++ p) as -> by (csimpl; rewrite Hr; solve_Permutation). auto.
  - split; [|by eauto]. by do 2 apply submseteq_skips_l.
Qed.

Lemma dispatch_settled_grows d d' x : dispatch d d' → x ∈ d_settled d → x ∈ d_settled d'.
Proof. destruct 1; cbn [d_settled]; set_solver. Qed.

Lemma dispatch_accounts targets d d' : dispatch d d' → d_accounts targets d → d_accounts targets d'.
Proof.
  intros Hd [Hs Ha]. destruct (dispatch_all _ _ Hd) as [Hs' Ha']. split; [by etrans|].
  destruct Ha as [Ha|[t Ht]]; [|right; exists t; by eapply dispatch_settled_grows].
  destruct Ha' as [Ha'|]; [|auto]. left. by rewrite Ha'.
Qed.

Lemma rtc_dispatch_accounts targets d : rtc dispatch (d_init targets) d → d_accounts targets d.
Proof.
  assert (d_accounts targets (d_init targets)) as H0 by (unfold d_accounts; simpl; auto).
  revert H0. generalize (d_init targets) as d0. intros d0 H0. induction 1; eauto using dispatch_accounts.
Qed.

(** ** The cascade as a dispatcher *)

Definition spawned_of (th : Thread) : option plannedTarget := match th with TSpawned t => Some t | _ => None end.
Definition waiting_of (th : Thread) : option plannedTarget := match th with TWaiting t _ => Some t | _ => None end.

Definition pending (ph : Phase) : list plannedTarget :=
  match ph with
  | PTier ts => all_of ts
  | PCanary g todo ts | PCanaryWait g _ _ todo ts => todo ++ fanout_of g ++ all_of ts
  | PSoak g ts => fanout_of g ++ all_of ts
  | PFan g todo _ ths ts => omap spawned_of ths ++ todo ++ all_of ts
  | PDrain g ths ts => omap spawned_of ths ++ all_of ts
  | PReport | PReturned _ => []
  end.
Definition running (ph : Phase) : list plannedTarget :=
  match ph with
  | PCanaryWait _ c _ _ _ => [c]
  | PFan _ _ _ ths _ | PDrain _ ths _ => omap waiting_of ths
  | _ => []
  end.

(** The targets submitted so far. *)
Definition sub_of (e : Ev) : option plannedTarget := match e with ESubmit t _ => Some t | _ => None end.
Definition submitted (tr : list Ev) : list plannedTarget := omap sub_of tr.

(** The grid's row of a settled target. *)
Definition row_for (t : plannedTarget) (ok : bool) (row : NodeResult) : Prop :=
  r_NodeID row = t_NodeID t ∧ r_Tier row = t_Tier t ∧ r_Compatible row = t_Compatible t ∧
  r_Outcome row = (if ok then NodeOutcomeSucceeded else NodeOutcomeFailed).

(** The grid and the trace tell the settled and the running. *)
Record told (grid : gmap string NodeResult) (tr : list Ev) (d : Dispatch) : Prop := mkTold {
  told_submitted : submitted tr ≡ₚ (d_settled d).*1 ++ d_running d;
  told_rows : ∀ t ok, (t, ok) ∈ d_settled d → ∃ row, grid !! t_NodeID t = Some row ∧ row_for t ok row ∧
    (ok = true → EOutcome t (Ok StatusSucceeded) ∈ tr);
  told_grid : ∀ id, is_Some (grid !! id) → ∃ t ok, (t, ok) ∈ d_settled d ∧ t_NodeID t = id }.

(** A cancelled soak returns with targets pending. *)
Definition simulates (s : Cascade) (d : Dispatch) : Prop :=
  (match cs_phase s with PReturned (Fail _) => True | ph => pending ph ≡ₚ d_pending d end) ∧
  running (cs_phase s) ≡ₚ d_running d ∧ told (cs_grid s) (cs_trace s) d.

Lemma told_more grid tr d e : sub_of e = None → told grid tr d → told grid (tr ++ [e]) d.
Proof.
  intros He [H1 H2 H3]. constructor; [|intros t ok Ht; destruct (H2 t ok Ht) as (row & ? & ? & Ho)|done].
  - unfold submitted. rewrite omap_app. csimpl. by rewrite He, (right_id_L [] (++)).
  - exists row. split_and!; [done..|]. intros Hok. apply elem_of_app. auto.
Qed.

Lemma told_started grid tr p p' r st t can : told grid tr (mkDispatch p r st) →
  told grid (tr ++ [ESubmit t can]) (mkDispatch p' (t :: r) st).
Proof.
  intros [H1 H2 H3]. constructor; cbn [d_settled d_running] in *; [|intros u ok Hu; destruct (H2 u ok Hu) as (row & ? & ? & Ho)|done].
  - unfold submitted in *. rewrite omap_app, H1. csimpl. solve_Permutation.
  - exists row. split_and!; [done..|]. intros Hok. apply elem_of_app. auto.
Qed.

Lemma told_settled grid tr p r r' st t ok row : told grid tr (mkDispatch p r st) → r ≡ₚ t :: r' →
  grid !! t_NodeID t = None → row_for t ok row → (ok = true → EOutcome t (Ok StatusSucceeded) ∈ tr) →
  told (<[t_NodeID t := row]> grid) tr (mkDispatch p r' ((t, ok) :: st)).
Proof.
  intros [H1 H2 H3] Hr Hfresh Hrow Hok. constructor; cbn [d_settled d_running] in *.
  - rewrite H1, Hr. csimpl. solve_Permutation.
  - intros u ok' [[= -> ->]|Hu]%elem_of_cons; [exists row; by rewrite lookup_insert_eq|].
    destruct (H2 u ok' Hu) as (row' & Hl & ? & ?). exists row'. rewrite lookup_insert_ne; [done|]. congruence.
  - intros id. destruct (decide (id = t_NodeID t)) as [->|Hne]; [intros _; exists t, ok; split; [by left|done]|].
    rewrite lookup_insert_ne by done. intros (u & ok' & ? & ?)%H3. exists u, ok'. split; [by right|done].
Qed.

(** What runs has no row yet, ids being distinct. *)
Lemma told_fresh targets grid tr d t : NoDup (t_NodeID <$> targets) → d_accounts targets d → told grid tr d →
  t ∈ d_running d ++ d_pending d → grid !! t_NodeID t = None.
Proof.
  intros Hnd [Hsub _] Ht Hin. destruct (grid !! t_NodeID t) as [row|] eqn:Eg; [|done].
  destruct (told_grid _ _ _ Ht (t_NodeID t)) as (u & ok & Hu & Hid); [by rewrite Eg|].
  assert (NoDup (t_NodeID <$> d_all d)) as Hall.
  { apply submseteq_Permutation in Hsub as [k Hk]. rewrite Hk, fmap_app, NoDup_app in Hnd. by destruct Hnd. }
  unfold d_all in Hall. rewrite fmap_app, NoDup_app in Hall. destruct Hall as (_ & Hdis & _).
  destruct (Hdis (t_NodeID t)); [|by apply list_elem_of_fmap_2]. rewrite <- Hid. apply list_elem_of_fmap_2.
  change u with (u, ok).1. by apply list_elem_of_fmap_2.
Qed.

Lemma fresh_running targets grid tr p r r' st t : NoDup (t_NodeID <$> targets) → d_accounts targets (mkDispatch p r st) →
  told grid tr (mkDispatch p r st) → r ≡ₚ t :: r' → grid !! t_NodeID t = None.
Proof. intros Hnd Ha Ht Hr. apply (told_fresh targets grid tr _ t Hnd Ha Ht). cbn. rewrite Hr. set_solver. Qed.

(** ** Each move is the dispatcher's *)

Lemma quiet_keeps kn grid ph ph' : quiet kn grid ph ph' → pending ph' ≡ₚ pending ph ∧ running ph' ≡ₚ running ph.
Proof.
  destruct 1; cbn [pending running]; csimpl; try (split; reflexivity).
  - split; [|done]. unfold all_of. csimpl. by rewrite <- (split_perm g), <- (assoc_L (++)).
  - rewrite !omap_app. csimpl. split; [solve_Permutation|]. by rewrite (right_id_L [] (++)).
Qed.

(** A submitted target that came to nothing. *)
Lemma sim_refused targets s p p' r st t can e :
  NoDup (t_NodeID <$> targets) → d_accounts targets (mkDispatch p r st) →
  told (cs_grid s) (cs_trace s) (mkDispatch p r st) → p ≡ₚ t :: p' →
  let d' := mkDispatch p' r ((t, false) :: st) in
  rtc dispatch (mkDispatch p r st) d' ∧
  told (cs_grid (runOne_submit t can (Fail e) s)) (cs_trace (runOne_submit t can (Fail e) s)) d'.
Proof.
  intros Hnd Ha Ht Hp d'. assert (dispatch (mkDispatch p r st) (mkDispatch p' (t :: r) st)) as Hd by by constructor.
  split; [eapply rtc_l; [exact Hd|]; apply rtc_once; by constructor|].
  assert (cs_grid s !! t_NodeID t = None) as Hfresh
    by (apply (told_fresh targets _ _ _ _ Hnd Ha Ht); cbn; rewrite Hp; set_solver).
  cbn. apply told_more; [done|]. eapply told_settled; [by eapply told_started|reflexivity|done| |done].
  by unfold row_for.
Qed.

Lemma sim_submitted s p p' r st t can child : told (cs_grid s) (cs_trace s) (mkDispatch p r st) → p ≡ₚ t :: p' →
  let d' := mkDispatch p' (t :: r) st in
  rtc dispatch (mkDispatch p r st) d' ∧
  told (cs_grid (runOne_submit t can (Ok child) s)) (cs_trace (runOne_submit t can (Ok child) s)) d'.
Proof.
  intros Ht Hp d'. split; [apply rtc_once; by constructor|]. cbn. apply told_more; [done|]. by eapply told_started.
Qed.

Definition succeeded (r : result Status) : bool := match wait_verdict r with None => true | Some _ => false end.

Lemma succeeded_true r : succeeded r = true → r = Ok StatusSucceeded.
Proof. unfold succeeded, wait_verdict. destruct r as [st|e]; [|done]. by case_bool_decide as E; [rewrite E|]. Qed.

Lemma sim_waited targets s p r r' st t can child res :
  NoDup (t_NodeID <$> targets) → d_accounts targets (mkDispatch p r st) →
  told (cs_grid s) (cs_trace s) (mkDispatch p r st) → r ≡ₚ t :: r' →
  let d' := mkDispatch p r' ((t, succeeded res) :: st) in
  rtc dispatch (mkDispatch p r st) d' ∧
  told (cs_grid (runOne_wait t can child res s)) (cs_trace (runOne_wait t can child res s)) d'.
Proof.
  intros Hnd Ha Ht Hr d'. split; [apply rtc_once; by constructor|].
  pose proof (fresh_running _ _ _ _ _ _ _ _ Hnd Ha Ht Hr) as Hfresh.
  assert (succeeded res = true → EOutcome t (Ok StatusSucceeded) ∈ cs_trace s ++ [EOutcome t res]) as Hout
    by (intros ->%succeeded_true; set_solver).
  unfold runOne_wait, d'. unfold succeeded in *. destruct (wait_verdict res) as [detail|]; cbn; (apply told_more; [done|]);
    (eapply told_settled; [by apply told_more|done|done|by unfold row_for|done]).
Qed.

Lemma with_threads_parts ph ths : threads_of ph = Some ths →
  ∃ rest, pending ph = omap spawned_of ths ++ rest ∧ running ph = omap waiting_of ths ∧
    ∀ ths', pending (with_threads ths' ph) = omap spawned_of ths' ++ rest ∧ running (with_threads ths' ph) = omap waiting_of ths' ∧
      (∀ r, with_threads ths' ph ≠ PReturned r).
Proof. destruct ph; intros [= <-]; eexists; repeat split; try reflexivity; done. Qed.

Lemma spend_keeps kn g s : cs_grid (spend kn g s) = cs_grid s ∧ cs_phase (spend kn g s) = cs_phase s ∧
  cs_canaryFailure (spend kn g s) = cs_canaryFailure s ∧
  (cs_trace (spend kn g s) = cs_trace s ∨ ∃ e, e_Change e = SystemUpdateBudgetSpent ∧ cs_trace (spend kn g s) = cs_trace s ++ [EPub e]).
Proof.
  unfold spend. destruct (cs_budgetSpent s !! g_Tier g); [auto|]. cbn. split_and!; [done..|]. right. eexists. by split; [|reflexivity].
Qed.

Lemma simulates_pending s d : simulates s d → (∀ e, cs_phase s ≠ PReturned (Fail e)) → pending (cs_phase s) ≡ₚ d_pending d.
Proof. intros [Hp _] Hne. destruct (cs_phase s) as [| | | | | | |[|e]]; try exact Hp. by destruct (Hne e). Qed.

Lemma mk_simulates s ph d : pending ph ≡ₚ d_pending d → running ph ≡ₚ d_running d → told (cs_grid s) (cs_trace s) d →
  simulates (at_phase ph s) d.
Proof. intros Hp Hr Ht. split; [|done]. cbn [at_phase cs_phase]. destruct ph as [| | | | | | |[]]; solve [exact Hp|done]. Qed.

(** A spent budget is a failure on the record. *)
Lemma spent_failed kn g s d : 0 ≤ budget kn g → told (cs_grid s) (cs_trace s) d → mayStart kn g (cs_grid s) = false →
  ∃ t, (t, false) ∈ d_settled d.
Proof.
  intros Hb Ht. unfold mayStart. destruct (Z.eqb_spec (budget kn g) UnlimitedFailures) as [|Hne]; [done|].
  rewrite Z.ltb_ge. unfold failed_in, UnlimitedFailures in *. intros Hge.
  assert (∃ id row, cs_grid s !! id = Some row ∧ r_Outcome row = NodeOutcomeFailed) as (id & row & Hl & Ho).
  { destruct (decide (size (filter (λ p : string * NodeResult, r_Outcome p.2 = NodeOutcomeFailed ∧ r_Tier p.2 = g_Tier g) (cs_grid s)) = 0%nat))
      as [E|E]; [lia|]. apply map_size_non_empty_iff, map_choose in E as (id & row & Hl).
    apply map_lookup_filter_Some in Hl as [Hl [Ho _]]. eauto. }
  destruct (told_grid _ _ _ Ht id) as (t & ok & Hin & <-); [by rewrite Hl|].
  destruct (told_rows _ _ _ Ht t ok Hin) as (row' & Hl' & (_ & _ & _ & Hok) & _). simplify_eq.
  exists t. destruct ok; [congruence|done].
Qed.

Section simulation.
Context (kn : Knobs) (targets : list plannedTarget).
Context (distinct : NoDup (t_NodeID <$> targets)) (budget_nonneg : ∀ g, 0 ≤ budget kn g).

Lemma thread_simulated s ths ths' s' p r st rest :
  d_accounts targets (mkDispatch p r st) → told (cs_grid s) (cs_trace s) (mkDispatch p r st) →
  omap spawned_of ths ++ rest ≡ₚ p → omap waiting_of ths ≡ₚ r → thread_moves s ths ths' s' →
  ∃ p' r' st', rtc dispatch (mkDispatch p r st) (mkDispatch p' r' st') ∧ told (cs_grid s') (cs_trace s') (mkDispatch p' r' st') ∧
    omap spawned_of ths' ++ rest ≡ₚ p' ∧ omap waiting_of ths' ≡ₚ r'.
Proof using distinct.
  intros Ha Ht Hp Hr Hm. destruct Hm as [l k t e|l k t child|l k t child res|l k t];
    rewrite omap_app in Hp, Hr; csimpl in Hp; csimpl in Hr; setoid_rewrite omap_app; csimpl.
  - edestruct (sim_refused targets s p (omap spawned_of l ++ omap spawned_of k ++ rest) r st t false e) as [G1 G2]; [done..| |].
    { rewrite <- Hp. solve_Permutation. }
    do 3 eexists. split_and!; [exact G1|exact G2|by rewrite (assoc_L (++))|done].
  - edestruct (sim_submitted s p (omap spawned_of l ++ omap spawned_of k ++ rest) r st t false child) as [G1 G2]; [done| |].
    { rewrite <- Hp. solve_Permutation. }
    do 3 eexists. split_and!; [exact G1|exact G2|by rewrite (assoc_L (++))|]. rewrite <- Hr. solve_Permutation.
  - edestruct (sim_waited targets s p r (omap waiting_of l ++ omap waiting_of k) st t false child res) as [G1 G2]; [done..| |].
    { rewrite <- Hr. solve_Permutation. }
    do 3 eexists. split_and!; [exact G1|exact G2|done|done].
  - do 3 eexists. split_and!; [reflexivity|done|done|done].
Qed.

(** A failed canary abandons what is pending. *)
Lemma canary_failed_simulated s c p r st :
  told (cs_grid s) (cs_trace s) (mkDispatch p r ((c, false) :: st)) → r ≡ₚ [] →
  rtc dispatch (mkDispatch p r ((c, false) :: st)) (mkDispatch [] r ((c, false) :: st)) ∧
  simulates (canary_failed c s) (mkDispatch [] r ((c, false) :: st)).
Proof using.
  intros Ht Hr. split; [apply rtc_once; eapply d_abandon; [by left|apply submseteq_nil_l]|].
  split; [cbn; reflexivity|]. split; [cbn; by symmetry|]. cbn. apply told_more; [done|]. by destruct Ht.
Qed.

Lemma canary_name_told c s d : told (cs_grid s) (cs_trace s) d → told (cs_grid (name_canary c s)) (cs_trace (name_canary c s)) d.
Proof using. done. Qed.

Lemma moves_simulated s s' d : simulates s d → d_accounts targets d → moves kn targets s s' →
  ∃ d', rtc dispatch d d' ∧ simulates s' d'.
Proof using distinct budget_nonneg.
  intros Hsim Ha Hm. destruct d as [p r st].
  assert ((∀ e, cs_phase s ≠ PReturned (Fail e)) → pending (cs_phase s) ≡ₚ p) as Hpend by apply (simulates_pending s _ Hsim).
  destruct Hsim as (_ & Hrun & Ht). cbn [d_running] in Hrun.
  destruct Hm as [ph Hq|g ts e Eph|g c todo ts e Eph|g c todo ts child Eph|g c child todo ts res detail Eph Ev
    |g c child todo ts res Eph Ev|g t todo ths ts Eph Em|ths ths' s' Eth Htm|Eph].
  - destruct (quiet_keeps _ _ _ _ Hq) as [Qp Qr]. eexists. split; [reflexivity|]. apply mk_simulates; [|by rewrite Qr|done].
    rewrite Qp. apply Hpend. intros e E. rewrite E in Hq. inversion Hq.
  - eexists. split; [reflexivity|]. split; [done|]. rewrite Eph in Hrun. done.
  - rewrite Eph in Hpend, Hrun. edestruct (sim_refused targets (name_canary c s) p (todo ++ fanout_of g ++ all_of ts) r st c true e distinct Ha Ht) as [G1 G2];
      [by rewrite <- Hpend by done|]. edestruct canary_failed_simulated as [G3 G4]; [exact G2|by rewrite <- Hrun|].
    eexists. split; [etrans; [exact G1|exact G3]|exact G4].
  - rewrite Eph in Hpend, Hrun. edestruct (sim_submitted (name_canary c s) p (todo ++ fanout_of g ++ all_of ts) r st c true child Ht) as [G1 G2]; [by rewrite <- Hpend by done|].
    eexists. split; [exact G1|]. apply mk_simulates; [done| |exact G2]. cbn. by rewrite <- Hrun.
  - rewrite Eph in Hpend, Hrun. edestruct (sim_waited targets s p r [] st c true child res distinct Ha Ht) as [G1 G2]; [by rewrite <- Hrun|].
    assert (succeeded res = false) as Es by (unfold succeeded; by rewrite Ev). rewrite Es in G1, G2.
    edestruct canary_failed_simulated as [G3 G4]; [exact G2|done|]. eexists. split; [etrans; [exact G1|exact G3]|exact G4].
  - rewrite Eph in Hpend, Hrun. edestruct (sim_waited targets s p r [] st c true child res distinct Ha Ht) as [G1 G2]; [by rewrite <- Hrun|].
    eexists. split; [exact G1|]. apply mk_simulates; [by apply Hpend|done|]. cbn. by apply told_more.
  - destruct (spent_failed kn g s _ (budget_nonneg g) Ht Em) as [u Hu]. rewrite Eph in Hpend, Hrun.
    destruct (spend_keeps kn g s) as (Eg & _ & _ & Etr). exists (mkDispatch (omap spawned_of ths ++ all_of ts) r st). split.
    + apply rtc_once. eapply d_abandon; [exact Hu|]. rewrite <- Hpend by done. cbn. apply submseteq_skips_l, submseteq_cons, submseteq_inserts_l. done.
    + apply mk_simulates; [done|done|]. rewrite Eg. destruct Etr as [->|(e & _ & ->)]; [by destruct Ht|]. apply told_more; [done|by destruct Ht].
  - destruct (with_threads_parts _ _ Eth) as (rest & Ep & Er & Hw). destruct (Hw ths') as (Ep' & Er' & Hne').
    destruct (thread_simulated s ths ths' s' p r st rest Ha Ht) as (p' & r' & st' & G1 & G2 & G3 & G4);
      [rewrite <- Ep; apply Hpend; intros e E; by rewrite E in Eth|by rewrite <- Er|done|].
    eexists. split; [exact G1|]. apply mk_simulates; [by rewrite Ep'|by rewrite Er'|done].
  - rewrite Eph in Hpend, Hrun. eexists. split; [reflexivity|]. apply mk_simulates; [by apply Hpend|done|done].
Qed.
End simulation.

(** A checked budget is not negative. *)
Lemma validated_budget kn g : ios_Validate (maxFailures kn) = None → 0 ≤ budget kn g.
Proof.
  unfold ios_Validate, budget, ResolveMaxFailures. destruct (Z.ltb_spec (ios_Value (maxFailures kn)) 0); [done|]. intros _.
  destruct (ios_Percent (maxFailures kn)); cbn [negb]; [|done]. destruct (Z.ltb_spec 0 (Resolve (maxFailures kn) (tierSize g))); lia.
Qed.

Lemma reachable_budget kn targets s : reachable kn targets s → ∀ g, 0 ≤ budget kn g.
Proof.
  induction 1 as [s Hs|]; [|done]. intros g. apply validated_budget. unfold cascade_start in Hs.
  destruct (ios_Validate (maxInFlight kn)); [done|]. by destruct (ios_Validate (maxFailures kn)).
Qed.

(** The cascade implements the dispatcher. *)
Lemma cascade_simulated kn targets s : NoDup (t_NodeID <$> targets) → reachable kn targets s →
  ∃ d, rtc dispatch (d_init targets) d ∧ simulates s d.
Proof.
  intros Hnd. induction 1 as [s Hs|a s s' Hr (d & Hd & Hsim) Hst].
  - unfold cascade_start in Hs. destruct (ios_Validate _); [done|]. destruct (ios_Validate _); [done|]. injection Hs as <-.
    exists (d_init targets). split; [done|]. split_and!; [cbn; by rewrite (groupByTier_all targets)|done|].
    constructor; cbn; [done|by intros t ok ?%elem_of_nil|]. intros id [row Hrow]. by rewrite lookup_empty in Hrow.
  - destruct (moves_simulated kn targets Hnd (reachable_budget kn targets _ Hr) s s' d Hsim (rtc_dispatch_accounts _ _ Hd) (step_moves _ _ _ _ _ Hst))
      as (d' & Hd' & Hsim'). exists d'. split; [by etrans|done].
Qed.
