(* ===== verification/UpdateRun.v ===== *)
(** * What a fleet update reports

    The report has one row per target in planned order, each row is what
    happened to its node, and a run is green only when every node of the
    inventory took its image or was left out on purpose. *)
From Stdlib Require Import Ascii String.
From S2P Require Import Prelude GoStrings Ledger UpdatePlan UpdatePlanFacts UpdateCascade UpdateMoves.
Open Scope string_scope.
Open Scope list_scope.
Open Scope Z_scope.

Definition has_failed (grid : gmap string NodeResult) : Prop := ∃ id row, grid !! id = Some row ∧ r_Outcome row = NodeOutcomeFailed.

(** What the last phases keep: a returned report is the state's, and a
    canary's failure is named only once it is in the grid and over. *)
Definition closing (targets : list plannedTarget) (s : Cascade) : Prop :=
  (∀ r, cs_phase s = PReturned (Ok r) → r = report targets s) ∧
  (cs_canaryFailure s ≠ EmptyString → has_failed (cs_grid s) ∧ (cs_phase s = PReport ∨ ∃ r, cs_phase s = PReturned r)).

Lemma app_nonempty_mid a c b : a +:+ String c b ≠ EmptyString.
Proof. by destruct a. Qed.

Lemma runOne_submit_keeps t can r s :
  cs_phase (runOne_submit t can r s) = cs_phase s ∧ cs_canaryFailure (runOne_submit t can r s) = cs_canaryFailure s.
Proof. by destruct r. Qed.

Lemma runOne_wait_keeps t can child r s :
  cs_phase (runOne_wait t can child r s) = cs_phase s ∧ cs_canaryFailure (runOne_wait t can child r s) = cs_canaryFailure s.
Proof. unfold runOne_wait. by destruct (wait_verdict r). Qed.

Lemma thread_moves_keeps s ths ths' s' : thread_moves s ths ths' s' →
  cs_phase s' = cs_phase s ∧ cs_canaryFailure s' = cs_canaryFailure s.
Proof. destruct 1; [apply runOne_submit_keeps..|apply runOne_wait_keeps|done]. Qed.

Lemma with_threads_live ph ths ths' : threads_of ph = Some ths →
  (∀ r, with_threads ths' ph ≠ PReturned r) ∧ ph ≠ PReport ∧ (∀ r, ph ≠ PReturned r).
Proof. by destruct ph. Qed.

Lemma quiet_live kn grid ph ph' : quiet kn grid ph ph' → (∀ r, ph' ≠ PReturned r) ∧ ph ≠ PReport ∧ (∀ r, ph ≠ PReturned r).
Proof. by destruct 1. Qed.

Lemma closing_start kn targets s : cascade_start kn targets = Ok s → closing targets s.
Proof. unfold cascade_start. destruct (ios_Validate _); [done|]. destruct (ios_Validate _); [done|]. by intros [= <-]. Qed.

(** Before the report no failure is named. *)
Lemma closing_open targets s : closing targets s → cs_phase s ≠ PReport → (∀ r, cs_phase s ≠ PReturned r) → cs_canaryFailure s = EmptyString.
Proof.
  intros [_ H] H1 H2. destruct (decide (cs_canaryFailure s = EmptyString)) as [|Hne]; [done|].
  destruct (H Hne) as [_ [|[r ?]]]; [done|]. by destruct (H2 r).
Qed.

Lemma failed_recorded id row (grid : gmap string NodeResult) : r_Outcome row = NodeOutcomeFailed → has_failed (<[id := row]> grid).
Proof. intros Ho. exists id, row. by rewrite lookup_insert_eq. Qed.

Lemma closing_moves kn targets s s' : closing targets s → moves kn targets s s' → closing targets s'.
Proof.
  intros Hc Hm. pose proof (closing_open targets s Hc) as Hopen.
  destruct Hm as [ph Hq|g ts e Eph|g c todo ts e Eph|g c todo ts child Eph|g c child todo ts res detail Eph Ev
    |g c child todo ts res Eph Ev|g t todo ths ts Eph Em|ths ths' s' Eth Htm|Eph].
  - destruct (quiet_live _ _ _ _ Hq) as (Hl & H1 & H2). split; cbn; [by intros r ?%Hl|]. by rewrite Hopen.
  - split; cbn; [done|]. rewrite Hopen by (by rewrite Eph). done.
  - split; cbn; [done|]. intros _. split; [by apply failed_recorded|auto].
  - split; cbn; [done|]. rewrite Hopen by (by rewrite Eph). done.
  - unfold runOne_wait. rewrite Ev. split; cbn; [done|]. intros _. split; [by apply failed_recorded|auto].
  - unfold runOne_wait. rewrite Ev. split; cbn; [done|]. rewrite Hopen by (by rewrite Eph). done.
  - destruct (spend_keeps kn g s) as (_ & _ & Ef & _). split; cbn; [done|]. rewrite Ef, Hopen by (by rewrite Eph). done.
  - destruct (thread_moves_keeps _ _ _ _ Htm) as [_ Ef]. destruct (with_threads_live _ _ ths' Eth) as (Hl & H1 & H2).
    split; cbn; [by intros r ?%Hl|]. by rewrite Ef, Hopen.
  - destruct Hc as [_ Hc]. split; cbn; [by intros r [= <-]|]. intros Hne. destruct (Hc Hne) as [Hf _]. split; [done|eauto].
Qed.

Lemma cascade_closing kn targets s : reachable kn targets s → closing targets s.
Proof. induction 1; [by eapply closing_start|]. eapply closing_moves; [done|by eapply step_moves]. Qed.

(** ** The report *)

(** At the end nothing runs and nothing is pending, so what is settled is
    everything, or something failed. *)
Lemma returned_settled kn targets s res : NoDup (t_NodeID <$> targets) → reachable kn targets s →
  cs_phase s = PReturned (Ok res) →
  ∃ st, told (cs_grid s) (cs_trace s) (mkDispatch [] [] st) ∧ st.*1 ⊆+ targets ∧
    submitted (cs_trace s) ≡ₚ st.*1 ∧ (st.*1 ≡ₚ targets ∨ ∃ t, (t, false) ∈ st).
Proof.
  intros Hnd Hr Eph. destruct (cascade_simulated kn targets s Hnd Hr) as ([p r st] & Hd & (Hp & Hrun & Ht)).
  rewrite Eph in Hp, Hrun. cbn in Hp, Hrun. apply Permutation_nil_l in Hp, Hrun. subst p r.
  destruct (rtc_dispatch_accounts _ _ Hd) as [Hs Ha]. unfold d_all in *. cbn in *. rewrite (right_id_L [] (++)) in *.
  exists st. split_and!; [done..| |done]. rewrite (told_submitted _ _ _ Ht). cbn. by rewrite (right_id_L [] (++)).
Qed.

(** What happened to a target, as the trace has it. *)
Definition happened (tr : list Ev) (t : plannedTarget) (o : NodeOutcome) : Prop :=
  match o with
  | NodeOutcomeSucceeded => EOutcome t (Ok StatusSucceeded) ∈ tr
  | NodeOutcomeFailed => t ∈ submitted tr
  | NodeOutcomeNotAttempted => t ∉ submitted tr
  end.

Lemma settled_in (t : plannedTarget) ok (st : list (plannedTarget * bool)) : (t, ok) ∈ st → t ∈ st.*1.
Proof. intros H. change t with (t, ok).1. by apply list_elem_of_fmap_2. Qed.

Lemma row_honest kn targets s res t : NoDup (t_NodeID <$> targets) → reachable kn targets s →
  cs_phase s = PReturned (Ok res) → t ∈ targets →
  let row := result_row (cs_grid s) (cs_budgetSpent s) (cs_canaryFailure s) t in
  r_NodeID row = t_NodeID t ∧ happened (cs_trace s) t (r_Outcome row) ∧
  (cs_grid s !! t_NodeID t = None ↔ r_Outcome row = NodeOutcomeNotAttempted).
Proof.
  intros Hnd Hr Eph Ht row. destruct (returned_settled kn targets s res Hnd Hr Eph) as (st & Htold & Hsub & Hsubs & _).
  subst row. unfold result_row. destruct (cs_grid s !! t_NodeID t) as [row|] eqn:Eg.
  - destruct (told_grid _ _ _ Htold (t_NodeID t)) as (u & ok & Hu & Hid); [by rewrite Eg|]. cbn in Hu.
    assert (u = t) as ->.
    { apply (key_determines t_NodeID targets); [done| |done|done]. eapply elem_of_submseteq; [by eapply settled_in|done]. }
    destruct (told_rows _ _ _ Htold t ok Hu) as (row' & Hl & (Hrid & _ & _ & Ho) & Hout). simplify_eq.
    rewrite Ho. destruct ok; cbn; (split_and!; [done| |by split]); [auto|]. rewrite Hsubs. by eapply settled_in.
  - cbn. split_and!; [done| |done]. rewrite Hsubs. intros ([u ok] & -> & Hu)%list_elem_of_fmap.
    destruct (told_rows _ _ _ Htold u ok Hu) as (row' & Hl & _). cbn in *. congruence.
Qed.

Lemma ids_with_nil o targets row : ids_with o targets row = [] ↔ ∀ t, t ∈ targets → r_Outcome (row t) ≠ o.
Proof.
  unfold ids_with. split.
  - intros E%fmap_nil_inv t Ht Ho. by eapply (filter_nil_not_elem_of (λ t, r_Outcome (row t) = o)).
  - induction targets as [|t l IH]; [done|]. intros H. rewrite filter_cons, decide_False by (apply H; by left).
    apply IH. intros u Hu. apply H. by right.
Qed.

Lemma terminalError_None r : terminalError r = None ↔ cr_CanaryFailure r = EmptyString ∧ cr_Failed r = [].
Proof.
  unfold terminalError. destruct (String.eqb_spec (cr_CanaryFailure r) EmptyString) as [E|E]; cbn [negb]; [|naive_solver].
  destruct (cr_Failed r) as [|f l] eqn:Ef; [by rewrite bool_decide_false by auto|].
  rewrite bool_decide_true by done. destruct (bool_decide _); naive_solver.
Qed.

(** Some target failed, or all succeeded. *)
Lemma all_succeeded kn targets s res : NoDup (t_NodeID <$> targets) → reachable kn targets s →
  cs_phase s = PReturned (Ok res) →
  let row := result_row (cs_grid s) (cs_budgetSpent s) (cs_canaryFailure s) in
  (∀ t, t ∈ targets → r_Outcome (row t) ≠ NodeOutcomeFailed) → ∀ t, t ∈ targets → r_Outcome (row t) = NodeOutcomeSucceeded.
Proof.
  intros Hnd Hr Eph row Hno. destruct (returned_settled kn targets s res Hnd Hr Eph) as (st & Htold & Hsub & _ & Hall).
  assert (∀ t (ok : bool), (t, ok) ∈ st → r_Outcome (row t) = (if ok then NodeOutcomeSucceeded else NodeOutcomeFailed)) as Hrow.
  { intros t ok Hin. destruct (told_rows _ _ _ Htold t ok Hin) as (r & Hl & (_ & _ & _ & Ho) & _).
    subst row. unfold result_row. by rewrite Hl. }
  destruct Hall as [Hall|[t Ht]].
  - intros t Ht. rewrite <- Hall in Ht. apply list_elem_of_fmap in Ht as ([u ok] & -> & Hu).
    specialize (Hrow _ _ Hu). destruct ok; [done|]. destruct (Hno u); [|done]. rewrite <- Hall. by eapply settled_in.
  - destruct (Hno t); [|by apply (Hrow t false)]. eapply elem_of_submseteq; [by eapply settled_in|done].
Qed.

(** The report is the truth about the run: one row per target in planned
    order, whatever order the nodes finished in; a row says succeeded only if
    the node's own update ended succeeded, not attempted only if nothing was
    ever submitted for it; and the run's verdict is green exactly when every
    row says succeeded. *)
Theorem report_honest kn targets s res :
  NoDup (t_NodeID <$> targets) → reachable kn targets s → cs_phase s = PReturned (Ok res) →
  r_NodeID <$> cr_Results res = t_NodeID <$> targets ∧
  (∀ i t row, targets !! i = Some t → cr_Results res !! i = Some row → happened (cs_trace s) t (r_Outcome row)) ∧
  (terminalError res = None ↔ Forall (λ row, r_Outcome row = NodeOutcomeSucceeded) (cr_Results res)).
Proof.
  intros Hnd Hr Eph. destruct (cascade_closing kn targets s Hr) as [Hres Hcf]. specialize (Hres res Eph). subst res.
  pose proof (λ t, row_honest kn targets s _ t Hnd Hr Eph) as Hrow. split_and!.
  - cbn. rewrite <- list_fmap_compose. apply list_fmap_ext. intros i t Ht. apply Hrow. by eapply list_elem_of_lookup_2.
  - intros i t row Ht. cbn. rewrite list_lookup_fmap, Ht. intros [= <-]. apply Hrow. by eapply list_elem_of_lookup_2.
  - rewrite terminalError_None. cbn. rewrite ids_with_nil, Forall_fmap, list.Forall_forall. split.
    + intros [_ Hno] t Ht. by eapply all_succeeded.
    + intros Hall. split; [|intros t Ht; cbn in Hall; by rewrite Hall].
      destruct (decide (cs_canaryFailure s = EmptyString)) as [|Hne]; [done|].
      destruct (Hcf Hne) as [(id & row & Hl & Ho) _].
      destruct (returned_settled kn targets s _ Hnd Hr Eph) as (st & Htold & Hsub & _ & _).
      destruct (told_grid _ _ _ Htold id) as (t & ok & Hin & <-); [by rewrite Hl|].
      specialize (Hall t). cbn in Hall. unfold result_row in Hall. rewrite Hl in Hall.
      rewrite Hall in Ho; [done|]. eapply elem_of_submseteq; [by eapply settled_in|done].
Qed.

(** ** From the inventory to the verdict *)

Lemma plan_ids_NoDup list_nodes getBundle listBundles spec self p all :
  buildPlan list_nodes getBundle listBundles spec self = Ok p → list_nodes = Ok all → NoDup (fn_ID <$> all) →
  NoDup (t_NodeID <$> ps_Targets p) ∧ ∀ n, n ∈ all →
    (∃ t, t ∈ ps_Targets p ∧ t_NodeID t = fn_ID n) ∨ (∃ sk, sk ∈ ps_Skipped p ∧ sn_NodeID sk = fn_ID n).
Proof.
  intros (all' & raw & Hl & Ha & (Hf & Hids & _) & _)%buildPlan_shape Hall Hnd. simplify_eq.
  destruct (assignCanaries_exact _ _ _ Hf Ha) as (Her & _). rewrite <- (erased_ids _ _ Her) in Hids. split.
  - rewrite <- Hids, NoDup_app in Hnd. by destruct Hnd.
  - intros n Hn. assert (fn_ID n ∈ (t_NodeID <$> ps_Targets p) ++ (sn_NodeID <$> ps_Skipped p)) as Hin
      by (rewrite Hids; by apply list_elem_of_fmap_2).
    apply elem_of_app in Hin as [(t & ? & ?)%list_elem_of_fmap|(sk & ? & ?)%list_elem_of_fmap]; eauto.
Qed.

(** Known roles give tiers that come once. *)
Lemma plan_one_group list_nodes getBundle listBundles spec self p all :
  buildPlan list_nodes getBundle listBundles spec self = Ok p → list_nodes = Ok all → Forall (λ n, KnownRole (fn_Role n)) all →
  NoDup (g_Tier <$> groupByTier (ps_Targets p)).
Proof.
  intros (all' & raw & Hl & Ha & (Hf & _ & Hsort & Hfor) & _)%buildPlan_shape Hall Hv. simplify_eq.
  destruct (assignCanaries_exact _ _ _ Hf Ha) as (Her & _). apply groupByTier_NoDup.
  - assert (Forall (λ t, KnownRole (t_Tier t)) raw) as Hraw.
    { eapply Forall_impl; [exact Hfor|]. intros t (n & b & Hn & _ & _ & Ht & _). rewrite list.Forall_forall in Hv.
      injection Ht as _ _ _ ->. by apply Hv. }
    revert Hraw. apply erased_Forall; [|done]. intros t u E. by injection E as _ _ _ ->.
  - eapply StronglySorted_impl; [|exact (erased_sorted self _ _ Her Hsort)].
    intros t u Htu. unfold rank_le. destruct Htu as [|[-> _]]; lia.
Qed.

Lemma summarize_green children plan cascade counts published : systemSummarize children plan cascade = (Ok counts, published) →
  terminalError cascade = None ∧ stranded plan = [].
Proof.
  unfold systemSummarize. destruct children as [children|e]; [|done]. destruct (terminalError cascade); [done|].
  case_bool_decide as E; [done|]. intros _. split; [done|]. by destruct (stranded plan); [|destruct E].
Qed.

(** C26. UPDATE ALL means all, for a run that the process that planned it also
    closes: when the cascade returns and systemSummarize finds nothing to
    fail, every node of the inventory either ran its own update to success with
    the image planned for it, or was left out as excluded, offline or of the
    other product; none was stranded without an image for its architecture.
    A run the control plane's own reboot interrupted is closed by finishResumed
    from the ledger instead, and is not covered: it can end green without a node
    whose job was never submitted ([resumed_green_without_node]). *)
Theorem green_run_accounts list_nodes getBundle listBundles spec self p all kn s res children counts published :
  buildPlan list_nodes getBundle listBundles spec self = Ok p → list_nodes = Ok all → NoDup (fn_ID <$> all) →
  reachable kn (ps_Targets p) s → cs_phase s = PReturned (Ok res) →
  systemSummarize children p res = (Ok counts, published) →
  ∀ n, n ∈ all →
    (∃ t, t ∈ ps_Targets p ∧ t_NodeID t = fn_ID n ∧ EOutcome t (Ok StatusSucceeded) ∈ cs_trace s) ∨
    (∃ sk, sk ∈ ps_Skipped p ∧ sn_NodeID sk = fn_ID n ∧ sn_Reason sk ∈ [SkipExcluded; SkipOffline; SkipFirewallSKU]).
Proof.
  intros Hp Hall Hnd Hr Eph [Hok Hstr]%summarize_green n Hn.
  destruct (plan_ids_NoDup _ _ _ _ _ _ _ Hp Hall Hnd) as [Hids Hcover].
  destruct (cascade_closing _ _ _ Hr) as [Hres _]. specialize (Hres res Eph). subst res.
  apply terminalError_None in Hok as [_ Hno]. cbn in Hno. rewrite ids_with_nil in Hno.
  destruct (Hcover n Hn) as [(t & Ht & Hid)|(sk & Hsk & Hid)].
  - left. exists t. split_and!; [done..|]. pose proof (all_succeeded _ _ _ _ Hids Hr Eph Hno t Ht) as Ho.
    destruct (row_honest _ _ _ _ t Hids Hr Eph Ht) as (_ & Hh & _). by rewrite Ho in Hh.
  - right. exists sk. split_and!; [done..|]. destruct (sn_Reason sk) eqn:Er; [set_solver..|].
    assert (sk ∈ stranded p) as Hin by (unfold stranded; apply list_elem_of_filter; by rewrite Er).
    rewrite Hstr in Hin. by apply elem_of_nil in Hin.
Qed.

(** *** A run that holds *)

Definition no_knobs : Knobs := mkKnobs None None 0.
Definition done_ok : result Status := Ok StatusSucceeded.
Definition one_node : list Act := [ANext; ANext; ANext; ANext; ASubmit 0 (Ok "job"); AWait 0 done_ok; ARelease 0; ANext].
Definition small_run : list Act :=
  [ANext; ASubmitCanary (Ok "job"); AWaitCanary done_ok; ASubmitCanary (Ok "job"); AWaitCanary done_ok]
    ++ one_node ++ [ANext] ++ one_node ++ [ANext; ANext].
Definition small_start : Cascade := mkCascade (PTier (groupByTier (ps_Targets small_plan))) ∅ ∅ [] EmptyString [].
Definition small_end : Cascade := Eval vm_compute in default small_start (run_schedule no_knobs (ps_Targets small_plan) small_run small_start).
Definition small_result : cascadeResult := report (ps_Targets small_plan) small_end.

Lemma small_end_reachable : reachable no_knobs (ps_Targets small_plan) small_end.
Proof.
  apply (run_reachable _ _ small_run small_start); [by constructor|]. vm_compute. reflexivity.
Qed.

Lemma report_honest_witness : terminalError small_result = None ∧
  Forall (λ row, r_Outcome row = NodeOutcomeSucceeded) (cr_Results small_result).
Proof.
  destruct (report_honest no_knobs (ps_Targets small_plan) small_end small_result) as (_ & _ & H);
    [vm_compute; repeat (constructor; [set_solver|]); constructor|apply small_end_reachable|vm_compute; reflexivity|].
  assert (terminalError small_result = None) as E by (vm_compute; reflexivity). split; [exact E|]. apply H, E.
Defined.

Lemma green_run_accounts_witness : ∃ t, t_NodeID t = "n2" ∧ EOutcome t done_ok ∈ cs_trace small_end.
Proof.
  edestruct (green_run_accounts (Ok small_fleet) (Ok None) (Ok small_store) small_spec "cp1" small_plan small_fleet no_knobs
    small_end small_result (Ok [])) with (n := mkFleetNode "n2" role_compute "arm64" 0) as [(t & _ & Hid & Ho)|(sk & Hin & Hid & _)];
    [vm_compute; reflexivity|reflexivity|vm_compute; repeat (constructor; [set_solver|]); constructor|apply small_end_reachable
    |vm_compute; reflexivity|vm_compute; reflexivity|set_solver|by exists t|].
  exfalso. apply elem_of_cons in Hin as [->|[->|[]%elem_of_nil]%elem_of_cons]; done.
Defined.
