(* ===== verification/UpdateGate.v ===== *)
(** * The canary gate

    What may be started when: no node of a tier's fan-out before the job of
    every canary of that tier ended in success, no node at all after a canary's
    job ended otherwise, no tier before the nodes of the earlier ones are done.
    What a job did is read from the answers of the ledger ([EOutcome]), not
    from the gate events the step publishes about itself. *)
From Stdlib Require Import Ascii String.
From S2P Require Import Prelude GoStrings Ledger UpdatePlan UpdatePlanFacts UpdateCascade UpdateMoves UpdateRun.
Open Scope string_scope.
Open Scope list_scope.
Open Scope Z_scope.

(** ** What a trace says *)

(** The canary's own update job ended succeeded. *)
Definition passed (tr : list Ev) (c : plannedTarget) : Prop := EOutcome c (Ok StatusSucceeded) ∈ tr.
(** The ledger refused to take the node's job: the failure names no child. *)
Definition refused (tr : list Ev) (t : plannedTarget) : Prop :=
  ∃ e, EPub e ∈ tr ∧ e_Change e = SystemUpdateNodeFailed ∧ e_NodeID e = t_NodeID t ∧ e_ChildJobID e = EmptyString.
(** Nothing is under way on the node any more: its job ended, one way or the
    other, or was never taken. *)
Definition settled (tr : list Ev) (t : plannedTarget) : Prop := (∃ r, EOutcome t r ∈ tr) ∨ refused tr t.
(** No canary's job ended otherwise than succeeded. *)
Definition unharmed (tr : list Ev) : Prop :=
  ∀ c r, EOutcome c r ∈ tr → t_Canary c = true → r = Ok StatusSucceeded.

Lemma passed_more tr e c : passed tr c → passed (tr ++ [e]) c.
Proof. unfold passed. set_solver. Qed.
Lemma settled_more tr e c : settled tr c → settled (tr ++ [e]) c.
Proof. intros [[r H]|(ev & H & ?)]; [left; exists r|right; exists ev]; set_solver. Qed.
Lemma unharmed_more tr e : unharmed tr → (∀ c r, e = EOutcome c r → t_Canary c = true → r = Ok StatusSucceeded) → unharmed (tr ++ [e]).
Proof. intros Hn He c r [Hin|Hin%list_elem_of_singleton]%elem_of_app; [by apply Hn|]. by apply He. Qed.

Section gate.
Context (targets : list plannedTarget).

(** What holds when [t] is submitted after [pre]. *)
Definition gated (pre : list Ev) (t : plannedTarget) (isCanary : bool) : Prop :=
  t ∈ targets ∧ isCanary = t_Canary t ∧ unharmed pre ∧
  (∀ c, c ∈ submitted pre → t_Canary c = true → passed pre c) ∧
  (t_Canary t = false → ∀ c, c ∈ targets → t_Canary c = true → t_Tier c = t_Tier t → passed pre c) ∧
  (∀ u, u ∈ submitted pre → t_Tier u ≠ t_Tier t → settled pre u).

Definition trace_ok (tr : list Ev) : Prop := ∀ i t can, tr !! i = Some (ESubmit t can) → gated (take i tr) t can.

Lemma trace_ok_more tr e : trace_ok tr → (∀ t can, e = ESubmit t can → gated tr t can) → trace_ok (tr ++ [e]).
Proof using.
  intros Htr He i t can. destruct (decide (i < length tr)%nat) as [Hlt|Hge].
  - rewrite lookup_app_l by done. rewrite take_app_le by lia. apply Htr.
  - intros Hl. assert (i = length tr) as ->.
    { apply lookup_lt_Some in Hl. rewrite length_app in Hl. simpl in Hl. lia. }
    rewrite take_app_length. apply He. rewrite lookup_app_r, Nat.sub_diag in Hl by done. by injection Hl.
Qed.

(** Where the step stands among the tiers, and which canaries have passed. *)
Definition thread_target (th : Thread) : plannedTarget := match th with TSpawned t | TWaiting t _ | TRecorded t => t end.

Definition at_tier (g : tierGroup) (ts : list tierGroup) : Prop := ∃ done, groupByTier targets = done ++ g :: ts.
Definition canaries_passed (tr : list Ev) (g : tierGroup) : Prop := Forall (passed tr) (canaries_of g).

Definition placed (tr : list Ev) (ph : Phase) : Prop :=
  match ph with
  | PTier ts => ∃ done, groupByTier targets = done ++ ts
  | PCanary g todo ts => at_tier g ts ∧ ∃ did, canaries_of g = did ++ todo ∧ Forall (passed tr) did
  | PCanaryWait g c _ todo ts => at_tier g ts ∧ ∃ did, canaries_of g = did ++ c :: todo ∧ Forall (passed tr) did
  | PSoak g ts => at_tier g ts ∧ canaries_passed tr g
  | PFan g todo _ ths ts => at_tier g ts ∧ canaries_passed tr g ∧ Forall (λ t, t ∈ fanout_of g) (todo ++ (thread_target <$> ths))
  | PDrain g ths ts => at_tier g ts ∧ canaries_passed tr g ∧ Forall (λ t, t ∈ fanout_of g) (thread_target <$> ths)
  | PReport | PReturned _ => True
  end.

Definition live (ph : Phase) : Prop := match ph with PReport | PReturned _ => False | _ => True end.

Record gate_inv (s : Cascade) : Prop := mkGate {
  gate_placed : placed (cs_trace s) (cs_phase s);
  gate_open : live (cs_phase s) → unharmed (cs_trace s);
  gate_canaries : live (cs_phase s) → ∀ c, c ∈ submitted (cs_trace s) → t_Canary c = true → passed (cs_trace s) c ∨ c ∈ running (cs_phase s);
  gate_settled : live (cs_phase s) → ∀ u, u ∈ submitted (cs_trace s) → settled (cs_trace s) u ∨ u ∈ running (cs_phase s);
  gate_trace : trace_ok (cs_trace s) }.

Lemma Forall_passed_more tr e l : Forall (passed tr) l → Forall (passed (tr ++ [e])) l.
Proof using. intros H. eapply Forall_impl; [exact H|]. intros c. apply passed_more. Qed.

Lemma placed_more tr e ph : placed tr ph → placed (tr ++ [e]) ph.
Proof using.
  destruct ph; cbn; unfold canaries_passed; naive_solver eauto using Forall_passed_more.
Qed.

Lemma quiet_placed kn grid tr ph ph' : quiet kn grid ph ph' → placed tr ph → placed tr ph'.
Proof using.
  intros Hq. destruct Hq; cbn; unfold canaries_passed, at_tier.
  - done.
  - intros [done E]. split; [by exists done|]. by exists [].
  - intros [Hg (did & E & Hd)]. rewrite (right_id_L [] (++)) in E. split; [done|by rewrite E].
  - intros [Hg (did & E & Hd)]. rewrite (right_id_L [] (++)) in E. rewrite (right_id_L [] (++)), E.
    split_and!; [done..|]. by apply list.Forall_forall.
  - intros [Hg Hc]. rewrite (right_id_L [] (++)). split_and!; [done..|]. by apply list.Forall_forall.
  - done.
  - intros (Hg & Hc & Hf). rewrite fmap_app, (assoc_L (++)), Forall_app. change (thread_target <$> [TSpawned t]) with [t].
    rewrite Forall_singleton. apply Forall_cons in Hf as [??]. done.
  - done.
  - intros ([done E] & _). exists (done ++ [g]). by rewrite <- (assoc_L (++)).
Qed.

Lemma in_tier g ts t : at_tier g ts → t ∈ g_Targets g → t ∈ targets ∧ t_Tier t = g_Tier g.
Proof using.
  intros [done E] Ht. assert (g ∈ groupByTier targets) as Hg by (rewrite E; set_solver). split.
  - rewrite <- (groupByTier_all targets). apply elem_of_all_of. eauto.
  - by eapply groupByTier_tier.
Qed.

Lemma fanout_in g t : t ∈ fanout_of g → t ∈ g_Targets g ∧ t_Canary t = false.
Proof using. unfold fanout_of. rewrite list_elem_of_filter. intros [H ?]. split; [done|by destruct (t_Canary t)]. Qed.
Lemma canaries_in g t : t ∈ canaries_of g ↔ t ∈ g_Targets g ∧ t_Canary t = true.
Proof using. unfold canaries_of. rewrite list_elem_of_filter. tauto. Qed.

(** Who may be running in a placed phase. *)
Lemma running_in_tier tr ph u : placed tr ph → u ∈ running ph → ∃ g ts, at_tier g ts ∧ u ∈ g_Targets g ∧
  (∀ t, t ∈ running ph → t_Tier t = g_Tier g).
Proof using.
  assert (∀ (ths : list Thread) x, x ∈ omap waiting_of ths → x ∈ thread_target <$> ths) as Hw.
  { intros ths x (th & Hth & E)%list_elem_of_omap. apply list_elem_of_fmap. exists th. split; [|done]. by destruct th; simplify_eq/=. }
  destruct ph as [ts|g todo ts|g c child todo ts|g ts|g todo h ths ts|g ths ts| |r]; cbn; try (intros _ Hu; by apply elem_of_nil in Hu).
  - intros [Hg (did & E & _)] ->%list_elem_of_singleton. exists g, ts.
    assert (c ∈ g_Targets g) as Hc by (apply canaries_in; rewrite E; set_solver).
    split_and!; [done..|]. intros t ->%list_elem_of_singleton. by eapply in_tier.
  - intros (Hg & _ & Hf) Hu. rewrite Forall_app, !list.Forall_forall in Hf. destruct Hf as [_ Hf].
    exists g, ts. split_and!; [done|by apply fanout_in, Hf, Hw|]. intros t Ht. eapply in_tier; [done|]. by apply fanout_in, Hf, Hw.
  - intros (Hg & _ & Hf) Hu. rewrite !list.Forall_forall in Hf.
    exists g, ts. split_and!; [done|by apply fanout_in, Hf, Hw|]. intros t Ht. eapply in_tier; [done|]. by apply fanout_in, Hf, Hw.
Qed.

(** Submitting a canary is gated. *)
Lemma canary_gated s g c todo ts : gate_inv s → cs_phase s = PCanary g (c :: todo) ts → gated (cs_trace s) c true.
Proof using.
  intros [Hp Ho Hc Hs _] E. rewrite E in *. destruct Hp as [Hg (did & Ec & _)].
  assert (c ∈ canaries_of g) as [Hcg Hcan]%canaries_in by (rewrite Ec; set_solver).
  destruct (in_tier _ _ _ Hg Hcg) as [Hin _]. split_and!; [done|done|by apply Ho| |congruence|].
  { intros u Hu Hucan. destruct (Hc I u Hu Hucan) as [|Hr]; [done|]. by apply elem_of_nil in Hr. }
  intros u Hu _. destruct (Hs I u Hu) as [|Hr]; [done|]. by apply elem_of_nil in Hr.
Qed.

(** Publishing and waiting keep the trace gated. *)
Lemma trace_ok_other tr e : trace_ok tr → sub_of e = None → trace_ok (tr ++ [e]).
Proof using. intros H E. apply trace_ok_more; [done|]. intros t can ->. done. Qed.

Lemma submitted_more tr e u : u ∈ submitted (tr ++ [e]) → u ∈ submitted tr ∨ sub_of e = Some u.
Proof using.
  unfold submitted. rewrite omap_app, elem_of_app. intros [|H]; [auto|]. apply list_elem_of_omap in H as (x & ->%list_elem_of_singleton & H). auto.
Qed.

Lemma outcome_settled tr t r e : settled ((tr ++ [EOutcome t r]) ++ [e]) t.
Proof using. apply settled_more. left. exists r. set_solver. Qed.

(** The three ways the trace grows. *)
Definition refused_trace (tr : list Ev) (t : plannedTarget) (can : bool) (tr' : list Ev) : Prop :=
  ∃ e, tr' = (tr ++ [ESubmit t can]) ++ [EPub e] ∧ e_Change e = SystemUpdateNodeFailed ∧ e_NodeID e = t_NodeID t ∧ e_ChildJobID e = EmptyString.
Definition submitted_trace (tr : list Ev) (t : plannedTarget) (can : bool) (tr' : list Ev) : Prop :=
  ∃ e, tr' = (tr ++ [ESubmit t can]) ++ [EPub e].
Definition waited_trace (tr : list Ev) (t : plannedTarget) (r : result Status) (tr' : list Ev) : Prop :=
  ∃ e, tr' = (tr ++ [EOutcome t r]) ++ [EPub e].

Lemma runOne_submit_trace t can r s :
  match r with
  | Fail _ => refused_trace (cs_trace s) t can (cs_trace (runOne_submit t can r s))
  | Ok _ => submitted_trace (cs_trace s) t can (cs_trace (runOne_submit t can r s))
  end.
Proof using. destruct r; eexists; [reflexivity|by split_and!]. Qed.

Lemma runOne_wait_trace t can child r s : waited_trace (cs_trace s) t r (cs_trace (runOne_wait t can child r s)).
Proof using. unfold runOne_wait. destruct (wait_verdict r); eexists; reflexivity. Qed.

Context (one_group : NoDup (g_Tier <$> groupByTier targets)).

(** The canaries of a tier are those of its one group. *)
Lemma tier_canaries g ts c : at_tier g ts → c ∈ targets → t_Canary c = true → t_Tier c = g_Tier g → c ∈ canaries_of g.
Proof using one_group.
  intros [done E] Hc Hcan Ht. apply canaries_in. split; [|done].
  rewrite <- (groupByTier_all targets) in Hc. apply elem_of_all_of in Hc as (h & Hh & Hch).
  assert (h = g) as <-; [|done]. apply (key_determines g_Tier (groupByTier targets)); [done|done|rewrite E; set_solver|].
  rewrite <- Ht. symmetry. by eapply groupByTier_tier.
Qed.

(** Submitting a node of a fan-out is gated. *)
Lemma fanout_gated s g ts t : gate_inv s → live (cs_phase s) → at_tier g ts → canaries_passed (cs_trace s) g →
  t ∈ fanout_of g → (∀ u, u ∈ running (cs_phase s) → t_Tier u = g_Tier g ∧ t_Canary u = false) → gated (cs_trace s) t false.
Proof using one_group.
  intros [_ Ho Hcan' Hs _] Hl Hg Hp [Ht Hcan]%fanout_in Hrun. destruct (in_tier _ _ _ Hg Ht) as [Hin Htier]. split_and!; [done|done|by apply Ho|..].
  - intros c Hc Hcc. destruct (Hcan' Hl c Hc Hcc) as [|Hr]; [done|]. apply Hrun in Hr as [_ Hr]. congruence.
  - intros _ c Hc Hcc Hct. unfold canaries_passed in Hp. rewrite list.Forall_forall in Hp. apply Hp.
    eapply tier_canaries; [done..|]. by rewrite Hct.
  - intros u Hu Hne. destruct (Hs Hl u Hu) as [|Hr]; [done|]. destruct Hne. rewrite Htier. by apply Hrun.
Qed.

(** ** The gate is kept *)

Lemma gate_closed s : trace_ok (cs_trace s) → ¬ live (cs_phase s) → gate_inv s.
Proof using. intros Ht Hl. constructor; [|done..|done]. by destruct (cs_phase s); cbn in *; tauto. Qed.

Lemma gate_submitted_to s s' t can e : gate_inv s → live (cs_phase s) → gated (cs_trace s) t can →
  cs_trace s' = (cs_trace s ++ [ESubmit t can]) ++ [EPub e] →
  placed (cs_trace s) (cs_phase s') → running (cs_phase s) ⊆ running (cs_phase s') →
  (t_Canary t = true → t ∈ running (cs_phase s')) →
  (settled (cs_trace s') t ∨ t ∈ running (cs_phase s')) → gate_inv s'.
Proof using.
  intros [Hp Ho Hc Hs Ht] Hl Hg Htr Hp' Hrun Hcan Hnew. constructor; rewrite Htr in *.
  - by do 2 apply placed_more.
  - intros _. by do 2 (apply unharmed_more; [|done]); apply Ho.
  - intros _ u [[Hu|[= ->]]%submitted_more|?]%submitted_more Huc; [|by right; apply Hcan|done].
    destruct (Hc Hl u Hu Huc) as [|Hr]; [left; by do 2 apply passed_more|right; by apply Hrun].
  - intros _ u [[Hu|[= ->]]%submitted_more|?]%submitted_more; [|done..].
    destruct (Hs Hl u Hu) as [|Hr]; [left; by do 2 apply settled_more|right; by apply Hrun].
  - apply trace_ok_other; [|done]. apply trace_ok_more; [done|]. by intros ? ? [= <- <-].
Qed.

Lemma gate_waited s s' t e r : gate_inv s → live (cs_phase s) →
  cs_trace s' = (cs_trace s ++ [EOutcome t r]) ++ [EPub e] → (t_Canary t = true → r = Ok StatusSucceeded) →
  placed (cs_trace s) (cs_phase s') → running (cs_phase s) ⊆ t :: running (cs_phase s') → gate_inv s'.
Proof using.
  intros [Hp Ho Hc Hs Ht] Hl Htr Hr Hp' Hrun. constructor; rewrite Htr in *.
  - by do 2 apply placed_more.
  - intros _. apply unharmed_more; [apply unharmed_more; [by apply Ho|]|done]. by intros c r' [= <- <-].
  - intros _ u [[Hu|?]%submitted_more|?]%submitted_more Huc; [|done..].
    destruct (Hc Hl u Hu Huc) as [|Hru]; [left; by do 2 apply passed_more|].
    apply Hrun, elem_of_cons in Hru as [->|]; [left|by right]. apply passed_more. unfold passed. rewrite <- Hr by done. apply elem_of_app. right. by left.
  - intros _ u [[Hu|?]%submitted_more|?]%submitted_more; [|done..].
    destruct (Hs Hl u Hu) as [|Hru]; [left; by do 2 apply settled_more|].
    apply Hrun, elem_of_cons in Hru as [->|]; [left; apply outcome_settled|by right].
  - by do 2 (apply trace_ok_other; [|done]).
Qed.

Lemma gate_pub s s' e : gate_inv s → cs_trace s' = cs_trace s ++ [EPub e] →
  placed (cs_trace s') (cs_phase s') → (live (cs_phase s') → live (cs_phase s)) → running (cs_phase s) ⊆ running (cs_phase s') → gate_inv s'.
Proof using.
  intros [Hp Ho Hc Hs Ht] Htr Hp' Hl Hrun. constructor; rewrite Htr in *; [done|..].
  - intros Hl'. apply unharmed_more; [by apply Ho, Hl|done].
  - intros Hl' u [Hu|?]%submitted_more Huc; [|done]. destruct (Hc (Hl Hl') u Hu Huc) as [|Hr]; [left; by apply passed_more|right; by apply Hrun].
  - intros Hl' u [Hu|?]%submitted_more; [|done]. destruct (Hs (Hl Hl') u Hu) as [|Hr]; [left; by apply settled_more|right; by apply Hrun].
  - by apply trace_ok_other.
Qed.

Lemma gate_quiet kn s ph : gate_inv s → quiet kn (cs_grid s) (cs_phase s) ph → gate_inv (at_phase ph s).
Proof using.
  intros [Hp Ho Hc Hs Ht] Hq. pose proof (quiet_placed _ _ _ _ _ Hq Hp) as Hp'. destruct (quiet_keeps _ _ _ _ Hq) as [_ Hr].
  assert (live (cs_phase s)) as Hl by by destruct Hq.
  constructor; cbn [cs_phase cs_trace at_phase]; [done|by intros _; apply Ho|intros _ c Hin Hcan|intros _ u Hin|done].
  - rewrite Hr. by apply Hc.
  - rewrite Hr. by apply Hs.
Qed.

(** A goroutine of the fan-out moves. *)
Lemma placed_threads tr ph ths : threads_of ph = Some ths → placed tr ph →
  ∃ g ts, at_tier g ts ∧ canaries_passed tr g ∧ Forall (λ t, t ∈ fanout_of g) (thread_target <$> ths) ∧
    live ph ∧ (∀ ths', Forall (λ t, t ∈ fanout_of g) (thread_target <$> ths') → placed tr (with_threads ths' ph)).
Proof using.
  destruct ph as [| | | |g todo h ths0 ts|g ths0 ts| |]; try done; intros [= ->]; cbn.
  - intros (Hg & Hc & Hf). rewrite Forall_app in Hf. destruct Hf as [Hf Hth]. exists g, ts. split_and!; [done..|].
    intros ths' Hth'. by rewrite Forall_app.
  - intros (Hg & Hc & Hf). by exists g, ts.
Qed.

Lemma gate_thread s ths ths' s' : gate_inv s → threads_of (cs_phase s) = Some ths → thread_moves s ths ths' s' →
  gate_inv (at_phase (with_threads ths' (cs_phase s)) s').
Proof using one_group.
  intros Hi Eth Htm. destruct (placed_threads _ _ _ Eth (gate_placed _ Hi)) as (g & ts & Hg & Hc & Hf & Hl & Hp).
  destruct (with_threads_parts _ _ Eth) as (rest & _ & Hrun & Hw). destruct (Hw ths') as (_ & Hrun' & _).
  assert (∀ u, u ∈ running (cs_phase s) → t_Tier u = g_Tier g ∧ t_Canary u = false) as Htier.
  { rewrite Hrun. intros u (th & Hth & E)%list_elem_of_omap. rewrite list.Forall_forall in Hf.
    assert (u ∈ fanout_of g) as [Hu ?]%fanout_in; [|split; [by eapply in_tier|done]].
    apply Hf, list_elem_of_fmap. exists th. split; [|done]. by destruct th; simplify_eq/=. }
  assert (∀ t, t ∈ fanout_of g → gated (cs_trace s) t false) as Hgate by (intros; by eapply fanout_gated).
  assert (∀ t, t ∈ fanout_of g → t_Canary t = false) as Hcanary by (intros ? H%fanout_in; apply H).
  destruct Htm as [l k t e|l k t child|l k t child r|l k t];
    rewrite fmap_app, Forall_app in Hf; destruct Hf as [Hfl [Hft Hfk]%Forall_cons]; cbn [thread_target] in Hft.
  - destruct (runOne_submit_trace t false (Fail e) s) as (ev & Etr & Hch & Hid & Hno).
    eapply (gate_submitted_to s _ t false ev); [done..|exact (Hgate t Hft)|exact Etr| | |by rewrite (Hcanary t Hft)|].
    + apply Hp. rewrite fmap_app, Forall_app. split; [done|]. by constructor.
    + rewrite Hrun. cbn [cs_phase at_phase]. rewrite Hrun', !omap_app. set_solver.
    + left. cbn [cs_trace at_phase]. rewrite Etr. right. exists ev. split_and!; [set_solver|done..].
  - destruct (runOne_submit_trace t false (Ok child) s) as (ev & Etr).
    eapply (gate_submitted_to s _ t false ev); [done..|exact (Hgate t Hft)|exact Etr| | |by rewrite (Hcanary t Hft)|].
    + apply Hp. rewrite fmap_app, Forall_app. split; [done|]. by constructor.
    + rewrite Hrun. cbn [cs_phase at_phase]. rewrite Hrun', !omap_app. csimpl. set_solver.
    + right. cbn [cs_phase at_phase]. rewrite Hrun', omap_app. csimpl. set_solver.
  - destruct (runOne_wait_trace t false child r s) as (ev & Etr).
    eapply (gate_waited s _ t ev r); [done..|exact Etr|by rewrite (Hcanary t Hft)| |].
    + apply Hp. rewrite fmap_app, Forall_app. split; [done|]. by constructor.
    + rewrite Hrun. cbn [cs_phase at_phase]. rewrite Hrun', !omap_app. csimpl. set_solver.
  - assert (running (with_threads (l ++ k) (cs_phase s)) = running (cs_phase s)) as Esame by (by rewrite Hrun', Hrun, !omap_app).
    destruct Hi as [_ Ho Hcn Hs Ht]. constructor; cbn [cs_trace cs_phase at_phase]; rewrite ?Esame.
    + apply Hp. by rewrite fmap_app, Forall_app.
    + intros _. by apply Ho.
    + intros _. by apply Hcn.
    + intros _. by apply Hs.
    + done.
Qed.

Lemma gate_canary_failed s c : trace_ok (cs_trace s) → gate_inv (canary_failed c s).
Proof using. intros Ht. apply gate_closed; [|exact (λ H, H)]. cbn. by apply trace_ok_other. Qed.

Lemma gate_moves kn s s' : gate_inv s → moves kn targets s s' → gate_inv s'.
Proof using one_group.
  intros Hi Hm. destruct Hm as [ph Hq|g ts e Eph|g c todo ts e Eph|g c todo ts child Eph|g c child todo ts res detail Eph Ev
    |g c child todo ts res Eph Ev|g t todo ths ts Eph Em|ths ths' s' Eth Htm|Eph].
  - by eapply gate_quiet.
  - apply gate_closed; [apply Hi|exact (λ H, H)].
  - apply gate_canary_failed. pose proof (canary_gated _ _ _ _ _ Hi Eph) as Hg.
    destruct (runOne_submit_trace c true (Fail e) (name_canary c s)) as (ev & -> & _).
    apply trace_ok_other; [|done]. apply trace_ok_more; [apply Hi|]. by intros ? ? [= <- <-].
  - pose proof (canary_gated _ _ _ _ _ Hi Eph) as Hg. pose proof (gate_placed _ Hi) as Hp. rewrite Eph in Hp.
    destruct (runOne_submit_trace c true (Ok child) (name_canary c s)) as (ev & Etr).
    eapply (gate_submitted_to s _ c true ev); [done|by rewrite Eph|exact Hg|exact Etr|exact Hp|rewrite Eph; cbn; set_solver|..].
    + intros _. cbn. by left.
    + right. cbn. by left.
  - apply gate_canary_failed. destruct (runOne_wait_trace c true child res s) as (ev & ->).
    by do 2 (apply trace_ok_other; [|done]); apply Hi.
  - pose proof (gate_placed _ Hi) as Hp. rewrite Eph in Hp. destruct Hp as [Hg (did & Ec & Hd)].
    destruct (runOne_wait_trace c true child res s) as (ev & Etr).
    assert (res = Ok StatusSucceeded) as Hres.
    { unfold wait_verdict in Ev. destruct res; [|done]. case_bool_decide; [by f_equal|done]. }
    assert (gate_inv (at_phase (PTier (g :: ts)) (runOne_wait c true child res s))) as Hmid.
    { eapply (gate_waited s _ c ev res); [done|by rewrite Eph|exact Etr|done|exact Hg|rewrite Eph; cbn; set_solver]. }
    eapply (gate_pub _ _ _ Hmid); [reflexivity| |done|cbn; set_solver]. cbn. split; [done|]. exists (did ++ [c]).
    split; [by rewrite <- (assoc_L (++))|]. apply Forall_app. split.
    + rewrite Etr. by do 3 apply Forall_passed_more.
    + constructor; [|done]. rewrite Etr. do 2 apply passed_more. unfold passed. rewrite Hres. set_solver.
  - pose proof (gate_placed _ Hi) as Hp. rewrite Eph in Hp. destruct Hp as (Hg & Hc & Hf). rewrite Forall_app in Hf. destruct Hf as [_ Hf].
    assert (gate_inv (at_phase (PDrain g ths ts) s)) as Hmid.
    { pose proof (gate_settled _ Hi) as Hs. pose proof (gate_canaries _ Hi) as Hcn. rewrite Eph in Hs, Hcn.
      constructor; cbn; [done|intros _; apply (gate_open _ Hi); by rewrite Eph|intros _; by apply Hcn|intros _; by apply Hs|apply Hi]. }
    destruct (spend_keeps kn g s) as (_ & _ & _ & [Etr|(e & He & Etr)]).
    + destruct Hmid as [? ? ? ? ?]. constructor; cbn [cs_trace at_phase cs_phase]; rewrite Etr; done.
    + eapply (gate_pub _ _ e Hmid); [exact Etr| |done|done]. cbn [cs_trace at_phase cs_phase]. rewrite Etr.
      apply (placed_more _ _ (PDrain g ths ts)). done.
  - by eapply gate_thread.
  - apply gate_closed; [apply Hi|exact (λ H, H)].
Qed.

Lemma gate_reachable kn s : reachable kn targets s → gate_inv s.
Proof using one_group.
  induction 1 as [s Hs|a s s' Hr IH Hst]; [|by eapply gate_moves, step_moves].
  unfold cascade_start in Hs. destruct (ios_Validate _); [done|]. destruct (ios_Validate _); [done|]. injection Hs as <-.
  constructor; cbn; [by exists []|by intros _ c r ?%elem_of_nil|by intros _ u ?%elem_of_nil..|done].
Qed.
End gate.

Lemma submitted_once kn targets s i t can : NoDup (t_NodeID <$> targets) → reachable kn targets s →
  cs_trace s !! i = Some (ESubmit t can) → t ∉ submitted (take i (cs_trace s)).
Proof.
  intros Hnd Hr Hl. destruct (cascade_simulated kn targets s Hnd Hr) as (d & Hd & _ & _ & Ht).
  destruct (rtc_dispatch_accounts _ _ Hd) as [Hsub _].
  assert (NoDup (submitted (cs_trace s))) as Hn.
  { apply NoDup_fmap_1 in Hnd. apply submseteq_Permutation in Hsub as [k Hk]. rewrite Hk, NoDup_app in Hnd.
    destruct Hnd as [Hnd _]. unfold d_all in Hnd. rewrite (assoc_L (++)), NoDup_app in Hnd. destruct Hnd as [Hnd _].
    by rewrite (told_submitted _ _ _ Ht). }
  rewrite <- (take_drop_middle _ _ _ Hl) in Hn. unfold submitted in Hn. rewrite omap_app in Hn. csimpl in Hn.
  apply NoDup_app in Hn as (_ & Hdis & _). intros Hin. apply (Hdis t Hin). by left.
Qed.


