(* ===== verification/UpdateBudget.v ===== *)
(** * The failure budget

    How many nodes at a time a tier's fan-out touches, and how many it can
    lose: the budget and what was in flight when it was spent; and that the
    cascade ends. *)
From Stdlib Require Import Ascii String.
From S2P Require Import Prelude GoStrings Ledger UpdatePlan UpdatePlanFacts UpdateCascade UpdateMoves UpdateRun UpdateGate.
Open Scope string_scope.
Open Scope list_scope.
Open Scope Z_scope.

Lemma width_bounds kn g : 1 ≤ width kn g ≤ Z.max 1 (tierSize g - 1).
Proof.
  unfold width, ClampMaxInFlight. generalize (Resolve (maxInFlight kn) (tierSize g)) as k. intros k.
  destruct (Z.ltb_spec (tierSize g - 1) k); repeat (match goal with |- context [?a <? 1] => destruct (Z.ltb_spec a 1) end); lia.
Qed.

(** ** Counting failures *)

#[local] Abbreviation is_failed tier := (λ p : string * NodeResult, r_Outcome p.2 = NodeOutcomeFailed ∧ r_Tier p.2 = tier).

Lemma failed_in_record tier id row (grid : gmap string NodeResult) :
  failed_in tier (<[id := row]> grid) ≤
    failed_in tier grid + (if bool_decide (r_Outcome row = NodeOutcomeFailed ∧ r_Tier row = tier) then 1 else 0).
Proof.
  unfold failed_in. case_bool_decide as Hrow.
  - rewrite map_filter_insert_True by done. rewrite map_size_insert. destruct (_ !! id); cbn; lia.
  - rewrite map_filter_insert_False by done. rewrite map_filter_delete.
    pose proof (map_size_delete id (filter (is_failed tier) grid)) as E. destruct (_ !! id); cbn in E; lia.
Qed.

Lemma failed_in_nonneg tier grid : 0 ≤ failed_in tier grid.
Proof. unfold failed_in. lia. Qed.

Lemma failed_in_empty tier : failed_in tier ∅ = 0.
Proof. unfold failed_in. by rewrite map_filter_empty, map_size_empty. Qed.

(** A row of another tier, or a good one, costs a tier nothing. *)
Lemma failed_in_other tier id row (grid : gmap string NodeResult) :
  r_Tier row ≠ tier ∨ r_Outcome row = NodeOutcomeSucceeded → failed_in tier (<[id := row]> grid) ≤ failed_in tier grid.
Proof.
  intros Hrow. etrans; [apply failed_in_record|]. rewrite bool_decide_false; [lia|]. intros [? ?]. destruct Hrow; congruence.
Qed.

Lemma failed_in_one tier id row (grid : gmap string NodeResult) : failed_in tier (<[id := row]> grid) ≤ failed_in tier grid + 1.
Proof. etrans; [apply failed_in_record|]. destruct (bool_decide _); lia. Qed.

(** The goroutines whose row is not written yet. *)
Definition is_open (th : Thread) : bool := match th with TRecorded _ => false | _ => true end.
Definition unsettled (ths : list Thread) : Z := Z.of_nat (length (filter (λ th, is_open th = true) ths)).

Lemma unsettled_app l k : unsettled (l ++ k) = unsettled l + unsettled k.
Proof. unfold unsettled. rewrite filter_app, length_app. lia. Qed.
Lemma unsettled_cons th k : unsettled (th :: k) = Z.b2z (is_open th) + unsettled k.
Proof. unfold unsettled. rewrite filter_cons. destruct (is_open th); [rewrite decide_True by done|rewrite decide_False by done]; cbn [length Z.b2z]; lia. Qed.
Lemma unsettled_le ths : 0 ≤ unsettled ths ≤ Z.of_nat (length ths).
Proof. unfold unsettled. pose proof (length_filter (λ th, is_open th = true) ths). lia. Qed.

Section budget.
Context (kn : Knobs) (targets : list plannedTarget).

(** No failure yet in the tiers to come. *)
Definition clean (grid : gmap string NodeResult) (ts : list tierGroup) : Prop := ∀ h, h ∈ ts → failed_in (g_Tier h) grid = 0.

(** Failures so far and those that may still land stay within the budget and
    the width. *)
Definition within (grid : gmap string NodeResult) (g : tierGroup) (may_land : Z) : Prop :=
  0 < budget kn g → failed_in (g_Tier g) grid + may_land ≤ budget kn g + width kn g - 1.

Definition budget_inv (s : Cascade) : Prop :=
  (∀ g, g ∈ groupByTier targets → within (cs_grid s) g 0) ∧
  match cs_phase s with
  | PTier ts => clean (cs_grid s) ts
  | PCanary g _ ts | PCanaryWait g _ _ _ ts | PSoak g ts => clean (cs_grid s) (g :: ts)
  | PFan g _ h ths ts => clean (cs_grid s) ts ∧ in_flight h ths ≤ width kn g ∧ within (cs_grid s) g (unsettled ths)
  | PDrain g ths ts => clean (cs_grid s) ts ∧ in_flight false ths ≤ width kn g ∧ within (cs_grid s) g (unsettled ths)
  | PReport | PReturned _ => True
  end.

Lemma within_clean grid g : failed_in (g_Tier g) grid = 0 → within grid g 0.
Proof using. intros E Hb. pose proof (width_bounds kn g). lia. Qed.

Lemma budget_quiet s ph : budget_inv s → quiet kn (cs_grid s) (cs_phase s) ph → budget_inv (at_phase ph s).
Proof using.
  intros [Hall Hi] Hq. split; [done|]. cbn [cs_phase at_phase cs_grid].
  destruct Hq as [|g ts|g ts|g ts|g ts|g t todo ths ts Hlt|g t todo ths ts Hm|g ths ts|g ts]; try done.
  - split; [intros h Hh; apply Hi; by right|]. split; [change (in_flight false []) with 0; pose proof (width_bounds kn g); lia|].
    apply within_clean, Hi. by left.
  - split; [intros h Hh; apply Hi; by right|]. split; [change (in_flight false []) with 0; pose proof (width_bounds kn g); lia|].
    apply within_clean, Hi. by left.
  - destruct Hi as (Hc & Hf & Hw). split_and!; [done| |done]. unfold in_flight in *. cbn in *. lia.
  - destruct Hi as (Hc & Hf & Hw). unfold in_flight in *. cbn [Z.b2z] in *. split_and!; [done|rewrite length_app; cbn [length]; lia|].
    intros Hb. unfold mayStart in Hm. destruct (Z.eqb_spec (budget kn g) UnlimitedFailures) as [E|_]; [unfold UnlimitedFailures in E; lia|].
    apply Z.ltb_lt in Hm. rewrite unsettled_app, unsettled_cons. change (unsettled []) with 0. pose proof (unsettled_le ths).
    cbn [is_open Z.b2z]. lia.
  - by destruct Hi.
Qed.

(** A failed canary costs its tier its first failure. *)
Lemma canary_row_within (grid : gmap string NodeResult) g id row :
  (∀ h, h ∈ groupByTier targets → within grid h 0) → failed_in (g_Tier g) grid = 0 → r_Tier row = g_Tier g →
  ∀ h, h ∈ groupByTier targets → within (<[id := row]> grid) h 0.
Proof using.
  intros Hall H0 Hrow h Hh Hb. pose proof (width_bounds kn h). destruct (decide (r_Tier row = g_Tier h)) as [E|Hne].
  - pose proof (failed_in_one (g_Tier h) id row grid). rewrite <- E, Hrow in *. lia.
  - pose proof (failed_in_other (g_Tier h) id row grid (or_introl Hne)). specialize (Hall h Hh Hb). lia.
Qed.

(** A good row costs nothing. *)
Lemma clean_good grid ts id row : r_Outcome row = NodeOutcomeSucceeded → clean grid ts → clean (<[id := row]> grid) ts.
Proof using.
  intros Ho Hc h Hh. pose proof (failed_in_other (g_Tier h) id row grid (or_intror Ho)). specialize (Hc h Hh).
  pose proof (failed_in_nonneg (g_Tier h) (<[id := row]> grid)). lia.
Qed.
Lemma within_good grid g n id row : r_Outcome row = NodeOutcomeSucceeded → within grid g n → within (<[id := row]> grid) g n.
Proof using.
  intros Ho Hw Hb. pose proof (failed_in_other (g_Tier g) id row grid (or_intror Ho)). specialize (Hw Hb). lia.
Qed.

Context (one_group : NoDup (g_Tier <$> groupByTier targets)).

Lemma later_tier g ts h : at_tier targets g ts → h ∈ ts → g_Tier g ≠ g_Tier h.
Proof using one_group.
  intros [done E] Hh Heq. rewrite E, fmap_app, NoDup_app in one_group. destruct one_group as (_ & _ & Hnd). csimpl in Hnd.
  apply NoDup_cons in Hnd as [Hnot _]. apply Hnot. rewrite Heq. by apply list_elem_of_fmap_2.
Qed.

(** A row of the tier at hand: one less to land, at most one more failed. *)
Lemma fan_row_within (grid : gmap string NodeResult) g ts n id row :
  (∀ h, h ∈ groupByTier targets → within grid h 0) → clean grid ts → at_tier targets g ts → 0 ≤ n → within grid g (n + 1) →
  r_Tier row = g_Tier g →
  (∀ h, h ∈ groupByTier targets → within (<[id := row]> grid) h 0) ∧ clean (<[id := row]> grid) ts ∧ within (<[id := row]> grid) g n.
Proof using one_group.
  intros Hall Hc Hg Hn Hw Hrow.
  assert (within (<[id := row]> grid) g n) as Hg'.
  { intros Hb. pose proof (failed_in_one (g_Tier g) id row grid). specialize (Hw Hb). lia. }
  split_and!; [| |done].
  - intros h Hh Hb. destruct (decide (g_Tier h = g_Tier g)) as [E|Hne].
    + assert (h = g) as ->; [|specialize (Hg' Hb); lia].
      apply (key_determines g_Tier (groupByTier targets)); [done|done| |done]. destruct Hg as [done ->]. apply elem_of_app. right. by left.
    + pose proof (failed_in_other (g_Tier h) id row grid) as Ho. specialize (Hall h Hh Hb). rewrite Hrow in Ho. specialize (Ho (or_introl (not_eq_sym Hne))). lia.
  - intros h Hh. pose proof (failed_in_other (g_Tier h) id row grid) as Ho. rewrite Hrow in Ho.
    specialize (Ho (or_introl (later_tier g ts h Hg Hh))). specialize (Hc h Hh). pose proof (failed_in_nonneg (g_Tier h) (<[id := row]> grid)). lia.
Qed.

Lemma fan_thread_within s ths ths' s' g ts :
  (∀ h, h ∈ groupByTier targets → within (cs_grid s) h 0) → clean (cs_grid s) ts → at_tier targets g ts →
  Forall (λ t, t ∈ fanout_of g) (thread_target <$> ths) → within (cs_grid s) g (unsettled ths) → thread_moves s ths ths' s' →
  (∀ h, h ∈ groupByTier targets → within (cs_grid s') h 0) ∧ clean (cs_grid s') ts ∧ within (cs_grid s') g (unsettled ths') ∧
  (length ths' ≤ length ths)%nat.
Proof using one_group.
  intros Hall Hc Hg Hf Hw Htm.
  assert (∀ l k t th, ths = l ++ th :: k → thread_target th = t → is_open th = true → t_Tier t = g_Tier g ∧
            within (cs_grid s) g (unsettled (l ++ TRecorded t :: k) + 1)) as Hopen.
  { intros l k t th -> Eth Hop. rewrite fmap_app, Forall_app in Hf. destruct Hf as [_ [Hft _]%Forall_cons]. rewrite Eth in Hft.
    split; [eapply in_tier; [exact Hg|]; by apply fanout_in|].
    rewrite unsettled_app, unsettled_cons in Hw |- *. rewrite Hop in Hw. cbn [is_open Z.b2z] in *. intros Hb. specialize (Hw Hb). lia. }
  assert (∀ (l : list Thread) th th' k, (length (l ++ th' :: k) ≤ length (l ++ th :: k))%nat) as Hlen by (intros; rewrite !length_app; cbn; lia).
  destruct Htm as [l k t e|l k t child|l k t child r|l k t].
  - destruct (Hopen l k t _ eq_refl eq_refl eq_refl) as [Ht Hw'].
    destruct (fan_row_within (cs_grid s) g ts _ (t_NodeID t) (mkRow (t_NodeID t) NodeOutcomeFailed (t_Tier t) (t_Compatible t) false EmptyString (err_text e))
      Hall Hc Hg (proj1 (unsettled_le _)) Hw' Ht) as (G1 & G2 & G3). by split_and!.
  - split_and!; [done..| |done]. rewrite unsettled_app, unsettled_cons in Hw |- *. done.
  - destruct (Hopen l k t _ eq_refl eq_refl eq_refl) as [Ht Hw']. unfold runOne_wait. destruct (wait_verdict r) as [detail|]; cbn [cs_grid].
    + destruct (fan_row_within (cs_grid s) g ts _ (t_NodeID t) (mkRow (t_NodeID t) NodeOutcomeFailed (t_Tier t) (t_Compatible t) false child detail)
        Hall Hc Hg (proj1 (unsettled_le _)) Hw' Ht) as (G1 & G2 & G3). by split_and!.
    + destruct (fan_row_within (cs_grid s) g ts _ (t_NodeID t) (mkRow (t_NodeID t) NodeOutcomeSucceeded (t_Tier t) (t_Compatible t) false child EmptyString)
        Hall Hc Hg (proj1 (unsettled_le _)) Hw' Ht) as (G1 & G2 & G3). by split_and!.
  - split_and!; [done..| |rewrite !length_app; cbn; lia]. by rewrite !unsettled_app, unsettled_cons in *.
Qed.

Lemma canary_tier s g c todo ts : placed targets (cs_trace s) (PCanary g (c :: todo) ts) → t_Tier c = g_Tier g.
Proof using.
  intros [Hg (did & E & _)]. eapply in_tier; [exact Hg|]. apply canaries_in. rewrite E. apply elem_of_app. right. by left.
Qed.

Lemma budget_moves s s' : gate_inv targets s → budget_inv s → moves kn targets s s' → budget_inv s'.
Proof using one_group.
  intros Hgate Hi Hm. pose proof (gate_placed _ _ Hgate) as Hp.
  destruct Hm as [ph Hq|g ts e Eph|g c todo ts e Eph|g c todo ts child Eph|g c child todo ts res detail Eph Ev
    |g c child todo ts res Eph Ev|g t todo ths ts Eph Em|ths ths' s' Eth Htm|Eph].
  - by eapply budget_quiet.
  - by destruct Hi.
  - destruct Hi as [Hall Hi]. rewrite Eph in Hp, Hi. split; [|done]. eapply canary_row_within; [done|apply Hi; by left|].
    by eapply canary_tier.
  - destruct Hi as [Hall Hi]. rewrite Eph in Hi. by split.
  - destruct Hi as [Hall Hi]. rewrite Eph in Hp, Hi. unfold runOne_wait. rewrite Ev. split; [|done].
    eapply canary_row_within; [done|apply Hi; by left|]. by eapply (canary_tier s g c todo ts).
  - destruct Hi as [Hall Hi]. rewrite Eph in Hi. unfold runOne_wait. rewrite Ev.
    split; [intros h Hh; apply within_good; [done|by apply Hall]|by apply clean_good].
  - destruct Hi as [Hall Hi]. rewrite Eph in Hi. destruct Hi as (Hc & Hf & Hw). destruct (spend_keeps kn g s) as (Eg & _).
    unfold budget_inv. cbn [cs_grid cs_phase at_phase]. rewrite Eg. split_and!; [done..| |done].
    unfold in_flight in *. cbn [Z.b2z] in *. lia.
  - destruct Hi as [Hall Hi]. destruct (cs_phase s) as [| | | |g todo h ths0 ts|g ths0 ts| |] eqn:Eph; try done; injection Eth as ->;
      destruct Hi as (Hc & Hf & Hw).
    + destruct Hp as (Hg & _ & Hfan). rewrite Forall_app in Hfan. destruct Hfan as [_ Hfan].
      destruct (fan_thread_within s ths ths' s' g ts) as (G1 & G2 & G3 & G4); [done..|]. split; [done|]. cbn [cs_phase at_phase with_threads cs_grid].
      split_and!; [done| |done]. unfold in_flight in *. lia.
    + destruct Hp as (Hg & _ & Hfan).
      destruct (fan_thread_within s ths ths' s' g ts) as (G1 & G2 & G3 & G4); [done..|]. split; [done|]. cbn [cs_phase at_phase with_threads cs_grid].
      split_and!; [done| |done]. unfold in_flight in *. lia.
  - by destruct Hi.
Qed.

Lemma budget_reachable s : reachable kn targets s → budget_inv s.
Proof using one_group.
  induction 1 as [s Hs|a s s' Hr IH Hst].
  - unfold cascade_start in Hs. destruct (ios_Validate _); [done|]. destruct (ios_Validate _); [done|]. injection Hs as <-.
    split; [intros g _; apply within_clean, failed_in_empty|]. intros g _. apply failed_in_empty.
  - eapply budget_moves; [by eapply gate_reachable|done|by eapply step_moves].
Qed.
End budget.

(** The nodes of a fan-out that hold a slot. *)
Definition slots (s : Cascade) (g : tierGroup) : Z :=
  match cs_phase s with
  | PFan h _ holding ths _ => if bool_decide (g_Tier h = g_Tier g) then in_flight holding ths else 0
  | PDrain h ths _ => if bool_decide (g_Tier h = g_Tier g) then in_flight false ths else 0
  | _ => 0
  end.

(** C24. How much a bad image can cost.  In every state of every run, a tier
    has at most the width's number of nodes under way at once, never more than all but
    one of the tier's nodes (one for a tier of one or two), and, unless the
    budget is the absolute zero that means unlimited, at most the budget and
    one less than the width have failed. *)
Theorem failure_bound list_nodes getBundle listBundles spec self p all kn s g :
  buildPlan list_nodes getBundle listBundles spec self = Ok p → list_nodes = Ok all →
  Forall (λ n, KnownRole (fn_Role n)) all → reachable kn (ps_Targets p) s → g ∈ groupByTier (ps_Targets p) →
  slots s g ≤ width kn g ∧ 1 ≤ width kn g ≤ Z.max 1 (tierSize g - 1) ∧
  (budget kn g ≠ UnlimitedFailures → failed_in (g_Tier g) (cs_grid s) ≤ budget kn g + width kn g - 1).
Proof.
  intros Hp Hall Hv Hr Hg. pose proof (plan_one_group _ _ _ _ _ _ _ Hp Hall Hv) as Hone.
  destruct (budget_reachable kn _ Hone s Hr) as [Hw Hph]. pose proof (reachable_budget _ _ _ Hr g) as Hb.
  pose proof (width_bounds kn g) as Hwd. split_and!; [|lia..|].
  - pose proof (gate_placed _ _ (gate_reachable _ Hone _ _ Hr)) as Hpl. unfold slots.
    destruct (cs_phase s) as [| | | |h todo hd ths ts|h ths ts| |]; try lia; case_bool_decide as E; try lia; destruct Hph as (_ & Hf & _);
      (assert (h = g) as ->; [|done]); (apply (key_determines g_Tier (groupByTier (ps_Targets p))); [done| |done|done]);
      destruct Hpl as [[done ->] _]; apply elem_of_app; right; by left.
  - intros Hne. unfold UnlimitedFailures in Hne. specialize (Hw g Hg ltac:(lia)). lia.
Qed.

(** A canary that cannot be submitted is its tier's one failure, of two the
    default budget and width allow three nodes. *)
Definition failed_canary : Cascade :=
  Eval vm_compute in default small_start
    (run_schedule no_knobs (ps_Targets small_plan) [ANext; ASubmitCanary (Fail (errors_New "bus down"))] small_start).

Lemma failure_bound_witness :
  let g := mkTier role_compute (take 3 (ps_Targets small_plan)) in
  failed_in role_compute (cs_grid failed_canary) = 1 ∧ budget no_knobs g + width no_knobs g - 1 = 2 ∧
  failed_in role_compute (cs_grid failed_canary) ≤ budget no_knobs g + width no_knobs g - 1.
Proof.
  split; [vm_compute; reflexivity|]. split; [vm_compute; reflexivity|].
  destruct (failure_bound (Ok small_fleet) (Ok None) (Ok small_store) small_spec "cp1" small_plan small_fleet no_knobs failed_canary
    (mkTier role_compute (take 3 (ps_Targets small_plan)))) as (_ & _ & H);
    [vm_compute; reflexivity|reflexivity|repeat (constructor; [unfold KnownRole; cbn; set_solver|]); constructor
    |apply (run_reachable _ _ [ANext; ASubmitCanary (Fail (errors_New "bus down"))] small_start); [by constructor|vm_compute; reflexivity]
    |vm_compute; by left|]. apply H. vm_compute. discriminate.
Defined.

(** * The cascade ends

    Every schedule of the cascade is finite, with a bound linear in the number
    of targets, and can always be extended until the step has returned. *)
Open Scope nat_scope.

(** ** What is left to do *)

Definition thread_work (th : Thread) : nat := match th with TSpawned _ => 3 | TWaiting _ _ => 2 | TRecorded _ => 1 end.
Definition threads_work (ths : list Thread) : nat := sum_list_with thread_work ths.
Definition tier_work (g : tierGroup) : nat := 2 * length (canaries_of g) + 5 * length (fanout_of g) + 5.
Definition tiers_work (ts : list tierGroup) : nat := 2 + sum_list_with tier_work ts.

Definition work (ph : Phase) : nat :=
  match ph with
  | PTier ts => tiers_work ts
  | PCanary g todo ts => 2 * length todo + 5 * length (fanout_of g) + 4 + tiers_work ts
  | PCanaryWait g _ _ todo ts => 2 * length todo + 1 + 5 * length (fanout_of g) + 4 + tiers_work ts
  | PSoak g ts => 5 * length (fanout_of g) + 3 + tiers_work ts
  | PFan g todo h ths ts => 5 * length todo - (if h then 1 else 0) + threads_work ths + 2 + tiers_work ts
  | PDrain g ths ts => threads_work ths + 1 + tiers_work ts
  | PReport => 1
  | PReturned _ => 0
  end.

Lemma threads_work_app l k : threads_work (l ++ k) = threads_work l + threads_work k.
Proof. apply sum_list_with_app. Qed.

Lemma threads_work_cons th k : threads_work (th :: k) = thread_work th + threads_work k.
Proof. done. Qed.
Lemma tiers_work_cons g ts : tiers_work (g :: ts) = tier_work g + tiers_work ts.
Proof. unfold tiers_work. cbn. lia. Qed.

Lemma quiet_work kn grid ph ph' : quiet kn grid ph ph' → work ph' < work ph.
Proof.
  destruct 1; cbn -[threads_work tiers_work Nat.mul]; rewrite ?threads_work_app, ?tiers_work_cons; unfold tier_work;
    change (threads_work []) with 0; try (change (threads_work [TSpawned t]) with 3); try lia.
  unfold tiers_work. cbn. lia.
Qed.

Lemma thread_moves_work s ths ths' s' : thread_moves s ths ths' s' → threads_work ths' < threads_work ths.
Proof. destruct 1; rewrite !threads_work_app, !threads_work_cons; cbn [thread_work]; lia. Qed.

Lemma with_threads_work ph ths ths' : threads_of ph = Some ths → threads_work ths' < threads_work ths → work (with_threads ths' ph) < work ph.
Proof. destruct ph; intros [= ->] H; cbn -[Nat.mul threads_work tiers_work]; lia. Qed.

Lemma moves_work kn targets s s' : moves kn targets s s' → work (cs_phase s') < work (cs_phase s).
Proof.
  destruct 1 as [ph Hq|g ts e Eph|g c todo ts e Eph|g c todo ts child Eph|g c child todo ts res detail Eph Ev
    |g c child todo ts res Eph Ev|g t todo ths ts Eph Em|ths ths' s' Eth Htm|Eph]; cbn [cs_phase at_phase canary_passed];
    try rewrite Eph; try (cbn -[Nat.mul threads_work]; lia).
  - by eapply quiet_work.
  - eapply with_threads_work; [done|by eapply thread_moves_work].
Qed.

Lemma run_work kn targets acts s s' : run_schedule kn targets acts s = Some s' → length acts + work (cs_phase s') ≤ work (cs_phase s).
Proof.
  revert s. induction acts as [|a acts IH]; cbn [run_schedule length]; [by intros s [= <-]|].
  intros s. destruct (step kn targets a s) as [s1|] eqn:Es; [|done]. cbn. intros Hr%IH.
  apply step_moves, moves_work in Es. lia.
Qed.

Lemma groups_work targets : sum_list_with tier_work (groupByTier targets) ≤ 10 * length targets.
Proof.
  rewrite <- (groupByTier_all targets) at 2. pose proof (groupByTier_member targets) as Hne. revert Hne.
  induction (groupByTier targets) as [|g ts IH]; intros Hne; [cbn; lia|].
  change (sum_list_with tier_work (g :: ts)) with (tier_work g + sum_list_with tier_work ts).
  change (all_of (g :: ts)) with (g_Targets g ++ all_of ts). rewrite length_app.
  assert (1 ≤ length (g_Targets g)) as H1.
  { destruct (Hne g ltac:(by left)) as [t Ht]. destruct (g_Targets g); [by apply elem_of_nil in Ht|cbn; lia]. }
  pose proof (Permutation_length (split_perm g)) as Hs. rewrite length_app in Hs.
  specialize (IH (λ h Hh, Hne h (proj2 (elem_of_cons _ _ _) (or_intror Hh)))). 
  change (tier_work g) with (2 * length (canaries_of g) + 5 * length (fanout_of g) + 5). lia.
Qed.

(** ** There is always a next move *)

(** A slot is taken for a target. *)
Definition held_for (ph : Phase) : Prop := match ph with PFan _ [] true _ _ => False | _ => True end.

Lemma moves_held kn targets s s' : held_for (cs_phase s) → moves kn targets s s' → held_for (cs_phase s').
Proof.
  intros Hh. destruct 1 as [ph Hq|g ts e Eph|g c todo ts e Eph|g c todo ts child Eph|g c child todo ts res detail Eph Ev
    |g c child todo ts res Eph Ev|g t todo ths ts Eph Em|ths ths' s' Eth Htm|Eph]; cbn [cs_phase at_phase canary_passed]; try done.
  - destruct Hq; cbn; try done; by case_match.
  - by destruct (cs_phase s) as [| | | |g [] []| | |].
Qed.

Lemma reachable_held kn targets s : reachable kn targets s → held_for (cs_phase s).
Proof.
  induction 1 as [s Hs|]; [|by eapply moves_held, step_moves].
  unfold cascade_start in Hs. destruct (ios_Validate _); [done|]. destruct (ios_Validate _); [done|]. by injection Hs as <-.
Qed.

Lemma thread_can_move th ths s : ∃ a r, thread_step a (th :: ths) s = Some r ∧ a ≠ ANext.
Proof.
  destruct th as [t|t child|t].
  - by exists (ASubmit 0 (Ok EmptyString)); eexists.
  - by exists (AWait 0 (Ok StatusSucceeded)); eexists.
  - by exists (ARelease 0); eexists.
Qed.

Lemma progress kn targets s : held_for (cs_phase s) → (∃ r, cs_phase s = PReturned r) ∨ ∃ a s', step kn targets a s = Some s'.
Proof.
  intros Hh. unfold step. destruct (cs_phase s) as [ts|g todo ts|g c child todo ts|g ts|g todo h ths ts|g ths ts| |r].
  - right. exists ANext. destruct ts; eauto.
  - right. destruct todo as [|c todo]; [exists ANext; cbn; destruct (_ && _); eauto|]. exists (ASubmitCanary (Ok EmptyString)). eauto.
  - right. exists (AWaitCanary (Ok StatusSucceeded)). cbn. eauto.
  - right. exists (ASoaked (Ok tt)). eauto.
  - right. destruct todo as [|t todo]; [destruct h; [done|]; exists ANext; eauto|].
    destruct h; [exists ANext; destruct (mayStart _ _ _); eauto|].
    destruct ths as [|th ths].
    + exists ANext. pose proof (width_bounds kn g). rewrite (proj2 (Z.ltb_lt _ _)); [eauto|]. change (in_flight false []) with 0%Z. lia.
    + destruct (thread_can_move th ths s) as (a & [ths' s'] & Ha & Hne). exists a. rewrite Ha. cbn. destruct a; [done|eauto..].
  - right. destruct ths as [|th ths]; [exists ANext; eauto|].
    destruct (thread_can_move th ths s) as (a & [ths' s'] & Ha & Hne). exists a. rewrite Ha. cbn. destruct a; [done|eauto..].
  - right. exists ANext. eauto.
  - left. eauto.
Qed.

(** C33. The fan-out never runs forever and never jams: however the nodes
    answer and in whatever order, the cascade makes at most ten moves per
    target and two more, and until it has returned some move is possible. *)
Theorem cascade_ends kn targets s0 acts s :
  cascade_start kn targets = Ok s0 → run_schedule kn targets acts s0 = Some s →
  length acts ≤ 10 * length targets + 2 ∧
  ((∃ r, cs_phase s = PReturned r) ∨ ∃ a s', step kn targets a s = Some s').
Proof.
  intros Hs Hr. assert (reachable kn targets s0) as H0 by by constructor. split.
  - apply run_work in Hr. unfold cascade_start in Hs. destruct (ios_Validate _); [done|]. destruct (ios_Validate _); [done|]. injection Hs as <-.
    cbn [cs_phase work] in Hr. unfold tiers_work in Hr. pose proof (groups_work targets). lia.
  - apply progress. eapply reachable_held. by eapply run_reachable.
Qed.

Lemma cascade_ends_witness : length small_run ≤ 42 ∧ ∃ r, cs_phase small_end = PReturned r.
Proof.
  destruct (cascade_ends no_knobs (ps_Targets small_plan) small_start small_run small_end) as [H [Hr|(a & s' & Hs)]];
    [reflexivity|vm_compute; reflexivity|split; [exact H|exact Hr]|].
  exfalso. by destruct a.
Defined.
