(* ===== verification/UpdateResume.v ===== *)
(** * A fleet update across the control plane's own reboot

    api/internal/updater/selfupdate_system.go and the recover policy of
    selfupdate.go, on the job ledger and the runner of Saga.v: when the control
    plane is the last target of its own run, the run is deferred at startup,
    its report is rebuilt from the plan step and the child jobs, and the job is
    closed.

    [encoding/json] on the three structs that go through the ledger is a
    parameter.  The goroutines [ResumeSystemUpdates] starts are what it
    returns; what another goroutine does to the child while one of them waits
    is the list of its reads. *)
From Stdlib Require Import Ascii String.
From S2P Require Import Prelude GoStrings Ledger Saga UpdatePlan UpdatePlanFacts UpdateCascade UpdateMoves UpdateRun.
Open Scope string_scope.
Open Scope list_scope.
Open Scope Z_scope.

(** The node id of an UpdateSpec, a plan, and a cascade's result. *)
Class UpdateCodec := {
  decode_spec : string → option string;
  decode_plan : string → result systemPlanState;
  encode_cascade : cascadeResult → result string }.

Section resume.
Context `{UpdateCodec} (db_fault : nat → option error) (clock : nat → Z) (json_valid : string → bool).
Context (workflows : gmap string Workflow).

Definition rebootDone (steps : list JobStep) : bool :=
  existsb (λ s, String.eqb (st_Name s) "reboot" && bool_decide (st_Status s = StepSucceeded)) steps.

(** The result of the first step of the name; nil when it recorded none. *)
Definition stepResult (steps : list JobStep) (name : string) : option string :=
  match filter (λ s, st_Name s = name) steps with s :: _ => st_Result s | [] => None end.

Definition is_node_update (nodeID : string) (c : Job) : bool :=
  String.eqb (j_Kind c) "node.update" && bool_decide (decode_spec (j_Spec c) = Some nodeID).

Definition selfChildOf (parentID selfNodeID : string) : M World (option Job) :=
  children ← dbq db_fault (λ f s, ListChildJobs f s parentID);
  match children with
  | Fail _ => mret None
  | Ok children => mret (head (filter (λ c, is_node_update selfNodeID c = true) children))
  end.

Definition SystemUpdateDeferred (j : Job) (selfNodeID : string) : M World bool :=
  if String.eqb selfNodeID EmptyString || negb (String.eqb (j_Kind j) "system.update") then mret false
  else
    child ← selfChildOf (j_ID j) selfNodeID;
    match child with
    | None => mret false
    | Some child =>
        steps ← dbq db_fault (λ f s, ListSteps f s (j_ID child));
        match steps with Fail _ => mret false | Ok steps => mret (rebootDone steps) end
    end.

(** The runner's recover policy. *)
Definition SelfUpdateRecoverDecider (selfNodeID : string) (j : Job) (steps : list JobStep) : M World RecoverDecision :=
  if String.eqb selfNodeID EmptyString then mret RecoverFail
  else if String.eqb (j_Kind j) "node.update" then
    if bool_decide (decode_spec (j_Spec j) = Some selfNodeID) && rebootDone steps then mret RecoverDefer else mret RecoverFail
  else if String.eqb (j_Kind j) "system.update" then
    deferred ← SystemUpdateDeferred j selfNodeID;
    mret (if (deferred : bool) then RecoverDefer else RecoverFail)
  else mret RecoverFail.

(** *** The wait for the self child *)

(** How one iteration ended when the child was not terminal: the deadline had
    passed, the context was over, or the poll's pause. *)
Inductive Polled := PollAgain | PollDeadline | PollDone (e : error).

Fixpoint awaitChildTerminal (childID : string) (reads : list (result (option Status) * Polled)) : option (result Status) :=
  match reads with
  | [] => None
  | (Fail e, _) :: _ => Some (Fail (wrapf ("read child " +:+ childID +:+ ": " +:+ err_text e) e))
  | (Ok None, _) :: _ => Some (Fail (errors_New ("child " +:+ childID +:+ " no longer exists")))
  | (Ok (Some st), p) :: reads =>
      if terminal st then Some (Ok st)
      else match p with
           | PollAgain => awaitChildTerminal childID reads
           | PollDeadline => Some (Fail (errors_New ("still " +:+ Status_text st +:+ " after 15m0s")))
           | PollDone e => Some (Fail e)
           end
  end.

(** *** The report, rebuilt *)

(** [byNode]: the last child of each node. *)
Definition by_node (children : list Job) : gmap string Job :=
  foldl (λ m c, if String.eqb (j_Kind c) "node.update"
                then match decode_spec (j_Spec c) with Some id => <[id := c]> m | None => m end else m) ∅ children.

Definition rebuild_row (byNode : gmap string Job) (selfNodeID : string) (selfStatus : Status) (selfDetail : string)
    (t : plannedTarget) : NodeResult :=
  let row := mkRow (t_NodeID t) in
  match byNode !! t_NodeID t with
  | None => row NodeOutcomeNotAttempted (t_Tier t) (t_Compatible t) (t_Canary t) EmptyString
              "no update was started for this node before the controlplane rebooted"
  | Some child =>
      let self := String.eqb (t_NodeID t) selfNodeID in
      let status := if self then selfStatus else j_Status child in
      let detail := if self && negb (String.eqb selfDetail EmptyString) then selfDetail else j_Error child in
      match status with
      | StatusSucceeded => row NodeOutcomeSucceeded (t_Tier t) (t_Compatible t) (t_Canary t) (j_ID child) EmptyString
      | StatusFailed | StatusCancelled => row NodeOutcomeFailed (t_Tier t) (t_Compatible t) (t_Canary t) (j_ID child) detail
      | _ => row NodeOutcomeNotAttempted (t_Tier t) (t_Compatible t) (t_Canary t) (j_ID child)
               ("still " +:+ Status_text status +:+ " when the run was reported")
      end
  end.

Definition rebuildReport (parentID selfNodeID : string) (selfStatus : Status) (selfDetail : string)
    : M World (result (systemPlanState * list NodeResult)) :=
  steps ← dbq db_fault (λ f s, ListSteps f s parentID);
  match steps with
  | Fail e => mret (Fail (wrapf ("list steps: " +:+ err_text e) e))
  | Ok steps =>
      let raw := default EmptyString (stepResult steps "plan") in
      if String.eqb raw EmptyString then mret (Fail (errors_New "the plan step recorded no result, so the run's targets are unknown"))
      else match decode_plan raw with
      | Fail e => mret (Fail (wrapf ("read plan result: " +:+ err_text e) e))
      | Ok plan =>
          children ← dbq db_fault (λ f s, ListChildJobs f s parentID);
          match children with
          | Fail e => mret (Fail (wrapf ("list children: " +:+ err_text e) e))
          | Ok children => mret (Ok (plan, rebuild_row (by_node children) selfNodeID selfStatus selfDetail <$> ps_Targets plan))
          end
      end
  end.

Definition ids_in (o : NodeOutcome) (grid : list NodeResult) : list string := r_NodeID <$> filter (λ r, r_Outcome r = o) grid.

(** Best effort: every failure is logged and swallowed. *)
Definition persistResumedCascade (parentID : string) (plan : systemPlanState) (grid : list NodeResult) : M World unit :=
  steps ← dbq db_fault (λ f s, ListSteps f s parentID);
  match steps with
  | Fail _ => mret tt
  | Ok steps =>
      match filter (λ s, st_Name s = "cascade") steps with
      | [] => mret tt
      | cascade :: _ =>
          if negb (bool_decide (st_Status cascade = StepRunning)) then mret tt
          else match encode_cascade (mkResult (ids_in NodeOutcomeSucceeded grid) (ids_in NodeOutcomeFailed grid)
                       (ids_in NodeOutcomeNotAttempted grid) (canaryIDs plan) grid EmptyString []) with
          | Fail _ => mret tt
          | Ok raw =>
              now ← time_now clock;
              _ ← db db_fault (λ f s, MarkStepSucceeded f s parentID (st_Seq cascade) (st_Attempt cascade) (Some raw) now);
              mret tt
          end
      end
  end.

Definition resumed_counts (plan : systemPlanState) (grid : list NodeResult) : SystemUpdateCounts :=
  mkCounts (Z.of_nat (length grid)) (count (λ r, r_Outcome r = NodeOutcomeSucceeded) grid) (count (λ r, r_Outcome r = NodeOutcomeFailed) grid)
    (Z.of_nat (length (ps_Skipped plan))) (Z.of_nat (length (stranded plan))) (count (λ r, r_Outcome r = NodeOutcomeNotAttempted) grid).

(** The run's colour: its error, or none for green. *)
Definition resumed_verdict (plan : systemPlanState) (grid : list NodeResult) : option string :=
  let failed := count (λ r, r_Outcome r = NodeOutcomeFailed) grid in
  if 0 <? failed then Some (pretty failed +:+ " of " +:+ pretty (Z.of_nat (length grid)) +:+ " node(s) failed")
  else if bool_decide (stranded plan ≠ []) then
    Some (pretty (Z.of_nat (length (stranded plan))) +:+ " node(s) had no artifact for their architecture and were never updated (" +:+
      bracketed (sn_NodeID <$> stranded plan) +:+ ")")
  else None.

(** The report is published, then the parent is closed. *)
Definition finishResumed (parentID selfNodeID : string) (selfStatus : Status) (selfDetail : string)
    : M World (option (SystemUpdateCounts * list NodeResult)) :=
  r ← rebuildReport parentID selfNodeID selfStatus selfDetail;
  match r with
  | Fail e =>
      _ ← FinishDeferred db_fault clock json_valid workflows parentID false
            ("resumed after the controlplane's own reboot but could not rebuild the run's report: " +:+ err_text e);
      mret None
  | Ok (plan, grid) =>
      _ ← persistResumedCascade parentID plan grid;
      _ ← match resumed_verdict plan grid with
          | Some msg => FinishDeferred db_fault clock json_valid workflows parentID false msg
          | None => FinishDeferred db_fault clock json_valid workflows parentID true EmptyString
          end;
      mret (Some (resumed_counts plan grid, grid))
  end.

(** A resumed run, once its wait has ended. *)
Definition resumeSystemUpdate (parentID selfNodeID : string) (awaited : result Status)
    : M World (option (SystemUpdateCounts * list NodeResult)) :=
  match awaited with
  | Fail e => finishResumed parentID selfNodeID StatusFailed
                ("the controlplane's own update never reported an outcome after the reboot: " +:+ err_text e)
  | Ok status => finishResumed parentID selfNodeID status EmptyString
  end.

(** The goroutines it starts: a parent and the child it waits for. *)
Fixpoint resume_each (selfNodeID : string) (running : list Job) : M World (list (string * string)) :=
  match running with
  | [] => mret []
  | j :: running =>
      if negb (String.eqb (j_Kind j) "system.update") then resume_each selfNodeID running
      else
        child ← selfChildOf (j_ID j) selfNodeID;
        match child with
        | None =>
            _ ← FinishDeferred db_fault clock json_valid workflows (j_ID j) false
                  "resumed after the controlplane's own reboot, but its update child is gone — the run cannot be reported";
            resume_each selfNodeID running
        | Some child => rest ← resume_each selfNodeID running; mret ((j_ID j, j_ID child) :: rest)
        end
  end.

Definition ResumeSystemUpdates (selfNodeID : string) : M World (list (string * string)) :=
  if String.eqb selfNodeID EmptyString then mret []
  else
    running ← dbq db_fault (λ f s, ListJobsByStatus f s [StatusRunning]);
    match running with
    | Fail _ => mret []
    | Ok running => resume_each selfNodeID running
    end.
End resume.

(** ** What a resumed run reports

    The rebuilt report has a row per planned target, its rows are what the
    child jobs ended as, and where every target has a child that ended the run
    is closed by the rule the live run is summarised by; but a node whose
    update could not even be submitted has no child, and a resumed run passes
    over it. *)
Section rows.
Context `{UpdateCodec}.

Lemma resumed_verdict_None plan grid : resumed_verdict plan grid = None ↔
  (∀ row, row ∈ grid → r_Outcome row ≠ NodeOutcomeFailed) ∧ stranded plan = [].
Proof using.
  unfold resumed_verdict, count. destruct (filter (λ r, r_Outcome r = NodeOutcomeFailed) grid) as [|x l] eqn:Ef.
  - cbn. assert (∀ row, row ∈ grid → r_Outcome row ≠ NodeOutcomeFailed) as Hno.
    { intros row Hin Ho. by eapply (filter_nil_not_elem_of (λ r, r_Outcome r = NodeOutcomeFailed)) in Ef. }
    case_bool_decide as E; [naive_solver|]. destruct (stranded plan); [done|by destruct E].
  - split; [destruct (Z.ltb_spec 0 (Z.of_nat (length (x :: l)))) as [|Hl]; [done|cbn in Hl; lia]|].
    intros [Hno _]. assert (x ∈ filter (λ r, r_Outcome r = NodeOutcomeFailed) grid) as [Ho Hin]%list_elem_of_filter by (rewrite Ef; by left).
    by destruct (Hno x Hin).
Qed.

(** The job a target's row goes by, and what it ended as. *)
Definition ended (children : list Job) (self : string) (st : Status) (t : plannedTarget) (s : Status) : Prop :=
  ∃ c, by_node children !! t_NodeID t = Some c ∧ s = (if String.eqb (t_NodeID t) self then st else j_Status c).

Lemma rebuild_row_outcome children self st detail t :
  let row := rebuild_row (by_node children) self st detail t in
  r_NodeID row = t_NodeID t ∧
  (r_Outcome row = NodeOutcomeSucceeded ↔ ended children self st t StatusSucceeded) ∧
  (r_Outcome row = NodeOutcomeFailed ↔ ended children self st t StatusFailed ∨ ended children self st t StatusCancelled).
Proof using.
  unfold rebuild_row, ended. destruct (by_node children !! t_NodeID t) as [c|] eqn:Ec.
  - destruct (if String.eqb (t_NodeID t) self then st else j_Status c) eqn:Es; cbn; split_and!; try done; naive_solver congruence.
  - cbn. split_and!; [done|naive_solver..].
Qed.
End rows.

Section facts.
Context `{UpdateCodec} (clock : nat → Z) (json_valid : string → bool) (workflows : gmap string Workflow).

(** No statement fails. *)
Definition no_fault (n : nat) : option error := None.

(** What leaves the job table alone. *)
Definition same_jobs (w w' : World) : Prop := jobs (w_store w') = jobs (w_store w).
#[local] Instance same_jobs_preorder : PreOrder same_jobs.
Proof using. split; unfold same_jobs; [intros w; done|intros w1 w2 w3 ? ?; congruence]. Qed.

Lemma same_dbq {A} flt (op : option error → Store → result A) : yields same_jobs (dbq flt op).
Proof using. done. Qed.
Lemma same_time_now : yields same_jobs (time_now clock).
Proof using. done. Qed.
Lemma same_tell e : yields same_jobs (tell e).
Proof using. done. Qed.
#[local] Hint Resolve same_dbq same_time_now same_tell : yields.

Lemma same_emit jobID t d : yields same_jobs (emit no_fault clock json_valid jobID t d).
Proof using. unfold emit. yield. Qed.
Lemma same_fire wf jobID ok msg : yields same_jobs (fireTerminal wf jobID ok msg).
Proof using. unfold fireTerminal. destruct (wf_OnTerminal wf); [apply same_tell|apply yields_ret, _]. Qed.
#[local] Hint Resolve same_emit same_fire : yields.

Lemma persist_keeps_jobs parentID plan grid : yields same_jobs (persistResumedCascade no_fault clock parentID plan grid).
Proof using. unfold persistResumedCascade. yield. Qed.

Lemma FinishDeferred_status jobID success msg w r : jobs (w_store w) !! jobID = Some r →
  jr_status <$> jobs (w_store (exec (FinishDeferred no_fault clock json_valid workflows jobID success msg) w)) !! jobID =
    Some (if success then StatusSucceeded else StatusFailed).
Proof using.
  intros Hr. unfold FinishDeferred. rewrite exec_bind, exec_bind.
  set (wf := match eval _ _ with Ok (Some j) => workflows !! j_Kind j | _ => None end).
  assert (∀ ok m, yields same_jobs (match wf with Some wf => fireTerminal wf jobID ok m | None => mret tt end)) as Hfire
    by (intros; destruct wf; [apply same_fire|apply yields_ret, _]).
  destruct success; rewrite exec_bind, exec_bind;
    (rewrite (yields_exec same_jobs _ _ (Hfire _ _)), (yields_exec same_jobs _ _ (same_emit _ _ _))); cbn; by rewrite lookup_alter_eq, Hr.
Qed.

Lemma rebuildReport_ok parentID self st detail w raw plan :
  stepResult (steps_of (w_store w) parentID) "plan" = Some raw → raw ≠ EmptyString → decode_plan raw = Ok plan →
  ∃ children, ListChildJobs None (w_store w) parentID = Ok children ∧
  eval (rebuildReport no_fault parentID self st detail) w = Ok (plan, rebuild_row (by_node children) self st detail <$> ps_Targets plan) ∧
  w_store (exec (rebuildReport no_fault parentID self st detail) w) = w_store w.
Proof using.
  intros Hs Hraw Hd. eexists. split; [reflexivity|]. unfold rebuildReport. rewrite eval_bind, exec_bind. cbn [dbq eval exec fst snd no_fault query ListSteps].
  change (eval (dbq no_fault (λ f s, ListSteps f s parentID)) w) with (Ok (steps_of (w_store w) parentID)). cbn iota beta. rewrite Hs. cbn [default from_option id].
  destruct (String.eqb_spec raw EmptyString); [done|]. rewrite Hd. rewrite eval_bind, exec_bind. done.
Qed.

Lemma finishResumed_ok parentID self st detail w raw plan r :
  jobs (w_store w) !! parentID = Some r →
  stepResult (steps_of (w_store w) parentID) "plan" = Some raw → raw ≠ EmptyString → decode_plan raw = Ok plan →
  ∃ children, ListChildJobs None (w_store w) parentID = Ok children ∧
    let grid := rebuild_row (by_node children) self st detail <$> ps_Targets plan in
    let run := finishResumed no_fault clock json_valid workflows parentID self st detail in
    eval run w = Some (resumed_counts plan grid, grid) ∧
    jr_status <$> jobs (w_store (exec run w)) !! parentID =
      Some (match resumed_verdict plan grid with None => StatusSucceeded | Some _ => StatusFailed end).
Proof using.
  intros Hr Hs Hraw Hd. destruct (rebuildReport_ok parentID self st detail w raw plan Hs Hraw Hd) as (children & Hc & Hev & Hex).
  exists children. split; [done|]. cbn zeta. set (grid := rebuild_row _ _ _ _ <$> _) in *.
  unfold finishResumed. rewrite eval_bind, exec_bind, Hev. cbn iota beta. rewrite !eval_bind, !exec_bind. split; [done|].
  rewrite exec_ret. destruct (resumed_verdict plan grid); eapply FinishDeferred_status;
    rewrite (yields_exec same_jobs _ _ (persist_keeps_jobs _ _ _)), Hex; exact Hr.
Qed.

Lemma ended_once children self st t s1 s2 : ended children self st t s1 → ended children self st t s2 → s1 = s2.
Proof using. intros (c1 & E1 & ->) (c2 & E2 & ->). by simplify_eq. Qed.

(** Every planned target has a child job, and it ended. *)
Definition all_ended (children : list Job) (self : string) (st : Status) (plan : systemPlanState) : Prop :=
  ∀ t, t ∈ ps_Targets plan → ∃ s, ended children self st t s ∧ terminal s = true.

(** A live report that saw the same nodes succeed. *)
Definition same_successes (children : list Job) (self : string) (st : Status) (plan : systemPlanState) (res : cascadeResult) : Prop :=
  ∀ i t row, ps_Targets plan !! i = Some t → cr_Results res !! i = Some row →
    (r_Outcome row = NodeOutcomeSucceeded ↔ ended children self st t StatusSucceeded).

(** With every child ended, no failed row means every child succeeded. *)
Lemma all_ended_green children self st detail plan : all_ended children self st plan →
  let grid := rebuild_row (by_node children) self st detail <$> ps_Targets plan in
  resumed_verdict plan grid = None ↔ (∀ t, t ∈ ps_Targets plan → ended children self st t StatusSucceeded) ∧ stranded plan = [].
Proof using.
  intros Hall. cbn zeta. rewrite resumed_verdict_None. split; intros [Hno Hs]; (split; [|done]).
  - intros t Ht. destruct (Hall t Ht) as (s & He & Hterm). destruct (rebuild_row_outcome children self st detail t) as (_ & _ & Hf).
    assert (rebuild_row (by_node children) self st detail t ∈ rebuild_row (by_node children) self st detail <$> ps_Targets plan) as Hin by by apply list_elem_of_fmap_2.
    destruct s; try done; destruct (Hno _ Hin); apply Hf; auto.
  - intros row (t & -> & Ht)%list_elem_of_fmap. destruct (rebuild_row_outcome children self st detail t) as (_ & Hok & _).
    by rewrite (proj2 Hok (Hno t Ht)).
Qed.

(** The live summary is green exactly when every row succeeded and nothing was
    stranded. *)
Lemma summarize_verdict kn plan s res sts : NoDup (t_NodeID <$> ps_Targets plan) → reachable kn (ps_Targets plan) s → cs_phase s = PReturned (Ok res) →
  (∃ counts, fst (systemSummarize (Ok sts) plan res) = Ok counts) ↔
  Forall (λ row, r_Outcome row = NodeOutcomeSucceeded) (cr_Results res) ∧ stranded plan = [].
Proof using.
  intros Hnd Hr Eph. destruct (report_honest kn _ s res Hnd Hr Eph) as (_ & _ & <-). unfold systemSummarize.
  destruct (terminalError res); [naive_solver|]. case_bool_decide as E; cbn; [naive_solver|].
  destruct (stranded plan); [naive_solver|done].
Qed.

End facts.

(** ** A node that is passed over *)

(** Three targets: a compute canary, a second compute node, and the control
    plane itself, last. *)
Definition three_targets : list plannedTarget :=
  [mkTarget "n1" "aa" "rasputin-n100" role_compute true; mkTarget "n2" "aa" "rasputin-n100" role_compute false;
   mkTarget "cp1" "aa" "rasputin-n100" role_controlplane false].
Definition three_plan : systemPlanState := mkPlanned EmptyString "1.2" "os" three_targets [] "cp1".

(** A node.update spec is stored as its node id, the one plan as PLAN. *)
Definition three_codec : UpdateCodec :=
  {| decode_spec s := Some s;
     decode_plan s := if String.eqb s "PLAN" then Ok three_plan else Fail (errors_New "not a plan");
     encode_cascade _ := Ok "GRID" |}.
#[local] Existing Instance three_codec.

Definition tick_clock (n : nat) : Z := Z.of_nat n * 10 ^ 9.
Definition mint_id (n : nat) : string := "job" +:+ pretty (Z.of_nat n).
Definition any_json (s : string) : bool := true.
Definition node_workflows : gmap string Workflow := {["node.update" := mkWorkflow "node.update" [] false]}.

(** The run is in its cascade: the parent's row and its two steps. *)
Definition run_world : World :=
  mkWorld (mkStore {["p" := mkJobRow "system.update" "{}" StatusRunning "operator" 0 (Some 0) None None None]}
             (list_to_map [(("p", 0), mkStepRow "plan" StepSucceeded (Some 0) (Some 0) 1 (Some "PLAN") None);
                           (("p", 1), mkStepRow "cascade" StepRunning (Some 0) None 1 None None)]) []) [] 0%nat.

(** The database refuses one insert: the second child's row. *)
Definition one_refusal (n : nat) : option error := if bool_decide (n = 5%nat) then Some (errors_New "database is locked") else None.

Definition submit_node (id : string) : M World (result Job) :=
  SubmitChild one_refusal tick_clock mint_id any_json node_workflows "node.update" (SpecTyped false (Ok id)) "system.update" "p".

(** The three submissions, in the cascade's order, and the two children that
    were started ending in success. *)
Definition after_submits : World := exec (_ ← submit_node "n1"; _ ← submit_node "n2"; submit_node "cp1") run_world.
Definition children_done : World :=
  exec (_ ← db one_refusal (λ f s, MarkJobSucceeded f s "job0" 0); db one_refusal (λ f s, MarkJobSucceeded f s "job6" 0)) after_submits.

(** The same run with the same answers in the live cascade. *)
Definition three_run : list Act :=
  [ANext; ASubmitCanary (Ok "job0"); AWaitCanary done_ok; ANext; ANext; ANext; ANext;
   ASubmit 0 (Fail (errors_New "create job: database is locked")); ARelease 0; ANext] ++
  [ANext; ANext; ANext; ANext; ANext; ASubmit 0 (Ok "job6"); AWait 0 done_ok; ARelease 0; ANext; ANext; ANext].
Definition three_start : Cascade := mkCascade (PTier (groupByTier three_targets)) ∅ ∅ [] EmptyString [].
Definition three_end : Cascade := Eval vm_compute in default three_start (run_schedule no_knobs three_targets three_run three_start).

Definition resumed : M World (option (SystemUpdateCounts * list NodeResult)) :=
  finishResumed no_fault tick_clock any_json node_workflows "p" "cp1" StatusSucceeded EmptyString.

(** A run's children in the ledger, and what a published report shows. *)
Definition children_of (parentID : string) (w : World) : list (string * string * Status) :=
  match ListChildJobs None (w_store w) parentID with Ok l => (λ c, (j_ID c, j_Spec c, j_Status c)) <$> l | Fail _ => [] end.
Definition shown (published : option (SystemUpdateCounts * list NodeResult)) : list (string * NodeOutcome) :=
  match published with Some (_, grid) => (λ r, (r_NodeID r, r_Outcome r)) <$> grid | None => [] end.
Definition status_of (jobID : string) (w : World) : option Status :=
  match jobs (w_store w) !! jobID with Some r => Some (jr_status r) | None => None end.

(** A resumed run can turn green without a node.  When the database
    refuses the row of one child, the live cascade counts that node as failed
    and ends red; when the control plane reboots itself as the last target of
    that same run, the rebuilt report finds no child for the node, calls it
    not attempted, and the run is closed as succeeded. *)
Theorem resumed_green_without_node :
  (eval (_ ← submit_node "n1"; submit_node "n2") run_world = Fail (mkError "create job: database is locked" [])) ∧
  (children_of "p" children_done = [("job0", "n1", StatusSucceeded); ("job6", "cp1", StatusSucceeded)]) ∧
  (run_schedule no_knobs three_targets three_run three_start = Some three_end) ∧
  (cs_phase three_end = PReturned (Ok (report three_targets three_end))) ∧
  terminalError (report three_targets three_end) ≠ None ∧
  (r_Outcome <$> (cr_Results (report three_targets three_end) : list NodeResult) = [NodeOutcomeSucceeded; NodeOutcomeFailed; NodeOutcomeSucceeded]) ∧
  (shown (eval resumed children_done) =
     [("n1", NodeOutcomeSucceeded); ("n2", NodeOutcomeNotAttempted); ("cp1", NodeOutcomeSucceeded)]) ∧
  (status_of "p" (exec resumed children_done) = Some StatusSucceeded).
Proof. split_and!; vm_compute; (reflexivity || discriminate). Qed.

(** *** A run in which every target was submitted

    The same plan with no refusal: the three children are in the ledger, one
    compute node's update failed, and the live cascade saw the same. *)
Definition submit_ok (id : string) : M World (result Job) :=
  SubmitChild no_fault tick_clock mint_id any_json node_workflows "node.update" (SpecTyped false (Ok id)) "system.update" "p".
Definition all_submitted : World := exec (_ ← submit_ok "n1"; _ ← submit_ok "n2"; submit_ok "cp1") run_world.
Definition close_child (c : string * string * Status) : M World unit :=
  _ ← db no_fault (λ f s, if String.eqb c.1.2 "n2" then MarkJobFailed f s c.1.1 "flash failed" 0 else MarkJobSucceeded f s c.1.1 0); mret tt.
Definition one_failed : World := exec (for_each close_child (children_of "p" all_submitted)) all_submitted.
Definition failed_run : list Act :=
  [ANext; ASubmitCanary (Ok "job0"); AWaitCanary done_ok; ANext; ANext; ANext; ANext;
   ASubmit 0 (Ok "job4"); AWait 0 (Ok StatusFailed); ARelease 0; ANext] ++
  [ANext; ANext; ANext; ANext; ANext; ASubmit 0 (Ok "job8"); AWait 0 done_ok; ARelease 0; ANext; ANext; ANext].
Definition failed_end : Cascade := Eval vm_compute in default three_start (run_schedule no_knobs three_targets failed_run three_start).

Lemma failed_end_reachable : reachable no_knobs three_targets failed_end.
Proof. apply (run_reachable _ _ failed_run three_start); [by constructor|]. vm_compute. reflexivity. Qed.

Definition the_children : list Job := Eval vm_compute in match ListChildJobs None (w_store one_failed) "p" with Ok l => l | Fail _ => [] end.
Definition failed_rows : list NodeResult := Eval vm_compute in cr_Results (report three_targets failed_end).
Definition ended_as (t : plannedTarget) : option Status :=
  match by_node the_children !! t_NodeID t with
  | Some c => Some (if String.eqb (t_NodeID t) "cp1" then StatusSucceeded else j_Status c)
  | None => None
  end.


(** ** The control plane is not always alone *)

(** With three control planes the fan-out takes two at a time, so the api's
    own node can be told to reboot while another control plane's update is
    under way. *)
Definition three_controlplanes : list plannedTarget :=
  [mkTarget "cp2" "aa" "rasputin-n100" role_controlplane false; mkTarget "cp3" "aa" "rasputin-n100" role_controlplane false;
   mkTarget "cp1" "aa" "rasputin-n100" role_controlplane false].
Definition together : list Act :=
  [ANext; ANext; ANext; ANext; ANext; ANext; ASubmit 0 (Ok "a"); ASubmit 1 (Ok "b"); AWait 0 done_ok; ARelease 0; ANext; ANext; ASubmit 1 (Ok "c")].

Lemma self_with_another :
  (running ∘ cs_phase <$> run_schedule no_knobs three_controlplanes together
     (mkCascade (PTier (groupByTier three_controlplanes)) ∅ ∅ [] EmptyString [])) =
  Some [mkTarget "cp3" "aa" "rasputin-n100" role_controlplane false; mkTarget "cp1" "aa" "rasputin-n100" role_controlplane false].
Proof. vm_compute. reflexivity. Qed.
