(* ===== verification/NodeUpdateStore.v ===== *)
(** * The update store and the inventory's version columns

    The SQL statements of api/internal/updater/store.go on the tables of
    schema.go, and the two statements of api/internal/inventory/store.go by
    which an update's outcome reaches the inventory.  A statement the driver
    fails changes nothing; a row that would break a constraint fails its
    statement. *)
From Stdlib Require Import Ascii String.
From S2P Require Import Prelude Ledger.
Open Scope string_scope.
Open Scope list_scope.
Open Scope Z_scope.

#[local] Arguments String.eqb : simpl never.

(** proto.UpdateSlot. *)
Definition SlotUnknown : string := "unknown".

Inductive NodeUpdateStatus :=
  NodeUpdateInProgress | NodeUpdateCommitted | NodeUpdateRolledBack | NodeUpdateFailed | NodeUpdateFallenBack.
#[export] Instance NodeUpdateStatus_eq_dec : EqDecision NodeUpdateStatus.
Proof. solve_decision. Defined.

Record Bundle := mkBundle {
  b_SHA256 : string; b_Version : string; b_Compatible : string; b_Architecture : string; b_Description : string;
  b_BuildDate : string; b_SizeBytes : Z; b_SignedBy : string; b_StoragePath : string; b_UploadedAt : Z;
  b_UploadedBy : string }.

Record NodeUpdate := mkNodeUpdate {
  nu_JobID : string; nu_NodeID : string; nu_BundleSHA256 : string; nu_FromSlot : string; nu_ToSlot : string;
  nu_FromVersion : string; nu_ToVersion : string; nu_UnverifiedBoot : bool; nu_UnverifiedVersion : bool;
  nu_Status : NodeUpdateStatus; nu_StartedAt : Z; nu_FinishedAt : option Z; nu_Error : string }.

#[export] Instance NodeUpdate_eq_dec : EqDecision NodeUpdate.
Proof. solve_decision. Defined.

(** What a time reads back as: the columns hold milliseconds. *)
Definition stored_ms (t : Z) : Z := fromMillis (tsMillis t).

(** The two tables, rows in insertion order. *)
Record UStore := mkUStore { u_bundles : list Bundle; u_updates : list NodeUpdate }.

Definition errNotNull : error := errors_New "constraint failed: NOT NULL constraint failed: node_updates.to_version".
Definition ErrNoRows : error := sentinel "sql.ErrNoRows" "sql: no rows in result set".

(** A write the driver may fail. *)
Definition u_stmt {A} (flt : option error) (fail : error → A) (s : UStore) (run : UStore * A) : UStore * A :=
  match flt with Some e => (s, fail e) | None => run end.

(** ** Bundles *)
Definition CreateBundle (flt : option error) (s : UStore) (b : Bundle) : UStore * option error :=
  u_stmt flt Some s
    (if bool_decide (b_SHA256 b ∈ b_SHA256 <$> u_bundles s) then (s, Some errConstraint)
     else (mkUStore (u_bundles s ++ [mkBundle (b_SHA256 b) (b_Version b) (b_Compatible b) (b_Architecture b)
             (b_Description b) (b_BuildDate b) (b_SizeBytes b) (b_SignedBy b) (b_StoragePath b) (stored_ms (b_UploadedAt b))
             (b_UploadedBy b)]) (u_updates s), None)).
Definition GetBundle (flt : option error) (s : UStore) (sha : string) : result (option Bundle) :=
  query flt (head (filter (λ b, b_SHA256 b = sha) (u_bundles s))).
Definition uploaded_desc (a b : Bundle) : Prop := b_UploadedAt b ≤ b_UploadedAt a.
#[export] Instance uploaded_desc_dec a b : Decision (uploaded_desc a b) := decide_rel Z.le _ _.
Definition ListBundles (flt : option error) (s : UStore) : result (list Bundle) :=
  query flt (merge_sort uploaded_desc (u_bundles s)).
Definition DeleteBundle (flt : option error) (s : UStore) (sha : string) : UStore * option error :=
  u_stmt flt Some s
    (if bool_decide (sha ∈ b_SHA256 <$> u_bundles s)
     then (mkUStore (filter (λ b, b_SHA256 b ≠ sha) (u_bundles s)) (u_updates s), None)
     else (s, Some ErrNoRows)).

(** ** The update history *)
Definition row_of (s : UStore) (jobID : string) : option NodeUpdate :=
  head (filter (λ u, nu_JobID u = jobID) (u_updates s)).

(** [UPDATE node_updates SET ... WHERE p]. *)
Definition set_where (p : NodeUpdate → bool) (f : NodeUpdate → NodeUpdate) (s : UStore) : UStore :=
  mkUStore (u_bundles s) ((λ u, if p u then f u else u) <$> u_updates s).
Definition is_job (jobID : string) (u : NodeUpdate) : bool := bool_decide (nu_JobID u = jobID).

Definition CreateNodeUpdate (flt : option error) (s : UStore) (u : NodeUpdate) : UStore * option error :=
  u_stmt flt Some s
    (if bool_decide (nu_JobID u ∈ nu_JobID <$> u_updates s) then (s, Some errConstraint)
     else (mkUStore (u_bundles s) (u_updates s ++ [mkNodeUpdate (nu_JobID u) (nu_NodeID u) (nu_BundleSHA256 u)
             (nu_FromSlot u) (nu_ToSlot u) (nu_FromVersion u) (nu_ToVersion u) false false (nu_Status u)
             (stored_ms (nu_StartedAt u)) None EmptyString]), None)).

Definition with_outcome (status : NodeUpdateStatus) (toSlot toVersion errMsg : string) (finishedAt : Z) (u : NodeUpdate) :
    NodeUpdate :=
  mkNodeUpdate (nu_JobID u) (nu_NodeID u) (nu_BundleSHA256 u) (nu_FromSlot u) toSlot (nu_FromVersion u) toVersion
    (nu_UnverifiedBoot u) (nu_UnverifiedVersion u) status (nu_StartedAt u) (Some (stored_ms finishedAt)) errMsg.
Definition UpdateNodeUpdate (flt : option error) (s : UStore) (jobID : string) (status : NodeUpdateStatus)
    (toSlot toVersion errMsg : string) (finishedAt : Z) : UStore * option error :=
  u_stmt flt Some s (set_where (is_job jobID) (with_outcome status toSlot toVersion errMsg finishedAt) s, None).

Definition fall_back (note : string) (u : NodeUpdate) : NodeUpdate :=
  mkNodeUpdate (nu_JobID u) (nu_NodeID u) (nu_BundleSHA256 u) (nu_FromSlot u) (nu_ToSlot u) (nu_FromVersion u)
    (nu_ToVersion u) (nu_UnverifiedBoot u) (nu_UnverifiedVersion u) NodeUpdateFallenBack (nu_StartedAt u)
    (nu_FinishedAt u) note.
Definition committed_job (jobID : string) (u : NodeUpdate) : bool :=
  is_job jobID u && bool_decide (nu_Status u = NodeUpdateCommitted).
Definition MarkNodeUpdateFallenBack (flt : option error) (s : UStore) (jobID note : string) : UStore * result bool :=
  u_stmt flt Fail s (set_where (committed_job jobID) (fall_back note) s, Ok (existsb (committed_job jobID) (u_updates s))).

Definition with_gaps (unverifiedBoot unverifiedVersion : bool) (u : NodeUpdate) : NodeUpdate :=
  mkNodeUpdate (nu_JobID u) (nu_NodeID u) (nu_BundleSHA256 u) (nu_FromSlot u) (nu_ToSlot u) (nu_FromVersion u)
    (nu_ToVersion u) unverifiedBoot unverifiedVersion (nu_Status u) (nu_StartedAt u) (nu_FinishedAt u) (nu_Error u).
Definition SetNodeUpdateVerifyGaps (flt : option error) (s : UStore) (jobID : string) (unverifiedBoot unverifiedVersion : bool) :
    UStore * option error :=
  u_stmt flt Some s (set_where (is_job jobID) (with_gaps unverifiedBoot unverifiedVersion) s, None).

(** [COALESCE(NULLIF(a, ''), b)]. *)
Definition NULLIF_empty (a : string) : option string := if String.eqb a EmptyString then None else Some a.
Definition COALESCE (a b : option string) : option string := match a with Some v => Some v | None => b end.
Definition slots_to_version (old echo : string) : option string := COALESCE (NULLIF_empty old) (NULLIF_empty echo).
Definition with_slots (from to fromVersion toVersion : string) (u : NodeUpdate) : NodeUpdate :=
  mkNodeUpdate (nu_JobID u) (nu_NodeID u) (nu_BundleSHA256 u) from to
    (default (nu_FromVersion u) (NULLIF_empty fromVersion)) (default EmptyString (slots_to_version (nu_ToVersion u) toVersion))
    (nu_UnverifiedBoot u) (nu_UnverifiedVersion u) (nu_Status u) (nu_StartedAt u) (nu_FinishedAt u) (nu_Error u).
Definition SetNodeUpdateSlots (flt : option error) (s : UStore) (jobID from to fromVersion toVersion : string) :
    UStore * option error :=
  u_stmt flt Some s
    (if existsb (λ u, is_job jobID u && bool_decide (slots_to_version (nu_ToVersion u) toVersion = None)) (u_updates s)
     then (s, Some errNotNull)
     else (set_where (is_job jobID) (with_slots from to fromVersion toVersion) s, None)).

Definition GetNodeUpdate (flt : option error) (s : UStore) (jobID : string) : result (option NodeUpdate) :=
  query flt (row_of s jobID).

Definition started_asc (a b : NodeUpdate) : Prop := nu_StartedAt a ≤ nu_StartedAt b.
#[export] Instance started_asc_dec a b : Decision (started_asc a b) := decide_rel Z.le _ _.
Definition started_desc (a b : NodeUpdate) : Prop := nu_StartedAt b ≤ nu_StartedAt a.
#[export] Instance started_desc_dec a b : Decision (started_desc a b) := decide_rel Z.le _ _.

Definition ListInProgressNodeUpdates (flt : option error) (s : UStore) : result (list NodeUpdate) :=
  query flt (merge_sort started_asc (filter (λ u, nu_Status u = NodeUpdateInProgress) (u_updates s))).
Definition ListNodeUpdates (flt : option error) (s : UStore) (nodeID : string) (limit : Z) : result (list NodeUpdate) :=
  let limit := if bool_decide (limit ≤ 0) then 50 else limit in
  query flt (take (Z.to_nat limit) (merge_sort started_desc
    (filter (λ u, nodeID = EmptyString ∨ nu_NodeID u = nodeID) (u_updates s)))).
Definition LatestNodeUpdate (flt : option error) (s : UStore) (nodeID : string) : result (option NodeUpdate) :=
  query flt (head (merge_sort started_desc (filter (λ u, nu_NodeID u = nodeID) (u_updates s)))).

(** ** The inventory's columns *)
Record NodeRow := mkNodeRow { nr_Role : string; nr_ImageVersion : string; nr_ConfirmedAt : Z }.

(** [execOne]: an UPDATE of one node's row. *)
Definition execOne (flt : option error) (nodes : gmap string NodeRow) (id : string) (f : NodeRow → NodeRow) :
    gmap string NodeRow * option error :=
  match flt, nodes !! id with
  | Some e, _ => (nodes, Some e)
  | None, None => (nodes, Some ErrNoRows)
  | None, Some r => (<[id := f r]> nodes, None)
  end.
Definition ConfirmImageVersion (flt : option error) (nodes : gmap string NodeRow) (id version : string) (at_ : Z) :=
  execOne flt nodes id (λ r, mkNodeRow (nr_Role r) version (tsMillis at_)).
Definition UnconfirmImageVersion (flt : option error) (nodes : gmap string NodeRow) (id : string) :=
  execOne flt nodes id (λ r, mkNodeRow (nr_Role r) (nr_ImageVersion r) 0).
Definition get_node (flt : option error) (nodes : gmap string NodeRow) (id : string) : result (option NodeRow) :=
  query flt (nodes !! id).

(** ** What the statements leave *)
Section rows.
Implicit Types s : UStore.

(** The rows of one job: at most one, by the primary key. *)
Definition job_rows s jobID : list NodeUpdate := filter (λ u, nu_JobID u = jobID) (u_updates s).

Lemma row_of_one s jobID r : job_rows s jobID = [r] → row_of s jobID = Some r.
Proof. intros E. change (row_of s jobID) with (head (job_rows s jobID)). by rewrite E. Qed.

Lemma row_of_none s jobID : row_of s jobID = None ↔ job_rows s jobID = [].
Proof. change (row_of s jobID) with (head (job_rows s jobID)). by destruct (job_rows s jobID). Qed.

Lemma job_rows_fresh s jobID : job_rows s jobID = [] → jobID ∉ nu_JobID <$> u_updates s.
Proof.
  intros E Hin. apply list_elem_of_fmap in Hin as (u & -> & Hu).
  assert (u ∈ job_rows s (nu_JobID u)) as H by (by apply list_elem_of_filter). rewrite E in H. by apply elem_of_nil in H.
Qed.

Lemma job_rows_where s p f jobID :
  (∀ u, nu_JobID (f u) = nu_JobID u) →
  job_rows (set_where p f s) jobID = (λ u, if p u then f u else u) <$> job_rows s jobID.
Proof.
  intros Hf. unfold job_rows, set_where. cbn [u_updates]. induction (u_updates s) as [|u l IH]; [done|]. rewrite fmap_cons.
  assert (nu_JobID (if p u then f u else u) = nu_JobID u) as E by (destruct (p u); auto).
  destruct (decide (nu_JobID u = jobID)) as [Hu|Hu].
  - rewrite !filter_cons_True, fmap_cons by congruence. by rewrite IH.
  - rewrite !filter_cons_False by congruence. exact IH.
Qed.

Lemma job_rows_id s jobID u : u ∈ job_rows s jobID → nu_JobID u = jobID.
Proof. intros H. by apply list_elem_of_filter in H as [? _]. Qed.

Lemma job_rows_update s f jobID r :
  (∀ u, nu_JobID (f u) = nu_JobID u) → job_rows s jobID = [r] →
  job_rows (set_where (is_job jobID) f s) jobID = [f r].
Proof.
  intros Hf E. rewrite job_rows_where, E by done. cbn. unfold is_job. rewrite bool_decide_true; [done|].
  apply (job_rows_id s). rewrite E. constructor.
Qed.

Lemma job_rows_snoc s u jobID :
  nu_JobID u = jobID → job_rows (mkUStore (u_bundles s) (u_updates s ++ [u])) jobID = job_rows s jobID ++ [u].
Proof. intros E. unfold job_rows. cbn [u_updates]. by rewrite filter_app, filter_cons_True, filter_nil. Qed.

Lemma existsb_job s jobID (p : NodeUpdate → bool) r :
  job_rows s jobID = [r] → existsb (λ u, is_job jobID u && p u) (u_updates s) = p r.
Proof.
  intros E. apply eq_true_iff_eq. rewrite existsb_exists. split.
  - intros (u & Hu & [Hj Hp]%andb_true_iff). apply bool_decide_eq_true in Hj.
    assert (u ∈ job_rows s jobID) as H by (apply list_elem_of_filter; split; [done|by apply list_elem_of_In]).
    rewrite E in H. apply list_elem_of_singleton in H. by subst.
  - intros Hp. exists r. assert (r ∈ job_rows s jobID) as H by (rewrite E; constructor).
    apply list_elem_of_filter in H as [Hj Hin]. split; [by apply list_elem_of_In|].
    unfold is_job. by rewrite bool_decide_true.
Qed.
End rows.
