(* ===== verification/NodeUpdate.v ===== *)
(** * The update of one node

    The node.update workflow of api/internal/updater/jobs.go, the verify
    contract of verify.go, and the commit, rollback and resume code of
    selfupdate.go.  The state is the update store, the inventory's version
    columns, the change events published and the transcript of what was asked
    of the node and what it answered.

    What the node answers, when, and which statements the driver fails are
    functions of a tick, so each may differ at every call.  [encoding/json] on
    the wire types and [net/url] and [net] on the bundle URL are parameters;
    log lines are left out.  The runner's control flow over the eight steps is
    that of Saga.v, over bodies that have effects. *)
From Stdlib Require Import Ascii String.
From S2P Require Import Prelude GoStrings GoRunes Ledger Saga BootVerify NodeUpdateStore.
Open Scope string_scope.
Open Scope list_scope.
Open Scope Z_scope.

#[local] Arguments String.eqb : simpl never.

(** ** The wire types *)
Record UpdateSpec := mkUpdateSpec { us_NodeID : string; us_BundleSHA256 : string }.
Record UpdatePrecheckAck := mkPrecheckAck {
  pa_OK : bool; pa_ActiveSlot : string; pa_InactiveSlot : string; pa_CurrentVersion : string; pa_AvailableBytes : Z;
  pa_Backend : string; pa_BootID : string; pa_Detail : string }.
Record UpdateDownloadAck := mkDownloadAck {
  da_OK : bool; da_LocalPath : string; da_SizeBytes : Z; da_SHA256 : string; da_Detail : string }.
Record UpdateInstallAck := mkInstallAck {
  ia_OK : bool; ia_TargetSlot : string; ia_NewVersion : string; ia_Detail : string }.

(** UpdateMarkGoodAck and UpdateMarkBadAck, and the verdict of DiagHealthAck. *)
Record MarkAck := mkMarkAck { ma_OK : bool; ma_Detail : string }.
Record RebootAck := mkRebootAck { ra_OK : option bool; ra_Detail : string }.

Inductive UpdateChangeType := UpdateStarted | UpdateDownloaded | UpdateInstalled | UpdateCommitted | UpdateRolledBack | UpdateFallenBack.
Record UpdateChangeEvt := mkChange {
  ce_NodeID : string; ce_JobID : string; ce_BundleID : string; ce_Change : UpdateChangeType; ce_FromSlot : string;
  ce_ToSlot : string; ce_Version : string; ce_Reason : string; ce_UnverifiedBoot : bool; ce_UnverifiedVersion : bool;
  ce_Ts : Z }.

(** ** The verify contract *)
Inductive versionMatch := versionMatches | versionMismatch | versionUnknown.
#[export] Instance versionMatch_eq_dec : EqDecision versionMatch.
Proof. solve_decision. Defined.

Record verifyRequest := mkVerify { vr_NodeID : string; vr_BundleSHA256 : string; vr_JobID : string; vr_PriorBootID : string }.
Record verifyResult := mkVerified { vs_Ack : UpdatePrecheckAck; vs_Boot : Identity; vs_Version : versionMatch }.
Definition UnverifiedBoot (b : Identity) : bool := bool_decide (b = Unknown).
Definition UnverifiedVersion (v : versionMatch) : bool := bool_decide (v = versionUnknown).

Definition classifyVersion (expected reported bundleSHA : string) : versionMatch :=
  if String.eqb expected EmptyString || String.eqb reported EmptyString then versionUnknown
  else if negb (String.eqb bundleSHA EmptyString) && EqualFold expected bundleSHA then versionUnknown
  else if String.eqb expected reported then versionMatches
  else versionMismatch.

(** What each step returns, before json.Marshal. *)
Inductive StepOut :=
| OutVersion (version : string)
| OutPrecheck (ack : UpdatePrecheckAck)
| OutDownload (spec : UpdateSpec) (localPath : string)
| OutCopied (copied : bool) (reason : string)
| OutInstall (ack : UpdateInstallAck)
| OutVerify (res : verifyResult)
| OutMarkGood (ack : MarkAck).

(** json.Unmarshal fills what it can before it reports an error. *)
Class NodeCodec := {
  json_spec : string → UpdateSpec * option error;
  json_precheck : string → UpdatePrecheckAck * option error;
  json_download : string → UpdateDownloadAck * option error;
  json_install : string → UpdateInstallAck * option error;
  json_reboot : string → RebootAck * option error;
  json_mark : string → MarkAck * option error;
  json_health : string → MarkAck * option error;
  marshal : StepOut → string }.

(** ** The world *)
Inductive Cmd :=
| CmdPrecheck
| CmdDownload (bundleID url sigURL expectedSHA256 : string) (sizeBytes : Z)
| CmdInstall (bundleID targetSlot : string)
| CmdReboot (bundleID : string) (delaySeconds : Z)
| CmdHealth (jobID : string)
| CmdPing (jobID : string)
| CmdMarkGood (bundleID : string)
| CmdMarkBad (bundleID reason : string).

Inductive Wire :=
| Asked (nodeID : string) (c : Cmd) (r : result string)
| Waited (nodeID prior : string) (verdict : Identity) (e : option error)
| Retired (jobID : string).

Record NW := mkNW {
  n_db : UStore; n_nodes : gmap string NodeRow; n_wire : list Wire; n_events : list UpdateChangeEvt; n_tick : nat }.

Record Config := mkConfig {
  c_PublicBaseURL : string; c_SelfNodeID : string; c_StoreCopy : bool; c_Log : bool; c_StoreCheck : bool }.
Definition RoleControlPlane : string := "controlplane".

(** The outside: the driver, the clock, the bus and the secret store.  A wait
    for a new boot is the polls it made, each the reply, ctx.Err() when it
    returned and how its select went, and the error of the context it ends
    with. *)
Class NodeEnv := {
  e_fault : nat → option error;
  e_clock : nat → Z;
  e_bus : nat → string → Cmd → result string;
  e_subscribe : nat → option error;
  e_rebooting : nat → result string;
  e_wait : nat → list (result string * option error * option error) * error;
  e_agent_back : nat → option error;
  e_store_ready : nat → option error;
  e_copy_store : nat → result string;
  url_hostname : string → option string;
  ip_loopback : string → bool }.

Section node_update.
Context `{!NodeCodec, !NodeEnv} (cfg : Config).

Definition oracle {A} (f : nat → A) : M NW A := λ w,
  (f (n_tick w), mkNW (n_db w) (n_nodes w) (n_wire w) (n_events w) (S (n_tick w))).
Definition now : M NW Z := oracle e_clock.
Definition udb {A} (op : option error → UStore → UStore * A) : M NW A := λ w,
  let '(s, a) := op (e_fault (n_tick w)) (n_db w) in
  (a, mkNW s (n_nodes w) (n_wire w) (n_events w) (S (n_tick w))).
Definition udbq {A} (op : option error → UStore → result A) : M NW (result A) := λ w,
  (op (e_fault (n_tick w)) (n_db w), mkNW (n_db w) (n_nodes w) (n_wire w) (n_events w) (S (n_tick w))).
Definition inv_exec (op : option error → gmap string NodeRow → gmap string NodeRow * option error) : M NW (option error) :=
  λ w, let '(nodes, e) := op (e_fault (n_tick w)) (n_nodes w) in
       (e, mkNW (n_db w) nodes (n_wire w) (n_events w) (S (n_tick w))).
Definition inv_get (id : string) : M NW (result (option NodeRow)) := λ w,
  (get_node (e_fault (n_tick w)) (n_nodes w) id, mkNW (n_db w) (n_nodes w) (n_wire w) (n_events w) (S (n_tick w))).
Definition ask (nodeID : string) (c : Cmd) : M NW (result string) := λ w,
  let r := e_bus (n_tick w) nodeID c in
  (r, mkNW (n_db w) (n_nodes w) (n_wire w ++ [Asked nodeID c r]) (n_events w) (S (n_tick w))).
Definition wire (x : Wire) : M NW unit :=
  modify (λ w, mkNW (n_db w) (n_nodes w) (n_wire w ++ [x]) (n_events w) (n_tick w)).

(** A failed publish is only logged. *)
Definition publishChange (ev : UpdateChangeEvt) : M NW unit :=
  modify (λ w, mkNW (n_db w) (n_nodes w) (n_wire w) (n_events w ++ [ev]) (n_tick w)).

Definition fail {A} (e : error) : M NW (result A) := mret (Fail e).
Definition done_ (o : StepOut) : M NW (result string) := mret (Ok (marshal o)).

(** ** The steps *)
Definition parseSpec (raw : string) : result UpdateSpec :=
  match json_spec raw with
  | (_, Some e) => Fail (wrapf ("invalid spec: " +:+ err_text e) e)
  | (spec, None) =>
      if String.eqb (us_NodeID spec) EmptyString then Fail (errors_New "nodeId is required")
      else if String.eqb (us_BundleSHA256 spec) EmptyString then Fail (errors_New "bundleSha256 is required")
      else Ok spec
  end.

(** A body's opening: [spec, err := parseSpec(sc.Spec)]. *)
Definition with_spec (raw : string) (body : UpdateSpec → M NW (result string)) : M NW (result string) :=
  match parseSpec raw with Fail e => fail e | Ok spec => body spec end.

Definition updateValidate (jobID raw : string) : M NW (result string) :=
  with_spec raw (λ spec,
    node ← inv_get (us_NodeID spec);
    match node with
    | Fail e => fail (wrapf ("inventory: " +:+ err_text e) e)
    | Ok None => fail (errors_New ("node " +:+ us_NodeID spec +:+ " not registered"))
    | Ok (Some _) =>
        bundle ← udbq (λ f s, GetBundle f s (us_BundleSHA256 spec));
        match bundle with
        | Fail e => fail (wrapf ("bundle lookup: " +:+ err_text e) e)
        | Ok None => fail (errors_New ("bundle " +:+ us_BundleSHA256 spec +:+ " not found"))
        | Ok (Some bundle) =>
            t ← now;
            err ← udb (λ f s, CreateNodeUpdate f s (mkNodeUpdate jobID (us_NodeID spec) (us_BundleSHA256 spec) SlotUnknown
                    SlotUnknown EmptyString (b_Version bundle) false false NodeUpdateInProgress t None EmptyString));
            match err with
            | Some e => fail (wrapf ("persist update row: " +:+ err_text e) e)
            | None =>
                _ ← publishChange (mkChange (us_NodeID spec) jobID (us_BundleSHA256 spec) UpdateStarted EmptyString EmptyString
                      (b_Version bundle) EmptyString false false t);
                done_ (OutVersion (b_Version bundle))
            end
        end
    end).

Definition updatePrecheck (raw : string) : M NW (result string) :=
  with_spec raw (λ spec,
    msg ← ask (us_NodeID spec) CmdPrecheck;
    match msg with
    | Fail e => fail (wrapf ("precheck rpc: " +:+ err_text e) e)
    | Ok data =>
        match json_precheck data with
        | (_, Some e) => fail (wrapf ("decode precheck ack: " +:+ err_text e) e)
        | (ack, None) =>
            if pa_OK ack then done_ (OutPrecheck ack)
            else fail (errors_New ("precheck failed: " +:+ pa_Detail ack))
        end
    end).

Definition IsLoopbackURL (raw : string) : bool :=
  match url_hostname raw with
  | None => false
  | Some host => String.eqb host "localhost" || ip_loopback host
  end.
Definition remoteLoopbackBundleURL (bundleURL selfNodeID targetNodeID : string) : bool :=
  if String.eqb selfNodeID EmptyString || String.eqb targetNodeID selfNodeID then false else IsLoopbackURL bundleURL.

Definition updateDownload (jobID raw : string) : M NW (result string) :=
  with_spec raw (λ spec,
    let sha := us_BundleSHA256 spec in
    bundle ← udbq (λ f s, GetBundle f s sha);
    match bundle with
    | Ok (Some bundle) =>
        let bundleURL := c_PublicBaseURL cfg +:+ "/api/bundles/" +:+ sha in
        if remoteLoopbackBundleURL bundleURL (c_SelfNodeID cfg) (us_NodeID spec) then
          fail (errors_New ("refusing to send loopback bundle URL " +:+ quote bundleURL +:+ " to remote node " +:+ us_NodeID spec
            +:+ ": the control plane derived a localhost public-base-url — set RASPUTIN_CLUSTER_ID (or RASPUTIN_PUBLIC_BASE_URL) in /var/lib/rasputin/node.env and restart rasputin-api (control-plane #75)"))
        else
          msg ← ask (us_NodeID spec) (CmdDownload sha bundleURL (bundleURL +:+ "/sig") sha (b_SizeBytes bundle));
          match msg with
          | Fail e => fail (wrapf ("download rpc: " +:+ err_text e) e)
          | Ok data =>
              match json_download data with
              | (_, Some e) => fail e
              | (ack, None) =>
                  if negb (da_OK ack) then fail (errors_New ("download failed: " +:+ da_Detail ack))
                  else if negb (String.eqb (da_SHA256 ack) sha) then
                    fail (errors_New ("sha mismatch: expected " +:+ sha +:+ " got " +:+ da_SHA256 ack))
                  else
                    t ← now;
                    _ ← publishChange (mkChange (us_NodeID spec) jobID sha UpdateDownloaded EmptyString EmptyString EmptyString
                          EmptyString false false t);
                    done_ (OutDownload spec (da_LocalPath ack))
              end
          end
    | _ => fail (errors_New "bundle missing at download time")
    end).

Definition errStoreHostUnknown : error := errors_New
  "The secret store could not be copied before this OS update, so the update was refused and nothing was installed. This node is a control plane, and only its own api can copy its secret store; run the update from that control plane.".

Definition updateCopyStore (raw : string) : M NW (result string) :=
  with_spec raw (λ spec,
    if negb (c_StoreCopy cfg) then done_ (OutCopied false "no-store")
    else if negb (c_Log cfg) then fail (errors_New "updater: copy_store has a store copier and no logger")
    else if negb (String.eqb (c_SelfNodeID cfg) EmptyString) && String.eqb (us_NodeID spec) (c_SelfNodeID cfg) then
      oracle e_copy_store
    else
      node ← inv_get (us_NodeID spec);
      match node with
      | Fail e => fail (wrapf ("inventory: " +:+ err_text e) e)
      | Ok None => fail (errors_New ("node " +:+ us_NodeID spec +:+ " not registered"))
      | Ok (Some node) =>
          if String.eqb (nr_Role node) RoleControlPlane then fail errStoreHostUnknown
          else done_ (OutCopied false "not-store-host")
      end).

(** The precheck ack of the install step: cached, or asked for again. *)
Definition install_precheck (nodeID : string) (prior : gmap string string) : M NW (result UpdatePrecheckAck) :=
  match prior !! "precheck" with
  | Some (String _ _ as raw) =>
      match json_precheck raw with
      | (_, Some e) => fail (wrapf ("decode cached precheck ack: " +:+ err_text e) e)
      | (pre, None) => mret (Ok pre)
      end
  | _ =>
      msg ← ask nodeID CmdPrecheck;
      match msg with
      | Fail e => fail (wrapf ("re-precheck: " +:+ err_text e) e)
      | Ok data =>
          match json_precheck data with
          | (_, Some e) => fail (wrapf ("decode re-precheck ack: " +:+ err_text e) e)
          | (pre, None) => mret (Ok pre)
          end
      end
  end.

Definition no_slot (s : string) : bool := String.eqb s EmptyString || String.eqb s SlotUnknown.

Definition updateInstall (jobID raw : string) (prior : gmap string string) : M NW (result string) :=
  with_spec raw (λ spec,
    pre ← install_precheck (us_NodeID spec) prior;
    match pre with
    | Fail e => fail e
    | Ok pre =>
        if no_slot (pa_InactiveSlot pre) then fail (errors_New "agent reported no inactive slot")
        else
          msg ← ask (us_NodeID spec) (CmdInstall (us_BundleSHA256 spec) (pa_InactiveSlot pre));
          match msg with
          | Fail e => fail (wrapf ("install rpc: " +:+ err_text e) e)
          | Ok data =>
              match json_install data with
              | (_, Some e) => fail e
              | (ack, None) =>
                  if negb (ia_OK ack) then fail (errors_New ("install failed: " +:+ ia_Detail ack))
                  else if negb (no_slot (ia_TargetSlot ack)) && negb (String.eqb (ia_TargetSlot ack) (pa_InactiveSlot pre)) then
                    fail (errors_New ("agent installed to slot " +:+ ia_TargetSlot ack +:+ " but was told to use "
                      +:+ pa_InactiveSlot pre +:+ " — refusing to record a target the api did not choose"))
                  else
                    let target := if no_slot (ia_TargetSlot ack) then pa_InactiveSlot pre else ia_TargetSlot ack in
                    _ ← udb (λ f s, SetNodeUpdateSlots f s jobID (pa_ActiveSlot pre) target (pa_CurrentVersion pre) (ia_NewVersion ack));
                    t ← now;
                    _ ← publishChange (mkChange (us_NodeID spec) jobID (us_BundleSHA256 spec) UpdateInstalled (pa_ActiveSlot pre)
                          target (ia_NewVersion ack) EmptyString false false t);
                    done_ (OutInstall (mkInstallAck (ia_OK ack) target (ia_NewVersion ack) (ia_Detail ack)))
              end
          end
    end).

(** jobs.RebootRefused. *)
Definition RebootRefused (reply : string) : option string :=
  match json_reboot reply with
  | (ack, None) =>
      match ra_OK ack with
      | Some false => Some (if String.eqb (ra_Detail ack) EmptyString then "the agent gave no reason" else ra_Detail ack)
      | _ => None
      end
  | _ => None
  end.

Definition updateReboot (raw : string) : M NW (result string) :=
  with_spec raw (λ spec,
    sub ← oracle e_subscribe;
    match sub with
    | Some e => fail (wrapf ("subscribe rebooting: " +:+ err_text e) e)
    | None =>
        reply ← ask (us_NodeID spec) (CmdReboot (us_BundleSHA256 spec) 3);
        match reply with
        | Fail e => fail (wrapf ("reboot rpc: " +:+ err_text e) e)
        | Ok data =>
            match RebootRefused data with
            | Some detail => fail (errors_New (us_NodeID spec +:+ " refused the reboot and was NOT rebooted: " +:+ detail))
            | None =>
                ev ← oracle e_rebooting;
                match ev with
                | Ok data => mret (Ok data)
                | Fail e => fail (wrapf ("waiting for rebooting event: " +:+ err_text e) e)
                end
            end
        end
    end).

(** ** Verification *)
Definition unconfirmInventoryVersion (nodeID : string) : M NW unit :=
  _ ← inv_exec (λ f n, UnconfirmImageVersion f n nodeID); mret tt.
Definition reconcileInventoryVersion (nodeID version : string) : M NW unit :=
  if String.eqb version EmptyString then unconfirmInventoryVersion nodeID
  else t ← now; _ ← inv_exec (λ f n, ConfirmImageVersion f n nodeID version t); mret tt.

Definition priorPrecheckBootID (prior : gmap string string) : string :=
  match prior !! "precheck" with
  | Some (String _ _ as raw) => match json_precheck raw with (pre, None) => pa_BootID pre | _ => EmptyString end
  | _ => EmptyString
  end.

Definition poll_of (p : result string * option error * option error) : Poll :=
  let '(r, err, done) := p in
  mkPoll (PrecheckProbe (match r with
    | Fail e => Fail e
    | Ok data => Ok (match json_precheck data with (ack, None) => Some (pa_BootID ack) | _ => None end)
    end)) err done.

(** The step's context ends, so the wait does: a last poll is cut off. *)
Definition waitForNewBoot (req : verifyRequest) : M NW (Identity * option error) :=
  p ← oracle e_wait;
  let polls := (poll_of <$> p.1) ++ [mkPoll (Fail p.2) (Some p.2) (Some p.2)] in
  let r := default (Unknown, Some p.2) (WaitForNewBoot "prechecks" (vr_PriorBootID req) polls) in
  _ ← wire (Waited (vr_NodeID req) (vr_PriorBootID req) r.1 r.2);
  mret r.

Definition verifyBootedSlot (req : verifyRequest) : M NW (result verifyResult) :=
  let nodeID := vr_NodeID req in
  preMsg ← ask nodeID CmdPrecheck;
  match preMsg with
  | Fail e => _ ← unconfirmInventoryVersion nodeID; fail (wrapf ("post-reboot precheck: " +:+ err_text e) e)
  | Ok data =>
      let pre := (json_precheck data).1 in
      expected ← udbq (λ f s, GetNodeUpdate f s (vr_JobID req));
      match expected with
      | Ok (Some expected) =>
          let boot := Classify (vr_PriorBootID req) (pa_BootID pre) in
          if bool_decide (boot = Same) then
            _ ← unconfirmInventoryVersion nodeID;
            fail (errors_New ("pre_reboot_agent_answered: still on boot " +:+ ShortFingerprint (pa_BootID pre)
              +:+ " — the node has not rebooted, this is NOT a rollback"))
          else
            let version := classifyVersion (nu_ToVersion expected) (pa_CurrentVersion pre) (nu_BundleSHA256 expected) in
            _ ← udb (λ f s, SetNodeUpdateVerifyGaps f s (vr_JobID req) (UnverifiedBoot boot) (UnverifiedVersion version));
            if negb (String.eqb (pa_ActiveSlot pre) (nu_ToSlot expected)) then
              t ← now;
              _ ← udb (λ f s, UpdateNodeUpdate f s (vr_JobID req) NodeUpdateRolledBack (pa_ActiveSlot pre) (pa_CurrentVersion pre)
                    "bootloader rolled back to previous slot" t);
              _ ← reconcileInventoryVersion nodeID (pa_CurrentVersion pre);
              _ ← publishChange (mkChange nodeID (vr_JobID req) (vr_BundleSHA256 req) UpdateRolledBack (nu_ToSlot expected)
                    (pa_ActiveSlot pre) (pa_CurrentVersion pre) "bootloader watchdog or post-install init failure"
                    (UnverifiedBoot boot) (UnverifiedVersion version) t);
              fail (errors_New ("bootloader_rolled_back: came up on slot " +:+ pa_ActiveSlot pre +:+ ", expected "
                +:+ nu_ToSlot expected))
            else if bool_decide (version = versionMismatch) then
              _ ← reconcileInventoryVersion nodeID (pa_CurrentVersion pre);
              fail (errors_New ("version_mismatch: booted slot " +:+ pa_ActiveSlot pre +:+ " reports "
                +:+ quote (pa_CurrentVersion pre) +:+ ", expected " +:+ quote (nu_ToVersion expected)))
            else
              _ ← reconcileInventoryVersion nodeID (pa_CurrentVersion pre);
              mret (Ok (mkVerified pre boot version))
      | _ => fail (errors_New "update row missing at verify time")
      end
  end.

Definition updateWaitOnlineAndVerifySlot (jobID raw : string) (prior : gmap string string) : M NW (result string) :=
  with_spec raw (λ spec,
    sub ← oracle e_subscribe;
    match sub with
    | Some e => fail (wrapf ("subscribe registered: " +:+ err_text e) e)
    | None =>
        let req := mkVerify (us_NodeID spec) (us_BundleSHA256 spec) jobID (priorPrecheckBootID prior) in
        r ← waitForNewBoot req;
        match r.2 with
        | Some e => _ ← unconfirmInventoryVersion (us_NodeID spec); fail e
        | None =>
            res ← verifyBootedSlot req;
            match res with Fail e => fail e | Ok res => done_ (OutVerify res) end
        end
    end).

(** ** Commit or rollback *)
Definition probeHealth (nodeID jobID : string) : M NW (bool * string) :=
  resp ← ask nodeID (CmdHealth jobID);
  match resp with
  | Fail e =>
      if errors_Is e "nats.ErrNoResponders" then
        p ← ask nodeID (CmdPing jobID);
        match p with
        | Fail e => mret (false, "diag.ping (fallback) failed: " +:+ err_text e)
        | Ok _ => mret (true, "liveness ok (agent has no diag.health)")
        end
      else mret (false, "diag.health request failed: " +:+ err_text e)
  | Ok data =>
      match json_health data with
      | (_, Some e) => mret (false, "diag.health decode failed: " +:+ err_text e)
      | (ack, None) =>
          if ma_OK ack then mret (true, "healthy")
          else mret (false, if String.eqb (ma_Detail ack) EmptyString then "unhealthy" else ma_Detail ack)
      end
  end.

Definition selfStoreNotReady : string := "the secret store did not report ready after the update".
Definition ready : M NW (bool * string) :=
  err ← oracle e_store_ready;
  match err with Some _ => mret (false, selfStoreNotReady) | None => mret (true, EmptyString) end.

Definition sendMarkBad (nodeID bundleSHA reason : string) : M NW (option error) :=
  msg ← ask nodeID (CmdMarkBad bundleSHA reason);
  match msg with
  | Fail e => mret (Some (wrapf ("mark-bad not delivered: " +:+ err_text e) e))
  | Ok data =>
      match json_mark data with
      | (_, Some e) => mret (Some (wrapf ("mark-bad reply unreadable: " +:+ err_text e) e))
      | (ack, None) => mret (if ma_OK ack then None else Some (errors_New ("mark-bad rejected: " +:+ ma_Detail ack)))
      end
  end.

Definition markBadAndRecord (nodeID bundleSHA jobID detail : string) : M NW error :=
  markBadErr ← sendMarkBad nodeID bundleSHA detail;
  t ← now;
  p ← match markBadErr with
      | None =>
          _ ← unconfirmInventoryVersion nodeID;
          werr ← udb (λ f s, UpdateNodeUpdate f s jobID NodeUpdateRolledBack SlotUnknown EmptyString
                   ("health check failed: " +:+ detail) t);
          _ ← publishChange (mkChange nodeID jobID bundleSHA UpdateRolledBack EmptyString EmptyString EmptyString
                ("post-reboot health check failed: " +:+ detail) false false t);
          mret (errors_New ("health check failed (" +:+ detail +:+ "), mark-bad sent"), werr)
      | Some mb =>
          _ ← unconfirmInventoryVersion nodeID;
          row ← udbq (λ f s, GetNodeUpdate f s jobID);
          let '(toSlot, toVersion) := match row with
            | Ok (Some row) => (nu_ToSlot row, nu_ToVersion row) | _ => (SlotUnknown, EmptyString) end in
          werr ← udb (λ f s, UpdateNodeUpdate f s jobID NodeUpdateFailed toSlot toVersion
                   ("health check failed: " +:+ detail +:+ "; " +:+ err_text mb) t);
          mret (wrapf ("health check failed (" +:+ detail +:+ "); the update was NOT rolled back: " +:+ err_text mb) mb, werr)
      end;
  let '(err, werr) := p : error * option error in
  mret (match werr with
        | Some we => errors_Join err (wrapf ("record node_update: " +:+ err_text we) we)
        | None => err
        end).

(** [check]: the update is the control plane's own and a store check is set. *)
Definition healthCheckAndCommit (check : bool) (nodeID bundleSHA jobID : string) : M NW (result string) :=
  h ← probeHealth nodeID jobID;
  h ← (if fst h && check then ready else mret h);
  if negb (fst h) then
    e ← markBadAndRecord nodeID bundleSHA jobID (snd h); fail e
  else
    gm ← ask nodeID (CmdMarkGood bundleSHA);
    match gm with
    | Fail e => fail (wrapf ("mark-good rpc: " +:+ err_text e) e)
    | Ok data =>
        let ack := (json_mark data).1 in
        if negb (ma_OK ack) then fail (errors_New ("mark-good rejected: " +:+ ma_Detail ack))
        else
          _ ← (if check then wire (Retired jobID) else mret tt);
          row ← udbq (λ f s, GetNodeUpdate f s jobID);
          t ← now;
          let '(toSlot, toVersion, ub, uv) := match row with
            | Ok (Some row) => (nu_ToSlot row, nu_ToVersion row, nu_UnverifiedBoot row, nu_UnverifiedVersion row)
            | _ => (SlotUnknown, EmptyString, false, false) end in
          _ ← udb (λ f s, UpdateNodeUpdate f s jobID NodeUpdateCommitted toSlot toVersion EmptyString t);
          _ ← publishChange (mkChange nodeID jobID bundleSHA UpdateCommitted EmptyString toSlot toVersion EmptyString ub uv t);
          done_ (OutMarkGood ack)
    end.

Definition own_check (nodeID : string) : bool :=
  negb (String.eqb (c_SelfNodeID cfg) EmptyString) && String.eqb nodeID (c_SelfNodeID cfg) && c_StoreCheck cfg.
Definition updateHealthCheckAndCommit (jobID raw : string) : M NW (result string) :=
  with_spec raw (λ spec, healthCheckAndCommit (own_check (us_NodeID spec)) (us_NodeID spec) (us_BundleSHA256 spec) jobID).

(** ** The hook and the start-up sweep *)
Definition finalizeNodeUpdateRow (jobID : string) (success : bool) (errMsg : string) : M NW unit :=
  row ← udbq (λ f s, GetNodeUpdate f s jobID);
  match row with
  | Ok (Some row) =>
      if bool_decide (nu_Status row = NodeUpdateInProgress) then
        let errMsg := if String.eqb errMsg EmptyString then "job ended without recording a per-node outcome" else errMsg in
        t ← now;
        _ ← udb (λ f s, UpdateNodeUpdate f s jobID NodeUpdateFailed (nu_ToSlot row) (nu_ToVersion row) errMsg t);
        mret tt
      else mret tt
  | _ => mret tt
  end.

Definition reconcile_row (job_of : string → result (option Job)) (row : NodeUpdate) : M NW unit :=
  match job_of (nu_JobID row) with
  | Ok (Some j) =>
      if bool_decide (j_Status j = StatusFailed ∨ j_Status j = StatusSucceeded) then
        let msg := if String.eqb (j_Error j) EmptyString
                   then "job reached a terminal state without recording a per-node outcome" else j_Error j in
        t ← now;
        _ ← udb (λ f s, UpdateNodeUpdate f s (nu_JobID row) NodeUpdateFailed (nu_ToSlot row) (nu_ToVersion row) msg t);
        mret tt
      else mret tt
  | _ => mret tt
  end.
Definition ReconcileStrandedRows (job_of : string → result (option Job)) : M NW (option error) :=
  rows ← udbq ListInProgressNodeUpdates;
  match rows with
  | Fail e => mret (Some e)
  | Ok rows => _ ← for_each (reconcile_row job_of) rows; mret None
  end.

(** ** The workflow *)
Record UStep := mkUStep { s_Name : string; s_Retries : nat; s_Do : gmap string string → M NW (result string) }.
Definition UpdateWorkflow (jobID raw : string) : list UStep :=
  [mkUStep "validate" 0 (λ _, updateValidate jobID raw);
   mkUStep "precheck" 0 (λ _, updatePrecheck raw);
   mkUStep "download" 0 (λ _, updateDownload jobID raw);
   mkUStep "copy_store" 0 (λ _, updateCopyStore raw);
   mkUStep "install" 0 (updateInstall jobID raw);
   mkUStep "reboot" 0 (λ _, updateReboot raw);
   mkUStep "wait_online_and_verify_slot" 0 (updateWaitOnlineAndVerifySlot jobID raw);
   mkUStep "health_check_and_commit" 1 (λ _, updateHealthCheckAndCommit jobID raw)].

(** The attempts of a step: the first, and [n] retries. *)
Fixpoint step_attempts (body : M NW (result string)) (n : nat) : M NW (result string) :=
  r ← body;
  match r, n with
  | Ok v, _ => mret (Ok v)
  | Fail e, O => mret (Fail e)
  | Fail e, S n => if errors_Is e "ErrStopWorkflow" then mret (Fail e) else step_attempts body n
  end.
(** The job's error; [None] is success. *)
Fixpoint update_steps (steps : list UStep) (prior : gmap string string) : M NW (option error) :=
  match steps with
  | [] => mret None
  | st :: steps =>
      r ← step_attempts (s_Do st prior) (s_Retries st);
      match r with
      | Ok v => update_steps steps (<[s_Name st := v]> prior)
      | Fail e => mret (if errors_Is e "ErrStopWorkflow" then None else Some e)
      end
  end.
Definition closed (jobID : string) (e : option error) : M NW (option error) :=
  _ ← finalizeNodeUpdateRow jobID (bool_decide (e = None)) (err_string e); mret e.
Definition run_update (jobID raw : string) : M NW (option error) :=
  e ← update_steps (UpdateWorkflow jobID raw) ∅; closed jobID e.

(** ** The control plane's own update, after its reboot *)
Definition reconcileSelfUpdate (spec : UpdateSpec) (jobID priorBootID : string) : M NW (option error) :=
  back ← oracle e_agent_back;
  match back with
  | Some e => mret (Some (errors_New ("agent did not reconnect after self-update reboot: " +:+ err_text e)))
  | None =>
      res ← verifyBootedSlot (mkVerify (us_NodeID spec) (us_BundleSHA256 spec) jobID priorBootID);
      match res with
      | Fail e => mret (Some (errors_New (err_text e)))
      | Ok _ =>
          r ← healthCheckAndCommit (c_StoreCheck cfg) (us_NodeID spec) (us_BundleSHA256 spec) jobID;
          match r with Fail e => mret (Some (errors_New (err_text e))) | Ok _ => mret None end
      end
  end.
Definition run_resumed (spec : UpdateSpec) (jobID priorBootID : string) : M NW (option error) :=
  e ← reconcileSelfUpdate spec jobID priorBootID; closed jobID e.
End node_update.
