(* ===== verification/NodeUpdateFacts.v ===== *)
(** * What the record of a node's update says

    The row of node_updates against the transcript of the run: which answers of
    the node stand behind each verdict, and what the inventory claims
    afterwards. *)
From Stdlib Require Import Ascii String.
From S2P Require Import Prelude GoStrings GoRunes Ledger Saga BootVerify NodeUpdateStore NodeUpdate.
Open Scope string_scope.
Open Scope list_scope.
Open Scope Z_scope.

#[local] Arguments String.eqb : simpl never.

(** An error of the outside does not carry the runner's stop signal. *)
Definition clean (e : error) : Prop := errors_Is e "ErrStopWorkflow" = false.

(** A database that answers, and errors that are what they say. *)
Record steady `{!NodeCodec, !NodeEnv} : Prop := {
  sd_fault n : e_fault n = None;
  sd_bus n id c e : e_bus n id c = Fail e → clean e;
  sd_subscribe n e : e_subscribe n = Some e → clean e;
  sd_rebooting n e : e_rebooting n = Fail e → clean e;
  sd_copy n e : e_copy_store n = Fail e → clean e;
  sd_deadline n : clean (e_wait n).2;
  sd_polls n : Forall (λ p : result string * option error * option error,
                  (∀ e, p.1.2 = Some e → clean e) ∧ (∀ e, p.2 = Some e → clean e)) (e_wait n).1;
  sd_spec s e : (json_spec s).2 = Some e → clean e;
  sd_precheck s e : (json_precheck s).2 = Some e → clean e;
  sd_download s e : (json_download s).2 = Some e → clean e;
  sd_install s e : (json_install s).2 = Some e → clean e;
  sd_mark s e : (json_mark s).2 = Some e → clean e }.

(** json.Marshal of an ack that was decoded reads back as itself. *)
Definition codec_ok `{!NodeCodec} : Prop :=
  ∀ d pre, json_precheck d = (pre, None) →
    marshal (OutPrecheck pre) ≠ EmptyString ∧ json_precheck (marshal (OutPrecheck pre)) = (pre, None).

(** ** Reading a transcript *)
Section transcript.
Context `{!NodeCodec}.

Definition accepted_good (x : Wire) : bool :=
  match x with Asked _ (CmdMarkGood _) (Ok d) => ma_OK (json_mark d).1 | _ => false end.
Definition accepted_bad (x : Wire) : bool :=
  match x with
  | Asked _ (CmdMarkBad _ _) (Ok d) => match json_mark d with (ack, None) => ma_OK ack | _ => false end
  | _ => false
  end.

(** Two boot ids known to be of one boot, and known to be of two. *)
Definition one_boot (prior current : string) : Prop := prior ≠ EmptyString ∧ current = prior.
Definition two_boots (prior current : string) : Prop := prior ≠ EmptyString ∧ current ≠ EmptyString ∧ current ≠ prior.
Definition gap_marks (r : NodeUpdate) : bool * bool := (nu_UnverifiedBoot r, nu_UnverifiedVersion r).

(** What the row's two marks say of the prechecks before and after the reboot:
    no mark is proof, and a mark is exactly the want of one. *)
Definition proved (sha version : string) (pre ver : UpdatePrecheckAck) (marks : bool * bool) : Prop :=
  (if marks.1 then pa_BootID pre = EmptyString ∨ pa_BootID ver = EmptyString else two_boots (pa_BootID pre) (pa_BootID ver)) ∧
  (if marks.2 then pa_CurrentVersion ver = EmptyString ∨ sha ≠ EmptyString ∧ EqualFold version sha = true
   else pa_CurrentVersion ver = version).

(** The requests up to the post-reboot precheck: the two prechecks' acks are
    [pre] and [ver]; the target is the slot [pre] reported inactive. *)
Definition asked_through (spec : UpdateSpec) (pre ver : UpdatePrecheckAck) (l : list Wire) : Prop :=
  ∃ d1 url sig size d2 d3 d4 v d5,
    l = [Asked (us_NodeID spec) CmdPrecheck (Ok d1);
         Asked (us_NodeID spec) (CmdDownload (us_BundleSHA256 spec) url sig (us_BundleSHA256 spec) size) (Ok d2);
         Asked (us_NodeID spec) (CmdInstall (us_BundleSHA256 spec) (pa_InactiveSlot pre)) (Ok d3);
         Asked (us_NodeID spec) (CmdReboot (us_BundleSHA256 spec) 3) (Ok d4);
         Waited (us_NodeID spec) (pa_BootID pre) v None;
         Asked (us_NodeID spec) CmdPrecheck (Ok d5)] ∧
    json_precheck d1 = (pre, None) ∧ (json_precheck d5).1 = ver ∧ no_slot (pa_InactiveSlot pre) = false ∧
    ¬ one_boot (pa_BootID pre) (pa_BootID ver).

(** A transcript that ends with the node's health and the accepted commit. *)
Definition health_passed (spec : UpdateSpec) (jobID : string) (l : list Wire) : Prop :=
  (∃ l' d ack, l = l' ++ [Asked (us_NodeID spec) (CmdHealth jobID) (Ok d)] ∧ json_health d = (ack, None) ∧ ma_OK ack = true) ∨
  (∃ l' e d, l = l' ++ [Asked (us_NodeID spec) (CmdHealth jobID) (Fail e); Asked (us_NodeID spec) (CmdPing jobID) (Ok d)] ∧
     errors_Is e "nats.ErrNoResponders" = true).
Definition commit_accepted (spec : UpdateSpec) (jobID : string) (l : list Wire) : Prop :=
  ∃ l' d tail, l = l' ++ Asked (us_NodeID spec) (CmdMarkGood (us_BundleSHA256 spec)) (Ok d) :: tail ∧
    ma_OK (json_mark d).1 = true ∧ health_passed spec jobID l' ∧ tail ⊆ [Retired jobID].
End transcript.

(** Reduce a run of the monad on a given state. *)
Ltac run :=
  repeat (progress (cbv beta iota zeta delta
    [triple mbind M_bind mret M_ret modify oracle now udb udbq inv_exec inv_get ask wire publishChange fail done_ query
     u_stmt get_node fst snd GetBundle GetNodeUpdate]; cbn [n_db n_nodes n_wire n_events n_tick])).

Lemma not_same prior id : Classify prior id ≠ Same ↔ ¬ one_boot prior id.
Proof. unfold one_boot. by rewrite (proj1 (proj2 (Classify_spec prior id))). Qed.

Lemma marks_proved sha version pre ver :
  version ≠ EmptyString → Classify (pa_BootID pre) (pa_BootID ver) ≠ Same →
  classifyVersion version (pa_CurrentVersion ver) sha ≠ versionMismatch →
  proved sha version pre ver
    (UnverifiedBoot (Classify (pa_BootID pre) (pa_BootID ver)), UnverifiedVersion (classifyVersion version (pa_CurrentVersion ver) sha)).
Proof.
  intros Hv Hb Hm. destruct (Classify_spec (pa_BootID pre) (pa_BootID ver)) as (HD & _ & HU). split; cbn [fst snd].
  - by destruct (Classify _ _); [apply HD|done|apply HU].
  - revert Hm. unfold classifyVersion. destruct (String.eqb_spec version EmptyString); [done|].
    destruct (String.eqb_spec (pa_CurrentVersion ver) EmptyString); [intros _; by left|]. cbn [orb].
    destruct (String.eqb_spec sha EmptyString), (EqualFold version sha); cbn [negb andb]; [..|intros _; by right|].
    all: by destruct (String.eqb_spec version (pa_CurrentVersion ver)).
Qed.

Section outcome.
Context `{!NodeCodec, !NodeEnv} (cfg : Config) (jobID raw : string) (spec : UpdateSpec) (w0 : NW).
Context (Hs : steady) (Hc : codec_ok) (Hspec : parseSpec raw = Ok spec).
Context (Hb : ∀ b, b ∈ u_bundles (n_db w0) → b_Version b ≠ EmptyString).

#[local] Ltac go := repeat (progress (run; rewrite ?(sd_fault Hs))).

Definition sent_is (l : list Wire) (w : NW) : Prop := n_wire w = n_wire w0 ++ l.

(** The row is in progress towards [slot] and [version]. *)
Definition flying (slot version : string) (w : NW) : Prop :=
  ∃ r, job_rows (n_db w) jobID = [r] ∧ nu_Status r = NodeUpdateInProgress ∧ nu_ToSlot r = slot ∧
    nu_ToVersion r = version ∧ nu_BundleSHA256 r = us_BundleSHA256 spec.
Definition unmarked (l : list Wire) : Prop := Forall (λ x, accepted_good x = false) l.

(** The node was not seen on another slot than the target. *)
Definition on_target (l : list Wire) : Prop :=
  ∀ pre ver, asked_through spec pre ver l → pa_ActiveSlot ver = pa_InactiveSlot pre.
Lemma short_on_target l : length l ≠ 6%nat → on_target l.
Proof using. intros Hl pre ver (? & ? & ? & ? & ? & ? & ? & ? & ? & -> & _). done. Qed.

(** A step that failed before any verdict. *)
Definition undecided (e : error) (w : NW) : Prop :=
  clean e ∧ ∃ l slot version, sent_is l w ∧ unmarked l ∧ on_target l ∧ flying slot version w.

Lemma clean_wrapf t e : clean e → clean (wrapf t e).
Proof using. done. Qed.
Lemma clean_New t : clean (errors_New t).
Proof using. done. Qed.

Lemma row_created u s :
  job_rows s jobID = [] → nu_JobID u = jobID →
  ∃ s', CreateNodeUpdate None s u = (s', None) ∧
    job_rows s' jobID = [mkNodeUpdate jobID (nu_NodeID u) (nu_BundleSHA256 u) (nu_FromSlot u) (nu_ToSlot u)
      (nu_FromVersion u) (nu_ToVersion u) false false (nu_Status u) (stored_ms (nu_StartedAt u)) None EmptyString].
Proof using.
  intros Hr Hu. unfold CreateNodeUpdate, u_stmt. rewrite bool_decide_false by (rewrite Hu; by apply job_rows_fresh).
  eexists. split; [done|]. rewrite job_rows_snoc, Hr by done. by rewrite Hu.
Qed.

Lemma validate_spec :
  triple (λ w, w = w0 ∧ job_rows (n_db w0) jobID = []) (updateValidate jobID raw)
    (λ r w, sent_is [] w ∧
       match r with
       | Ok _ => ∃ b, b ∈ u_bundles (n_db w0) ∧ b_SHA256 b = us_BundleSHA256 spec ∧ flying SlotUnknown (b_Version b) w
       | Fail e => clean e ∧ job_rows (n_db w) jobID = []
       end).
Proof using Hs Hspec.
  intros w [-> Hr]. unfold updateValidate, with_spec, sent_is. rewrite Hspec. go.
  destruct (n_nodes w0 !! us_NodeID spec); go; [|by split_and!; [rewrite app_nil_r|apply clean_New|]].
  destruct (head _) as [b|] eqn:Eb; go; [|by split_and!; [rewrite app_nil_r|apply clean_New|]].
  match goal with |- context [CreateNodeUpdate None _ ?u] => destruct (row_created u (n_db w0) Hr eq_refl) as (s' & -> & Hrow) end.
  go.
  rewrite app_nil_r. split; [done|]. exists b. apply head_Some in Eb as [l El].
  assert (b ∈ filter (λ b, b_SHA256 b = us_BundleSHA256 spec) (u_bundles (n_db w0))) as Hin by (rewrite El; constructor).
  apply list_elem_of_filter in Hin as [? ?]. split_and!; [done|done|]. eexists. split; [exact Hrow|done].
Qed.

(** A step that only asks and reads leaves the row, and each request is one
    line of the transcript. *)
Definition at_ (l : list Wire) (slot version : string) (w : NW) : Prop := sent_is l w ∧ unmarked l ∧ flying slot version w.

Lemma at_undecided l slot version e w w' :
  at_ l slot version w → on_target l → n_db w' = n_db w → n_wire w' = n_wire w → clean e → undecided e w'.
Proof using.
  intros (Hl & Hu & Hf) Ht Hdb Hw He. split; [done|]. exists l, slot, version. unfold sent_is, flying in *.
  by rewrite Hw, Hdb.
Qed.
Lemma at_asked l slot version w w' x :
  at_ l slot version w → n_db w' = n_db w → n_wire w' = n_wire w ++ [x] → accepted_good x = false →
  at_ (l ++ [x]) slot version w'.
Proof using.
  intros (Hl & Hu & Hf) Hdb Hw Hx. unfold at_, sent_is, flying, unmarked in *. rewrite Hw, Hdb, Hl, app_assoc.
  split_and!; [done|apply Forall_app; by repeat constructor|done].
Qed.

Lemma short_asked (l : list Wire) x : (length l < 5)%nat → on_target (l ++ [x]).
Proof using. intros H1. apply short_on_target. rewrite length_app. cbn. lia. Qed.
Lemma short_kept (l : list Wire) : (length l < 5)%nat → on_target l.
Proof using. intros H1. apply short_on_target. lia. Qed.
#[local] Ltac stay H := refine (at_undecided _ _ _ _ _ _ H _ eq_refl eq_refl _); eauto using short_kept, clean_wrapf, clean_New.
#[local] Ltac asked H :=
  match goal with |- undecided _ ?w' =>
    refine (at_undecided _ _ _ _ w' w' (at_asked _ _ _ _ w' _ H eq_refl eq_refl eq_refl) _ eq_refl eq_refl _);
    eauto using short_asked, clean_wrapf, clean_New, sd_bus
  end.

Lemma precheck_spec slot version :
  triple (at_ [] slot version) (updatePrecheck raw)
    (λ r w, match r with
       | Ok v => ∃ d pre, v = marshal (OutPrecheck pre) ∧ json_precheck d = (pre, None) ∧
           at_ [Asked (us_NodeID spec) CmdPrecheck (Ok d)] slot version w
       | Fail e => undecided e w
       end).
Proof using Hs Hspec.
  assert (length (@nil Wire) < 5)%nat as Hlen by (cbn; lia). intros w H1. unfold updatePrecheck, with_spec. rewrite Hspec. go.
  destruct (e_bus _ _ _) as [d|e] eqn:Eb; go; [|by asked H1].
  destruct (json_precheck d) as [pre [e|]] eqn:Ej; go.
  { asked H1. apply clean_wrapf, (sd_precheck Hs d). by rewrite Ej. }
  destruct (pa_OK pre); go; [|by asked H1].
  exists d, pre. split_and!; [done|done|]. by apply (at_asked [] _ _ w).
Qed.

Lemma download_spec l slot version :
  (length l < 5)%nat →
  triple (at_ l slot version) (updateDownload cfg jobID raw)
    (λ r w, match r with
       | Ok v => ∃ url sig size d, at_ (l ++ [Asked (us_NodeID spec) (CmdDownload (us_BundleSHA256 spec) url sig
           (us_BundleSHA256 spec) size) (Ok d)]) slot version w
       | Fail e => undecided e w
       end).
Proof using Hs Hspec.
  intros Hlen w H1. unfold updateDownload, with_spec. rewrite Hspec. go.
  destruct (head _) as [b|]; go; [|by stay H1].
  destruct (remoteLoopbackBundleURL _ _ _); go; [by stay H1|].
  destruct (e_bus _ _ _) as [d|e] eqn:Eb; go; [|by asked H1].
  destruct (json_download d) as [ack [e|]] eqn:Ej; go.
  { asked H1. apply (sd_download Hs d). by rewrite Ej. }
  destruct (da_OK ack); cbn [negb]; go; [|by asked H1].
  destruct (String.eqb (da_SHA256 ack) _); cbn [negb]; go; [|by asked H1].
  eexists _, _, _, d. by apply (at_asked l _ _ w).
Qed.

Lemma copy_spec l slot version :
  (length l < 5)%nat →
  triple (at_ l slot version) (updateCopyStore cfg raw)
    (λ r w, match r with Ok v => at_ l slot version w | Fail e => undecided e w end).
Proof using Hs Hspec.
  intros Hlen w H1. unfold updateCopyStore, with_spec. rewrite Hspec.
  destruct (c_StoreCopy cfg); cbn [negb]; go; [|by apply H1].
  destruct (c_Log cfg); cbn [negb]; go; [|by stay H1].
  destruct (_ && _); go.
  { destruct (e_copy_store _) as [v|e] eqn:Ec; [exact H1|]. stay H1. by apply (sd_copy Hs (n_tick w)). }
  destruct (n_nodes w !! _) as [node|]; go; [|by stay H1].
  destruct (String.eqb (nr_Role node) _); go; [by stay H1|exact H1].
Qed.

Lemma slots_recorded s from to fv tv r :
  job_rows s jobID = [r] → nu_ToVersion r ≠ EmptyString →
  ∃ s' r', SetNodeUpdateSlots None s jobID from to fv tv = (s', None) ∧ job_rows s' jobID = [r'] ∧
    nu_Status r' = nu_Status r ∧ nu_ToSlot r' = to ∧ nu_ToVersion r' = nu_ToVersion r ∧ nu_BundleSHA256 r' = nu_BundleSHA256 r.
Proof using.
  intros Hr Hv. unfold SetNodeUpdateSlots, u_stmt. rewrite (existsb_job _ _ _ r Hr).
  unfold slots_to_version, NULLIF_empty. rewrite (proj2 (String.eqb_neq _ _) Hv). cbn [COALESCE].
  rewrite bool_decide_false by done. eexists _, _. split; [done|]. split; [by apply job_rows_update|]. cbn.
  unfold slots_to_version, NULLIF_empty. by rewrite (proj2 (String.eqb_neq _ _) Hv).
Qed.

Lemma install_spec l version prior d pre :
  (length l < 5)%nat → version ≠ EmptyString → json_precheck d = (pre, None) → prior !! "precheck" = Some (marshal (OutPrecheck pre)) →
  triple (at_ l SlotUnknown version) (updateInstall jobID raw prior)
    (λ r w, match r with
       | Ok v => no_slot (pa_InactiveSlot pre) = false ∧ ∃ d, at_ (l ++ [Asked (us_NodeID spec)
           (CmdInstall (us_BundleSHA256 spec) (pa_InactiveSlot pre)) (Ok d)]) (pa_InactiveSlot pre) version w
       | Fail e => undecided e w
       end).
Proof using Hs Hspec Hc.
  intros Hlen Hv Hd Hp w H1. destruct (Hc d pre Hd) as [Hne Hround]. unfold updateInstall, with_spec, install_precheck.
  rewrite Hspec, Hp. destruct (marshal (OutPrecheck pre)) as [|c s0]; [done|]. rewrite Hround. go.
  destruct (no_slot (pa_InactiveSlot pre)) eqn:Eslot; go; [by stay H1|].
  destruct (e_bus _ _ _) as [d'|e] eqn:Eb; go; [|by asked H1].
  destruct (json_install d') as [ack [e|]] eqn:Ej; go.
  { asked H1. apply (sd_install Hs d'). by rewrite Ej. }
  destruct (ia_OK ack); cbn [negb]; go; [|by asked H1].
  destruct (negb (no_slot (ia_TargetSlot ack)) && _) eqn:Et; go; [by asked H1|].
  assert ((if no_slot (ia_TargetSlot ack) then pa_InactiveSlot pre else ia_TargetSlot ack) = pa_InactiveSlot pre) as ->.
  { destruct (no_slot (ia_TargetSlot ack)); [done|]. cbn [negb andb] in Et. by apply negb_false_iff, String.eqb_eq in Et. }
  destruct H1 as (Hl & Hu & r & Hr & Hst & Hsl & Hver & Hsha).
  edestruct (slots_recorded (n_db w)) as (s' & r' & -> & Hr' & E1 & E2 & E3 & E4); [exact Hr|congruence|]. go.
  split; [done|]. exists d'. unfold at_, sent_is, unmarked. cbn [n_wire]. rewrite Hl, app_assoc. split_and!; [done| |].
  - apply Forall_app. by repeat constructor.
  - exists r'. cbn [n_db]. split_and!; [exact Hr'|congruence..].
Qed.

Lemma reboot_spec l slot version :
  (length l < 5)%nat →
  triple (at_ l slot version) (updateReboot raw)
    (λ r w, match r with
       | Ok v => ∃ d, at_ (l ++ [Asked (us_NodeID spec) (CmdReboot (us_BundleSHA256 spec) 3) (Ok d)]) slot version w
       | Fail e => undecided e w
       end).
Proof using Hs Hspec.
  intros Hlen w H1. unfold updateReboot, with_spec. rewrite Hspec. go.
  destruct (e_subscribe _) as [e|] eqn:Es; go; [stay H1; by eapply clean_wrapf, sd_subscribe|].
  destruct (e_bus _ _ _) as [d|e] eqn:Eb; go; [|by asked H1].
  destruct (RebootRefused d); go; [by asked H1|].
  destruct (e_rebooting _) as [ev|e] eqn:Er; go; [|asked H1; by eapply clean_wrapf, sd_rebooting].
  exists d. by apply (at_asked l _ _ w).
Qed.

(** The inventory statements touch only the inventory. *)
Lemma unconfirm_run id w :
  ∃ nodes tick, unconfirmInventoryVersion id w = (tt, mkNW (n_db w) nodes (n_wire w) (n_events w) tick).
Proof using. unfold unconfirmInventoryVersion. run. destruct (UnconfirmImageVersion _ _ _). run. eauto. Qed.
Lemma reconcile_run id v w :
  ∃ nodes tick, reconcileInventoryVersion id v w = (tt, mkNW (n_db w) nodes (n_wire w) (n_events w) tick).
Proof using.
  unfold reconcileInventoryVersion. destruct (String.eqb v EmptyString); [apply unconfirm_run|]. run.
  destruct (ConfirmImageVersion _ _ _ _ _). run. eauto.
Qed.
#[local] Ltac inventory :=
  match goal with
  | |- context [unconfirmInventoryVersion ?id ?w] => destruct (unconfirm_run id w) as (? & ? & ->); go
  | |- context [reconcileInventoryVersion ?id ?v ?w] => destruct (reconcile_run id v w) as (? & ? & ->); go
  end.

Lemma outcome_recorded s st slot version msg t r :
  job_rows s jobID = [r] →
  ∃ s', UpdateNodeUpdate None s jobID st slot version msg t = (s', None) ∧
    job_rows s' jobID = [with_outcome st slot version msg t r].
Proof using. intros Hr. eexists. split; [done|]. by apply job_rows_update. Qed.

Lemma gaps_recorded s b v r :
  job_rows s jobID = [r] →
  ∃ s', SetNodeUpdateVerifyGaps None s jobID b v = (s', None) ∧ job_rows s' jobID = [with_gaps b v r].
Proof using. intros Hr. eexists. split; [done|]. by apply job_rows_update. Qed.

(** The node came up from another boot on another slot than the target. *)
Definition reverted (l : list Wire) (pre : UpdatePrecheckAck) (slot : string) (e : error) (w : NW) : Prop :=
  clean e ∧ ∃ v d, ¬ one_boot (pa_BootID pre) (pa_BootID (json_precheck d).1) ∧ pa_ActiveSlot (json_precheck d).1 ≠ slot ∧
    sent_is (l ++ [Waited (us_NodeID spec) (pa_BootID pre) v None; Asked (us_NodeID spec) CmdPrecheck (Ok d)]) w ∧
    ∃ r, job_rows (n_db w) jobID = [r] ∧ nu_Status r = NodeUpdateRolledBack.
Definition verified (l : list Wire) (pre : UpdatePrecheckAck) (slot version : string) (w : NW) : Prop :=
  ∃ v d, ¬ one_boot (pa_BootID pre) (pa_BootID (json_precheck d).1) ∧ pa_ActiveSlot (json_precheck d).1 = slot ∧
    (∃ r, job_rows (n_db w) jobID = [r] ∧ proved (us_BundleSHA256 spec) version pre (json_precheck d).1 (gap_marks r)) ∧
    at_ (l ++ [Waited (us_NodeID spec) (pa_BootID pre) v None; Asked (us_NodeID spec) CmdPrecheck (Ok d)]) slot version w.

Definition front_of (pre : UpdatePrecheckAck) (l : list Wire) : Prop :=
  (length l < 5)%nat ∧ ∀ v x pre' ver,
    asked_through spec pre' ver (l ++ [Waited (us_NodeID spec) (pa_BootID pre) v None; x]) →
    pre' = pre ∧ ∃ d, x = Asked (us_NodeID spec) CmdPrecheck (Ok d) ∧ ver = (json_precheck d).1.

Lemma verify_spec l0 v pre slot version :
  front_of pre l0 → slot = pa_InactiveSlot pre → version ≠ EmptyString →
  let l := l0 ++ [Waited (us_NodeID spec) (pa_BootID pre) v None] in
  triple (at_ l slot version) (verifyBootedSlot (mkVerify (us_NodeID spec) (us_BundleSHA256 spec) jobID (pa_BootID pre)))
    (λ r w, match r with
       | Ok _ => verified l0 pre slot version w
       | Fail e => undecided e w ∨ reverted l0 pre slot e w
       end).
Proof using Hs.
  intros [Hlen Hfront] Hslot Hne l w H1. unfold verifyBootedSlot. cbn [vr_NodeID vr_JobID vr_PriorBootID vr_BundleSHA256]. go.
  assert (∀ x, l0 ++ [Waited (us_NodeID spec) (pa_BootID pre) v None; x] = l ++ [x]) as Hl0
    by (intros; unfold l; by rewrite <- app_assoc).
  assert (∀ e, on_target (l ++ [Asked (us_NodeID spec) CmdPrecheck (Fail e)])) as Hlost.
  { intros e pre' ver Ha. rewrite <- Hl0 in Ha. by apply Hfront in Ha as (_ & d & [=] & _). }
  destruct (e_bus _ _ _) as [d|e] eqn:Eb; go; [|inventory; left; by asked H1].
  pose proof H1 as (Hl & Hu & r & Hr & Hst & Hsl & Hver & Hsha). rewrite (row_of_one _ _ _ Hr). go.
  destruct (json_precheck d) as [ver je] eqn:Ej. go.
  assert ((¬ one_boot (pa_BootID pre) (pa_BootID ver) → pa_ActiveSlot ver = slot) →
    on_target (l ++ [Asked (us_NodeID spec) CmdPrecheck (Ok d)])) as Hon.
  { intros Hon pre' ver' Ha. pose proof Ha as (?&?&?&?&?&?&?&?&?&_&_&_&_&Hcl). rewrite <- Hl0 in Ha.
    apply Hfront in Ha as (-> & d' & [= <-] & ->). rewrite Ej in *. cbn [fst] in *. by rewrite <- Hslot, Hon. }
  case_bool_decide as Eb'; go; [inventory; left; asked H1; apply Hon; by intros Hc1%not_same|].
  edestruct gaps_recorded as (s1 & -> & Hr1); [exact Hr|]. go. rewrite Hsl, Hver, Hsha. rewrite Hver, Hsha in Hr1.
  assert (∀ nodes ev t, at_ (l ++ [Asked (us_NodeID spec) CmdPrecheck (Ok d)]) slot version
    (mkNW s1 nodes (n_wire w ++ [Asked (us_NodeID spec) CmdPrecheck (Ok d)]) ev t)) as H2.
  { intros nodes ev t. unfold at_, sent_is, unmarked. cbn [n_wire]. rewrite Hl, app_assoc.
    split_and!; [done|apply Forall_app; by repeat constructor|]. eexists. by split. }
  destruct (String.eqb_spec (pa_ActiveSlot ver) slot) as [Es|Es]; cbn [negb]; go.
  - case_bool_decide as Ev; go; inventory.
    + left. by stay (H2 (n_nodes w) (n_events w) O).
    + exists v, d. rewrite Ej, Hl0. cbn [fst]. split_and!; [by apply not_same|done| |apply H2].
      eexists. split; [exact Hr1|]. by apply marks_proved.
  - edestruct outcome_recorded as (s2 & -> & Hr2); [exact Hr1|]. go. inventory. right.
    split; [apply clean_New|]. exists v, d. rewrite Ej, Hl0. cbn [fst]. split_and!; [by apply not_same|done|exact (proj1 (H2 (n_nodes w) (n_events w) O))|by eauto].
Qed.

(** The wait ends, and its error is one of the context's. *)
Lemma wait_ends answers prior polls f ce :
  is_Some (wait_loop answers prior (polls ++ [mkPoll (Fail ce) (Some ce) (Some ce)]) f).
Proof using.
  revert f. induction polls as [|p polls IH]; intros f; cbn [app wait_loop].
  - destruct (PollCancelledByStep _ _); [eauto|]. destruct (observe _ _ _); eauto.
  - destruct (PollCancelledByStep _ _); [eauto|]. destruct (observe _ _ _); [eauto|]. destruct (p_done p); eauto.
Qed.
Lemma wait_clean answers prior polls f v e :
  Forall (λ p, (∀ ce, p_err p = Some ce → clean ce) ∧ (∀ ce, p_done p = Some ce → clean ce)) polls →
  wait_loop answers prior polls f = Some (v, Some e) → clean e.
Proof using.
  assert (∀ f ce v e, clean ce → deadlineVerdict answers prior f ce = (v, Some e) → clean e) as Hd.
  { intros f0 ce v0 e0 Hce. unfold deadlineVerdict. repeat case_match; intros [= <- <-]; by apply clean_wrapf. }
  intros Hp. revert f. induction Hp as [|p polls [H1 H2] Hp IH]; intros f; cbn [wait_loop]; [done|].
  destruct (PollCancelledByStep _ _) as [ce|] eqn:Ec.
  { intros [= E]. eapply Hd; [|exact E]. apply H1. unfold PollCancelledByStep in Ec. repeat case_match; by simplify_eq. }
  destruct (observe _ _ _) as [[v' [e'|]]|f'] eqn:Eo; [|done|].
  - exfalso. unfold observe in Eo. repeat case_match; by simplify_eq.
  - destruct (p_done p) as [ce|]; [|apply IH]. intros [= E]. eapply Hd; [|exact E]. by apply H2.
Qed.

Lemma cached_boot prior d pre :
  json_precheck d = (pre, None) → prior !! "precheck" = Some (marshal (OutPrecheck pre)) →
  priorPrecheckBootID prior = pa_BootID pre.
Proof using Hc.
  intros Hd Hp. destruct (Hc d pre Hd) as [Hne Hround]. unfold priorPrecheckBootID. rewrite Hp.
  destruct (marshal (OutPrecheck pre)); [done|]. by rewrite Hround.
Qed.

Lemma wait_verify_spec l slot version prior d pre :
  front_of pre l → slot = pa_InactiveSlot pre → version ≠ EmptyString → json_precheck d = (pre, None) → prior !! "precheck" = Some (marshal (OutPrecheck pre)) →
  triple (at_ l slot version) (updateWaitOnlineAndVerifySlot jobID raw prior)
    (λ r w, match r with
       | Ok _ => verified l pre slot version w
       | Fail e => undecided e w ∨ reverted l pre slot e w
       end).
Proof using Hs Hc Hspec.
  intros [Hlen Hfront] Hslot Hne Hd Hp w H1. unfold updateWaitOnlineAndVerifySlot, with_spec, waitForNewBoot. rewrite Hspec, (cached_boot _ d pre Hd Hp).
  cbn [vr_NodeID vr_PriorBootID]. go.
  destruct (e_subscribe _) as [e|] eqn:Es; go; [left; stay H1; by eapply clean_wrapf, sd_subscribe|].
  destruct (e_wait _) as [polls ce] eqn:Ew. go. unfold WaitForNewBoot.
  destruct (wait_ends "prechecks" (pa_BootID pre) (poll_of <$> polls) no_facts ce) as [[v [e|]] Ev].
  all: rewrite Ev; cbn [from_option id]; go.
  - inventory. left. asked H1. eapply wait_clean; [|exact Ev]. apply Forall_app. split.
    + apply Forall_fmap. pose proof (sd_polls Hs (S (n_tick w))) as Hps. rewrite Ew in Hps.
      eapply Forall_impl; [exact Hps|]. by intros [[? ?] ?].
    + pose proof (sd_deadline Hs (S (n_tick w))) as Hce. rewrite Ew in Hce. repeat constructor; cbn; by intros ? [= <-].
  - match goal with |- context [verifyBootedSlot ?q ?w'] =>
      pose proof (verify_spec l v pre slot version (conj Hlen Hfront) Hslot Hne w') as Hv; destruct (verifyBootedSlot q w') as [[res|e] w2] end.
    all: cbn [fst snd] in Hv; go; apply Hv; by apply (at_asked l _ _ w).
Qed.

Lemma probe_run w :
  ∃ h l t, probeHealth (us_NodeID spec) jobID w = (h, mkNW (n_db w) (n_nodes w) (n_wire w ++ l) (n_events w) t) ∧
    unmarked l ∧ (h.1 = true → health_passed spec jobID l).
Proof using.
  unfold probeHealth. run. destruct (e_bus _ _ _) as [d|e] eqn:E1; run.
  - destruct (json_health d) as [ack [e|]] eqn:Ej; run; [|destruct (ma_OK ack) eqn:Eok; run].
    all: eexists _, _, _; split; [reflexivity|]; split; [repeat constructor|]; cbn [fst]; try discriminate.
    intros _. left. exists [], d, ack. split_and!; [reflexivity|exact Ej|exact Eok].
  - destruct (errors_Is e _) eqn:Ee; run; [destruct (e_bus (S (n_tick w)) _ _) as [d|e'] eqn:E2; run; rewrite <- ?app_assoc|].
    all: eexists _, _, _; split; [reflexivity|]; split; [repeat constructor|]; cbn [fst]; try discriminate.
    intros _. right. exists [], e, d. split_and!; [reflexivity|exact Ee].
Qed.

Lemma mark_bad_run detail w :
  ∃ r x, sendMarkBad (us_NodeID spec) (us_BundleSHA256 spec) detail w =
    (r, mkNW (n_db w) (n_nodes w) (n_wire w ++ [x]) (n_events w) (S (n_tick w))) ∧ accepted_good x = false ∧
    match r with None => accepted_bad x = true | Some e => clean e end.
Proof using Hs.
  unfold sendMarkBad. run. destruct (e_bus _ _ _) as [d|e] eqn:E1; run.
  2:{ eexists _, _. split_and!; [done|done|]. eapply clean_wrapf, sd_bus; eauto. }
  destruct (json_mark d) as [ack [e|]] eqn:Ej; run.
  - eexists _, _. split_and!; [done|done|]. apply clean_wrapf, (sd_mark Hs d). by rewrite Ej.
  - eexists _, _. split_and!; [done|done|]. destruct (ma_OK ack) eqn:Eok; [|done]. cbn. by rewrite Ej.
Qed.

(** After the verification: no commit was accepted, a rolled-back row has an
    accepted mark-bad behind it, and the row keeps its marks. *)
Definition held (front : list Wire) (g : bool * bool) (w : NW) : Prop :=
  ∃ l r, sent_is (front ++ l) w ∧ unmarked l ∧ job_rows (n_db w) jobID = [r] ∧ gap_marks r = g ∧
    (nu_Status r = NodeUpdateInProgress ∨ nu_Status r = NodeUpdateFailed ∨
     (nu_Status r = NodeUpdateRolledBack ∧ existsb accepted_bad l = true)).

Lemma held_more front g w w' l :
  held front g w → n_db w' = n_db w → n_wire w' = n_wire w ++ l → unmarked l → held front g w'.
Proof using.
  intros (l1 & r & Hl & Hu & Hr & Hg & Hst) Hdb Hw Hm. exists (l1 ++ l), r. unfold sent_is, unmarked in *.
  rewrite Hw, Hdb, Hl, existsb_app, !app_assoc. split_and!; [done|by apply Forall_app|done|done|].
  destruct Hst as [?|[?|[? ->]]]; auto.
Qed.

Lemma mark_bad_spec front g detail :
  triple (held front g) (markBadAndRecord (us_NodeID spec) (us_BundleSHA256 spec) jobID detail) (λ e w, clean e ∧ held front g w).
Proof using Hs.
  intros w (l & r & Hl & Hu & Hr & Hgm & Hst). unfold markBadAndRecord. run.
  destruct (mark_bad_run detail w) as (mb & x & -> & Hg & Hx). go.
  destruct mb as [mb|]; go; inventory.
  - rewrite (row_of_one _ _ _ Hr). go. edestruct outcome_recorded as (s2 & -> & Hr2); [exact Hr|]. go.
    split; [done|]. exists (l ++ [x]). eexists. unfold sent_is. cbn [n_wire n_db]. rewrite Hl, !app_assoc.
    split_and!; [done|apply Forall_app; by repeat constructor|exact Hr2|exact Hgm|by auto].
  - edestruct outcome_recorded as (s2 & -> & Hr2); [exact Hr|]. go.
    split; [done|]. exists (l ++ [x]). eexists. unfold sent_is. cbn [n_wire n_db]. rewrite Hl, !app_assoc, existsb_app. cbn [existsb].
    rewrite Hx, orb_true_r. split_and!; [done|apply Forall_app; by repeat constructor|exact Hr2|exact Hgm|by auto].
Qed.

Definition commit_recorded (front : list Wire) (g : bool * bool) (w : NW) : Prop :=
  ∃ l r, sent_is (front ++ l) w ∧ commit_accepted spec jobID l ∧ job_rows (n_db w) jobID = [r] ∧
    gap_marks r = g ∧ nu_Status r = NodeUpdateCommitted.

Lemma commit_step_spec front g check :
  triple (held front g) (healthCheckAndCommit check (us_NodeID spec) (us_BundleSHA256 spec) jobID)
    (λ r w, match r with Ok _ => commit_recorded front g w | Fail e => clean e ∧ held front g w end).
Proof using Hs.
  intros w H1. unfold healthCheckAndCommit. run.
  destruct (probe_run w) as (h & lp & t & -> & Hm & Hh). go.
  set (w1 := mkNW (n_db w) (n_nodes w) (n_wire w ++ lp) (n_events w) t).
  assert (held front g w1) as H2 by (eapply held_more; [exact H1|done..]).
  assert (∃ h' t', (if (let (x, _) := h in x) && check then ready else λ s, (h, s)) w1 =
    (h', mkNW (n_db w) (n_nodes w) (n_wire w ++ lp) (n_events w) t') ∧ (h'.1 = true → h.1 = true)) as (h' & t' & -> & Hh').
  { destruct h as [h1 detail]. destruct (h1 && check) eqn:E; [|by eexists _, _]. apply andb_true_iff in E as [-> _].
    unfold ready. run. destruct (e_store_ready _); run; by eexists _, _. }
  assert (held front g (mkNW (n_db w) (n_nodes w) (n_wire w ++ lp) (n_events w) t')) as H3 by exact H2.
  destruct h' as [[] detail]; cbn [negb fst] in *; go.
  2:{ match goal with |- context [markBadAndRecord ?n ?s ?j ?dt ?w'] =>
        pose proof (mark_bad_spec front g dt w' H3) as Hmb; destruct (markBadAndRecord n s j dt w') as [e w2] end. exact Hmb. }
  destruct (e_bus _ _ _) as [d|e] eqn:Eb; go.
  2:{ split; [eapply clean_wrapf, sd_bus; eauto|]. eapply held_more; [exact H3|done|done|by repeat constructor]. }
  destruct (json_mark d) as [ack je] eqn:Ej. go. destruct (ma_OK ack) eqn:Eok; cbn [negb]; go.
  2:{ split; [done|]. eapply held_more; [exact H3|done|done|]. repeat constructor. cbn. by rewrite Ej. }
  assert (∃ tail, tail ⊆ [Retired jobID] ∧ ∀ w', (if check then λ s, (tt, mkNW (n_db s) (n_nodes s) (n_wire s ++ [Retired jobID]) (n_events s) (n_tick s))
     else λ s, (tt, s)) w' = (tt, mkNW (n_db w') (n_nodes w') (n_wire w' ++ tail) (n_events w') (n_tick w'))) as (tail & Htail & Hret).
  { destruct check; [by exists [Retired jobID]|]. exists []. split; [by intros ? ?%elem_of_nil|].
    intros w'. rewrite app_nil_r. by destruct w'. }
  rewrite Hret. go. destruct H1 as (l & r & Hl & Hu & Hr & Hg & _). rewrite (row_of_one _ _ _ Hr). go.
  edestruct outcome_recorded as (s2 & -> & Hr2); [exact Hr|]. go.
  exists (l ++ lp ++ Asked (us_NodeID spec) (CmdMarkGood (us_BundleSHA256 spec)) (Ok d) :: tail). eexists.
  split_and!; [| |exact Hr2|exact Hg|done].
  - unfold sent_is. cbn [n_wire]. rewrite Hl. by rewrite <- !app_assoc.
  - exists (l ++ lp), d, tail. rewrite Ej. split_and!; [by rewrite <- app_assoc|done| |done].
    destruct (Hh (Hh' eq_refl)) as [(l' & d' & a' & -> & ? & ?)|(l' & e' & d' & -> & ?)].
    + left. exists (l ++ l'), d', a'. by rewrite <- app_assoc.
    + right. exists (l ++ l'), e', d'. by rewrite <- app_assoc.
Qed.

(** The hook. *)
Lemma closed_spec (w : NW) r e :
  job_rows (n_db w) jobID = [r] →
  ∃ s' t r', closed jobID e w = (e, mkNW s' (n_nodes w) (n_wire w) (n_events w) t) ∧ job_rows s' jobID = [r'] ∧
    nu_Status r' = (if decide (nu_Status r = NodeUpdateInProgress) then NodeUpdateFailed else nu_Status r) ∧ gap_marks r' = gap_marks r.
Proof using Hs.
  intros Hr. unfold closed, finalizeNodeUpdateRow. go. rewrite (row_of_one _ _ _ Hr). go.
  case_bool_decide as Es; go; rewrite ?decide_True, ?decide_False by done.
  - edestruct outcome_recorded as (s2 & -> & Hr2); [exact Hr|]. go. by eexists _, _, _.
  - by eexists _, _, _.
Qed.
Lemma closed_absent (w : NW) e :
  job_rows (n_db w) jobID = [] →
  closed jobID e w = (e, mkNW (n_db w) (n_nodes w) (n_wire w) (n_events w) (S (n_tick w))).
Proof using Hs. intros Hr. unfold closed, finalizeNodeUpdateRow. go. by rewrite (proj2 (row_of_none _ _) Hr). Qed.

(** What stands behind the verdict on the row. *)
Definition verdict_of (st : NodeUpdateStatus) (marks : bool * bool) (e : option error) (sent : list Wire) : Prop :=
  match st with
  | NodeUpdateCommitted =>
      e = None ∧ ∃ front back pre ver b, sent = front ++ back ∧ asked_through spec pre ver front ∧
        pa_ActiveSlot ver = pa_InactiveSlot pre ∧ b ∈ u_bundles (n_db w0) ∧ b_SHA256 b = us_BundleSHA256 spec ∧
        proved (us_BundleSHA256 spec) (b_Version b) pre ver marks ∧
        commit_accepted spec jobID back
  | NodeUpdateRolledBack =>
      e ≠ None ∧ Forall (λ x, accepted_good x = false) sent ∧
      (existsb accepted_bad sent = true ∨
       ∃ pre ver, asked_through spec pre ver sent ∧ pa_ActiveSlot ver ≠ pa_InactiveSlot pre)
  | NodeUpdateFailed => e ≠ None ∧ Forall (λ x, accepted_good x = false) sent ∧ on_target sent
  | _ => False
  end.
Definition outcome_of (settle : NodeUpdateStatus → NodeUpdateStatus) (e : option error) (w : NW) : Prop :=
  ∃ sent, n_wire w = n_wire w0 ++ sent ∧
  match job_rows (n_db w) jobID with
  | [] => sent = [] ∧ e ≠ None
  | [r] => verdict_of (settle (nu_Status r)) (gap_marks r) e sent
  | _ => False
  end.
Definition to_failed (st : NodeUpdateStatus) : NodeUpdateStatus :=
  if decide (st = NodeUpdateInProgress) then NodeUpdateFailed else st.

Lemma undecided_outcome e w : undecided e w → outcome_of to_failed (Some e) w.
Proof using.
  intros (_ & l & slot & version & Hl & Hu & Ht & r & Hr & Hst & _). exists l. split; [exact Hl|]. rewrite Hr, Hst. by split_and!.
Qed.

Lemma closed_outcome e : triple (outcome_of to_failed e) (closed jobID e) (λ e' w, e' = e ∧ outcome_of id e w).
Proof using Hs.
  intros w (sent & Hw & Ho). destruct (job_rows (n_db w) jobID) as [|r [|]] eqn:Er; [| |done].
  - rewrite (closed_absent _ _ Er). split; [done|]. exists sent. cbn [snd n_wire n_db]. by rewrite Er.
  - destruct (closed_spec w r e Er) as (s' & t & r' & -> & Hr' & Hst & Hg). split; [done|]. exists sent. cbn [snd n_wire n_db].
    rewrite Hr'. split; [done|]. by rewrite Hst, Hg.
Qed.

(** One step of the workflow. *)
Lemma step_then name body n rest prior (P : NW → Prop) (Q : string → NW → Prop) R :
  triple P (step_attempts (body prior) n) (λ r w, match r with Ok v => Q v w | Fail e => clean e ∧ R (Some e) w end) →
  (∀ v, triple (Q v) (update_steps rest (<[name := v]> prior)) R) →
  triple P (update_steps (mkUStep name n body :: rest) prior) R.
Proof using.
  intros H1 Hr. cbn [update_steps s_Do s_Retries s_Name]. eapply triple_bind; [exact H1|]. intros [v|e]; [apply Hr|].
  intros w [Hcl HR]. rewrite Hcl. exact HR.
Qed.
Lemma attempt_once (P : NW → Prop) (Q : result string → NW → Prop) body :
  triple P body Q → triple P (step_attempts body 0) Q.
Proof using. intros H1. cbn [step_attempts]. eapply triple_bind; [exact H1|]. intros [v|e]; by intros w. Qed.
Lemma attempt_again (P : NW → Prop) (Q : string → NW → Prop) body :
  triple P body (λ r w, match r with Ok v => Q v w | Fail e => clean e ∧ P w end) →
  triple P (step_attempts body 1) (λ r w, match r with Ok v => Q v w | Fail e => clean e ∧ P w end).
Proof using.
  intros H1. cbn [step_attempts]. eapply triple_bind; [exact H1|]. intros [v|e]; [by intros w|].
  intros w [Hcl HP]. rewrite Hcl. exact (attempt_once _ _ _ H1 w HP).
Qed.

Lemma front_ok d1 url sig size d2 d3 d4 pre :
  json_precheck d1 = (pre, None) →
  front_of pre [Asked (us_NodeID spec) CmdPrecheck (Ok d1);
    Asked (us_NodeID spec) (CmdDownload (us_BundleSHA256 spec) url sig (us_BundleSHA256 spec) size) (Ok d2);
    Asked (us_NodeID spec) (CmdInstall (us_BundleSHA256 spec) (pa_InactiveSlot pre)) (Ok d3);
    Asked (us_NodeID spec) (CmdReboot (us_BundleSHA256 spec) 3) (Ok d4)].
Proof using.
  intros Hd. split; [cbn; lia|]. intros v x pre' ver (e1 & ? & ? & ? & ? & ? & ? & ? & d5 & E & E1 & E5 & _).
  cbn [app] in E. injection E; intros; subst. rewrite Hd in E1. injection E1 as <-. split; [done|]. by exists d5.
Qed.

(** A step that is tried once and fails without a verdict. *)
Lemma plain_then name body rest prior (P : NW → Prop) (Q : string → NW → Prop) :
  triple P (body prior) (λ r w, match r with Ok v => Q v w | Fail e => undecided e w end) →
  (∀ v, triple (Q v) (update_steps rest (<[name := v]> prior)) (outcome_of to_failed)) →
  triple P (update_steps (mkUStep name 0 body :: rest) prior) (outcome_of to_failed).
Proof using.
  intros H1 H2. eapply step_then; [|exact H2]. apply attempt_once. eapply triple_conseq; [exact H1|done|].
  intros [v|e] w; [done|]. intros Hu. split; [apply Hu|by apply undecided_outcome].
Qed.

Lemma last_steps pre d1 url sig size d2 d3 d4 b prior :
  let l := [Asked (us_NodeID spec) CmdPrecheck (Ok d1);
    Asked (us_NodeID spec) (CmdDownload (us_BundleSHA256 spec) url sig (us_BundleSHA256 spec) size) (Ok d2);
    Asked (us_NodeID spec) (CmdInstall (us_BundleSHA256 spec) (pa_InactiveSlot pre)) (Ok d3);
    Asked (us_NodeID spec) (CmdReboot (us_BundleSHA256 spec) 3) (Ok d4)] in
  json_precheck d1 = (pre, None) → prior !! "precheck" = Some (marshal (OutPrecheck pre)) →
  no_slot (pa_InactiveSlot pre) = false → b ∈ u_bundles (n_db w0) → b_SHA256 b = us_BundleSHA256 spec →
  triple (at_ l (pa_InactiveSlot pre) (b_Version b)) (update_steps (drop 6 (UpdateWorkflow cfg jobID raw)) prior)
    (outcome_of to_failed).
Proof using Hs Hc Hspec Hb.
  intros l Hd Hp Hslot Hin Hsha. assert (b_Version b ≠ EmptyString) as Hvn by by apply Hb. cbn [UpdateWorkflow drop].
  eapply (step_then _ _ _ _ _ _ (λ _, verified l pre (pa_InactiveSlot pre) (b_Version b))).
  { apply attempt_once. eapply triple_conseq; [eapply wait_verify_spec; [by apply front_ok|done|exact Hvn|exact Hd|exact Hp]|by intros|].
    intros [v|e] w; [done|]. intros [Hu|(Hcl & v & d & Hb1 & Hne & Hw & r & Hr & Hst)].
    - split; [apply Hu|by apply undecided_outcome].
    - split; [done|]. eexists. split; [exact Hw|]. rewrite Hr, Hst. cbn. split_and!; [done|by repeat constructor|].
      right. exists pre, (json_precheck d).1. split; [|done]. by eexists _, _, _, _, _, _, _, _, _. }
  intros v. intros w (vd & d & Hcl & Hact & (r0 & Hr0 & Hver) & Hw & Hu & r & Hr & Hst & _). rewrite Hr in Hr0.
  injection Hr0 as <-. revert w Hw Hr.
  set (front := l ++ _) in *.
  assert (asked_through spec pre (json_precheck d).1 front) as Hthrough by by eexists _, _, _, _, _, _, _, _, _.
  intros w Hw Hr.
  refine (step_then _ _ _ _ _ (held front (gap_marks r)) (λ _, commit_recorded front (gap_marks r)) _ _ _ w _).
  - eapply triple_conseq; [apply attempt_again|by intros|].
    { unfold updateHealthCheckAndCommit, with_spec. rewrite Hspec. apply commit_step_spec. }
    intros [v'|e] w'; [done|]. intros (Hcle & l' & r' & Hl' & Hu' & Hr' & _ & Hst'). split; [done|].
    exists (front ++ l'). split; [exact Hl'|]. rewrite Hr'.
    assert (Forall (λ x, accepted_good x = false) (front ++ l')) as Hall by by apply Forall_app.
    assert (on_target (front ++ l')) as Hon.
    { destruct l' as [|x l']; [|apply short_on_target; cbn; lia]. rewrite app_nil_r. intros pre' ver' Ha.
      apply (front_ok d1 url sig size d2 d3 d4 pre Hd) in Ha as (-> & d' & [= <-] & ->). done. }
    destruct Hst' as [->|[->|[-> Hbad]]]; [by split_and!..|]. split_and!; [done|done|]. left.
    rewrite existsb_app, Hbad. apply orb_true_r.
  - intros v' w' (l' & r' & Hl' & Hca & Hr' & Hg' & Hst'). cbn. exists (front ++ l'). split; [exact Hl'|]. rewrite Hr', Hst', Hg'. cbn.
    split; [done|]. exists front, l', pre, (json_precheck d).1, b. by split_and!.
  - exists [], r. rewrite app_nil_r. split_and!; [exact Hw|constructor|exact Hr|done|by left].
Qed.

Lemma middle_steps b prior :
  b ∈ u_bundles (n_db w0) → b_SHA256 b = us_BundleSHA256 spec →
  triple (at_ [] SlotUnknown (b_Version b)) (update_steps (drop 1 (UpdateWorkflow cfg jobID raw)) prior) (outcome_of to_failed).
Proof using Hs Hc Hspec Hb.
  intros Hin Hsha. assert (b_Version b ≠ EmptyString) as Hver by by apply Hb. cbn [UpdateWorkflow drop].
  eapply plain_then; [apply precheck_spec|]. intros v2 w (d1 & pre & -> & Hd & H1). revert w H1.
  eapply plain_then; [apply download_spec; cbn; lia|]. intros v3 w (url & sig & size & d2 & H1). revert w H1.
  eapply plain_then; [apply copy_spec; cbn; lia|]. intros v4.
  eapply plain_then; [eapply install_spec; [cbn; lia|done|exact Hd|]|].
  { by rewrite !lookup_insert_ne, lookup_insert_eq by done. }
  intros v5 w (Hslot & d3 & H1). revert w H1.
  eapply plain_then; [apply reboot_spec; cbn; lia|]. intros v6 w (d4 & H1).
  eapply last_steps; [exact Hd|..|exact H1]; try done. by rewrite !lookup_insert_ne, lookup_insert_eq by done.
Qed.

Lemma run_outcome :
  job_rows (n_db w0) jobID = [] → outcome_of id (eval (run_update cfg jobID raw) w0) (exec (run_update cfg jobID raw) w0).
Proof using Hs Hc Hspec Hb.
  intros Hfresh.
  assert (triple (λ w, w = w0) (update_steps (UpdateWorkflow cfg jobID raw) ∅) (outcome_of to_failed)) as Hrun.
  { eapply (step_then _ _ _ _ _ _ (λ _ w, ∃ b, b ∈ u_bundles (n_db w0) ∧ b_SHA256 b = us_BundleSHA256 spec ∧
      at_ [] SlotUnknown (b_Version b) w)).
    { apply attempt_once. eapply triple_conseq; [apply validate_spec|by intros w ->|].
      intros [v|e] w [Hw Ho]; [destruct Ho as (b & ? & ? & ?); exists b; by repeat constructor|].
      destruct Ho as [Hcl Hr]. split; [done|]. exists []. split; [exact Hw|]. by rewrite Hr. }
    intros v1 w (b & Hin & Hsha & H1). revert w H1. by apply middle_steps. }
  unfold run_update. rewrite eval_bind, exec_bind.
  destruct (closed_outcome _ _ (Hrun w0 eq_refl)) as [E Ho]. unfold eval, exec. rewrite E. exact Ho.
Qed.
End outcome.

(** C28. The row of a node's update tells what happened to the node, and what
    was not proved of it.  The database answers, no answer carries the stop
    signal, every bundle in the store has a version and the job has no earlier
    row.  Every update that got as far as a row ends with a verdict, never in
    progress.  The row is committed exactly when the job succeeded.  Then the
    node, after the install and the reboot, answered on the slot that was
    inactive before, with a boot id not known to be that of the boot told to
    reboot; and after that it passed its health check and accepted mark-good
    (possibly after a mark-bad in the first of the step's two attempts, see
    [commit_after_mark_bad]).  A node whose boot or version could not be compared
    is committed too, and the row's two marks say exactly that: a committed row
    with no boot mark is one whose node named another boot than before, with
    the mark one of the two ids was missing; with no version mark the node
    reported the bundle's version, with it the node reported none or the
    bundle is labelled by its digest.  The row is rolled back only when the
    node came up on another slot than the target, its boot id not known to be
    the old one, or accepted a mark-bad; neither on a rolled-back nor on a failed
    row did the node accept a mark-good.  A failed update is never one whose
    node was seen back on another slot.  An update refused before its row was
    written has asked nothing of the node. *)
Theorem update_row_true `{!NodeCodec, !NodeEnv} cfg jobID raw spec w0 :
  steady → codec_ok → parseSpec raw = Ok spec →
  (∀ b, b ∈ u_bundles (n_db w0) → b_Version b ≠ EmptyString) → row_of (n_db w0) jobID = None →
  outcome_of jobID spec w0 id (eval (run_update cfg jobID raw) w0) (exec (run_update cfg jobID raw) w0).
Proof. intros Hs Hc Hp Hb Hr. apply run_outcome; [done..|]. by apply row_of_none. Qed.

(** ** A node, its codec and its answers *)
Definition ack_before : UpdatePrecheckAck := mkPrecheckAck true "a" "b" "1.0" 0 "rauc" "boot-1" EmptyString.
Definition ack_after : UpdatePrecheckAck := mkPrecheckAck true "b" "a" "2.0" 0 "rauc" "boot-2" EmptyString.
Definition ack_none : UpdatePrecheckAck := mkPrecheckAck false EmptyString EmptyString EmptyString 0 EmptyString EmptyString EmptyString.
Definition errJSON : error := errors_New "invalid character".
Definition yes_no (s : string) : MarkAck * option error :=
  if String.eqb s "yes" then (mkMarkAck true EmptyString, None)
  else if String.eqb s "no" then (mkMarkAck false "nftables ruleset not loaded", None)
  else (mkMarkAck false EmptyString, Some errJSON).

#[export] Instance demo_codec : NodeCodec := {|
  json_spec s := if String.eqb s "spec" then (mkUpdateSpec "n1" "abc", None) else (mkUpdateSpec EmptyString EmptyString, Some errJSON);
  json_precheck s := if String.eqb s "before" then (ack_before, None) else if String.eqb s "after" then (ack_after, None)
                     else (ack_none, Some errJSON);
  json_download s := (mkDownloadAck true "/var/lib/b/abc" 7 "abc" EmptyString, None);
  json_install s := (mkInstallAck true "b" "2.0" EmptyString, None);
  json_reboot s := (mkRebootAck (Some true) EmptyString, None);
  json_mark := yes_no;
  json_health := yes_no;
  marshal o := match o with
    | OutPrecheck a => if String.eqb (pa_BootID a) "boot-1" then "before" else "after"
    | _ => "{}" end |}.

(** A node that does as it is told, but for its health at each tick. *)
Definition demo_env (fault : nat → option error) (health : nat → string) : NodeEnv := {|
  e_fault := fault; e_clock _ := 3000000;
  e_bus n _ c := match c with
    | CmdPrecheck => Ok (if (n <? 14)%nat then "before" else "after")
    | CmdHealth _ => Ok (health n)
    | _ => Ok "yes" end;
  e_subscribe _ := None; e_rebooting _ := Ok "{}";
  e_wait _ := ([(Ok "before", None, None); (Fail ErrNoResponders, None, None); (Ok "after", None, None)], DeadlineExceeded);
  e_agent_back _ := None; e_store_ready _ := None; e_copy_store _ := Ok "{}";
  url_hostname _ := Some "cp"; ip_loopback _ := false |}.
Definition demo_cfg : Config := mkConfig "https://cp" "cp1" false true false.
Definition demo_world : NW :=
  mkNW (mkUStore [mkBundle "abc" "2.0" "rasputin-pi5" "arm64" EmptyString EmptyString 7 "release" "/b/abc" 0 EmptyString] [])
    {[ "n1" := mkNodeRow "compute" "1.0" 5 ]} [] [] 0.

Lemma demo_codec_ok : codec_ok.
Proof. intros d pre. cbn. repeat case_match; intros [= <-]; by split. Qed.
Lemma yes_no_clean s e : (yes_no s).2 = Some e → clean e.
Proof. unfold yes_no. repeat case_match; by intros [= <-]. Qed.
Lemma demo_steady health : @steady demo_codec (demo_env (λ _, None) health).
Proof.
  split; intros; cbn in *; try done; eauto using yes_no_clean.
  - by destruct c.
  - repeat constructor; by intros.
  - destruct (String.eqb s "spec"); by simplify_eq/=.
  - destruct (String.eqb s "before"), (String.eqb s "after"); by simplify_eq/=.
Qed.

(** The run of job J, updating n1 to abc. *)
Definition demo_run (env : NodeEnv) : M NW (option error) := run_update demo_cfg "J" "spec".
Definition good_env : NodeEnv := demo_env (λ _, None) (λ _, "yes").

Lemma update_row_true_witness :
  eval (demo_run good_env) demo_world = None ∧
  nu_Status <$> row_of (n_db (exec (demo_run good_env) demo_world)) "J" = Some NodeUpdateCommitted ∧
  outcome_of "J" (mkUpdateSpec "n1" "abc") demo_world id (eval (demo_run good_env) demo_world) (exec (demo_run good_env) demo_world).
Proof.
  split; [vm_compute; reflexivity|]. split; [vm_compute; reflexivity|].
  refine (@update_row_true demo_codec good_env demo_cfg "J" "spec" (mkUpdateSpec "n1" "abc") demo_world
    (demo_steady _) demo_codec_ok eq_refl _ eq_refl).
  intros b ->%list_elem_of_singleton. discriminate.
Defined.
