(* ===== verification/NodeUpdateInventory.v ===== *)
(** * What the inventory claims after an update

    The version columns of the inventory against the transcript of a run: the
    column is confirmed only with what the node itself reported after it was
    told to reboot. *)
From Stdlib Require Import Ascii String.
From S2P Require Import Prelude GoStrings GoRunes Ledger Saga BootVerify NodeUpdateStore NodeUpdate NodeUpdateFacts.
Open Scope string_scope.
Open Scope list_scope.
Open Scope Z_scope.

#[local] Arguments String.eqb : simpl never.

Definition is_wait (x : Wire) : bool := match x with Waited _ _ _ _ => true | _ => false end.
Definition unwaited (l : list Wire) : Prop := Forall (λ x, is_wait x = false) l.

Section inventory.
Context `{!NodeCodec, !NodeEnv} (cfg : Config) (jobID raw : string) (spec : UpdateSpec).

(** *** Before the wait: the inventory is only read *)
Definition reads (w w' : NW) : Prop :=
  n_nodes w' = n_nodes w ∧ (∃ l, n_wire w' = n_wire w ++ l ∧ unwaited l) ∧
  (is_Some (row_of (n_db w) jobID) → is_Some (row_of (n_db w') jobID)).
#[local] Instance reads_preorder : PreOrder reads.
Proof using.
  split.
  - intros w. split_and!; [done| |done]. exists []. rewrite app_nil_r. split; [done|constructor].
  - intros w1 w2 w3 (N1 & (l1 & W1 & U1) & R1) (N2 & (l2 & W2 & U2) & R2). split_and!; [congruence| |auto].
    exists (l1 ++ l2). rewrite W2, W1, app_assoc. split; [done|by apply Forall_app].
Qed.

Lemma reads_kept w nodes ev t : nodes = n_nodes w → reads w (mkNW (n_db w) nodes (n_wire w) ev t).
Proof using. intros ->. split_and!; [done| |done]. exists []. rewrite app_nil_r. split; [done|constructor]. Qed.

Lemma oracle_reads {A} (f : nat → A) : yields reads (oracle f).
Proof using. intros w. by apply reads_kept. Qed.
Lemma udbq_reads {A} (op : option error → UStore → result A) : yields reads (udbq op).
Proof using. intros w. by apply reads_kept. Qed.
Lemma inv_get_reads id : yields reads (inv_get id).
Proof using. intros w. by apply reads_kept. Qed.
Lemma publish_reads ev : yields reads (publishChange ev).
Proof using. intros w. by apply reads_kept. Qed.
Lemma ask_reads id c : yields reads (ask id c).
Proof using. intros w. split_and!; [done| |done]. eexists. split; [reflexivity|]. by repeat constructor. Qed.
Lemma udb_reads {A} (op : option error → UStore → UStore * A) :
  (∀ f s, is_Some (row_of s jobID) → is_Some (row_of (op f s).1 jobID)) → yields reads (udb op).
Proof using.
  intros Hop w. unfold udb. specialize (Hop (e_fault (n_tick w)) (n_db w)). destruct (op _ _) as [s a].
  split_and!; [done| |exact Hop]. exists []. cbn. rewrite app_nil_r. split; [done|constructor].
Qed.

Lemma row_kept s p f : (∀ u, nu_JobID (f u) = nu_JobID u) →
  is_Some (row_of s jobID) → is_Some (row_of (set_where p f s) jobID).
Proof using.
  intros Hf. change (row_of (set_where p f s) jobID) with (head (job_rows (set_where p f s) jobID)).
  rewrite job_rows_where by done. change (row_of s jobID) with (head (job_rows s jobID)).
  destruct (job_rows s jobID); [by intros []|]. cbn. eauto.
Qed.
Lemma slots_reads from to fv tv : yields reads (udb (λ f s, SetNodeUpdateSlots f s jobID from to fv tv)).
Proof using.
  apply udb_reads. intros f s H1. unfold SetNodeUpdateSlots, u_stmt. repeat case_match; [done..|]. by apply row_kept.
Qed.
Lemma create_reads u : yields reads (udb (λ f s, CreateNodeUpdate f s u)).
Proof using.
  apply udb_reads. intros f s. unfold CreateNodeUpdate, u_stmt. repeat case_match; [done..|]. cbn [fst].
  change (row_of s jobID) with (head (filter (λ u, nu_JobID u = jobID) (u_updates s))). unfold row_of. cbn [u_updates].
  rewrite filter_app. destruct (filter _ (u_updates s)); cbn; [by intros []|eauto].
Qed.
#[local] Hint Resolve oracle_reads udbq_reads inv_get_reads publish_reads ask_reads slots_reads create_reads : yields.
#[local] Hint Extern 1 (yields _ now) => (apply oracle_reads) : yields.

Lemma fail_reads {A} e : yields reads (@fail A e).
Proof using. apply yields_ret. apply _. Qed.
Lemma done_reads o : yields reads (done_ o).
Proof using. apply yields_ret. apply _. Qed.
#[local] Hint Resolve fail_reads done_reads : yields.

Lemma steps_read :
  yields reads (updateValidate jobID raw) ∧ yields reads (updatePrecheck raw) ∧ yields reads (updateDownload cfg jobID raw) ∧
  yields reads (updateCopyStore cfg raw) ∧ (∀ prior, yields reads (updateInstall jobID raw prior)) ∧ yields reads (updateReboot raw).
Proof using.
  unfold updateValidate, updatePrecheck, updateDownload, updateCopyStore, updateInstall, updateReboot, with_spec, install_precheck.
  split_and!; intros; yield.
Qed.

Lemma closed_reads e : yields reads (closed jobID e).
Proof using.
  assert (∀ st sl v m t, yields reads (udb (λ f s, UpdateNodeUpdate f s jobID st sl v m t))) as Hu.
  { intros. apply udb_reads. intros f s H1. unfold UpdateNodeUpdate, u_stmt. case_match; [done|]. by apply row_kept. }
  unfold closed, finalizeNodeUpdateRow. yield; apply Hu.
Qed.

(** *** After the verification: the inventory can only be doubted *)
Abbreviation node := (us_NodeID spec).
Definition others_kept (w w' : NW) : Prop := ∀ id, id ≠ node → n_nodes w' !! id = n_nodes w !! id.
Definition doubts (w w' : NW) : Prop :=
  others_kept w w' ∧ ∃ l, n_wire w' = n_wire w ++ l ∧ unwaited l ∧
  ∀ r, n_nodes w !! node = Some r → ∃ r', n_nodes w' !! node = Some r' ∧ nr_Role r' = nr_Role r ∧
    (r' = r ∨ nr_ConfirmedAt r' = 0) ∧ (existsb accepted_bad l = true → nr_ConfirmedAt r' = 0).
#[local] Instance doubts_preorder : PreOrder doubts.
Proof using.
  split.
  - intros w. split; [done|]. exists []. rewrite app_nil_r. split_and!; [done|constructor|]. intros r Hr. exists r.
    split_and!; [done|done|by left|done].
  - intros w1 w2 w3 (O1 & l1 & W1 & U1 & N1) (O2 & l2 & W2 & U2 & N2). split.
    { intros id Hid. by rewrite O2, O1. }
    exists (l1 ++ l2). rewrite W2, W1, app_assoc. split_and!; [done|by apply Forall_app|].
    intros r (r' & H1 & Hr & Hc & Hb)%N1. destruct (N2 r' H1) as (r'' & H2 & Hr' & Hc' & Hb'). exists r''.
    split_and!; [done|congruence| |].
    + destruct Hc' as [->|]; [done|by right].
    + rewrite existsb_app. intros [H3|H3]%orb_true_iff; [|by apply Hb']. destruct Hc' as [->|]; [by apply Hb|done].
Qed.

Lemma doubts_kept w db l ev t :
  unwaited l → existsb accepted_bad l = false → doubts w (mkNW db (n_nodes w) (n_wire w ++ l) ev t).
Proof using.
  intros Hu Hb. split; [by intros id|]. exists l. split_and!; [done|done|]. intros r Hr. exists r.
  split_and!; [done|done|by left|by rewrite Hb].
Qed.
Lemma doubts_same w db ev t : doubts w (mkNW db (n_nodes w) (n_wire w) ev t).
Proof using. pose proof (doubts_kept w db [] ev t) as H1. rewrite app_nil_r in H1. apply H1; [constructor|done]. Qed.

Lemma oracle_doubts {A} (f : nat → A) : yields doubts (oracle f).
Proof using. intros w. apply doubts_same. Qed.
Lemma udbq_doubts {A} (op : option error → UStore → result A) : yields doubts (udbq op).
Proof using. intros w. apply doubts_same. Qed.
Lemma udb_doubts {A} (op : option error → UStore → UStore * A) : yields doubts (udb op).
Proof using. intros w. unfold udb. destruct (op _ _). apply doubts_same. Qed.
Lemma publish_doubts ev : yields doubts (publishChange ev).
Proof using. intros w. apply doubts_same. Qed.
Lemma ask_doubts id c : (∀ b r, c ≠ CmdMarkBad b r) → yields doubts (ask id c).
Proof using.
  intros Hc w. apply (doubts_kept w (n_db w) [_]); [by repeat constructor|]. cbn. destruct c; try done. by edestruct Hc.
Qed.
Lemma retired_doubts id : yields doubts (wire (Retired id)).
Proof using. intros w. apply (doubts_kept w (n_db w) [_]); [by repeat constructor|done]. Qed.
Lemma fail_doubts {A} e : yields doubts (@fail A e).
Proof using. apply yields_ret. apply _. Qed.
Lemma done_doubts o : yields doubts (done_ o).
Proof using. apply yields_ret. apply _. Qed.

(** What an unconfirm and a reconcile leave, on a database that answers. *)
Lemma unconfirm_effect (Hs : steady) w r :
  n_nodes w !! node = Some r →
  unconfirmInventoryVersion node w =
    (tt, mkNW (n_db w) (<[node := mkNodeRow (nr_Role r) (nr_ImageVersion r) 0]> (n_nodes w)) (n_wire w) (n_events w) (S (n_tick w))).
Proof using.
  intros Hr. unfold unconfirmInventoryVersion. run. rewrite (sd_fault Hs). unfold UnconfirmImageVersion, execOne. by rewrite Hr.
Qed.
Lemma unconfirm_absent w :
  n_nodes w !! node = None → ∃ t, unconfirmInventoryVersion node w = (tt, mkNW (n_db w) (n_nodes w) (n_wire w) (n_events w) t).
Proof using.
  intros Hr. unfold unconfirmInventoryVersion. run. unfold UnconfirmImageVersion, execOne. rewrite Hr.
  destruct (e_fault _); run; eauto.
Qed.
Lemma reconcile_effect (Hs : steady) w r version :
  n_nodes w !! node = Some r →
  ∃ r' t, reconcileInventoryVersion node version w =
      (tt, mkNW (n_db w) (<[node := r']> (n_nodes w)) (n_wire w) (n_events w) t) ∧ nr_Role r' = nr_Role r ∧
    (nr_ConfirmedAt r' = 0 ∨ (nr_ImageVersion r' = version ∧ version ≠ EmptyString)).
Proof using.
  intros Hr. unfold reconcileInventoryVersion. destruct (String.eqb_spec version EmptyString) as [->|Hne].
  - rewrite (unconfirm_effect Hs w r Hr). eexists _, _. split; [reflexivity|]. split; [done|by left].
  - run. rewrite (sd_fault Hs). unfold ConfirmImageVersion, execOne. rewrite Hr. eexists _, _. split; [reflexivity|].
    split; [done|by right].
Qed.

Lemma doubts_unconfirm (Hs : steady) w db l ev t r :
  n_nodes w !! node = Some r → unwaited l →
  doubts w (mkNW db (<[node := mkNodeRow (nr_Role r) (nr_ImageVersion r) 0]> (n_nodes w)) (n_wire w ++ l) ev t).
Proof using.
  intros Hr Hu. split; [intros id Hid; cbn [n_nodes]; by rewrite lookup_insert_ne|]. exists l. split_and!; [done|done|].
  intros r0 Hr0. cbn [n_nodes]. rewrite lookup_insert_eq. eexists. split; [done|]. simplify_eq. auto.
Qed.

Lemma mark_bad_asked detail w :
  ∃ r a, sendMarkBad node (us_BundleSHA256 spec) detail w =
    (r, mkNW (n_db w) (n_nodes w) (n_wire w ++ [Asked node (CmdMarkBad (us_BundleSHA256 spec) detail) a]) (n_events w) (S (n_tick w))).
Proof using.
  unfold sendMarkBad. run. destruct (e_bus _ _ _) as [d|e]; run; [destruct (json_mark d) as [? [?|]]|]; run; by eexists _, _.
Qed.

(** Run the writes that end the mark-bad branch. *)
#[local] Ltac settle :=
  repeat match goal with
    | |- context [e_fault ?n] => destruct (e_fault n); run
    | |- context [row_of ?s ?j] => destruct (row_of s j); run
    | |- context [UpdateNodeUpdate ?f ?s ?j ?st ?sl ?v ?m ?t] => destruct (UpdateNodeUpdate f s j st sl v m t); run
    end.

Lemma mark_bad_doubts (Hs : steady) detail : yields doubts (markBadAndRecord node (us_BundleSHA256 spec) jobID detail).
Proof using.
  intros w. unfold markBadAndRecord. run. destruct (mark_bad_asked detail w) as (mb & a & ->). run.
  destruct (n_nodes w !! node) as [r|] eqn:Er.
  - destruct mb; run; match goal with |- context [unconfirmInventoryVersion _ ?w'] => rewrite (unconfirm_effect Hs w' r Er) end; run.
    all: settle; by apply doubts_unconfirm; [| |repeat constructor].
  - assert (∀ db l ev t, unwaited l → doubts w (mkNW db (n_nodes w) (n_wire w ++ l) ev t)) as Hk.
    { intros db l ev t Hu. split; [done|]. exists l. split_and!; [done|done|]. intros r Hr. congruence. }
    destruct mb; run; match goal with |- context [unconfirmInventoryVersion _ ?w'] => destruct (unconfirm_absent w' Er) as [? ->] end; run.
    all: settle; apply Hk; by repeat constructor.
Qed.

#[local] Hint Resolve oracle_doubts udbq_doubts udb_doubts publish_doubts retired_doubts fail_doubts done_doubts mark_bad_doubts : yields.
#[local] Hint Extern 1 (yields _ now) => (apply oracle_doubts) : yields.
#[local] Hint Extern 1 (yields doubts (ask _ _)) => (apply ask_doubts; discriminate) : yields.

Lemma commit_doubts (Hs : steady) check :
  yields doubts (healthCheckAndCommit check node (us_BundleSHA256 spec) jobID).
Proof using. unfold healthCheckAndCommit, probeHealth, ready. yield. Qed.
Lemma closed_doubts e : yields doubts (closed jobID e).
Proof using. unfold closed, finalizeNodeUpdateRow. yield. Qed.

(** *** What the columns rest on *)

(** The node was waited for: its version is doubted, or it is the one the node
    reported afterwards. *)
Definition told (w0 w : NW) : Prop :=
  ∃ l1 x l2 r0 r, n_wire w = n_wire w0 ++ l1 ++ x :: l2 ∧ is_wait x = true ∧ unwaited l1 ∧ unwaited l2 ∧ others_kept w0 w ∧
    n_nodes w0 !! node = Some r0 ∧ n_nodes w !! node = Some r ∧ nr_Role r = nr_Role r0 ∧
    (nr_ConfirmedAt r = 0 ∨ ∃ d, Asked node CmdPrecheck (Ok d) ∈ l2 ∧
       nr_ImageVersion r = pa_CurrentVersion (json_precheck d).1 ∧ nr_ImageVersion r ≠ EmptyString) ∧
    (existsb accepted_bad l2 = true → nr_ConfirmedAt r = 0).
Definition untold (w0 w : NW) : Prop := ∃ l, n_wire w = n_wire w0 ++ l ∧ unwaited l ∧ n_nodes w = n_nodes w0.

Lemma told_doubts w0 w w' : told w0 w → doubts w w' → told w0 w'.
Proof using.
  intros (l1 & x & l2 & r0 & r & Hw & Hx & U1 & U2 & Ho & Hn0 & Hr & Hrole & Hv & Hb) (Ho' & l & Hw' & Hu & Hd).
  destruct (Hd r Hr) as (r' & Hr' & Hrole' & Hc & Hbad). exists l1, x, (l2 ++ l), r0, r'.
  split_and!; [|done|done|by apply Forall_app|intros id Hid; by rewrite Ho', Ho|done|done|congruence| |].
  - by rewrite Hw', Hw, <- !app_assoc.
  - destruct Hc as [->|?]; [|by left]. destruct Hv as [?|(d & Hin & ?)]; [by left|]. right. exists d. split; [|done].
    apply elem_of_app. by left.
  - rewrite existsb_app. intros [H1|H1]%orb_true_iff; [|by apply Hbad]. destruct Hc as [->|?]; [by apply Hb|done].
Qed.

Lemma told_now w0 w r0 l1 x l2 db ev t r :
  n_wire w = n_wire w0 ++ l1 → n_nodes w = n_nodes w0 → n_nodes w0 !! node = Some r0 →
  is_wait x = true → unwaited l1 → unwaited l2 → existsb accepted_bad l2 = false → nr_Role r = nr_Role r0 →
  (nr_ConfirmedAt r = 0 ∨ ∃ d, Asked node CmdPrecheck (Ok d) ∈ l2 ∧
     nr_ImageVersion r = pa_CurrentVersion (json_precheck d).1 ∧ nr_ImageVersion r ≠ EmptyString) →
  told w0 (mkNW db (<[node := r]> (n_nodes w)) (n_wire w ++ x :: l2) ev t).
Proof using.
  intros Hw Hn Hn0 Hx U1 U2 Hb Hrole Hv. exists l1, x, l2, r0, r. cbn [n_wire n_nodes]. rewrite Hw, Hn, lookup_insert_eq, Hb.
  split_and!; try done; [by rewrite <- app_assoc|]. intros id Hid. cbn [n_nodes]. by rewrite lookup_insert_ne.
Qed.

#[local] Ltac doubt Hs Hr :=
  match goal with |- context [unconfirmInventoryVersion _ ?w'] => rewrite (unconfirm_effect Hs w' _ Hr) end; run.

Lemma verify_told (Hs : steady) w0 w r0 l1 x prior :
  n_wire w = n_wire w0 ++ l1 → n_nodes w = n_nodes w0 → n_nodes w0 !! node = Some r0 → is_Some (row_of (n_db w) jobID) →
  is_wait x = true → unwaited l1 →
  told w0 (exec (verifyBootedSlot (mkVerify node (us_BundleSHA256 spec) jobID prior))
    (mkNW (n_db w) (n_nodes w) (n_wire w ++ [x]) (n_events w) (n_tick w))).
Proof using.
  intros Hw Hn Hn0 [row Hrow] Hx U1. assert (n_nodes w !! node = Some r0) as Hr by by rewrite Hn.
  assert (∀ l2 db ev t r, unwaited l2 → existsb accepted_bad l2 = false → nr_Role r = nr_Role r0 →
    (nr_ConfirmedAt r = 0 ∨ ∃ d, Asked node CmdPrecheck (Ok d) ∈ l2 ∧
       nr_ImageVersion r = pa_CurrentVersion (json_precheck d).1 ∧ nr_ImageVersion r ≠ EmptyString) →
    told w0 (mkNW db (<[node := r]> (n_nodes w)) ((n_wire w ++ [x]) ++ l2) ev t)) as Htold.
  { intros. rewrite <- app_assoc. by eapply told_now. }
  unfold exec, verifyBootedSlot. cbn [vr_NodeID vr_JobID vr_PriorBootID vr_BundleSHA256]. run.
  destruct (e_bus _ _ _) as [d|e]; run.
  2:{ doubt Hs Hr. apply Htold; [by repeat constructor|done|done|by left]. }
  rewrite (sd_fault Hs), Hrow. run. destruct (json_precheck d) as [ver je] eqn:Ej. run.
  case_bool_decide; run.
  { doubt Hs Hr. apply Htold; [by repeat constructor|done|done|by left]. }
  destruct (SetNodeUpdateVerifyGaps _ _ _ _ _) as [s1 e1]. run.
  assert (∀ db ev t r, nr_Role r = nr_Role r0 →
    (nr_ConfirmedAt r = 0 ∨ nr_ImageVersion r = pa_CurrentVersion ver ∧ pa_CurrentVersion ver ≠ EmptyString) →
    told w0 (mkNW db (<[node := r]> (n_nodes w)) ((n_wire w ++ [x]) ++ [Asked node CmdPrecheck (Ok d)]) ev t)) as Hrec.
  { intros db ev t r Hrole Hv. apply Htold; [by repeat constructor|done|done|]. destruct Hv as [?|[-> ?]]; [by left|].
    right. exists d. rewrite Ej. split_and!; [constructor|done|done]. }
  destruct (negb _); run; [destruct (UpdateNodeUpdate _ _ _ _ _ _ _ _) as [s2 e2]; run|case_bool_decide; run].
  all: match goal with |- context [reconcileInventoryVersion _ ?v ?w'] =>
         destruct (reconcile_effect Hs w' r0 v Hr) as (r & t' & -> & Hrole & Hv) end; run; by apply Hrec.
Qed.

Lemma wait_told (Hs : steady) prior w0 r0 :
  parseSpec raw = Ok spec → n_nodes w0 !! node = Some r0 →
  triple (λ w, untold w0 w ∧ is_Some (row_of (n_db w) jobID)) (updateWaitOnlineAndVerifySlot jobID raw prior)
    (λ r w, match r with Ok _ => told w0 w | Fail _ => told w0 w ∨ untold w0 w end).
Proof using.
  intros Hspec Hn0 w [(l & Hw & Hu & Hn) Hrow]. assert (n_nodes w !! node = Some r0) as Hr by by rewrite Hn.
  unfold updateWaitOnlineAndVerifySlot, with_spec, waitForNewBoot. rewrite Hspec. cbn [vr_NodeID vr_PriorBootID]. run.
  destruct (e_subscribe _); run; [right; by exists l|].
  destruct (e_wait _) as [polls ce]. run. destruct (from_option _ _ _) as [v [e|]]; run.
  - doubt Hs Hr. left. eapply (told_now w0 w r0 l); try done; [constructor|by left].
  - match goal with |- context [verifyBootedSlot ?q ?w'] =>
      pose proof (verify_told Hs w0 (mkNW (n_db w) (n_nodes w) (n_wire w) (n_events w) (n_tick w')) r0 l
        (Waited node (priorPrecheckBootID prior) v None) (priorPrecheckBootID prior) Hw Hn Hn0 Hrow eq_refl Hu) as Ht;
      unfold exec in Ht; cbn [n_db n_nodes n_wire n_events n_tick] in Ht;
      destruct (verifyBootedSlot q w') as [[res|e] w2] end; run; cbn [snd] in Ht; [exact Ht|by left].
Qed.

(** *** The run *)
Lemma untold_reads w0 w w' : untold w0 w → reads w w' → untold w0 w'.
Proof using.
  intros (l & Hw & Hu & Hn) (Hn' & (l' & Hw' & Hu') & _). exists (l ++ l'). rewrite Hw', Hw, app_assoc.
  split_and!; [done|by apply Forall_app|congruence].
Qed.
Lemma attempts_yield {R : relation NW} `{!PreOrder R} body n : yields R body → yields R (step_attempts body n).
Proof using. intros Hb. induction n as [|n IH]; cbn [step_attempts]; yield; [exact Hb..]. Qed.

Lemma step_either name body n rest prior (P R : NW → Prop) (Q : string → NW → Prop) :
  triple P (step_attempts (body prior) n) (λ r w, match r with Ok v => Q v w | Fail _ => R w end) →
  (∀ v, triple (Q v) (update_steps rest (<[name := v]> prior)) (λ _, R)) →
  triple P (update_steps (mkUStep name n body :: rest) prior) (λ _, R).
Proof using.
  intros H1 Hr. cbn [update_steps s_Do s_Retries s_Name]. eapply triple_bind; [exact H1|]. intros [v|e]; [apply Hr|by intros w].
Qed.

(** A step that only reads the inventory. *)
Lemma read_step name body rest prior w0 (R : NW → Prop) :
  yields reads (body prior) → (∀ w, untold w0 w → R w) →
  (∀ v, triple (λ w, untold w0 w ∧ is_Some (row_of (n_db w) jobID)) (update_steps rest (<[name := v]> prior)) (λ _, R)) →
  triple (λ w, untold w0 w ∧ is_Some (row_of (n_db w) jobID)) (update_steps (mkUStep name 0 body :: rest) prior) (λ _, R).
Proof using.
  intros Hb HR Hrest. eapply step_either; [|exact Hrest]. intros w [Hw Hrow].
  pose proof (attempts_yield (body prior) 0 Hb w) as Hy. destruct (step_attempts (body prior) 0 w) as [[v|e] w']; cbn [fst snd] in *.
  - split; [by eapply untold_reads|by apply Hy].
  - apply HR. by eapply untold_reads.
Qed.

Lemma validate_row w v : eval (updateValidate jobID raw) w = Ok v → is_Some (row_of (n_db (exec (updateValidate jobID raw) w)) jobID).
Proof using.
  unfold eval, exec, updateValidate, with_spec. destruct (parseSpec raw) as [sp|e]; [|done]. run.
  destruct (e_fault (n_tick w)); run; [done|]. destruct (n_nodes w !! _); run; [|done].
  destruct (e_fault (S (n_tick w))); run; [done|]. destruct (head _) as [b|]; run; [|done].
  destruct (CreateNodeUpdate _ _ _) as [s' [e|]] eqn:Ec; run; [done|]. intros _. unfold CreateNodeUpdate, u_stmt in Ec.
  repeat case_match; simplify_eq. unfold row_of. cbn [u_updates]. rewrite filter_app.
  rewrite (filter_cons_True _ _ []) by done. destruct (filter _ (u_updates (n_db w))); cbn; eauto.
Qed.

Lemma last_honest (Hs : steady) prior w0 r0 :
  parseSpec raw = Ok spec → n_nodes w0 !! node = Some r0 →
  triple (λ w, untold w0 w ∧ is_Some (row_of (n_db w) jobID)) (update_steps (drop 6 (UpdateWorkflow cfg jobID raw)) prior)
    (λ _ w, told w0 w ∨ untold w0 w).
Proof using.
  intros Hspec Hn0. cbn [UpdateWorkflow drop]. eapply (step_either _ _ _ _ _ _ _ (λ _, told w0)).
  { apply attempt_once. by eapply wait_told. }
  intros v. assert (yields doubts (updateHealthCheckAndCommit cfg jobID raw)) as Hy.
  { unfold updateHealthCheckAndCommit, with_spec. rewrite Hspec. by apply commit_doubts. }
  eapply (step_either _ _ _ _ _ (told w0) _ (λ _, told w0)); [|by intros v' w' H1; left].
  intros w1 H1. pose proof (told_doubts _ _ _ H1 (attempts_yield _ 1 Hy w1)) as H2.
  destruct (step_attempts _ 1 w1) as [[v'|e] w2]; [exact H2|by left].
Qed.

Lemma run_honest (Hs : steady) w0 r0 :
  parseSpec raw = Ok spec → n_nodes w0 !! node = Some r0 →
  let w := exec (run_update cfg jobID raw) w0 in told w0 w ∨ untold w0 w.
Proof using.
  intros Hspec Hn0. unfold run_update. rewrite exec_bind.
  assert (triple (λ w, w = w0) (update_steps (UpdateWorkflow cfg jobID raw) ∅) (λ _ w, told w0 w ∨ untold w0 w)) as Hrun.
  { eapply (step_either _ _ _ _ _ _ _ (λ _ w, untold w0 w ∧ is_Some (row_of (n_db w) jobID))).
    - apply attempt_once. intros w ->.
      assert (untold w0 w0) as Hu0 by (exists []; rewrite app_nil_r; by repeat constructor).
      pose proof (untold_reads _ _ _ Hu0 (proj1 steps_read w0)) as Hu. pose proof (validate_row w0) as Hrow.
      unfold eval, exec in *. destruct (updateValidate jobID raw w0) as [[v|e] w']; [by split; [|eapply Hrow]|by right].
    - intros v. do 5 (apply read_step; [destruct steps_read as (? & ? & ? & ? & Hi & ?); first [eassumption|apply Hi]|by right|intros ?]). by eapply last_honest. }
  specialize (Hrun w0 eq_refl). destruct Hrun as [Ht|Hu].
  - left. eapply told_doubts; [exact Ht|apply closed_doubts].
  - right. eapply untold_reads; [exact Hu|]. apply closed_reads.
Qed.
End inventory.


Definition sick_env : NodeEnv := demo_env (λ _, None) (λ _, "no").

(** An environment with another answer to the precheck after the reboot and
    another subscription. *)
Definition demo_with (env : NodeEnv) (after : result string) (subscribe : nat → option error) : NodeEnv := {|
  e_fault := @e_fault env; e_clock := @e_clock env;
  e_bus n id c := match c with CmdPrecheck => if (n <? 14)%nat then Ok "before" else after | _ => @e_bus env n id c end;
  e_subscribe := subscribe; e_rebooting := @e_rebooting env; e_wait := @e_wait env; e_agent_back := @e_agent_back env;
  e_store_ready := @e_store_ready env; e_copy_store := @e_copy_store env;
  url_hostname := @url_hostname env; ip_loopback := @ip_loopback env |}.

(** The step's deadline passes during the precheck after the wait, and the
    statement that should withdraw the confirmation is sent on the same dead
    context (tick 17): it does not run.  The node was waited for, answered
    nothing, and the version of its old slot is still confirmed.  With that one
    statement answered the confirmation is gone. *)
Definition expired_env : NodeEnv :=
  demo_with (demo_env (λ n, if decide (n = 17%nat) then Some DeadlineExceeded else None) (λ _, "yes")) (Fail DeadlineExceeded) (λ _, None).
Example expired_precheck_keeps_version :
  eval (demo_run expired_env) demo_world ≠ None ∧
  existsb is_wait (n_wire (exec (demo_run expired_env) demo_world)) = true ∧
  n_nodes (exec (demo_run expired_env) demo_world) !! "n1" = Some (mkNodeRow "compute" "1.0" 5) ∧
  n_nodes (exec (demo_run (demo_with good_env (Fail DeadlineExceeded) (λ _, None))) demo_world) !! "n1" = Some (mkNodeRow "compute" "1.0" 0).
Proof. split_and!; [vm_compute; discriminate|vm_compute; reflexivity..]. Qed.

(** The node accepts the reboot into the other slot and the subscription that
    opens the wait fails: the run ends without a version in hand, and the one the
    node is leaving stays confirmed. *)
Definition deaf_env : NodeEnv := demo_with good_env (Ok "after") (λ n, if (n <? 14)%nat then None else Some DeadlineExceeded).
Example rebooted_unwaited :
  eval (demo_run deaf_env) demo_world ≠ None ∧
  last (n_wire (exec (demo_run deaf_env) demo_world)) = Some (Asked "n1" (CmdReboot "abc" 3) (Ok "yes")) ∧
  n_nodes (exec (demo_run deaf_env) demo_world) !! "n1" = Some (mkNodeRow "compute" "1.0" 5).
Proof. split_and!; [vm_compute; discriminate|vm_compute; reflexivity..]. Qed.
