(* ===== verification/NodeUpdateAfter.v ===== *)
(** * After a node's update

    What finds an update later: the fallback detector of fallback.go on the
    node's registrations, the start-up sweep of rows left in progress, the
    control plane's resume of its own update, and two runs whose record is
    wrong. *)
From Stdlib Require Import Ascii String.
From S2P Require Import Prelude GoStrings GoRunes Ledger Saga BootVerify UpdatePlan UpdateCascade UpdateResume.
From S2P Require Import NodeUpdateStore NodeUpdate NodeUpdateFacts NodeUpdateInventory.
Open Scope string_scope.
Open Scope list_scope.
Open Scope Z_scope.

#[local] Arguments String.eqb : simpl never.

(** ** The fallback detector *)
Definition fallbackNote (reported target : string) : string :=
  "After this update committed, the node started reporting version " +:+ reported +:+ ", not " +:+ target
  +:+ ". It fell back to its other slot or was reinstalled.".

Section after.
Context `{!NodeCodec, !NodeEnv}.

(** A registration: the node's id and image version. *)
Definition OnRegistered (n : option (string * string)) : M NW unit :=
  match n with
  | None => mret tt
  | Some (id, imageVersion) =>
      row ← udbq (λ f s, LatestNodeUpdate f s id);
      match row with
      | Ok (Some row) =>
          if bool_decide (nu_Status row ≠ NodeUpdateCommitted) then mret tt
          else if bool_decide (classifyVersion (nu_ToVersion row) imageVersion (nu_BundleSHA256 row) ≠ versionMismatch) then mret tt
          else
            let note := fallbackNote imageVersion (nu_ToVersion row) in
            changed ← udb (λ f s, MarkNodeUpdateFallenBack f s (nu_JobID row) note);
            match changed with
            | Ok true =>
                t ← now;
                publishChange (mkChange id (nu_JobID row) (nu_BundleSHA256 row) UpdateFallenBack EmptyString (nu_ToSlot row)
                  imageVersion note false false t)
            | _ => mret tt
            end
      | _ => mret tt
      end
  end.

(** ** The control plane's own update, found again at startup *)
Fixpoint resume_self (db_fault : nat → option error) (selfNodeID : string) (running : list Job) :
    M World (list (UpdateSpec * string * string)) :=
  match running with
  | [] => mret []
  | j :: running =>
      here ← (if negb (String.eqb (j_Kind j) "node.update") then mret []
              else match json_spec (j_Spec j) with
                   | (spec, None) =>
                       if negb (String.eqb (us_NodeID spec) selfNodeID) then mret []
                       else
                         steps ← dbq db_fault (λ f s, ListSteps f s (j_ID j));
                         let steps := steps_or_nil steps in
                         if negb (rebootDone steps) then mret []
                         else mret [(spec, j_ID j, priorPrecheckBootID
                                {[ "precheck" := default EmptyString (stepResult steps "precheck") ]})]
                   | _ => mret []
                   end);
      rest ← resume_self db_fault selfNodeID running;
      mret (here ++ rest)
  end.
Definition ResumeSelfUpdates (db_fault : nat → option error) (selfNodeID : string) : M World (list (UpdateSpec * string * string)) :=
  if String.eqb selfNodeID EmptyString then mret []
  else
    running ← dbq db_fault (λ f s, ListJobsByStatus f s [StatusRunning]);
    match running with Fail _ => mret [] | Ok running => resume_self db_fault selfNodeID running end.

(** ** What the detector does *)
Lemma classify_mismatch expected reported sha :
  classifyVersion expected reported sha = versionMismatch ↔
  expected ≠ EmptyString ∧ reported ≠ EmptyString ∧ expected ≠ reported ∧ (sha = EmptyString ∨ EqualFold expected sha = false).
Proof using.
  unfold classifyVersion. destruct (String.eqb_spec expected EmptyString), (String.eqb_spec reported EmptyString),
    (String.eqb_spec sha EmptyString), (String.eqb_spec expected reported), (EqualFold expected sha); cbn; intuition congruence.
Qed.

(** A registration relabels the node's latest update exactly when it committed
    and the node now reports another version; it changes no other row, and a
    second registration with the same version does nothing. *)
Lemma fallback_exact (Hs : steady) id reported w row :
  LatestNodeUpdate None (n_db w) id = Ok (Some row) → job_rows (n_db w) (nu_JobID row) = [row] →
  let w' := exec (OnRegistered (Some (id, reported))) w in
  if decide (nu_Status row = NodeUpdateCommitted ∧ classifyVersion (nu_ToVersion row) reported (nu_BundleSHA256 row) = versionMismatch)
  then n_db w' = set_where (committed_job (nu_JobID row)) (fall_back (fallbackNote reported (nu_ToVersion row))) (n_db w) ∧
       job_rows (n_db w') (nu_JobID row) = [fall_back (fallbackNote reported (nu_ToVersion row)) row] ∧
       ce_Change <$> n_events w' = (ce_Change <$> n_events w) ++ [UpdateFallenBack]
  else n_db w' = n_db w ∧ n_events w' = n_events w.
Proof using.
  intros Hrow Hone. unfold exec, OnRegistered. run. rewrite (sd_fault Hs), Hrow. run.
  case_decide as Hd; [destruct Hd as [Hst Hv]|].
  - rewrite !bool_decide_false by naive_solver. run. rewrite (sd_fault Hs). unfold MarkNodeUpdateFallenBack, u_stmt.
    assert (existsb (committed_job (nu_JobID row)) (u_updates (n_db w)) = true) as ->
      by (unfold committed_job; rewrite (existsb_job _ _ _ row Hone); by apply bool_decide_true).
    run.
    split_and!; [done| |by rewrite fmap_app]. rewrite job_rows_where, Hone by done. cbn. unfold committed_job, is_job.
    by rewrite !bool_decide_true.
  - destruct (decide (nu_Status row = NodeUpdateCommitted)) as [Hst|Hst].
    + rewrite (bool_decide_false (_ ≠ _)) by naive_solver. rewrite bool_decide_true by naive_solver. by run.
    + rewrite bool_decide_true by done. by run.
Qed.

(** ** What the start-up sweep clears *)
Definition over (job_of : string → result (option Job)) (jobID : string) : bool :=
  match job_of jobID with Ok (Some j) => bool_decide (j_Status j = StatusFailed ∨ j_Status j = StatusSucceeded) | _ => false end.
Definition swept (job_of : string → result (option Job)) (rows : list NodeUpdate) (s s' : UStore) (j : string) : Prop :=
  if decide (j ∈ nu_JobID <$> rows ∧ over job_of j = true)
  then ∀ r, job_rows s j = [r] → ∃ r', job_rows s' j = [r'] ∧ nu_Status r' = NodeUpdateFailed
  else job_rows s' j = job_rows s j.

Lemma job_rows_other s f jobID j :
  (∀ u, nu_JobID (f u) = nu_JobID u) → j ≠ jobID → job_rows (set_where (is_job jobID) f s) j = job_rows s j.
Proof using.
  intros Hf Hne. rewrite job_rows_where by done. rewrite <- (list_fmap_id (job_rows s j)) at 2.
  apply list_fmap_ext. intros i u Hu%list_elem_of_lookup_2%job_rows_id. cbv beta.
  assert (is_job jobID u = false) as -> by (apply bool_decide_false; congruence). done.
Qed.

Lemma sweep_one (Hs : steady) job_of row w :
  let w' := exec (reconcile_row job_of row) w in
  ∀ j, swept job_of [row] (n_db w) (n_db w') j.
Proof using.
  intros w' j. unfold w', exec, reconcile_row, swept. case_decide as Hd.
  - destruct Hd as [->%list_elem_of_singleton Ho]. unfold over in Ho.
    destruct (job_of (nu_JobID row)) as [[jb|]|e]; [|done..]. rewrite Ho. intros r Hr. run. rewrite (sd_fault Hs).
    edestruct outcome_recorded as (s2 & -> & Hr2); [exact Hr|]. run. by eexists.
  - assert (j = nu_JobID row → over job_of (nu_JobID row) = false) as Hn.
    { intros ->. apply not_true_is_false. intros Ho. apply Hd. split; [constructor|done]. }
    unfold over in Hn. destruct (job_of (nu_JobID row)) as [[jb|]|e]; [|done..].
    case_bool_decide; [|done]. run. rewrite (sd_fault Hs). unfold UpdateNodeUpdate, u_stmt. apply job_rows_other; [done|].
    intros E. by specialize (Hn E).
Qed.

Lemma sweep_rows (Hs : steady) job_of rows w j :
  swept job_of rows (n_db w) (n_db (exec (for_each (reconcile_row job_of) rows) w)) j.
Proof using.
  revert w. induction rows as [|row rows IH]; intros w.
  { unfold swept. rewrite decide_False; [done|]. intros [?%elem_of_nil _]. done. }
  cbn [for_each]. rewrite exec_bind. set (w1 := exec (reconcile_row job_of row) w).
  pose proof (sweep_one Hs job_of row w j) as H1. specialize (IH w1). fold w1 in H1. revert H1 IH. unfold swept.
  assert (j ∈ nu_JobID <$> row :: rows ↔ j ∈ nu_JobID <$> [row] ∨ j ∈ nu_JobID <$> rows) as Hcons by set_solver.
  destruct (decide (j ∈ nu_JobID <$> [row] ∧ over job_of j = true)) as [[Hj Ho]|Hn]; intros H1 IH.
  - rewrite (decide_True (P := _ ∈ _ <$> _ :: _ ∧ _)) by naive_solver. intros r Hr.
    destruct (H1 r Hr) as (r1 & Hr1 & Hst). case_decide; [by apply (IH r1)|]. exists r1. by rewrite IH.
  - destruct (decide (j ∈ nu_JobID <$> rows ∧ over job_of j = true)) as [[Hin Ho]|Hn'].
    + rewrite decide_True by naive_solver. intros r Hr. apply (IH r). by rewrite H1.
    + rewrite decide_False by naive_solver. by rewrite IH.
Qed.

(** The sweep fails every row still in progress whose job is over, and leaves
    the row of every other job as it was. *)
Lemma stranded_swept (Hs : steady) job_of w j r :
  job_rows (n_db w) j = [r] →
  let w' := exec (ReconcileStrandedRows job_of) w in
  if decide (nu_Status r = NodeUpdateInProgress ∧ over job_of j = true)
  then ∃ r', job_rows (n_db w') j = [r'] ∧ nu_Status r' = NodeUpdateFailed
  else job_rows (n_db w') j = [r].
Proof using.
  intros Hr w'. unfold w', ReconcileStrandedRows. rewrite exec_bind.
  set (rows := merge_sort started_asc (filter (λ u, nu_Status u = NodeUpdateInProgress) (u_updates (n_db w)))).
  assert (eval (udbq ListInProgressNodeUpdates) w = Ok rows) as -> by (unfold eval; run; by rewrite (sd_fault Hs)).
  cbv iota. rewrite exec_bind, exec_ret. set (w1 := exec (udbq _) w). change (job_rows (n_db w1) j = [r]) in Hr.
  pose proof (sweep_rows Hs job_of rows w1 j) as H1. revert H1. unfold swept.
  assert (j ∈ nu_JobID <$> rows ↔ nu_Status r = NodeUpdateInProgress) as Hin.
  { unfold rows. rewrite list_elem_of_fmap. setoid_rewrite (merge_sort_Permutation started_asc).
    assert (r ∈ job_rows (n_db w1) j) as Hrin by (rewrite Hr; constructor).
    split; [|intros Hst; exists r; apply list_elem_of_filter in Hrin as [<- ?]; split; [done|by apply list_elem_of_filter]].
    intros (u & -> & [Hst Hu]%list_elem_of_filter).
    assert (u ∈ job_rows (n_db w1) (nu_JobID u)) as Huin by by apply list_elem_of_filter.
    rewrite Hr in Huin. apply list_elem_of_singleton in Huin. by subst. }
  destruct (decide (nu_Status r = NodeUpdateInProgress ∧ over job_of j = true)) as [[Hst Ho]|Hn].
  - rewrite decide_True by naive_solver. intros H1. exact (H1 r Hr).
  - rewrite decide_False by naive_solver. intros ->. exact Hr.
Qed.

(** An own update whose agent never came back keeps the version confirmed. *)
Lemma self_unreached_confirmed (Hs : steady) cfg spec jobID prior w e r :
  e_agent_back (n_tick w) = Some e → job_rows (n_db w) jobID = [r] →
  let w' := exec (run_resumed cfg spec jobID prior) w in
  eval (run_resumed cfg spec jobID prior) w ≠ None ∧ n_nodes w' = n_nodes w ∧ n_wire w' = n_wire w.
Proof using.
  intros He Hr w'. unfold w', run_resumed, eval, exec, mbind, M_bind.
  assert (reconcileSelfUpdate cfg spec jobID prior w =
    (Some (errors_New ("agent did not reconnect after self-update reboot: " +:+ err_text e)),
     mkNW (n_db w) (n_nodes w) (n_wire w) (n_events w) (S (n_tick w)))) as -> by (unfold reconcileSelfUpdate; run; by rewrite He).
  edestruct (closed_spec jobID Hs (mkNW (n_db w) (n_nodes w) (n_wire w) (n_events w) (S (n_tick w))) r) as (s' & t & r' & -> & _);
    [exact Hr|]. done.
Qed.
End after.

(** ** Two runs whose record is wrong *)

(** The node fails its health check once; the step is declared with one retry,
    and the second attempt finds it well. *)
Definition relapse_env : NodeEnv := demo_env (λ _, None) (λ n, if (n =? 21)%nat then "no" else "yes").
(** The one statement that records the slots of the installed image fails. *)
Definition lost_slots_env : NodeEnv :=
  demo_env (λ n, if (n =? 9)%nat then Some (errors_New "database is locked") else None) (λ _, "yes").

(** A rollback the node accepted can be turned into a commit.  The comment
    on markBadAndRecord says there is no retry, and the step that calls it is
    declared with one: a node that fails its health check and accepts mark-bad
    is published as rolled back and then asked again, and if it answers well —
    on whatever slot and boot it then runs — it is told mark-good, its row
    becomes committed and its job succeeds.  The first attempt has wiped the
    row's target, so the committed row names no slot and no version, and no
    later registration can show that the node fell back. *)
Theorem commit_after_mark_bad :
  eval (demo_run relapse_env) demo_world = None ∧
  existsb accepted_bad (n_wire (exec (demo_run relapse_env) demo_world)) = true ∧
  ce_Change <$> n_events (exec (demo_run relapse_env) demo_world) =
    [UpdateStarted; UpdateDownloaded; UpdateInstalled; UpdateRolledBack; UpdateCommitted] ∧
  ∃ r, row_of (n_db (exec (demo_run relapse_env) demo_world)) "J" = Some r ∧ nu_Status r = NodeUpdateCommitted ∧
    nu_ToSlot r = SlotUnknown ∧ nu_ToVersion r = EmptyString ∧
    ∀ reported, classifyVersion (nu_ToVersion r) reported (nu_BundleSHA256 r) ≠ versionMismatch.
Proof.
  split; [vm_compute; reflexivity|]. split; [vm_compute; reflexivity|]. split; [vm_compute; reflexivity|].
  eexists. split; [vm_compute; reflexivity|]. split_and!; [reflexivity..|]. intros reported [Hm _]%classify_mismatch. by apply Hm.
Qed.

(** One lost write turns a good update into a recorded rollback.  The
    install step ignores the error of the statement that records the target
    slot.  When that statement fails, a node that installs, reboots into the
    new slot on a new boot and reports the new version is recorded and
    published as rolled back by its bootloader, because the slot it should be
    on reads unknown; the same node with that one statement answered is
    committed. *)
Theorem lost_slots_rolled_back :
  (∃ e, eval (demo_run lost_slots_env) demo_world = Some e ∧
     err_text e = "bootloader_rolled_back: came up on slot b, expected unknown") ∧
  (∃ r, row_of (n_db (exec (demo_run lost_slots_env) demo_world)) "J" = Some r ∧ nu_Status r = NodeUpdateRolledBack) ∧
  ce_Change <$> n_events (exec (demo_run lost_slots_env) demo_world) =
    [UpdateStarted; UpdateDownloaded; UpdateInstalled; UpdateRolledBack] ∧
  asked_through (mkUpdateSpec "n1" "abc") ack_before ack_after (n_wire (exec (demo_run lost_slots_env) demo_world)) ∧
  pa_ActiveSlot ack_after = pa_InactiveSlot ack_before ∧
  (∃ r, row_of (n_db (exec (demo_run good_env) demo_world)) "J" = Some r ∧ nu_Status r = NodeUpdateCommitted).
Proof.
  split; [eexists; split; vm_compute; reflexivity|]. split; [eexists; split; vm_compute; reflexivity|].
  split; [vm_compute; reflexivity|]. split; [|split; [reflexivity|eexists; split; vm_compute; reflexivity]].
  eexists _, _, _, _, _, _, _, _, _. split; [vm_compute; reflexivity|]. split_and!; [vm_compute; reflexivity..|].
  intros [_ [=]].
Qed.

(** Without any fault the same statement fails when neither the bundle nor the
    agent names a version: the column may not be null. *)
Lemma slots_null s jobID from to fv r :
  job_rows s jobID = [r] → nu_ToVersion r = EmptyString →
  SetNodeUpdateSlots None s jobID from to fv EmptyString = (s, Some errNotNull).
Proof. intros Hr Hv. unfold SetNodeUpdateSlots, u_stmt. rewrite (existsb_job _ _ _ r Hr), Hv. done. Qed.
