(* ===== verification/SealFragment.v ===== *)
(** * The seal fragment: key ids, shapes, rendering and parsing

    api/internal/secretstore/sealrotate, fragment.go and keyid.go: the text
    file the secret store reads its seal keys from.  It has three shapes and a
    rotation moves between them; [render] writes one and [parseFragment] reads
    it back, refusing everything else.  The facts: what is rendered is parsed
    to the same fragment, and what is parsed is a well-formed fragment whose
    key ids cannot leave the rotation directory. *)
From Stdlib Require Import Ascii String.
From S2P Require Import Prelude GoStrings GoPath.
#[local] Arguments String.append : simpl nomatch.

(** ** keyid.go *)
#[global] Abbreviation KeyID := string (only parsing).

(** One of [[0-9a-f-]]. *)
Definition key_id_char (c : ascii) : bool :=
  in_range 48 57 c || in_range 97 102 c || Ascii.eqb c "-"%char.
(** [^rasputin-[0-9a-f-]{36}$] *)
Definition keyIDRE (s : string) : bool :=
  HasPrefix s "rasputin-" &&
  (let r := drop_str 9 s in Nat.eqb (String.length r) 36 && all_chars key_id_char r).

Definition ParseKeyID (s : string) : result KeyID :=
  if keyIDRE s then Ok s
  else Fail (errors_New ("sealrotate: key id " +:+ quote s +:+ " is not rasputin-<uuid>")).

(** [KernelKeyID(path)()], [read] being what [os.ReadFile(path)] returns. *)
Definition KernelKeyID (read : result string) : result KeyID :=
  match read with
  | Fail e => Fail (wrapf ("sealrotate: read the kernel uuid: " +:+ err_text e) e)
  | Ok b =>
      let uuid := TrimSpace b in
      if String.eqb uuid EmptyString then Fail (errors_New "sealrotate: the kernel uuid is empty")
      else ParseKeyID ("rasputin-" +:+ uuid)
  end.

(** ** files.go: names and paths *)
Definition KeyBytes : nat := 32.
Definition SealKeyName : string := "seal-key".
Definition FragmentName : string := "seal.hcl".
Definition RotationDirName : string := "rotation".
Definition ProductionSealDir : string := "/var/lib/rasputin/openbao-seal".
Definition ProductionCredDir : string := "/run/credentials/openbao.service".
Definition rotationCredPrefix : string := "seal-rotation_".

Record Paths := mkPaths {
  SealDir : string;
  CredDir : string;
  RotationCred : KeyID → string
}.
Definition ProductionPaths : Paths :=
  mkPaths ProductionSealDir ProductionCredDir
    (λ id, filepath_Join [ProductionCredDir; rotationCredPrefix +:+ id]).
Definition sealKeyCred (p : Paths) : string := filepath_Join [CredDir p; SealKeyName].

(** ** fragment.go *)
Inductive Shape := Clean | Staged | Verify.
#[export] Instance Shape_eq_dec : EqDecision Shape.
Proof. solve_decision. Defined.
Definition Shape_String (s : Shape) : string :=
  match s with Clean => "clean" | Staged => "staged" | Verify => "verify" end.

(** [Previous] is empty except in a staged fragment. *)
Record Fragment := mkFragment { f_Shape : Shape; f_Current : KeyID; f_Previous : KeyID }.
#[export] Instance Fragment_eq_dec : EqDecision Fragment.
Proof. solve_decision. Defined.

Definition open_line : string := "seal " +:+ quote "static" +:+ " {".
Definition file_url (path : string) : string := "file://" +:+ path.
(** The lines of a fragment, each ended by a newline. *)
Definition lines_text (l : list string) : string := foldr (λ x r, x +:+ newline +:+ r) EmptyString l.

Definition render (f : Fragment) (p : Paths) : result string :=
  match f_Shape f with
  | Clean => Ok (lines_text [open_line;
      "  current_key_id = " +:+ quote (f_Current f);
      "  current_key    = " +:+ quote (file_url (sealKeyCred p)); "}"])
  | Verify => Ok (lines_text [open_line;
      "  current_key_id = " +:+ quote (f_Current f);
      "  current_key    = " +:+ quote (file_url (RotationCred p (f_Current f))); "}"])
  | Staged =>
      if String.eqb (f_Previous f) EmptyString
      then Fail (errors_New "sealrotate: a staged fragment needs a previous key id")
      else Ok (lines_text [open_line;
        "  current_key_id  = " +:+ quote (f_Current f);
        "  current_key     = " +:+ quote (file_url (RotationCred p (f_Current f)));
        "  previous_key_id = " +:+ quote (f_Previous f);
        "  previous_key    = " +:+ quote (file_url (sealKeyCred p)); "}"])
  end.

(** ** The grammar *)
Definition openRE (line : string) : bool := String.eqb line open_line.

Definition is_blank (c : ascii) : bool := Ascii.eqb c " "%char || Ascii.eqb c (char 9).
Definition is_key_char (c : ascii) : bool := in_range 97 122 c || Ascii.eqb c "_"%char.
Definition dq : ascii := char 34.
(** Neither a double quote nor a backslash. *)
Definition is_value_char (c : ascii) : bool := negb (Ascii.eqb c dq) && negb (Ascii.eqb c (char 92)).

Definition skip_blank (s : string) : string := snd (span is_blank s).

(** Blanks, a key of small letters and underscores, blanks, an equals sign,
    blanks, a quoted value, blanks, the end.  Each class excludes what may
    follow it, so the longest match of each part is the only one. *)
Definition fieldRE (line : string) : option (string * string) :=
  let '(k, s) := span is_key_char (skip_blank line) in
  if String.eqb k EmptyString then None else
  s ← eat "="%char (skip_blank s);
  s ← eat dq (skip_blank s);
  let '(v, s) := span is_value_char s in
  s ← eat dq s;
  if String.eqb (skip_blank s) EmptyString then Some (k, v) else None.

(** [bufio.ScanLines]: a last line without a newline is a line unless it is
    empty, and one carriage return before the newline is dropped. *)
Definition drop_last_empty (l : list string) : list string :=
  match last l with
  | Some EmptyString => take (length l - 1) l
  | _ => l
  end.
Definition scan_lines (b : string) : list string := drop_last_empty (Split (char 10) b).
Definition dropCR (line : string) : string := TrimSuffix line (String (char 13) EmptyString).
(** [bufio.MaxScanTokenSize]: a longer line ends the scan with an error. *)
Definition MaxScanTokenSize : Z := 65536.
Definition ErrTooLong : error := sentinel "bufio.ErrTooLong" "bufio.Scanner: token too long".

Definition err_empty := errors_New "sealrotate: the seal fragment is empty".
Definition err_open := errors_New "sealrotate: the seal fragment does not open with a static seal block".
Definition err_line :=
  errors_New ("sealrotate: the seal fragment has a line that is not key = " +:+ quote "value").
Definition err_unknown (k : string) :=
  errors_New ("sealrotate: the seal fragment sets " +:+ k +:+ ", which a rotation never writes").
Definition err_twice (k : string) := errors_New ("sealrotate: the seal fragment sets " +:+ k +:+ " twice").
Definition err_after := errors_New "sealrotate: the seal fragment has more than one seal block, or text after it".
Definition err_unclosed := errors_New "sealrotate: the seal fragment's block is not closed".
Definition err_scan (e : error) := wrapf ("sealrotate: read the seal fragment: " +:+ err_text e) e.

Definition field_names : list string := ["current_key_id"; "current_key"; "previous_key_id"; "previous_key"].

Inductive block_state := Before | Inside | After.

(** The loop of [parseFields] over the scanner's lines. *)
Fixpoint parse_lines (st : block_state) (fields : gmap string string) (ls : list string) :
    result (gmap string string) :=
  match ls with
  | [] => match st with After => Ok fields | _ => Fail err_unclosed end
  | raw :: ls =>
      if (MaxScanTokenSize <=? Z.of_nat (String.length raw))%Z then Fail (err_scan ErrTooLong) else
      let line := dropCR raw in
      match st with
      | Before => if openRE line then parse_lines Inside fields ls else Fail err_open
      | Inside =>
          if String.eqb line "}" then parse_lines After fields ls else
          match fieldRE line with
          | None => Fail err_line
          | Some (k, v) =>
              if negb (bool_decide (k ∈ field_names)) then Fail (err_unknown k) else
              match fields !! k with
              | Some _ => Fail (err_twice k)
              | None => parse_lines Inside (<[k := v]> fields) ls
              end
          end
      | After => if String.eqb line EmptyString then parse_lines After fields ls else Fail err_after
      end
  end.

Definition parseFields (b : string) : result (gmap string string) :=
  if String.eqb (TrimSpace b) EmptyString then Fail err_empty
  else parse_lines Before ∅ (scan_lines b).

Definition err_no_id := errors_New "sealrotate: the seal fragment has no current_key_id".
Definition err_no_key := errors_New "sealrotate: the seal fragment has no current_key".
Definition err_half :=
  errors_New "sealrotate: the seal fragment has a previous key id without a previous key, or the reverse".
Definition err_same := errors_New "sealrotate: the seal fragment's previous key id is its current one".
Definition err_prev := errors_New "sealrotate: the seal fragment's previous key is not the seal key credential".
Definition err_cred :=
  errors_New "sealrotate: the seal fragment's current key is not a credential this rotation writes".

Definition classify (p : Paths) (fields : gmap string string) : result Fragment :=
  match fields !! "current_key_id" with
  | None => Fail err_no_id
  | Some curID =>
  match ParseKeyID curID with
  | Fail e => Fail e
  | Ok cur =>
  match fields !! "current_key" with
  | None => Fail err_no_key
  | Some curPath =>
  match fields !! "previous_key_id", fields !! "previous_key" with
  | None, None =>
      if String.eqb curPath (file_url (sealKeyCred p)) then Ok (mkFragment Clean cur EmptyString)
      else if String.eqb curPath (file_url (RotationCred p cur)) then Ok (mkFragment Verify cur EmptyString)
      else Fail err_cred
  | Some prevID, Some prevPath =>
      if String.eqb curPath (file_url (RotationCred p cur)) then
        match ParseKeyID prevID with
        | Fail e => Fail e
        | Ok prev =>
            if String.eqb prev cur then Fail err_same
            else if negb (String.eqb prevPath (file_url (sealKeyCred p))) then Fail err_prev
            else Ok (mkFragment Staged cur prev)
        end
      else Fail err_cred
  | _, _ => Fail err_half
  end end end end.

Definition parseFragment (p : Paths) (b : string) : result Fragment :=
  match parseFields b with
  | Fail e => Fail e
  | Ok fields => classify p fields
  end.

(** The id the backup records, read without classifying the key paths. *)
Definition CurrentKeyID (b : string) : result KeyID :=
  match parseFields b with
  | Fail e => Fail e
  | Ok fields =>
      match fields !! "current_key_id" with
      | None => Fail err_no_id
      | Some id => ParseKeyID id
      end
  end.

(** ** Facts *)

(** A string the renderer's quotes enclose as they stand. *)
Definition plain_char (c : ascii) : bool := is_value_char c && negb (Ascii.eqb c (char 10)).
Definition plain (s : string) : Prop := all_chars plain_char s = true.

(** A layout the grammar can write: credential paths without quotes,
    backslashes or newlines and of a sane length, and a rotation credential is
    never the seal key's. *)
Record paths_ok (p : Paths) : Prop := {
  po_seal : plain (sealKeyCred p);
  po_rot : ∀ id, keyIDRE id = true → plain (RotationCred p id);
  po_seal_len : (Z.of_nat (String.length (sealKeyCred p)) < 4096)%Z;
  po_rot_len : ∀ id, keyIDRE id = true → (Z.of_nat (String.length (RotationCred p id)) < 4096)%Z;
  po_ne : ∀ id, keyIDRE id = true → RotationCred p id ≠ sealKeyCred p
}.

(** A fragment a rotation writes. *)
Record frag_ok (f : Fragment) : Prop := {
  fo_cur : keyIDRE (f_Current f) = true;
  fo_prev : match f_Shape f with
            | Staged => keyIDRE (f_Previous f) = true ∧ f_Previous f ≠ f_Current f
            | _ => f_Previous f = EmptyString
            end
}.

Lemma keyIDRE_length id : keyIDRE id = true → String.length id = 45%nat.
Proof.
  unfold keyIDRE. rewrite !andb_true_iff. intros [Hp [Hl _]].
  apply HasPrefix_spec in Hp as [r ->]. apply Nat.eqb_eq in Hl.
  rewrite length_drop_str, length_app_s in Hl. rewrite length_app_s. simpl in *. lia.
Qed.
Lemma keyIDRE_chars id : keyIDRE id = true → all_chars (λ c, key_id_char c || in_range 97 122 c) id = true.
Proof.
  unfold keyIDRE. rewrite !andb_true_iff. intros [Hp [_ Hc]].
  apply HasPrefix_spec in Hp as [r ->]. rewrite all_chars_app, andb_true_iff.
  change (drop_str 9 ("rasputin-" +:+ r)) with r in Hc.
  split; [reflexivity|]. eapply all_chars_impl, Hc. intros c ->. done.
Qed.
Lemma key_char_plain c : key_id_char c || in_range 97 122 c = true → plain_char c = true.
Proof. destruct c as [[] [] [] [] [] [] [] []]; vm_compute; congruence. Qed.
Lemma keyIDRE_plain id : keyIDRE id = true → plain id.
Proof. intros H. eapply all_chars_impl, keyIDRE_chars, H. apply key_char_plain. Qed.
(** A key id names a file of the rotation directory and nothing else. *)
Lemma keyIDRE_proper id : keyIDRE id = true → proper id ∧ id ≠ "..".
Proof.
  intros H. pose proof (keyIDRE_length _ H) as Hl. unfold proper. repeat split; try (intros ->; done).
  unfold without. eapply all_chars_impl, keyIDRE_chars, H.
  intros c. destruct c as [[] [] [] [] [] [] [] []]; vm_compute; congruence.
Qed.

(** A rendered line is read back as its key and value. *)
Lemma fieldRE_line k pad v :
  k ∈ field_names → all_chars is_blank pad = true → plain v →
  fieldRE ("  " +:+ k +:+ " " +:+ pad +:+ "= " +:+ quote v) = Some (k, v).
Proof.
  intros Hk Hp Hv.
  assert (skip : ∀ c r, is_blank c = false → skip_blank (pad +:+ String c r) = String c r).
  { intros c r Hc. unfold skip_blank. by rewrite span_app. }
  assert (Hq : span is_value_char (v +:+ String dq EmptyString) = (v, String dq EmptyString)).
  { apply span_app; [|done]. eapply all_chars_impl, Hv. intros c [? _]%andb_true_iff. done. }
  assert (E : fieldRE ("  " +:+ k +:+ " " +:+ pad +:+ "= " +:+ quote v) =
              (s ← eat "="%char (skip_blank (" " +:+ pad +:+ "= " +:+ quote v));
               s ← eat dq (skip_blank s);
               let '(v, s) := span is_value_char s in
               s ← eat dq s;
               if String.eqb (skip_blank s) EmptyString then Some (k, v) else None)).
  { unfold field_names in Hk. set_unfold in Hk. by destruct Hk as [->|[->|[->|[->|[]]]]]. }
  rewrite E. clear E.
  assert (Es : skip_blank (" " +:+ pad +:+ "= " +:+ quote v) = "= " +:+ quote v).
  { transitivity (skip_blank (pad +:+ "= " +:+ quote v)); [|by apply skip].
    unfold skip_blank. simpl. by destruct (span is_blank _). }
  rewrite Es.
  change (eat "="%char ("= " +:+ quote v)) with (Some (" " +:+ quote v)). cbn [mbind option_bind].
  change (eat dq (skip_blank (" " +:+ quote v))) with (Some (v +:+ String dq EmptyString)). cbn [mbind option_bind].
  by rewrite Hq.
Qed.

Lemma dropCR_quote a v : dropCR (a +:+ quote v) = a +:+ quote v.
Proof.
  unfold dropCR, TrimSuffix, HasSuffix, quote, dquote.
  assert (E : a +:+ String (ascii_of_nat 34) EmptyString +:+ v +:+ String (ascii_of_nat 34) EmptyString =
    (a +:+ String (ascii_of_nat 34) v) +:+ String (ascii_of_nat 34) EmptyString).
  { by rewrite app_assoc_s. }
  rewrite E. set (b := a +:+ _).
  replace (String.length (b +:+ _) - String.length (String (char 13) EmptyString))%nat with (String.length b)
    by (rewrite length_app_s; simpl; lia).
  rewrite drop_str_app. by rewrite andb_false_r.
Qed.

(** The line of one field, with the blanks the renderer aligns with. *)
Definition field_line (k pad v : string) : string := "  " +:+ k +:+ " " +:+ pad +:+ "= " +:+ quote v.

Lemma field_name_short k : k ∈ field_names → (String.length k ≤ 15)%nat.
Proof. unfold field_names. set_unfold. intros H. destruct_or! H; subst; simpl; try lia; done. Qed.

Lemma field_line_length k pad v :
  String.length (field_line k pad v) = (String.length k + String.length pad + String.length v + 7)%nat.
Proof. unfold field_line, quote, dquote. simpl. rewrite !length_app_s. simpl. rewrite !length_app_s. simpl. rewrite length_app_s. simpl. lia. Qed.

Lemma parse_field fs k pad v ls :
  k ∈ field_names → all_chars is_blank pad = true → (String.length pad ≤ 4)%nat →
  plain v → (Z.of_nat (String.length v) < 5000)%Z → fs !! k = None →
  parse_lines Inside fs (field_line k pad v :: ls) = parse_lines Inside (<[k := v]> fs) ls.
Proof.
  intros Hk Hp Hpl Hv Hl Hn. cbn [parse_lines].
  destruct (Z.leb_spec MaxScanTokenSize (Z.of_nat (String.length (field_line k pad v)))) as [H|_].
  { rewrite field_line_length in H. pose proof (field_name_short k Hk). unfold MaxScanTokenSize in H. lia. }
  assert (Hc : dropCR (field_line k pad v) = field_line k pad v).
  { unfold field_line. rewrite <- !app_assoc_s. apply dropCR_quote. }
  rewrite Hc. change (String.eqb (field_line k pad v) "}") with false. cbn [negb].
  unfold field_line at 1. rewrite fieldRE_line by done.
  rewrite bool_decide_true by done. simpl. by rewrite Hn.
Qed.

Lemma Split_lines ls : Forall (λ l, without (char 10) l = true) ls →
  Split (char 10) (lines_text ls) = ls ++ [EmptyString].
Proof.
  induction 1 as [|l ls Hl _ IH]; [done|].
  change (lines_text (l :: ls)) with (l +:+ String (char 10) (lines_text ls)).
  by rewrite Split_app, IH.
Qed.
Lemma scan_lines_text ls : Forall (λ l, without (char 10) l = true) ls → scan_lines (lines_text ls) = ls.
Proof.
  intros H. unfold scan_lines, drop_last_empty. rewrite Split_lines by done.
  rewrite last_snoc, length_app. simpl. rewrite Nat.add_sub. apply take_app_length.
Qed.

Lemma without_app c a b : without c (a +:+ b) = without c a && without c b.
Proof. apply all_chars_app. Qed.
Lemma plain_without v : plain v → without (char 10) v = true.
Proof. intros H. eapply all_chars_impl, H. intros c [_ ?]%andb_true_iff. done. Qed.
Lemma field_line_without k pad v :
  k ∈ field_names → all_chars is_blank pad = true → plain v → without (char 10) (field_line k pad v) = true.
Proof.
  intros Hk Hp Hv. unfold field_line, quote. rewrite !without_app.
  rewrite (plain_without v Hv).
  assert (without (char 10) k = true) as ->.
  { unfold field_names in Hk. set_unfold in Hk. by destruct_or! Hk; subst. }
  assert (without (char 10) pad = true) as ->; [|done].
  eapply all_chars_impl, Hp. intros c. destruct c as [[] [] [] [] [] [] [] []]; vm_compute; congruence.
Qed.

(** A block of field lines is read back as its map. *)
Lemma parse_block (l : list (string * string * string)) fs :
  NoDup (map (λ x, x.1.1) l) →
  Forall (λ '(k, pad, v), k ∈ field_names ∧ all_chars is_blank pad = true ∧ (String.length pad ≤ 4)%nat ∧
    plain v ∧ (Z.of_nat (String.length v) < 5000)%Z ∧ fs !! k = None) l →
  parse_lines Inside fs (map (λ '(k, pad, v), field_line k pad v) l ++ ["}"]) =
  Ok (foldl (λ m '(k, pad, v), <[k := v]> m) fs l).
Proof.
  revert fs. induction l as [|[[k pad] v] l IH]; intros fs Hn Hl; [done|].
  apply Forall_cons in Hl as [(Hk & Hp & Hpl & Hv & Hlen & Hf) Hl]. apply NoDup_cons in Hn as [Hx Hn].
  cbn [map app]. rewrite parse_field by done. rewrite IH; [done|done|].
  apply Forall_forall. intros [[k' pad'] v'] Hin.
  rewrite Forall_forall in Hl. destruct (Hl _ Hin) as (?&?&?&?&?&?). repeat split; try done.
  rewrite lookup_insert_ne; [done|]. intros ->. apply Hx. apply list_elem_of_fmap. by exists (k', pad', v').
Qed.

Lemma parseFields_block l :
  NoDup (map (λ x : string * string * string, x.1.1) l) →
  Forall (λ '(k, pad, v), k ∈ field_names ∧ all_chars is_blank pad = true ∧ (String.length pad ≤ 4)%nat ∧
    plain v ∧ (Z.of_nat (String.length v) < 5000)%Z) l →
  parseFields (lines_text (open_line :: map (λ '(k, pad, v), field_line k pad v) l ++ ["}"])) =
  Ok (foldl (λ m '(k, pad, v), <[k := v]> m) ∅ l).
Proof.
  intros Hn Hl. unfold parseFields.
  assert (Hf : Forall (λ s, without (char 10) s = true) (map (λ '(k, pad, v), field_line k pad v) l ++ ["}"])).
  { apply Forall_app. split; [|by repeat constructor]. apply Forall_map. eapply Forall_impl; [exact Hl|].
    intros [[k pad] v] (?&?&?&?&?). by apply field_line_without. }
  set (body := map _ l ++ _) in *.
  change (String.eqb (TrimSpace (lines_text (open_line :: body))) EmptyString) with false. cbn iota.
  rewrite scan_lines_text by (constructor; done).
  change (parse_lines Before ∅ (open_line :: body)) with (parse_lines Inside ∅ body).
  apply parse_block; [done|]. eapply Forall_impl; [exact Hl|].
  intros [[k pad] v] (?&?&?&?&?). by rewrite lookup_empty.
Qed.

Lemma plain_url v : plain v → plain (file_url v).
Proof. intros H. unfold plain, file_url. rewrite all_chars_app. by rewrite H. Qed.

Lemma render_fields p f : paths_ok p → frag_ok f →
  ∃ l, render f p = Ok (lines_text (open_line :: map (λ '(k, pad, v), field_line k pad v) l ++ ["}"])) ∧
    NoDup (map (λ x : string * string * string, x.1.1) l) ∧
    Forall (λ '(k, pad, v), k ∈ field_names ∧ all_chars is_blank pad = true ∧ (String.length pad ≤ 4)%nat ∧
      plain v ∧ (Z.of_nat (String.length v) < 5000)%Z) l ∧
    classify p (foldl (λ m '(k, pad, v), <[k := v]> m) ∅ l) = Ok f.
Proof.
  intros Hp [Hc Hv]. destruct f as [sh cur prev]. simpl in *.
  pose proof (po_rot p Hp cur Hc) as Hr. pose proof (po_rot_len p Hp cur Hc) as Hrl.
  pose proof (po_seal p Hp) as Hs. pose proof (po_seal_len p Hp) as Hsl.
  pose proof (po_ne p Hp cur Hc) as Hne. pose proof (keyIDRE_plain cur Hc) as Hcp.
  pose proof (keyIDRE_length cur Hc) as Hcl.
  assert (Hu : ∀ s, (Z.of_nat (String.length s) < 4096 → Z.of_nat (String.length (file_url s)) < 5000)%Z).
  { intros s ?. unfold file_url. rewrite length_app_s. simpl. lia. }
  assert (Hurl : String.eqb (file_url (RotationCred p cur)) (file_url (sealKeyCred p)) = false).
  { apply String.eqb_neq. unfold file_url. by intros [= ?]. }
  pose proof (plain_url _ Hr). pose proof (plain_url _ Hs).
  destruct sh; [| |]; subst; unfold render; cbn [f_Shape f_Current f_Previous].
  - exists [("current_key_id", "", cur); ("current_key", "   ", file_url (sealKeyCred p))]. split; [done|].
    split; [apply (bool_decide_unpack _); vm_compute; done|]. split.
    { repeat constructor; simpl; try (by apply bool_decide_unpack; vm_compute); try lia; auto. }
    unfold classify. simpl. simplify_map_eq. unfold ParseKeyID. rewrite Hc. by rewrite String.eqb_refl.
  - destruct Hv as [Hpv Hpn]. pose proof (keyIDRE_plain prev Hpv). pose proof (keyIDRE_length prev Hpv).
    destruct (String.eqb_spec prev EmptyString) as [->|_]; [done|].
    exists [("current_key_id", " ", cur); ("current_key", "    ", file_url (RotationCred p cur));
       ("previous_key_id", "", prev); ("previous_key", "   ", file_url (sealKeyCred p))]. split; [done|].
    split; [apply (bool_decide_unpack _); vm_compute; done|]. split.
    { repeat constructor; simpl; try (by apply bool_decide_unpack; vm_compute); try lia; auto. }
    unfold classify. simpl. simplify_map_eq. unfold ParseKeyID. rewrite Hc, Hpv, String.eqb_refl.
    rewrite (proj2 (String.eqb_neq prev cur)) by done. by rewrite String.eqb_refl.
  - exists [("current_key_id", "", cur); ("current_key", "   ", file_url (RotationCred p cur))]. split; [done|].
    split; [apply (bool_decide_unpack _); vm_compute; done|]. split.
    { repeat constructor; simpl; try (by apply bool_decide_unpack; vm_compute); try lia; auto. }
    unfold classify. simpl. simplify_map_eq. unfold ParseKeyID. rewrite Hc, Hurl. by rewrite String.eqb_refl.
Qed.

(** What is written is read back. *)
Lemma render_parse p f : paths_ok p → frag_ok f → ∃ b, render f p = Ok b ∧ parseFragment p b = Ok f.
Proof.
  intros Hp Hf. destruct (render_fields p f Hp Hf) as (l & Hr & Hn & Hl & Hc).
  eexists. split; [exact Hr|]. unfold parseFragment. by rewrite parseFields_block.
Qed.

Lemma ParseKeyID_Ok s id : ParseKeyID s = Ok id → id = s ∧ keyIDRE s = true.
Proof. unfold ParseKeyID. destruct (keyIDRE s); by intros [= ->]. Qed.

(** What is read is a fragment a rotation could have written. *)
Lemma parse_ok p b f : parseFragment p b = Ok f → frag_ok f.
Proof.
  unfold parseFragment. destruct (parseFields b) as [m|e]; [|done]. unfold classify.
  destruct (m !! "current_key_id") as [c|]; [|done].
  destruct (ParseKeyID c) as [cur|] eqn:Ec; [|done]. apply ParseKeyID_Ok in Ec as [-> Hc].
  destruct (m !! "current_key"); [|done].
  destruct (m !! "previous_key_id") as [pv|], (m !! "previous_key"); try done.
  - destruct (String.eqb _ _); [|done]. destruct (ParseKeyID pv) as [prev|] eqn:Ep; [|done].
    apply ParseKeyID_Ok in Ep as [-> Hpv]. destruct (String.eqb_spec pv c) as [|Hne]; [done|].
    destruct (negb _); [done|]. intros [= <-]. by split.
  - destruct (String.eqb _ _); [|destruct (String.eqb _ _); [|done]]; intros [= <-]; by split.
Qed.

(** The control plane's layout is one the grammar can write. *)
Lemma rotation_cred_name id : keyIDRE id = true →
  RotationCred ProductionPaths id = "/run/credentials/openbao.service/seal-rotation_" +:+ id.
Proof.
  intros H. destruct (keyIDRE_proper id H) as [(Hne & _ & Hs) _].
  set (x := rotationCredPrefix +:+ id).
  assert (Hx : proper x ∧ x ≠ "..").
  { unfold x, proper. split; [|by intros [=]]. split; [by intros [=]|]. split; [by intros [=]|].
    unfold without in *. rewrite all_chars_app. by rewrite Hs. }
  change (RotationCred ProductionPaths id) with (GoPath.Clean (ProductionCredDir +:+ "/" +:+ x)).
  unfold GoPath.Clean, components. rewrite names_join, (names_single x) by apply Hx.
  change (IsAbs (ProductionCredDir +:+ "/" +:+ x)) with true.
  rewrite resolve_app_names by (constructor; [apply Hx|constructor]).
  change (resolve true (names ProductionCredDir)) with ["run"; "credentials"; "openbao.service"].
  reflexivity.
Qed.

Lemma ProductionPaths_ok : paths_ok ProductionPaths.
Proof.
  split; [reflexivity| |vm_compute; done| |].
  - intros id H. rewrite rotation_cred_name by done. unfold plain. rewrite all_chars_app.
    by rewrite (keyIDRE_plain id H).
  - intros id H. rewrite rotation_cred_name by done. rewrite length_app_s, (keyIDRE_length id H). vm_compute. done.
  - intros id H. rewrite rotation_cred_name by done. intros [=].
Qed.
