(* ===== verification/SealFiles.v ===== *)
(** * The seal directory

    api/internal/atrest (atomic file replacement) and sealrotate/files.go: the
    seal key, the fragment and the directory a new key is staged in, on a file
    system whose every call may fail or be the last before a crash.  A call
    that has returned has reached the medium: the source syncs each staged file
    before it renames it and the directory after, so [Sync] may fail or be the
    last call here and is otherwise without effect, and a file written and not
    synced would look no worse.  [World] carries a component [X]
    the files never touch; SealRotate puts the store and the rotator there.
    The facts say what a write, an emptying and [State] do from any directory,
    at every point where they can stop. *)
From Stdlib Require Import Ascii String.
From S2P Require Import Prelude GoStrings GoPath Crash SealFragment.
#[local] Arguments String.append : simpl nomatch.

(** ** The file system *)

(** An entry of a directory; a link carries what opening it reads. *)
Inductive Node := Reg (bytes : string) | Link (target : option string) | SubDir.
#[export] Instance Node_eq_dec : EqDecision Node.
Proof. solve_decision. Defined.

(** The seal directory and its rotation/. *)
Inductive Dir := SealD | RotD.

Record World (X : Type) := mkWorld {
  w_tick : nat;
  w_seal : gmap string Node;
  w_rot : option (gmap string Node);   (* [None]: rotation/ does not exist *)
  w_rest : X
}.
Arguments mkWorld {X} _ _ _ _.
Arguments w_tick {X} _.
Arguments w_seal {X} _.
Arguments w_rot {X} _.
Arguments w_rest {X} _.

Definition w_next {X} (w : World X) : World X := mkWorld (S (w_tick w)) (w_seal w) (w_rot w) (w_rest w).
#[export] Instance world_ticks {X} : Ticking (World X) := { tick := w_tick; next := w_next }.

Definition entries {X} (D : Dir) (w : World X) : option (gmap string Node) :=
  match D with SealD => Some (w_seal w) | RotD => w_rot w end.
Definition set_entries {X} (D : Dir) (m : gmap string Node) (w : World X) : World X :=
  match D with
  | SealD => mkWorld (w_tick w) m (w_rot w) (w_rest w)
  | RotD => mkWorld (w_tick w) (w_seal w) (Some m) (w_rest w)
  end.
Definition set_rest {X} (x : X) (w : World X) : World X := mkWorld (w_tick w) (w_seal w) (w_rot w) x.
Definition entry {X} (D : Dir) (name : string) (w : World X) : option Node :=
  m ← entries D w; m !! name.

Definition no_entry (name : string) : error :=
  mkError ("open " +:+ name +:+ ": no such file or directory") ["fs.ErrNotExist"].
Definition is_dir_error (name : string) : error := errors_New (name +:+ ": is a directory").
Definition exists_error (name : string) : error :=
  mkError ("open " +:+ name +:+ ": file exists") ["fs.ErrExist"].

Section Calls.
Context {X : Type} (F : nat → Fault) (rand : nat → string).
#[local] Abbreviation IO := (Crash.IO (World X)).
#[local] Abbreviation sys := (Crash.sys F).

Definition os_MkdirAll (D : Dir) : IO (result unit) :=
  sys (λ w, (Ok tt, set_entries D (default ∅ (entries D w)) w)).
(** What a read through the name sees. *)
Definition os_ReadFile (D : Dir) (name : string) : IO (result string) :=
  sys (λ w, (match entry D name w with
             | Some (Reg b) | Some (Link (Some b)) => Ok b
             | Some SubDir => Fail (is_dir_error name)
             | _ => Fail (no_entry name)
             end, w)).
Definition os_Lstat (D : Dir) (name : string) : IO (result Node) :=
  sys (λ w, (match entry D name w with Some n => Ok n | None => Fail (no_entry name) end, w)).
(** [os.ReadDir]: the names in order. *)
Definition os_ReadDir (D : Dir) : IO (result (list string)) :=
  sys (λ w, (match entries D w with
             | Some m => Ok (sort_Strings (map fst (map_to_list m)))
             | None => Fail (no_entry RotationDirName)
             end, w)).
(** [os.CreateTemp(dir, prefix + "*.tmp")]: the oracle answers with the last
    random part tried. *)
Definition os_CreateTemp (D : Dir) (prefix : string) : IO (result string) := λ w,
  let name := prefix +:+ rand (w_tick w) +:+ ".tmp" in
  sys (λ w, match entries D w with
            | None => (Fail (no_entry name), w)
            | Some m => match m !! name with
                        | Some _ => (Fail (exists_error name), w)
                        | None => (Ok name, set_entries D (<[name := Reg EmptyString]> m) w)
                        end
            end) w.
(** [f.Write(data)] on a file just created. *)
Definition f_Write (D : Dir) (name data : string) : IO (result unit) :=
  sys_write F (λ s w, match entries D w with
                      | Some m => set_entries D (alter (λ _, Reg s) name m) w
                      | None => w
                      end) data.
Definition os_Open (D : Dir) (name : string) : IO (result unit) :=
  sys (λ w, (match entry D name w with
             | None | Some (Link None) => Fail (no_entry name)
             | _ => Ok tt
             end, w)).
(** A call on an open file or directory that can fail or be the last one, and has
    no other effect on the model: [Chmod], [Sync], [Close], [Open] of a
    directory. *)
Definition f_call : IO (result unit) := sys (λ w, (Ok tt, w)).
Definition os_Rename (D : Dir) (old new : string) : IO (result unit) :=
  sys (λ w, match entries D w with
            | None => (Fail (no_entry old), w)
            | Some m => match m !! old, m !! new with
                        | None, _ => (Fail (no_entry old), w)
                        | _, Some SubDir => (Fail (is_dir_error new), w)
                        | Some n, _ => (Ok tt, set_entries D (<[new := n]> (delete old m)) w)
                        end
            end).
Definition os_Remove (D : Dir) (name : string) : IO (result unit) :=
  sys (λ w, match entries D w with
            | None => (Fail (no_entry name), w)
            | Some m => match m !! name with
                        | None => (Fail (no_entry name), w)
                        | Some _ => (Ok tt, set_entries D (delete name m) w)
                        end
            end).

(** ** atrest *)

(** The [fail] closure of [stage]: close, remove, wrap. *)
Definition stage_fail (D : Dir) (path name : string) (e : error) : IO (result string) :=
  _ <- f_call; _ <- os_Remove D name;
  ret (Fail (wrapf ("atrest: write " +:+ path +:+ ": " +:+ err_text e) e)).

Definition stage (D : Dir) (path data : string) : IO (result string) :=
  r <- os_CreateTemp D ("." +:+ path +:+ ".");
  match r with
  | Fail e => ret (Fail (wrapf ("atrest: temp file for " +:+ path +:+ ": " +:+ err_text e) e))
  | Ok name =>
  r <- f_call;                                    (* Chmod *)
  match r with Fail e => stage_fail D path name e | Ok _ =>
  r <- f_Write D name data;
  match r with Fail e => stage_fail D path name e | Ok _ =>
  r <- f_call;                                    (* Sync *)
  match r with Fail e => stage_fail D path name e | Ok _ =>
  r <- f_call;                                    (* Close *)
  match r with
  | Fail e => _ <- os_Remove D name;
              ret (Fail (wrapf ("atrest: close " +:+ path +:+ ": " +:+ err_text e) e))
  | Ok _ => ret (Ok name)
  end end end end end.

Definition syncDir : IO unit :=
  r <- f_call;                                    (* Open *)
  match r with
  | Fail _ => ret tt
  | Ok _ => _ <- f_call; _ <- f_call; ret tt      (* Sync, Close *)
  end.

Definition replace (D : Dir) (path data : string) : IO (result unit) :=
  r <- stage D path data;
  match r with
  | Fail e => ret (Fail e)
  | Ok tmp =>
      r <- os_Rename D tmp path;
      r <- match r with
           | Fail e => ret (Fail (wrapf ("atrest: rename onto " +:+ path +:+ ": " +:+ err_text e) e))
           | Ok _ => _ <- syncDir; ret (Ok tt)
           end;
      _ <- os_Remove D tmp; ret r
  end.

Definition WriteSecretFile (D : Dir) (path data : string) : IO (result unit) :=
  r <- os_MkdirAll D;
  match r with
  | Fail e => ret (Fail (wrapf ("atrest: mkdir for " +:+ path +:+ ": " +:+ err_text e) e))
  | Ok _ => replace D path data
  end.
End Calls.

(** ** files.go *)
Inductive Resume := Fresh | CleanUp | RewrapFirst | VerifyThenSettle.
#[export] Instance Resume_eq_dec : EqDecision Resume.
Proof. solve_decision. Defined.
Definition Resume_String (r : Resume) : string :=
  match r with
  | Fresh => "fresh" | CleanUp => "clean-up" | RewrapFirst => "re-wrap-first"
  | VerifyThenSettle => "verify-then-settle"
  end.

Record Tree := mkTree { t_Fragment : Fragment; t_Leftovers : list string; t_Resume : Resume }.

Definition NewFiles (p : Paths) (has_cred : bool) : result Paths :=
  if String.eqb (SealDir p) EmptyString then Fail (errors_New "sealrotate: Paths.SealDir is empty")
  else if String.eqb (CredDir p) EmptyString then Fail (errors_New "sealrotate: Paths.CredDir is empty")
  else if negb has_cred then Fail (errors_New "sealrotate: Paths.RotationCred is nil")
  else Ok p.

Section Files.
Context {X : Type} (p : Paths) (F : nat → Fault) (rand : nat → string).
#[local] Abbreviation IO := (Crash.IO (World X)).

Definition checkKey (D : Dir) (path : string) : IO (result unit) :=
  r <- os_Lstat F D path;
  ret match r with
      | Fail e => Fail (wrapf ("sealrotate: seal key " +:+ path +:+ ": " +:+ err_text e) e)
      | Ok (Reg b) =>
          if Nat.eqb (String.length b) KeyBytes then Ok tt
          else Fail (errors_New ("sealrotate: seal key " +:+ path +:+ " is " +:+ pretty (String.length b) +:+
                                 " bytes, not " +:+ pretty KeyBytes))
      | Ok _ => Fail (errors_New ("sealrotate: seal key " +:+ path +:+ " is not a regular file"))
      end.

Definition rotationNames : IO (result (list string)) :=
  r <- os_ReadDir F RotD;
  ret match r with
      | Fail e => Fail (wrapf ("sealrotate: list " +:+ RotationDirName +:+ ": " +:+ err_text e) e)
      | Ok es => Ok (sort_Strings es)
      end.

Definition err_entries (frag : Fragment) (names : list string) : error :=
  errors_New ("sealrotate: the " +:+ Shape_String (f_Shape frag) +:+ " fragment names rotation/" +:+
    f_Current frag +:+ ", and rotation/ holds " +:+ pretty (length names) +:+ " entries").

Definition State : IO (result Tree) :=
  r <- os_ReadFile F SealD FragmentName;
  match r with
  | Fail e => ret (Fail (wrapf ("sealrotate: read the seal fragment: " +:+ err_text e) e))
  | Ok b =>
  match parseFragment p b with
  | Fail e => ret (Fail e)
  | Ok frag =>
  _ <-? checkKey SealD SealKeyName;
  names <-? rotationNames;
  match f_Shape frag with
  | Clean => ret (Ok (mkTree frag names (if bool_decide (names = []) then Fresh else CleanUp)))
  | sh =>
      if bool_decide (names = [f_Current frag]) then
        _ <-? checkKey RotD (f_Current frag);
        ret (Ok (mkTree frag [] match sh with Staged => RewrapFirst | _ => VerifyThenSettle end))
      else ret (Fail (err_entries frag names))
  end end end.

Definition writeKey (D : Dir) (path key : string) : IO (result unit) :=
  if Nat.eqb (String.length key) KeyBytes then WriteSecretFile F rand D path key
  else ret (Fail (errors_New ("sealrotate: a seal key is " +:+ pretty (String.length key) +:+ " bytes, not " +:+
                              pretty KeyBytes))).
Definition WriteRotationKey (id : KeyID) (key : string) : IO (result unit) := writeKey RotD id key.
Definition WriteSealKey (key : string) : IO (result unit) := writeKey SealD SealKeyName key.

(** [io.ReadFull] of one byte more than a key, then the length cases. *)
Definition readKey (D : Dir) (path : string) : IO (result string) :=
  r <- os_Open F D path;
  match r with
  | Fail e => ret (Fail (wrapf ("sealrotate: open " +:+ path +:+ ": " +:+ err_text e) e))
  | Ok _ =>
  r <- os_ReadFile F D path;
  _ <- f_call F;                                  (* Close *)
  ret match r with
      | Fail e => Fail (wrapf ("sealrotate: read " +:+ path +:+ ": " +:+ err_text e) e)
      | Ok b =>
          if Nat.eqb (String.length b) KeyBytes then Ok b
          else if Nat.ltb KeyBytes (String.length b)
          then Fail (errors_New ("sealrotate: " +:+ path +:+ " holds more than " +:+ pretty KeyBytes +:+ " bytes"))
          else Fail (errors_New ("sealrotate: read " +:+ path +:+ ": " +:+ pretty (String.length b) +:+ " of " +:+
                                 pretty KeyBytes +:+ " bytes"))
      end
  end.
Definition ReadRotationKey (id : KeyID) : IO (result string) := readKey RotD id.

Definition WriteFragment (frag : Fragment) : IO (result unit) :=
  match render frag p with
  | Fail e => ret (Fail e)
  | Ok b => WriteSecretFile F rand SealD FragmentName b
  end.

(** The loop of [RemoveRotation]: every entry is tried. *)
Fixpoint remove_all (names : list string) (errs : option error) : IO (option error) :=
  match names with
  | [] => ret errs
  | n :: names =>
      r <- os_Remove F RotD n;
      remove_all names
        match r with
        | Ok _ => errs
        | Fail e => if errors_Is e "fs.ErrNotExist" then errs
                    else Some match errs with None => e | Some e0 => errors_Join e0 e end
        end
  end.
Definition RemoveRotation : IO (result unit) :=
  names <-? rotationNames;
  errs <- remove_all names None;
  ret match errs with
      | None => Ok tt
      | Some e => Fail (wrapf ("sealrotate: empty " +:+ RotationDirName +:+ ": " +:+ err_text e) e)
      end.
End Files.

(** ** Facts *)

(** Names [os.CreateTemp] makes, and no other file of the directory has. *)
Definition hidden (n : string) : Prop := HasPrefix n "." = true.
(** The same directory up to temporary files a crash left. *)
Definition upto (m m' : gmap string Node) : Prop := ∀ n, ¬ hidden n → m' !! n = m !! n.
#[export] Instance upto_pre : PreOrder upto.
Proof. split; [by intros m n|]. intros a b c H1 H2 n Hn. by rewrite H2, H1. Qed.

Section FileFacts.
Context {X : Type} (F : nat → Fault) (rand : nat → string) (HF : honest F).
#[local] Abbreviation IO := (Crash.IO (World X)).
Implicit Types w : World X.

(** [D] holds [m]; everything else is as in [w0]. *)
Definition at_dir (D : Dir) (m : gmap string Node) w0 w : Prop :=
  entries D w = Some m ∧ w_rest w = w_rest w0 ∧
  match D with SealD => w_rot w = w_rot w0 | RotD => w_seal w = w_seal w0 end.
(** The same with temporary files about. *)
Definition near_dir (D : Dir) (m : gmap string Node) w0 w : Prop := ∃ m', upto m m' ∧ at_dir D m' w0 w.

#[local] Instance at_timeless D m w0 : Timeless (at_dir D m w0).
Proof. by intros w. Qed.
#[local] Instance near_timeless D m w0 : Timeless (near_dir D m w0).
Proof. by intros w. Qed.

Lemma at_set D m m' w0 w : at_dir D m w0 w → at_dir D m' w0 (set_entries D m' w).
Proof. intros (?&?&?). by destruct D. Qed.
Lemma at_near D m w0 w : at_dir D m w0 w → near_dir D m w0 w.
Proof. intros H. by exists m. Qed.

Lemma f_call_keeps I `{!Timeless I} : keeps I (f_call (X := X) F).
Proof using. by apply keeps_sys. Qed.

Lemma remove_hidden D m w0 n : hidden n → keeps (near_dir D m w0) (os_Remove (X := X) F D n).
Proof using.
  intros Hn. apply keeps_sys; [apply _|]. intros w (m' & Hm & Hw). pose proof Hw as (He & _). rewrite He.
  destruct (m' !! n); simpl; [|by exists m'].
  exists (delete n m'). split; [|by eapply at_set]. intros k Hk.
  rewrite lookup_delete_ne by (intros E; by rewrite E in Hn). by apply Hm.
Qed.

Lemma hidden_temp path r : hidden (("." +:+ path +:+ ".") +:+ r).
Proof. done. Qed.

Lemma stage_fail_spec D path name e m w0 : hidden name →
  ensures (near_dir D m w0) (stage_fail (X := X) F D path name e)
    (λ r w, near_dir D m w0 w ∧ ∃ e', r = Fail e') (near_dir D m w0).
Proof using.
  intros Hn. eapply ensures_seq; [apply (f_call_keeps (near_dir D m w0))|].
  eapply ensures_seq; [by apply remove_hidden|]. intros w Hw. simpl. eauto.
Qed.

(** One more call on the temporary file: it is still there, or the write failed. *)
Lemma stage_next D path name m m0 w0 (call : IO (result unit)) (f : unit → IO (result string)) m' Q :
  hidden name → upto m0 m → (∀ w, at_dir D m' w0 w → near_dir D m0 w0 w) →
  ensures (at_dir D m w0) call
    (λ r w, match r with Ok _ => at_dir D m' w0 w | Fail _ => near_dir D m0 w0 w end) (near_dir D m0 w0) →
  (∀ w e, near_dir D m0 w0 w → Q (Fail e) w) →
  ensures (at_dir D m' w0) (f tt) Q (near_dir D m0 w0) →
  ensures (at_dir D m w0)
    (r <- call; match r with Fail e => stage_fail F D path name e | Ok u => f tt end) Q (near_dir D m0 w0).
Proof using.
  intros Hn Hu Hm' Hc HQ Hf. eapply ensures_bind; [exact Hc|]. intros [[]|e]; [exact Hf|].
  eapply ensures_conseq; [by apply stage_fail_spec|done| |done].
  intros r w [Hw [e' ->]]. by apply HQ.
Qed.

Lemma upto_insert m n x : hidden n → upto m (<[n := x]> m).
Proof. intros Hn k Hk. rewrite lookup_insert_ne; [done|]. intros E. by rewrite E in Hn. Qed.

Lemma call_at D m m0 w0 : upto m0 m →
  ensures (at_dir D m w0) (f_call (X := X) F)
    (λ r w, match r with Ok _ => at_dir D m w0 w | Fail _ => near_dir D m0 w0 w end) (near_dir D m0 w0).
Proof using.
  intros Hu. apply sys_ensures; [done| |]; intros; exists m; done.
Qed.

Lemma write_at_temp D m w0 name data : hidden name →
  ensures (at_dir D (<[name := Reg EmptyString]> m) w0) (f_Write (X := X) F D name data)
    (λ r w, match r with Ok _ => at_dir D (<[name := Reg data]> m) w0 w | Fail _ => near_dir D m w0 w end)
    (near_dir D m w0).
Proof using HF.
  intros Hn. assert (Hput : ∀ s w, at_dir D (<[name := Reg EmptyString]> m) w0 w →
    at_dir D (<[name := Reg s]> m) w0 match entries D (w_next w) with
      | Some m => set_entries D (alter (λ _, Reg s) name m) (w_next w) | None => w_next w end).
  { intros s w Hw. pose proof Hw as (He & _). change (entries D (w_next w)) with (entries D w). rewrite He.
    rewrite alter_insert_eq. by eapply at_set. }
  apply sys_write_ensures.
  - intros w Hw. by apply (Hput data).
  - intros w n e Hw. exists (<[name := Reg (take_str n data)]> m). split; [by apply upto_insert|by apply Hput].
  - intros w n Hw. exists (<[name := Reg (take_str n data)]> m). split; [by apply upto_insert|by apply Hput].
  - intros w s HC. by apply HF in HC.
Qed.

Lemma create_temp_spec D path m w0 :
  ensures (at_dir D m w0) (os_CreateTemp F rand D ("." +:+ path +:+ "."))
    (λ r w, match r with
            | Ok n => hidden n ∧ m !! n = None ∧ at_dir D (<[n := Reg EmptyString]> m) w0 w
            | Fail _ => at_dir D m w0 w
            end) (near_dir D m w0).
Proof using.
  intros w Hw. unfold os_CreateTemp, Crash.sys. set (n := _ +:+ rand _ +:+ _).
  assert (Hn : hidden n) by done. destruct (F (tick w)) as [|? ?|?|?]; simpl.
  2: { done. } 2: { by exists m. }
  all: pose proof Hw as (He & _); change (entries D (w_next w)) with (entries D w); rewrite He;
    destruct (m !! n) eqn:E; [done|]; split; [done|]; split; [done|]; by eapply at_set.
Qed.

Lemma secret_stage_spec D path data m w0 :
  ensures (at_dir D m w0) (stage F rand D path data)
    (λ r w, match r with
            | Ok n => hidden n ∧ m !! n = None ∧ at_dir D (<[n := Reg data]> m) w0 w
            | Fail _ => near_dir D m w0 w
            end) (near_dir D m w0).
Proof using HF.
  unfold stage. eapply ensures_bind; [apply create_temp_spec|].
  intros [n|e]; [|by intros w Hw; apply at_near].
  apply ensures_assume; intros Hn. apply ensures_assume; intros Hm.
  assert (Hne : ∀ s w, at_dir D (<[n := Reg s]> m) w0 w → near_dir D m w0 w).
  { intros s w Hw. exists (<[n:=Reg s]> m). split; [by apply upto_insert|done]. }
  pose proof (λ s, upto_insert m n (Reg s) Hn) as Hu.
  apply (stage_next D path n _ m w0 _ (λ _, _) (<[n:=Reg EmptyString]> m)); eauto using call_at.
  apply (stage_next D path n _ m w0 _ (λ _, _) (<[n:=Reg data]> m)); eauto using write_at_temp.
  apply (stage_next D path n _ m w0 _ (λ _, _) (<[n:=Reg data]> m)); eauto using call_at.
  eapply ensures_bind; [by apply (call_at D _ m)|]. intros [[]|e]; [by intros w Hw|].
  eapply ensures_seq; [by apply remove_hidden|]. by intros w Hw.
Qed.

Lemma secret_syncDir_keeps I `{!Timeless I} : keeps I (syncDir (X := X) F).
Proof using.
  unfold syncDir. apply keeps_bind; [by apply f_call_keeps|]. intros [[]|e]; [|apply keeps_ret].
  apply keeps_bind; [by apply f_call_keeps|intros _]. apply keeps_bind; [by apply f_call_keeps|intros _].
  apply keeps_ret.
Qed.

(** The temporary name is gone after the rename. *)
Lemma remove_gone D m w0 n : m !! n = None → keeps (at_dir D m w0) (os_Remove (X := X) F D n).
Proof using.
  intros Hn. apply keeps_sys; [apply _|]. intros w Hw. pose proof Hw as (He & _). by rewrite He, Hn.
Qed.

(** A replacement is all or nothing, wherever it stops. *)
Lemma replace_spec D path data m w0 : ¬ hidden path →
  ensures (at_dir D m w0) (replace F rand D path data)
    (λ r w, match r with
            | Ok _ => at_dir D (<[path := Reg data]> m) w0 w
            | Fail _ => near_dir D m w0 w
            end) (λ w, near_dir D m w0 w ∨ at_dir D (<[path := Reg data]> m) w0 w).
Proof using HF.
  intros Hp. unfold replace.
  eapply ensures_bind; [eapply ensures_conseq; [apply secret_stage_spec|done..|]; by left|].
  intros [n|e]; [|by intros w Hw]. apply ensures_assume; intros Hn. apply ensures_assume; intros Hm.
  assert (Hnp : path ≠ n) by (intros E; by rewrite E in Hp).
  apply (ensures_bind (at_dir D (<[n:=Reg data]> m) w0) _ _
    (λ r w, match r with Ok _ => at_dir D (<[path := Reg data]> m) w0 w | Fail _ => near_dir D m w0 w end)).
  { assert (Hne : ∀ w, at_dir D (<[n := Reg data]> m) w0 w → near_dir D m w0 w).
    { intros w Hw. exists (<[n:=Reg data]> m). split; [by apply upto_insert|done]. }
    apply sys_ensures; [|by intros w e Hw; apply Hne|by intros w Hw; left; apply Hne].
    intros w Hw. pose proof Hw as (He & _). simpl. change (entries D (w_next w)) with (entries D w).
    rewrite He, lookup_insert_eq, (lookup_insert_ne _ n path) by done.
    rewrite delete_insert_id by done.
    destruct (m !! path) as [[]|]; try (by apply Hne); by eapply at_set. }
  intros [[]|e].
  - apply (ensures_bind _ _ _ (λ r w, r = Ok tt ∧ at_dir D (<[path := Reg data]> m) w0 w)).
    { eapply ensures_seq; [eapply ensures_conseq; [by apply (secret_syncDir_keeps (at_dir D (<[path := Reg data]> m) w0))|done..|]|].
      { intros w Hw. by right. } by intros w Hw. }
    intros r. eapply ensures_seq with (R := λ w, r = Ok tt ∧ at_dir D (<[path := Reg data]> m) w0 w).
    2: { intros w [-> Hw]. done. }
    intros w [-> Hw]. pose proof (remove_gone D (<[path := Reg data]> m) w0 n) as Hk.
    specialize (Hk ltac:(by rewrite lookup_insert_ne) w Hw). destruct (os_Remove F D n w) as [[]?]; [done|by right].
  - apply (ensures_bind _ _ _ (λ r w, (∃ e, r = Fail e) ∧ near_dir D m w0 w)); [intros w Hw; simpl; eauto|].
    intros r. eapply ensures_seq with (R := λ w, (∃ e, r = Fail e) ∧ near_dir D m w0 w).
    2: { intros w [[? ->] Hw]. done. }
    intros w [Hr Hw]. pose proof (remove_hidden D m w0 n Hn w Hw) as Hk.
    destruct (os_Remove F D n w) as [[]?]; [done|by left].
Qed.
End FileFacts.

(** ** The directory as a rotation sees it

    The seal key, the fragment and rotation/; temporary files of the seal
    directory are not looked at. *)
Section ViewFacts.
Context {X : Type} (p : Paths) (F : nat → Fault) (rand : nat → string) (HF : honest F).
#[local] Abbreviation IO := (Crash.IO (World X)).
Implicit Types w : World X.

Definition sees (k f : option Node) (r : option (gmap string Node)) (x : X) w : Prop :=
  w_seal w !! SealKeyName = k ∧ w_seal w !! FragmentName = f ∧ w_rot w = r ∧ w_rest w = x.
#[export] Instance sees_timeless k f r x : Timeless (sees k f r x).
Proof. by intros w. Qed.

Lemma not_hidden_names : ¬ hidden SealKeyName ∧ ¬ hidden FragmentName.
Proof. done. Qed.
Lemma key_id_not_hidden id : keyIDRE id = true → ¬ hidden id.
Proof.
  unfold keyIDRE, hidden. rewrite andb_true_iff. intros [[r ->]%HasPrefix_spec _]. done.
Qed.

Lemma sees_seal k f r x w m w0 :
  sees k f r x w0 → upto (w_seal w0) m → at_dir SealD m w0 w → sees k f r x w.
Proof.
  intros (Hk & Hf & Hr & Hx) Hu (He & Hrest & Hrot). simpl in *. injection He as <-.
  destruct not_hidden_names as [H1 H2].
  by repeat split; [rewrite (Hu _ H1)|rewrite (Hu _ H2)|rewrite Hrot|rewrite Hrest].
Qed.

(** One file of the seal directory replaced. *)
Lemma write_seal_file name data k f r x (Q : World X → Prop) :
  name = SealKeyName ∨ name = FragmentName →
  (∀ w, sees (if String.eqb name SealKeyName then Some (Reg data) else k)
             (if String.eqb name SealKeyName then f else Some (Reg data)) r x w → Q w) →
  ensures (sees k f r x) (WriteSecretFile F rand SealD name data)
    (λ res w, match res with Ok _ => Q w | Fail _ => sees k f r x w end)
    (λ w, sees k f r x w ∨ Q w).
Proof using HF.
  intros Hname HQ w0 Hw0.
  assert (Hh : ¬ hidden name) by (by destruct Hname as [-> | ->]).
  assert (Hnear : ∀ w, near_dir SealD (w_seal w0) w0 w → sees k f r x w).
  { intros w (m & Hu & Hw). by eapply sees_seal. }
  assert (Hnew : ∀ w, at_dir SealD (<[name := Reg data]> (w_seal w0)) w0 w → Q w).
  { intros w (He & Hrest & Hrot). simpl in *. injection He as He. destruct Hw0 as (Hk & Hf & Hr & Hx).
    apply HQ. unfold sees. rewrite He, Hrest, Hrot.
    destruct Hname as [-> | ->]; simpl; (split; [|split; [|done]]); try apply lookup_insert_eq;
      by rewrite lookup_insert_ne. }
  assert (H : ensures (at_dir SealD (w_seal w0) w0) (WriteSecretFile F rand SealD name data)
    (λ res w, match res with Ok _ => Q w | Fail _ => sees k f r x w end) (λ w, sees k f r x w ∨ Q w)).
  { apply (ensures_bind _ _ _ (λ _, at_dir SealD (w_seal w0) w0)).
    { apply sys_ensures; [|done|].
      - intros w (He & ? & ?). simpl in *. by injection He as ->.
      - intros w Hw. left. by apply Hnear, at_near. }
    intros [[]|e]; [|by intros w Hw; apply Hnear, at_near].
    eapply ensures_conseq; [by apply (replace_spec F rand HF)|done| |].
    - intros [[]|e] w; auto.
    - intros w [Hw|Hw]; auto. }
  by apply H.
Qed.

Lemma write_key_spec data k f r x :
  ensures (sees k f r x) (WriteSealKey F rand data)
    (λ res w, match res with Ok _ => String.length data = KeyBytes ∧ sees (Some (Reg data)) f r x w
                           | Fail _ => sees k f r x w end)
    (λ w, sees k f r x w ∨ String.length data = KeyBytes ∧ sees (Some (Reg data)) f r x w).
Proof using HF.
  unfold WriteSealKey, writeKey. destruct (Nat.eqb_spec (String.length data) KeyBytes) as [Hl|_]; [|by intros w Hw].
  apply write_seal_file; [by left|]. simpl. auto.
Qed.

Lemma write_fragment_spec frag b k f r x : render frag p = Ok b →
  ensures (sees k f r x) (WriteFragment p F rand frag)
    (λ res w, match res with Ok _ => sees k (Some (Reg b)) r x w | Fail _ => sees k f r x w end)
    (λ w, sees k f r x w ∨ sees k (Some (Reg b)) r x w).
Proof using HF. intros Hb. unfold WriteFragment. rewrite Hb. apply write_seal_file; [by right|done]. Qed.

Lemma write_rotation_spec id data k f m x : keyIDRE id = true →
  ensures (sees k f (Some m) x) (WriteRotationKey F rand id data)
    (λ res w, match res with
              | Ok _ => String.length data = KeyBytes ∧ sees k f (Some (<[id := Reg data]> m)) x w
              | Fail _ => ∃ m', sees k f (Some m') x w
              end)
    (λ w, ∃ m', sees k f (Some m') x w).
Proof using HF.
  intros Hid. unfold WriteRotationKey, writeKey.
  destruct (Nat.eqb_spec (String.length data) KeyBytes) as [Hl|_]; [|by intros w Hw; exists m].
  intros w0 Hw0.
  assert (Hat : ∀ m' w, at_dir RotD m' w0 w → sees k f (Some m') x w).
  { intros m' w (He & Hrest & Hs). destruct Hw0 as (?&?&?&?). simpl in *. unfold sees. by rewrite Hs, Hrest, He. }
  assert (Hnear : ∀ w, near_dir RotD m w0 w → ∃ m', sees k f (Some m') x w).
  { intros w (m' & _ & Hw). exists m'. by apply Hat. }
  assert (H : ensures (at_dir RotD m w0) (WriteSecretFile F rand RotD id data)
    (λ res w, match res with
              | Ok _ => String.length data = KeyBytes ∧ sees k f (Some (<[id := Reg data]> m)) x w
              | Fail _ => ∃ m', sees k f (Some m') x w
              end) (λ w, ∃ m', sees k f (Some m') x w)).
  { apply (ensures_bind _ _ _ (λ _, at_dir RotD m w0)).
    { apply sys_ensures; [|done|].
      - intros w (He & ? & ?). simpl in *. by rewrite He.
      - intros w Hw. by apply Hnear, at_near. }
    intros [[]|e]; [|by intros w Hw; apply Hnear, at_near].
    eapply ensures_conseq; [by apply (replace_spec F rand HF), key_id_not_hidden|done| |].
    - intros [[]|e] w Hw; auto.
    - intros w [Hw|Hw]; eauto. }
  apply H. destruct Hw0 as (?&?&?&?). done.
Qed.
End ViewFacts.

(** ** What [State] reads *)
Definition read_node (n : option Node) : option string :=
  match n with Some (Reg b) | Some (Link (Some b)) => Some b | _ => None end.
Definition is_key (n : option Node) : bool :=
  match n with Some (Reg b) => Nat.eqb (String.length b) KeyBytes | _ => false end.
Definition names_of (m : gmap string Node) : list string := sort_Strings (sort_Strings (map fst (map_to_list m))).

Definition tree_of (p : Paths) (k f : option Node) (r : option (gmap string Node)) : option Tree :=
  b ← read_node f;
  match parseFragment p b, r with
  | Ok frag, Some m =>
      if is_key k then
        match f_Shape frag with
        | Clean => Some (mkTree frag (names_of m) (if bool_decide (names_of m = []) then Fresh else CleanUp))
        | sh =>
            if bool_decide (names_of m = [f_Current frag]) && is_key (m !! f_Current frag)
            then Some (mkTree frag [] match sh with Staged => RewrapFirst | _ => VerifyThenSettle end)
            else None
        end
      else None
  | _, _ => None
  end.

Lemma names_of_perm m : names_of m ≡ₚ map fst (map_to_list m).
Proof. unfold names_of. by rewrite !sort_Strings_perm. Qed.
Lemma names_of_nil m : names_of m = [] ↔ m = ∅.
Proof.
  split; [|by intros ->].
  intros H. pose proof (names_of_perm m) as Hp. rewrite H in Hp. apply Permutation_nil in Hp.
  apply map_eq_nil in Hp. by apply map_to_list_empty_iff.
Qed.
Lemma names_of_one m c : names_of m = [c] ↔ ∃ n, m = {[ c := n ]}.
Proof.
  split.
  - intros H. pose proof (names_of_perm m) as Hp. rewrite H in Hp. symmetry in Hp. apply Permutation_singleton_r in Hp.
    destruct (map_to_list m) as [|[c' n] [|]] eqn:E; try done. simpl in Hp. injection Hp as ->.
    exists n. apply map_to_list_inj. by rewrite E, map_to_list_singleton.
  - intros [n ->]. unfold names_of. by rewrite map_to_list_singleton.
Qed.

Section StateFacts.
Context {X : Type} (p : Paths) (F : nat → Fault).
Implicit Types w : World X.

Lemma read_spec D name k f r x (n : option Node) :
  (∀ w, sees k f r x w → entry D name w = n) →
  ensures (sees k f r x) (os_ReadFile F D name)
    (λ res w, sees k f r x w ∧ ∀ b, res = Ok b → read_node n = Some b) (sees k f r x).
Proof.
  intros Hn. apply sys_ensures; [|by intros w e Hw|by intros w Hw].
  intros w Hw. simpl. change (entry D name (w_next w)) with (entry D name w). rewrite (Hn w Hw).
  split; [done|]. intros b. by destruct n as [[b'|[b'|]|]|]; intros [= ->].
Qed.

Lemma checkKey_spec D name k f r x (n : option Node) :
  (∀ w, sees k f r x w → entry D name w = n) →
  ensures (sees k f r x) (checkKey F D name)
    (λ res w, sees k f r x w ∧ (res = Ok tt → is_key n = true)) (sees k f r x).
Proof.
  intros Hn. apply (ensures_bind _ _ _ (λ res w, sees k f r x w ∧ ∀ m, res = Ok m → n = Some m)).
  - apply sys_ensures; [|by intros w e Hw|by intros w Hw].
    intros w Hw. simpl. change (entry D name (w_next w)) with (entry D name w). rewrite (Hn w Hw).
    split; [done|]. intros m. by destruct n; intros [= ->].
  - intros res w [Hw Hm]. simpl. split; [done|]. destruct res as [m|e]; [|done].
    rewrite (Hm m eq_refl). destruct m; try done. simpl. by destruct (Nat.eqb _ _).
Qed.

Lemma rotationNames_spec k f r x :
  ensures (sees k f r x) (rotationNames F)
    (λ res w, sees k f r x w ∧ ∀ l, res = Ok l → ∃ m, r = Some m ∧ l = names_of m) (sees k f r x).
Proof.
  apply (ensures_bind _ _ _ (λ res w, sees k f r x w ∧ ∀ l, res = Ok l → ∃ m, r = Some m ∧ sort_Strings l = names_of m)).
  - apply sys_ensures; [|by intros w e Hw|by intros w Hw]. intros w Hw. pose proof Hw as (_ & _ & Hr & _).
    simpl. rewrite Hr. split; [done|]. intros l. destruct r as [m|]; [|done]. intros [= <-]. by exists m.
  - intros res w [Hw Hl]. simpl. split; [done|]. destruct res as [l|e]; [|done].
    intros l' [= <-]. by apply Hl.
Qed.

(** [State] says what is there or nothing, and changes nothing. *)
Lemma State_spec k f r x :
  ensures (sees k f r x) (State p F)
    (λ res w, sees k f r x w ∧ ∀ t, res = Ok t → tree_of p k f r = Some t) (sees k f r x).
Proof.
  unfold State. eapply ensures_bind; [apply (read_spec _ _ _ _ _ _ f)|]; [by intros w (?&?&?&?)|].
  intros [b|e]; [|by intros w [Hw _]]. unfold tree_of.
  intros w [Hw Hb]. rewrite (Hb b eq_refl). clear Hb. revert w Hw. simpl.
  destruct (parseFragment p b) as [frag|e]; [|by intros w Hw].
  apply (ensures_bindR _ _ _ (λ res w, sees k f r x w ∧ (res = Ok tt → is_key k = true)));
    [apply checkKey_spec; by intros w (?&?&?&?)| |by intros e w [Hw _]].
  intros []. intros w [Hw Hk]. rewrite (Hk eq_refl). clear Hk. revert w Hw.
  apply (ensures_bindR _ _ _ (λ res w, sees k f r x w ∧ ∀ l, res = Ok l → ∃ m, r = Some m ∧ l = names_of m));
    [apply rotationNames_spec| |by intros e w [Hw _]].
  intros l. intros w [Hw Hl]. destruct (Hl l eq_refl) as (m & -> & ->). clear Hl. revert w Hw.
  assert (Hrot : ensures (sees k f (Some m) x)
    (if bool_decide (names_of m = [f_Current frag]) then
       _ <-? checkKey F RotD (f_Current frag);
       ret (Ok (mkTree frag [] match f_Shape frag with Staged => RewrapFirst | _ => VerifyThenSettle end))
     else ret (Fail (err_entries frag (names_of m))))
    (λ res w, sees k f (Some m) x w ∧ ∀ t, res = Ok t →
      (if bool_decide (names_of m = [f_Current frag]) && is_key (m !! f_Current frag) then
        Some (mkTree frag [] match f_Shape frag with Staged => RewrapFirst | _ => VerifyThenSettle end)
       else None) = Some t) (sees k f (Some m) x)).
  { case_bool_decide; [|by intros w Hw].
    apply (ensures_bindR _ _ _ (λ res w, sees k f (Some m) x w ∧ (res = Ok tt → is_key (m !! f_Current frag) = true)));
      [|intros []|by intros e w [Hw _]].
    - apply checkKey_spec. intros w (_&_&Hr&_). unfold entry. simpl. by rewrite Hr.
    - intros w [Hw Hk]. simpl. rewrite (Hk eq_refl). split; [done|]. by intros t [= <-]. }
  destruct (f_Shape frag); [|exact Hrot|exact Hrot]. intros w Hw. split; [done|]. by intros t [= <-].
Qed.

Lemma read_rotation_spec id k f m x :
  ensures (sees k f (Some m) x) (ReadRotationKey F id)
    (λ res w, sees k f (Some m) x w ∧ ∀ b, res = Ok b → read_node (m !! id) = Some b ∧ String.length b = KeyBytes)
    (sees k f (Some m) x).
Proof.
  assert (He : ∀ w, sees k f (Some m) x w → entry RotD id w = m !! id).
  { intros w (_&_&Hr&_). unfold entry. simpl. by rewrite Hr. }
  unfold ReadRotationKey, readKey.
  apply (ensures_bind _ _ _ (λ _, sees k f (Some m) x)); [by apply keeps_sys; [apply _|]|].
  intros [[]|e]; [|by intros w Hw].
  eapply ensures_bind; [by apply (read_spec _ _ _ _ _ _ (m !! id))|]. intros res.
  apply (ensures_bind _ _ _ (λ _ w, sees k f (Some m) x w ∧ ∀ b, res = Ok b → read_node (m !! id) = Some b)).
  { intros w [Hw Hb]. pose proof (f_call_keeps F (sees k f (Some m) x) w Hw) as Hk.
    destruct (f_call F w) as [[]?]; done. }
  intros _ w [Hw Hb]. simpl. split; [done|]. destruct res as [b|e]; [|done]. intros b'.
  destruct (Nat.eqb_spec (String.length b) KeyBytes); [|by destruct (Nat.ltb _ _)].
  intros [= <-]. auto.
Qed.
End StateFacts.

(** ** Emptying rotation/ *)

(** A fault is never mistaken for a file that is not there. *)
Definition genuine (F : nat → Fault) : Prop := ∀ n s e, F n = Err s e → errors_Is e "fs.ErrNotExist" = false.

Section RemoveFacts.
Context {X : Type} (F : nat → Fault) (HG : genuine F).
Implicit Types w : World X.

(** Fewer entries than [m], and of those in [l] none unless an error was kept. *)
Lemma remove_all_spec k f x m l errs :
  ensures (λ w, ∃ m', m' ⊆ m ∧ (errs = None → dom m' ⊆ list_to_set l) ∧ sees k f (Some m') x w)
    (remove_all F l errs)
    (λ res w, ∃ m', m' ⊆ m ∧ (res = None → m' = ∅) ∧ sees k f (Some m') x w)
    (λ w, ∃ m', m' ⊆ m ∧ sees k f (Some m') x w).
Proof using HG.
  revert errs. induction l as [|n l IH]; intros errs; simpl.
  { intros w (m' & Hm & Hd & Hw). exists m'. split; [done|]. split; [|done].
    intros He. apply dom_empty_inv. specialize (Hd He). set_solver. }
  apply (ensures_bind _ _ _ (λ res w, ∃ m', m' ⊆ m ∧
    (match res with
     | Ok _ => errs
     | Fail e => if errors_Is e "fs.ErrNotExist" then errs
                 else Some match errs with None => e | Some e0 => errors_Join e0 e end
     end = None → dom m' ⊆ (list_to_set l : gset string)) ∧ sees k f (Some m') x w)); [|intros res; apply IH].
  intros w (m' & Hm & Hd & Hw). unfold os_Remove, Crash.sys.
  assert (Hact : ∀ res w', (match m' !! n with
      | Some _ => (Ok tt, set_entries RotD (delete n m') (w_next w))
      | None => (Fail (no_entry n), w_next w) end) = (res, w') →
    ∃ m'0, m'0 ⊆ m ∧ (match res with
     | Ok _ => errs
     | Fail e => if errors_Is e "fs.ErrNotExist" then errs
                 else Some match errs with None => e | Some e0 => errors_Join e0 e end
     end = None → dom m'0 ⊆ (list_to_set l : gset string)) ∧ sees k f (Some m'0) x w').
  { intros res w'. destruct (m' !! n) eqn:E; intros [= <- <-].
    - exists (delete n m'). split; [etransitivity; [apply delete_subseteq|done]|]. split.
      + intros He. specialize (Hd He). rewrite dom_delete_L. set_solver.
      + destruct Hw as (?&?&?&?). done.
    - exists m'. split; [done|]. split; [|done]. intros He. simpl in He. specialize (Hd He).
      apply not_elem_of_dom in E. set_solver. }
  destruct Hw as (Hk & Hf & Hr & Hx).
  destruct (F (tick w)) as [|s e|s|s] eqn:EF; simpl; rewrite ?Hr.
  2: { exists m'. split; [done|]. rewrite (HG _ _ _ EF). split; [by destruct errs|done]. }
  2: { exists m'. done. }
  all: destruct (m' !! n) eqn:E; exact (Hact _ _ eq_refl).
Qed.

Lemma remove_rotation_spec k f m x :
  ensures (sees k f (Some m) x) (RemoveRotation F)
    (λ res w, ∃ m', m' ⊆ m ∧ (res = Ok tt → m' = ∅) ∧ sees k f (Some m') x w)
    (λ w, ∃ m', m' ⊆ m ∧ sees k f (Some m') x w).
Proof using HG.
  unfold RemoveRotation.
  eapply ensures_bindR with (R := λ res w, sees k f (Some m) x w ∧ ∀ l, res = Ok l → ∃ m0, Some m = Some m0 ∧ l = names_of m0).
  - eapply ensures_conseq; [apply rotationNames_spec|done|done|]. intros w Hw. by exists m.
  - intros l w [Hw Hl]. destruct (Hl l eq_refl) as (m0 & [= <-] & ->).
    revert w Hw. apply (ensures_bind _ _ _ (λ res w, ∃ m', m' ⊆ m ∧ (res = None → m' = ∅) ∧ sees k f (Some m') x w)).
    + eapply ensures_pre; [apply (remove_all_spec k f x m)|]. intros w Hw. exists m. split; [done|]. split; [|done].
      intros _ n Hn. apply elem_of_list_to_set. rewrite names_of_perm.
      apply elem_of_dom in Hn as [v Hv]. apply list_elem_of_fmap. exists (n, v). by rewrite elem_of_map_to_list.
    + intros [e|] w (m' & Hm & He & Hw); exists m'; split_and!; auto. done.
  - intros e w [Hw _]. by exists m.
Qed.
End RemoveFacts.

(** ** With nothing failing *)
Definition calm (F : nat → Fault) : Prop := ∀ n, F n = NoFault.

Lemma State_calm {X} p F k f r (x : X) t w : calm F → sees k f r x w → tree_of p k f r = Some t →
  ∃ w', State p F w = (Some (Ok t), w') ∧ sees k f r x w'.
Proof.
  intros HF Hw. pose proof Hw as (Hk & Hf & Hr & Hx). unfold tree_of.
  destruct (read_node f) as [b|] eqn:Eb; [|done]. simpl.
  destruct (parseFragment p b) as [frag|] eqn:Ep; [|done]. destruct r as [m|]; [|done].
  destruct (is_key k) eqn:Ek; [|done].
  assert (Hread : ∀ w : World X, w_seal w !! FragmentName = f → os_ReadFile F SealD FragmentName w = (Some (Ok b), w_next w)).
  { intros w1 H1. unfold os_ReadFile, Crash.sys, entry. rewrite HF. simpl. rewrite H1.
    by destruct f as [[|[]|]|]; simplify_eq/=. }
  assert (Hkey : ∀ D n (w : World X), is_key (entry D n w) = true → checkKey F D n w = (Some (Ok tt), w_next w)).
  { intros D n w1 H1. unfold checkKey, bind, os_Lstat, Crash.sys. rewrite HF. simpl.
    change (entry D n (w_next w1)) with (entry D n w1). destruct (entry D n w1) as [[kb| |]|]; try done.
    simpl in *. by rewrite H1. }
  assert (Hnm : ∀ w : World X, w_rot w = Some m → rotationNames F w = (Some (Ok (names_of m)), w_next w)).
  { intros w1 H1. unfold rotationNames, bind, os_ReadDir, Crash.sys. rewrite HF. simpl. by rewrite H1. }
  intros Ht. unfold State, bindR, bind. rewrite (Hread w Hf), Ep.
  rewrite Hkey; [|unfold entry; simpl; by rewrite Hk].
  rewrite Hnm by done.
  destruct (f_Shape frag) eqn:Es.
  - simplify_eq/=. eexists. split; [done|]. by repeat split.
  - case_bool_decide; [|done]. simpl in Ht. destruct (is_key (m !! f_Current frag)) eqn:Em; [|done].
    rewrite Hkey; [|unfold entry; simpl; by rewrite Hr]. simplify_eq/=. eexists. split; [done|]. by repeat split.
  - case_bool_decide; [|done]. simpl in Ht. destruct (is_key (m !! f_Current frag)) eqn:Em; [|done].
    rewrite Hkey; [|unfold entry; simpl; by rewrite Hr]. simplify_eq/=. eexists. split; [done|]. by repeat split.
Qed.
