(* ===== verification/SealGate.v ===== *)
(** * The capture gate

    sealrotate/gate.go and errors.go: one holder at a time, a rotation that
    never waits or a capture (a backup, or an OS update's copy of the store)
    that waits for the holder.  [acquire_turn] is one turn of the capture's
    loop; the loop's waits are its caller's.  SealCapture interleaves the turns
    of any number of jobs. *)
From Stdlib Require Import String.
From S2P Require Import Prelude SealFragment SealFiles.

(** ** errors.go: the sentences a person reads *)
Definition jobError (name text : string) : error := mkError text ["jobError"; name].
Definition errNotOpenBao := jobError "errNotOpenBao"
  "The seal key can be rotated only when this control plane runs its own secret store, so nothing was changed.".
Definition errRestoreActive := jobError "errRestoreActive"
  "A restore is running, so the seal key was not rotated. Nothing was changed; start the rotation again once the restore finishes.".
Definition errSealUnrecognised := jobError "errSealUnrecognised"
  "The seal key files are not in a state a rotation recognises, so nothing was changed. The api log names the file and the defect.".
Definition errStoreNotReady := jobError "errStoreNotReady"
  "The secret store is not running and unsealed, so the seal key was not rotated. Nothing was changed.".
Definition errBackupHolds := jobError "errBackupHolds"
  "A backup is capturing the secret store, so the seal key was not rotated. Nothing was changed; start the rotation again once the backup finishes.".
Definition errAnotherRotation := jobError "errAnotherRotation"
  "Another seal-key rotation is running, so this one did not start. Nothing was changed.".
Definition errLoginDenied := jobError "errLoginDenied"
  "The secret store refused the rotation's login, so the seal key was not rotated. Nothing was changed.".
Definition errLoginUnreachable := jobError "errLoginUnreachable"
  "The secret store could not be reached to log in for the rotation, so the seal key was not rotated. Nothing was changed.".
Definition errNoKeyID := jobError "errNoKeyID"
  "A new seal key id could not be made, so the seal key was not rotated. Nothing was changed.".
Definition errNoKey := jobError "errNoKey"
  "A new seal key could not be generated, so the seal key was not rotated. Nothing was changed.".
Definition errStageWrite := jobError "errStageWrite"
  "The new seal key could not be staged, so the seal key was not rotated. The staged key was removed and the old key is still in use.".
Definition errStagedRolledBack := jobError "errStagedRolledBack"
  "The secret store did not open with the new seal key staged, so the rotation was rolled back and the old key is still in use.".
Definition errStagedRollbackFailed := jobError "errStagedRollbackFailed"
  "The secret store did not open with the new seal key staged, and the rotation could not be rolled back. Start the seal-key rotation again to finish it.".
Definition errStagedResume := jobError "errStagedResume"
  "The secret store did not open with the staged seal key, so the rotation could not be finished. Start the seal-key rotation again to finish it.".
Definition errRewrapLogin := jobError "errRewrapLogin"
  "The secret store refused the rotation's login, so the rotation stopped with both keys in place. Start the seal-key rotation again to finish it, and do not restart the node or the secret store until it has finished.".
Definition errRewrap := jobError "errRewrap"
  "The secret store did not re-encrypt its root key under the new seal key, so the rotation stopped with both keys in place. Start the seal-key rotation again to finish it, and do not restart the node or the secret store until it has finished.".
Definition errVerify := jobError "errVerify"
  "The secret store did not open with the new seal key alone, so the rotation stopped before the old key was removed. Start the seal-key rotation again to finish it.".
Definition errSettle := jobError "errSettle"
  "The new seal key could not be made the only key, so the rotation stopped part way. Start the seal-key rotation again to finish it.".
Definition errBackupRotationIncomplete := jobError "errBackupRotationIncomplete"
  "A seal-key rotation has not finished, so this backup did not capture anything. Start the seal-key rotation again to finish it, then run the backup.".
Definition errBackupSealUnreadable := jobError "errBackupSealUnreadable"
  "The seal key files could not be checked, so this backup did not capture anything. The api log names the defect.".
Definition UpdateCopyRefused : string :=
  "The secret store could not be copied before this OS update, so the update was refused and nothing was installed.".
Definition errUpdateRotationIncomplete := jobError "errUpdateRotationIncomplete"
  (UpdateCopyRefused +:+ " A seal-key rotation has not finished: start the seal-key rotation again to finish it, then run the update again.").
Definition errUpdateSealUnreadable := jobError "errUpdateSealUnreadable"
  (UpdateCopyRefused +:+ " The seal key files could not be checked; the api log names the defect.").
Definition errUpdateHolds := jobError "errUpdateHolds"
  "An OS update is copying the secret store, so the seal key was not rotated. Nothing was changed; start the rotation again once the update's copy finishes.".
Definition errRestoreRotation := jobError "errRestoreRotation"
  "A seal-key rotation is running, so this restore did not start. Nothing was changed; start the restore again once the rotation finishes.".
Definition errRestoreRotationIncomplete := jobError "errRestoreRotationIncomplete"
  "A seal-key rotation has not finished, so this restore did not start. Nothing was changed; start the seal-key rotation again to finish it, then start the restore.".
Definition errRestoreSealUnreadable := jobError "errRestoreSealUnreadable"
  "The seal key files could not be checked, so this restore did not start. Nothing was changed; the api log names the defect.".

(** ** gate.go *)
Record Gate := mkGate { g_holder : string; g_byRotation : bool; g_byUpdate : bool }.
Definition free_gate : Gate := mkGate EmptyString false false.
#[export] Instance Gate_eq_dec : EqDecision Gate.
Proof. solve_decision. Defined.

Definition take_gate (jobID : string) (byRotation byUpdate : bool) : Gate := mkGate jobID byRotation byUpdate.

Definition TryAcquire (jobID : string) (g : Gate) : result unit * Gate :=
  if String.eqb (g_holder g) jobID then (Ok tt, g)
  else if negb (String.eqb (g_holder g) EmptyString) && g_byRotation g then (Fail errAnotherRotation, g)
  else if negb (String.eqb (g_holder g) EmptyString) && g_byUpdate g then (Fail errUpdateHolds, g)
  else if negb (String.eqb (g_holder g) EmptyString) then (Fail errBackupHolds, g)
  else (Ok tt, take_gate jobID true false).

Record capturePurpose := mkPurpose {
  cp_byUpdate : bool;
  cp_rotationIncomplete : error;
  cp_sealUnreadable : error
}.
Definition backupCapture := mkPurpose false errBackupRotationIncomplete errBackupSealUnreadable.
Definition updateCapture := mkPurpose true errUpdateRotationIncomplete errUpdateSealUnreadable.

Definition Release (jobID : string) (g : Gate) : Gate :=
  if String.eqb jobID EmptyString || negb (String.eqb (g_holder g) jobID) then g else free_gate.

(** What one turn of [acquire]'s loop comes to. *)
Inductive turn := Return (r : result unit) | Again | Wait.

(** One turn: [tree] is what [State] answers, [running] what the job ledger
    answers for the holder. *)
Definition acquire_turn (tree : result Tree) (running : string → result bool)
    (jobID : string) (cp : capturePurpose) (g : Gate) : turn * Gate :=
  if String.eqb (g_holder g) EmptyString || String.eqb (g_holder g) jobID then
    match tree with
    | Fail _ => (Return (Fail (cp_sealUnreadable cp)), g)
    | Ok t =>
        if negb (bool_decide (f_Shape (t_Fragment t) = Clean)) then (Return (Fail (cp_rotationIncomplete cp)), g)
        else (Return (Ok tt), take_gate jobID false (cp_byUpdate cp))
    end
  else
    match running (g_holder g) with
    | Ok false => (Again, Release (g_holder g) g)
    | _ => (Wait, g)
    end.

Definition CheckRestore (tree : result Tree) (g : Gate) : result unit :=
  if negb (String.eqb (g_holder g) EmptyString) && g_byRotation g then Fail errRestoreRotation
  else match tree with
       | Fail _ => Fail errRestoreSealUnreadable
       | Ok t => if negb (bool_decide (f_Shape (t_Fragment t) = Clean)) then Fail errRestoreRotationIncomplete else Ok tt
       end.

Definition RotationHolder (g : Gate) : string := if g_byRotation g then g_holder g else EmptyString.
