(* ===== verification/SealRotate.v ===== *)
(** * Rotating the seal key

    sealrotate/rotator.go, alerts.go and secretstore/health.go: the six steps
    of the rotation job on the seal directory and a secret store, with the
    terminal hook.  The store is another program: it is any instance of
    [SecretStore], which says what each request does to the key that wraps its
    root key.  Between any two calls of the api the store may be restarted by
    somebody else, and any call may be the api's last.  Restarts the rotation
    asks for are kept in a trace.  SealSafety and SealHistory prove what a run
    leaves behind. *)
From Stdlib Require Import Ascii String.
From S2P Require Import Prelude GoStrings Crash SealFragment SealFiles SealGate.

(** ** The store *)

(** A key with its id, and a configuration: the current key and the previous. *)
#[global] Abbreviation Key := (string * string)%type (only parsing).
#[global] Abbreviation Config := (Key * option Key)%type (only parsing).

Record Health := mkHealth { h_Initialized : bool; h_Sealed : bool }.

(** The requests, by tick, and what can be said of the store's state: the key
    its stored root key is wrapped by ([None] after a re-wrap that broke off),
    the configuration its process read at start, and whether it is open. *)
Class SecretStore (St : Type) := {
  st_wrap : St → option Key;
  st_loaded : St → option Config;
  st_open : St → bool;
  st_boot : option Config → St → St;                       (* a start by somebody else *)
  st_restart : nat → option Config → St → result unit * St;
  st_health : nat → St → (Health * option error) * St;
  st_login : nat → St → result string * St;
  st_rotate : nat → string → St → result unit * St
}.

(** ** health.go *)
Definition InactiveReason (h : Health) (err : option error) : string :=
  match err with
  | Some e =>
      if errors_Is e "ErrSealed" then "sealed"
      else if errors_Is e "ErrUninitialised" then "uninitialised"
      else if errors_Is e "ErrUnreachable" then "unreachable"
      else if errors_Is e "ErrDisabled" then "disabled"
      else "error"
  | None =>
      if negb (h_Initialized h) then "uninitialised"
      else if h_Sealed h then "sealed"
      else EmptyString
  end.

(** ** The rotator's state *)
Record run := mkRun {
  ru_tree : Tree;
  ru_fresh : bool;
  ru_cur : KeyID;
  ru_prev : KeyID;
  ru_token : string;
  ru_gated : bool;
  ru_release : bool;
  ru_storeUp : bool
}.
Definition set_token (t : string) (ru : run) : run :=
  mkRun (ru_tree ru) (ru_fresh ru) (ru_cur ru) (ru_prev ru) t (ru_gated ru) (ru_release ru) (ru_storeUp ru).
Definition set_keys (cur prev : KeyID) (ru : run) : run :=
  mkRun (ru_tree ru) (ru_fresh ru) cur prev (ru_token ru) (ru_gated ru) (ru_release ru) (ru_storeUp ru).

(** A restart the rotation asked for: was the store open, what would the new
    process read, and which key wraps the root key. *)
Record restarted := mkRestarted { rs_open : bool; rs_config : option Config; rs_wrap : option Key }.

Record Rot (St : Type) := mkRot {
  r_store : St;
  r_runs : gmap string run;
  r_gate : Gate;
  r_quiesced : list string;
  r_restarts : list restarted
}.
Arguments mkRot {St} _ _ _ _ _.
Arguments r_store {St} _.
Arguments r_runs {St} _.
Arguments r_gate {St} _.
Arguments r_quiesced {St} _.
Arguments r_restarts {St} _.

Definition set_store {St} (s : St) (x : Rot St) : Rot St :=
  mkRot s (r_runs x) (r_gate x) (r_quiesced x) (r_restarts x).
Definition set_runs {St} (f : gmap string run → gmap string run) (x : Rot St) : Rot St :=
  mkRot (r_store x) (f (r_runs x)) (r_gate x) (r_quiesced x) (r_restarts x).
Definition set_gate {St} (g : Gate) (x : Rot St) : Rot St :=
  mkRot (r_store x) (r_runs x) g (r_quiesced x) (r_restarts x).
Definition set_quiesced {St} (q : list string) (x : Rot St) : Rot St :=
  mkRot (r_store x) (r_runs x) (r_gate x) q (r_restarts x).
Definition add_restart {St} (e : restarted) (x : Rot St) : Rot St :=
  mkRot (r_store x) (r_runs x) (r_gate x) (r_quiesced x) (r_restarts x ++ [e]).

(** What a store started now reads: the fragment, and the key files it names
    as systemd copies them. *)
Definition disk_config {X} (p : Paths) (w : World X) : option Config :=
  b ← read_node (entry SealD FragmentName w);
  match parseFragment p b with
  | Fail _ => None
  | Ok f =>
      match f_Shape f with
      | Clean => k ← read_node (entry SealD SealKeyName w); Some ((f_Current f, k), None)
      | Verify => k ← read_node (entry RotD (f_Current f) w); Some ((f_Current f, k), None)
      | Staged => k ← read_node (entry RotD (f_Current f) w);
                  k' ← read_node (entry SealD SealKeyName w);
                  Some ((f_Current f, k), Some (f_Previous f, k'))
      end
  end.

(** The other answers, by tick: whether somebody else restarts the store before
    this call, how many polls a wait gets, the restore in progress, the new key
    id and the new key's bytes. *)
Class SealEnv := {
  e_fault : nat → Fault;
  e_rand : nat → string;
  e_drift : nat → bool;
  e_polls : nat → nat;
  e_restore : nat → option string;
  e_keyid : nat → result KeyID;
  e_key : nat → result string
}.

Section Rotator.
Context {St : Type} `{!SecretStore St} `{!SealEnv} (p : Paths) (enabled : bool).
#[local] Abbreviation W := (World (Rot St)).
#[local] Abbreviation IO := (Crash.IO W).

(** A call outside the seal files: the api may die before it. *)
Definition drift (w : W) : Rot St :=
  let x := w_rest w in
  if e_drift (w_tick w) then set_store (st_boot (disk_config p w) (r_store x)) x else x.
Definition ext {A} (f : nat → option Config → Rot St → A * Rot St) : IO A := λ w,
  match e_fault (w_tick w) with
  | PowerLoss _ => (None, w_next w)
  | _ => let '(a, x) := f (w_tick w) (disk_config p w) (drift w) in (Some a, set_rest x (w_next w))
  end.

Definition Restores_Active : IO (option string) := ext (λ t _ x, (e_restore t, x)).
Definition Store_Health : IO (Health * option error) :=
  ext (λ t _ x, let '(r, s) := st_health t (r_store x) in (r, set_store s x)).
Definition Rotate_CertLogin : IO (result string) :=
  ext (λ t _ x, let '(r, s) := st_login t (r_store x) in (r, set_store s x)).
Definition Rotate_RotateRoot (token : string) : IO (result unit) :=
  ext (λ t _ x, let '(r, s) := st_rotate t token (r_store x) in (r, set_store s x)).
Definition Restart : IO (result unit) :=
  ext (λ t cfg x,
    let s := r_store x in
    let '(r, s') := st_restart t cfg s in
    (r, add_restart (mkRestarted (st_open s) cfg (st_wrap s)) (set_store s' x))).
Definition Gate_TryAcquire (jobID : string) : IO (result unit) :=
  ext (λ _ _ x, let '(r, g) := TryAcquire jobID (r_gate x) in (r, set_gate g x)).
Definition new_KeyID : IO (result KeyID) := ext (λ t _ x, (e_keyid t, x)).
Definition read_Rand : IO (result string) := ext (λ t _ x, (e_key t, x)).
(** The maps under the rotator's own lock. *)
Definition get_run (jobID : string) : IO (option run) := λ w, (Some (r_runs (w_rest w) !! jobID), w).
Definition put_run (jobID : string) (ru : run) : IO unit := λ w,
  (Some tt, set_rest (set_runs <[jobID := ru]> (w_rest w)) w).
Definition Quiesce (jobID : string) : IO unit := λ w,
  (Some tt, set_rest (set_quiesced (jobID :: r_quiesced (w_rest w)) (w_rest w)) w).

(** [WaitReady]: the first poll, then one per tick until the bound. *)
Fixpoint poll_ready (n : nat) : IO (result unit) :=
  r <- Store_Health;
  if String.eqb (InactiveReason r.1 r.2) EmptyString then ret (Ok tt)
  else match n with
       | O => ret (Fail (sentinel "context.DeadlineExceeded"
                ("the secret store did not answer 200 in time (last: " +:+ InactiveReason r.1 r.2 +:+ ")")))
       | S n => poll_ready n
       end.
Definition waitReady : IO (result unit) := λ w, poll_ready (e_polls (w_tick w)) w.

Definition restartAndWait : IO (result unit) :=
  r <- Restart;
  match r with
  | Fail e => ret (Fail (wrapf ("restart the secret store: " +:+ err_text e) e))
  | Ok _ => waitReady
  end.

Definition files_WriteFragment (f : Fragment) : IO (result unit) := WriteFragment p e_fault e_rand f.

Definition writeAndOpen (f : Fragment) : IO (result unit) :=
  _ <-? files_WriteFragment f; restartAndWait.

Definition makeOnlyKey (id : KeyID) : IO (result unit) :=
  key <-? ReadRotationKey e_fault id;
  _ <-? WriteSealKey e_fault e_rand key;
  writeAndOpen (mkFragment Clean id EmptyString).

(** [errLoginFailed] marks a re-wrap that never reached the store. *)
Definition rotateRoot (jobID : string) (ru : run) : IO (result unit) :=
  if String.eqb (ru_token ru) EmptyString then
    r <- Rotate_CertLogin;
    match r with
    | Fail e => ret (Fail (mkError ("sealrotate: rotation login failed: " +:+ err_text e)
                                   ("errLoginFailed" :: err_chain e)))
    | Ok tok => _ <- put_run jobID (set_token tok ru); Rotate_RotateRoot tok
    end
  else Rotate_RotateRoot (ru_token ru).

Definition rewrapFailed (e : error) : error :=
  if errors_Is e "errLoginFailed" then errRewrapLogin else errRewrap.

(** ** The steps *)
Definition validate (jobID : string) : IO (result unit) :=
  if negb enabled then ret (Fail errNotOpenBao) else
  a <- Restores_Active;
  match a with
  | Some _ => ret (Fail errRestoreActive)
  | None =>
  r <- State p e_fault;
  match r with
  | Fail _ => ret (Fail errSealUnrecognised)
  | Ok tree =>
  h <- Store_Health;
  let storeUp := String.eqb (InactiveReason h.1 h.2) EmptyString in
  let fresh := bool_decide (t_Resume tree = Fresh) in
  if negb storeUp && (fresh || bool_decide (t_Resume tree = CleanUp)) then ret (Fail errStoreNotReady) else
  g <- Gate_TryAcquire jobID;
  match g with
  | Fail e => ret (Fail (if errors_Is e "jobError" then e else errAnotherRotation))
  | Ok _ =>
  _ <- Quiesce jobID;
  let ru := mkRun tree fresh (f_Current (t_Fragment tree)) (f_Previous (t_Fragment tree)) EmptyString true true storeUp in
  _ <- put_run jobID ru;
  if storeUp && (fresh || bool_decide (t_Resume tree = RewrapFirst)) then
    r <- Rotate_CertLogin;
    match r with
    | Fail e => ret (Fail (if errors_Is e "ErrDenied" then errLoginDenied else errLoginUnreachable))
    | Ok tok => _ <- put_run jobID (set_token tok ru); ret (Ok tt)
    end
  else ret (Ok tt)
  end end end.

Definition stageFailed : IO (result unit) :=
  _ <- RemoveRotation e_fault; ret (Fail errStageWrite).

Definition stage_step (jobID : string) : IO (result unit) :=
  o <- get_run jobID;
  match o with
  | None => ret (Ok tt)
  | Some ru =>
  if negb (ru_fresh ru) then ret (Ok tt) else
  r <- new_KeyID;
  match r with
  | Fail _ => ret (Fail errNoKeyID)
  | Ok newID =>
  if String.eqb newID (ru_cur ru) then ret (Fail errNoKeyID) else
  r <- read_Rand;
  match r with
  | Fail _ => ret (Fail errNoKey)
  | Ok key =>
  let prev := ru_cur ru in
  _ <- put_run jobID (set_keys newID prev ru);
  r <- WriteRotationKey e_fault e_rand newID key;
  match r with
  | Fail _ => stageFailed
  | Ok _ =>
  r <- files_WriteFragment (mkFragment Staged newID prev);
  match r with
  | Fail _ => stageFailed
  | Ok _ => ret (Ok tt)
  end end end end end.

(** The roll-back of a fresh run whose store did not open on the staged key. *)
Definition rollBack (ru : run) : IO (result unit) :=
  r <- files_WriteFragment (mkFragment Clean (ru_prev ru) EmptyString);
  match r with
  | Fail _ => ret (Fail errStagedRollbackFailed)
  | Ok _ => _ <- Restart; _ <- RemoveRotation e_fault; ret (Fail errStagedRolledBack)
  end.

Definition unsealStaged (jobID : string) : IO (result unit) :=
  o <- get_run jobID;
  match o with
  | None => ret (Ok tt)
  | Some ru =>
  if ru_fresh ru then
    r <- restartAndWait;
    match r with
    | Ok _ => ret (Ok tt)
    | Fail _ => rollBack ru
    end
  else if bool_decide (t_Resume (ru_tree ru) = RewrapFirst) then
    r <- (if ru_storeUp ru then rotateRoot jobID ru else ret (Ok tt));
    match r with
    | Fail e => ret (Fail (rewrapFailed e))
    | Ok _ =>
        r <- restartAndWait;
        match r with
        | Fail _ => ret (Fail errStagedResume)
        | Ok _ => ret (Ok tt)
        end
    end
  else ret (Ok tt)
  end.

Definition rewrap (jobID : string) : IO (result unit) :=
  o <- get_run jobID;
  match o with
  | None => ret (Ok tt)
  | Some ru =>
  if negb (ru_fresh ru || bool_decide (t_Resume (ru_tree ru) = RewrapFirst)) then ret (Ok tt) else
  r <- rotateRoot jobID ru;
  match r with
  | Fail e => ret (Fail (rewrapFailed e))
  | Ok _ => ret (Ok tt)
  end
  end.

Definition verify (jobID : string) : IO (result unit) :=
  o <- get_run jobID;
  match o with
  | None => ret (Ok tt)
  | Some ru =>
  if bool_decide (t_Resume (ru_tree ru) = CleanUp) then ret (Ok tt) else
  r <- writeAndOpen (mkFragment Verify (ru_cur ru) EmptyString);
  match r with
  | Ok _ => ret (Ok tt)
  | Fail _ =>
  if String.eqb (ru_prev ru) EmptyString then ret (Fail errVerify) else
  retry <- (_ <-? writeAndOpen (mkFragment Staged (ru_cur ru) (ru_prev ru));
            _ <-? rotateRoot jobID ru;
            writeAndOpen (mkFragment Verify (ru_cur ru) EmptyString));
  match retry with
  | Fail _ => ret (Fail errVerify)
  | Ok _ => ret (Ok tt)
  end end end.

(** [settleResult]'s outcome and keys. *)
Inductive Outcome := Rotated (cur prev : KeyID) | Resumed (cur prev : KeyID) | NoRun.

Definition settle (jobID : string) : IO (result Outcome) :=
  o <- get_run jobID;
  match o with
  | None => ret (Ok NoRun)
  | Some ru =>
  r <- (if bool_decide (t_Resume (ru_tree ru) = CleanUp) then ret (Ok tt) else makeOnlyKey (ru_cur ru));
  match r with
  | Fail _ => ret (Fail errSettle)
  | Ok _ =>
  r <- RemoveRotation e_fault;
  match r with
  | Fail _ => ret (Fail errSettle)
  | Ok _ => ret (Ok (if ru_fresh ru then Rotated (ru_cur ru) (ru_prev ru) else Resumed (ru_cur ru) (ru_prev ru)))
  end end end.

Definition onTerminal (jobID : string) : IO unit := λ w,
  let x := w_rest w in
  match r_runs x !! jobID with
  | None => (Some tt, w)
  | Some ru =>
      let x := set_runs (delete jobID) x in
      let x := if ru_gated ru then set_gate (Release jobID (r_gate x)) x else x in
      let x := if ru_release ru then set_quiesced (filter (λ j, j ≠ jobID) (r_quiesced x)) x else x in
      (Some tt, set_rest x w)
  end.

(** The job: the runner runs the steps in order and stops at the first error,
    then fires the hook. *)
Definition steps (jobID : string) : IO (result Outcome) :=
  _ <-? validate jobID;
  _ <-? stage_step jobID;
  _ <-? unsealStaged jobID;
  _ <-? rewrap jobID;
  _ <-? verify jobID;
  settle jobID.
Definition rotation (jobID : string) : IO (result Outcome) :=
  r <- steps jobID; _ <- onTerminal jobID; ret r.

(** The api comes back after a crash: its memory is empty, the store runs on
    or, after a power loss, starts on what is on disk. *)
Definition reborn (power : bool) (w : W) : W :=
  let s := r_store (w_rest w) in
  set_rest (mkRot (if power then st_boot (disk_config p w) s else s) ∅ free_gate [] (r_restarts (w_rest w))) w.

(** ** alerts.go *)
(** Whether the incomplete-rotation alert is raised, given what [State] and the
    job ledger answer. *)
Definition Alerts (tree : result Tree) (running : string → result bool) (g : Gate) : bool :=
  match tree with
  | Ok t => if bool_decide (f_Shape (t_Fragment t) = Clean) then false
            else negb (negb (String.eqb (RotationHolder g) EmptyString) &&
                       match running (RotationHolder g) with Ok b => b | Fail _ => false end)
  | Fail _ => negb (negb (String.eqb (RotationHolder g) EmptyString) &&
                    match running (RotationHolder g) with Ok b => b | Fail _ => false end)
  end.
End Rotator.
