(* ===== verification/SealSafety.v ===== *)
(** * A rotation never loses the store

    What a rotation job leaves behind, wherever it stops.  [on_disk] describes
    the seal directory, [config] what a store started on it reads.  [safe]:
    the root key is wrapped by a key that configuration names, or the directory
    is staged and a re-wrap broke off.  The theorems: one run keeps [safe] at
    every crash point and asks to restart an open store only when the store
    can open again; a history of runs, crashes and power losses keeps it as
    long as no roll-back leaves the store running on a key that is gone; and
    what happens when one does. *)
From Stdlib Require Import Ascii String.
From S2P Require Import Prelude GoStrings Crash SealFragment SealFiles SealGate SealRotate.

(** ** What is relied on of the store *)
Definition named (k : Key) (cfg : option Config) : Prop :=
  ∃ c pv, cfg = Some (c, pv) ∧ (k = c ∨ pv = Some k).
(** A process that read [cfg] can open a root key wrapped as [wrap] says. *)
Definition opens (cfg : option Config) (wrap : option Key) : Prop := ∃ k, wrap = Some k ∧ named k cfg.

Class StoreLaws (St : Type) `{!SecretStore St} := {
  (** a start reads the files, is sealed at first and stores nothing *)
  boot_law cfg (s : St) :
    st_wrap (st_boot cfg s) = st_wrap s ∧ st_loaded (st_boot cfg s) = cfg ∧ st_open (st_boot cfg s) = false;
  (** a restart is a start; one that fails may have left the old process, or none *)
  restart_law t cfg (s s' : St) r : st_restart t cfg s = (r, s') →
    st_wrap s' = st_wrap s ∧
    (st_loaded s' = cfg ∧ st_open s' = false ∨
     ∃ e, r = Fail e ∧ (st_loaded s' = st_loaded s ∧ st_open s' = st_open s ∨
                        st_loaded s' = None ∧ st_open s' = false));
  (** asking changes nothing but that the store may have opened meanwhile *)
  health_law t (s s' : St) h : st_health t s = (h, s') →
    st_wrap s' = st_wrap s ∧ st_loaded s' = st_loaded s ∧
    (st_open s' = true → st_open s = true ∨ opens (st_loaded s) (st_wrap s)) ∧
    (InactiveReason h.1 h.2 = EmptyString → st_open s' = true);
  login_law t (s s' : St) r : st_login t s = (r, s') →
    st_wrap s' = st_wrap s ∧ st_loaded s' = st_loaded s ∧ st_open s' = st_open s;
  (** a re-wrap uses the current key of the running process; one that fails may
      have done it, or have broken off half way *)
  rotate_law t tok (s s' : St) r : st_rotate t tok s = (r, s') →
    st_loaded s' = st_loaded s ∧ st_open s' = st_open s ∧
    match r with
    | Ok _ => ∃ c pv, st_loaded s = Some (c, pv) ∧ st_wrap s' = Some c
    | Fail _ => st_wrap s' = st_wrap s ∨ st_wrap s' = None ∨
                ∃ c pv, st_loaded s = Some (c, pv) ∧ st_wrap s' = Some c
    end
}.

(** An open store answers a health request. *)
Definition truthful (St : Type) `{!SecretStore St} : Prop := ∀ t (s s' : St) h,
  st_health t s = (h, s') → st_open s' = true → InactiveReason h.1 h.2 = EmptyString.

(** ** What is on disk *)
Record disk := mkDisk { d_frag : Fragment; d_key : string; d_rot : gmap string Node }.

Definition reshape (f : Fragment) (d : disk) : disk := mkDisk f (d_key d) (d_rot d).
Definition rekey (k : string) (d : disk) : disk := mkDisk (d_frag d) k (d_rot d).
Definition rerot (m : gmap string Node) (d : disk) : disk := mkDisk (d_frag d) (d_key d) m.

Definition config (d : disk) : option Config :=
  let f := d_frag d in
  match f_Shape f with
  | Clean => Some ((f_Current f, d_key d), None)
  | Verify => k ← read_node (d_rot d !! f_Current f); Some ((f_Current f, k), None)
  | Staged => k ← read_node (d_rot d !! f_Current f); Some ((f_Current f, k), Some (f_Previous f, d_key d))
  end.

(** The key files the fragment names are there, and nothing else is staged. *)
Definition well (d : disk) : Prop :=
  frag_ok (d_frag d) ∧ String.length (d_key d) = KeyBytes ∧
  (f_Shape (d_frag d) ≠ Clean →
     ∃ nb, d_rot d = {[ f_Current (d_frag d) := Reg nb ]} ∧ String.length nb = KeyBytes).

Definition wrap_ok (d : disk) (wrap : option Key) : Prop :=
  match wrap with
  | Some k => named k (config d)
  | None => f_Shape (d_frag d) = Staged
  end.

Definition on_disk {X} (p : Paths) (d : disk) (w : World X) : Prop :=
  w_seal w !! SealKeyName = Some (Reg (d_key d)) ∧
  (∃ b, read_node (w_seal w !! FragmentName) = Some b ∧ parseFragment p b = Ok (d_frag d)) ∧
  w_rot w = Some (d_rot d).

Lemma on_disk_config {X} p d (w : World X) : on_disk p d w → disk_config p w = config d.
Proof.
  intros (Hk & (b & Hb & Hf) & Hr). unfold disk_config, config, entry. simpl. rewrite Hb. simpl. rewrite Hf, Hr, Hk.
  destruct (f_Shape (d_frag d)); simpl; [done| |done]. by destruct (read_node _).
Qed.

Lemma on_disk_sees {X} p d (w : World X) : on_disk p d w →
  sees (Some (Reg (d_key d))) (w_seal w !! FragmentName) (Some (d_rot d)) (w_rest w) w.
Proof. by intros (Hk & _ & Hr). Qed.

Lemma sees_on_disk {X} p d f (x : X) w b :
  sees (Some (Reg (d_key d))) f (Some (d_rot d)) x w → read_node f = Some b → parseFragment p b = Ok (d_frag d) →
  on_disk p d w.
Proof. intros (Hk & Hf & Hr & _) Hb Hp. split; [done|]. split; [exists b; by rewrite Hf|done]. Qed.

Lemma frag_ok_clean id : keyIDRE id = true → frag_ok (mkFragment Clean id EmptyString).
Proof. by split. Qed.
Lemma frag_ok_verify id : keyIDRE id = true → frag_ok (mkFragment Verify id EmptyString).
Proof. by split. Qed.
Lemma frag_ok_staged id q : keyIDRE id = true → keyIDRE q = true → q ≠ id → frag_ok (mkFragment Staged id q).
Proof. by split. Qed.

(** ** The file operations on what is on disk

    [R] is what is known of the rest of the state, which files never touch. *)
Section DiskOps.
Context {X : Type} (p : Paths) (F : nat → Fault) (rand : nat → string).
Context (Hp : paths_ok p) (HF : honest F) (HG : genuine F).
Implicit Types R : X → Prop.
#[local] Abbreviation have d R := (λ w : World X, on_disk p d w ∧ R (w_rest w)).

(** A world that differs from [w] in the key and rotation/ at most. *)
Lemma carry d d' R w w' : have d R w → d_frag d' = d_frag d →
  sees (Some (Reg (d_key d'))) (w_seal w !! FragmentName) (Some (d_rot d')) (w_rest w) w' → have d' R w'.
Proof using.
  intros [(_ & (b & Hb & Hpb) & _) HR] Hf Hs. rewrite <- Hf in Hpb.
  split; [by eapply sees_on_disk|]. destruct Hs as (_&_&_&E). by rewrite E.
Qed.

Lemma fragment_written f d R : frag_ok f →
  ensures (have d R) (WriteFragment p F rand f)
    (λ r, match r with Ok _ => have (reshape f d) R | Fail _ => have d R end)
    (λ w, have d R w ∨ have (reshape f d) R w).
Proof using Hp HF.
  intros Hf w Hd. destruct (render_parse p f Hp Hf) as (b & Hb & Hpb).
  pose proof (write_fragment_spec p F rand HF f b _ _ _ _ Hb w (on_disk_sees p d w (proj1 Hd))) as H.
  assert (Hnew : ∀ w', sees (Some (Reg (d_key d))) (Some (Reg b)) (Some (d_rot d)) (w_rest w) w' → have (reshape f d) R w').
  { intros w' H'. split; [by eapply (sees_on_disk p (reshape f d))|]. destruct H' as (_&_&_&E). rewrite E. apply Hd. }
  destruct (WriteFragment p F rand f w) as [[[[]|e]|] w'].
  - by apply Hnew.
  - by apply (carry d d R w w').
  - destruct H as [H|H]; [left; by apply (carry d d R w w')|right; by apply Hnew].
Qed.

Lemma seal_key_written k d R :
  ensures (have d R) (WriteSealKey F rand k)
    (λ r w, match r with Ok _ => String.length k = KeyBytes ∧ have (rekey k d) R w | Fail _ => have d R w end)
    (λ w, have d R w ∨ String.length k = KeyBytes ∧ have (rekey k d) R w).
Proof using HF.
  intros w Hd. pose proof (write_key_spec F rand HF k _ _ _ _ w (on_disk_sees p d w (proj1 Hd))) as H.
  destruct (WriteSealKey F rand k w) as [[[[]|e]|] w'].
  - destruct H as [Hl H]. split; [done|]. by apply (carry d (rekey k d) R w w').
  - by apply (carry d d R w w').
  - destruct H as [H|[Hl H]]; [left; by apply (carry d d R w w')|right].
    split; [done|]. by apply (carry d (rekey k d) R w w').
Qed.

Lemma rotation_key_written id k d R : keyIDRE id = true →
  ensures (have d R) (WriteRotationKey F rand id k)
    (λ r w, match r with
            | Ok _ => String.length k = KeyBytes ∧ have (rerot (<[id := Reg k]> (d_rot d)) d) R w
            | Fail _ => ∃ m, have (rerot m d) R w
            end)
    (λ w, ∃ m, have (rerot m d) R w).
Proof using HF.
  intros Hid w Hd.
  pose proof (write_rotation_spec F rand HF id k _ _ _ _ Hid w (on_disk_sees p d w (proj1 Hd))) as H.
  destruct (WriteRotationKey F rand id k w) as [[[[]|e]|] w'].
  - destruct H as [Hl H]. split; [done|]. by apply (carry d (rerot (<[id:=Reg k]> (d_rot d)) d) R w w').
  - destruct H as [m H]. exists m. by apply (carry d (rerot m d) R w w').
  - destruct H as [m H]. exists m. by apply (carry d (rerot m d) R w w').
Qed.

Lemma rotation_emptied d R :
  ensures (have d R) (RemoveRotation F)
    (λ r w, ∃ m, (r = Ok tt → m = ∅) ∧ have (rerot m d) R w) (λ w, ∃ m, have (rerot m d) R w).
Proof using HG.
  intros w Hd. pose proof (remove_rotation_spec F HG _ _ _ _ w (on_disk_sees p d w (proj1 Hd))) as H.
  destruct (RemoveRotation F w) as [[r|] w'].
  - destruct H as (m & _ & Hr & H). exists m. split; [done|]. by apply (carry d (rerot m d) R w w').
  - destruct H as (m & _ & H). exists m. by apply (carry d (rerot m d) R w w').
Qed.

Lemma rotation_key_read id d R :
  ensures (have d R) (ReadRotationKey F id)
    (λ r w, have d R w ∧ ∀ b, r = Ok b → read_node (d_rot d !! id) = Some b ∧ String.length b = KeyBytes)
    (have d R).
Proof using.
  intros w Hd. pose proof (read_rotation_spec F id _ _ _ _ w (on_disk_sees p d w (proj1 Hd))) as H.
  destruct (ReadRotationKey F id w) as [[r|] w'].
  - destruct H as [H Hb]. split; [by apply (carry d d R w w')|done].
  - by apply (carry d d R w w').
Qed.

(** The tree [State] returns, read off what is on disk. *)
Lemma state_read d R :
  ensures (have d R) (State p F)
    (λ r w, have d R w ∧ ∀ t, r = Ok t → t_Fragment t = d_frag d ∧
       t_Resume t = match f_Shape (d_frag d) with
                    | Clean => if bool_decide (d_rot d = ∅) then Fresh else CleanUp
                    | Staged => RewrapFirst
                    | Verify => VerifyThenSettle
                    end)
    (have d R).
Proof using.
  intros w Hd. pose proof Hd as [(_ & (b0 & Hb0 & Hpb0) & _) HR].
  pose proof (State_spec p F _ _ _ _ w (on_disk_sees p d w (proj1 Hd))) as H.
  destruct (State p F w) as [[r|] w']; [|by apply (carry d d R w w')].
  destruct H as [Hs Ht]. split; [by apply (carry d d R w w')|].
  intros t Et. specialize (Ht t Et). unfold tree_of in Ht. rewrite Hb0 in Ht.
  cbn [mbind option_bind] in Ht. rewrite Hpb0 in Ht.
  match type of Ht with context [if is_key ?k then _ else _] => destruct (is_key k) end; [|done].
  destruct (f_Shape (d_frag d)); simplify_eq/=.
  - split; [done|]. by rewrite (bool_decide_ext _ _ (names_of_nil (d_rot d))).
  - by case_match; simplify_eq/=.
  - by case_match; simplify_eq/=.
Qed.
End DiskOps.

(** ** Assertions about a run *)
Section Run.
Context {St : Type} `{!SecretStore St} `{!StoreLaws St} `{Env : !SealEnv} (p : Paths) (enabled : bool) (j : string).
Context (Hp : paths_ok p) (HF : honest e_fault) (HG : genuine e_fault).
Context (Hid : ∀ t id, e_keyid t = Ok id → keyIDRE id = true).
#[local] Abbreviation W := (World (Rot St)).
#[local] Abbreviation IO := (Crash.IO W).
Implicit Types (x : Rot St) (d : disk) (ru : run) (wp : option Key → Prop) (cp : Key → Prop).

(** No restart was asked of an open store that could not open again. *)
Definition restarts_ok x : Prop :=
  truthful St → Forall (λ e, rs_open e = true → opens (rs_config e) (rs_wrap e)) (r_restarts x).
(** The running process uses a key the configuration on disk names. *)
Definition tame d x : Prop := ∀ c pv, st_loaded (r_store x) = Some (c, pv) → named c (config d).

(** The state between two calls of the rotation, and wherever it stops. *)
Definition safe_with (d : disk) (w : W) : Prop :=
  on_disk p d w ∧ well d ∧ wrap_ok d (st_wrap (r_store (w_rest w))) ∧ restarts_ok (w_rest w).
Definition stopped (w : W) : Prop :=
  ∃ d, safe_with d w ∧ (tame d (w_rest w) ∨ f_Shape (d_frag d) = Clean).

(** What a step knows of the rotator and the store: the run, which keys may
    wrap the root key ([wp]), which keys the running process may use ([cp]). *)
Definition knows ru wp cp x : Prop :=
  (∃ t, r_runs x !! j = Some (set_token t ru)) ∧
  wp (st_wrap (r_store x)) ∧
  (∀ c pv, st_loaded (r_store x) = Some (c, pv) → cp c) ∧
  restarts_ok x ∧
  (truthful St → st_wrap (r_store x) = None → ru_storeUp ru = false → st_open (r_store x) = false).
#[local] Abbreviation have d ru wp cp := (λ w : W, on_disk p d w ∧ knows ru wp cp (w_rest w)).

(** The key a start on [d] would use may be used. *)
Definition current_in d cp : Prop := ∀ c pv, config d = Some (c, pv) → cp c.
Definition is_current d : Key → Prop := λ k, ∃ pv, config d = Some (k, pv).
(** These facts make a stop harmless. *)
Definition fine d wp cp : Prop :=
  well d ∧ (∀ wr, wp wr → wrap_ok d wr) ∧ ((∀ k, cp k → named k (config d)) ∨ f_Shape (d_frag d) = Clean).

Lemma have_stopped d ru wp cp w : fine d wp cp → have d ru wp cp w → stopped w.
Proof using.
  intros (Hw & Hwr & Hc) [Hd (_ & H2 & H3 & H4 & _)]. exists d. split.
  - unfold safe_with. auto.
  - destruct Hc as [Hc|]; [left|by right]. intros c pv H. by eapply Hc, H3.
Qed.

Lemma is_current_fine d k : is_current d k → named k (config d).
Proof. intros [pv H]. exists k, pv. auto. Qed.

Lemma knows_drift d ru wp cp x : current_in d cp → knows ru wp cp x →
  knows ru wp cp (set_store (st_boot (config d) (r_store x)) x).
Proof using StoreLaws0.
  intros Hc (H1 & H2 & H3 & H4 & H5). destruct (boot_law (config d) (r_store x)) as (Ew & El & Eo).
  unfold knows; split_and!; simpl; auto; [by rewrite Ew|]. rewrite El. apply Hc.
Qed.

(** A call of the store, or of the rotator's own tables; somebody else may have
    restarted the store just before. *)
Lemma ext_gen {A} d (R : Rot St → Prop) (f : nat → option Config → Rot St → A * Rot St) (Q : A → W → Prop) :
  (∀ x, R x → R (set_store (st_boot (config d) (r_store x)) x)) →
  (∀ w, on_disk p d w → R (w_rest w) → stopped w) →
  (∀ t x w a x', on_disk p d w → R x → f t (config d) x = (a, x') → Q a (set_rest x' w)) →
  ensures (λ w, on_disk p d w ∧ R (w_rest w)) (ext p f) Q stopped.
Proof using.
  intros Hb Hs HQ w [Hd Hk].
  assert (Hk' : R (drift p w)).
  { unfold drift. rewrite (on_disk_config p d w Hd). destruct (e_drift _); [by apply Hb|done]. }
  assert (Hn : on_disk p d (w_next w)) by (destruct Hd as (?&?&?); done).
  unfold ext. rewrite (on_disk_config p d w Hd).
  destruct (e_fault (w_tick w)); try (by apply Hs);
    destruct (f (w_tick w) (config d) (drift p w)) as [a x'] eqn:E; by eapply HQ.
Qed.

Lemma ext_spec {A} d ru wp cp (f : nat → option Config → Rot St → A * Rot St) (Q : A → W → Prop) :
  fine d wp cp → current_in d cp →
  (∀ t x w a x', on_disk p d w → knows ru wp cp x → f t (config d) x = (a, x') → Q a (set_rest x' w)) →
  ensures (have d ru wp cp) (ext p f) Q stopped.
Proof using StoreLaws0.
  intros Hf Hc HQ. apply ext_gen; [intros x; by apply knows_drift| |done].
  intros w Hd Hk. by apply (have_stopped d ru wp cp).
Qed.

Lemma on_disk_rest d x (w : W) : on_disk p d w → on_disk p d (set_rest x w).
Proof using. done. Qed.

Lemma health_spec d ru wp cp : fine d wp cp → current_in d cp →
  ensures (have d ru wp cp) (Store_Health p) (λ _, have d ru wp cp) stopped.
Proof using StoreLaws0.
  intros Hf Hc. apply ext_spec; [done..|]. intros t x w h x' Hd (H1 & H2 & H3 & H4 & H5).
  destruct (st_health t (r_store x)) as [h' s'] eqn:E. intros [= <- <-].
  destruct (health_law _ _ _ _ E) as (Ew & El & Eo & _). split; [done|].
  unfold knows; split_and!; simpl; auto; [by rewrite Ew|by rewrite El|].
  intros Ht Hn Hu. rewrite Ew in Hn. specialize (H5 Ht Hn Hu).
  destruct (st_open s'); [|done]. destruct (Eo eq_refl) as [Ho|(k & Hk & _)]; congruence.
Qed.

Lemma login_spec d ru wp cp : fine d wp cp → current_in d cp →
  ensures (have d ru wp cp) (Rotate_CertLogin p) (λ _, have d ru wp cp) stopped.
Proof using StoreLaws0.
  intros Hf Hc. apply ext_spec; [done..|]. intros t x w h x' Hd (H1 & H2 & H3 & H4 & H5).
  destruct (st_login t (r_store x)) as [h' s'] eqn:E. intros [= <- <-].
  destruct (login_law _ _ _ _ E) as (Ew & El & Eo). split; [done|].
  unfold knows; split_and!; simpl; auto; rewrite ?Ew, ?El, ?Eo; auto.
Qed.

Lemma put_token_spec d ru wp cp tok :
  ensures (have d ru wp cp) (put_run j (set_token tok ru)) (λ _, have d ru wp cp) stopped.
Proof using.
  intros w [Hd (H1 & H2 & H3 & H4 & H5)]. split; [done|]. unfold knows; split_and!; auto.
  exists tok. simpl. apply lookup_insert_eq.
Qed.

(** After a successful re-wrap the root key is under a key the process uses. *)
Definition wrapped_in cp : option Key → Prop := λ wr, ∃ k, wr = Some k ∧ cp k.

Lemma rotate_spec d ru wp cp tok : fine d wp cp → current_in d cp →
  f_Shape (d_frag d) = Staged → (∀ k, cp k → named k (config d)) →
  ensures (have d ru wp cp) (Rotate_RotateRoot p tok)
    (λ r w, match r with Ok _ => have d ru (wrapped_in cp) cp w | Fail _ => stopped w end) stopped.
Proof using StoreLaws0.
  intros Hf Hc Hs Hcp. apply ext_spec; [done..|]. intros t x w r x' Hd (H1 & H2 & H3 & H4 & H5).
  destruct (st_rotate t tok (r_store x)) as [r' s'] eqn:E. intros [= <- <-].
  destruct (rotate_law _ _ _ _ _ E) as (El & Eo & Er). destruct r' as [[]|e].
  - destruct Er as (c & pv & Hl & Hw). split; [done|].
    assert (cp c) by (by eapply H3). unfold knows; split_and!; simpl; auto.
    + exists c. auto.
    + by rewrite El.
    + by rewrite Hw.
  - exists d. destruct Hf as (Hw & Hwr & _). split; [unfold safe_with; split_and!; [done|done| |done]|].
    + simpl. destruct Er as [-> |[-> |(c & pv & Hl & ->)]]; simpl; [by apply Hwr|done|]. by eapply Hcp, H3.
    + left. intros c pv. simpl. rewrite El. intros Hl. by eapply Hcp, H3.
Qed.

Lemma rotateRoot_spec d ru wp cp tok : fine d wp cp → current_in d cp →
  f_Shape (d_frag d) = Staged → (∀ k, cp k → named k (config d)) →
  ensures (have d ru wp cp) (rotateRoot p j (set_token tok ru))
    (λ r w, match r with Ok _ => have d ru (wrapped_in cp) cp w | Fail _ => stopped w end) stopped.
Proof using StoreLaws0.
  intros Hf Hc Hs Hcp. unfold rotateRoot. destruct (String.eqb _ _); [|by apply rotate_spec].
  eapply ensures_bind; [by apply login_spec|]. intros [t|e]; [|by intros w Hw; eapply have_stopped].
  change (set_token t (set_token tok ru)) with (set_token t ru).
  eapply ensures_seq; [apply put_token_spec|]. by apply rotate_spec.
Qed.

(** A restart is harmless when the root key opens on what is on disk, or the
    store is down. *)
Definition restartable d ru wp : Prop :=
  ∀ wr, wp wr → opens (config d) wr ∨ wr = None ∧ ru_storeUp ru = false.

Lemma Restart_spec d ru wp cp : fine d wp cp → current_in d cp → restartable d ru wp →
  ensures (have d ru wp cp) (Restart p)
    (λ r w, match r with Ok _ => have d ru wp (is_current d) w | Fail _ => have d ru wp cp w end) stopped.
Proof using StoreLaws0.
  intros Hf Hc Hr. apply ext_spec; [done..|]. intros t x w r x' Hd (H1 & H2 & H3 & H4 & H5).
  cbv zeta. destruct (st_restart t (config d) (r_store x)) as [r' s'] eqn:E. intros [= <- <-].
  destruct (restart_law _ _ _ _ _ E) as (Ew & El).
  assert (Htr : restarts_ok (add_restart (mkRestarted (st_open (r_store x)) (config d) (st_wrap (r_store x)))
                                         (set_store s' x))).
  { intros Ht. simpl. apply Forall_app. split; [by apply H4|]. constructor; [|constructor]. simpl.
    destruct (Hr _ H2) as [Ho|[Hn Hu]]; [done|]. rewrite (H5 Ht Hn Hu). done. }
  assert (Hdown : truthful St → st_wrap s' = None → ru_storeUp ru = false → st_open s' = false).
  { intros Ht Hn Hu. rewrite Ew in Hn. destruct El as [[_ ?]|(? & _ & [[_ Ho]|[_ ?]])]; [done|rewrite Ho; auto|done]. }
  assert (Hcur : st_loaded s' = config d → ∀ c pv, st_loaded s' = Some (c, pv) → is_current d c).
  { intros Hl c pv Hx. exists pv. by rewrite <- Hl. }
  destruct r' as [[]|e]; (split; [done|]); unfold knows; split_and!; simpl; auto; rewrite ?Ew; auto.
  - destruct El as [[Hl _]|(? & ? & _)]; [by apply Hcur|done].
  - intros c pv Hx. destruct El as [[Hl _]|(? & _ & [[Hl _]|[Hl _]])].
    + apply (Hc c pv). by rewrite <- Hl.
    + apply (H3 c pv). by rewrite <- Hl.
    + by rewrite Hl in Hx.
Qed.

Lemma poll_spec n d ru wp cp : fine d wp cp → current_in d cp →
  ensures (have d ru wp cp) (poll_ready p n) (λ _, have d ru wp cp) stopped.
Proof using StoreLaws0.
  intros Hf Hc. induction n as [|n IH]; simpl;
    (apply (ensures_bind _ _ _ (λ _, have d ru wp cp)); [by apply health_spec|]; intros h; destruct (String.eqb _ _)).
  1,2,3: by intros w Hw. exact IH.
Qed.

Lemma is_current_in d : current_in d (is_current d).
Proof. intros c pv H. by exists pv. Qed.
Lemma fine_current d wp cp : fine d wp cp → fine d wp (is_current d).
Proof. intros (?&?&_). split_and!; auto. left. apply is_current_fine. Qed.

(** After a restart that opened, the process runs on what is on disk. *)
Lemma restartAndWait_spec d ru wp cp : fine d wp cp → current_in d cp → restartable d ru wp →
  ensures (have d ru wp cp) (restartAndWait p)
    (λ r w, match r with Ok _ => have d ru wp (is_current d) w | Fail _ => have d ru wp cp w end) stopped.
Proof using StoreLaws0.
  intros Hf Hc Hr. unfold restartAndWait. eapply ensures_bind; [by apply Restart_spec|].
  intros [[]|e]; [|by intros w Hw].
  intros w Hw. unfold waitReady.
  pose proof (poll_spec (e_polls (w_tick w)) d ru wp (is_current d) (fine_current d wp cp Hf) (is_current_in d) w Hw) as H.
  destruct (poll_ready p _ w) as [[[[]|e]|] w']; auto.
  destruct H as [Hd (H1 & H2 & H3 & H4 & H5)]. split; [done|]. unfold knows; split_and!; auto.
  intros c pv Hl. destruct (H3 c pv Hl) as [pv' H']. by eapply Hc.
Qed.

(** ** The three directories of a run *)
Definition clean_disk (c kb : string) (m : gmap string Node) : disk := mkDisk (mkFragment Clean c EmptyString) kb m.
Definition staged_disk (c nb q kb : string) : disk := mkDisk (mkFragment Staged c q) kb {[ c := Reg nb ]}.
Definition verify_disk (c nb kb : string) : disk := mkDisk (mkFragment Verify c EmptyString) kb {[ c := Reg nb ]}.

Definition is_key_pair (c b : string) : Prop := keyIDRE c = true ∧ String.length b = KeyBytes.
#[local] Abbreviation just k := (λ k' : Key, k' = k).
#[local] Abbreviation wrapped k := (λ wr : option Key, wr = Some k).

Lemma config_clean c kb m : config (clean_disk c kb m) = Some ((c, kb), None).
Proof. done. Qed.
Lemma config_staged c nb q kb : config (staged_disk c nb q kb) = Some ((c, nb), Some (q, kb)).
Proof. unfold config. simpl. by rewrite lookup_singleton_eq. Qed.
Lemma config_verify c nb kb : config (verify_disk c nb kb) = Some ((c, nb), None).
Proof. unfold config. simpl. by rewrite lookup_singleton_eq. Qed.

Lemma named_clean k c kb m : named k (config (clean_disk c kb m)) ↔ k = (c, kb).
Proof. rewrite config_clean. split; [intros (?&?&[= <- <-]&[?|?]); done|intros ->; eexists _, _; eauto]. Qed.
Lemma named_verify k c nb kb : named k (config (verify_disk c nb kb)) ↔ k = (c, nb).
Proof. rewrite config_verify. split; [intros (?&?&[= <- <-]&[?|?]); done|intros ->; eexists _, _; eauto]. Qed.
Lemma named_staged k c nb q kb : named k (config (staged_disk c nb q kb)) ↔ k = (c, nb) ∨ k = (q, kb).
Proof.
  rewrite config_staged. split; [intros (?&?&[= <- <-]&[?|[= <-]]); auto|].
  intros [-> | ->]; eexists _, _; eauto.
Qed.
Lemma current_staged k c nb q kb : is_current (staged_disk c nb q kb) k ↔ k = (c, nb).
Proof. unfold is_current. rewrite config_staged. split; [by intros [? [= <-]]|intros ->; eauto]. Qed.

Lemma clean_well c kb m : is_key_pair c kb → well (clean_disk c kb m).
Proof. intros [??]. by repeat split. Qed.
Lemma staged_well c nb q kb : is_key_pair c nb → is_key_pair q kb → q ≠ c → well (staged_disk c nb q kb).
Proof. intros [??] [??] ?. repeat split; auto. intros _. by exists nb. Qed.
Lemma verify_well c nb kb : is_key_pair c nb → String.length kb = KeyBytes → well (verify_disk c nb kb).
Proof. intros [??] ?. repeat split; auto. intros _. by exists nb. Qed.

Lemma clean_fine c kb m cp : is_key_pair c kb → fine (clean_disk c kb m) (wrapped (c, kb)) cp.
Proof. intros H. split; [by apply clean_well|]. split; [|by right]. intros wr ->. by apply named_clean. Qed.
Lemma staged_fine c nb q kb wp cp : is_key_pair c nb → is_key_pair q kb → q ≠ c →
  (∀ wr, wp wr → wrap_ok (staged_disk c nb q kb) wr) → (∀ k, cp k → k = (c, nb) ∨ k = (q, kb)) →
  fine (staged_disk c nb q kb) wp cp.
Proof.
  intros H1 H2 H3 Hw Hc. split; [by apply staged_well|]. split; [done|]. left.
  intros k Hk. apply named_staged, Hc, Hk.
Qed.
Lemma verify_fine c nb kb : is_key_pair c nb → String.length kb = KeyBytes →
  fine (verify_disk c nb kb) (wrapped (c, nb)) (just (c, nb)).
Proof.
  intros H1 H2. split; [by apply verify_well|]. split; [intros wr ->; by apply named_verify|].
  left. intros k ->. by apply named_verify.
Qed.

Lemma knows_weaken ru (wp wp' : option Key → Prop) (cp cp' : Key → Prop) x :
  knows ru wp cp x → (∀ wr, wp wr → wp' wr) → (∀ k, cp k → cp' k) → knows ru wp' cp' x.
Proof using. intros (?&?&?&?&?) Hw Hc. unfold knows. split_and!; eauto. Qed.

(** A step starts by looking its run up. *)
Lemma get_run_spec {A} d ru wp cp (k : option run → IO A) Q C :
  (∀ t, ensures (have d ru wp cp) (k (Some (set_token t ru))) Q C) →
  ensures (have d ru wp cp) (o <- get_run j; k o) Q C.
Proof using.
  intros H w Hw. pose proof Hw as [_ ([t Ht] & _)]. unfold bind, get_run. rewrite Ht. by apply H.
Qed.

(** ** Where a run is between its steps *)

(** A clean directory with leftovers, and a directory on the new key alone:
    the steps before their own leave these as they are. *)
Definition tidying ru w : Prop :=
  ru_fresh ru = false ∧ t_Resume (ru_tree ru) = CleanUp ∧
  ∃ c kb m, ru_cur ru = c ∧ is_key_pair c kb ∧ have (clean_disk c kb m) ru (wrapped (c, kb)) (λ _, True) w.
Definition proving ru w : Prop :=
  ru_fresh ru = false ∧ t_Resume (ru_tree ru) = VerifyThenSettle ∧ ru_prev ru = EmptyString ∧
  ∃ c nb kb, ru_cur ru = c ∧ is_key_pair c nb ∧ String.length kb = KeyBytes ∧
    have (verify_disk c nb kb) ru (wrapped (c, nb)) (just (c, nb)) w.
(** A staged directory, with what is known of the store. *)
Definition staged_at ru (wp : Key → Key → option Key → Prop) (cp : Key → Key → Key → Prop) w : Prop :=
  t_Resume (ru_tree ru) ≠ CleanUp ∧
  ∃ c nb q kb, ru_cur ru = c ∧ ru_prev ru = q ∧ is_key_pair c nb ∧ is_key_pair q kb ∧ q ≠ c ∧
    have (staged_disk c nb q kb) ru (wp (c, nb) (q, kb)) (cp (c, nb) (q, kb)) w.
#[local] Abbreviation either := (λ k1 k2 k : Key, k = k1 ∨ k = k2).
#[local] Abbreviation any_wrap := (λ (k1 k2 : Key) (wr : option Key), wr = Some k1 ∨ wr = Some k2 ∨ wr = None).

Definition fresh_now ru w : Prop :=
  ru_fresh ru = true ∧ t_Resume (ru_tree ru) = Fresh ∧
  ∃ c kb, ru_cur ru = c ∧ is_key_pair c kb ∧ have (clean_disk c kb ∅) ru (wrapped (c, kb)) (just (c, kb)) w.
Definition resuming ru w : Prop :=
  ru_fresh ru = false ∧ t_Resume (ru_tree ru) = RewrapFirst ∧ staged_at ru any_wrap either w.
Definition freshly_staged ru w : Prop :=
  ru_fresh ru = true ∧ staged_at ru (λ _ k2 wr, wr = Some k2) either w.
Definition opened ru w : Prop :=
  ru_fresh ru || bool_decide (t_Resume (ru_tree ru) = RewrapFirst) = true ∧ staged_at ru any_wrap (λ k1 _ k, k = k1) w.
Definition rewrapped ru w : Prop := staged_at ru (λ k1 _ wr, wr = Some k1) (λ k1 _ k, k = k1) w.
Definition proved ru w : Prop :=
  t_Resume (ru_tree ru) ≠ CleanUp ∧
  ∃ c nb kb, ru_cur ru = c ∧ is_key_pair c nb ∧ String.length kb = KeyBytes ∧
    have (verify_disk c nb kb) ru (wrapped (c, nb)) (just (c, nb)) w.
(** The new key alone, in place. *)
Definition settled (out : Outcome) (w : W) : Prop :=
  ∃ c kb q, (out = Rotated c q ∨ out = Resumed c q) ∧ is_key_pair c kb ∧ on_disk p (clean_disk c kb ∅) w ∧ st_wrap (r_store (w_rest w)) = Some (c, kb).

Lemma staged_at_stopped ru wq cq w : staged_at ru wq cq w →
  (∀ k1 k2 wr, wq k1 k2 wr → wr = Some k1 ∨ wr = Some k2 ∨ wr = None) →
  (∀ k1 k2 k, cq k1 k2 k → k = k1 ∨ k = k2) → stopped w.
Proof using.
  intros (_ & c & nb & q & kb & _ & _ & H1 & H2 & Hn & Hw) Hwp Hcp.
  eapply have_stopped; [|exact Hw]. apply staged_fine; auto.
  intros wr Hwr. destruct (Hwp _ _ _ Hwr) as [-> |[-> | ->]]; simpl; try done; apply named_staged; auto.
Qed.

(** ** The steps *)
#[local] Abbreviation ends Q := (λ (r : result unit) (w : W), match r with Ok _ => Q w | Fail _ => stopped w end).

Lemma just_current_clean c kb m : current_in (clean_disk c kb m) (just (c, kb)).
Proof. by intros ?? [= <- <-]. Qed.
Lemma true_current d : current_in d (λ _, True).
Proof. done. Qed.

Lemma stageFailed_spec c kb m ru cp (Q : W → Prop) : is_key_pair c kb →
  ensures (have (clean_disk c kb m) ru (wrapped (c, kb)) cp) (stageFailed (St := St)) (ends Q) stopped.
Proof using HG.
  intros Hc. assert (Hst : ∀ m' w, have (rerot m' (clean_disk c kb m)) ru (wrapped (c, kb)) cp w → stopped w).
  { intros m' w Hw. eapply have_stopped, Hw. by apply clean_fine. }
  unfold stageFailed. eapply ensures_seq; [|by intros w Hw; exact Hw].
  eapply ensures_conseq; [by apply (rotation_emptied p e_fault HG (clean_disk c kb m) (knows ru (wrapped (c, kb)) cp))|done| |].
  - intros r w (m' & _ & Hw). by eapply Hst.
  - intros w (m' & Hw). by eapply Hst.
Qed.

Lemma put_keys_spec d ru wp cp cur prev t :
  ensures (have d ru wp cp) (put_run j (set_keys cur prev (set_token t ru)))
    (λ _, have d (set_keys cur prev ru) wp cp) stopped.
Proof using.
  intros w [Hd (H1 & H2 & H3 & H4 & H5)]. split; [done|]. unfold knows. split_and!; auto.
  exists t. simpl. apply lookup_insert_eq.
Qed.

Lemma stage_fresh ru : ensures (fresh_now ru) (stage_step p j) (ends (λ w, ∃ ru, freshly_staged ru w)) stopped.
Proof using Hp HF HG Hid StoreLaws0.
  intros w (Hfr & Hres & c & kb & Hcur & Hc & Hw). revert w Hw.
  pose proof (clean_fine c kb ∅ (just (c, kb)) Hc) as Hf. pose proof (just_current_clean c kb ∅) as Hcu.
  assert (Hst : ∀ ru w, have (clean_disk c kb ∅) ru (wrapped (c, kb)) (just (c, kb)) w → stopped w).
  { intros ru' w Hw. by eapply have_stopped. }
  apply get_run_spec. intros t. simpl. rewrite Hfr. simpl.
  apply (ensures_bind _ _ _ (λ r w, (∀ id, r = Ok id → keyIDRE id = true) ∧
    have (clean_disk c kb ∅) ru (wrapped (c, kb)) (just (c, kb)) w)).
  { apply ext_spec; [done..|]. intros t' x w a x' Hd Hk [= <- <-]. split; [|done]. apply Hid. }
  intros [id|e]; [|by intros w [_ Hw]; eapply Hst]. apply ensures_assume; intros Hi. specialize (Hi id eq_refl).
  destruct (String.eqb_spec id (ru_cur ru)) as [|Hne]; [by intros w Hw; eapply Hst|].
  apply (ensures_bind _ _ _ (λ _, have (clean_disk c kb ∅) ru (wrapped (c, kb)) (just (c, kb)))).
  { apply ext_spec; [done..|]. by intros t' x w a x' Hd Hk [= <- <-]. }
  intros [key|e]; [|by intros w Hw; eapply Hst].
  eapply ensures_seq; [apply put_keys_spec|]. rewrite Hcur. set (ru' := set_keys id c ru).
  eapply ensures_bind.
  { eapply ensures_conseq; [by apply (rotation_key_written p e_fault e_rand HF id key (clean_disk c kb ∅)
      (knows ru' (wrapped (c, kb)) (just (c, kb))) Hi)|done|intros r w Hw; exact Hw|].
    intros w (m & Hw). eapply have_stopped, Hw. by apply clean_fine. }
  intros [[]|e]; [|by intros w [m Hw]; exact (stageFailed_spec c kb m _ _ _ Hc w Hw)].
  apply ensures_assume; intros Hkey.
  change (rerot (<[id:=Reg key]> (d_rot (clean_disk c kb ∅))) (clean_disk c kb ∅)) with (clean_disk c kb {[ id := Reg key ]}).
  assert (Hnew : ∀ w, have (staged_disk id key c kb) ru' (wrapped (c, kb)) (just (c, kb)) w → freshly_staged ru' w).
  { intros w [Hd Hk]. split; [exact Hfr|]. split; [unfold ru'; simpl; by rewrite Hres|]. exists id, key, c, kb.
    split_and!; [done|done|done|done|congruence|done|]. eapply knows_weaken; [exact Hk|done|]. intros k ->. by right. }
  eapply ensures_bind.
  { eapply ensures_conseq; [apply (fragment_written p e_fault e_rand Hp HF (mkFragment Staged id c)
      (clean_disk c kb {[ id := Reg key ]}) (knows ru' (wrapped (c, kb)) (just (c, kb))))|done|intros r w Hw; exact Hw|].
    { apply frag_ok_staged; [done|apply Hc|congruence]. }
    intros w [Hw|Hw]; [eapply have_stopped, Hw; by apply clean_fine|].
    apply Hnew in Hw as [_ Hw]. eapply staged_at_stopped; [exact Hw|auto|auto]. }
  intros [[]|e]; [intros w Hw; eexists; by apply Hnew|]. by apply stageFailed_spec.
Qed.

Lemma staged_current c nb q kb : current_in (staged_disk c nb q kb) (just (c, nb)).
Proof. intros k pv. rewrite config_staged. by intros [= <- _]. Qed.
Lemma verify_current c nb kb : current_in (verify_disk c nb kb) (just (c, nb)).
Proof. intros k pv. rewrite config_verify. by intros [= <- _]. Qed.
Lemma current_weaken d (cp cp' : Key → Prop) : current_in d cp → (∀ k, cp k → cp' k) → current_in d cp'.
Proof. intros H Hc c pv E. by eapply Hc, H. Qed.
Lemma any_wrap_ok c nb q kb wr : any_wrap (c, nb) (q, kb) wr → wrap_ok (staged_disk c nb q kb) wr.
Proof. intros [-> |[-> | ->]]; simpl; try done; apply named_staged; auto. Qed.
Lemma opens_staged c nb q kb k : either (c, nb) (q, kb) k → opens (config (staged_disk c nb q kb)) (Some k).
Proof. intros H. exists k. split; [done|]. by apply named_staged. Qed.

(** The roll-back may leave the process on the staged key, never the disk. *)
Lemma rollBack_spec c nb q kb ru tok (Q : W → Prop) :
  is_key_pair q kb → ru_prev ru = q →
  is_key_pair c nb → q ≠ c →
  ensures (have (staged_disk c nb q kb) ru (wrapped (q, kb)) (either (c, nb) (q, kb)))
    (rollBack p (set_token tok ru)) (ends Q) stopped.
Proof using Hp HF HG StoreLaws0.
  intros Hq Hprev Hc Hne. unfold rollBack. cbn [ru_prev set_token]. rewrite Hprev.
  set (cl := clean_disk q kb {[ c := Reg nb ]}).
  assert (Hst : ∀ w, have (staged_disk c nb q kb) ru (wrapped (q, kb)) (either (c, nb) (q, kb)) w → stopped w).
  { intros w Hw. eapply have_stopped, Hw. apply staged_fine; auto. intros wr ->. apply named_staged. auto. }
  assert (Hfc : fine cl (wrapped (q, kb)) (either (c, nb) (q, kb))) by by apply clean_fine.
  eapply ensures_bind.
  { eapply ensures_conseq; [apply (fragment_written p e_fault e_rand Hp HF (mkFragment Clean q EmptyString)
      (staged_disk c nb q kb) (knows ru (wrapped (q, kb)) (either (c, nb) (q, kb))))|done|intros r w Hw; exact Hw|].
    { apply frag_ok_clean, Hq. }
    intros w [Hw|Hw]; [by apply Hst|by eapply (have_stopped cl)]. }
  intros [[]|e]; [|by intros w Hw; apply Hst].
  change (reshape (mkFragment Clean q EmptyString) (staged_disk c nb q kb)) with cl.
  eapply (ensures_bind _ _ _ (λ _ w, ∃ cp, have cl ru (wrapped (q, kb)) cp w)).
  { eapply ensures_conseq; [apply (Restart_spec cl ru (wrapped (q, kb)) (either (c, nb) (q, kb)))|done| |done]; [done| | |].
    - intros k pv [= <- _]. by right.
    - intros wr ->. left. exists (q, kb). split; [done|]. by apply named_clean.
    - intros [[]|e] w Hw; eauto. }
  intros _ w [cp Hw]. revert w Hw.
  eapply ensures_seq; [|by intros w Hw; exact Hw].
  eapply ensures_conseq; [by apply (rotation_emptied p e_fault HG cl (knows ru (wrapped (q, kb)) cp))|done| |].
  - intros r w (m' & _ & Hw). eapply have_stopped, Hw. by apply clean_fine.
  - intros w (m' & Hw). eapply have_stopped, Hw. by apply clean_fine.
Qed.

Lemma unseal_fresh ru : ensures (freshly_staged ru) (unsealStaged p j) (ends (λ w, ∃ ru, opened ru w)) stopped.
Proof using Hp HF HG StoreLaws0.
  intros w (Hfr & Hcu & c & nb & q & kb & Hcur & Hprev & Hc & Hq & Hne & Hw). revert w Hw.
  apply get_run_spec. intros t. simpl. rewrite Hfr.
  eapply ensures_bind.
  { apply restartAndWait_spec.
    - apply staged_fine; auto. intros wr ->. apply any_wrap_ok. auto.
    - eapply current_weaken; [apply staged_current|auto].
    - intros wr ->. left. by apply opens_staged; auto. }
  intros [[]|e]; [|by apply rollBack_spec].
  intros w [Hd Hk]. exists ru. split; [by rewrite Hfr|]. split; [done|]. exists c, nb, q, kb. split_and!; auto.
  eapply knows_weaken; [exact Hk|auto|]. intros k. by rewrite current_staged.
Qed.

Lemma unseal_resume ru : ensures (resuming ru) (unsealStaged p j) (ends (λ w, ∃ ru, opened ru w)) stopped.
Proof using StoreLaws0.
  intros w (Hfr & Hres & Hcu & c & nb & q & kb & Hcur & Hprev & Hc & Hq & Hne & Hw). revert w Hw.
  assert (Hf : ∀ wp : option Key → Prop, (∀ wr, wp wr → any_wrap (c, nb) (q, kb) wr) →
    fine (staged_disk c nb q kb) wp (either (c, nb) (q, kb))).
  { intros wp Hwp. apply staged_fine; auto. intros wr Hwr. by apply any_wrap_ok, Hwp. }
  assert (Hci : current_in (staged_disk c nb q kb) (either (c, nb) (q, kb))).
  { eapply current_weaken; [apply staged_current|auto]. }
  apply get_run_spec. intros t. simpl. rewrite Hfr, bool_decide_true by done.
  apply (ensures_bind _ _ _ (λ r w, match r with
    | Ok _ => ∃ wp : option Key → Prop, (∀ wr, wp wr → any_wrap (c, nb) (q, kb) wr) ∧ restartable (staged_disk c nb q kb) ru wp ∧
        have (staged_disk c nb q kb) ru wp (either (c, nb) (q, kb)) w
    | Fail _ => stopped w end)).
  { destruct (ru_storeUp ru) eqn:Hup.
    - eapply ensures_conseq; [apply (rotateRoot_spec (staged_disk c nb q kb) ru (any_wrap (c, nb) (q, kb))
        (either (c, nb) (q, kb)) t); auto|done| |done].
      + intros k. by rewrite named_staged.
      + intros [[]|e] w Hw; [|done]. eexists. split; [|split; [|exact Hw]].
        * intros wr (k & -> & [-> | ->]); auto.
        * intros wr (k & -> & Hk). left. by apply opens_staged.
    - intros w Hw. simpl. eexists. split; [|split; [|exact Hw]]; [auto|].
      intros wr [-> |[-> | ->]]; [left; apply opens_staged; auto..|by right]. }
  intros [[]|e]; [|by intros w Hw]. intros w (wp & Hwp & Hre & Hw). revert w Hw.
  eapply ensures_bind; [apply restartAndWait_spec; auto|].
  intros [[]|e]; [|by intros w Hw; eapply have_stopped, Hw; auto].
  intros w [Hd Hk]. exists ru. split; [by rewrite Hres, orb_true_r|]. split; [done|]. exists c, nb, q, kb. split_and!; auto.
  eapply knows_weaken; [exact Hk|auto|]. intros k. by rewrite current_staged.
Qed.

Lemma rewrap_opened ru : ensures (opened ru) (rewrap p j) (ends (λ w, ∃ ru, rewrapped ru w)) stopped.
Proof using StoreLaws0.
  intros w (Hor & Hcu & c & nb & q & kb & Hcur & Hprev & Hc & Hq & Hne & Hw). revert w Hw.
  apply get_run_spec. intros t. simpl. rewrite Hor. simpl.
  eapply ensures_bind.
  { apply (rotateRoot_spec (staged_disk c nb q kb) ru (any_wrap (c, nb) (q, kb)) (just (c, nb)) t).
    - apply staged_fine; auto. intros wr. apply any_wrap_ok.
    - apply staged_current.
    - done.
    - intros k ->. apply named_staged. auto. }
  intros [[]|e]; [|by intros w Hw]. intros w [Hd Hk]. exists ru. split; [done|]. exists c, nb, q, kb. split_and!; auto.
  eapply knows_weaken; [exact Hk| |done]. by intros wr (k & -> & ->).
Qed.

Lemma writeAndOpen_spec f d ru wp cp :
  frag_ok f → fine d wp cp → fine (reshape f d) wp cp → current_in (reshape f d) cp → restartable (reshape f d) ru wp →
  ensures (have d ru wp cp) (writeAndOpen p f)
    (λ r w, match r with
            | Ok _ => have (reshape f d) ru wp (is_current (reshape f d)) w
            | Fail _ => have d ru wp cp w ∨ have (reshape f d) ru wp cp w
            end) stopped.
Proof using Hp HF StoreLaws0.
  intros Hfr Hf Hf' Hc Hr. unfold writeAndOpen.
  eapply ensures_bindR with (R := λ r w, match r with Ok _ => have (reshape f d) ru wp cp w | Fail _ => have d ru wp cp w end).
  - eapply ensures_conseq; [by apply (fragment_written p e_fault e_rand Hp HF f d (knows ru wp cp))|done| |].
    + intros [[]|e] w Hw; exact Hw.
    + intros w [Hw|Hw]; by eapply have_stopped, Hw.
  - intros []. eapply ensures_conseq; [by apply (restartAndWait_spec (reshape f d) ru wp cp)|done| |done].
    intros [[]|e] w Hw; auto.
  - auto.
Qed.

Lemma is_current_verify k c nb kb : is_current (verify_disk c nb kb) k ↔ k = (c, nb).
Proof. unfold is_current. rewrite config_verify. split; [by intros [? [= <-]]|intros ->; eauto]. Qed.
Lemma restart_verify c nb kb ru : restartable (verify_disk c nb kb) ru (wrapped (c, nb)).
Proof. intros wr ->. left. exists (c, nb). split; [done|]. by apply named_verify. Qed.
Lemma restart_staged c nb q kb ru : restartable (staged_disk c nb q kb) ru (wrapped (c, nb)).
Proof. intros wr ->. left. by apply opens_staged; left. Qed.
Lemma staged_fine_just c nb q kb : is_key_pair c nb → is_key_pair q kb → q ≠ c →
  fine (staged_disk c nb q kb) (wrapped (c, nb)) (just (c, nb)).
Proof. intros H1 H2 H3. apply staged_fine; auto. intros wr ->. apply any_wrap_ok. auto. Qed.

(** To the new key alone, from the staged directory. *)
Lemma open_verify c nb q kb ru : is_key_pair c nb → is_key_pair q kb → q ≠ c →
  ensures (have (staged_disk c nb q kb) ru (wrapped (c, nb)) (just (c, nb)))
    (writeAndOpen p (mkFragment Verify c EmptyString))
    (λ r w, match r with
            | Ok _ => have (verify_disk c nb kb) ru (wrapped (c, nb)) (just (c, nb)) w
            | Fail _ => have (staged_disk c nb q kb) ru (wrapped (c, nb)) (just (c, nb)) w ∨
                        have (verify_disk c nb kb) ru (wrapped (c, nb)) (just (c, nb)) w
            end) stopped.
Proof using Hp HF StoreLaws0.
  intros Hc Hq Hne. eapply ensures_conseq; [apply (writeAndOpen_spec (mkFragment Verify c EmptyString)
      (staged_disk c nb q kb) ru (wrapped (c, nb)) (just (c, nb)))|done| |done].
  - apply frag_ok_verify, Hc.
  - by apply staged_fine_just.
  - apply (verify_fine c nb kb Hc), Hq.
  - apply (verify_current c nb kb).
  - apply (restart_verify c nb kb).
  - intros [[]|e] w Hw; [|exact Hw]. destruct Hw as [Hd Hk]. split; [done|].
    eapply knows_weaken; [exact Hk|done|]. intros k. apply (is_current_verify k c nb kb).
Qed.

(** Back to the staged directory, from either. *)
Lemma open_staged_again c nb q kb ru : is_key_pair c nb → is_key_pair q kb → q ≠ c →
  ensures (λ w, have (staged_disk c nb q kb) ru (wrapped (c, nb)) (just (c, nb)) w ∨
                have (verify_disk c nb kb) ru (wrapped (c, nb)) (just (c, nb)) w)
    (writeAndOpen p (mkFragment Staged c q))
    (ends (have (staged_disk c nb q kb) ru (wrapped (c, nb)) (just (c, nb)))) stopped.
Proof using Hp HF StoreLaws0.
  intros Hc Hq Hne.
  assert (H : ∀ d, fine d (wrapped (c, nb)) (just (c, nb)) → reshape (mkFragment Staged c q) d = staged_disk c nb q kb →
    ensures (have d ru (wrapped (c, nb)) (just (c, nb))) (writeAndOpen p (mkFragment Staged c q))
      (ends (have (staged_disk c nb q kb) ru (wrapped (c, nb)) (just (c, nb)))) stopped).
  { intros d Hd Hr. pose proof (staged_fine_just c nb q kb Hc Hq Hne) as Hs.
    eapply ensures_conseq; [apply (writeAndOpen_spec (mkFragment Staged c q) d ru (wrapped (c, nb)) (just (c, nb)))|done| |done];
      rewrite ?Hr; auto using staged_current, restart_staged.
    { apply frag_ok_staged; [apply Hc|apply Hq|done]. }
    intros [[]|e] w Hw.
    - destruct Hw as [Hx Hk]. split; [done|]. eapply knows_weaken; [exact Hk|done|]. intros k. by rewrite current_staged.
    - destruct Hw as [Hw|Hw]; by eapply have_stopped, Hw. }
  intros w [Hw|Hw].
  - apply (H (staged_disk c nb q kb)); [by apply staged_fine_just|done|done].
  - apply (H (verify_disk c nb kb)); [apply verify_fine; [done|apply Hq]|done|done].
Qed.

Lemma verify_rewrapped ru : ensures (rewrapped ru) (verify p j) (ends (λ w, ∃ ru, proved ru w)) stopped.
Proof using Hp HF StoreLaws0.
  intros w (Hcu & c & nb & q & kb & Hcur & Hprev & Hc & Hq & Hne & Hw). revert w Hw.
  assert (Hdone : ∀ w, have (verify_disk c nb kb) ru (wrapped (c, nb)) (just (c, nb)) w → ∃ ru, proved ru w).
  { intros w Hw. exists ru. split; [done|]. exists c, nb, kb. split; [done|]. split; [done|]. split; [apply Hq|done]. }
  assert (Hst : ∀ w, have (staged_disk c nb q kb) ru (wrapped (c, nb)) (just (c, nb)) w ∨
                have (verify_disk c nb kb) ru (wrapped (c, nb)) (just (c, nb)) w → stopped w).
  { intros w [Hw|Hw]; eapply have_stopped, Hw; [by apply staged_fine_just|apply verify_fine; [done|apply Hq]]. }
  apply get_run_spec. intros t. simpl. rewrite bool_decide_false by done. rewrite Hcur, Hprev.
  eapply ensures_bind; [by apply open_verify|]. intros [[]|e]; [by intros w Hw; apply Hdone|].
  destruct (String.eqb_spec q EmptyString) as [-> |_]; [by destruct Hq|].
  eapply ensures_bind with (R := ends (λ w, ∃ ru, proved ru w)); [|by intros [[]|e'] w Hw; exact Hw].
  eapply ensures_bindR; [by apply (open_staged_again c nb q kb)| |done]. intros [].
  eapply ensures_bindR; [apply (rotateRoot_spec (staged_disk c nb q kb) ru (wrapped (c, nb)) (just (c, nb)) t)| |done].
  - by apply staged_fine_just.
  - apply staged_current.
  - done.
  - intros k ->. apply named_staged. auto.
  - intros []. eapply ensures_conseq; [by apply (open_verify c nb q kb ru)| | |done].
    { intros w Hw. destruct Hw as [Hd Hk]. split; [exact Hd|].
      eapply knows_weaken; [exact Hk| |done]. by intros wr (k & -> & ->). }
    intros [[]|e'] w Hw; [by apply Hdone|by apply Hst].
Qed.

Lemma verify_proving ru : ensures (proving ru) (verify p j) (ends (λ w, ∃ ru, proved ru w)) stopped.
Proof using Hp HF StoreLaws0.
  intros w (Hfr & Hres & Hprev & c & nb & kb & Hcur & Hc & Hkb & Hw). revert w Hw.
  apply get_run_spec. intros t. simpl. rewrite bool_decide_false by (by rewrite Hres). rewrite Hcur, Hprev.
  pose proof (verify_fine c nb kb Hc Hkb) as Hf.
  eapply ensures_bind; [apply (writeAndOpen_spec (mkFragment Verify c EmptyString) (verify_disk c nb kb) ru
      (wrapped (c, nb)) (just (c, nb)))|].
  - apply frag_ok_verify, Hc.
  - done.
  - done.
  - apply (verify_current c nb kb).
  - apply (restart_verify c nb kb).
  - intros [[]|e]; [|by intros w [Hw|Hw]; eapply have_stopped, Hw].
    intros w [Hd Hk]. exists ru. split; [by rewrite Hres|]. exists c, nb, kb. split_and!; auto.
    eapply knows_weaken; [exact Hk|done|]. intros k. apply (is_current_verify k c nb kb).
Qed.

#[local] Abbreviation closes := (λ (r : result Outcome) (w : W), stopped w ∧ ∀ out, r = Ok out → settled out w).

Lemma settle_clean c kb m ru cp (out : Outcome) : is_key_pair c kb → (out = Rotated c (ru_prev ru) ∨ out = Resumed c (ru_prev ru)) →
  ensures (have (clean_disk c kb m) ru (wrapped (c, kb)) cp)
    (r <- RemoveRotation e_fault;
     match r with Fail _ => ret (Fail errSettle) | Ok _ => ret (Ok out) end) closes stopped.
Proof using HG.
  intros Hc Hout.
  assert (Hst : ∀ m' w, have (rerot m' (clean_disk c kb m)) ru (wrapped (c, kb)) cp w → stopped w).
  { intros m' w Hw. eapply have_stopped, Hw. by apply clean_fine. }
  eapply ensures_bind.
  { eapply ensures_conseq; [by apply (rotation_emptied p e_fault HG (clean_disk c kb m) (knows ru (wrapped (c, kb)) cp))|done| |].
    - intros r w Hw. exact Hw.
    - intros w (m' & Hw). by eapply Hst. }
  intros [[]|e] w (m' & Hm & Hw); (split; [by eapply Hst|]); [|done].
  intros o [= <-]. rewrite (Hm eq_refl) in Hw. destruct Hw as [Hd (_ & Hwr & _)]. exists c, kb, (ru_prev ru). auto.
Qed.

Lemma settle_tidying ru : ensures (tidying ru) (settle p j) closes stopped.
Proof using HG.
  intros w (Hfr & Hres & c & kb & m & Hcur & Hc & Hw). revert w Hw.
  apply get_run_spec. intros t. simpl. rewrite bool_decide_true, Hfr by done.
  apply (ensures_bind _ _ _ (λ r w, r = Ok tt ∧ have (clean_disk c kb m) ru (wrapped (c, kb)) (λ _, True) w)).
  { by intros w Hw. }
  intros r. apply ensures_assume. intros ->. apply settle_clean; [done|]. rewrite Hcur. by right.
Qed.

(** The copy of the new key over the old, and the clean fragment. *)
Lemma makeOnlyKey_spec c nb kb ru : is_key_pair c nb → String.length kb = KeyBytes →
  ensures (have (verify_disk c nb kb) ru (wrapped (c, nb)) (just (c, nb))) (makeOnlyKey p c)
    (ends (have (clean_disk c nb {[ c := Reg nb ]}) ru (wrapped (c, nb)) (just (c, nb)))) stopped.
Proof using Hp HF StoreLaws0.
  intros Hc Hkb. pose proof (verify_fine c nb kb Hc Hkb) as Hf. pose proof (verify_fine c nb nb Hc (proj2 Hc)) as Hf'.
  unfold makeOnlyKey.
  eapply ensures_bindR.
  { eapply ensures_conseq; [apply (rotation_key_read p e_fault c (verify_disk c nb kb)
      (knows ru (wrapped (c, nb)) (just (c, nb))))|done|intros r w Hw; exact Hw|].
    intros w Hw. by eapply have_stopped, Hw. }
  2: { intros e w [Hw _]. by eapply have_stopped, Hw. }
  intros key w [Hw Hk]. destruct (Hk key eq_refl) as [Hr _]. simpl in Hr. rewrite lookup_singleton_eq in Hr.
  injection Hr as <-. clear Hk. revert w Hw.
  eapply ensures_bindR.
  { eapply ensures_conseq; [by apply (seal_key_written p e_fault e_rand HF nb (verify_disk c nb kb)
      (knows ru (wrapped (c, nb)) (just (c, nb))))|done|intros r w Hw; exact Hw|].
    intros w [Hw|[_ Hw]]; [by eapply have_stopped, Hw|]. by eapply (have_stopped (verify_disk c nb nb)), Hw. }
  2: { intros e w Hw. by eapply have_stopped, Hw. }
  intros []. apply ensures_assume. intros _.
  change (rekey nb (verify_disk c nb kb)) with (verify_disk c nb nb).
  set (cl := clean_disk c nb {[ c := Reg nb ]}).
  assert (Hcl : fine cl (wrapped (c, nb)) (just (c, nb))) by by apply clean_fine.
  eapply ensures_conseq; [apply (writeAndOpen_spec (mkFragment Clean c EmptyString) (verify_disk c nb nb) ru
      (wrapped (c, nb)) (just (c, nb)))|done| |done].
  - apply frag_ok_clean, Hc.
  - done.
  - done.
  - apply (just_current_clean c nb).
  - intros wr ->. left. exists (c, nb). split; [done|]. by apply (named_clean (c, nb) c nb {[ c := Reg nb ]}).
  - intros [[]|e] w Hw.
    + destruct Hw as [Hd Hk]. split; [done|]. eapply knows_weaken; [exact Hk|done|]. by intros k [pv [= <- _]].
    + destruct Hw as [Hw|Hw]; [by eapply have_stopped, Hw|]. by eapply (have_stopped cl), Hw.
Qed.

Lemma settle_proved ru : ensures (proved ru) (settle p j) closes stopped.
Proof using Hp HF HG StoreLaws0.
  intros w (Hres & c & nb & kb & Hcur & Hc & Hkb & Hw). revert w Hw.
  apply get_run_spec. intros t. simpl. rewrite bool_decide_false by done. rewrite Hcur.
  eapply ensures_bind; [by apply makeOnlyKey_spec|].
  intros [[]|e]; [|by intros w Hw]. apply settle_clean; [done|]. destruct (ru_fresh ru); auto.
Qed.

(** ** Steps that have nothing to do *)
Lemma skip_step d ru wp cp (m : option run → IO (result unit)) :
  (∀ t, m (Some (set_token t ru)) = ret (Ok tt)) →
  ensures (have d ru wp cp) (o <- get_run j; m o) (λ r w, r = Ok tt ∧ have d ru wp cp w) stopped.
Proof using. intros H. apply get_run_spec. intros t. rewrite H. by intros w Hw. Qed.

Lemma skip_proving ru (m : option run → IO (result unit)) :
  (∀ t, ru_fresh ru = false → t_Resume (ru_tree ru) = VerifyThenSettle → m (Some (set_token t ru)) = ret (Ok tt)) →
  ensures (proving ru) (o <- get_run j; m o) (λ r w, r = Ok tt ∧ proving ru w) stopped.
Proof using.
  intros Hm w (Hfr & Hres & Hprev & c & nb & kb & Hcur & Hc & Hkb & Hw).
  assert (∀ t, m (Some (set_token t ru)) = ret (Ok tt)) as Hm' by auto.
  pose proof (skip_step (verify_disk c nb kb) ru (wrapped (c, nb)) (just (c, nb)) m Hm' w Hw) as H.
  destruct ((o <- get_run j; m o) w) as [[r|] w']; [|done]. destruct H as [-> H]. split; [done|].
  split; [done|]. split; [done|]. split; [done|]. by exists c, nb, kb.
Qed.
Lemma skip_tidying ru (m : option run → IO (result unit)) :
  (∀ t, ru_fresh ru = false → t_Resume (ru_tree ru) = CleanUp → m (Some (set_token t ru)) = ret (Ok tt)) →
  ensures (tidying ru) (o <- get_run j; m o) (λ r w, r = Ok tt ∧ tidying ru w) stopped.
Proof using.
  intros Hm w (Hfr & Hres & c & kb & mm & Hcur & Hc & Hw).
  assert (∀ t, m (Some (set_token t ru)) = ret (Ok tt)) as Hm' by auto.
  pose proof (skip_step (clean_disk c kb mm) ru (wrapped (c, kb)) (λ _, True) m Hm' w Hw) as H.
  destruct ((o <- get_run j; m o) w) as [[r|] w']; [|done]. destruct H as [-> H]. split; [done|].
  split; [done|]. split; [done|]. by exists c, kb, mm.
Qed.
Lemma skip_resuming ru (m : option run → IO (result unit)) :
  (∀ t, ru_fresh ru = false → m (Some (set_token t ru)) = ret (Ok tt)) →
  ensures (resuming ru) (o <- get_run j; m o) (λ r w, r = Ok tt ∧ resuming ru w) stopped.
Proof using.
  intros Hm w (Hfr & Hres & Hcu & c & nb & q & kb & Hcur & Hprev & Hc & Hq & Hne & Hw).
  assert (∀ t, m (Some (set_token t ru)) = ret (Ok tt)) as Hm' by auto.
  pose proof (skip_step (staged_disk c nb q kb) ru (any_wrap (c, nb) (q, kb)) (either (c, nb) (q, kb)) m Hm' w Hw) as H.
  destruct ((o <- get_run j; m o) w) as [[r|] w']; [|done]. destruct H as [-> H]. split; [done|].
  split; [done|]. split; [done|]. split; [done|]. by exists c, nb, q, kb.
Qed.

(** The run between the steps, step by step. *)
Definition after_validate w := ∃ ru, tidying ru w ∨ proving ru w ∨ resuming ru w ∨ fresh_now ru w.
Definition after_stage w := ∃ ru, tidying ru w ∨ proving ru w ∨ resuming ru w ∨ freshly_staged ru w.
Definition after_unseal w := ∃ ru, tidying ru w ∨ proving ru w ∨ opened ru w.
Definition after_rewrap w := ∃ ru, tidying ru w ∨ proving ru w ∨ rewrapped ru w.
Definition after_verify w := ∃ ru, tidying ru w ∨ proved ru w.

(** Join the cases of a step. *)
Lemma ensures_ends (P : W → Prop) (m : IO (result unit)) (P' Q : W → Prop) :
  ensures P m (λ r w, r = Ok tt ∧ P' w) stopped → (∀ w, P' w → Q w) → ensures P m (ends Q) stopped.
Proof using. intros H HQ. eapply ensures_conseq; [exact H|done| |done]. intros r w [-> Hw]. auto. Qed.
Lemma ensures_ends_mono (P : W → Prop) (m : IO (result unit)) (P' Q : W → Prop) :
  ensures P m (ends P') stopped → (∀ w, P' w → Q w) → ensures P m (ends Q) stopped.
Proof using. intros H HQ. eapply ensures_conseq; [exact H|done| |done]. intros [[]|e] w Hw; auto. Qed.

Lemma stage_step_spec : ensures after_validate (stage_step p j) (ends after_stage) stopped.
Proof using Hp HF HG Hid StoreLaws0.
  intros w [ru [Hw|[Hw|[Hw|Hw]]]]; revert w Hw.
  - eapply ensures_ends; [apply skip_tidying; intros t Hfr _; simpl; by rewrite Hfr|]. intros w Hw. exists ru. auto.
  - eapply ensures_ends; [apply skip_proving; intros t Hfr _; simpl; by rewrite Hfr|]. intros w Hw. exists ru. auto.
  - eapply ensures_ends; [apply skip_resuming; intros t Hfr; simpl; by rewrite Hfr|]. intros w Hw. exists ru. auto.
  - eapply ensures_ends_mono; [apply stage_fresh|]. intros w [ru' Hw]. exists ru'. auto.
Qed.

Lemma unsealStaged_spec : ensures after_stage (unsealStaged p j) (ends after_unseal) stopped.
Proof using Hp HF HG StoreLaws0.
  intros w [ru [Hw|[Hw|[Hw|Hw]]]]; revert w Hw.
  - eapply ensures_ends; [apply skip_tidying; intros t Hfr Hr; simpl; by rewrite Hfr, Hr|]. intros w Hw. exists ru. auto.
  - eapply ensures_ends; [apply skip_proving; intros t Hfr Hr; simpl; by rewrite Hfr, Hr|]. intros w Hw. exists ru. auto.
  - eapply ensures_ends_mono; [apply unseal_resume|]. intros w [ru' Hw]. exists ru'. auto.
  - eapply ensures_ends_mono; [apply unseal_fresh|]. intros w [ru' Hw]. exists ru'. auto.
Qed.

Lemma rewrap_spec : ensures after_unseal (rewrap p j) (ends after_rewrap) stopped.
Proof using StoreLaws0.
  intros w [ru [Hw|[Hw|Hw]]]; revert w Hw.
  - eapply ensures_ends; [apply skip_tidying; intros t Hfr Hr; simpl; by rewrite Hfr, Hr|]. intros w Hw. exists ru. auto.
  - eapply ensures_ends; [apply skip_proving; intros t Hfr Hr; simpl; by rewrite Hfr, Hr|]. intros w Hw. exists ru. auto.
  - eapply ensures_ends_mono; [apply rewrap_opened|]. intros w [ru' Hw]. exists ru'. auto.
Qed.

Lemma rot_verify_spec : ensures after_rewrap (verify p j) (ends after_verify) stopped.
Proof using Hp HF StoreLaws0.
  intros w [ru [Hw|[Hw|Hw]]]; revert w Hw.
  - eapply ensures_ends; [apply skip_tidying; intros t Hfr Hr; simpl; by rewrite Hr|]. intros w Hw. exists ru. auto.
  - eapply ensures_ends_mono; [apply verify_proving|]. intros w [ru' Hw]. exists ru'. auto.
  - eapply ensures_ends_mono; [apply verify_rewrapped|]. intros w [ru' Hw]. exists ru'. auto.
Qed.

Lemma settle_spec : ensures after_verify (settle p j) closes stopped.
Proof using Hp HF HG StoreLaws0.
  intros w [ru [Hw|Hw]]; [by apply (settle_tidying ru)|by apply (settle_proved ru)].
Qed.

(** ** validate *)

(** Where a run may start: safe, and the store on a key the directory names. *)
Definition good (w : W) : Prop := ∃ d, safe_with d w ∧ tame d (w_rest w).

(** What is known before the run is recorded; [up] is what the store answered. *)
Definition before d (up : option bool) x : Prop :=
  wrap_ok d (st_wrap (r_store x)) ∧ tame d x ∧ restarts_ok x ∧
  (truthful St → up = Some false → st_open (r_store x) = false).

Lemma config_current_named d k pv : config d = Some (k, pv) → named k (config d).
Proof. intros H. exists k, pv. auto. Qed.

Lemma before_drift d up x : before d up x → before d up (set_store (st_boot (config d) (r_store x)) x).
Proof using StoreLaws0.
  intros (H1 & H2 & H3 & H4). destruct (boot_law (config d) (r_store x)) as (Ew & El & Eo).
  unfold before. split_and!; simpl; auto; [by rewrite Ew|]. intros c pv. simpl. rewrite El. apply config_current_named.
Qed.
Lemma before_stopped d up w : well d → on_disk p d w → before d up (w_rest w) → stopped w.
Proof using. intros Hw Hd (H1 & H2 & H3 & _). exists d. split; [|by left]. unfold safe_with. auto. Qed.

Lemma ext_before {A} d up (f : nat → option Config → Rot St → A * Rot St) (Q : A → W → Prop) : well d →
  (∀ t x w a x', on_disk p d w → before d up x → f t (config d) x = (a, x') → Q a (set_rest x' w)) →
  ensures (λ w, on_disk p d w ∧ before d up (w_rest w)) (ext p f) Q stopped.
Proof using StoreLaws0.
  intros Hw HQ. apply ext_gen; [intros x; apply before_drift| |done]. intros w. by apply before_stopped.
Qed.

(** The run [validate] records, by the directory it found. *)
Lemma begin_run d t up tok w :
  well d → on_disk p d w → before d (Some up) (w_rest w) →
  t_Fragment t = d_frag d →
  t_Resume t = match f_Shape (d_frag d) with
               | Clean => if bool_decide (d_rot d = ∅) then Fresh else CleanUp
               | Staged => RewrapFirst | Verify => VerifyThenSettle end →
  let ru := mkRun t (bool_decide (t_Resume t = Fresh)) (f_Current (t_Fragment t)) (f_Previous (t_Fragment t))
              EmptyString true true up in
  r_runs (w_rest w) !! j = Some (set_token tok ru) → after_validate w.
Proof using.
  intros (Hfo & Hkb & Hrot) Hd (Hwr & Hta & Htr & Hdn) Hf Hres ru Hru.
  destruct d as [[sh c q] kb m]. simpl in *. exists ru.
  assert (Hk : ∀ wp cp, wp (st_wrap (r_store (w_rest w))) →
    (∀ k pv, st_loaded (r_store (w_rest w)) = Some (k, pv) → cp k) → knows ru wp cp (w_rest w)).
  { intros wp cp H1 H2. unfold knows. split_and!; auto; [by exists tok|]. intros Ht _ Hu. apply Hdn; [done|].
    simpl in Hu. by rewrite Hu. }
  destruct Hfo as [Hc Hq]. simpl in *.
  assert (Hsome : sh ≠ Staged → ∃ k, st_wrap (r_store (w_rest w)) = Some k ∧ named k (config (mkDisk (mkFragment sh c q) kb m))).
  { intros Hsh. unfold wrap_ok in Hwr. destruct (st_wrap _) as [k|]; [eauto|by simpl in Hwr]. }
  destruct sh; subst q || destruct Hq as [Hq Hne].
  - destruct Hsome as (k & Ek & Hn); [done|]. apply (named_clean k c kb m) in Hn as ->.
    case_bool_decide as Hm.
    + right; right; right. split; [simpl; by rewrite Hres|]. split; [done|]. exists c, kb. simpl. rewrite Hf.
      split; [done|]. split; [done|]. rewrite <- Hm. split; [done|]. apply Hk; [done|].
      intros k pv Hl. apply (named_clean k c kb m). by eapply Hta.
    + left. split; [simpl; by rewrite Hres|]. split; [done|]. exists c, kb, m. simpl. rewrite Hf.
      split; [done|]. split; [done|]. split; [done|]. by apply Hk.
  - destruct Hrot as (nb & -> & Hnb); [done|].
    right; right; left. split; [simpl; by rewrite Hres|]. split; [done|]. split; [simpl; by rewrite Hres|].
    exists c, nb, q, kb. simpl. rewrite Hf. split_and!; [done|done|done|done|done|done|]. apply Hk.
    + unfold wrap_ok in Hwr. destruct (st_wrap _) as [k|]; [|auto]. apply (named_staged k c nb q kb) in Hwr as [-> | ->]; auto.
    + intros k pv Hl. apply (named_staged k c nb q kb). by eapply Hta.
  - destruct Hrot as (nb & -> & Hnb); [done|]. destruct Hsome as (k & Ek & Hn); [done|].
    apply (named_verify k c nb kb) in Hn as ->.
    right; left. split; [simpl; by rewrite Hres|]. split; [done|]. simpl. rewrite Hf. split; [done|].
    exists c, nb, kb. split_and!; [done|done|done|done|]. apply Hk; [done|].
    intros k pv Hl. apply (named_verify k c nb kb). by eapply Hta.
Qed.

Lemma health_before d : well d →
  ensures (λ w, on_disk p d w ∧ before d None (w_rest w)) (Store_Health p)
    (λ h w, on_disk p d w ∧ before d (Some (String.eqb (InactiveReason h.1 h.2) EmptyString)) (w_rest w)) stopped.
Proof using StoreLaws0.
  intros Hw. apply ext_before; [done|]. intros t x w h x' Hd (H1 & H2 & H3 & _).
  destruct (st_health t (r_store x)) as [h' s'] eqn:E. intros [= <- <-].
  destruct (health_law _ _ _ _ E) as (Ew & El & _). split; [done|].
  unfold before. split_and!; simpl; [by rewrite Ew|intros c pv; simpl; rewrite El; apply H2|done|].
  intros Ht [= Hu]. destruct (st_open s') eqn:Eo; [|done]. rewrite (Ht _ _ _ _ E Eo) in Hu. done.
Qed.

Lemma rot_validate_spec : ensures good (validate p enabled j) (ends after_validate) stopped.
Proof using Hp HF HG StoreLaws0.
  intros w (d & (Hd & Hw & Hwr & Htr) & Hta).
  assert (Hb : on_disk p d w ∧ before d None (w_rest w)) by (split; [done|]; unfold before; split_and!; auto; done).
  clear Hd Hwr Htr Hta. revert w Hb. unfold validate.
  assert (Hst : ∀ up w, on_disk p d w ∧ before d up (w_rest w) → stopped w).
  { intros up w [??]. by eapply before_stopped. }
  destruct (negb enabled); [intros w Hb; by eapply Hst|].
  apply (ensures_bind _ _ _ (λ _ w, on_disk p d w ∧ before d None (w_rest w))).
  { apply ext_before; [done|]. by intros t x w a x' Hd Hb [= <- <-]. }
  intros [r|]; [by intros w Hb; eapply Hst|].
  eapply ensures_bind.
  { eapply ensures_conseq; [apply (state_read p e_fault d (before d None))|done|intros r w H; exact H|apply (Hst None)]. }
  intros [t|e]; [|by intros w [Hb _]; eapply Hst]. intros w [Hb Ht]. destruct (Ht t eq_refl) as [Hf Hres]. clear Ht.
  revert w Hb. eapply ensures_bind; [by apply health_before|]. intros h.
  set (up := String.eqb _ EmptyString). cbv zeta.
  destruct (negb up && _); [by intros w Hb; eapply Hst|].
  apply (ensures_bind _ _ _ (λ _ w, on_disk p d w ∧ before d (Some up) (w_rest w))).
  { apply ext_before; [done|]. intros t' x w a x' Hd Hb. destruct (TryAcquire j (r_gate x)) as [r g].
    by intros [= <- <-]. }
  intros [[]|e]; [|by intros w Hb; eapply Hst].
  set (ru := mkRun t _ _ _ _ _ _ up).
  apply (ensures_seq _ _ _ (λ w, on_disk p d w ∧ before d (Some up) (w_rest w))); [by intros w Hb|].
  apply (ensures_seq _ _ _ (λ w, on_disk p d w ∧ before d (Some up) (w_rest w) ∧ r_runs (w_rest w) !! j = Some ru)).
  { intros w [Hd Hb]. simpl. split; [done|]. split; [done|]. apply lookup_insert_eq. }
  assert (Hbegin : ∀ tok w, on_disk p d w ∧ before d (Some up) (w_rest w) → r_runs (w_rest w) !! j = Some (set_token tok ru) →
    after_validate w).
  { intros tok w [Hd Hb] Hr. by eapply (begin_run d t up tok). }
  destruct (up && _); [|by intros w (Hd & Hb & Hr); eapply (Hbegin EmptyString)].
  apply (ensures_bind _ _ _ (λ _ w, on_disk p d w ∧ before d (Some up) (w_rest w))).
  { intros w (Hd & Hb & _). revert w Hd Hb. cut (ensures (λ w, on_disk p d w ∧ before d (Some up) (w_rest w))
      (Rotate_CertLogin p) (λ _ w, on_disk p d w ∧ before d (Some up) (w_rest w)) stopped); [intros H w Hd Hb; by apply H|].
    apply ext_before; [done|]. intros t' x w r x' Hd (H1 & H2 & H3 & H4).
    destruct (st_login t' (r_store x)) as [r' s'] eqn:E. intros [= <- <-].
    destruct (login_law _ _ _ _ E) as (Ew & El & Eo). split; [done|].
    unfold before. split_and!; simpl; rewrite ?Ew, ?Eo; auto. intros c pv. simpl. rewrite El. apply H2. }
  intros [tok|e]; [|by intros w Hb; eapply Hst].
  intros w Hb. unfold bind, put_run. simpl. eapply (Hbegin tok); [exact Hb|apply lookup_insert_eq].
Qed.

(** ** A whole run *)
Lemma steps_spec : ensures good (steps p enabled j) closes stopped.
Proof using Hp HF HG Hid StoreLaws0.
  assert (Hfail : ∀ e w, stopped w → closes (Fail e) w) by (by intros e w Hw).
  unfold steps.
  eapply ensures_bindR; [apply rot_validate_spec|intros []|apply Hfail].
  eapply ensures_bindR; [apply stage_step_spec|intros []|apply Hfail].
  eapply ensures_bindR; [apply unsealStaged_spec|intros []|apply Hfail].
  eapply ensures_bindR; [apply rewrap_spec|intros []|apply Hfail].
  eapply ensures_bindR; [apply rot_verify_spec|intros []|apply Hfail].
  apply settle_spec.
Qed.

Lemma onTerminal_store w : ∃ x, onTerminal j w = (Some tt, set_rest x w) ∧
  r_store x = r_store (w_rest w) ∧ r_restarts x = r_restarts (w_rest w) ∧ r_runs x !! j = None.
Proof using.
  unfold onTerminal. destruct (r_runs (w_rest w) !! j) as [ru|] eqn:E.
  - eexists. split; [done|]. split; [|split]; destruct (ru_gated ru), (ru_release ru); try done; apply lookup_delete_eq.
  - exists (w_rest w). split; [by destruct w|]. auto.
Qed.

Lemma rotation_spec : ensures good (rotation p enabled j) closes stopped.
Proof using Hp HF HG Hid StoreLaws0.
  unfold rotation. eapply ensures_bind; [apply steps_spec|]. intros r w [Hs Hc]. unfold bind.
  destruct (onTerminal_store w) as (x & -> & Es & Er & _). simpl.
  assert (Hrest : ∀ d, safe_with d w → safe_with d (set_rest x w)).
  { intros d (H1 & H2 & H3 & H4). unfold safe_with, restarts_ok. simpl. rewrite Es, Er. done. }
  split.
  - destruct Hs as (d & Hd & Ht). exists d. split; [by apply Hrest|].
    destruct Ht as [Ht|]; [left|by right]. intros c pv. simpl. rewrite Es. apply Ht.
  - intros out Ho. destruct (Hc out Ho) as (c & kb & q & H1 & H2 & H3 & H4). exists c, kb, q. split_and!; auto.
    simpl. by rewrite Es.
Qed.
End Run.
