(* ===== verification/SealHistory.v ===== *)
(** * Rotations over time

    Histories of rotations, crashes of the api and power losses, on any store
    that keeps the laws of SealSafety.  The store a history ends with opens on
    what is on disk, or a re-wrap has broken off and the directory is staged,
    as long as each run starts with the store on a key the directory names.
    The last part is a history that breaks that proviso: a roll-back whose
    restart fails leaves the store on a key that is then removed, and a later
    rotation wraps the root key with it. *)
From Stdlib Require Import Ascii String.
From S2P Require Import Prelude GoStrings Crash SealFragment SealFiles SealGate SealRotate SealSafety.

Section History.
Context {St : Type} `{!SecretStore St} `{!StoreLaws St} (p : Paths) (enabled : bool).
Context (Hp : paths_ok p).
#[local] Abbreviation W := (World (Rot St)).
Implicit Types w : W.

(** The environments considered: faults are reported as what they are, and the
    kernel's ids are ids. *)
Record sound_env (E : SealEnv) : Prop := {
  se_honest : honest (@e_fault E);
  se_genuine : genuine (@e_fault E);
  se_ids : ∀ t id, @e_keyid E t = Ok id → keyIDRE id = true
}.

(** The directory is one a rotation recognises, and a store started on it opens,
    unless a re-wrap broke off while the directory was staged. *)
Definition recoverable (w : W) : Prop :=
  ∃ t, tree_of p (w_seal w !! SealKeyName) (w_seal w !! FragmentName) (w_rot w) = Some t ∧
  (opens (disk_config p w) (st_wrap (r_store (w_rest w))) ∨
   st_wrap (r_store (w_rest w)) = None ∧ f_Shape (t_Fragment t) = Staged).
(** The running process uses a key the directory names. *)
Definition attached (w : W) : Prop :=
  ∀ c pv, st_loaded (r_store (w_rest w)) = Some (c, pv) → named c (disk_config p w).
(** No restart was asked of an open store that could not open again. *)
Definition gentle (w : W) : Prop :=
  truthful St → Forall (λ e, rs_open e = true → opens (rs_config e) (rs_wrap e)) (r_restarts (w_rest w)).

Lemma well_tree d (w : W) : on_disk p d w → well d →
  ∃ t, tree_of p (w_seal w !! SealKeyName) (w_seal w !! FragmentName) (w_rot w) = Some t ∧ t_Fragment t = d_frag d.
Proof using.
  intros (Hk & (b & Hb & Hf) & Hr) (_ & Hl & Hn). unfold tree_of. rewrite Hb, Hr, Hk. cbn [mbind option_bind].
  rewrite Hf. cbn [is_key]. rewrite (proj2 (Nat.eqb_eq _ _) Hl).
  destruct (f_Shape (d_frag d)); [by eexists|..];
    (destruct Hn as (nb & Em & Hnb); [done|]; rewrite bool_decide_true by (apply names_of_one; eauto);
     rewrite Em, lookup_singleton_eq; cbn [is_key]; rewrite (proj2 (Nat.eqb_eq _ _) Hnb); by eexists).
Qed.

Lemma stopped_recoverable w : stopped p w → recoverable w ∧ gentle w.
Proof using.
  intros (d & (Hd & Hw & Hwr & Ht) & _). split; [|exact Ht].
  destruct (well_tree d w Hd Hw) as (t & Et & Ef). exists t. split; [done|].
  rewrite (on_disk_config p d w Hd). unfold wrap_ok in Hwr. destruct (st_wrap _) as [k|]; [left; by exists k|right].
  by rewrite Ef.
Qed.

Lemma recoverable_good w : recoverable w → gentle w → attached w → good p w.
Proof using.
  intros (t & Ht & Hopen) Hg Ha.
  assert (∃ d, on_disk p d w ∧ well d ∧ t_Fragment t = d_frag d) as (d & Hd & Hw & Hf).
  { unfold tree_of in Ht. destruct (read_node (w_seal w !! FragmentName)) as [b|] eqn:Eb; [|done]. cbn [mbind option_bind] in Ht.
    destruct (parseFragment p b) as [frag|] eqn:Ep; [|done]. destruct (w_rot w) as [m|] eqn:Em; [|done].
    destruct (w_seal w !! SealKeyName) as [[kb| |]|] eqn:Ek; try done. cbn [is_key] in Ht.
    destruct (Nat.eqb_spec (String.length kb) KeyBytes) as [Hl|]; [|done].
    assert (Hf : t_Fragment t = frag).
    { destruct (f_Shape frag); [by injection Ht as <-|..]; destruct (bool_decide _ && is_key _); by simplify_eq. }
    exists (mkDisk frag kb m). split; [|split; [|exact Hf]].
    - repeat split; auto. by exists b.
    - split; [by eapply parse_ok|]. split; [done|]. simpl. intros Hs.
      assert (Hb : bool_decide (names_of m = [f_Current frag]) && is_key (m !! f_Current frag) = true).
      { destruct (f_Shape frag); [done|..]; by destruct (bool_decide _ && is_key _). }
      apply andb_true_iff in Hb as [Hb1 Hb2]. apply bool_decide_eq_true, names_of_one in Hb1 as [n ->].
      rewrite lookup_singleton_eq in Hb2. destruct n; try done. apply Nat.eqb_eq in Hb2. eauto. }
  unfold attached in Ha. rewrite (on_disk_config p d w Hd) in Hopen, Ha.
  exists d. split; [|exact Ha]. unfold safe_with. split_and!; auto.
  destruct Hopen as [(k & -> & Hk)|[-> Hs]]; [done|]. simpl. by rewrite <- Hf.
Qed.

(** One run, from anywhere to wherever it stops. *)
Lemma run_recoverable (E : SealEnv) j w : sound_env E → recoverable w → gentle w → attached w →
  recoverable (snd (rotation p enabled j w)) ∧ gentle (snd (rotation p enabled j w)) ∧
  ∀ out, fst (rotation p enabled j w) = Some (Ok out) → settled p out (snd (rotation p enabled j w)).
Proof using Hp StoreLaws0.
  intros [H1 H2 H3] Hr Hg Ha.
  pose proof (rotation_spec p enabled j Hp H1 H2 H3 w (recoverable_good w Hr Hg Ha)) as H.
  destruct (rotation p enabled j w) as [[r|] w']; simpl.
  - destruct H as [Hs Hc]. split_and!; try (by apply stopped_recoverable). intros out [= ->]. by apply Hc.
  - split_and!; try (by apply stopped_recoverable). done.
Qed.

(** A history: a run that returns; a run that a crash of the api or the loss of
    power ends; a power loss with no run under way. *)
Inductive history : W → Prop :=
| h_first c kb w :
    is_key_pair c kb → on_disk p (clean_disk c kb ∅) w →
    st_wrap (r_store (w_rest w)) = Some (c, kb) → st_loaded (r_store (w_rest w)) = disk_config p w →
    r_restarts (w_rest w) = [] → history w
| h_run (E : SealEnv) j r w w' :
    sound_env E → history w → attached w → rotation p enabled j w = (Some r, w') → history w'
| h_crash (E : SealEnv) j power w w' :
    sound_env E → history w → attached w → rotation p enabled j w = (None, w') → history (reborn p power w')
| h_power w : history w → history (reborn p true w).

Lemma reborn_recoverable power w : recoverable w → gentle w → recoverable (reborn p power w) ∧ gentle (reborn p power w).
Proof using StoreLaws0.
  intros (t & Ht & Ho) Hg. split; [|done]. exists t. split; [done|].
  assert (E : st_wrap (r_store (w_rest (reborn p power w))) = st_wrap (r_store (w_rest w))).
  { unfold reborn. simpl. destruct power; [|done]. apply boot_law. }
  by rewrite E.
Qed.

Lemma history_safe w : history w → recoverable w ∧ gentle w.
Proof using Hp StoreLaws0.
  induction 1 as [c kb w Hk Hd Hw Hl Hr|E j r w w' HE Hh [IHr IHg] Ha Hrun|E j power w w' HE Hh [IHr IHg] Ha Hrun|w Hh [IHr IHg]].
  - split; [|intros _; by rewrite Hr].
    destruct (well_tree _ w Hd (clean_well _ _ _ Hk)) as (t & Et & Ef). exists t. split; [done|]. left.
    rewrite (on_disk_config p _ w Hd), Hw. exists (c, kb). split; [done|]. by apply named_clean.
  - destruct (run_recoverable E j w HE IHr IHg Ha) as (H1 & H2 & _). by rewrite Hrun in H1, H2.
  - destruct (run_recoverable E j w HE IHr IHg Ha) as (H1 & H2 & _). rewrite Hrun in H1, H2.
    by apply reborn_recoverable.
  - by apply reborn_recoverable.
Qed.

(** After a power loss the store is on what the directory names. *)
Lemma power_attached w : attached (reborn p true w).
Proof using StoreLaws0.
  intros c pv. unfold reborn. simpl. destruct (boot_law (disk_config p w) (r_store (w_rest w))) as (_ & -> & _).
  intros H. exists c, pv. split; [exact H|by left].
Qed.
End History.

(** ** A simulated store

    It keeps the wrapping key, the configuration read at start and whether it
    is open; a script says which restarts fail and when it is slow to open. *)
Record Sim := mkSim { sm_wrap : option Key; sm_loaded : option Config; sm_open : bool }.

Definition named_b (k : Key) (cfg : option Config) : bool :=
  match cfg with
  | Some (c, pv) => bool_decide (k = c) || bool_decide (pv = Some k)
  | None => false
  end.
Definition opens_b (cfg : option Config) (wrap : option Key) : bool :=
  match wrap with Some k => named_b k cfg | None => false end.

Lemma opens_b_spec cfg wrap : opens_b cfg wrap = true ↔ opens cfg wrap.
Proof.
  unfold opens, named, opens_b, named_b. destruct wrap as [k|]; [|naive_solver].
  destruct cfg as [[c pv]|]; [|naive_solver]. rewrite orb_true_iff, !bool_decide_eq_true. naive_solver.
Qed.

Definition sim_sealed : error := sentinel "ErrSealed" "secretstore: sealed".
Section Sim.
Context (restart_fails slow : nat → bool).
Definition sim_health (t : nat) (s : Sim) : (Health * option error) * Sim :=
  if sm_open s || negb (slow t) && opens_b (sm_loaded s) (sm_wrap s)
  then ((mkHealth true false, None), mkSim (sm_wrap s) (sm_loaded s) true)
  else ((mkHealth true true, Some sim_sealed), s).
Definition sim_rotate (s : Sim) : result unit * Sim :=
  match sm_loaded s with
  | Some (c, pv) => if sm_open s then (Ok tt, mkSim (Some c) (sm_loaded s) true) else (Fail sim_sealed, s)
  | None => (Fail sim_sealed, s)
  end.
#[local] Instance sim_store : SecretStore Sim := {
  st_wrap := sm_wrap;
  st_loaded := sm_loaded;
  st_open := sm_open;
  st_boot cfg s := mkSim (sm_wrap s) cfg false;
  st_restart t cfg s :=
    if restart_fails t then (Fail (errors_New "exit status 1"), s) else (Ok tt, mkSim (sm_wrap s) cfg false);
  st_health := sim_health;
  st_login _ s := (Ok "token", s);
  st_rotate _ _ s := sim_rotate s
}.

#[local] Instance sim_laws : StoreLaws Sim.
Proof.
  split; simpl.
  - done.
  - intros t cfg s s' r. destruct (restart_fails t); intros [= <- <-]; simpl; eauto 10.
  - intros t s s' h. unfold sim_health.
    destruct (sm_open s) eqn:Eo; simpl; [intros [= <- <-]; simpl; auto|].
    destruct (slow t); simpl; [intros [= <- <-]; simpl; split_and!; auto; [congruence|done]|].
    destruct (opens_b _ _) eqn:Eb; intros [= <- <-]; simpl; split_and!; auto; try congruence; try done.
    intros _. right. by apply opens_b_spec.
  - intros t s s' r [= <- <-]. done.
  - intros t tok s s' r. unfold sim_rotate. destruct (sm_loaded s) as [[c pv]|] eqn:El; [|intros [= <- <-]; auto].
    destruct (sm_open s) eqn:Eo; intros [= <- <-]; simpl; rewrite ?El; eauto 10.
Qed.

Lemma sim_truthful : truthful Sim.
Proof.
  intros t s s' h. simpl. unfold sim_health. destruct (sm_open s) eqn:Eo; simpl; [by intros [= <- <-]|].
  destruct (negb (slow t) && _); intros [= <- <-]; simpl; [done|congruence].
Qed.
End Sim.

Definition id_of (n : string) : string := "rasputin-" +:+ n +:+ "0000000-0000-0000-0000-000000000000".
Definition bytes_of (c : ascii) : string := repeat_char c 32.
Definition key0 : Key := (id_of "a", bytes_of "0"%char).
Definition key1 : Key := (id_of "b", bytes_of "1"%char).
Definition key2 : Key := (id_of "c", bytes_of "2"%char).

Definition fragment_text (f : Fragment) : string :=
  match render f ProductionPaths with Ok b => b | Fail _ => EmptyString end.
(** A control plane as it is installed: one key, nothing staged, the store open. *)
Definition installed : World (Rot Sim) :=
  mkWorld 0
    (<[FragmentName := Reg (fragment_text (mkFragment Clean key0.1 EmptyString))]>
      (<[SealKeyName := Reg key0.2]> ∅)) (Some ∅)
    (mkRot (mkSim (Some key0) (Some (key0, None)) true) ∅ free_gate [] []).

(** The environment of the examples: one poll per wait, no other restart; [die]
    ends the api at a tick, [keys] are the keys minted. *)
Definition die_at (n : nat) : nat → Fault := λ t, if Nat.eqb t n then PowerLoss 0 else NoFault.
Definition bench_env (F : nat → Fault) (keys : nat → Key) : SealEnv :=
  {| e_fault := F; e_rand _ := "1"; e_drift _ := false; e_polls _ := 0%nat; e_restore _ := None;
     e_keyid t := Ok (keys t).1; e_key t := Ok (keys t).2 |}.

Lemma bench_sound n keys : (∀ t, keyIDRE (keys t).1 = true) → sound_env (bench_env (die_at n) keys).
Proof.
  intros Hk. split; simpl.
  - intros t s. unfold die_at. by destruct (Nat.eqb t n).
  - intros t s e. unfold die_at. by destruct (Nat.eqb t n).
  - intros t id [= <-]. apply Hk.
Qed.

Lemma installed_history (rf sl : nat → bool) :
  @history Sim (sim_store rf sl) ProductionPaths true installed.
Proof.
  apply (h_first ProductionPaths true key0.1 key0.2).
  - by split.
  - split; [done|]. split; [|done]. exists (fragment_text (mkFragment Clean key0.1 EmptyString)).
    split; [done|vm_compute; done].
  - done.
  - vm_compute. done.
  - done.
Qed.

(** C8.  Crash safety of the seal-key rotation.  Take any history that starts on
    an installed control plane and in which rotations run one after another,
    each perhaps cut short by a crash of the api or the loss of power at any of
    its file and store calls, with any file errors, any store answers the laws
    allow and any restarts of the store by others, each run finding the store
    on a key the directory names.  Then the seal directory is one a rotation
    recognises, and the key that wraps the store's root key is one the fragment
    on disk names and whose bytes are on disk where the fragment says, unless a
    re-wrap broke off, and then the directory is staged.  Also, as long as an
    open store answers health requests, no rotation ever asked for a restart of
    an open store that could not open again afterwards. *)
Theorem seal_history_safe (St : Type) `{!SecretStore St} `{!StoreLaws St} (p : Paths) (enabled : bool) (w : World (Rot St)) :
  paths_ok p → history p enabled w → recoverable p w ∧ gentle w.
Proof. intros Hp Hw. by apply (history_safe p enabled Hp). Qed.

(** A rotation that dies right after staging, then one that finishes it. *)
Definition staged_then_died : World (Rot Sim) :=
  snd (@rotation Sim (sim_store (λ _, false) (λ _, false)) (bench_env (die_at 31) (λ _, key1)) ProductionPaths true "j1" installed).
Definition finished_later : option (result Outcome) * World (Rot Sim) :=
  @rotation Sim (sim_store (λ _, false) (λ _, false)) (bench_env (die_at 1000) (λ _, key2)) ProductionPaths true "j2"
    (@reborn Sim (sim_store (λ _, false) (λ _, false)) ProductionPaths true staged_then_died).

Lemma seal_history_safe_witness :
  (fst finished_later = Some (Ok (Resumed key1.1 key0.1)) ∧
  st_wrap (SecretStore := sim_store (λ _, false) (λ _, false)) (r_store (w_rest (snd finished_later))) = Some key1) ∧
  @recoverable Sim (sim_store (λ _, false) (λ _, false)) ProductionPaths (snd finished_later) ∧
  @gentle Sim (sim_store (λ _, false) (λ _, false)) (snd finished_later).
Proof.
  split; [split; vm_compute; reflexivity|].
  unshelve eapply (@seal_history_safe Sim (sim_store (λ _, false) (λ _, false)) (sim_laws _ _) ProductionPaths true).
  - exact ProductionPaths_ok.
  - eapply (@h_run Sim (sim_store (λ _, false) (λ _, false)) ProductionPaths true (bench_env (die_at 1000) (λ _, key2)) "j2"
      (Ok (Resumed key1.1 key0.1)) (@reborn Sim (sim_store (λ _, false) (λ _, false)) ProductionPaths true staged_then_died)).
    + by apply bench_sound.
    + eapply (@h_crash Sim (sim_store (λ _, false) (λ _, false)) ProductionPaths true (bench_env (die_at 31) (λ _, key1)) "j1"
        true installed staged_then_died).
      * by apply bench_sound.
      * apply installed_history.
      * intros c pv [= <- <-]. exists key0, None. split; [vm_compute; reflexivity|by left].
      * vm_compute. reflexivity.
    + apply (@power_attached Sim (sim_store (λ _, false) (λ _, false)) (sim_laws _ _)).
    + vm_compute. reflexivity.
Defined.

(** ** The proviso is needed *)

(** The second restart of the first run fails; the store is slow to open until
    that run is over. *)
#[local] Instance slow_store : SecretStore Sim := sim_store (λ t, Nat.eqb t 44) (λ t, Nat.ltb t 47).
Definition loss_env : SealEnv := bench_env (die_at 76) (λ t, if Nat.ltb t 47 then key1 else key2).
#[local] Existing Instance loss_env.
Definition loss1 := rotation ProductionPaths true "j1" installed.
Definition loss2 := rotation ProductionPaths true "j2" (snd loss1).
Definition loss3 := rotation ProductionPaths true "j3" (reborn ProductionPaths false (snd loss2)).

(** A rotation can lose the store for good.  The first run's store opens too
    late and the restart of the roll-back fails, so the store runs on with the
    staged key while its file is removed and the directory reads clean.  The
    second run stages another key and the api dies before it restarts the
    store.  The third run finds a staged directory and a store that answers,
    re-wraps the running store first, under the key of the first run, and
    restarts it: the root key is now wrapped by a key that is nowhere. *)
Lemma stale_process_loses_store :
  fst loss1 = Some (Fail errStagedRolledBack) ∧ fst loss2 = None ∧ fst loss3 = Some (Fail errStagedResume) ∧
  st_wrap (r_store (w_rest (snd loss3))) = Some key1 ∧
  disk_config ProductionPaths (snd loss3) = Some (key2, Some key0) ∧
  map_Forall (λ _ n, n ≠ Reg key1.2) (w_seal (snd loss3)) ∧
  w_rot (snd loss3) = Some {[ key2.1 := Reg key2.2 ]} ∧
  ¬ opens (disk_config ProductionPaths (snd loss3)) (st_wrap (r_store (w_rest (snd loss3)))).
Proof.
  split; [vm_compute; reflexivity|]. split; [vm_compute; reflexivity|]. split; [vm_compute; reflexivity|].
  split; [vm_compute; reflexivity|]. split; [vm_compute; reflexivity|].
  split; [refine (bool_decide_unpack _ _); vm_compute; exact I|]. split; [vm_compute; reflexivity|].
  rewrite <- opens_b_spec. vm_compute. discriminate.
Qed.
