(* ===== verification/SealCapture.v ===== *)
(** * Rotations and captures side by side

    Any number of rotation jobs, backups and OS updates share the capture gate.
    A capture copies the seal files between its [Acquire] and its [Release]; a
    rotation changes them between its [TryAcquire] and its terminal hook.  A
    job is first recorded as ended and then releases the gate, so the gate may
    take the hold of a job that has ended before its hook runs.  In every
    interleaving a capture sees one directory, a clean one, from its beginning
    to its end. *)
From Stdlib Require Import String.
From S2P Require Import Prelude SealFragment SealFiles SealGate.

(** Jobs by what they may do now: [Rotating] and [Capturing] hold the gate,
    [Leaving] has ended and not yet released. *)
Inductive activity := Rotating | Capturing (seen : Tree) | Leaving.

Record shared := mkShared {
  s_gate : Gate;
  s_tree : result Tree;                  (* what [State] answers now *)
  s_jobs : gmap string activity
}.

(** The job ledger says that a job has ended only when it has. *)
Definition ledger_ok (s : shared) (running : string → result bool) : Prop :=
  ∀ j, running j = Ok false → s_jobs s !! j = None ∨ s_jobs s !! j = Some Leaving.

Inductive move : shared → shared → Prop :=
| rot_starts j g' s :                       (* validate's TryAcquire *)
    j ≠ EmptyString → s_jobs s !! j = None → TryAcquire j (s_gate s) = (Ok tt, g') →
    move s (mkShared g' (s_tree s) (<[j := Rotating]> (s_jobs s)))
| rot_refused j e g' s :
    j ≠ EmptyString → s_jobs s !! j = None → TryAcquire j (s_gate s) = (Fail e, g') →
    move s (mkShared g' (s_tree s) (s_jobs s))
| rot_writes j t s :                        (* any change of the seal files *)
    s_jobs s !! j = Some Rotating → move s (mkShared (s_gate s) t (s_jobs s))
| cap_turn_granted j cp running g' t s :    (* a turn of Acquire's loop *)
    j ≠ EmptyString → s_jobs s !! j = None → ledger_ok s running → s_tree s = Ok t →
    acquire_turn (s_tree s) running j cp (s_gate s) = (Return (Ok tt), g') →
    move s (mkShared g' (s_tree s) (<[j := Capturing t]> (s_jobs s)))
| cap_turn_other j cp running o g' s :
    j ≠ EmptyString → s_jobs s !! j = None → ledger_ok s running →
    acquire_turn (s_tree s) running j cp (s_gate s) = (o, g') → o ≠ Return (Ok tt) →
    move s (mkShared g' (s_tree s) (s_jobs s))
| job_ends j a s :                          (* the ledger records the end *)
    s_jobs s !! j = Some a → move s (mkShared (s_gate s) (s_tree s) (<[j := Leaving]> (s_jobs s)))
| job_releases j s :                        (* the terminal hook *)
    s_jobs s !! j = Some Leaving →
    move s (mkShared (Release j (s_gate s)) (s_tree s) (delete j (s_jobs s)))
| api_restarts s : move s (mkShared free_gate (s_tree s) ∅).

(** Who is at work holds the gate, as what it is; a capture's copy is current. *)
Definition holds_gate (s : shared) : Prop :=
  (∀ j, s_jobs s !! j = Some Rotating → g_holder (s_gate s) = j ∧ g_byRotation (s_gate s) = true) ∧
  (∀ j t, s_jobs s !! j = Some (Capturing t) →
     g_holder (s_gate s) = j ∧ g_byRotation (s_gate s) = false ∧
     s_tree s = Ok t ∧ f_Shape (t_Fragment t) = Clean) ∧
  (g_holder (s_gate s) ≠ EmptyString → is_Some (s_jobs s !! g_holder (s_gate s))).

Lemma release_holder j g : Release j g = g ∧ g_holder g ≠ j ∨ Release j g = free_gate ∧ g_holder g = j ∨ j = EmptyString.
Proof.
  unfold Release. destruct (String.eqb_spec j EmptyString); [auto|].
  destruct (String.eqb_spec (g_holder g) j); simpl; auto.
Qed.

(** The gate is free, or its holder asks again. *)
Lemma try_granted j g g' : TryAcquire j g = (Ok tt, g') →
  g_holder g = j ∧ g' = g ∨ g_holder g = EmptyString ∧ g' = take_gate j true false.
Proof.
  unfold TryAcquire. destruct (String.eqb_spec (g_holder g) j) as [E|_]; [by intros [= <-]; left|].
  destruct (String.eqb_spec (g_holder g) EmptyString) as [E|_]; simpl; [intros [= <-]; by right|].
  by destruct (g_byRotation g), (g_byUpdate g).
Qed.
Lemma try_refused j g e g' : TryAcquire j g = (Fail e, g') → g' = g.
Proof. unfold TryAcquire. repeat case_match; by intros [= _ <-]. Qed.

Lemma turn_granted tree running j cp g g' : acquire_turn tree running j cp g = (Return (Ok tt), g') →
  (g_holder g = EmptyString ∨ g_holder g = j) ∧ g' = take_gate j false (cp_byUpdate cp) ∧
  ∃ t, tree = Ok t ∧ f_Shape (t_Fragment t) = Clean.
Proof.
  unfold acquire_turn. destruct (String.eqb_spec (g_holder g) EmptyString) as [E|_];
    [|destruct (String.eqb_spec (g_holder g) j) as [E|_]]; simpl; [..|by destruct (running _) as [[]|]];
    (destruct tree as [t|]; [|done]; case_bool_decide; [|done]; intros [= <-]; eauto 10).
Qed.
(** A turn that does not grant the gate leaves it, or drops the hold of a job
    the ledger says has ended. *)
Lemma turn_other tree running j cp g o g' : acquire_turn tree running j cp g = (o, g') → o ≠ Return (Ok tt) →
  g' = g ∨ running (g_holder g) = Ok false ∧ g' = free_gate.
Proof.
  unfold acquire_turn. destruct (String.eqb (g_holder g) EmptyString) eqn:E1; simpl.
  - destruct tree as [t|]; [case_bool_decide|]; intros [= <- <-]; auto; done.
  - destruct (String.eqb (g_holder g) j); simpl.
    + destruct tree as [t|]; [case_bool_decide|]; intros [= <- <-]; auto; done.
    + destruct (running (g_holder g)) as [[]|] eqn:Er; intros [= <- <-]; auto.
      intros _. right. split; [done|]. unfold Release. by rewrite E1, String.eqb_refl.
Qed.

(** With the gate free or dropped, nobody is at work. *)
Lemma free_nobody s : holds_gate s → g_holder (s_gate s) = EmptyString → s_jobs s !! EmptyString = None →
  ∀ i a, s_jobs s !! i = Some a → a = Leaving.
Proof.
  intros (HR & HC & _) E H0 i [] Hi; [| |done].
  - destruct (HR i Hi) as [E' _]. congruence.
  - destruct (HC i _ Hi) as [E' _]. congruence.
Qed.

(** The invariant with the job names it needs. *)
Definition tidy (s : shared) : Prop := holds_gate s ∧ s_jobs s !! EmptyString = None.

(** A new holder on a free gate. *)
Lemma take_over j a g s : tidy s → j ≠ EmptyString → s_jobs s !! j = None → g_holder (s_gate s) = EmptyString →
  g_holder g = j →
  match a with
  | Rotating => g_byRotation g = true
  | Capturing t => g_byRotation g = false ∧ s_tree s = Ok t ∧ f_Shape (t_Fragment t) = Clean
  | Leaving => False
  end → tidy (mkShared g (s_tree s) (<[j := a]> (s_jobs s))).
Proof.
  intros [Hh H0] Hj Hn Hf Hg Ha. pose proof (free_nobody s Hh Hf H0) as Hl.
  split; [|by simpl; rewrite lookup_insert_ne]. split_and!; simpl.
  - intros i. destruct (decide (i = j)) as [-> |]; [rewrite lookup_insert_eq|rewrite lookup_insert_ne by done; by intros Hi%Hl].
    by intros [= ->].
  - intros i t. destruct (decide (i = j)) as [-> |]; [rewrite lookup_insert_eq|rewrite lookup_insert_ne by done; by intros Hi%Hl].
    intros [= ->]. naive_solver.
  - intros _. rewrite Hg, lookup_insert_eq. by eexists.
Qed.

(** The gate as it was, or dropped while nobody is at work. *)
Lemma same_or_dropped g s : tidy s →
  (g = s_gate s ∨ g = free_gate ∧ ∀ i a, s_jobs s !! i = Some a → a = Leaving) →
  tidy (mkShared g (s_tree s) (s_jobs s)).
Proof.
  intros [(HR & HC & HD) H0] [-> |[-> Hl]]; (split; [|done]); [by split_and!|].
  split_and!; simpl; [by intros j Hj%Hl|by intros j t Hj%Hl|done].
Qed.

Lemma fresh_not_holder s j : tidy s → j ≠ EmptyString → s_jobs s !! j = None →
  g_holder (s_gate s) = EmptyString ∨ g_holder (s_gate s) = j → g_holder (s_gate s) = EmptyString.
Proof.
  intros [(_ & _ & HD) _] Hj Hn [E|E]; [done|]. destruct HD as [a Ha]; [congruence|]. congruence.
Qed.

Lemma move_tidy s s' : move s s' → tidy s → tidy s'.
Proof.
  intros Hm Ht. pose proof Ht as [(HR & HC & HD) H0]. destruct Hm as [j g' s Hj Hn HT|j e g' s Hj Hn HT|j t s Hr
    |j cp running g' t s Hj Hn Hl Htr HA|j cp running o g' s Hj Hn Hl HA Ho|j a s Ha|j s Hlv|s].
  - destruct (try_granted _ _ _ HT) as [[E ->]|[E ->]].
    + pose proof (fresh_not_holder s j Ht Hj Hn (or_intror E)). congruence.
    + by apply take_over.
  - apply try_refused in HT as ->. apply same_or_dropped; auto.
  - split; [|done]. split_and!; simpl; auto. intros i t' Hi. destruct (HR _ Hr) as [E1 E2]. destruct (HC _ _ Hi) as (E3 & E4 & _). congruence.
  - destruct (turn_granted _ _ _ _ _ _ HA) as (E & -> & t' & Et & Hcl).
    apply take_over; auto; [by eapply fresh_not_holder|]. simpl. rewrite Htr in Et. by injection Et as <-.
  - apply same_or_dropped; [done|]. destruct (turn_other _ _ _ _ _ _ _ HA Ho) as [-> |[Hr ->]]; [by left|right].
    split; [done|]. intros i [] Hi; [| |done].
    + destruct (HR i Hi) as [E _]. rewrite E in Hr. destruct (Hl _ Hr); congruence.
    + destruct (HC i _ Hi) as [E _]. rewrite E in Hr. destruct (Hl _ Hr); congruence.
  - assert (j ≠ EmptyString) by (intros ->; congruence). split; [|by simpl; rewrite lookup_insert_ne].
    split_and!; simpl.
    + intros i. rewrite lookup_insert_Some. intros [[_ [=]]|[_ Hi]]. auto.
    + intros i t. rewrite lookup_insert_Some. intros [[_ [=]]|[_ Hi]]. auto.
    + intros Hne. destruct (decide (j = g_holder (s_gate s))) as [-> |]; [rewrite lookup_insert_eq; by eexists|].
      rewrite lookup_insert_ne by done. auto.
  - assert (Hj : j ≠ EmptyString) by (intros ->; congruence). split; [|by simpl; rewrite lookup_delete_ne].
    destruct (release_holder j (s_gate s)) as [[-> Hne]|[[-> E]|?]]; [| |done].
    + split_and!; simpl.
      * intros i. rewrite lookup_delete_Some. intros [_ Hi]. auto.
      * intros i t. rewrite lookup_delete_Some. intros [_ Hi]. auto.
      * intros Hh. rewrite lookup_delete_ne by done. auto.
    + split_and!; simpl; [| |done].
      * intros i. rewrite lookup_delete_Some. intros [Hi Hx]. destruct (HR _ Hx). congruence.
      * intros i t. rewrite lookup_delete_Some. intros [Hi Hx]. destruct (HC _ _ Hx). congruence.
  - split; [|done]. by split_and!.
Qed.

Definition idle (tree : result Tree) : shared := mkShared free_gate tree ∅.

Lemma reach_tidy tree s : rtc move (idle tree) s → tidy s.
Proof.
  assert (H0 : tidy (idle tree)) by done. revert H0. generalize (idle tree). intros s0 H0 Hs.
  induction Hs as [|s1 s2 s3 Hm _ IH]; [done|]. by apply IH, (move_tidy s1).
Qed.

(** C17.  A capture sees one directory.  In every interleaving of any number of
    rotations, backups and OS updates, with jobs that end in any order, holds
    dropped from jobs that have ended, and restarts of the api: while a job
    copies the seal files, the directory is the one it found when it was let
    in, that directory is clean, and no rotation can change it, because no
    rotation and no other capture is under way. *)
Theorem capture_sees_one_tree (tree : result Tree) (s : shared) (j : string) (t : Tree) :
  rtc move (idle tree) s → s_jobs s !! j = Some (Capturing t) →
  s_tree s = Ok t ∧ f_Shape (t_Fragment t) = Clean ∧
  ∀ i a, s_jobs s !! i = Some a → i ≠ j → a = Leaving.
Proof.
  intros Hs Hj. destruct (reach_tidy tree s Hs) as [(HR & HC & _) _].
  destruct (HC j t Hj) as (Hg & Hb & Htr & Hcl). split_and!; [done..|].
  intros i [] Hi Hne; [| |done].
  - destruct (HR i Hi). congruence.
  - destruct (HC i _ Hi). congruence.
Qed.

(** A rotation ends, a backup takes over its hold before its hook has run, and
    the hook of the rotation then finds the gate held by the backup. *)
Definition clean_tree : Tree := mkTree (mkFragment Clean "rasputin-a" EmptyString) [] Fresh.
Definition backup_at_work : shared :=
  mkShared (take_gate "b" false false) (Ok clean_tree) (delete "r" (<["b" := Capturing clean_tree]> (<["r" := Leaving]> (<["r" := Rotating]> ∅)))).

Lemma capture_sees_one_tree_witness :
  s_tree backup_at_work = Ok clean_tree ∧ f_Shape (t_Fragment clean_tree) = Clean ∧
  ∀ i a, s_jobs backup_at_work !! i = Some a → i ≠ "b" → a = Leaving.
Proof.
  refine (capture_sees_one_tree (Ok clean_tree) backup_at_work "b" clean_tree _ _); [|reflexivity].
  eapply rtc_l; [eapply (rot_starts "r" (take_gate "r" true false)); [done|reflexivity|reflexivity]|].
  eapply rtc_l; [eapply (job_ends "r" Rotating); reflexivity|].
  eapply rtc_l.
  { eapply (cap_turn_other "b" backupCapture (λ i, Ok (negb (String.eqb i "r"))) Again free_gate);
      [done|reflexivity| |reflexivity|done].
    intros i Hi. destruct (decide (i = "r")) as [E|E]; [rewrite E; right; reflexivity|].
    rewrite (proj2 (String.eqb_neq i "r") E) in Hi. done. }
  eapply rtc_l.
  { eapply (cap_turn_granted "b" backupCapture (λ i, Ok (negb (String.eqb i "r"))) (take_gate "b" false false) clean_tree);
      [done|reflexivity| |reflexivity|reflexivity].
    intros i Hi. destruct (decide (i = "r")) as [E|E]; [rewrite E; right; reflexivity|].
    rewrite (proj2 (String.eqb_neq i "r") E) in Hi. done. }
  eapply rtc_l; [eapply (job_releases "r"); reflexivity|]. apply rtc_refl.
Defined.
