(* ===== verification/Releases.v ===== *)
(** * Release versions and the update check

    api/internal/releases: version.go (parsing and comparing release versions),
    registry.go and source.go (components, manifests, artifacts) and check.go
    (what the Updates page says of a component).  The facts: [Compare] is the
    lexicographic order of the numbers a version holds, exactly as long as they
    fit an [int], and a total preorder always; what the check says of a
    component whose nodes all report readable versions; and what it says when
    the first of them does not. *)
From Stdlib Require Import Ascii String.
From S2P Require Import Prelude GoStrings UpdatePlan.
Open Scope Z_scope.
#[local] Arguments String.append : simpl nomatch.

(** ** version.go *)
Inductive Scheme := SchemeCalVer | SchemeSemver.
#[export] Instance Scheme_eq_dec : EqDecision Scheme.
Proof. solve_decision. Defined.

Definition is_digit (c : ascii) : bool := let n := nat_of_ascii c in Nat.leb 48 n && Nat.leb n 57.

(** Between [lo] and [hi] digits, all there are. *)
Definition eat_digits (lo : nat) (hi : option nat) (s : string) : option (string * string) :=
  let '(d, r) := span is_digit s in
  if Nat.leb lo (String.length d) && match hi with Some h => Nat.leb (String.length d) h | None => true end
  then Some (d, r) else None.

(** [(?:-dev\.(\d+))?$]: the counter, empty when there is no suffix. *)
Definition dev_suffix (s : string) : option string :=
  if String.eqb s EmptyString then Some EmptyString
  else if HasPrefix s "-dev." then
    '(d, r) ← eat_digits 1 None (drop_str 5 s);
    if String.eqb r EmptyString then Some d else None
  else None.

(** The submatches of [calverRe] and [semverRe]. *)
Definition three_parts (lo1 : nat) (hi1 : option nat) (hi2 : option nat) (s : string) : option (string * string * string * string) :=
  '(a, s) ← eat_digits lo1 hi1 s;
  s ← eat "."%char s;
  '(b, s) ← eat_digits 1 hi2 s;
  s ← eat "."%char s;
  '(c, s) ← eat_digits 1 None s;
  d ← dev_suffix s;
  Some (a, b, c, d).
Definition calverRe (v : string) : option (string * string * string * string) := three_parts 4 (Some 4%nat) (Some 2%nat) v.
Definition semverRe (v : string) : option (string * string * string * string) :=
  three_parts 1 None None (if HasPrefix v "v" then drop_str 1 v else v).

(** The number a run of digits spells. *)
Fixpoint decimal_from (acc : Z) (s : string) : Z :=
  match s with
  | EmptyString => acc
  | String c s => decimal_from (10 * acc + (Z.of_nat (nat_of_ascii c) - 48)) s
  end.
Definition decimal (s : string) : Z := decimal_from 0 s.
(** [n, _ := strconv.Atoi(s)] on digits: out of range gives the largest int. *)
Definition Atoi (s : string) : Z := Z.min (decimal s) int64_max.

Record parsed := mkParsed { p_a : Z; p_b : Z; p_c : Z; p_stable : bool; p_dev : Z }.

Definition parsed_of (num : string → Z) (m : string * string * string * string) : parsed :=
  let '(a, b, c, d) := m in
  let stable := String.eqb d EmptyString in
  mkParsed (num a) (num b) (num c) stable (if stable then 0 else num d).

Definition parse (scheme : Scheme) (v : string) : result parsed :=
  match scheme with
  | SchemeCalVer =>
      match calverRe v with
      | None => Fail (errors_New ("not a CalVer version: " +:+ quote v))
      | Some m => Ok (parsed_of Atoi m)
      end
  | SchemeSemver =>
      match semverRe v with
      | None => Fail (errors_New ("not a semver version: " +:+ quote v))
      | Some m => Ok (parsed_of Atoi m)
      end
  end.

Definition sign (n : Z) : Z := if n <? 0 then -1 else if 0 <? n then 1 else 0.

Definition Compare (scheme : Scheme) (a b : string) : result Z :=
  match parse scheme a with
  | Fail e => Fail e
  | Ok pa =>
  match parse scheme b with
  | Fail e => Fail e
  | Ok pb =>
      if negb (p_a pa =? p_a pb) then Ok (sign (wrap64 (p_a pa - p_a pb)))
      else if negb (p_b pa =? p_b pb) then Ok (sign (wrap64 (p_b pa - p_b pb)))
      else if negb (p_c pa =? p_c pb) then Ok (sign (wrap64 (p_c pa - p_c pb)))
      else if negb (Bool.eqb (p_stable pa) (p_stable pb)) then (if p_stable pa then Ok 1 else Ok (-1))
      else if negb (p_dev pa =? p_dev pb) then Ok (sign (wrap64 (p_dev pa - p_dev pb)))
      else Ok 0
  end end.

Definition IsNewer (scheme : Scheme) (installed latest : string) : result bool :=
  match Compare scheme installed latest with
  | Fail e => Fail e
  | Ok c => Ok (c <? 0)
  end.

(** ** The order it computes *)

(** A version as its sort key: the three numbers, a stable release above every
    pre-release of its base, the counter. *)
Definition rank (p : parsed) : list Z := [p_a p; p_b p; p_c p; if p_stable p then 1 else 0; p_dev p].

Fixpoint lex (l l' : list Z) : comparison :=
  match l, l' with
  | [], [] => Eq
  | [], _ :: _ => Lt
  | _ :: _, [] => Gt
  | x :: l, y :: l' => match x ?= y with Eq => lex l l' | c => c end
  end.
Definition comparison_sign (c : comparison) : Z := match c with Lt => -1 | Eq => 0 | Gt => 1 end.

(** The reference: the same strings read with numbers of any size. *)
Definition submatches (scheme : Scheme) (v : string) : option (string * string * string * string) :=
  match scheme with SchemeCalVer => calverRe v | SchemeSemver => semverRe v end.
Definition exact (scheme : Scheme) (v : string) : option parsed := parsed_of decimal <$> submatches scheme v.
Definition fits (p : parsed) : Prop := Forall (λ n, n ≤ int64_max) (rank p).

Lemma lex_refl l : lex l l = Eq.
Proof. induction l as [|x l IH]; simpl; [done|]. by rewrite Z.compare_refl. Qed.
Lemma lex_antisym l l' : lex l' l = CompOpp (lex l l').
Proof.
  revert l'. induction l as [|x l IH]; intros [|y l']; simpl; try done.
  rewrite (Z.compare_antisym x y). destruct (x ?= y); simpl; auto.
Qed.
Lemma lex_trans l1 l2 l3 : lex l1 l2 ≠ Gt → lex l2 l3 ≠ Gt → lex l1 l3 ≠ Gt ∧ (lex l1 l3 = Eq → lex l1 l2 = Eq ∧ lex l2 l3 = Eq).
Proof.
  revert l2 l3. induction l1 as [|x l1 IH]; intros [|y l2] [|z l3]; simpl; try done.
  destruct (Z.compare_spec x y), (Z.compare_spec y z); subst; try done; intros H1 H2.
  - rewrite Z.compare_refl. by apply IH.
  - rewrite (proj2 (Z.compare_lt_iff _ _)) by lia. split; by intros [=].
  - rewrite (proj2 (Z.compare_lt_iff _ _)) by lia. split; by intros [=].
  - rewrite (proj2 (Z.compare_lt_iff _ _)) by lia. split; by intros [=].
Qed.

Lemma decimal_from_ge acc s : all_chars is_digit s = true → 0 ≤ acc → 0 ≤ decimal_from acc s.
Proof.
  revert acc. induction s as [|c s IH]; intros acc; simpl; [done|].
  rewrite andb_true_iff. intros [Hc Hs] Ha. apply IH; [done|].
  unfold is_digit in Hc. apply andb_true_iff in Hc as [Hc _]. apply Nat.leb_le in Hc. lia.
Qed.

Lemma eat_digits_spec lo hi s d r : eat_digits lo hi s = Some (d, r) → all_chars is_digit d = true.
Proof.
  unfold eat_digits. destruct (span is_digit s) as [d' r'] eqn:E. apply span_spec in E as [_ E].
  destruct (_ && _); [|done]. by intros [= <- <-].
Qed.

Lemma three_parts_digits lo hi hi2 s a b c d : three_parts lo hi hi2 s = Some (a, b, c, d) →
  Forall (λ x, all_chars is_digit x = true) [a; b; c; d].
Proof.
  unfold three_parts. intros H.
  destruct (eat_digits lo hi s) as [[a' s1]|] eqn:E1; [|done]. simpl in H.
  destruct (eat _ s1) as [s2|]; [|done]. simpl in H.
  destruct (eat_digits 1 hi2 s2) as [[b' s3]|] eqn:E2; [|done]. simpl in H.
  destruct (eat _ s3) as [s4|]; [|done]. simpl in H.
  destruct (eat_digits 1 None s4) as [[c' s5]|] eqn:E3; [|done]. simpl in H.
  destruct (dev_suffix s5) as [d'|] eqn:E4; [|done]. simpl in H. injection H as <- <- <- <-.
  apply eat_digits_spec in E1, E2, E3. repeat constructor; auto.
  unfold dev_suffix in E4. destruct (String.eqb s5 EmptyString); [by injection E4 as <-|].
  destruct (HasPrefix s5 "-dev."); [|done].
  destruct (eat_digits 1 None (drop_str 5 s5)) as [[d2 r]|] eqn:E5; [|done]. simpl in E4.
  destruct (String.eqb r EmptyString); [|done]. injection E4 as <-. by apply eat_digits_spec in E5.
Qed.

Lemma submatches_digits scheme v a b c d : submatches scheme v = Some (a, b, c, d) →
  Forall (λ x, all_chars is_digit x = true) [a; b; c; d].
Proof. destruct scheme; apply three_parts_digits. Qed.

Lemma parse_submatches scheme v p : parse scheme v = Ok p ↔ ∃ m, submatches scheme v = Some m ∧ p = parsed_of Atoi m.
Proof.
  unfold parse, submatches. destruct scheme; (destruct (_ v) as [m|]; [|by split; [|intros (?&?&?)]]);
    (split; [intros [= <-]; eauto|by intros (? & [= <-] & ->)]).
Qed.

(** Numbers an [int] holds, and not negative. *)
Definition in_range_p (p : parsed) : Prop := Forall (λ n, 0 ≤ n ≤ int64_max) (rank p).

Lemma parse_in_range scheme v p : parse scheme v = Ok p → in_range_p p.
Proof.
  intros ([[[a b] c] d] & Hm & ->)%parse_submatches. apply submatches_digits in Hm.
  assert (Hn : ∀ x, all_chars is_digit x = true → 0 ≤ Atoi x ≤ int64_max).
  { intros x Hx. unfold Atoi. pose proof (decimal_from_ge 0 x Hx ltac:(lia)). unfold decimal, int64_max in *. lia. }
  rewrite !Forall_cons in Hm. destruct Hm as (Ha & Hb & Hc & Hd & _). unfold in_range_p, rank, parsed_of. simpl.
  assert (0 ≤ 0 ≤ int64_max) by (unfold int64_max; lia).
  repeat constructor; try apply Hn; auto; destruct (String.eqb d EmptyString); try apply Hn; auto; unfold int64_max; lia.
Qed.

Lemma sign_compare a b : 0 ≤ a ≤ int64_max → 0 ≤ b ≤ int64_max →
  sign (wrap64 (a - b)) = comparison_sign (a ?= b).
Proof.
  intros Ha Hb. rewrite wrap64_id by (unfold in_int64, int64_min, int64_max in *; lia).
  unfold sign. destruct (Z.compare_spec a b); simpl.
  - subst. rewrite Z.sub_diag. done.
  - rewrite (proj2 (Z.ltb_lt _ _)) by lia. done.
  - rewrite (proj2 (Z.ltb_ge _ _)) by lia. rewrite (proj2 (Z.ltb_lt _ _)) by lia. done.
Qed.

(** [Compare] is the lexicographic order of the sort keys. *)
Lemma Compare_rank scheme a b pa pb : parse scheme a = Ok pa → parse scheme b = Ok pb →
  Compare scheme a b = Ok (comparison_sign (lex (rank pa) (rank pb))).
Proof.
  intros Ha Hb. unfold Compare. rewrite Ha, Hb. apply parse_in_range in Ha, Hb.
  unfold in_range_p, rank in *. rewrite !Forall_cons in Ha, Hb.
  destruct Ha as (A1 & A2 & A3 & A4 & A5 & _), Hb as (B1 & B2 & B3 & B4 & B5 & _). simpl.
  assert (Hstep : ∀ x y k k', 0 ≤ x ≤ int64_max → 0 ≤ y ≤ int64_max →
    (x = y → k = Ok (comparison_sign k')) →
    (if negb (x =? y) then Ok (sign (wrap64 (x - y))) else k) =
    Ok (comparison_sign match x ?= y with Eq => k' | c => c end)).
  { intros x y k k' Hx Hy Hk. rewrite sign_compare by done. destruct (Z.eqb_spec x y) as [-> |Hne]; simpl.
    - rewrite Z.compare_refl. by apply Hk.
    - destruct (Z.compare_spec x y); [done|done|done]. }
  apply Hstep; [done..|intros _]. apply Hstep; [done..|intros _]. apply Hstep; [done..|intros _].
  destruct (p_stable pa), (p_stable pb); simpl; try done; (apply Hstep; [done..|intros _]); done.
Qed.

Lemma exact_Atoi scheme v p : exact scheme v = Some p → fits p → parse scheme v = Ok p.
Proof.
  unfold exact. intros H Hf. destruct (submatches scheme v) as [[[[a b] c] d]|] eqn:E; [|done].
  injection H as <-. apply parse_submatches. eexists. split; [done|].
  unfold fits, rank, parsed_of in *. simpl in *. rewrite !Forall_cons in Hf. destruct Hf as (H1 & H2 & H3 & _ & H5 & _).
  unfold Atoi. rewrite !Z.min_l by done. destruct (String.eqb d EmptyString); [done|]. by rewrite Z.min_l.
Qed.



(** Beyond the int two different versions are the same to [Compare]. *)
Lemma compare_overflow_ties :
  Compare SchemeSemver "1.0.9223372036854775808" "1.0.9999999999999999999" = Ok 0.
Proof. reflexivity. Qed.

(** ** registry.go and source.go *)
Record Component := mkComponent {
  c_ID : string; c_Label : string; c_Repo : string; c_TagPrefix : string; c_Compatible : string;
  c_Scheme : Scheme; c_Kind : Kind; c_Deployable : bool;
  c_CompareRoles : list string; c_CompareField : string; c_SignedManifestFrom : string
}.
Definition os_component : Component :=
  mkComponent "os" "Rasputin OS" "geekdojo/rasputin-os" EmptyString "rasputin-n100" SchemeCalVer KindRAUC true
    [role_controlplane; role_compute; role_storage] "image" "2026.08.4".
Definition fw_component : Component :=
  mkComponent "fw" "Rasputin OpenWrt Firewall" "geekdojo/rasputin-openwrt-firewall" EmptyString FirewallCompatible
    SchemeCalVer KindRootfsAB true [role_firewall] "image" "2026.09.4-dev.127".
Definition Components : list Component := [os_component; fw_component].
Definition ComponentByID (id : string) : option Component := head (filter (λ c, c_ID c = id) Components).

Record ManifestArtifact := mkArtifact {
  a_Architecture : string; a_Compatible : string; a_Raucb : string; a_Image : string;
  a_SHA256 : string; a_ImageSha256 : string; a_SizeBytes : Z; a_SignedBy : string;
  a_Rootfs : string; a_RootfsSha256 : string; a_RootfsSizeBytes : Z; a_RootfsSig : string
}.
Record Manifest := mkManifest {
  m_Version : string; m_Channel : string; m_Artifacts : list ManifestArtifact; m_SecurityFloor : string
}.

Definition OTAAsset (a : ManifestArtifact) (kind : Kind) : option (string * string * Z) :=
  match kind with
  | KindRAUC =>
      if negb (String.eqb (a_Raucb a) EmptyString) && negb (String.eqb (a_SHA256 a) EmptyString)
      then Some (a_Raucb a, a_SHA256 a, a_SizeBytes a) else None
  | KindRootfsAB =>
      if negb (String.eqb (a_Rootfs a) EmptyString) && negb (String.eqb (a_RootfsSha256 a) EmptyString)
      then Some (a_Rootfs a, a_RootfsSha256 a, a_RootfsSizeBytes a) else None
  | KindSysupgrade => None
  end.
Definition OTASigAsset (a : ManifestArtifact) (kind : Kind) : string * bool :=
  match kind with KindRootfsAB => (a_RootfsSig a, true) | _ => (EmptyString, false) end.

Record ReleaseInfo := mkInfo {
  i_Component : string; i_Version : string; i_Channel : string; i_Tag : string; i_Manifest : Manifest;
  i_Signer : string; i_signed : option (string * string);   (* the manifest and signature bytes verified *)
  i_assetURLs : list (string * string)
}.
Definition SignedManifest (r : ReleaseInfo) : option (string * string) :=
  match i_signed r with
  | Some (m, s) => if String.eqb m EmptyString || String.eqb s EmptyString then None else Some (m, s)
  | None => None
  end.
Definition Artifact (r : ReleaseInfo) (compatible : string) : option ManifestArtifact :=
  head (filter (λ a, compatible = EmptyString ∨ a_Compatible a = compatible) (m_Artifacts (i_Manifest r))).

Definition ParseChannel (s : string) : option string :=
  if String.eqb s "stable" then Some "stable" else if String.eqb s "dev" then Some "dev" else None.

(** ** check.go *)
Inductive Status := StatusUpToDate | StatusUpdateAvailable | StatusNoRelease | StatusUnknown | StatusNeedsAttention.
#[export] Instance ReleaseStatus_eq_dec : EqDecision Status.
Proof. solve_decision. Defined.

(** proto.Node, as the check reads it. *)
Record RNode := mkRNode {
  n_ID : string; n_Role : string; n_Architecture : string;
  n_AgentVersion : string; n_ImageVersion : string; n_confirmed : bool
}.

Definition runsComponent (n : RNode) (comp : Component) : bool := bool_decide (n_Role n ∈ c_CompareRoles comp).
Definition nodeVersion (n : RNode) (comp : Component) : string :=
  if String.eqb (c_CompareField comp) "agent" then n_AgentVersion n else n_ImageVersion n.

(** The loop of [installedVersion]. *)
Definition older_of (comp : Component) (oldest : string) (n : RNode) : string :=
  if negb (runsComponent n comp) then oldest else
  let v := nodeVersion n comp in
  if String.eqb v EmptyString then oldest
  else if String.eqb oldest EmptyString then v
  else match IsNewer (c_Scheme comp) v oldest with Ok true => v | _ => oldest end.
Definition installedVersion (nodes : list RNode) (comp : Component) : string := foldl (older_of comp) EmptyString nodes.

Definition unconfirmedNodes (nodes : list RNode) (comp : Component) : list string :=
  if String.eqb (c_CompareField comp) "agent" then []
  else map (λ n, n_ID n +:+ " (" +:+ (if String.eqb (n_ImageVersion n) EmptyString then "no version reported" else n_ImageVersion n) +:+ ")")
         (filter (λ n, runsComponent n comp = true ∧ n_confirmed n = false) nodes).

Definition lags (comp : Component) (latest : string) (n : RNode) : bool :=
  runsComponent n comp && negb (String.eqb (nodeVersion n comp) EmptyString) &&
  match IsNewer (c_Scheme comp) (nodeVersion n comp) latest with Ok b => b | Fail _ => false end.
Definition laggingNodes (nodes : list RNode) (comp : Component) (latest : string) : list string :=
  map (λ n, n_ID n +:+ " (" +:+ nodeVersion n comp +:+ ")") (filter (λ n, lags comp latest n = true) nodes).

Definition appendNote (existing add : string) : string :=
  if String.eqb existing EmptyString then add else existing +:+ " · " +:+ add.

Record ArtifactStatus := mkArtStatus {
  as_Architecture : string; as_Compatible : string; as_BundleSHA256 : string; as_AssetName : string;
  as_SizeBytes : Z; as_NeededBy : nat
}.
Definition nodesNeeding (nodes : list RNode) (comp : Component) (compatible : string) : nat :=
  length (filter (λ n, runsComponent n comp = true ∧
    (match c_Kind comp with KindRootfsAB => Some (c_Compatible comp) | _ => ArchCompatible (n_Architecture n) end)
      = Some compatible) nodes).
Definition artifactStatuses (info : ReleaseInfo) (comp : Component) (nodes : list RNode) : list ArtifactStatus :=
  omap (λ a, '(name, sha, size) ← OTAAsset a (c_Kind comp);
             Some (mkArtStatus (a_Architecture a) (a_Compatible a) sha name size (nodesNeeding nodes comp (a_Compatible a))))
    (m_Artifacts (i_Manifest info)).

Record ComponentStatus := mkCS {
  cs_Component : string; cs_Channel : string; cs_Installed : string; cs_Latest : string; cs_Status : Status;
  cs_Artifacts : list ArtifactStatus; cs_BundleSHA256 : string; cs_AssetName : string; cs_SizeBytes : Z;
  cs_SignedBy : string; cs_Manual : bool; cs_Note : string; cs_Error : string; cs_Running : list string
}.

(** [checkOne]: [latest] is what the source answers, [friendly] the sentence
    shown for its error. *)
Definition checkOne (friendly : error → string) (latest : result (option ReleaseInfo)) (channel : string)
    (comp : Component) (nodes : list RNode) : ComponentStatus :=
  let installed := installedVersion nodes comp in
  let blank st latest note err :=
    mkCS (c_ID comp) channel installed latest st [] EmptyString EmptyString 0 EmptyString false note err [] in
  match latest with
  | Fail e => blank StatusUnknown EmptyString EmptyString (friendly e)
  | Ok None => blank StatusNoRelease EmptyString EmptyString EmptyString
  | Ok (Some info) =>
      let v := i_Version info in
      let '(st, note, err) :=
        if String.eqb installed EmptyString then (StatusUnknown, EmptyString, EmptyString)
        else match IsNewer (c_Scheme comp) installed v with
             | Fail e => (StatusUnknown, EmptyString, err_text e)
             | Ok true =>
                 let lag := laggingNodes nodes comp v in
                 (StatusUpdateAvailable, if bool_decide (lag = []) then EmptyString else "Behind latest: " +:+ Join lag ", ", EmptyString)
             | Ok false => (StatusUpToDate, EmptyString, EmptyString)
             end in
      let un := unconfirmedNodes nodes comp in
      let '(st, note) :=
        if bool_decide (un = []) then (st, note)
        else (if bool_decide (st = StatusUpToDate) then StatusNeedsAttention else st,
              appendNote note ("Version unconfirmed (last update didn't verify): " +:+ Join un ", ")) in
      let arts := artifactStatuses info comp nodes in
      match Artifact info (c_Compatible comp) with
      | None => mkCS (c_ID comp) channel installed v st arts EmptyString EmptyString 0 EmptyString false note err []
      | Some a =>
          match c_Kind comp with
          | KindRAUC => mkCS (c_ID comp) channel installed v st arts (a_SHA256 a) (a_Raucb a) (a_SizeBytes a) (a_SignedBy a) false note err []
          | KindRootfsAB => mkCS (c_ID comp) channel installed v st arts (a_RootfsSha256 a) (a_Rootfs a) (a_RootfsSizeBytes a) (a_SignedBy a) false note err []
          | KindSysupgrade => mkCS (c_ID comp) channel installed v st arts EmptyString (a_Image a) 0 (a_SignedBy a)
                                (bool_decide (st = StatusUpdateAvailable)) note err []
          end
      end
  end.

Definition controlPlaneVersion (nodes : list RNode) : string :=
  match filter (λ n, n_Role n = role_controlplane) nodes with n :: _ => n_AgentVersion n | [] => EmptyString end.
(** The running control-plane version goes onto the first os row. *)
Fixpoint fold_running (cp : string) (l : list ComponentStatus) : list ComponentStatus :=
  match l with
  | [] => []
  | c :: l =>
      if String.eqb (cs_Component c) "os"
      then mkCS (cs_Component c) (cs_Channel c) (cs_Installed c) (cs_Latest c) (cs_Status c) (cs_Artifacts c)
             (cs_BundleSHA256 c) (cs_AssetName c) (cs_SizeBytes c) (cs_SignedBy c) (cs_Manual c) (cs_Note c)
             (cs_Error c) (cs_Running c ++ [cp]) :: l
      else c :: fold_running cp l
  end.
Definition Check (friendly : error → string) (latestFor : Component → result (option ReleaseInfo))
    (channel : string) (nodes : list RNode) : list ComponentStatus :=
  let rows := map (λ comp, checkOne friendly (latestFor comp) channel comp nodes) Components in
  let cp := controlPlaneVersion nodes in
  if String.eqb cp EmptyString then rows else fold_running cp rows.

(** ** What the check says *)

(** A node whose version counts for the component. *)
Definition reports (comp : Component) (n : RNode) : Prop :=
  runsComponent n comp = true ∧ nodeVersion n comp ≠ EmptyString.
Definition readable (comp : Component) (v : string) : Prop := ∃ p, parse (c_Scheme comp) v = Ok p.
Definition not_newer (comp : Component) (a b : string) : Prop := ∃ k, Compare (c_Scheme comp) a b = Ok k ∧ k ≤ 0.

Lemma readable_compare comp a b : readable comp a → readable comp b → ∃ k, Compare (c_Scheme comp) a b = Ok k.
Proof. intros [pa Ha] [pb Hb]. eexists. by apply Compare_rank. Qed.
Lemma readable_not_empty comp v : readable comp v → v ≠ EmptyString.
Proof. intros [p Hp] ->. by destruct (c_Scheme comp). Qed.

Lemma not_newer_refl comp v : readable comp v → not_newer comp v v.
Proof. intros [p Hp]. eexists. split; [by apply Compare_rank|]. rewrite lex_refl. done. Qed.
Lemma not_newer_total comp a b k : readable comp a → readable comp b → Compare (c_Scheme comp) a b = Ok k →
  (k < 0 → not_newer comp a b) ∧ (0 ≤ k → not_newer comp b a).
Proof.
  intros [pa Ha] [pb Hb] Hk. rewrite (Compare_rank _ _ _ _ _ Ha Hb) in Hk.
  assert (k = comparison_sign (lex (rank pa) (rank pb))) as -> by congruence.
  split; intros H; (eexists; split; [by apply Compare_rank|]).
  - lia.
  - rewrite lex_antisym. destruct (lex (rank pa) (rank pb)); by cbn in *.
Qed.
Lemma not_newer_trans comp a b c : readable comp a → readable comp b → readable comp c →
  not_newer comp a b → not_newer comp b c → not_newer comp a c.
Proof.
  intros [pa Ha] [pb Hb] [pc Hc] (m & Hm & Hm0) (n & Hn & Hn0).
  rewrite (Compare_rank _ _ _ _ _ Ha Hb) in Hm. rewrite (Compare_rank _ _ _ _ _ Hb Hc) in Hn.
  assert (m = comparison_sign (lex (rank pa) (rank pb))) as -> by congruence.
  assert (n = comparison_sign (lex (rank pb) (rank pc))) as -> by congruence.
  eexists. split; [by apply Compare_rank|].
  destruct (lex_trans (rank pa) (rank pb) (rank pc)) as [H1 _].
  { intros E. rewrite E in Hm0. by cbn in Hm0. }
  { intros E. rewrite E in Hn0. by cbn in Hn0. }
  by destruct (lex (rank pa) (rank pc)).
Qed.

(** The fold keeps a version some node reports that none reports an older one of. *)
Definition oldest_so_far (comp : Component) (nodes : list RNode) (o : string) : Prop :=
  (o = EmptyString ∧ ∀ n, n ∈ nodes → ¬ reports comp n) ∨
  ((∃ n, n ∈ nodes ∧ reports comp n ∧ nodeVersion n comp = o) ∧
   ∀ n, n ∈ nodes → reports comp n → not_newer comp o (nodeVersion n comp)).

Lemma older_step comp nodes o n : (∀ m, m ∈ nodes ++ [n] → reports comp m → readable comp (nodeVersion m comp)) →
  oldest_so_far comp nodes o → oldest_so_far comp (nodes ++ [n]) (older_of comp o n).
Proof.
  intros Hr Ho. unfold older_of. destruct (runsComponent n comp) eqn:Erun; simpl.
  2: { assert (¬ reports comp n) as Hn by (intros [? _]; congruence).
       destruct Ho as [[-> H]|[(m & H1 & H2 & H3) H]]; [left|right].
       - split; [done|]. intros m [Hm| ->%list_elem_of_singleton]%elem_of_app; auto.
       - split; [exists m; set_solver|]. intros m' [Hm'| ->%list_elem_of_singleton]%elem_of_app; [auto|done]. }
  destruct (String.eqb_spec (nodeVersion n comp) EmptyString) as [Ev|Ev].
  { assert (¬ reports comp n) as Hn by (by intros [_ ?]).
    destruct Ho as [[-> H]|[(m & H1 & H2 & H3) H]]; [left|right].
    - split; [done|]. intros m [Hm| ->%list_elem_of_singleton]%elem_of_app; auto.
    - split; [exists m; set_solver|]. intros m' [Hm'| ->%list_elem_of_singleton]%elem_of_app; [auto|done]. }
  assert (Hn : reports comp n) by done.
  assert (Hrn : readable comp (nodeVersion n comp)) by (apply Hr; [set_solver|done]).
  assert (Hin : n ∈ nodes ++ [n]) by set_solver.
  destruct Ho as [[-> H]|[(m & H1 & H2 & H3) H]].
  { rewrite String.eqb_refl. right. split; [eauto|].
    intros m' [Hm'| ->%list_elem_of_singleton]%elem_of_app; [by intros ?%H|intros _; by apply not_newer_refl]. }
  assert (Hro : readable comp o) by (rewrite <- H3; apply Hr; [set_solver|done]).
  destruct (String.eqb_spec o EmptyString) as [-> |_]; [by apply readable_not_empty in Hro|].
  right. unfold IsNewer. destruct (readable_compare comp _ o Hrn Hro) as [k Hk]. rewrite Hk.
  destruct (not_newer_total comp _ o k Hrn Hro Hk) as [Hlt Hge].
  destruct (Z.ltb_spec k 0).
  - split; [eauto|]. intros m' [Hm'| ->%list_elem_of_singleton]%elem_of_app Hrep; [|by apply not_newer_refl].
    apply (not_newer_trans comp _ o); auto. apply Hr; [set_solver|done].
  - split; [exists m; set_solver|]. intros m' [Hm'| ->%list_elem_of_singleton]%elem_of_app Hrep; auto.
Qed.

Lemma installedVersion_oldest comp nodes : (∀ m, m ∈ nodes → reports comp m → readable comp (nodeVersion m comp)) →
  oldest_so_far comp nodes (installedVersion nodes comp).
Proof.
  unfold installedVersion. induction nodes as [|n nodes IH] using rev_ind; intros Hr.
  { left. split; [done|]. by intros n Hn%elem_of_nil. }
  rewrite foldl_app. simpl. apply older_step; [done|]. apply IH. intros m Hm. apply Hr. set_solver.
Qed.

Lemma lags_spec comp latest n : readable comp latest → (reports comp n → readable comp (nodeVersion n comp)) →
  lags comp latest n = true ↔ reports comp n ∧ ∃ k, Compare (c_Scheme comp) (nodeVersion n comp) latest = Ok k ∧ k < 0.
Proof.
  intros Hl Hr. unfold lags, reports, IsNewer. rewrite !andb_true_iff, negb_true_iff, String.eqb_neq. split.
  - intros [[H1 H2] H3]. split; [done|]. destruct (Compare _ _ _) as [k|]; [|done]. exists k. split; [done|]. lia.
  - intros [[H1 H2] (k & -> & Hk)]. split; [done|]. lia.
Qed.

(** The oldest version lags exactly when some node does. *)
Lemma oldest_lags comp nodes latest o :
  (∀ m, m ∈ nodes → reports comp m → readable comp (nodeVersion m comp)) → readable comp latest →
  o ≠ EmptyString → oldest_so_far comp nodes o →
  ∃ k, Compare (c_Scheme comp) o latest = Ok k ∧
    (k < 0 ↔ ∃ n, n ∈ nodes ∧ lags comp latest n = true).
Proof.
  intros Hr Hl Hne [[-> _]|[(m & H1 & H2 & H3) H]]; [done|].
  assert (Hro : readable comp o) by (rewrite <- H3; auto).
  destruct (readable_compare comp o latest Hro Hl) as [k Hk]. exists k. split; [done|]. split.
  - intros Hk0. exists m. split; [done|]. apply lags_spec; auto. rewrite H3. eauto.
  - intros (n & Hn & [Hrep (k' & Hk' & Hk0)]%lags_spec); auto.
    pose proof (H n Hn Hrep) as (k2 & Hk2 & Hk20).
    pose proof Hro as [po Po]. pose proof (Hr n Hn Hrep) as [pn Pn]. pose proof Hl as [pl Pl].
    rewrite (Compare_rank _ _ _ _ _ Po Pl) in Hk. rewrite (Compare_rank _ _ _ _ _ Pn Pl) in Hk'.
    rewrite (Compare_rank _ _ _ _ _ Po Pn) in Hk2.
    assert (k = comparison_sign (lex (rank po) (rank pl))) as -> by congruence.
    assert (k' = comparison_sign (lex (rank pn) (rank pl))) as -> by congruence.
    assert (k2 = comparison_sign (lex (rank po) (rank pn))) as -> by congruence.
    destruct (lex_trans (rank po) (rank pn) (rank pl)) as [T1 T2].
    { intros E. rewrite E in Hk20. by cbn in Hk20. }
    { intros E. rewrite E in Hk0. by cbn in Hk0. }
    destruct (lex (rank po) (rank pl)); [|done|done]. destruct (T2 eq_refl) as [_ E]. by rewrite E in Hk0.
Qed.

Lemma checkOne_status friendly info channel comp nodes :
  cs_Status (checkOne friendly (Ok (Some info)) channel comp nodes) =
  let st := if String.eqb (installedVersion nodes comp) EmptyString then StatusUnknown
            else match IsNewer (c_Scheme comp) (installedVersion nodes comp) (i_Version info) with
                 | Fail _ => StatusUnknown | Ok true => StatusUpdateAvailable | Ok false => StatusUpToDate end in
  if bool_decide (unconfirmedNodes nodes comp = []) then st
  else if bool_decide (st = StatusUpToDate) then StatusNeedsAttention else st.
Proof.
  unfold checkOne. destruct (String.eqb _ _); [|destruct (IsNewer _ _ _) as [[]|]];
    (destruct (bool_decide (unconfirmedNodes nodes comp = [])); [|case_bool_decide]);
    destruct (Artifact info (c_Compatible comp)); try done; by destruct (c_Kind comp).
Qed.

(** What the Updates page says of a component.  When every node that runs
    the component and reports a version reports a readable one, at least one
    does, and the release found has a readable version: the component is
    behind exactly when some node runs an older version than the release, the
    version shown as installed is one that a node reports and that no node
    reports an older one of, and otherwise the component needs attention
    exactly when some node's version is unconfirmed, and is up to date when
    none is. *)
Theorem check_tells_the_fleet (friendly : error → string) (info : ReleaseInfo) (channel : string) (comp : Component)
    (nodes : list RNode) :
  (∀ n, n ∈ nodes → reports comp n → readable comp (nodeVersion n comp)) →
  (∃ n, n ∈ nodes ∧ reports comp n) → readable comp (i_Version info) →
  let cs := checkOne friendly (Ok (Some info)) channel comp nodes in
  ((∃ n, n ∈ nodes ∧ lags comp (i_Version info) n = true) → cs_Status cs = StatusUpdateAvailable) ∧
  ((∀ n, n ∈ nodes → lags comp (i_Version info) n = false) →
     cs_Status cs = if bool_decide (unconfirmedNodes nodes comp = []) then StatusUpToDate else StatusNeedsAttention) ∧
  (∃ n, n ∈ nodes ∧ reports comp n ∧ nodeVersion n comp = installedVersion nodes comp) ∧
  (∀ n, n ∈ nodes → reports comp n → not_newer comp (installedVersion nodes comp) (nodeVersion n comp)).
Proof.
  intros Hr (n0 & Hn0 & Hrep0) Hl cs. pose proof (installedVersion_oldest comp nodes Hr) as Ho.
  assert (Hne : installedVersion nodes comp ≠ EmptyString).
  { destruct Ho as [[_ H]|[(m & H1 & [_ H2] & <-) _]]; [by destruct (H n0)|done]. }
  destruct (oldest_lags comp nodes (i_Version info) _ Hr Hl Hne Ho) as (k & Hk & Hlag).
  assert (Hst : cs_Status cs =
    let st := if k <? 0 then StatusUpdateAvailable else StatusUpToDate in
    if bool_decide (unconfirmedNodes nodes comp = []) then st
    else if bool_decide (st = StatusUpToDate) then StatusNeedsAttention else st).
  { unfold cs. rewrite checkOne_status. rewrite (proj2 (String.eqb_neq _ _) Hne). unfold IsNewer. rewrite Hk.
    by destruct (k <? 0). }
  rewrite Hst. split; [|split; [|by destruct Ho as [[? _]|Ho]]].
  - intros Hex. apply Hlag in Hex. rewrite (proj2 (Z.ltb_lt _ _) Hex). simpl. by destruct (bool_decide (unconfirmedNodes nodes comp = [])).
  - intros Hno. assert ((k <? 0) = false) as ->; [|done].
    apply Z.ltb_ge. destruct (Z.lt_ge_cases k 0) as [H|H]; [|done]. apply Hlag in H as (n & Hn & H). by rewrite (Hno n Hn) in H.
Qed.

Definition node_at (id v : string) : RNode := mkRNode id role_compute "amd64" "v0.9.0" v true.
Definition release_of (v : string) : ReleaseInfo :=
  mkInfo "os" v "stable" v (mkManifest v "stable" [] EmptyString) EmptyString None [].

Lemma check_tells_the_fleet_witness :
  cs_Status (checkOne err_text (Ok (Some (release_of "2026.09.4"))) "stable" os_component
    [node_at "n1" "2026.09.4"; node_at "n2" "2026.09.4-dev.9"; node_at "n3" "2026.10.0"]) = StatusUpdateAvailable.
Proof.
  refine (proj1 (check_tells_the_fleet err_text (release_of "2026.09.4") "stable" os_component
    [node_at "n1" "2026.09.4"; node_at "n2" "2026.09.4-dev.9"; node_at "n3" "2026.10.0"] _ _ _) _).
  - intros n Hn _. set_unfold in Hn. destruct_or! Hn; subst; try done; eexists; reflexivity.
  - exists (node_at "n1" "2026.09.4"). split; [set_solver|]. by split.
  - eexists. reflexivity.
  - exists (node_at "n2" "2026.09.4-dev.9"). split; [set_solver|reflexivity].
Defined.

(** The proviso is needed.  The first node to report decides what the others are
    compared with: an unreadable version there makes the component unknown
    although another node lags, and the same nodes in another order read
    behind; and an unreadable version anywhere else is not seen at all. *)
Lemma unreadable_first_hides_lag :
  cs_Status (checkOne err_text (Ok (Some (release_of "2026.09.4"))) "stable" os_component
    [node_at "n1" "unknown"; node_at "n2" "2026.08.1"]) = StatusUnknown ∧
  cs_Status (checkOne err_text (Ok (Some (release_of "2026.09.4"))) "stable" os_component
    [node_at "n2" "2026.08.1"; node_at "n1" "unknown"]) = StatusUpdateAvailable ∧
  cs_Status (checkOne err_text (Ok (Some (release_of "2026.09.4"))) "stable" os_component
    [node_at "n3" "2026.09.4"; node_at "n1" "unknown"]) = StatusUpToDate.
Proof. split; [reflexivity|]. split; reflexivity. Qed.
