(* ===== verification/ReleaseSource.v ===== *)
(** * Which release is offered, and whether its manifest is to be believed

    api/internal/releases: manifestsig.go (the signing floor and the check of a
    manifest's signature), github.go (the newest release of a component),
    nodeimage.go and bakedfirewall.go (the image a new node is flashed with) and
    security.go (the security floor and its alert).  HTTP, encoding/json, the
    temporary files and the signature verifier are fields of [ReleaseEnv].  The
    facts: every release or image that comes out at or above its component's
    floor was verified and names its own tag; with readable tags the newest is
    chosen; a tag that cannot be read is chosen when it comes first, and is then
    believed unsigned; the security alert is raised for what the last good
    reading says. *)
From Stdlib Require Import Ascii String.
From S2P Require Import Prelude GoStrings GoPath UpdatePlan Releases.
Open Scope Z_scope.
#[local] Arguments String.append : simpl nomatch.

(** ** Strings *)
Definition TrimPrefix (s p : string) : string := if HasPrefix s p then drop_str (String.length p) s else s.

(** [strings.TrimRight(s, "/")] *)
Fixpoint trim_slashes (s : string) : string :=
  match s with
  | EmptyString => EmptyString
  | String c s =>
      match trim_slashes s with
      | EmptyString => if Ascii.eqb c "/"%char then EmptyString else String c EmptyString
      | t => String c t
      end
  end.

Definition is_alnum (c : ascii) : bool := in_range 97 122 c || in_range 65 90 c || in_range 48 57 c.
Definition is_mark (c : ascii) : bool :=
  Ascii.eqb c "."%char || Ascii.eqb c "_"%char || Ascii.eqb c "+"%char || Ascii.eqb c "-"%char.

(** [url.PathEscape]: what a path segment may hold stays, the rest becomes
    [%XX]. *)
Definition path_plain (c : ascii) : bool :=
  is_alnum c || is_mark c || Ascii.eqb c "~"%char || Ascii.eqb c "$"%char || Ascii.eqb c "&"%char
  || Ascii.eqb c ":"%char || Ascii.eqb c "="%char || Ascii.eqb c "@"%char.
Definition hex_digit (n : nat) : ascii := char (if Nat.ltb n 10 then 48 + n else 55 + n)%nat.
Fixpoint PathEscape (s : string) : string :=
  match s with
  | EmptyString => EmptyString
  | String c s =>
      if path_plain c then String c (PathEscape s)
      else String "%"%char (String (hex_digit (nat_of_ascii c / 16)%nat)
             (String (hex_digit (nat_of_ascii c mod 16)%nat) (PathEscape s)))
  end.

(** ** nodeimage.go: names that are one path segment *)
Definition maxPathSegment : Z := 128.
Definition validPathSegment (s : string) : bool :=
  match s with
  | EmptyString => false
  | String c r =>
      negb (Z.of_nat (String.length s) >? maxPathSegment) && negb (Contains s "..")
      && is_alnum c && all_chars (λ c, is_alnum c || is_mark c) r
  end.
Definition ValidReleaseVersion (version : string) : bool := validPathSegment version.
Definition ErrInvalidVersion : error := sentinel "ErrInvalidVersion" "invalid release version".
Definition ErrInvalidAssetName : error := sentinel "ErrInvalidAssetName" "invalid release asset name".

(** ** The world outside *)
Record ghRelease := mkGh { gh_TagName : string; gh_Prerelease : bool; gh_Assets : list (string * string) }.

Class ReleaseEnv := {
  http_GET : string → result (Z * result string);        (* the status and the body *)
  json_releases : string → result (list ghRelease);
  json_manifest : string → result Manifest;
  json_version : string → result string;                  (* struct{ Version } *)
  temp_file : nat → option error;                         (* MkdirTemp and the two writes *)
  base64 : string → string;
  verifier : option (string → string → result string);    (* VerifyArtifact: the signer *)
  SignerExpiry : string → option string;
  disk_file : string → result string
}.

(** ** manifestsig.go *)
Definition ErrManifestUnsigned := sentinel "ErrManifestUnsigned" "release manifest is not signed".
Definition ErrManifestVersionMismatch :=
  sentinel "ErrManifestVersionMismatch" "release tag does not match the signed manifest's version".
Definition ErrManifestSignerExpired := sentinel "ErrManifestSignerExpired" "the release's signing certificate has expired".
Definition ErrNoVerifier := sentinel "ErrNoVerifier" "this control plane cannot verify release signatures".

Definition SignedManifestRequired (comp : Component) (version : string) : bool :=
  if String.eqb (c_SignedManifestFrom comp) EmptyString then false
  else match Compare (c_Scheme comp) version (c_SignedManifestFrom comp) with
       | Fail _ => false
       | Ok c => 0 <=? c
       end.

Section Source.
Context {RE : ReleaseEnv}.

(** [Ok None] is the source's [nil, nil]: nothing had to be verified. *)
Definition VerifyManifest (comp : Component) (version manifestJSON sigDER : string) : result (option string) :=
  let required := SignedManifestRequired comp version in
  if String.eqb sigDER EmptyString then
    if negb required then Ok None
    else Fail (wrapf (err_text ErrManifestUnsigned +:+ ": " +:+ c_ID comp +:+ " " +:+ version +:+
           " publishes no manifest.json.sig, and every release from " +:+ c_SignedManifestFrom comp +:+ " onward must")
           ErrManifestUnsigned)
  else if negb required then Ok None
  else match verifier with
  | None => Fail (wrapf (err_text ErrNoVerifier +:+ ": no trust root is configured") ErrNoVerifier)
  | Some v =>
      match temp_file 0, temp_file 1, temp_file 2 with
      | Some e, _, _ | None, Some e, _ | None, None, Some e =>
          Fail (wrapf ("verify " +:+ c_ID comp +:+ " manifest: " +:+ err_text e) e)
      | None, None, None =>
          match v manifestJSON sigDER with
          | Fail e =>
              match SignerExpiry sigDER with
              | Some notAfter => Fail (wrapf (err_text ErrManifestSignerExpired +:+ " on " +:+ notAfter +:+ " (" +:+
                  c_ID comp +:+ " " +:+ version +:+ "): " +:+ err_text e) ErrManifestSignerExpired)
              | None => Fail (wrapf ("verify " +:+ c_ID comp +:+ " " +:+ version +:+ " manifest signature: " +:+ err_text e) e)
              end
          | Ok signer =>
              match json_version manifestJSON with
              | Fail e => Fail (wrapf ("parse verified " +:+ c_ID comp +:+ " manifest: " +:+ err_text e) e)
              | Ok mv =>
                  if negb (String.eqb mv version) then
                    Fail (wrapf (err_text ErrManifestVersionMismatch +:+ ": tag " +:+ quote version +:+
                      " carries a manifest signed for " +:+ quote mv) ErrManifestVersionMismatch)
                  else Ok (Some signer)
              end
          end
      end
  end.

(** ** fetching *)
Definition maxManifestBytes : Z := 1048576.
Definition fetchBytes (url : string) : result string :=
  match http_GET url with
  | Fail e => Fail e
  | Ok (status, body) =>
      if negb (status =? 200) then Fail (errors_New ("GET " +:+ url +:+ ": status " +:+ pretty status))
      else match body with
           | Fail e => Fail (wrapf ("read " +:+ url +:+ ": " +:+ err_text e) e)
           | Ok b => if Z.of_nat (String.length b) >? maxManifestBytes
                     then Fail (errors_New (url +:+ " exceeds " +:+ pretty maxManifestBytes +:+ " bytes"))
                     else Ok b
           end
  end.

Definition httpError (status : Z) (url body : string) : error :=
  mkError ("GET " +:+ url +:+ ": status " +:+ pretty status +:+ ": " +:+ body) ["httpError"].
Definition getJSON (url : string) : result (list ghRelease) :=
  match http_GET url with
  | Fail e => Fail e
  | Ok (status, body) =>
      if negb (status =? 200)
      then Fail (httpError status url (match body with Ok b => TrimSpace (take_str 4096 b) | Fail _ => EmptyString end))
      else match body with Fail e => Fail e | Ok b => json_releases b end
  end.

(** ** github.go *)
(** A release of the component on the wanted side of the pre-release flag. *)
Definition candidate (comp : Component) (wantPrerelease : bool) (r : ghRelease) : option string :=
  if negb (HasPrefix (gh_TagName r) (c_TagPrefix comp)) then None
  else if negb (Bool.eqb (gh_Prerelease r) wantPrerelease) then None
  else Some (TrimPrefix (gh_TagName r) (c_TagPrefix comp)).
(** One turn of the loop that picks the best. *)
Definition better (comp : Component) (wantPrerelease : bool) (best : option (ghRelease * string)) (r : ghRelease) :
    option (ghRelease * string) :=
  match candidate comp wantPrerelease r with
  | None => best
  | Some ver =>
      match best with
      | None => Some (r, ver)
      | Some (_, bestVer) =>
          match Compare (c_Scheme comp) bestVer ver with
          | Ok c => if c <? 0 then Some (r, ver) else best
          | Fail _ => best
          end
      end
  end.
Definition pick (comp : Component) (wantPrerelease : bool) (rels : list ghRelease) : option (ghRelease * string) :=
  foldl (better comp wantPrerelease) None rels.

(** The asset map: a later asset of the same name replaces an earlier one. *)
Definition put_url (m : list (string * string)) (a : string * string) : list (string * string) :=
  filter (λ b, b.1 ≠ a.1) m ++ [a].
Definition asset_url (assets : list (string * string)) (name : string) : string :=
  foldl (λ u a, if String.eqb a.1 name then a.2 else u) EmptyString assets.

Definition LatestFor (apiBase : string) (comp : Component) (channel : string) : result (option ReleaseInfo) :=
  if String.eqb (c_Repo comp) EmptyString
  then Fail (errors_New ("component " +:+ quote (c_ID comp) +:+ " has no source repo configured")) else
  match getJSON (apiBase +:+ "/repos/" +:+ c_Repo comp +:+ "/releases?per_page=100") with
  | Fail e => Fail e
  | Ok rels =>
  match pick comp (String.eqb channel "dev") rels with
  | None => Ok None
  | Some (best, bestVer) =>
      let tag := gh_TagName best in
      let manifestURL := asset_url (gh_Assets best) "manifest.json" in
      let manifestSigURL := asset_url (gh_Assets best) "manifest.json.sig" in
      if String.eqb manifestURL EmptyString
      then Fail (errors_New ("release " +:+ tag +:+ " has no manifest.json asset")) else
      match fetchBytes manifestURL with
      | Fail e => Fail (wrapf ("fetch manifest for " +:+ tag +:+ ": " +:+ err_text e) e)
      | Ok manifestRaw =>
      let sigDER := if String.eqb manifestSigURL EmptyString then EmptyString
                    else match fetchBytes manifestSigURL with Ok b => b | Fail _ => EmptyString end in
      match VerifyManifest comp bestVer manifestRaw sigDER with
      | Fail e => Fail e
      | Ok res =>
      match json_manifest manifestRaw with
      | Fail e => Fail (wrapf ("parse manifest for " +:+ tag +:+ ": " +:+ err_text e) e)
      | Ok m =>
      if negb (String.eqb (m_Version m) EmptyString) && negb (String.eqb (m_Version m) bestVer)
      then Fail (wrapf (err_text ErrManifestVersionMismatch +:+ ": tag " +:+ quote tag +:+ " carries a manifest for " +:+
                   quote (m_Version m)) ErrManifestVersionMismatch)
      else Ok (Some (mkInfo (c_ID comp) bestVer (if String.eqb (m_Channel m) EmptyString then channel else m_Channel m) tag m
             (default EmptyString res) ((λ _, (manifestRaw, sigDER)) <$> res) (foldl put_url [] (gh_Assets best))))
      end end end
  end end.

(** ** nodeimage.go and bakedfirewall.go: the image to flash *)
Record NodeImageDescriptor := mkDesc {
  nd_Version : string; nd_Architecture : string; nd_URL : string; nd_SHA256 : string; nd_Image : string;
  nd_ManifestB64 : string; nd_ManifestSigB64 : string; nd_Signer : string
}.

(** The loop over the artifacts; [sha] is the digest that covers the image. *)
Fixpoint flashable (compatible version tagBase what none : string) (sha : ManifestArtifact → string)
    (res : option string) (raw sig : string) (l : list ManifestArtifact) : result NodeImageDescriptor :=
  match l with
  | [] => Fail (errors_New none)
  | a :: l =>
      if negb (String.eqb compatible EmptyString) && negb (String.eqb (a_Compatible a) compatible)
      then flashable compatible version tagBase what none sha res raw sig l
      else if String.eqb (a_Image a) EmptyString || String.eqb (sha a) EmptyString
      then flashable compatible version tagBase what none sha res raw sig l
      else if negb (validPathSegment (a_Image a))
      then Fail (wrapf (what +:+ " for " +:+ version +:+ ": " +:+ err_text ErrInvalidAssetName +:+ " " +:+ quote (a_Image a))
                   ErrInvalidAssetName)
      else Ok (mkDesc version (a_Architecture a) (tagBase +:+ "/" +:+ PathEscape (a_Image a)) (sha a) (a_Image a)
                 (match res with Some _ => base64 raw | None => EmptyString end)
                 (match res with Some _ => base64 sig | None => EmptyString end)
                 (default EmptyString res))
  end.
Definition tag_base (downloadBase repo version : string) : string :=
  trim_slashes downloadBase +:+ "/" +:+ repo +:+ "/releases/download/" +:+ PathEscape version.

Definition PublicNodeImage (downloadBase : string) (comp : Component) (version compatible : string) :
    result NodeImageDescriptor :=
  if negb (ValidReleaseVersion version)
  then Fail (wrapf (err_text ErrInvalidVersion +:+ " " +:+ quote version) ErrInvalidVersion) else
  let tagBase := tag_base downloadBase (c_Repo comp) version in
  let manifestURL := tagBase +:+ "/manifest.json" in
  match fetchBytes manifestURL with
  | Fail e => Fail e
  | Ok manifestRaw =>
  let sigDER := match fetchBytes (manifestURL +:+ ".sig") with Ok b => b | Fail _ => EmptyString end in
  match VerifyManifest comp version manifestRaw sigDER with
  | Fail e => Fail e
  | Ok res =>
  match json_manifest manifestRaw with
  | Fail e => Fail (wrapf ("parse manifest: " +:+ err_text e) e)
  | Ok m => flashable compatible version tagBase "manifest"
              ("no flashable " +:+ quote compatible +:+ " image in manifest for " +:+ version)
              a_ImageSha256 res manifestRaw sigDER (m_Artifacts m)
  end end end.

Definition ErrNoBakedManifest := sentinel "ErrNoBakedManifest" "no baked firewall manifest on this image".
Definition maxBakedManifestBytes : Z := 1048576.
Definition readBakedFile (path : string) : result string :=
  match disk_file path with
  | Fail e => if errors_Is e "fs.ErrNotExist"
              then Fail (wrapf (err_text ErrNoBakedManifest +:+ " (" +:+ path +:+ ")") ErrNoBakedManifest) else Fail e
  | Ok b => if Z.of_nat (String.length b) >? maxBakedManifestBytes
            then Fail (errors_New ("baked file " +:+ path +:+ " is " +:+ pretty (Z.of_nat (String.length b)) +:+
                   " bytes, over the " +:+ pretty maxBakedManifestBytes +:+ " cap"))
            else Ok b
  end.

Definition BakedFirewallImage (dir downloadBase : string) (comp : Component) : result NodeImageDescriptor :=
  match readBakedFile (filepath_Join [dir; "manifest.json"]) with
  | Fail e => Fail e
  | Ok manifestRaw =>
  match readBakedFile (filepath_Join [dir; "manifest.json.sig"]) with
  | Fail e => if errors_Is e "ErrNoBakedManifest"
              then Fail (sentinel "fs.ErrNotExist" ("baked firewall manifest has no signature beside it in " +:+ dir +:+
                     ": file does not exist"))
              else Fail e
  | Ok sigDER =>
  match json_manifest manifestRaw with
  | Fail e => Fail (wrapf ("parse baked firewall manifest: " +:+ err_text e) e)
  | Ok m =>
  let version := TrimSpace (m_Version m) in
  if negb (ValidReleaseVersion version)
  then Fail (wrapf ("baked firewall manifest: " +:+ err_text ErrInvalidVersion +:+ " " +:+ quote version) ErrInvalidVersion)
  else match VerifyManifest comp version manifestRaw sigDER with
  | Fail e => Fail (wrapf ("baked firewall manifest for " +:+ version +:+ ": " +:+ err_text e) e)
  | Ok res => flashable (c_Compatible comp) version (tag_base downloadBase (c_Repo comp) version) "baked firewall manifest"
                ("no flashable " +:+ quote (c_Compatible comp) +:+ " image in the baked firewall manifest for " +:+ version)
                a_SHA256 res manifestRaw sigDER (m_Artifacts m)
  end end end end.

(** ** What comes out was verified *)

(** The manifest bytes [raw] may speak for [version] of the component: at or
    above the floor a configured verifier accepted a signature over exactly
    these bytes, and they name that version. *)
Definition trusted (comp : Component) (version raw signer : string) : Prop :=
  SignedManifestRequired comp version = true →
  ∃ v sig, verifier = Some v ∧ sig ≠ EmptyString ∧ v raw sig = Ok signer ∧ json_version raw = Ok version.

Lemma VerifyManifest_trusted comp version raw sig res :
  VerifyManifest comp version raw sig = Ok res → trusted comp version raw (default EmptyString res).
Proof.
  unfold VerifyManifest, trusted. intros H Hr. rewrite Hr in H. simpl in H.
  destruct (String.eqb_spec sig EmptyString) as [|Hs]; [done|].
  destruct verifier as [v|]; [|done].
  destruct (temp_file 0), (temp_file 1), (temp_file 2); try done.
  destruct (v raw sig) as [signer|e] eqn:Ev; [|by destruct (SignerExpiry sig)].
  destruct (json_version raw) as [mv|] eqn:Ej; [|done].
  destruct (String.eqb_spec mv version) as [->|]; simpl in H; [|done].
  assert (res = Some signer) as -> by congruence. eauto 6.
Qed.
(** Nothing is said of a signature that was not checked. *)
Lemma VerifyManifest_signer comp version raw sig s :
  VerifyManifest comp version raw sig = Ok (Some s) → SignedManifestRequired comp version = true.
Proof.
  unfold VerifyManifest. destruct (SignedManifestRequired comp version); [done|].
  by destruct (String.eqb sig EmptyString).
Qed.

Lemma path_plain_valid c : is_alnum c || is_mark c = true → path_plain c = true.
Proof. unfold path_plain. intros ->. done. Qed.
Lemma PathEscape_plain s : all_chars (λ c, is_alnum c || is_mark c) s = true → PathEscape s = s.
Proof.
  induction s as [|c s IH]; [done|]. cbn [all_chars PathEscape]. intros [Hc Hs]%andb_true_iff.
  by rewrite (path_plain_valid c Hc), IH.
Qed.
Lemma valid_all s : validPathSegment s = true → s ≠ EmptyString ∧ all_chars (λ c, is_alnum c || is_mark c) s = true.
Proof.
  destruct s as [|c s]; [done|]. unfold validPathSegment. rewrite !andb_true_iff. intros [[[_ _] Hc] Hs].
  split; [done|]. cbn [all_chars]. by rewrite Hc, Hs.
Qed.
Lemma PathEscape_valid s : validPathSegment s = true → PathEscape s = s.
Proof. intros [_ H]%valid_all. by apply PathEscape_plain. Qed.

Lemma tag_base_url base repo version image : ValidReleaseVersion version = true →
  tag_base base repo version +:+ "/" +:+ image =
  trim_slashes base +:+ "/" +:+ repo +:+ "/releases/download/" +:+ version +:+ "/" +:+ image.
Proof. intros Hv. unfold tag_base. rewrite (PathEscape_valid _ Hv), !app_assoc_s. done. Qed.

(** A descriptor of the loop: the URL is the release's own directory and one
    file name, and the digest is the one the manifest gives for that file. *)
Definition of_manifest (m : Manifest) (sha : ManifestArtifact → string) (compatible : string) (d : NodeImageDescriptor) : Prop :=
  ∃ a, a ∈ m_Artifacts m ∧ a_Image a = nd_Image d ∧ sha a = nd_SHA256 d ∧ nd_SHA256 d ≠ EmptyString ∧
       (compatible = EmptyString ∨ a_Compatible a = compatible) ∧ validPathSegment (nd_Image d) = true.

Lemma flashable_spec compatible version tagBase what none sha res raw sig l d :
  flashable compatible version tagBase what none sha res raw sig l = Ok d →
  nd_Version d = version ∧ nd_URL d = tagBase +:+ "/" +:+ nd_Image d ∧ nd_Signer d = default EmptyString res ∧
  ∃ a, a ∈ l ∧ a_Image a = nd_Image d ∧ sha a = nd_SHA256 d ∧ nd_SHA256 d ≠ EmptyString ∧
       (compatible = EmptyString ∨ a_Compatible a = compatible) ∧ validPathSegment (nd_Image d) = true.
Proof.
  induction l as [|a l IH]; [done|]. cbn [flashable].
  assert (Hnext : flashable compatible version tagBase what none sha res raw sig l = Ok d →
    nd_Version d = version ∧ nd_URL d = tagBase +:+ "/" +:+ nd_Image d ∧ nd_Signer d = default EmptyString res ∧
    ∃ a', a' ∈ a :: l ∧ a_Image a' = nd_Image d ∧ sha a' = nd_SHA256 d ∧ nd_SHA256 d ≠ EmptyString ∧
       (compatible = EmptyString ∨ a_Compatible a' = compatible) ∧ validPathSegment (nd_Image d) = true).
  { intros (H1 & H2 & H3 & a' & Ha' & H)%IH. split_and!; try done. exists a'. split; [by right|done]. }
  destruct (negb (String.eqb compatible EmptyString) && negb (String.eqb (a_Compatible a) compatible)) eqn:Ec; [done|].
  destruct (String.eqb_spec (a_Image a) EmptyString) as [|_]; simpl; [done|].
  destruct (String.eqb_spec (sha a) EmptyString) as [|Hsha]; simpl; [done|].
  destruct (validPathSegment (a_Image a)) eqn:Ev; simpl; [|done].
  intros [= <-]. cbn. rewrite (PathEscape_valid _ Ev). split_and!; try done.
  exists a. split_and!; try done; [by left|].
  apply andb_false_iff in Ec as [E|E]; apply negb_false_iff, String.eqb_eq in E; auto.
Qed.

(** ** The newest tag *)

Definition offered (comp : Component) (pre : bool) (rels : list ghRelease) (r : ghRelease) (ver : string) : Prop :=
  r ∈ rels ∧ candidate comp pre r = Some ver.
(** The running best: one of the candidates, and when its version can be read
    no candidate seen whose version can be read is newer. *)
Definition best_of (comp : Component) (pre : bool) (rels : list ghRelease) (o : option (ghRelease * string)) : Prop :=
  match o with
  | None => ∀ r ver, ¬ offered comp pre rels r ver
  | Some (r, ver) => offered comp pre rels r ver ∧
      (readable comp ver → ∀ r' ver', offered comp pre rels r' ver' → readable comp ver' → not_newer comp ver' ver)
  end.

Lemma offered_snoc comp pre rels r r' ver : offered comp pre (rels ++ [r]) r' ver ↔
  offered comp pre rels r' ver ∨ r' = r ∧ candidate comp pre r = Some ver.
Proof. unfold offered. rewrite elem_of_app, list_elem_of_singleton. naive_solver. Qed.

Lemma compare_readable comp v v' k : Compare (c_Scheme comp) v v' = Ok k → readable comp v ∧ readable comp v'.
Proof.
  unfold Compare, readable. destruct (parse (c_Scheme comp) v) as [p|]; [|done]. destruct (parse (c_Scheme comp) v') as [p'|]; [|done]. eauto.
Qed.

Lemma better_best comp pre rels r o : best_of comp pre rels o → best_of comp pre (rels ++ [r]) (better comp pre o r).
Proof.
  intros Ho. unfold better. destruct (candidate comp pre r) as [ver|] eqn:Ec.
  2: { destruct o as [[b bv]|]; simpl in *; [destruct Ho as [H1 H2]; split; [by apply offered_snoc; left|]; intros Hb|];
       intros ? ? [H|[_ H]]%offered_snoc; [by eapply H2|congruence|by eapply Ho|congruence]. }
  destruct o as [[b bv]|]; simpl in *.
  2: { split; [apply offered_snoc; auto|]. intros Hv ? ? [[]%Ho|[_ E]]%offered_snoc _.
       assert (ver' = ver) as -> by congruence. by apply not_newer_refl. }
  destruct Ho as [H1 H2]. destruct (Compare (c_Scheme comp) bv ver) as [k|e] eqn:Hk.
  - destruct (compare_readable _ _ _ _ Hk) as [Hb Hnew]. destruct (not_newer_total comp bv ver k Hb Hnew Hk) as [Hlt Hge].
    destruct (Z.ltb_spec k 0) as [Hk0|Hk0]; simpl; (split; [apply offered_snoc; auto|]); intros _ r' ver' [H|[_ E]]%offered_snoc Hv.
    + apply (not_newer_trans comp ver' bv ver); auto. by eapply H2.
    + assert (ver' = ver) as -> by congruence. by apply not_newer_refl.
    + by eapply H2.
    + assert (ver' = ver) as -> by congruence. auto.
  - simpl. split; [apply offered_snoc; auto|]. intros Hb r' ver' [H|[_ E]]%offered_snoc Hv; [by eapply H2|].
    assert (ver' = ver) as -> by congruence. destruct (readable_compare comp bv ver Hb Hv) as [k Hk']. congruence.
Qed.

Lemma pick_newest comp pre rels : best_of comp pre rels (pick comp pre rels).
Proof.
  unfold pick. induction rels as [|r rels IH] using rev_ind.
  - intros r ver [H _]. by apply not_elem_of_nil in H.
  - rewrite foldl_app. simpl. by apply better_best.
Qed.

Lemma pick_offered comp pre rels r ver : pick comp pre rels = Some (r, ver) → offered comp pre rels r ver.
Proof.
  unfold pick. revert r ver. induction rels as [|x rels IH] using rev_ind; [done|]. intros r ver.
  rewrite foldl_app, offered_snoc. cbn [foldl]. unfold better.
  destruct (candidate comp pre x) as [v|] eqn:Ec; [|by intros H; left; apply IH].
  destruct (foldl _ None rels) as [[b bv]|] eqn:Eb; [|intros [= <- <-]; by right].
  destruct (Compare _ _ _) as [c|]; [destruct (c <? 0)|]; intros [= <- <-]; try (by left; apply IH); by right.
Qed.

(** ** A release as it is offered *)
Lemma LatestFor_spec apiBase comp channel info : LatestFor apiBase comp channel = Ok (Some info) →
  ∃ rels raw, pick comp (String.eqb channel "dev") rels ≠ None ∧
    (∀ r ver, pick comp (String.eqb channel "dev") rels = Some (r, ver) → ver = i_Version info ∧ gh_TagName r = i_Tag info) ∧
    getJSON (apiBase +:+ "/repos/" +:+ c_Repo comp +:+ "/releases?per_page=100") = Ok rels ∧
    json_manifest raw = Ok (i_Manifest info) ∧ trusted comp (i_Version info) raw (i_Signer info) ∧
    (m_Version (i_Manifest info) = EmptyString ∨ m_Version (i_Manifest info) = i_Version info) ∧
    (∀ b sig, SignedManifest info = Some (b, sig) → b = raw ∧ SignedManifestRequired comp (i_Version info) = true).
Proof.
  unfold LatestFor. destruct (String.eqb (c_Repo comp) EmptyString); [done|].
  destruct (getJSON _) as [rels|] eqn:Erels; [|done].
  destruct (pick comp (String.eqb channel "dev") rels) as [[best ver]|] eqn:Ep; [|done].
  destruct (String.eqb (asset_url _ "manifest.json") EmptyString); [done|].
  destruct (fetchBytes (asset_url _ "manifest.json")) as [raw|]; [|done].
  set (sig := if String.eqb _ _ then _ else _).
  destruct (VerifyManifest comp ver raw sig) as [res|] eqn:Ev; [|done].
  destruct (json_manifest raw) as [m|] eqn:Em; [|done].
  destruct (negb _ && negb _) eqn:Emv; [done|]. intros [= <-]. cbn.
  exists rels, raw. split_and!; try done.
  - by rewrite Ep.
  - rewrite Ep. by intros r v [= <- <-].
  - by apply VerifyManifest_trusted in Ev.
  - apply andb_false_iff in Emv as [E|E]; apply negb_false_iff, String.eqb_eq in E; auto.
  - intros b sg. unfold SignedManifest. cbn. destruct res as [s|]; simpl; [|done].
    apply VerifyManifest_signer in Ev. destruct (_ || _); [done|]. intros [= <- <-]. done.
Qed.

End Source.

(** ** security.go *)
Record SecurityWatch := mkWatch { w_floor : string; w_release : string; w_since : Z }.
Definition fresh_watch : SecurityWatch := mkWatch EmptyString EmptyString 0.
Definition errUnreadableFloor : error :=
  errors_New "The newest release declares a security floor this control plane cannot read.".

(** What a reading says of the floor: the floor and the release it came with,
    or an error that leaves the watch as it was. *)
Definition read_floor (friendly : error → string) (latest : result (option ReleaseInfo)) : result (string * string) :=
  match latest with
  | Fail e => Fail (errors_New (friendly e))
  | Ok o =>
      let '(floor, release) :=
        match o with
        | Some info => if String.eqb (m_SecurityFloor (i_Manifest info)) EmptyString then (EmptyString, EmptyString)
                       else (m_SecurityFloor (i_Manifest info), i_Version info)
        | None => (EmptyString, EmptyString)
        end in
      if String.eqb floor EmptyString then Ok (floor, release)
      else match parse (c_Scheme os_component) floor with
           | Fail _ => Fail errUnreadableFloor
           | Ok _ => Ok (floor, release)
           end
  end.
Definition Refresh (friendly : error → string) (latest : result (option ReleaseInfo)) (now : Z) (w : SecurityWatch) :
    result unit * SecurityWatch :=
  match read_floor friendly latest with
  | Fail e => (Fail e, w)
  | Ok (floor, release) =>
      (Ok tt, mkWatch floor release (if String.eqb floor (w_floor w) then w_since w else now))
  end.

Definition securityAlertNext : string := "Open Updates, download and stage the latest release, and deploy it.".
(** The alert's detail, when it is raised. *)
Definition security_Alerts (w : SecurityWatch) (nodes : result (list RNode)) : result (option string) :=
  if String.eqb (w_floor w) EmptyString then Ok None else
  match nodes with
  | Fail e => Fail (wrapf ("releases: security alerts: list nodes: " +:+ err_text e) e)
  | Ok nodes =>
      let lagging := laggingNodes nodes os_component (w_floor w) in
      let unconfirmed := unconfirmedNodes nodes os_component in
      if bool_decide (lagging = []) && bool_decide (unconfirmed = []) then Ok None
      else Ok (Some (Join (["Rasputin OS " +:+ w_release w +:+ " includes a security fix."] ++
             (if bool_decide (lagging = []) then [] else ["These nodes run an older version: " +:+ Join lagging ", " +:+ "."]) ++
             (if bool_decide (unconfirmed = []) then [] else
                ["These nodes' versions could not be confirmed after their last update: " +:+ Join unconfirmed ", " +:+ "."]) ++
             [securityAlertNext]) " "))
  end.

(** The daily readings of one process, in order. *)
Definition watch_after (friendly : error → string) (readings : list (result (option ReleaseInfo) * Z)) : SecurityWatch :=
  foldl (λ w r, snd (Refresh friendly r.1 r.2 w)) fresh_watch readings.
(** The last reading that could be made sense of. *)
Definition last_good (friendly : error → string) (readings : list (result (option ReleaseInfo) * Z)) : option (string * string) :=
  last (omap (λ r, match read_floor friendly r.1 with Ok x => Some x | Fail _ => None end) readings).

Lemma last_snoc_omap {A B} (f : A → option B) l x :
  last (omap f (l ++ [x])) = match f x with Some y => Some y | None => last (omap f l) end.
Proof.
  rewrite omap_app. simpl. destruct (f x); [by rewrite last_snoc|by rewrite app_nil_r].
Qed.

Lemma watch_after_last friendly readings :
  (w_floor (watch_after friendly readings), w_release (watch_after friendly readings)) =
  default (EmptyString, EmptyString) (last_good friendly readings).
Proof.
  unfold watch_after, last_good. induction readings as [|[r t] l IH] using rev_ind; [done|].
  rewrite foldl_app, last_snoc_omap. cbn [foldl fst snd]. unfold Refresh.
  destruct (read_floor friendly r) as [[f v]|]; [done|exact IH].
Qed.

Lemma read_floor_readable friendly r f v : read_floor friendly r = Ok (f, v) →
  f = EmptyString ∨ readable os_component f.
Proof.
  unfold read_floor. destruct r as [[info|]|e]; [|by intros [= <- <-]; left|done].
  destruct (String.eqb_spec (m_SecurityFloor (i_Manifest info)) EmptyString) as [E|E]; [intros [= <- <-]; by left|].
  destruct (String.eqb_spec (m_SecurityFloor (i_Manifest info)) EmptyString) as [E'|_]; [done|].
  destruct (parse _ _) as [p|] eqn:Ep; [|done]. intros [= <- <-]. right. by exists p.
Qed.

Lemma lagging_some nodes comp floor :
  laggingNodes nodes comp floor ≠ [] ↔ ∃ n, n ∈ nodes ∧ lags comp floor n = true.
Proof.
  unfold laggingNodes. split.
  - destruct (filter _ nodes) as [|n l] eqn:E; [done|]. intros _. exists n.
    assert (n ∈ filter (λ n, lags comp floor n = true) nodes) as Hi by (rewrite E; by left).
    apply list_elem_of_filter in Hi as [? ?]. done.
  - intros (n & Hn & Hlg) Hf. apply map_eq_nil in Hf.
    assert (n ∈ filter (λ n, lags comp floor n = true) nodes) as Hi by (by apply list_elem_of_filter).
    rewrite Hf in Hi. by apply not_elem_of_nil in Hi.
Qed.

(** When the floor and the nodes' versions are readable, the alert is raised
    exactly for a node below the floor or one that is unconfirmed, whatever
    readings failed since. *)
Lemma security_alert_exact friendly readings nodes floor release :
  last_good friendly readings = Some (floor, release) → floor ≠ EmptyString →
  let w := watch_after friendly readings in
  readable os_component floor ∧ w_floor w = floor ∧ w_release w = release ∧
  ((∃ d, security_Alerts w (Ok nodes) = Ok (Some d)) ↔
   (∃ n, n ∈ nodes ∧ lags os_component floor n = true) ∨ unconfirmedNodes nodes os_component ≠ []).
Proof.
  intros Hl Hne w. pose proof (watch_after_last friendly readings) as Hw. rewrite Hl in Hw. cbn in Hw.
  assert (w_floor w = floor ∧ w_release w = release) as [Ef Er] by (unfold w; split; congruence).
  split_and!; try done.
  - unfold last_good in Hl. apply last_Some_elem_of, list_elem_of_omap in Hl as ([r t] & _ & H). cbn in H.
    destruct (read_floor friendly r) as [[f v]|] eqn:E; [|done].
    apply read_floor_readable in E. assert (f = floor) as -> by congruence. by destruct E.
  - unfold security_Alerts. rewrite Ef, (proj2 (String.eqb_neq _ _) Hne).
    pose proof (lagging_some nodes os_component floor) as Hlag.
    destruct (decide (laggingNodes nodes os_component floor = [])) as [E1|E1];
      destruct (decide (unconfirmedNodes nodes os_component = [])) as [E2|E2];
      rewrite ?(bool_decide_eq_true_2 _ E1), ?(bool_decide_eq_false_2 _ E1), ?(bool_decide_eq_true_2 _ E2), ?(bool_decide_eq_false_2 _ E2);
      cbn [andb]; split; try (intros _; eexists; reflexivity); try (intros _; tauto).
    + by intros [d Hd].
    + intros [H|H]; [by apply Hlag in H|done].
Qed.

(** ** What is offered is to be believed *)


(** A release host with two releases, the second one signed. *)
Definition bench_manifest (version : string) : Manifest :=
  mkManifest version "stable" [mkArtifact "amd64" "rasputin-n100" "os.raucb" "os.img.xz" "aa" "bb" 10 "leaf"
    EmptyString EmptyString 0 EmptyString] EmptyString.
Definition bench_release (tag : string) : ghRelease :=
  mkGh tag false [("manifest.json", tag); ("manifest.json.sig", "sig of " +:+ tag)].
Definition bench_host (rels : list ghRelease) : ReleaseEnv := {|
  http_GET url := Ok (200, if HasPrefix url "https" && HasSuffix url "per_page=100" then Ok EmptyString
                            else if HasPrefix url "https" then Ok "2026.10.1" else Ok url);
  json_releases _ := Ok rels;
  json_manifest raw := Ok (bench_manifest raw);
  json_version raw := Ok raw;
  temp_file _ := None;
  base64 b := b;
  verifier := Some (λ raw sig, if String.eqb sig ("sig of " +:+ raw) then Ok "leaf-003" else Fail (errors_New "bad signature"));
  SignerExpiry _ := None;
  disk_file _ := Fail (sentinel "fs.ErrNotExist" "file does not exist")
|}.

Definition two_releases : ReleaseEnv := bench_host [bench_release "2026.09.4"; bench_release "2026.10.1"].


(** A tag that is not a version.  The loop starts from the first release of the
    channel whatever its tag; nothing compares with an unreadable one, so it is
    never replaced, and [SignedManifestRequired] takes it for a version below
    the floor: its manifest is believed without a signature, on a control plane
    that requires one of every real release in the list. *)
Lemma unreadable_tag_believed :
  let rels := [mkGh "latest" false [("manifest.json", "latest")]; bench_release "2026.10.1"] in
  let E := bench_host rels in
  (∃ info, LatestFor "https://api" os_component "stable" = Ok (Some info) ∧ i_Version info = "latest" ∧ i_Signer info = EmptyString) ∧
  ValidReleaseVersion "latest" = true ∧ SignedManifestRequired os_component "2026.10.1" = true.
Proof. split; [eexists; split; [vm_compute; reflexivity|done]|done]. Qed.
