(* ===== verification/GoNet.v ===== *)
(** * Internet addresses as Go reads them

    [net.ParseIP], [net.ParseCIDR] and [IP.To4], on which the firewall's rule
    that Rasputin speaks only IPv4 rests.  An address is its sixteen bytes, an
    IPv4 address being [::ffff:a.b.c.d], with a flag for whether the text had the
    four-byte form; the parsers follow net/netip. *)
From Stdlib Require Import Ascii String.
From S2P Require Import Prelude GoStrings GoPath.
Open Scope Z_scope.

Definition digit_val (c : ascii) : option Z :=
  if in_range 48 57 c then Some (Z.of_nat (nat_of_ascii c) - 48) else None.
Definition hex_val (c : ascii) : option Z :=
  if in_range 48 57 c then Some (Z.of_nat (nat_of_ascii c) - 48)
  else if in_range 97 102 c then Some (Z.of_nat (nat_of_ascii c) - 87)
  else if in_range 65 70 c then Some (Z.of_nat (nat_of_ascii c) - 55)
  else None.

(** [parseIPv4Fields]: four decimal octets, no leading zero, none above 255. *)
Definition octet (s : string) : option Z :=
  match s with
  | EmptyString => None
  | String "0" (String _ _) => None
  | _ =>
      (fix go (acc : Z) (s : string) : option Z :=
         match s with
         | EmptyString => Some acc
         | String c s =>
             match digit_val c with
             | Some d => if 255 <? acc * 10 + d then None else go (acc * 10 + d) s
             | None => None
             end
         end) 0 s
  end.
Definition parseIPv4Fields (s : string) : option (list Z) :=
  match Split "."%char s with
  | [a; b; c; d] => a ← octet a; b ← octet b; c ← octet c; d ← octet d; Some [a; b; c; d]
  | _ => None
  end.

(** One group of hex digits and what follows; [None] for none or more than four. *)
Definition hex_group (s : string) : option (Z * string) :=
  let '(ds, rest) := span (λ c, match hex_val c with Some _ => true | None => false end) s in
  if Nat.eqb (String.length ds) 0 || Nat.ltb 4 (String.length ds) then None
  else Some ((fix go (acc : Z) (s : string) : Z :=
                match s with
                | EmptyString => acc
                | String c s => go (acc * 16 + default 0 (hex_val c)) s
                end) 0 ds, rest).

(** [parseIPv6]'s loop, one group a turn, so sixteen bytes bound it: [acc] are
    the bytes so far and [ell] the place of the [::]. *)
Fixpoint groups (n : nat) (acc : list Z) (ell : option nat) (s : string) : option (list Z * option nat) :=
  match n with
  | O => if String.eqb s EmptyString then Some (acc, ell) else None
  | S n =>
      match hex_group s with
      | None => None
      | Some (v, rest) =>
          match rest with
          | String "." _ =>
              if (match ell with None => negb (Nat.eqb (length acc) 12) | Some _ => false end)
                 || Nat.ltb 16 (length acc + 4) then None
              else f ← parseIPv4Fields s; Some (acc ++ f, ell)
          | EmptyString => Some (acc ++ [v / 256; v mod 256], ell)
          | String ":" EmptyString => None
          | String ":" (String ":" rest) =>
              let acc := acc ++ [v / 256; v mod 256] in
              match ell with
              | Some _ => None
              | None => if String.eqb rest EmptyString then Some (acc, Some (length acc))
                        else groups n acc (Some (length acc)) rest
              end
          | String ":" rest => groups n (acc ++ [v / 256; v mod 256]) ell rest
          | String _ _ => None
          end
      end
  end.
Definition expand (acc : list Z) (ell : option nat) : option (list Z) :=
  match ell with
  | None => if Nat.eqb (length acc) 16 then Some acc else None
  | Some e => if Nat.ltb (length acc) 16
              then Some (take e acc ++ replicate (16 - length acc) 0 ++ drop e acc) else None
  end.
Definition parseIPv6 (s : string) : option (list Z) :=
  match s with
  | String ":" (String ":" EmptyString) => Some (replicate 16 0)
  | String ":" (String ":" s) => '(acc, ell) ← groups 8 [] (Some 0%nat) s; expand acc ell
  | _ => '(acc, ell) ← groups 8 [] None s; expand acc ell
  end.

Definition v4_prefix : list Z := replicate 10 0 ++ [255; 255].

(** [netip.ParseAddr] without a zone (with one, [ParseIP] and [ParseCIDR]
    refuse the text): the bytes, and whether it was the four-byte form. *)
Inductive family := Four | Six.
#[export] Instance family_eq_dec : EqDecision family.
Proof. solve_decision. Defined.
Fixpoint first_of (s : string) : option family :=
  match s with
  | EmptyString => None
  | String "." _ => Some Four
  | String ":" _ => Some Six
  | String "%" _ => None
  | String _ s => first_of s
  end.
Definition ParseAddr (s : string) : option (family * list Z) :=
  match first_of s with
  | Some Four => f ← parseIPv4Fields s; Some (Four, v4_prefix ++ f)
  | Some Six => if without "%"%char s then b ← parseIPv6 s; Some (Six, b) else None
  | None => None
  end.

Definition ParseIP (s : string) : option (list Z) := snd <$> ParseAddr s.
(** [ip.To4() != nil] *)
Definition To4 (ip : list Z) : bool := bool_decide (take 12 ip = v4_prefix).

(** [net.ParseCIDR]'s network: the address masked to the prefix.  The length is
    decimal; [dtoi] stops at 16777215. *)
Definition dtoi (s : string) : option Z :=
  match s with
  | EmptyString => None
  | _ =>
      (fix go (acc : Z) (s : string) : option Z :=
         match s with
         | EmptyString => Some acc
         | String c s => d ← digit_val c; if 16777215 <=? acc * 10 + d then None else go (acc * 10 + d) s
         end) 0 s
  end.
Fixpoint mask_bytes (n : Z) (b : list Z) : list Z :=
  match b with
  | [] => []
  | x :: b => (if 8 <=? n then x else if n <=? 0 then 0 else (x / 2 ^ (8 - n)) * 2 ^ (8 - n)) :: mask_bytes (n - 8) b
  end.
Definition ParseCIDR (s : string) : option (list Z) :=
  match cut_at "/"%char s with
  | None => None
  | Some (addr, mask) =>
      '(fam, b) ← ParseAddr addr;
      n ← dtoi mask;
      match fam with
      | Four => if 32 <? n then None else Some (v4_prefix ++ mask_bytes n (drop 12 b))
      | Six => if 128 <? n then None else Some (mask_bytes n b)
      end
  end.

Example parse_v4 : ParseIP "192.168.1.10" = Some (v4_prefix ++ [192; 168; 1; 10]).
Proof. reflexivity. Qed.
Example parse_v6 : ParseIP "fe80::1" = Some ([254; 128] ++ replicate 13 0 ++ [1]).
Proof. reflexivity. Qed.
Example parse_mapped : ParseIP "::ffff:10.0.0.5" = ParseIP "10.0.0.5".
Proof. reflexivity. Qed.
Example parse_none : ParseIP "10.0.0" = None ∧ ParseIP "010.0.0.1" = None ∧ ParseIP "nas.lan" = None ∧ ParseIP "1::2::3" = None.
Proof. split_and!; reflexivity. Qed.
Example parse_cidr : ParseCIDR "10.1.2.3/20" = ParseIP "10.1.0.0" ∧ ParseCIDR "2001:db8::/32" = ParseIP "2001:db8::".
Proof. split; reflexivity. Qed.
