(* ===== verification/FirewallIntent.v ===== *)
(** * Firewall intents and the state they compile to

    api/internal/firewall, compile.go and types.go, with the specs of
    proto/firewall.go: an intent's spec is decoded, checked and turned into the
    canonical UCI state that the firewall's agent applies.  A Go [map[string]any]
    is a map of [Any]; a slice of maps is a list of them, as it is after a trip
    through JSON.  encoding/json on the specs is a field of [SpecCodec].  The
    claim: everything [Compile] emits has the shape the agent's strict reader
    takes, with every address and port in range, and it emits it for exactly the
    intents that are enabled. *)
From Stdlib Require Import Ascii String.
From S2P Require Import Prelude GoStrings GoNet.
Open Scope Z_scope.
#[local] Arguments String.append : simpl nomatch.

(** ** Values *)
#[warnings="-register-all"]
Inductive Any :=
| AStr (s : string)
| ASecret (s : string)                  (* a secret.Value *)
| ANum (n : Z)
| AList (l : list Any)
| AMap (m : gmap string Any).
#[global] Abbreviation State := (gmap string Any) (only parsing).

(** ** types.go and proto/firewall.go *)
Record Intent := mkIntent {
  in_ID : string; in_Kind : string; in_Name : string; in_Enabled : bool; in_Spec : string;
  in_CreatedAt : Z; in_UpdatedAt : Z
}.
Definition IntentPortForward : string := "port_forward".
Definition IntentFirewallRule : string := "firewall_rule".
Definition IntentWANConfig : string := "wan_config".
Definition IntentDNSForward : string := "dns_forward".

Record PortForwardSpec := mkPF { pf_WanPort : Z; pf_LanHost : string; pf_LanPort : Z; pf_Protocol : string; pf_Comment : string }.
Record WANConfigSpec := mkWAN {
  wc_Proto : string; wc_Hostname : string; wc_IP : string; wc_Gateway : string; wc_DNS : list string;
  wc_Username : string; wc_Service : string; wc_Comment : string
}.
Record DNSForwardSpec := mkDF { df_Zone : string; df_Target : string }.
Record FirewallRuleSpec := mkFR {
  fr_Src : string; fr_Dest : string; fr_SrcIP : string; fr_SrcPort : string; fr_DestIP : string; fr_DestPort : string;
  fr_Proto : string; fr_Target : string; fr_Log : bool; fr_Comment : string
}.

Class SpecCodec := {
  json_PortForward : string → result PortForwardSpec;
  json_WANConfig : string → result WANConfigSpec;
  json_DNSForward : string → result DNSForwardSpec;
  json_FirewallRule : string → result FirewallRuleSpec
}.

(** ** compile.go *)
Definition rejectIPv6 (field val : string) : result unit :=
  if String.eqb val EmptyString then Ok tt else
  let ip := match ParseIP val with Some ip => Some ip | None => ParseCIDR val end in
  match ip with
  | Some ip => if To4 ip then Ok tt
               else Fail (errors_New (field +:+ " " +:+ quote val +:+ " is IPv6; Rasputin is IPv4-only (decision #9)"))
  | None => Ok tt
  end.

Definition ucProto (p : string) : string := if String.eqb p "tcpudp" then "tcp udp" else p.
Definition ucRuleProto (p : string) : string :=
  if String.eqb p EmptyString || String.eqb p "any" then "all"
  else if String.eqb p "tcpudp" then "tcp udp"
  else if String.eqb p "igmp" then "igmp"
  else p.
(** [strings.ToUpper], on ASCII. *)
Definition upper (c : ascii) : ascii := if GoPath.in_range 97 122 c then char (nat_of_ascii c - 32) else c.
Fixpoint ToUpper (s : string) : string :=
  match s with EmptyString => EmptyString | String c s => String (upper c) (ToUpper s) end.

(** [if v != "" { m[k] = v }] *)
Definition put_unless_empty (k v : string) (m : State) : State :=
  if String.eqb v EmptyString then m else <[k := AStr v]> m.

Section Compile.
Context {SC : SpecCodec}.

Definition compilePortForward (i : Intent) : result State :=
  match json_PortForward (in_Spec i) with
  | Fail e => Fail (wrapf ("invalid port_forward spec: " +:+ err_text e) e)
  | Ok spec =>
  if (pf_WanPort spec <? 1) || (65535 <? pf_WanPort spec)
  then Fail (errors_New ("wanPort out of range: " +:+ pretty (pf_WanPort spec))) else
  if (pf_LanPort spec <? 1) || (65535 <? pf_LanPort spec)
  then Fail (errors_New ("lanPort out of range: " +:+ pretty (pf_LanPort spec))) else
  if String.eqb (pf_LanHost spec) EmptyString then Fail (errors_New "lanHost is required") else
  match rejectIPv6 "lanHost" (pf_LanHost spec) with
  | Fail e => Fail e
  | Ok _ =>
  let protocol := if String.eqb (pf_Protocol spec) EmptyString then "tcp" else pf_Protocol spec in
  if negb (bool_decide (protocol ∈ ["tcp"; "udp"; "tcpudp"])) then Fail (errors_New ("unsupported protocol " +:+ quote protocol)) else
  Ok (put_unless_empty "_comment" (pf_Comment spec) (list_to_map
    [("name", AStr (in_Name i)); ("src", AStr "wan"); ("src_dport", AStr (pretty (pf_WanPort spec))); ("dest", AStr "lan");
     ("dest_ip", AStr (pf_LanHost spec)); ("dest_port", AStr (pretty (pf_LanPort spec))); ("proto", AStr (ucProto protocol));
     ("target", AStr "DNAT")]))
  end end.

(** [if val != "" { if err := rejectIPv6(...); ... m[k] = val }] *)
Definition put_address (field k val : string) (m : State) : result State :=
  if String.eqb val EmptyString then Ok m
  else match rejectIPv6 field val with Fail e => Fail e | Ok _ => Ok (<[k := AStr val]> m) end.

Definition compileFirewallRule (i : Intent) : result State :=
  match json_FirewallRule (in_Spec i) with
  | Fail e => Fail (wrapf ("invalid firewall_rule spec: " +:+ err_text e) e)
  | Ok spec =>
  if String.eqb (fr_Src spec) EmptyString then Fail (errors_New "src zone is required") else
  if String.eqb (fr_Target spec) EmptyString then Fail (errors_New "target is required") else
  if negb (bool_decide (fr_Target spec ∈ ["accept"; "reject"; "drop"]))
  then Fail (errors_New ("unsupported target " +:+ quote (fr_Target spec))) else
  let r := put_unless_empty "dest" (fr_Dest spec) (list_to_map
    [("name", AStr (in_Name i)); ("src", AStr (fr_Src spec)); ("target", AStr (ToUpper (fr_Target spec)))]) in
  match put_address "srcIp" "src_ip" (fr_SrcIP spec) r with
  | Fail e => Fail e
  | Ok r =>
  match put_address "destIp" "dest_ip" (fr_DestIP spec) (put_unless_empty "src_port" (fr_SrcPort spec) r) with
  | Fail e => Fail e
  | Ok r =>
  let r := <["proto" := AStr (ucRuleProto (fr_Proto spec))]> (put_unless_empty "dest_port" (fr_DestPort spec) r) in
  let r := if fr_Log spec then <["log" := AStr "1"]> r else r in
  Ok (put_unless_empty "_comment" (fr_Comment spec) r)
  end end end.

Definition compileWANConfig (o : option Intent) (secrets : gmap string string) : result State :=
  match o with
  | None => Ok {[ "proto" := AStr "none" ]}
  | Some i =>
  match json_WANConfig (in_Spec i) with
  | Fail e => Fail (wrapf ("invalid wan_config spec: " +:+ err_text e) e)
  | Ok spec =>
  let finish r := Ok (put_unless_empty "_comment" (wc_Comment spec) r) in
  if String.eqb (wc_Proto spec) "dhcp" then
    finish (put_unless_empty "hostname" (wc_Hostname spec) {[ "proto" := AStr "dhcp" ]})
  else if String.eqb (wc_Proto spec) "static" then
    if String.eqb (wc_IP spec) EmptyString then Fail (errors_New ("static wan_config " +:+ in_ID i +:+ ": ip is required")) else
    if String.eqb (wc_Gateway spec) EmptyString then Fail (errors_New ("static wan_config " +:+ in_ID i +:+ ": gateway is required")) else
    let r := <["gateway" := AStr (wc_Gateway spec)]> (<["ipaddr" := AStr (wc_IP spec)]> {[ "proto" := AStr "static" ]}) in
    finish (if bool_decide (wc_DNS spec = []) then r else <["dns" := AStr (Join (wc_DNS spec) " ")]> r)
  else if String.eqb (wc_Proto spec) "pppoe" then
    if String.eqb (wc_Username spec) EmptyString then Fail (errors_New ("pppoe wan_config " +:+ in_ID i +:+ ": username is required")) else
    let password := default EmptyString (secrets !! in_ID i) in
    if String.eqb password EmptyString then Fail (errors_New ("pppoe wan_config " +:+ in_ID i +:+ ": secret is required")) else
    finish (put_unless_empty "service" (wc_Service spec)
      (<["password" := ASecret password]> (<["username" := AStr (wc_Username spec)]> {[ "proto" := AStr "pppoe" ]})))
  else if String.eqb (wc_Proto spec) EmptyString then Fail (errors_New ("wan_config " +:+ in_ID i +:+ ": proto is required"))
  else Fail (errors_New ("wan_config " +:+ in_ID i +:+ ": unsupported proto " +:+ quote (wc_Proto spec)))
  end end.

Definition compileDNSForward (i : Intent) : result string :=
  match json_DNSForward (in_Spec i) with
  | Fail e => Fail (wrapf ("invalid dns_forward spec: " +:+ err_text e) e)
  | Ok spec =>
  if String.eqb (df_Zone spec) EmptyString then Fail (errors_New ("dns_forward " +:+ in_ID i +:+ ": zone is required")) else
  if negb (without "/"%char (df_Zone spec))
  then Fail (errors_New ("dns_forward " +:+ in_ID i +:+ ": zone " +:+ quote (df_Zone spec) +:+ " must not contain '/'")) else
  if String.eqb (df_Target spec) EmptyString then Fail (errors_New ("dns_forward " +:+ in_ID i +:+ ": target is required")) else
  match ParseIP (df_Target spec) with
  | Some ip => if To4 ip then Ok ("/" +:+ df_Zone spec +:+ "/" +:+ df_Target spec)
               else Fail (errors_New ("dns_forward " +:+ in_ID i +:+ ": target " +:+ quote (df_Target spec) +:+
                      " must be an IPv4 address (decision #9)"))
  | None => Fail (errors_New ("dns_forward " +:+ in_ID i +:+ ": target " +:+ quote (df_Target spec) +:+
                      " must be an IPv4 address (decision #9)"))
  end end.

(** What the loop over the intents gathers. *)
Record gathered := mkGathered {
  ga_redirects : list State; ga_rules : list State; ga_wanSeen : nat; ga_wan : option Intent; ga_dns : option Intent
}.
Definition nothing : gathered := mkGathered [] [] 0 None None.
Definition in_intent (i : Intent) (e : error) : error :=
  wrapf ("intent " +:+ in_ID i +:+ " (" +:+ in_Name i +:+ "): " +:+ err_text e) e.

Definition gather_one (i : Intent) (g : gathered) : result gathered :=
  if String.eqb (in_Kind i) IntentPortForward then
    if negb (in_Enabled i) then Ok g
    else match compilePortForward i with
         | Fail e => Fail (in_intent i e)
         | Ok r => Ok (mkGathered (ga_redirects g ++ [r]) (ga_rules g) (ga_wanSeen g) (ga_wan g) (ga_dns g))
         end
  else if String.eqb (in_Kind i) IntentFirewallRule then
    if negb (in_Enabled i) then Ok g
    else match compileFirewallRule i with
         | Fail e => Fail (in_intent i e)
         | Ok r => Ok (mkGathered (ga_redirects g) (ga_rules g ++ [r]) (ga_wanSeen g) (ga_wan g) (ga_dns g))
         end
  else if String.eqb (in_Kind i) IntentDNSForward then
    if negb (in_Enabled i) then Ok g
    else match ga_dns g with
         | Some d => Fail (errors_New ("more than one dns_forward is enabled (" +:+ in_ID d +:+ " and " +:+ in_ID i +:+ ") — at most one allowed"))
         | None => Ok (mkGathered (ga_redirects g) (ga_rules g) (ga_wanSeen g) (ga_wan g) (Some i))
         end
  else if String.eqb (in_Kind i) IntentWANConfig then
    let g := mkGathered (ga_redirects g) (ga_rules g) (S (ga_wanSeen g)) (ga_wan g) (ga_dns g) in
    if negb (in_Enabled i) then Ok g
    else match ga_wan g with
         | Some w => Fail (errors_New ("more than one wan_config is enabled (" +:+ in_ID w +:+ " and " +:+ in_ID i +:+ ") — at most one allowed"))
         | None => Ok (mkGathered (ga_redirects g) (ga_rules g) (ga_wanSeen g) (Some i) (ga_dns g))
         end
  else Fail (errors_New ("intent " +:+ in_ID i +:+ ": unsupported kind " +:+ quote (in_Kind i))).
Fixpoint gather (l : list Intent) (g : gathered) : result gathered :=
  match l with
  | [] => Ok g
  | i :: l => match gather_one i g with Fail e => Fail e | Ok g => gather l g end
  end.

Definition firewall_part (redirects rules : list State) : Any :=
  AMap (list_to_map [("redirect", AList (AMap <$> redirects)); ("rule", AList (AMap <$> rules))]).

(** [if wanSeen > 0 { state["network"] = ... }] *)
Definition add_wan (g : gathered) (secrets : gmap string string) (state : State) : result State :=
  if Nat.eqb (ga_wanSeen g) 0 then Ok state
  else match compileWANConfig (ga_wan g) secrets with
       | Fail e => Fail e
       | Ok wan => Ok (<["network" := AMap {[ "wan" := AMap wan ]}]> state)
       end.
Definition add_dns (g : gathered) (state : State) : result State :=
  match ga_dns g with
  | None => Ok state
  | Some d => match compileDNSForward d with
              | Fail e => Fail e
              | Ok server => Ok (<["dhcp" := AMap {[ "server" := AStr server ]}]> state)
              end
  end.
Definition Compile (intents : list Intent) (secrets : gmap string string) : result State :=
  match gather intents nothing with
  | Fail e => Fail e
  | Ok g =>
      match add_wan g secrets {[ "firewall" := firewall_part (ga_redirects g) (ga_rules g) ]} with
      | Fail e => Fail e
      | Ok state => add_dns g state
      end
  end.
End Compile.

(** The WAN password in the clear, for the bus command and the fingerprint. *)
Definition revealState (state : State) : State :=
  match state !! "network" with
  | Some (AMap network) =>
      match network !! "wan" with
      | Some (AMap wan) =>
          match wan !! "password" with
          | Some (ASecret p) => <["network" := AMap (<["wan" := AMap (<["password" := AStr p]> wan)]> network)]> state
          | _ => state
          end
      | _ => state
      end
  | _ => state
  end.
