(* ===== verification/FirewallUci.v ===== *)
(** * The firewall's agent on OpenWrt

    agent/internal/openwrt: uci_render.go (the state's strict reader and the
    commands it renders to), uci.go (Apply, Get, SetActive and the manifest of
    what Rasputin manages) and dnsmasq.go (the restart that is believed only
    when the new process announces the forward).  The uci, ubus and init
    commands are another program: [Uci] is what they answer, by tick, and how
    their JSON reads.  The agent may die before any command, and the manifest's
    write may fail; it is atomic (SealFiles proves that of the same routine), so
    the manifest is kept as a value.  FirewallBox states what the commands
    promise and proves what an apply does. *)
From Stdlib Require Import Ascii String.
From S2P Require Import Prelude GoStrings GoNet GoSort Crash FirewallIntent.
Open Scope Z_scope.
#[local] Arguments String.append : simpl nomatch.

(** ** uci_render.go *)
Record applyPlan := mkPlan {
  pl_redirects : list (gmap string string); pl_rules : list (gmap string string);
  pl_wan : option (gmap string string); pl_dnsForward : string
}.

Definition as_string (a : Any) : option string := match a with AStr s => Some s | _ => None end.
Definition type_name (a : Any) : string :=
  match a with
  | AStr _ => "string" | ASecret _ => "secret.Value" | ANum _ => "float64"
  | AList _ => "[]interface {}" | AMap _ => "map[string]interface {}"
  end.
Definition stringMap (m : State) : result (gmap string string) :=
  match map_to_list (filter (λ kv, as_string kv.2 = None) m) with
  | (k, v) :: _ => Fail (errors_New ("value for " +:+ quote k +:+ " is " +:+ type_name v +:+
                    ", want string (compiled state must be all strings)"))
  | [] => Ok (omap as_string m)
  end.
Fixpoint section_entries (n : nat) (l : list Any) : result (list (gmap string string)) :=
  match l with
  | [] => Ok []
  | AMap m :: l =>
      match stringMap m with
      | Fail e => Fail (wrapf ("entry " +:+ pretty n +:+ ": " +:+ err_text e) e)
      | Ok sm => match section_entries (S n) l with Fail e => Fail e | Ok r => Ok (sm :: r) end
      end
  | a :: _ => Fail (errors_New ("entry " +:+ pretty n +:+ " is " +:+ type_name a +:+ ", want map"))
  end.
Definition sectionList (v : option Any) : result (list (gmap string string)) :=
  match v with
  | None => Ok []
  | Some (AList l) => section_entries 0 l
  | Some a => Fail (errors_New ("section list is " +:+ type_name a +:+ ", want slice"))
  end.

(** [for k := range m { if !allowed(k) { return err } }] *)
Definition only_keys (allowed : list string) (what : string) (m : State) : result unit :=
  match map_to_list (filter (λ kv, kv.1 ∉ allowed) m) with
  | (k, _) :: _ => Fail (errors_New ("unexpected " +:+ what +:+ " " +:+ quote k +:+ " in compiled state"))
  | [] => Ok tt
  end.
Definition with_pre {A} (pre : string) (r : result A) : result A :=
  match r with Ok a => Ok a | Fail e => Fail (wrapf (pre +:+ err_text e) e) end.
Definition bindRes {A B} (r : result A) (f : A → result B) : result B :=
  match r with Ok a => f a | Fail e => Fail e end.
#[local] Notation "x <-! r ; k" := (bindRes r (λ x, k)) (at level 100, r at next level, right associativity).

Definition plan_wan (state : State) : result (option (gmap string string)) :=
  match state !! "network" with
  | None => Ok None
  | Some (AMap net) =>
      _ <-! only_keys ["wan"] "network section" net;
      match net !! "wan" with
      | None => Fail (errors_New "network key present but missing wan section")
      | Some (AMap w) => sm <-! with_pre "network.wan: " (stringMap w); Ok (Some sm)
      | Some a => Fail (errors_New ("network.wan is " +:+ type_name a +:+ ", want map"))
      end
  | Some a => Fail (errors_New ("network key is " +:+ type_name a +:+ ", want map"))
  end.
Definition plan_dhcp (state : State) : result string :=
  match state !! "dhcp" with
  | None => Ok EmptyString
  | Some (AMap dhcp) =>
      _ <-! only_keys ["server"] "dhcp option" dhcp;
      sm <-! with_pre "dhcp: " (stringMap dhcp);
      let server := default EmptyString (sm !! "server") in
      if String.eqb server EmptyString then Fail (errors_New "dhcp key present but server is empty") else Ok server
  | Some a => Fail (errors_New ("dhcp key is " +:+ type_name a +:+ ", want map"))
  end.
Definition planFromState (state : State) : result applyPlan :=
  _ <-! only_keys ["firewall"; "network"; "dhcp"] "top-level key" state;
  match state !! "firewall" with
  | None => Fail (errors_New ("compiled state missing required " +:+ quote "firewall" +:+ " key"))
  | Some (AMap fw) =>
      _ <-! only_keys ["redirect"; "rule"] "firewall section type" fw;
      redirects <-! with_pre "firewall.redirect: " (sectionList (fw !! "redirect"));
      rules <-! with_pre "firewall.rule: " (sectionList (fw !! "rule"));
      wan <-! plan_wan state;
      dns <-! plan_dhcp state;
      Ok (mkPlan redirects rules wan dns)
  | Some a => Fail (errors_New ("firewall key is " +:+ type_name a +:+ ", want map"))
  end.

Definition sortedKeys (m : gmap string string) : list string := sort_Strings (map fst (map_to_list m)).
Definition value_of (m : gmap string string) (k : string) : string := default EmptyString (m !! k).

(** Commands, as argv. *)
Definition delete_last (typ : string) : list string := ["uci"; "-q"; "delete"; "firewall.@" +:+ typ +:+ "[-1]"].
Definition add_section (typ : string) : list string := ["uci"; "add"; "firewall"; typ].
Definition set_last_option (typ k v : string) : list string := ["uci"; "set"; "firewall.@" +:+ typ +:+ "[-1]." +:+ k +:+ "=" +:+ v].
Definition commit (config : string) : list string := ["uci"; "commit"; config].
Definition revert (config : string) : list string := ["uci"; "-q"; "revert"; config].
Definition delete_wan (k : string) : list string := ["uci"; "-q"; "delete"; "network.wan." +:+ k].
Definition set_wan (k v : string) : list string := ["uci"; "set"; "network.wan." +:+ k +:+ "=" +:+ v].

Definition render_section (typ : string) (r : gmap string string) : list (list string) :=
  add_section typ :: map (λ k, set_last_option typ k (value_of r k)) (sortedKeys r).
Definition renderFirewallCommands (nRedirect nRule : nat) (redirects rules : list (gmap string string)) : list (list string) :=
  replicate nRedirect (delete_last "redirect") ++ replicate nRule (delete_last "rule")
  ++ concat (map (render_section "redirect") redirects) ++ concat (map (render_section "rule") rules)
  ++ [commit "firewall"].
Definition renderNetworkCommands (prevKeys : list string) (wan : gmap string string) : list (list string) * list (list string) :=
  (map delete_wan (filter (λ k, wan !! k = None) prevKeys),
   match wan !! "proto" with Some v => [set_wan "proto" v] | None => [] end
   ++ map (λ k, set_wan k (value_of wan k)) (filter (λ k, k ≠ "proto") (sortedKeys wan))).

(** [strings.ToLower], on ASCII. *)
Fixpoint lower_case (s : string) : string :=
  match s with
  | EmptyString => EmptyString
  | String c s => String (if GoPath.in_range 65 90 c then char (nat_of_ascii c + 32) else c) (lower_case s)
  end.

(** ** What the commands work on *)
Inductive Opt := OStr (s : string) | OList (l : list string).
Record Section := mkSec { s_name : string; s_type : string; s_opts : gmap string Opt }.
(** An option in ubus's JSON, and one of UCI's own entries. *)
Inductive UVal := UStr (s : string) | UArr (l : list (option string)) | UNum (n : Z) | UBool (b : bool).

Class Uci (B : Type) := {
  u_committed : string → B → list Section;      (* the files under /etc/config *)
  u_staged : string → B → list Section;         (* with the changes not committed yet *)
  u_run : nat → list string → B → result string * B;
  u_json : string → result (gmap string (gmap string UVal));
  u_json1 : string → result (gmap string UVal)
}.

(** The rest of the world, by tick.  [Ended] and its fellows say how a wait for
    a log line stops without one. *)
Inductive ending := StreamEnded | TimedOut | CtxDone (e : error).
Class UciEnv := {
  e_dies : nat → bool;
  e_path : string;                              (* manifestPath *)
  e_load : nat → option (string * error);       (* "read" or "parse", and why *)
  e_save : nat → option error;
  e_log : nat → result (list string * ending);
  e_lookup : nat → string → result (list (family * list Z));
  e_hash : State → result string
}.

Record managedManifest := mkManaged {
  mm_Network : bool; mm_WANKeys : list string; mm_DNSForward : string; mm_DNSForwardUnverified : bool
}.
Definition zero_manifest : managedManifest := mkManaged false [] EmptyString false.

Record Agent (B : Type) := mkAgent { a_tick : nat; a_box : B; a_manifest : option managedManifest; a_mode : option string }.
Arguments mkAgent {B} _ _ _ _.
Arguments a_tick {B} _.
Arguments a_box {B} _.
Arguments a_manifest {B} _.
Arguments a_mode {B} _.

(** ** dnsmasq.go *)
(** [strings.SplitN(entry, "/", 3)] as the three parts, when there are three. *)
Definition split3 (entry : string) : option (string * string * string) :=
  '(a, r) ← cut_at "/"%char entry; '(b, c) ← cut_at "/"%char r; Some (a, b, c).
Definition splitDNSForward (entry : string) : option (string * string) :=
  match split3 entry with
  | Some (EmptyString, zone, target) =>
      if String.eqb zone EmptyString || String.eqb target EmptyString then None else Some (zone, target)
  | _ => None
  end.
Definition dnsForwardZone (entry : string) : string :=
  match split3 entry with Some (EmptyString, zone, _) => zone | _ => EmptyString end.

(** [s[strings.Index(s, p)+len(p):]] *)
Fixpoint after (p s : string) : option string :=
  if HasPrefix s p then Some (drop_str (String.length p) s)
  else match s with EmptyString => None | String _ s => after p s end.
(** [strings.TrimRight(s, " \t\r")] *)
Fixpoint trim_blank (s : string) : string :=
  match s with
  | EmptyString => EmptyString
  | String c s =>
      match trim_blank s with
      | EmptyString => if Ascii.eqb c " "%char || Ascii.eqb c (char 9) || Ascii.eqb c (char 13) then EmptyString else String c EmptyString
      | t => String c t
      end
  end.
Definition dnsmasqMessage (line : string) : option string :=
  rest ← after "dnsmasq[" line; msg ← after "]: " rest; Some (trim_blank msg).
Definition isForwardInUse (msg zone target : string) : bool :=
  let server := if Contains target "#" then target else target +:+ "#53" in
  let want := "using nameserver " +:+ server +:+ " for domain " +:+ zone in
  String.eqb msg want || HasPrefix msg (want +:+ " ").

(** [awaitLine]: [match_] steps a state over the lines; [inr] ends the wait. *)
Fixpoint awaitLine {T} (match_ : T → string → T + result unit) (what : string) (stop : ending) (t : T) (lines : list string) :
    result (list string) :=
  match lines with
  | [] => Fail match stop with
          | StreamEnded => errors_New ("log stream ended before " +:+ what)
          | TimedOut => errors_New ("no " +:+ what +:+ " logged in time")
          | CtxDone e => wrapf ("waiting for " +:+ what +:+ ": " +:+ err_text e) e
          end
  | l :: lines =>
      match match_ t l with
      | inl t => awaitLine match_ what stop t lines
      | inr (Ok _) => Ok lines
      | inr (Fail e) => Fail e
      end
  end.
Definition startup_match (fwd : option (string * string)) (started : bool) (line : string) : bool + result unit :=
  match dnsmasqMessage line with
  | None => inl started
  | Some msg =>
      if HasPrefix msg "FAILED to start up" then inr (Fail (errors_New ("dnsmasq did not restart: " +:+ msg)))
      else if HasPrefix msg "started, version " then
        match fwd with None => inr (Ok tt) | Some _ => inl true end
      else match fwd with
           | Some (zone, target) => if started && isForwardInUse msg zone target then inr (Ok tt) else inl started
           | None => inl started
           end
  end.

Section Client.
Context {B : Type} {UB : Uci B} {UE : UciEnv}.
#[local] Abbreviation IO := (Crash.IO (Agent B)).

(** A command: the agent may die before it. *)
Definition Run (argv : list string) : IO (result string) := λ a,
  if e_dies (a_tick a) then (None, mkAgent (S (a_tick a)) (a_box a) (a_manifest a) (a_mode a))
  else let '(r, b) := u_run (a_tick a) argv (a_box a) in
       (Some r, mkAgent (S (a_tick a)) b (a_manifest a) (a_mode a)).
(** An answer of the environment. *)
Definition ask {A} (f : nat → A) : IO A := λ a,
  if e_dies (a_tick a) then (None, mkAgent (S (a_tick a)) (a_box a) (a_manifest a) (a_mode a))
  else (Some (f (a_tick a)), mkAgent (S (a_tick a)) (a_box a) (a_manifest a) (a_mode a)).

Fixpoint run_all (cmds : list (list string)) : IO (result unit) :=
  match cmds with
  | [] => ret (Ok tt)
  | c :: cmds => _ <-? Run c; run_all cmds
  end.
(** [_, _ = c.runner.Run(...)] for each. *)
Fixpoint run_ignoring (cmds : list (list string)) : IO unit :=
  match cmds with
  | [] => ret tt
  | c :: cmds => _ <- Run c; run_ignoring cmds
  end.

(** ** ubus read-back *)
Definition isUbusNotFound (e : error) : bool := Contains (lower_case (err_text e)) "not found".
Definition ubus_get (config : string) : list string :=
  ["ubus"; "call"; "uci"; "get"; "{" +:+ quote "config" +:+ ":" +:+ quote config +:+ "}"].
Definition ubus_get1 (config section : string) : list string :=
  ["ubus"; "call"; "uci"; "get"; "{" +:+ quote "config" +:+ ":" +:+ quote config +:+ "," +:+ quote "section" +:+ ":" +:+ quote section +:+ "}"].

Record uciSection := mkUS { us_typ : string; us_opts : gmap string string }.
Definition optionString (v : UVal) : result string :=
  match v with
  | UStr s => Ok s
  | UArr l => match mapM id l with
              | Some parts => Ok (Join parts " ")
              | None => Fail (errors_New "unexpected list element type")
              end
  | UNum _ | UBool _ => Fail (errors_New "unexpected option value type")
  end.
(** The options of a section: UCI's own entries start with a dot. *)
Definition plain_opts (raw : gmap string UVal) : gmap string UVal := filter (λ kv, HasPrefix kv.1 "." = false) raw.
Definition read_opts (what : string) (raw : gmap string UVal) : result (gmap string string) :=
  match map_to_list (filter (λ kv, is_ok (optionString kv.2) = false) (plain_opts raw)) with
  | (k, v) :: _ => Fail (errors_New ("section " +:+ what +:+ " option " +:+ k +:+ ": unexpected option value type"))
  | [] => Ok (omap (λ v, match optionString v with Ok s => Some s | Fail _ => None end) (plain_opts raw))
  end.
Definition read_section (what : string) (raw : gmap string UVal) : result (Z * uciSection) :=
  match read_opts what raw with
  | Fail e => Fail e
  | Ok opts => Ok (match raw !! ".index" with Some (UNum n) => n | _ => 0 end,
                   mkUS (match raw !! ".type" with Some (UStr s) => s | _ => EmptyString end) opts)
  end.
Fixpoint read_all (l : list (string * gmap string UVal)) : result (list (Z * uciSection)) :=
  match l with
  | [] => Ok []
  | (name, raw) :: l =>
      match read_section name raw with
      | Fail e => Fail e
      | Ok s => match read_all l with Fail e => Fail e | Ok r => Ok (s :: r) end
      end
  end.
(** [sort.Slice] by UCI's index: the indexes of a file are distinct, so every
    sort gives this order. *)
Definition by_index (x y : Z * uciSection) : bool := x.1 <? y.1.

Definition readUbusConfig (config : string) : IO (result (list uciSection)) :=
  r <- Run (ubus_get config);
  ret match r with
      | Fail e => if isUbusNotFound e then Ok [] else Fail e
      | Ok out =>
          match u_json out with
          | Fail e => Fail (wrapf ("parse ubus uci get " +:+ config +:+ ": " +:+ err_text e) e)
          | Ok values => match read_all (map_to_list values) with
                         | Fail e => Fail e
                         | Ok l => Ok (map snd (SliceStable by_index l))
                         end
          end
      end.
Definition readUbusSection (config section : string) : IO (result (option (gmap string string))) :=
  r <- Run (ubus_get1 config section);
  ret match r with
      | Fail e => if isUbusNotFound e then Ok None else Fail e
      | Ok out =>
          match u_json1 out with
          | Fail e => Fail (wrapf ("parse ubus uci get " +:+ config +:+ "." +:+ section +:+ ": " +:+ err_text e) e)
          | Ok raw => match read_opts (config +:+ "." +:+ section) raw with Fail e => Fail e | Ok m => Ok (Some m) end
          end
      end.

(** ** the manifest *)
Definition loadManifest : IO (result managedManifest) := λ a,
  match ask e_load a with
  | (Some (Some (verb, e)), a') => (Some (Fail (wrapf ("openwrt-uci: " +:+ verb +:+ " " +:+ e_path +:+ ": " +:+ err_text e) e)), a')
  | (Some None, a') => (Some (Ok (default zero_manifest (a_manifest a'))), a')
  | (None, a') => (None, a')
  end.
Definition saveManifest (m : managedManifest) : IO (result unit) := λ a,
  match ask e_save a with
  | (Some (Some e), a') => (Some (Fail (wrapf ("openwrt-uci: write " +:+ e_path +:+ ": " +:+ err_text e) e)), a')
  | (Some None, a') => (Some (Ok tt), mkAgent (a_tick a') (a_box a') (Some m) (a_mode a'))
  | (None, a') => (None, a')
  end.

(** ** the restart of dnsmasq *)
Definition restartDnsmasq (entry : string) : IO (result unit) :=
  let fwd := splitDNSForward entry in
  if negb (String.eqb entry EmptyString) && bool_decide (fwd = None)
  then ret (Fail (errors_New ("dnsmasq: malformed forward " +:+ quote entry))) else
  log <- ask e_log;
  let followed := match log with
                  | Fail e => Fail (wrapf ("follow log: " +:+ err_text e) e)
                  | Ok (lines, stop) =>
                      match awaitLine (λ (_ : unit) _, inr (Ok tt)) "logread backlog line" stop tt lines with
                      | Fail e => Fail e
                      | Ok rest => Ok (rest, stop)
                      end
                  end in
  r <- Run ["/etc/init.d/dnsmasq"; "restart"];
  ret match r with
      | Fail e => Fail (wrapf ("dnsmasq restart: " +:+ err_text e) e)
      | Ok _ =>
          match followed with
          | Fail e => Fail (wrapf ("dnsmasq restarted but cannot be verified: " +:+ err_text e) e)
          | Ok (rest, stop) =>
              match awaitLine (startup_match fwd) "dnsmasq startup" stop false rest with
              | Fail e => Fail e
              | Ok _ => Ok tt
              end
          end
      end.

(** ** Apply *)
Definition emptyState : State := {[ "firewall" := firewall_part [] [] ]}.
Definition count_type (typ : string) (l : list uciSection) : nat := length (filter (λ s, us_typ s = typ) l).

(** /etc/config/firewall: the managed section types replaced as a whole. *)
Definition apply_firewall (plan : applyPlan) : IO (result unit) :=
  _ <-? wrapE "openwrt-uci: revert firewall: " EmptyString (Run (revert "firewall"));
  existing <-? wrapE "openwrt-uci: read firewall config: " EmptyString (readUbusConfig "firewall");
  wrapE "openwrt-uci: " EmptyString
    (run_all (renderFirewallCommands (count_type "redirect" existing) (count_type "rule" existing)
                (pl_redirects plan) (pl_rules plan))).

(** /etc/config/network: merged into the wan section. *)
Definition apply_network (m : managedManifest) (plan : applyPlan) : IO (result managedManifest) :=
  match pl_wan plan with
  | None => ret (Ok (mkManaged false (mm_WANKeys m) (mm_DNSForward m) (mm_DNSForwardUnverified m)))
  | Some wan =>
      let '(deletes, sets) := renderNetworkCommands (mm_WANKeys m) wan in
      _ <-? wrapE "openwrt-uci: revert network: " EmptyString (Run (revert "network"));
      _ <- run_ignoring deletes;
      _ <-? wrapE "openwrt-uci: " EmptyString (run_all sets);
      _ <-? wrapE "openwrt-uci: commit network: " EmptyString (Run (commit "network"));
      ret (Ok (mkManaged true (sortedKeys wan) (mm_DNSForward m) (mm_DNSForwardUnverified m)))
  end.

Definition dns_server (entry : string) : string := "dhcp.@dnsmasq[0].server=" +:+ entry.
Definition dns_rebind (zone : string) : string := "dhcp.@dnsmasq[0].rebind_domain=" +:+ zone.
Definition drop_forward (entry : string) : list (list string) :=
  if String.eqb entry EmptyString then [] else
  ["uci"; "-q"; "del_list"; dns_server entry] ::
  (if String.eqb (dnsForwardZone entry) EmptyString then []
   else [["uci"; "-q"; "del_list"; dns_rebind (dnsForwardZone entry)]]).
Definition add_server (entry : string) : list (list string) :=
  if String.eqb entry EmptyString then [] else [["uci"; "add_list"; dns_server entry]].
Definition add_rebind (entry : string) : list (list string) :=
  if String.eqb entry EmptyString || String.eqb (dnsForwardZone entry) EmptyString then []
  else [["uci"; "add_list"; dns_rebind (dnsForwardZone entry)]].

(** /etc/config/dhcp: the one forward Rasputin owns. *)
Definition apply_dhcp (m : managedManifest) (plan : applyPlan) : IO (result managedManifest) :=
  if String.eqb (pl_dnsForward plan) (mm_DNSForward m) then ret (Ok m) else
  _ <-? wrapE "openwrt-uci: revert dhcp: " EmptyString (Run (revert "dhcp"));
  _ <- run_ignoring (drop_forward (mm_DNSForward m));
  _ <-? wrapE "openwrt-uci: add dns forward: " EmptyString (run_all (add_server (pl_dnsForward plan)));
  _ <-? wrapE "openwrt-uci: add dns rebind_domain: " EmptyString (run_all (add_rebind (pl_dnsForward plan)));
  _ <-? wrapE "openwrt-uci: commit dhcp: " EmptyString (Run (commit "dhcp"));
  ret (Ok (mkManaged (mm_Network m) (mm_WANKeys m) (pl_dnsForward plan) true)).

(** The reloads, and the restart that proves the forward. *)
Definition apply_reloads (m : managedManifest) (networkTouched : bool) : IO (result unit) :=
  _ <-? wrapE "openwrt-uci: firewall reload: " EmptyString (Run ["/etc/init.d/firewall"; "reload"]);
  _ <-? (if networkTouched then wrapE "openwrt-uci: network reload: " EmptyString (Run ["/etc/init.d/network"; "reload"])
         else ret (Ok EmptyString));
  if mm_DNSForwardUnverified m then
    _ <-? wrapE "openwrt-uci: " EmptyString (restartDnsmasq (mm_DNSForward m));
    saveManifest (mkManaged (mm_Network m) (mm_WANKeys m) (mm_DNSForward m) false)
  else ret (Ok tt).

Definition Apply (o : option State) : IO (result string) :=
  let state := default emptyState o in
  match planFromState state with
  | Fail e => ret (Fail (wrapf ("openwrt-uci: " +:+ err_text e) e))
  | Ok plan =>
      _ <-? apply_firewall plan;
      m <-? loadManifest;
      m <-? apply_network m plan;
      m <-? apply_dhcp m plan;
      _ <-? saveManifest m;
      _ <-? apply_reloads m (bool_decide (pl_wan plan ≠ None));
      ret (e_hash state)
  end.

(** ** Get *)
Definition wanProtoKeys (proto : string) : list string :=
  if String.eqb proto "dhcp" then ["hostname"]
  else if String.eqb proto "static" then ["ipaddr"; "gateway"; "dns"]
  else if String.eqb proto "pppoe" then ["username"; "password"; "service"]
  else [].
(** The keys Get looks at, given the options it found. *)
Definition wan_keys (observed : gmap string string) : list string :=
  match observed !! "proto" with Some p => "proto" :: wanProtoKeys p | None => [] end ++ ["_comment"].
Definition observed_wan (o : option (gmap string string)) : State :=
  match o with
  | None => ∅
  | Some m => AStr <$> filter (λ kv, kv.1 ∈ wan_keys m) m
  end.

Definition dnsForwardPresent (entry : string) : IO (result bool) :=
  sections <-? wrapE "openwrt-uci: read dhcp config: " EmptyString (readUbusConfig "dhcp");
  let zone := dnsForwardZone entry in
  ret (Ok (existsb (λ s, String.eqb (us_typ s) "dnsmasq"
      && bool_decide (entry ∈ Fields (value_of (us_opts s) "server"))
      && (String.eqb zone EmptyString || bool_decide (zone ∈ Fields (value_of (us_opts s) "rebind_domain")))) sections)).
Definition dnsForwardServing (entry : string) : IO bool :=
  match splitDNSForward entry with
  | None => ret false
  | Some (zone, target) =>
      match ParseAddr target with
      | None => ret false
      | Some want =>
          r <- ask (λ t, e_lookup t zone);
          ret match r with Fail _ => false | Ok addrs => existsb (λ a, bool_decide (a = want)) addrs end
      end
  end.

Definition get_dhcp (m : managedManifest) : IO (result (option string)) :=
  if negb (negb (String.eqb (mm_DNSForward m) EmptyString) || mm_DNSForwardUnverified m) then ret (Ok None)
  else if negb (String.eqb (mm_DNSForward m) EmptyString) && negb (mm_DNSForwardUnverified m) then
    present <-? dnsForwardPresent (mm_DNSForward m);
    if (present : bool) then
      serving <- dnsForwardServing (mm_DNSForward m);
      ret (Ok (Some (if (serving : bool) then mm_DNSForward m else EmptyString)))
    else ret (Ok (Some EmptyString))
  else ret (Ok (Some EmptyString)).

Definition sections_of (typ : string) (l : list uciSection) : list State :=
  map (λ s, AStr <$> us_opts s) (filter (λ s, us_typ s = typ) l).
Definition state_of (sections : list uciSection) (wan : option State) (server : option string) : State :=
  let s : State := {[ "firewall" := firewall_part (sections_of "redirect" sections) (sections_of "rule" sections) ]} in
  let s := match wan with None => s | Some w => <["network" := AMap {[ "wan" := AMap w ]}]> s end in
  match server with None => s | Some v => <["dhcp" := AMap {[ "server" := AStr v ]}]> s end.

Definition Get : IO (result (State * string)) :=
  sections <-? wrapE "openwrt-uci: read firewall config: " EmptyString (readUbusConfig "firewall");
  m <-? loadManifest;
  wan <-? (if mm_Network m then
             o <-? wrapE "openwrt-uci: read network.wan: " EmptyString (readUbusSection "network" "wan");
             ret (Ok (Some (observed_wan o)))
           else ret (Ok None));
  server <-? get_dhcp m;
  let state := state_of sections wan server in
  ret match e_hash state with Fail e => Fail e | Ok h => Ok (state, h) end.

(** ** SetActive *)
Definition recordDeploymentMode (active : bool) : IO (result unit) := λ a,
  match ask e_save a with
  | (Some (Some e), a') => (Some (Fail (wrapf ("openwrt-uci: record deployment mode: " +:+ err_text e) e)), a')
  | (Some None, a') => (Some (Ok tt), mkAgent (a_tick a') (a_box a') (a_manifest a')
                         (Some ((if active then "active" else "idle") +:+ newline)))
  | (None, a') => (None, a')
  end.
Definition SetActive (active : bool) : IO (result unit) :=
  let ignore := if active then "0" else "1" in
  let snortEnabled := if active then "1" else "0" in
  _ <-? wrapE "openwrt-uci: set dhcp.lan.ignore: " EmptyString (Run ["uci"; "set"; "dhcp.lan.ignore=" +:+ ignore]);
  _ <-? wrapE "openwrt-uci: commit dhcp: " EmptyString (Run (commit "dhcp"));
  _ <-? wrapE "openwrt-uci: dnsmasq reload: " EmptyString (Run ["/etc/init.d/dnsmasq"; "reload"]);
  _ <-? wrapE "openwrt-uci: set snort.enabled: " EmptyString (Run ["uci"; "set"; "snort.snort.enabled=" +:+ snortEnabled]);
  _ <-? wrapE "openwrt-uci: commit snort: " EmptyString (Run (commit "snort"));
  _ <- Run ["/etc/init.d/snort"; if active then "start" else "stop"];
  recordDeploymentMode active.
End Client.
