(* ===== verification/FirewallBox.v ===== *)
(** * What an apply does to the firewall's configuration

    The facts about FirewallUci.  [UciLaws] says what uci and ubus promise: an
    edit is staged and touches one configuration, a commit is atomic, a revert
    drops what is staged, and ubus reports the sections in order.  From that:
    wherever an apply stops, each configuration file is as it was or as the
    plan says, other files and other sections are untouched, and what [Get]
    reads after an apply that succeeded is the state that was applied.  The
    hypotheses of that round trip are needed: an option that Rasputin does not
    remember having set is reported by [Get] and never removed by [Apply]. *)
From Stdlib Require Import Ascii String.
From S2P Require Import Prelude GoStrings GoNet GoSort Crash FirewallIntent FirewallUci.
Open Scope Z_scope.
#[local] Arguments String.append : simpl nomatch.
#[local] Arguments HasPrefix : simpl never.

(** ** Sections *)
Fixpoint first_map (P : Section → bool) (f : Section → list Section) (l : list Section) : list Section :=
  match l with
  | [] => []
  | s :: l => if P s then f s ++ l else s :: first_map P f l
  end.
Definition on_last (P : Section → bool) (f : Section → list Section) (l : list Section) : list Section :=
  reverse (first_map P f (reverse l)).
Definition of_type (typ : string) (s : Section) : bool := String.eqb (s_type s) typ.
Definition set_opt (k : string) (o : Opt) (s : Section) : Section := mkSec (s_name s) (s_type s) (<[k := o]> (s_opts s)).
Definition del_opt (k : string) (s : Section) : Section := mkSec (s_name s) (s_type s) (delete k (s_opts s)).
Definition on_named (name : string) (f : Section → Section) (l : list Section) : list Section :=
  map (λ s, if String.eqb (s_name s) name then f s else s) l.
Definition items (o : option Opt) : list string :=
  match o with Some (OStr s) => [s] | Some (OList l) => l | None => [] end.
Definition dnsmasq_opt (k : string) (f : list string → list string) (l : list Section) : list Section :=
  first_map (of_type "dnsmasq") (λ s, [set_opt k (OList (f (items (s_opts s !! k)))) s]) l.

(** Option names as uci takes them. *)
Definition key_char (c : ascii) : bool := GoPath.in_range 97 122 c || GoPath.in_range 48 57 c || Ascii.eqb c "_"%char.
Definition is_key (k : string) : bool := negb (String.eqb k EmptyString) && all_chars key_char k.

(** ** What the commands promise *)

(** A command that stages a change of one configuration: its argv, its
    configuration and the change. *)
Inductive Edit :=
| DeleteLast (typ : string)
| AddSection (typ : string)
| SetLast (typ k v : string)
| DeleteWan (k : string)
| SetWan (k v : string)
| DhcpAdd (k v : string)
| DhcpDel (k v : string)
| SetIgnore (v : string)
| SetSnort (v : string).
Definition argv (e : Edit) : list string :=
  match e with
  | DeleteLast typ => delete_last typ
  | AddSection typ => add_section typ
  | SetLast typ k v => set_last_option typ k v
  | DeleteWan k => delete_wan k
  | SetWan k v => set_wan k v
  | DhcpAdd k v => ["uci"; "add_list"; "dhcp.@dnsmasq[0]." +:+ k +:+ "=" +:+ v]
  | DhcpDel k v => ["uci"; "-q"; "del_list"; "dhcp.@dnsmasq[0]." +:+ k +:+ "=" +:+ v]
  | SetIgnore v => ["uci"; "set"; "dhcp.lan.ignore=" +:+ v]
  | SetSnort v => ["uci"; "set"; "snort.snort.enabled=" +:+ v]
  end.
Definition config_of (e : Edit) : string :=
  match e with
  | DeleteLast _ | AddSection _ | SetLast _ _ _ => "firewall"
  | DeleteWan _ | SetWan _ _ => "network"
  | DhcpAdd _ _ | DhcpDel _ _ | SetIgnore _ => "dhcp"
  | SetSnort _ => "snort"
  end.
(** Names as uci takes them, and a value: setting the empty one is something else. *)
Definition valid (e : Edit) : Prop :=
  match e with
  | DeleteLast typ | AddSection typ => is_key typ = true
  | SetLast typ k v => is_key typ = true ∧ is_key k = true ∧ v ≠ EmptyString
  | DeleteWan k => is_key k = true
  | SetWan k v | DhcpAdd k v => is_key k = true ∧ v ≠ EmptyString
  | DhcpDel k v => is_key k = true
  | SetIgnore v | SetSnort v => v ≠ EmptyString
  end.
(** What an edit does to a configuration's staged sections.  Deleting from a list
    that is absent leaves an empty one, which uci would not store: the
    difference is not observed, [items] reads both as no entries. *)
Definition effect (e : Edit) (l l' : list Section) : Prop :=
  match e with
  | DeleteLast typ => l' = on_last (of_type typ) (λ _, []) l
  | AddSection typ => ∃ n, (n ∉ map s_name l) ∧ l' = l ++ [mkSec n typ ∅]
  | SetLast typ k v => l' = on_last (of_type typ) (λ s, [set_opt k (OStr v) s]) l
  | DeleteWan k => l' = on_named "wan" (del_opt k) l
  | SetWan k v => l' = on_named "wan" (set_opt k (OStr v)) l
  | DhcpAdd k v => l' = dnsmasq_opt k (λ l, l ++ [v]) l
  | DhcpDel k v => l' = dnsmasq_opt k (filter (λ x, x ≠ v)) l
  | SetIgnore v => l' = on_named "lan" (set_opt "ignore" (OStr v)) l
  | SetSnort v => l' = on_named "snort" (set_opt "enabled" (OStr v)) l
  end.

(** ubus's JSON of a section and of a configuration. *)
Definition uval (o : Opt) : UVal := match o with OStr s => UStr s | OList l => UArr (Some <$> l) end.
Definition section_values (i : nat) (s : Section) : gmap string UVal :=
  <[".type" := UStr (s_type s)]> (<[".index" := UNum (Z.of_nat i)]> (<[".name" := UStr (s_name s)]>
    (<[".anonymous" := UBool true]> (uval <$> s_opts s)))).
Definition values_of (l : list Section) : gmap string (gmap string UVal) :=
  list_to_map (imap (λ i s, (s_name s, section_values i s)) l).

Definition untouched {B} `{!Uci B} (c : string) (b b' : B) : Prop :=
  u_staged c b' = u_staged c b ∧ u_committed c b' = u_committed c b.
Definition only {B} `{!Uci B} (cfg : string) (b b' : B) : Prop := ∀ c, c ≠ cfg → untouched c b b'.
(** Commands that change no configuration. *)
Definition harmless (argv : list string) : Prop :=
  match argv with x :: _ => String.eqb x "ubus" || HasPrefix x "/etc/init.d/" = true | [] => False end.

Class UciLaws (B : Type) `{!Uci B} : Prop := {
  law_names c b : NoDup (map s_name (u_staged c b)) ∧ NoDup (map s_name (u_committed c b));
  law_keys c b s k : s ∈ u_committed c b → is_Some (s_opts s !! k) → HasPrefix k "." = false;
  law_edit t e b r b' : valid e → u_run t (argv e) b = (r, b') →
    only (config_of e) b b' ∧ u_committed (config_of e) b' = u_committed (config_of e) b ∧
    match r with
    | Ok _ => effect e (u_staged (config_of e) b) (u_staged (config_of e) b')
    | Fail _ => u_staged (config_of e) b' = u_staged (config_of e) b
    end;
  law_revert t cfg b r b' : u_run t (revert cfg) b = (r, b') →
    only cfg b b' ∧ u_committed cfg b' = u_committed cfg b ∧
    match r with Ok _ => u_staged cfg b' = u_committed cfg b | Fail _ => True end;
  law_commit t cfg b r b' : u_run t (commit cfg) b = (r, b') →
    only cfg b b' ∧
    match r with
    | Ok _ => u_committed cfg b' = u_staged cfg b ∧ u_staged cfg b' = u_staged cfg b
    | Fail _ => u_committed cfg b' = u_committed cfg b ∨ u_committed cfg b' = u_staged cfg b
    end;
  law_harmless t argv b r b' c : harmless argv → u_run t argv b = (r, b') → untouched c b b';
  law_ubus t cfg b r b' : is_key cfg = true → u_run t (ubus_get cfg) b = (r, b') → u_staged cfg b = u_committed cfg b →
    match r with
    | Ok out => u_json out = Ok (values_of (u_committed cfg b))
    | Fail e => isUbusNotFound e = true → u_committed cfg b = []
    end;
  law_ubus1 t cfg sec b r b' : is_key cfg = true → is_key sec = true → u_run t (ubus_get1 cfg sec) b = (r, b') → u_staged cfg b = u_committed cfg b →
    match r with
    | Ok out => ∃ i s, u_committed cfg b !! i = Some s ∧ s_name s = sec ∧ u_json1 out = Ok (section_values i s)
    | Fail e => isUbusNotFound e = true → ∀ s, s ∈ u_committed cfg b → s_name s ≠ sec
    end
}.

(** ** What a list of edits comes to *)
Inductive stages : list Edit → list Section → list Section → Prop :=
| stages_nil l : stages [] l l
| stages_cons e es l l1 l2 : effect e l l1 → stages es l1 l2 → stages (e :: es) l l2.

Lemma stages_app es1 es2 l l2 : stages (es1 ++ es2) l l2 → ∃ l1, stages es1 l l1 ∧ stages es2 l1 l2.
Proof.
  revert l. induction es1 as [|e es1 IH]; intros l; [exists l; split; [constructor|done]|].
  inversion 1; subst. destruct (IH l1) as (l1' & ? & ?); [done|]. exists l1'. split; [by econstructor|done].
Qed.


Lemma first_map_drop_step (P : Section → bool) s l : P s = false →
  ∀ n, Nat.iter n (first_map P (λ _, [])) (s :: l) = s :: Nat.iter n (first_map P (λ _, [])) l.
Proof. intros Hs n. induction n as [|n IH]; [done|]. rewrite !Nat.iter_succ, IH. cbn [first_map]. by rewrite Hs. Qed.
Lemma iter_comm {A} (f : A → A) n x : Nat.iter n f (f x) = f (Nat.iter n f x).
Proof. induction n as [|n IH]; [done|]. by rewrite Nat.iter_succ, IH. Qed.
Lemma drop_all (P : Section → bool) l :
  Nat.iter (length (filter (λ s, P s = true) l)) (first_map P (λ _, [])) l = filter (λ s, P s = false) l.
Proof.
  induction l as [|s l IH]; [done|]. destruct (P s) eqn:Es.
  - rewrite filter_cons_True, filter_cons_False by congruence. cbn [length].
    rewrite Nat.iter_succ, <- iter_comm. cbn [first_map]. rewrite Es. exact IH.
  - rewrite filter_cons_False, filter_cons_True by congruence. rewrite first_map_drop_step by done. by rewrite IH.
Qed.
Lemma on_last_iter P f n l : Nat.iter n (on_last P f) l = reverse (Nat.iter n (first_map P f) (reverse l)).
Proof.
  induction n as [|n IH]; [symmetry; apply reverse_involutive|]. rewrite !Nat.iter_succ, IH. unfold on_last. by rewrite reverse_involutive.
Qed.
Lemma drop_all_last (P : Section → bool) l :
  Nat.iter (length (filter (λ s, P s = true) l)) (on_last P (λ _, [])) l = filter (λ s, P s = false) l.
Proof.
  rewrite on_last_iter.
  replace (length (filter (λ s, P s = true) l)) with (length (filter (λ s, P s = true) (reverse l))).
  2: { apply Permutation_length. by rewrite reverse_Permutation. }
  rewrite drop_all, filter_reverse. apply reverse_involutive.
Qed.

Lemma on_last_snoc P f l s : P s = true → on_last P f (l ++ [s]) = l ++ reverse (f s).
Proof.
  intros Hs. unfold on_last. rewrite reverse_snoc. cbn [first_map]. rewrite Hs, reverse_app, reverse_involutive. done.
Qed.

(** The redirects and rules of a plan, as edits. *)
Definition section_edits (typ : string) (m : gmap string string) : list Edit :=
  AddSection typ :: map (λ k, SetLast typ k (value_of m k)) (sortedKeys m).
Definition firewall_edits (nRedirect nRule : nat) (redirects rules : list (gmap string string)) : list Edit :=
  replicate nRedirect (DeleteLast "redirect") ++ replicate nRule (DeleteLast "rule")
  ++ concat (map (section_edits "redirect") redirects) ++ concat (map (section_edits "rule") rules).

Lemma map_section_edits typ m : map argv (section_edits typ m) = render_section typ m.
Proof. unfold section_edits, render_section. cbn. by rewrite map_map. Qed.
Lemma map_replicate_edit n e : map argv (replicate n e) = replicate n (argv e).
Proof. induction n; cbn; congruence. Qed.
Lemma renderFirewallCommands_edits n1 n2 redirects rules :
  renderFirewallCommands n1 n2 redirects rules = map argv (firewall_edits n1 n2 redirects rules) ++ [commit "firewall"].
Proof.
  unfold renderFirewallCommands, firewall_edits. rewrite !map_app, !map_replicate_edit, !concat_map, !map_map, <- !app_assoc.
  do 2 f_equal. f_equal; [f_equal; apply map_ext; intros m; symmetry; apply map_section_edits|].
  f_equal. f_equal. apply map_ext. intros m. symmetry. apply map_section_edits.
Qed.

Lemma sortedKeys_elem (m : gmap string string) k : k ∈ sortedKeys m ↔ is_Some (m !! k).
Proof.
  unfold sortedKeys. rewrite sort_Strings_perm. change (map fst (map_to_list m)) with ((map_to_list m).*1).
  rewrite list_elem_of_fmap. split.
  - intros ([k' v] & -> & H%elem_of_map_to_list). eauto.
  - intros [v H]. exists (k, v). split; [done|]. by apply elem_of_map_to_list.
Qed.
(** Setting every key of a map, one by one, gives the map. *)
Lemma set_keys_all (m : gmap string string) ks (acc : gmap string Opt) k :
  foldl (λ o k, <[k := OStr (value_of m k)]> o) acc ks !! k =
  if decide (k ∈ ks) then Some (OStr (value_of m k)) else acc !! k.
Proof.
  revert acc. induction ks as [|k' ks IH]; intros acc; [by rewrite decide_False by apply not_elem_of_nil|].
  cbn [foldl]. rewrite IH. destruct (decide (k ∈ ks)) as [H|H].
  - by rewrite decide_True by (by right).
  - destruct (decide (k = k')) as [->|Hne].
    + rewrite lookup_insert_eq, decide_True by (by left). done.
    + rewrite lookup_insert_ne by done. rewrite decide_False; [done|]. by intros [?|?]%elem_of_cons.
Qed.
Lemma set_sorted_keys (m : gmap string string) :
  foldl (λ o k, <[k := OStr (value_of m k)]> o) ∅ (sortedKeys m) = (OStr <$> m : gmap string Opt).
Proof.
  apply map_eq. intros k. rewrite set_keys_all, lookup_fmap, lookup_empty. unfold value_of.
  destruct (decide (k ∈ sortedKeys m)) as [[v Hv]%sortedKeys_elem|H]; [by rewrite Hv|].
  destruct (m !! k) as [v|] eqn:E; [|done]. destruct H. by apply sortedKeys_elem.
Qed.

Lemma stages_sets typ m ks l n o l' :
  stages (map (λ k, SetLast typ k (value_of m k)) ks) (l ++ [mkSec n typ o]) l' →
  l' = l ++ [mkSec n typ (foldl (λ o k, <[k := OStr (value_of m k)]> o) o ks)].
Proof.
  revert o. induction ks as [|k ks IH]; intros o; inversion 1 as [|e es ? l1 ? Heff Hs]; subst; [done|].
  cbn [effect] in Heff. rewrite on_last_snoc in Heff by apply String.eqb_refl. subst. by apply IH.
Qed.
Lemma stages_section typ m l l' : stages (section_edits typ m) l l' →
  ∃ n, (n ∉ map s_name l) ∧ l' = l ++ [mkSec n typ (OStr <$> m)].
Proof.
  inversion 1 as [|e es ? l1 ? Heff Hs]; subst. destruct Heff as (n & Hn & ->). apply stages_sets in Hs as ->.
  exists n. split; [done|]. by rewrite set_sorted_keys.
Qed.
Definition body (s : Section) : string * gmap string Opt := (s_type s, s_opts s).
Lemma stages_sections typ ms l l' : stages (concat (map (section_edits typ) ms)) l l' →
  ∃ l1, l' = l ++ l1 ∧ map body l1 = map (λ m, (typ, OStr <$> m)) ms.
Proof.
  revert l. induction ms as [|m ms IH]; intros l; cbn [map concat].
  - inversion 1; subst. exists []. by rewrite app_nil_r.
  - intros (l1 & (n & _ & ->)%stages_section & (l2 & -> & Hb)%IH)%stages_app.
    eexists (_ :: l2). rewrite <- app_assoc. split; [done|]. cbn. by rewrite Hb.
Qed.
Lemma stages_deletes n typ l l' : stages (replicate n (DeleteLast typ)) l l' →
  l' = Nat.iter n (on_last (of_type typ) (λ _, [])) l.
Proof.
  revert l. induction n as [|n IH]; intros l; cbn [replicate]; inversion 1; subst; [done|].
  cbn [effect] in *. subst. rewrite Nat.iter_succ, <- iter_comm. by apply IH.
Qed.

(** The firewall file after the plan: sections of other types as they were, in
    their order, then the redirects, then the rules. *)
Definition managed (s : Section) : bool := of_type "redirect" s || of_type "rule" s.
Definition replaced (plan : applyPlan) (l l' : list Section) : Prop :=
  ∃ l1, l' = filter (λ s, managed s = false) l ++ l1 ∧
    map body l1 = map (λ m, ("redirect", OStr <$> m)) (pl_redirects plan) ++ map (λ m, ("rule", OStr <$> m)) (pl_rules plan).

Lemma stages_firewall plan l l' :
  stages (firewall_edits (length (filter (λ s, of_type "redirect" s = true) l)) (length (filter (λ s, of_type "rule" s = true) l))
            (pl_redirects plan) (pl_rules plan)) l l' → replaced plan l l'.
Proof.
  unfold firewall_edits.
  intros (l1 & H1%stages_deletes & (l2 & H2%stages_deletes & (l3 & H3%stages_sections & H4%stages_sections)%stages_app)%stages_app)%stages_app.
  rewrite drop_all_last in H1. subst l1.
  assert (Hcount : length (filter (λ s, of_type "rule" s = true) l)
    = length (filter (λ s, of_type "rule" s = true) (filter (λ s, of_type "redirect" s = false) l))).
  { f_equal. rewrite list_filter_filter. apply list_filter_iff. intros s. split; [|tauto].
    intros H. split; [done|]. unfold of_type in *. apply String.eqb_eq in H. by rewrite H. }
  rewrite Hcount, drop_all_last in H2. subst l2.
  destruct H3 as (a & -> & Ha), H4 as (b & -> & Hb). exists (a ++ b). split.
  - rewrite app_assoc. do 2 f_equal. rewrite list_filter_filter. apply list_filter_iff. intros s. unfold managed.
    rewrite orb_false_iff. tauto.
  - by rewrite map_app, Ha, Hb.
Qed.

(** ** Reading back *)
Lemma filter_none {A} (P : string * A → Prop) `{!∀ x, Decision (P x)} (m : gmap string A) :
  (∀ k v, m !! k = Some v → ¬ P (k, v)) → filter P m = ∅.
Proof. intros Hno. apply map_empty. intros k. apply map_lookup_filter_None. right. intros v. apply Hno. Qed.
Definition opt_string (o : Opt) : string := match o with OStr s => s | OList l => Join l " " end.
Definition view (s : Section) : uciSection := mkUS (s_type s) (opt_string <$> s_opts s).
Definition dotless (s : Section) : Prop := ∀ k, is_Some (s_opts s !! k) → HasPrefix k "." = false.

Lemma optionString_uval o : optionString (uval o) = Ok (opt_string o).
Proof.
  destruct o as [s|l]; [done|]. cbn.
  assert (mapM id (Some <$> l) = Some l) as ->; [|done]. by apply mapM_fmap_Some.
Qed.
#[local] Arguments optionString : simpl never.
#[local] Arguments uval : simpl never.
#[local] Arguments opt_string : simpl never.
Lemma plain_section_values i s : dotless s → plain_opts (section_values i s) = uval <$> s_opts s.
Proof.
  intros Hd. apply map_eq. intros k. apply option_eq. intros v. unfold plain_opts. rewrite map_lookup_filter_Some. cbn.
  destruct (HasPrefix k ".") eqn:Ek.
  - split; [by intros [_ ?]|]. rewrite lookup_fmap. intros H. exfalso. destruct (s_opts s !! k) eqn:E; [|done].
    rewrite (Hd k) in Ek by eauto. done.
  - unfold section_values. rewrite !lookup_insert_ne by (intros <-; done). tauto.
Qed.
Lemma read_opts_values what i s : dotless s → read_opts what (section_values i s) = Ok (opt_string <$> s_opts s).
Proof.
  intros Hd. unfold read_opts. rewrite plain_section_values by done.
  assert (filter (λ kv : string * UVal, is_ok (optionString kv.2) = false) (uval <$> s_opts s) = ∅) as ->.
  { apply filter_none. intros k v Hk. rewrite lookup_fmap in Hk.
    destruct (s_opts s !! k) as [o|]; [|done]. injection Hk as <-. cbn. by rewrite optionString_uval. }
  rewrite map_to_list_empty. f_equal. apply map_eq. intros k. rewrite lookup_omap, !lookup_fmap.
  destruct (s_opts s !! k) as [o|]; [|done]. cbn. by rewrite optionString_uval.
Qed.
Lemma section_values_index i s : section_values i s !! ".index" = Some (UNum (Z.of_nat i)).
Proof. unfold section_values. by rewrite lookup_insert_ne, lookup_insert_eq by done. Qed.
Lemma section_values_type i s : section_values i s !! ".type" = Some (UStr (s_type s)).
Proof. unfold section_values. by rewrite lookup_insert_eq. Qed.
Lemma read_section_values what i s : dotless s → read_section what (section_values i s) = Ok (Z.of_nat i, view s).
Proof. intros Hd. unfold read_section. by rewrite read_opts_values, section_values_index, section_values_type. Qed.

(** The parts [read_section] looks up. *)
Definition parts (raw : gmap string UVal) : Z * uciSection :=
  (match raw !! ".index" with Some (UNum n) => n | _ => 0 end,
   mkUS (match raw !! ".type" with Some (UStr s) => s | _ => EmptyString end)
     (omap (λ v, match optionString v with Ok s => Some s | Fail _ => None end) (plain_opts raw))).
Lemma parts_values i s : dotless s → parts (section_values i s) = (Z.of_nat i, view s).
Proof.
  intros Hd. unfold parts, view. rewrite plain_section_values, section_values_index, section_values_type by done. do 2 f_equal. apply map_eq. intros k.
  rewrite lookup_omap, !lookup_fmap. destruct (s_opts s !! k) as [o|]; [|done]. cbn. by rewrite optionString_uval.
Qed.
Lemma read_all_parts l : (∀ n raw, (n, raw) ∈ l → ∃ i s, dotless s ∧ raw = section_values i s) →
  read_all l = Ok (map (λ x, parts x.2) l).
Proof.
  induction l as [|[n raw] l IH]; intros Hl; [done|]. cbn [read_all map].
  destruct (Hl n raw) as (i & s & Hd & ->); [by left|]. cbn [snd]. rewrite read_section_values, parts_values by done.
  rewrite IH; [done|]. intros. apply (Hl n0). by right.
Qed.

Lemma sorted_by_index l : ∀ k, StronglySorted (not_after by_index) (imap (λ i s, (Z.of_nat (k + i), view s)) l).
Proof.
  induction l as [|s l IH]; intros k; cbn; [constructor|]. constructor.
  - replace (imap _ l) with (imap (λ i s, (Z.of_nat (S k + i), view s)) l); [apply IH|].
    apply imap_ext. intros i ? _. cbn. repeat f_equal; lia.
  - apply Forall_lookup. intros i x. rewrite list_lookup_imap. destruct (l !! i); [|done]. cbn. intros [= <-].
    unfold not_after, by_index. cbn. apply Z.ltb_ge. lia.
Qed.
Lemma read_values l : NoDup (map s_name l) → Forall dotless l →
  ∃ r, read_all (map_to_list (values_of l)) = Ok r ∧ map snd (SliceStable by_index r) = map view l.
Proof.
  intros Hn Hd. set (kvs := imap (λ i s, (s_name s, section_values i s)) l).
  assert (Hperm : map_to_list (values_of l) ≡ₚ kvs).
  { apply map_to_list_to_map. unfold kvs. rewrite fmap_imap, (imap_ext _ (const s_name)) by done. by rewrite imap_const. }
  eexists. split.
  - apply read_all_parts. intros n raw H. rewrite Hperm in H. unfold kvs in H.
    apply elem_of_lookup_imap in H as (i & s & E & Hi). injection E as -> ->. exists i, s. split; [|done].
    by eapply Forall_lookup_1.
  - assert (Hparts : map (λ x, parts x.2) kvs = imap (λ i s, (Z.of_nat i, view s)) l).
    { unfold kvs. change (map ?f ?x) with (f <$> x). rewrite fmap_imap. apply imap_ext. intros i s Hi. cbn.
      apply parts_values. by eapply Forall_lookup_1. }
    assert (SliceStable by_index (map (λ x, parts x.2) (map_to_list (values_of l))) = imap (λ i s, (Z.of_nat i, view s)) l) as ->.
    { apply (StronglySorted_unique_strong (not_after by_index)).
      - intros x1 x2 H1 H2 H12 H21. rewrite SliceStable_perm, Hperm, Hparts in H1.
        apply elem_of_lookup_imap in H1 as (i & s & -> & Hi). apply elem_of_lookup_imap in H2 as (j & s' & -> & Hj).
        unfold not_after, by_index in H12, H21. cbn in H12, H21. apply Z.ltb_ge in H12, H21.
        assert (i = j) as <- by lia. congruence.
      - apply SliceStable_sorted; unfold not_after, by_index; intros; rewrite ?Z.ltb_lt, ?Z.ltb_ge in *; lia.
      - exact (sorted_by_index l 0).
      - rewrite SliceStable_perm. by rewrite Hperm, Hparts. }
    change (map ?f ?x) with (f <$> x). rewrite fmap_imap, (imap_ext _ (const view)) by done. apply imap_const.
Qed.
