(* ===== verification/FirewallSim.v ===== *)
(** * A firewall to run the agent on

    An executable box with the commands of FirewallUci: it parses a command
    line, edits, commits and reverts configurations, and answers ubus.  It keeps
    the laws of FirewallBox ([fw_sim_laws]), so those laws can hold, and the
    theorems about an apply can be evaluated on it. *)
From Stdlib Require Import Ascii String.
From S2P Require Import Prelude GoStrings GoNet GoSort Crash FirewallIntent FirewallUci FirewallBox.
Open Scope Z_scope.
#[local] Arguments String.append : simpl nomatch.
#[local] Arguments HasPrefix : simpl never.

(** ** Text for values *)
#[export] Instance UVal_eq_dec : EqDecision UVal.
Proof. solve_decision. Defined.
#[export] Instance UVal_countable : Countable UVal.
Proof.
  refine (inj_countable'
    (λ v, match v with UStr s => inl (inl s) | UArr l => inl (inr l) | UNum n => inr (inl n) | UBool b => inr (inr b) end)
    (λ x, match x with inl (inl s) => UStr s | inl (inr l) => UArr l | inr (inl n) => UNum n | inr (inr b) => UBool b end) _).
  by intros [].
Defined.
Fixpoint bits (p : positive) : string :=
  match p with xH => EmptyString | xO p => String "0"%char (bits p) | xI p => String "1"%char (bits p) end.
Fixpoint unbits (s : string) : positive :=
  match s with EmptyString => xH | String c s => if Ascii.eqb c "0"%char then xO (unbits s) else xI (unbits s) end.
Lemma unbits_bits p : unbits (bits p) = p.
Proof. induction p; cbn; congruence. Qed.
Definition to_text {A} `{Countable A} (x : A) : string := bits (encode x).
Definition of_text {A} `{Countable A} (s : string) : result A :=
  match decode (unbits s) with Some x => Ok x | None => Fail (errors_New "invalid character") end.
Lemma of_to_text {A} `{Countable A} (x : A) : of_text (to_text x) = Ok x.
Proof. unfold of_text, to_text. by rewrite unbits_bits, decode_encode. Qed.

(** ** Command lines *)
Definition strip (p s : string) : option string := if HasPrefix s p then Some (drop_str (String.length p) s) else None.
Lemma strip_app p s : strip p (p +:+ s) = Some s.
Proof. unfold strip. rewrite (proj2 (HasPrefix_spec _ _)) by eauto. by rewrite drop_str_app. Qed.

Definition parse_set (arg : string) : option Edit :=
  match strip "firewall.@" arg with
  | Some r => '(typ, r) ← cut_at "["%char r; r ← strip "-1]." r; '(k, v) ← cut_at "="%char r; Some (SetLast typ k v)
  | None =>
      match strip "network.wan." arg with
      | Some r => '(k, v) ← cut_at "="%char r; Some (SetWan k v)
      | None => match strip "dhcp.lan.ignore=" arg with
                | Some v => Some (SetIgnore v)
                | None => SetSnort <$> strip "snort.snort.enabled=" arg
                end
      end
  end.
Definition parse_delete (arg : string) : option Edit :=
  match strip "firewall.@" arg with
  | Some r => '(typ, r) ← cut_at "["%char r; if String.eqb r "-1]" then Some (DeleteLast typ) else None
  | None => r ← strip "network.wan." arg; Some (DeleteWan r)
  end.
Definition parse_list (f : string → string → Edit) (arg : string) : option Edit :=
  r ← strip "dhcp.@dnsmasq[0]." arg; '(k, v) ← cut_at "="%char r; Some (f k v).
Definition parse_edit (rest : list string) : option Edit :=
  match rest with
  | [c; arg] => if String.eqb c "set" then parse_set arg else if String.eqb c "add_list" then parse_list DhcpAdd arg else None
  | [c; d; arg] =>
      if String.eqb c "-q" then
        if String.eqb d "delete" then parse_delete arg else if String.eqb d "del_list" then parse_list DhcpDel arg else None
      else if String.eqb c "add" && String.eqb d "firewall" then Some (AddSection arg) else None
  | _ => None
  end.

Lemma key_without k c : is_key k = true → key_char c = false → without c k = true.
Proof.
  unfold is_key, without. intros [_ Hk]%andb_true_iff Hc. induction k as [|d k IH]; [done|]. cbn in *.
  apply andb_true_iff in Hk as [Hd Hk]. rewrite IH by done. rewrite andb_true_r, negb_true_iff.
  destruct (Ascii.eqb_spec d c) as [->|]; [congruence|done].
Qed.
Lemma cut_key k c r : is_key k = true → key_char c = false → cut_at c (k +:+ String c r) = Some (k, r).
Proof. intros Hk Hc. by apply cut_at_app, key_without. Qed.
Lemma parse_argv e : valid e → ∃ rest, argv e = "uci" :: rest ∧ parse_edit rest = Some e.
Proof.
  destruct e as [typ|typ|typ k v|k|k v|k v|k v|v|v]; intros Hv; eexists; (split; [reflexivity|]);
    cbn [parse_edit String.eqb Ascii.eqb Bool.eqb andb]; cbn [valid] in Hv; unfold parse_delete, parse_set, parse_list.
  - rewrite strip_app. change "[-1]"%string with (String "["%char "-1]"). by rewrite cut_key.
  - done.
  - destruct Hv as (Ht & Hk & _). rewrite strip_app. change ("[-1]." +:+ ?x) with (String "["%char ("-1]." +:+ x)). rewrite cut_key by done.
    cbn [mbind option_bind]. rewrite strip_app. cbn [mbind option_bind]. change ("=" +:+ v) with (String "="%char v). by rewrite cut_key.
  - change (strip "firewall.@" ("network.wan." +:+ k)) with (@None string). by rewrite strip_app.
  - destruct Hv as [Hk _]. change (strip "firewall.@" ("network.wan." +:+ k +:+ "=" +:+ v)) with (@None string). rewrite strip_app.
    cbn [mbind option_bind]. change ("=" +:+ v) with (String "="%char v). by rewrite cut_key.
  - destruct Hv as [Hk _]. rewrite strip_app. cbn [mbind option_bind]. change ("=" +:+ v) with (String "="%char v). by rewrite cut_key.
  - rewrite strip_app. cbn [mbind option_bind]. change ("=" +:+ v) with (String "="%char v). by rewrite cut_key.
  - change (strip "firewall.@" ("dhcp.lan.ignore=" +:+ v)) with (@None string). cbv iota.
    change (strip "network.wan." ("dhcp.lan.ignore=" +:+ v)) with (@None string). by rewrite strip_app.
  - change (strip "firewall.@" ("snort.snort.enabled=" +:+ v)) with (@None string). cbv iota.
    change (strip "network.wan." ("snort.snort.enabled=" +:+ v)) with (@None string). cbv iota.
    change (strip "dhcp.lan.ignore=" ("snort.snort.enabled=" +:+ v)) with (@None string). by rewrite strip_app.
Qed.

(** ** The box *)
Record simBox := mkSim { sb_committed : gmap string (list Section); sb_staged : gmap string (list Section) }.
Definition config (m : gmap string (list Section)) (c : string) : list Section := default [] (m !! c).
Definition sections_ok (l : list Section) : bool :=
  bool_decide (NoDup (map s_name l)) && forallb (λ s, bool_decide (map_Forall (λ k _, HasPrefix k "." = false) (s_opts s))) l.
Definition configs_ok (m : gmap string (list Section)) : bool := bool_decide (map_Forall (λ _ l, sections_ok l = true) m).
Definition sim_ok (x : simBox) : bool := configs_ok (sb_committed x) && configs_ok (sb_staged x).
Definition Sim : Type := { x : simBox | sim_ok x = true }.

Definition run_edit (e : Edit) (l : list Section) : list Section :=
  match e with
  | DeleteLast typ => on_last (of_type typ) (λ _, []) l
  | AddSection typ => l ++ [mkSec (fresh (map s_name l)) typ ∅]
  | SetLast typ k v => on_last (of_type typ) (λ s, [set_opt k (OStr v) s]) l
  | DeleteWan k => on_named "wan" (del_opt k) l
  | SetWan k v => on_named "wan" (set_opt k (OStr v)) l
  | DhcpAdd k v => dnsmasq_opt k (λ l, l ++ [v]) l
  | DhcpDel k v => dnsmasq_opt k (filter (λ x, x ≠ v)) l
  | SetIgnore v => on_named "lan" (set_opt "ignore" (OStr v)) l
  | SetSnort v => on_named "snort" (set_opt "enabled" (OStr v)) l
  end.
Lemma run_edit_effect e l : effect e l (run_edit e l).
Proof. destruct e; try done. eexists. split; [|done]. apply infinite_is_fresh. Qed.

Definition bad_argument : error := errors_New "uci: Invalid argument".
Definition stage (c : string) (l : list Section) (x : simBox) : simBox := mkSim (sb_committed x) (<[c := l]> (sb_staged x)).
Definition uci_step (rest : list string) (x : simBox) : result string * simBox :=
  match parse_edit rest with
  | Some e => (Ok EmptyString, stage (config_of e) (run_edit e (config (sb_staged x) (config_of e))) x)
  | None =>
      match rest with
      | [v; c] => if String.eqb v "commit"
                  then (Ok EmptyString, mkSim (<[c := config (sb_staged x) c]> (sb_committed x)) (sb_staged x)) else (Fail bad_argument, x)
      | [q; v; c] => if String.eqb q "-q" && String.eqb v "revert" then (Ok EmptyString, stage c (config (sb_committed x) c) x)
                     else (Fail bad_argument, x)
      | _ => (Fail bad_argument, x)
      end
  end.
(** The argument of ubus's get: a configuration, perhaps a section of it. *)
Definition parse_get (arg : string) : option (string * option string) :=
  r ← strip ("{" +:+ quote "config" +:+ ":" +:+ dquote) arg;
  '(c, r) ← cut_at (char 34) r;
  if String.eqb r "}" then Some (c, None)
  else r ← strip ("," +:+ quote "section" +:+ ":" +:+ dquote) r; '(s, _) ← cut_at (char 34) r; Some (c, Some s).
Definition find_section (sec : string) (l : list Section) : option (nat * Section) :=
  list_find (λ s, s_name s = sec) l.
Definition ubus_answer (arg : string) (x : simBox) : result string :=
  match parse_get arg with
  | Some (c, None) => match config (sb_committed x) c with
                      | [] => Fail (errors_New "Command failed: Not found")
                      | l => Ok (to_text (values_of l))
                      end
  | Some (c, Some sec) => match find_section sec (config (sb_committed x) c) with
                          | Some (i, s) => Ok (to_text (section_values i s))
                          | None => Fail (errors_New "Command failed: Not found")
                          end
  | None => Fail bad_argument
  end.
Definition sim_step (cmd : list string) (x : simBox) : result string * simBox :=
  match cmd with
  | [] => (Fail bad_argument, x)
  | u :: rest =>
      if String.eqb u "ubus" then (match rest with [_; _; _; arg] => ubus_answer arg x | _ => Fail bad_argument end, x)
      else if String.eqb u "uci" then uci_step rest x
      else (Ok EmptyString, x)
  end.
Definition sim_run (t : nat) (cmd : list string) (b : Sim) : result string * Sim :=
  let '(r, x) := sim_step cmd (proj1_sig b) in
  match bool_dec (sim_ok x) true with
  | left p => (r, exist _ x p)
  | right _ => (Fail bad_argument, b)
  end.
#[export] Instance Sim_uci : Uci Sim := {|
  u_committed := λ c b, config (sb_committed (proj1_sig b)) c;
  u_staged := λ c b, config (sb_staged (proj1_sig b)) c;
  u_run := sim_run;
  u_json := of_text;
  u_json1 := of_text
|}.

(** ** It keeps the laws *)
Lemma config_insert c c' l m : config (<[c := l]> m) c' = if decide (c = c') then l else config m c'.
Proof. unfold config. destruct (decide (c = c')) as [->|]; [by rewrite lookup_insert_eq|by rewrite lookup_insert_ne]. Qed.
Lemma sim_run_inv t cmd b r b' : sim_run t cmd b = (r, b') →
  sim_step cmd (proj1_sig b) = (r, proj1_sig b') ∨ r = Fail bad_argument ∧ b' = b.
Proof.
  unfold sim_run. destruct (sim_step cmd (proj1_sig b)) as [r0 x]. destruct (bool_dec (sim_ok x) true); intros [= <- <-]; auto.
Qed.
Lemma sim_untouched c (b b' : Sim) : proj1_sig b' = proj1_sig b → untouched c b b'.
Proof. intros E. unfold untouched. cbn. by rewrite E. Qed.
Lemma sim_only_staged c l (b b' : Sim) : proj1_sig b' = stage c l (proj1_sig b) →
  only c b b' ∧ u_committed c b' = u_committed c b ∧ u_staged c b' = l.
Proof.
  intros E. unfold only, untouched. cbn. rewrite E. cbn. split; [|split; [done|]].
  - intros c' Hne. rewrite config_insert. by rewrite decide_False by congruence.
  - rewrite config_insert. by rewrite decide_True.
Qed.
Lemma sections_ok_config m c : configs_ok m = true → sections_ok (config m c) = true.
Proof. intros Hm%bool_decide_eq_true. unfold config. destruct (m !! c) as [l|] eqn:E; [|done]. by apply (Hm c). Qed.
Lemma sim_sections_ok (b : Sim) c : sections_ok (u_committed c b) = true ∧ sections_ok (u_staged c b) = true.
Proof. destruct b as [x Hx]. destruct (proj1 (andb_true_iff _ _) Hx) as [H1 H2]. split; by apply sections_ok_config. Qed.
Lemma sections_ok_spec l : sections_ok l = true ↔ NoDup (map s_name l) ∧ Forall dotless l.
Proof.
  unfold sections_ok. rewrite andb_true_iff, bool_decide_eq_true, forallb_forall. rewrite Forall_forall. split; (intros [Hn Hf]; split; [done|]).
  - intros s Hs k [o Ho]. apply list_elem_of_In, Hf in Hs. apply bool_decide_eq_true in Hs. by apply (Hs k o).
  - intros s Hs%list_elem_of_In. apply bool_decide_eq_true. intros k o Ho. apply (Hf s Hs). eauto.
Qed.

Lemma dquote_not_key : key_char (char 34) = false.
Proof. reflexivity. Qed.
Lemma quote_cut s r : quote s +:+ r = String (char 34) (s +:+ String (char 34) r).
Proof. unfold quote, dquote. cbn [String.append]. f_equal. by rewrite app_assoc_s. Qed.
Lemma open_config r : "{" +:+ quote "config" +:+ ":" +:+ String (char 34) r = ("{" +:+ quote "config" +:+ ":" +:+ dquote) +:+ r.
Proof. reflexivity. Qed.
Lemma open_section r : "," +:+ quote "section" +:+ ":" +:+ String (char 34) r = ("," +:+ quote "section" +:+ ":" +:+ dquote) +:+ r.
Proof. reflexivity. Qed.
Lemma parse_get_config c : is_key c = true →
  parse_get ("{" +:+ quote "config" +:+ ":" +:+ quote c +:+ "}") = Some (c, None).
Proof.
  intros Hc. unfold parse_get. rewrite (quote_cut c).
  rewrite open_config, strip_app. cbn [mbind option_bind]. by rewrite (cut_key _ _ _ Hc dquote_not_key).
Qed.
Lemma parse_get_section c s : is_key c = true → is_key s = true →
  parse_get ("{" +:+ quote "config" +:+ ":" +:+ quote c +:+ "," +:+ quote "section" +:+ ":" +:+ quote s +:+ "}") = Some (c, Some s).
Proof.
  intros Hc Hs. unfold parse_get. rewrite (quote_cut c), (quote_cut s).
  rewrite open_config, strip_app. cbn [mbind option_bind]. rewrite (cut_key _ _ _ Hc dquote_not_key). cbn [mbind option_bind].
  change (String.eqb ("," +:+ _) "}") with false. cbv iota.
  rewrite open_section, strip_app. cbn [mbind option_bind]. by rewrite (cut_key _ _ _ Hs dquote_not_key).
Qed.

Lemma sim_law_edit t e (b : Sim) r b' : valid e → sim_run t (argv e) b = (r, b') →
  only (config_of e) b b' ∧ u_committed (config_of e) b' = u_committed (config_of e) b ∧
  match r with
  | Ok _ => effect e (u_staged (config_of e) b) (u_staged (config_of e) b')
  | Fail _ => u_staged (config_of e) b' = u_staged (config_of e) b
  end.
Proof.
  intros Hv [E|[-> ->]]%sim_run_inv; [|by split]. destruct (parse_argv e Hv) as (rest & Ha & Hp). rewrite Ha in E.
  cbn [sim_step String.eqb Ascii.eqb Bool.eqb] in E. unfold uci_step in E. rewrite Hp in E. injection E as <- E. symmetry in E.
  apply sim_only_staged in E as (Ho & Hc & Hs). split; [done|]. split; [done|]. rewrite Hs. apply run_edit_effect.
Qed.
Lemma sim_law_ubus t cfg (b : Sim) r b' : is_key cfg = true → sim_run t (ubus_get cfg) b = (r, b') → u_staged cfg b = u_committed cfg b →
  match r with
  | Ok out => of_text out = Ok (values_of (u_committed cfg b))
  | Fail e => isUbusNotFound e = true → u_committed cfg b = []
  end.
Proof.
  intros Hk [E|[-> ->]]%sim_run_inv _; [|done].
  assert (r = ubus_answer ("{" +:+ quote "config" +:+ ":" +:+ quote cfg +:+ "}") (proj1_sig b)) as -> by (symmetry; exact (f_equal fst E)).
  unfold ubus_answer. rewrite parse_get_config by done. cbn. destruct (config (sb_committed (proj1_sig b)) cfg) as [|s l]; [done|]. apply of_to_text.
Qed.
Lemma sim_law_ubus1 t cfg sec (b : Sim) r b' : is_key cfg = true → is_key sec = true → sim_run t (ubus_get1 cfg sec) b = (r, b') →
  u_staged cfg b = u_committed cfg b →
  match r with
  | Ok out => ∃ i s, u_committed cfg b !! i = Some s ∧ s_name s = sec ∧ of_text out = Ok (section_values i s)
  | Fail e => isUbusNotFound e = true → ∀ s, s ∈ u_committed cfg b → s_name s ≠ sec
  end.
Proof.
  intros Hk Hk' [E|[-> ->]]%sim_run_inv _; [|done].
  assert (r = ubus_answer ("{" +:+ quote "config" +:+ ":" +:+ quote cfg +:+ "," +:+ quote "section" +:+ ":" +:+ quote sec +:+ "}") (proj1_sig b)) as ->
    by (symmetry; exact (f_equal fst E)).
  unfold ubus_answer. rewrite parse_get_section by done. unfold find_section. cbn [u_committed Sim_uci].
  destruct (list_find _ _) as [[i s]|] eqn:Ef.
  - apply list_find_Some in Ef as (Hi & Hn & _). exists i, s. split; [done|]. split; [done|]. apply of_to_text.
  - intros _ s Hs. apply list_find_None in Ef. by eapply Forall_forall in Ef.
Qed.
#[export] Instance fw_sim_laws : UciLaws Sim.
Proof.
  split.
  - intros c b. destruct (sim_sections_ok b c) as [[H1 _]%sections_ok_spec [H2 _]%sections_ok_spec]. done.
  - intros c b s k Hs. destruct (sim_sections_ok b c) as [[_ H]%sections_ok_spec _]. eapply Forall_forall in H; [|exact Hs]. apply H.
  - apply sim_law_edit.
  - intros t cfg b r b' [E|[-> ->]]%sim_run_inv; [|by split]. cbn [sim_step revert uci_step parse_edit String.eqb Ascii.eqb Bool.eqb andb] in E.
    injection E as <- E. symmetry in E. by apply sim_only_staged in E as (Ho & Hc & Hs).
  - intros t cfg b r b' [E|[-> ->]]%sim_run_inv; [|split; [done|by left]].
    cbn [sim_step commit uci_step parse_edit String.eqb Ascii.eqb Bool.eqb andb] in E. injection E as <- E. symmetry in E.
    unfold only, untouched. cbn. rewrite E. cbn. rewrite config_insert, decide_True by done. split; [|done].
    intros c Hne. by rewrite config_insert, decide_False by congruence.
  - intros t cmd b r b' c Hh [E|[-> ->]]%sim_run_inv; [|done]. apply sim_untouched. destruct cmd as [|u rest]; [done|]. cbn in Hh, E.
    destruct (String.eqb_spec u "ubus") as [->|Hu]; [by injection E|]. cbn in Hh. apply HasPrefix_spec in Hh as (r0 & ->).
    change (String.eqb ("/etc/init.d/" +:+ r0) "uci") with false in E. by injection E.
  - apply sim_law_ubus.
  - apply sim_law_ubus1.
Qed.

(** Deleting an option never fails here. *)
Lemma delete_keeps_ok k l : sections_ok l = true → sections_ok (on_named "wan" (del_opt k) l) = true.
Proof.
  rewrite !sections_ok_spec. intros [Hn Hd]. split.
  - unfold on_named. rewrite map_map, (map_ext _ s_name); [done|]. intros s. by destruct (String.eqb (s_name s) "wan").
  - apply Forall_map. eapply Forall_impl; [exact Hd|]. intros s Hs. cbn. destruct (String.eqb (s_name s) "wan"); [|done].
    intros k' [o Ho]. cbn in Ho. apply lookup_delete_Some in Ho as [_ Ho]. apply Hs. eauto.
Qed.
Lemma stage_ok c l x : sim_ok x = true → sections_ok l = true → sim_ok (stage c l x) = true.
Proof.
  unfold sim_ok, stage. cbn. intros [-> H2]%andb_true_iff Hl. cbn. apply bool_decide_eq_true in H2. apply bool_decide_eq_true.
  by apply map_Forall_insert_2.
Qed.
Lemma sim_deletes t k (b : Sim) x b' : is_key k = true → sim_run t (delete_wan k) b = (Fail x, b') → False.
Proof.
  intros Hk. unfold sim_run. destruct (parse_argv (DeleteWan k) Hk) as (rest & Ha & Hp). cbn [argv] in Ha. rewrite Ha.
  cbn [sim_step String.eqb Ascii.eqb Bool.eqb]. unfold uci_step. rewrite Hp. cbn [config_of run_edit].
  destruct (bool_dec _ _) as [|Hno]; [done|]. intros _. apply Hno, stage_ok; [apply (proj2_sig b)|].
  apply delete_keeps_ok. apply (sim_sections_ok b "network").
Qed.

(** ubus fails only for what is not there. *)
Lemma sim_run_same t cmd (b : Sim) r : sim_step cmd (proj1_sig b) = (r, proj1_sig b) → fst (sim_run t cmd b) = r.
Proof. intros E. unfold sim_run. rewrite E. destruct (bool_dec _ _) as [|Hno]; [done|]. destruct Hno. apply (proj2_sig b). Qed.
Lemma sim_ubus_missing t cfg (b : Sim) e b' : is_key cfg = true → sim_run t (ubus_get cfg) b = (Fail e, b') → isUbusNotFound e = true.
Proof.
  intros Hk E%(f_equal fst). rewrite (sim_run_same _ _ _ (ubus_answer ("{" +:+ quote "config" +:+ ":" +:+ quote cfg +:+ "}") (proj1_sig b))) in E by done.
  unfold ubus_answer in E. rewrite parse_get_config in E by done. destruct (config _ _); [|done]. by injection E as <-.
Qed.
Lemma sim_ubus1_missing t cfg sec (b : Sim) e b' : is_key cfg = true → is_key sec = true →
  sim_run t (ubus_get1 cfg sec) b = (Fail e, b') → isUbusNotFound e = true.
Proof.
  intros Hk Hk' E%(f_equal fst).
  rewrite (sim_run_same _ _ _ (ubus_answer ("{" +:+ quote "config" +:+ ":" +:+ quote cfg +:+ "," +:+ quote "section" +:+ ":" +:+ quote sec +:+ "}")
    (proj1_sig b))) in E by done.
  unfold ubus_answer in E. rewrite parse_get_section in E by done. destruct (find_section _ _) as [[]|]; [done|]. by injection E as <-.
Qed.

(** ** A household's firewall *)
Definition home_configs : gmap string (list Section) := list_to_map
  [("firewall", [mkSec "cfg01" "zone" {[ "name" := OStr "lan" ]};
                 mkSec "cfg02" "redirect" (list_to_map [("name", OStr "by hand"); ("target", OStr "DNAT")]);
                 mkSec "cfg03" "rule" {[ "name" := OStr "ping" ]}]);
   ("network", [mkSec "lan" "interface" {[ "proto" := OStr "static" ]};
                mkSec "wan" "interface" (list_to_map [("proto", OStr "dhcp"); ("device", OStr "eth1")])]);
   ("dhcp", [mkSec "cfg04" "dnsmasq" {[ "server" := OList ["1.1.1.1"] ]}; mkSec "lan" "dhcp" {[ "ignore" := OStr "0" ]}]);
   ("snort", [mkSec "snort" "snort" {[ "enabled" := OStr "1" ]}])].
Definition home_box : Sim := exist _ (mkSim home_configs home_configs) eq_refl.
(** Its surroundings: the agent dies at [dies], if at all; dnsmasq restarts and announces
    the forward. *)
Definition home_env (dies : option nat) : UciEnv := {|
  e_dies := λ t, bool_decide (dies = Some t);
  e_path := "/etc/rasputin/openwrt/managed.json";
  e_load := λ _, None;
  e_save := λ _, None;
  e_log := λ _, Ok (["daemon.info dnsmasq[811]: read /etc/hosts - 4 names"; "daemon.info dnsmasq[902]: started, version 2.90 cachesize 1000";
                     "daemon.info dnsmasq[902]: using nameserver 192.168.1.2#53 for domain home.internal "], TimedOut);
  e_lookup := λ _ _, Ok [(Four, v4_prefix ++ [192; 168; 1; 2])];
  e_hash := λ _, Ok "3f5a"
|}.
