(* ===== verification/FirewallPlan.v ===== *)
(** * What the control plane may ask of a firewall

    Everything [Compile] emits is the state of a plan ([plan_state]): the
    agent's strict reader takes it and reads that plan back, its option names
    are names uci takes, its ports are ports, and it has one section for each
    enabled intent, in the intents' order.  The converse of what an apply does
    with such a plan is in FirewallSync. *)
From Stdlib Require Import Ascii String.
From S2P Require Import Prelude GoStrings GoNet GoSort Crash FirewallIntent FirewallUci FirewallBox.
Open Scope Z_scope.
#[local] Arguments String.append : simpl nomatch.
#[local] Arguments HasPrefix : simpl never.

(** ** The state of a plan *)
Definition plan_sections (plan : applyPlan) : list uciSection :=
  map (mkUS "redirect") (pl_redirects plan) ++ map (mkUS "rule") (pl_rules plan).
Definition plan_server (plan : applyPlan) : option string :=
  if String.eqb (pl_dnsForward plan) EmptyString then None else Some (pl_dnsForward plan).
#[local] Abbreviation strings := (fmap (M := gmap string) AStr).
Definition plan_state (plan : applyPlan) : State :=
  state_of (plan_sections plan) (strings <$> pl_wan plan) (plan_server plan).

Lemma sections_of_app typ l1 l2 : sections_of typ (l1 ++ l2) = sections_of typ l1 ++ sections_of typ l2.
Proof. unfold sections_of. by rewrite filter_app, map_app. Qed.
Lemma sections_of_same typ (ms : list (gmap string string)) : sections_of typ (map (mkUS typ) ms) = map strings ms.
Proof. unfold sections_of. induction ms as [|m ms IH]; [done|]. cbn [map]. rewrite filter_cons_True by done. cbn [map]. by rewrite IH. Qed.
Lemma sections_of_none typ (l : list uciSection) : Forall (λ s, us_typ s ≠ typ) l → sections_of typ l = [].
Proof. unfold sections_of. induction 1 as [|s l Hs _ IH]; [done|]. by rewrite filter_cons_False. Qed.
Lemma plan_sections_of plan :
  sections_of "redirect" (plan_sections plan) = map strings (pl_redirects plan) ∧
  sections_of "rule" (plan_sections plan) = map strings (pl_rules plan).
Proof.
  unfold plan_sections. rewrite !sections_of_app, !sections_of_same.
  rewrite (sections_of_none "redirect"), (sections_of_none "rule"), app_nil_r; [done|..]; by apply Forall_map, Forall_true.
Qed.

Lemma stringMap_strings (m : gmap string string) : stringMap (AStr <$> m) = Ok m.
Proof.
  unfold stringMap. rewrite filter_none, map_to_list_empty.
  - f_equal. apply map_eq. intros k. rewrite lookup_omap, lookup_fmap. by destruct (m !! k).
  - intros k v. rewrite lookup_fmap. by destruct (m !! k); cbn; intros [= <-].
Qed.
Lemma section_entries_strings (ms : list (gmap string string)) n : section_entries n (AMap <$> map strings ms) = Ok ms.
Proof. revert n. induction ms as [|m ms IH]; intros n; [done|]. cbn. rewrite stringMap_strings. cbn in IH. by rewrite IH. Qed.
Lemma only_keys_ok allowed what (m : State) : (∀ k, is_Some (m !! k) → k ∈ allowed) → only_keys allowed what m = Ok tt.
Proof.
  intros Hm. unfold only_keys. rewrite filter_none, map_to_list_empty; [done|]. cbn. intros k v Hk Hn. apply Hn, Hm. eauto.
Qed.

Lemma state_of_lookup sections wan server k :
  state_of sections wan server !! k =
  if String.eqb k "dhcp" then (λ v, AMap {[ "server" := AStr v ]}) <$> server
  else if String.eqb k "network" then (λ w, AMap {[ "wan" := AMap w ]}) <$> wan
  else if String.eqb k "firewall" then Some (firewall_part (sections_of "redirect" sections) (sections_of "rule" sections))
  else None.
Proof.
  unfold state_of. destruct (String.eqb_spec k "dhcp") as [->|H1].
  { destruct server, wan; cbn; by rewrite ?lookup_insert_eq, ?lookup_insert_ne by done. }
  assert (∀ s : State, match server with None => s | Some v => <["dhcp" := AMap {[ "server" := AStr v ]}]> s end !! k = s !! k) as ->.
  { intros s. destruct server; [by rewrite lookup_insert_ne by congruence|done]. }
  destruct (String.eqb_spec k "network") as [->|H2].
  { destruct wan; cbn; by rewrite ?lookup_insert_eq, ?lookup_singleton_ne by done. }
  assert (∀ s : State, match wan with None => s | Some v => <["network" := AMap {[ "wan" := AMap v ]}]> s end !! k = s !! k) as ->.
  { intros s. destruct wan; [by rewrite lookup_insert_ne by congruence|done]. }
  destruct (String.eqb_spec k "firewall") as [->|H3]; [by rewrite lookup_singleton_eq|by rewrite lookup_singleton_ne by congruence].
Qed.

Lemma only_singleton k what v : only_keys [k] what ({[ k := v ]} : State) = Ok tt.
Proof. apply only_keys_ok. intros k' [v' [<- _]%lookup_singleton_Some]. by left. Qed.
Lemma plan_wan_state plan : plan_wan (plan_state plan) = Ok (pl_wan plan).
Proof.
  unfold plan_wan, plan_state. rewrite state_of_lookup. cbn [String.eqb Ascii.eqb Bool.eqb].
  destruct (pl_wan plan) as [w|]; [|done]. cbn [fmap option_fmap option_map]. rewrite only_singleton. cbn [bindRes].
  rewrite lookup_singleton_eq. by rewrite stringMap_strings.
Qed.
Lemma plan_dhcp_state plan : plan_dhcp (plan_state plan) = Ok (pl_dnsForward plan).
Proof.
  unfold plan_dhcp, plan_state. rewrite state_of_lookup. cbn [String.eqb Ascii.eqb Bool.eqb].
  unfold plan_server. destruct (String.eqb_spec (pl_dnsForward plan) EmptyString) as [E|E]; [by rewrite E|].
  cbn [fmap option_fmap option_map]. rewrite only_singleton. cbn [bindRes].
  replace ({[ "server" := AStr (pl_dnsForward plan) ]} : State) with (strings {[ "server" := pl_dnsForward plan ]})
    by (by rewrite map_fmap_singleton).
  rewrite stringMap_strings. cbn [with_pre bindRes]. rewrite lookup_singleton_eq. cbn. apply String.eqb_neq in E. by rewrite E.
Qed.

(** The strict reader reads a plan back from its state. *)
Lemma planFromState_plan_state plan : planFromState (plan_state plan) = Ok plan.
Proof.
  unfold planFromState. rewrite plan_wan_state, plan_dhcp_state, only_keys_ok; cbn [bindRes].
  2: { intros k [v Hv]. unfold plan_state in Hv. rewrite state_of_lookup in Hv.
       destruct (String.eqb_spec k "dhcp") as [->|]; [set_solver|]. destruct (String.eqb_spec k "network") as [->|]; [set_solver|].
       destruct (String.eqb_spec k "firewall") as [->|]; [set_solver|done]. }
  unfold plan_state. rewrite state_of_lookup. cbn [String.eqb Ascii.eqb Bool.eqb].
  destruct (plan_sections_of plan) as [-> ->]. unfold firewall_part.
  rewrite only_keys_ok; cbn [bindRes].
  2: { intros k. cbn [list_to_map foldr fst snd]. destruct (decide (k = "redirect")) as [->|]; [set_solver|].
       rewrite lookup_insert_ne by congruence. destruct (decide (k = "rule")) as [->|]; [set_solver|].
       rewrite lookup_insert_ne, lookup_empty by congruence. by intros []. }
  cbn [list_to_map foldr fst snd]. rewrite lookup_insert_eq, lookup_insert_ne, lookup_insert_eq by done.
  unfold sectionList. rewrite !section_entries_strings. cbn. by destruct plan.
Qed.

(** ** What Compile emits *)
Lemma pretty_go_nonempty x s : s ≠ EmptyString → pretty_N_go x s ≠ EmptyString.
Proof.
  revert s. induction (N.lt_wf_0 x) as [x _ IH]; intros s Hs. destruct (decide (x = 0%N)) as [->|Hx]; [by rewrite pretty_N_go_0|].
  rewrite pretty_N_go_step by lia. apply IH; [|done]. apply N.div_lt; lia.
Qed.
Lemma pretty_port_nonempty n : 1 ≤ n → pretty n ≠ EmptyString.
Proof.
  intros Hn. destruct n as [|p|p]; [done| |lia]. change (pretty_N_go (N.pos p) EmptyString ≠ EmptyString).
  rewrite pretty_N_go_step by lia. by apply pretty_go_nonempty.
Qed.

(** An option as uci takes it.  Only a name can be empty: an intent renamed to
    nothing. *)
Definition option_ok (k v : string) : Prop := is_key k = true ∧ (v ≠ EmptyString ∨ k = "name").
Definition options_ok (m : gmap string string) : Prop := map_Forall option_ok m.
Definition put_string (k v : string) (m : gmap string string) : gmap string string :=
  if String.eqb v EmptyString then m else <[k := v]> m.
Lemma put_unless_empty_strings k v (m : gmap string string) : put_unless_empty k v (strings m) = strings (put_string k v m).
Proof. unfold put_unless_empty, put_string. destruct (String.eqb v EmptyString); [done|]. by rewrite fmap_insert. Qed.
Lemma options_ok_insert k v m : option_ok k v → options_ok m → options_ok (<[k := v]> m).
Proof. intros. by apply map_Forall_insert_2. Qed.
Lemma options_ok_put k v m : is_key k = true → options_ok m → options_ok (put_string k v m).
Proof.
  intros Hk Hm. unfold put_string. destruct (String.eqb_spec v EmptyString); [done|]. apply options_ok_insert; [|done]. split; [done|by left].
Qed.
Lemma put_string_ne k v m k' : k ≠ k' → put_string k v m !! k' = m !! k'.
Proof. intros Hne. unfold put_string. destruct (String.eqb v EmptyString); [done|]. by rewrite lookup_insert_ne. Qed.

(** An address the rule for IPv4 lets through. *)
Definition not_ipv6 (val : string) : Prop :=
  match (match ParseIP val with Some ip => Some ip | None => ParseCIDR val end) with Some ip => To4 ip = true | None => True end.
Lemma rejectIPv6_ok field val u : val ≠ EmptyString → rejectIPv6 field val = Ok u → not_ipv6 val.
Proof.
  intros Hne%String.eqb_neq. unfold rejectIPv6, not_ipv6. rewrite Hne.
  destruct (match ParseIP val with Some ip => Some ip | None => ParseCIDR val end) as [ip|]; [|done]. by destruct (To4 ip).
Qed.

Definition port (n : Z) : Prop := 1 ≤ n ≤ 65535.

Section Compiled.
Context {SC : SpecCodec}.

Definition redirect_for (i : Intent) (m : gmap string string) : Prop :=
  ∃ spec, json_PortForward (in_Spec i) = Ok spec ∧ options_ok m ∧
    port (pf_WanPort spec) ∧ port (pf_LanPort spec) ∧ not_ipv6 (pf_LanHost spec) ∧
    m !! "name" = Some (in_Name i) ∧ m !! "target" = Some "DNAT" ∧ m !! "src" = Some "wan" ∧ m !! "dest" = Some "lan" ∧
    m !! "src_dport" = Some (pretty (pf_WanPort spec)) ∧ m !! "dest_port" = Some (pretty (pf_LanPort spec)) ∧
    m !! "dest_ip" = Some (pf_LanHost spec) ∧ (∃ p, m !! "proto" = Some p ∧ p ∈ ["tcp"; "udp"; "tcp udp"]).
Lemma compilePortForward_typed i r : compilePortForward i = Ok r → ∃ m, r = strings m ∧ redirect_for i m.
Proof.
  unfold compilePortForward. destruct (json_PortForward (in_Spec i)) as [spec|e] eqn:Ej; [|done].
  destruct ((pf_WanPort spec <? 1) || (65535 <? pf_WanPort spec)) eqn:E1; [done|].
  destruct ((pf_LanPort spec <? 1) || (65535 <? pf_LanPort spec)) eqn:E2; [done|].
  apply orb_false_iff in E1 as [E1 E1'], E2 as [E2 E2']. rewrite Z.ltb_ge in *.
  destruct (String.eqb_spec (pf_LanHost spec) EmptyString) as [|Hh]; [done|].
  destruct (rejectIPv6 "lanHost" (pf_LanHost spec)) as [[]|e] eqn:E6; [|done]. apply rejectIPv6_ok in E6; [|done].
  set (protocol := if String.eqb (pf_Protocol spec) EmptyString then "tcp" else pf_Protocol spec).
  destruct (negb _) eqn:Ep; [done|]. apply negb_false_iff, bool_decide_eq_true in Ep. intros [= <-].
  exists (put_string "_comment" (pf_Comment spec) (list_to_map
    [("name", in_Name i); ("src", "wan"); ("src_dport", pretty (pf_WanPort spec)); ("dest", "lan");
     ("dest_ip", pf_LanHost spec); ("dest_port", pretty (pf_LanPort spec)); ("proto", ucProto protocol); ("target", "DNAT")])).
  split; [by rewrite <- put_unless_empty_strings, <- list_to_map_fmap|].
  assert (Hproto : ucProto protocol ∈ ["tcp"; "udp"; "tcp udp"]).
  { clearbody protocol. unfold ucProto. rewrite !elem_of_cons in Ep. destruct Ep as [->|[->|[->|[]%not_elem_of_nil]]]; set_solver. }
  exists spec. split; [done|]. split.
  { apply options_ok_put; [done|]. cbn [list_to_map foldr fst snd].
    repeat (apply options_ok_insert; [split; [done|]|]); [by right|..|apply map_Forall_empty]; left; try done.
    1, 2: apply pretty_port_nonempty; lia. intros E. rewrite E in Hproto. set_solver. }
  rewrite !put_string_ne by done. cbn [list_to_map foldr fst snd].
  repeat (first [rewrite lookup_insert_eq|rewrite lookup_insert_ne by done]).
  unfold port. split_and!; try done. eauto.
Qed.
(** An option left out when its field is empty. *)
Definition written (v : string) : option string := if decide (v = EmptyString) then None else Some v.
(** Every option of a rule.  The ports are the intent's own text: nothing here
    says that they are in range, or ports at all. *)
Definition rule_for (i : Intent) (m : gmap string string) : Prop :=
  ∃ spec, json_FirewallRule (in_Spec i) = Ok spec ∧ options_ok m ∧
    m !! "name" = Some (in_Name i) ∧ m !! "src" = Some (fr_Src spec) ∧
    m !! "target" = Some (ToUpper (fr_Target spec)) ∧ ToUpper (fr_Target spec) ∈ ["ACCEPT"; "REJECT"; "DROP"] ∧
    m !! "dest" = written (fr_Dest spec) ∧
    m !! "src_ip" = written (fr_SrcIP spec) ∧ (fr_SrcIP spec ≠ EmptyString → not_ipv6 (fr_SrcIP spec)) ∧
    m !! "dest_ip" = written (fr_DestIP spec) ∧ (fr_DestIP spec ≠ EmptyString → not_ipv6 (fr_DestIP spec)) ∧
    m !! "src_port" = written (fr_SrcPort spec) ∧ m !! "dest_port" = written (fr_DestPort spec) ∧
    m !! "proto" = Some (ucRuleProto (fr_Proto spec)) ∧ m !! "log" = (if fr_Log spec then Some "1" else None).
Lemma put_address_typed field k val (m : gmap string string) r : put_address field k val (strings m) = Ok r →
  r = strings (put_string k val m) ∧ (val ≠ EmptyString → not_ipv6 val).
Proof.
  unfold put_address, put_string. destruct (String.eqb_spec val EmptyString) as [E|E]; [by intros [= <-]|].
  destruct (rejectIPv6 field val) eqn:Er; [|done]. intros [= <-]. rewrite fmap_insert. split; [done|]. intros _. by eapply rejectIPv6_ok.
Qed.
Lemma put_string_eq k v m : m !! k = None → put_string k v m !! k = written v.
Proof.
  intros Hm. unfold put_string, written. destruct (String.eqb_spec v EmptyString); [by rewrite decide_True|].
  rewrite decide_False by done. apply lookup_insert_eq.
Qed.
Lemma ucRuleProto_nonempty p : ucRuleProto p ≠ EmptyString.
Proof.
  unfold ucRuleProto. destruct (String.eqb_spec p EmptyString); [done|]. cbn [orb]. destruct (String.eqb p "any"); [done|].
  destruct (String.eqb p "tcpudp"); [done|]. by destruct (String.eqb p "igmp").
Qed.
Definition rule_options (i : Intent) (spec : FirewallRuleSpec) : gmap string string :=
  let m := list_to_map [("name", in_Name i); ("src", fr_Src spec); ("target", ToUpper (fr_Target spec))] in
  let m := put_string "dest_ip" (fr_DestIP spec) (put_string "src_port" (fr_SrcPort spec)
             (put_string "src_ip" (fr_SrcIP spec) (put_string "dest" (fr_Dest spec) m))) in
  let m := <["proto" := ucRuleProto (fr_Proto spec)]> (put_string "dest_port" (fr_DestPort spec) m) in
  put_string "_comment" (fr_Comment spec) (if fr_Log spec then <["log" := "1"]> m else m).
Lemma rule_options_ok i spec : fr_Src spec ≠ EmptyString → ToUpper (fr_Target spec) ≠ EmptyString → options_ok (rule_options i spec).
Proof.
  intros Hs Ht. unfold rule_options. apply options_ok_put; [done|].
  assert (∀ m : gmap string string, options_ok m → options_ok (if fr_Log spec then <["log" := "1"]> m else m)) as Hlog.
  { intros m Hm. destruct (fr_Log spec); [|done]. apply options_ok_insert; [|done]. split; [done|by left]. }
  apply Hlog, options_ok_insert; [split; [done|left; apply ucRuleProto_nonempty]|].
  do 5 (apply options_ok_put; [done|]). cbn [list_to_map foldr fst snd].
  repeat (apply options_ok_insert; [split; [done|]|]); [by right|by left..|apply map_Forall_empty].
Qed.
#[local] Ltac look := cbn [list_to_map foldr fst snd];
  repeat first [rewrite put_string_ne by done | rewrite lookup_insert_ne by done | rewrite lookup_insert_eq | rewrite put_string_eq].
Lemma rule_options_for i spec : json_FirewallRule (in_Spec i) = Ok spec → fr_Src spec ≠ EmptyString →
  ToUpper (fr_Target spec) ∈ ["ACCEPT"; "REJECT"; "DROP"] →
  (fr_SrcIP spec ≠ EmptyString → not_ipv6 (fr_SrcIP spec)) → (fr_DestIP spec ≠ EmptyString → not_ipv6 (fr_DestIP spec)) →
  rule_for i (rule_options i spec).
Proof.
  intros Hj Hs HT H1 H2. exists spec. split; [done|]. split.
  { apply rule_options_ok; [done|]. intros E. rewrite E in HT. set_solver. }
  unfold rule_options. destruct (fr_Log spec); split_and!; try done; by look.
Qed.
Lemma compileFirewallRule_typed i r : compileFirewallRule i = Ok r → ∃ m, r = strings m ∧ rule_for i m.
Proof.
  unfold compileFirewallRule. destruct (json_FirewallRule (in_Spec i)) as [spec|e] eqn:Ej; [|done].
  destruct (String.eqb_spec (fr_Src spec) EmptyString) as [|Hs]; [done|].
  destruct (String.eqb_spec (fr_Target spec) EmptyString) as [|Ht]; [done|].
  destruct (negb _) eqn:Et; [done|]. apply negb_false_iff, bool_decide_eq_true in Et.
  assert (HT : ToUpper (fr_Target spec) ∈ ["ACCEPT"; "REJECT"; "DROP"]).
  { rewrite !elem_of_cons in Et. destruct Et as [->|[->|[->|[]%not_elem_of_nil]]]; by apply (bool_decide_unpack _); vm_compute. }
  assert (list_to_map [("name", AStr (in_Name i)); ("src", AStr (fr_Src spec)); ("target", AStr (ToUpper (fr_Target spec)))]
    = strings (list_to_map [("name", in_Name i); ("src", fr_Src spec); ("target", ToUpper (fr_Target spec))])) as ->
    by (by rewrite <- list_to_map_fmap).
  rewrite put_unless_empty_strings.
  destruct (put_address "srcIp" _ _ _) as [r1|e] eqn:E1; [|done]. apply put_address_typed in E1 as [-> H1].
  rewrite put_unless_empty_strings. destruct (put_address "destIp" _ _ _) as [r2|e] eqn:E2; [|done]. apply put_address_typed in E2 as [-> H2].
  rewrite put_unless_empty_strings. intros [= <-]. exists (rule_options i spec). split.
  { unfold rule_options. rewrite <- (put_unless_empty_strings "_comment"). by destruct (fr_Log spec); rewrite ?fmap_insert. }
  by apply rule_options_for.
Qed.
(** The wan section: options of its protocol only.  Only a list of name servers
    can be empty. *)
Definition proto_keys (p : string) : list string := "proto" :: wanProtoKeys p ++ ["_comment"].
Definition wan_option (p k v : string) : Prop := k ∈ proto_keys p ∧ (v ≠ EmptyString ∨ k = "dns").
Definition wan_typed (w : gmap string string) : Prop :=
  ∃ p, w !! "proto" = Some p ∧ p ∈ ["none"; "dhcp"; "static"; "pppoe"] ∧ map_Forall (wan_option p) w.
Definition wan_for (o : option Intent) (secrets : gmap string string) (w : gmap string string) : Prop :=
  match o with
  | None => w = {[ "proto" := "none" ]}
  | Some i => ∃ spec, json_WANConfig (in_Spec i) = Ok spec ∧ w !! "proto" = Some (wc_Proto spec) ∧
                w !! "password" = if String.eqb (wc_Proto spec) "pppoe" then secrets !! in_ID i else None
  end.
Definition reveal_wan (r : State) : State := match r !! "password" with Some (ASecret p) => <["password" := AStr p]> r | _ => r end.

Lemma wan_option_put p k v m : k ∈ proto_keys p → map_Forall (wan_option p) m → map_Forall (wan_option p) (put_string k v m).
Proof.
  intros Hk Hm. unfold put_string. destruct (String.eqb_spec v EmptyString); [done|]. apply map_Forall_insert_2; [|done]. split; [done|by left].
Qed.
Lemma wan_option_proto p : p ≠ EmptyString → map_Forall (wan_option p) ({[ "proto" := p ]} : gmap string string).
Proof. intros Hp. apply map_Forall_singleton. split; [by left|by left]. Qed.
Lemma reveal_strings (m : gmap string string) : reveal_wan (strings m) = strings m.
Proof. unfold reveal_wan. rewrite lookup_fmap. by destruct (m !! "password"). Qed.
Lemma reveal_put k v (r : State) : k ≠ "password" → reveal_wan (put_unless_empty k v r) = put_unless_empty k v (reveal_wan r).
Proof.
  intros Hk. unfold reveal_wan, put_unless_empty. destruct (String.eqb v EmptyString); [done|].
  rewrite lookup_insert_ne by done. destruct (r !! "password") as [[]|]; try done. by rewrite insert_insert_ne.
Qed.

Lemma compileWANConfig_typed o secrets r : compileWANConfig o secrets = Ok r →
  ∃ w, reveal_wan r = strings w ∧ wan_typed w ∧ wan_for o secrets w.
Proof.
  unfold compileWANConfig. destruct o as [i|].
  2: { intros [= <-]. exists {[ "proto" := "none" ]}. split; [|split; [|done]].
       - rewrite <- map_fmap_singleton. apply reveal_strings.
       - exists "none". split; [done|]. split; [by left|]. by apply wan_option_proto. }
  destruct (json_WANConfig (in_Spec i)) as [spec|e] eqn:Ej; [|done]. unfold wan_for.
  assert (Hgo : ∀ w : gmap string string, wc_Proto spec ∈ ["none"; "dhcp"; "static"; "pppoe"] →
    w !! "proto" = Some (wc_Proto spec) → map_Forall (wan_option (wc_Proto spec)) w →
    w !! "password" = (if String.eqb (wc_Proto spec) "pppoe" then secrets !! in_ID i else None) →
    ∃ w', strings (put_string "_comment" (wc_Comment spec) w) = strings w' ∧ wan_typed w' ∧
      ∃ spec0, json_WANConfig (in_Spec i) = Ok spec0 ∧ w' !! "proto" = Some (wc_Proto spec0) ∧
        w' !! "password" = if String.eqb (wc_Proto spec0) "pppoe" then secrets !! in_ID i else None).
  { intros w Hin Hp Hf Hpw. exists (put_string "_comment" (wc_Comment spec) w). split; [done|]. split.
    - exists (wc_Proto spec). rewrite put_string_ne by done. split; [done|]. split; [done|]. apply wan_option_put; [|done].
      unfold proto_keys. right. apply elem_of_app. right. by left.
    - exists spec. by rewrite !put_string_ne by done. }
  destruct (String.eqb_spec (wc_Proto spec) "dhcp") as [Ed|Ed].
  { intros [= <-]. rewrite reveal_put by done. rewrite <- map_fmap_singleton, put_unless_empty_strings, reveal_strings, put_unless_empty_strings.
    apply Hgo; [set_solver|..]; rewrite ?put_string_ne by done; [by rewrite Ed|..|by rewrite Ed].
    apply wan_option_put; rewrite Ed; [set_solver|by apply wan_option_proto]. }
  destruct (String.eqb_spec (wc_Proto spec) "static") as [Es|Es].
  { destruct (String.eqb_spec (wc_IP spec) EmptyString); [done|]. destruct (String.eqb_spec (wc_Gateway spec) EmptyString); [done|].
    intros [= <-]. rewrite reveal_put by done.
    set (w0 := <["gateway" := wc_Gateway spec]> (<["ipaddr" := wc_IP spec]> {["proto" := "static"]}) : gmap string string).
    set (w := if bool_decide (wc_DNS spec = []) then w0 else <["dns" := Join (wc_DNS spec) " "]> w0).
    replace (if bool_decide (wc_DNS spec = []) then _ else _) with (strings w).
    2: { unfold w, w0. destruct (bool_decide _); by rewrite !fmap_insert, map_fmap_singleton. }
    rewrite reveal_strings, put_unless_empty_strings.
    assert (Hw0 : map_Forall (wan_option "static") w0).
    { do 2 (apply map_Forall_insert_2; [split; [set_solver|by left]|]). by apply wan_option_proto. }
    apply Hgo; unfold w; [set_solver|..]; rewrite ?Es; [by destruct (bool_decide _)|..|by destruct (bool_decide _)].
    destruct (bool_decide _); [done|]. apply map_Forall_insert_2; [split; [set_solver|by right]|done]. }
  destruct (String.eqb_spec (wc_Proto spec) "pppoe") as [Ep|Ep].
  { destruct (String.eqb_spec (wc_Username spec) EmptyString); [done|].
    destruct (String.eqb_spec (default EmptyString (secrets !! in_ID i)) EmptyString) as [|Hpw]; [done|].
    destruct (secrets !! in_ID i) as [p|] eqn:Esec; [cbn in Hpw|done]. cbn [default]. intros [= <-]. rewrite !reveal_put by done.
    unfold reveal_wan. rewrite lookup_insert_eq, insert_insert_eq.
    set (w0 := <["password" := p]> (<["username" := wc_Username spec]> {["proto" := "pppoe"]}) : gmap string string).
    replace (<["password" := AStr p]> _) with (strings w0) by (unfold w0; by rewrite !fmap_insert, map_fmap_singleton).
    rewrite !put_unless_empty_strings.
    apply Hgo; [set_solver|..]; rewrite ?put_string_ne by done; [by rewrite Ep|..|by rewrite ?Ep].
    rewrite Ep. apply wan_option_put; [set_solver|].
    do 2 (apply map_Forall_insert_2; [split; [set_solver|by left]|]). by apply wan_option_proto. }
  by destruct (String.eqb (wc_Proto spec) EmptyString).
Qed.
Definition forward_for (i : Intent) (entry : string) : Prop :=
  ∃ spec, json_DNSForward (in_Spec i) = Ok spec ∧ splitDNSForward entry = Some (df_Zone spec, df_Target spec) ∧
    ∃ ip, ParseIP (df_Target spec) = Some ip ∧ To4 ip = true.
Lemma split_entry zone target : without "/"%char zone = true → zone ≠ EmptyString → target ≠ EmptyString →
  splitDNSForward ("/" +:+ zone +:+ "/" +:+ target) = Some (zone, target).
Proof.
  intros Hz Hne%String.eqb_neq Ht%String.eqb_neq. unfold splitDNSForward, split3.
  change ("/" +:+ zone +:+ "/" +:+ target) with (EmptyString +:+ String "/"%char (zone +:+ String "/"%char target)).
  rewrite cut_at_app by done. cbn [mbind option_bind]. rewrite cut_at_app by done. cbn [mbind option_bind]. by rewrite Hne, Ht.
Qed.
Lemma compileDNSForward_typed i entry : compileDNSForward i = Ok entry → forward_for i entry ∧ entry ≠ EmptyString.
Proof.
  unfold compileDNSForward. destruct (json_DNSForward (in_Spec i)) as [spec|e] eqn:Ej; [|done].
  destruct (String.eqb_spec (df_Zone spec) EmptyString) as [|Hz]; [done|].
  destruct (without "/"%char (df_Zone spec)) eqn:Ew; [cbn [negb]|done].
  destruct (String.eqb_spec (df_Target spec) EmptyString) as [|Ht]; [done|].
  destruct (ParseIP (df_Target spec)) as [ip|] eqn:Ep; [|done]. destruct (To4 ip) eqn:E4; [|done]. intros [= <-]. split; [|done].
  exists spec. split; [done|]. split; [by apply split_entry|]. eauto.
Qed.

(** *** The intents that count *)
Definition of_kind (kind : string) (l : list Intent) : list Intent := filter (λ i, in_Kind i = kind) l.
Definition enabled (kind : string) (l : list Intent) : list Intent := filter (λ i, in_Kind i = kind ∧ in_Enabled i = true) l.
Definition listed {A} (o : option A) : list A := match o with Some x => [x] | None => [] end.
Definition gathers (l : list Intent) (g g' : gathered) : Prop :=
  (∃ ms, ga_redirects g' = ga_redirects g ++ map strings ms ∧ Forall2 redirect_for (enabled IntentPortForward l) ms) ∧
  (∃ ms, ga_rules g' = ga_rules g ++ map strings ms ∧ Forall2 rule_for (enabled IntentFirewallRule l) ms) ∧
  ga_wanSeen g' = (ga_wanSeen g + length (of_kind IntentWANConfig l))%nat ∧
  listed (ga_wan g') = listed (ga_wan g) ++ enabled IntentWANConfig l ∧
  listed (ga_dns g') = listed (ga_dns g) ++ enabled IntentDNSForward l.

Lemma enabled_app kind l1 l2 : enabled kind (l1 ++ l2) = enabled kind l1 ++ enabled kind l2.
Proof. apply filter_app. Qed.
Lemma gathers_nil g : gathers [] g g.
Proof. split_and!; try (exists []); cbn; by rewrite ?app_nil_r, ?Nat.add_0_r. Qed.
Lemma gathers_app l1 l2 g1 g2 g3 : gathers l1 g1 g2 → gathers l2 g2 g3 → gathers (l1 ++ l2) g1 g3.
Proof.
  intros ((a & Ha & HA) & (b & Hb & HB) & Hs & Hw & Hd) ((a' & Ha' & HA') & (b' & Hb' & HB') & Hs' & Hw' & Hd').
  split_and!.
  - exists (a ++ a'). rewrite Ha', Ha, map_app, enabled_app, app_assoc. split; [done|by apply Forall2_app].
  - exists (b ++ b'). rewrite Hb', Hb, map_app, enabled_app, app_assoc. split; [done|by apply Forall2_app].
  - rewrite Hs', Hs. unfold of_kind. rewrite filter_app, length_app. lia.
  - by rewrite Hw', Hw, enabled_app, app_assoc.
  - by rewrite Hd', Hd, enabled_app, app_assoc.
Qed.
Lemma gather_one_spec i g g' : gather_one i g = Ok g' → gathers [i] g g'.
Proof.
  assert (Hk : ∀ k k' : string, String.eqb (in_Kind i) k = true → String.eqb k k' = false → String.eqb (in_Kind i) k' = false).
  { intros k k' ->%String.eqb_eq ?. done. }
  assert (Hen : ∀ k, enabled k [i] = if String.eqb (in_Kind i) k && in_Enabled i then [i] else []).
  { intros k. unfold enabled. rewrite filter_cons. destruct (String.eqb_spec (in_Kind i) k), (in_Enabled i); cbn [andb];
      (case_decide; first [done|exfalso; naive_solver]). }
  assert (Hof : ∀ k, of_kind k [i] = if String.eqb (in_Kind i) k then [i] else []).
  { intros k. unfold of_kind. rewrite filter_cons. destruct (String.eqb_spec (in_Kind i) k); (case_decide; first [done|exfalso; naive_solver]). }
  unfold gather_one, gathers. rewrite !Hen, !Hof.
  destruct (String.eqb (in_Kind i) IntentPortForward) eqn:E1;
    [rewrite !(Hk _ _ E1) by done|destruct (String.eqb (in_Kind i) IntentFirewallRule) eqn:E2;
    [rewrite !(Hk _ _ E2) by done|destruct (String.eqb (in_Kind i) IntentDNSForward) eqn:E3;
    [rewrite !(Hk _ _ E3) by done|destruct (String.eqb (in_Kind i) IntentWANConfig) eqn:E4; [|done]]]];
  (destruct (in_Enabled i); cbn [negb andb]; [|by intros [= <-]; split_and!; try (exists []); cbn; rewrite ?app_nil_r; auto with lia]).
  - destruct (compilePortForward i) as [r|] eqn:Ec; [|done]. apply compilePortForward_typed in Ec as (m & -> & Hm). intros [= <-].
    split_and!; [exists [m]|exists []|..]; cbn; rewrite ?app_nil_r; auto with lia.
  - destruct (compileFirewallRule i) as [r|] eqn:Ec; [|done]. apply compileFirewallRule_typed in Ec as (m & -> & Hm). intros [= <-].
    split_and!; [exists []|exists [m]|..]; cbn; rewrite ?app_nil_r; auto with lia.
  - destruct (ga_dns g) eqn:Ed; [done|]. intros [= <-]. split_and!; try (exists []); cbn; rewrite ?Ed, ?app_nil_r; auto with lia.
  - cbn [ga_wan]. destruct (ga_wan g) eqn:Ew; [done|]. intros [= <-]. split_and!; try (exists []); cbn; rewrite ?Ew, ?app_nil_r; auto with lia.
Qed.
Lemma gather_spec l g g' : gather l g = Ok g' → gathers l g g'.
Proof.
  revert g. induction l as [|i l IH]; intros g; cbn [gather]; [intros [= <-]; apply gathers_nil|].
  destruct (gather_one i g) as [g1|] eqn:E; [|done]. intros H%IH. apply (gathers_app [i]) with g1; [by apply gather_one_spec|done].
Qed.
(** *** The whole state *)
Definition state_with (fw : Any) (wan : option State) (server : option string) : State :=
  let s : State := {[ "firewall" := fw ]} in
  let s := match wan with None => s | Some w => <["network" := AMap {[ "wan" := AMap w ]}]> s end in
  match server with None => s | Some v => <["dhcp" := AMap {[ "server" := AStr v ]}]> s end.
Lemma plan_state_with plan : plan_state plan =
  state_with (firewall_part (map strings (pl_redirects plan)) (map strings (pl_rules plan))) (strings <$> pl_wan plan) (plan_server plan).
Proof. unfold plan_state, state_of. by destruct (plan_sections_of plan) as [-> ->]. Qed.
Lemma state_with_network fw wan server : state_with fw wan server !! "network" = (λ w, AMap {[ "wan" := AMap w ]}) <$> wan.
Proof. unfold state_with. destruct wan, server; by rewrite ?lookup_insert_ne, ?lookup_insert_eq, ?lookup_singleton_ne by done. Qed.
Lemma revealState_with fw wan server : revealState (state_with fw wan server) = state_with fw (reveal_wan <$> wan) server.
Proof.
  unfold revealState. rewrite state_with_network. destruct wan as [w|]; [|done]. cbn [fmap option_fmap option_map].
  rewrite lookup_singleton_eq. unfold reveal_wan. destruct (w !! "password") as [[]|]; try done.
  rewrite insert_singleton_eq. unfold state_with. destruct server; [|by rewrite insert_insert_eq].
  by rewrite (insert_insert_ne _ "network" "dhcp"), insert_insert_eq by done.
Qed.

(** What the wan section is for. *)
Definition wan_asked (intents : list Intent) (secrets : gmap string string) (ow : option (gmap string string)) : Prop :=
  match ow with
  | None => of_kind IntentWANConfig intents = []
  | Some w => of_kind IntentWANConfig intents ≠ [] ∧ wan_typed w ∧
              ∃ o, listed o = enabled IntentWANConfig intents ∧ wan_for o secrets w
  end.
Definition forward_asked (intents : list Intent) (entry : string) : Prop :=
  match enabled IntentDNSForward intents with
  | [] => entry = EmptyString
  | [d] => forward_for d entry
  | _ => False
  end.
Lemma add_wan_spec g intents secrets fw st : gathers intents nothing g → add_wan g secrets {[ "firewall" := fw ]} = Ok st →
  ∃ wan ow, st = state_with fw wan None ∧ reveal_wan <$> wan = strings <$> ow ∧ wan_asked intents secrets ow.
Proof.
  intros (_ & _ & Hs & Hw & _). unfold add_wan. rewrite Hs. cbn in Hw |- *.
  destruct (of_kind IntentWANConfig intents) as [|i0 rest] eqn:Eo; cbn [length Nat.eqb].
  { intros [= <-]. by exists None, None. }
  destruct (compileWANConfig (ga_wan g) secrets) as [r|e] eqn:Ec; [|done]. intros [= <-].
  apply compileWANConfig_typed in Ec as (w & Hrw & Ht & Hf). exists (Some r), (Some w). split; [done|]. cbn. rewrite Hrw.
  split; [done|]. unfold wan_asked. rewrite Eo. split; [done|]. split; [done|]. eauto.
Qed.
Lemma add_dns_spec g intents fw wan st : gathers intents nothing g → add_dns g (state_with fw wan None) = Ok st →
  ∃ entry, st = state_with fw wan (if String.eqb entry EmptyString then None else Some entry) ∧ forward_asked intents entry.
Proof.
  intros (_ & _ & _ & _ & Hd). unfold add_dns, forward_asked. cbn in Hd. rewrite <- Hd. destruct (ga_dns g) as [d|]; cbn [listed].
  - destruct (compileDNSForward d) as [entry|e] eqn:Ec; [|done]. apply compileDNSForward_typed in Ec as [Hf Hne%String.eqb_neq].
    intros [= <-]. exists entry. by rewrite Hne.
  - intros [= <-]. by exists EmptyString.
Qed.

Lemma Compile_spec intents secrets st : Compile intents secrets = Ok st →
  ∃ plan, revealState st = plan_state plan ∧
    Forall2 redirect_for (enabled IntentPortForward intents) (pl_redirects plan) ∧
    Forall2 rule_for (enabled IntentFirewallRule intents) (pl_rules plan) ∧
    wan_asked intents secrets (pl_wan plan) ∧ forward_asked intents (pl_dnsForward plan).
Proof.
  unfold Compile. destruct (gather intents nothing) as [g|] eqn:Eg; [|done]. apply gather_spec in Eg. pose proof Eg as Hg.
  destruct (add_wan g secrets _) as [st1|e] eqn:Ew; [|done]. apply (add_wan_spec _ _ _ _ _ Hg) in Ew as (wan & ow & -> & Hrev & How).
  intros (entry & -> & Hf)%(add_dns_spec _ _ _ _ _ Hg). destruct Hg as ((rs & Hr & HR) & (us & Hu & HU) & _).
  exists (mkPlan rs us ow entry). split; [|done]. rewrite revealState_with, plan_state_with, Hrev. cbn in Hr, Hu. by rewrite Hr, Hu.
Qed.

End Compiled.

(** ** A household's intents *)
Definition home_codec : SpecCodec := {|
  json_PortForward := λ s, if String.eqb s "pf" then Ok (mkPF 8443 "192.168.1.10" 443 EmptyString "nas") else Fail (errors_New "bad json");
  json_WANConfig := λ s, if String.eqb s "wan" then Ok (mkWAN "pppoe" EmptyString EmptyString EmptyString [] "me@isp" EmptyString EmptyString)
                         else Fail (errors_New "bad json");
  json_DNSForward := λ s, if String.eqb s "dns" then Ok (mkDF "home.internal" "192.168.1.2") else Fail (errors_New "bad json");
  json_FirewallRule := λ s, if String.eqb s "rule" then Ok (mkFR "lan" "wan" "192.168.1.0/24" EmptyString EmptyString "25" "tcp" "reject" true EmptyString)
                            else Fail (errors_New "bad json")
|}.
Definition home_intents : list Intent :=
  [mkIntent "i1" "wan_config" "isp" true "wan" 1 1; mkIntent "i2" "port_forward" "nas" true "pf" 2 2;
   mkIntent "i3" "port_forward" "old" false "pf" 3 3; mkIntent "i4" "firewall_rule" "no smtp" true "rule" 4 4;
   mkIntent "i5" "dns_forward" "internal" true "dns" 5 5].
Definition home_secrets : gmap string string := {[ "i1" := "hunter2" ]}.
Definition home_plan : applyPlan := mkPlan
  [list_to_map [("name", "nas"); ("src", "wan"); ("src_dport", "8443"); ("dest", "lan"); ("dest_ip", "192.168.1.10");
                ("dest_port", "443"); ("proto", "tcp"); ("target", "DNAT"); ("_comment", "nas")]]
  [list_to_map [("name", "no smtp"); ("src", "lan"); ("target", "REJECT"); ("dest", "wan"); ("src_ip", "192.168.1.0/24");
                ("dest_port", "25"); ("proto", "tcp"); ("log", "1")]]
  (Some (list_to_map [("proto", "pppoe"); ("username", "me@isp"); ("password", "hunter2")]))
  "/home.internal/192.168.1.2".

Example home_compiles : revealState <$> (match @Compile home_codec home_intents home_secrets with Ok s => Some s | Fail _ => None end)
  = Some (plan_state home_plan).
Proof. vm_compute. reflexivity. Qed.
