(* ===== verification/FirewallApply.v ===== *)
(** * An apply, wherever it stops

    The agent's Apply (FirewallUci) on a box that keeps the laws of
    FirewallBox: what it leaves in each configuration file and in the manifest,
    at every point where it can fail or die.  The claim is that the files are
    replaced one after another, each as a whole, and that nothing Rasputin does
    not own is changed. *)
From Stdlib Require Import Ascii String.
From S2P Require Import Prelude GoStrings GoNet GoSort Crash FirewallIntent FirewallUci FirewallBox FirewallSim FirewallPlan.
Open Scope Z_scope.
#[local] Arguments String.append : simpl nomatch.
#[local] Arguments HasPrefix : simpl never.

(** ** The wan section *)
Definition same_section (s s' : Section) : Prop := s_name s' = s_name s ∧ s_type s' = s_type s.
(** Only options of the wan section differ, and those as [P] says. *)
Definition wan_rel (P : string → option Opt → option Opt → Prop) (l l' : list Section) : Prop :=
  Forall2 (λ s s', same_section s s' ∧ (s_name s ≠ "wan" → s' = s) ∧
                   (s_name s = "wan" → ∀ k, P k (s_opts s !! k) (s_opts s' !! k))) l l'.

Lemma wan_rel_refl (P : string → option Opt → option Opt → Prop) l : (∀ k o, P k o o) → wan_rel P l l.
Proof. intros HP. apply Forall2_same_length_lookup. split; [done|]. intros i s s' ? ?. simplify_eq. by repeat split. Qed.
Lemma wan_rel_trans (P Q R : string → option Opt → option Opt → Prop) l1 l2 l3 :
  (∀ k o1 o2 o3, P k o1 o2 → Q k o2 o3 → R k o1 o3) → wan_rel P l1 l2 → wan_rel Q l2 l3 → wan_rel R l1 l3.
Proof.
  intros HR H12. revert l3. induction H12 as [|s1 s2 l1 l2 ([Hn Ht] & Hne & Heq) _ IH]; intros l3; inversion 1 as [|? s3 ? l3' ([Hn' Ht'] & Hne' & Heq') H23]; subst; constructor.
  - split; [split; congruence|]. split.
    + intros Hw. rewrite <- (Hne Hw). apply Hne'. congruence.
    + intros Hw k. eapply HR; [by apply Heq|]. apply Heq'. congruence.
  - by apply IH.
Qed.
Lemma wan_rel_impl (P Q : string → option Opt → option Opt → Prop) l l' :
  (∀ k o o', P k o o' → Q k o o') → wan_rel P l l' → wan_rel Q l l'.
Proof. intros HPQ H. eapply Forall2_impl; [exact H|]. intros s s' (H1 & H2 & H3). split; [done|]. split; [done|]. auto. Qed.
Lemma on_named_rel (f : Section → Section) (P : string → option Opt → option Opt → Prop) l :
  (∀ s, same_section s (f s)) → (∀ s k, P k (s_opts s !! k) (s_opts (f s) !! k)) → wan_rel P l (on_named "wan" f l).
Proof.
  intros Hs HP. induction l as [|s l IH]; constructor; [|done].
  destruct (String.eqb_spec (s_name s) "wan") as [E|E]; repeat split; try apply Hs; try done; intros; by auto.
Qed.

(** The edits of a wan section. *)
Definition wan_set_edits (wan : gmap string string) : list Edit :=
  match wan !! "proto" with Some v => [SetWan "proto" v] | None => [] end
  ++ map (λ k, SetWan k (value_of wan k)) (filter (λ k, k ≠ "proto") (sortedKeys wan)).
Definition wan_deletes (prevKeys : list string) (wan : gmap string string) : list Edit :=
  map DeleteWan (filter (λ k, wan !! k = None) prevKeys).
Lemma renderNetworkCommands_edits prevKeys wan :
  renderNetworkCommands prevKeys wan = (map argv (wan_deletes prevKeys wan), map argv (wan_set_edits wan)).
Proof.
  unfold renderNetworkCommands, wan_deletes, wan_set_edits. rewrite !map_app, !map_map.
  by destruct (wan !! "proto").
Qed.

Lemma stages_set_wan wan ks l l' : stages (map (λ k, SetWan k (value_of wan k)) ks) l l' →
  l' = on_named "wan" (λ s, mkSec (s_name s) (s_type s) (foldl (λ o k, <[k := OStr (value_of wan k)]> o) (s_opts s) ks)) l.
Proof.
  revert l. induction ks as [|k ks IH]; intros l; inversion 1 as [|e es ? l1 ? Heff Hs]; subst.
  - symmetry. apply list_eq_Forall2. induction l' as [|s l' IHl]; constructor; [|by apply IHl; constructor].
    by destruct (String.eqb (s_name s) "wan"), s.
  - cbn [effect] in Heff. subst. apply IH in Hs as ->. unfold on_named. rewrite map_map. apply map_ext. intros s.
    destruct (String.eqb (s_name s) "wan") eqn:E; [|by rewrite E]. by cbn; rewrite E.
Qed.
Lemma wan_sets_keys (wan : gmap string string) : ∃ ks,
  wan_set_edits wan = map (λ k, SetWan k (value_of wan k)) ks ∧ ∀ k, k ∈ ks ↔ is_Some (wan !! k).
Proof.
  unfold wan_set_edits. destruct (wan !! "proto") as [v|] eqn:Ep.
  - exists ("proto" :: filter (λ k, k ≠ "proto") (sortedKeys wan)). split; [unfold value_of at 2; cbn; by rewrite Ep|].
    intros k. rewrite elem_of_cons, list_elem_of_filter, sortedKeys_elem. destruct (decide (k = "proto")) as [->|]; [|tauto].
    rewrite Ep. split; eauto.
  - exists (filter (λ k, k ≠ "proto") (sortedKeys wan)). split; [done|].
    intros k. rewrite list_elem_of_filter, sortedKeys_elem. split; [tauto|]. intros Hk. split; [|done]. intros ->. by destruct Hk; congruence.
Qed.
Lemma stages_wan_sets wan l l' : stages (wan_set_edits wan) l l' →
  wan_rel (λ k o o', o' = match wan !! k with Some v => Some (OStr v) | None => o end) l l'.
Proof.
  destruct (wan_sets_keys wan) as (ks & -> & Hks). intros ->%stages_set_wan. apply on_named_rel; [done|].
  intros s k. cbn. rewrite set_keys_all. unfold value_of. destruct (decide (k ∈ ks)) as [[v Hv]%Hks|H]; [by rewrite Hv|].
  destruct (wan !! k) eqn:E; [|done]. destruct H. apply Hks. eauto.
Qed.

(** ** The dnsmasq section *)
Definition dnsmasq_keys : list string := ["server"; "rebind_domain"].
(** Other options and other sections are as they were, and so is every entry of
    the two lists that is not in [D]. *)
Definition foreign (D : list (string * string)) (s s' : Section) : Prop :=
  same_section s s' ∧ (s_type s ≠ "dnsmasq" → s' = s) ∧
  ∀ k, (k ∉ dnsmasq_keys → s_opts s' !! k = s_opts s !! k) ∧
       ∀ x, x ∈ items (s_opts s !! k) → (k, x) ∉ D → x ∈ items (s_opts s' !! k).
Definition dhcp_rel (D : list (string * string)) : list Section → list Section → Prop := Forall2 (foreign D).

Lemma foreign_refl D s : foreign D s s.
Proof. by repeat split. Qed.
Lemma foreign_trans D s1 s2 s3 : foreign D s1 s2 → foreign D s2 s3 → foreign D s1 s3.
Proof.
  intros ([Hn Ht] & Hne & Hk) ([Hn' Ht'] & Hne' & Hk'). split; [split; congruence|]. split.
  - intros Hty. rewrite <- (Hne Hty). apply Hne'. congruence.
  - intros k. destruct (Hk k) as [H1 H2], (Hk' k) as [H1' H2']. split; [|eauto]. intros H. rewrite H1', H1 by done. done.
Qed.
Lemma dhcp_rel_refl D l : dhcp_rel D l l.
Proof. induction l; constructor; [apply foreign_refl|done]. Qed.
Lemma dhcp_rel_trans D l1 l2 l3 : dhcp_rel D l1 l2 → dhcp_rel D l2 l3 → dhcp_rel D l1 l3.
Proof.
  intros H. revert l3. induction H as [|s1 s2 l1 l2 Hs _ IH]; intros l3; inversion 1; subst; constructor; [by eapply foreign_trans|by apply IH].
Qed.
Lemma dnsmasq_opt_rel D k f l : k ∈ dnsmasq_keys → (∀ its x, x ∈ its → (k, x) ∉ D → x ∈ f its) →
  dhcp_rel D l (dnsmasq_opt k f l).
Proof.
  intros Hk Hf. unfold dnsmasq_opt. induction l as [|s l IH]; cbn [first_map]; [constructor|].
  destruct (of_type "dnsmasq" s) eqn:E; [|constructor; [apply foreign_refl|done]].
  constructor; [|apply dhcp_rel_refl].
  split; [done|]. split; [intros Hne; unfold of_type in E; by apply String.eqb_eq in E|].
  intros k'. cbn. split; [intros Hk'; rewrite lookup_insert_ne by (by intros <-); done|].
  intros x Hx HD. destruct (decide (k' = k)) as [->|Hne]; [rewrite lookup_insert_eq; cbn; by apply Hf|].
  by rewrite lookup_insert_ne.
Qed.
Definition first_dnsmasq (l : list Section) : option Section := head (filter (λ s, of_type "dnsmasq" s = true) l).
Lemma first_dnsmasq_opt k f l :
  first_dnsmasq (dnsmasq_opt k f l) = (λ s, set_opt k (OList (f (items (s_opts s !! k)))) s) <$> first_dnsmasq l.
Proof.
  unfold dnsmasq_opt, first_dnsmasq. induction l as [|s l IH]; [done|]. cbn [first_map].
  destruct (of_type "dnsmasq" s) eqn:E; cbn [app].
  - rewrite !filter_cons, !decide_True by done. done.
  - rewrite !filter_cons, !decide_False by congruence. exact IH.
Qed.

Definition drop_edits (entry : string) : list Edit :=
  if String.eqb entry EmptyString then [] else
  DhcpDel "server" entry ::
  (if String.eqb (dnsForwardZone entry) EmptyString then [] else [DhcpDel "rebind_domain" (dnsForwardZone entry)]).
Definition server_edits (entry : string) : list Edit := if String.eqb entry EmptyString then [] else [DhcpAdd "server" entry].
Definition rebind_edits (entry : string) : list Edit :=
  if String.eqb entry EmptyString || String.eqb (dnsForwardZone entry) EmptyString then []
  else [DhcpAdd "rebind_domain" (dnsForwardZone entry)].
Lemma drop_forward_edits entry : drop_forward entry = map argv (drop_edits entry).
Proof. unfold drop_forward, drop_edits. destruct (String.eqb entry EmptyString); [done|]. by destruct (String.eqb (dnsForwardZone entry) EmptyString). Qed.
Lemma add_server_edits entry : add_server entry = map argv (server_edits entry).
Proof. unfold add_server, server_edits. by destruct (String.eqb entry EmptyString). Qed.
Lemma add_rebind_edits entry : add_rebind entry = map argv (rebind_edits entry).
Proof. unfold add_rebind, rebind_edits. by destruct (String.eqb entry EmptyString || _). Qed.
(** What Rasputin's own entries are. *)
Definition own_entries (entry : string) : list (string * string) := [("server", entry); ("rebind_domain", dnsForwardZone entry)].

Lemma edit_rel D e l l' : effect e l l' → config_of e = "dhcp" →
  match e with DhcpAdd k _ => k ∈ dnsmasq_keys | DhcpDel k v => k ∈ dnsmasq_keys ∧ (k, v) ∈ D | _ => False end →
  dhcp_rel D l l'.
Proof.
  destruct e; try done; cbn.
  - intros -> _ Hk. apply dnsmasq_opt_rel; [done|]. intros its x Hx _. apply elem_of_app. by left.
  - intros -> _ [Hk HD]. apply dnsmasq_opt_rel; [done|]. intros its x Hx Hn. apply list_elem_of_filter. split; [|done]. by intros ->.
Qed.

(** ** Programs on the box *)
Section Apply.
Context {B : Type} {UB : Uci B} {UL : UciLaws B} {UE : UciEnv}.

Definition holds (K : B → Prop) (m : option managedManifest) (a : Agent B) : Prop := K (a_box a) ∧ a_manifest a = m.
Lemma holds_impl (K K' : B → Prop) m a : (∀ b, K b → K' b) → holds K m a → holds K' m a.
Proof. intros H [HK Hm]. split; auto. Qed.

Lemma untouched_trans c (b1 b2 b3 : B) : untouched c b1 b2 → untouched c b2 b3 → untouched c b1 b3.
Proof. intros [H1 H2] [H3 H4]. split; congruence. Qed.
Lemma only_refl cfg (b : B) : only cfg b b.
Proof. by intros c _. Qed.
Lemma only_trans cfg (b1 b2 b3 : B) : only cfg b1 b2 → only cfg b2 b3 → only cfg b1 b3.
Proof. intros H1 H2 c Hc. eapply untouched_trans; [by apply H1|by apply H2]. Qed.

(** Everything committed is as in [b0], and only [cfg] is being staged. *)
Definition still (cfg : string) (b0 b : B) : Prop := only cfg b0 b ∧ u_committed cfg b = u_committed cfg b0.
Definition mid (cfg : string) (b0 : B) (l : list Section) (b : B) : Prop := still cfg b0 b ∧ u_staged cfg b = l.

Lemma Run_spec argv (K : B → Prop) (K' : result string → B → Prop) m (C : Agent B → Prop) :
  (∀ t b r b', K b → u_run t argv b = (r, b') → K' r b') → (∀ a, holds K m a → C a) →
  ensures (holds K m) (Run argv) (λ r, holds (K' r) m) C.
Proof.
  intros HK HC a [Ha Hm]. unfold Run. destruct (e_dies (a_tick a)); [by apply HC|].
  destruct (u_run (a_tick a) argv (a_box a)) as [r b'] eqn:E. split; [by eapply HK|done].
Qed.

Lemma revert_spec cfg b0 (K : B → Prop) m C : (∀ b, K b → still cfg b0 b) → (∀ a, holds (still cfg b0) m a → C a) →
  ensures (holds K m) (Run (revert cfg))
    (λ r, holds (λ b, still cfg b0 b ∧ (is_ok r = true → mid cfg b0 (u_committed cfg b0) b)) m) C.
Proof.
  intros HK HC. apply Run_spec; [|intros a Ha; apply HC; by eapply holds_impl].
  intros t b r b' Hb%HK E. destruct Hb as [Ho Hc]. apply law_revert in E as (Ho' & Hc' & Hr).
  assert (still cfg b0 b') by (split; [by eapply only_trans|congruence]).
  split; [done|]. intros Hok. split; [done|]. destruct r; [congruence|done].
Qed.

Lemma uci_commit_spec cfg b0 l m C : (∀ a, holds (still cfg b0) m a → C a) →
  ensures (holds (mid cfg b0 l) m) (Run (commit cfg))
    (λ r, holds (λ b, only cfg b0 b ∧ match r with
                     | Ok _ => u_committed cfg b = l ∧ u_staged cfg b = l
                     | Fail _ => u_committed cfg b = u_committed cfg b0 ∨ u_committed cfg b = l
                     end) m) C.
Proof.
  intros HC. apply Run_spec; [|intros a Ha; apply HC; eapply holds_impl; [|exact Ha]; by intros b []].
  intros t b r b' [[Ho Hc] Hs] E. apply law_commit in E as (Ho' & Hr). split; [by eapply only_trans|].
  destruct r; [destruct Hr; split; congruence|]. destruct Hr; [left|right]; congruence.
Qed.

Lemma edit_spec e b0 l m C : valid e → (∀ a, holds (still (config_of e) b0) m a → C a) →
  ensures (holds (mid (config_of e) b0 l) m) (Run (argv e))
    (λ r, holds (λ b, ∃ l', mid (config_of e) b0 l' b ∧
       match r with Ok _ => effect e l l' | Fail _ => l' = l ∧ ∃ t b1 x b1', u_staged (config_of e) b1 = l ∧ u_run t (argv e) b1 = (Fail x, b1') end) m) C.
Proof.
  intros Hv HC. apply Run_spec; [|intros a Ha; apply HC; eapply holds_impl; [|exact Ha]; by intros b []].
  intros t b r b' [[Ho Hc] Hs] E. pose proof E as E'. apply law_edit in E as (Ho' & Hc' & Hr); [|done].
  exists (u_staged (config_of e) b'). split; [split; [split; [by eapply only_trans|congruence]|done]|].
  destruct r; [congruence|]. split; [congruence|]. eauto 8.
Qed.

Definition edits_of (cfg : string) (es : list Edit) : Prop := Forall (λ e, valid e ∧ config_of e = cfg) es.

Lemma run_edits_spec cfg es b0 l m C : edits_of cfg es → (∀ a, holds (still cfg b0) m a → C a) →
  ensures (holds (mid cfg b0 l) m) (run_all (map argv es))
    (λ r, holds (λ b, ∃ l', mid cfg b0 l' b ∧ (is_ok r = true → stages es l l')) m) C.
Proof.
  intros Hes HC. revert l. induction Hes as [|e es [Hv <-] _ IH]; intros l; cbn [map run_all].
  { intros a [Ha Hm]. split; [|done]. exists l. split; [done|]. intros _. constructor. }
  eapply ensures_bindR; [by apply edit_spec| |].
  - intros out a [(l' & Hmid & Heff) Hm]. pose proof (IH l' a (conj Hmid Hm)) as H.
    destruct (run_all (map argv es) a) as [[r|] a']; [|done]. destruct H as [(l2 & Hm2 & Hst) Hm']. split; [|done].
    exists l2. split; [done|]. intros Hok. econstructor; eauto.
  - intros x a [(l' & Hmid & _) Hm]. split; [|done]. exists l'. split; [done|]. discriminate.
Qed.

(** Edits whose failure is ignored. *)
Definition fails (e : Edit) (l : list Section) : Prop :=
  ∃ t (b : B) x b', u_staged (config_of e) b = l ∧ u_run t (argv e) b = (Fail x, b').
Inductive ignored : list Edit → list Section → list Section → Prop :=
| ignored_nil l : ignored [] l l
| ignored_cons e es l l1 l2 : effect e l l1 ∨ l1 = l ∧ fails e l → ignored es l1 l2 → ignored (e :: es) l l2.

Lemma run_ignoring_spec cfg es b0 l m C : edits_of cfg es → (∀ a, holds (still cfg b0) m a → C a) →
  ensures (holds (mid cfg b0 l) m) (run_ignoring (map argv es))
    (λ _, holds (λ b, ∃ l', mid cfg b0 l' b ∧ ignored es l l') m) C.
Proof.
  intros Hes HC. revert l. induction Hes as [|e es [Hv <-] _ IH]; intros l; cbn [map run_ignoring].
  { intros a [Ha Hm]. split; [|done]. exists l. split; [done|constructor]. }
  eapply ensures_bind; [by apply edit_spec|].
  intros r a [(l' & Hmid & Heff) Hm]. pose proof (IH l' a (conj Hmid Hm)) as H.
  destruct (run_ignoring (map argv es) a) as [[[]|] a']; [|done]. destruct H as [(l2 & Hm2 & Hst) Hm']. split; [|done].
  exists l2. split; [done|]. econstructor; [|done]. destruct r; [by left|right]. destruct Heff as [-> Hf]. done.
Qed.

Lemma ensures_ext {S A} (m m' : Crash.IO S A) P Q C : (∀ d, m d = m' d) → ensures P m' Q C → ensures P m Q C.
Proof. intros H Hm d Hd. rewrite H. by apply Hm. Qed.
Lemma run_all_app cs1 cs2 (a : Agent B) : run_all (cs1 ++ cs2) a = bindR (run_all cs1) (λ _, run_all cs2) a.
Proof.
  revert a. induction cs1 as [|c cs1 IH]; intros a; [done|]. cbn [app run_all]. unfold bindR, bind in *.
  destruct (Run c a) as [[[out|x]|] a']; first [done|apply IH].
Qed.

(** Wrapping an error changes its text only. *)
Lemma wrapE_keeps {A} P pre post (p : Crash.IO (Agent B) (result A)) (R : result A → Agent B → Prop) C :
  ensures P p R C → (∀ e e' a, R (Fail e) a → R (Fail e') a) → ensures P (wrapE pre post p) R C.
Proof. intros Hp HR. by apply (ensures_wrapE _ _ _ _ R). Qed.

(** ** /etc/config/firewall *)
Definition plan_ok (plan : applyPlan) : Prop :=
  Forall (λ m : gmap string string, ∀ k v, m !! k = Some v → is_key k = true ∧ v ≠ EmptyString) (pl_redirects plan ++ pl_rules plan) ∧
  (∀ wan, pl_wan plan = Some wan → ∀ k v, wan !! k = Some v → is_key k = true ∧ v ≠ EmptyString).

Lemma uci_read_spec cfg b0 m C : is_key cfg = true → (∀ a, holds (mid cfg b0 (u_committed cfg b0)) m a → C a) →
  ensures (holds (mid cfg b0 (u_committed cfg b0)) m) (readUbusConfig cfg)
    (λ r, holds (λ b, mid cfg b0 (u_committed cfg b0) b ∧ ∀ l, r = Ok l → l = map view (u_committed cfg b0)) m) C.
Proof.
  intros Hcfg HC. unfold readUbusConfig. eapply ensures_bind.
  - apply (Run_spec _ _ (λ r b, mid cfg b0 (u_committed cfg b0) b ∧
      match r with Ok out => u_json out = Ok (values_of (u_committed cfg b0)) | Fail e => isUbusNotFound e = true → u_committed cfg b0 = [] end)).
    2: exact HC.
    intros t b r b' [[Ho Hc] Hs] E.
    assert (Hu : ∀ c, untouched c b b') by (intros c; by eapply law_harmless; [|exact E]).
    apply law_ubus in E; [|done|congruence]. split.
    + destruct (Hu cfg) as [Hus Huc]. split; [split; [|congruence]|congruence].
      eapply only_trans; [exact Ho|]. intros c _. apply Hu.
    + destruct r; [congruence|]. intros H. rewrite <- Hc. auto.
  - intros r a [[Hmid Hr] Hm]. cbn. split; [|done]. split; [done|]. intros l Hl.
    destruct r as [out|e].
    + rewrite Hr in Hl. destruct (law_names cfg b0) as [_ Hnd].
      destruct (read_values (u_committed cfg b0) Hnd) as (x & Hx & Hv); [by apply Forall_forall; intros s Hs k; eapply law_keys|].
      rewrite Hx, Hv in Hl. by injection Hl as <-.
    + destruct (isUbusNotFound e); [|done]. rewrite Hr by done. by injection Hl as <-.
Qed.

Lemma firewall_edits_ok n1 n2 plan : plan_ok plan → edits_of "firewall" (firewall_edits n1 n2 (pl_redirects plan) (pl_rules plan)).
Proof.
  intros [Hp _]. apply Forall_app in Hp as [Hr Hu]. unfold firewall_edits, edits_of. rewrite !Forall_app.
  assert (Hsec : ∀ typ ms, is_key typ = true →
    Forall (λ m : gmap string string, ∀ k v, m !! k = Some v → is_key k = true ∧ v ≠ EmptyString) ms →
    Forall (λ e, valid e ∧ config_of e = "firewall") (concat (map (section_edits typ) ms))).
  { intros typ ms Ht Hms. apply Forall_concat, Forall_map. eapply Forall_impl; [exact Hms|]. intros m Hm.
    constructor; [done|]. apply Forall_map, Forall_forall. intros k [v Hv]%sortedKeys_elem. split; [|done].
    destruct (Hm k v Hv) as [Hk Hne]. cbn. unfold value_of. rewrite Hv. done. }
  split_and!; [by apply Forall_replicate..| |]; by apply Hsec.
Qed.

Lemma count_view typ l : count_type typ (map view l) = length (filter (λ s, of_type typ s = true) l).
Proof.
  unfold count_type. induction l as [|s l IH]; [done|]. cbn [map]. rewrite !filter_cons. cbn [us_typ view].
  destruct (of_type typ s) eqn:E.
  - rewrite !decide_True by first [done|by apply String.eqb_eq]. cbn [length]. by rewrite IH.
  - rewrite !decide_False by first [congruence|by apply String.eqb_neq]. exact IH.
Qed.

(** The file is the old one or the new one. *)
Definition fw_either (plan : applyPlan) (b0 b : B) : Prop :=
  only "firewall" b0 b ∧
  (u_committed "firewall" b = u_committed "firewall" b0 ∨ replaced plan (u_committed "firewall" b0) (u_committed "firewall" b)).
Definition fw_done (plan : applyPlan) (b0 b : B) : Prop :=
  only "firewall" b0 b ∧ replaced plan (u_committed "firewall" b0) (u_committed "firewall" b) ∧
  u_staged "firewall" b = u_committed "firewall" b.

Lemma still_either plan b0 m a : holds (still "firewall" b0) m a → holds (fw_either plan b0) m a.
Proof. apply holds_impl. intros b [Ho Hc]. split; [done|]. by left. Qed.

Lemma apply_firewall_spec plan b0 m : plan_ok plan →
  ensures (holds (λ b, b = b0) m) (apply_firewall plan)
    (λ r, holds (λ b, if is_ok r then fw_done plan b0 b else fw_either plan b0 b) m) (holds (fw_either plan b0) m).
Proof.
  intros Hp. unfold apply_firewall. eapply ensures_bindR.
  { eapply wrapE_keeps; [apply (revert_spec "firewall" b0); [by intros b ->; split; [apply only_refl|done]|apply still_either]|by intros]. }
  2: { intros e a [[Hs _] Hm]. apply (still_either plan b0 m). by split. }
  intros out. eapply ensures_bindR.
  { apply wrapE_keeps; [eapply ensures_pre; [apply (uci_read_spec "firewall" b0 m); [done|]|]|].
    - intros a [[Hs _] Hm]. apply (still_either plan b0 m). by split.
    - intros a [[Hs Hmid] Hm]. split; [by apply Hmid|done].
    - intros e e' a [[Hmid _] Hm]. split; [|exact Hm]. split; [exact Hmid|]. discriminate. }
  2: { intros e a [[[Hs _] _] Hm]. apply (still_either plan b0 m). by split. }
  intros l a [[Hmid Hl] Hm]. specialize (Hl l eq_refl) as ->. rewrite !count_view.
  assert (H : ensures (holds (mid "firewall" b0 (u_committed "firewall" b0)) m)
    (wrapE "openwrt-uci: " EmptyString (run_all (renderFirewallCommands
       (length (filter (λ s, of_type "redirect" s = true) (u_committed "firewall" b0)))
       (length (filter (λ s, of_type "rule" s = true) (u_committed "firewall" b0))) (pl_redirects plan) (pl_rules plan))))
    (λ r, holds (λ b, if is_ok r then fw_done plan b0 b else fw_either plan b0 b) m) (holds (fw_either plan b0) m)).
  2: { by apply H. }
  clear a Hmid Hm.
  apply wrapE_keeps; [|by intros].
  rewrite renderFirewallCommands_edits. eapply ensures_ext; [apply run_all_app|].
  eapply ensures_bindR; [apply run_edits_spec; [by apply firewall_edits_ok|apply still_either]| |].
  2: { intros e a [(l & [Hs _] & _) Hm]. apply (still_either plan b0 m). by split. }
  intros [] a [(l & Hmid & Hst) Hm]. specialize (Hst eq_refl). apply stages_firewall in Hst.
  revert a Hmid Hm. cut (ensures (holds (mid "firewall" b0 l) m) (run_all [commit "firewall"])
    (λ r, holds (λ b, if is_ok r then fw_done plan b0 b else fw_either plan b0 b) m) (holds (fw_either plan b0) m)).
  { intros H a Hmid Hm. by apply H. }
  cbn [run_all]. eapply ensures_bindR; [apply uci_commit_spec, still_either| |].
  - intros out2 a [(Ho & Hc & Hs) Hm]. split; [|done]. split; [done|]. split; [by rewrite Hc|congruence].
  - intros e a [(Ho & Hc) Hm]. split; [|done]. split; [done|]. destruct Hc as [Hc|Hc]; [by left|right]. by rewrite Hc.
Qed.

Lemma ensures_at {A} (K : B → Prop) m (p : Crash.IO (Agent B) A) Q C :
  (∀ b1, K b1 → ensures (holds (λ b, b = b1) m) p Q C) → ensures (holds K m) p Q C.
Proof. intros H a [Ha Hm]. by apply (H (a_box a) Ha). Qed.

(** ** /etc/config/network *)
(** A delete fails only when there is nothing to delete. *)
Definition deletes_work : Prop := ∀ t k (b : B) x b', is_key k = true → u_run t (delete_wan k) b = (Fail x, b') →
  ∀ s, s ∈ u_staged "network" b → s_name s = "wan" → s_opts s !! k = None.

Definition dropped (ks : list string) (k : string) (o o' : option Opt) : Prop :=
  (o' = o ∨ k ∈ ks ∧ o' = None) ∧ (deletes_work → k ∈ ks → o' = None).
Lemma ignored_deletes ks l l' : Forall (λ k, is_key k = true) ks → ignored (map DeleteWan ks) l l' → wan_rel (dropped ks) l l'.
Proof.
  intros Hks. revert l. induction Hks as [|k ks Hk _ IH]; intros l; inversion 1 as [|e es ? l1 ? Heff Hs]; subst.
  { apply wan_rel_refl. intros k o. split; [by left|]. by intros _ ?%not_elem_of_nil. }
  apply (wan_rel_trans (dropped [k]) (dropped ks) _ _ l1); [|..|by apply IH].
  - intros k' o1 o2 o3 [H1 H1'] [H2 H2']. split.
    + destruct H2 as [->|[? ->]]; [|right; split; [by right|done]]. destruct H1 as [->|[->%list_elem_of_singleton ->]]; [by left|].
      right. split; [by left|done].
    + intros Hw [->|Hin]%elem_of_cons; [|auto]. rewrite list_elem_of_singleton in H1'. destruct H2 as [->|[_ ->]]; auto.
  - destruct Heff as [Heff|[-> Hf]].
    + cbn in Heff. subst. apply on_named_rel; [done|]. intros s k'. unfold dropped. cbn. rewrite list_elem_of_singleton.
      destruct (decide (k' = k)) as [->|Hne]; [rewrite lookup_delete_eq|rewrite lookup_delete_ne by done];
        (split; [auto|intros; first [done|congruence]]).
    + apply Forall_Forall2_diag, Forall_forall. intros s Hs'. split; [done|]. split; [done|]. intros Hw k'. split; [by left|].
      intros Hdw ->%list_elem_of_singleton. destruct Hf as (t & b & x & b' & <- & Hrun). by eapply Hdw.
Qed.

Definition merged (prev : list string) (wan : gmap string string) : list Section → list Section → Prop :=
  wan_rel (λ k o o', match wan !! k with Some v => o' = Some (OStr v) | None => dropped prev k o o' end).
Lemma Forall_kept {A} (P Q : A → Prop) `{!∀ x, Decision (Q x)} l : Forall P l → Forall P (filter Q l).
Proof. intros Hl. apply Forall_forall. intros x [_ Hx]%list_elem_of_filter. by eapply Forall_forall in Hl. Qed.
Lemma stages_network prev wan l l1 l' : Forall (λ k, is_key k = true) prev →
  ignored (wan_deletes prev wan) l l1 → stages (wan_set_edits wan) l1 l' → merged prev wan l l'.
Proof.
  intros Hp Hd Hs. apply ignored_deletes in Hd; [|by apply Forall_kept]. apply stages_wan_sets in Hs.
  eapply wan_rel_trans; [|exact Hd|exact Hs]. intros k o1 o2 o3 [H1 H2] ->. destruct (wan !! k) eqn:E; [done|]. split.
  - destruct H1 as [->|[Hk ->]]; [by left|right]. split; [|done]. by apply list_elem_of_filter in Hk as [_ ?].
  - intros Hdw Hk. apply H2; [done|]. by apply list_elem_of_filter.
Qed.

Definition net_either (plan : applyPlan) (mf : managedManifest) (b0 b : B) : Prop :=
  only "network" b0 b ∧
  (u_committed "network" b = u_committed "network" b0 ∨
   ∃ wan, pl_wan plan = Some wan ∧ merged (mm_WANKeys mf) wan (u_committed "network" b0) (u_committed "network" b)).
Definition net_done (plan : applyPlan) (mf : managedManifest) (b0 b : B) : Prop :=
  match pl_wan plan with
  | None => b = b0
  | Some wan => only "network" b0 b ∧ merged (mm_WANKeys mf) wan (u_committed "network" b0) (u_committed "network" b) ∧
                u_staged "network" b = u_committed "network" b
  end.
Definition net_manifest (plan : applyPlan) (mf : managedManifest) : managedManifest :=
  mkManaged (bool_decide (pl_wan plan ≠ None)) (match pl_wan plan with Some wan => sortedKeys wan | None => mm_WANKeys mf end)
    (mm_DNSForward mf) (mm_DNSForwardUnverified mf).

Lemma still_net plan mf b0 m a : holds (still "network" b0) m a → holds (net_either plan mf b0) m a.
Proof. apply holds_impl. intros b [Ho Hc]. split; [done|]. by left. Qed.
Lemma net_edits_ok plan wan prev : plan_ok plan → pl_wan plan = Some wan → Forall (λ k, is_key k = true) prev →
  edits_of "network" (wan_deletes prev wan) ∧ edits_of "network" (wan_set_edits wan).
Proof.
  intros [_ Hp] Hw Hk. split.
  - apply Forall_map, Forall_kept. eapply Forall_impl; [exact Hk|]. by intros.
  - destruct (wan_sets_keys wan) as (ks & -> & Hks). apply Forall_map, Forall_forall. intros k [v Hv]%Hks. split; [|done].
    destruct (Hp wan Hw k v Hv). cbn. unfold value_of. by rewrite Hv.
Qed.

Lemma apply_network_spec plan mf b0 m : plan_ok plan → Forall (λ k, is_key k = true) (mm_WANKeys mf) →
  ensures (holds (λ b, b = b0) m) (apply_network mf plan)
    (λ r, holds (λ b, match r with
                      | Ok mf' => net_done plan mf b0 b ∧ mf' = net_manifest plan mf
                      | Fail _ => net_either plan mf b0 b
                      end) m) (holds (net_either plan mf b0) m).
Proof.
  intros Hp Hk. unfold apply_network, net_done, net_manifest. destruct (pl_wan plan) as [wan|] eqn:Ew.
  2: { intros a [Hb Hm]. split; [|done]. split; [exact Hb|]. by rewrite bool_decide_eq_false_2 by (by intros []). }
  destruct (net_edits_ok plan wan (mm_WANKeys mf) Hp Ew Hk) as [Hdel Hset].
  rewrite renderNetworkCommands_edits. cbn [fst snd].
  pose proof (still_net plan mf b0 m) as HC.
  eapply ensures_bindR.
  { eapply wrapE_keeps; [apply (revert_spec "network" b0); [by intros b ->; split; [apply only_refl|done]|exact HC]|by intros]. }
  2: { intros e a [[Hs _] Hm]. apply HC. by split. }
  intros out. eapply ensures_bind.
  { eapply ensures_pre; [by apply (run_ignoring_spec "network" _ b0 (u_committed "network" b0) m)|].
    intros a [[_ Hmid] Hm]. split; [by apply Hmid|done]. }
  intros [] a [(l1 & Hmid & Hig) Hm]. revert a Hmid Hm.
  cut (ensures (holds (mid "network" b0 l1) m)
    (_ <-? wrapE "openwrt-uci: " EmptyString (run_all (map argv (wan_set_edits wan)));
     _ <-? wrapE "openwrt-uci: commit network: " EmptyString (Run (commit "network"));
     ret (Ok (mkManaged true (sortedKeys wan) (mm_DNSForward mf) (mm_DNSForwardUnverified mf))))
    (λ r, holds (λ b, match r with
       | Ok mf' => (only "network" b0 b ∧ merged (mm_WANKeys mf) wan (u_committed "network" b0) (u_committed "network" b) ∧
                    u_staged "network" b = u_committed "network" b) ∧
                   mf' = mkManaged true (sortedKeys wan) (mm_DNSForward mf) (mm_DNSForwardUnverified mf)
       | Fail _ => net_either plan mf b0 b end) m) (holds (net_either plan mf b0) m)).
  { intros H a Hmid Hm. rewrite bool_decide_eq_true_2 by done. by apply H. }
  eapply ensures_bindR.
  { apply wrapE_keeps; [by apply run_edits_spec|by intros]. }
  2: { intros e a [(l' & [Hs _] & _) Hm]. apply HC. by split. }
  intros [] a [(l' & Hmid & Hst) Hm]. specialize (Hst eq_refl). pose proof (stages_network _ _ _ _ _ Hk Hig Hst) as Hmerged.
  revert a Hmid Hm.
  cut (ensures (holds (mid "network" b0 l') m)
    (_ <-? wrapE "openwrt-uci: commit network: " EmptyString (Run (commit "network"));
     ret (Ok (mkManaged true (sortedKeys wan) (mm_DNSForward mf) (mm_DNSForwardUnverified mf))))
    (λ r, holds (λ b, match r with
       | Ok mf' => (only "network" b0 b ∧ merged (mm_WANKeys mf) wan (u_committed "network" b0) (u_committed "network" b) ∧
                    u_staged "network" b = u_committed "network" b) ∧
                   mf' = mkManaged true (sortedKeys wan) (mm_DNSForward mf) (mm_DNSForwardUnverified mf)
       | Fail _ => net_either plan mf b0 b end) m) (holds (net_either plan mf b0) m)).
  { intros H a Hmid Hm. by apply H. }
  eapply ensures_bindR.
  { apply wrapE_keeps; [by apply uci_commit_spec|by intros]. }
  - intros out2 a [(Ho & Hc & Hs) Hm]. split; [|done]. split; [|done]. rewrite Hs, Hc. done.
  - intros e a [(Ho & Hc) Hm]. split; [|done]. split; [done|]. destruct Hc as [Hc|Hc]; [by left|right].
    exists wan. split; [done|]. by rewrite Hc.
Qed.

(** ** /etc/config/dhcp *)
(** The forward is in the first dnsmasq section, if there is one. *)
Definition in_place (entry : string) (l : list Section) : Prop :=
  entry ≠ EmptyString → ∀ s, first_dnsmasq l = Some s →
  entry ∈ items (s_opts s !! "server") ∧ (dnsForwardZone entry ≠ EmptyString → dnsForwardZone entry ∈ items (s_opts s !! "rebind_domain")).
Lemma stages_add entry l l1 l' : stages (server_edits entry) l l1 → stages (rebind_edits entry) l1 l' →
  in_place entry l' ∧ dhcp_rel [] l l'.
Proof.
  unfold server_edits, rebind_edits, in_place. destruct (String.eqb_spec entry EmptyString) as [->|Hne]; cbn [orb].
  { inversion 1; subst. inversion 1; subst. split; [done|apply dhcp_rel_refl]. }
  inversion 1 as [|e es ? l0 ? Heff Hn]; subst. inversion Hn; subst. intros Hs.
  assert (H1 : dhcp_rel [] l l1) by (eapply edit_rel; [exact Heff|done|by left]).
  destruct (String.eqb_spec (dnsForwardZone entry) EmptyString) as [Hz|Hz].
  - inversion Hs; subst. split; [|done]. intros _ s. cbn in Heff. subst. rewrite first_dnsmasq_opt.
    destruct (first_dnsmasq l) as [s0|]; [|done]. intros [= <-]. cbn. rewrite lookup_insert_eq. split; [|done]. apply elem_of_app. right. by left.
  - inversion Hs as [|e es ? l2 ? Heff2 Hs2]; subst. inversion Hs2; subst. split.
    + intros _ s. cbn in Heff, Heff2. subst. rewrite !first_dnsmasq_opt. destruct (first_dnsmasq l) as [s0|]; [|done].
      intros [= <-]. cbn. rewrite (lookup_insert_ne _ "rebind_domain" "server"), !lookup_insert_eq by done.
      split; [|intros _]; apply elem_of_app; right; by left.
    + eapply dhcp_rel_trans; [exact H1|]. eapply edit_rel; [exact Heff2|done|]. by right; left.
Qed.
Lemma dhcp_rel_weaken D D' l l' : (∀ x, x ∈ D → x ∈ D') → dhcp_rel D l l' → dhcp_rel D' l l'.
Proof.
  intros HD H. eapply Forall2_impl; [exact H|]. intros s s' (H1 & H2 & H3). split; [done|]. split; [done|].
  intros k. destruct (H3 k) as [H4 H5]. split; [done|]. intros x Hx Hn. apply H5; auto.
Qed.
Lemma ignored_drop entry l l' : ignored (drop_edits entry) l l' → dhcp_rel (own_entries entry) l l'.
Proof.
  unfold drop_edits, own_entries. destruct (String.eqb entry EmptyString).
  { inversion 1; subst. apply dhcp_rel_refl. }
  assert (Hstep : ∀ e l l1, effect e l l1 ∨ l1 = l ∧ fails e l → config_of e = "dhcp" →
    match e with DhcpAdd k _ => k ∈ dnsmasq_keys | DhcpDel k v => k ∈ dnsmasq_keys ∧ (k, v) ∈ own_entries entry | _ => False end →
    dhcp_rel (own_entries entry) l l1).
  { intros e l0 l1 [Heff|[-> _]] Hc Hk; [by eapply edit_rel|apply dhcp_rel_refl]. }
  inversion 1 as [|e es ? l1 ? Heff Hs]; subst. eapply dhcp_rel_trans; [by eapply Hstep; [exact Heff|done|split; by left]|].
  destruct (String.eqb (dnsForwardZone entry) EmptyString); inversion Hs as [|e es ? l2 ? Heff2 Hs2]; subst; [apply dhcp_rel_refl|].
  inversion Hs2; subst. eapply Hstep; [exact Heff2|done|]. split; right; by left.
Qed.

Definition forwarded (plan : applyPlan) (mf : managedManifest) (l l' : list Section) : Prop :=
  dhcp_rel (own_entries (mm_DNSForward mf)) l l' ∧ in_place (pl_dnsForward plan) l'.
Definition dhcp_either (plan : applyPlan) (mf : managedManifest) (b0 b : B) : Prop :=
  only "dhcp" b0 b ∧
  (u_committed "dhcp" b = u_committed "dhcp" b0 ∨
   pl_dnsForward plan ≠ mm_DNSForward mf ∧ forwarded plan mf (u_committed "dhcp" b0) (u_committed "dhcp" b)).
Definition dhcp_done (plan : applyPlan) (mf : managedManifest) (b0 b : B) : Prop :=
  if String.eqb (pl_dnsForward plan) (mm_DNSForward mf) then b = b0
  else only "dhcp" b0 b ∧ forwarded plan mf (u_committed "dhcp" b0) (u_committed "dhcp" b) ∧
       u_staged "dhcp" b = u_committed "dhcp" b.
Definition dhcp_manifest (plan : applyPlan) (mf : managedManifest) : managedManifest :=
  mkManaged (mm_Network mf) (mm_WANKeys mf) (pl_dnsForward plan)
    (if String.eqb (pl_dnsForward plan) (mm_DNSForward mf) then mm_DNSForwardUnverified mf else true).

Lemma still_dhcp plan mf b0 m a : holds (still "dhcp" b0) m a → holds (dhcp_either plan mf b0) m a.
Proof. apply holds_impl. intros b [Ho Hc]. split; [done|]. by left. Qed.
Lemma drop_edits_ok entry : edits_of "dhcp" (drop_edits entry).
Proof.
  unfold drop_edits. destruct (String.eqb entry EmptyString); [constructor|]. constructor; [done|].
  destruct (String.eqb (dnsForwardZone entry) EmptyString); repeat constructor.
Qed.
Lemma add_edits_ok entry : edits_of "dhcp" (server_edits entry) ∧ edits_of "dhcp" (rebind_edits entry).
Proof.
  unfold server_edits, rebind_edits. destruct (String.eqb_spec entry EmptyString); cbn [orb]; [by split; constructor|].
  destruct (String.eqb_spec (dnsForwardZone entry) EmptyString); split; repeat constructor; done.
Qed.

Lemma apply_dhcp_spec plan mf b0 m :
  ensures (holds (λ b, b = b0) m) (apply_dhcp mf plan)
    (λ r, holds (λ b, match r with
                      | Ok mf' => dhcp_done plan mf b0 b ∧ mf' = dhcp_manifest plan mf
                      | Fail _ => dhcp_either plan mf b0 b
                      end) m) (holds (dhcp_either plan mf b0) m).
Proof.
  unfold apply_dhcp, dhcp_done, dhcp_manifest. destruct (String.eqb_spec (pl_dnsForward plan) (mm_DNSForward mf)) as [E|E].
  { intros a [Hb Hm]. split; [|done]. split; [exact Hb|]. rewrite E. by destruct mf. }
  pose proof (still_dhcp plan mf b0 m) as HC.
  eapply ensures_bindR.
  { eapply wrapE_keeps; [apply (revert_spec "dhcp" b0); [by intros b ->; split; [apply only_refl|done]|exact HC]|by intros]. }
  2: { intros e a [[Hs _] Hm]. apply HC. by split. }
  intros out. rewrite drop_forward_edits, add_server_edits, add_rebind_edits. destruct (add_edits_ok (pl_dnsForward plan)) as [Hse Hre]. eapply ensures_bind.
  { eapply ensures_pre; [apply (run_ignoring_spec "dhcp" _ b0 (u_committed "dhcp" b0) m); [apply drop_edits_ok|exact HC]|].
    intros a [[_ Hmid] Hm]. split; [by apply Hmid|done]. }
  intros u. apply (ensures_at _ m). intros b1 (l1 & Hmid1 & Hig). apply ignored_drop in Hig.
  eapply ensures_bindR.
  { eapply wrapE_keeps; [eapply ensures_pre; [apply (run_edits_spec "dhcp" _ b0 l1 m); [exact Hse|exact HC]|]|by intros].
    intros a [Hb Hm]. split; [by rewrite Hb|done]. }
  2: { intros e a [(l' & [Hs _] & _) Hm]. apply HC. by split. }
  intros w. apply (ensures_at _ m). intros b1' (l1' & Hmid1' & Hst1). specialize (Hst1 eq_refl).
  eapply ensures_bindR.
  { eapply wrapE_keeps; [eapply ensures_pre; [apply (run_edits_spec "dhcp" _ b0 l1' m); [exact Hre|exact HC]|]|by intros].
    intros a [Hb Hm]. split; [by rewrite Hb|done]. }
  2: { intros e a [(l' & [Hs _] & _) Hm]. apply HC. by split. }
  intros v. apply (ensures_at _ m). intros b2 (l2 & Hmid2 & Hst). destruct (stages_add _ _ _ _ Hst1 (Hst eq_refl)) as [Hin Hrel].
  assert (Hf : forwarded plan mf (u_committed "dhcp" b0) l2).
  { split; [|done]. eapply dhcp_rel_trans; [exact Hig|]. eapply dhcp_rel_weaken; [|exact Hrel]. by intros x ?%not_elem_of_nil. }
  eapply ensures_bindR.
  { eapply wrapE_keeps; [eapply ensures_pre; [apply (uci_commit_spec "dhcp" b0 l2 m); exact HC|]|by intros].
    intros a [Hb Hm]. split; [by rewrite Hb|done]. }
  - intros out2 a [(Ho & Hc & Hs) Hm]. split; [|done]. split; [|done]. rewrite Hs, Hc. done.
  - intros e a [(Ho & Hc) Hm]. split; [|done]. split; [done|]. destruct Hc as [Hc|Hc]; [by left|right]. by rewrite Hc.
Qed.

(** ** The manifest, the reloads and the restart *)
Lemma loadManifest_spec (K : B → Prop) m C : (∀ a, holds K m a → C a) →
  ensures (holds K m) loadManifest (λ r, holds (λ b, K b ∧ ∀ mf, r = Ok mf → mf = default zero_manifest m) m) C.
Proof.
  intros HC a [Ha Hm]. unfold loadManifest, ask. destruct (e_dies (a_tick a)); [by apply HC|].
  destruct (e_load (a_tick a)) as [[verb e]|]; (split; [split; [done|]|done]); [done|]. intros mf [= <-]. cbn. by rewrite Hm.
Qed.
(** A write that fails leaves the manifest as it was. *)
Lemma saveManifest_spec mf (K : B → Prop) (M : option managedManifest → Prop) C :
  (∀ a, K (a_box a) → M (a_manifest a) → C a) →
  ensures (λ a, K (a_box a) ∧ M (a_manifest a)) (saveManifest mf)
    (λ r a, K (a_box a) ∧ if is_ok r then a_manifest a = Some mf else M (a_manifest a)) C.
Proof.
  intros HC a [Ha Hm]. unfold saveManifest, ask. destruct (e_dies (a_tick a)); [by apply HC|].
  by destruct (e_save (a_tick a)).
Qed.

Lemma harmless_spec argv (J : B → Prop) (M : option managedManifest → Prop) : harmless argv →
  (∀ b b', J b → (∀ c, untouched c b b') → J b') → keeps (λ a, J (a_box a) ∧ M (a_manifest a)) (Run argv).
Proof.
  intros Hh HJ a [Ha Hm]. unfold Run. destruct (e_dies (a_tick a)); [done|].
  destruct (u_run (a_tick a) argv (a_box a)) as [r b'] eqn:E. split; [|done]. eapply HJ; [exact Ha|].
  intros c. by eapply law_harmless.
Qed.
Lemma ask_keeps {A} (f : nat → A) (J : B → Prop) (M : option managedManifest → Prop) :
  keeps (λ a, J (a_box a) ∧ M (a_manifest a)) (ask f).
Proof. intros a Ha. unfold ask. by destruct (e_dies (a_tick a)). Qed.
Lemma restartDnsmasq_keeps entry (J : B → Prop) (M : option managedManifest → Prop) :
  (∀ b b', J b → (∀ c, untouched c b b') → J b') → keeps (λ a, J (a_box a) ∧ M (a_manifest a)) (restartDnsmasq entry).
Proof.
  intros HJ. unfold restartDnsmasq. destruct (_ && _); [apply keeps_ret|]. apply keeps_bind; [apply ask_keeps|]. intros log.
  apply keeps_bind; [by apply harmless_spec|]. intros r. apply keeps_ret.
Qed.

(** The forward of the manifest, once the restarted dnsmasq announced it. *)
Definition verified (m : managedManifest) : managedManifest := mkManaged (mm_Network m) (mm_WANKeys m) (mm_DNSForward m) false.
Lemma apply_reloads_spec mf touched (J : B → Prop) : (∀ b b', J b → (∀ c, untouched c b b') → J b') →
  ensures (holds J (Some mf)) (apply_reloads mf touched)
    (λ r a, J (a_box a) ∧ if is_ok r then a_manifest a = Some (verified mf) else a_manifest a = Some mf)
    (λ a, J (a_box a) ∧ a_manifest a = Some mf).
Proof.
  intros HJ. unfold apply_reloads.
  pose proof (harmless_spec) as Hh.
  eapply ensures_bindR.
  { apply (keeps_wrapE (λ a, J (a_box a) ∧ a_manifest a = Some mf)). by apply (Hh _ J (λ m, m = Some mf)). }
  2: by intros.
  intros ?. eapply ensures_bindR.
  { instantiate (1 := λ _ a, J (a_box a) ∧ a_manifest a = Some mf).
    destruct touched; [apply (keeps_wrapE (λ a, J (a_box a) ∧ a_manifest a = Some mf)); by apply (Hh _ J (λ m, m = Some mf))|].
    by intros d. }
  2: by intros.
  intros ?. destruct (mm_DNSForwardUnverified mf) eqn:Eu.
  - eapply ensures_bindR.
    { apply (keeps_wrapE (λ a, J (a_box a) ∧ a_manifest a = Some mf)). by apply (restartDnsmasq_keeps _ J (λ m, m = Some mf)). }
    2: by intros.
    intros ?. by apply (saveManifest_spec (verified mf) J (λ m, m = Some mf)).
  - intros d [Ha Hm]. split; [done|]. cbn. rewrite Hm. destruct mf. cbn in *. by subst.
Qed.

(** ** Where an apply can stop *)
Definition same (c : string) (b0 b : B) : Prop := u_committed c b = u_committed c b0.
Definition others (b0 b : B) : Prop := ∀ c, c ∉ ["firewall"; "network"; "dhcp"] → untouched c b0 b.
Definition fw_new (plan : applyPlan) (b0 b : B) : Prop := replaced plan (u_committed "firewall" b0) (u_committed "firewall" b).
Definition net_new (plan : applyPlan) (mf : managedManifest) (b0 b : B) : Prop :=
  match pl_wan plan with
  | None => same "network" b0 b
  | Some wan => merged (mm_WANKeys mf) wan (u_committed "network" b0) (u_committed "network" b)
  end.
Definition dhcp_new (plan : applyPlan) (mf : managedManifest) (b0 b : B) : Prop :=
  if String.eqb (pl_dnsForward plan) (mm_DNSForward mf) then same "dhcp" b0 b
  else forwarded plan mf (u_committed "dhcp" b0) (u_committed "dhcp" b).
Definition applied_manifest (plan : applyPlan) (mf : managedManifest) : managedManifest :=
  dhcp_manifest plan (net_manifest plan mf).

(** The four states an apply can leave, each after the one before it. *)
Inductive stopped (plan : applyPlan) (m0 : option managedManifest) (b0 : B) (a : Agent B) : Prop :=
| stopped_before : same "firewall" b0 (a_box a) → same "network" b0 (a_box a) → same "dhcp" b0 (a_box a) →
    a_manifest a = m0 → stopped plan m0 b0 a
| stopped_firewall : fw_new plan b0 (a_box a) → same "network" b0 (a_box a) → same "dhcp" b0 (a_box a) →
    a_manifest a = m0 → stopped plan m0 b0 a
| stopped_network : fw_new plan b0 (a_box a) → net_new plan (default zero_manifest m0) b0 (a_box a) → same "dhcp" b0 (a_box a) →
    a_manifest a = m0 → stopped plan m0 b0 a
| stopped_dhcp : fw_new plan b0 (a_box a) → net_new plan (default zero_manifest m0) b0 (a_box a) →
    dhcp_new plan (default zero_manifest m0) b0 (a_box a) →
    (let m := applied_manifest plan (default zero_manifest m0) in a_manifest a ∈ [m0; Some m; Some (verified m)]) →
    stopped plan m0 b0 a.
Definition stop (plan : applyPlan) (m0 : option managedManifest) (b0 : B) (a : Agent B) : Prop :=
  others b0 (a_box a) ∧ stopped plan m0 b0 a.
(** Nothing is left staged where nothing was. *)
Definition quiet (c : string) (b : B) : Prop := u_staged c b = u_committed c b.
Definition settled (b0 b : B) : Prop := ∀ c, quiet c b0 → quiet c b.
Definition finished (plan : applyPlan) (mf : managedManifest) (b0 b : B) : Prop :=
  others b0 b ∧ fw_new plan b0 b ∧ net_new plan mf b0 b ∧ dhcp_new plan mf b0 b.

Lemma only_settled cfg (b0 b : B) : only cfg b0 b → quiet cfg b → settled b0 b.
Proof.
  intros Ho Hq c H0. destruct (decide (c = cfg)) as [->|Hne]; [done|]. destruct (Ho c Hne) as [E1 E2].
  unfold quiet in *. congruence.
Qed.
Lemma fw_done_settled plan b0 b : fw_done plan b0 b → settled b0 b ∧ quiet "firewall" b.
Proof. intros (Ho & _ & Hq). split; [by eapply only_settled|done]. Qed.
Lemma net_done_settled plan mf b0 b : net_done plan mf b0 b → settled b0 b.
Proof. unfold net_done. destruct (pl_wan plan); [intros (Ho & _ & Hq); by eapply only_settled|by intros -> c]. Qed.
Lemma dhcp_done_settled plan mf b0 b : dhcp_done plan mf b0 b → settled b0 b.
Proof. unfold dhcp_done. destruct (String.eqb _ _); [by intros -> c|intros (Ho & _ & Hq); by eapply only_settled]. Qed.

Lemma only_same cfg (b0 b : B) c : only cfg b0 b → c ≠ cfg → same c b0 b.
Proof. intros H Hc. by apply H. Qed.
Lemma only_others cfg (b0 b1 b : B) : cfg ∈ ["firewall"; "network"; "dhcp"] → others b0 b1 → only cfg b1 b → others b0 b.
Proof. intros Hc H0 H1 c Hn. eapply untouched_trans; [by apply H0|]. apply H1. by intros ->. Qed.
Lemma others_refl (b0 : B) : others b0 b0.
Proof. by intros c _. Qed.
#[local] Hint Resolve others_refl : core.

Lemma stop_in_firewall plan m0 b0 a : holds (fw_either plan b0) m0 a → stop plan m0 b0 a.
Proof.
  intros [[Ho Hc] Hm]. split; [eapply only_others; [|done|exact Ho]; by left|].
  destruct Hc; [apply stopped_before|apply stopped_firewall]; try done; by eapply only_same.
Qed.
Lemma fw_done_new plan b0 b1 : fw_done plan b0 b1 →
  others b0 b1 ∧ fw_new plan b0 b1 ∧ same "network" b0 b1 ∧ same "dhcp" b0 b1.
Proof. intros (Ho & Hr & _). split_and!; [eapply only_others; [|done|exact Ho]; by left|done|by eapply only_same..]. Qed.
Lemma stop_in_network plan m0 b0 b1 a : fw_done plan b0 b1 → holds (net_either plan (default zero_manifest m0) b1) m0 a →
  stop plan m0 b0 a.
Proof.
  intros (Hoth & Hf & Hn & Hd)%fw_done_new [[Ho Hc] Hm]. split; [eapply only_others; [|exact Hoth|exact Ho]; by right; left|].
  pose proof (only_same _ _ _ "firewall" Ho ltac:(done)) as E1. pose proof (only_same _ _ _ "dhcp" Ho ltac:(done)) as E2.
  unfold fw_new, same in *. destruct Hc as [Hc|(wan & Hw & Hc)].
  - apply stopped_firewall; unfold fw_new, same; congruence.
  - apply stopped_network; unfold fw_new, same, net_new; try congruence. rewrite Hw. congruence.
Qed.
Lemma net_done_new plan mf b0 b1 b2 : fw_done plan b0 b1 → net_done plan mf b1 b2 →
  others b0 b2 ∧ fw_new plan b0 b2 ∧ net_new plan mf b0 b2 ∧ same "dhcp" b0 b2.
Proof.
  intros (Hoth & Hf & Hn & Hd)%fw_done_new. unfold net_done, net_new. destruct (pl_wan plan) as [wan|]; [|by intros ->].
  intros (Ho & Hc & _). pose proof (only_same _ _ _ "firewall" Ho ltac:(done)) as E1.
  pose proof (only_same _ _ _ "dhcp" Ho ltac:(done)) as E2.
  split; [eapply only_others; [|exact Hoth|exact Ho]; by right; left|]. unfold fw_new, same in *. split_and!; congruence.
Qed.
Lemma stop_in_dhcp plan m0 b0 b1 b2 a : fw_done plan b0 b1 → net_done plan (default zero_manifest m0) b1 b2 →
  holds (dhcp_either plan (default zero_manifest m0) b2) m0 a → stop plan m0 b0 a.
Proof.
  intros Hf Hn [[Ho Hc] Hm]. destruct (net_done_new _ _ _ _ _ Hf Hn) as (Hoth & Hf' & Hn' & Hd').
  split; [eapply only_others; [|exact Hoth|exact Ho]; by right; right; left|].
  pose proof (only_same _ _ _ "firewall" Ho ltac:(done)) as E1. pose proof (only_same _ _ _ "network" Ho ltac:(done)) as E2.
  unfold fw_new, net_new, same in *. rewrite <- E1 in Hf'. rewrite <- E2 in Hn'. destruct Hc as [Hc|[Hne Hc]].
  - apply stopped_network; unfold fw_new, net_new, same; congruence.
  - apply stopped_dhcp; unfold fw_new, net_new, dhcp_new; try done.
    + apply String.eqb_neq in Hne. rewrite Hne. congruence.
    + rewrite Hm. by left.
Qed.
Lemma dhcp_done_finished plan mf b0 b1 b2 b3 : fw_done plan b0 b1 → net_done plan mf b1 b2 → dhcp_done plan mf b2 b3 →
  finished plan mf b0 b3.
Proof.
  intros Hf Hn. destruct (net_done_new _ _ _ _ _ Hf Hn) as (Hoth & Hf' & Hn' & Hd').
  unfold dhcp_done, finished, dhcp_new. destruct (String.eqb _ _); [by intros ->|]. intros (Ho & Hc & _).
  pose proof (only_same _ _ _ "firewall" Ho ltac:(done)) as E1. pose proof (only_same _ _ _ "network" Ho ltac:(done)) as E2.
  split; [eapply only_others; [|exact Hoth|exact Ho]; by right; right; left|].
  unfold fw_new, net_new, same in *. rewrite E1, E2. split_and!; congruence.
Qed.
Lemma finished_stop plan m0 b0 a : finished plan (default zero_manifest m0) b0 (a_box a) →
  (let m := applied_manifest plan (default zero_manifest m0) in a_manifest a ∈ [m0; Some m; Some (verified m)]) → stop plan m0 b0 a.
Proof. intros (Ho & Hf & Hn & Hd) Hm. split; [done|]. by apply stopped_dhcp. Qed.
Lemma finished_stable plan mf b0 b b' : finished plan mf b0 b → (∀ c, untouched c b b') → finished plan mf b0 b'.
Proof.
  intros (Ho & Hf & Hn & Hd) Hu. split; [intros c Hc; eapply untouched_trans; [by apply Ho|apply Hu]|].
  unfold fw_new, net_new, dhcp_new, same in *. destruct (Hu "firewall") as [_ ->], (Hu "network") as [_ ->], (Hu "dhcp") as [_ ->]. done.
Qed.

Lemma Apply_spec o plan b0 m0 (mf := default zero_manifest m0) :
  planFromState (default emptyState o) = Ok plan → plan_ok plan → Forall (λ k, is_key k = true) (mm_WANKeys mf) →
  ensures (holds (λ b, b = b0) m0) (Apply o)
    (λ r a, stop plan m0 b0 a ∧
       (is_ok r = true → finished plan mf b0 (a_box a) ∧ settled b0 (a_box a) ∧ quiet "firewall" (a_box a) ∧
                         a_manifest a = Some (verified (applied_manifest plan mf)) ∧ r = e_hash (default emptyState o)))
    (stop plan m0 b0).
Proof.
  intros Hplan Hp Hk. unfold Apply. rewrite Hplan.
  eapply ensures_bindR; [eapply ensures_conseq; [by apply (apply_firewall_spec plan b0 m0)|done|done|apply stop_in_firewall]| |].
  2: { intros e a [Ha Hm]. split; [by apply stop_in_firewall|done]. }
  intros u. apply (ensures_at _ m0). intros b1 Hf. cbn [is_ok] in Hf.
  assert (Hstop1 : ∀ a, holds (λ b, b = b1) m0 a → stop plan m0 b0 a).
  { intros a [Hb Hm]. apply (stop_in_network _ _ _ b1); [done|]. split; [|done]. rewrite Hb. split; [apply only_refl|by left]. }
  eapply ensures_bindR; [apply (loadManifest_spec (λ b, b = b1) m0); exact Hstop1| |].
  2: { intros e a [[Hb _] Hm]. split; [by apply Hstop1|done]. }
  intros x. apply (ensures_at _ m0). intros b1' [-> Hx]. specialize (Hx x eq_refl) as ->. fold mf.
  eapply ensures_bindR; [eapply ensures_conseq; [by apply (apply_network_spec plan mf b1 m0)|done|done|intros a; by apply stop_in_network]| |].
  2: { intros e a Ha. split; [by eapply stop_in_network|done]. }
  intros m1. apply (ensures_at _ m0). intros b2 [Hn ->].
  eapply ensures_bindR; [eapply ensures_conseq; [by apply (apply_dhcp_spec plan (net_manifest plan mf) b2 m0)|done|done|intros a; by eapply stop_in_dhcp]| |].
  2: { intros e a Ha. split; [by eapply stop_in_dhcp|done]. }
  intros m2. apply (ensures_at _ m0). intros b3 [Hd ->]. fold (applied_manifest plan mf).
  assert (Hfin : finished plan mf b0 b3) by (by eapply dhcp_done_finished).
  destruct (fw_done_settled _ _ _ Hf) as [Hset1 Hfw1].
  assert (Hset : settled b1 b3) by (intros c Hc; eapply dhcp_done_settled, net_done_settled; done).
  eapply ensures_bindR.
  { eapply ensures_pre; [apply (saveManifest_spec _ (λ b, b = b3) (λ m, m = m0))|done].
    intros a Hb Hm. apply finished_stop; [by rewrite Hb|]. rewrite Hm. by left. }
  2: { intros e a [Hb Hm]. split; [|done]. apply finished_stop; [by rewrite Hb|]. cbn in Hm. rewrite Hm. by left. }
  intros u2. cbn [is_ok].
  pose (J := λ b, finished plan mf b0 b ∧ settled b1 b).
  assert (HJ : ∀ b b', J b → (∀ c, untouched c b b') → J b').
  { intros b b' [H1 H2] Hu. split; [by eapply finished_stable|]. intros c Hc%H2. destruct (Hu c). unfold quiet in *. congruence. }
  eapply ensures_bindR.
  { eapply ensures_conseq; [apply (apply_reloads_spec (applied_manifest plan mf) _ J HJ)| |done|].
    - intros a [Hb Hm]. split; [by rewrite Hb|done].
    - intros a [[Hb _] Hm]. apply finished_stop; [done|]. rewrite Hm. by right; left. }
  2: { intros e a [[Hb _] Hm]. split; [|done]. apply finished_stop; [done|]. cbn in Hm. rewrite Hm. by right; left. }
  intros u3 a [[Hb Hs] Hm]. cbn in Hm |- *. split; [apply finished_stop; [done|]; rewrite Hm; by right; right; left|].
  intros _. split; [done|]. split; [intros c Hc; by apply Hs, Hset1|]. split; [by apply Hs|done].
Qed.

End Apply.

Lemma home_plan_ok : plan_ok home_plan.
Proof.
  split.
  - change (Forall (map_Forall (λ k v, is_key k = true ∧ v ≠ EmptyString)) (pl_redirects home_plan ++ pl_rules home_plan)).
    apply (bool_decide_unpack _). vm_compute. exact I.
  - intros wan [= <-]. change (map_Forall (λ k v, is_key k = true ∧ v ≠ EmptyString) (default ∅ (pl_wan home_plan))).
    apply (bool_decide_unpack _). vm_compute. exact I.
Qed.
