(* ===== verification/FirewallSync.v ===== *)
(** * What the firewall reports is what it was told

    An apply that succeeded, followed by a [Get], gives back the very state that
    was applied, so a difference the control plane sees is a change somebody
    made.  [in_step] lists what the box must be like for that: nothing staged,
    a wan section without options of Rasputin's that Rasputin does not remember,
    a dnsmasq that serves the forward.  With FirewallPlan this reaches from the
    operator's intents to the fingerprint of what the firewall reports. *)
From Stdlib Require Import Ascii String.
From S2P Require Import Prelude GoStrings GoNet GoSort Crash FirewallIntent FirewallUci FirewallBox FirewallSim FirewallPlan FirewallApply.
Open Scope Z_scope.
#[local] Arguments String.append : simpl nomatch.
#[local] Arguments HasPrefix : simpl never.
#[local] Abbreviation strings := (fmap (M := gmap string) AStr).

(** ** Words of a list option *)
Lemma fields_aux_space a b cur : fields_aux (a +:+ String " "%char b) cur = fields_aux a cur ++ fields_aux b EmptyString.
Proof.
  revert cur. induction a as [|c a IH]; intros cur; [done|]. cbn [String.append fields_aux]. destruct (is_space c); [|apply IH].
  by rewrite IH, app_assoc.
Qed.
Lemma Fields_word w : is_word w = true → Fields w = [w].
Proof. intros Hw. apply (Fields_Join [w]). by constructor. Qed.
(** A word of the list is a field of the list written out, whatever else is in it. *)
Lemma word_of_join w l : is_word w = true → w ∈ l → w ∈ Fields (Join l " ").
Proof.
  intros Hw. induction l as [|x l IH]; intros Hin; [by apply not_elem_of_nil in Hin|].
  destruct l as [|y l]; [apply list_elem_of_singleton in Hin as <-; cbn [Join]; rewrite Fields_word by done; by left|].
  change (Join (x :: y :: l) " ") with (x +:+ String " "%char (Join (y :: l) " ")). unfold Fields. rewrite fields_aux_space.
  apply elem_of_app. apply elem_of_cons in Hin as [<-|Hin]; [left|right; by apply IH]. fold (Fields w). rewrite Fields_word by done. by left.
Qed.

(** ** Programs that only read *)
Section Reading.
Context {B : Type} {UB : Uci B} {UL : UciLaws B} {UE : UciEnv}.
#[local] Abbreviation IO := (Crash.IO (Agent B)).

(** The world answers: the agent lives, the manifest is read, and ubus fails
    only for what is not there. *)
Record answering : Prop := {
  ans_alive : ∀ t, e_dies t = false;
  ans_load : ∀ t, e_load t = None;
  ans_ubus : ∀ t cfg (b : B) e b', is_key cfg = true → u_run t (ubus_get cfg) b = (Fail e, b') → isUbusNotFound e = true;
  ans_ubus1 : ∀ t cfg sec (b : B) e b', is_key cfg = true → is_key sec = true → u_run t (ubus_get1 cfg sec) b = (Fail e, b') → isUbusNotFound e = true
}.

(** The box is as [b] as far as its configuration goes. *)
Definition like (b : B) (m : option managedManifest) (a : Agent B) : Prop := (∀ c, untouched c b (a_box a)) ∧ a_manifest a = m.
Definition reads {A} (b : B) m (p : IO A) (r : A) : Prop := ∀ a, like b m a → ∃ a', p a = (Some r, a') ∧ like b m a'.

Lemma reads_ret {A} b m (r : A) : reads b m (ret r) r.
Proof. intros a Ha. by exists a. Qed.
Lemma reads_bind {A C} b m (p : IO A) (f : A → IO C) x r : reads b m p x → reads b m (f x) r → reads b m (bind p f) r.
Proof. intros Hp Hf a Ha. destruct (Hp a Ha) as (a1 & E1 & H1). destruct (Hf a1 H1) as (a2 & E2 & H2). exists a2. unfold bind. by rewrite E1. Qed.
Lemma reads_bindR {A C} b m (p : IO (result A)) (f : A → IO (result C)) x r :
  reads b m p (Ok x) → reads b m (f x) r → reads b m (bindR p f) r.
Proof. intros Hp Hf. by apply (reads_bind _ _ _ _ (Ok x)). Qed.
Lemma reads_wrapE {A} b m pre post (p : IO (result A)) x : reads b m p (Ok x) → reads b m (wrapE pre post p) (Ok x).
Proof. intros Hp. eapply reads_bind; [exact Hp|]. apply reads_ret. Qed.

Lemma like_quiet c b m a : quiet c b → like b m a → quiet c (a_box a) ∧ u_committed c (a_box a) = u_committed c b.
Proof. intros Hq [Hl _]. destruct (Hl c) as [E1 E2]. unfold quiet in *. split; congruence. Qed.

Context (Hans : answering).
(** A command that changes nothing, and what may be concluded from its answer. *)
Lemma Run_reads argv b m a : harmless argv → like b m a →
  ∃ r b' a', u_run (a_tick a) argv (a_box a) = (r, b') ∧ Run argv a = (Some r, a') ∧ like b m a'.
Proof.
  intros Hh [Hl Hm]. unfold Run. rewrite ans_alive by done. destruct (u_run (a_tick a) argv (a_box a)) as [r b'] eqn:E.
  do 3 eexists. split; [done|]. split; [done|]. split; [|done]. intros c. cbn. eapply untouched_trans; [apply Hl|]. by eapply law_harmless.
Qed.
Lemma ask_answers {A} (f : nat → A) x b m : (∀ t, f t = x) → reads b m (ask f) x.
Proof. intros Hf a Ha. unfold ask. rewrite ans_alive by done. rewrite Hf. by eexists. Qed.

Lemma readUbusConfig_reads cfg b m : is_key cfg = true → quiet cfg b → reads b m (readUbusConfig cfg) (Ok (map view (u_committed cfg b))).
Proof.
  intros Hk Hq a Ha. destruct (like_quiet _ _ _ _ Hq Ha) as [Hqa Hc]. unfold readUbusConfig, bind.
  destruct (Run_reads (ubus_get cfg) b m a) as (r & b' & a' & E & -> & Ha'); [done|done|]. exists a'. split; [|done]. cbn. f_equal. f_equal.
  pose proof (law_ubus _ _ _ _ _ Hk E Hqa) as Hr. destruct r as [out|e].
  - rewrite Hr, Hc. destruct (law_names cfg b) as [_ Hnd].
    destruct (read_values (u_committed cfg b) Hnd) as (x & Hx & Hv); [by apply Forall_forall; intros s Hs k; eapply law_keys|].
    rewrite Hx. by rewrite Hv.
  - apply (ans_ubus Hans) in E as E'; [|done]. rewrite E'. rewrite <- Hc, Hr by done. done.
Qed.
Lemma readUbusSection_reads cfg sec b m s : is_key cfg = true → is_key sec = true → quiet cfg b → s ∈ u_committed cfg b → s_name s = sec →
  reads b m (readUbusSection cfg sec) (Ok (Some (opt_string <$> s_opts s))).
Proof.
  intros Hk Hk' Hq Hs Hn a Ha. destruct (like_quiet _ _ _ _ Hq Ha) as [Hqa Hc]. unfold readUbusSection, bind.
  destruct (Run_reads (ubus_get1 cfg sec) b m a) as (r & b' & a' & E & -> & Ha'); [done|done|]. exists a'. split; [|done]. cbn. f_equal. f_equal.
  pose proof (law_ubus1 _ _ _ _ _ _ Hk Hk' E Hqa) as Hr. destruct r as [out|e].
  - destruct Hr as (i & s' & Hi & Hn' & ->). rewrite Hc in Hi.
    assert (s' = s) as ->.
    { destruct (law_names cfg b) as [_ Hnd]. apply list_elem_of_lookup_1 in Hs as (j & Hj).
      assert (i = j) as <-; [|congruence]. eapply (NoDup_lookup _ i j sec Hnd); change (map s_name ?l) with (s_name <$> l);
        rewrite list_lookup_fmap; [rewrite Hi|rewrite Hj]; cbn; congruence. }
    rewrite read_opts_values; [done|]. intros k. by eapply law_keys.
  - apply (ans_ubus1 Hans) in E as E'; [|done|done]. rewrite E'. exfalso. eapply Hr; [done|rewrite Hc; exact Hs|done].
Qed.
Lemma loadManifest_reads b m : reads b m loadManifest (Ok (default zero_manifest m)).
Proof.
  intros a Ha. unfold loadManifest, ask. rewrite ans_alive, ans_load by done. eexists. split; [cbn; by rewrite (proj2 Ha)|]. split; [apply Ha|done].
Qed.

(** ** The firewall sections *)
Lemma sections_of_view typ l : sections_of typ (map view l) = map (λ s, strings (opt_string <$> s_opts s)) (filter (λ s, s_type s = typ) l).
Proof.
  unfold sections_of. induction l as [|s l IH]; [done|]. cbn [map]. rewrite !filter_cons. cbn [us_typ view].
  destruct (decide (s_type s = typ)); [|done]. cbn [map]. by rewrite IH.
Qed.
Lemma strings_of_opts (m : gmap string string) : opt_string <$> (OStr <$> m) = m.
Proof. rewrite <- map_fmap_compose, (map_fmap_ext _ id) by done. apply map_fmap_id. Qed.
Lemma sections_of_bodies typ l (bodies : list (string * gmap string Opt)) : map body l = bodies →
  map (λ s, strings (opt_string <$> s_opts s)) (filter (λ s, s_type s = typ) l) =
  map (λ x, strings (opt_string <$> x.2)) (filter (λ x, x.1 = typ) bodies).
Proof.
  intros <-. induction l as [|s l IH]; [done|]. cbn [map]. rewrite !filter_cons. cbn [body fst].
  destruct (decide (s_type s = typ)); [|done]. cbn [map]. by rewrite IH.
Qed.
Lemma replaced_sections plan l l' : replaced plan l l' →
  sections_of "redirect" (map view l') = map strings (pl_redirects plan) ∧ sections_of "rule" (map view l') = map strings (pl_rules plan).
Proof.
  intros (l1 & -> & Hb). rewrite !map_app, !sections_of_app.
  assert (Hold : ∀ typ, typ ∈ ["redirect"; "rule"] → sections_of typ (map view (filter (λ s, managed s = false) l)) = []).
  { intros typ Ht. apply sections_of_none, Forall_map, Forall_forall. intros s [Hm _]%list_elem_of_filter E. cbn in E.
    unfold managed, of_type in Hm. apply orb_false_iff in Hm as [H1%String.eqb_neq H2%String.eqb_neq]. rewrite E in H1, H2.
    rewrite !elem_of_cons in Ht. destruct Ht as [|[|[]%not_elem_of_nil]]; done. }
  rewrite !Hold by set_solver. cbn [app]. rewrite !sections_of_view, !(sections_of_bodies _ _ _ Hb), !filter_app, !map_app.
  assert (Hsame : ∀ typ (ms : list (gmap string string)),
    map (λ x : string * gmap string Opt, strings (opt_string <$> x.2)) (filter (λ x, x.1 = typ) (map (λ m, (typ, OStr <$> m)) ms)) = map strings ms).
  { intros typ ms. induction ms as [|m ms IH]; [done|]. cbn [map]. rewrite filter_cons_True by done. cbn [map snd]. by rewrite strings_of_opts, IH. }
  assert (Hother : ∀ typ typ' (ms : list (gmap string string)), typ' ≠ typ →
    filter (λ x : string * gmap string Opt, x.1 = typ) (map (λ m, (typ', OStr <$> m)) ms) = []).
  { intros typ typ' ms Hne. induction ms as [|m ms IH]; [done|]. cbn [map]. by rewrite filter_cons_False. }
  by rewrite !Hsame, (Hother "redirect" "rule"), (Hother "rule" "redirect"), app_nil_r by done.
Qed.

(** ** The wan section *)
(** Every option [Get] would look at is one Rasputin set and remembers, or sets now. *)
Definition wan_owned (mf : managedManifest) (wan : gmap string string) (l : list Section) : Prop :=
  ∃ s, s ∈ l ∧ s_name s = "wan" ∧ ∀ p k, wan !! "proto" = Some p → k ∈ proto_keys p → is_Some (s_opts s !! k) →
    k ∈ mm_WANKeys mf ∨ is_Some (wan !! k).
Lemma merged_observed mf wan l l' : wan_typed wan → deletes_work (B := B) → wan_owned mf wan l → merged (B := B) (mm_WANKeys mf) wan l l' →
  ∃ s', s' ∈ l' ∧ s_name s' = "wan" ∧ observed_wan (Some (opt_string <$> s_opts s')) = strings wan.
Proof.
  intros (p & Hp & _ & Hw) Hdw (s & Hs & Hn & Hown) Hm.
  apply list_elem_of_lookup_1 in Hs as (i & Hi). destruct (Forall2_lookup_l _ _ _ _ _ Hm Hi) as (s' & Hi' & [Hn' _] & _ & Hopt).
  specialize (Hopt Hn). exists s'. split; [by eapply list_elem_of_lookup_2|]. split; [congruence|].
  assert (Hproto : (opt_string <$> s_opts s') !! "proto" = Some p).
  { specialize (Hopt "proto"). rewrite Hp in Hopt. by rewrite lookup_fmap, Hopt. }
  unfold observed_wan. f_equal. apply map_eq. intros k. apply option_eq. intros v. rewrite map_lookup_filter_Some.
  unfold wan_keys. rewrite Hproto. cbn [fst].
  change (("proto" :: wanProtoKeys p) ++ ["_comment"]) with (proto_keys p). rewrite lookup_fmap. specialize (Hopt k). split.
  - intros [Hv Hk]. destruct (wan !! k) as [v'|] eqn:Ek; [by rewrite Hopt in Hv|]. exfalso.
    destruct (s_opts s' !! k) as [o'|] eqn:Eo; [|done]. destruct Hopt as [Hd Hgone].
    destruct (Hown p k Hp Hk) as [Hin|[v' ?]]; [|by specialize (Hgone Hdw Hin)|congruence].
    destruct Hd as [<-|[_ ?]]; [eauto|done].
  - intros Hv. rewrite Hv in Hopt. rewrite Hopt. split; [done|]. by apply (Hw k v Hv).
Qed.

(** ** The forward *)
Lemma dhcp_rel_first D l l' : dhcp_rel D l l' → is_Some (first_dnsmasq l) → is_Some (first_dnsmasq l').
Proof.
  unfold first_dnsmasq. induction 1 as [|s s' l l' ([_ Ht] & _) _ IH]; [done|]. rewrite !filter_cons. unfold of_type in *. rewrite Ht.
  destruct (decide (String.eqb (s_type s) "dnsmasq" = true)); [by eexists|done].
Qed.
(** The forward can be served: dnsmasq has a section for it, and the name under
    it resolves to its target. *)
Record servable (entry : string) (l : list Section) : Prop := {
  sv_word : is_word entry = true;
  sv_zone : is_word (dnsForwardZone entry) = true;
  sv_section : is_Some (first_dnsmasq l);
  sv_answer : ∃ zone target want, splitDNSForward entry = Some (zone, target) ∧ ParseAddr target = Some want ∧
                ∀ t, ∃ addrs, e_lookup t zone = Ok addrs ∧ want ∈ addrs
}.
Lemma present_view entry l : servable entry l → in_place entry l →
  existsb (λ s, String.eqb (us_typ s) "dnsmasq" && bool_decide (entry ∈ Fields (value_of (us_opts s) "server"))
    && (String.eqb (dnsForwardZone entry) EmptyString || bool_decide (dnsForwardZone entry ∈ Fields (value_of (us_opts s) "rebind_domain"))))
    (map view l) = true.
Proof.
  intros [Hw Hz [s Hs] _] Hin. assert (Hne : entry ≠ EmptyString) by (by intros ->).
  assert (Hzne : dnsForwardZone entry ≠ EmptyString) by (intros E; by rewrite E in Hz).
  destruct (Hin Hne s Hs) as [H1 H2]. specialize (H2 Hzne).
  assert (Hfield : ∀ w k, is_word w = true → w ∈ items (s_opts s !! k) → w ∈ Fields (value_of (us_opts (view s)) k)).
  { intros w k Hww Hi. unfold value_of. cbn [view us_opts]. rewrite lookup_fmap. destruct (s_opts s !! k) as [[x|x]|];
      cbn [fmap option_fmap option_map default from_option id opt_string items] in *.
    - apply list_elem_of_singleton in Hi as ->. rewrite Fields_word by done. by left.
    - by apply word_of_join.
    - by apply not_elem_of_nil in Hi. }
  assert (Hl : s ∈ l ∧ of_type "dnsmasq" s = true).
  { unfold first_dnsmasq in Hs. destruct (filter _ l) as [|x xs] eqn:E; [done|]. injection Hs as <-.
    assert (Hx : x ∈ filter (λ s, of_type "dnsmasq" s = true) l) by (rewrite E; by left). by apply list_elem_of_filter in Hx as [? ?]. }
  apply existsb_exists. exists (view s). split; [apply in_map, list_elem_of_In; apply Hl|]. cbn [us_typ view]. rewrite (proj2 Hl : String.eqb _ _ = true).
  rewrite bool_decide_eq_true_2 by (by apply Hfield). cbn [andb]. apply orb_true_iff. right. apply bool_decide_eq_true_2. by apply Hfield.
Qed.
Lemma dnsForwardPresent_reads entry b m : quiet "dhcp" b → servable entry (u_committed "dhcp" b) → in_place entry (u_committed "dhcp" b) →
  reads b m (dnsForwardPresent entry) (Ok true).
Proof.
  intros Hq Hsv Hin. eapply reads_bindR; [by apply reads_wrapE, readUbusConfig_reads|]. cbv beta zeta. rewrite present_view by done. apply reads_ret.
Qed.
Lemma dnsForwardServing_reads entry b m l : servable entry l → reads b m (dnsForwardServing entry) true.
Proof.
  intros [_ _ _ (zone & target & want & Es & Ep & Hl)] a Ha. unfold dnsForwardServing. rewrite Es, Ep. unfold bind, ask.
  rewrite ans_alive by done. destruct (Hl (a_tick a)) as (addrs & -> & Hin).
  assert (existsb (λ x, bool_decide (x = want)) addrs = true) as ->.
  { apply existsb_exists. exists want. split; [by apply list_elem_of_In|]. by apply bool_decide_eq_true_2. }
  eexists. split; [reflexivity|exact Ha].
Qed.
Lemma get_dhcp_reads plan mf b m : quiet "dhcp" b → mm_DNSForward mf = pl_dnsForward plan → mm_DNSForwardUnverified mf = false →
  (pl_dnsForward plan ≠ EmptyString → servable (pl_dnsForward plan) (u_committed "dhcp" b) ∧ in_place (pl_dnsForward plan) (u_committed "dhcp" b)) →
  reads b m (get_dhcp mf) (Ok (plan_server plan)).
Proof.
  intros Hq Hd Hu Hsv. unfold get_dhcp, plan_server. rewrite Hd, Hu. destruct (String.eqb_spec (pl_dnsForward plan) EmptyString) as [E|E].
  - apply reads_ret.
  - cbn [negb orb andb]. destruct (Hsv E). eapply reads_bindR; [by apply dnsForwardPresent_reads|].
    eapply reads_bind; [by eapply dnsForwardServing_reads|]. apply reads_ret.
Qed.

(** ** Get after Apply *)
Record in_step (plan : applyPlan) (mf : managedManifest) (b : B) : Prop := {
  is_quiet : quiet "network" b ∧ quiet "dhcp" b;
  is_keys : Forall (λ k, is_key k = true) (mm_WANKeys mf);
  is_wan : ∀ wan, pl_wan plan = Some wan → wan_owned mf wan (u_committed "network" b);
  is_dns : pl_dnsForward plan ≠ EmptyString → servable (pl_dnsForward plan) (u_committed "dhcp" b) ∧
             (pl_dnsForward plan = mm_DNSForward mf → in_place (pl_dnsForward plan) (u_committed "dhcp" b))
}.
Lemma Get_reads plan mf b0 b h : deletes_work (B := B) → in_step plan mf b0 → (∀ wan, pl_wan plan = Some wan → wan_typed wan) →
  finished plan mf b0 b → settled b0 b → quiet "firewall" b → e_hash (plan_state plan) = Ok h →
  reads b (Some (verified (applied_manifest plan mf))) Get (Ok (plan_state plan, h)).
Proof.
  intros Hdw [[Hqn Hqd] _ Hwan Hdns] Htyped (_ & Hfw & Hnet & Hdhcp) Hset Hqf Hh.
  unfold Get. eapply reads_bindR; [by apply reads_wrapE, readUbusConfig_reads|].
  eapply reads_bindR; [apply loadManifest_reads|]. cbn [default].
  eapply reads_bindR; [instantiate (1 := strings <$> pl_wan plan)|].
  { unfold applied_manifest, dhcp_manifest, net_manifest, verified. cbn [mm_Network]. unfold net_new in Hnet. destruct (pl_wan plan) as [wan|].
    - rewrite bool_decide_eq_true_2 by done. pose proof (Htyped wan eq_refl) as Ht. pose proof (Hwan wan eq_refl) as Hown.
      destruct (merged_observed _ _ _ _ Ht Hdw Hown Hnet) as (s' & Hs' & Hn' & Hobs).
      eapply reads_bindR; [apply reads_wrapE; by apply readUbusSection_reads; [done|done|by apply Hset|..]|]. rewrite Hobs. apply reads_ret.
    - rewrite bool_decide_eq_false_2 by (by intros []). apply reads_ret. }
  eapply reads_bindR; [apply (get_dhcp_reads plan)|]; [by apply Hset|done|done|..].
  { intros Hne. destruct (Hdns Hne) as [[Hw Hz Hsec Hans'] Hold]. unfold dhcp_new in Hdhcp.
    destruct (String.eqb_spec (pl_dnsForward plan) (mm_DNSForward mf)) as [E|E].
    - rewrite Hdhcp. split; [done|by apply Hold].
    - destruct Hdhcp as [Hrel Hin]. split; [|done]. split; [done|done| |done]. by eapply dhcp_rel_first. }
  replace (state_of _ _ _) with (plan_state plan); [rewrite Hh; apply reads_ret|].
  rewrite plan_state_with. unfold state_of. by destruct (replaced_sections _ _ _ Hfw) as [-> ->].
Qed.

(** ** From the intents to what is reported *)
Context {SC : SpecCodec}.
(** Nothing compiles to an empty value, which uci would take as a delete. *)
Definition named (intents : list Intent) (plan : applyPlan) : Prop :=
  Forall (λ i, in_Name i ≠ EmptyString) intents ∧ ∀ wan, pl_wan plan = Some wan → wan !! "dns" ≠ Some EmptyString.
Lemma proto_key_ok p k : k ∈ proto_keys p → is_key k = true.
Proof.
  intros Hk. assert (Hall : Forall (λ k, is_key k = true) (proto_keys p)); [|by eapply Forall_forall in Hall].
  unfold proto_keys, wanProtoKeys. destruct (String.eqb p "dhcp"); [|destruct (String.eqb p "static"); [|destruct (String.eqb p "pppoe")]];
    repeat constructor.
Qed.
Lemma named_options (R : Intent → gmap string string → Prop) kind intents ms : Forall (λ i, in_Name i ≠ EmptyString) intents →
  (∀ i m, R i m → options_ok m ∧ m !! "name" = Some (in_Name i)) → Forall2 R (enabled kind intents) ms →
  Forall (λ m : gmap string string, ∀ k v, m !! k = Some v → is_key k = true ∧ v ≠ EmptyString) ms.
Proof.
  intros Hn HR Hall. apply Forall_forall. intros m Hm. apply list_elem_of_lookup_1 in Hm as (j & Hj).
  destruct (Forall2_lookup_r _ _ _ _ _ Hall Hj) as (i & Hi & Hr). apply list_elem_of_lookup_2, list_elem_of_filter in Hi as [_ Hi].
  destruct (HR i m Hr) as [Hok Hname]. intros k v Hk. destruct (Hok k v Hk) as [Hkey [Hv| ->]]; [done|]. split; [done|].
  rewrite Hname in Hk. injection Hk as <-. by eapply Forall_forall in Hn.
Qed.
Lemma compiled_plan_ok intents secrets st plan : Compile intents secrets = Ok st → planFromState (revealState st) = Ok plan →
  named intents plan → plan_ok plan ∧ revealState st = plan_state plan ∧ ∀ wan, pl_wan plan = Some wan → wan_typed wan.
Proof.
  intros (plan' & Hst & Hr & Hu & Hw & _)%Compile_spec Hp [Hn Hd]. rewrite Hst, planFromState_plan_state in Hp. injection Hp as ->.
  assert (Ht : ∀ wan, pl_wan plan = Some wan → wan_typed wan) by (intros wan E; rewrite E in Hw; apply Hw).
  split; [|done]. split.
  - apply Forall_app. split; eapply named_options; [done| |exact Hr|done| |exact Hu].
    + intros i m (spec & _ & Hok & _ & _ & _ & Hname & _). done.
    + intros i m (spec & _ & Hok & Hname & _). done.
  - intros wan E k v Hk. destruct (Ht wan E) as (p & _ & _ & Hall). destruct (Hall k v Hk) as [Hkey Hv]. split; [by eapply proto_key_ok|].
    destruct Hv as [Hne|Hdns]; [done|]. intros ->. rewrite Hdns in Hk. by apply (Hd wan E).
Qed.

(** C32. What the control plane compiled, the firewall reports: after an apply
    that succeeded, reading the firewall back gives exactly the state that was
    compiled from the operator's intents, with the hash the apply returned.  So
    the control plane sees no drift that is not there.  It holds for a box that
    is in step: nothing staged in the network and dhcp files, a wan section whose
    options of the protocol Rasputin set itself, and a dnsmasq that serves the
    forward; and for intents that compile to no empty value. *)
Theorem applied_state_reported intents secrets st plan (a a1 : Agent B) h :
  deletes_work (B := B) → Compile intents secrets = Ok st → planFromState (revealState st) = Ok plan → named intents plan →
  in_step plan (default zero_manifest (a_manifest a)) (a_box a) →
  Apply (Some (revealState st)) a = (Some (Ok h), a1) →
  ∃ a2, Get a1 = (Some (Ok (revealState st, h)), a2).
Proof.
  intros Hdw Hc Hp Hn Hstep Happly. destruct (compiled_plan_ok _ _ _ _ Hc Hp Hn) as (Hok & Hst & Ht).
  pose proof (Apply_spec (Some (revealState st)) plan (a_box a) (a_manifest a) Hp Hok (is_keys _ _ _ Hstep) a (conj eq_refl eq_refl)) as H.
  rewrite Happly in H. destruct H as [_ (Hfin & Hset & Hq & Hm & Hh)]; [done|]. cbn [default] in Hh.
  rewrite Hst in *. symmetry in Hh.
  destruct (Get_reads _ _ _ _ _ Hdw Hstep Ht Hfin Hset Hq Hh a1) as (a2 & HG & _); [by split|]. eauto.
Qed.
End Reading.

(** ** The household's firewall, end to end *)
#[local] Abbreviation home_agent m b := (mkAgent 0 b m None).
Lemma home_answering : @answering Sim Sim_uci (home_env None).
Proof. split; [done|done|exact sim_ubus_missing|exact sim_ubus1_missing]. Qed.
Lemma home_in_step : @in_step Sim Sim_uci (home_env None) home_plan zero_manifest home_box.
Proof.
  split.
  - done.
  - constructor.
  - intros wan [= <-]. eexists. split; [right; left|]. split; [done|]. intros p k [= <-] Hk Hs. right.
    change (k ∈ ["proto"; "username"; "password"; "service"; "_comment"]) in Hk. rewrite !elem_of_cons in Hk. destruct Hk as [->|[->|[->|[->|[->|[]%not_elem_of_nil]]]]]; try (by eexists); by destruct Hs.
  - intros _. split; [|done]. split; [done|done|by eexists|]. do 3 eexists. split; [reflexivity|]. split; [reflexivity|].
    intros t. eexists. split; [done|]. by left.
Qed.
Lemma home_plan_accepted : match @Compile home_codec home_intents home_secrets with
  | Ok st => planFromState (revealState st) = Ok home_plan
  | Fail _ => False
  end.
Proof.
  pose proof home_compiles as H. destruct (@Compile home_codec home_intents home_secrets) as [st|e]; [|discriminate H].
  assert (revealState st = plan_state home_plan) as -> by (by injection H). apply planFromState_plan_state.
Qed.
Lemma applied_state_reported_witness :
  match @Compile home_codec home_intents home_secrets with
  | Ok st => match @Apply Sim Sim_uci (home_env None) (Some (revealState st)) (home_agent None home_box) with
             | (Some (Ok h), a1) => ∃ a2, @Get Sim Sim_uci (home_env None) a1 = (Some (Ok (revealState st, h)), a2)
             | _ => False
             end
  | Fail _ => False
  end.
Proof.
  pose proof home_plan_accepted as Hp. pose proof home_compiles as Hr.
  destruct (@Compile home_codec home_intents home_secrets) as [st|e] eqn:Ec; [|exact Hp].
  assert (Hst : revealState st = plan_state home_plan) by (by injection Hr).
  destruct (@Apply Sim Sim_uci (home_env None) (Some (revealState st)) (home_agent None home_box)) as [r a1] eqn:Ea.
  assert (Hok : r = Some (Ok "3f5a")).
  { rewrite Hst in Ea. pose proof (f_equal fst Ea) as E1. cbn [fst] in E1. rewrite <- E1. vm_compute. reflexivity. }
  subst r. apply (@applied_state_reported Sim Sim_uci fw_sim_laws (home_env None) home_answering home_codec home_intents home_secrets st home_plan
    (home_agent None home_box) a1 "3f5a"); [|exact Ec|exact Hp|..|exact home_in_step|exact Ea].
  - intros t k b x b' Hk E. destruct (sim_deletes _ _ _ _ _ Hk E).
  - split; [by repeat constructor|]. by intros wan [= <-].
Defined.

(** ** The deployment mode, and what an interrupted apply leaves behind

    SetActive (FirewallUci) switches the LAN's DHCP server and snort with the
    deployment mode and records the mode last: the file never names a mode the
    committed configuration is not in ([mode_recorded_last]).  The examples run
    the agent on the box of FirewallSim and show what the hypotheses
    above are for: an apply that was interrupted after a commit and before
    its manifest leaves options nobody remembers, and SetActive commits what an
    interrupted apply had staged. *)
Section Mode.
Context {B : Type} {UB : Uci B} {UL : UciLaws B} {UE : UciEnv}.

(** Every section of that name has the option. *)
Definition has_option (cfg sec k v : string) (l : B → list Section) (b : B) : Prop :=
  ∀ s, s ∈ l b → s_name s = sec → s_opts s !! k = Some (OStr v).
Definition flag (active : bool) : string := if active then "0" else "1".
Definition snort_flag (active : bool) : string := if active then "1" else "0".
Definition mode_name (active : bool) : string := (if active then "active" else "idle") +:+ newline.
Definition dhcp_in_mode (active : bool) : B → Prop := has_option "dhcp" "lan" "ignore" (flag active) (u_committed "dhcp").
Definition snort_in_mode (active : bool) : B → Prop := has_option "snort" "snort" "enabled" (snort_flag active) (u_committed "snort").

Definition moded (K : B → Prop) (m : option string) (a : Agent B) : Prop := K (a_box a) ∧ a_mode a = m.
Lemma Run_moded argv (K : B → Prop) (K' : result string → B → Prop) m :
  (∀ t b r b', K b → u_run t argv b = (r, b') → K' r b') →
  ensures (moded K m) (Run argv) (λ r, moded (K' r) m) (λ a, a_mode a = m).
Proof.
  intros HK a [Ha Hm]. unfold Run. destruct (e_dies (a_tick a)); [done|].
  destruct (u_run (a_tick a) argv (a_box a)) as [r b'] eqn:E. split; [by eapply HK|done].
Qed.
Lemma on_named_option sec k v l s : s ∈ on_named sec (set_opt k (OStr v)) l → s_name s = sec → s_opts s !! k = Some (OStr v).
Proof.
  unfold on_named. intros (s0 & <- & _)%list_elem_of_In%in_map_iff. destruct (String.eqb_spec (s_name s0) sec) as [|Hne]; [|done].
  intros _. cbn. by rewrite lookup_insert_eq.
Qed.
(** Setting a flag and committing it. *)
Lemma set_commit_spec e cfg sec k v (K : B → Prop) m pre pre' : valid e → config_of e = cfg →
  (∀ l l', effect e l l' → l' = on_named sec (set_opt k (OStr v)) l) → (∀ b b', K b → only cfg b b' → K b') →
  ensures (moded K m)
    (_ <-? wrapE pre EmptyString (Run (argv e)); wrapE pre' EmptyString (Run (commit cfg)))
    (λ r, if is_ok r then moded (λ b, K b ∧ has_option cfg sec k v (u_committed cfg) b) m else λ a, a_mode a = m) (λ a, a_mode a = m).
Proof.
  intros Hv <- Heff HK. eapply ensures_bindR.
  { apply (wrapE_keeps _ _ _ _ (λ r, moded (λ b, K b ∧ (is_ok r = true → has_option (config_of e) sec k v (u_staged (config_of e)) b)) m)).
    - apply Run_moded. intros t b r b' Hb E. apply law_edit in E as (Ho & _ & Hr); [|done]. split; [by eapply HK|].
      intros Hok. destruct r; [|done]. apply Heff in Hr. intros s Hs. rewrite Hr in Hs. by eapply on_named_option.
    - intros x x' a H. exact H. }
  2: { intros x a [_ Hm]. exact Hm. }
  intros out. eapply (ensures_wrapE _ _ _ _ (λ r, moded (λ b, K b ∧ (is_ok r = true → has_option (config_of e) sec k v (u_committed (config_of e)) b)) m)).
  - eapply ensures_pre; [apply Run_moded|intros a H; exact H]. intros t b r b' [Hb Hst] E. apply law_commit in E as (Ho & Hr).
    split; [by eapply HK|]. intros Hok. destruct r; [|done]. destruct Hr as [Hc _]. intros s Hs. rewrite Hc in Hs. by apply (Hst eq_refl).
  - intros o a [[HKb Ho] Hm]. split; [|done]. split; [done|by apply Ho].
  - intros x x' a [_ Hm]. exact Hm.
Qed.
Lemma harmless_moded argv (K : B → Prop) m : harmless argv → (∀ b b', K b → (∀ c, untouched c b b') → K b') →
  ensures (moded K m) (Run argv) (λ _, moded K m) (λ a, a_mode a = m).
Proof.
  intros Hh HK. eapply ensures_conseq; [apply (Run_moded argv K (λ _, K))|..]; try done.
  intros t b r b' Hb E. eapply HK; [exact Hb|]. intros c. by eapply law_harmless.
Qed.
Lemma in_mode_stable (K : B → Prop) : (∃ active, K = dhcp_in_mode active) → ∀ b b' cfg, cfg ≠ "dhcp" → K b → only cfg b b' → K b'.
Proof. intros [active ->] b b' cfg Hne Hb Ho s Hs. destruct (Ho "dhcp") as [_ E]; [congruence|]. rewrite E in Hs. by apply Hb. Qed.
Lemma untouched_in_mode cfg sec k v (b b' : B) : has_option cfg sec k v (u_committed cfg) b → (∀ c, untouched c b b') →
  has_option cfg sec k v (u_committed cfg) b'.
Proof. intros Hb Hu s Hs. destruct (Hu cfg) as [_ E]. rewrite E in Hs. by apply Hb. Qed.

(** The steps of SetActive, two at a time. *)
Lemma bindR_assoc {S A C D} (p : Crash.IO S (result A)) (f : A → Crash.IO S (result C)) (g : C → Crash.IO S (result D)) d :
  bindR (bindR p f) g d = bindR p (λ x, bindR (f x) g) d.
Proof. unfold bindR, bind. destruct (p d) as [[[x|x]|] d']; [|done..]. reflexivity. Qed.

(** The mode file names a mode only after both services are committed to it. *)
Theorem mode_recorded_last active (a : Agent B) :
  a_mode (snd (SetActive active a)) = a_mode a ∨
  a_mode (snd (SetActive active a)) = Some (mode_name active) ∧
  dhcp_in_mode active (a_box (snd (SetActive active a))) ∧ snort_in_mode active (a_box (snd (SetActive active a))).
Proof.
  set (m := a_mode a).
  cut (ensures (moded (λ _, True) m) (SetActive active)
    (λ r, λ a, a_mode a = m ∨ a_mode a = Some (mode_name active) ∧ dhcp_in_mode active (a_box a) ∧ snort_in_mode active (a_box a))
    (λ a, a_mode a = m)).
  { intros H. specialize (H a (conj I eq_refl)). destruct (SetActive active a) as [[r|] a']; [exact H|by left]. }
  eapply ensures_ext; [intros d; unfold SetActive; symmetry; apply bindR_assoc|].
  eapply ensures_bindR.
  { apply (set_commit_spec (SetIgnore (flag active)) "dhcp" "lan" "ignore" (flag active)); try done; by destruct active. }
  2: { intros e d H. by left. }
  intros out. eapply ensures_bindR.
  { apply (wrapE_keeps _ _ _ _ (λ _, moded (dhcp_in_mode active) m)); [|by intros].
    eapply ensures_pre; [apply harmless_moded; [done|]|].
    - intros b b'. apply untouched_in_mode.
    - intros d [[_ Hb] Hm]. by split. }
  2: { intros e d [_ H]. by left. }
  intros out2. eapply ensures_ext; [intros d; symmetry; apply bindR_assoc|].
  eapply ensures_bindR.
  { apply (set_commit_spec (SetSnort (snort_flag active)) "snort" "snort" "enabled" (snort_flag active) (dhcp_in_mode active)).
    - by destruct active. - done. - by destruct active.
    - intros b b' Hb Ho s Hs. destruct (Ho "dhcp") as [_ E]; [done|]. rewrite E in Hs. by apply Hb. }
  2: { intros e d H. by left. }
  intros out3. eapply ensures_bind.
  { eapply ensures_pre; [apply (harmless_moded _ (λ b, dhcp_in_mode active b ∧ snort_in_mode active b) m); [by destruct active|]|].
    - intros b b' [H1 H2] Hu. split; by eapply untouched_in_mode.
    - intros d H. exact H. }
  intros r d [[H1 H2] Hm]. unfold recordDeploymentMode, ask. destruct (e_dies (a_tick d)); [done|].
  destruct (e_save (a_tick d)); [by left|right]. done.
Qed.
End Mode.

(** ** What an interruption leaves *)
#[local] Abbreviation agent b m := (mkAgent 0 b m None).
Definition wan_plan (wan : list (string * string)) : applyPlan := mkPlan [] [] (Some (list_to_map wan)) EmptyString.
Definition with_hostname : applyPlan := wan_plan [("proto", "dhcp"); ("hostname", "router")].
Definition without_hostname : applyPlan := wan_plan [("proto", "dhcp")].
(** The agent goes on after a restart. *)
Definition restarted {B} (x : option (result string) * Agent B) : Agent B := mkAgent 0 (a_box (snd x)) (a_manifest (snd x)) (a_mode (snd x)).

(** An apply that sets a hostname dies after the network file is committed and
    before the manifest is written.  The operator drops the hostname; the next
    apply succeeds without removing it, and [Get] reports it: the drift stays
    however often the intents are applied. *)
Definition interrupted : Agent Sim :=
  restarted (@Apply Sim Sim_uci (home_env (Some 10%nat)) (Some (plan_state with_hostname)) (agent home_box None)).
Definition reapplied (n : nat) : Agent Sim :=
  Nat.iter n (λ a, restarted (@Apply Sim Sim_uci (home_env None) (Some (plan_state without_hostname)) a)) interrupted.
Example interrupted_option_stays :
  fst (@Apply Sim Sim_uci (home_env None) (Some (plan_state without_hostname)) interrupted) = Some (Ok "3f5a") ∧
  fst (@Get Sim Sim_uci (home_env None) (reapplied 1)) = Some (Ok (plan_state with_hostname, "3f5a")) ∧
  fst (@Get Sim Sim_uci (home_env None) (reapplied 3)) = Some (Ok (plan_state with_hostname, "3f5a")).
Proof. split_and!; vm_compute; reflexivity. Qed.

(** The same with a PPPoE password: it stays in the network file, where no apply
    removes it, and [Get] does not look at it once the protocol is another. *)
Definition pppoe_interrupted : Agent Sim :=
  restarted (@Apply Sim Sim_uci (home_env (Some 11%nat))
    (Some (plan_state (wan_plan [("proto", "pppoe"); ("username", "me"); ("password", "hunter2")]))) (agent home_box None)).
Definition wan_options (b : Sim) : list (gmap string Opt) := map s_opts (filter (λ s, s_name s = "wan") (u_committed "network" b)).
Example interrupted_password_stays :
  let a := restarted (@Apply Sim Sim_uci (home_env None) (Some (plan_state without_hostname)) pppoe_interrupted) in
  map (λ m : gmap string Opt, m !! "password") (wan_options (a_box a)) = [Some (OStr "hunter2")] ∧
  fst (@Get Sim Sim_uci (home_env None) a) = Some (Ok (plan_state without_hostname, "3f5a")).
Proof. split; vm_compute; reflexivity. Qed.

(** An apply that dies with the forward staged: SetActive commits the forward
    with its own change, and no manifest knows of it, so no later apply removes
    it. *)
Definition forward_plan : applyPlan := mkPlan [] [] None "/home.internal/192.168.1.2".
Definition staged_forward : Agent Sim :=
  restarted (@Apply Sim Sim_uci (home_env (Some 9%nat)) (Some (plan_state forward_plan)) (agent home_box None)).
Definition dhcp_servers (b : Sim) : list (list string) :=
  map (λ s, items (s_opts s !! "server")) (filter (λ s, s_type s = "dnsmasq") (u_committed "dhcp" b)).
Example SetActive_commits_what_was_staged :
  let x := @SetActive Sim Sim_uci (home_env None) true staged_forward in
  let a := mkAgent 0 (a_box (snd x)) (a_manifest (snd x)) (a_mode (snd x)) in
  let a2 := restarted (@Apply Sim Sim_uci (home_env None) (Some (plan_state (mkPlan [] [] None EmptyString))) a) in
  dhcp_servers (a_box staged_forward) = [["1.1.1.1"]] ∧ fst x = Some (Ok tt) ∧ a_manifest a = None ∧
  dhcp_servers (a_box a) = [["1.1.1.1"; "/home.internal/192.168.1.2"]] ∧
  dhcp_servers (a_box a2) = [["1.1.1.1"; "/home.internal/192.168.1.2"]].
Proof. split_and!; vm_compute; reflexivity. Qed.

(** IPv6 text that the rule for IPv4 lets through: an embedded IPv4 address and
    a literal with a zone. *)
Example ipv6_text_accepted : rejectIPv6 "lanHost" "::ffff:10.0.0.5" = Ok tt ∧ rejectIPv6 "lanHost" "fe80::1%br-lan" = Ok tt.
Proof. split; reflexivity. Qed.
