(* ===== verification/GoDuration.v ===== *)
(** * Go's [time.Duration] and the arithmetic of [time.Time]

    [time.ParseDuration], [Duration.String] and the conversions of package
    time that the backup schedule is written with.  A duration is a signed
    64-bit count of nanoseconds.  Fractions go through float64: a non-negative
    float is the fraction it stands for and each operation rounds its exact
    result to the nearest 53-bit number, ties to even; no value here is near
    the limits of the exponent. *)
From Stdlib Require Import Ascii String.
From S2P Require Import Prelude GoStrings.
Open Scope string_scope.
Open Scope Z_scope.
#[local] Arguments String.append : simpl nomatch.

(** ** float64, for values that are not negative *)
Record f64 := mkF { fnum : Z; fden : Z }.

(** Round to nearest, ties to even. *)
Definition rne (a b : Z) : Z :=
  let q := a / b in
  let r := 2 * (a mod b) in
  if r <? b then q else if b <? r then q + 1 else if Z.even q then q else q + 1.

(** The number [n/d] with 53 significant bits. *)
Definition f_round (n d : Z) : f64 :=
  if n =? 0 then mkF 0 1
  else
    let s := Z.log2 d + 1 in
    let e := Z.log2 (n * 2 ^ s / d) - s - 52 in
    if 0 <=? e then mkF (rne n (d * 2 ^ e) * 2 ^ e) 1
    else mkF (rne (n * 2 ^ (- e)) d) (2 ^ (- e)).

Definition f_of (n : Z) : f64 := f_round n 1.
Definition f_mul (x y : f64) : f64 := f_round (fnum x * fnum y) (fden x * fden y).
Definition f_div (x y : f64) : f64 := f_round (fnum x * fden y) (fden x * fnum y).
Definition f_add (x y : f64) : f64 := f_round (fnum x * fden y + fnum y * fden x) (fden x * fden y).
(** The conversion to an integer type. *)
Definition f_trunc (x : f64) : Z := fnum x / fden x.

(** A float that is the integer [k]. *)
Definition f_is (x : f64) (k : Z) : Prop := fnum x = k * fden x ∧ 0 < fden x.

Lemma rne_exact a b k : 0 < b → a = k * b → rne a b = k.
Proof.
  intros Hb ->. unfold rne. rewrite Z.div_mul, Z.mod_mul by lia.
  destruct (Z.ltb_spec (2 * 0) b); [done|lia].
Qed.

Lemma f_round_exact n d k : 0 < d → n = k * d → 0 ≤ k < 2 ^ 53 → f_is (f_round n d) k.
Proof.
  intros Hd -> Hk. unfold f_round. destruct (Z.eqb_spec (k * d) 0) as [E|E].
  { assert (k = 0) as -> by nia. by split. }
  assert (0 < k) by nia.
  set (s := Z.log2 d + 1). assert (0 ≤ s) by (pose proof (Z.log2_nonneg d); unfold s; lia).
  replace (k * d * 2 ^ s / d) with (k * 2 ^ s) by (rewrite <- Z.mul_assoc, (Z.mul_comm d), Z.mul_assoc, Z.div_mul; lia).
  rewrite Z.log2_mul_pow2 by lia.
  assert (Z.log2 k < 53) by (apply Z.log2_lt_pow2; lia).
  set (e := s + Z.log2 k - s - 52). assert (e ≤ 0) by (unfold e; lia).
  destruct (Z.leb_spec 0 e).
  - assert (e = 0) as -> by lia. cbn [Z.pow]. rewrite Z.mul_1_r.
    unfold f_is. cbn [fnum fden]. rewrite (rne_exact _ _ k) by lia. lia.
  - assert (0 < 2 ^ (- e)) by (apply Z.pow_pos_nonneg; lia).
    unfold f_is. cbn [fnum fden]. rewrite (rne_exact _ _ (k * 2 ^ (- e))) by lia. lia.
Qed.

Lemma f_of_exact k : 0 ≤ k < 2 ^ 53 → f_is (f_of k) k.
Proof. intros. apply f_round_exact; lia. Qed.
Lemma f_mul_exact x y a b : f_is x a → f_is y b → 0 ≤ a * b < 2 ^ 53 → f_is (f_mul x y) (a * b).
Proof. intros [Ex Hx] [Ey Hy] H. apply f_round_exact; [nia|rewrite Ex, Ey; ring|done]. Qed.
Lemma f_div_exact x y a b q : f_is x a → f_is y b → 0 < b → a = q * b → 0 ≤ q < 2 ^ 53 → f_is (f_div x y) q.
Proof. intros [Ex Hx] [Ey Hy] Hb -> H. apply f_round_exact; [nia|rewrite Ex, Ey; ring|done]. Qed.
Lemma f_trunc_exact x k : f_is x k → f_trunc x = k.
Proof. intros [E H]. unfold f_trunc. rewrite E. apply Z.div_mul. lia. Qed.

(** ** The units *)
Definition Nanosecond : Z := 1.
Definition Microsecond : Z := 1000.
Definition Millisecond : Z := 1000000.
Definition Second : Z := 1000000000.
Definition Minute : Z := 60 * Second.
Definition Hour : Z := 60 * Minute.

Definition unitMap (u : string) : option Z :=
  if String.eqb u "ns" then Some Nanosecond
  else if String.eqb u "us" then Some Microsecond
  else if String.eqb u "µs" then Some Microsecond
  else if String.eqb u "μs" then Some Microsecond
  else if String.eqb u "ms" then Some Millisecond
  else if String.eqb u "s" then Some Second
  else if String.eqb u "m" then Some Minute
  else if String.eqb u "h" then Some Hour
  else None.

(** ** [time.ParseDuration] *)
Definition is_dig (c : ascii) : bool := Nat.leb 48 (nat_of_ascii c) && Nat.leb (nat_of_ascii c) 57.
Definition dig (c : ascii) : Z := Z.of_nat (nat_of_ascii c) - 48.
Definition dot : ascii := char 46.

(** [leadingInt]: [None] where the number does not fit. *)
Fixpoint leadingInt (x : Z) (s : string) : option (Z * string) :=
  match s with
  | EmptyString => Some (x, s)
  | String c s' =>
      if negb (is_dig c) then Some (x, s)
      else if 2 ^ 63 / 10 <? x then None
      else
        let x := x * 10 + dig c in
        if 2 ^ 63 <? x then None else leadingInt x s'
  end.

(** [leadingFraction]: digits past the precision are read and dropped. *)
Fixpoint leadingFraction (x : Z) (scale : f64) (overflow : bool) (s : string) : Z * f64 * string :=
  match s with
  | EmptyString => (x, scale, s)
  | String c s' =>
      if negb (is_dig c) then (x, scale, s)
      else if overflow then leadingFraction x scale overflow s'
      else if (2 ^ 63 - 1) / 10 <? x then leadingFraction x scale true s'
      else
        let y := x * 10 + dig c in
        if 2 ^ 63 <? y then leadingFraction x scale true s'
        else leadingFraction y (f_mul scale (f_of 10)) overflow s'
  end.

Definition invalid_duration (orig : string) : error := errors_New ("time: invalid duration " +:+ quote orig).

(** One round of the loop: a number, its fraction and its unit; what it adds
    to the sum and what is left of the text. *)
Definition parse_tail (orig : string) (d v : Z) (pre : bool) (s1 : string) : result (Z * string) :=
  let '(f, scale, s2, post) :=
    match eat dot s1 with
    | Some s1' => let '(f, scale, s2) := leadingFraction 0 (f_of 1) false s1' in
                  (f, scale, s2, negb (Nat.eqb (String.length s1') (String.length s2)))
    | None => (0, f_of 1, s1, false)
    end in
  if negb pre && negb post then Fail (invalid_duration orig)
  else
    let '(u, s3) := span (λ c, negb (Ascii.eqb c dot || is_dig c)) s2 in
    if String.eqb u EmptyString then Fail (errors_New ("time: missing unit in duration " +:+ quote orig))
    else
      match unitMap u with
      | None => Fail (errors_New ("time: unknown unit " +:+ quote u +:+ " in duration " +:+ quote orig))
      | Some unit =>
          if 2 ^ 63 / unit <? v then Fail (invalid_duration orig)
          else
            let v := v * unit in
            let v := if 0 <? f then v + f_trunc (f_mul (f_of f) (f_div (f_of unit) scale)) else v in
            if (0 <? f) && (2 ^ 63 <? v) then Fail (invalid_duration orig)
            else if 2 ^ 63 <? d + v then Fail (invalid_duration orig)
            else Ok (d + v, s3)
      end.
Definition parse_piece (orig : string) (d : Z) (s : string) : result (Z * string) :=
  match s with
  | EmptyString => Fail (invalid_duration orig)
  | String c _ =>
      if negb (Ascii.eqb c dot || is_dig c) then Fail (invalid_duration orig)
      else
        match leadingInt 0 s with
        | None => Fail (invalid_duration orig)
        | Some (v, s1) => parse_tail orig d v (negb (Nat.eqb (String.length s) (String.length s1))) s1
        end
  end.

(** The loop; a round eats a digit or a point and a unit, so the length of the
    text bounds the rounds. *)
Fixpoint parse_pieces (fuel : nat) (orig : string) (d : Z) (s : string) : result Z :=
  if String.eqb s EmptyString then Ok d
  else
    match fuel with
    | O => Fail (invalid_duration orig)
    | S fuel =>
        match parse_piece orig d s with
        | Ok (d', s') => parse_pieces fuel orig d' s'
        | Fail e => Fail e
        end
    end.

Definition ParseDuration (orig : string) : result Z :=
  let '(neg, s) :=
    match orig with
    | String c s' => if Ascii.eqb c (char 45) then (true, s') else if Ascii.eqb c (char 43) then (false, s') else (false, orig)
    | EmptyString => (false, orig)
    end in
  if String.eqb s "0" then Ok 0
  else if String.eqb s EmptyString then Fail (invalid_duration orig)
  else
    match parse_pieces (S (S (String.length s))) orig 0 s with
    | Fail e => Fail e
    | Ok d => if neg then Ok (- d) else if 2 ^ 63 - 1 <? d then Fail (invalid_duration orig) else Ok d
    end.

(** ** [Duration.String] *)

(** [n] in exactly [k] digits. *)
Fixpoint fixed (k : nat) (n : Z) : string :=
  match k with
  | O => EmptyString
  | S k => fixed k (n / 10) +:+ String (ascii_of_nat (48 + Z.to_nat (n mod 10))) EmptyString
  end.
(** [fmtFrac]: the fraction [n/10^k] without its trailing zeros, with its
    point, and nothing at all for zero. *)
Fixpoint fmtFrac (k : nat) (n : Z) : string :=
  match k with
  | O => EmptyString
  | S k' => if n mod 10 =? 0 then fmtFrac k' (n / 10) else String dot (fixed k n)
  end.

(** [format], on the magnitude. *)
Definition magnitude (u : Z) : string :=
  if u =? 0 then "0s"
  else if u <? Microsecond then pretty u +:+ "ns"
  else if u <? Millisecond then pretty (u / Microsecond) +:+ fmtFrac 3 (u mod Microsecond) +:+ "µs"
  else if u <? Second then pretty (u / Millisecond) +:+ fmtFrac 6 (u mod Millisecond) +:+ "ms"
  else
    let secs := u / Second in
    let mins := secs / 60 in
    let hours := mins / 60 in
    (if 0 <? hours then pretty hours +:+ "h" else EmptyString) +:+
    (if 0 <? mins then pretty (mins mod 60) +:+ "m" else EmptyString) +:+
    pretty (secs mod 60) +:+ fmtFrac 9 (u mod Second) +:+ "s".
Definition Duration_String (d : Z) : string :=
  if d <? 0 then "-" +:+ magnitude (- d) else magnitude d.

(** ** Conversions, [Truncate], and the arithmetic of times *)
Definition Seconds (d : Z) : f64 := f_add (f_of (d / Second)) (f_div (f_of (d mod Second)) (f_of 1000000000)).
Definition Minutes (d : Z) : f64 := f_add (f_of (d / Minute)) (f_div (f_of (d mod Minute)) (f_of 60000000000)).
Definition Hours (d : Z) : f64 := f_add (f_of (d / Hour)) (f_div (f_of (d mod Hour)) (f_of 3600000000000)).
Definition Truncate (d m : Z) : Z := if m <=? 0 then d else d - Z.rem d m.

(** [t.Sub(u)] saturates. *)
Definition time_Sub (t u : Z) : Z := Z.max int64_min (Z.min int64_max (t - u)).

Example parse_week : ParseDuration "168h" = Ok (168 * Hour). Proof. reflexivity. Qed.
Example parse_fraction : ParseDuration "1.5h30m0.25s" = Ok (2 * Hour + 250 * Millisecond). Proof. reflexivity. Qed.
Example print_week : Duration_String (168 * Hour) = "168h0m0s". Proof. reflexivity. Qed.
Example print_fraction : Duration_String (Hour + 1500 * Millisecond) = "1h0m1.5s". Proof. reflexivity. Qed.
Example parse_bare : is_ok (ParseDuration "168") = false. Proof. reflexivity. Qed.
Example parse_huge : is_ok (ParseDuration "9223372036854775808ns") = false. Proof. reflexivity. Qed.

(** ** Printed durations parse back *)
Fixpoint dec (x : Z) (w : string) : Z :=
  match w with
  | EmptyString => x
  | String c w => dec (x * 10 + dig c) w
  end.

Lemma dig_bounds c : is_dig c = true → 0 ≤ dig c ≤ 9.
Proof. unfold is_dig, dig. rewrite andb_true_iff, !Nat.leb_le. lia. Qed.

Lemma dec_ge w x : all_chars is_dig w = true → 0 ≤ x → x ≤ dec x w.
Proof.
  revert x. induction w as [|c w IH]; intros x; cbn [all_chars dec]; [lia|].
  rewrite andb_true_iff. intros [Hc Hw] Hx. pose proof (dig_bounds c Hc).
  transitivity (x * 10 + dig c); [lia|]. apply IH; [done|lia].
Qed.

Lemma dec_app w1 w2 x : dec x (w1 +:+ w2) = dec (dec x w1) w2.
Proof. revert x. induction w1 as [|c w IH]; intros x; [done|]. apply IH. Qed.

Definition stops (p : ascii → bool) (s : string) : Prop :=
  match s with EmptyString => True | String c _ => p c = false end.

Lemma leadingInt_stop x s : stops is_dig s → leadingInt x s = Some (x, s).
Proof. destruct s as [|c s]; [done|]. cbn. by intros ->. Qed.

Lemma leadingInt_app w s x : all_chars is_dig w = true → 0 ≤ x → dec x w ≤ 2 ^ 63 →
  leadingInt x (w +:+ s) = leadingInt (dec x w) s.
Proof.
  revert x. induction w as [|c w IH]; intros x; [done|]. cbn [all_chars]. rewrite andb_true_iff. intros [Hc Hw] Hx Hd.
  pose proof (dig_bounds c Hc). cbn [String.append leadingInt dec] in *. rewrite Hc. cbn [negb].
  assert (x * 10 + dig c ≤ dec (x * 10 + dig c) w) by (apply dec_ge; [done|lia]).
  destruct (Z.ltb_spec (2 ^ 63 / 10) x) as [Hl|]; [exfalso; change (2 ^ 63 / 10) with 922337203685477580 in Hl; lia|].
  destruct (Z.ltb_spec (2 ^ 63) (x * 10 + dig c)); [lia|]. apply IH; [done|lia|done].
Qed.

Lemma digit_char n : 0 ≤ n < 10 → is_dig (ascii_of_nat (48 + Z.to_nat n)) = true ∧ dig (ascii_of_nat (48 + Z.to_nat n)) = n.
Proof.
  intros H. unfold is_dig, dig. rewrite nat_ascii_embedding by lia. rewrite andb_true_iff, !Nat.leb_le. lia.
Qed.

Lemma fixed_dec k n x : 0 ≤ n → all_chars is_dig (fixed k n) = true ∧ dec x (fixed k n) = x * 10 ^ Z.of_nat k + n mod 10 ^ Z.of_nat k ∧
  String.length (fixed k n) = k.
Proof.
  revert n x. induction k as [|k IH]; intros n x Hn; [cbn; rewrite Z.mod_1_r; split_and!; [done|lia|done]|].
  cbn [fixed]. destruct (IH (n / 10) x) as (I1 & I2 & I3); [apply Z.div_pos; lia|].
  assert (0 ≤ n mod 10 < 10) as Hm by (apply Z.mod_pos_bound; lia). destruct (digit_char _ Hm) as [D1 D2].
  rewrite all_chars_app, dec_app, length_app_s, I1, I2, I3. cbn [all_chars dec String.length]. rewrite D1, D2. split_and!; [done| |lia].
  rewrite Nat2Z.inj_succ, Z.pow_succ_r by lia.
  rewrite (Z.rem_mul_r n 10) by (try apply Z.pow_pos_nonneg; lia). ring.
Qed.

Lemma pretty_go_dec (n : N) s : ∃ w, pretty_N_go n s = w +:+ s ∧ all_chars is_dig w = true ∧ dec 0 w = Z.of_N n.
Proof.
  revert s. induction (N.lt_wf_0 n) as [n _ IH]. intros s.
  destruct (decide (0 < n)%N) as [Hn|Hn]; [|exists EmptyString; assert (n = 0%N) as -> by lia; by rewrite pretty_N_go_0].
  rewrite pretty_N_go_step by done.
  destruct (IH (n / 10)%N (N.div_lt n 10 Hn eq_refl) (String (pretty_N_char (n `mod` 10)) s)) as (w & -> & Hd & Hv).
  assert (n `mod` 10 < 10)%N as Hm by (apply N.mod_lt; lia).
  assert (is_dig (pretty_N_char (n `mod` 10)) = true ∧ dig (pretty_N_char (n `mod` 10)) = Z.of_N (n `mod` 10)) as [C1 C2].
  { clear -Hm. destruct (n `mod` 10)%N as [|p]; [done|].
    destruct p as [[[[]|[]|]|[[]|[]|]|]|[[[]|[]|]|[[]|[]|]|]|]; first [done|exfalso; lia]. }
  exists (w +:+ String (pretty_N_char (n `mod` 10)) EmptyString). rewrite app_assoc_s. split; [done|].
  rewrite all_chars_app, dec_app, Hd, Hv. cbn [all_chars dec]. rewrite C1, C2. split; [done|].
  rewrite N2Z.inj_div, N2Z.inj_mod. pose proof (Z.div_mod (Z.of_N n) 10). lia.
Qed.

Lemma pretty_dec n : 0 ≤ n → all_chars is_dig (pretty n) = true ∧ dec 0 (pretty n) = n ∧ pretty n ≠ EmptyString.
Proof.
  intros Hn. destruct n as [|p|p]; [done| |lia].
  change (pretty (Z.pos p)) with (pretty (N.pos p)). unfold pretty, pretty_N. rewrite decide_False by done.
  destruct (pretty_go_dec (N.pos p) EmptyString) as (w & -> & Hd & Hv). rewrite app_nil_s. split; [done|split; [done|]].
  intros ->. done.
Qed.

Lemma leadingFraction_app w s x scale S : all_chars is_dig w = true → 0 ≤ x → dec x w < 10 ^ 9 → f_is scale S → 0 ≤ S →
  S * 10 ^ Z.of_nat (String.length w) ≤ 10 ^ 9 → stops is_dig s →
  ∃ scale', leadingFraction x scale false (w +:+ s) = (dec x w, scale', s) ∧ f_is scale' (S * 10 ^ Z.of_nat (String.length w)).
Proof.
  revert x scale S. induction w as [|c w IH]; intros x scale S Hw Hx Hd Hs HS Hp Hstop.
  { exists scale. cbn [String.append]. change (Z.of_nat (String.length EmptyString)) with 0. rewrite Z.pow_0_r, Z.mul_1_r. split; [|done].
    destruct s as [|c s]; [done|]. cbn in *. by rewrite Hstop. }
  cbn [all_chars] in Hw. apply andb_true_iff in Hw as [Hc Hw]. pose proof (dig_bounds c Hc).
  cbn [String.append leadingFraction dec String.length] in *. rewrite Nat2Z.inj_succ, Z.pow_succ_r in * by lia. rewrite Hc. cbn [negb].
  assert (x * 10 + dig c ≤ dec (x * 10 + dig c) w) by (apply dec_ge; [done|lia]).
  change ((2 ^ 63 - 1) / 10) with 922337203685477580. change (10 ^ 9) with 1000000000 in *.
  destruct (Z.ltb_spec 922337203685477580 x); [lia|]. destruct (Z.ltb_spec (2 ^ 63) (x * 10 + dig c)); [lia|].
  assert (0 < 10 ^ Z.of_nat (String.length w)) by (apply Z.pow_pos_nonneg; lia).
  destruct (IH (x * 10 + dig c) (f_mul scale (f_of 10)) (S * 10)) as (scale' & E & Hs'); [done|lia|done| |lia|lia|done|].
  { apply f_mul_exact; [done|by apply f_of_exact|nia]. }
  exists scale'. split; [exact E|]. by rewrite Z.mul_assoc.
Qed.

Lemma fmtFrac_spec k n : 0 ≤ n < 10 ^ Z.of_nat k →
  (n = 0 ∧ fmtFrac k n = EmptyString) ∨
  ∃ j m, (1 ≤ j ≤ k)%nat ∧ 0 < m < 10 ^ Z.of_nat j ∧ n = m * 10 ^ Z.of_nat (k - j) ∧ fmtFrac k n = String dot (fixed j m).
Proof.
  revert n. induction k as [|k IH]; intros n Hn; [left; cbn in *; split; [lia|done]|].
  cbn [fmtFrac]. rewrite Nat2Z.inj_succ, Z.pow_succ_r in Hn by lia.
  destruct (Z.eqb_spec (n mod 10) 0) as [Hm|Hm].
  - pose proof (Z.div_mod n 10). destruct (IH (n / 10)) as [[E1 E2]|(j & m & Hj & Hb & E1 & E2)]; [lia|left; split; [lia|done]|].
    right. exists j, m. split_and!; [lia|lia|lia|lia| |done].
    rewrite Nat.sub_succ_l by lia. rewrite Nat2Z.inj_succ, Z.pow_succ_r by lia. lia.
  - right. exists (S k), n. rewrite Nat.sub_diag, Nat2Z.inj_succ, Z.pow_succ_r by lia. cbn [Z.of_nat]. rewrite Z.pow_0_r.
    split_and!; try lia; [|done]. destruct (Z.eq_dec n 0) as [->|]; [done|lia].
Qed.

Lemma span_stop p s : stops p s → span p s = (EmptyString, s).
Proof. destruct s as [|c s]; [done|]. cbn. by intros ->. Qed.

Lemma span_unit p u s : all_chars p u = true → stops p s → span p (u +:+ s) = (u, s).
Proof.
  destruct s as [|c s]; intros Hu Hs; [rewrite app_nil_s; by apply span_all|by apply span_app].
Qed.

Definition unit_char (c : ascii) : bool := negb (Ascii.eqb c dot || is_dig c).

Lemma parse_piece_pretty orig d v s1 : 0 ≤ v ≤ 2 ^ 63 → stops is_dig s1 →
  parse_piece orig d (pretty v +:+ s1) = parse_tail orig d v true s1.
Proof.
  intros Hv Hs. destruct (pretty_dec v) as (P1 & P2 & P3); [lia|].
  assert (leadingInt 0 (pretty v +:+ s1) = Some (v, s1)) as HL.
  { rewrite leadingInt_app by (done || lia). rewrite P2. by apply leadingInt_stop. }
  assert (negb (Nat.eqb (String.length (pretty v +:+ s1)) (String.length s1)) = true) as HN.
  { rewrite length_app_s, negb_true_iff, Nat.eqb_neq. destruct (pretty v); [done|]. cbn. lia. }
  destruct (pretty v) as [|c w]; [done|]. cbn [String.append] in *. unfold parse_piece. rewrite HL, HN.
  cbn [all_chars] in P1. apply andb_true_iff in P1 as [-> _]. by rewrite orb_true_r.
Qed.

(** A round of the loop on a printed number with its fraction and unit. *)
Lemma parse_printed orig d v k n u unit rest :
  0 ≤ d → 0 ≤ v → 0 ≤ n < 10 ^ Z.of_nat k → (k ≤ 9)%nat → (n = 0 ∨ unit = 10 ^ Z.of_nat k) →
  u ≠ EmptyString → all_chars unit_char u = true → unitMap u = Some unit → 0 < unit → stops unit_char rest →
  d + v * unit + n ≤ 2 ^ 63 →
  parse_piece orig d (pretty v +:+ fmtFrac k n +:+ u +:+ rest) = Ok (d + v * unit + n, rest).
Proof.
  intros Hd Hv Hn Hk Hu Hne Huc Hmap Hpos Hrest Hmax.
  assert (stops is_dig (u +:+ rest) ∧ eat dot (u +:+ rest) = None) as [Hsu Heat].
  { destruct u as [|c u]; [done|]. cbn [String.append eat all_chars stops] in *. unfold unit_char in Huc. apply andb_true_iff in Huc as [Huc _].
    rewrite Ascii.eqb_sym in Huc. by destruct (Ascii.eqb dot c), (is_dig c). }
  assert (v ≤ 2 ^ 63) by nia.
  assert (v ≤ 2 ^ 63 / unit) by (apply Z.div_le_lower_bound; nia).
  destruct (fmtFrac_spec k n Hn) as [[-> ->]|(j & m & Hj & Hm & En & ->)].
  - cbn [String.append]. rewrite parse_piece_pretty by done. unfold parse_tail. rewrite Heat. cbn [negb andb].
    rewrite (span_unit unit_char) by done.
    destruct (String.eqb_spec u EmptyString); [done|]. rewrite Hmap.
    destruct (Z.ltb_spec (2 ^ 63 / unit) v); [lia|]. cbn [Z.ltb Z.compare andb].
    destruct (Z.ltb_spec (2 ^ 63) (d + v * unit)); [lia|]. by rewrite Z.add_0_r.
  - assert (0 < 10 ^ Z.of_nat (k - j) ∧ 0 < 10 ^ Z.of_nat j) as [] by (split; apply Z.pow_pos_nonneg; lia).
    assert (n ≠ 0) by nia. destruct Hu as [?| ->]; [done|].
    cbn [String.append]. rewrite parse_piece_pretty by done. unfold parse_tail. cbn [eat]. rewrite Ascii.eqb_refl.
    destruct (fixed_dec j m 0) as (F1 & F2 & F3); [lia|]. rewrite Z.mod_small in F2 by lia.
    assert (10 ^ Z.of_nat j ≤ 10 ^ 9 ∧ 10 ^ Z.of_nat k ≤ 10 ^ 9) as [] by (split; apply Z.pow_le_mono_r; lia).
    destruct (leadingFraction_app (fixed j m) (u +:+ rest) 0 (f_of 1) 1) as (scale & -> & Hsc);
      [done|lia|rewrite F2; lia|by apply f_of_exact|lia|rewrite F3; lia|done|].
    rewrite F2, F3 in *. cbn [negb andb]. rewrite (span_unit unit_char) by done.
    destruct (String.eqb_spec u EmptyString); [done|]. rewrite Hmap.
    destruct (Z.ltb_spec (2 ^ 63 / 10 ^ Z.of_nat k) v); [lia|]. destruct (Z.ltb_spec 0 (0 * 10 ^ Z.of_nat j + m)); [|lia]. cbn [andb].
    assert (f_trunc (f_mul (f_of m) (f_div (f_of (10 ^ Z.of_nat k)) scale)) = n) as Hf.
    { assert (10 ^ Z.of_nat k = 10 ^ Z.of_nat (k - j) * 10 ^ Z.of_nat j) as Ek by (rewrite <- Z.pow_add_r by lia; f_equal; lia).
      change (10 ^ 9) with 1000000000 in *.
      apply f_trunc_exact. rewrite En. apply f_mul_exact; [apply f_of_exact; lia| |nia].
      eapply f_div_exact; [apply f_of_exact; lia|exact Hsc|lia|rewrite Z.mul_1_l; exact Ek|nia]. }
    rewrite Z.mul_0_l, Z.add_0_l, Hf.
    destruct (Z.ltb_spec (2 ^ 63) (v * 10 ^ Z.of_nat k + n)); [lia|].
    destruct (Z.ltb_spec (2 ^ 63) (d + (v * 10 ^ Z.of_nat k + n))); [lia|]. by rewrite Z.add_assoc.
Qed.

Lemma parse_pieces_step fuel orig d s d' s' : s ≠ EmptyString → parse_piece orig d s = Ok (d', s') →
  parse_pieces (S fuel) orig d s = parse_pieces fuel orig d' s'.
Proof. intros Hs E. cbn [parse_pieces]. destruct (String.eqb_spec s EmptyString); [done|]. by rewrite E. Qed.

(** Text that begins with a number. *)
Definition numeral (s : string) : Prop := ∃ c w, s = String c w ∧ is_dig c = true ∧ w ≠ EmptyString.

Lemma numeral_pretty v s : 0 ≤ v → s ≠ EmptyString → numeral (pretty v +:+ s).
Proof.
  intros Hv Hs. destruct (pretty_dec v Hv) as (P1 & _ & P3). destruct (pretty v) as [|c w]; [done|]. cbn in P1.
  apply andb_true_iff in P1 as [Hc _]. exists c, (w +:+ s). split_and!; [done|done|]. by destruct w, s.
Qed.
Lemma numeral_ne s : numeral s → s ≠ EmptyString. Proof. by intros (c & w & -> & _). Qed.
Lemma numeral_stops s : numeral s → stops unit_char s.
Proof. intros (c & w & -> & Hc & _). cbn. unfold unit_char. by rewrite Hc, orb_true_r. Qed.
Lemma fmtFrac_unit_ne k n s : s ≠ EmptyString → fmtFrac k n +:+ s ≠ EmptyString.
Proof. intros Hs. destruct (fmtFrac k n); [done|]. done. Qed.
#[local] Hint Resolve numeral_pretty numeral_ne numeral_stops fmtFrac_unit_ne : core.

(** The last piece of a printed duration. *)
Lemma parse_last fuel orig d v k n u unit :
  0 ≤ d → 0 ≤ v → 0 ≤ n < 10 ^ Z.of_nat k → (k ≤ 9)%nat → unit = 10 ^ Z.of_nat k →
  u ≠ EmptyString → all_chars unit_char u = true → unitMap u = Some unit → 0 < unit → d + v * unit + n ≤ 2 ^ 63 →
  numeral (pretty v +:+ fmtFrac k n +:+ u) ∧
  parse_pieces (S fuel) orig d (pretty v +:+ fmtFrac k n +:+ u) = Ok (d + v * unit + n).
Proof.
  intros. assert (numeral (pretty v +:+ fmtFrac k n +:+ u)) as Hnum by auto. split; [done|].
  rewrite (parse_pieces_step _ _ _ _ (d + v * unit + n) EmptyString); [by destruct fuel|by apply numeral_ne|].
  pose proof (parse_printed orig d v k n u unit EmptyString) as E. rewrite app_nil_s in E. by apply E; auto.
Qed.

(** A piece before the last. *)
Lemma parse_more fuel orig d v u unit rest :
  0 ≤ d → 0 ≤ v → u ≠ EmptyString → all_chars unit_char u = true → unitMap u = Some unit → 0 < unit →
  d + v * unit ≤ 2 ^ 63 → numeral rest →
  numeral (pretty v +:+ u +:+ rest) ∧
  parse_pieces (S fuel) orig d (pretty v +:+ u +:+ rest) = parse_pieces fuel orig (d + v * unit) rest.
Proof.
  intros. assert (numeral (pretty v +:+ u +:+ rest)) as Hnum by (apply numeral_pretty; [done|]; by destruct u). split; [done|].
  apply parse_pieces_step; [by apply numeral_ne|].
  pose proof (parse_printed orig d v 0 0 u unit rest) as E. cbn [fmtFrac String.append] in E. rewrite E, Z.add_0_r; auto; cbn; lia.
Qed.

Lemma parse_magnitude fuel orig u : 0 < u ≤ 2 ^ 63 → numeral (magnitude u) ∧ parse_pieces (S (S (S fuel))) orig 0 (magnitude u) = Ok u.
Proof.
  intros Hu. unfold magnitude. destruct (Z.eqb_spec u 0); [lia|].
  unfold Microsecond, Millisecond, Second. pose proof (Z.div_mod u 1000). pose proof (Z.div_mod u 1000000).
  pose proof (Z.div_mod u 1000000000). pose proof (Z.mod_pos_bound u 1000). pose proof (Z.mod_pos_bound u 1000000).
  pose proof (Z.mod_pos_bound u 1000000000).
  destruct (Z.ltb_spec u 1000); [|destruct (Z.ltb_spec u 1000000); [|destruct (Z.ltb_spec u 1000000000)]].
  - destruct (parse_last (S (S fuel)) orig 0 u 0 0 "ns" 1) as [N E]; try first [done|lia|cbn; lia].
    split; [exact N|]. etransitivity; [exact E|]. f_equal. lia.
  - destruct (parse_last (S (S fuel)) orig 0 (u / 1000) 3 (u mod 1000) "µs" 1000) as [N E]; try first [done|lia|cbn; lia].
    split; [exact N|]. etransitivity; [exact E|]. f_equal. lia.
  - destruct (parse_last (S (S fuel)) orig 0 (u / 1000000) 6 (u mod 1000000) "ms" 1000000) as [N E]; try first [done|lia|cbn; lia].
    split; [exact N|]. etransitivity; [exact E|]. f_equal. lia.
  - set (secs := u / 1000000000). set (fr := u mod 1000000000). set (mins := secs / 60). set (hours := mins / 60).
    pose proof (Z.div_mod secs 60). pose proof (Z.mod_pos_bound secs 60). pose proof (Z.div_mod mins 60). pose proof (Z.mod_pos_bound mins 60).
    assert (u = 1000000000 * secs + fr ∧ secs = 60 * mins + secs mod 60 ∧ mins = 60 * hours + mins mod 60 ∧ 0 ≤ fr < 1000000000 ∧ 1 ≤ secs)
      as (Eu & Es & Em & Hn & Hs1) by (split_and!; first [by apply Z.div_mod|apply Z.div_le_lower_bound; lia|apply Z.mod_pos_bound; lia]).
    clearbody fr hours. clearbody mins. clearbody secs.
    assert (∀ fuel d, 0 ≤ d → d + secs mod 60 * 1000000000 + fr ≤ 2 ^ 63 →
      numeral (pretty (secs mod 60) +:+ fmtFrac 9 fr +:+ "s") ∧
      parse_pieces (S fuel) orig d (pretty (secs mod 60) +:+ fmtFrac 9 fr +:+ "s") = Ok (d + secs mod 60 * 1000000000 + fr)) as Hlast.
    { intros. apply parse_last; first [done|lia|cbn; lia]. }
    destruct (Z.ltb_spec 0 hours).
    + destruct (Z.ltb_spec 0 mins); [|lia]. rewrite !app_assoc_s.
      destruct (Hlast fuel (0 + hours * Hour + mins mod 60 * Minute)) as [N1 E1]; [unfold Hour, Minute, Second; lia..|].
      destruct (parse_more (S fuel) orig (0 + hours * Hour) (mins mod 60) "m" Minute _ ltac:(unfold Hour, Minute, Second; lia)
        ltac:(lia) ltac:(done) ltac:(done) ltac:(done) ltac:(done) ltac:(unfold Hour, Minute, Second; lia) N1) as [N2 E2].
      destruct (parse_more (S (S fuel)) orig 0 hours "h" Hour _ ltac:(lia)
        ltac:(lia) ltac:(done) ltac:(done) ltac:(done) ltac:(done) ltac:(unfold Hour, Minute, Second; lia) N2) as [N3 E3].
      split; [exact N3|]. etransitivity; [exact E3|]. etransitivity; [exact E2|]. etransitivity; [exact E1|].
      f_equal. unfold Hour, Minute, Second. lia.
    + destruct (Z.ltb_spec 0 mins).
      * cbn [String.append]. rewrite !app_assoc_s.
        destruct (Hlast (S fuel) (0 + mins mod 60 * Minute)) as [N1 E1]; [unfold Hour, Minute, Second; lia..|].
        destruct (parse_more (S (S fuel)) orig 0 (mins mod 60) "m" Minute _ ltac:(lia)
          ltac:(lia) ltac:(done) ltac:(done) ltac:(done) ltac:(done) ltac:(unfold Hour, Minute, Second; lia) N1) as [N2 E2].
        split; [exact N2|]. etransitivity; [exact E2|]. etransitivity; [exact E1|].
        f_equal. unfold Hour, Minute, Second. lia.
      * cbn [String.append]. destruct (Hlast (S (S fuel)) 0) as [N1 E1]; [lia..|].
        split; [exact N1|]. etransitivity; [exact E1|]. f_equal. lia.
Qed.

(** What [String] prints, [ParseDuration] reads back, fractions included. *)
Lemma duration_roundtrip d : in_int64 d → ParseDuration (Duration_String d) = Ok d.
Proof.
  unfold in_int64, int64_min, int64_max. intros Hd.
  assert (∀ u, 0 < u ≤ 2 ^ 63 → ∀ orig, ∃ c w, magnitude u = String c w ∧ is_dig c = true ∧ w ≠ EmptyString ∧
    parse_pieces (S (S (String.length (magnitude u)))) orig 0 (magnitude u) = Ok u) as Hmag.
  { intros u Hu orig. destruct (parse_magnitude 0 orig u Hu) as [(c & w & E & Hc & Hw) _].
    exists c, w. split_and!; [done..|]. rewrite E at 1. cbn [String.length]. by apply parse_magnitude. }
  destruct (Z.eq_dec d 0) as [->|Hd0]; [done|]. unfold Duration_String, ParseDuration.
  destruct (Z.ltb_spec d 0).
  - destruct (Hmag (- d) ltac:(lia) ("-" +:+ magnitude (- d))) as (c & w & E & Hc & Hw & P).
    cbn [String.append]. change (Ascii.eqb "-" (char 45)) with true. cbn iota. cbn [String.append] in P.
    destruct (String.eqb_spec (magnitude (- d)) "0") as [E'|_]; [rewrite E in E'; by injection E' as -> ->|].
    destruct (String.eqb_spec (magnitude (- d)) EmptyString) as [E'|_]; [by rewrite E in E'|].
    rewrite P. f_equal. lia.
  - destruct (Hmag d ltac:(lia) (magnitude d)) as (c & w & E & Hc & Hw & P).
    assert (Ascii.eqb c (char 45) = false ∧ Ascii.eqb c (char 43) = false) as [N1 N2].
    { split; apply Ascii.eqb_neq; intros ->; done. }
    rewrite E at 1. rewrite N1, N2.
    destruct (String.eqb_spec (magnitude d) "0") as [E'|_]; [rewrite E in E'; by injection E' as -> ->|].
    destruct (String.eqb_spec (magnitude d) EmptyString) as [E'|_]; [by rewrite E in E'|].
    rewrite P. destruct (Z.ltb_spec (2 ^ 63 - 1) d); [lia|done].
Qed.
