(* ===== verification/BackupEstimate.v ===== *)
(** * What a run needs: the two free-space guards

    api/internal/storage/target_estimate.go, the arithmetic of
    api/internal/storage/staging.go and of the agent's preflight verb: the
    size of a generation on the target before anything is staged, the peak of
    the staging directory, and the refusals over them.  Sizes are uint64; the
    manifest a run's assemble step kept in the job ledger is the argument
    [manifestFromLedger], since it is JSON inside JSON. *)
From Stdlib Require Import Ascii String.
From S2P Require Import Prelude GoStrings GoDuration BackupMembers BackupPlan BackupReport.
Open Scope string_scope.
Open Scope list_scope.
Open Scope Z_scope.

Definition u64 (n : Z) : Z := n mod 2 ^ 64.
Definition u64_max : Z := 2 ^ 64 - 1.
Definition in_u64 (n : Z) : Prop := 0 ≤ n < 2 ^ 64.

(** proto's constants. *)
Definition BackupTargetReserveBytes : Z := 256 * 2 ^ 20.
Definition BackupUnknownVolumeBytesCritical : Z := 256 * 2 ^ 20.
Definition BackupUnknownVolumeBytesState : Z := 2 ^ 30.
Definition StagingReserveBytes : Z := 2 * 2 ^ 30.

Definition byteCount (n : Z) : Z := if n <? 0 then 0 else n.

(** ** Sizes an operator reads *)

(** The verb %.1f on a float that is not negative. *)
Definition sprintf_1f (x : f64) : string :=
  let t := rne (10 * fnum x) (fden x) in
  pretty (t / 10) +:+ "." +:+ pretty (t mod 10).

(** The loop; [exp] stops it at 4. *)
Fixpoint human_scale (fuel : nat) (v div : Z) (exp : nat) : Z * nat :=
  match fuel with
  | O => (div, exp)
  | S fuel => if (1024 <=? v) && Nat.ltb exp 4 then human_scale fuel (v / 1024) (div * 1024) (S exp) else (div, exp)
  end.
Definition humanBytes (n : Z) : string :=
  if n <? 1024 then pretty n +:+ " B"
  else
    let '(div, exp) := human_scale 4 (n / 1024) 1024 0 in
    sprintf_1f (f_div (f_of n) (f_of div)) +:+ " " +:+ take_str 1 (drop_str exp "KMGTP") +:+ "iB".

Example human_reserve : humanBytes BackupTargetReserveBytes = "256.0 MiB". Proof. reflexivity. Qed.
Example human_small : humanBytes 1023 = "1023 B". Proof. reflexivity. Qed.
Example human_mid : humanBytes (1536 + 256) = "1.8 KiB". Proof. reflexivity. Qed.
Example human_top : humanBytes u64_max = "16384.0 PiB". Proof. reflexivity. Qed.

(** ** The estimate *)
Definition satAdd (a b : Z) : Z := if a <=? u64 (a + b) then u64 (a + b) else u64_max.

Record VolumeEstimate := mkVE {
  ve_App : string; ve_Volume : string; ve_Class : string; ve_Bytes : Z; ve_Known : bool; ve_Generation : string }.
Record TargetEstimate := mkTE {
  te_IdentityBytes : Z; te_VolumeBytes : Z; te_MarginBytes : Z; te_EstimateBytes : Z;
  te_Volumes : list VolumeEstimate; te_UnknownVolumes : list string }.
#[export] Instance VolumeEstimate_eq_dec : EqDecision VolumeEstimate.
Proof. solve_decision. Defined.
#[export] Instance TargetEstimate_eq_dec : EqDecision TargetEstimate.
Proof. solve_decision. Defined.

Definition PayloadBytes (e : TargetEstimate) : Z := satAdd (te_IdentityBytes e) (te_VolumeBytes e).

Definition Explain_estimate (e : TargetEstimate) : string :=
  "The estimate is " +:+ humanBytes (te_IdentityBytes e) +:+ " of identity set plus " +:+ humanBytes (te_VolumeBytes e) +:+
  " of app volumes (" +:+ pretty (Z.of_nat (length (te_Volumes e))) +:+ ") plus a " +:+ humanBytes (te_MarginBytes e) +:+
  " margin, " +:+ humanBytes (te_EstimateBytes e) +:+ " in all" +:+
  (if bool_decide (te_UnknownVolumes e = []) then EmptyString
   else "; " +:+ pretty (Z.of_nat (length (te_UnknownVolumes e))) +:+
        " volume(s) have never been captured and were counted at their class default (" +:+ Join (te_UnknownVolumes e) ", " +:+ ")").

Definition unknownVolumeBytes (class : string) : Z :=
  if String.eqb class BackupCritical then BackupUnknownVolumeBytesCritical else BackupUnknownVolumeBytesState.

Record PriorVolumeSize := mkPrior { pr_Bytes : Z; pr_Generation : string }.

Definition planned_String (p : PlannedVolume) : string := pv_AppName p +:+ "/" +:+ pv_Volume p.

(** The body of the loop over the plan. *)
Definition estimate_volume (prior : gmap string PriorVolumeSize) (est : TargetEstimate) (p : PlannedVolume) : TargetEstimate :=
  let known := match prior !! volume_Member p with Some ps => if 0 <? pr_Bytes ps then Some ps else None | None => None end in
  let term :=
    match known with
    | Some ps => mkVE (pv_AppName p) (pv_Volume p) (pv_Class p) (pr_Bytes ps) true (pr_Generation ps)
    | None => mkVE (pv_AppName p) (pv_Volume p) (pv_Class p) (unknownVolumeBytes (pv_Class p)) false EmptyString
    end in
  mkTE (te_IdentityBytes est) (satAdd (te_VolumeBytes est) (ve_Bytes term)) (te_MarginBytes est) (te_EstimateBytes est)
    (te_Volumes est ++ [term])
    (match known with Some _ => te_UnknownVolumes est | None => te_UnknownVolumes est ++ [planned_String p] end).

Definition EstimateTargetPayload (identityBytes : Z) (plan : list PlannedVolume) (prior : gmap string PriorVolumeSize) : TargetEstimate :=
  let est := foldl (estimate_volume prior) (mkTE identityBytes 0 BackupTargetReserveBytes 0 [] []) plan in
  mkTE (te_IdentityBytes est) (te_VolumeBytes est) (te_MarginBytes est)
    (satAdd (satAdd (te_IdentityBytes est) (te_VolumeBytes est)) (te_MarginBytes est))
    (te_Volumes est) (sort_Strings (te_UnknownVolumes est)).

(** *** Sizes earlier runs recorded *)
Definition priorVolumeScanLimit : Z := 25.

(** The fields of a manifest the lookup reads. *)
Record Manifest := mkManifest { m_GenerationID : string; m_AppVolumes : AppVolumeReport }.

Definition prior_record (want : gset string) (gen : string) (out : gmap string PriorVolumeSize) (v : VolumeRecord) : gmap string PriorVolumeSize :=
  if negb (r_Captured v) || String.eqb (r_Member v) EmptyString || negb (bool_decide (r_Member v ∈ want)) then out
  else if bool_decide (is_Some (out !! r_Member v)) then out
  else
    let size := if r_SealedSizeBytes v =? 0 then r_SizeBytes v else r_SealedSizeBytes v in
    if size =? 0 then out else <[r_Member v := mkPrior size gen]> out.

(** The loop over the runs, newest first. *)
Fixpoint prior_runs (manifestFromLedger : string → option Manifest) (want : gset string) (runs : list string)
    (out : gmap string PriorVolumeSize) : gmap string PriorVolumeSize :=
  match runs with
  | [] => out
  | jobID :: runs =>
      if Nat.eqb (size out) (size want) then out
      else
        match manifestFromLedger jobID with
        | None => prior_runs manifestFromLedger want runs out
        | Some m => prior_runs manifestFromLedger want runs (foldl (prior_record want (m_GenerationID m)) out (a_Volumes (m_AppVolumes m)))
        end
  end.

(** [runs]: the job ids [ListRuns] answers with, newest first. *)
Definition PriorVolumeSizes (runs : result (list string)) (manifestFromLedger : string → option Manifest) (want : gset string) :
    gmap string PriorVolumeSize :=
  if Nat.eqb (size want) 0 then ∅
  else match runs with Fail _ => ∅ | Ok runs => prior_runs manifestFromLedger want runs ∅ end.

(** ** The agent's side of the preflight *)
Definition requiredBytes (estimate : Z) : Z :=
  let sum := u64 (estimate + BackupTargetReserveBytes) in
  if sum <? estimate then u64_max else sum.

(** ** The staging directory's budget *)
Record StagingBudget := mkBudget {
  sb_DBBytes : Z; sb_IdentityBytes : Z; sb_StoreBytes : Z; sb_VolumeBytes : Z; sb_LargestVolumeBytes : Z;
  sb_PeakBytes : Z; sb_FreeBytes : Z; sb_ReserveBytes : Z }.

Definition budget_Sufficient (b : StagingBudget) : bool :=
  let need := u64 (sb_PeakBytes b + sb_ReserveBytes b) in
  if need <? sb_PeakBytes b then false else need <=? sb_FreeBytes b.

Definition Explain_budget (b : StagingBudget) (dir : string) : string :=
  dir +:+ " has " +:+ humanBytes (sb_FreeBytes b) +:+ " free; staging this backup needs about " +:+
  humanBytes (u64 (sb_PeakBytes b + sb_ReserveBytes b)) +:+ " (a " +:+ humanBytes (sb_IdentityBytes b) +:+
  " identity set with a " +:+ humanBytes (sb_StoreBytes b) +:+ " staged copy of the secret store, plus " +:+
  humanBytes (sb_VolumeBytes b) +:+ " of app-volume data, " +:+
  "assembled and then sealed, alongside a staged copy of the largest single volume at " +:+ humanBytes (sb_LargestVolumeBytes b) +:+ ") " +:+
  "while leaving the " +:+ humanBytes (sb_ReserveBytes b) +:+ " reserve that keeps the metrics store writable. Nothing was written, and the previous " +:+
  "generations on the backup target are untouched".

Definition ErrStagingFull : error := sentinel "ErrStagingFull" "storage: not enough free space to stage a backup archive".

(** [free] is the answer of [FreeBytes(dir)]. *)
Definition PlanStaging (free : result Z) (dir : string) (dbBytes identityBytes storeBytes volumeBytes largestVolumeBytes : Z) :
    result StagingBudget :=
  match free with
  | Fail e => Fail e
  | Ok free =>
      let b := mkBudget dbBytes identityBytes storeBytes volumeBytes largestVolumeBytes
                 (u64 (dbBytes + storeBytes + 2 * (identityBytes + volumeBytes) + largestVolumeBytes)) free StagingReserveBytes in
      if negb (budget_Sufficient b) then Fail (wrapf (err_text ErrStagingFull +:+ ": " +:+ Explain_budget b dir) ErrStagingFull)
      else Ok b
  end.

(** ** The arithmetic neither wraps nor disagrees *)
Lemma satAdd_min a b : in_u64 a → in_u64 b → satAdd a b = Z.min (a + b) u64_max.
Proof.
  unfold in_u64, satAdd, u64, u64_max. intros Ha Hb. destruct (Z.lt_ge_cases (a + b) (2 ^ 64)).
  - rewrite Z.mod_small by lia. destruct (Z.leb_spec a (a + b)); lia.
  - replace ((a + b) mod 2 ^ 64) with (a + b - 2 ^ 64) by (rewrite <- (Z.mod_add _ (-1)), Z.mod_small; lia).
    destruct (Z.leb_spec a (a + b - 2 ^ 64)); lia.
Qed.

Lemma satAdd_in a b : in_u64 a → in_u64 b → in_u64 (satAdd a b).
Proof. intros Ha Hb. rewrite satAdd_min by done. unfold in_u64, u64_max in *. lia. Qed.

Lemma requiredBytes_min n : in_u64 n → requiredBytes n = Z.min (n + BackupTargetReserveBytes) u64_max.
Proof.
  intros Hn. rewrite <- (satAdd_min n BackupTargetReserveBytes) by (done || (unfold in_u64, BackupTargetReserveBytes; lia)).
  unfold requiredBytes, satAdd. rewrite Z.leb_antisym. by destruct (u64 (n + BackupTargetReserveBytes) <? n).
Qed.

(** The size one planned volume is counted at. *)
Definition term_bytes (prior : gmap string PriorVolumeSize) (p : PlannedVolume) : Z :=
  match prior !! volume_Member p with
  | Some ps => if 0 <? pr_Bytes ps then pr_Bytes ps else unknownVolumeBytes (pv_Class p)
  | None => unknownVolumeBytes (pv_Class p)
  end.
Definition total (l : list Z) : Z := foldr Z.add 0 l.

Definition sizes_in (prior : gmap string PriorVolumeSize) : Prop := map_Forall (λ _ ps, in_u64 (pr_Bytes ps)) prior.

Lemma term_in prior p : sizes_in prior → in_u64 (term_bytes prior p).
Proof.
  intros Hp. unfold term_bytes.
  assert (in_u64 (unknownVolumeBytes (pv_Class p))) by (unfold unknownVolumeBytes; case_match; done).
  destruct (prior !! volume_Member p) as [ps|] eqn:E; [|done]. destruct (0 <? pr_Bytes ps); [|done]. by apply (Hp _ _ E).
Qed.

Lemma total_snoc l x : total (l ++ [x]) = total l + x.
Proof. unfold total. induction l as [|y l IH]; cbn [foldr app] in *; lia. Qed.
Lemma total_nonneg (l : list Z) : Forall in_u64 l → 0 ≤ total l.
Proof. unfold in_u64. induction 1; cbn [total foldr] in *; [done|]. fold (total l) in *. lia. Qed.

Lemma estimate_volume_eq prior est p : sizes_in prior → in_u64 (te_VolumeBytes est) →
  let est' := estimate_volume prior est p in
  te_VolumeBytes est' = Z.min (te_VolumeBytes est + term_bytes prior p) u64_max ∧
  te_IdentityBytes est' = te_IdentityBytes est ∧ te_MarginBytes est' = te_MarginBytes est ∧
  ve_Bytes <$> te_Volumes est' = (ve_Bytes <$> te_Volumes est) ++ [term_bytes prior p].
Proof.
  intros Hp Hv. pose proof (term_in prior p Hp) as Ht.
  unfold estimate_volume. cbn [te_VolumeBytes te_IdentityBytes te_MarginBytes te_Volumes]. rewrite fmap_app. cbn [fmap list_fmap].
  match goal with |- context [satAdd _ (ve_Bytes ?t)] => assert (ve_Bytes t = term_bytes prior p) as -> end.
  { unfold term_bytes. destruct (prior !! volume_Member p) as [ps|]; [|done]. by destruct (0 <? pr_Bytes ps). }
  by rewrite satAdd_min.
Qed.

Lemma estimate_volumes prior plan est : sizes_in prior → te_VolumeBytes est = Z.min (total (ve_Bytes <$> te_Volumes est)) u64_max →
  Forall in_u64 (ve_Bytes <$> te_Volumes est) →
  let est' := foldl (estimate_volume prior) est plan in
  te_VolumeBytes est' = Z.min (total (ve_Bytes <$> te_Volumes est')) u64_max ∧
  te_IdentityBytes est' = te_IdentityBytes est ∧ te_MarginBytes est' = te_MarginBytes est ∧
  ve_Bytes <$> te_Volumes est' = (ve_Bytes <$> te_Volumes est) ++ (term_bytes prior <$> plan).
Proof.
  intros Hp. revert est. induction plan as [|p plan IH]; intros est Hv Hf; cbn [foldl].
  { cbn. by rewrite (right_id_L [] (++)). }
  assert (in_u64 (te_VolumeBytes est)) as Hin.
  { rewrite Hv. pose proof (total_nonneg _ Hf). unfold in_u64, u64_max. lia. }
  pose proof (term_in prior p Hp) as Ht. pose proof (total_nonneg _ Hf) as H0.
  destruct (estimate_volume_eq prior est p Hp Hin) as (E1 & E2 & E3 & E4).
  destruct (IH (estimate_volume prior est p)) as (I1 & I2 & I3 & I4).
  { rewrite E1, E4, total_snoc, Hv. unfold in_u64, u64_max in *. lia. }
  { rewrite E4. apply Forall_app. split; [done|]. by apply Forall_singleton. }
  split_and!; [done|congruence|congruence|]. rewrite I4, E4, <- (assoc_L (++)). done.
Qed.

Lemma estimate_exact identity plan prior : in_u64 identity → sizes_in prior →
  let est := EstimateTargetPayload identity plan prior in
  ve_Bytes <$> te_Volumes est = term_bytes prior <$> plan ∧
  te_EstimateBytes est = Z.min (identity + total (term_bytes prior <$> plan) + BackupTargetReserveBytes) u64_max ∧
  requiredBytes (PayloadBytes est) = te_EstimateBytes est.
Proof.
  intros Hi Hp. unfold EstimateTargetPayload, PayloadBytes.
  cbn [te_EstimateBytes te_Volumes te_IdentityBytes te_VolumeBytes].
  destruct (estimate_volumes prior plan (mkTE identity 0 BackupTargetReserveBytes 0 [] []) Hp eq_refl (List.Forall_nil _)) as (E1 & E2 & E3 & E4).
  cbn [te_Volumes te_IdentityBytes te_MarginBytes fmap list_fmap app] in *. rewrite E1, E2, E3, E4.
  assert (Forall in_u64 (term_bytes prior <$> plan)) as Hf by (apply Forall_fmap, Forall_forall; intros; by apply term_in).
  pose proof (total_nonneg _ Hf) as H0. set (T := total (term_bytes prior <$> plan)) in *.
  assert (in_u64 (Z.min T u64_max)) by (unfold in_u64, u64_max; lia).
  rewrite requiredBytes_min by (by apply satAdd_in). rewrite (satAdd_min (satAdd _ _)) by (first [by apply satAdd_in|done]).
  rewrite satAdd_min by done. unfold in_u64, u64_max, BackupTargetReserveBytes in *. split_and!; [done|lia|lia].
Qed.

(** A preflight the agent passes found room for the whole generation. *)
Lemma preflight_covers identity plan prior free : in_u64 identity → sizes_in prior → free < u64_max →
  requiredBytes (PayloadBytes (EstimateTargetPayload identity plan prior)) ≤ free →
  identity + total (term_bytes prior <$> plan) + BackupTargetReserveBytes ≤ free.
Proof. intros Hi Hp Hf. destruct (estimate_exact identity plan prior Hi Hp) as (_ & E & ->). rewrite E. lia. Qed.

(** The staging guard, where the sum of the sizes is one a disk can have. *)
Lemma staging_room free dir db identity store volumes largest b :
  0 ≤ db → 0 ≤ identity → 0 ≤ store → 0 ≤ volumes → 0 ≤ largest → db + store + 2 * (identity + volumes) + largest < 2 ^ 64 →
  PlanStaging (Ok free) dir db identity store volumes largest = Ok b →
  sb_PeakBytes b = db + store + 2 * (identity + volumes) + largest ∧ sb_PeakBytes b + StagingReserveBytes ≤ free.
Proof.
  intros H1 H2 H3 H4 H5 H6. unfold PlanStaging. set (peak := db + store + 2 * (identity + volumes) + largest) in *.
  replace (u64 peak) with peak by (unfold u64; rewrite Z.mod_small; unfold peak; lia).
  unfold budget_Sufficient. cbn [sb_PeakBytes sb_ReserveBytes sb_FreeBytes].
  destruct (Z.ltb_spec (u64 (peak + StagingReserveBytes)) peak) as [|Hl]; cbn [negb]; [done|].
  destruct (Z.leb_spec (u64 (peak + StagingReserveBytes)) free) as [Hle|]; cbn [negb]; [|done]. intros [= <-].
  cbn [sb_PeakBytes]. split; [done|].
  destruct (Z.lt_ge_cases (peak + StagingReserveBytes) (2 ^ 64)).
  - unfold u64 in Hle. rewrite Z.mod_small in Hle; [done|]. unfold StagingReserveBytes, peak in *. lia.
  - exfalso. assert (u64 (peak + StagingReserveBytes) = peak + StagingReserveBytes - 2 ^ 64) as E.
    { unfold u64. rewrite <- (Z.mod_add _ (-1)), Z.mod_small; unfold StagingReserveBytes in *; lia. }
    unfold StagingReserveBytes in *. lia.
Qed.

(** A size read as nothing makes the guard pass where it would not. *)
Example missing_size_passes :
  is_ok (PlanStaging (Ok (3 * 2 ^ 30)) "/s" (2 ^ 30) (2 ^ 30) 0 0 0) = false ∧
  is_ok (PlanStaging (Ok (3 * 2 ^ 30)) "/s" (byteCount (-1)) (byteCount (-1)) 0 0 0) = true.
Proof. by vm_compute. Qed.

(** ** The lookup of earlier sizes takes the newest record *)
Definition recorded (want : gset string) (m : string) (gen : string) (v : VolumeRecord) : option PriorVolumeSize :=
  let size := if r_SealedSizeBytes v =? 0 then r_SizeBytes v else r_SealedSizeBytes v in
  if r_Captured v && bool_decide (r_Member v = m ∧ m ≠ EmptyString ∧ m ∈ want) && negb (size =? 0)
  then Some (mkPrior size gen) else None.
(** The first of the runs, newest first, whose manifest holds the member. *)
Definition newest_size (manifestFromLedger : string → option Manifest) (want : gset string) (runs : list string) (m : string) :
    option PriorVolumeSize :=
  head (omap (λ x, recorded want m (fst x) (snd x))
    (runs ≫= λ j, match manifestFromLedger j with
                  | Some mf => pair (m_GenerationID mf) <$> a_Volumes (m_AppVolumes mf) | None => [] end)).

Lemma prior_record_lookup want gen out v m : m ∈ want →
  prior_record want gen out v !! m = match out !! m with Some ps => Some ps | None => recorded want m gen v end.
Proof.
  intros Hm. unfold prior_record, recorded. cbn zeta. set (size := if r_SealedSizeBytes v =? 0 then _ else _).
  destruct (r_Captured v); cbn [negb orb andb]; [|by destruct (out !! m)].
  destruct (String.eqb_spec (r_Member v) EmptyString) as [E|E]; cbn [orb].
  { rewrite bool_decide_eq_false_2 by (intros (? & ? & _); congruence). by destruct (out !! m). }
  destruct (decide (r_Member v = m)) as [Em|Em].
  - rewrite Em in *. rewrite (bool_decide_eq_true_2 (m ∈ want)) by done. cbn [negb].
    rewrite (bool_decide_eq_true_2 (_ ∧ _)) by done. cbn [andb].
    destruct (out !! m) as [ps|] eqn:Eo.
    { rewrite (bool_decide_eq_true_2 (is_Some _)) by done. by rewrite Eo. }
    rewrite (bool_decide_eq_false_2 (is_Some _)) by (by intros []).
    destruct (size =? 0); cbn [negb]; [done|]. by rewrite lookup_insert_eq.
  - rewrite (bool_decide_eq_false_2 (_ ∧ _)) by (by intros (? & _)). cbn [andb].
    assert (∀ ps, <[r_Member v:=ps]> out !! m = out !! m) as Hne by (intros; by apply lookup_insert_ne).
    repeat case_match; rewrite ?Hne; congruence.
Qed.

Lemma head_app_o {A} (l1 l2 : list A) : head (l1 ++ l2) = match head l1 with Some x => Some x | None => head l2 end.
Proof. by destruct l1. Qed.

Lemma prior_manifest_lookup want gen vs out m : m ∈ want →
  foldl (prior_record want gen) out vs !! m =
    match out !! m with Some ps => Some ps | None => head (omap (λ x, recorded want m (fst x) (snd x)) (pair gen <$> vs)) end.
Proof.
  intros Hm. revert out. induction vs as [|v vs IH]; intros out; cbn [foldl]; [by destruct (out !! m)|].
  rewrite IH, prior_record_lookup by done. destruct (out !! m); [done|]. cbn. by destruct (recorded want m gen v).
Qed.

Lemma prior_record_dom want gen out v : dom out ⊆ want → dom (prior_record want gen out v) ⊆ want.
Proof.
  intros Hd. unfold prior_record. case_match eqn:E; [done|]. apply orb_false_iff in E as [_ E].
  rewrite negb_false_iff, bool_decide_eq_true in E. repeat case_match; set_solver.
Qed.

Lemma prior_runs_lookup mf want runs out m : dom out ⊆ want → m ∈ want →
  prior_runs mf want runs out !! m = match out !! m with Some ps => Some ps | None => newest_size mf want runs m end.
Proof.
  intros Hd Hm. revert out Hd. induction runs as [|j runs IH]; intros out Hd; cbn [prior_runs]; [by destruct (out !! m)|].
  destruct (Nat.eqb_spec (size out) (size want)) as [Es|Es].
  { assert (m ∈ dom out) as Hin.
    { rewrite <- size_dom in Es. assert (dom out ≡ want) as ->; [|done]. apply set_subseteq_size_equiv; [done|lia]. }
    by apply elem_of_dom in Hin as [ps ->]. }
  unfold newest_size. cbn [mbind list_bind]. destruct (mf j) as [mm|]; [|by apply IH].
  rewrite IH.
  - rewrite prior_manifest_lookup by done. destruct (out !! m); [done|]. rewrite omap_app, head_app_o.
    by destruct (head (omap _ (pair (m_GenerationID mm) <$> _))).
  - clear -Hd. revert out Hd. induction (a_Volumes (m_AppVolumes mm)) as [|v vs IH]; intros out Hd; cbn [foldl]; [done|].
    apply IH. by apply prior_record_dom.
Qed.

(** The scan that stops early finds what a scan of every run finds. *)
Lemma prior_sizes_newest runs mf want m : m ∈ want →
  PriorVolumeSizes (Ok runs) mf want !! m = newest_size mf want runs m.
Proof.
  intros Hm. unfold PriorVolumeSizes.
  destruct (Nat.eqb_spec (size want) 0) as [E|_]; [apply size_empty_inv in E; set_solver|].
  rewrite prior_runs_lookup by (done || set_solver). by rewrite lookup_empty.
Qed.
