(* ===== verification/BackupRuns.v ===== *)
(** * The ledger of backup runs

    api/internal/storage/backup_store.go: the table backup_runs, one row per
    backup.run job, with the statements of [Store] on it.  A statement the
    driver fails changes nothing.  A row is kept as the struct a scan of it
    returns: times have lost what is below the millisecond, sizes are at most
    an int64, and the JSON of the preflight column is the value it encodes. *)
From Stdlib Require Import Ascii String.
From S2P Require Import Prelude Ledger NodeUpdateStore BackupEstimate.
Open Scope string_scope.
Open Scope list_scope.
Open Scope Z_scope.

#[local] Arguments String.eqb : simpl never.

Inductive RunStatus := RunRunning | RunSucceeded | RunFailed.
#[export] Instance RunStatus_eq_dec : EqDecision RunStatus.
Proof. solve_decision. Defined.

Record BackupRun := mkRun {
  br_JobID : string; br_TargetJobID : string; br_PartUUID : string; br_NodeID : string; br_Reason : string; br_Scope : string;
  br_GenerationID : string; br_KeyID : string; br_Digest : string; br_SizeBytes : Z; br_AppVolumesCaptured : Z;
  br_AppVolumesSkipped : Z; br_AppVolumesFailed : Z; br_Complete : bool; br_Warning : string; br_GenerationsKept : Z;
  br_GenerationsPruned : Z; br_Preflight : option TargetEstimate; br_Status : RunStatus; br_StartedAt : Z;
  br_FinishedAt : option Z; br_Error : string }.
#[export] Instance BackupRun_eq_dec : EqDecision BackupRun.
Proof. solve_decision. Defined.

Definition RunRows : Type := list BackupRun.

Definition sizeForDB (v : Z) : Z := if int64_max <? v then int64_max else v.

(** A write the driver may fail. *)
Definition r_stmt {A} (flt : option error) (fail : error → A) (s : RunRows) (run : RunRows * A) : RunRows * A :=
  match flt with Some e => (s, fail e) | None => run end.

Definition StartRun (flt : option error) (s : RunRows) (jobID reason scope : string) (now : Z) : RunRows * option error :=
  r_stmt flt Some s
    (if bool_decide (jobID ∈ br_JobID <$> s) then (s, Some errConstraint)
     else (s ++ [mkRun jobID EmptyString EmptyString EmptyString reason scope EmptyString EmptyString EmptyString 0 0 0 0 false
             EmptyString 0 0 None RunRunning (stored_ms now) None EmptyString], None)).

(** [UPDATE backup_runs SET ... WHERE p]. *)
Definition run_where (p : BackupRun → bool) (f : BackupRun → BackupRun) (s : RunRows) : RunRows := (λ r, if p r then f r else r) <$> s.
Definition of_job (jobID : string) (r : BackupRun) : bool := String.eqb (br_JobID r) jobID.
Definition running_job (jobID : string) (r : BackupRun) : bool := of_job jobID r && bool_decide (br_Status r = RunRunning).

Definition with_target (targetJobID partUUID nodeID keyID : string) (r : BackupRun) : BackupRun :=
  mkRun (br_JobID r) targetJobID partUUID nodeID (br_Reason r) (br_Scope r) (br_GenerationID r) keyID (br_Digest r) (br_SizeBytes r)
    (br_AppVolumesCaptured r) (br_AppVolumesSkipped r) (br_AppVolumesFailed r) (br_Complete r) (br_Warning r) (br_GenerationsKept r)
    (br_GenerationsPruned r) (br_Preflight r) (br_Status r) (br_StartedAt r) (br_FinishedAt r) (br_Error r).
Definition BindRunTarget (flt : option error) (s : RunRows) (jobID targetJobID partUUID nodeID keyID : string) : RunRows * option error :=
  r_stmt flt Some s (run_where (of_job jobID) (with_target targetJobID partUUID nodeID keyID) s, None).

Definition with_generation (generationID digest : string) (sizeBytes captured skipped failed : Z) (r : BackupRun) : BackupRun :=
  mkRun (br_JobID r) (br_TargetJobID r) (br_PartUUID r) (br_NodeID r) (br_Reason r) (br_Scope r) generationID (br_KeyID r) digest
    (sizeForDB sizeBytes) captured skipped failed (br_Complete r) (br_Warning r) (br_GenerationsKept r)
    (br_GenerationsPruned r) (br_Preflight r) (br_Status r) (br_StartedAt r) (br_FinishedAt r) (br_Error r).
Definition MarkRunGeneration (flt : option error) (s : RunRows) (jobID generationID digest : string)
    (sizeBytes captured skipped failed : Z) : RunRows * option error :=
  r_stmt flt Some s (run_where (of_job jobID) (with_generation generationID digest sizeBytes captured skipped failed) s, None).

Definition with_preflight (est : TargetEstimate) (r : BackupRun) : BackupRun :=
  mkRun (br_JobID r) (br_TargetJobID r) (br_PartUUID r) (br_NodeID r) (br_Reason r) (br_Scope r) (br_GenerationID r) (br_KeyID r)
    (br_Digest r) (br_SizeBytes r) (br_AppVolumesCaptured r) (br_AppVolumesSkipped r) (br_AppVolumesFailed r) (br_Complete r) (br_Warning r)
    (br_GenerationsKept r) (br_GenerationsPruned r) (Some est) (br_Status r) (br_StartedAt r) (br_FinishedAt r) (br_Error r).
Definition MarkRunPreflight (flt : option error) (s : RunRows) (jobID : string) (est : TargetEstimate) : RunRows * option error :=
  r_stmt flt Some s (run_where (of_job jobID) (with_preflight est) s, None).

Record RunResult := mkResult {
  rr_GenerationID : string; rr_Digest : string; rr_SizeBytes : Z; rr_AppVolumesCaptured : Z; rr_AppVolumesSkipped : Z;
  rr_AppVolumesFailed : Z; rr_Scope : string; rr_Complete : bool; rr_Warning : string; rr_GenerationsKept : Z;
  rr_GenerationsPruned : Z; rr_At : Z }.

(** The columns [FinishRun] and [MarkRunRetention] have in common. *)
Definition with_result (res : RunResult) (r : BackupRun) : BackupRun :=
  mkRun (br_JobID r) (br_TargetJobID r) (br_PartUUID r) (br_NodeID r) (br_Reason r) (br_Scope r) (rr_GenerationID res) (br_KeyID r)
    (rr_Digest res) (sizeForDB (rr_SizeBytes res)) (rr_AppVolumesCaptured res) (rr_AppVolumesSkipped res) (rr_AppVolumesFailed res)
    (rr_Complete res) (rr_Warning res) (rr_GenerationsKept res) (rr_GenerationsPruned res) (br_Preflight r) (br_Status r)
    (br_StartedAt r) (br_FinishedAt r) (br_Error r).
Definition with_run_outcome (status : RunStatus) (errMsg : string) (at_ : Z) (r : BackupRun) : BackupRun :=
  mkRun (br_JobID r) (br_TargetJobID r) (br_PartUUID r) (br_NodeID r) (br_Reason r) (br_Scope r) (br_GenerationID r) (br_KeyID r)
    (br_Digest r) (br_SizeBytes r) (br_AppVolumesCaptured r) (br_AppVolumesSkipped r) (br_AppVolumesFailed r) (br_Complete r) (br_Warning r)
    (br_GenerationsKept r) (br_GenerationsPruned r) (br_Preflight r) status (br_StartedAt r) (Some (stored_ms at_)) errMsg.

Definition errNoRunningRow : error := errors_New "no running backup_runs row for this job".
Definition FinishRun (flt : option error) (s : RunRows) (jobID : string) (res : RunResult) : RunRows * option error :=
  r_stmt flt Some s
    (run_where (running_job jobID) (λ r, with_run_outcome RunSucceeded EmptyString (rr_At res) (with_result res r)) s,
     if existsb (running_job jobID) s then None else Some errNoRunningRow).
Definition MarkRunRetention (flt : option error) (s : RunRows) (jobID : string) (res : RunResult) : RunRows * option error :=
  r_stmt flt Some s (run_where (of_job jobID) (with_result res) s, None).
Definition FailRun (flt : option error) (s : RunRows) (jobID errMsg : string) (at_ : Z) : RunRows * option error :=
  r_stmt flt Some s (run_where (running_job jobID) (with_run_outcome RunFailed errMsg at_) s, None).

(** ** Reads *)
Definition run_row (s : RunRows) (jobID : string) : option BackupRun := head (filter (λ r, br_JobID r = jobID) s).
Definition GetRun (flt : option error) (s : RunRows) (jobID : string) : result (option BackupRun) := query flt (run_row s jobID).

Definition run_started_desc (a b : BackupRun) : Prop := br_StartedAt b ≤ br_StartedAt a.
#[export] Instance run_started_desc_dec a b : Decision (run_started_desc a b) := decide_rel Z.le _ _.
(** NULL sorts as the smallest value. *)
Definition run_finished_desc (a b : BackupRun) : Prop :=
  match br_FinishedAt a, br_FinishedAt b with
  | _, None => True
  | None, Some _ => False
  | Some x, Some y => y ≤ x
  end.
#[export] Instance run_finished_desc_dec a b : Decision (run_finished_desc a b).
Proof. unfold run_finished_desc. destruct (br_FinishedAt a), (br_FinishedAt b); apply _. Defined.

Definition ListRuns (flt : option error) (s : RunRows) (limit : Z) : result (list BackupRun) :=
  let limit := if limit <=? 0 then 100 else limit in
  query flt (take (Z.to_nat limit) (merge_sort run_started_desc s)).
Definition ListRunning (flt : option error) (s : RunRows) : result (list BackupRun) :=
  query flt (merge_sort run_started_desc (filter (λ r, br_Status r = RunRunning) s)).
Definition LastSuccess (flt : option error) (s : RunRows) : result (option BackupRun) :=
  query flt (head (merge_sort run_finished_desc (filter (λ r, br_Status r = RunSucceeded) s))).

(** ** The ledger's invariant: one row per job, and a time for every verdict *)
Definition settled (r : BackupRun) : Prop := br_Status r = RunRunning ↔ br_FinishedAt r = None.
Definition runs_ok (s : RunRows) : Prop := NoDup (br_JobID <$> s) ∧ Forall settled s.

Lemma run_where_ids p f s : (∀ r, br_JobID (f r) = br_JobID r) → br_JobID <$> run_where p f s = br_JobID <$> s.
Proof.
  intros Hf. unfold run_where. rewrite <- list_fmap_compose. apply list_fmap_ext. intros _ r _. cbn. by destruct (p r).
Qed.

Lemma run_where_ok p f s : (∀ r, br_JobID (f r) = br_JobID r) → (∀ r, settled r → p r = true → settled (f r)) →
  runs_ok s → runs_ok (run_where p f s).
Proof.
  intros Hf Hs [Hn Ha]. split; [by rewrite run_where_ids|]. unfold run_where. apply Forall_fmap.
  eapply Forall_impl; [exact Ha|]. intros r Hr. cbn. destruct (p r) eqn:E; auto.
Qed.

Lemma r_stmt_ok {A} flt (fail : error → A) s run : runs_ok s → runs_ok (fst run) → runs_ok (fst (r_stmt flt fail s run)).
Proof. by destruct flt. Qed.

Lemma settled_outcome st msg t r : st ≠ RunRunning → settled (with_run_outcome st msg t r).
Proof. intros H. unfold settled. cbn. by split. Qed.

(** Every statement keeps it. *)
Lemma ledger_keeps flt s :
  runs_ok s →
  (∀ j reason scope now, runs_ok (fst (StartRun flt s j reason scope now))) ∧
  (∀ j t p n k, runs_ok (fst (BindRunTarget flt s j t p n k))) ∧
  (∀ j g d sz a b c, runs_ok (fst (MarkRunGeneration flt s j g d sz a b c))) ∧
  (∀ j est, runs_ok (fst (MarkRunPreflight flt s j est))) ∧
  (∀ j res, runs_ok (fst (FinishRun flt s j res))) ∧
  (∀ j res, runs_ok (fst (MarkRunRetention flt s j res))) ∧
  (∀ j msg t, runs_ok (fst (FailRun flt s j msg t))).
Proof.
  intros Hs. split_and!; intros; apply r_stmt_ok; try done; try (apply run_where_ok; [done| |done]; intros r Hr _; exact Hr || by apply settled_outcome).
  case_bool_decide as Hin; [done|]. cbn. destruct Hs as [Hn Ha]. split.
  - rewrite fmap_app. apply NoDup_app. split; [done|]. split; [|apply NoDup_singleton]. by intros x Hx ->%list_elem_of_singleton.
  - apply Forall_app. split; [done|]. apply Forall_singleton. done.
Qed.

(** A verdict is final: no statement changes the status of a row that has one. *)
Lemma run_where_lookup p f s j : (∀ r, br_JobID (f r) = br_JobID r) → runs_ok s →
  run_row (run_where p f s) j = (λ r, if p r then f r else r) <$> run_row s j.
Proof.
  intros Hf _. unfold run_row, run_where. induction s as [|r s IH]; [done|]. rewrite fmap_cons, !(filter_cons (λ r, br_JobID r = j)).
  assert (br_JobID (if p r then f r else r) = br_JobID r) as -> by (by destruct (p r)).
  destruct (decide (br_JobID r = j)); [done|]. exact IH.
Qed.

Lemma run_row_id s j r : run_row s j = Some r → br_JobID r = j ∧ r ∈ s.
Proof. intros H%head_Some_elem_of. by apply list_elem_of_filter in H. Qed.

Lemma run_row_mem s r : runs_ok s → r ∈ s → run_row s (br_JobID r) = Some r.
Proof.
  intros [Hn _]. induction s as [|x s IH]; [by intros ?%elem_of_nil|]. cbn in Hn. apply NoDup_cons in Hn as [Hx Hn].
  unfold run_row. rewrite (filter_cons (λ y, br_JobID y = br_JobID r)). intros [->|Hr]%elem_of_cons; [by rewrite decide_True|].
  rewrite decide_False; [by apply IH|]. intros E. apply Hx. rewrite E. by apply list_elem_of_fmap_2.
Qed.
