(* ===== verification/BackupSchedule.v ===== *)
(** * The backup schedule

    api/internal/storage/backup_schedule.go: the operator's cadence and
    retention in the settings table, and the scheduler's gate [DueFunc] over
    the ledger of runs.  The settings table is a map of text; encoding/json on
    the schedule is a class with the law the code relies on. *)
From Stdlib Require Import Ascii String.
From S2P Require Import Prelude GoStrings GoRunes GoDuration Ledger BackupRuns.
Open Scope string_scope.
Open Scope list_scope.
Open Scope Z_scope.

Definition KeyBackupSchedule : string := "backup.schedule".
Definition DefaultBackupCadence : Z := 7 * 24 * Hour.
Definition MinBackupCadence : Z := Hour.
Definition MaxBackupCadence : Z := 365 * 24 * Hour.
Definition BackupRetainGenerations : Z := 4.
Definition DefaultBackupRetain : Z := BackupRetainGenerations.
Definition MinBackupRetain : Z := 1.
Definition MaxBackupRetain : Z := 52.

Record BackupSchedule := mkSchedule { bs_Enabled : bool; bs_Every : string; bs_Retain : Z }.

Definition ErrInvalidCadence : error :=
  sentinel "ErrInvalidCadence" ("backup cadence must be a duration between " +:+ Duration_String MinBackupCadence +:+ " and " +:+ Duration_String MaxBackupCadence).
Definition ErrInvalidRetain : error :=
  sentinel "ErrInvalidRetain" ("backup retention must keep between " +:+ pretty MinBackupRetain +:+ " and " +:+ pretty MaxBackupRetain +:+ " generations").

Definition Interval (s : BackupSchedule) : Z :=
  match ParseDuration (Trim (bs_Every s)) with
  | Ok d => if (d <? MinBackupCadence) || (MaxBackupCadence <? d) then DefaultBackupCadence else d
  | Fail _ => DefaultBackupCadence
  end.

Definition Generations (s : BackupSchedule) : Z :=
  if (bs_Retain s <? MinBackupRetain) || (MaxBackupRetain <? bs_Retain s) then DefaultBackupRetain else bs_Retain s.

Definition ValidateBackupSchedule (s : BackupSchedule) : result BackupSchedule :=
  let retain :=
    if bs_Retain s =? 0 then Ok DefaultBackupRetain
    else if (bs_Retain s <? MinBackupRetain) || (MaxBackupRetain <? bs_Retain s) then Fail ErrInvalidRetain
    else Ok (bs_Retain s) in
  match retain with
  | Fail e => Fail e
  | Ok retain =>
      let every := Trim (bs_Every s) in
      if String.eqb every EmptyString then Ok (mkSchedule (bs_Enabled s) (Duration_String DefaultBackupCadence) retain)
      else
        match ParseDuration every with
        | Fail e => Fail (wrapf (err_text ErrInvalidCadence +:+ ": " +:+ err_text e) ErrInvalidCadence)
        | Ok d =>
            if (d <? MinBackupCadence) || (MaxBackupCadence <? d) then Fail ErrInvalidCadence
            else Ok (mkSchedule (bs_Enabled s) (Duration_String d) retain)
        end
  end.

(** encoding/json on a [BackupSchedule]. *)
Class ScheduleCodec := {
  sched_enc : BackupSchedule → string;          (* json.Marshal *)
  sched_dec : string → result BackupSchedule    (* json.Unmarshal into a zero value *)
}.
Definition ascii7 (c : ascii) : bool := Nat.ltb (nat_of_ascii c) 128.
(** A marshalled value reads back, and is not blank. *)
Class ScheduleLaws (C : ScheduleCodec) : Prop := {
  sched_dec_enc s : all_chars ascii7 (bs_Every s) = true → sched_dec (sched_enc s) = Ok s;
  sched_enc_text s : Trim (sched_enc s) ≠ EmptyString
}.

#[local] Abbreviation Settings := (gmap string string).
Definition settings_Get (flt : option error) (st : Settings) (key : string) : result string := query flt (default EmptyString (st !! key)).
Definition settings_Set (flt : option error) (st : Settings) (key value : string) : Settings * option error :=
  match flt with Some e => (st, Some e) | None => (<[key := value]> st, None) end.

Section schedule.
Context {C : ScheduleCodec}.

Definition default_schedule (defaultEnabled : bool) : BackupSchedule :=
  mkSchedule defaultEnabled (Duration_String DefaultBackupCadence) DefaultBackupRetain.

(** [st] is [None] where the api was wired without a settings store. *)
Definition GetBackupSchedule (flt : option error) (st : option Settings) (defaultEnabled : bool) : result BackupSchedule :=
  match st with
  | None => Ok (default_schedule defaultEnabled)
  | Some st =>
      match settings_Get flt st KeyBackupSchedule with
      | Fail e => Fail e
      | Ok raw =>
          if String.eqb (Trim raw) EmptyString then Ok (default_schedule defaultEnabled)
          else
            match sched_dec raw with
            | Fail e => Fail (wrapf ("corrupt " +:+ KeyBackupSchedule +:+ " value: " +:+ err_text e) e)
            | Ok s =>
                let s := if String.eqb (Trim (bs_Every s)) EmptyString
                         then mkSchedule (bs_Enabled s) (Duration_String DefaultBackupCadence) (bs_Retain s) else s in
                Ok (mkSchedule (bs_Enabled s) (bs_Every s) (Generations s))
            end
      end
  end.

Definition SetBackupSchedule (flt : option error) (st : option Settings) (s : BackupSchedule) : option Settings * result BackupSchedule :=
  match st with
  | None => (None, Fail (errors_New "no settings store: this api cannot persist a backup schedule"))
  | Some kv =>
      match ValidateBackupSchedule s with
      | Fail e => (st, Fail e)
      | Ok v =>
          match settings_Set flt kv KeyBackupSchedule (sched_enc v) with
          | (kv', Some e) => (Some kv', Fail e)
          | (kv', None) => (Some kv', Ok v)
          end
      end
  end.

(** The gate: the reads it makes, each with its own fault, and the clock. *)
Definition DueFunc (flt_settings flt_running flt_last : option error) (rows : RunRows) (st : option Settings) (defaultEnabled : bool)
    (now : Z) : bool * string :=
  match GetBackupSchedule flt_settings st defaultEnabled with
  | Fail e => (false, "could not read the backup schedule: " +:+ err_text e)
  | Ok sched =>
      if negb (bs_Enabled sched) then (false, "the backup schedule is turned off")
      else
        match ListRunning flt_running rows with
        | Fail e => (false, "could not read in-flight runs: " +:+ err_text e)
        | Ok (r :: _) => (false, "a backup is already running (job " +:+ br_JobID r +:+ ")")
        | Ok [] =>
            match LastSuccess flt_last rows with
            | Fail e => (false, "could not read the last successful run: " +:+ err_text e)
            | Ok last =>
                let every := Interval sched in
                match last ≫= br_FinishedAt with
                | None => (true, "no backup has ever succeeded on this installation")
                | Some finished =>
                    let since := time_Sub now finished in
                    if since <? every then (false, EmptyString)
                    else (true, "the last successful backup was " +:+ Duration_String (Truncate since Minute) +:+ " ago (cadence " +:+ Duration_String every +:+ ")")
                end
            end
        end
  end.
End schedule.

(** ** Bounds, whatever the stored text *)
Lemma interval_bounds s : MinBackupCadence ≤ Interval s ≤ MaxBackupCadence.
Proof.
  unfold Interval. destruct (ParseDuration _) as [d|e]; [|done].
  destruct (Z.ltb_spec d MinBackupCadence); [done|]. destruct (Z.ltb_spec MaxBackupCadence d); [done|]. cbn. lia.
Qed.
Lemma generations_bounds s : MinBackupRetain ≤ Generations s ≤ MaxBackupRetain.
Proof.
  unfold Generations. destruct (Z.ltb_spec (bs_Retain s) MinBackupRetain); [done|].
  destruct (Z.ltb_spec MaxBackupRetain (bs_Retain s)); [done|]. cbn. lia.
Qed.

(** ** A printed cadence is plain text *)
Definition graphic (c : ascii) : bool := Nat.leb 33 (nat_of_ascii c) && Nat.leb (nat_of_ascii c) 126.

Lemma digits_graphic w : all_chars is_dig w = true → all_chars graphic w = true.
Proof.
  apply all_chars_impl. intros c. unfold is_dig, graphic. rewrite !andb_true_iff, !Nat.leb_le. lia.
Qed.
Lemma graphic_ascii w : all_chars graphic w = true → all_chars ascii7 w = true.
Proof.
  apply all_chars_impl. intros c. unfold ascii7, graphic. rewrite !andb_true_iff, !Nat.leb_le, Nat.ltb_lt. lia.
Qed.

Lemma space_width_graphic c s : graphic c = true → space_width (String c s) = 0%nat.
Proof.
  intros Hc. unfold space_width.
  assert (Forall (λ e, HasPrefix (String c s) e = false) spaces) as Hf.
  { assert (Forall (λ e, match e with String d _ => graphic d = false | EmptyString => False end) spaces) as Hs
      by (repeat (constructor; [reflexivity|]); constructor).
    eapply Forall_impl; [exact Hs|]. intros [|d e] Hd; [done|].
    apply not_true_is_false. rewrite HasPrefix_spec. intros [r [= -> _]]. congruence. }
  generalize dependent spaces. intros l Hf. induction Hf as [|e l He _ IH]; [done|].
  rewrite (filter_cons (λ e, HasPrefix (String c s) e = true)), decide_False by congruence. exact IH.
Qed.

Lemma Trim_graphic s : all_chars graphic s = true → Trim s = s.
Proof.
  intros Hs. unfold Trim. assert (skip_spaces 0 s = s) as ->.
  { destruct s as [|c s]; [done|]. cbn [skip_spaces]. rewrite space_width_graphic; [done|]. cbn in Hs. by apply andb_true_iff in Hs as [? _]. }
  induction s as [|c s IH]; [done|]. cbn [all_chars] in Hs. apply andb_true_iff in Hs as [Hc Hs]. cbn [trim_right].
  unfold all_space. cbn [skip_spaces]. rewrite space_width_graphic by done. cbn [String.eqb]. by rewrite IH.
Qed.

Lemma fmtFrac_graphic k n : 0 ≤ n < 10 ^ Z.of_nat k → all_chars graphic (fmtFrac k n) = true.
Proof.
  intros Hn. destruct (fmtFrac_spec k n Hn) as [[_ ->]|(j & m & _ & Hm & _ & ->)]; [done|].
  cbn [all_chars]. change (graphic dot) with true. cbn [andb]. apply digits_graphic. apply (fixed_dec j m 0). lia.
Qed.

(** A printed duration of an hour or more: digits, letters, a point. *)
Lemma duration_chars d : Hour ≤ d → all_chars graphic (Duration_String d) = true ∧ Duration_String d ≠ EmptyString.
Proof.
  intros Hd. unfold Duration_String, magnitude, Hour, Minute, Second in *.
  destruct (Z.ltb_spec d 0); [lia|]. destruct (Z.eqb_spec d 0); [lia|].
  destruct (Z.ltb_spec d Microsecond) as [Hl|_]; [unfold Microsecond in Hl; lia|].
  destruct (Z.ltb_spec d Millisecond) as [Hl|_]; [unfold Millisecond in Hl; lia|].
  destruct (Z.ltb_spec d 1000000000) as [Hl|_]; [lia|].
  assert (1 ≤ d / 1000000000 / 60 / 60 ∧ 1 ≤ d / 1000000000 / 60) as [Hh Hm] by (split; repeat (apply Z.div_le_lower_bound; [lia|]); lia).
  destruct (Z.ltb_spec 0 (d / 1000000000 / 60 / 60)) as [_|?]; [|lia]. destruct (Z.ltb_spec 0 (d / 1000000000 / 60)) as [_|?]; [|lia].
  split.
  - rewrite !all_chars_app. rewrite fmtFrac_graphic by (apply Z.mod_pos_bound; lia).
    rewrite !(digits_graphic (pretty _)); [done|apply pretty_dec..]; first [lia|apply Z.mod_pos_bound; lia].
  - apply numeral_ne. rewrite !app_assoc_s. apply numeral_pretty; [lia|done].
Qed.

(** ** What is stored is what a run reads *)
Lemma validate_ok s v : ValidateBackupSchedule s = Ok v →
  MinBackupRetain ≤ bs_Retain v ≤ MaxBackupRetain ∧ bs_Enabled v = bs_Enabled s ∧
  bs_Retain v = (if bs_Retain s =? 0 then DefaultBackupRetain else bs_Retain s) ∧
  ∃ d, bs_Every v = Duration_String d ∧ MinBackupCadence ≤ d ≤ MaxBackupCadence ∧
    (Trim (bs_Every s) = EmptyString ∧ d = DefaultBackupCadence ∨ ParseDuration (Trim (bs_Every s)) = Ok d).
Proof.
  unfold ValidateBackupSchedule. set (retain := if bs_Retain s =? 0 then _ else _).
  assert (∀ r, retain = Ok r → MinBackupRetain ≤ r ≤ MaxBackupRetain ∧ r = (if bs_Retain s =? 0 then DefaultBackupRetain else bs_Retain s)) as Hr.
  { intros r. unfold retain. destruct (bs_Retain s =? 0); [by intros [= <-]|].
    destruct (Z.ltb_spec (bs_Retain s) MinBackupRetain); [done|]. destruct (Z.ltb_spec MaxBackupRetain (bs_Retain s)); [done|]. cbn.
    intros [= <-]. lia. }
  destruct retain as [r|e]; [|done]. destruct (Hr r eq_refl) as [Hr1 Hr2].
  destruct (String.eqb_spec (Trim (bs_Every s)) EmptyString) as [E|E].
  { intros [= <-]. split_and!; [apply Hr1..|done|done|]. exists DefaultBackupCadence. by split_and!; [..|left]. }
  destruct (ParseDuration (Trim (bs_Every s))) as [d|e]; [|done].
  destruct (Z.ltb_spec d MinBackupCadence); [done|]. destruct (Z.ltb_spec MaxBackupCadence d); [done|]. cbn [orb].
  intros [= <-]. split_and!; [apply Hr1..|done|done|]. exists d. split_and!; [done|lia|lia|by right].
Qed.

Lemma printed_interval e d r : MinBackupCadence ≤ d ≤ MaxBackupCadence → Interval (mkSchedule e (Duration_String d) r) = d.
Proof.
  intros Hd. unfold Interval. cbn [bs_Every]. destruct (duration_chars d) as [Hc _]; [apply Hd|].
  rewrite Trim_graphic by done. rewrite duration_roundtrip by (unfold MinBackupCadence, MaxBackupCadence, Hour, Minute, Second in Hd; unfold in_int64, int64_min, int64_max; lia).
  destruct (Z.ltb_spec d MinBackupCadence); [lia|]. destruct (Z.ltb_spec MaxBackupCadence d); [lia|]. done.
Qed.

Section stored.
Context {C : ScheduleCodec} {L : ScheduleLaws C}.

Lemma set_get_schedule kv kv' s v b : SetBackupSchedule None (Some kv) s = (Some kv', Ok v) → GetBackupSchedule None (Some kv') b = Ok v.
Proof using L.
  unfold SetBackupSchedule. destruct (ValidateBackupSchedule s) as [v'|e] eqn:E; [|done]. cbn [settings_Set]. intros [= <- ->].
  destruct (validate_ok s v E) as (Hr & _ & _ & d & Ev & Hd & _).
  unfold GetBackupSchedule, settings_Get. rewrite lookup_insert_eq. cbn [default from_option id query].
  destruct (String.eqb_spec (Trim (sched_enc v)) EmptyString) as [H|_]; [by apply sched_enc_text in H|].
  destruct (duration_chars d) as [Hc Hne]; [apply Hd|]. rewrite sched_dec_enc by (rewrite Ev; by apply graphic_ascii).
  rewrite Ev, Trim_graphic by done. destruct (String.eqb_spec (Duration_String d) EmptyString); [done|].
  unfold Generations. destruct (Z.ltb_spec (bs_Retain v) MinBackupRetain); [lia|]. destruct (Z.ltb_spec MaxBackupRetain (bs_Retain v)); [lia|].
  by destruct v.
Qed.
End stored.

(** ** When a run is due *)
Lemma newest_first {A} (R : relation A) `{!∀ x y, Decision (R x y)} `{!Transitive R} `{!Total R} (l : list A) x :
  head (merge_sort R l) = Some x → x ∈ l ∧ ∀ y, y ∈ l → R x y.
Proof.
  intros Hh. pose proof (StronglySorted_merge_sort R l) as Hs. pose proof (merge_sort_Permutation R l) as Hp.
  destruct (merge_sort R l) as [|z l'] eqn:E; [done|]. injection Hh as ->. apply StronglySorted_inv in Hs as [_ Hx].
  rewrite Forall_forall in Hx. split; [rewrite <- Hp; left|]. intros y. rewrite <- Hp. intros [->|Hy]%elem_of_cons; [|auto].
  destruct (total R x x); done.
Qed.

#[export] Instance run_finished_trans : Transitive run_finished_desc.
Proof. intros a b c. unfold run_finished_desc. destruct (br_FinishedAt a), (br_FinishedAt b), (br_FinishedAt c); try done. lia. Qed.
#[export] Instance run_finished_total : Total run_finished_desc.
Proof. intros a b. unfold run_finished_desc. destruct (br_FinishedAt a), (br_FinishedAt b); auto. lia. Qed.

Lemma merge_sort_nil_iff {A} (R : relation A) `{!∀ x y, Decision (R x y)} (l : list A) : merge_sort R l = [] ↔ l = [].
Proof. split; [intros E; apply Permutation_nil_r; by rewrite <- E, merge_sort_Permutation|by intros ->]. Qed.

Section due.
Context {C : ScheduleCodec}.

(** With a database that answers, the gate opens exactly when the schedule is
    on, nothing is in flight, and every success is at least a cadence old. *)
Lemma due_exact rows st b now sched : runs_ok rows → GetBackupSchedule None st b = Ok sched →
  (∀ r f, r ∈ rows → br_FinishedAt r = Some f → in_int64 (now - f)) →
  fst (DueFunc None None None rows st b now) = true ↔
    bs_Enabled sched = true ∧ ∀ r, r ∈ rows →
      br_Status r = RunFailed ∨
      br_Status r = RunSucceeded ∧ ∃ f, br_FinishedAt r = Some f ∧ Interval sched ≤ now - f.
Proof.
  intros [_ Hok] Hg Hb. rewrite Forall_forall in Hok. unfold DueFunc. rewrite Hg. destruct (bs_Enabled sched); cbn [negb]; [|naive_solver].
  unfold ListRunning, LastSuccess. cbn.
  destruct (merge_sort run_started_desc (filter _ rows)) as [|x l] eqn:El; cbn [fst].
  2: { split; [done|]. intros [_ Hall]. assert (x ∈ x :: l) as Hx by left. rewrite <- El, merge_sort_Permutation in Hx.
       apply list_elem_of_filter in Hx as [Hx Hin]. destruct (Hall x Hin) as [?|[? _]]; congruence. }
  rewrite merge_sort_nil_iff in El.
  assert (∀ r, r ∈ rows → br_Status r ≠ RunRunning) as Hnr.
  { intros r Hr E. assert (r ∈ filter (λ r, br_Status r = RunRunning) rows) as H by (by apply list_elem_of_filter). rewrite El in H. by apply elem_of_nil in H. }
  destruct (head (merge_sort run_finished_desc (filter (λ r, br_Status r = RunSucceeded) rows))) as [x|] eqn:Eh.
  - destruct (newest_first _ _ _ Eh) as [Hx Hmax]. apply list_elem_of_filter in Hx as [Hx Hin].
    cbn [mbind option_bind]. destruct (br_FinishedAt x) as [f|] eqn:Ef.
    2: { exfalso. assert (br_Status x = RunRunning) by (by apply Hok). congruence. }
    replace (time_Sub now f) with (now - f) by (specialize (Hb x f Hin Ef); unfold time_Sub, in_int64 in *; lia).
    destruct (Z.ltb_spec (now - f) (Interval sched)) as [Hl|Hl]; cbn [fst].
    + split; [done|]. intros [_ Hall]. destruct (Hall x Hin) as [?|(_ & f' & E & ?)]; [congruence|]. assert (f' = f) by congruence. lia.
    + split; [|done]. intros _. split; [done|]. intros r Hr. destruct (br_Status r) eqn:Es; [by apply Hnr in Hr|right|by left].
      assert (run_finished_desc x r) as Hd by (apply Hmax; by apply list_elem_of_filter).
      destruct (br_FinishedAt r) as [f'|] eqn:Ef'.
      * split; [done|]. exists f'. split; [done|]. unfold run_finished_desc in Hd. rewrite Ef, Ef' in Hd. lia.
      * assert (br_Status r = RunRunning) by (by apply Hok). congruence.
  - cbn. split; [|done]. intros _. split; [done|]. intros r Hr. destruct (br_Status r) eqn:Es; [by apply Hnr in Hr| |by left].
    exfalso. destruct (merge_sort run_finished_desc _) as [|y l] eqn:El' in Eh; [|done]. rewrite merge_sort_nil_iff in El'.
    assert (r ∈ filter (λ r, br_Status r = RunSucceeded) rows) as H by (by apply list_elem_of_filter). rewrite El' in H. by apply elem_of_nil in H.
Qed.

(** A run that failed never counts: with no success on record the gate opens
    at every check, whatever was written a moment ago. *)
Lemma failed_runs_due rows b now : Forall (λ r, br_Status r = RunFailed) rows → fst (DueFunc None None None rows None b now) = b.
Proof.
  intros Hf. unfold DueFunc. cbn. destruct b; [|done]. cbn [negb]. unfold ListRunning, LastSuccess.
  assert (∀ st, st ≠ RunFailed → filter (λ r, br_Status r = st) rows = []) as Hn.
  { intros st Hst. induction Hf as [|r l Hr _ IH]; [done|]. rewrite (filter_cons (λ r, br_Status r = st)), decide_False by congruence. done. }
  by rewrite !Hn.
Qed.
End due.
