(* ===== verification/BackupState.v ===== *)
(** * Where each app stands against its backup cadence

    api/internal/storage/backup_state.go and the types of
    proto/backupstate.go: the per-app judgement made from the ledger of runs,
    the fan-out records kept in the job ledger, the installed apps and the
    schedule.  The decoding of a fan-out step's JSON is the parameter
    [fanout_dec]; times are nanoseconds. *)
From Stdlib Require Import Ascii String.
From S2P Require Import Prelude GoStrings GoRunes GoSort GoDuration Ledger BackupMembers BackupPlan BackupReport BackupEstimate BackupRuns BackupSchedule.
Open Scope string_scope.
Open Scope list_scope.
Open Scope Z_scope.

Definition backupGraceFraction : Z := 4.
Definition backupGraceMin : Z := 6 * Hour.
Definition BackupGrace (cadence : Z) : Z :=
  let g := Z.quot cadence backupGraceFraction in
  if g <? backupGraceMin then backupGraceMin else g.

(** ** One run's failures, by app *)
Record AppFailure := mkAppFailure {
  af_AppID : string; af_App : string; af_Node : string; af_Class : string; af_Volumes : list string; af_Reason : string }.

(** What the loop does to the entry of the app a failed record is of. *)
Definition add_failure (v : VolumeRecord) (f : AppFailure) : AppFailure :=
  let reason := Trim (r_Reason v) in
  mkAppFailure (af_AppID f) (af_App f) (af_Node f)
    (if classRank (r_Class v) <? classRank (af_Class f) then r_Class v else af_Class f)
    (af_Volumes f ++ [r_Volume v])
    (if negb (String.eqb reason EmptyString) && negb (Contains (af_Reason f) reason)
     then (if String.eqb (af_Reason f) EmptyString then EmptyString else af_Reason f +:+ "; ") +:+ reason
     else af_Reason f).

(** [byApp] and [order] together: the entries in the order they were made. *)
Fixpoint at_key (key : string) (v : VolumeRecord) (l : list (string * AppFailure)) : list (string * AppFailure) :=
  match l with
  | [] => [(key, add_failure v (mkAppFailure (r_AppID v) (r_App v) (r_Node v) (r_Class v) [] EmptyString))]
  | (k, f) :: l => if String.eqb k key then (k, add_failure v f) :: l else (k, f) :: at_key key v l
  end.

Definition failure_less (a b : AppFailure) : bool :=
  if negb (classRank (af_Class a) =? classRank (af_Class b)) then classRank (af_Class a) <? classRank (af_Class b)
  else String.ltb (af_App a) (af_App b).

Definition FailedApps (r : AppVolumeReport) : list AppFailure :=
  let step l v := if negb (r_Failed v) then l
                  else at_key (if String.eqb (r_AppID v) EmptyString then r_App v else r_AppID v) v l in
  SliceStable failure_less (snd <$> foldl step [] (a_Volumes r)).

(** ** The judgement *)
Record backupAttempt := mkAttempt {
  at_JobID : string; at_At : Z; at_Status : RunStatus; at_HasGeneration : bool; at_Report : option AppVolumeReport; at_Error : string }.

Record backupStateInput := mkInput {
  in_AppID : string; in_AppName : string; in_InstalledAt : Z; in_Volumes : list PlannedVolume; in_NoneReason : string;
  in_Configured : bool; in_UnconfiguredReason : string; in_Cadence : Z; in_Attempts : list backupAttempt }.

Record appOutcome := mkOutcome { oc_attempted : bool; oc_success : bool; oc_reason : string }.

(** The three variables of the loop over a report's records. *)
Record seen := mkSeen { sn_captured : gset string; sn_failed : list string; sn_mentioned : bool }.
Definition see (appID : string) (s : seen) (v : VolumeRecord) : seen :=
  if negb (EqualFold (r_AppID v) appID) then s
  else if r_Captured v then mkSeen ({[r_Volume v]} ∪ sn_captured s) (sn_failed s) true
  else if r_Failed v then mkSeen (sn_captured s) (sn_failed s ++ [r_Volume v +:+ ": " +:+ Trim (r_Reason v)]) true
  else mkSeen (sn_captured s) (sn_failed s) true.

Definition outcomeFor (inp : backupStateInput) (a : backupAttempt) : appOutcome :=
  if at_At a <? in_InstalledAt inp then mkOutcome false false EmptyString
  else
    match at_Report a with
    | None =>
        let reason := Trim (at_Error a) in
        let reason := if String.eqb reason EmptyString then "the run ended before it reached this app's volumes" else reason in
        mkOutcome true false ("the backup run failed before reaching this app: " +:+ reason)
    | Some rep =>
        let s := foldl (see (in_AppID inp)) (mkSeen ∅ [] false) (a_Volumes rep) in
        if negb (sn_mentioned s) then mkOutcome false false EmptyString
        else if bool_decide (sn_failed s ≠ []) then mkOutcome true false (Join (sn_failed s) "; ")
        else
          let missing := pv_Volume <$> filter (λ v, pv_Volume v ∉ sn_captured s) (in_Volumes inp) in
          if bool_decide (missing ≠ []) then mkOutcome true false ("that generation does not hold " +:+ Join missing ", ")
          else if negb (at_HasGeneration a) then
            mkOutcome true false "the volumes were staged but the run never wrote its generation to the target, so nothing of them is on the disk"
          else mkOutcome true true EmptyString
    end.

Inductive AppBackupStateKind := AppBackupOK | AppBackupOverdue | AppBackupNever | AppBackupUnconfigured | AppBackupNone.
#[export] Instance AppBackupStateKind_eq_dec : EqDecision AppBackupStateKind.
Proof. solve_decision. Defined.

Record AppBackupState := mkState {
  ab_State : AppBackupStateKind; ab_Class : string; ab_LastSuccessAt : option Z; ab_LastAttemptAt : option Z;
  ab_OverdueSince : option Z; ab_Reason : string; ab_Cadence : string }.
Definition state_Overdue (s : AppBackupState) : bool := bool_decide (ab_State s = AppBackupOverdue).

Definition compactAge (d : Z) : string :=
  let d := if d <? 0 then 0 else d in
  if d <? Minute then pretty (f_trunc (Seconds d)) +:+ "s"
  else if d <? Hour then pretty (f_trunc (Minutes d)) +:+ "m"
  else if d <? 24 * Hour then
    let h := f_trunc (Hours d) in
    let m := f_trunc (Minutes d) - h * 60 in
    if 0 <? m then pretty h +:+ "h " +:+ pretty m +:+ "m" else pretty h +:+ "h"
  else
    let days := f_trunc (f_div (Hours d) (f_of 24)) in
    let h := f_trunc (Hours d) - days * 24 in
    if 0 <? h then pretty days +:+ "d " +:+ pretty h +:+ "h" else pretty days +:+ "d".

(** The loop over the attempts: the newest that concerns the app with its
    outcome, and the newest that succeeded for it. *)
Fixpoint scan_attempts (inp : backupStateInput) (last : option (backupAttempt * appOutcome)) (l : list backupAttempt) :
    option (backupAttempt * appOutcome) * option backupAttempt :=
  match l with
  | [] => (last, None)
  | a :: l =>
      if negb (bool_decide (at_Status a = RunSucceeded)) && negb (bool_decide (at_Status a = RunFailed)) then scan_attempts inp last l
      else
        let oc := outcomeFor inp a in
        if negb (oc_attempted oc) then scan_attempts inp last l
        else
          let last := match last with None => Some (a, oc) | _ => last end in
          if oc_success oc then (last, Some a) else scan_attempts inp last l
  end.

Definition deriveBackupState (inp : backupStateInput) (now : Z) : AppBackupState :=
  let cadence := Duration_String (in_Cadence inp) in
  if bool_decide (in_Volumes inp = []) then mkState AppBackupNone EmptyString None None None (in_NoneReason inp) EmptyString
  else
    let class := if existsb (λ v, String.eqb (pv_Class v) BackupCritical) (in_Volumes inp) then BackupCritical else BackupPlan.BackupState in
    let '(last, lastSuccess) := scan_attempts inp None (in_Attempts inp) in
    let attemptAt := at_At ∘ fst <$> last in
    let successAt := at_At <$> lastSuccess in
    if negb (in_Configured inp) then mkState AppBackupUnconfigured class successAt attemptAt None (in_UnconfiguredReason inp) cadence
    else
      let grace := BackupGrace (in_Cadence inp) in
      let limit := in_Cadence inp + grace in
      let by_age :=
        match lastSuccess with
        | None =>
            let due := in_InstalledAt inp + limit in
            if due <=? now then
              mkState AppBackupOverdue class successAt attemptAt (Some due)
                ("never backed up: installed " +:+ compactAge (time_Sub now (in_InstalledAt inp)) +:+
                 " ago and no generation has ever captured its data (cadence " +:+ cadence +:+ ", grace " +:+ Duration_String grace +:+ ")") cadence
            else
              mkState AppBackupNever class successAt attemptAt None
                ("not backed up yet: installed " +:+ compactAge (time_Sub now (in_InstalledAt inp)) +:+
                 " ago; the first scheduled backup is due within " +:+ compactAge (time_Sub due now)) cadence
        | Some a =>
            let age := time_Sub now (at_At a) in
            if limit <? age then
              mkState AppBackupOverdue class successAt attemptAt (Some (at_At a + limit))
                ("the last successful backup was " +:+ compactAge age +:+ " ago, past the " +:+ cadence +:+ " cadence plus " +:+
                 Duration_String grace +:+ " grace, and no run has captured it since") cadence
            else mkState AppBackupOK class successAt attemptAt None ("backed up " +:+ compactAge age +:+ " ago (cadence " +:+ cadence +:+ ")") cadence
        end in
      match last with
      | Some (a, oc) =>
          if negb (oc_success oc) then
            mkState AppBackupOverdue class successAt attemptAt (Some (at_At a))
              ("the most recent backup attempt FAILED for this app — " +:+ oc_reason oc) cadence
          else by_age
      | None => by_age
      end.

Example age_days : compactAge (9 * 24 * Hour + 4 * Hour + 30 * Minute) = "9d 4h". Proof. reflexivity. Qed.
Example age_hours : compactAge (2 * Hour) = "2h". Proof. reflexivity. Qed.
Example age_minutes : compactAge (40 * Minute + 59 * Second) = "40m". Proof. reflexivity. Qed.
Example grace_week : BackupGrace DefaultBackupCadence = 42 * Hour. Proof. reflexivity. Qed.
Example grace_hour : BackupGrace Hour = 6 * Hour. Proof. reflexivity. Qed.

(** ** Every installed app *)
Record AppBackupStatus := mkStatus { as_AppID : string; as_AppName : string; as_State : AppBackupState }.

(** What [BackupStates] is wired to, as its reads answer at one call: the
    ledger of runs, the claimed targets, the job ledger's steps, the installed
    apps with the time each row was made, the catalog and the settings. *)
Record StatesEnv := mkStatesEnv {
  e_rows : RunRows; e_flt_runs : option error;
  e_claimed : result (list string);
  e_steps : option (string → result (list JobStep));
  e_apps : result (list (option (App * Z)));
  e_tiles : TileVolumes;
  e_settings : option (gmap string string); e_flt_settings : option error;
  e_default : bool }.

Section states.
Context {C : ScheduleCodec} (fanout_dec : string → result AppVolumeReport).

(** The decoded fan-out record of a job's steps. *)
Fixpoint fan_out_record (steps : list JobStep) : option AppVolumeReport :=
  match steps with
  | [] => None
  | st :: steps =>
      match st_Result st with
      | Some raw =>
          if negb (String.eqb (st_Name st) "fan_out") || negb (bool_decide (st_Status st = StepSucceeded)) || String.eqb raw EmptyString
          then fan_out_record steps
          else match fanout_dec raw with Ok r => Some r | Fail _ => None end
      | None => fan_out_record steps
      end
  end.

Definition backupStatesReportCache : nat := 512.

Definition read_report (e : StatesEnv) (jobID : string) (cache : gmap string (option AppVolumeReport)) :
    option AppVolumeReport * gmap string (option AppVolumeReport) :=
  match cache !! jobID with
  | Some rep => (rep, cache)
  | None =>
      let keep rep := (rep, <[jobID := rep]> (if Nat.leb backupStatesReportCache (size cache) then ∅ else cache)) in
      match e_steps e with
      | None => keep None
      | Some list_steps =>
          match list_steps jobID with
          | Ok steps => keep (fan_out_record steps)
          | Fail _ => (None, cache)
          end
      end
  end.

Definition attempt_of (run : BackupRun) (rep : option AppVolumeReport) : backupAttempt :=
  mkAttempt (br_JobID run) (default (br_StartedAt run) (br_FinishedAt run)) (br_Status run)
    (negb (String.eqb (Trim (br_GenerationID run)) EmptyString)) rep (br_Error run).

(** The loop over the runs. *)
Fixpoint collect (e : StatesEnv) (runs : list BackupRun) (cache : gmap string (option AppVolumeReport)) :
    list backupAttempt * gmap string (option AppVolumeReport) :=
  match runs with
  | [] => ([], cache)
  | run :: runs =>
      if negb (bool_decide (br_Status run = RunSucceeded)) && negb (bool_decide (br_Status run = RunFailed)) then collect e runs cache
      else
        let '(rep, cache) := read_report e (br_JobID run) cache in
        let '(l, cache) := collect e runs cache in
        (attempt_of run rep :: l, cache)
  end.

Definition newer (a b : backupAttempt) : bool := at_At b <? at_At a.

Definition attempts (e : StatesEnv) (cache : gmap string (option AppVolumeReport)) :
    result (list backupAttempt) * gmap string (option AppVolumeReport) :=
  match ListRuns (e_flt_runs e) (e_rows e) 0 with
  | Fail err => (Fail (wrapf ("backup state: runs: " +:+ err_text err) err), cache)
  | Ok runs => let '(l, cache) := collect e runs cache in (Ok (SliceStable newer l), cache)
  end.

Definition no_target_reason : string :=
  "no backup target is claimed, so nothing on this cluster is backed up anywhere. Claim a disk under Storage → Backups".
Definition schedule_off_reason : string :=
  "scheduled backups are turned off, so nothing runs on its own. Choose a cadence under Storage → Backups".

Definition configuration (e : StatesEnv) : result (bool * string * Z) :=
  match e_claimed e with
  | Fail err => Fail (wrapf ("backup state: claimed targets: " +:+ err_text err) err)
  | Ok claimed =>
      let sched := match GetBackupSchedule (e_flt_settings e) (e_settings e) (e_default e) with
                   | Ok s => s | Fail _ => mkSchedule true EmptyString 0 end in
      let cadence := Interval sched in
      if bool_decide (claimed = []) then Ok (false, no_target_reason, cadence)
      else if negb (bs_Enabled sched) then Ok (false, schedule_off_reason, cadence)
      else Ok (true, EmptyString, cadence)
  end.

Definition cache_or_bulk_reason : string :=
  "every volume this app's tile declares is classed `cache` or `bulk`, so a scheduled backup takes nothing from it (§4.2)".

(** [volumesByApp] and [noneReason], read at one app. *)
Definition volumes_of (plan : AppVolumePlan) (appID : string) : list PlannedVolume :=
  filter (λ v, pv_AppID v = appID) (Stage plan) ++
  (about <$> filter (λ r, r_Failed r = true ∧ r_AppID r = appID) (Skipped plan)).
Definition none_reason (plan : AppVolumePlan) (appID : string) : string :=
  match filter (λ r, r_Failed r = false ∧ r_AppID r = appID) (Skipped plan) with
  | r :: _ => if String.eqb (r_Reason r) EmptyString then cache_or_bulk_reason else r_Reason r
  | [] => cache_or_bulk_reason
  end.

Definition input_for (plan : AppVolumePlan) (configured : bool) (reason : string) (cadence : Z) (ats : list backupAttempt) (a : App * Z) :
    backupStateInput :=
  let vols := volumes_of plan (app_ID (fst a)) in
  mkInput (app_ID (fst a)) (app_Name (fst a)) (snd a) vols
    (if bool_decide (vols = []) then none_reason plan (app_ID (fst a)) else EmptyString) configured reason cadence ats.

Definition status_less (a b : AppBackupStatus) : bool := String.ltb (as_AppName a) (as_AppName b).

Definition AppBackupStates (e : StatesEnv) (cache : gmap string (option AppVolumeReport)) (now : Z) :
    result (list AppBackupStatus) * gmap string (option AppVolumeReport) :=
  match e_apps e with
  | Fail err => (Fail (wrapf ("backup state: list apps: " +:+ err_text err) err), cache)
  | Ok [] => (Ok [], cache)
  | Ok installed =>
      match configuration e with
      | Fail err => (Fail err, cache)
      | Ok (configured, reason, cadence) =>
          match attempts e cache with
          | (Fail err, cache) => (Fail err, cache)
          | (Ok ats, cache) =>
              let plan := PlanAppVolumes (option_map fst <$> installed) (e_tiles e) in
              let states := (λ a, mkStatus (app_ID (fst a)) (app_Name (fst a)) (deriveBackupState (input_for plan configured reason cadence ats a) now))
                              <$> omap id installed in
              (Ok (SliceStable status_less states), cache)
          end
      end
  end.

Definition AppBackupState_of (e : StatesEnv) (cache : gmap string (option AppVolumeReport)) (now : Z) (appID : string) :
    result (option AppBackupState) * gmap string (option AppVolumeReport) :=
  match AppBackupStates e cache now with
  | (Fail err, cache) => (Fail err, cache)
  | (Ok all, cache) => (Ok (as_State <$> head (filter (λ s, as_AppID s = appID) all)), cache)
  end.
End states.
