(* ===== verification/BackupStateFacts.v ===== *)
(** * The backup badge says what the ledger shows

    Each of the five states of [deriveBackupState] characterised by the runs
    and their fan-out records, and the list of every app traced back to the
    rows of the ledger. *)
From Stdlib Require Import Ascii String.
From S2P Require Import Prelude GoStrings GoRunes GoSort GoDuration Ledger NodeUpdateStore BackupMembers BackupPlan BackupReport BackupEstimate BackupRuns BackupSchedule BackupState.
Open Scope string_scope.
Open Scope list_scope.
Open Scope Z_scope.

(** ** What one run did for one app *)

(** The records of a report that are about an app. *)
Definition about_app (appID : string) (rep : AppVolumeReport) (v : VolumeRecord) : Prop :=
  v ∈ a_Volumes rep ∧ EqualFold (r_AppID v) appID = true.

(** A run that bears on the app: it ended, not before the app was installed,
    and its fan-out knew the app or was never reached. *)
Definition concerns (inp : backupStateInput) (a : backupAttempt) : Prop :=
  at_Status a ≠ RunRunning ∧ in_InstalledAt inp ≤ at_At a ∧
  (at_Report a = None ∨ ∃ rep v, at_Report a = Some rep ∧ about_app (in_AppID inp) rep v).

(** A run that has every volume of the app on the disk. *)
Definition captured_all (inp : backupStateInput) (a : backupAttempt) : Prop :=
  at_HasGeneration a = true ∧ ∃ rep, at_Report a = Some rep ∧
  (∀ v, about_app (in_AppID inp) rep v → r_Captured v = true ∨ r_Failed v = false) ∧
  ∀ p, p ∈ in_Volumes inp → ∃ v, about_app (in_AppID inp) rep v ∧ r_Captured v = true ∧ r_Volume v = pv_Volume p.

Lemma see_all appID vs s :
  let s' := foldl (see appID) s vs in
  (∀ x, x ∈ sn_captured s' ↔ x ∈ sn_captured s ∨ ∃ v, v ∈ vs ∧ EqualFold (r_AppID v) appID = true ∧ r_Captured v = true ∧ r_Volume v = x) ∧
  (sn_failed s' = [] ↔ sn_failed s = [] ∧ ∀ v, v ∈ vs → EqualFold (r_AppID v) appID = true → r_Captured v = true ∨ r_Failed v = false) ∧
  (sn_mentioned s' = true ↔ sn_mentioned s = true ∨ ∃ v, v ∈ vs ∧ EqualFold (r_AppID v) appID = true).
Proof.
  revert s. induction vs as [|v vs IH]; intros s; cbn [foldl].
  { split_and!; [intros x| |]; setoid_rewrite elem_of_nil; naive_solver. }
  destruct (IH (see appID s v)) as (H1 & H2 & H3). cbn zeta. unfold see in *.
  destruct (EqualFold (r_AppID v) appID) eqn:Ea; cbn [negb] in *.
  2: { split_and!; [intros x; rewrite H1|rewrite H2|rewrite H3]; clear IH H1 H2 H3; setoid_rewrite elem_of_cons; naive_solver congruence. }
  destruct (r_Captured v) eqn:Ec; [|destruct (r_Failed v) eqn:Ef]; cbn [sn_captured sn_failed sn_mentioned] in *;
    (split_and!; [intros x; rewrite H1|rewrite H2|rewrite H3]; clear IH H1 H2 H3; setoid_rewrite elem_of_cons).
  - rewrite elem_of_union, elem_of_singleton. naive_solver.
  - naive_solver.
  - naive_solver.
  - naive_solver congruence.
  - split; [intros [E%app_eq_nil _]; naive_solver|]. intros [_ H]. specialize (H v (or_introl eq_refl) Ea). naive_solver congruence.
  - naive_solver.
  - naive_solver congruence.
  - naive_solver.
  - naive_solver.
Qed.

Lemma outcome_spec inp a : at_Status a ≠ RunRunning →
  (oc_attempted (outcomeFor inp a) = true ↔ concerns inp a) ∧
  (oc_success (outcomeFor inp a) = true ↔ concerns inp a ∧ captured_all inp a).
Proof.
  intros Hst. unfold outcomeFor, concerns, captured_all.
  destruct (Z.ltb_spec (at_At a) (in_InstalledAt inp)) as [Hl|Hl]; [cbn; split; (split; [done|]); intros H; naive_solver lia|].
  destruct (at_Report a) as [rep|]; [|cbn; naive_solver].
  destruct (see_all (in_AppID inp) (a_Volumes rep) (mkSeen ∅ [] false)) as (H1 & H2 & H3). cbn zeta in *. cbn [sn_captured sn_failed sn_mentioned] in *.
  set (s := foldl _ _ _) in *. unfold about_app.
  destruct (sn_mentioned s) eqn:Em; cbn [negb].
  2: { cbn. split; (split; [done|]); [intros (_ & _ & [?|(rep' & v & [= <-] & Hv)])|intros [(_ & _ & [?|(rep' & v & [= <-] & Hv)]) _]]; try done;
       (assert (false = true) by (apply H3; right; naive_solver); done). }
  destruct (proj1 H3 eq_refl) as [?|[v0 Hv0]]; [done|]. clear H3.
  assert (at_Status a ≠ RunRunning ∧ in_InstalledAt inp ≤ at_At a ∧
    (Some rep = None ∨ ∃ rep' v, Some rep = Some rep' ∧ v ∈ a_Volumes rep' ∧ EqualFold (r_AppID v) (in_AppID inp) = true)) as Hcon by (split_and!; [done..|right; by exists rep, v0]).
  case_bool_decide as Hf; [cbn; split; [naive_solver|]; split; [done|]; intros [_ (_ & rep' & [= <-] & Hall & _)]; destruct Hf; apply H2; naive_solver|].
  apply H2 in Hf as [_ Hf].
  case_bool_decide as Hm.
  { cbn. split; [naive_solver|]. split; [done|]. intros [_ (_ & rep' & [= <-] & _ & Hall)]. destruct Hm.
    destruct (filter _ (in_Volumes inp)) as [|p l] eqn:E; [done|]. exfalso. assert (p ∈ p :: l) as Hp by left. rewrite <- E in Hp.
    apply list_elem_of_filter in Hp as [Hn Hp]. apply Hn. apply H1. right. destruct (Hall p Hp) as (v & [] & ? & ?). by exists v. }
  apply fmap_nil_inv in Hm.
  assert (∀ p, p ∈ in_Volumes inp → pv_Volume p ∈ sn_captured s) as Hcap.
  { intros p Hp. destruct (decide (pv_Volume p ∈ sn_captured s)) as [?|Hn]; [done|].
    assert (p ∈ filter (λ v, pv_Volume v ∉ sn_captured s) (in_Volumes inp)) as Hi by (by apply list_elem_of_filter). rewrite Hm in Hi. by apply elem_of_nil in Hi. }
  destruct (at_HasGeneration a); cbn; split; [naive_solver| |naive_solver|naive_solver].
  split; [|done]. intros _. split; [done|]. split; [done|]. exists rep. split_and!; [done|naive_solver|].
  intros p Hp. apply Hcap, H1 in Hp as [?%not_elem_of_empty|?]; [done|naive_solver].
Qed.

(** ** The newest run that bears on the app *)
Definition newest_concerning (inp : backupStateInput) (a : backupAttempt) : Prop :=
  ∃ l1 l2, in_Attempts inp = l1 ++ a :: l2 ∧ concerns inp a ∧ Forall (λ b, ¬ concerns inp b) l1.
Definition none_concerning (inp : backupStateInput) : Prop := Forall (λ b, ¬ concerns inp b) (in_Attempts inp).

Lemma terminal_status a : negb (bool_decide (at_Status a = RunSucceeded)) && negb (bool_decide (at_Status a = RunFailed)) = true ↔ at_Status a = RunRunning.
Proof. by destruct (at_Status a). Qed.

Lemma scan_skip inp last a l : ¬ concerns inp a → scan_attempts inp last (a :: l) = scan_attempts inp last l.
Proof.
  intros Hc. cbn [scan_attempts].
  destruct (negb (bool_decide (at_Status a = RunSucceeded)) && negb (bool_decide (at_Status a = RunFailed))) eqn:Et; [done|].
  assert (at_Status a ≠ RunRunning) as Hst by (rewrite <- terminal_status, Et; done).
  destruct (outcome_spec inp a Hst) as [H1 _]. destruct (oc_attempted (outcomeFor inp a)); [by destruct Hc; apply H1|done].
Qed.

Lemma scan_skips inp last l1 l : Forall (λ b, ¬ concerns inp b) l1 → scan_attempts inp last (l1 ++ l) = scan_attempts inp last l.
Proof. induction 1 as [|b l1 Hb _ IH]; [done|]. cbn [app]. by rewrite scan_skip. Qed.

Lemma scan_last inp x l : ∃ s, scan_attempts inp (Some x) l = (Some x, s).
Proof. induction l as [|a l IH]; [by eexists|]. cbn [scan_attempts]. repeat case_match; eauto. Qed.

Lemma scan_newest inp a l1 l2 : concerns inp a → Forall (λ b, ¬ concerns inp b) l1 →
  ∃ s, scan_attempts inp None (l1 ++ a :: l2) = (Some (a, outcomeFor inp a), s) ∧
  (oc_success (outcomeFor inp a) = true ↔ captured_all inp a) ∧ (oc_success (outcomeFor inp a) = true → s = Some a).
Proof.
  intros Hc Hl. rewrite scan_skips by done. destruct (outcome_spec inp a (proj1 Hc)) as [H1 H2].
  cbn [scan_attempts]. destruct (negb (bool_decide (at_Status a = RunSucceeded)) && negb (bool_decide (at_Status a = RunFailed))) eqn:Et.
  { apply terminal_status in Et. by destruct (proj1 Hc). }
  rewrite (proj2 H1 Hc). cbn [negb]. destruct (oc_success (outcomeFor inp a)).
  - exists (Some a). split_and!; [done|tauto|done].
  - destruct (scan_last inp (a, outcomeFor inp a) l2) as [s ->]. exists s. split_and!; [done|tauto|done].
Qed.

Lemma newest_or_none inp : (∃ a, newest_concerning inp a) ∨ none_concerning inp.
Proof.
  unfold newest_concerning, none_concerning. induction (in_Attempts inp) as [|a l IH]; [by right|].
  assert (concerns inp a ∨ ¬ concerns inp a) as [Hc|Hc].
  { destruct (decide (at_Status a = RunRunning)) as [Hr|Hr]; [right; by intros [? _]|].
    destruct (outcome_spec inp a Hr) as [H1 _]. destruct (oc_attempted (outcomeFor inp a)); [left|right]; naive_solver congruence. }
  - left. exists a, [], l. by split_and!.
  - destruct IH as [(b & l1 & l2 & -> & Hb & Hl)|IH]; [|right; by constructor].
    left. exists b, (a :: l1), l2. split_and!; [done|done|by constructor].
Qed.

(** ** The five states *)
Definition stale_after (inp : backupStateInput) : Z := in_Cadence inp + BackupGrace (in_Cadence inp).

Lemma time_Sub_exact t u : in_int64 (t - u) → time_Sub t u = t - u.
Proof. unfold time_Sub, in_int64. lia. Qed.

Lemma derive_state inp now : (∀ a, a ∈ in_Attempts inp → in_int64 (now - at_At a)) →
  let st := ab_State (deriveBackupState inp now) in
  (in_Volumes inp = [] → st = AppBackupNone) ∧
  (in_Volumes inp ≠ [] → in_Configured inp = false → st = AppBackupUnconfigured) ∧
  (in_Volumes inp ≠ [] → in_Configured inp = true →
    (none_concerning inp → st = if in_InstalledAt inp + stale_after inp <=? now then AppBackupOverdue else AppBackupNever) ∧
    (∀ a, newest_concerning inp a →
      (¬ captured_all inp a → st = AppBackupOverdue) ∧
      (captured_all inp a → st = if stale_after inp <? now - at_At a then AppBackupOverdue else AppBackupOK))).
Proof.
  intros Ht. unfold deriveBackupState, stale_after. cbn zeta. split_and!; [by intros ->|..]; intros Hv;
    rewrite (bool_decide_eq_false_2 (in_Volumes inp = [])) by done.
  { intros ->. by destruct (scan_attempts inp None (in_Attempts inp)). }
  intros ->. cbn [negb]. split.
  - intros Hn. rewrite <- (app_nil_r (in_Attempts inp)), scan_skips by done. cbn [scan_attempts].
    by destruct (in_InstalledAt inp + _ <=? now).
  - intros a (l1 & l2 & E & Hc & Hl). destruct (scan_newest inp a l1 l2 Hc Hl) as (s & Es & Hs & Hsome). rewrite E, Es.
    assert (in_int64 (now - at_At a)) as Hin by (apply Ht; rewrite E; set_solver).
    destruct (oc_success (outcomeFor inp a)) eqn:Eo; cbn [negb].
    + rewrite (Hsome eq_refl), time_Sub_exact by done. split; [intros Hno; destruct Hno; by apply Hs|]. intros _. by destruct (_ <? now - at_At a).
    + split; [done|]. intros Hy. apply Hs in Hy. done.
Qed.

(** When each state is the right one. *)
Definition badge (inp : backupStateInput) (now : Z) (k : AppBackupStateKind) : Prop :=
  let due := in_Volumes inp ≠ [] ∧ in_Configured inp = true in
  match k with
  | AppBackupNone => in_Volumes inp = []
  | AppBackupUnconfigured => in_Volumes inp ≠ [] ∧ in_Configured inp = false
  | AppBackupOK => due ∧ ∃ a, newest_concerning inp a ∧ captured_all inp a ∧ now - at_At a ≤ stale_after inp
  | AppBackupNever => due ∧ none_concerning inp ∧ now < in_InstalledAt inp + stale_after inp
  | AppBackupOverdue => due ∧
      ((∃ a, newest_concerning inp a ∧ (¬ captured_all inp a ∨ stale_after inp < now - at_At a)) ∨
       (none_concerning inp ∧ in_InstalledAt inp + stale_after inp ≤ now))
  end.

Lemma captured_all_dec inp a : concerns inp a → captured_all inp a ∨ ¬ captured_all inp a.
Proof.
  intros Hc. destruct (outcome_spec inp a (proj1 Hc)) as [_ Hs].
  destruct (oc_success (outcomeFor inp a)); [left; apply Hs; done|]. right. intros H. discriminate (proj2 Hs (conj Hc H)).
Qed.

Lemma badge_some inp now : ∃ k, badge inp now k.
Proof.
  destruct (decide (in_Volumes inp = [])) as [Ev|Ev]; [by exists AppBackupNone|].
  destruct (in_Configured inp) eqn:Ec; [|by exists AppBackupUnconfigured].
  destruct (newest_or_none inp) as [[a Hnew]|Hno].
  - assert (captured_all inp a ∨ ¬ captured_all inp a) as [Hcap|Hcap]
      by (apply captured_all_dec; by destruct Hnew as (? & ? & _ & ? & _)).
    + destruct (Z.lt_ge_cases (stale_after inp) (now - at_At a)).
      * exists AppBackupOverdue. split; [done|]. left. exists a. auto.
      * exists AppBackupOK. split; [done|]. exists a. auto.
    + exists AppBackupOverdue. split; [done|]. left. exists a. auto.
  - destruct (Z.lt_ge_cases now (in_InstalledAt inp + stale_after inp)).
    + by exists AppBackupNever.
    + exists AppBackupOverdue. split; [done|]. by right.
Qed.

Lemma badge_sound inp now k : (∀ a, a ∈ in_Attempts inp → in_int64 (now - at_At a)) → badge inp now k →
  ab_State (deriveBackupState inp now) = k.
Proof.
  intros Ht. destruct (derive_state inp now Ht) as (H1 & H2 & H3). destruct k; cbn.
  - intros [[Hv Hc] (a & Hn & Hcap & Hage)]. rewrite (proj2 (proj2 (H3 Hv Hc) a Hn) Hcap). destruct (Z.ltb_spec (stale_after inp) (now - at_At a)); [lia|done].
  - intros [[Hv Hc] [(a & Hn & Hor)|[Hn Hage]]].
    + destruct (proj2 (H3 Hv Hc) a Hn) as [Hbad Hgood].
      assert (captured_all inp a ∨ ¬ captured_all inp a) as [Hcap|Hcap]
        by (apply captured_all_dec; by destruct Hn as (? & ? & _ & ? & _)); [|by apply Hbad].
      rewrite (Hgood Hcap). destruct Hor; [done|]. destruct (Z.ltb_spec (stale_after inp) (now - at_At a)); [done|lia].
    + rewrite (proj1 (H3 Hv Hc) Hn). destruct (Z.leb_spec (in_InstalledAt inp + stale_after inp) now); [done|lia].
  - intros [[Hv Hc] [Hn Hage]]. rewrite (proj1 (H3 Hv Hc) Hn). destruct (Z.leb_spec (in_InstalledAt inp + stale_after inp) now); [lia|done].
  - intros [Hv Hc]. by apply H2.
  - apply H1.
Qed.

(** An app's badge is exactly what the ledger says: NONE when no volume of
    it is backed up, UNCONFIGURED when no target is claimed or the schedule is
    off, and otherwise by the newest run that ended after the app was installed
    and knew the app or died before it knew any: OVERDUE at once when that run
    does not have every volume of the app on the disk, OVERDUE by age when it
    is older than the cadence and its grace, OK otherwise; with no such run,
    NEVER until the cadence and grace have passed since the install, and
    OVERDUE from then on. *)
Lemma badge_exact (inp : backupStateInput) (now : Z) (k : AppBackupStateKind) :
  (∀ a, a ∈ in_Attempts inp → in_int64 (now - at_At a)) → ab_State (deriveBackupState inp now) = k ↔ badge inp now k.
Proof.
  intros Ht. split; [|by apply badge_sound]. intros <-. destruct (badge_some inp now) as [k Hk].
  by rewrite (badge_sound inp now k Ht Hk).
Qed.

(** ** The list of every app, traced to the rows *)
Section backed.
Context {C : ScheduleCodec} (fanout_dec : string → result AppVolumeReport).

(** What the job ledger says of a run's fan-out. *)
Definition ledger_report (e : StatesEnv) (jobID : string) : option AppVolumeReport :=
  match e_steps e with
  | Some list_steps => match list_steps jobID with Ok steps => fan_out_record fanout_dec steps | Fail _ => None end
  | None => None
  end.

(** A kept record is the one the ledger holds. *)
Definition cache_ok (e : StatesEnv) (cache : gmap string (option AppVolumeReport)) : Prop :=
  map_Forall (λ j rep, rep = ledger_report e j) cache.

Lemma read_report_true e j cache : cache_ok e cache →
  fst (read_report fanout_dec e j cache) = ledger_report e j ∧ cache_ok e (snd (read_report fanout_dec e j cache)).
Proof.
  intros Hc. unfold read_report. destruct (cache !! j) as [rep|] eqn:E; [split; [exact (Hc _ _ E)|done]|].
  assert (∀ rep, rep = ledger_report e j →
    cache_ok e (<[j := rep]> (if Nat.leb backupStatesReportCache (size cache) then ∅ else cache))) as Hk.
  { intros rep Hr. apply map_Forall_insert_2; [done|]. destruct (Nat.leb _ _); [apply map_Forall_empty|done]. }
  unfold ledger_report in *. destruct (e_steps e) as [f|]; [|cbn; auto]. destruct (f j); cbn; auto.
Qed.

Definition terminal (r : BackupRun) : bool := negb (bool_decide (br_Status r = RunRunning)).

(** The cache changes nothing of the answer. *)
Lemma collect_true e runs cache : cache_ok e cache →
  fst (collect fanout_dec e runs cache) = (λ r, attempt_of r (ledger_report e (br_JobID r))) <$> filter (λ r, terminal r = true) runs ∧
  cache_ok e (snd (collect fanout_dec e runs cache)).
Proof.
  revert cache. induction runs as [|r runs IH]; intros cache Hc; [done|]. cbn [collect].
  assert (negb (bool_decide (br_Status r = RunSucceeded)) && negb (bool_decide (br_Status r = RunFailed)) = negb (terminal r)) as ->
    by (unfold terminal; by destruct (br_Status r)).
  rewrite (filter_cons (λ r, terminal r = true)).
  destruct (decide (terminal r = true)) as [->|Ht]; cbn [negb]; [|apply not_true_is_false in Ht; rewrite Ht; by apply IH].
  destruct (read_report_true e (br_JobID r) cache Hc) as [Hr Hc']. destruct (read_report fanout_dec e (br_JobID r) cache) as [rep cache'].
  cbn [fst snd] in *. subst rep. destruct (IH cache' Hc') as [Hl Hc2]. destruct (collect fanout_dec e runs cache') as [l cache2]. cbn [fst snd] in *.
  by rewrite Hl.
Qed.

Definition ended (run : BackupRun) : Z := default (br_StartedAt run) (br_FinishedAt run).

(** A run whose fan-out was recorded and had nothing to do with the app.  A
    run that died before its fan-out is not one: it failed for every app. *)
Definition passed_by (e : StatesEnv) (app : App) (run : BackupRun) : Prop :=
  ∃ rep, ledger_report e (br_JobID run) = Some rep ∧ ∀ v, v ∈ a_Volumes rep → EqualFold (r_AppID v) (app_ID app) = false.

(** One of the hundred runs started last, ties included. *)
Definition recent (e : StatesEnv) (run : BackupRun) : Prop :=
  run ∈ e_rows e ∧ Z.of_nat (length (filter (λ r, br_StartedAt run ≤ br_StartedAt r) (e_rows e))) ≤ 100.

(** The run behind an OK badge: it ended with a generation on the record, not
    before the app was installed and not longer ago than the cadence and its
    grace; its fan-out recorded every volume the app owes as captured and none
    of the app's volumes as failed; and no recent run that ended after it
    failed for the app, or touched it at all. *)
Definition backs (e : StatesEnv) (app : App) (installedAt now cadence : Z) (run : BackupRun) : Prop :=
  run ∈ e_rows e ∧ br_Status run ≠ RunRunning ∧ Trim (br_GenerationID run) ≠ EmptyString ∧
  installedAt ≤ ended run ∧ now - ended run ≤ cadence + BackupGrace cadence ∧
  (∃ rep, ledger_report e (br_JobID run) = Some rep ∧
    (∀ v, v ∈ a_Volumes rep → EqualFold (r_AppID v) (app_ID app) = true → r_Captured v = true ∨ r_Failed v = false) ∧
    ∀ p, p ∈ owed (e_tiles e) app → copied_class (pv_Class p) →
      ∃ v, v ∈ a_Volumes rep ∧ EqualFold (r_AppID v) (app_ID app) = true ∧ r_Captured v = true ∧ r_Volume v = pv_Volume p) ∧
  ∀ later, recent e later → br_Status later ≠ RunRunning → ended run < ended later → passed_by e app later.

Lemma owed_in_volumes installed tiles a p : a ∈ is_installed installed → p ∈ owed tiles a → copied_class (pv_Class p) →
  pv_AppID p = app_ID a → p ∈ volumes_of (PlanAppVolumes installed tiles) (app_ID a).
Proof.
  intros Ha Hp Hc Hid. destruct (plan_pays installed tiles) as (Hperm & _ & Hex & _). unfold volumes_of.
  assert (p ∈ Stage (PlanAppVolumes installed tiles) ++ (about <$> Skipped (PlanAppVolumes installed tiles))) as Hin.
  { rewrite Hperm. apply list_elem_of_bind. by exists a. }
  apply elem_of_app. apply elem_of_app in Hin as [Hin|Hin]; [left; by apply list_elem_of_filter|right].
  apply list_elem_of_fmap in Hin as (r & -> & Hr). apply list_elem_of_fmap. exists r. split; [done|].
  apply list_elem_of_filter. split; [|done]. rewrite Forall_forall in Hex. destruct (Hex r Hr) as (_ & _ & _ & Hf). split; [by apply Hf|done].
Qed.

Lemma owed_app tiles a p : p ∈ owed tiles a → pv_AppID p = app_ID a.
Proof.
  unfold owed. destruct (resolved tiles a) as [vs|]; [|by intros ->%list_elem_of_singleton].
  by intros (v & -> & _)%list_elem_of_fmap.
Qed.

Lemma attempts_true e cache ats cache' : cache_ok e cache → attempts fanout_dec e cache = (Ok ats, cache') →
  cache_ok e cache' ∧ ∀ a, a ∈ ats → ∃ run, run ∈ e_rows e ∧ br_Status run ≠ RunRunning ∧ a = attempt_of run (ledger_report e (br_JobID run)).
Proof.
  intros Hc. unfold attempts, ListRuns. destruct (e_flt_runs e); [done|]. cbn [query].
  destruct (collect_true e (take 100 (merge_sort run_started_desc (e_rows e))) cache Hc) as [Hl Hc'].
  cbn [Z.leb Z.compare]. change (Z.to_nat 100) with 100%nat.
  destruct (collect fanout_dec e (take 100 _) cache) as [l cache2]. cbn [fst snd] in *. intros [= <- <-]. split; [done|].
  intros a Ha. rewrite SliceStable_perm, Hl in Ha. apply list_elem_of_fmap in Ha as (run & -> & Hr).
  apply list_elem_of_filter in Hr as [Ht Hr]. exists run. split_and!; [|by intros E; unfold terminal in Ht; rewrite E in Ht|done].
  rewrite <- (merge_sort_Permutation run_started_desc (e_rows e)). rewrite <- (take_drop 100 (merge_sort _ _)). apply elem_of_app. by left.
Qed.

Lemma filter_whole {A} (P : A → Prop) `{!∀ x, Decision (P x)} (l : list A) : (∀ x, x ∈ l → P x) → filter P l = l.
Proof using.
  induction l as [|x l IH]; [done|]. intros Hl. rewrite filter_cons, decide_True by (apply Hl; left). rewrite IH; [done|].
  intros y Hy. apply Hl. by right.
Qed.

(** The listing holds every recent run. *)
Lemma recent_listed e run : recent e run → run ∈ take 100 (merge_sort run_started_desc (e_rows e)).
Proof using.
  intros [Hin Hlen]. set (l := merge_sort run_started_desc (e_rows e)). assert (l ≡ₚ e_rows e) as Hp by apply merge_sort_Permutation.
  rewrite <- Hp, <- (take_drop 100 l), elem_of_app in Hin. destruct Hin as [|Hin]; [done|exfalso].
  assert (StronglySorted run_started_desc l) as Hs.
  { apply Sorted_StronglySorted; [unfold run_started_desc; intros ? ? ?; lia|]. apply Sorted_merge_sort. intros a b. unfold run_started_desc. lia. }
  rewrite <- (take_drop 100 l) in Hs. apply StronglySorted_app in Hs as [Hall _].
  assert (length (take 100 l) = 100%nat) as Hl100.
  { rewrite length_take. apply list_elem_of_lookup in Hin as [j Hj]. apply lookup_lt_Some in Hj. rewrite length_drop in Hj. lia. }
  assert (Z.of_nat (length (filter (λ r, br_StartedAt run ≤ br_StartedAt r) l)) ≤ 100) as Hle by (by rewrite Hp).
  rewrite <- (take_drop 100 l), filter_app, length_app in Hle.
  assert (filter (λ r, br_StartedAt run ≤ br_StartedAt r) (take 100 l) = take 100 l) as Heq.
  { apply filter_whole. intros x Hx. exact (Hall x run Hx Hin). }
  rewrite Heq, Hl100 in Hle.
  assert (run ∈ filter (λ r, br_StartedAt run ≤ br_StartedAt r) (drop 100 l)) as Hr by (apply list_elem_of_filter; split; [lia|done]).
  destruct (filter _ (drop 100 l)); [by apply elem_of_nil in Hr|]. cbn in Hle. lia.
Qed.

(** The attempts are the recent runs that ended, latest end first. *)
Lemma attempts_latest e cache ats cache' l1 a l2 run : cache_ok e cache → attempts fanout_dec e cache = (Ok ats, cache') →
  ats = l1 ++ a :: l2 → recent e run → br_Status run ≠ RunRunning → at_At a < ended run →
  attempt_of run (ledger_report e (br_JobID run)) ∈ l1.
Proof using.
  intros Hc. unfold attempts, ListRuns. destruct (e_flt_runs e); [done|]. cbn [query].
  destruct (collect_true e (take 100 (merge_sort run_started_desc (e_rows e))) cache Hc) as [Hl _].
  cbn [Z.leb Z.compare]. change (Z.to_nat 100) with 100%nat.
  destruct (collect fanout_dec e (take 100 _) cache) as [l cache2]. cbn [fst snd] in *. intros [= <- _] E Hrec Hterm Hlt.
  assert (StronglySorted (not_after newer) (SliceStable newer l)) as Hs.
  { apply SliceStable_sorted; unfold not_after, newer; intros; rewrite ?Z.ltb_lt, ?Z.ltb_ge in *; lia. }
  assert (attempt_of run (ledger_report e (br_JobID run)) ∈ SliceStable newer l) as Hin.
  { rewrite SliceStable_perm, Hl. apply list_elem_of_fmap. exists run. split; [done|]. apply list_elem_of_filter.
    split; [unfold terminal; by rewrite bool_decide_eq_false_2|by apply recent_listed]. }
  rewrite E in Hin, Hs. apply elem_of_app in Hin as [|[<-|Hin]%elem_of_cons]; [done|exfalso; cbn in Hlt; unfold ended in Hlt; lia|exfalso].
  apply StronglySorted_app_1_r, StronglySorted_inv in Hs as [_ Hs]. rewrite Forall_forall in Hs.
  specialize (Hs _ Hin). unfold not_after, newer in Hs. apply Z.ltb_ge in Hs. cbn in Hs. unfold ended in Hlt. lia.
Qed.

(** C22. An OK badge has a backup behind it, as far as the ledger knows.
    Whatever the report cache holds of the ledger, an app [AppBackupStates]
    lists as OK is installed, a target is claimed and the schedule is on, and
    some run in the ledger ended with a generation on the record, after the app
    was installed and no longer ago than the cadence and its grace; its fan-out
    recorded every volume the app's tile classes critical or state as captured
    and none of the app's volumes as failed; and among the hundred runs started
    last none that ended later failed for the app: each reached its fan-out and
    recorded nothing about the app.  The badge reads the ledger and not the
    disk: that the generation is still there, or is on the target now in
    service, is not part of it ([replaced_target_reads_ok]). *)
Theorem ok_badge_backed (e : StatesEnv) (cache cache' : gmap string (option AppVolumeReport)) (now : Z) (sts : list AppBackupStatus) (st : AppBackupStatus) :
  cache_ok e cache →
  (∀ r, r ∈ e_rows e → in_int64 (now - default (br_StartedAt r) (br_FinishedAt r))) →
  AppBackupStates fanout_dec e cache now = (Ok sts, cache') → st ∈ sts → ab_State (as_State st) = AppBackupOK →
  cache_ok e cache' ∧
  ∃ installed app installedAt cadence run,
    e_apps e = Ok installed ∧ Some (app, installedAt) ∈ installed ∧ as_AppID st = app_ID app ∧ as_AppName st = app_Name app ∧
    configuration e = Ok (true, EmptyString, cadence) ∧ (∃ t claimed, e_claimed e = Ok (t :: claimed)) ∧
    backs e app installedAt now cadence run.
Proof using.
  intros Hc Hint Hs Hst Hok. unfold AppBackupStates in Hs. destruct (e_apps e) as [installed|] eqn:Ea; [|done].
  assert (∀ X : result (list AppBackupStatus) * gmap string (option AppVolumeReport),
    match installed with [] => (Ok [], cache) | _ => X end = (Ok sts, cache') → X = (Ok sts, cache')) as Hne.
  { intros X. destruct installed; [|done]. intros [= <- _]. by apply elem_of_nil in Hst. }
  apply Hne in Hs. clear Hne.
  destruct (configuration e) as [[[configured reason] cadence]|] eqn:Ecfg; [|done].
  destruct (attempts fanout_dec e cache) as [[ats|] cache2] eqn:Eat; [|done]. injection Hs as <- <-.
  destruct (attempts_true e cache ats cache2 Hc Eat) as [Hc' Hats]. split; [done|].
  rewrite SliceStable_perm in Hst. apply list_elem_of_fmap in Hst as ([app installedAt] & -> & Hin). cbn [as_State as_AppID as_AppName fst snd] in *.
  apply list_elem_of_omap in Hin as (oa & Hin & E). cbn in E. subst oa.
  set (inp := input_for _ _ _ _ _ _) in Hok.
  apply badge_exact in Hok; [|intros a Ha; destruct (Hats a Ha) as (run & Hrun & _ & ->); by apply Hint].
  destruct Hok as [[Hv Hcfg] (a & (l1 & l2 & Eq & Hcon & Hnone) & (Hgen & rep & Hrep & Hnof & Hall) & Hage)].
  cbn in Hcfg. subst configured. cbn [in_Attempts inp input_for] in Eq.
  destruct (Hats a) as (run & Hrun & Hterm & ->); [rewrite Eq; apply elem_of_app; right; left|].
  exists installed, app, installedAt, cadence, run. cbn in Hgen, Hrep, Hage. destruct Hcon as (_ & Hinst & _). cbn in Hinst.
  assert (reason = EmptyString ∧ ∃ t claimed, e_claimed e = Ok (t :: claimed)) as [-> Hcl].
  { unfold configuration in Ecfg. destruct (e_claimed e) as [[|t l]|]; [done| |done].
    rewrite bool_decide_eq_false_2 in Ecfg by done. destruct (negb _); [done|]. injection Ecfg as <- _. eauto. }
  split_and!; try done. unfold backs. split_and!; try done.
  - destruct (String.eqb_spec (Trim (br_GenerationID run)) EmptyString); [done|done].
  - exists rep. split; [done|]. split; [intros v Hv1 Hv2; by apply Hnof|]. intros p Hp Hcls. destruct (Hall p) as (v & [Hv1 Hv2] & Hcap & Hvol).
    + cbn. apply owed_in_volumes; [|done|done|by eapply owed_app].
      unfold is_installed. apply list_elem_of_omap. exists (Some app). split; [|done]. apply list_elem_of_fmap. by exists (Some (app, installedAt)).
    + by exists v.
  - intros later Hrec Hlterm Hlt. pose proof (attempts_latest e cache ats cache2 l1 _ l2 later Hc Eat Eq Hrec Hlterm Hlt) as Hl1.
    rewrite Forall_forall in Hnone. specialize (Hnone _ Hl1). unfold concerns, about_app in Hnone. cbn in Hnone.
    unfold passed_by. destruct (ledger_report e (br_JobID later)) as [rep'|].
    + exists rep'. split; [done|]. intros v Hv'. destruct (EqualFold (r_AppID v) (app_ID app)) eqn:Ef; [|done].
      destruct Hnone. unfold ended in *. cbn in Hinst. split_and!; [done|lia|right; by exists rep', v].
    + destruct Hnone. unfold ended in *. cbn in Hinst. split_and!; [done|lia|by left].
Qed.
End backed.

(** ** A cluster with one app *)
#[local] Instance some_codec : ScheduleCodec := {| sched_enc s := bs_Every s; sched_dec _ := Fail (errors_New "no schedule is stored") |}.

Definition vault_app : App := mkApp "01APP" "vaultwarden" "n1" "vaultwarden".
Definition vault_tiles : TileVolumes :=
  mkTileVolumes (λ t, if String.eqb t "vaultwarden" then Some (mkTile [mkVolume "data" BackupCritical "stop"; mkVolume "icons" BackupCache "none"]) else None) "bundled".
Definition vault_volume : PlannedVolume := declared vault_app (mkVolume "data" BackupCritical "stop").
Definition vault_taken : VolumeRecord :=
  mkRecord "vaultwarden" "01APP" "vaultwarden" "n1" "data" BackupCritical "stop" true false EmptyString (volume_Member vault_volume)
    "n1" "k1" "beef" 10 8 8 3 "cafe" "quiesced" "1s" true 900 true EmptyString [] EmptyString.
Definition vault_report (r : VolumeRecord) : AppVolumeReport := NewAppVolumeReport (mkEnumeration 1 1 "bundled") [r] 1.
Definition vault_dec (raw : string) : result AppVolumeReport :=
  if String.eqb raw "taken" then Ok (vault_report vault_taken)
  else if String.eqb raw "failed" then Ok (vault_report (failedVolume vault_volume "node n1 is offline"))
  else Fail (errors_New "unexpected end of JSON input").
Definition vault_row (job : string) (status : RunStatus) (part : string) (started finished : Z) : BackupRun :=
  mkRun job "t1" part "n0" "scheduled" "full" ("gen-" +:+ job) "k1" "beef" 100 1 0 0 true EmptyString 1 0 None status started (Some finished) EmptyString.
Definition vault_steps (raw : string) (job : string) : result (list JobStep) :=
  Ok [mkStep job 3 "fan_out" StepSucceeded (Some 0) (Some 0) 1 (Some raw) EmptyString].
Definition day : Z := 24 * Hour.
Definition vault_env (rows : RunRows) (claimed : list string) (steps : string → result (list JobStep)) : StatesEnv :=
  mkStatesEnv rows None (Ok claimed) (Some steps) (Ok [Some (vault_app, 1000 * day); None]) vault_tiles None None true.
Definition badge_of (e : StatesEnv) (now : Z) : result (list AppBackupStateKind) :=
  match fst (AppBackupStates vault_dec e ∅ now) with Ok l => Ok ((λ s, ab_State (as_State s)) <$> l) | Fail err => Fail err end.

Definition weekly_rows : RunRows := [vault_row "j1" RunSucceeded "part-old" (1001 * day) (1001 * day + Hour)].

Lemma ok_badge_backed_witness :
  ∃ sts st cache' run, AppBackupStates vault_dec (vault_env weekly_rows ["part-old"] (vault_steps "taken")) ∅ (1008 * day) = (Ok sts, cache') ∧
    st ∈ sts ∧ ab_State (as_State st) = AppBackupOK ∧
    backs vault_dec (vault_env weekly_rows ["part-old"] (vault_steps "taken")) vault_app (1000 * day) (1008 * day) DefaultBackupCadence run.
Proof.
  set (e := vault_env _ _ _).
  destruct (AppBackupStates vault_dec e ∅ (1008 * day)) as [[[|st l]|] cache'] eqn:E; [by vm_compute in E| |by vm_compute in E].
  assert (l = [] ∧ ab_State (as_State st) = AppBackupOK) as [-> Hst] by (vm_compute in E; by injection E as <- <- _).
  destruct (ok_badge_backed vault_dec e ∅ cache' (1008 * day) [st] st) as (_ & installed & app & inst & cadence & run & Ei & Hin & _ & _ & Ec & _ & Hb);
    [apply map_Forall_empty| |exact E|left|exact Hst|].
  { intros r Hr. apply list_elem_of_singleton in Hr as ->. by vm_compute. }
  exists [st], st, cache', run. split_and!; [done|left|done|].
  injection Ei as <-. apply elem_of_cons in Hin as [Hin|Hin]; [|apply list_elem_of_singleton in Hin; discriminate Hin]. injection Hin as -> ->.
  assert (cadence = DefaultBackupCadence) as -> by (vm_compute in Ec; by injection Ec as <-). exact Hb.
Defined.

(** A failure is red at once, and for as long as no newer run captures the app. *)
Example failed_volume_overdue :
  badge_of (vault_env (weekly_rows ++ [vault_row "j2" RunFailed "part-old" (1008 * day) (1008 * day + Hour)]) ["part-old"]
    (λ j, vault_steps (if String.eqb j "j2" then "failed" else "taken") j)) (1008 * day + 2 * Hour) = Ok [AppBackupOverdue].
Proof. by vm_compute. Qed.

(** The badge does not look at which disk the run wrote to: with the old disk
    gone and another claimed, the app reads OK and no run is due, although no
    generation is on the disk in service. *)
Example replaced_target_reads_ok :
  let now := 1002 * day in
  badge_of (vault_env weekly_rows ["part-new"] (vault_steps "taken")) now = Ok [AppBackupOK] ∧
  fst (DueFunc None None None weekly_rows None true now) = false.
Proof. by vm_compute. Qed.

(** A job ledger that cannot be read for a moment turns the badge red: the
    record is not kept, and the attempt is judged as one that failed. *)
Example unread_ledger_reads_overdue :
  let e := vault_env weekly_rows ["part-old"] (λ _, Fail (errors_New "database is locked")) in
  badge_of e (1002 * day) = Ok [AppBackupOverdue] ∧ snd (AppBackupStates vault_dec e ∅ (1002 * day)) = ∅.
Proof. by vm_compute. Qed.
