(* ===== verification/BackupTarget.v ===== *)
(** * The backup target on the agent

    agent/internal/storage/archive.go: preflight, write and prune on a mounted
    target whose every call may fail or be the last before a crash, and the
    sweep of the staging root.  A call that has returned has reached the
    medium: copyFileSync and writeFileSync sync each file and syncDir each
    directory before the next depends on it, so those calls may fail or be the
    last one here and are otherwise without effect; that they are made is not
    what the theorems show.  A generation is a directory with its archive, its manifest and
    the members the ingest endpoint landed; times come from the node's clock,
    which nothing says is monotonic.  SHA-256, the scope field of a manifest's
    JSON, the order in which a directory lists its entries to [os.RemoveAll]
    and the free space are parameters; resolving a partition UUID to a mount
    point is the backend's answer. *)
From Stdlib Require Import Ascii String.
From S2P Require Import Prelude GoStrings GoRunes GoPath GoSort Crash BackupMembers BackupEstimate.
Open Scope string_scope.
Open Scope list_scope.
Open Scope Z_scope.
Open Scope io_scope.
#[local] Arguments String.append : simpl nomatch.

Definition BackupGenerationsDir : string := "generations".
Definition BackupArchiveFile : string := "archive.rasputin-archive".
Definition BackupManifestFile : string := "manifest.json".

(** [time.Time]'s zero value, in nanoseconds from the epoch. *)
Definition zeroTime : Z := -62135596800000000000.

(** ** The medium *)
Record Gen := mkGen { g_archive : option (string * Z); g_manifest : option string; g_members : gmap string string; g_mtime : Z }.
Inductive Ent := EDir (g : Gen) | EFile.
#[export] Instance Gen_eq_dec : EqDecision Gen.
Proof. solve_decision. Defined.
#[export] Instance Ent_eq_dec : EqDecision Ent.
Proof. solve_decision. Defined.

(** The generations directory ([None]: not there yet) and the staging root. *)
Record Target := mkTarget { tg_tick : nat; tg_gens : option (gmap string Ent); tg_staging : gmap string string }.
Definition tg_next (w : Target) : Target := mkTarget (S (tg_tick w)) (tg_gens w) (tg_staging w).
#[export] Instance target_ticks : Ticking Target := { tick := tg_tick; next := tg_next }.
Definition ents (w : Target) : gmap string Ent := default ∅ (tg_gens w).
Definition set_gens (m : gmap string Ent) (w : Target) : Target := mkTarget (tg_tick w) (Some m) (tg_staging w).
(** A change to one directory. *)
Definition upd_gen (name : string) (f : Gen → Gen) (w : Target) : Target :=
  match tg_gens w with
  | Some m => set_gens (alter (λ e, match e with EDir g => EDir (f g) | EFile => EFile end) name m) w
  | None => w
  end.

Definition no_entry (name : string) : error := mkError ("open " +:+ name +:+ ": no such file or directory") ["fs.ErrNotExist"].
Definition file_exists (name : string) : error := mkError ("open " +:+ name +:+ ": file exists") ["fs.ErrExist"].
Definition not_empty (name : string) : error := errors_New ("remove " +:+ name +:+ ": directory not empty").

Definition os_IsNotExist (e : error) : bool := errors_Is e "fs.ErrNotExist".

(** ** Errors and answers *)
Definition ErrNotFound : error := sentinel "storage.ErrNotFound" "storage: no claimed target with that partition UUID".
Definition ErrStagingMissing : error := sentinel "ErrStagingMissing" "storage: staged archive not found under the staging root".
Definition ErrDigestMismatch : error := sentinel "ErrDigestMismatch" "storage: staged archive does not match the digest the api computed".
Definition refuse (s : error) (detail : string) : error := wrapf (err_text s +:+ ": " +:+ detail) s.

Definition safePartUUID (u : string) : bool :=
  match u with
  | String c r => alnum c && all_chars (λ c, alnum c || Ascii.eqb c "-"%char) r && Nat.leb (String.length r) 63
  | EmptyString => false
  end.
Definition checkPartUUID (u : string) : result unit :=
  if negb (safePartUUID u) then Fail (refuse ErrNotFound (quote u +:+ " is not a partition UUID")) else Ok tt.

Definition StorageRefusalNotFound : string := "not-found".
Definition BackupRefusalInsufficientSpace : string := "insufficient-space".
Definition not_plugged_in : string := "no attached disk carries that partition UUID — the backup target is not plugged in".

Record BackupGeneration := mkGeneration {
  bg_ID : string; bg_ArchivePath : string; bg_ManifestPath : string; bg_SizeBytes : Z; bg_Digest : string; bg_WrittenAt : Z; bg_Scope : string }.

Record PreflightAck := mkPreflightAck {
  pa_OK : bool; pa_Present : bool; pa_PartUUID : string; pa_MountPath : string; pa_TotalBytes : Z; pa_FreeBytes : Z; pa_RequiredBytes : Z;
  pa_Sufficient : bool; pa_Generations : list BackupGeneration; pa_StagingRoot : string; pa_Refusal : string; pa_Detail : string }.
Record WriteCmd := mkWriteCmd {
  wc_PartUUID : string; wc_GenerationID : string; wc_StagingName : string; wc_Digest : string; wc_SizeBytes : Z; wc_ManifestJSON : string }.
Record WriteAck := mkWriteAck {
  wa_OK : bool; wa_PartUUID : string; wa_Generation : option BackupGeneration; wa_FreeBytes : Z; wa_Refusal : string; wa_Detail : string }.
Record PruneCmd := mkPruneCmd { pc_PartUUID : string; pc_Keep : Z; pc_ProtectGenerationID : string }.
Record PruneAck := mkPruneAck {
  pk_OK : bool; pk_PartUUID : string; pk_Kept : list string; pk_Pruned : list string; pk_FreeBytes : Z; pk_Refusal : string; pk_Detail : string }.

(** An entry of a generation directory. *)
Inductive item := IArchive | IManifest | IMember (path : string).
Definition items_of (g : Gen) : list item :=
  match g_archive g with Some _ => [IArchive] | None => [] end ++ match g_manifest g with Some _ => [IManifest] | None => [] end ++ (IMember <$> (map_to_list (g_members g)).*1).

Section agent.
Context (F : nat → Fault) (clock : nat → Z) (sha256_hex : string → string) (scopeOf : string → string)
  (order : list item → list item) (usage : Target → Z * Z).
#[local] Abbreviation IO := (Crash.IO Target).
#[local] Abbreviation sys := (Crash.sys F).

(** A call that can fail or be the last one, and has no other effect on the
    model: [Sync], [Close], a directory's fsync. *)
Definition f_call : IO (result unit) := sys (λ w, (Ok tt, w)).
Definition disk_usage : IO (result (Z * Z)) := sys (λ w, (Ok (usage w), w)).

(** ** Reading the generations *)
Definition is_dir (e : Ent) : bool := match e with EDir _ => true | EFile => false end.
(** [os.ReadDir]: the entries by name. *)
Definition os_ReadDir : IO (result (list (string * bool))) :=
  sys (λ w, (match tg_gens w with
             | Some m => Ok ((λ n, (n, match m !! n with Some e => is_dir e | None => false end)) <$> sort_Strings (map_to_list m).*1)
             | None => Fail (no_entry BackupGenerationsDir)
             end, w)).
Definition stat_archive (name : string) : IO (result (Z * Z)) :=
  sys (λ w, (match ents w !! name with
             | Some (EDir (mkGen (Some (c, t)) _ _ _)) => Ok (Z.of_nat (String.length c), t)
             | _ => Fail (no_entry BackupArchiveFile)
             end, w)).
Definition dir_info (name : string) : IO (result Z) :=
  sys (λ w, (match ents w !! name with Some (EDir g) => Ok (g_mtime g) | _ => Fail (no_entry name) end, w)).
(** [readCapped], at one mebibyte. *)
Definition read_manifest (name : string) : IO (result string) :=
  sys (λ w, (match ents w !! name with
             | Some (EDir (mkGen _ (Some m) _ _)) =>
                 Ok (if Z.of_nat (String.length m) <=? 2 ^ 20 then m else take_str (Z.to_nat (2 ^ 20)) m)
             | _ => Fail (no_entry BackupManifestFile)
             end, w)).

Definition gens_dir (mountPath : string) : string := filepath_Join [mountPath; BackupGenerationsDir].

(** The body of the loop over the entries. *)
Definition list_one (dir name : string) : IO BackupGeneration :=
  st <- stat_archive name;
  wt <- match st with
        | Ok (n, t) => ret (byteCount n, t)
        | Fail _ => di <- dir_info name; ret match di with Ok t => (0, t) | Fail _ => (0, zeroTime) end
        end;
  raw <- read_manifest name;
  ret (mkGeneration name (filepath_Join [dir; name; BackupArchiveFile]) (filepath_Join [dir; name; BackupManifestFile])
         (fst wt) EmptyString (snd wt) (match raw with Ok m => scopeOf m | Fail _ => EmptyString end)).
Fixpoint list_each (dir : string) (l : list (string * bool)) : IO (list BackupGeneration) :=
  match l with
  | [] => ret []
  | (name, d) :: l =>
      if negb d || HasPrefix name "." then list_each dir l
      else g <- list_one dir name; gs <- list_each dir l; ret (g :: gs)
  end.

(** Newest first, the name as the tiebreak. *)
Definition gen_newer (a b : BackupGeneration) : bool :=
  if negb (bg_WrittenAt a =? bg_WrittenAt b) then bg_WrittenAt b <? bg_WrittenAt a else String.ltb (bg_ID b) (bg_ID a).

Definition listGenerations (mountPath : string) : IO (result (list BackupGeneration)) :=
  l <-? os_ReadDir;
  gs <- list_each (gens_dir mountPath) l;
  ret (Ok (SliceStable gen_newer gs)).

(** ** Preflight *)
Definition BackupPreflight (mount : result string) (stagingRoot partUUID : string) (estimateBytes : Z) : IO (result PreflightAck) :=
  match checkPartUUID partUUID with
  | Fail e => ret (Fail e)
  | Ok _ =>
      match mount with
      | Fail e =>
          if errors_Is e "storage.ErrNotFound"
          then ret (Ok (mkPreflightAck true false partUUID EmptyString 0 0 0 false [] stagingRoot StorageRefusalNotFound not_plugged_in))
          else ret (Fail e)
      | Ok mountPath =>
          du <- disk_usage;
          let '(total, free) := match du with Ok tf => tf | Fail _ => (0, 0) end in
          lg <- listGenerations mountPath;
          match (match lg with Ok gs => Ok gs | Fail e => if os_IsNotExist e then Ok [] else Fail e end) with
          | Fail e => ret (Fail (wrapf ("list generations on " +:+ mountPath +:+ ": " +:+ err_text e) e))
          | Ok gens =>
              let required := requiredBytes estimateBytes in
              if required <=? free
              then ret (Ok (mkPreflightAck true true partUUID mountPath total free required true gens stagingRoot EmptyString EmptyString))
              else ret (Ok (mkPreflightAck false true partUUID mountPath total free required false gens stagingRoot BackupRefusalInsufficientSpace
                     (mountPath +:+ " has " +:+ humanBytes free +:+ " free; this run needs about " +:+ humanBytes required +:+ " (a " +:+
                      humanBytes estimateBytes +:+ " archive plus a " +:+ humanBytes BackupTargetReserveBytes +:+ " reserve). " +:+
                      "Nothing was written. Free space on the target, or claim a larger one")))
          end
      end
  end.

(** ** [os.RemoveAll] on a generation directory

    Every entry is tried, in the directory's own order, and the first error is
    the one returned; unlinking an entry stamps the directory. *)
Definition drop_item (it : item) (t : Z) (g : Gen) : Gen :=
  match it with
  | IArchive => mkGen None (g_manifest g) (g_members g) t
  | IManifest => mkGen (g_archive g) None (g_members g) t
  | IMember p => mkGen (g_archive g) (g_manifest g) (delete p (g_members g)) (g_mtime g)
  end.
Definition remove_item (name : string) (it : item) : IO (result unit) :=
  sys (λ w, (Ok tt, upd_gen name (drop_item it (clock (tg_tick w))) w)).
Fixpoint remove_items (name : string) (l : list item) (err : result unit) : IO (result unit) :=
  match l with
  | [] => ret err
  | it :: l =>
      r <- remove_item name it;
      remove_items name l (match err with Ok _ => r | Fail e => Fail e end)
  end.
Definition rmdir (name : string) : IO (result unit) :=
  sys (λ w, match tg_gens w with
            | Some m =>
                match m !! name with
                | Some (EDir g) => if bool_decide (items_of g = []) then (Ok tt, set_gens (delete name m) w) else (Fail (not_empty name), w)
                | _ => (Ok tt, set_gens (delete name m) w)
                end
            | None => (Ok tt, w)
            end).
Definition os_RemoveAll (name : string) : IO (result unit) := λ w,
  (match ents w !! name with
   | Some (EDir g) => bindR (remove_items name (order (items_of g)) (Ok tt)) (λ _, rmdir name)
   | _ => rmdir name
   end) w.

(** ** Prune *)
Definition kept_by (cmd : PruneCmd) (i : Z) (g : BackupGeneration) : bool :=
  (i <? pc_Keep cmd) || (negb (String.eqb (pc_ProtectGenerationID cmd) EmptyString) && String.eqb (bg_ID g) (pc_ProtectGenerationID cmd)).

Fixpoint prune_each (cmd : PruneCmd) (i : Z) (gens : list BackupGeneration) (kept pruned : list string) : IO (result (list string * list string)) :=
  match gens with
  | [] => ret (Ok (kept, pruned))
  | g :: gens =>
      if kept_by cmd i g then prune_each cmd (i + 1) gens (kept ++ [bg_ID g]) pruned
      else
        r <- os_RemoveAll (bg_ID g);
        match r with
        | Fail e => ret (Fail (wrapf ("prune generation " +:+ bg_ID g +:+ ": " +:+ err_text e) e))
        | Ok _ => prune_each cmd (i + 1) gens kept (pruned ++ [bg_ID g])
        end
  end.

Definition BackupPrune (mount : result string) (cmd : PruneCmd) : IO (result PruneAck) :=
  match checkPartUUID (pc_PartUUID cmd) with
  | Fail e => ret (Fail e)
  | Ok _ =>
      if pc_Keep cmd <? 1 then
        ret (Fail (errors_New ("refusing to prune with keep=" +:+ pretty (pc_Keep cmd) +:+ ": a retention that keeps nothing is not a retention policy")))
      else
        match mount with
        | Fail e =>
            if errors_Is e "storage.ErrNotFound"
            then ret (Ok (mkPruneAck false (pc_PartUUID cmd) [] [] 0 StorageRefusalNotFound not_plugged_in))
            else ret (Fail e)
        | Ok mountPath =>
            lg <- listGenerations mountPath;
            match (match lg with Ok gs => Ok gs | Fail e => if os_IsNotExist e then Ok [] else Fail e end) with
            | Fail e => ret (Fail (wrapf ("list generations on " +:+ mountPath +:+ ": " +:+ err_text e) e))
            | Ok gens =>
                kp <-? prune_each cmd 0 gens [] [];
                _ <- (if bool_decide (snd kp = []) then ret (Ok tt) else f_call);
                du <- disk_usage;
                ret (Ok (mkPruneAck true (pc_PartUUID cmd) (fst kp) (snd kp) (match du with Ok (_, f) => f | Fail _ => 0 end) EmptyString EmptyString))
            end
        end
  end.

(** ** Write *)
Definition os_MkdirAll : IO (result unit) := sys (λ w, (Ok tt, set_gens (ents w) w)).
Definition os_Stat (name : string) : IO (result Ent) :=
  sys (λ w, (match ents w !! name with Some e => Ok e | None => Fail (no_entry name) end, w)).
Definition os_Mkdir (name : string) : IO (result unit) :=
  sys (λ w, match ents w !! name with
            | Some _ => (Fail (file_exists name), w)
            | None => (Ok tt, set_gens (<[name := EDir (mkGen None None ∅ (clock (tg_tick w)))]> (ents w)) w)
            end).
Definition os_Rename (old new : string) : IO (result unit) :=
  sys (λ w, match ents w !! old, ents w !! new with
            | None, _ => (Fail (no_entry old), w)
            | Some e, None => (Ok tt, set_gens (<[new := e]> (delete old (ents w))) w)
            | Some e, Some (EDir g) =>
                if bool_decide (items_of g = []) then (Ok tt, set_gens (<[new := e]> (delete old (ents w))) w) else (Fail (not_empty new), w)
            | _, Some EFile => (Fail (file_exists new), w)
            end).
Definition read_staged (name : string) : IO (result string) :=
  sys (λ w, (match tg_staging w !! name with Some b => Ok b | None => Fail (no_entry name) end, w)).

Definition set_archive (c : string) (t : Z) (g : Gen) : Gen := mkGen (Some (c, t)) (g_manifest g) (g_members g) t.
Definition set_manifest (c : string) (t : Z) (g : Gen) : Gen := mkGen (g_archive g) (Some c) (g_members g) t.
(** [os.OpenFile(..., O_CREATE|O_EXCL, ...)] inside the partial directory. *)
Definition create_archive (dir : string) : IO (result unit) :=
  sys (λ w, match ents w !! dir with
            | Some (EDir (mkGen None _ _ _)) => (Ok tt, upd_gen dir (set_archive EmptyString (clock (tg_tick w))) w)
            | Some (EDir _) => (Fail (file_exists BackupArchiveFile), w)
            | _ => (Fail (no_entry dir), w)
            end).
Definition create_manifest (dir : string) : IO (result unit) :=
  sys (λ w, match ents w !! dir with
            | Some (EDir (mkGen _ None _ _)) => (Ok tt, upd_gen dir (set_manifest EmptyString (clock (tg_tick w))) w)
            | Some (EDir _) => (Fail (file_exists BackupManifestFile), w)
            | _ => (Fail (no_entry dir), w)
            end).
Definition write_archive (dir data : string) : IO (result unit) :=
  sys_write F (λ s w, upd_gen dir (set_archive s (clock (tg_tick w))) w) data.
Definition write_manifest (dir data : string) : IO (result unit) :=
  sys_write F (λ s w, upd_gen dir (set_manifest s (clock (tg_tick w))) w) data.

(** Both return the bytes written. *)
Definition copyFileSync (staged dir : string) : IO (result Z) :=
  data <-? read_staged staged;
  _ <-? create_archive dir;
  _ <-? write_archive dir data;
  _ <-? f_call;
  _ <-? f_call;
  ret (Ok (Z.of_nat (String.length data))).
Definition writeFileSync (dir data : string) : IO (result unit) :=
  _ <-? create_manifest dir;
  _ <-? write_manifest dir data;
  _ <-? f_call;
  f_call.

(** The partial directory: adopted when it is a directory, made when absent. *)
Definition open_partial (gen tmp : string) : IO (result unit) :=
  st <- os_Stat tmp;
  match st with
  | Ok (EDir _) => ret (Ok tt)
  | Ok EFile => ret (Fail (errors_New ("refusing to write generation " +:+ gen +:+ ": " +:+ tmp +:+ " exists and is not a directory")))
  | Fail e => if os_IsNotExist e then os_Mkdir tmp else ret (Fail e)
  end.

(** From the first write to the rename that makes the generation visible. *)
Definition fill_partial (cmd : WriteCmd) (mountPath tmp : string) : IO (result Z) :=
  written <-? wrapE ("write archive to " +:+ mountPath +:+ ": ") EmptyString (copyFileSync (wc_StagingName cmd) tmp);
  if String.eqb (Trim (wc_ManifestJSON cmd)) EmptyString then
    ret (Fail (errors_New "refusing to write a generation with no manifest: an archive nobody can read the scope of is exactly what this must never produce"))
  else
    _ <-? wrapE ("write manifest to " +:+ mountPath +:+ ": ") EmptyString (writeFileSync tmp (wc_ManifestJSON cmd));
    _ <-? f_call;
    _ <-? os_Rename tmp (wc_GenerationID cmd);
    ret (Ok written).

Definition BackupWrite (mount : result string) (stagingRoot : string) (cmd : WriteCmd) : IO (result WriteAck) :=
  match checkPartUUID (wc_PartUUID cmd) with
  | Fail e => ret (Fail e)
  | Ok _ =>
      if negb (BackupValidGenerationID (wc_GenerationID cmd)) then ret (Fail (refuse ErrStagingMissing (quote (wc_GenerationID cmd) +:+ " is not a usable generation id")))
      else if negb (BackupValidStagingName (wc_StagingName cmd)) then ret (Fail (refuse ErrStagingMissing (quote (wc_StagingName cmd) +:+ " is not a plain file name")))
      else if String.eqb (Trim (wc_Digest cmd)) EmptyString then ret (Fail (refuse ErrDigestMismatch "the command carried no digest, so nothing can be verified"))
      else if String.eqb (Trim stagingRoot) EmptyString then ret (Fail (refuse ErrStagingMissing "this agent has no staging root configured"))
      else
        let staged := filepath_Join [stagingRoot; wc_StagingName cmd] in
        st <- read_staged (wc_StagingName cmd);
        match st with
        | Fail _ => ret (Fail (refuse ErrStagingMissing staged))
        | Ok info =>
            let len := Z.of_nat (String.length info) in
            if (0 <? wc_SizeBytes cmd) && negb (byteCount len =? wc_SizeBytes cmd) then
              ret (Fail (refuse ErrDigestMismatch ("the staged file is " +:+ pretty len +:+ " bytes and the api sealed " +:+ pretty (wc_SizeBytes cmd))))
            else
              data <-? read_staged (wc_StagingName cmd);
              let sum := sha256_hex data in
              if negb (EqualFold sum (Trim (wc_Digest cmd))) then ret (Fail (refuse ErrDigestMismatch ("staged " +:+ sum +:+ ", expected " +:+ wc_Digest cmd)))
              else
                match mount with
                | Fail e =>
                    if errors_Is e "storage.ErrNotFound"
                    then ret (Ok (mkWriteAck false (wc_PartUUID cmd) None 0 StorageRefusalNotFound not_plugged_in))
                    else ret (Fail e)
                | Ok mountPath =>
                    let final := filepath_Join [gens_dir mountPath; wc_GenerationID cmd] in
                    let tmp := BackupPartialDirName (wc_GenerationID cmd) in
                    _ <-? os_MkdirAll;
                    fin <- os_Stat (wc_GenerationID cmd);
                    match fin with
                    | Ok _ => ret (Fail (errors_New ("refusing to write generation " +:+ wc_GenerationID cmd +:+ ": it already exists at " +:+ final)))
                    | Fail _ =>
                        _ <-? open_partial (wc_GenerationID cmd) tmp;
                        r <- fill_partial cmd mountPath tmp;
                        match r with
                        | Fail e => _ <- os_RemoveAll tmp; ret (Fail e)
                        | Ok written =>
                            _ <-? f_call;
                            now <- (λ w, (Some (clock (tg_tick w)), w));
                            du <- disk_usage;
                            ret (Ok (mkWriteAck true (wc_PartUUID cmd)
                              (Some (mkGeneration (wc_GenerationID cmd) (filepath_Join [final; BackupArchiveFile]) (filepath_Join [final; BackupManifestFile])
                                (byteCount written) sum now (scopeOf (wc_ManifestJSON cmd))))
                              (match du with Ok (_, f) => f | Fail _ => 0 end) EmptyString EmptyString))
                        end
                    end
                end
        end
  end.

(** ** The sweep of the staging root

    Which holds regular files only in the model; a failure skips its entry. *)
Fixpoint clean_each (l : list string) (removed freed : Z) : IO (Z * Z) :=
  match l with
  | [] => ret (removed, freed)
  | name :: l =>
      info <- read_staged name;
      match info with
      | Fail _ => clean_each l removed freed
      | Ok bytes =>
          r <- sys (λ w, (Ok tt, mkTarget (tg_tick w) (tg_gens w) (delete name (tg_staging w))));
          match r with
          | Ok _ => clean_each l (removed + 1) (freed + Z.of_nat (String.length bytes))
          | Fail _ => clean_each l removed freed
          end
      end
  end.
Definition CleanStaging : IO (Z * Z) :=
  ls <- sys (λ w, (Ok (sort_Strings (map_to_list (tg_staging w)).*1), w));
  match ls with Ok l => clean_each l 0 0 | Fail _ => ret (0, 0) end.
End agent.
