(* ===== verification/BackupTargetFacts.v ===== *)
(** * Prune never takes what it keeps, and settles

    What a prune leaves alone wherever it stops, and what it does on a target
    whose calls do not fail. *)
From Stdlib Require Import Ascii String.
From S2P Require Import Prelude GoStrings GoRunes GoPath GoSort Crash BackupMembers BackupEstimate BackupTarget.
Open Scope string_scope.
Open Scope list_scope.
Open Scope Z_scope.
#[local] Arguments String.append : simpl nomatch.
#[local] Arguments HasPrefix : simpl never.

(** ** Entries a call leaves alone *)
Definition agree (K : string → Prop) (w0 w : Target) : Prop :=
  (∀ n, K n → ents w !! n = ents w0 !! n) ∧ tg_staging w = tg_staging w0.
#[export] Instance agree_timeless K w0 : Timeless (agree K w0).
Proof. by intros w. Qed.

Lemma agree_refl K w : agree K w w.
Proof. by split. Qed.

Lemma agree_set K w0 w m : agree K w0 w → (∀ n, K n → m !! n = ents w !! n) → agree K w0 (set_gens m w).
Proof. intros [H1 H2] Hm. split; [|done]. intros n Hn. change (m !! n = ents w0 !! n). by rewrite Hm, H1. Qed.

Lemma upd_gen_ne name f w n : n ≠ name → ents (upd_gen name f w) !! n = ents w !! n.
Proof. intros Hn. unfold upd_gen, ents. destruct (tg_gens w) as [m|] eqn:E; [|by rewrite E]. cbn [tg_gens set_gens default from_option id]. by apply lookup_alter_ne. Qed.
Lemma upd_gen_staging name f w : tg_staging (upd_gen name f w) = tg_staging w.
Proof. unfold upd_gen. by destruct (tg_gens w). Qed.
Lemma agree_upd K w0 w name f : ¬ K name → agree K w0 w → agree K w0 (upd_gen name f w).
Proof.
  intros Hk [H1 H2]. split; [|by rewrite upd_gen_staging]. intros n Hn. rewrite upd_gen_ne by (by intros ->). by apply H1.
Qed.
Lemma upd_gen_eq name f w g : ents w !! name = Some (EDir g) → ents (upd_gen name f w) !! name = Some (EDir (f g)).
Proof.
  unfold upd_gen, ents. destruct (tg_gens w) as [m|]; cbn [tg_gens set_gens default from_option id]; [|by rewrite lookup_empty]. intros H. by rewrite lookup_alter_eq, H.
Qed.

Section facts.
Context (F : nat → Fault) (clock : nat → Z) (scopeOf : string → string)
  (order : list item → list item) (usage : Target → Z * Z).

(** A call that only reads. *)
Lemma keeps_look {A} I `{!Timeless I} (f : Target → result A) : keeps I (sys F (λ w, (f w, w))).
Proof. by apply keeps_sys. Qed.
Lemma keeps_call I `{!Timeless I} : keeps I (f_call F).
Proof. by apply keeps_look. Qed.
Lemma keeps_usage I `{!Timeless I} : keeps I (disk_usage F usage).
Proof. by apply keeps_look. Qed.
#[local] Hint Resolve keeps_look keeps_usage keeps_call : keeps.
#[local] Hint Extern 1 (keeps _ (os_Stat _ _)) => apply keeps_look : keeps.
#[local] Hint Extern 1 (keeps _ (read_staged _ _)) => apply keeps_look : keeps.

Lemma keeps_list_each I `{!Timeless I} dir l : keeps I (list_each F scopeOf dir l).
Proof.
  induction l as [|[name d] l IH]; cbn [list_each]; [apply keeps_ret|]. destruct (negb d || _); [done|].
  unfold list_one, stat_archive, dir_info, read_manifest. keep.
Qed.
Lemma keeps_listing I `{!Timeless I} mp : keeps I (listGenerations F scopeOf mp).
Proof. unfold listGenerations, os_ReadDir. apply keeps_bindR; [by apply keeps_look|intros l]. apply keeps_bind; [by apply keeps_list_each|intros]. apply keeps_ret. Qed.

Lemma keeps_rmdir K w0 name : ¬ K name → keeps (agree K w0) (rmdir F name).
Proof.
  intros Hk. apply keeps_sys; [apply _|]. intros w Hw.
  assert (∀ m, tg_gens w = Some m → agree K w0 (set_gens (delete name m) w)) as Hd.
  { intros m Em. apply agree_set; [done|]. intros n Hn. unfold ents. rewrite Em. apply lookup_delete_ne. by intros ->. }
  destruct (tg_gens w) as [m|]; [|done]. destruct (m !! name) as [[g|]|]; [case_bool_decide|..]; cbn; auto.
Qed.

Lemma keeps_remove_items K w0 name l r : ¬ K name → keeps (agree K w0) (remove_items F clock name l r).
Proof.
  intros Hk. revert r. induction l as [|it l IH]; intros r; cbn [remove_items]; [apply keeps_ret|].
  apply keeps_bind; [|auto]. apply keeps_sys; [apply _|]. intros w Hw. by apply agree_upd.
Qed.

Lemma keeps_RemoveAll K w0 name : ¬ K name → keeps (agree K w0) (os_RemoveAll F clock order name).
Proof.
  intros Hk w Hw. unfold os_RemoveAll. destruct (ents w !! name) as [[g|]|].
  - revert w Hw. apply keeps_bindR; [by apply keeps_remove_items|intros; by apply keeps_rmdir].
  - revert w Hw. by apply keeps_rmdir.
  - revert w Hw. by apply keeps_rmdir.
Qed.

(** Where the loop of prune can stop, nothing it keeps has been touched. *)
Lemma keeps_prune_each K w0 cmd i gens kept pruned :
  (∀ j g, gens !! j = Some g → kept_by cmd (i + Z.of_nat j) g = false → ¬ K (bg_ID g)) →
  keeps (agree K w0) (prune_each F clock order cmd i gens kept pruned).
Proof.
  revert i kept pruned. induction gens as [|g gens IH]; intros i kept pruned HK; cbn [prune_each]; [apply keeps_ret|].
  assert (∀ j g', gens !! j = Some g' → kept_by cmd (i + 1 + Z.of_nat j) g' = false → ¬ K (bg_ID g')) as HK'.
  { intros j g' Hj. specialize (HK (S j) g' Hj). replace (i + 1 + Z.of_nat j) with (i + Z.of_nat (S j)) by lia. done. }
  destruct (kept_by cmd i g) eqn:Ek; [by apply IH|].
  apply keeps_bind; [apply keeps_RemoveAll; apply (HK 0%nat g eq_refl); by rewrite Z.add_0_r|].
  intros [u|e]; [by apply IH|apply keeps_ret].
Qed.

(** ** What a listing names *)
Definition visible (x : string * bool) : Prop := x.2 = true ∧ HasPrefix x.1 "." = false.

Lemma list_each_ids dir l : ensures (λ _, True) (list_each F scopeOf dir l) (λ gs _, bg_ID <$> gs = (filter visible l).*1) (λ _, True).
Proof.
  induction l as [|[name d] l IH]; cbn [list_each]; [by intros w|]. rewrite (filter_cons visible).
  destruct (decide (visible (name, d))) as [[Hd Hp]|Hv]; cbn [fst snd] in *.
  - rewrite Hd, Hp. cbn [negb orb]. apply (ensures_bind _ _ _ (λ g _, bg_ID g = name)).
    + unfold list_one. apply (ensures_bind _ _ _ (λ _ _, True)); [intros w _; by destruct (stat_archive F name w) as [[]]|intros st].
      apply (ensures_bind _ _ _ (λ _ _, True)).
      { intros w _. destruct st as [[]|]; [done|]. unfold bind. destruct (dir_info F name w) as [[[]|] ]; done. }
      intros wt. apply (ensures_bind _ _ _ (λ _ _, True)); [intros w _; by destruct (read_manifest F name w) as [[]]|intros raw]. by intros w.
    + intros g. intros w Hg. pose proof (IH w I) as IH'. unfold bind. destruct (list_each F scopeOf dir l w) as [[gs|] w']; [|done].
      cbn. by rewrite Hg, IH'.
  - assert (negb d || HasPrefix name "." = true) as ->; [|exact IH].
    unfold visible in Hv. cbn in Hv. destruct d; [|done]. destruct (HasPrefix name "."); [done|]. by destruct Hv.
Qed.

Lemma readdir_names w l w' : os_ReadDir F w = (Some (Ok l), w') → NoDup l.*1.
Proof.
  unfold os_ReadDir, sys. intros H.
  assert (match tg_gens (next w) with Some m => Ok ((λ n, (n, match m !! n with Some e => is_dir e | None => false end)) <$> sort_Strings (map_to_list m).*1)
          | None => Fail (no_entry BackupGenerationsDir) end = Ok l) as E by (destruct (F (tick w)); congruence).
  destruct (tg_gens (next w)) as [m|]; [|done]. injection E as <-.
  rewrite <- list_fmap_compose. cbn. rewrite list_fmap_id, sort_Strings_perm. apply NoDup_fst_map_to_list.
Qed.

Lemma listing_nodup mp w gens w' : listGenerations F scopeOf mp w = (Some (Ok gens), w') → NoDup (bg_ID <$> gens).
Proof.
  unfold listGenerations, bindR, bind. destruct (os_ReadDir F w) as [[[l|]|] w1] eqn:E; [|done|done].
  apply readdir_names in E. pose proof (list_each_ids (gens_dir mp) l w1 I) as Hids.
  destruct (list_each F scopeOf (gens_dir mp) l w1) as [[gs|] w2]; [|done]. intros [= <- _]. rewrite SliceStable_perm, Hids.
  eapply sublist_NoDup; [exact E|]. apply fmap_sublist. apply sublist_filter.
Qed.

(** Wherever a prune stops: what its listing puts among the newest [Keep], the
    generation it was told to protect and everything it did not list are as
    they were. *)
Lemma prune_spares mount cmd w r w' : BackupPrune F clock scopeOf order usage mount cmd w = (r, w') →
  tg_staging w' = tg_staging w ∧
  ∀ n, ents w' !! n = ents w !! n ∨
    ∃ mp gens w1 j g, mount = Ok mp ∧ 1 ≤ pc_Keep cmd ∧ listGenerations F scopeOf mp w = (Some (Ok gens), w1) ∧
      gens !! j = Some g ∧ bg_ID g = n ∧ pc_Keep cmd ≤ Z.of_nat j ∧ (pc_ProtectGenerationID cmd = EmptyString ∨ n ≠ pc_ProtectGenerationID cmd).
Proof.
  unfold BackupPrune. destruct (checkPartUUID _); [|intros [= _ <-]; auto].
  destruct (Z.ltb_spec (pc_Keep cmd) 1); [intros [= _ <-]; auto|].
  destruct mount as [mp|e]; [|destruct (errors_Is _ _); intros [= _ <-]; auto].
  destruct (listGenerations F scopeOf mp w) as [[[gens|e]|] w1] eqn:El.
  3: { unfold bind at 1. rewrite El. intros [= _ <-]. pose proof (keeps_listing (agree (λ _, True) w) mp w (agree_refl _ _)) as Hk. rewrite El in Hk.
       destruct Hk as [H1 H2]. split; [done|]. intros n. left. by apply H1. }
  2: { unfold bind at 1. rewrite El. pose proof (keeps_listing (agree (λ _, True) w) mp w (agree_refl _ _)) as Hk. rewrite El in Hk.
       destruct (os_IsNotExist e).
       - cbn [prune_each]. intros Hrun. assert (agree (λ _, True) w w') as [H1 H2]; [|split; [done|]; intros n; left; by apply H1].
         revert Hrun. unfold bindR, bind, ret. cbn [fst snd]. rewrite bool_decide_eq_true_2 by done.
         pose proof (keeps_usage (agree (λ _, True) w) w1 Hk) as Hd.
         destruct (disk_usage F usage w1) as [[|] w2]; by intros [= _ <-].
       - intros [= _ <-]. destruct Hk as [H1 H2]. split; [done|]. intros n. left. by apply H1. }
  pose proof (listing_nodup mp w gens w1 El) as Hnd. unfold bind at 1. rewrite El.
  set (K := λ n, ∀ j g, gens !! j = Some g → bg_ID g = n → kept_by cmd (Z.of_nat j) g = true).
  pose proof (keeps_listing (agree K w) mp w (agree_refl _ _)) as Hk. rewrite El in Hk.
  intros Hrun. assert (agree K w w') as [H1 H2].
  { assert (keeps (agree K w) (bindR (prune_each F clock order cmd 0 gens [] []) (λ kp,
      bind (if bool_decide (snd kp = []) then ret (Ok tt) else f_call F) (λ _, bind (disk_usage F usage) (λ du,
        ret (Ok (mkPruneAck true (pc_PartUUID cmd) (fst kp) (snd kp) (match du with Ok (_, f) => f | Fail _ => 0 end) EmptyString EmptyString))))))) as Hkk.
    { apply keeps_bindR; [|intros kp].
      - apply keeps_prune_each. intros j g Hj Hkept HK. rewrite Z.add_0_l in Hkept. specialize (HK j g Hj eq_refl). congruence.
      - apply keeps_bind; [case_bool_decide; [apply keeps_ret|apply keeps_call, _]|intros]. apply keeps_bind; [apply keeps_usage, _|intros]. apply keeps_ret. }
    specialize (Hkk w1 Hk). rewrite Hrun in Hkk. by destruct r. }
  split; [done|]. intros n. destruct (decide (n ∈ bg_ID <$> gens)) as [Hin|Hout].
  2: { left. apply H1. intros j g Hj <-. destruct Hout. apply list_elem_of_fmap. exists g. split; [done|]. by eapply list_elem_of_lookup_2. }
  apply list_elem_of_fmap in Hin as (g & -> & [j Hj]%list_elem_of_lookup).
  destruct (kept_by cmd (Z.of_nat j) g) eqn:Ek.
  - left. apply H1. intros j' g' Hj' Eid. assert (j' = j) as ->; [|congruence].
    eapply NoDup_lookup; [exact Hnd| |]; rewrite list_lookup_fmap; [by rewrite Hj'|]. rewrite Hj. cbn. by rewrite Eid.
  - right. unfold kept_by in Ek. apply orb_false_iff in Ek as [Ek1 Ek2]. apply Z.ltb_ge in Ek1.
    exists mp, gens, w1, j, g. split_and!; try done.
    destruct (String.eqb_spec (pc_ProtectGenerationID cmd) EmptyString) as [E0|E0]; [by left|right]. cbn in Ek2.
    intros E. rewrite E, String.eqb_refl in Ek2. done.
Qed.

(** ** With no call failing, a prune is exact and settles *)
Definition written_at (g : Gen) : Z := match g_archive g with Some (_, t) => t | None => g_mtime g end.
Definition gen_info (dir name : string) (g : Gen) : BackupGeneration :=
  mkGeneration name (filepath_Join [dir; name; BackupArchiveFile]) (filepath_Join [dir; name; BackupManifestFile])
    (match g_archive g with Some (c, _) => Z.of_nat (String.length c) | None => 0 end) EmptyString (written_at g)
    (match g_manifest g with
     | Some m => scopeOf (if Z.of_nat (String.length m) <=? 2 ^ 20 then m else take_str (Z.to_nat (2 ^ 20)) m)
     | None => EmptyString end).
Definition entry_info (dir : string) (m : gmap string Ent) (n : string) : option BackupGeneration :=
  match m !! n with Some (EDir g) => if HasPrefix n "." then None else Some (gen_info dir n g) | _ => None end.
(** The generations on the medium, newest first. *)
Definition listed (dir : string) (m : gmap string Ent) : list BackupGeneration :=
  SliceStable gen_newer (omap (entry_info dir m) (sort_Strings (map_to_list m).*1)).

Section quiet.
Context (quiet : ∀ n, F n = NoFault).

Lemma quiet_sys {A} (act : Target → result A * Target) w : sys F act w = (Some (fst (act (next w))), snd (act (next w))).
Proof using quiet. unfold sys. rewrite quiet. by destruct (act (next w)). Qed.

Lemma quiet_list_one dir name w g : ents w !! name = Some (EDir g) →
  ∃ w', list_one F scopeOf dir name w = (Some (gen_info dir name g), w') ∧ tg_gens w' = tg_gens w ∧ tg_staging w' = tg_staging w.
Proof using quiet.
  intros Hg. unfold list_one, stat_archive, read_manifest, dir_info, bind. rewrite quiet_sys. cbn [fst snd].
  change (ents (next w)) with (ents w). rewrite Hg. unfold gen_info, written_at.
  destruct g as [[[c t]|] om mem mt]; cbn [g_archive g_manifest g_mtime].
  - unfold ret. rewrite quiet_sys. cbn [fst snd]. change (ents (next (next w))) with (ents w). rewrite Hg.
    unfold byteCount. destruct (Z.ltb_spec (Z.of_nat (String.length c)) 0); [lia|]. eexists. split; [by destruct om|done].
  - rewrite quiet_sys. cbn [fst snd]. change (ents (next (next w))) with (ents w). rewrite Hg. unfold ret.
    rewrite quiet_sys. cbn [fst snd]. change (ents (next (next (next w)))) with (ents w). rewrite Hg.
    eexists. split; [by destruct om|done].
Qed.

Lemma quiet_list_each dir m ns w : tg_gens w = Some m →
  ∃ w', list_each F scopeOf dir ((λ n, (n, match m !! n with Some e => is_dir e | None => false end)) <$> ns) w = (Some (omap (entry_info dir m) ns), w') ∧
    tg_gens w' = tg_gens w ∧ tg_staging w' = tg_staging w.
Proof using quiet.
  revert w. induction ns as [|n ns IH]; intros w Hw; [by eexists|].
  rewrite fmap_cons. cbn [list_each].
  assert (omap (entry_info dir m) (n :: ns) = match entry_info dir m n with Some x => x :: omap (entry_info dir m) ns | None => omap (entry_info dir m) ns end) as -> by done.
  unfold entry_info at 1. destruct (m !! n) as [[g|]|] eqn:En; cbn [is_dir negb orb]; [|by apply IH..].
  destruct (HasPrefix n "."); [by apply IH|].
  destruct (quiet_list_one dir n w g) as (w1 & E1 & Hg1 & Hs1); [unfold ents; by rewrite Hw|].
  destruct (IH w1) as (w2 & E2 & Hg2 & Hs2); [congruence|].
  exists w2. unfold bind at 1. rewrite E1. unfold bind. rewrite E2. split; [done|]. split; congruence.
Qed.

Lemma quiet_listing mp w m : tg_gens w = Some m →
  ∃ w', listGenerations F scopeOf mp w = (Some (Ok (listed (gens_dir mp) m)), w') ∧ tg_gens w' = Some m ∧ tg_staging w' = tg_staging w.
Proof using quiet.
  intros Hw. unfold listGenerations, bindR, bind, os_ReadDir. rewrite quiet_sys. cbn [fst snd].
  change (tg_gens (next w)) with (tg_gens w). rewrite Hw.
  destruct (quiet_list_each (gens_dir mp) m (sort_Strings (map_to_list m).*1) (next w)) as (w' & E & Hg & Hs); [done|].
  rewrite E. exists w'. split; [done|]. split; [by rewrite Hg|done].
Qed.

Lemma quiet_remove_items name l w m g : tg_gens w = Some m → m !! name = Some (EDir g) →
  ∃ w' g', remove_items F clock name l (Ok tt) w = (Some (Ok tt), w') ∧ tg_gens w' = Some (<[name := EDir g']> m) ∧ tg_staging w' = tg_staging w ∧
    (g_archive g' = None ↔ g_archive g = None ∨ IArchive ∈ l) ∧ (g_manifest g' = None ↔ g_manifest g = None ∨ IManifest ∈ l) ∧
    (∀ p, g_members g' !! p = None ↔ g_members g !! p = None ∨ IMember p ∈ l).
Proof using All.
  revert w m g. induction l as [|it l IH]; intros w m g Hw Hm.
  { exists w, g. rewrite insert_id by done. split_and!; try done; [..|intros p]; rewrite elem_of_nil; naive_solver. }
  cbn [remove_items]. unfold remove_item, bind. rewrite quiet_sys. cbn [fst snd].
  set (t := clock _). set (w1 := upd_gen name (drop_item it t) (next w)).
  assert (tg_gens w1 = Some (<[name := EDir (drop_item it t g)]> m)) as Hw1.
  { unfold w1, upd_gen. change (tg_gens (next w)) with (tg_gens w). rewrite Hw. cbn [tg_gens set_gens]. f_equal.
    apply map_eq. intros n. destruct (decide (n = name)) as [->|Hn]; [by rewrite lookup_alter_eq, Hm, lookup_insert_eq|].
    by rewrite lookup_alter_ne, lookup_insert_ne. }
  destruct (IH w1 _ (drop_item it t g) Hw1) as (w2 & g2 & E & Hg2 & Hs2 & H1 & H2 & H3); [by rewrite lookup_insert_eq|].
  exists w2, g2. split; [exact E|]. split; [by rewrite Hg2, insert_insert_eq|]. split; [by rewrite Hs2; unfold w1; rewrite upd_gen_staging|].
  split_and!; [rewrite H1|rewrite H2|intros p; rewrite H3]; clear H1 H2 H3 IH; rewrite elem_of_cons; destruct it; cbn; try naive_solver.
  destruct (decide (p = path)) as [->|Hp]; [rewrite lookup_delete_eq|rewrite lookup_delete_ne by done]; naive_solver.
Qed.

Lemma items_of_nil g : items_of g = [] ↔ g_archive g = None ∧ g_manifest g = None ∧ ∀ p, g_members g !! p = None.
Proof using All.
  unfold items_of. destruct (g_archive g), (g_manifest g); cbn; try naive_solver.
  split.
  - intros H%fmap_nil_inv%fmap_nil_inv%map_to_list_empty_iff. rewrite H. done.
  - intros (_ & _ & H). assert (g_members g = ∅) as -> by (apply map_eq; intros p; by rewrite H, lookup_empty). by rewrite map_to_list_empty.
Qed.

Lemma items_of_in g : (g_archive g ≠ None → IArchive ∈ items_of g) ∧ (g_manifest g ≠ None → IManifest ∈ items_of g) ∧
  ∀ p, g_members g !! p ≠ None → IMember p ∈ items_of g.
Proof using All.
  unfold items_of. split_and!.
  - destruct (g_archive g); [intros _; left|done].
  - destruct (g_manifest g); [intros _|done]. apply elem_of_app. right. left.
  - intros p Hp. apply elem_of_app. right. apply elem_of_app. right. apply list_elem_of_fmap. exists p. split; [done|].
    destruct (g_members g !! p) as [c|] eqn:E; [|done]. apply list_elem_of_fmap. exists (p, c). split; [done|]. by apply elem_of_map_to_list.
Qed.

Lemma quiet_RemoveAll name w m e : (∀ l, order l ≡ₚ l) → tg_gens w = Some m → m !! name = Some e →
  ∃ w', os_RemoveAll F clock order name w = (Some (Ok tt), w') ∧ tg_gens w' = Some (delete name m) ∧ tg_staging w' = tg_staging w.
Proof using All.
  intros Hord Hw Hm. unfold os_RemoveAll, ents. rewrite Hw. cbn [default from_option id]. rewrite Hm. destruct e as [g|].
  - destruct (quiet_remove_items name (order (items_of g)) w m g Hw Hm) as (w1 & g1 & E & Hg & Hs & H1 & H2 & H3).
    unfold bindR, bind. rewrite E. unfold rmdir. rewrite quiet_sys. cbn [fst snd]. change (tg_gens (next w1)) with (tg_gens w1).
    rewrite Hg, lookup_insert_eq. assert (items_of g1 = []) as Hnil.
    { destruct (items_of_in g) as (I1 & I2 & I3). apply items_of_nil. split_and!; [apply H1|apply H2|intros p; apply H3]; rewrite Hord.
      - destruct (decide (g_archive g = None)); auto.
      - destruct (decide (g_manifest g = None)); auto.
      - destruct (decide (g_members g !! p = None)); auto. }
    rewrite bool_decide_eq_true_2 by done. eexists. split; [reflexivity|]. cbn [snd tg_gens set_gens tg_staging]. split; [|exact Hs].
    by rewrite delete_insert_eq.
  - unfold rmdir. rewrite quiet_sys. cbn [fst snd]. change (tg_gens (next w)) with (tg_gens w). rewrite Hw, Hm. by eexists.
Qed.

(** The names on each side of the retention line. *)
Fixpoint split_kept (cmd : PruneCmd) (i : Z) (gens : list BackupGeneration) : list string * list string :=
  match gens with
  | [] => ([], [])
  | g :: gens =>
      let '(k, p) := split_kept cmd (i + 1) gens in
      if kept_by cmd i g then (bg_ID g :: k, p) else (k, bg_ID g :: p)
  end.

Lemma quiet_prune_each cmd i gens kept pruned w m : (∀ l, order l ≡ₚ l) → tg_gens w = Some m → NoDup (bg_ID <$> gens) →
  (∀ g, g ∈ gens → is_Some (m !! bg_ID g)) →
  ∃ w' m', prune_each F clock order cmd i gens kept pruned w =
    (Some (Ok (kept ++ fst (split_kept cmd i gens), pruned ++ snd (split_kept cmd i gens))), w') ∧
    tg_gens w' = Some m' ∧ tg_staging w' = tg_staging w ∧
    ∀ n, m' !! n = if decide (n ∈ snd (split_kept cmd i gens)) then None else m !! n.
Proof using All.
  intros Hord. revert i kept pruned w m. induction gens as [|g gens IH]; intros i kept pruned w m Hw Hnd Hall; cbn [prune_each split_kept].
  { exists w, m. cbn [fst snd]. rewrite !(right_id_L [] (++)). by split_and!. }
  cbn in Hnd. apply NoDup_cons in Hnd as [Hg Hnd]. destruct (split_kept cmd (i + 1) gens) as [k p] eqn:Es. cbn [fst snd] in *.
  destruct (kept_by cmd i g).
  - destruct (IH (i + 1) (kept ++ [bg_ID g]) pruned w m Hw Hnd) as (w' & m' & E & Hrest); [intros; apply Hall; by right|].
    rewrite Es in E, Hrest. cbn [fst snd] in *. exists w', m'. rewrite E, <- (assoc_L (++)). done.
  - destruct (Hall g) as [e He]; [left|]. destruct (quiet_RemoveAll (bg_ID g) w m e Hord Hw He) as (w1 & E1 & Hg1 & Hs1).
    unfold bind. rewrite E1.
    destruct (IH (i + 1) kept (pruned ++ [bg_ID g]) w1 _ Hg1 Hnd) as (w' & m' & E & Hg' & Hs' & Hlook).
    { intros x Hx. rewrite lookup_delete_ne; [apply Hall; by right|]. intros Eq. apply Hg. rewrite Eq. by apply list_elem_of_fmap_2. }
    rewrite Es in E, Hlook. cbn [fst snd] in *. exists w', m'. rewrite E, <- (assoc_L (++)). split_and!; [done|done|congruence|].
    intros n. rewrite Hlook. destruct (decide (n = bg_ID g)) as [->|Hn].
    + rewrite (decide_True (P := bg_ID g ∈ bg_ID g :: p)) by left. rewrite lookup_delete_eq. by destruct (decide _).
    + rewrite lookup_delete_ne by done. destruct (decide (n ∈ p)) as [Hp|Hp].
      * by rewrite decide_True by (by right).
      * rewrite decide_False; [done|]. by intros [?|?]%elem_of_cons.
Qed.

(** The order of the listing. *)
Lemma gen_newer_asym a b : gen_newer a b = true → gen_newer b a = false.
Proof using Type.
  unfold gen_newer. rewrite (Z.eqb_sym (bg_WrittenAt b)). destruct (Z.eqb_spec (bg_WrittenAt a) (bg_WrittenAt b)); cbn [negb].
  - apply ltb_asym.
  - rewrite Z.ltb_lt, Z.ltb_ge. lia.
Qed.
Lemma not_after_newer a b : not_after gen_newer a b ↔
  bg_WrittenAt b < bg_WrittenAt a ∨ bg_WrittenAt a = bg_WrittenAt b ∧ string_le (bg_ID b) (bg_ID a).
Proof using Type.
  unfold not_after, gen_newer. destruct (Z.eqb_spec (bg_WrittenAt b) (bg_WrittenAt a)) as [E|E]; cbn [negb].
  - rewrite ltb_false_le. naive_solver lia.
  - rewrite Z.ltb_ge. naive_solver lia.
Qed.
Lemma not_after_trans a b c : not_after gen_newer a b → not_after gen_newer b c → not_after gen_newer a c.
Proof using Type.
  rewrite !not_after_newer. intros [?|[? ?]] [?|[? ?]]; [left; lia..|]. right. split; [lia|]. by transitivity (bg_ID b).
Qed.

Lemma sorted_names (m m' : gmap string Ent) (Q : string → Prop) `{!∀ n, Decision (Q n)} :
  (∀ n, m' !! n = if decide (Q n) then m !! n else None) →
  sort_Strings (map_to_list m').*1 = filter Q (sort_Strings (map_to_list m).*1).
Proof using All.
  intros Hm'. assert (∀ l, StronglySorted string_le (sort_Strings l)) as Hsort.
  { intros l. apply Sorted_StronglySorted; [apply _|]. apply Sorted_merge_sort; apply _. }
  apply (StronglySorted_unique string_le); [done| |].
  - pose proof (Hsort (map_to_list m).*1) as Hs. induction Hs as [|n l Hl IH Hn]; [constructor|]. rewrite filter_cons.
    destruct (decide (Q n)); [|done]. constructor; [done|]. rewrite Forall_forall in Hn. apply Forall_forall.
    intros x [_ Hx]%list_elem_of_filter. by apply Hn.
  - rewrite sort_Strings_perm. apply NoDup_Permutation.
    + apply NoDup_fst_map_to_list.
    + apply NoDup_filter. rewrite sort_Strings_perm. apply NoDup_fst_map_to_list.
    + intros n. rewrite list_elem_of_filter, sort_Strings_perm.
      assert (∀ mm : gmap string Ent, n ∈ (map_to_list mm).*1 ↔ is_Some (mm !! n)) as Hin.
      { intros mm. rewrite list_elem_of_fmap. split; [intros ([? e] & -> & He%elem_of_map_to_list); by exists e|].
        intros [e He]. exists (n, e). split; [done|]. by apply elem_of_map_to_list. }
      rewrite !Hin, Hm'. destruct (decide (Q n)); naive_solver.
Qed.

Lemma listed_after dir m m' (P : list string) : (∀ n, m' !! n = if decide (n ∈ P) then None else m !! n) →
  listed dir m' = filter (λ g, bg_ID g ∉ P) (listed dir m).
Proof using All.
  intros Hm'. unfold listed. rewrite <- (SliceStable_filter gen_newer gen_newer_asym not_after_trans). f_equal.
  rewrite (sorted_names m m' (λ n, n ∉ P)).
  2: { intros n. rewrite Hm'. destruct (decide (n ∈ P)); [by rewrite decide_False by auto|by rewrite decide_True by auto]. }
  induction (sort_Strings (map_to_list m).*1) as [|n l IH]; [done|]. rewrite filter_cons.
  assert (∀ (mm : gmap string Ent) x l, omap (entry_info dir mm) (x :: l) = match entry_info dir mm x with Some y => y :: omap (entry_info dir mm) l | None => omap (entry_info dir mm) l end) as Hcons by done.
  assert (∀ y, entry_info dir m n = Some y → bg_ID y = n) as Hid.
  { intros y. unfold entry_info. destruct (m !! n) as [[g|]|]; try done. destruct (HasPrefix n "."); [done|]. by intros [= <-]. }
  rewrite (Hcons m). destruct (decide (n ∉ P)) as [Hn|Hn].
  - rewrite Hcons, IH. assert (entry_info dir m' n = entry_info dir m n) as -> by (unfold entry_info; by rewrite Hm', decide_False).
    destruct (entry_info dir m n) as [y|]; [|done]. rewrite (filter_cons (λ g, bg_ID g ∉ P)), decide_True; [done|]. by rewrite (Hid y).
  - rewrite IH. destruct (entry_info dir m n) as [y|]; [|done]. rewrite (filter_cons (λ g, bg_ID g ∉ P)), decide_False; [done|]. by rewrite (Hid y).
Qed.

Lemma split_kept_again cmd gens i i' (Q : BackupGeneration → Prop) `{!∀ g, Decision (Q g)} : i' ≤ i →
  (∀ j g, gens !! j = Some g → (Q g ↔ kept_by cmd (i + Z.of_nat j) g = true)) →
  split_kept cmd i' (filter Q gens) = (fst (split_kept cmd i gens), []).
Proof using All.
  revert i i'. induction gens as [|g gens IH]; intros i i' Hi HQ; [done|]. rewrite filter_cons. cbn [split_kept].
  assert (∀ j g, gens !! j = Some g → (Q g ↔ kept_by cmd (i + 1 + Z.of_nat j) g = true)) as HQ'.
  { intros j g' Hj. rewrite (HQ (S j) g' Hj). by replace (i + 1 + Z.of_nat j) with (i + Z.of_nat (S j)) by lia. }
  specialize (HQ 0%nat g eq_refl). rewrite Z.add_0_r in HQ. destruct (split_kept cmd (i + 1) gens) as [k p] eqn:Es.
  destruct (decide (Q g)) as [Hq|Hq].
  - cbn [split_kept]. rewrite (IH (i + 1) (i' + 1)) by (lia || done). rewrite Es. rewrite (proj1 HQ Hq).
    assert (kept_by cmd i' g = true) as ->; [|done]. apply HQ in Hq. unfold kept_by in *. apply orb_true_iff in Hq as [Hq|Hq]; apply orb_true_iff; [left|by right].
    apply Z.ltb_lt in Hq. apply Z.ltb_lt. lia.
  - rewrite (IH (i + 1) i') by (lia || done). rewrite Es. destruct (kept_by cmd i g); [by destruct Hq; apply HQ|done].
Qed.

Lemma split_kept_listed cmd gens i n : n ∈ snd (split_kept cmd i gens) → n ∈ bg_ID <$> gens.
Proof using All.
  revert i. induction gens as [|g gens IH]; intros i; cbn [split_kept]; [done|]. specialize (IH (i + 1)).
  destruct (split_kept cmd (i + 1) gens) as [k p]. cbn [snd] in IH. rewrite fmap_cons, elem_of_cons. destruct (kept_by cmd i g); cbn [snd]; [auto|].
  intros [?|?]%elem_of_cons; auto.
Qed.

Lemma split_kept_pruned cmd gens i j g : NoDup (bg_ID <$> gens) → gens !! j = Some g →
  (bg_ID g ∉ snd (split_kept cmd i gens) ↔ kept_by cmd (i + Z.of_nat j) g = true).
Proof using All.
  revert i j. induction gens as [|x gens IH]; intros i j Hnd Hj; [done|]. cbn in Hnd. apply NoDup_cons in Hnd as [Hx Hnd].
  cbn [split_kept]. pose proof (split_kept_listed cmd gens (i + 1) (bg_ID g)) as Hsub. specialize (IH (i + 1)).
  destruct (split_kept cmd (i + 1) gens) as [k p] eqn:Es. cbn [snd] in *. destruct j as [|j].
  - injection Hj as ->. rewrite Z.add_0_r. destruct (kept_by cmd i g); cbn [snd]; [split; [done|]; intros _ Hp; by apply Hx, Hsub|].
    split; [|done]. intros H. destruct H. left.
  - cbn in Hj. replace (i + Z.of_nat (S j)) with (i + 1 + Z.of_nat j) by lia. rewrite <- (IH j Hnd Hj).
    destruct (kept_by cmd i x); cbn [snd]; [done|]. rewrite not_elem_of_cons. split; [by intros [_ ?]|]. intros Hp. split; [|done].
    intros E. apply Hx. rewrite <- E. apply list_elem_of_fmap_2. by eapply list_elem_of_lookup_2.
Qed.

Lemma entry_listed dir m g : g ∈ listed dir m → is_Some (m !! bg_ID g).
Proof using All.
  unfold listed. rewrite SliceStable_perm, list_elem_of_omap. intros (n & _ & E). unfold entry_info in E.
  destruct (m !! n) as [[x|]|] eqn:En; try done. destruct (HasPrefix n "."); [done|]. injection E as <-. cbn. by rewrite En.
Qed.

Lemma quiet_prune mp cmd w m : (∀ l, order l ≡ₚ l) → safePartUUID (pc_PartUUID cmd) = true → 1 ≤ pc_Keep cmd → tg_gens w = Some m →
  let sp := split_kept cmd 0 (listed (gens_dir mp) m) in
  ∃ ack w' m', BackupPrune F clock scopeOf order usage (Ok mp) cmd w = (Some (Ok ack), w') ∧ tg_gens w' = Some m' ∧
    pk_OK ack = true ∧ pk_Kept ack = fst sp ∧ pk_Pruned ack = snd sp ∧ ∀ n, m' !! n = if decide (n ∈ snd sp) then None else m !! n.
Proof using All.
  intros Hord Hid Hkeep Hw sp. unfold BackupPrune, checkPartUUID. rewrite Hid. cbn [negb]. destruct (Z.ltb_spec (pc_Keep cmd) 1); [lia|].
  destruct (quiet_listing mp w m Hw) as (w1 & El & Hg1 & Hs1). pose proof (listing_nodup mp w _ w1 El) as Hnd.
  destruct (quiet_prune_each cmd 0 (listed (gens_dir mp) m) [] [] w1 m Hord Hg1 Hnd) as (w2 & m' & E & Hg2 & Hs2 & Hm').
  { intros g Hg. by eapply entry_listed. }
  unfold bindR, bind. rewrite El, E. cbn [app fst snd]. fold sp in E, Hm' |- *.
  case_bool_decide as Hp; [|unfold f_call; rewrite quiet_sys]; unfold ret, disk_usage; cbn [fst snd]; rewrite quiet_sys;
    eexists _, _, m'; (split; [reflexivity|]); by split_and!.
Qed.
End quiet.

(** ** What is newest, said of the medium

    A generation is a directory whose name does not start with a dot.  It is
    newer than another when its archive was written later (the directory's own
    time standing in when the archive is missing), the greater name deciding a
    tie.  [rank] counts the generations of the medium that are newer. *)
Definition generation (m : gmap string Ent) (n : string) (g : Gen) : Prop :=
  m !! n = Some (EDir g) ∧ HasPrefix n "." = false.
Definition newer_gen (n' : string) (g' : Gen) (n : string) (g : Gen) : Prop :=
  written_at g < written_at g' ∨ written_at g = written_at g' ∧ n ≠ n' ∧ string_le n n'.
Definition newer_entry (n : string) (g : Gen) (x : string * Ent) : Prop :=
  match x.2 with EDir g' => HasPrefix x.1 "." = false ∧ newer_gen x.1 g' n g | EFile => False end.
#[export] Instance newer_entry_dec n g x : Decision (newer_entry n g x).
Proof. unfold newer_entry, newer_gen. destruct x as [n' []]; apply _. Defined.
Definition rank (m : gmap string Ent) (n : string) (g : Gen) : nat :=
  length (filter (newer_entry n g) (map_to_list m)).

(** What a retention of [Keep] with a protected generation leaves. *)
Definition to_keep (cmd : PruneCmd) (m : gmap string Ent) (n : string) (g : Gen) : Prop :=
  Z.of_nat (rank m n g) < pc_Keep cmd ∨ n = pc_ProtectGenerationID cmd ∧ n ≠ EmptyString.

#[export] Instance to_keep_dec cmd m n g : Decision (to_keep cmd m n g).
Proof. unfold to_keep. apply _. Defined.

Definition newer_info (a b : BackupGeneration) : Prop :=
  bg_WrittenAt b < bg_WrittenAt a ∨ bg_WrittenAt b = bg_WrittenAt a ∧ bg_ID b ≠ bg_ID a ∧ string_le (bg_ID b) (bg_ID a).
#[export] Instance newer_info_dec a b : Decision (newer_info a b).
Proof. unfold newer_info. apply _. Defined.

Lemma newer_info_asym a b : newer_info a b → ¬ newer_info b a.
Proof. unfold newer_info. intros [?|(? & Hne & ?)] [?|(? & _ & ?)]; try lia. apply Hne. by apply (anti_symm string_le). Qed.

(** In a strictly sorted list the position of an entry counts what precedes it. *)
Lemma sorted_position l j g : StronglySorted newer_info l → l !! j = Some g → length (filter (λ x, newer_info x g) l) = j.
Proof.
  intros Hs. revert j. induction Hs as [|x l Hl IH Hx]; intros j Hj; [done|]. rewrite Forall_forall in Hx. rewrite filter_cons.
  destruct j as [|j]; cbn in Hj.
  - injection Hj as ->. rewrite decide_False by (intros H; exact (newer_info_asym _ _ H H)).
    assert (filter (λ x, newer_info x g) l = []) as ->; [|done]. apply elem_of_nil_inv. intros y [Hy1 Hy2]%list_elem_of_filter. exact (newer_info_asym _ _ (Hx y Hy2) Hy1).
  - rewrite decide_True by (apply Hx; by eapply list_elem_of_lookup_2). cbn. f_equal. by apply IH.
Qed.

Lemma sorted_strict l : NoDup (bg_ID <$> l) → StronglySorted (not_after gen_newer) l → StronglySorted newer_info l.
Proof.
  intros Hnd Hs. induction Hs as [|x l Hl IH Hx]; [constructor|]. cbn in Hnd. apply NoDup_cons in Hnd as [Hn Hnd].
  constructor; [by apply IH|]. rewrite Forall_forall in Hx |- *. intros y Hy. destruct (proj1 (not_after_newer x y) (Hx y Hy)) as [?|[? ?]]; [by left|right].
  split_and!; [done| |done]. intros E. apply Hn. rewrite <- E. by apply list_elem_of_fmap_2.
Qed.

(** The listing's entries are the medium's generations. *)
Lemma entry_info_Some dir m n i : entry_info dir m n = Some i ↔ ∃ g, generation m n g ∧ i = gen_info dir n g.
Proof.
  unfold entry_info, generation. destruct (m !! n) as [[g|]|]; [destruct (HasPrefix n ".")|..]; naive_solver.
Qed.

Lemma filter_entries dir m n g (l : list (string * Ent)) : (∀ x, x ∈ l → m !! x.1 = Some x.2) →
  length (filter (λ i, newer_info i (gen_info dir n g)) (omap (entry_info dir m) l.*1)) = length (filter (newer_entry n g) l).
Proof.
  induction l as [|[n' e] l IH]; intros Hl; [done|]. specialize (IH (λ x Hx, Hl x (list_elem_of_further _ _ _ Hx))).
  assert (m !! n' = Some e) as He by (apply (Hl (n', e)), list_elem_of_here).
  rewrite fmap_cons. cbn [fst]. rewrite (filter_cons (newer_entry n g)).
  assert (omap (entry_info dir m) (n' :: l.*1) = match entry_info dir m n' with Some x => x :: omap (entry_info dir m) l.*1 | None => omap (entry_info dir m) l.*1 end) as -> by done.
  unfold entry_info at 1. rewrite He. destruct e as [g'|].
  - destruct (HasPrefix n' ".") eqn:Ep.
    + rewrite decide_False; [done|]. intros [H _]. cbn in H. congruence.
    + rewrite filter_cons. assert (newer_info (gen_info dir n' g') (gen_info dir n g) ↔ newer_entry n g (n', EDir g')) as Hiff.
      { unfold newer_info, newer_entry, newer_gen. cbn. naive_solver. }
      destruct (decide (newer_info _ _)) as [H|H], (decide (newer_entry n g _)) as [H'|H']; cbn; naive_solver.
  - by rewrite decide_False by (by intros []).
Qed.

Lemma listed_position dir m n g : generation m n g → NoDup (bg_ID <$> listed dir m) → listed dir m !! rank m n g = Some (gen_info dir n g).
Proof.
  intros Hg Hnd. assert (gen_info dir n g ∈ listed dir m) as Hin.
  { unfold listed. rewrite SliceStable_perm, list_elem_of_omap. exists n. split; [|by apply entry_info_Some; exists g].
    rewrite sort_Strings_perm. apply list_elem_of_fmap. exists (n, EDir g). split; [done|]. apply elem_of_map_to_list. by destruct Hg. }
  apply list_elem_of_lookup in Hin as [j Hj]. assert (j = rank m n g) as <-; [|done].
  assert (StronglySorted newer_info (listed dir m)) as Hs.
  { apply sorted_strict; [done|]. apply SliceStable_sorted; [apply gen_newer_asym|apply not_after_trans]. }
  rewrite <- (sorted_position _ j _ Hs Hj). unfold rank. rewrite <- (filter_entries dir m) by (intros [? ?]; apply elem_of_map_to_list).
  apply Permutation_length. unfold listed. by rewrite SliceStable_perm, sort_Strings_perm.
Qed.

Lemma listed_generation dir m i : i ∈ listed dir m → ∃ g, generation m (bg_ID i) g.
Proof.
  unfold listed. rewrite SliceStable_perm, list_elem_of_omap. intros (n & _ & (g & Hg & ->)%entry_info_Some). by exists g.
Qed.

(** C37. A prune on a target whose calls do not fail is exact and settles.  Of
    the generations on the medium it keeps those with fewer than [Keep] newer
    ones (by the time their archive was written, the greater name deciding a
    tie) and the protected one, and deletes every other; it touches nothing
    that is not a generation, its answer names what it deleted, and the same
    command run again deletes nothing and keeps the same generations. *)
Theorem retention_settles mp cmd w m : (∀ n, F n = NoFault) → (∀ l, order l ≡ₚ l) →
  safePartUUID (pc_PartUUID cmd) = true → 1 ≤ pc_Keep cmd → tg_gens w = Some m →
  ∃ ack w' m', BackupPrune F clock scopeOf order usage (Ok mp) cmd w = (Some (Ok ack), w') ∧ tg_gens w' = Some m' ∧ pk_OK ack = true ∧
    (∀ n g, generation m n g →
       (n ∈ pk_Pruned ack ↔ ¬ to_keep cmd m n g) ∧
       (to_keep cmd m n g → m' !! n = m !! n) ∧ (¬ to_keep cmd m n g → m' !! n = None)) ∧
    (∀ n, (∀ g, ¬ generation m n g) → m' !! n = m !! n) ∧
    ∃ ack' w'', BackupPrune F clock scopeOf order usage (Ok mp) cmd w' = (Some (Ok ack'), w'') ∧ tg_gens w'' = Some m' ∧
      pk_Pruned ack' = [] ∧ pk_Kept ack' = pk_Kept ack.
Proof.
  intros quiet Hord Hid Hkeep Hw.
  destruct (quiet_prune quiet mp cmd w m Hord Hid Hkeep Hw) as (ack & w' & m' & E & Hg & Hok & Hk & Hp & Hm').
  destruct (quiet_listing quiet mp w m Hw) as (w1 & El & _). pose proof (listing_nodup mp w _ w1 El) as Hnd.
  exists ack, w', m'. split_and!; [done|done|done| | |].
  - intros n g Hgen. pose proof (listed_position (gens_dir mp) m n g Hgen Hnd) as Hj.
    pose proof (split_kept_pruned quiet cmd _ 0 _ _ Hnd Hj) as Hpr. change (bg_ID (gen_info (gens_dir mp) n g)) with n in Hpr.
    assert (kept_by cmd (0 + Z.of_nat (rank m n g)) (gen_info (gens_dir mp) n g) = true ↔ to_keep cmd m n g) as Hkb.
    { unfold kept_by, to_keep. rewrite Z.add_0_l, orb_true_iff, Z.ltb_lt, andb_true_iff, negb_true_iff, String.eqb_eq, String.eqb_neq. cbn. naive_solver congruence. }
    rewrite Hkb, <- Hp in Hpr. rewrite Hm', <- Hp.
    rewrite <- Hpr. destruct (decide (n ∈ pk_Pruned ack)) as [H|H]; naive_solver.
  - intros n Hn. rewrite Hm', decide_False; [done|]. intros (i & -> & Hi)%(split_kept_listed quiet)%list_elem_of_fmap.
    apply listed_generation in Hi as [g Hgen]. by apply (Hn g).
  - destruct (quiet_prune quiet mp cmd w' m' Hord Hid Hkeep Hg) as (ack' & w'' & m'' & E' & Hg' & _ & Hk' & Hp' & Hm'').
    rewrite (listed_after quiet _ m m' (snd (split_kept cmd 0 (listed (gens_dir mp) m))) Hm') in Hk', Hp', Hm''.
    rewrite (split_kept_again quiet cmd (listed (gens_dir mp) m) 0 0) in Hk', Hp', Hm'' by (lia || (intros; by apply (split_kept_pruned quiet))).
    exists ack', w''. cbn [fst snd] in *. split_and!; [done| |done|congruence]. rewrite Hg'. f_equal. apply map_eq. intros n. rewrite Hm''. by rewrite decide_False by apply not_elem_of_nil.
Qed.
End facts.

(** Three generations, the oldest first. *)
Definition three_generations : Target :=
  let gen t := EDir (mkGen (Some ("sealed", t)) (Some "{}") ∅ t) in
  mkTarget 0 (Some (<["g1" := gen 1]> (<["g2" := gen 2]> (<["g3" := gen 3]> ∅)))) ∅.
Definition keep_two : PruneCmd := mkPruneCmd "0a1b-2c" 2 "g3".

Lemma retention_settles_witness : ∃ ack (m' : gmap string Ent), m' !! "g1" ≠ (ents three_generations) !! "g1" ∧ m' !! "g2" = (ents three_generations) !! "g2" ∧
  fst (BackupPrune (λ _, NoFault) (λ n, 100 + Z.of_nat n) (λ _, "full") id (λ _, (100, 50)) (Ok "/mnt") keep_two three_generations) = Some (Ok ack) ∧ pk_OK ack = true.
Proof.
  destruct (retention_settles (λ _, NoFault) (λ n, 100 + Z.of_nat n) (λ _, "full") id (λ _, (100, 50)) "/mnt" keep_two three_generations
    (ents three_generations)) as (ack & w' & m' & E & _ & Hok & Hl & _); [done|done|vm_compute; reflexivity|done|done|].
  destruct (Hl "g1" (mkGen (Some ("sealed", 1)) (Some "{}") ∅ 1)) as (_ & _ & H1); [by vm_compute|].
  destruct (Hl "g2" (mkGen (Some ("sealed", 2)) (Some "{}") ∅ 2)) as (_ & H2 & _); [by vm_compute|].
  exists ack, m'. split; [|split; [|split]].
  - rewrite H1; [vm_compute; discriminate|]. apply (bool_decide_unpack _). vm_compute. exact I.
  - apply H2. apply (bool_decide_unpack _). vm_compute. exact I.
  - by rewrite E.
  - exact Hok.
Defined.

(** A prune the power stops between an unlink and the next leaves a directory
    with no archive, stamped with the time of the unlink: the next listing puts
    what is left of the oldest generation first, and a prune with the same
    command takes a whole generation in its place. *)
Example half_deleted_takes_a_whole_one :
  let half := snd (BackupPrune (λ n, if Nat.eqb n 8 then PowerLoss 0 else NoFault) (λ n, 100 + Z.of_nat n) (λ _, "full") id (λ _, (100, 50)) (Ok "/mnt") keep_two three_generations) in
  ents half !! "g1" = Some (EDir (mkGen None (Some "{}") ∅ 108)) ∧
  match fst (BackupPrune (λ _, NoFault) (λ n, 100 + Z.of_nat n) (λ _, "full") id (λ _, (100, 50)) (Ok "/mnt") keep_two half) with
  | Some (Ok ack) => pk_Kept ack = ["g1"; "g3"] ∧ pk_Pruned ack = ["g2"]
  | _ => False
  end.
Proof. vm_compute. auto. Qed.

(** ** The sweep takes staged files only, and takes every one it can *)
Lemma keeps_clean_each F gens l removed freed : keeps (λ w, tg_gens w = gens) (clean_each F l removed freed).
Proof.
  assert (Timeless (λ w, tg_gens w = gens)) as Ht by (by intros w).
  revert removed freed. induction l as [|name l IH]; intros removed freed; cbn [clean_each]; [apply keeps_ret|].
  apply keeps_bind; [by apply keeps_look|]. intros [bytes|e]; [|apply IH].
  apply keeps_bind; [by apply keeps_sys|]. intros [u|e]; apply IH.
Qed.

Lemma sweep_spares F w : tg_gens (snd (CleanStaging F w)) = tg_gens w.
Proof.
  apply (keeps_final (λ w', tg_gens w' = tg_gens w)); [|done].
  assert (Timeless (λ w', tg_gens w' = tg_gens w)) as Ht by (by intros w').
  apply keeps_bind; [by apply keeps_look|]. intros [l|e]; [apply keeps_clean_each|apply keeps_ret].
Qed.

Lemma quiet_clean F l : (∀ n, F n = NoFault) → NoDup l → ∀ w removed freed, (∀ n, n ∈ l → is_Some (tg_staging w !! n)) →
  ∃ freed' w', clean_each F l removed freed w = (Some (removed + Z.of_nat (length l), freed'), w') ∧
    ∀ n, tg_staging w' !! n = if decide (n ∈ l) then None else tg_staging w !! n.
Proof.
  intros Hq. induction 1 as [|name l Hn Hl IH]; intros w removed freed Hin.
  - exists freed, w. split; [by rewrite Z.add_0_r|]. intros n. by rewrite decide_False by apply not_elem_of_nil.
  - destruct (Hin name) as [b Hb]; [left|]. cbn [clean_each]. unfold bind at 1, read_staged. rewrite (quiet_sys F Hq). cbn [fst snd].
    change (tg_staging (next w)) with (tg_staging w). rewrite Hb. unfold bind at 1. rewrite (quiet_sys F Hq). cbn [fst snd].
    set (w1 := mkTarget _ _ _). destruct (IH w1 (removed + 1) (freed + Z.of_nat (String.length b))) as (freed' & w' & E & Hw').
    { intros n Hnl. cbn. rewrite lookup_delete_ne by (by intros ->). apply Hin. by right. }
    exists freed', w'. split; [rewrite E; do 3 f_equal; cbn; lia|]. intros n. rewrite Hw'. cbn [w1 tg_staging].
    destruct (decide (n = name)) as [->|Hne].
    + rewrite lookup_delete_eq, (decide_True (P:=name ∈ name :: l)) by left. by destruct (decide (name ∈ l)).
    + change (tg_staging (next (next w))) with (tg_staging w). rewrite lookup_delete_ne by congruence.
      destruct (decide (n ∈ l)) as [Hnl|Hnl]; [by rewrite decide_True by (by right)|]. rewrite decide_False; [done|]. by intros [?|?]%elem_of_cons.
Qed.

(** With no call failing the sweep leaves the staging root empty and counts
    what it took. *)
Lemma sweep_empties F w : (∀ n, F n = NoFault) →
  ∃ freed w', CleanStaging F w = (Some (Z.of_nat (size (tg_staging w)), freed), w') ∧ tg_staging w' = ∅.
Proof.
  intros Hq. unfold CleanStaging, bind. rewrite (quiet_sys F Hq). cbn [fst snd]. change (tg_staging (next w)) with (tg_staging w).
  assert (∀ n, n ∈ sort_Strings (map_to_list (tg_staging w)).*1 ↔ is_Some (tg_staging w !! n)) as Hn.
  { intros n. rewrite sort_Strings_perm, list_elem_of_fmap. split; [intros ([? b] & -> & Hb%elem_of_map_to_list); by exists b|].
    intros [b Hb]. exists (n, b). split; [done|]. by apply elem_of_map_to_list. }
  destruct (quiet_clean F (sort_Strings (map_to_list (tg_staging w)).*1) Hq) with (w := next w) (removed := 0) (freed := 0) as (freed & w' & E & Hw').
  { rewrite sort_Strings_perm. apply NoDup_fst_map_to_list. }
  { intros n H. by apply Hn. }
  exists freed, w'. split.
  - rewrite E. do 3 f_equal. rewrite Z.add_0_l, sort_Strings_perm, length_fmap. by rewrite length_map_to_list.
  - apply map_eq. intros n. rewrite Hw', lookup_empty. destruct (decide _) as [|H]; [done|]. change (tg_staging (next w)) with (tg_staging w).
    apply eq_None_not_Some. by rewrite <- Hn.
Qed.
