(* ===== verification/BackupTargetWrite.v ===== *)
(** * A backup write is all or nothing

    Wherever the write of a generation stops, the generation is not there or is
    there whole, and nothing else on the target has changed but the partial
    directory. *)
From Stdlib Require Import Ascii String.
From S2P Require Import Prelude GoStrings GoRunes GoPath GoSort Crash BackupMembers BackupEstimate BackupTarget BackupTargetFacts.
Open Scope string_scope.
Open Scope list_scope.
Open Scope Z_scope.
#[local] Arguments String.append : simpl nomatch.
#[local] Arguments HasPrefix : simpl never.

Section write.
Context (F : nat → Fault) (clock : nat → Z) (sha256_hex : string → string) (scopeOf : string → string)
  (order : list item → list item) (usage : Target → Z * Z).
Context (Hon : honest F) (w0 : Target) (cmd : WriteCmd).
#[local] Abbreviation gen := (wc_GenerationID cmd).
#[local] Abbreviation tmp := (BackupPartialDirName (wc_GenerationID cmd)).

Lemma tmp_ne : tmp ≠ gen.
Proof using. intros E. apply (f_equal String.length) in E. unfold BackupPartialDirName in E. rewrite length_app_s in E. cbn in E. lia. Qed.

(** The members that were in the partial directory. *)
Definition landed_members : gmap string string := match ents w0 !! tmp with Some (EDir g) => g_members g | _ => ∅ end.

(** Nothing but the partial directory differs. *)
Definition before (w : Target) : Prop := agree (λ n, n ≠ tmp) w0 w.
Definition filling (Q : Gen → Prop) (w : Target) : Prop := before w ∧ ∃ g, ents w !! tmp = Some (EDir g) ∧ g_members g = landed_members ∧ Q g.
(** The generation is there as a whole. *)
Definition whole (data : string) (g : Gen) : Prop :=
  (∃ t, g_archive g = Some (data, t)) ∧ g_manifest g = Some (wc_ManifestJSON cmd) ∧ g_members g = landed_members.
Definition committed (data : string) (w : Target) : Prop :=
  agree (λ n, n ≠ tmp ∧ n ≠ gen) w0 w ∧ (∃ g, ents w !! gen = Some (EDir g) ∧ whole data g) ∧
  (∀ e, ents w0 !! gen = Some e → ∃ g, e = EDir g ∧ items_of g = []).
#[local] Instance before_timeless : Timeless before := λ w H, H.
#[local] Instance filling_timeless Q : Timeless (filling Q) := λ w H, H.
#[local] Instance committed_timeless data : Timeless (committed data) := λ w H, H.

Lemma filling_before Q w : filling Q w → before w.
Proof using. by intros [? _]. Qed.

Lemma before_upd f w : before w → before (upd_gen tmp f w).
Proof using. apply agree_upd. by intros H. Qed.

Lemma filling_upd (Q Q' : Gen → Prop) f w : (∀ g, Q g → Q' (f g) ∧ g_members (f g) = g_members g) → filling Q w → filling Q' (upd_gen tmp f w).
Proof using.
  intros Hf [Hb (g & Hg & Hm & HQ)]. split; [by apply before_upd|]. exists (f g). destruct (Hf g HQ). split_and!; [by apply upd_gen_eq|congruence|done].
Qed.

(** Errors leave everything but the partial directory as it was. *)
Definition outcome {A} (Q : A → Target → Prop) (r : result A) (w : Target) : Prop := match r with Ok a => Q a w | Fail _ => before w end.

Lemma step_ensures {A B} P (m : IO Target (result A)) (Q : A → Target → Prop) (f : A → IO Target (result B)) R :
  ensures P m (outcome Q) before → (∀ a, ensures (Q a) (f a) (outcome R) before) → ensures P (bindR m f) (outcome R) before.
Proof using. intros Hm Hf. by apply (ensures_bindR _ _ _ (outcome Q)). Qed.

Lemma step_wrapE {A} P pre (m : IO Target (result A)) Q : ensures P m (outcome Q) before → ensures P (wrapE pre EmptyString m) (outcome Q) before.
Proof using. intros Hm. by apply (ensures_wrapE _ _ _ _ (outcome Q)). Qed.

(** A call that reads, with what it answered. *)
Lemma read_ensures {A} (P : Target → Prop) `{!Timeless P} (f : Target → result A) : (∀ w, P w → before w) →
  ensures P (sys F (λ w, (f w, w))) (outcome (λ a w, f w = Ok a ∧ P w)) before.
Proof using.
  intros HP. apply sys_ensures; cbn; intros w; [|intros e|]; intros Hw%timeless; [|by apply HP..].
  unfold outcome. destruct (f _) eqn:E; [by split|by apply HP].
Qed.

(** A call that changes the partial directory, or fails without. *)
Lemma change_ensures (Q Q' : Gen → Prop) (act : Target → result unit * Target) :
  (∀ w g, ents w !! tmp = Some (EDir g) → (∃ e, act w = (Fail e, w)) ∨ ∃ f, act w = (Ok tt, upd_gen tmp f w) ∧ (Q g → Q' (f g)) ∧ g_members (f g) = g_members g) →
  ensures (filling Q) (sys F act) (outcome (λ _, filling Q')) before.
Proof using.
  intros Hact. apply sys_ensures; cbn; intros w; [|intros e|]; intros Hw%timeless; [|by apply (filling_before Q)..].
  destruct Hw as [Hb (g & Hg & Hm & HQ)]. destruct (Hact (tg_next w) g Hg) as [[e ->]|(f & -> & Hf & Hm')]; [done|]. cbn [outcome].
  split; [by apply before_upd|]. exists (f g). split_and!; [by apply upd_gen_eq|congruence|auto].
Qed.

Lemma write_ensures (Q Q' : Gen → Prop) put data : (∀ s t g, g_members (put s t g) = g_members g) → (∀ t g, Q g → Q' (put data t g)) →
  ensures (filling Q) (sys_write F (λ s w, upd_gen tmp (put s (clock (tg_tick w))) w) data) (outcome (λ _, filling Q')) before.
Proof using Hon.
  intros Hm HQ. apply sys_write_ensures; cbn [outcome].
  - intros w Hw%timeless. eapply filling_upd; [|exact Hw]. auto.
  - intros w n e Hw%timeless. by apply before_upd, (filling_before Q).
  - intros w n Hw%timeless. by apply before_upd, (filling_before Q).
  - intros w s Hx. by apply Hon in Hx.
Qed.

Lemma sync_ensures Q : ensures (filling Q) (f_call F) (outcome (λ _, filling Q)) before.
Proof using.
  eapply ensures_conseq; [apply (read_ensures (filling Q) (λ _, Ok tt) (filling_before Q))|done| |done].
  intros [u|e] w; [by intros [_ H]|done].
Qed.

(** Nothing differs yet. *)
Definition pristine (w : Target) : Prop := agree (λ _, True) w0 w.
#[local] Instance pristine_timeless : Timeless pristine := λ w H, H.
Lemma pristine_before w : pristine w → before w.
Proof using. intros [H1 H2]. split; [|done]. intros n _. by apply H1. Qed.

Lemma open_partial_ensures : ensures pristine (open_partial F clock gen tmp) (outcome (λ _, filling (λ _, True))) before.
Proof using.
  apply (ensures_bind _ _ _ (λ r w, pristine w ∧ ∀ e, r = Ok e → ents w !! tmp = Some e)).
  - apply sys_ensures; intros w; [|intros e|]; intros Hw; [|by split|by apply pristine_before]. split; [done|].
    intros e. destruct (ents (next w) !! tmp); [|done]. by intros [= ->].
  - intros [[g|]|e]; [| |destruct (os_IsNotExist e)]; [..|by intros w [Hb%pristine_before _]].
    + intros w [Hp He]. split; [by apply pristine_before|]. exists g. split_and!; [by apply He| |done].
      unfold landed_members. rewrite <- (proj1 Hp tmp I). by rewrite (He _ eq_refl).
    + by intros w [Hb%pristine_before _].
    + apply sys_ensures; intros w; [|intros e'|]; intros [Hp _]; [|by apply pristine_before..].
      change (ents (next w)) with (ents w). destruct (ents w !! tmp) as [x|] eqn:Ex; [by apply pristine_before|]. cbn [outcome]. split.
      * apply agree_set; [by apply pristine_before|]. intros n Hn. by rewrite lookup_insert_ne.
      * eexists. split_and!; [apply lookup_insert_eq| |done]. cbn. unfold landed_members. by rewrite <- (proj1 Hp tmp I), Ex.
Qed.

Context (data : string) (Hdata : tg_staging w0 !! wc_StagingName cmd = Some data).
Definition archived (g : Gen) : Prop := ∃ t, g_archive g = Some (data, t).

Lemma copy_ensures : ensures (filling (λ _, True)) (copyFileSync F clock (wc_StagingName cmd) tmp) (outcome (λ n, filling archived)) before.
Proof using Hon Hdata.
  apply (step_ensures _ _ (λ d w, d = data ∧ filling (λ _, True) w)).
  { eapply ensures_conseq; [apply (read_ensures (filling (λ _, True)) _ (filling_before _))|done| |done].
    intros [d|e] w; [|done]. intros [Hd Hw]. split; [|done]. destruct Hw as [[_ Hs] _]. rewrite Hs, Hdata in Hd. congruence. }
  intros d. apply ensures_assume. intros ->.
  apply (step_ensures _ _ (λ _, filling (λ _, True))).
  { apply change_ensures. intros w g Hg. unfold create_archive. rewrite Hg. destruct g as [[a|] om mem t]; [left; by eexists|right; by eexists]. }
  intros _. apply (step_ensures _ _ (λ _, filling archived)); [apply write_ensures; [done|]; by eexists|].
  intros _. apply (step_ensures _ _ (λ _, filling archived)); [apply sync_ensures|].
  intros _. apply (step_ensures _ _ (λ _, filling archived)); [apply sync_ensures|]. by intros _ w Hw.
Qed.

Lemma manifest_ensures : ensures (filling archived) (writeFileSync F clock tmp (wc_ManifestJSON cmd)) (outcome (λ _, filling (whole data))) before.
Proof using Hon.
  apply (step_ensures _ _ (λ _, filling archived)).
  { apply change_ensures. intros w g Hg. unfold create_manifest. rewrite Hg. destruct g as [a [m|] mem t]; [left; by eexists|right; by eexists]. }
  intros _. apply (step_ensures _ _ (λ _, filling (λ g, archived g ∧ g_manifest g = Some (wc_ManifestJSON cmd)))); [apply write_ensures; [done|]; auto|].
  intros _. apply (step_ensures _ _ (λ _, filling (λ g, archived g ∧ g_manifest g = Some (wc_ManifestJSON cmd)))); [apply sync_ensures|].
  intros _. eapply ensures_conseq; [apply sync_ensures|done| |done].
  intros [u|e] w; [|done]. intros [Hb (g & Hg & Hm & Ha & Hj)]. split; [done|]. exists g. by split_and!.
Qed.

(** The rename makes the generation visible, or changes nothing. *)
Lemma rename_ensures : ensures (filling (whole data)) (os_Rename F tmp gen) (outcome (λ _, committed data)) before.
Proof using.
  apply sys_ensures; intros w; [|intros e|]; intros Hw; [|by apply (filling_before (whole data))..].
  destruct Hw as [Hb (g & Hg & _ & Hall)]. change (ents (next w)) with (ents w). rewrite Hg.
  assert ((∀ e, ents w !! gen = Some e → ∃ g, e = EDir g ∧ items_of g = []) →
          committed data (set_gens (<[gen := EDir g]> (delete tmp (ents w))) (next w))) as Hc.
  { intros He. split_and!.
    - assert (agree (λ n, n ≠ tmp ∧ n ≠ gen) w0 (next w)) as Ha.
      { destruct Hb as [H1 H2]. split; [|done]. intros n [Hn _]. by apply H1. }
      apply agree_set; [done|]. intros n [Hn1 Hn2]. rewrite lookup_insert_ne, lookup_delete_ne by congruence. done.
    - exists g. split; [apply lookup_insert_eq|done].
    - intros e Ee. apply He. rewrite <- Ee. apply Hb. intros E. by apply tmp_ne. }
  destruct (ents w !! gen) as [[h|]|] eqn:Eg; [case_bool_decide as Hh|..]; cbn [outcome]; try done; apply Hc; [|done].
  intros e [= <-]. by eexists.
Qed.

Lemma fill_ensures mp : ensures (filling (λ _, True)) (fill_partial F clock cmd mp tmp) (outcome (λ _, committed data)) before.
Proof using Hon Hdata.
  apply (step_ensures _ _ (λ _, filling archived)); [apply step_wrapE, copy_ensures|intros n].
  destruct (String.eqb _ _); [by intros w Hw; apply (filling_before archived)|].
  apply (step_ensures _ _ (λ _, filling (whole data))); [apply step_wrapE, manifest_ensures|intros _].
  apply (step_ensures _ _ (λ _, filling (whole data))); [apply sync_ensures|intros _].
  apply (step_ensures _ _ (λ _, committed data)); [apply rename_ensures|]. by intros _ w Hw.
Qed.

(** *** The whole verb *)
Definition matches : Prop := EqualFold (sha256_hex data) (Trim (wc_Digest cmd)) = true.
Definition settled (w : Target) : Prop := before w ∨ matches ∧ committed data w.
Definition answered (r : result WriteAck) (w : Target) : Prop :=
  settled w ∧ ∀ ack, r = Ok ack → wa_OK ack = true → matches ∧ committed data w ∧ wa_PartUUID ack = wc_PartUUID cmd ∧ ∃ g, wa_Generation ack = Some g ∧ bg_ID g = gen.
#[local] Instance settled_timeless : Timeless settled := λ w H, H.

Lemma answered_fail e w : settled w → answered (Fail e) w.
Proof using. by split. Qed.
Lemma pristine_settled w : pristine w → settled w.
Proof using. left. by apply pristine_before. Qed.
Hint Resolve answered_fail pristine_settled pristine_before : core.

(** What follows the rename. *)
Lemma ack_ensures final sum written : matches →
  ensures (committed data)
    (bindR (f_call F) (λ _, bind (λ w, (Some (clock (tg_tick w)), w)) (λ now, bind (disk_usage F usage) (λ du,
       ret (Ok (mkWriteAck true (wc_PartUUID cmd)
         (Some (mkGeneration gen (filepath_Join [final; BackupArchiveFile]) (filepath_Join [final; BackupManifestFile])
           (byteCount written) sum now (scopeOf (wc_ManifestJSON cmd))))
         (match du with Ok (_, f) => f | Fail _ => 0 end) EmptyString EmptyString))))))
    answered settled.
Proof using.
  intros Hd. assert (∀ w, committed data w → settled w) as Hset by (by right).
  apply (ensures_bindR _ _ _ (λ _, committed data)); [apply (ensures_keeps _ settled _ (keeps_call F _)); auto| |by auto].
  intros _. apply (ensures_bind _ _ _ (λ _, committed data)); [by intros w|intros now].
  apply (ensures_bind _ _ _ (λ _, committed data)); [apply (ensures_keeps _ settled _ (keeps_usage F usage _)); auto|intros du].
  intros w Hw. split; [auto|]. intros ack [= <-] _. split_and!; [done|done|done|by eexists].
Qed.

Lemma read_staged_ensures : ensures pristine (read_staged F (wc_StagingName cmd)) (λ r w, (∀ d, r = Ok d → d = data) ∧ pristine w) settled.
Proof using Hdata.
  apply sys_ensures; intros w; [|intros e|]; intros Hw%timeless; [|by split|by apply pristine_settled].
  split; [|done]. intros d. rewrite (proj2 Hw), Hdata. congruence.
Qed.

Lemma write_tail_ensures mp : matches → ensures pristine
  (bindR (os_MkdirAll F) (λ _, bind (os_Stat F gen) (λ fin, match fin with
    | Ok _ => ret (Fail (errors_New ("refusing to write generation " +:+ gen +:+ ": it already exists at " +:+ filepath_Join [gens_dir mp; gen])))
    | Fail _ => bindR (open_partial F clock gen tmp) (λ _, bind (fill_partial F clock cmd mp tmp) (λ r, match r with
        | Fail e => bind (os_RemoveAll F clock order tmp) (λ _, ret (Fail e))
        | Ok written => bindR (f_call F) (λ _, bind (λ w, (Some (clock (tg_tick w)), w)) (λ now, bind (disk_usage F usage) (λ du,
            ret (Ok (mkWriteAck true (wc_PartUUID cmd)
              (Some (mkGeneration gen (filepath_Join [filepath_Join [gens_dir mp; gen]; BackupArchiveFile]) (filepath_Join [filepath_Join [gens_dir mp; gen]; BackupManifestFile])
                (byteCount written) (sha256_hex data) now (scopeOf (wc_ManifestJSON cmd))))
              (match du with Ok (_, f) => f | Fail _ => 0 end) EmptyString EmptyString)))))
        end)) end))) answered settled.
Proof using Hon Hdata.
  intros Hd. assert (∀ w, before w → settled w) as Hset by (by left).
  apply (ensures_bindR _ _ _ (λ _, pristine)); [|intros _|by auto].
  { apply ensures_keeps; [|auto]. apply keeps_sys; [apply _|]. intros w Hw. by apply agree_set. }
  apply (ensures_bind _ _ _ (λ _, pristine)); [apply ensures_keeps; [apply keeps_look, _|auto]|].
  intros [e|e]; [intros w Hw; apply answered_fail; auto|].
  apply (ensures_bindR _ _ _ (outcome (λ _, filling (λ _, True)))); [|intros u|by intros e' w Hw; apply answered_fail; auto].
  { eapply ensures_conseq; [apply open_partial_ensures|done..|auto]. }
  apply (ensures_bind _ _ _ (outcome (λ _, committed data))).
  { eapply ensures_conseq; [apply fill_ensures|done..|auto]. }
  intros [n|e']; cbn [outcome]; [by apply ack_ensures|].
  apply (ensures_bind _ _ _ (λ _, before)); [|intros _ w Hw; apply answered_fail; auto].
  apply ensures_keeps; [apply keeps_RemoveAll; auto|auto].
Qed.

Lemma write_ensures_all mount root : ensures pristine (BackupWrite F clock sha256_hex scopeOf order usage mount root cmd) answered settled.
Proof using Hon Hdata.
  assert (∀ e, ensures pristine (ret (Fail e)) answered settled) as Hfail by (intros e w Hw; apply answered_fail; auto).
  unfold BackupWrite. destruct (checkPartUUID _); [|by apply Hfail].
  do 4 (case_match; [by apply Hfail|]).
  apply (ensures_bind _ _ _ _ _ _ read_staged_ensures). intros [info|e]; [|by intros w [_ Hw]; apply answered_fail; auto].
  case_match; [by intros w [_ Hw]; apply answered_fail; auto|].
  apply (ensures_pre _ pristine); [|by intros w [_ ?]].
  apply (ensures_bindR _ _ _ _ _ _ read_staged_ensures); [|by intros e w [_ Hw]; apply answered_fail; auto].
  intros d. apply ensures_assume. intros Hd. rewrite (Hd d eq_refl).
  destruct (EqualFold _ _) eqn:Em; cbn [negb]; [|by apply Hfail].
  destruct mount as [mp|e]; [by apply write_tail_ensures|].
  case_match; [|by apply Hfail]. intros w Hw. split; [auto|]. by intros ack [= <-].
Qed.
End write.

(** Without the staged file nothing is touched. *)
Lemma write_missing F clock sha256_hex scopeOf order usage mount root cmd w0 : tg_staging w0 !! wc_StagingName cmd = None →
  ensures (pristine w0) (BackupWrite F clock sha256_hex scopeOf order usage mount root cmd) (λ r w, (∃ e, r = Fail e) ∧ pristine w0 w) (pristine w0).
Proof.
  intros Hnone. assert (∀ e, ensures (pristine w0) (ret (Fail (A:=WriteAck) e)) (λ r w, (∃ e, r = Fail e) ∧ pristine w0 w) (pristine w0)) as Hfail.
  { intros e w Hw. cbn. split; [by eexists|done]. }
  unfold BackupWrite. destruct (checkPartUUID _); [|by apply Hfail]. do 4 (case_match; [by apply Hfail|]).
  apply (ensures_bind _ _ _ (λ r w, (∃ e, r = Fail e) ∧ pristine w0 w)).
  - apply sys_ensures; intros w; [|intros e|]; intros Hw; [|split; [by eexists|done]|done].
    change (tg_staging (next w)) with (tg_staging w). rewrite (proj2 Hw), Hnone. split; [by eexists|done].
  - intros r. apply ensures_assume. intros [e ->]. apply Hfail.
Qed.

(** C35. A backup write is all or nothing, wherever it stops: on a medium that
    does not corrupt a write silently, whatever calls fail and whenever the
    power goes, every entry of the target but the generation's own and its
    partial directory is as it was, and so is the staging root; the generation
    is as it was, or it is there whole (the staged archive, whose digest is the
    command's, the command's manifest, the members landed in the partial
    directory), where nothing but possibly an empty directory was; and the
    answer says it was written only when it is there. *)
Theorem write_all_or_nothing F clock sha256_hex scopeOf order usage mount root cmd w r w' : honest F →
  BackupWrite F clock sha256_hex scopeOf order usage mount root cmd w = (r, w') →
  let gen := wc_GenerationID cmd in
  let written := ∃ data g, tg_staging w !! wc_StagingName cmd = Some data ∧ EqualFold (sha256_hex data) (Trim (wc_Digest cmd)) = true ∧
    ents w' !! gen = Some (EDir g) ∧ whole w cmd data g ∧ ∀ e, ents w !! gen = Some e → ∃ g, e = EDir g ∧ items_of g = [] in
  tg_staging w' = tg_staging w ∧ (∀ n, n ≠ gen → n ≠ BackupPartialDirName gen → ents w' !! n = ents w !! n) ∧
  (ents w' !! gen = ents w !! gen ∨ written) ∧
  ∀ ack, r = Some (Ok ack) → wa_OK ack = true → written ∧ ∃ g, wa_Generation ack = Some g ∧ bg_ID g = gen.
Proof.
  intros Hon Hrun gen written. destruct (tg_staging w !! wc_StagingName cmd) as [data|] eqn:Hdata.
  - pose proof (write_ensures_all F clock sha256_hex scopeOf order usage Hon w cmd data Hdata mount root w (agree_refl _ _)) as H.
    assert (matches sha256_hex cmd data → committed w cmd data w' → written) as Hwr.
    { intros Hm (_ & (g & Hg & Hall) & He). exists data, g. done. }
    rewrite Hrun in H.
    assert (settled sha256_hex w cmd data w') as Hset by (destruct r; [by destruct H|done]).
    assert (agree (λ n, n ≠ BackupPartialDirName gen ∧ n ≠ gen) w w') as [Ha Hs].
    { destruct Hset as [[H1 H2]|(_ & Hag & _)]; [|done]. split; [|done]. intros n [Hn _]. by apply H1. }
    split_and!; [done|by intros n Hn1 Hn2; apply Ha| |].
    + destruct Hset as [[H1 _]|[Hm Hc]]; [left|right; by apply Hwr]. apply H1. intros E. symmetry in E. by apply tmp_ne in E.
    + intros ack -> Hok. destruct H as [_ H]. destruct (H ack eq_refl Hok) as (Hm & Hc & _ & Hg). split; [by apply Hwr|done].
  - pose proof (write_missing F clock sha256_hex scopeOf order usage mount root cmd w Hdata w (agree_refl _ _)) as H. rewrite Hrun in H.
    assert (pristine w w') as [H1 H2] by (destruct r; [by destruct H|done]).
    split_and!; [done|by intros; apply H1|left; by apply H1|]. intros ack -> _. by destruct H as [[e He] _].
Qed.

(** One generation on the target, an archive staged, a member landed. *)
Definition sample_target : Target :=
  mkTarget 0 (Some (<["g1" := EDir (mkGen (Some ("old", 5)) (Some "{}") ∅ 5)]> (<[".partial-g2" := EDir (mkGen None None {["m.enc" := "volume"]} 6)]> ∅)))
    {["archive" := "sealed"]}.
Definition sample_write : WriteCmd := mkWriteCmd "0a1b-2c" "g2" "archive" "ABCD" 6 "{}".
(** The power goes right after the rename. *)
Definition loses_power (n : nat) : Fault := if Nat.eqb n 16 then PowerLoss 0 else NoFault.

Lemma write_all_or_nothing_witness : ∃ w' g,
  snd (BackupWrite loses_power Z.of_nat (λ _, "abcd") (λ _, "full") id (λ _, (100, 50)) (Ok "/mnt") "/staging" sample_write sample_target) = w' ∧
  ents w' !! "g2" = Some (EDir g) ∧ whole sample_target sample_write "sealed" g.
Proof.
  destruct (BackupWrite loses_power Z.of_nat (λ _, "abcd") (λ _, "full") id (λ _, (100, 50)) (Ok "/mnt") "/staging" sample_write sample_target)
    as [r w'] eqn:E.
  assert (honest loses_power) as Hon by (intros n s; unfold loses_power; by destruct (Nat.eqb n 16)).
  pose proof (write_all_or_nothing _ _ _ _ _ _ _ _ _ _ _ _ Hon E) as (_ & _ & [Hno|(data & g & Hd & _ & Hg & Hw & _)] & _).
  - exfalso. apply (f_equal snd) in E. cbn [snd] in E. rewrite <- E in Hno. vm_compute in Hno. discriminate Hno.
  - exists w', g. split; [reflexivity|]. split; [exact Hg|]. vm_compute in Hd. injection Hd as <-. exact Hw.
Defined.
