(* ===== verification/BackupRun.v ===== *)
(** * The backup job

    api/internal/storage/backup_jobs.go and the capture of store_capture.go:
    the steps of backup.run on the ledger of runs, the files of the staging
    root, the capture lock, the secret store and the world the fan-out moves
    in; the terminal hook; and the sweep at start.  The bus, the driver, the
    clock, file calls, the secret store and the archive format answer by a
    tick, so each may differ at every call.  A step's result is kept as the
    value it encodes.  A staged file is known by its directory and its name.
    The runner's control flow is that of Saga.v, over bodies that have effects;
    log lines are left out. *)
From Stdlib Require Import Ascii String.
From S2P Require Import Prelude GoStrings GoRunes GoPath GoSort Ledger NodeUpdateStore GoDuration BackupMembers BackupPlan BackupReport BackupGrants BackupIngest BackupFanOut BackupEstimate BackupRuns BackupSchedule BackupState BackupTarget.
Open Scope string_scope.
Open Scope list_scope.
Open Scope Z_scope.
#[local] Arguments String.eqb : simpl never.
#[local] Arguments String.append : simpl nomatch.

Definition RunJobKind : string := "backup.run".
Definition ReasonScheduled : string := "scheduled".
Definition ReasonManual : string := "manual".
Definition BackupScopeFull : string := "full".
Definition BackupScopeIdentityOnly : string := "identity-only".

(** ** The verdict of a run that wrote its generation *)
Record runVolumeOutcome := mkVolumeOutcome {
  vo_Complete : bool; vo_AppVolumesCaptured : Z; vo_AppVolumesSkipped : Z; vo_AppVolumesFailed : Z;
  vo_FailedVolumes : list string; vo_FailedApps : list AppFailure; vo_AppsLeftDown : list string }.

Definition volumeOutcome (r : AppVolumeReport) (complete : bool) : runVolumeOutcome :=
  mkVolumeOutcome complete (a_CapturedCount r) (a_SkippedCount r) (a_FailedCount r) (a_Failed r) (FailedApps r) (a_AppsLeftDown r).

Definition appsLeftDownMessage (apps : list string) : string :=
  "BACKUP LEFT " +:+ (if Nat.ltb 1 (length apps) then "APPS" else "AN APP") +:+ " DOWN: " +:+ Join apps ", " +:+
  " was stopped to take a consistent copy and did not come back. " +:+
  "The archive for this run IS on the backup target and is intact — this run is failed for the outage, not for the backup. " +:+
  "The agent keeps retrying in the background and will try again at its next start; check the app's own job history " +:+
  "if it is still down. design/storage.md §4.7 treats an app left down by a backup as worse than a failed backup, " +:+
  "which is why this run ends red".

Definition failure_line (f : AppFailure) : string :=
  newline +:+ "  • " +:+ af_App f +:+ (if String.eqb (af_Node f) EmptyString then EmptyString else " on " +:+ af_Node f) +:+ ": " +:+
  Join ((λ v, af_App f +:+ "/" +:+ v) <$> af_Volumes f) ", " +:+ " — " +:+ af_Reason f.
Definition failedVolumesMessage (apps : list AppFailure) (vols : list string) : string :=
  (match apps, vols with
   | [f], _ => "BACKUP FAILED FOR APP " +:+ af_App f
   | _ :: _, _ => "BACKUP FAILED FOR " +:+ pretty (Z.of_nat (length apps)) +:+ " APPS"
   | [], [v] => "BACKUP FAILED FOR APP VOLUME " +:+ v
   | [], _ => "BACKUP FAILED FOR APP VOLUMES " +:+ Join vols ", "
   end) +:+
  " — each app's backup did not happen, and here is why:" +:+
  (match apps with
   | [] => " a node offline at backup time, an agent that refused, or an upload that did not land; the manifest names the reason for each."
   | _ => EmptyString
   end) +:+
  foldr (λ f s, failure_line f +:+ s) EmptyString apps +:+
  newline +:+ "Everything else this run captured IS on the backup target, sealed and indexed — this run is failed for what is missing, not for what landed. " +:+
  "design/storage.md §4.4: an app whose backup did not happen has a FAILED backup, not a skipped one".

(** The error and the warning. *)
Definition runVerdict (o : runVolumeOutcome) : string * string :=
  if bool_decide (vo_AppsLeftDown o ≠ []) then (appsLeftDownMessage (vo_AppsLeftDown o), EmptyString)
  else if 0 <? vo_AppVolumesFailed o then (failedVolumesMessage (vo_FailedApps o) (vo_FailedVolumes o), EmptyString)
  else if negb (vo_Complete o) then
    (EmptyString, pretty (vo_AppVolumesSkipped o) +:+ " app volume(s) were not captured; the manifest names each one and its reason")
  else (EmptyString, EmptyString).

(** ** Names *)
Definition disc_rune (r : option ascii) : ascii := match r with Some c => if alnum c then c else "-"%char | None => "-"%char end.
(** [stamp] is the time in the layout 20060102T150405Z. *)
Definition BackupGenerationID (stamp jobID scope : string) : string :=
  let disc := if Nat.ltb 8 (String.length jobID) then drop_str (String.length jobID - 8) jobID else jobID in
  let disc := map_runes disc_rune 0 disc in
  let disc := if String.eqb disc EmptyString then "nojob" else disc in
  let scope := if String.eqb scope EmptyString then BackupScopeIdentityOnly else scope in
  stamp +:+ "-" +:+ disc +:+ "-" +:+ scope.
Definition stagingName (generationID kind : string) : string := generationID +:+ "." +:+ kind.
Definition displayLabel (s : string) : string := if String.eqb s EmptyString then "(unnamed)" else s.
Definition StorageRefusalBackendError : string := "backend-error".
Definition refusalError (verb refusal detail : string) : error :=
  errors_New (verb +:+ " refused [" +:+ (if String.eqb refusal EmptyString then StorageRefusalBackendError else refusal) +:+ "]: " +:+
    (if String.eqb detail EmptyString then "no detail given" else detail)).

Definition checkStagingRoot (dir : string) : option error :=
  if String.eqb dir EmptyString then Some (errors_New "it is empty")
  else if negb (IsAbs dir) then Some (errors_New "it is not an absolute path")
  else if negb (String.eqb (Clean dir) dir) then
    Some (errors_New "it is not a clean path — a staging root with a `..`, a doubled separator or a trailing slash is not one this api will write into")
  else None.

(** ** A claimed target, and its health record *)
Record TargetHealth := mkHealth { th_State : string; th_CheckedAt : Z }.
Definition BackupTargetHealthMissing : string := "missing".
Definition Unhealthy (s : string) : bool := bool_decide (s ∈ ["missing"; "unmounted"; "unwritable"; "unreachable"]).
Definition healthFreshWindow : Z := 3 * (5 * minute).
Definition HealthFresh (h : TargetHealth) (now : Z) : bool :=
  if String.eqb (th_State h) "unknown" || (th_CheckedAt h =? zeroTime) then false
  else time_Sub now (th_CheckedAt h) <=? healthFreshWindow.
Definition healthNextStep (state : string) : string :=
  if String.eqb state "missing" then
    "Plug the claimed disk back in (the same disk — a different one at the same port is reported as a different disk), or claim another under Storage → Backups"
  else if String.eqb state "unmounted" then "The disk is attached and its filesystem will not mount; check it on another machine before trusting it again, or claim another"
  else if String.eqb state "unwritable" then "The disk is attached and mounted and refuses writes — the way a failing USB stick fails. Replace it"
  else if String.eqb state "unreachable" then "The node holding the disk did not answer; the health check runs again within " +:+ Duration_String (5 * minute)
  else EmptyString.

Record ClaimedTarget := mkClaimed {
  ct_JobID : string; ct_NodeID : string; ct_PartUUID : string; ct_Label : string; ct_MountPath : string; ct_KeyID : string; ct_PublicKey : string;
  ct_Health : option TargetHealth }.

(** ** What the steps return *)
Record runTarget := mkRunTarget {
  rt_TargetJobID : string; rt_PartUUID : string; rt_NodeID : string; rt_Label : string; rt_MountPath : string; rt_KeyID : string;
  rt_PublicKey : string; rt_GenerationID : string; rt_Scope : string; rt_Reason : string; rt_Retain : Z }.
Record runPreflightResult := mkRunPreflight {
  rp_PartUUID : string; rp_MountPath : string; rp_TotalBytes : Z; rp_FreeBytes : Z; rp_RequiredBytes : Z; rp_GenerationsFound : Z;
  rp_Estimate : TargetEstimate; rp_StagingRoot : string }.
Record runSnapshotResult := mkRunSnapshot { rn_StagingName : string; rn_SizeBytes : Z; rn_Budget : StagingBudget }.
Record runStoreCaptureResult := mkRunStore { rc_StagingName : string; rc_Files : Z; rc_SizeBytes : Z; rc_Version : string; rc_KeyID : string }.
Record runFanOutResult := mkRunFanOut { rf_GenerationDir : string; rf_Report : AppVolumeReport }.
Record runAssembleResult := mkRunAssemble {
  ra_StagingName : string; ra_SizeBytes : Z; ra_Scope : string; ra_EntryCount : Z; ra_Outcome : runVolumeOutcome; ra_Warning : string; ra_ManifestJSON : string }.
Record SealResult := mkSealResult { sr_Digest : string; sr_SizeBytes : Z; sr_PlaintextBytes : Z }.
Record runSealResult := mkRunSeal { rs_StagingName : string; rs_Seal : option SealResult }.
Record runWriteResult := mkRunWrite { rw_GenerationID : string; rw_ArchivePath : string; rw_SizeBytes : Z; rw_Digest : string; rw_FreeBytes : Z }.

Inductive RunOut :=
| OTarget (t : runTarget) | OPreflight (p : runPreflightResult) | OSnapshot (s : runSnapshotResult) | OStore (s : runStoreCaptureResult)
| OFanOut (f : runFanOutResult) | OAssemble (a : runAssembleResult) | OSeal (s : runSealResult) | OWrite (w : runWriteResult)
| OPrune (kept pruned : list string) (retain : Z).
#[local] Abbreviation Prior := (gmap string RunOut).

(** The manifest of a generation, as the later steps read it. *)
Record RunManifest := mkRunManifest {
  rm_GenerationID : string; rm_Scope : string; rm_Complete : bool; rm_Warning : string; rm_KeyID : string; rm_AppVolumes : AppVolumeReport;
  rm_Entries : list string }.

Definition no_result (step : string) : error :=
  errors_New ("step " +:+ quote step +:+ " left no result; a backup step does not reconstruct its own inputs").
Definition priorResult {A} (prior : Prior) (step : string) (read : RunOut → option A) : result A :=
  match prior !! step with
  | None => Fail (no_result step)
  | Some o => match read o with Some a => Ok a | None => Fail (errors_New ("decode " +:+ quote step +:+ " result")) end
  end.
Definition asTarget (o : RunOut) : option runTarget := match o with OTarget t => Some t | _ => None end.
Definition asPreflight (o : RunOut) : option runPreflightResult := match o with OPreflight t => Some t | _ => None end.
Definition asSnapshot (o : RunOut) : option runSnapshotResult := match o with OSnapshot t => Some t | _ => None end.
Definition asStore (o : RunOut) : option runStoreCaptureResult := match o with OStore t => Some t | _ => None end.
Definition asFanOut (o : RunOut) : option runFanOutResult := match o with OFanOut t => Some t | _ => None end.
Definition asAssemble (o : RunOut) : option runAssembleResult := match o with OAssemble t => Some t | _ => None end.
Definition asSeal (o : RunOut) : option runSealResult := match o with OSeal t => Some t | _ => None end.
Definition asWrite (o : RunOut) : option runWriteResult := match o with OWrite t => Some t | _ => None end.

Definition priorRunTarget (prior : Prior) : result runTarget :=
  match priorResult prior "validate" asTarget with
  | Fail e => Fail e
  | Ok t =>
      if String.eqb (rt_PartUUID t) EmptyString || String.eqb (rt_NodeID t) EmptyString || String.eqb (rt_GenerationID t) EmptyString then
        Fail (errors_New "the validate step left no usable target, so nothing has decided where this backup would go")
      else Ok t
  end.
Definition runStagingDir (prior : Prior) : result string :=
  match priorResult prior "preflight" asPreflight with
  | Fail e => Fail e
  | Ok pre =>
      let dir := Trim (rp_StagingRoot pre) in
      if String.eqb dir EmptyString then
        Fail (errors_New "the preflight step recorded no staging root, so nothing knows where the agent would look for this archive. Nothing was staged")
      else match checkStagingRoot dir with
           | Some e => Fail (wrapf ("the recorded staging root " +:+ quote dir +:+ " is unusable: " +:+ err_text e) e)
           | None => Ok dir
           end
  end.
(** The directory and the name of a staged file. *)
Definition stagedPath (prior : Prior) (name : string) : result (string * string) :=
  match runStagingDir prior with
  | Fail e => Fail e
  | Ok dir =>
      if negb (BackupValidStagingName name) then
        Fail (errors_New ("refusing to touch " +:+ quote name +:+ " under " +:+ dir +:+ ": a staged file is named by a single plain file name and this is not one"))
      else Ok (dir, name)
  end.

(** ** The world *)
Inductive Reply (A : Type) := NoReply (e : error) | BadReply (e : error) | Replied (a : A).
Arguments NoReply {A} _.
Arguments BadReply {A} _.
Arguments Replied {A} _.

Inductive RunWire :=
| WPreflight (nodeID partUUID : string) (estimateBytes : Z) (r : Reply PreflightAck)
| WHealth (partUUID state : string)
| WWrite (nodeID : string) (cmd : WriteCmd) (r : Reply WriteAck)
| WPrune (nodeID : string) (cmd : PruneCmd) (r : Reply PruneAck).

(** The secret store: whether it is up, and whether it is quiesced. *)
Record StoreState := mkStoreState { ss_up : bool; ss_quiesced : bool }.

Record BW (W : Type) := mkBW {
  bw_runs : RunRows; bw_files : gmap (string * string) string; bw_staging : string; bw_generation : string; bw_lock : string;
  bw_store : StoreState; bw_world : W; bw_wire : list RunWire; bw_tick : nat }.
Arguments mkBW {W}.
Arguments bw_runs {W}.
Arguments bw_files {W}.
Arguments bw_staging {W}.
Arguments bw_generation {W}.
Arguments bw_lock {W}.
Arguments bw_store {W}.
Arguments bw_world {W}.
Arguments bw_wire {W}.
Arguments bw_tick {W}.

Record RunConfig := mkRunConfig {
  c_ControlPlaneVersion : string; c_SelfNodeID : string; c_StoreDataDir : string; c_DBPath : string;
  c_Apps : bool; c_Tiles : option TileVolumes; c_Inventory : bool; c_Ingest : bool; c_Router : option string;
  c_Retain : Z; c_Settings : bool; c_Jobs : bool; c_DB : bool; c_Restores : bool; c_CaptureLock : bool; c_SecretStore : bool }.

(** What answers from outside, by the tick of the call.  A call that writes a
    file answers with the bytes that reached it and its error. *)
Class RunEnv := {
  e_fault : nat → option error;                               (* statements on backup_runs *)
  e_clock : nat → Z;
  e_stamp : Z → string;                                       (* 20060102T150405Z *)
  e_rfc3339 : Z → string;
  e_claimed : nat → result (list ClaimedTarget);              (* store.ListClaimed *)
  e_restoring : nat → option string;                          (* Restores.Active *)
  e_key_ok : string → option error;                           (* backupxfer.ValidatePublicKey *)
  e_settings : nat → gmap string string;
  e_settings_fault : nat → option error;
  e_spec : string → result string;                            (* the spec's reason *)
  e_apps : nat → result (list (option App));
  e_manifest : nat → string → option BackupEstimate.Manifest; (* manifestFromLedger *)
  e_describe : nat → TargetHealth → string;                   (* RecordHealth, DescribeHealth *)
  e_dbBytes : nat → Z;                                        (* fileSize(cfg.DBPath) *)
  e_identity : nat → Z → Z;                                   (* MeasureIdentitySet *)
  e_storeBytes : nat → Z;                                     (* treeBytes *)
  e_free : nat → result Z;
  e_preflight : nat → string → string → Z → Reply PreflightAck;
  e_write : nat → string → WriteCmd → Reply WriteAck;
  e_prune : nat → string → PruneCmd → Reply PruneAck;
  e_file : nat → option error;                                (* a call on a staged file *)
  e_vacuum : nat → string * option error;
  e_acquire : nat → option error;
  e_expired : nat → bool;                                     (* sc.Ctx.Err() != nil *)
  e_readiness : nat → result string;
  e_sealKey : nat → result string;
  e_version : nat → result string;
  e_stop : nat → option error * bool;                         (* with whether the store is up afterwards *)
  e_start : nat → option error * bool;
  e_waitReady : nat → option error;
  e_copy : nat → string * result (Z * Z);
  e_assemble : nat → string * result (list string);           (* the archive, and its entries *)
  e_manifest_json : RunManifest → string;
  e_manifest_json_err : RunManifest → option error;
  e_seal : nat → string → string → string → string → string * result SealResult }.

(** The ingest endpoint's calls of a run. *)
Class Endpoint (W : Type) := {
  w_Open : string → string → string → M W (result string);
  w_Close : string → M W unit;
  w_Abandon : string → M W (option error) }.

Definition sentenceError (s : string) : error := errors_New s.
Definition errCaptureLockWait : error := sentenceError
  "This backup waited for a seal-key rotation to finish and ran out of time, so it did not capture anything. Run the backup again once the rotation has finished.".
Definition errNoVersionStampBackup : error := sentenceError
  "This control plane build carries no version stamp, so a backup it took could never be restored. Back up from a released image, which carries the stamp.".
Definition ErrRestoreActive : error := sentinel "ErrRestoreActive"
  "an app-volume restore is in progress; a backup run would write to — and prune — the target the restore is reading from".
Definition targetTransportExplanation : string :=
  "archives are written by the controlplane's own ingest to a disk attached to the controlplane, and a target on any other node would need that ingest to write to a REMOTE node's mount — §4.1 transport work, which claiming a disk on that node does not provide".
Definition no_archive : string := "so this backup captured nothing and wrote nothing: an archive without the secret store cannot be restored.".
Definition errStoreReadinessUnknown : error := sentenceError ("The secret store's readiness could not be read, " +:+ no_archive +:+ " Run the backup again once the store is ready.").
Definition errStoreSealUnknown : error := sentenceError ("The secret store's seal key id could not be read, " +:+ no_archive +:+ " The api log names the defect.").
Definition errStoreVersionUnknown : error := sentenceError ("The secret store's version could not be read, " +:+ no_archive +:+ " Run the backup again once the store is ready.").
Definition errStoreStopFailed : error := sentenceError ("The secret store could not be stopped for its copy, " +:+ no_archive +:+ " The store was started again; the job feed names the cause.").
Definition errStoreCopyFailed : error := sentenceError ("The secret store's data could not be copied, " +:+ no_archive +:+ " The store was started again; the job feed names the cause.").
Definition errStoreStartFailed : error := sentenceError
  "The secret store did not come back after its copy, so this backup wrote nothing. The store's own unit keeps restarting it, and the secret store alert says when it is back.".
Definition errStoreCaptureMissing : error := sentenceError
  "This backup has no copy of the secret store, so it wrote nothing: an archive without the secret store cannot be restored. Run the backup again.".
Definition errStoreCaptureNotConfigured : error := sentenceError
  "This api captures the secret store but knows no store data directory, so this backup wrote nothing. The api's configuration names it.".
Definition storeNotReady (clause : string) : error := sentenceError ("The secret store " +:+ clause +:+ ", " +:+ no_archive +:+ " Run the backup again once the store is ready.").
Definition appVolumeFanOutReason : string :=
  "This generation covers EVERY NODE (scope `" +:+ BackupScopeFull +:+ "`). " +:+
  "It contains the control-plane identity set — the database, the controlplane CA, the bus key and Headscale state — sealed by the controlplane, " +:+
  "plus every volume classed `critical` or `state` belonging to every installed app, each sealed on the node that hosts it and " +:+
  "landed as its own member under volumes/. " +:+
  "`bulk` volumes are a different lane (design/storage.md §4.7: streamed direct, never staged, not sealed) and that lane is not built; " +:+
  "they are listed by name and are not in here. `cache` volumes are never copied by design. " +:+
  "Every volume that was not captured is listed by name, with its reason, under `appVolumes.volumes`; one the run TRIED to take " +:+
  "and could not is marked `failed` and the run ends failed. `complete` is false whenever anything classified was missed — " +:+
  "when it is false, THIS IS NOT A COMPLETE BACKUP OF THIS CLUSTER. Read that list before assuming an app's data is in this generation.".

Section run.
Context `{Crypto} {W : Type} `{!Env W, !Endpoint W, !ScheduleCodec, !RunEnv} (cfg : RunConfig).
#[local] Abbreviation BWs := (BW W).

(** ** Calls *)
Definition oracle {A} (f : nat → A) : M BWs A := λ w,
  (f (bw_tick w), mkBW (bw_runs w) (bw_files w) (bw_staging w) (bw_generation w) (bw_lock w) (bw_store w) (bw_world w) (bw_wire w) (S (bw_tick w))).
Definition set_files (f : gmap (string * string) string → gmap (string * string) string) : M BWs unit := modify (λ w,
  mkBW (bw_runs w) (f (bw_files w)) (bw_staging w) (bw_generation w) (bw_lock w) (bw_store w) (bw_world w) (bw_wire w) (bw_tick w)).
Definition set_staging (dir : string) : M BWs unit := modify (λ w,
  mkBW (bw_runs w) (bw_files w) dir (bw_generation w) (bw_lock w) (bw_store w) (bw_world w) (bw_wire w) (bw_tick w)).
Definition set_generation (gen : string) : M BWs unit := modify (λ w,
  mkBW (bw_runs w) (bw_files w) (bw_staging w) gen (bw_lock w) (bw_store w) (bw_world w) (bw_wire w) (bw_tick w)).
Definition set_lock (job : string) : M BWs unit := modify (λ w,
  mkBW (bw_runs w) (bw_files w) (bw_staging w) (bw_generation w) job (bw_store w) (bw_world w) (bw_wire w) (bw_tick w)).
Definition set_store (s : StoreState) : M BWs unit := modify (λ w,
  mkBW (bw_runs w) (bw_files w) (bw_staging w) (bw_generation w) (bw_lock w) s (bw_world w) (bw_wire w) (bw_tick w)).
Definition wire (x : RunWire) : M BWs unit := modify (λ w,
  mkBW (bw_runs w) (bw_files w) (bw_staging w) (bw_generation w) (bw_lock w) (bw_store w) (bw_world w) (bw_wire w ++ [x]) (bw_tick w)).
Definition in_world {A} (m : M W A) : M BWs A := λ w,
  let '(a, x) := m (bw_world w) in
  (a, mkBW (bw_runs w) (bw_files w) (bw_staging w) (bw_generation w) (bw_lock w) (bw_store w) x (bw_wire w) (bw_tick w)).

(** A statement that writes the ledger, and one that reads it. *)
Definition rdb (op : option error → RunRows → RunRows * option error) : M BWs (option error) := λ w,
  let '(rows, e) := op (e_fault (bw_tick w)) (bw_runs w) in
  (e, mkBW rows (bw_files w) (bw_staging w) (bw_generation w) (bw_lock w) (bw_store w) (bw_world w) (bw_wire w) (S (bw_tick w))).
Definition rdbq {A} (op : option error → RunRows → result A) : M BWs (result A) := λ w,
  (op (e_fault (bw_tick w)) (bw_runs w),
   mkBW (bw_runs w) (bw_files w) (bw_staging w) (bw_generation w) (bw_lock w) (bw_store w) (bw_world w) (bw_wire w) (S (bw_tick w))).
Definition now : M BWs Z := oracle e_clock.
Definition fail {A} (e : error) : M BWs (result A) := mret (Fail e).
Definition done_ (o : RunOut) : M BWs (result RunOut) := mret (Ok o).
(** [x, err := m; if err != nil { return nil, err }] *)
Definition try {A B} (m : M BWs (result A)) (k : A → M BWs (result B)) : M BWs (result B) :=
  r ← m; match r with Ok a => k a | Fail e => fail e end.
Definition tryr {A B} (r : result A) (k : A → M BWs (result B)) : M BWs (result B) :=
  match r with Ok a => k a | Fail e => fail e end.

(** ** Staged files *)
Definition remove (p : string * string) : M BWs unit :=
  e ← oracle e_file; match e with None => set_files (delete p) | Some _ => mret tt end.
Definition file_stat (p : string * string) : M BWs (result string) :=
  e ← oracle e_file; w ← get;
  mret match e with
       | Some e => Fail e
       | None => match bw_files w !! p with Some c => Ok c | None => Fail (no_entry (snd p)) end
       end.
(** O_CREATE|O_EXCL *)
Definition file_create (p : string * string) : M BWs (result unit) :=
  e ← oracle e_file; w ← get;
  match e with
  | Some e => fail e
  | None => match bw_files w !! p with
            | Some _ => fail (file_exists (snd p))
            | None => _ ← set_files (<[p := EmptyString]>); mret (Ok tt)
            end
  end.
(** [atrest.EnsureSecretFile]: created empty where it is not there. *)
Definition file_ensure (p : string * string) : M BWs (option error) :=
  e ← oracle e_file; w ← get;
  match e with
  | Some e => mret (Some e)
  | None => match bw_files w !! p with Some _ => mret None | None => _ ← set_files (<[p := EmptyString]>); mret None end
  end.
Definition file_write (p : string * string) (bytes : string) : M BWs unit := set_files (<[p := bytes]>).

Definition in_dir (dir : string) (files : gmap (string * string) string) : list string :=
  sort_Strings (omap (λ kv, if String.eqb (fst (fst kv)) dir then Some (snd (fst kv)) else None) (map_to_list files)).
Fixpoint sweep_each (dir : string) (l : list string) : M BWs unit :=
  match l with
  | [] => mret tt
  | name :: l =>
      info ← file_stat (dir, name);
      _ ← match info with Ok _ => remove (dir, name) | Fail _ => mret tt end;
      sweep_each dir l
  end.
Definition CleanStaging (dir : string) : M BWs unit :=
  e ← oracle e_file; w ← get;
  match e with Some _ => mret tt | None => sweep_each dir (in_dir dir (bw_files w)) end.

(** ** The capture lock *)
Definition acquireCapture (jobID : string) : M BWs (result unit) :=
  if negb (c_CaptureLock cfg) then mret (Ok tt)
  else
    e ← oracle e_acquire;
    match e with
    | None => _ ← set_lock jobID; mret (Ok tt)
    | Some e => x ← oracle e_expired; fail (if (x : bool) then errCaptureLockWait else e)
    end.
Definition releaseCapture (jobID : string) : M BWs unit :=
  if negb (c_CaptureLock cfg) then mret tt
  else w ← get; if String.eqb (bw_lock w) jobID then set_lock EmptyString else mret tt.

(** ** Configuration *)
Definition retain : Z := if c_Retain cfg <=? 0 then BackupRetainGenerations else c_Retain cfg.
Definition resolveRetain : M BWs Z :=
  if negb (c_Settings cfg) then mret retain
  else
    st ← oracle e_settings;
    flt ← oracle e_settings_fault;
    mret match GetBackupSchedule flt (Some st) true with Fail _ => retain | Ok sched => Generations sched end.
Definition storeStagingBytes : M BWs Z :=
  if negb (c_SecretStore cfg) || String.eqb (Trim (c_StoreDataDir cfg)) EmptyString then mret 0 else oracle e_storeBytes.
Definition fileSize (path : string) : M BWs Z := if String.eqb (Trim path) EmptyString then mret 0 else oracle e_dbBytes.
Definition ParseRunSpec (raw : string) : result string :=
  match (if String.eqb raw EmptyString then Ok EmptyString else e_spec raw) with
  | Fail e => Fail (wrapf ("invalid spec: " +:+ err_text e) e)
  | Ok reason => Ok (if String.eqb reason ReasonScheduled then reason else ReasonManual)
  end.

(** ** Step 1: validate *)
Definition already_running (r : BackupRun) : error := errors_New
  ("a backup is already running (job " +:+ br_JobID r +:+ ", started " +:+ e_rfc3339 (br_StartedAt r) +:+
   "). Only one runs at a time — two archives staged at once is how a backup fills the disk it is protecting").

(** The refusals that look at the claimed target. *)
Definition target_refusal (target : ClaimedTarget) : option error :=
  let self := Trim (c_SelfNodeID cfg) in
  if String.eqb self EmptyString then Some (errors_New
    "this api does not know which node it runs on (RASPUTIN_SELF_NODE_ID is unset), and a backup run has to know that before it will stage an archive for an agent to read. Nothing was staged")
  else if negb (String.eqb (ct_NodeID target) self) then Some (errors_New
    ("the claimed backup target (" +:+ displayLabel (ct_Label target) +:+ ", partUuid " +:+ ct_PartUUID target +:+ ") is on node " +:+ ct_NodeID target +:+
     ", and this api runs on " +:+ self +:+ ". A run seals the identity archive on the control plane and hands the agent BESIDE IT a file name to find, and the ingest " +:+
     "endpoint writes volume members under the mount that agent reports; a target on another node has no such handoff — " +:+ targetTransportExplanation +:+
     ". Claim a target on " +:+ self))
  else if String.eqb (Trim (ct_PartUUID target)) EmptyString then Some (errors_New
    ("the claimed backup target (" +:+ displayLabel (ct_Label target) +:+ " on " +:+ ct_NodeID target +:+
     ") has no partition UUID recorded, which is the only identifier a target has. Re-claim the disk"))
  else if String.eqb (Trim (ct_PublicKey target)) EmptyString then Some (errors_New
    ("the claimed backup target (" +:+ displayLabel (ct_Label target) +:+ ", partUuid " +:+ ct_PartUUID target +:+
     ") has no archive public key, so an archive cannot be encrypted to it — and this will not write one in clear. " +:+
     "Targets claimed before encryption was configured, or under the earlier symmetric design, are in this state; re-claim the disk to mint a keypair"))
  else match e_key_ok (ct_PublicKey target) with
       | Some e => Some (wrapf ("the claimed backup target's archive public key is unusable: archiveKey.publicKey: " +:+ err_text e +:+ ". Nothing was written; re-claim the disk") e)
       | None => None
       end.
Definition health_refusal (target : ClaimedTarget) : M BWs (option error) :=
  match ct_Health target with
  | None => mret None
  | Some h =>
      if negb (Unhealthy (th_State h)) then mret None
      else
        t ← now;
        if negb (HealthFresh h t) then mret None
        else
          d ← oracle (λ n, e_describe n h);
          mret (Some (errors_New ("the backup target " +:+ displayLabel (ct_Label target) +:+ " has been " +:+ d +:+ "; nothing was written. " +:+ healthNextStep (th_State h))))
  end.
Definition wiring_refusal : option error :=
  if negb (c_Apps cfg) || bool_decide (c_Tiles cfg = None) then Some (errors_New
    ("this api is not wired to the installed-app list or the tile catalog, so it cannot know which app volumes to capture. " +:+
     "Refusing rather than writing an archive that would silently contain no app data"))
  else if negb (c_Ingest cfg) then Some (errors_New
    ("this api has no backup ingest endpoint, so no app volume could land anywhere. " +:+ "Refusing rather than writing a generation that would record every volume as failed"))
  else if bool_decide (c_Router cfg = None) then Some (errors_New
    "this api cannot route uploads: it has no transfer router, so it cannot tell the nodes where to upload volumes. Nothing was staged")
  else None.

(** What follows the refusals. *)
Definition start_run (jobID reason : string) (target : ClaimedTarget) : M BWs (result RunOut) :=
  keep ← resolveRetain;
  t ← now;
  let gen := BackupGenerationID (e_stamp t) jobID BackupScopeFull in
  _ ← set_generation gen;
  e ← rdb (λ flt rows, StartRun flt rows jobID reason BackupScopeFull t);
  match e with
  | Some e => fail (wrapf ("record backup run: " +:+ err_text e) e)
  | None =>
      e ← rdb (λ flt rows, BindRunTarget flt rows jobID (ct_JobID target) (ct_PartUUID target) (ct_NodeID target) (ct_KeyID target));
      match e with
      | Some e => fail (wrapf ("bind run to target: " +:+ err_text e) e)
      | None => done_ (OTarget (mkRunTarget (ct_JobID target) (ct_PartUUID target) (ct_NodeID target) (ct_Label target) (ct_MountPath target)
                  (ct_KeyID target) (ct_PublicKey target) gen BackupScopeFull reason keep))
      end
  end.

Definition runValidate (jobID raw : string) : M BWs (result RunOut) :=
  tryr (ParseRunSpec raw) (λ reason,
  if String.eqb (Trim (c_ControlPlaneVersion cfg)) EmptyString then fail errNoVersionStampBackup
  else
    running ← rdbq ListRunning;
    match running with
    | Fail e => fail (wrapf ("in-flight runs: " +:+ err_text e) e)
    | Ok running =>
        match head (filter (λ r, br_JobID r ≠ jobID) running) with
        | Some r => fail (already_running r)
        | None =>
            active ← (if c_Restores cfg then oracle e_restoring else mret None);
            match active with
            | Some j => fail (wrapf (err_text ErrRestoreActive +:+ " (restore job " +:+ j +:+ "). Wait for it to finish") ErrRestoreActive)
            | None =>
                claimed ← oracle e_claimed;
                match claimed with
                | Fail e => fail (wrapf ("claimed targets: " +:+ err_text e) e)
                | Ok [] => fail (errors_New "no backup target is claimed, so there is nowhere to write. Claim a disk under Storage → Backups first — until then nothing on this cluster is backed up anywhere")
                | Ok (target :: _) =>
                    match target_refusal target with
                    | Some e => fail e
                    | None =>
                        h ← health_refusal target;
                        match h with
                        | Some e => fail e
                        | None => match wiring_refusal with Some e => fail e | None => start_run jobID reason target end
                        end
                    end
                end
            end
        end
    end).

(** ** Step 2: preflight *)
Definition preflight_ack (tgt : runTarget) (est : TargetEstimate) (ack : PreflightAck) : M BWs (result RunOut) :=
  if negb (pa_Present ack) then
    t ← now;
    _ ← wire (WHealth (rt_PartUUID tgt) BackupTargetHealthMissing);
    d ← oracle (λ n, e_describe n (mkHealth BackupTargetHealthMissing t));
    fail (errors_New ("the backup target " +:+ displayLabel (rt_Label tgt) +:+ " (partUuid " +:+ rt_PartUUID tgt +:+ ") is not attached to " +:+ rt_NodeID tgt +:+
      " — it was unplugged. Nothing was written. Health: " +:+ d))
  else if negb (pa_OK ack) then
    let refused := refusalError ("backup preflight on " +:+ rt_NodeID tgt) (pa_Refusal ack) (pa_Detail ack) in
    if String.eqb (pa_Refusal ack) BackupRefusalInsufficientSpace then fail (wrapf (err_text refused +:+ ". " +:+ Explain_estimate est) refused)
    else fail refused
  else
    let stagingRoot := Trim (pa_StagingRoot ack) in
    match checkStagingRoot stagingRoot with
    | Some e =>
        if String.eqb stagingRoot EmptyString then
          fail (errors_New ("the agent on " +:+ rt_NodeID tgt +:+ " did not say where its backup staging root is, so there is nowhere to stage an archive it will read. " +:+
            "That field arrived with the fix for the staging-root disagreement; this node is running an agent older than its api. Nothing was staged"))
        else fail (wrapf ("the agent on " +:+ rt_NodeID tgt +:+ " named " +:+ quote stagingRoot +:+ " as its backup staging root: " +:+ err_text e +:+ ". Nothing was staged") e)
    | None =>
        let mountPath := Trim (pa_MountPath ack) in
        match checkStagingRoot mountPath with
        | Some e => fail (wrapf ("the agent on " +:+ rt_NodeID tgt +:+ " named " +:+ quote mountPath +:+ " as the target's mount path: " +:+ err_text e +:+ ". Nothing was staged") e)
        | None =>
            _ ← set_staging stagingRoot;
            done_ (OPreflight (mkRunPreflight (rt_PartUUID tgt) mountPath (pa_TotalBytes ack) (pa_FreeBytes ack) (pa_RequiredBytes ack)
              (Z.of_nat (length (pa_Generations ack))) est stagingRoot))
        end
    end.

Definition prior_sizes (want : gset string) : M BWs (gmap string PriorVolumeSize) :=
  if negb (c_Jobs cfg) || Nat.eqb (size want) 0 then mret ∅
  else
    runs ← rdbq (λ flt rows, ListRuns flt rows priorVolumeScanLimit);
    m ← oracle e_manifest;
    mret (PriorVolumeSizes (match runs with Ok l => Ok (br_JobID <$> l) | Fail e => Fail e end) m want).

Definition runPreflight (jobID : string) (prior : Prior) : M BWs (result RunOut) :=
  tryr (priorRunTarget prior) (λ tgt,
  db ← fileSize (c_DBPath cfg);
  identityBytes ← oracle (λ n, e_identity n db);
  match c_Tiles cfg with
  | Some tiles =>
      if negb (c_Apps cfg) then fail (errors_New "this api cannot enumerate installed apps, so it cannot size the backup")
      else
        installed ← oracle e_apps;
        match installed with
        | Fail e => fail (wrapf ("list installed apps to size the backup: " +:+ err_text e) e)
        | Ok installed =>
            let plan := PlanAppVolumes installed tiles in
            sizes ← prior_sizes (list_to_set (volume_Member <$> Stage plan));
            let est := EstimateTargetPayload identityBytes (Stage plan) sizes in
            _ ← rdb (λ flt rows, MarkRunPreflight flt rows jobID est);
            r ← oracle (λ n, e_preflight n (rt_NodeID tgt) (rt_PartUUID tgt) (PayloadBytes est));
            _ ← wire (WPreflight (rt_NodeID tgt) (rt_PartUUID tgt) (PayloadBytes est) r);
            match r with
            | NoReply e => fail (wrapf ("backup preflight rpc to " +:+ rt_NodeID tgt +:+ ": " +:+ err_text e) e)
            | BadReply e => fail (wrapf ("backup preflight: unreadable reply from " +:+ rt_NodeID tgt +:+ ": " +:+ err_text e) e)
            | Replied ack => preflight_ack tgt est ack
            end
        end
  | None => fail (errors_New "this api cannot enumerate installed apps, so it cannot size the backup")
  end).

(** ** Step 3: snapshot_db *)
Definition SnapshotDB (dst : string * string) : M BWs (result Z) :=
  if negb (c_DB cfg) then fail (errors_New "no database handle to snapshot")
  else
    st ← file_stat dst;
    match st with
    | Ok _ => fail (errors_New ("refusing to snapshot onto " +:+ filepath_Join [fst dst; snd dst] +:+
        ": it already exists, and adopting a previous run's leftover as this run's database is how a stale backup gets written"))
    | Fail _ =>
        made ← file_ensure dst;
        match made with
        | Some e => fail (wrapf ("snapshot " +:+ snd dst +:+ ": " +:+ err_text e) e)
        | None =>
            vac ← oracle e_vacuum;
            _ ← file_write dst (fst vac);
            match snd vac with
            | Some e => _ ← remove dst; fail (wrapf ("VACUUM INTO " +:+ snd dst +:+ ": " +:+ err_text e) e)
            | None =>
                info ← file_stat dst;
                match info with
                | Fail e => fail (wrapf ("snapshot " +:+ snd dst +:+ ": " +:+ err_text e) e)
                | Ok c => mret (Ok (byteCount (Z.of_nat (String.length c))))
                end
            end
        end
    end.

Definition runSnapshotDB (jobID : string) (prior : Prior) : M BWs (result RunOut) :=
  tryr (priorRunTarget prior) (λ tgt,
  try (acquireCapture jobID) (λ _,
  tryr (runStagingDir prior) (λ stagingDir,
  made ← oracle e_file;
  match made with
  | Some e => fail (wrapf ("staging dir " +:+ stagingDir +:+ ": " +:+ err_text e) e)
  | None =>
      _ ← CleanStaging stagingDir;
      dbBytes ← fileSize (c_DBPath cfg);
      identityBytes ← oracle (λ n, e_identity n dbBytes);
      storeBytes ← storeStagingBytes;
      free ← oracle e_free;
      tryr (PlanStaging free stagingDir dbBytes identityBytes storeBytes 0 0) (λ budget,
      let name := stagingName (rt_GenerationID tgt) "db" in
      tryr (stagedPath prior name) (λ dst,
      _ ← remove dst;
      size ← SnapshotDB dst;
      match size with
      | Fail e => _ ← remove dst; fail e
      | Ok size => done_ (OSnapshot (mkRunSnapshot name size budget))
      end))
  end))).

(** ** Step 3b: snapshot_store *)
Inductive coldCopyStage := coldCopyStop | coldCopyCopy | coldCopyStart | coldCopyReady.

Definition store_Stop : M BWs (option error) :=
  r ← oracle e_stop; w ← get; _ ← set_store (mkStoreState (snd r) (ss_quiesced (bw_store w))); mret (fst r).
Definition store_Start : M BWs (option error) :=
  r ← oracle e_start; w ← get; _ ← set_store (mkStoreState (snd r) (ss_quiesced (bw_store w))); mret (fst r).
Definition quiesce (on : bool) : M BWs unit := w ← get; set_store (mkStoreState (ss_up (bw_store w)) on).

Definition stageStoreCapture (dst : string * string) : M BWs (result (Z * Z)) :=
  try (file_create dst) (λ _, c ← oracle e_copy; _ ← file_write dst (fst c); mret (snd c)).

(** Up to the deferred release of the quiesce. *)
Definition coldCopy_body (dst : string * string) : M BWs ((Z * Z) + coldCopyStage) :=
  e ← store_Stop;
  match e with
  | Some _ => _ ← store_Start; mret (inr coldCopyStop)
  | None =>
      c ← stageStoreCapture dst;
      match c with
      | Fail _ => _ ← remove dst; _ ← store_Start; mret (inr coldCopyCopy)
      | Ok n =>
          e ← store_Start;
          match e with
          | Some _ => _ ← remove dst; mret (inr coldCopyStart)
          | None =>
              e ← oracle e_waitReady;
              match e with
              | Some _ => _ ← remove dst; mret (inr coldCopyReady)
              | None => mret (inl n)
              end
          end
      end
  end.
Definition coldCopy (dst : string * string) : M BWs ((Z * Z) + coldCopyStage) :=
  _ ← quiesce true; r ← coldCopy_body dst; _ ← quiesce false; mret r.

Definition runSnapshotStore (prior : Prior) : M BWs (result RunOut) :=
  tryr (priorRunTarget prior) (λ tgt,
  tryr (priorResult prior "snapshot_db" asSnapshot) (λ _,
  if String.eqb (Trim (c_StoreDataDir cfg)) EmptyString then fail errStoreCaptureNotConfigured
  else
    rd ← oracle e_readiness;
    match rd with
    | Fail _ => fail errStoreReadinessUnknown
    | Ok notReady =>
        if negb (String.eqb notReady EmptyString) then fail (storeNotReady notReady)
        else
          key ← oracle e_sealKey;
          match key with
          | Fail _ => fail errStoreSealUnknown
          | Ok keyID =>
              v ← oracle e_version;
              match v with
              | Fail _ => fail errStoreVersionUnknown
              | Ok version =>
                  if String.eqb (Trim version) EmptyString || Nat.ltb 256 (String.length version) then fail errStoreVersionUnknown
                  else
                    let name := stagingName (rt_GenerationID tgt) "store" in
                    tryr (stagedPath prior name) (λ dst,
                    c ← coldCopy dst;
                    match c with
                    | inr coldCopyStop => fail errStoreStopFailed
                    | inr coldCopyCopy => fail errStoreCopyFailed
                    | inr _ => fail errStoreStartFailed
                    | inl (files, bytes) => done_ (OStore (mkRunStore name files (byteCount bytes) version keyID))
                    end)
              end
          end
    end)).

(** ** Step 4: fan_out *)
Definition runFanOutStep (jobID : string) (prior : Prior) : M BWs (result RunOut) :=
  tryr (priorRunTarget prior) (λ tgt,
  tryr (priorResult prior "preflight" asPreflight) (λ pre,
  match c_Tiles cfg with
  | Some tiles =>
      if negb (c_Apps cfg) then fail (errors_New "this api cannot enumerate installed apps, so it cannot know which app volumes to capture")
      else if negb (c_Ingest cfg) then fail (errors_New "this api has no backup ingest endpoint for volumes to land at")
      else
        installed ← oracle e_apps;
        match installed with
        | Fail e => fail (wrapf ("list installed apps: " +:+ err_text e) e)
        | Ok installed =>
            let plan := PlanAppVolumes installed tiles in
            match c_Router cfg with
            | None => fail (errors_New "this api cannot route uploads to its ingest endpoint")
            | Some router =>
                let mountPath := Trim (rp_MountPath pre) in
                match checkStagingRoot mountPath with
                | Some e => fail (wrapf ("the recorded mount path " +:+ quote mountPath +:+ " is unusable: " +:+ err_text e) e)
                | None =>
                    opened ← in_world (w_Open (filepath_Join [mountPath; BackupGenerationsDir]) (rt_GenerationID tgt) jobID);
                    match opened with
                    | Fail e => fail (wrapf ("open generation " +:+ rt_GenerationID tgt +:+ " for ingest: " +:+ err_text e) e)
                    | Ok genDir =>
                        report ← in_world (runFanOut (mkOpts (c_Inventory cfg) jobID (rt_GenerationID tgt) true (Some router) (rt_PublicKey tgt)
                                   (rt_KeyID tgt) (rt_Scope tgt) (Stage plan) (Skipped plan) (plan_Enumeration plan)));
                        _ ← in_world (w_Close (rt_GenerationID tgt));
                        tryr report (λ report, done_ (OFanOut (mkRunFanOut genDir report)))
                    end
                end
            end
        end
  | None => fail (errors_New "this api cannot enumerate installed apps, so it cannot know which app volumes to capture")
  end)).

(** ** Step 5: assemble *)
(** What [Assemble] decides of the manifest. *)
Definition assembled (tgt : runTarget) (report : AppVolumeReport) (entries : list string) : result RunManifest :=
  let fanOut := if a_Enumerated report then report else unenumeratedReport in
  let scope := Trim (rt_Scope tgt) in
  if String.eqb scope EmptyString then
    Fail (errors_New ("refusing to assemble generation " +:+ rt_GenerationID tgt +:+ " with no scope: the scope is the one field every surface repeats"))
  else Ok (mkRunManifest (rt_GenerationID tgt) scope (Complete fanOut) appVolumeFanOutReason (rt_KeyID tgt) fanOut entries).

Definition removeIfSet (p : option (string * string)) : M BWs unit := match p with Some p => remove p | None => mret tt end.

(** The staged copy of the secret store, where one is captured. *)
Definition store_copy (prior : Prior) (snapPath : string * string) : M BWs (result (option (string * string))) :=
  if negb (c_SecretStore cfg) then mret (Ok None)
  else
    match priorResult prior "snapshot_store" asStore with
    | Fail _ => _ ← remove snapPath; fail errStoreCaptureMissing
    | Ok sres =>
        match stagedPath prior (rc_StagingName sres) with
        | Fail e => _ ← remove snapPath; fail e
        | Ok p =>
            st ← file_stat p;
            match st with
            | Fail _ => _ ← remove snapPath; fail errStoreCaptureMissing
            | Ok _ => mret (Ok (Some p))
            end
        end
    end.
Definition copy_size (p : option (string * string)) : M BWs Z :=
  match p with
  | None => mret 0
  | Some p => st ← file_stat p; mret match st with Ok c => byteCount (Z.of_nat (String.length c)) | Fail _ => 0 end
  end.

(** From the archive's creation on. *)
Definition assemble_into (jobID : string) (tgt : runTarget) (report : AppVolumeReport) (name : string) (dst snapPath : string * string)
    (capture : option (string * string)) : M BWs (result RunOut) :=
  _ ← remove dst;
  made ← file_create dst;
  match made with
  | Fail e => fail (wrapf ("stage archive: " +:+ err_text e) e)
  | Ok _ =>
      tar ← oracle e_assemble;
      _ ← file_write dst (fst tar);
      closed ← oracle e_file;
      let manifest := match snd tar with Fail e => Fail e | Ok entries => assembled tgt report entries end in
      match manifest, closed with
      | Fail e, _ | Ok _, Some e => _ ← remove dst; _ ← remove snapPath; _ ← removeIfSet capture; fail e
      | Ok m, None =>
          _ ← remove snapPath;
          _ ← removeIfSet capture;
          match e_manifest_json_err m with
          | Some e => _ ← remove dst; fail e
          | None =>
              info ← file_stat dst;
              match info with
              | Fail e => fail e
              | Ok c =>
                  _ ← releaseCapture jobID;
                  done_ (OAssemble (mkRunAssemble name (byteCount (Z.of_nat (String.length c))) (rm_Scope m) (Z.of_nat (length (rm_Entries m)))
                    (volumeOutcome (rm_AppVolumes m) (rm_Complete m)) (rm_Warning m) (e_manifest_json m)))
              end
          end
      end
  end.

Definition runAssemble (jobID : string) (prior : Prior) : M BWs (result RunOut) :=
  tryr (priorRunTarget prior) (λ tgt,
  tryr (priorResult prior "snapshot_db" asSnapshot) (λ snap,
  tryr (priorResult prior "fan_out" asFanOut) (λ fan,
  tryr (stagedPath prior (rn_StagingName snap)) (λ snapPath,
  try (store_copy prior snapPath) (λ capture,
  dbBytes ← fileSize (c_DBPath cfg);
  identityBytes ← oracle (λ n, e_identity n dbBytes);
  storeBytes ← copy_size capture;
  free ← oracle e_free;
  tryr (PlanStaging free (fst snapPath) dbBytes identityBytes storeBytes 0 0) (λ _,
  let name := stagingName (rt_GenerationID tgt) "tar" in
  tryr (stagedPath prior name) (λ dst,
  assemble_into jobID tgt (rf_Report fan) name dst snapPath capture))))))).

(** ** Step 6: seal *)
Definition seal_into (tgt : runTarget) (scope name : string) (src dst : string * string) (plain : string) : M BWs (result RunOut) :=
  _ ← remove dst;
  made ← file_create dst;
  match made with
  | Fail e => fail (wrapf ("stage sealed archive: " +:+ err_text e) e)
  | Ok _ =>
      s ← oracle (λ n, e_seal n plain (rt_PublicKey tgt) (rt_KeyID tgt) scope);
      _ ← file_write dst (fst s);
      synced ← match snd s with Ok _ => oracle e_file | Fail _ => mret None end;
      closed ← oracle e_file;
      match snd s, synced, closed with
      | Ok res, None, None => _ ← remove src; done_ (OSeal (mkRunSeal name (Some res)))
      | Fail e, _, _ | Ok _, Some e, _ | Ok _, None, Some e => _ ← remove dst; _ ← remove src; fail e
      end
  end.
Definition runSeal (prior : Prior) : M BWs (result RunOut) :=
  tryr (priorRunTarget prior) (λ tgt,
  tryr (priorResult prior "assemble" asAssemble) (λ asm,
  tryr (stagedPath prior (ra_StagingName asm)) (λ src,
  opened ← file_stat src;
  match opened with
  | Fail e => fail (wrapf ("open assembled archive: " +:+ err_text e) e)
  | Ok plain =>
      let name := stagingName (rt_GenerationID tgt) "sealed" in
      tryr (stagedPath prior name) (λ dst, seal_into tgt (ra_Scope asm) name src dst plain)
  end))).

(** ** Step 7: write *)
(** The zero value of an ack's generation. *)
Definition ack_generation (ack : WriteAck) : BackupGeneration :=
  default (mkGeneration EmptyString EmptyString EmptyString 0 EmptyString zeroTime EmptyString) (wa_Generation ack).
Definition runWrite (jobID : string) (prior : Prior) : M BWs (result RunOut) :=
  tryr (priorRunTarget prior) (λ tgt,
  tryr (priorResult prior "assemble" asAssemble) (λ asm,
  tryr (priorResult prior "seal" asSeal) (λ sealed,
  match rs_Seal sealed with
  | None => fail (errors_New "refusing to write: the seal step produced no digest, so nothing can verify what would be written")
  | Some seal =>
      if String.eqb (sr_Digest seal) EmptyString then
        fail (errors_New "refusing to write: the seal step produced no digest, so nothing can verify what would be written")
      else
        let cmd := mkWriteCmd (rt_PartUUID tgt) (rt_GenerationID tgt) (rs_StagingName sealed) (sr_Digest seal) (sr_SizeBytes seal) (ra_ManifestJSON asm) in
        r ← oracle (λ n, e_write n (rt_NodeID tgt) cmd);
        _ ← wire (WWrite (rt_NodeID tgt) cmd r);
        match r with
        | NoReply e => fail (wrapf ("backup write rpc to " +:+ rt_NodeID tgt +:+ ": " +:+ err_text e) e)
        | BadReply e => fail (wrapf ("backup write: unreadable reply from " +:+ rt_NodeID tgt +:+ ": " +:+ err_text e) e)
        | Replied ack =>
            if negb (wa_OK ack) then fail (refusalError ("backup write to " +:+ rt_NodeID tgt) (wa_Refusal ack) (wa_Detail ack))
            else
              let g := ack_generation ack in
              _ ← match stagedPath prior (rs_StagingName sealed) with Ok p => remove p | Fail _ => mret tt end;
              _ ← rdb (λ flt rows, MarkRunGeneration flt rows jobID (bg_ID g) (bg_Digest g) (bg_SizeBytes g)
                       (vo_AppVolumesCaptured (ra_Outcome asm)) (vo_AppVolumesSkipped (ra_Outcome asm)) (vo_AppVolumesFailed (ra_Outcome asm)));
              done_ (OWrite (mkRunWrite (bg_ID g) (bg_ArchivePath g) (bg_SizeBytes g) (bg_Digest g) (wa_FreeBytes ack)))
        end
  end))).

(** ** Step 8: prune *)
Definition retention (asm : runAssembleResult) (wrote : runWriteResult) (ack : PruneAck) (warning : string) (t : Z) : RunResult :=
  let o := ra_Outcome asm in
  mkResult (rw_GenerationID wrote) (rw_Digest wrote) (rw_SizeBytes wrote) (vo_AppVolumesCaptured o) (vo_AppVolumesSkipped o) (vo_AppVolumesFailed o)
    (ra_Scope asm) (vo_Complete o) warning (Z.of_nat (length (pk_Kept ack))) (Z.of_nat (length (pk_Pruned ack))) t.
Definition runPrune (jobID : string) (prior : Prior) : M BWs (result RunOut) :=
  tryr (priorRunTarget prior) (λ tgt,
  tryr (priorResult prior "assemble" asAssemble) (λ asm,
  tryr (priorResult prior "write" asWrite) (λ wrote,
  let keep := if rt_Retain tgt <? MinBackupRetain then retain else rt_Retain tgt in
  let cmd := mkPruneCmd (rt_PartUUID tgt) keep (rw_GenerationID wrote) in
  r ← oracle (λ n, e_prune n (rt_NodeID tgt) cmd);
  _ ← wire (WPrune (rt_NodeID tgt) cmd r);
  match r with
  | NoReply e => fail (wrapf ("backup prune rpc to " +:+ rt_NodeID tgt +:+ ": " +:+ err_text e) e)
  | BadReply e => fail (wrapf ("backup prune: unreadable reply from " +:+ rt_NodeID tgt +:+ ": " +:+ err_text e) e)
  | Replied ack =>
      if negb (pk_OK ack) then fail (refusalError ("backup prune on " +:+ rt_NodeID tgt) (pk_Refusal ack) (pk_Detail ack))
      else
        t ← now;
        let '(errMsg, warning) := runVerdict (ra_Outcome asm) in
        if negb (String.eqb errMsg EmptyString) then
          _ ← rdb (λ flt rows, MarkRunRetention flt rows jobID (retention asm wrote ack errMsg t));
          fail (errors_New errMsg)
        else
          e ← rdb (λ flt rows, FinishRun flt rows jobID (retention asm wrote ack warning t));
          match e with
          | Some e => fail (wrapf ("record backup run outcome: " +:+ err_text e) e)
          | None => done_ (OPrune (pk_Kept ack) (pk_Pruned ack) keep)
          end
  end))).

(** ** The terminal hook *)
Definition finalizeRunRow (jobID errMsg : string) : M BWs unit :=
  _ ← releaseCapture jobID;
  row ← rdbq (λ flt rows, GetRun flt rows jobID);
  match row with
  | Ok (Some row) =>
      w ← get;
      _ ← (if String.eqb (bw_staging w) EmptyString then mret tt else CleanStaging (bw_staging w));
      _ ← (if c_Ingest cfg && negb (String.eqb (bw_generation w) EmptyString)
           then _ ← in_world (w_Abandon (bw_generation w)); mret tt else mret tt);
      if bool_decide (br_Status row ≠ RunRunning) then mret tt
      else
        t ← now;
        _ ← rdb (λ flt rows, FailRun flt rows jobID
                  (if String.eqb errMsg EmptyString then "job ended without recording a backup generation" else errMsg) t);
        mret tt
  | _ => mret tt
  end.

(** ** At start *)
Definition reconcile_run (job_of : string → result (option Job)) (row : BackupRun) : M BWs unit :=
  match job_of (br_JobID row) with
  | Ok (Some j) =>
      if negb (bool_decide (j_Status j = StatusFailed)) && negb (bool_decide (j_Status j = StatusSucceeded)) then mret tt
      else
        t ← now;
        _ ← rdb (λ flt rows, FailRun flt rows (br_JobID row)
                  (if String.eqb (j_Error j) EmptyString then "job reached a terminal state without recording a backup generation" else j_Error j) t);
        mret tt
  | _ => mret tt
  end.
Definition ReconcileStrandedRuns (job_of : string → result (option Job)) : M BWs (option error) :=
  rows ← rdbq ListRunning;
  match rows with
  | Fail e => mret (Some e)
  | Ok rows => _ ← for_each (reconcile_run job_of) rows; mret None
  end.

(** ** The workflow *)
Record RStep := mkRStep { rst_Name : string; rst_Retries : nat; rst_Do : Prior → M BWs (result RunOut) }.
Definition RunWorkflow (jobID raw : string) : list RStep :=
  [mkRStep "validate" 0 (λ _, runValidate jobID raw);
   mkRStep "preflight" 1 (runPreflight jobID);
   mkRStep "snapshot_db" 0 (runSnapshotDB jobID)] ++
  (if c_SecretStore cfg then [mkRStep "snapshot_store" 0 runSnapshotStore] else []) ++
  [mkRStep "fan_out" 0 (runFanOutStep jobID);
   mkRStep "assemble" 0 (runAssemble jobID);
   mkRStep "seal" 0 runSeal;
   mkRStep "write" 0 (runWrite jobID);
   mkRStep "prune" 1 (runPrune jobID)].

Fixpoint run_attempts (body : M BWs (result RunOut)) (n : nat) : M BWs (result RunOut) :=
  r ← body;
  match r, n with
  | Ok v, _ => mret (Ok v)
  | Fail e, O => mret (Fail e)
  | Fail e, S n => run_attempts body n
  end.
(** The job's error; [None] is success. *)
Fixpoint run_backup_steps (steps : list RStep) (prior : Prior) : M BWs (option error) :=
  match steps with
  | [] => mret None
  | st :: steps =>
      r ← run_attempts (rst_Do st prior) (rst_Retries st);
      match r with
      | Ok v => run_backup_steps steps (<[rst_Name st := v]> prior)
      | Fail e => mret (Some e)
      end
  end.
Definition run_backup (jobID raw : string) : M BWs (option error) :=
  e ← run_backup_steps (RunWorkflow jobID raw) ∅;
  _ ← finalizeRunRow jobID (match e with Some e => err_text e | None => EmptyString end);
  mret e.
End run.
