(* ===== verification/BackupRunFacts.v ===== *)
(** * What a backup run leaves on the record

    The row of a run against the requests it made of the agent, for a ledger
    that answers. *)
From Stdlib Require Import Ascii String.
From S2P Require Import Prelude GoStrings GoRunes GoPath GoSort Ledger NodeUpdateStore GoDuration BackupMembers BackupPlan BackupReport BackupGrants BackupIngest BackupFanOut BackupEstimate BackupRuns BackupSchedule BackupState BackupTarget BackupFanOutFacts BackupRun.
Open Scope string_scope.
Open Scope list_scope.
Open Scope Z_scope.
#[local] Arguments String.eqb : simpl never.
#[local] Arguments String.append : simpl nomatch.

(** ** Requests to write *)
Definition is_write (x : RunWire) : Prop := match x with WWrite _ _ _ => True | _ => False end.
#[export] Instance is_write_dec x : Decision (is_write x).
Proof. destruct x; apply _. Defined.
Definition acked (r : Reply WriteAck) : option WriteAck := match r with Replied ack => if wa_OK ack then Some ack else None | _ => None end.

Section facts.
Context `{Crypto} {W : Type} `{!Env W, !Endpoint W, !ScheduleCodec, !RunEnv} (cfg : RunConfig).
Context (steady : ∀ n, e_fault n = None) (jobID : string) (rows0 : RunRows) (wire0 : list RunWire).
Context (fresh : jobID ∉ br_JobID <$> rows0).
#[local] Abbreviation BWs := (BW W).
Implicit Types (w : BWs).

(** ** The ledger and the transcript are only touched where it says so *)
Definition on (P : RunRows → list RunWire → Prop) (w : BWs) : Prop := P (bw_runs w) (bw_wire w).

Lemma on_oracle {A} P (f : nat → A) : preserves (on P) (oracle f).
Proof. by intros w. Qed.
Lemma on_now P : preserves (on P) now.
Proof. by intros w. Qed.
Lemma on_files P f : preserves (on P) (set_files f).
Proof. by intros w. Qed.
Lemma on_staging P d : preserves (on P) (set_staging d).
Proof. by intros w. Qed.
Lemma on_generation P d : preserves (on P) (set_generation d).
Proof. by intros w. Qed.
Lemma on_lock P d : preserves (on P) (set_lock d).
Proof. by intros w. Qed.
Lemma on_store P s : preserves (on P) (set_store s).
Proof. by intros w. Qed.
Lemma on_world {A} P (m : M W A) : preserves (on P) (in_world m).
Proof. intros w Hw. unfold in_world. by destruct (m (bw_world w)). Qed.
Lemma on_rdbq {A} P (op : option error → RunRows → result A) : preserves (on P) (rdbq op).
Proof. by intros w. Qed.
Lemma on_fail {A} P e : preserves (on P) (fail (A:=A) e).
Proof. by intros w. Qed.
Lemma on_done P o : preserves (on P) (done_ o).
Proof. by intros w. Qed.
#[local] Hint Resolve on_oracle on_now on_files on_staging on_generation on_lock on_store on_world on_rdbq on_fail on_done : triples.
Lemma on_try {A B} P (m : M BWs (result A)) (k : A → M BWs (result B)) : preserves (on P) m → (∀ a, preserves (on P) (k a)) → preserves (on P) (try m k).
Proof. intros Hm Hk. unfold try. apply preserves_bind; [done|]. intros [a|e]; auto with triples. Qed.
Lemma on_tryr {A B} P (r : result A) (k : A → M BWs (result B)) : (∀ a, preserves (on P) (k a)) → preserves (on P) (tryr r k).
Proof. intros Hk. unfold tryr. destruct r; auto with triples. Qed.
Ltac keep_on := try match goal with |- triple ?P ?m _ => change (preserves P m) end; repeat (preserve || (apply on_try; [|intros ?]) || (apply on_tryr; intros ?)).

Lemma on_remove P p : preserves (on P) (remove p).
Proof. unfold remove. keep_on. Qed.
Lemma on_stat P p : preserves (on P) (file_stat p).
Proof. unfold file_stat. keep_on. Qed.
Lemma on_create P p : preserves (on P) (file_create p).
Proof. unfold file_create. keep_on. Qed.
Lemma on_ensure P p : preserves (on P) (file_ensure p).
Proof. unfold file_ensure. keep_on. Qed.
Lemma on_file_write P p c : preserves (on P) (file_write p c).
Proof. by intros w. Qed.
#[local] Hint Resolve on_remove on_stat on_create on_ensure on_file_write : triples.
Lemma on_sweep P dir l : preserves (on P) (sweep_each dir l).
Proof. induction l as [|name l IH]; cbn [sweep_each]; keep_on. Qed.
#[local] Hint Resolve on_sweep : triples.
Lemma on_clean P dir : preserves (on P) (CleanStaging dir).
Proof. unfold CleanStaging. keep_on. Qed.
Lemma on_acquire P : preserves (on P) (acquireCapture cfg jobID).
Proof. unfold acquireCapture. keep_on. Qed.
Lemma on_release P : preserves (on P) (releaseCapture cfg jobID).
Proof. unfold releaseCapture. keep_on. Qed.
Lemma on_fileSize P p : preserves (on P) (fileSize p).
Proof. unfold fileSize. keep_on. Qed.
Lemma on_storeBytes P : preserves (on P) (storeStagingBytes cfg).
Proof. unfold storeStagingBytes. keep_on. Qed.
#[local] Hint Resolve on_clean on_acquire on_release on_fileSize on_storeBytes : triples.
Lemma on_SnapshotDB P dst : preserves (on P) (SnapshotDB cfg dst).
Proof. unfold SnapshotDB. keep_on. Qed.
#[local] Hint Resolve on_SnapshotDB : triples.
Lemma on_snapshot P prior : preserves (on P) (runSnapshotDB cfg jobID prior).
Proof. unfold runSnapshotDB. keep_on. Qed.
Lemma on_coldCopy P dst : preserves (on P) (coldCopy dst).
Proof. unfold coldCopy, coldCopy_body, quiesce, store_Stop, store_Start, stageStoreCapture. keep_on. Qed.
#[local] Hint Resolve on_coldCopy : triples.
Lemma on_snapshotStore P prior : preserves (on P) (runSnapshotStore cfg prior).
Proof. unfold runSnapshotStore. keep_on. Qed.
Lemma on_fanOut P prior : preserves (on P) (runFanOutStep cfg jobID prior).
Proof. unfold runFanOutStep. keep_on. Qed.
Lemma on_assemble P prior : preserves (on P) (runAssemble cfg jobID prior).
Proof. unfold runAssemble, store_copy, copy_size, assemble_into, removeIfSet. keep_on. Qed.
Lemma on_seal P prior : preserves (on P) (runSeal prior).
Proof. unfold runSeal, seal_into. keep_on. Qed.
#[local] Hint Resolve on_snapshot on_snapshotStore on_fanOut on_assemble on_seal : triples.

(** ** The ledger with one row more *)
Lemma on_rdb P (Q : option error → RunRows → list RunWire → Prop) op :
  (∀ rows wire, P rows wire → Q (snd (op None rows)) (fst (op None rows)) wire) → triple (on P) (rdb op) (λ e, on (Q e)).
Proof using All.
  intros HQ w Hw. unfold rdb. rewrite steady. specialize (HQ _ _ Hw). destruct (op None (bw_runs w)) as [rows e]. exact HQ.
Qed.
Lemma on_wire (P Q : RunRows → list RunWire → Prop) x : (∀ rows sent, P rows sent → Q rows (sent ++ [x])) → triple (on P) (wire x) (λ _, on Q).
Proof using All. intros HQ w Hw. by apply HQ. Qed.

Lemma where_one p f row : (∀ r, p r = true → br_JobID r = jobID) → run_where p f (rows0 ++ [row]) = rows0 ++ [if p row then f row else row].
Proof using All.
  intros Hp. unfold run_where. rewrite fmap_app. f_equal.
  assert (∀ l : list BackupRun, jobID ∉ br_JobID <$> l → (λ r, if p r then f r else r) <$> l = l) as Hl; [|by apply Hl].
  induction l as [|r l IH]; [done|]. rewrite !fmap_cons, not_elem_of_cons. intros [Hr Hn]. rewrite (IH Hn). f_equal.
  destruct (p r) eqn:E; [|done]. by apply Hp in E.
Qed.
Lemma of_job_id r : BackupRuns.of_job jobID r = true → br_JobID r = jobID.
Proof using All. unfold BackupRuns.of_job. apply String.eqb_eq. Qed.
Lemma running_job_id r : running_job jobID r = true → br_JobID r = jobID.
Proof using All. unfold running_job. intros [? _]%andb_true_iff. by apply of_job_id. Qed.
Lemma of_job_true row : br_JobID row = jobID → BackupRuns.of_job jobID row = true.
Proof using All. intros <-. apply String.eqb_refl. Qed.
Lemma running_true row : br_JobID row = jobID → br_Status row = RunRunning → running_job jobID row = true.
Proof using All. intros Hj Hs. unfold running_job. rewrite of_job_true by done. by rewrite Hs. Qed.
Lemma row_skip r rows : br_JobID r ≠ jobID → run_row (r :: rows) jobID = run_row rows jobID.
Proof using. intros Hr. unfold run_row. by rewrite (filter_cons (λ r, br_JobID r = jobID)), decide_False by done. Qed.
Lemma row_one row : br_JobID row = jobID → run_row (rows0 ++ [row]) jobID = Some row.
Proof using All.
  intros Hj. clear -fresh Hj. induction rows0 as [|r l IH].
  - unfold run_row. cbn [app]. by rewrite (filter_cons (λ r, br_JobID r = jobID)), decide_True by done.
  - rewrite fmap_cons, not_elem_of_cons in fresh. destruct fresh as [Hr Hl]. change ((r :: l) ++ [row]) with (r :: (l ++ [row])).
    rewrite row_skip by congruence. by apply IH.
Qed.
Lemma row_none : run_row rows0 jobID = None.
Proof using All.
  clear -fresh. induction rows0 as [|r l IH]; [done|]. rewrite fmap_cons, not_elem_of_cons in fresh. destruct fresh as [Hr Hl].
  rewrite row_skip by congruence. by apply IH.
Qed.

(** ** Where a run can be *)
Definition untouched (rows : RunRows) (sent : list RunWire) : Prop := rows = rows0 ∧ sent = wire0.
(** The run's row, with what was asked of the agent since. *)
Definition at_row (K : BackupRun → list RunWire → Prop) (rows : RunRows) (sent : list RunWire) : Prop :=
  ∃ row asked, rows = rows0 ++ [row] ∧ sent = wire0 ++ asked ∧ br_JobID row = jobID ∧ K row asked.
Definition bound (t : runTarget) (row : BackupRun) : Prop := br_NodeID row = rt_NodeID t ∧ br_PartUUID row = rt_PartUUID t.
(** Nothing written yet. *)
Definition staging (t : runTarget) : RunRows → list RunWire → Prop := at_row (λ row asked,
  br_Status row = RunRunning ∧ bound t row ∧ br_GenerationID row = EmptyString ∧ filter is_write asked = []).
(** Stopped without a generation. *)
Definition stopped (t : runTarget) : RunRows → list RunWire → Prop := at_row (λ row asked,
  br_Status row = RunRunning ∧ bound t row ∧ br_GenerationID row = EmptyString ∧
  (filter is_write asked = [] ∨ ∃ node cmd r, filter is_write asked = [WWrite node cmd r] ∧ acked r = None)).
(** The one write, acknowledged. *)
Definition on_the_disk (t : runTarget) (json : string) (wr : runWriteResult) (row : BackupRun) (asked : list RunWire) : Prop :=
  br_GenerationID row = rw_GenerationID wr ∧ br_Digest row = rw_Digest wr ∧ bound t row ∧
  ∃ cmd ack, filter is_write asked = [WWrite (rt_NodeID t) cmd (Replied ack)] ∧ wa_OK ack = true ∧ bg_ID (ack_generation ack) = rw_GenerationID wr ∧
    bg_Digest (ack_generation ack) = rw_Digest wr ∧ wc_PartUUID cmd = rt_PartUUID t ∧ wc_GenerationID cmd = rt_GenerationID t ∧
    wc_Digest cmd ≠ EmptyString ∧ wc_ManifestJSON cmd = json.
Definition wrote (t : runTarget) (json : string) (wr : runWriteResult) : RunRows → list RunWire → Prop :=
  at_row (λ row asked, br_Status row = RunRunning ∧ on_the_disk t json wr row asked).
Definition pruned_to (t : runTarget) (wr : runWriteResult) (asked : list RunWire) : Prop :=
  ∃ cmd ack, WPrune (rt_NodeID t) cmd (Replied ack) ∈ asked ∧ pk_OK ack = true ∧ 1 ≤ pc_Keep cmd ∧ pc_PartUUID cmd = rt_PartUUID t ∧
    pc_ProtectGenerationID cmd = rw_GenerationID wr.
Definition finished (t : runTarget) (asm : runAssembleResult) (wr : runWriteResult) : RunRows → list RunWire → Prop :=
  at_row (λ row asked, br_Status row = RunSucceeded ∧ on_the_disk t (ra_ManifestJSON asm) wr row asked ∧ pruned_to t wr asked ∧
    br_Complete row = vo_Complete (ra_Outcome asm) ∧ fst (runVerdict (ra_Outcome asm)) = EmptyString).

Lemma at_row_wire K K' x rows sent : (∀ row asked, K row asked → K' row (asked ++ [x])) → at_row K rows sent → at_row K' rows (sent ++ [x]).
Proof using All.
  intros HK (row & asked & -> & -> & Hj & Hk). exists row, (asked ++ [x]). split_and!; [done|by rewrite <- app_assoc|done|by apply HK].
Qed.
Lemma at_row_where K K' p f rows sent : (∀ r, p r = true → br_JobID r = jobID) → (∀ r, br_JobID (f r) = br_JobID r) →
  (∀ row asked, br_JobID row = jobID → K row asked → K' (if p row then f row else row) asked) →
  at_row K rows sent → at_row K' (run_where p f rows) sent.
Proof using All.
  intros Hp Hf HK (row & asked & -> & -> & Hj & Hk). rewrite where_one by done. exists (if p row then f row else row), asked.
  split_and!; [done|done| |by apply HK]. destruct (p row); [by rewrite Hf|done].
Qed.
Lemma no_write_app x asked : ¬ is_write x → filter is_write (asked ++ [x]) = filter is_write asked.
Proof using All. intros Hx. rewrite filter_app, (filter_cons is_write x), decide_False by done. apply app_nil_r. Qed.
Lemma one_write_app x asked : is_write x → filter is_write (asked ++ [x]) = filter is_write asked ++ [x].
Proof using All. intros Hx. by rewrite filter_app, (filter_cons is_write x), decide_True by done. Qed.

(** ** Step 1 *)
Lemma start_ensures reason target :
  triple (on untouched) (start_run cfg jobID reason target)
    (λ r w, match r with Ok o => ∃ t, o = OTarget t ∧ on (staging t) w | Fail _ => on untouched w end).
Proof using All.
  unfold start_run. apply (triple_bind _ (λ _, on untouched)); [unfold resolveRetain; keep_on|intros keep].
  apply (triple_bind _ (λ _, on untouched)); [keep_on|intros t]. cbn zeta.
  apply (triple_bind _ (λ _, on untouched)); [keep_on|intros _].
  set (made := mkRun jobID EmptyString EmptyString EmptyString reason BackupScopeFull EmptyString EmptyString EmptyString 0 0 0 0 false EmptyString 0 0 None RunRunning (stored_ms t) None EmptyString).
  apply (triple_bind _ (λ e, on (λ rows sent, match e with None => rows = rows0 ++ [made] ∧ sent = wire0 | Some _ => False end))).
  { apply on_rdb. intros rows sent [-> ->]. unfold StartRun, r_stmt. by rewrite bool_decide_eq_false_2 by done. }
  intros [e|]; [by intros w []|].
  set (t' := mkRunTarget _ _ _ _ _ _ _ _ _ _ _).
  apply (triple_bind _ (λ e, on (λ rows sent, match e with None => staging t' rows sent | Some _ => False end))).
  { apply on_rdb. intros rows sent [-> ->]. unfold BindRunTarget, r_stmt. cbn [fst snd]. rewrite where_one by apply of_job_id.
    rewrite of_job_true by done. eexists _, []. split_and!; try done. by rewrite app_nil_r. }
  intros [e|]; [by intros w []|]. intros w Hw. by exists t'.
Qed.

Lemma validate_ensures raw :
  triple (on untouched) (runValidate cfg jobID raw)
    (λ r w, match r with Ok o => ∃ t, o = OTarget t ∧ on (staging t) w | Fail _ => on untouched w end).
Proof using All.
  assert (∀ e, triple (on untouched) (fail (A:=RunOut) e)
    (λ r w, match r with Ok o => ∃ t, o = OTarget t ∧ on (staging t) w | Fail _ => on untouched w end)) as Hfail by (by intros e w).
  unfold runValidate, tryr. destruct (ParseRunSpec raw); [|apply Hfail]. case_match; [apply Hfail|].
  apply (triple_bind _ (λ _, on untouched)); [keep_on|intros [running|e]; [|apply Hfail]].
  case_match; [apply Hfail|].
  apply (triple_bind _ (λ _, on untouched)); [destruct (c_Restores cfg); keep_on|intros [j|]; [apply Hfail|]].
  apply (triple_bind _ (λ _, on untouched)); [keep_on|intros [[|target l]|e]; [apply Hfail| |apply Hfail]].
  destruct (target_refusal cfg target); [apply Hfail|].
  apply (triple_bind _ (λ _, on untouched)); [unfold health_refusal; keep_on|intros [e|]; [apply Hfail|]].
  destruct (wiring_refusal cfg); [apply Hfail|]. apply start_ensures.
Qed.

(** ** Steps 2 to 6: the row keeps its place and nothing is written *)
Lemma staging_where t p f rows sent : (∀ r, p r = true → br_JobID r = jobID) →
  (∀ r, br_JobID (f r) = br_JobID r ∧ br_Status (f r) = br_Status r ∧ br_GenerationID (f r) = br_GenerationID r ∧ br_NodeID (f r) = br_NodeID r ∧ br_PartUUID (f r) = br_PartUUID r) →
  staging t rows sent → staging t (run_where p f rows) sent.
Proof using All.
  intros Hp Hf. apply at_row_where; [done|by apply Hf|]. intros row asked _ (G1 & [G2 G3] & G4 & G5). destruct (Hf row) as (_ & E1 & E2 & E3 & E4).
  destruct (p row); [|done]. rewrite E1, E2. unfold bound. by rewrite E3, E4.
Qed.
Lemma on_markPreflight t est : preserves (on (staging t)) (rdb (λ flt rows, MarkRunPreflight flt rows jobID est)).
Proof using All. apply on_rdb. intros rows sent Hs. cbn. apply staging_where; [apply of_job_id|done|done]. Qed.
Lemma on_look t x : ¬ is_write x → preserves (on (staging t)) (wire x).
Proof using All. intros Hx. apply on_wire. intros rows sent. apply at_row_wire. intros row asked. by rewrite no_write_app. Qed.
#[local] Hint Resolve on_markPreflight : triples.
#[local] Hint Extern 1 (preserves _ (wire _)) => (apply on_look; by intros []) : triples.
Lemma preflight_ensures t prior : preserves (on (staging t)) (runPreflight cfg jobID prior).
Proof using All. unfold runPreflight, preflight_ack, prior_sizes. keep_on. Qed.

(** ** What a step answers, whatever the state *)
Definition returns {A} (m : M BWs A) (Q : A → Prop) : Prop := ∀ w, Q (fst (m w)).
Lemma returns_bind {A B} (m : M BWs A) (f : A → M BWs B) Q : (∀ a, returns (f a) Q) → returns (m ≫= f) Q.
Proof using. intros Hf w. unfold mbind, M_bind. destruct (m w) as [a w']. apply Hf. Qed.
Definition okay (Q : RunOut → Prop) (r : result RunOut) : Prop := match r with Ok o => Q o | Fail _ => True end.
Lemma returns_fail Q e : returns (fail (W:=W) e) (okay Q).
Proof using. by intros w. Qed.
Lemma returns_done (Q : RunOut → Prop) o : Q o → returns (done_ (W:=W) o) (okay Q).
Proof using. by intros Ho w. Qed.
Lemma returns_tryr {A} (r : result A) (k : A → M BWs (result RunOut)) Q : (∀ a, r = Ok a → returns (k a) (okay Q)) → returns (tryr r k) (okay Q).
Proof using. intros Hk. unfold tryr. destruct r; [by apply Hk|apply returns_fail]. Qed.
Lemma returns_try {A} (m : M BWs (result A)) (k : A → M BWs (result RunOut)) Q : (∀ a, returns (k a) (okay Q)) → returns (try m k) (okay Q).
Proof using. intros Hk. unfold try. apply returns_bind. intros [a|e]; [apply Hk|apply returns_fail]. Qed.
Ltac answer := repeat first
  [ apply returns_fail
  | apply returns_tryr; intros ? ?
  | apply returns_try; intros ?
  | apply returns_bind; intros ?
  | match goal with |- returns (match ?x with _ => _ end) _ => destruct x eqn:? end ].

(** The report of a fan-out over the apps as they were listed. *)
Definition fan_report (rep : AppVolumeReport) : Prop :=
  ∃ tiles installed n records k, c_Tiles cfg = Some tiles ∧ e_apps n = Ok installed ∧
    rep = NewAppVolumeReport (plan_Enumeration (PlanAppVolumes installed tiles)) (Skipped (PlanAppVolumes installed tiles) ++ records) k ∧
    about <$> records = Stage (PlanAppVolumes installed tiles) ∧ Forall (λ r, r_Captured r = false → r_Failed r = true) records.
Lemma fan_report_enumerated rep : fan_report rep → a_Enumerated rep = true.
Proof using. intros (tiles & installed & n & records & k & _ & _ & -> & _). by destruct (report_of (plan_Enumeration (PlanAppVolumes installed tiles)) (Skipped (PlanAppVolumes installed tiles) ++ records) k) as (_ & _ & E & _). Qed.

(** With nothing failed, every volume a run copies is captured. *)
Lemma green_report rep : fan_report rep → a_FailedCount rep ≤ 0 → a_AppsLeftDown rep = [] →
  ∃ tiles installed n, c_Tiles cfg = Some tiles ∧ e_apps n = Ok installed ∧
    (∀ app p, app ∈ is_installed installed → p ∈ owed tiles app → copied_class (pv_Class p) → ∃ v, v ∈ a_Volumes rep ∧ about v = p ∧ r_Captured v = true) ∧
    ∀ v, v ∈ a_Volumes rep → r_AppRestored v = true.
Proof using.
  intros (tiles & installed & n & records & k & Ht & Hi & -> & Hr & Hall) Hf Hd. exists tiles, installed, n. split_and!; [done|done|..].
  all: destruct (report_of (plan_Enumeration (PlanAppVolumes installed tiles)) (Skipped (PlanAppVolumes installed tiles) ++ records) k) as (Ev & _ & _ & _ & _ & _ & _ & Ef & Edown);
    rewrite Ef in Hf; rewrite Ev.
  - intros app p Happ Hp Hc. destruct (plan_pays installed tiles) as (Hpays & _ & Hex & _).
    assert (p ∈ Stage (PlanAppVolumes installed tiles) ++ (about <$> Skipped (PlanAppVolumes installed tiles))) as Hin.
    { rewrite Hpays. apply list_elem_of_bind. by exists app. }
    assert (∀ v, v ∈ Skipped (PlanAppVolumes installed tiles) ++ records → ¬ failed v) as Hno.
    { intros v Hv Hfv. assert (v ∈ filter failed (Skipped (PlanAppVolumes installed tiles) ++ records)) as Hv' by (by apply list_elem_of_filter).
      destruct (filter failed _); [by apply elem_of_nil in Hv'|cbn [length] in Hf; lia]. }
    apply elem_of_app in Hin as [Hin|Hin].
    + rewrite <- Hr in Hin. apply list_elem_of_fmap in Hin as (v & -> & Hv). exists v. split; [apply elem_of_app; by right|]. split; [done|].
      destruct (r_Captured v) eqn:Ec; [done|]. exfalso. apply (Hno v); [apply elem_of_app; by right|]. split; [done|].
      rewrite Forall_forall in Hall. by apply Hall.
    + apply list_elem_of_fmap in Hin as (v & -> & Hv). exfalso. apply (Hno v); [apply elem_of_app; by left|].
      rewrite Forall_forall in Hex. destruct (Hex v Hv) as (G1 & _ & _ & G2). split; [done|]. by apply G2.
  - intros v Hv. destruct (r_AppRestored v) eqn:Er; [done|]. exfalso.
    assert (r_App v ∈ a_AppsLeftDown (NewAppVolumeReport (plan_Enumeration (PlanAppVolumes installed tiles)) (Skipped (PlanAppVolumes installed tiles) ++ records) k)) as Hin
      by (apply Edown; by exists v). rewrite Hd in Hin. by apply elem_of_nil in Hin.
Qed.

Definition made_from (t : runTarget) (m : RunManifest) (a : runAssembleResult) : Prop :=
  ra_Outcome a = volumeOutcome (rm_AppVolumes m) (rm_Complete m) ∧ rm_Complete m = Complete (rm_AppVolumes m) ∧
  ra_ManifestJSON a = e_manifest_json m ∧ rm_GenerationID m = rt_GenerationID t ∧ fan_report (rm_AppVolumes m).
Lemma assembled_manifest t report entries m : assembled t report entries = Ok m →
  rm_Complete m = Complete (rm_AppVolumes m) ∧ rm_GenerationID m = rt_GenerationID t ∧ rm_AppVolumes m = if a_Enumerated report then report else unenumeratedReport.
Proof using. unfold assembled. case_match; [done|]. by intros [= <-]. Qed.

Lemma assemble_answers prior t f : priorRunTarget prior = Ok t → priorResult prior "fan_out" asFanOut = Ok f → fan_report (rf_Report f) →
  returns (runAssemble cfg jobID prior) (okay (λ o, ∃ a m, o = OAssemble a ∧ made_from t m a)).
Proof using.
  intros Ht Hf Hrep. pose proof (fan_report_enumerated _ Hrep) as Hen. unfold runAssemble, assemble_into. rewrite Ht, Hf. cbn [tryr]. answer; apply returns_done.
  all: match goal with Hm : match snd ?x with _ => _ end = Ok ?m |- _ => destruct (snd x); [|done]; apply assembled_manifest in Hm as (?&?&Eapp); rewrite Hen in Eapp; eexists _, m; split; [done|]; split_and!; try done; by rewrite Eapp end.
Qed.
Lemma returns_oracle {A B} (f : nat → A) (k : A → M BWs B) Q : (∀ n, returns (k (f n)) Q) → returns (oracle f ≫= k) Q.
Proof using. intros Hk w. apply Hk. Qed.
Lemma returns_world {A B} (m : M W A) (k : A → M BWs B) Q : (∀ x, returns (k (eval m x)) Q) → returns (in_world m ≫= k) Q.
Proof using. intros Hk w. unfold mbind, M_bind, in_world. specialize (Hk (bw_world w)). unfold eval in Hk. destruct (m (bw_world w)). apply Hk. Qed.

Lemma fanOut_answers prior : returns (runFanOutStep cfg jobID prior) (okay (λ o, ∃ f, o = OFanOut f ∧ fan_report (rf_Report f))).
Proof using.
  unfold runFanOutStep. apply returns_tryr. intros t Ht. apply returns_tryr. intros pre Hpre.
  destruct (c_Tiles cfg) as [tiles|] eqn:Etiles; [|apply returns_fail].
  destruct (negb (c_Apps cfg)); [apply returns_fail|]. destruct (negb (c_Ingest cfg)); [apply returns_fail|].
  apply returns_oracle. intros n. destruct (e_apps n) as [installed|] eqn:Eapps; [|apply returns_fail]. cbn zeta.
  destruct (c_Router cfg) as [router|]; [|apply returns_fail]. destruct (checkStagingRoot _); [apply returns_fail|].
  apply returns_bind. intros [genDir|e]; [|apply returns_fail]. set (o := mkOpts _ _ _ _ _ _ _ _ _ _ _).
  apply returns_world. intros x. assert (EnvInv (λ _ : W, True)) as Hinv by (by split).
  pose proof (runFanOut_ok (λ _ : W, True) o x I) as Hfan. apply returns_bind. intros _.
  destruct (eval (runFanOut o) x) as [rep|e]; [|apply returns_fail]. apply returns_done. eexists. split; [reflexivity|].
  destruct Hfan as (records & k & -> & Hrec & Hall). exists tiles, installed, n, records, k. split_and!; try done.
  eapply Forall_impl; [exact Hall|]. by intros r [_ Hr].
Qed.
Lemma preflight_answers prior : returns (runPreflight cfg jobID prior) (okay (λ o, ∃ f, o = OPreflight f)).
Proof using. unfold runPreflight, preflight_ack. answer; apply returns_done; by eexists. Qed.

(** ** Step 7 *)
Lemma prior_target prior t t' : prior !! "validate" = Some (OTarget t) → priorRunTarget prior = Ok t' → t' = t.
Proof using. unfold priorRunTarget, priorResult. intros ->. cbn. case_match; [done|]. by intros [= <-]. Qed.
Lemma staging_stopped t rows sent : staging t rows sent → stopped t rows sent.
Proof using. intros (row & asked & E1 & E2 & Hj & G1 & G2 & G3 & G4). exists row, asked. split_and!; auto. Qed.

Lemma run_write_ensures t a prior : prior !! "validate" = Some (OTarget t) → prior !! "assemble" = Some (OAssemble a) →
  triple (on (staging t)) (runWrite jobID prior)
    (λ r w, match r with Ok o => ∃ wr, o = OWrite wr ∧ on (wrote t (ra_ManifestJSON a) wr) w | Fail _ => on (stopped t) w end).
Proof using All.
  intros Ht Ha. unfold runWrite.
  set (Q := λ r (w : BWs), match r with Ok o => ∃ wr, o = OWrite wr ∧ on (wrote t (ra_ManifestJSON a) wr) w | Fail _ => on (stopped t) w end).
  assert (∀ e, triple (on (staging t)) (fail e) Q) as Hfail by (intros e w Hw; by apply staging_stopped).
  assert (∀ e, triple (on (stopped t)) (fail e) Q) as Hstop by (by intros e w).
  destruct (priorRunTarget prior) as [t'|e] eqn:Et; [|apply Hfail]. apply (prior_target _ t) in Et as ->; [|done]. cbn [tryr].
  unfold priorResult at 1. rewrite Ha. cbn [asAssemble tryr].
  destruct (priorResult prior "seal" asSeal) as [sealed|e]; [|apply Hfail]. cbn [tryr].
  destruct (rs_Seal sealed) as [seal|]; [|apply Hfail]. destruct (String.eqb_spec (sr_Digest seal) EmptyString); [apply Hfail|].
  set (cmd := mkWriteCmd _ _ _ _ _ _). apply (triple_bind _ (λ _, on (staging t))); [keep_on|intros r].
  set (asked_for := at_row (λ row asked, br_Status row = RunRunning ∧ bound t row ∧ br_GenerationID row = EmptyString ∧
                       filter is_write asked = [WWrite (rt_NodeID t) cmd r])).
  apply (triple_bind _ (λ _, on asked_for)).
  { apply on_wire. intros rows sent. apply at_row_wire. intros row asked (G1 & G2 & G3 & G4). split_and!; try done.
    by rewrite one_write_app, G4. }
  intros _. assert (acked r = None → ∀ e, triple (on asked_for) (fail e) Q) as Hno.
  { intros Hr e w (row & asked & E1 & E2 & Hj & G1 & G2 & G3 & G4). exists row, asked. split_and!; try done. right. by eexists _, _, _. }
  destruct r as [e|e|ack]; [by apply Hno..|]. destruct (wa_OK ack) eqn:Eok; cbn [negb]; [|apply Hno; cbn; by rewrite Eok].
  apply (triple_bind _ (λ _, on asked_for)); [destruct (stagedPath _ _); keep_on|intros _].
  set (wr := mkRunWrite _ _ _ _ _).
  apply (triple_bind _ (λ _, on (wrote t (ra_ManifestJSON a) wr))); [|intros _ w Hw; by exists wr].
  apply on_rdb. intros rows sent. cbn [MarkRunGeneration r_stmt fst snd]. apply at_row_where; [apply of_job_id|done|].
  intros row asked Hj (G1 & G2 & G3 & G4). rewrite of_job_true by done. split; [done|]. split_and!; try done. by exists cmd, ack.
Qed.

(** ** Step 8 *)
Lemma retain_pos : 1 ≤ retain cfg.
Proof using. unfold retain. destruct (Z.leb_spec (c_Retain cfg) 0); [|lia]. unfold BackupRetainGenerations. lia. Qed.
Lemma landed_with t json wr res row asked : rr_GenerationID res = rw_GenerationID wr → rr_Digest res = rw_Digest wr →
  on_the_disk t json wr row asked → on_the_disk t json wr (with_result res row) asked.
Proof using. intros E1 E2 (G1 & G2 & G3 & G4). split_and!; done. Qed.

Lemma prune_ensures t a wr prior : prior !! "validate" = Some (OTarget t) → prior !! "assemble" = Some (OAssemble a) → prior !! "write" = Some (OWrite wr) →
  triple (on (wrote t (ra_ManifestJSON a) wr)) (runPrune cfg jobID prior)
    (λ r w, match r with Ok o => on (finished t a wr) w | Fail _ => on (wrote t (ra_ManifestJSON a) wr) w end).
Proof using All.
  intros Ht Ha Hw. unfold runPrune.
  set (Q := λ (r : result RunOut) (w : BWs), match r with Ok o => on (finished t a wr) w | Fail _ => on (wrote t (ra_ManifestJSON a) wr) w end).
  assert (∀ e, triple (on (wrote t (ra_ManifestJSON a) wr)) (fail e) Q) as Hfail by (by intros e w).
  destruct (priorRunTarget prior) as [t'|e] eqn:Et; [|apply Hfail]. apply (prior_target _ t) in Et as ->; [|done]. cbn [tryr].
  unfold priorResult. rewrite Ha, Hw. cbn [asAssemble asWrite tryr]. cbn zeta.
  set (keep := if _ <? _ then _ else _). set (cmd := mkPruneCmd _ _ _).
  assert (1 ≤ keep) as Hkeep by (unfold keep, MinBackupRetain; destruct (Z.ltb_spec (rt_Retain t) 1); [apply retain_pos|lia]).
  apply (triple_bind _ (λ _, on (wrote t (ra_ManifestJSON a) wr))); [keep_on|intros r].
  set (told := at_row (λ row asked, br_Status row = RunRunning ∧ on_the_disk t (ra_ManifestJSON a) wr row asked ∧ WPrune (rt_NodeID t) cmd r ∈ asked)).
  apply (triple_bind _ (λ _, on told)).
  { apply on_wire. intros rows sent. apply at_row_wire. intros row asked (G1 & G2 & G3 & G4 & c & k & Hf & Hrest). split; [done|].
    split; [|apply elem_of_app; right; left]. split_and!; try done. exists c, k. rewrite no_write_app by (by intros []). done. }
  intros _. assert (∀ e, triple (on told) (fail e) Q) as Hno.
  { intros e w (row & asked & E1 & E2 & Hj & G1 & G2 & G3). exists row, asked. by split_and!. }
  destruct r as [e|e|ack]; [apply Hno..|]. destruct (pk_OK ack) eqn:Eok; cbn [negb]; [|apply Hno].
  apply (triple_bind _ (λ _, on told)); [keep_on|intros tm].
  destruct (runVerdict (ra_Outcome a)) as [errMsg warning] eqn:Ev. destruct (String.eqb_spec errMsg EmptyString) as [->|Hne]; cbn [negb].
  - apply (triple_bind _ (λ e, on (λ rows sent, match e with None => finished t a wr rows sent | Some _ => False end))).
    + apply on_rdb. intros rows sent (row & asked & -> & -> & Hj & G1 & G2 & G3). unfold FinishRun, r_stmt. cbn [fst snd].
      assert (existsb (running_job jobID) (rows0 ++ [row]) = true) as ->.
      { rewrite existsb_app. cbn [existsb]. rewrite running_true by done. by rewrite orb_true_r. }
      rewrite where_one by apply running_job_id. rewrite running_true by done. eexists _, asked. split_and!; try done.
      * by apply landed_with.
      * exists cmd, ack. by split_and!.
      * by rewrite Ev.
    + intros [e|]; [by intros w []|]. by intros w.
  - apply (triple_bind _ (λ _, on told)); [|intros _; apply Hno].
    apply on_rdb. intros rows sent. cbn [MarkRunRetention r_stmt fst snd]. apply at_row_where; [apply of_job_id|done|].
    intros row asked Hj (G1 & G2 & G3). rewrite of_job_true by done. split; [done|]. split; [by apply landed_with|done].
Qed.

(** ** The steps in order *)
Definition answered {A} (P : BWs → Prop) (Q : A → BWs → Prop) (r : result A) (w : BWs) : Prop := match r with Ok v => Q v w | Fail _ => P w end.
Lemma attempts_ensures P body (Q : RunOut → BWs → Prop) n : triple P body (answered P Q) → triple P (run_attempts body n) (answered P Q).
Proof using.
  intros Hb. induction n as [|n IH]; cbn [run_attempts]; apply (triple_bind _ (answered P Q)); try done; intros [v|e]; cbn [answered]; try by intros w.
  exact IH.
Qed.
Lemma both_ensures P (m : M BWs (result RunOut)) Q : preserves (on P) m → returns m (okay Q) → triple (on P) m (answered (on P) (λ o w, Q o ∧ on P w)).
Proof using. intros Hm Hr w Hw. specialize (Hm w Hw). specialize (Hr w). destruct (fst (m w)); by unfold answered. Qed.
Lemma run_step_ensures st steps prior (P P' : BWs → Prop) (Q : RunOut → BWs → Prop) (R : option error → BWs → Prop) :
  triple P (run_attempts (rst_Do st prior) (rst_Retries st)) (answered P' Q) → (∀ e w, P' w → R (Some e) w) →
  (∀ v, triple (Q v) (run_backup_steps steps (<[rst_Name st := v]> prior)) R) → triple P (run_backup_steps (st :: steps) prior) R.
Proof using.
  intros Hs Hf Hk. cbn [run_backup_steps]. apply (triple_bind _ (answered P' Q)); [exact Hs|]. intros [v|e]; [apply Hk|]. intros w Hw. by apply Hf.
Qed.

(** How the steps end. *)
Definition ended (e : option error) (w : BWs) : Prop :=
  match e with
  | Some _ => on untouched w ∨ (∃ t, on (stopped t) w) ∨ ∃ t m a wr, made_from t m a ∧ on (wrote t (ra_ManifestJSON a) wr) w
  | None => ∃ t m a wr, made_from t m a ∧ on (finished t a wr) w
  end.
Lemma ended_staging t e w : on (staging t) w → ended (Some e) w.
Proof using. intros Hw. right. left. exists t. by apply staging_stopped. Qed.

(** A step that keeps the row where it is. *)
Lemma plain_step t st steps prior Q : preserves (on (staging t)) (rst_Do st prior) → returns (rst_Do st prior) (okay Q) →
  (∀ v, Q v → triple (on (staging t)) (run_backup_steps steps (<[rst_Name st := v]> prior)) ended) →
  triple (on (staging t)) (run_backup_steps (st :: steps) prior) ended.
Proof using.
  intros Hp Hr Hk. apply (run_step_ensures _ _ _ _ (on (staging t)) (λ o w, Q o ∧ on (staging t) w)).
  - by apply attempts_ensures, both_ensures.
  - intros e w. apply ended_staging.
  - intros v w [Hv Hw]. by apply Hk.
Qed.
Lemma plain_step' t st steps prior : preserves (on (staging t)) (rst_Do st prior) →
  (∀ v, triple (on (staging t)) (run_backup_steps steps (<[rst_Name st := v]> prior)) ended) →
  triple (on (staging t)) (run_backup_steps (st :: steps) prior) ended.
Proof using.
  intros Hp Hk. apply (plain_step t _ _ _ (λ _, True)); [done| |auto]. intros w. by destruct (fst _).
Qed.

Lemma tail_ensures t m a prior : prior !! "validate" = Some (OTarget t) → prior !! "assemble" = Some (OAssemble a) → made_from t m a →
  triple (on (staging t)) (run_backup_steps [mkRStep "seal" 0 runSeal; mkRStep "write" 0 (runWrite jobID); mkRStep "prune" 1 (runPrune cfg jobID)] prior) ended.
Proof using All.
  intros Ht Ha Hm. apply plain_step'; [apply on_seal|intros v]. cbn [rst_Name].
  apply (run_step_ensures _ _ _ _ (on (stopped t)) (λ o w, ∃ wr, o = OWrite wr ∧ on (wrote t (ra_ManifestJSON a) wr) w)).
  - cbn [rst_Do rst_Retries run_attempts]. eapply (triple_bind _ (answered (on (stopped t)) (λ o w, ∃ wr, o = OWrite wr ∧ on (wrote t (ra_ManifestJSON a) wr) w))).
    + apply run_write_ensures; by rewrite lookup_insert_ne.
    + intros [o|e]; by intros w.
  - intros e w Hw. right. left. by exists t.
  - intros v' w (wr & -> & Hw). revert w Hw. cbn [rst_Name].
    match goal with |- ∀ w, _ → ?R (fst (?m w)) (snd (?m w)) => change (triple (on (wrote t (ra_ManifestJSON a) wr)) m R) end.
    apply (run_step_ensures _ _ _ _ (on (wrote t (ra_ManifestJSON a) wr)) (λ _, on (finished t a wr))).
    + apply attempts_ensures. apply prune_ensures; [by rewrite !lookup_insert_ne..|by rewrite lookup_insert_eq].
    + intros e w Hw. right. right. by exists t, m, a, wr.
    + intros o w Hw. by exists t, m, a, wr.
Qed.

Lemma middle_ensures t prior : prior !! "validate" = Some (OTarget t) →
  triple (on (staging t)) (run_backup_steps [mkRStep "fan_out" 0 (runFanOutStep cfg jobID); mkRStep "assemble" 0 (runAssemble cfg jobID);
    mkRStep "seal" 0 runSeal; mkRStep "write" 0 (runWrite jobID); mkRStep "prune" 1 (runPrune cfg jobID)] prior) ended.
Proof using All.
  intros Ht. eapply plain_step; [apply on_fanOut|apply fanOut_answers|]. cbn [rst_Name]. intros v (f & -> & Hrep).
  set (prior' := <["fan_out" := OFanOut f]> prior).
  assert (prior' !! "validate" = Some (OTarget t)) as Ht' by (unfold prior'; by rewrite lookup_insert_ne).
  destruct (priorRunTarget prior') as [t'|e] eqn:Et.
  - pose proof (prior_target _ t _ Ht' Et) as ->. eapply plain_step; [apply on_assemble|apply (assemble_answers prior' t f Et); [|done]|].
    + unfold priorResult, prior'. by rewrite lookup_insert_eq.
    + cbn [rst_Name]. intros v (a & m & -> & Hm). eapply tail_ensures; [by rewrite lookup_insert_ne|by rewrite lookup_insert_eq|done].
  - eapply (plain_step _ _ _ _ (λ _, False)); [apply on_assemble| |done]. cbn [rst_Do]. unfold runAssemble. rewrite Et. apply returns_fail.
Qed.

Lemma steps_ensures raw : triple (on untouched) (run_backup_steps (RunWorkflow cfg jobID raw) ∅) ended.
Proof using All.
  unfold RunWorkflow. apply (run_step_ensures _ _ _ _ (on untouched) (λ o w, ∃ t, o = OTarget t ∧ on (staging t) w)).
  - apply attempts_ensures. apply validate_ensures.
  - by left.
  - intros v w (t & -> & Hw). revert w Hw. cbn [rst_Name].
    match goal with |- ∀ w, _ → ?R (fst (?m w)) (snd (?m w)) => change (triple (on (staging t)) m R) end.
    apply plain_step'; [apply preflight_ensures|intros v]. apply plain_step'; [apply on_snapshot|intros v']. cbn [rst_Name].
    destruct (c_SecretStore cfg); cbn [app].
    + apply plain_step'; [apply on_snapshotStore|intros v'']. apply middle_ensures. cbn [rst_Name]. by rewrite !lookup_insert_ne, lookup_insert_eq by done.
    + apply middle_ensures. by rewrite !lookup_insert_ne, lookup_insert_eq by done.
Qed.

(** ** The terminal hook *)
Lemma hook_ensures (P P' : RunRows → list RunWire → Prop) msg :
  (∀ rows sent, P rows sent → match run_row rows jobID with
     | Some row => if decide (br_Status row = RunRunning)
         then ∀ text t, P' (run_where (running_job jobID) (with_run_outcome RunFailed text t) rows) sent else P' rows sent
     | None => P' rows sent end) →
  triple (on P) (finalizeRunRow cfg jobID msg) (λ _, on P').
Proof using All.
  intros HP. unfold finalizeRunRow. apply (triple_bind _ (λ _, on P)); [keep_on|intros _].
  apply (triple_bind _ (λ r, on (λ rows sent, r = Ok (run_row rows jobID) ∧ P rows sent))).
  { intros w Hw. split; [|done]. unfold rdbq. cbn [fst snd]. by rewrite steady. }
  intros [[row|]|e].
  2: { intros w [[= E] Hw]. specialize (HP _ _ Hw). by rewrite <- E in HP. }
  2: by intros w [? _].
  set (P2 := λ rows sent, Ok (Some row) = Ok (run_row rows jobID) ∧ P rows sent).
  apply (triple_bind _ (λ _, on P2)); [keep_on|intros w1].
  apply (triple_bind _ (λ _, on P2)); [destruct (String.eqb _ _); keep_on|intros _].
  apply (triple_bind _ (λ _, on P2)); [destruct (_ && _); keep_on|intros _].
  case_bool_decide as Hst.
  - intros w [[= E] Hw]. specialize (HP _ _ Hw). rewrite <- E, decide_False in HP by done. exact HP.
  - apply (triple_bind _ (λ _, on P2)); [keep_on|intros t].
    apply (triple_bind _ (λ _, on P')); [|by intros _ w]. apply on_rdb. intros rows sent [[= E] Hw]. specialize (HP _ _ Hw).
    rewrite <- E, decide_True in HP by done. apply HP.
Qed.

(** A run that failed: no generation on the row and none acknowledged, or the
    one that was. *)
Definition failed_row (row : BackupRun) (asked : list RunWire) : Prop :=
  br_Status row = RunFailed ∧
  (br_GenerationID row = EmptyString ∧ (filter is_write asked = [] ∨ ∃ node cmd r, filter is_write asked = [WWrite node cmd r] ∧ acked r = None) ∨
   ∃ t m a wr, made_from t m a ∧ on_the_disk t (ra_ManifestJSON a) wr row asked).

Lemma finalize_ensures e msg : triple (ended e) (finalizeRunRow cfg jobID msg)
  (λ _ w, match e with Some _ => on untouched w ∨ on (at_row failed_row) w | None => ended None w end).
Proof using All.
  assert (∀ K : BackupRun → list RunWire → Prop, (∀ row asked text t, K row asked → br_Status row = RunRunning ∧ failed_row (with_run_outcome RunFailed text t row) asked) →
    triple (on (at_row K)) (finalizeRunRow cfg jobID msg) (λ _, on (at_row failed_row))) as Hrun.
  { intros K HK. apply hook_ensures. intros rows sent (row & asked & -> & -> & Hj & Hk). rewrite row_one by done.
    destruct (HK row asked EmptyString 0 Hk) as [Hst _]. rewrite decide_True by done. intros text t. rewrite where_one by apply running_job_id.
    rewrite running_true by done. eexists _, asked. split_and!; try done. by apply HK. }
  destruct e as [e|].
  - intros w [Hw|[[t Hw]|(t & m & a & wr & Hm & Hw)]].
    + left. revert w Hw. apply (hook_ensures untouched untouched). intros rows sent [-> ->]. by rewrite row_none.
    + right. revert w Hw. apply Hrun. intros row asked text tm (G1 & G2 & G3 & G4). split; [done|]. split; [done|]. by left.
    + right. revert w Hw. apply Hrun. intros row asked text tm (G1 & G2). split; [done|]. split; [done|]. right. by exists t, m, a, wr.
  - intros w (t & m & a & wr & Hm & Hw). exists t, m, a, wr. split; [done|]. revert w Hw. apply (hook_ensures (finished t a wr) (finished t a wr)).
    intros rows sent Hf. pose proof Hf as (row & asked & -> & -> & Hj & Hst & _). rewrite row_one by done.
    rewrite decide_False by (by rewrite Hst). done.
Qed.

Lemma verdict_green o : fst (runVerdict o) = EmptyString → vo_AppsLeftDown o = [] ∧ vo_AppVolumesFailed o ≤ 0.
Proof using.
  unfold runVerdict. case_bool_decide as Hd; [done|]. destruct (Z.ltb_spec 0 (vo_AppVolumesFailed o)); [|done].
  cbn [fst]. unfold failedVolumesMessage. by destruct (vo_FailedApps o) as [|? []]; [destruct (vo_FailedVolumes o) as [|? []]|..].
Qed.
End facts.

(** What the agent acknowledged of a run's write. *)
Definition write_acked (row : BackupRun) (asked : list RunWire) (cmd : WriteCmd) (ack : WriteAck) : Prop :=
  filter is_write asked = [WWrite (br_NodeID row) cmd (Replied ack)] ∧ wa_OK ack = true ∧ wc_PartUUID cmd = br_PartUUID row ∧
  wc_Digest cmd ≠ EmptyString ∧ br_GenerationID row = bg_ID (ack_generation ack) ∧ br_Digest row = bg_Digest (ack_generation ack).

(** C10. The record of a backup run is the truth about it.  With a ledger that
    answers, whatever the agent, the nodes, the secret store, the disk and the
    archive code do: a run refused before its row was made has asked nothing of
    the agent.  Otherwise its row has a verdict, succeeded exactly when the job
    succeeded; the agent was asked to write at most once; the row names a
    generation exactly when the agent acknowledged the write of one, on the
    row's target and with the digest the agent computed.  A run that succeeded
    was acknowledged, pruned to at least one generation with its own protected,
    and its manifest carries a report in which every critical or state volume of
    every app installed when the fan-out listed them was captured, and no app
    was left down. *)
Theorem backup_run_recorded `{Crypto} {W : Type} `{!Env W, !Endpoint W, !ScheduleCodec, !RunEnv} (cfg : RunConfig) (jobID raw : string) (w0 w' : BW W) (e : option error) :
  (∀ n, e_fault n = None) → jobID ∉ br_JobID <$> bw_runs w0 → run_backup cfg jobID raw w0 = (e, w') →
  (e ≠ None ∧ bw_runs w' = bw_runs w0 ∧ bw_wire w' = bw_wire w0) ∨
  ∃ row asked, bw_runs w' = bw_runs w0 ++ [row] ∧ bw_wire w' = bw_wire w0 ++ asked ∧ br_JobID row = jobID ∧
    br_Status row = match e with None => RunSucceeded | Some _ => RunFailed end ∧
    (br_GenerationID row = EmptyString ∧ (filter is_write asked = [] ∨ ∃ node cmd r, filter is_write asked = [WWrite node cmd r] ∧ acked r = None) ∨
     ∃ cmd ack, write_acked row asked cmd ack) ∧
    (e = None → ∃ cmd ack m tiles installed n pc pk, write_acked row asked cmd ack ∧ wc_ManifestJSON cmd = e_manifest_json m ∧
       rm_GenerationID m = wc_GenerationID cmd ∧ br_Complete row = Complete (rm_AppVolumes m) ∧
       WPrune (br_NodeID row) pc (Replied pk) ∈ asked ∧ pk_OK pk = true ∧ 1 ≤ pc_Keep pc ∧ pc_PartUUID pc = br_PartUUID row ∧
       pc_ProtectGenerationID pc = br_GenerationID row ∧
       c_Tiles cfg = Some tiles ∧ e_apps n = Ok installed ∧
       (∀ app p, app ∈ is_installed installed → p ∈ owed tiles app → copied_class (pv_Class p) →
          ∃ v, v ∈ a_Volumes (rm_AppVolumes m) ∧ about v = p ∧ r_Captured v = true) ∧
       ∀ v, v ∈ a_Volumes (rm_AppVolumes m) → r_AppRestored v = true).
Proof.
  intros steady fresh Hrun. unfold run_backup in Hrun.
  pose proof (steps_ensures cfg steady jobID (bw_runs w0) (bw_wire w0) fresh raw w0 (conj eq_refl eq_refl)) as Hsteps.
  rewrite bind_run in Hrun. unfold eval, exec in Hrun.
  destruct (run_backup_steps (RunWorkflow cfg jobID raw) ∅ w0) as [e1 w1]. cbn [fst snd] in *.
  pose proof (finalize_ensures cfg steady jobID (bw_runs w0) (bw_wire w0) fresh e1 (match e1 with Some e => err_text e | None => EmptyString end) w1 Hsteps) as Hfin.
  rewrite bind_run in Hrun. unfold eval, exec in Hrun. destruct (finalizeRunRow _ _ _ w1) as [u w2]. cbn [fst snd] in *.
  injection Hrun as <- <-.
  assert (∀ t json wr row asked, on_the_disk t json wr row asked → ∃ cmd ack, write_acked row asked cmd ack ∧ wc_GenerationID cmd = rt_GenerationID t ∧ wc_ManifestJSON cmd = json) as Hland.
  { intros t json wr row asked (G1 & G2 & [G3 G4] & cmd & ack & E1 & E2 & E3 & E4 & E5 & E6 & E7 & E8). exists cmd, ack. unfold write_acked.
    rewrite G3, G4, G1, G2. by split_and!. }
  destruct e1 as [e1|].
  - destruct Hfin as [[E1 E2]|(row & asked & E1 & E2 & Hj & Hst & Hor)]; [left; by split_and!|]. right. exists row, asked. split_and!; try done.
    destruct Hor as [?|(t & m & a & wr & _ & Hl)]; [by left|]. right. destruct (Hland _ _ _ _ _ Hl) as (cmd & ack & Ha & _). by exists cmd, ack.
  - destruct Hfin as (t & m & a & wr & (M1 & M2 & M3 & M4 & M5) & (row & asked & E1 & E2 & Hj & Hst & Hl & (pc & pk & P1 & P2 & P3 & P4 & P5) & Hcomp & Hver)).
    right. exists row, asked. destruct (Hland _ _ _ _ _ Hl) as (cmd & ack & Ha & Hg & Hjson). split_and!; try done; [right; by exists cmd, ack|].
    intros _. apply verdict_green in Hver as [V1 V2]. rewrite M1 in V1, V2, Hcomp. cbn in V1, V2, Hcomp.
    destruct (green_report cfg _ M5 V2 V1) as (tiles & installed & n & T1 & T2 & T3 & T4).
    exists cmd, ack, m, tiles, installed, n, pc, pk. destruct Hl as (L1 & _ & [L3 L4] & _).
    split_and!; try done; [by rewrite Hjson|congruence|by rewrite Hcomp, M2|by rewrite L3|congruence|congruence].
Qed.
