(* ===== verification/BackupRunAfter.v ===== *)
(** * What a backup run leaves behind

    The capture lock, the secret store, the staging root and stranded rows
    after a run; and two runs whose record misleads. *)
From Stdlib Require Import Ascii String.
From S2P Require Import Prelude GoStrings GoRunes GoPath GoSort Ledger NodeUpdateStore GoDuration BackupMembers BackupPlan BackupReport BackupGrants BackupIngest BackupFanOut BackupEstimate BackupRuns BackupSchedule BackupState BackupTarget BackupIngestFacts BackupFanOutFacts BackupRun BackupRunFacts.
Open Scope string_scope.
Open Scope list_scope.
Open Scope Z_scope.
#[local] Arguments String.eqb : simpl never.
#[local] Arguments String.append : simpl nomatch.

Section after.
Context `{Crypto} {W : Type} `{!Env W, !Endpoint W, !ScheduleCodec, !RunEnv} (cfg : RunConfig).
#[local] Abbreviation BWs := (BW W).
Implicit Types (w : BWs).

(** ** The capture lock is free on every way out *)
Definition unlocked (jobID : string) (w : BWs) : Prop := bw_lock w ≠ jobID.
Lemma unlocked_sweep jobID dir l : preserves (unlocked jobID) (sweep_each dir l).
Proof using.
  induction l as [|name l IH]; cbn [sweep_each]; [apply preserves_ret|]. apply preserves_bind; [by intros w|]. intros [c|e].
  - apply preserves_bind; [|auto]. intros w Hw. unfold remove. rewrite bind_run. by destruct (eval _ w).
  - apply preserves_bind; [apply preserves_ret|auto].
Qed.
Lemma lock_released jobID msg w : c_CaptureLock cfg = true → jobID ≠ EmptyString → bw_lock (exec (finalizeRunRow cfg jobID msg) w) ≠ jobID.
Proof using.
  intros Hc Hj. unfold finalizeRunRow. rewrite exec_bind.
  assert (unlocked jobID (exec (releaseCapture cfg jobID) w)) as Hu.
  { unfold releaseCapture, unlocked. rewrite Hc. cbn [negb]. unfold exec. rewrite bind_run. change (eval get w) with w. change (exec get w) with w.
    destruct (String.eqb_spec (bw_lock w) jobID); [cbn; congruence|done]. }
  generalize dependent (exec (releaseCapture cfg jobID) w). intros w1 Hu. revert w1 Hu.
  change (preserves (unlocked jobID) (rdbq (λ flt rows, GetRun flt rows jobID) ≫= λ row, match row with
    | Ok (Some row) => w ← get;
      _ ← (if String.eqb (bw_staging w) EmptyString then mret tt else CleanStaging (bw_staging w));
      _ ← (if c_Ingest cfg && negb (String.eqb (bw_generation w) EmptyString) then _ ← in_world (w_Abandon (bw_generation w)); mret tt else mret tt);
      if bool_decide (br_Status row ≠ RunRunning) then mret tt
      else t ← now; _ ← rdb (λ flt rows, FailRun flt rows jobID (if String.eqb msg EmptyString then "job ended without recording a backup generation" else msg) t); mret tt
    | _ => mret tt end)).
  apply preserves_bind; [by intros w1|]. intros [[row|]|]; [|apply preserves_ret..]. apply preserves_bind; [by intros w1|]. intros w1.
  apply preserves_bind; [|intros _]. { destruct (String.eqb _ _); [apply preserves_ret|]. unfold CleanStaging.
    apply preserves_bind; [by intros ?|]. intros e. apply preserves_bind; [apply preserves_get|]. intros w2. destruct e; [apply preserves_ret|apply unlocked_sweep]. }
  apply preserves_bind; [|intros _]. { destruct (_ && _); [|apply preserves_ret]. apply preserves_bind; [|intros; apply preserves_ret].
    intros w2 Hw2. unfold in_world. by destruct (w_Abandon _ _). }
  case_bool_decide; [apply preserves_ret|]. apply preserves_bind; [by intros ?|]. intros t. apply preserves_bind; [|intros; apply preserves_ret].
  intros w2 Hw2. unfold rdb. by destruct (FailRun _ _ _ _ _).
Qed.

Theorem run_frees_lock jobID raw w : c_CaptureLock cfg = true → jobID ≠ EmptyString → bw_lock (exec (run_backup cfg jobID raw) w) ≠ jobID.
Proof using.
  intros Hc Hj. unfold run_backup. rewrite !exec_bind, exec_ret. by apply lock_released.
Qed.

(** ** The secret store comes back: where a start starts it, it is up and not
    quiesced after the capture, whatever failed *)
Lemma store_back dst w : (∀ n, snd (e_start n) = true) → bw_store (exec (coldCopy dst) w) = mkStoreState true false.
Proof using.
  intros Hs. unfold coldCopy. rewrite !exec_bind, exec_ret.
  assert (∀ w, ss_up (bw_store (exec (coldCopy_body dst) w)) = true) as Hup.
  { clear w. intros w. unfold coldCopy_body. rewrite exec_bind. generalize (eval store_Stop w) as e. generalize (exec store_Stop w). clear w. intros w e.
    assert (∀ {A} (a : A) w, ss_up (bw_store (exec (_ ← store_Start; mret a) w)) = true) as Hst by (intros; apply Hs).
    destruct e; [apply Hst|]. rewrite exec_bind. generalize (exec (stageStoreCapture dst) w). destruct (eval (stageStoreCapture dst) w); intros w1.
    - rewrite exec_bind. assert (ss_up (bw_store (exec store_Start w1)) = true) as Hu by apply Hs. revert Hu. generalize (exec store_Start w1).
      assert (∀ w, ss_up (bw_store w) = true → ss_up (bw_store (exec (remove dst) w)) = true) as Hrm.
      { intros w2 Hw2. unfold remove, exec. rewrite bind_run. by destruct (eval _ w2). }
      destruct (eval store_Start w1); intros w2 Hu; [rewrite exec_bind, exec_ret; by apply Hrm|]. rewrite exec_bind.
      change (ss_up (bw_store (exec (oracle e_waitReady) w2)) = true) in Hu. revert Hu. generalize (exec (oracle e_waitReady) w2). destruct (eval _ w2); intros w3 Hu; [rewrite exec_bind, exec_ret; by apply Hrm|done].
    - rewrite exec_bind. apply Hst. }
  generalize (exec (quiesce true) w). intros w1. specialize (Hup w1). revert Hup. generalize (exec (coldCopy_body dst) w1). intros w2 Hup.
  unfold quiesce, exec. rewrite bind_run. cbn. by rewrite Hup.
Qed.

(** ** Nothing is left in the staging root *)
Section files.
Context (no_file_fault : ∀ n, e_file n = None).
Lemma exec_remove p w : bw_files (exec (remove p) w) = delete p (bw_files w).
Proof using no_file_fault. unfold remove, exec. rewrite bind_run. unfold eval, oracle. cbn [fst]. by rewrite no_file_fault. Qed.
Lemma exec_stat p w : bw_files (exec (file_stat p) w) = bw_files w ∧ bw_staging (exec (file_stat p) w) = bw_staging w ∧
  (is_Some (bw_files w !! p) → ∃ c, eval (file_stat p) w = Ok c).
Proof using no_file_fault.
  split_and!; [done..|]. intros [c Hc]. exists c. cbv [file_stat eval mbind M_bind oracle get mret M_ret]. cbn [fst bw_files]. by rewrite no_file_fault, Hc.
Qed.

Lemma sweep_removes dir l w : NoDup l → (∀ name, name ∈ l → is_Some (bw_files w !! (dir, name))) →
  ∀ d name, bw_files (exec (sweep_each dir l) w) !! (d, name) = if decide (d = dir ∧ name ∈ l) then None else bw_files w !! (d, name).
Proof using no_file_fault.
  intros Hnd. revert w. induction Hnd as [|x l Hx Hnd IH]; intros w Hin d name; cbn [sweep_each].
  { by rewrite decide_False by (by intros [_ ?%elem_of_nil]). }
  rewrite exec_bind. destruct (exec_stat (dir, x) w) as (E1 & _ & E3). destruct E3 as [c Hc]; [apply Hin; left|]. rewrite Hc, exec_bind.
  rewrite IH, exec_remove, E1.
  - destruct (decide (d = dir ∧ name ∈ l)) as [[-> Hn]|Hn]; [by rewrite decide_True by (split; [done|by right])|].
    destruct (decide (d = dir ∧ name = x)) as [[-> ->]|Hne].
    + rewrite lookup_delete_eq, decide_True; [done|]. split; [done|left].
    + rewrite lookup_delete_ne by (intros [= -> ->]; by apply Hne). rewrite decide_False; [done|]. intros [-> [->|?]%elem_of_cons]; [by apply Hne|by apply Hn].
  - intros n Hn. rewrite exec_remove, E1, lookup_delete_ne by (intros [= ->]; done). apply Hin. by right.
Qed.

Lemma in_dir_spec (dir : string) (files : gmap (string * string) string) : NoDup (BackupRun.in_dir dir files) ∧ ∀ name, name ∈ BackupRun.in_dir dir files ↔ is_Some (files !! (dir, name)).
Proof using.
  unfold BackupRun.in_dir. split.
  - rewrite sort_Strings_perm. pose proof (NoDup_fst_map_to_list files) as Hnd. induction (map_to_list files) as [|[[d n] c] l IH]; [constructor|].
    cbn [fmap list_fmap fst] in Hnd. apply NoDup_cons in Hnd as [Hn Hnd]. cbn [omap list_omap fst snd]. destruct (String.eqb_spec d dir) as [->|]; [|by apply IH].
    constructor; [|by apply IH]. rewrite list_elem_of_omap. intros ([[d' n'] c'] & Hin & E). cbn in E. destruct (String.eqb_spec d' dir) as [->|]; [|done].
    injection E as ->. apply Hn. apply list_elem_of_fmap. by exists ((dir, n), c').
  - intros name. rewrite sort_Strings_perm, list_elem_of_omap. split.
    + intros ([[d n] c] & Hin%elem_of_map_to_list & E). cbn in E. destruct (String.eqb_spec d dir) as [->|]; [|done]. injection E as ->. by exists c.
    + intros [c Hc]. exists ((dir, name), c). split; [by apply elem_of_map_to_list|]. cbn. by rewrite String.eqb_refl.
Qed.

Lemma clean_empties dir w d name : bw_files (exec (CleanStaging dir) w) !! (d, name) = if decide (d = dir) then None else bw_files w !! (d, name).
Proof using no_file_fault.
  unfold CleanStaging, exec. rewrite bind_run. unfold eval at 1, oracle at 1. cbn [fst]. rewrite no_file_fault. rewrite bind_run.
  set (w1 := exec get (exec (oracle e_file) w)). change (eval get (exec (oracle e_file) w)) with w1. change (bw_files w) with (bw_files w1).
  destruct (in_dir_spec dir (bw_files w1)) as [Hnd Hin]. change (snd (sweep_each dir (BackupRun.in_dir dir (bw_files w1)) w1)) with (exec (sweep_each dir (BackupRun.in_dir dir (bw_files w1))) w1).
  rewrite sweep_removes; [|done|intros n; apply Hin]. destruct (decide (d = dir)) as [->|Hd].
  - destruct (decide (dir = dir ∧ name ∈ BackupRun.in_dir dir (bw_files w1))) as [|Hn]; [done|]. apply eq_None_not_Some. rewrite <- Hin. intros Hc. by apply Hn.
  - rewrite decide_False; [done|]. by intros [-> _].
Qed.

(** The terminal hook of a run that has a row: what it staged is gone, and
    nothing outside its staging root is touched. *)
Lemma hook_empties (no_fault : ∀ n, e_fault n = None) jobID msg row w d name : run_row (bw_runs w) jobID = Some row →
  bw_files (exec (finalizeRunRow cfg jobID msg) w) !! (d, name) =
    if decide (bw_staging w ≠ EmptyString ∧ d = bw_staging w) then None else bw_files w !! (d, name).
Proof using no_file_fault.
  intros Hr. unfold finalizeRunRow. rewrite exec_bind.
  assert (∀ w, bw_files (exec (releaseCapture cfg jobID) w) = bw_files w ∧ bw_staging (exec (releaseCapture cfg jobID) w) = bw_staging w ∧
    bw_runs (exec (releaseCapture cfg jobID) w) = bw_runs w) as Hrel.
  { intros w1. unfold releaseCapture. destruct (negb _); [done|]. unfold exec. rewrite bind_run. cbn. by destruct (String.eqb _ _). }
  destruct (Hrel w) as (F1 & F2 & F3). revert F1 F2 F3. generalize (exec (releaseCapture cfg jobID) w). intros w1 F1 F2 F3.
  rewrite exec_bind. set (q := rdbq _). assert (eval q w1 = Ok (Some row)) as ->.
  { unfold q, rdbq, eval, GetRun, query. cbn [fst]. by rewrite no_fault, F3, Hr. }
  rewrite exec_bind. change (exec get ?x) with x. change (eval get ?x) with x. rewrite exec_bind.
  assert (bw_staging (exec q w1) = bw_staging w ∧ bw_files (exec q w1) = bw_files w) as [S1 S2] by done. revert S1 S2. generalize (exec q w1). intros w2 S1 S2.
  set (w3 := exec _ w2). assert (bw_files w3 !! (d, name) = if decide (bw_staging w ≠ EmptyString ∧ d = bw_staging w) then None else bw_files w !! (d, name)) as <-.
  { unfold w3. rewrite S1. destruct (String.eqb_spec (bw_staging w) EmptyString) as [E|E].
    - rewrite decide_False by tauto. change (bw_files w2 !! (d, name) = bw_files w !! (d, name)). by rewrite S2.
    - rewrite clean_empties, S2. destruct (decide (d = bw_staging w)); [by rewrite decide_True|by rewrite decide_False by tauto]. }
  generalize w3. clear. intros w3. rewrite exec_bind. transitivity (bw_files (exec (if c_Ingest cfg && negb (String.eqb (bw_generation w2) EmptyString)
           then _ ← in_world (w_Abandon (bw_generation w2)); mret tt else mret tt) w3) !! (d, name)).
  - generalize (exec (if c_Ingest cfg && negb (String.eqb (bw_generation w2) EmptyString)
           then _ ← in_world (w_Abandon (bw_generation w2)); mret tt else mret tt) w3). intros w4.
    case_bool_decide; [done|]. unfold exec. rewrite bind_run, bind_run. unfold rdb, exec. by destruct (FailRun _ _ _ _ _).
  - destruct (_ && _); [|done]. unfold exec. rewrite bind_run. unfold exec, in_world. by destruct (w_Abandon _ _).
Qed.
End files.

(** ** Stranded rows at start *)
Section stranded.
Context (steady : ∀ n, e_fault n = None) (job_of : string → result (option Job)).

(** A job that reached its end. *)
Definition over (jobID : string) : Prop := match job_of jobID with Ok (Some j) => j_Status j = StatusFailed ∨ j_Status j = StatusSucceeded | _ => False end.
#[local] Instance over_dec jobID : Decision (over jobID).
Proof using. unfold over. destruct (job_of jobID) as [[j|]|]; apply _. Defined.
(** What the sweep may make of a row. *)
Definition swept (r r' : BackupRun) : Prop :=
  r' = r ∨ br_Status r = RunRunning ∧ over (br_JobID r) ∧ ∃ text t, r' = with_run_outcome RunFailed text t r.
Definition swept_up_to (rows0 : RunRows) (ids : list string) (w : BWs) : Prop :=
  Forall2 swept rows0 (bw_runs w) ∧ ∀ r, r ∈ bw_runs w → br_JobID r ∈ ids → over (br_JobID r) → br_Status r ≠ RunRunning.

Lemma swept_fails rows0 ids j text t rows : over j → Forall2 swept rows0 rows →
  (∀ r, r ∈ rows → br_JobID r ∈ ids → over (br_JobID r) → br_Status r ≠ RunRunning) →
  let rows' := run_where (running_job j) (with_run_outcome RunFailed text t) rows in
  Forall2 swept rows0 rows' ∧ ∀ r, r ∈ rows' → br_JobID r ∈ j :: ids → over (br_JobID r) → br_Status r ≠ RunRunning.
Proof using.
  intros Hj HF Hids. cbn zeta. unfold run_where. split.
  - apply Forall2_fmap_r. eapply Forall2_impl; [exact HF|]. intros r r' Hr. cbn. destruct (running_job j r') eqn:E; [|done].
    unfold running_job, of_job in E. apply andb_true_iff in E as [E1%String.eqb_eq E2%bool_decide_eq_true].
    destruct Hr as [->|(_ & _ & tx & tm & ->)]; [|done]. right. rewrite E1. split_and!; eauto.
  - intros r (x & -> & Hx)%list_elem_of_fmap. cbn. destruct (running_job j x) eqn:E; [done|]. intros [E1|Hin]%elem_of_cons Ho; [|by apply Hids].
    unfold running_job, of_job in E. rewrite E1, String.eqb_refl in E. by apply bool_decide_eq_false in E.
Qed.

Lemma reconcile_run_sweeps rows0 ids row :
  triple (swept_up_to rows0 ids) (reconcile_run job_of row) (λ _, swept_up_to rows0 (br_JobID row :: ids)).
Proof using steady.
  assert (¬ over (br_JobID row) → ∀ w, swept_up_to rows0 ids w → swept_up_to rows0 (br_JobID row :: ids) w) as Hskip.
  { intros Hn w [G1 G2]. split; [done|]. intros r Hr [E|Hin]%elem_of_cons Ho; [by rewrite E in Ho|by apply G2]. }
  unfold reconcile_run. unfold over in Hskip at 1. destruct (job_of (br_JobID row)) as [[j|]|] eqn:Ej; [|intros w Hw; by apply Hskip; [tauto|]..].
  do 2 case_bool_decide; cbn [negb andb]; try (intros w Hw; apply Hskip; [tauto|done]).
  all: apply (triple_bind _ (λ _, swept_up_to rows0 ids)); [by intros w|intros t].
  all: apply (triple_bind _ (λ _, swept_up_to rows0 (br_JobID row :: ids))); [|by intros _ w].
  all: intros w [G1 G2]; unfold rdb, FailRun, r_stmt; rewrite steady; cbn [fst snd]; unfold swept_up_to; cbn [bw_runs].
  all: apply swept_fails; [unfold over; rewrite Ej; tauto|done|done].
Qed.

Lemma reconcile_all rows0 l ids : triple (swept_up_to rows0 ids) (for_each (reconcile_run job_of) l) (λ _, swept_up_to rows0 (rev (br_JobID <$> l) ++ ids)).
Proof using steady.
  revert ids. induction l as [|row l IH]; intros ids; cbn [for_each]; [by intros w|].
  apply (triple_bind _ (λ _, swept_up_to rows0 (br_JobID row :: ids))); [apply reconcile_run_sweeps|]. intros _. cbn [fmap list_fmap rev]. rewrite <- app_assoc. apply IH.
Qed.

(** After the sweep no row of a job that is over is running, and the sweep
    fails nothing but those. *)
Theorem reconcile_settles w : let w' := exec (ReconcileStrandedRuns job_of) w in
  Forall2 swept (bw_runs w) (bw_runs w') ∧ ∀ r, r ∈ bw_runs w' → br_Status r = RunRunning → ¬ over (br_JobID r).
Proof using steady.
  cbn zeta. unfold ReconcileStrandedRuns. rewrite exec_bind. set (w1 := exec (rdbq ListRunning) w).
  assert (eval (rdbq ListRunning) w = Ok (merge_sort run_started_desc (filter (λ r, br_Status r = RunRunning) (bw_runs w)))) as ->.
  { unfold eval, rdbq, ListRunning, query. cbn [fst]. by rewrite steady. }
  rewrite exec_bind. set (l := merge_sort _ _).
  assert (swept_up_to (bw_runs w) [] w1) as Hw. { split; [|intros r _ []%elem_of_nil]. change (bw_runs w1) with (bw_runs w). apply Forall_Forall2_diag, Forall_true. by left. }
  destruct (reconcile_all (bw_runs w) l [] w1 Hw) as [G1 G2]. change (snd (for_each (reconcile_run job_of) l w1)) with (exec (for_each (reconcile_run job_of) l) w1) in *.
  change (exec (mret None) ?x) with x. split; [done|]. intros r Hr Hrun Ho. refine (G2 r Hr _ Ho Hrun).
  apply list_elem_of_lookup in Hr as [i Hi]. destruct (Forall2_lookup_r _ _ _ _ _ G1 Hi) as (r0 & Hi0 & [->|(_ & _ & tx & tm & ->)]); [|done].
  rewrite app_nil_r. apply list_elem_of_In. rewrite <- in_rev. apply list_elem_of_In. apply list_elem_of_fmap_2. unfold l. rewrite merge_sort_Permutation. apply list_elem_of_filter. split; [done|].
  by eapply list_elem_of_lookup_2.
Qed.
End stranded.
End after.

(** ** A run in the concrete *)
Module Demo.
Definition volume : string := "volumes/vault/data.rasputin-archive".
Definition gid : string := "20260901T000000Z-J-full".
Definition world : Env unit := World.env (mkIngest (Some (BackupIngest.mkGen gid "J" "/mnt/generations" "/mnt/generations/.partial")) None {[volume := Run.rc1]} ∅).
#[export] Instance endpoint : Endpoint unit := {| w_Open _ _ _ := mret (Ok "/mnt/generations/.partial"); w_Close _ := mret tt; w_Abandon _ := mret None |}.
#[export] Instance codec : ScheduleCodec := {| sched_enc s := bs_Every s; sched_dec _ := Fail (errors_New "no schedule is stored") |}.
Definition target : ClaimedTarget := mkClaimed "claim" "cp" "part-1" "disk" "/mnt" "key1" "pk" None.
Definition ready : PreflightAck := mkPreflightAck true true "part-1" "/mnt" 1000 900 10 true [] "/var/lib/staging" EmptyString EmptyString.
Definition written (cmd : WriteCmd) : WriteAck :=
  mkWriteAck true (wc_PartUUID cmd) (Some (mkGeneration (wc_GenerationID cmd) "/mnt/a" "/mnt/m" 3 (wc_Digest cmd) 9 "full")) 800 EmptyString EmptyString.
Definition cfg : RunConfig :=
  mkRunConfig "2026.09.1" "cp" EmptyString "/db" true (Some World.tiles) true true (Some "https://api:8443/api/backup/ingest/") 3 false true true true true false.
(** The answers, with the installed apps, the preflight's and the prune's given. *)
Definition env (apps : list (option App)) (preflight : PreflightAck) (prune : nat → PruneCmd → PruneAck) : RunEnv := {|
  e_fault _ := None; e_clock _ := 1000; e_stamp _ := "20260901T000000Z"; e_rfc3339 _ := "2026-09-01T00:00:00Z";
  e_claimed _ := Ok [target]; e_restoring _ := None; e_key_ok _ := None; e_settings _ := ∅; e_settings_fault _ := None;
  e_spec _ := Ok "scheduled"; e_apps _ := Ok apps; e_manifest _ _ := None; e_describe _ _ := "missing"; e_dbBytes _ := 10;
  e_identity _ n := n; e_storeBytes _ := 0; e_free _ := Ok (2 ^ 40); e_preflight _ _ _ _ := Replied preflight;
  e_write _ _ cmd := Replied (written cmd); e_prune n _ cmd := Replied (prune n cmd); e_file _ := None; e_vacuum _ := ("db", None);
  e_acquire _ := None; e_expired _ := false; e_readiness _ := Ok EmptyString; e_sealKey _ := Ok "k"; e_version _ := Ok "1";
  e_stop _ := (None, false); e_start _ := (None, true); e_waitReady _ := None; e_copy _ := ("store", Ok (1, 5));
  e_assemble _ := ("tar", Ok ["db"]); e_manifest_json m := "manifest of " +:+ rm_GenerationID m; e_manifest_json_err _ := None;
  e_seal _ plain _ _ _ := ("sealed", Ok (mkSealResult ("digest of " +:+ plain) 6 3)) |}.
Definition prune_ack (removed : list string) (cmd : PruneCmd) : PruneAck :=
  mkPruneAck true (pc_PartUUID cmd) [pc_ProtectGenerationID cmd] removed 900 EmptyString EmptyString.
Definition at_rest : BW unit := mkBW [] ∅ EmptyString EmptyString EmptyString (mkStoreState true false) tt [] 0.
Definition run (E : RunEnv) : option error * BW unit := run_backup (H := Run.crypto) (Env0 := world) cfg "J" "{}" at_rest.
End Demo.

Definition Demo_good : RunEnv := Demo.env [Some World.app] Demo.ready (λ _, Demo.prune_ack []).
Definition Demo_end : BW unit := Eval vm_compute in snd (Demo.run Demo_good).
Lemma Demo_runs : Demo.run Demo_good = (None, Demo_end).
Proof. by vm_compute. Qed.

Lemma backup_run_recorded_witness :
  ∃ row, bw_runs Demo_end = [row] ∧ br_Status row = RunSucceeded ∧ br_GenerationID row = Demo.gid ∧
    ∃ cmd ack, write_acked row (bw_wire Demo_end) cmd ack.
Proof.
  pose proof (@backup_run_recorded Run.crypto unit Demo.world Demo.endpoint Demo.codec Demo_good
    Demo.cfg "J" "{}" Demo.at_rest Demo_end None (λ _, eq_refl) (not_elem_of_nil _) Demo_runs) as Hr.
  destruct Hr as [[? _]|(row & asked & E1 & E2 & Hj & Hst & _ & Hok)]; [done|]. exists row. change (bw_runs Demo.at_rest) with (@nil BackupRun) in E1.
  assert (br_GenerationID <$> bw_runs Demo_end = [Demo.gid]) as Hg by (by vm_compute).
  split; [done|]. split; [done|]. rewrite E1 in Hg. split; [by injection Hg|].
  destruct (Hok eq_refl) as (cmd & ack & _ & _ & _ & _ & _ & _ & Ha & _). exists cmd, ack. by rewrite E2.
Defined.

(** An agent's refusal that never looked at the disk, reported as the disk
    being unplugged. *)
Example refusal_reads_as_unplugged :
  let refused := mkPreflightAck false false EmptyString EmptyString 0 0 0 false [] EmptyString "backend-error" "the driver is not configured" in
  let '(e, w') := Demo.run (Demo.env [] refused (λ _, Demo.prune_ack [])) in
  omap (λ x, match x with WHealth p h => Some (p, h) | _ => None end) (bw_wire w') =
    [("part-1", BackupTargetHealthMissing); ("part-1", BackupTargetHealthMissing)] ∧
  err_text <$> e = Some "the backup target disk (partUuid part-1) is not attached to cp — it was unplugged. Nothing was written. Health: missing".
Proof. by vm_compute. Qed.

(** A run failed for a volume prunes twice, and its row keeps the count of the
    second prune, which found nothing left to remove. *)
Definition homeless : App := mkApp "01" "vault" EmptyString "vaultwarden".
Example retry_forgets_the_prune :
  let '(e, w') := Demo.run (Demo.env [Some homeless] Demo.ready (λ n cmd, Demo.prune_ack (if Nat.ltb n 44 then ["old-1"; "old-2"] else []) cmd)) in
  is_Some e ∧ omap (λ x, match x with WPrune _ _ (Replied k) => Some (pk_Pruned k) | _ => None end) (bw_wire w') = [["old-1"; "old-2"]; []] ∧
  br_GenerationsPruned <$> bw_runs w' = [0].
Proof. vm_compute. split; [by eexists|done]. Qed.
