(* ===== verification/StorageDisk.v ===== *)
(** * Claiming a disk, on the agent

    agent/internal/storage: blockdev.go, protect.go, lsblk.go, fingerprint.go
    and client.go: which disks hold what is mounted, what a disk is known by,
    and the claim that formats one; enumerate, mount and inspect beside it.
    Every command and every look at the machine answers by a tick, so the
    machine may change between any two of them, and leaves an event, so that
    what was formatted can be compared with what had been seen.  SHA-256,
    decoding JSON and the durable write of the marker file are parameters; log
    lines are left out. *)
From Stdlib Require Import Ascii String.
From S2P Require Import Prelude GoStrings GoRunes GoPath BackupMembers BackupEstimate BackupTarget.
Open Scope string_scope.
Open Scope list_scope.
Open Scope Z_scope.
#[local] Arguments String.eqb : simpl never.
#[local] Arguments String.append : simpl nomatch.

(** ** Purposes, proto/storage.go *)
Definition StoragePurposeBackup : string := "backup".
Definition StoragePurposeData : string := "data".
Definition AllStoragePurposes : list string := [StoragePurposeBackup; StoragePurposeData].
Record StoragePurposeSpec := mkPurposeSpec {
  sp_Purpose : string; sp_PartName : string; sp_FSLabel : string; sp_MarkerFile : string; sp_MountRoot : string; sp_MountOptions : string }.
Definition StorageBackupMountRoot : string := "/run/rasputin/storage".
Definition storagePurposeSpecs : list StoragePurposeSpec :=
  [mkPurposeSpec StoragePurposeBackup "rasputin-backup" "RASPUTIN-BACKUP" ".rasputin-backup-set.json" StorageBackupMountRoot "noexec,nosuid,nodev";
   mkPurposeSpec StoragePurposeData "rasputin-data" "RASPUTIN-DATA" ".rasputin-data-set.json" "/var/lib/rasputin/data" "nosuid,nodev"].
Definition spec_of (p : string) : option StoragePurposeSpec := head (filter (λ s, sp_Purpose s = p) storagePurposeSpecs).
Definition StoragePurposeSpecFor (p : string) : result StoragePurposeSpec :=
  match spec_of p with
  | Some s => Ok s
  | None => Fail (errors_New ("unrecognised storage purpose " +:+ quote p +:+ " (want " +:+ quote StoragePurposeBackup +:+ " or " +:+ quote StoragePurposeData +:+ ")"))
  end.
Definition StoragePurposeForFSLabel (label : string) : option string := sp_Purpose <$> head (filter (λ s, sp_FSLabel s = label) storagePurposeSpecs).

(** ** What a disk says about itself *)
Record StorageBackupSet := mkBackupSet {
  bk_MarkerVersion : Z; bk_ClusterID : string; bk_PartUUID : string; bk_KeyID : string; bk_KeyAlg : string; bk_PublicKey : string;
  bk_WrappedByPassphrase : string; bk_WrappedByRecoveryCode : string; bk_Label : string; bk_CreatedAt : Z; bk_Generations : Z }.
Record StorageDataSet := mkDataSet { dk_MarkerVersion : Z; dk_ClusterID : string; dk_PartUUID : string; dk_Label : string; dk_CreatedAt : Z }.
#[export] Instance StorageBackupSet_eq_dec : EqDecision StorageBackupSet.
Proof. solve_decision. Defined.
#[export] Instance StorageDataSet_eq_dec : EqDecision StorageDataSet.
Proof. solve_decision. Defined.

Record StoragePartition := mkPartition {
  pt_DevicePath : string; pt_PartUUID : string; pt_FSType : string; pt_Label : string; pt_SizeBytes : Z; pt_Mountpoint : string }.
Record StorageCandidate := mkCandidate {
  cn_DevicePath : string; cn_Model : string; cn_Serial : string; cn_WWN : string; cn_SizeBytes : Z; cn_Transport : string; cn_Removable : bool;
  cn_Partitions : list StoragePartition; cn_HasBackupSet : bool; cn_BackupSet : option StorageBackupSet; cn_HasDataSet : bool;
  cn_DataSet : option StorageDataSet; cn_Protected : bool; cn_ProtectedReason : string; cn_Fingerprint : string; cn_IdentityWeak : bool }.

(** ** The fingerprint *)
Definition fingerprintVersion : string := "rasputin-storage-fingerprint/v1".
Definition partition_line (i : nat) (p : StoragePartition) : string :=
  "p" +:+ pretty i +:+ " uuid=" +:+ Trim (pt_PartUUID p) +:+ " fs=" +:+ Trim (pt_FSType p) +:+ " label=" +:+ Trim (pt_Label p) +:+
  " size=" +:+ pretty (pt_SizeBytes p) +:+ newline.
Definition fingerprint_text (wwn serial model : string) (size : Z) (parts : list StoragePartition) : string :=
  fingerprintVersion +:+ newline +:+ "wwn=" +:+ Trim wwn +:+ newline +:+ "serial=" +:+ Trim serial +:+ newline +:+ "model=" +:+ Trim model +:+ newline +:+
  "size=" +:+ pretty size +:+ newline +:+ "parts=" +:+ pretty (Z.of_nat (length parts)) +:+ newline +:+
  foldr String.append EmptyString (imap partition_line parts).
Definition identityWeak (wwn serial : string) : bool := String.eqb (Trim wwn) EmptyString && String.eqb (Trim serial) EmptyString.

(** ** lsblk *)
Inductive lsblkDevice := mkBlk {
  ld_Name : string; ld_KName : string; ld_Path : string; ld_Type : string; ld_Size : Z; ld_Model : string; ld_Serial : string; ld_WWN : string;
  ld_Tran : string; ld_RM : bool; ld_FSType : string; ld_Label : string; ld_PartUUID : string; ld_MountPoint : string; ld_Children : list lsblkDevice }.
Definition blk_path (d : lsblkDevice) : string := if String.eqb (ld_Path d) EmptyString then "/dev/" +:+ ld_KName d else ld_Path d.
Definition nonCandidatePrefixes : list string := ["loop"; "ram"; "zram"; "sr"; "fd"; "dm-"; "md"].
Definition isCandidateDisk (d : lsblkDevice) : bool :=
  if negb (String.eqb (ld_Type d) "disk") then false
  else if ld_Size d =? 0 then false
  else negb (existsb (λ p, HasPrefix (ld_KName d) p || HasPrefix (ld_Name d) p) nonCandidatePrefixes).
(** [strings.ToLower] of ASCII text. *)
Fixpoint ascii_lower (s : string) : string := match s with EmptyString => EmptyString | String c s => String (fold_byte c) (ascii_lower s) end.
Definition transportOf (tran : string) : string :=
  let t := ascii_lower (Trim tran) in
  if bool_decide (t ∈ ["usb"; "nvme"; "mmc"]) then t
  else if bool_decide (t ∈ ["sata"; "ata"]) then "sata"
  else if bool_decide (t ∈ ["virtio"; "vmbus"; "xen"]) then "virtual"
  else "unknown".
Definition partition_of (p : lsblkDevice) : option StoragePartition :=
  if negb (String.eqb (ld_Type p) "part") then None
  else Some (mkPartition (blk_path p) (Trim (ld_PartUUID p)) (Trim (ld_FSType p)) (Trim (ld_Label p)) (ld_Size p) (Trim (ld_MountPoint p))).
Definition partitions_of (d : lsblkDevice) : list StoragePartition := omap partition_of (ld_Children d).

(** ** The mounted disks *)
Definition defaultCriticalMounts : list string := ["/"; "/boot"; "/boot/efi"; "/boot/firmware"; "/efi"].
Definition DefaultPersistentDir : string := "/var/lib/rasputin".
Record mountEntry := mkMount { me_majMin : string; me_mountPoint : string; me_source : string; me_fsType : string }.

(** [strings.Fields]. *)
Fixpoint fields_runes (skip : nat) (cur s : string) : list string :=
  let word := if String.eqb cur EmptyString then [] else [cur] in
  match s with
  | EmptyString => word
  | String c s' =>
      match skip with
      | S k => fields_runes k cur s'
      | O => match space_width s with
             | O => fields_runes 0 (cur +:+ String c EmptyString) s'
             | S k => word ++ fields_runes k EmptyString s'
             end
      end
  end.

Definition octal (c : ascii) : option Z :=
  if byte_in 48 55 c then Some (Z.of_nat (nat_of_ascii c - 48)) else None.
(** [strconv.ParseUint(s, 8, 8)] of three bytes. *)
Definition parse_octal3 (a b c : ascii) : option Z :=
  match octal a, octal b, octal c with
  | Some x, Some y, Some z => let v := 64 * x + 8 * y + z in if v <=? 255 then Some v else None
  | _, _, _ => None
  end.
(** The three bytes of an escape are skipped by a count. *)
Fixpoint unescape (skip : nat) (s : string) : string :=
  match s with
  | EmptyString => EmptyString
  | String c s' =>
      match skip with
      | S k => unescape k s'
      | O =>
          match c, s' with
          | "\"%char, String x (String y (String z _)) =>
              match parse_octal3 x y z with
              | Some v => String (ascii_of_nat (Z.to_nat v)) (unescape 3 s')
              | None => String c (unescape 0 s')
              end
          | _, _ => String c (unescape 0 s')
          end
      end
  end.
Definition unescapeOctal (s : string) : string := unescape 0 s.

(** One line; the optional fields end at a lone hyphen. *)
Definition parse_mount (line : string) : option mountEntry :=
  let f := fields_runes 0 EmptyString line in
  if Nat.ltb (length f) 7 then None
  else match list_find (λ x, x = "-") (drop 6 f) with
       | None => None
       | Some (i, _) =>
           let sep := (6 + i)%nat in
           if Nat.leb (length f) (sep + 2) then None
           else Some (mkMount (default EmptyString (f !! 2%nat)) (unescapeOctal (default EmptyString (f !! 4%nat)))
                  (unescapeOctal (default EmptyString (f !! (sep + 2)%nat))) (default EmptyString (f !! (sep + 1)%nat)))
       end.
Definition parse_mountinfo (text : string) : list mountEntry := omap parse_mount (Split (char 10) text).

Definition exactMount (entries : list mountEntry) (path : string) : option mountEntry :=
  head (filter (λ e, Clean (me_mountPoint e) = Clean path) entries).
(** [path] is on the filesystem mounted at [mp]. *)
Definition carries (mp path : string) : bool := String.eqb mp "/" || HasPrefix path (mp +:+ "/") || String.eqb path mp.
Definition carry_step (path : string) (best : option mountEntry * Z) (e : mountEntry) : option mountEntry * Z :=
  let mp := Clean (me_mountPoint e) in
  if negb (carries mp path) then best
  else if snd best <? Z.of_nat (String.length mp) then (Some e, Z.of_nat (String.length mp)) else best.
Definition carryingMount (entries : list mountEntry) (path : string) : option mountEntry :=
  fst (foldl (carry_step (Clean path)) (None, -1) entries).
Definition protectingMount (entries : list mountEntry) (path persistentDir : string) : option mountEntry :=
  if String.eqb path persistentDir then carryingMount entries path else exactMount entries path.

(** ** sysfs *)
Record Sysfs := mkSysfs {
  sy_eval : string → result string;          (* filepath.EvalSymlinks *)
  sy_slaves : string → result (list string); (* the names in <dir>/slaves *)
  sy_partition : string → bool }.            (* <dir>/partition is there *)
Definition sysfsRoot : string := "/sys".
Definition Base (s : string) : string :=
  match last (filter (λ c, c ≠ EmptyString) (Split slash s)) with
  | Some n => n
  | None => if String.eqb s EmptyString then "." else "/"
  end.
Definition Dir (s : string) : string :=
  match reverse (Split slash s) with
  | _ :: ((_ :: _) as before) => Clean (Join (reverse before) "/" +:+ "/")
  | _ => Clean EmptyString
  end.
Definition maxSlaveDepth : nat := 8.

Section sysfs.
Context (sy : Sysfs).
Definition slave_dir (dir name : string) : result string :=
  match sy_eval sy (filepath_Join [sysfsRoot; "class"; "block"; name]) with
  | Ok child => Ok child
  | Fail _ =>
      match sy_eval sy (filepath_Join [dir; "slaves"; name]) with
      | Ok child => Ok child
      | Fail e => Fail (wrapf ("resolve slave " +:+ name +:+ " of " +:+ Base dir +:+ ": " +:+ err_text e) e)
      end
  end.
(** [fuel] is how many more levels the walk may go down. *)
Fixpoint collectDisks (fuel : nat) (dir : string) (set : gset string) : result (gset string) :=
  match fuel with
  | O => Fail (errors_New ("sysfs slave chain deeper than " +:+ pretty (Z.of_nat maxSlaveDepth) +:+ " below " +:+ dir))
  | S fuel =>
      match sy_slaves sy dir with
      | Ok ((_ :: _) as slaves) =>
          (fix each (l : list string) (set : gset string) : result (gset string) :=
             match l with
             | [] => Ok set
             | name :: l =>
                 match slave_dir dir name with
                 | Fail e => Fail e
                 | Ok child => match collectDisks fuel child set with Fail e => Fail e | Ok set => each l set end
                 end
             end) slaves set
      | _ => Ok ({[ "/dev/" +:+ (if sy_partition sy dir then Base (Dir dir) else Base dir) ]} ∪ set)
      end
  end.
Definition wholeDisksFor (majMin : string) : result (list string) :=
  match sy_eval sy (filepath_Join [sysfsRoot; "dev"; "block"; majMin]) with
  | Fail e => Fail (wrapf ("no sysfs entry for " +:+ majMin +:+ ": " +:+ err_text e) e)
  | Ok dir =>
      match collectDisks (S maxSlaveDepth) dir ∅ with
      | Fail e => Fail e
      | Ok set => if bool_decide (set = ∅) then Fail (errors_New ("no whole disk found behind " +:+ majMin)) else Ok (sort_Strings (elements set))
      end
  end.

Definition describeProtection (path : string) (ent : mountEntry) (persistentDir : string) : string :=
  if String.eqb path persistentDir then "holds the mounted persistent partition (" +:+ me_mountPoint ent +:+ ")"
  else if String.eqb path "/" then "holds the mounted root filesystem (" +:+ me_mountPoint ent +:+ ")"
  else "holds the mounted boot partition (" +:+ me_mountPoint ent +:+ ")".

(** The protected disks with their reasons. *)
Definition protect_disk (reason : string) (out : gmap string string) (d : string) : gmap string string :=
  match out !! d with
  | Some prev => if Contains prev reason then out else <[d := prev +:+ "; " +:+ reason]> out
  | None => <[d := reason]> out
  end.
Definition protect_path (entries : list mountEntry) (path : string) (out : gmap string string) : result (gmap string string) :=
  match protectingMount entries path DefaultPersistentDir with
  | None => Ok out
  | Some ent =>
      match wholeDisksFor (me_majMin ent) with
      | Fail e => Fail (wrapf ("resolve the disk behind " +:+ path +:+ " (" +:+ me_majMin ent +:+ "): " +:+ err_text e) e)
      | Ok disks => Ok (foldl (protect_disk (describeProtection path ent DefaultPersistentDir)) out disks)
      end
  end.
Fixpoint protect_paths (entries : list mountEntry) (paths : list string) (out : gmap string string) : result (gmap string string) :=
  match paths with
  | [] => Ok out
  | p :: paths => match protect_path entries p out with Fail e => Fail e | Ok out => protect_paths entries paths out end
  end.
Definition mountinfoPath : string := "/proc/self/mountinfo".
Definition protected_from (mountinfo : result string) : result (gmap string string) :=
  match mountinfo with
  | Fail e => Fail (wrapf ("read " +:+ mountinfoPath +:+ ": " +:+ err_text e) e)
  | Ok text =>
      let entries := parse_mountinfo text in
      if bool_decide (entries = []) then Fail (errors_New (mountinfoPath +:+ " listed no mounts"))
      else match protect_paths entries (defaultCriticalMounts ++ [DefaultPersistentDir]) ∅ with
           | Fail e => Fail e
           | Ok out =>
               if bool_decide (out = ∅) then
                 Fail (errors_New ("resolved no protected disks from " +:+ mountinfoPath +:+ " — refusing to treat that as 'nothing is protected'"))
               else Ok out
           end
  end.
End sysfs.

(** ** Errors, client.go *)
Definition ErrProtected : error := sentinel "ErrProtected" "storage: refusing to touch the device holding the mounted boot/persistent partitions".
Definition ErrFingerprintMismatch : error := sentinel "ErrFingerprintMismatch" "storage: device fingerprint no longer matches the one confirmed".
Definition ErrDeviceAbsent : error := sentinel "ErrDeviceAbsent" "storage: device not present".
Definition ErrNotWholeDisk : error := sentinel "ErrNotWholeDisk" "storage: not a whole disk".
Definition ErrNoFingerprint : error := sentinel "ErrNoFingerprint" "storage: claim requires the fingerprint the operator confirmed".
Definition ErrBadPurpose : error := sentinel "ErrBadPurpose" "storage: claim purpose refused".
Definition protectedError (devicePath reason : string) : error := refuse ErrProtected (devicePath +:+ " " +:+ reason).
Definition refusalFor (e : error) : string :=
  if errors_Is e "ErrProtected" then "protected"
  else if errors_Is e "ErrFingerprintMismatch" || errors_Is e "ErrNoFingerprint" then "fingerprint-mismatch"
  else if errors_Is e "ErrDeviceAbsent" then "device-absent"
  else if errors_Is e "ErrNotWholeDisk" then "not-whole-disk"
  else if errors_Is e "storage.ErrNotFound" then StorageRefusalNotFound
  else if errors_Is e "ErrBadPurpose" then "bad-purpose"
  else if errors_Is e "ErrInsufficientSpace" then BackupRefusalInsufficientSpace
  else if errors_Is e "ErrStagingMissing" then "staging-missing"
  else if errors_Is e "ErrDigestMismatch" then "digest-mismatch"
  else "backend-error".

(** [^/dev/[A-Za-z0-9][A-Za-z0-9._/-]{0,63}$] *)
Definition path_char (c : ascii) : bool := alnum c || Ascii.eqb c "."%char || Ascii.eqb c "_"%char || Ascii.eqb c "/"%char || Ascii.eqb c "-"%char.
Definition safeDevicePath (p : string) : bool :=
  HasPrefix p "/dev/" &&
  match drop_str 5 p with
  | String c r => alnum c && all_chars path_char r && Nat.leb (String.length r) 63
  | EmptyString => false
  end.
Definition checkDevicePath (p : string) : option error :=
  if negb (safeDevicePath p) || Contains p ".." then Some (refuse ErrDeviceAbsent (quote p +:+ " is not a device path")) else None.
Definition short (fp : string) : string := if Nat.ltb 12 (String.length fp) then take_str 12 fp +:+ "…" else fp.

(** ** The command and its answer *)
Record StorageClaimCmd := mkClaimCmd {
  cc_DevicePath : string; cc_Fingerprint : string; cc_Purpose : string; cc_Label : string; cc_ClusterID : string; cc_KeyID : string; cc_KeyAlg : string;
  cc_PublicKey : string; cc_WrappedByPassphrase : string; cc_WrappedByRecoveryCode : string }.
Definition EffectivePurpose (c : StorageClaimCmd) : string := if String.eqb (cc_Purpose c) EmptyString then StoragePurposeBackup else cc_Purpose c.
Record StorageClaimAck := mkClaimAck {
  ca_OK : bool; ca_DevicePath : string; ca_PartUUID : string; ca_Label : string; ca_FSLabel : string; ca_FSType : string; ca_MountPath : string;
  ca_SizeBytes : Z; ca_Fingerprint : string; ca_Purpose : string; ca_BackupSet : option StorageBackupSet; ca_DataSet : option StorageDataSet;
  ca_Refusal : string; ca_Detail : string }.

Definition custody (cmd : StorageClaimCmd) : list (string * string) :=
  [("keyId", cc_KeyID cmd); ("keyAlg", cc_KeyAlg cmd); ("publicKey", cc_PublicKey cmd); ("wrappedByPassphrase", cc_WrappedByPassphrase cmd);
   ("wrappedByRecoveryCode", cc_WrappedByRecoveryCode cmd)].
Definition claimSpec (cmd : StorageClaimCmd) : result StoragePurposeSpec :=
  match StoragePurposeSpecFor (EffectivePurpose cmd) with
  | Fail e => Fail (refuse ErrBadPurpose (err_text e))
  | Ok spec =>
      if String.eqb (sp_Purpose spec) StoragePurposeBackup then Ok spec
      else
        let carried := fst <$> filter (λ f, Trim (snd f) ≠ EmptyString) (custody cmd) in
        if bool_decide (carried ≠ []) then
          Fail (refuse ErrBadPurpose ("a " +:+ quote (sp_Purpose spec) +:+ " claim carries §4.6 backup-key custody (" +:+ Join carried ", " +:+
                ") — those belong to a backup target and nowhere else"))
        else Ok spec
  end.
Definition markerFrom (cmd : StorageClaimCmd) (partUUID : string) (now : Z) : StorageBackupSet :=
  mkBackupSet 1 (cc_ClusterID cmd) partUUID (cc_KeyID cmd) (cc_KeyAlg cmd) (cc_PublicKey cmd) (cc_WrappedByPassphrase cmd) (cc_WrappedByRecoveryCode cmd)
    (cc_Label cmd) now 0.
Definition dataMarkerFrom (cmd : StorageClaimCmd) (partUUID : string) (now : Z) : StorageDataSet :=
  mkDataSet 1 (cc_ClusterID cmd) partUUID (cc_Label cmd) now.

(** The roots a claimed target is mounted under, and the scratch root. *)
Definition our_roots : list string := (sp_MountRoot <$> storagePurposeSpecs) ++ [StorageBackupMountRoot].
Definition isOurMount (path : string) : bool := existsb (λ root, HasPrefix (Clean path +:+ "/") (Clean root +:+ "/")) our_roots.

(** ** The machine *)
Inductive ToolCmd :=
| CMountRO (part dir : string) | CUmount (dir : string) | CWipefs (dev : string) | CSfdisk (script dev : string) | CPartprobe (dev : string)
| CSettle | CMkfs (label part : string) | CMount (options part dir : string).
(** What was looked at and what was done, with the answer. *)
Inductive DiskEvent :=
| EResolve (r : result (gmap string string))
| ELsblk (dev : string) (r : result (list lsblkDevice))
| ERun (c : ToolCmd) (e : option error)
| EMarker (mountPath name : string) (set : StorageBackupSet + StorageDataSet) (e : option error).
Record Box := mkBox { x_tick : nat; x_log : list DiskEvent }.

Class DiskEnv := {
  d_sha256 : string → string;                     (* in hex *)
  d_mountinfo : nat → result string;
  d_sysfs : nat → Sysfs;
  d_lsblk : nat → string → result (list lsblkDevice);
  d_run : nat → ToolCmd → option error;
  d_mkdirTemp : nat → result string;
  d_mkdirAll : nat → option error;
  d_blkid : nat → string → result string;
  d_file : nat → string → result string;          (* at most one byte over the bound *)
  d_backup_json : string → result StorageBackupSet;
  d_data_json : string → result StorageDataSet;
  d_generations : nat → string → result Z;
  d_writeMarker : nat → option error;
  d_usage : nat → string → result (Z * Z);
  d_clock : nat → Z;
  d_partprobe : bool;                             (* the optional tools *)
  d_udevadm : bool }.

Section disk.
Context `{!DiskEnv}.
#[local] Abbreviation MB := (M Box).

Definition look {A} (f : nat → A) : MB A := λ b, (f (x_tick b), mkBox (S (x_tick b)) (x_log b)).
Definition note (ev : DiskEvent) : MB unit := modify (λ b, mkBox (x_tick b) (x_log b ++ [ev])).
(** [x, err := m; if err != nil { return nil, err }] *)
Definition ok_or {A B} (m : MB (result A)) (k : A → MB (result B)) : MB (result B) :=
  r ← m; match r with Ok a => k a | Fail e => mret (Fail e) end.
(** [if err := m; err != nil { return nil, f(err) }] *)
Definition unless {B} (m : MB (option error)) (f : error → error) (k : MB (result B)) : MB (result B) :=
  e ← m; match e with None => k | Some e => mret (Fail (f e)) end.
Definition wrapped (text : string) (e : error) : error := wrapf (text +:+ ": " +:+ err_text e) e.

Definition run_cmd (c : ToolCmd) : MB (option error) := e ← look (λ n, d_run n c); _ ← note (ERun c e); mret e.
Definition resolve_protected : MB (result (gmap string string)) :=
  r ← look (λ n, protected_from (d_sysfs n) (d_mountinfo n)); _ ← note (EResolve r); mret r.
Definition lsblk (devicePath : string) : MB (result (list lsblkDevice)) :=
  match (if String.eqb devicePath EmptyString then None else checkDevicePath devicePath) with
  | Some e => mret (Fail e)
  | None =>
      r ← look (λ n, d_lsblk n devicePath);
      let r := match r with Ok l => Ok l | Fail e => Fail (wrapped "lsblk" e) end in
      _ ← note (ELsblk devicePath r); mret r
  end.

(** ** Markers *)
Definition markerMaxBytes : nat := 64 * 1024.
Definition readMarkerFile {A} (mountPath name : string) (dec : string → result A) : MB (result A) :=
  f ← look (λ n, d_file n (filepath_Join [mountPath; name]));
  mret match f with
       | Fail e => Fail e
       | Ok b =>
           if Nat.ltb markerMaxBytes (String.length b) then
             Fail (errors_New ("marker " +:+ name +:+ " on " +:+ mountPath +:+ " is larger than " +:+ pretty (Z.of_nat markerMaxBytes) +:+ " bytes — refusing to parse it"))
           else match dec b with Fail e => Fail (wrapped ("parse marker " +:+ name +:+ " on " +:+ mountPath) e) | Ok a => Ok a end
       end.
Definition with_generations (s : StorageBackupSet) (n : Z) : StorageBackupSet :=
  mkBackupSet (bk_MarkerVersion s) (bk_ClusterID s) (bk_PartUUID s) (bk_KeyID s) (bk_KeyAlg s) (bk_PublicKey s) (bk_WrappedByPassphrase s)
    (bk_WrappedByRecoveryCode s) (bk_Label s) (bk_CreatedAt s) n.
Definition StorageMarkerFile : string := ".rasputin-backup-set.json".
Definition StorageDataMarkerFile : string := ".rasputin-data-set.json".
Definition readMarker (mountPath : string) : MB (result StorageBackupSet) :=
  ok_or (readMarkerFile mountPath StorageMarkerFile d_backup_json) (λ set,
  n ← look (λ n, d_generations n mountPath);
  mret (Ok match n with Ok n => with_generations set n | Fail _ => set end)).
Definition readDataMarker (mountPath : string) : MB (result StorageDataSet) := readMarkerFile mountPath StorageDataMarkerFile d_data_json.

(** The sets read so far, one per purpose. *)
#[local] Abbreviation Sets := (option StorageBackupSet * option StorageDataSet)%type.
Definition read_set (purpose mountPath : string) (sets : Sets) : MB Sets :=
  if String.eqb purpose StoragePurposeBackup then
    r ← readMarker mountPath; mret match r with Ok s => (Some s, snd sets) | Fail _ => sets end
  else if String.eqb purpose StoragePurposeData then
    r ← readDataMarker mountPath; mret match r with Ok s => (fst sets, Some s) | Fail _ => sets end
  else mret sets.
Definition scratch_dir : MB (result string) :=
  d ← look d_mkdirTemp;
  match d with
  | Ok d => mret (Ok d)
  | Fail _ => e ← look d_mkdirAll; match e with Some e => mret (Fail e) | None => look d_mkdirTemp end
  end.
(** A partition that cannot be mounted yields nothing. *)
Definition peek (devicePath purpose : string) (sets : Sets) : MB Sets :=
  match checkDevicePath devicePath with
  | Some _ => mret sets
  | None =>
      d ← scratch_dir;
      match d with
      | Fail _ => mret sets
      | Ok dir =>
          e ← run_cmd (CMountRO devicePath dir);
          match e with
          | Some _ => mret sets
          | None => sets ← read_set purpose dir sets; _ ← run_cmd (CUmount dir); mret sets
          end
      end
  end.
Definition have_set (purpose : string) (sets : Sets) : bool :=
  (String.eqb purpose StoragePurposeBackup && bool_decide (fst sets ≠ None)) || (String.eqb purpose StoragePurposeData && bool_decide (snd sets ≠ None)).
Fixpoint readClaimedSets (scan : list string) (parts : list StoragePartition) (sets : Sets) : MB Sets :=
  match parts with
  | [] => mret sets
  | p :: parts =>
      sets ← match StoragePurposeForFSLabel (pt_Label p) with
             | None => mret sets
             | Some purpose =>
                 if negb (bool_decide (purpose ∈ scan)) || have_set purpose sets then mret sets
                 else if negb (String.eqb (pt_Mountpoint p) EmptyString) then read_set purpose (pt_Mountpoint p) sets
                 else peek (pt_DevicePath p) purpose sets
             end;
      readClaimedSets scan parts sets
  end.

Definition Fingerprint (wwn serial model : string) (size : Z) (parts : list StoragePartition) : string :=
  d_sha256 (fingerprint_text wwn serial model size parts).
(** The fingerprint of a disk as lsblk shows it. *)
Definition blk_fingerprint (d : lsblkDevice) : string :=
  Fingerprint (Trim (ld_WWN d)) (Trim (ld_Serial d)) (Trim (ld_Model d)) (ld_Size d) (partitions_of d).
Definition candidateFrom (d : lsblkDevice) (protected : gmap string string) (scan : list string) : MB StorageCandidate :=
  let parts := partitions_of d in
  sets ← readClaimedSets scan parts (None, None);
  mret (mkCandidate (blk_path d) (Trim (ld_Model d)) (Trim (ld_Serial d)) (Trim (ld_WWN d)) (ld_Size d) (transportOf (ld_Tran d)) (ld_RM d) parts
    (bool_decide (fst sets ≠ None)) (fst sets) (bool_decide (snd sets ≠ None)) (snd sets)
    (bool_decide (protected !! blk_path d ≠ None)) (default EmptyString (protected !! blk_path d))
    (blk_fingerprint d) (identityWeak (Trim (ld_WWN d)) (Trim (ld_Serial d)))).

(** ** Enumerate *)
Record StorageEnumerateAck := mkEnumerateAck {
  ea_OK : bool; ea_Backend : string; ea_Candidates : list StorageCandidate; ea_Refusal : string; ea_Detail : string }.
Fixpoint candidates (protected : gmap string string) (scan : list string) (l : list lsblkDevice) : MB (list StorageCandidate) :=
  match l with
  | [] => mret []
  | d :: l =>
      if negb (isCandidateDisk d) then candidates protected scan l
      else c ← candidateFrom d protected scan; cs ← candidates protected scan l; mret (c :: cs)
  end.
Definition enumerate (scan : list string) : MB (result (list StorageCandidate)) :=
  p ← resolve_protected;
  match p with
  | Fail e => mret (Fail (wrapped "resolve the protected set" e))
  | Ok protected => ok_or (lsblk EmptyString) (λ devices, cs ← candidates protected scan devices; mret (Ok cs))
  end.
Definition Enumerate : MB (result (list StorageCandidate)) := enumerate AllStoragePurposes.
(** The handler's answer. *)
Definition handle_enumerate : MB StorageEnumerateAck :=
  r ← Enumerate;
  mret match r with
       | Ok cs => mkEnumerateAck true "blockdev" cs EmptyString EmptyString
       | Fail e => mkEnumerateAck false "blockdev" [] (refusalFor e) (err_text e)
       end.

(** ** Claim *)
Definition names_device (devicePath : string) (d : lsblkDevice) : Prop := ld_Path d = devicePath ∨ "/dev/" +:+ ld_KName d = devicePath.
#[export] Instance names_device_dec devicePath d : Decision (names_device devicePath d).
Proof. unfold names_device. apply _. Defined.

Fixpoint release_mounts {B} (devicePath : string) (parts : list StoragePartition) (k : MB (result B)) : MB (result B) :=
  match parts with
  | [] => k
  | p :: parts =>
      if String.eqb (pt_Mountpoint p) EmptyString then release_mounts devicePath parts k
      else if negb (isOurMount (pt_Mountpoint p)) then
        mret (Fail (errors_New (pt_DevicePath p +:+ " is mounted at " +:+ pt_Mountpoint p +:+ " — unmount it before claiming " +:+ devicePath)))
      else unless (run_cmd (CUmount (pt_Mountpoint p))) (wrapped ("release our own mount at " +:+ pt_Mountpoint p)) (release_mounts devicePath parts k)
  end.
(** Errors are logged and passed over. *)
Definition settle (devicePath : string) : MB unit :=
  _ ← (if d_partprobe then run_cmd (CPartprobe devicePath) else mret None);
  _ ← (if d_udevadm then run_cmd CSettle else mret None);
  mret tt.
Definition first_part (l : list lsblkDevice) : option string := blk_path <$> head (filter (λ c, ld_Type c = "part") (mjoin (ld_Children <$> l))).
Definition firstPartition (devicePath : string) : MB (result string) :=
  ok_or (lsblk devicePath) (λ l,
  mret match first_part l with Some p => Ok p | None => Fail (errors_New ("no partition appeared on " +:+ devicePath +:+ " after sfdisk")) end).
Definition partUUIDOf (part : string) : MB (result string) :=
  r ← look (λ n, d_blkid n part);
  mret match r with
       | Fail e => Fail (wrapped ("read PARTUUID of " +:+ part) e)
       | Ok out =>
           let uuid := Trim out in
           if String.eqb uuid EmptyString then Fail (errors_New ("blkid reported no PARTUUID for " +:+ part))
           else match checkPartUUID uuid with Fail e => Fail e | Ok _ => Ok uuid end
       end.
Definition mountRootFor (purpose : string) : result string :=
  match spec_of purpose with
  | Some s => if String.eqb (sp_MountRoot s) EmptyString then Fail (refuse ErrBadPurpose ("no mount root is defined for purpose " +:+ quote purpose)) else Ok (sp_MountRoot s)
  | None => Fail (refuse ErrBadPurpose ("no mount root is defined for purpose " +:+ quote purpose))
  end.
Definition mountPartition (part partUUID : string) (spec : StoragePurposeSpec) : MB (result string) :=
  match mountRootFor (sp_Purpose spec) with
  | Fail e => mret (Fail e)
  | Ok root =>
      let dir := filepath_Join [root; partUUID] in
      unless (look d_mkdirAll) (λ e, e)
        (unless (run_cmd (CMount (sp_MountOptions spec) part dir)) (wrapped ("mount " +:+ part +:+ " at " +:+ dir)) (mret (Ok dir)))
  end.
Definition writeMarker (mountPath name : string) (set : StorageBackupSet + StorageDataSet) : MB (option error) :=
  e ← look d_writeMarker; _ ← note (EMarker mountPath name set e); mret e.
Definition fingerprintOf (devicePath : string) (protected : gmap string string) : MB string :=
  r ← lsblk devicePath;
  match r with
  | Fail _ => mret EmptyString
  | Ok l =>
      match head (filter (names_device devicePath) l) with
      | None => mret EmptyString
      | Some d => c ← candidateFrom d protected AllStoragePurposes; mret (cn_Fingerprint c)
      end
  end.
Definition sfdisk_script (spec : StoragePurposeSpec) : string :=
  "label: gpt" +:+ newline +:+ "name=" +:+ quote (sp_PartName spec) +:+ ", type=0FC63DAF-8483-4772-8E79-3D69D8477DE4" +:+ newline.

(** Which marker follows from the purpose. *)
Definition claim_marker (cmd : StorageClaimCmd) (spec : StoragePurposeSpec) (partUUID : string) (now : Z) : option (StorageBackupSet + StorageDataSet) :=
  if String.eqb (sp_Purpose spec) StoragePurposeBackup then Some (inl (markerFrom cmd partUUID now))
  else if String.eqb (sp_Purpose spec) StoragePurposeData then Some (inr (dataMarkerFrom cmd partUUID now))
  else None.
Definition claimed_ack (cmd : StorageClaimCmd) (spec : StoragePurposeSpec) (partUUID mountPath : string) (size : Z) (after : string)
    (set : StorageBackupSet + StorageDataSet) : StorageClaimAck :=
  mkClaimAck true (cc_DevicePath cmd) partUUID (cc_Label cmd) (sp_FSLabel spec) "ext4" mountPath size after (sp_Purpose spec)
    (match set with inl s => Some s | inr _ => None end) (match set with inr s => Some s | inl _ => None end) EmptyString EmptyString.
(** From the first byte written on. *)
Definition rewrite_disk (cmd : StorageClaimCmd) (spec : StoragePurposeSpec) (protected : gmap string string) (size : Z) : MB (result StorageClaimAck) :=
  let dev := cc_DevicePath cmd in
  unless (run_cmd (CWipefs dev)) (wrapped ("wipe signatures on " +:+ dev))
  (unless (run_cmd (CSfdisk (sfdisk_script spec) dev)) (wrapped ("write partition table on " +:+ dev))
  (_ ← settle dev;
   ok_or (firstPartition dev) (λ part,
   unless (run_cmd (CMkfs (sp_FSLabel spec) part)) (wrapped ("mkfs on " +:+ part))
   (_ ← settle dev;
    ok_or (partUUIDOf part) (λ partUUID,
    ok_or (mountPartition part partUUID spec) (λ mountPath,
    now ← look d_clock;
    match claim_marker cmd spec partUUID now with
    | None => mret (Fail (refuse ErrBadPurpose ("no marker is defined for purpose " +:+ quote (sp_Purpose spec))))
    | Some set =>
        unless (writeMarker mountPath (sp_MarkerFile spec) set) (wrapped ("write marker on " +:+ mountPath))
          (after ← fingerprintOf dev protected; mret (Ok (claimed_ack cmd spec partUUID mountPath size after set)))
    end)))))).
(** The disk is looked at again. *)
Definition reverify (cmd : StorageClaimCmd) (spec : StoragePurposeSpec) (protected : gmap string string) (node : lsblkDevice) : MB (result StorageClaimAck) :=
  let dev := cc_DevicePath cmd in
  if negb (String.eqb (ld_Type node) "disk") then mret (Fail (refuse ErrNotWholeDisk (dev +:+ " is a " +:+ quote (ld_Type node))))
  else
    cand ← candidateFrom node protected AllStoragePurposes;
    if cn_Protected cand then mret (Fail (protectedError dev (cn_ProtectedReason cand)))
    else if negb (String.eqb (cn_Fingerprint cand) (cc_Fingerprint cmd)) then
      mret (Fail (refuse ErrFingerprintMismatch ("confirmed " +:+ short (cc_Fingerprint cmd) +:+ ", found " +:+ short (cn_Fingerprint cand))))
    else release_mounts dev (cn_Partitions cand) (rewrite_disk cmd spec protected (cn_SizeBytes cand)).
Definition Claim (cmd : StorageClaimCmd) : MB (result StorageClaimAck) :=
  let dev := cc_DevicePath cmd in
  match checkDevicePath dev with
  | Some e => mret (Fail e)
  | None =>
      if String.eqb (Trim (cc_Fingerprint cmd)) EmptyString then mret (Fail ErrNoFingerprint)
      else match claimSpec cmd with
           | Fail e => mret (Fail e)
           | Ok spec =>
               p ← resolve_protected;
               match p with
               | Fail e => mret (Fail (wrapped "resolve the protected set" e))
               | Ok protected =>
                   match protected !! dev with
                   | Some reason => mret (Fail (protectedError dev reason))
                   | None =>
                       ok_or (lsblk dev) (λ l,
                       match head (filter (names_device dev) l) with
                       | None => mret (Fail (refuse ErrDeviceAbsent dev))
                       | Some node => reverify cmd spec protected node
                       end)
                   end
               end
           end
  end.
Definition handle_claim (cmd : StorageClaimCmd) : MB StorageClaimAck :=
  r ← Claim cmd;
  mret match r with
       | Ok ack => ack
       | Fail e => mkClaimAck false (cc_DevicePath cmd) EmptyString EmptyString EmptyString EmptyString EmptyString 0 EmptyString EmptyString None None (refusalFor e) (err_text e)
       end.

(** ** Mount and inspect *)
Record claimedPartition := mkClaimedPartition { cp_devicePath : string; cp_mountPoint : string; cp_fsType : string; cp_fsLabel : string }.
(** The first disk's first partition with that UUID. *)
Definition with_uuid (partUUID : string) (l : list lsblkDevice) : option (lsblkDevice * lsblkDevice) :=
  head (mjoin ((λ d, (pair d) <$> filter (λ c, Trim (ld_PartUUID c) = partUUID) (ld_Children d)) <$> l)).
Definition findByPartUUID (partUUID : string) : MB (result claimedPartition) :=
  ok_or (lsblk EmptyString) (λ l,
  p ← resolve_protected;
  mret match p with
       | Fail e => Fail (wrapped "resolve the protected set" e)
       | Ok protected =>
           match with_uuid partUUID l with
           | None => Fail (refuse ErrNotFound partUUID)
           | Some (d, c) =>
               match protected !! blk_path d with
               | Some reason => Fail (protectedError (blk_path d) reason)
               | None => Ok (mkClaimedPartition (blk_path c) (Trim (ld_MountPoint c)) (Trim (ld_FSType c)) (Trim (ld_Label c)))
               end
           end
       end).
Definition mountSpecForLabel (fsLabel : string) : result StoragePurposeSpec :=
  StoragePurposeSpecFor (default StoragePurposeBackup (StoragePurposeForFSLabel (Trim fsLabel))).
Definition Mount (partUUID : string) : MB (result string) :=
  match checkPartUUID partUUID with
  | Fail e => mret (Fail e)
  | Ok _ =>
      ok_or (findByPartUUID partUUID) (λ found,
      if negb (String.eqb (cp_mountPoint found) EmptyString) then mret (Ok (cp_mountPoint found))
      else match mountSpecForLabel (cp_fsLabel found) with Fail e => mret (Fail e) | Ok spec => mountPartition (cp_devicePath found) partUUID spec end)
  end.

Record StorageInspectAck := mkInspectAck {
  ia_OK : bool; ia_PartUUID : string; ia_DevicePath : string; ia_MountPath : string; ia_FSType : string; ia_FSLabel : string; ia_Present : bool;
  ia_TotalBytes : Z; ia_FreeBytes : Z; ia_BackupSet : option StorageBackupSet; ia_DataSet : option StorageDataSet; ia_Refusal : string; ia_Detail : string }.
Definition inspect_mounted (partUUID : string) (found : claimedPartition) (mountPoint : string) : MB (result StorageInspectAck) :=
  du ← look (λ n, d_usage n mountPoint);
  let '(total, free) := match du with Ok x => x | Fail _ => (0, 0) end in
  b ← readMarker mountPoint;
  d ← readDataMarker mountPoint;
  mret (Ok (mkInspectAck true partUUID (cp_devicePath found) mountPoint (cp_fsType found) (cp_fsLabel found) true total free
    (match b with Ok s => Some s | Fail _ => None end) (match d with Ok s => Some s | Fail _ => None end) EmptyString EmptyString)).
Definition Inspect (partUUID : string) : MB (result StorageInspectAck) :=
  match checkPartUUID partUUID with
  | Fail e => mret (Fail e)
  | Ok _ =>
      r ← findByPartUUID partUUID;
      match r with
      | Fail e =>
          if errors_Is e "storage.ErrNotFound" then
            mret (Ok (mkInspectAck true partUUID EmptyString EmptyString EmptyString EmptyString false 0 0 None None StorageRefusalNotFound
              "no attached disk carries that partition UUID"))
          else mret (Fail e)
      | Ok found =>
          if negb (String.eqb (cp_mountPoint found) EmptyString) then inspect_mounted partUUID found (cp_mountPoint found)
          else match mountSpecForLabel (cp_fsLabel found) with
               | Fail e => mret (Fail e)
               | Ok spec =>
                   m ← mountPartition (cp_devicePath found) partUUID spec;
                   match m with
                   | Ok dir => inspect_mounted partUUID found dir
                   | Fail e =>
                       mret (Ok (mkInspectAck false partUUID (cp_devicePath found) EmptyString EmptyString EmptyString true 0 0 None None (refusalFor e)
                         (cp_devicePath found +:+ " is attached but could not be mounted: " +:+ err_text e)))
                   end
               end
      end
  end.
End disk.

(** ** Every mounted disk is in the protected set *)
Lemma protect_disk_keeps reason out d x : is_Some (out !! x) → is_Some (protect_disk reason out d !! x).
Proof.
  unfold protect_disk. intros Hx. destruct (out !! d) as [prev|] eqn:E; [destruct (Contains prev reason); [done|]|]; destruct (decide (d = x)) as [->|];
    rewrite ?lookup_insert_eq, ?lookup_insert_ne by done; eauto.
Qed.
Lemma protect_disk_adds reason out d : is_Some (protect_disk reason out d !! d).
Proof. unfold protect_disk. destruct (out !! d) eqn:E; [destruct (Contains _ _)|]; rewrite ?lookup_insert_eq; eauto. Qed.
Lemma protect_disks reason l : ∀ out x, x ∈ l ∨ is_Some (out !! x) → is_Some (foldl (protect_disk reason) out l !! x).
Proof.
  induction l as [|d l IH]; intros out x; cbn [foldl]; [by intros [?%elem_of_nil|]|]. intros [[->|Hx]%elem_of_cons|Hx]; apply IH; [right; apply protect_disk_adds|by left|].
  right. by apply protect_disk_keeps.
Qed.
Lemma protect_path_spec sy entries path out out' : protect_path sy entries path out = Ok out' →
  (∀ x, is_Some (out !! x) → is_Some (out' !! x)) ∧
  ∀ ent, protectingMount entries path DefaultPersistentDir = Some ent → ∃ disks, wholeDisksFor sy (me_majMin ent) = Ok disks ∧ ∀ d, d ∈ disks → is_Some (out' !! d).
Proof.
  unfold protect_path. destruct (protectingMount entries path DefaultPersistentDir) as [ent|]; [|by intros [= <-]].
  destruct (wholeDisksFor sy (me_majMin ent)) as [disks|] eqn:Ew; intros E; [injection E as <-|done]. split; [intros x Hx; apply protect_disks; by right|].
  intros ? [= <-]. exists disks. split; [done|]. intros d Hd. apply protect_disks. by left.
Qed.
Lemma protect_paths_spec sy entries paths : ∀ out out', protect_paths sy entries paths out = Ok out' →
  (∀ x, is_Some (out !! x) → is_Some (out' !! x)) ∧
  ∀ path ent, path ∈ paths → protectingMount entries path DefaultPersistentDir = Some ent →
    ∃ disks, wholeDisksFor sy (me_majMin ent) = Ok disks ∧ ∀ d, d ∈ disks → is_Some (out' !! d).
Proof.
  induction paths as [|p paths IH]; intros out out'; cbn [protect_paths]; [intros [= <-]; split; [done|]; by intros ? ? ?%elem_of_nil|].
  destruct (protect_path sy entries p out) as [out1|] eqn:E; [|done]. intros E2. destruct (protect_path_spec _ _ _ _ _ E) as [H1 H2].
  destruct (IH _ _ E2) as [H3 H4]. split; [auto|]. intros path ent [->|Hp]%elem_of_cons Hent; [|by eapply H4].
  destruct (H2 _ Hent) as (disks & Hd & Hin). exists disks. split; [done|]. intros d Hx. by apply H3, Hin.
Qed.
(** A set that was resolved holds every disk behind the root, the boot mounts
    and the persistent directory, and is never empty. *)
Lemma protected_covers sy mi P : protected_from sy mi = Ok P →
  P ≠ ∅ ∧ ∃ text, mi = Ok text ∧ ∀ path ent, path ∈ defaultCriticalMounts ++ [DefaultPersistentDir] →
    protectingMount (parse_mountinfo text) path DefaultPersistentDir = Some ent →
    ∃ disks, wholeDisksFor sy (me_majMin ent) = Ok disks ∧ ∀ d, d ∈ disks → is_Some (P !! d).
Proof.
  unfold protected_from. destruct mi as [text|]; [|done]. cbn zeta. case_bool_decide; [done|].
  destruct (protect_paths sy (parse_mountinfo text) (defaultCriticalMounts ++ [DefaultPersistentDir]) ∅) as [out|] eqn:E; [|done].
  case_bool_decide; [done|]. intros [= <-]. split; [done|]. exists text. split; [done|]. by apply protect_paths_spec in E as [_ ?].
Qed.

(** ** What a claim may touch *)
Definition harmless (ev : DiskEvent) : Prop :=
  match ev with ERun (CWipefs _) _ | ERun (CSfdisk _ _) _ | ERun (CMkfs _ _) _ | EMarker _ _ _ _ => False | _ => True end.
(** Among [evs], it goes to the claimed device or to the partition that appeared on it. *)
Definition aimed (dev : string) (evs : list DiskEvent) (ev : DiskEvent) : Prop :=
  match ev with
  | ERun (CWipefs d) _ | ERun (CSfdisk _ d) _ => d = dev
  | ERun (CMkfs _ p) _ => ∃ l, ELsblk dev (Ok l) ∈ evs ∧ first_part l = Some p
  | _ => True
  end.

Section guard.
Context `{!DiskEnv} (log0 : list DiskEvent).
Implicit Types (b : Box).
(** Nothing was written since, and these were among the events. *)
Definition calm (req : list DiskEvent) (b : Box) : Prop := ∃ evs, x_log b = log0 ++ evs ∧ Forall harmless evs ∧ ∀ ev, ev ∈ req → ev ∈ evs.
(** Everything in [req] was seen before anything was written, all of [did] was
    done since, and what was written went where it had to. *)
Definition wrote_disk (dev : string) (req did : list DiskEvent) (b : Box) : Prop :=
  ∃ pre post, x_log b = log0 ++ pre ++ post ∧ Forall harmless pre ∧ (∀ ev, ev ∈ req → ev ∈ pre) ∧ (∀ ev, ev ∈ did → ev ∈ post) ∧ Forall (aimed dev post) post.

(** [I] survives a harmless event. *)
Definition steady_on (I : Box → Prop) : Prop :=
  ∀ b ev n, I b → harmless ev → I (mkBox n (x_log b ++ [ev])).
Lemma calm_tick req b n : calm req b → calm req (mkBox n (x_log b)).
Proof using. done. Qed.
Lemma wrote_tick dev req did b n : wrote_disk dev req did b → wrote_disk dev req did (mkBox n (x_log b)).
Proof using. done. Qed.
Lemma aimed_app dev l k ev : aimed dev l ev → aimed dev (l ++ k) ev.
Proof using. destruct ev as [| |[]|]; cbn; try done. intros (l0 & H1 & H2). exists l0. split; [|done]. apply elem_of_app. by left. Qed.
Lemma calm_more req b n ev : calm req b → harmless ev → calm (ev :: req) (mkBox n (x_log b ++ [ev])).
Proof using.
  intros (evs & E & Hh & Hr) Hev. exists (evs ++ [ev]). cbn [x_log]. rewrite E, <- app_assoc. split_and!; [done|apply Forall_app; by rewrite Forall_singleton|].
  intros x [->|Hx]%elem_of_cons; apply elem_of_app; [right; by apply list_elem_of_singleton|left; auto].
Qed.
Lemma calm_weaken req req' b : calm req' b → (∀ ev, ev ∈ req → ev ∈ req') → calm req b.
Proof using. intros (evs & E & Hh & Hr) Hs. exists evs. split_and!; auto. Qed.
Lemma calm_steady req : steady_on (calm req).
Proof using. intros b ev n Hb Hev. eapply calm_weaken; [by apply calm_more|]. intros x Hx. by right. Qed.
Lemma wrote_more dev req did b n ev : wrote_disk dev req did b → (∀ post, (∀ x, x ∈ did → x ∈ post) → aimed dev post ev) →
  wrote_disk dev req (ev :: did) (mkBox n (x_log b ++ [ev])).
Proof using.
  intros (pre & post & E & Hh & Hr & Hd & Ha) Hev. exists pre, (post ++ [ev]). cbn [x_log]. rewrite E, <- !app_assoc. split_and!; [done..| |].
  - intros x [->|Hx]%elem_of_cons; apply elem_of_app; [right; by apply list_elem_of_singleton|left; auto].
  - apply Forall_app. split; [eapply Forall_impl; [exact Ha|]; intros x; apply aimed_app|]. apply Forall_singleton. apply aimed_app. by apply Hev.
Qed.
Lemma wrote_weaken dev req did did' b : wrote_disk dev req did' b → (∀ ev, ev ∈ did → ev ∈ did') → wrote_disk dev req did b.
Proof using. intros (pre & post & E & Hh & Hr & Hd & Ha) Hs. exists pre, post. split_and!; auto. Qed.
Lemma harmless_aimed dev evs ev : harmless ev → aimed dev evs ev.
Proof using. by destruct ev as [| |[]|]. Qed.
Lemma wrote_steady dev req did : steady_on (wrote_disk dev req did).
Proof using. intros b ev n Hb Hev. eapply wrote_weaken; [apply wrote_more; [done|]; intros; by apply harmless_aimed|]. intros x Hx. by right. Qed.
(** The first write. *)
Lemma calm_wrote dev req b n ev : calm req b → (∀ post, aimed dev post ev) → wrote_disk dev req [ev] (mkBox n (x_log b ++ [ev])).
Proof using.
  intros (evs & E & Hh & Hr) Hev. exists evs, [ev]. cbn [x_log]. rewrite E, <- app_assoc. split_and!; [done..|by intros x Hx|apply Forall_singleton, Hev].
Qed.

(** ** Looking writes nothing *)
Section looks.
Context (I : Box → Prop) (tickI : ∀ b n, I b → I (mkBox n (x_log b))) (steadyI : steady_on I).
Lemma look_keeps {A} (f : nat → A) : preserves I (look f).
Proof using tickI. intros b Hb. by apply tickI. Qed.
Lemma note_keeps ev : harmless ev → preserves I (note ev).
Proof using steadyI. intros Hev b Hb. by apply steadyI. Qed.
#[local] Hint Resolve look_keeps note_keeps : triples.
Lemma run_keeps c e0 : harmless (ERun c e0) → preserves I (run_cmd c).
Proof using tickI steadyI. intros Hc. unfold run_cmd. preserve; apply note_keeps; by destruct c. Qed.
Lemma umount_keeps d : preserves I (run_cmd (CUmount d)).
Proof using tickI steadyI. by apply (run_keeps _ None). Qed.
Lemma mountRO_keeps p d : preserves I (run_cmd (CMountRO p d)).
Proof using tickI steadyI. by apply (run_keeps _ None). Qed.
Lemma lsblk_keeps dev : preserves I (lsblk dev).
Proof using tickI steadyI. unfold lsblk. preserve; by apply note_keeps. Qed.
Lemma resolve_keeps : preserves I resolve_protected.
Proof using tickI steadyI. unfold resolve_protected. preserve; by apply note_keeps. Qed.
#[local] Hint Resolve umount_keeps mountRO_keeps lsblk_keeps resolve_keeps : triples.
Lemma ok_or_keeps {A B} (m : M Box (result A)) (k : A → M Box (result B)) : preserves I m → (∀ a, preserves I (k a)) → preserves I (ok_or m k).
Proof using. intros Hm Hk. unfold ok_or. preserve. Qed.
Lemma readMarkerFile_keeps {A} p n (dec : string → result A) : preserves I (readMarkerFile p n dec).
Proof using tickI. unfold readMarkerFile. preserve. Qed.
Lemma read_set_keeps purpose p sets : preserves I (read_set purpose p sets).
Proof using tickI.
  unfold read_set, readMarker, readDataMarker. pose proof @readMarkerFile_keeps as Hr. preserve.
Qed.
#[local] Hint Resolve read_set_keeps : triples.
Lemma peek_keeps dev purpose sets : preserves I (peek dev purpose sets).
Proof using tickI steadyI. unfold peek, scratch_dir. preserve. Qed.
#[local] Hint Resolve peek_keeps : triples.
Lemma readClaimedSets_keeps scan parts sets : preserves I (readClaimedSets scan parts sets).
Proof using tickI steadyI. revert sets. induction parts as [|p parts IH]; intros sets; cbn [readClaimedSets]; preserve. Qed.
Lemma candidate_keeps d protected scan : triple I (candidateFrom d protected scan) (λ c b, I b ∧
  cn_Protected c = bool_decide (protected !! blk_path d ≠ None) ∧ cn_Fingerprint c = blk_fingerprint d ∧ cn_Partitions c = partitions_of d ∧ cn_SizeBytes c = ld_Size d).
Proof using tickI steadyI. unfold candidateFrom. eapply triple_bind; [apply readClaimedSets_keeps|]. by intros sets b. Qed.
Lemma fingerprintOf_keeps dev protected : preserves I (fingerprintOf dev protected).
Proof using tickI steadyI.
  unfold fingerprintOf. preserve; apply readClaimedSets_keeps.
Qed.
Lemma settle_keeps dev : preserves I (settle dev).
Proof using tickI steadyI. unfold settle. preserve; by apply note_keeps. Qed.
Lemma partUUIDOf_keeps p : preserves I (partUUIDOf p).
Proof using tickI. unfold partUUIDOf. preserve. Qed.
Lemma partUUIDOf_spec p : triple I (partUUIDOf p) (λ r b, I b ∧ match r with Ok u => u ≠ EmptyString | Fail _ => True end).
Proof using tickI.
  intros b Hb. split; [by apply partUUIDOf_keeps|]. unfold partUUIDOf, look, mbind, M_bind, mret, M_ret. cbv beta iota. cbn [fst].
  destruct (d_blkid (x_tick b) p) as [out|e]; [|done]. cbv zeta. destruct (String.eqb_spec (Trim out) EmptyString); [done|]. by destruct (checkPartUUID (Trim out)).
Qed.
End looks.
Lemma calm_looks req : (∀ b n, calm req b → calm req (mkBox n (x_log b))) ∧ steady_on (calm req).
Proof using. split; [done|apply calm_steady]. Qed.
Lemma wrote_looks dev req did : (∀ b n, wrote_disk dev req did b → wrote_disk dev req did (mkBox n (x_log b))) ∧ steady_on (wrote_disk dev req did).
Proof using. split; [done|apply wrote_steady]. Qed.

(** ** One step of the claim *)
Lemma triple_ok_or {A B} (P : Box → Prop) (R : A → Box → Prop) (Q : result B → Box → Prop) (m : M Box (result A)) (k : A → M Box (result B)) :
  triple P m (λ r b, match r with Ok a => R a b | Fail e => Q (Fail e) b end) → (∀ a, triple (R a) (k a) Q) → triple P (ok_or m k) Q.
Proof using. intros Hm Hk. unfold ok_or. eapply triple_bind; [exact Hm|]. intros [a|e]; [apply Hk|by intros b]. Qed.
Lemma triple_unless {B} (P R : Box → Prop) (Q : result B → Box → Prop) (m : M Box (option error)) f (k : M Box (result B)) :
  triple P m (λ e b, match e with None => R b | Some e => Q (Fail (f e)) b end) → triple R k Q → triple P (unless m f k) Q.
Proof using. intros Hm Hk. unfold unless. eapply triple_bind; [exact Hm|]. intros [e|]; [by intros b|apply Hk]. Qed.
Lemma run_notes (P : Box → Prop) (Q : option error → Box → Prop) c :
  (∀ b e n, P b → Q e (mkBox n (x_log b ++ [ERun c e]))) → triple P (run_cmd c) Q.
Proof using. intros HQ b Hb. exact (HQ b (d_run (x_tick b) c) (S (x_tick b)) Hb). Qed.
Lemma marker_notes (P : Box → Prop) (Q : option error → Box → Prop) p name set :
  (∀ b e n, P b → Q e (mkBox n (x_log b ++ [EMarker p name set e]))) → triple P (writeMarker p name set) Q.
Proof using. intros HQ b Hb. exact (HQ b (d_writeMarker (x_tick b)) (S (x_tick b)) Hb). Qed.
Lemma lsblk_notes (P : Box → Prop) (Q : result (list lsblkDevice) → Box → Prop) dev :
  (∀ b e, P b → Q (Fail e) b) → (∀ b r n, P b → Q r (mkBox n (x_log b ++ [ELsblk dev r]))) → triple P (lsblk dev) Q.
Proof using.
  intros H1 H2. unfold lsblk. destruct (if String.eqb dev EmptyString then None else checkDevicePath dev); [by intros b Hb; apply H1|].
  intros b Hb. exact (H2 b (match d_lsblk (x_tick b) dev with Ok l => Ok l | Fail e => Fail (wrapped "lsblk" e) end) (S (x_tick b)) Hb).
Qed.

(** What a claim that wrote had done when it succeeded. *)
Definition formatted (cmd : StorageClaimCmd) (spec : StoragePurposeSpec) (ack : StorageClaimAck) (did : list DiskEvent) : Prop :=
  ∃ part set, did = [EMarker (ca_MountPath ack) (sp_MarkerFile spec) set None; ERun (CMkfs (sp_FSLabel spec) part) None;
                     ERun (CSfdisk (sfdisk_script spec) (cc_DevicePath cmd)) None; ERun (CWipefs (cc_DevicePath cmd)) None] ∧
  ca_OK ack = true ∧ ca_Purpose ack = sp_Purpose spec ∧ ca_PartUUID ack ≠ EmptyString ∧
  ∃ now, claim_marker cmd spec (ca_PartUUID ack) now = Some set.
Definition written (cmd : StorageClaimCmd) (spec : StoragePurposeSpec) (req : list DiskEvent) (r : result StorageClaimAck) (b : Box) : Prop :=
  match r with
  | Fail _ => wrote_disk (cc_DevicePath cmd) req [] b
  | Ok ack => ∃ did, formatted cmd spec ack did ∧ wrote_disk (cc_DevicePath cmd) req did b
  end.
Lemma written_fail cmd spec req did e b : wrote_disk (cc_DevicePath cmd) req did b → written cmd spec req (Fail e) b.
Proof using. intros Hb. eapply wrote_weaken; [exact Hb|]. by intros ? ?%elem_of_nil. Qed.

Lemma firstPartition_notes dev req did : triple (wrote_disk dev req did) (firstPartition dev) (λ r b, match r with
  | Ok part => ∃ l, first_part l = Some part ∧ wrote_disk dev req (ELsblk dev (Ok l) :: did) b
  | Fail _ => wrote_disk dev req did b end).
Proof using.
  unfold firstPartition. apply (triple_ok_or _ (λ l b, wrote_disk dev req (ELsblk dev (Ok l) :: did) b)).
  - apply lsblk_notes; [done|]. intros b [l|e] n Hb; [apply wrote_more; [done|]; by intros|]. by apply wrote_steady.
  - intros l b Hb. cbn [fst snd mret M_ret]. destruct (first_part l) as [part|] eqn:E; [by exists l|]. eapply wrote_weaken; [exact Hb|]. intros x Hx. by right.
Qed.

Lemma rewrite_spec cmd spec protected size req : triple (calm req) (rewrite_disk cmd spec protected size) (written cmd spec req).
Proof using.
  set (dev := cc_DevicePath cmd). unfold rewrite_disk. fold dev. cbn zeta.
  set (w1 := ERun (CWipefs dev) None). set (w2 := ERun (CSfdisk (sfdisk_script spec) dev) None).
  apply (triple_unless _ (wrote_disk dev req [w1])).
  { apply run_notes. intros b [e|] n Hb; [eapply written_fail|]; by apply calm_wrote. }
  apply (triple_unless _ (wrote_disk dev req [w2; w1])).
  { apply run_notes. intros b [e|] n Hb; [eapply written_fail|]; by apply wrote_more. }
  eapply (triple_bind _ (λ _, wrote_disk dev req [w2; w1])); [apply settle_keeps; apply wrote_looks|intros _].
  apply (triple_ok_or _ (λ part b, ∃ l, first_part l = Some part ∧ wrote_disk dev req (ELsblk dev (Ok l) :: [w2; w1]) b)).
  { eapply triple_conseq; [apply firstPartition_notes|done|]. intros [part|e] b Hb; [done|]. by eapply written_fail. }
  intros part. set (w3 := ERun (CMkfs (sp_FSLabel spec) part) None). apply (triple_unless _ (wrote_disk dev req [w3; w2; w1])).
  { apply run_notes. intros b e n (l & Hl & Hb).
    assert (wrote_disk dev req (ERun (CMkfs (sp_FSLabel spec) part) e :: ELsblk dev (Ok l) :: [w2; w1]) (mkBox n (x_log b ++ [ERun (CMkfs (sp_FSLabel spec) part) e]))) as Hw.
    { apply wrote_more; [done|]. intros post Hp. exists l. split; [|done]. apply Hp. left. }
    destruct e; [by eapply written_fail|]. eapply wrote_weaken; [exact Hw|]. intros x [->|Hx]%elem_of_cons; [left|right; by right]. }
  eapply (triple_bind _ (λ _, wrote_disk dev req [w3; w2; w1])); [apply settle_keeps; apply wrote_looks|intros _].
  apply (triple_ok_or _ (λ u b, u ≠ EmptyString ∧ wrote_disk dev req [w3; w2; w1] b)).
  { eapply triple_conseq; [apply (partUUIDOf_spec (wrote_disk dev req [w3; w2; w1]) (proj1 (wrote_looks dev req [w3; w2; w1])))|done|]. intros [u|e] b [Hb Hu]; [by split|by eapply written_fail]. }
  intros u. apply (triple_ok_or _ (λ _ b, u ≠ EmptyString ∧ wrote_disk dev req [w3; w2; w1] b)).
  { unfold mountPartition. destruct (mountRootFor (sp_Purpose spec)) as [root|]; [|by intros b [_ Hb]; eapply written_fail].
    apply (triple_unless _ (λ b, u ≠ EmptyString ∧ wrote_disk dev req [w3; w2; w1] b)).
    { intros b [Hu Hb]. unfold look. cbn [fst snd]. destruct (d_mkdirAll (x_tick b)); [eapply written_fail; exact Hb|done]. }
    apply (triple_unless _ (λ b, u ≠ EmptyString ∧ wrote_disk dev req [w3; w2; w1] b)); [|by intros b].
    apply run_notes. intros b e n [Hu Hb]. assert (wrote_disk dev req [w3; w2; w1] (mkBox n (x_log b ++ [ERun (CMount (sp_MountOptions spec) part (filepath_Join [root; u])) e]))) by (by apply wrote_steady).
    destruct e; [by eapply written_fail|done]. }
  intros mountPath. eapply (triple_bind _ (λ _ b, u ≠ EmptyString ∧ wrote_disk dev req [w3; w2; w1] b)); [by intros b|intros now].
  destruct (claim_marker cmd spec u now) as [set|] eqn:Em; [|by intros b [_ Hb]; eapply written_fail].
  set (w4 := EMarker mountPath (sp_MarkerFile spec) set None). apply (triple_unless _ (λ b, u ≠ EmptyString ∧ wrote_disk dev req [w4; w3; w2; w1] b)).
  { apply marker_notes. intros b [e|] n [Hu Hb]; [eapply written_fail; apply wrote_more; [exact Hb|by intros]|].
    split; [done|]. apply wrote_more; [exact Hb|by intros]. }
  apply (triple_bind _ (λ _ b, u ≠ EmptyString ∧ wrote_disk dev req [w4; w3; w2; w1] b)).
  { intros b [Hu Hb]. split; [done|]. revert b Hb. apply fingerprintOf_keeps; apply wrote_looks. }
  intros after b [Hu Hb]. exists [w4; w3; w2; w1]. split; [|exact Hb]. exists part, set. split_and!; try done. by exists now.
Qed.

Lemma calm_fails req (Q : result StorageClaimAck → Box → Prop) e : (∀ e b, calm [] b → Q (Fail e) b) → triple (calm req) (mret (Fail e)) Q.
Proof using. intros HQ b Hb. apply HQ. eapply calm_weaken; [exact Hb|]. by intros ? ?%elem_of_nil. Qed.

(** What is mounted off the disk is ours, and was released. *)
Definition released (parts : list StoragePartition) (req : list DiskEvent) : Prop :=
  ∀ p, p ∈ parts → pt_Mountpoint p ≠ EmptyString → isOurMount (pt_Mountpoint p) = true ∧ ERun (CUmount (pt_Mountpoint p)) None ∈ req.
Lemma release_spec dev (k : M Box (result StorageClaimAck)) (Q : result StorageClaimAck → Box → Prop) parts :
  (∀ e b, calm [] b → Q (Fail e) b) →
  ∀ req, (∀ req', (∀ ev, ev ∈ req → ev ∈ req') → released parts req' → triple (calm req') k Q) → triple (calm req) (release_mounts dev parts k) Q.
Proof using.
  intros HF. induction parts as [|p parts IH]; intros req Hk; cbn [release_mounts].
  { apply Hk; [done|]. by intros ? ?%elem_of_nil. }
  destruct (String.eqb_spec (pt_Mountpoint p) EmptyString) as [E|E].
  { apply IH. intros req' Hr Hrel. apply Hk; [done|]. intros q [->|Hq]%elem_of_cons ?; [done|by apply Hrel]. }
  destruct (isOurMount (pt_Mountpoint p)) eqn:Eo; cbn [negb]; [|by apply calm_fails].
  apply (triple_unless _ (calm (ERun (CUmount (pt_Mountpoint p)) None :: req))).
  { apply run_notes. intros b [e|] n Hb; [|by apply calm_more]. apply HF. eapply calm_weaken; [by apply calm_steady|]. by intros ? ?%elem_of_nil. }
  apply IH. intros req' Hr Hrel. apply Hk; [intros ev Hev; apply Hr; by right|]. intros q [->|Hq]%elem_of_cons Hm; [|by apply Hrel].
  split; [done|]. apply Hr. left.
Qed.

(** What the agent had seen of the disk it formatted. *)
Definition consented (cmd : StorageClaimCmd) (req : list DiskEvent) : Prop :=
  ∃ protected l node, EResolve (Ok protected) ∈ req ∧ ELsblk (cc_DevicePath cmd) (Ok l) ∈ req ∧ node ∈ l ∧ names_device (cc_DevicePath cmd) node ∧
    ld_Type node = "disk" ∧ protected !! cc_DevicePath cmd = None ∧ protected !! blk_path node = None ∧
    blk_fingerprint node = cc_Fingerprint cmd ∧ Trim (cc_Fingerprint cmd) ≠ EmptyString ∧ released (partitions_of node) req.
Definition claim_outcome (cmd : StorageClaimCmd) (r : result StorageClaimAck) (b : Box) : Prop :=
  (calm [] b ∧ ∃ e, r = Fail e) ∨ ∃ spec req, claimSpec cmd = Ok spec ∧ consented cmd req ∧ written cmd spec req r b.

Lemma reverify_spec cmd spec protected l node : claimSpec cmd = Ok spec → Trim (cc_Fingerprint cmd) ≠ EmptyString → protected !! cc_DevicePath cmd = None →
  node ∈ l → names_device (cc_DevicePath cmd) node →
  triple (calm [ELsblk (cc_DevicePath cmd) (Ok l); EResolve (Ok protected)]) (reverify cmd spec protected node) (claim_outcome cmd).
Proof using.
  intros Hs Hf Hp Hin Hn. set (req := [_; _]). assert (∀ e b, calm [] b → claim_outcome cmd (Fail e) b) as HF by (intros e b Hb; left; eauto).
  unfold reverify. destruct (String.eqb_spec (ld_Type node) "disk") as [Ht|]; cbn [negb]; [|by apply calm_fails].
  eapply triple_bind; [apply candidate_keeps; apply calm_looks|]. intros c. cbn beta. intros b (Hb & E1 & E2 & E3 & E4). revert b Hb.
  match goal with |- ∀ b, _ → ?R (fst (?m b)) (snd (?m b)) => change (triple (calm req) m R) end.
  rewrite E1. case_bool_decide as Hd; [by apply calm_fails|]. rewrite E2. destruct (String.eqb_spec (blk_fingerprint node) (cc_Fingerprint cmd)) as [Ef|]; cbn [negb]; [|by apply calm_fails].
  rewrite E3. apply release_spec; [done|]. intros req' Hr Hrel. eapply triple_conseq; [apply (rewrite_spec _ spec)|done|].
  intros r b Hw. right. exists spec, req'. split; [done|]. split; [|done]. exists protected, l, node. split_and!; try done.
  - apply Hr. right. left.
  - apply Hr. left.
Qed.

Lemma claim_spec cmd : triple (calm []) (Claim cmd) (claim_outcome cmd).
Proof using.
  assert (∀ e b, calm [] b → claim_outcome cmd (Fail e) b) as HF by (intros e b Hb; left; eauto).
  unfold Claim. cbv zeta. destruct (checkDevicePath (cc_DevicePath cmd)); [by apply calm_fails|].
  destruct (String.eqb_spec (Trim (cc_Fingerprint cmd)) EmptyString) as [|Hf]; [by apply calm_fails|].
  destruct (claimSpec cmd) as [spec|e] eqn:Hs; [|by apply calm_fails].
  apply (triple_bind _ (λ p b, calm [EResolve p] b)); [intros b Hb; by apply (calm_more [] b (S (x_tick b)) (EResolve _))|].
  intros [protected|e]; [|by apply calm_fails]. destruct (protected !! cc_DevicePath cmd) eqn:Hp; [by apply calm_fails|].
  apply (triple_ok_or _ (λ l b, calm [ELsblk (cc_DevicePath cmd) (Ok l); EResolve (Ok protected)] b)).
  { apply lsblk_notes; [intros b e Hb; apply HF; eapply calm_weaken; [exact Hb|]; by intros ? ?%elem_of_nil|].
    intros b [l|e] n Hb; [by apply calm_more|]. apply HF. eapply calm_weaken; [by apply calm_steady|]. by intros ? ?%elem_of_nil. }
  intros l. destruct (head (filter (names_device (cc_DevicePath cmd)) l)) as [node|] eqn:Eh; [|by apply calm_fails].
  apply head_Some_elem_of, list_elem_of_filter in Eh as [Hn Hin]. by apply reverify_spec.
Qed.
End guard.
