(* ===== verification/StorageClaim.v ===== *)
(** * Claiming a backup target, on the api

    api/internal/storage: types.go, wipe.go, eligibility.go, claim_purpose.go,
    enumerate.go, store.go and jobs.go: the key and the spec an operator
    submits, the ledger of targets, and the five steps of
    backup.target.claim, whose fourth formats a disk.  The bus, the inventory,
    the clock and the database answer by a tick.  SHA-256 and JSON are
    parameters; a step's result is kept as the value it encodes; log lines and
    the zeroing of key copies are left out. *)
From Stdlib Require Import Ascii String.
From S2P Require Import Prelude GoStrings GoRunes GoPath Ledger NodeUpdateStore Releases BackupMembers BackupEstimate BackupFanOut BackupRuns BackupTarget BackupRun StorageDisk.
Open Scope string_scope.
Open Scope list_scope.
Open Scope Z_scope.
#[local] Arguments String.eqb : simpl never.
#[local] Arguments String.append : simpl nomatch.

(** ** The key *)
Record ArchiveKey := mkArchiveKey { ak_KeyID : string; ak_Alg : string; ak_PublicKey : string; ak_WrappedByPassphrase : string; ak_WrappedByRecoveryCode : string }.
#[export] Instance ArchiveKey_eq_dec : EqDecision ArchiveKey.
Proof. solve_decision. Defined.
Definition key_present (k : option ArchiveKey) : bool :=
  match k with
  | None => false
  | Some k => negb (String.eqb (ak_KeyID k) EmptyString) || negb (String.eqb (ak_PublicKey k) EmptyString) ||
              negb (String.eqb (ak_WrappedByPassphrase k) EmptyString) || negb (String.eqb (ak_WrappedByRecoveryCode k) EmptyString)
  end.

(** ** The spec *)
Record ClaimSpec := mkClaimSpec {
  cs_NodeID : string; cs_DevicePath : string; cs_Fingerprint : string; cs_Label : string; cs_Replace : bool; cs_Adopt : bool;
  cs_Wipe : option string; (* its token *)
  cs_ArchiveKeyID : string }.
#[export] Instance ClaimSpec_eq_dec : EqDecision ClaimSpec.
Proof. solve_decision. Defined.

(** ** A node of the inventory *)
Record InvNode := mkInvNode { in_ID : string; in_Role : string; in_Hostname : string; in_AgentVersion : string }.
Definition firstNonEmpty (vals : list string) : string := default EmptyString (head (filter (λ v, v ≠ EmptyString) vals)).
Definition nodeDisplayName (n : InvNode) : string := firstNonEmpty [in_Hostname n; in_ID n].
Definition dataPlacementExplanation : string := "a data disk holds the app volumes of the apps deployed on its own node, and the firewall runs none".
Definition dataNoStorageVerbsExplanation : string :=
  "the agent registers the storage verbs on the controlplane and storage roles only, so a claim sent to this node reaches no responder — arming them there points the force-formatting storage.claim at every compute node in the fleet, and nothing could ask for the disk anyway until §6.4's per-app placement field exists".
(** The reason why not. *)
Definition CanHoldTarget (node : option InvNode) (purpose : string) : option string :=
  match StoragePurposeSpecFor purpose with
  | Fail e => Some ("no disk can be claimed for a purpose this control plane does not implement: " +:+ err_text e)
  | Ok _ =>
      let disk_on n := "a disk on " +:+ nodeDisplayName n +:+ " (" +:+ in_Role n +:+ ")" in
      if String.eqb purpose StoragePurposeBackup then
        match node with
        | None => Some ("a disk on an unregistered node cannot receive backups — " +:+ targetTransportExplanation)
        | Some n =>
            if String.eqb (in_Role n) "controlplane" then None
            else Some (disk_on n +:+ " cannot receive backups yet — " +:+ targetTransportExplanation)
        end
      else if String.eqb purpose StoragePurposeData then
        match node with
        | None => Some ("a disk on an unregistered node cannot hold app data — " +:+ dataPlacementExplanation)
        | Some n =>
            if String.eqb (in_Role n) "controlplane" || String.eqb (in_Role n) "storage" then None
            else if String.eqb (in_Role n) "firewall" then Some (disk_on n +:+ " cannot hold app data — " +:+ dataPlacementExplanation)
            else Some (disk_on n +:+ " cannot hold app data yet — " +:+ dataNoStorageVerbsExplanation)
        end
      else Some ("a disk cannot be claimed for " +:+ quote purpose +:+ ": this control plane has no placement rule for that purpose")
  end.

(** ** The confirmed disk among the enumerated *)
Definition join_sp (l : list string) : string := "[" +:+ Join l " " +:+ "]".
Definition findCandidate (ack : StorageEnumerateAck) (spec : ClaimSpec) : result StorageCandidate :=
  let matches := filter (λ c, cn_Fingerprint c ≠ EmptyString ∧ cn_Fingerprint c = cs_Fingerprint spec) (ea_Candidates ack) in
  let atPath := last (filter (λ c, cn_DevicePath c = cs_DevicePath spec) (ea_Candidates ack)) in
  match matches with
  | [c] => Ok c
  | _ :: _ =>
      Fail (errors_New ("refusing to claim [fingerprint-mismatch]: " +:+ pretty (Z.of_nat (length matches)) +:+ " attached disks carry the confirmed fingerprint — " +:+
        join_sp (cn_DevicePath <$> matches) +:+
        (if existsb cn_IdentityWeak matches then " (the disks report neither WWN nor serial, so their fingerprints rest on model + size + partition table alone)" else EmptyString) +:+
        ". Detach all but the one you mean and choose it again"))
  | [] =>
      match atPath with
      | Some c => Fail (errors_New ("refusing to claim [fingerprint-mismatch]: the disk now at " +:+ cs_DevicePath spec +:+ " is not the one confirmed (model " +:+
          quote (cn_Model c) +:+ ", serial " +:+ quote (cn_Serial c) +:+ ") — its partition table changed, or a different disk took the path. Re-run the picker and confirm again"))
      | None => Fail (errors_New ("refusing to claim [device-absent]: no attached disk carries the confirmed fingerprint, and nothing is at " +:+ cs_DevicePath spec +:+
          " — the disk was unplugged between the picker and now"))
      end
  end.

(** ** What is on the disk *)
Definition describeBackupSet (set : option StorageBackupSet) : string :=
  match set with
  | None => "its marker could not be read"
  | Some s =>
      "it carries a Rasputin backup set written by " +:+ (if String.eqb (bk_ClusterID s) EmptyString then "this cluster" else "cluster " +:+ bk_ClusterID s) +:+ "," +:+
      (if String.eqb (bk_Label s) EmptyString then EmptyString else " labelled " +:+ quote (bk_Label s) +:+ ",") +:+ " holding " +:+
      (if 0 <? bk_Generations s then pretty (bk_Generations s) else "an unknown number of") +:+ " retained generation(s)"
  end.
Definition markerCarriesWrappings (s : StorageBackupSet) : bool :=
  negb (String.eqb (Trim (bk_WrappedByPassphrase s)) EmptyString) && negb (String.eqb (Trim (bk_WrappedByRecoveryCode s)) EmptyString).
Definition checkLegacySymmetricKey (devicePath : string) (s : StorageBackupSet) : option error :=
  if negb (markerCarriesWrappings s) || negb (String.eqb (Trim (bk_PublicKey s)) EmptyString) then None
  else Some (errors_New ("refusing to adopt " +:+ devicePath +:+ ": its archive key " +:+ displayLabel (bk_KeyID s) +:+
    " was written under the earlier symmetric design (a single shared key, no public key on the disk). Rasputin now seals archives to an X25519 public key so that an unattended backup needs no secret on this controlplane, and there is no way to convert one into the other. Leave this disk as it is and claim a different one, or destroy the set it carries and claim it fresh — your passphrase and recovery code still open the generations already on it, on a build that understands them")).
(** The key is the one on the disk. *)
Definition same_key (k : ArchiveKey) (s : StorageBackupSet) : bool :=
  String.eqb (ak_WrappedByPassphrase k) (bk_WrappedByPassphrase s) && String.eqb (ak_WrappedByRecoveryCode k) (bk_WrappedByRecoveryCode s) &&
  String.eqb (ak_PublicKey k) (bk_PublicKey s) && (String.eqb (bk_KeyAlg s) EmptyString || String.eqb (ak_Alg k) (bk_KeyAlg s)).
Definition checkAdoptedKeyCustody (devicePath : string) (s : StorageBackupSet) (k : option ArchiveKey) : option error :=
  if negb (markerCarriesWrappings s) then None
  else match k with
       | Some k' =>
           if negb (key_present k) then Some (errors_New ("refusing to adopt " +:+ devicePath +:+ ": its marker carries the sealed §4.6 private key " +:+ displayLabel (bk_KeyID s) +:+
             ", and this claim supplies no key. Adopting without it would record a target whose key nobody has been asked to open — it would list as configured, backups would keep being written to it, and not one of them could ever be read. Unlock the disk with its passphrase or its recovery code and adopt again, or, if both are lost, wipe the disk and claim it fresh"))
           else if negb (same_key k' s) then Some (errors_New ("refusing to adopt " +:+ devicePath +:+
             ": the wrapped key in this claim is not the one on the disk. Adopt takes the disk's key over exactly as it stands and never re-wraps it — a re-wrap that reaches the database and not the marker leaves the disk unreadable by the restore path that only has the disk. Changing the passphrase is a separate operation on an already-claimed target"))
           else None
       | None => Some (errors_New ("refusing to adopt " +:+ devicePath +:+ ": its marker carries the sealed §4.6 private key " +:+ displayLabel (bk_KeyID s) +:+
             ", and this claim supplies no key. Adopting without it would record a target whose key nobody has been asked to open — it would list as configured, backups would keep being written to it, and not one of them could ever be read. Unlock the disk with its passphrase or its recovery code and adopt again, or, if both are lost, wipe the disk and claim it fresh"))
       end.

(** ** The staged key *)
Definition matchStagedKey (spec : ClaimSpec) (k : option ArchiveKey) : result (option ArchiveKey) :=
  match k with
  | None =>
      if String.eqb (cs_ArchiveKeyID spec) EmptyString then Ok None
      else Fail (errors_New ("archive key " +:+ cs_ArchiveKeyID spec +:+
        " is not staged for this job — it is kept only until the job ends, so a claim cannot be re-run from its spec. Submit the claim again"))
  | Some k =>
      if String.eqb (cs_ArchiveKeyID spec) EmptyString then Fail (errors_New ("a key (" +:+ ak_KeyID k +:+ ") is staged for this job but its spec names none"))
      else if negb (String.eqb (ak_KeyID k) (cs_ArchiveKeyID spec)) then
        Fail (errors_New ("the staged archive key is " +:+ ak_KeyID k +:+ ", but the spec names " +:+ cs_ArchiveKeyID spec))
      else Ok (Some k)
  end.

(** ** The ledger of targets *)
Inductive TargetStatus := TargetPending | TargetClaimed | TargetReplaced | TargetFailed.
#[export] Instance TargetStatus_eq_dec : EqDecision TargetStatus.
Proof. solve_decision. Defined.
Record TargetRow := mkTargetRow {
  tr_JobID : string; tr_NodeID : string; tr_Label : string; tr_PartUUID : string; tr_DevicePath : string; tr_MountPath : string; tr_FSType : string;
  tr_SizeBytes : Z; tr_Fingerprint : string; tr_KeyID : string; tr_KeyAlg : string; tr_PublicKey : string; tr_wrappedByPassphrase : string;
  tr_wrappedByRecoveryCode : string; tr_Adopted : bool; tr_Wiped : bool; tr_Status : TargetStatus; tr_CreatedAt : Z; tr_ClaimedAt : option Z; tr_Error : string }.
#[export] Instance TargetRow_eq_dec : EqDecision TargetRow.
Proof. solve_decision. Defined.
#[local] Abbreviation Rows := (list TargetRow).

Definition t_stmt {A} (flt : option error) (fail : error → A) (s : Rows) (run : Rows * A) : Rows * A :=
  match flt with Some e => (s, fail e) | None => run end.
Definition target_where (p : TargetRow → bool) (f : TargetRow → TargetRow) (s : Rows) : Rows := (λ r, if p r then f r else r) <$> s.
Definition job_status (jobID : string) (st : TargetStatus) (r : TargetRow) : bool := String.eqb (tr_JobID r) jobID && bool_decide (tr_Status r = st).

Definition CreatePending (flt : option error) (s : Rows) (jobID nodeID devicePath label : string) (now : Z) : Rows * option error :=
  t_stmt flt Some s
    (if bool_decide (jobID ∈ tr_JobID <$> s) then (s, Some errConstraint)
     else (s ++ [mkTargetRow jobID nodeID label EmptyString devicePath EmptyString EmptyString 0 EmptyString EmptyString EmptyString EmptyString EmptyString
             EmptyString false false TargetPending (stored_ms now) None EmptyString], None)).
Record ClaimResult := mkClaimResult {
  cr_PartUUID : string; cr_DevicePath : string; cr_MountPath : string; cr_FSType : string; cr_SizeBytes : Z; cr_Fingerprint : string; cr_Adopted : bool;
  cr_Wiped : bool; cr_Key : option ArchiveKey; cr_KeyIDOverride : string; cr_At : Z }.
Definition with_claim (res : ClaimResult) (r : TargetRow) : TargetRow :=
  let key_ (f : ArchiveKey → string) := match cr_Key res with Some k => f k | None => EmptyString end in
  let keyID := if String.eqb (cr_KeyIDOverride res) EmptyString then key_ ak_KeyID else cr_KeyIDOverride res in
  mkTargetRow (tr_JobID r) (tr_NodeID r) (tr_Label r) (cr_PartUUID res) (cr_DevicePath res) (cr_MountPath res) (cr_FSType res) (sizeForDB (cr_SizeBytes res))
    (cr_Fingerprint res) keyID (key_ ak_Alg) (key_ ak_PublicKey) (key_ ak_WrappedByPassphrase) (key_ ak_WrappedByRecoveryCode) (cr_Adopted res) (cr_Wiped res)
    TargetClaimed (tr_CreatedAt r) (Some (stored_ms (cr_At res))) EmptyString.
Definition with_target_status (st : TargetStatus) (at_ : option Z) (errMsg : string) (r : TargetRow) : TargetRow :=
  mkTargetRow (tr_JobID r) (tr_NodeID r) (tr_Label r) (tr_PartUUID r) (tr_DevicePath r) (tr_MountPath r) (tr_FSType r) (tr_SizeBytes r) (tr_Fingerprint r)
    (tr_KeyID r) (tr_KeyAlg r) (tr_PublicKey r) (tr_wrappedByPassphrase r) (tr_wrappedByRecoveryCode r) (tr_Adopted r) (tr_Wiped r) st (tr_CreatedAt r) at_ errMsg.
Definition errNoPendingRow : error := errors_New "no pending backup target row for this job".
Definition MarkClaimed (flt : option error) (s : Rows) (jobID : string) (res : ClaimResult) : Rows * option error :=
  t_stmt flt Some s (target_where (job_status jobID TargetPending) (with_claim res) s, if existsb (job_status jobID TargetPending) s then None else Some errNoPendingRow).
Definition MarkFailed (flt : option error) (s : Rows) (jobID errMsg : string) (at_ : Z) : Rows * option error :=
  t_stmt flt Some s (target_where (job_status jobID TargetPending) (with_target_status TargetFailed (Some (stored_ms at_)) errMsg) s, None).
Definition replaced_at (at_ : Z) (r : TargetRow) : TargetRow :=
  with_target_status TargetReplaced (Some (default (stored_ms at_) (tr_ClaimedAt r))) (tr_Error r) r.
Definition MarkReplaced (flt : option error) (s : Rows) (jobID : string) (at_ : Z) : Rows * option error :=
  t_stmt flt Some s (target_where (job_status jobID TargetClaimed) (replaced_at at_) s, None).

Definition target_row (s : Rows) (jobID : string) : option TargetRow := head (filter (λ r, tr_JobID r = jobID) s).
Definition GetByJob (flt : option error) (s : Rows) (jobID : string) : result (option TargetRow) := query flt (target_row s jobID).
Definition created_desc (a b : TargetRow) : Prop := tr_CreatedAt b ≤ tr_CreatedAt a.
#[export] Instance created_desc_dec a b : Decision (created_desc a b) := decide_rel Z.le _ _.
Definition listed_as (st : TargetStatus) (s : Rows) : Rows := merge_sort created_desc (filter (λ r, tr_Status r = st) s).
Definition ListTargets (flt : option error) (s : Rows) : result Rows := query flt (merge_sort created_desc s).
Definition ListClaimed (flt : option error) (s : Rows) : result Rows := query flt (listed_as TargetClaimed s).
Definition ListPending (flt : option error) (s : Rows) : result Rows := query flt (listed_as TargetPending s).
Definition GetByPartUUID (flt : option error) (s : Rows) (partUUID : string) : result (option TargetRow) :=
  if String.eqb partUUID EmptyString then Ok None
  else query flt (head (merge_sort created_desc (filter (λ r, tr_PartUUID r = partUUID ∧ tr_Status r = TargetClaimed) s))).
Definition GetWrappedKeys (flt : option error) (s : Rows) (jobID : string) : result (string * string) :=
  query flt match target_row s jobID with Some r => (tr_wrappedByPassphrase r, tr_wrappedByRecoveryCode r) | None => (EmptyString, EmptyString) end.

(** ** The slot for a job's key *)
#[local] Abbreviation Keys := (gmap string ArchiveKey).
Definition StageClaimKey (flt : option error) (ks : Keys) (jobID : string) (k : option ArchiveKey) : Keys * option error :=
  match k with
  | None => (ks, Some (errors_New "no archive key to stage"))
  | Some k =>
      match flt with
      | Some e => (ks, Some e)
      | None => if bool_decide (ks !! jobID = None) then (<[jobID := k]> ks, None) else (ks, Some errConstraint)
      end
  end.
Definition StagedClaimKey (flt : option error) (ks : Keys) (jobID : string) : result (option ArchiveKey) := query flt (ks !! jobID).
Definition DiscardStagedClaimKey (flt : option error) (ks : Keys) (jobID : string) : Keys * option error :=
  match flt with Some e => (ks, Some e) | None => (delete jobID ks, None) end.
Definition StagedClaimKeyJobs (flt : option error) (ks : Keys) : result (list string) := query flt (fst <$> map_to_list ks).

(** ** What the steps return *)
Record enumerateResult := mkEnumerated {
  er_NodeID : string; er_DevicePath : string; er_Fingerprint : string; er_Model : string; er_Serial : string; er_WWN : string; er_SizeBytes : Z; er_Moved : bool;
  er_HasBackupSet : bool; er_BackupSet : option StorageBackupSet; er_Backend : string }.
Record claimPlan := mkClaimPlan {
  cl_NodeID : string; cl_DevicePath : string; cl_Fingerprint : string; cl_Label : string; cl_Adopt : bool; cl_Wipe : bool; cl_WipedSet : string;
  cl_ExistingPartUUID : string; cl_ExistingKeyID : string }.
Record claimOutcome := mkClaimOutcome {
  co_Adopted : bool; co_Wiped : bool; co_PartUUID : string; co_DevicePath : string; co_MountPath : string; co_FSType : string; co_SizeBytes : Z;
  co_Fingerprint : string; co_KeyID : string }.
Inductive ClaimOut := OValidated | OEnumerated (r : enumerateResult) | OPlan (p : claimPlan) | OClaimed (o : claimOutcome) | OPersisted (r : TargetRow).
#[local] Abbreviation Prior := (gmap string ClaimOut).

(** ** The world *)
Inductive ClaimWire :=
| WEnumerate (nodeID : string) (r : Reply StorageEnumerateAck)
| WClaim (nodeID : string) (cmd : StorageClaimCmd) (r : Reply StorageClaimAck)
| WInspect (nodeID partUUID : string) (r : Reply StorageInspectAck).
Record CW := mkCW { cw_rows : Rows; cw_keys : Keys; cw_wire : list ClaimWire; cw_tick : nat }.
Class ClaimEnv := {
  k_fault : nat → option error;                                    (* statements *)
  k_clock : nat → Z;
  k_node : nat → string → result (option InvNode);                 (* inventory.Get *)
  k_enumerate : nat → string → Reply StorageEnumerateAck;
  k_claim : nat → string → StorageClaimCmd → Reply StorageClaimAck;
  k_inspect : nat → string → string → Reply StorageInspectAck;
  k_spec : string → result ClaimSpec;                              (* json.Unmarshal *)
  k_inline : string → bool;                                        (* the object has an archiveKey *)
  k_spec_json : ClaimSpec → result string;
  k_key_ok : string → option error;                                (* backupxfer.ValidatePublicKey *)
  k_sha256 : string → string;                                      (* in hex *)
  k_wipe_json : string → string → string → string → Z → option StorageBackupSet → result string }.

Section claim.
Context `{!ClaimEnv}.
#[local] Abbreviation MC := (M CW).

Definition k_look {A} (f : nat → A) : MC A := λ w, (f (cw_tick w), mkCW (cw_rows w) (cw_keys w) (cw_wire w) (S (cw_tick w))).
Definition k_rows (op : option error → Rows → Rows * option error) : MC (option error) := λ w,
  let '(rows, e) := op (k_fault (cw_tick w)) (cw_rows w) in (e, mkCW rows (cw_keys w) (cw_wire w) (S (cw_tick w))).
Definition k_query {A} (op : option error → Rows → result A) : MC (result A) := λ w,
  (op (k_fault (cw_tick w)) (cw_rows w), mkCW (cw_rows w) (cw_keys w) (cw_wire w) (S (cw_tick w))).
Definition k_key {A} (op : option error → Keys → Keys * A) : MC A := λ w,
  let '(ks, a) := op (k_fault (cw_tick w)) (cw_keys w) in (a, mkCW (cw_rows w) ks (cw_wire w) (S (cw_tick w))).
Definition k_wire (x : ClaimWire) : MC unit := modify (λ w, mkCW (cw_rows w) (cw_keys w) (cw_wire w ++ [x]) (cw_tick w)).
(** [x, err := m; if err != nil { return nil, err }] *)
Definition k_try {A B} (m : MC (result A)) (k : A → MC (result B)) : MC (result B) := r ← m; match r with Ok a => k a | Fail e => mret (Fail e) end.
Definition k_tryr {A B} (r : result A) (k : A → MC (result B)) : MC (result B) := match r with Ok a => k a | Fail e => mret (Fail e) end.
(** The same, the error wrapped. *)
Definition k_wrap {A B} (text : string) (m : MC (result A)) (k : A → MC (result B)) : MC (result B) :=
  r ← m; match r with Ok a => k a | Fail e => mret (Fail (wrapped text e)) end.
Definition k_do {B} (text : string) (m : MC (option error)) (k : MC (result B)) : MC (result B) :=
  e ← m; match e with None => k | Some e => mret (Fail (wrapped text e)) end.

(** ** The key and the spec as submitted *)
Definition validatePublicKey (encoded : string) : option error :=
  match k_key_ok encoded with Some e => Some (wrapped "archiveKey.publicKey" e) | None => None end.
Definition validateKeyFields (keyID publicKey : string) (hasPass hasRecovery : bool) : option error :=
  let missing := (if String.eqb (Trim keyID) EmptyString then ["keyId"] else []) ++ (if String.eqb (Trim publicKey) EmptyString then ["publicKey"] else []) ++
                 (if hasPass then [] else ["wrappedByPassphrase"]) ++ (if hasRecovery then [] else ["wrappedByRecoveryCode"]) in
  if bool_decide (missing ≠ []) then Some (errors_New ("archiveKey is incomplete (missing " +:+ Join missing ", " +:+
    "): a target missing the public key or either wrapping is one forgotten passphrase — or one unreadable archive — away from useless, so it is refused rather than half-stored"))
  else validatePublicKey publicKey.
Definition filled (s : string) : bool := negb (String.eqb s EmptyString).
Definition validate_key (k : option ArchiveKey) : option error :=
  match k with
  | Some k' => if key_present k then validateKeyFields (ak_KeyID k') (ak_PublicKey k') (filled (ak_WrappedByPassphrase k')) (filled (ak_WrappedByRecoveryCode k')) else None
  | None => None
  end.
(** The input has the fields of the key. *)
Definition NewArchiveKey (inp : option ArchiveKey) : result (option ArchiveKey) :=
  match inp with
  | None => Ok None
  | Some k =>
      if negb (key_present (Some k)) then Ok None
      else match validateKeyFields (ak_KeyID k) (ak_PublicKey k) (filled (Trim (ak_WrappedByPassphrase k))) (filled (Trim (ak_WrappedByRecoveryCode k))) with
           | Some e => Fail e
           | None => Ok (Some k)
           end
  end.

Definition check_spec (spec : ClaimSpec) : result ClaimSpec :=
  if String.eqb (Trim (cs_NodeID spec)) EmptyString then Fail (errors_New "nodeId is required")
  else if String.eqb (Trim (cs_DevicePath spec)) EmptyString then Fail (errors_New "devicePath is required")
  else if String.eqb (Trim (cs_Fingerprint spec)) EmptyString then
    Fail (errors_New "fingerprint is required: a claim with no fingerprint names no particular disk, and the whole point of the fingerprint is that the operator's confirmation binds to one")
  else match cs_Wipe spec with
       | None => Ok spec
       | Some token =>
           if cs_Adopt spec then
             Fail (errors_New "`adopt` and `wipe` are opposite choices: adopt takes the existing backup set over as it stands, wipe destroys it. Choose exactly one")
           else if String.eqb (Trim token) EmptyString then
             Fail (errors_New "wipe.token is required: a wipe must echo the `wipeToken` GET /api/backup/candidates published for the disk being destroyed, which is how a wipe proves it saw what it is destroying. An absent token is a refusal, never a default to wipe")
           else Ok spec
       end.
Definition ParseClaimSpec (raw : string) : result ClaimSpec :=
  match k_spec raw with
  | Fail e => Fail (wrapped "invalid spec" e)
  | Ok spec =>
      if k_inline raw then Fail (errors_New "archiveKey must not be in a claim job's spec: the key is staged with the job and referred to by archiveKeyId. Submit the claim through POST /api/backup/targets")
      else check_spec spec
  end.
Definition with_key_id (spec : ClaimSpec) (id : string) : ClaimSpec :=
  mkClaimSpec (cs_NodeID spec) (cs_DevicePath spec) (cs_Fingerprint spec) (cs_Label spec) (cs_Replace spec) (cs_Adopt spec) (cs_Wipe spec) id.
Definition claimBody (spec : ClaimSpec) (key : option ArchiveKey) : result ClaimSpec :=
  match validate_key key with
  | Some e => Fail e
  | None =>
      let spec := with_key_id spec (match key with Some k => if key_present key then ak_KeyID k else EmptyString | None => EmptyString end) in
      match k_spec_json spec with
      | Fail e => Fail e
      | Ok body => match ParseClaimSpec body with Fail e => Fail e | Ok _ => Ok spec end
      end
  end.

(** ** The token of a wipe *)
Definition wipeTokenPrefix : string := "wipe-".
Definition wipeTokenDomain : string := "rasputin.backup.target.wipe.v1".
Definition wipeTokenHexLen : nat := 24.
Definition WipeToken (fingerprint wwn serial : string) (size : Z) (set : option StorageBackupSet) : string :=
  if String.eqb fingerprint EmptyString then EmptyString
  else match k_wipe_json wipeTokenDomain fingerprint wwn serial size set with
       | Fail _ => EmptyString
       | Ok blob => wipeTokenPrefix +:+ take_str wipeTokenHexLen (k_sha256 blob)
       end.
Definition CandidateWipeToken (c : option StorageCandidate) : string :=
  match c with
  | None => EmptyString
  | Some c => if negb (cn_HasBackupSet c) || cn_Protected c then EmptyString
              else WipeToken (cn_Fingerprint c) (cn_WWN c) (cn_Serial c) (cn_SizeBytes c) (cn_BackupSet c)
  end.
Definition wipeTokenMatches (supplied expected : string) : bool :=
  if String.eqb supplied EmptyString || String.eqb expected EmptyString then false else String.eqb supplied expected.

(** The job's id, the runner's refusal before [prepare] and its error after are given. *)
Definition SubmitClaim (jobID : string) (refused inserted : option error) (spec : ClaimSpec) (key : option ArchiveKey) : MC (result ClaimSpec) :=
  k_tryr (claimBody spec key) (λ body,
  match refused with
  | Some e => mret (Fail e)
  | None =>
      staged ← (if key_present key then k_key (λ flt ks, StageClaimKey flt ks jobID key) else mret None);
      match staged with
      | Some e => mret (Fail (wrapped "stage archive key" e))
      | None =>
          match inserted with
          | None => mret (Ok body)
          | Some e => _ ← (if key_present key then k_key (λ flt ks, DiscardStagedClaimKey flt ks jobID) else mret None); mret (Fail e)
          end
      end
  end).

(** ** Asking the agent *)
Definition api_Enumerate (nodeID : string) : MC (result StorageEnumerateAck) :=
  if String.eqb nodeID EmptyString then mret (Fail (errors_New "nodeId is required"))
  else
    r ← k_look (λ n, k_enumerate n nodeID);
    _ ← k_wire (WEnumerate nodeID r);
    mret match r with
         | NoReply e => Fail (wrapped ("storage enumerate rpc to " +:+ nodeID) e)
         | BadReply e => Fail (wrapped ("storage enumerate: unreadable reply from " +:+ nodeID) e)
         | Replied ack => if negb (ea_OK ack) then Fail (refusalError "enumerate" (ea_Refusal ack) (ea_Detail ack)) else Ok ack
         end.
Definition claimKey (jobID : string) (spec : ClaimSpec) : MC (result (option ArchiveKey)) :=
  r ← k_key (λ flt ks, (ks, StagedClaimKey flt ks jobID));
  mret match r with Fail e => Fail (wrapped "read staged archive key" e) | Ok k => matchStagedKey spec k end.

(** ** Step 1: validate *)
Definition claimValidate (jobID raw : string) : MC (result ClaimOut) :=
  k_tryr (ParseClaimSpec raw) (λ spec,
  k_wrap "inventory" (k_look (λ n, k_node n (cs_NodeID spec))) (λ node,
  match node with
  | None => mret (Fail (errors_New ("node " +:+ cs_NodeID spec +:+ " is not registered")))
  | Some _ =>
      match CanHoldTarget node StoragePurposeBackup with
      | Some reason => mret (Fail (errors_New reason))
      | None =>
          k_wrap "existing targets" (k_query ListClaimed) (λ claimed,
          match claimed with
          | cur :: _ =>
              if negb (cs_Replace spec) then mret (Fail (errors_New ("this cluster already has a claimed backup target (" +:+ displayLabel (tr_Label cur) +:+ " on " +:+
                tr_NodeID cur +:+ ", partUuid " +:+ tr_PartUUID cur +:+ ") — confirm `replace` to supersede it. The existing disk is not touched either way")))
              else k_try (claimKey jobID spec) (λ _, now ← k_look k_clock;
                k_do "record claim attempt" (k_rows (λ flt s, CreatePending flt s jobID (cs_NodeID spec) (cs_DevicePath spec) (cs_Label spec) now)) (mret (Ok OValidated)))
          | [] =>
              k_try (claimKey jobID spec) (λ _, now ← k_look k_clock;
                k_do "record claim attempt" (k_rows (λ flt s, CreatePending flt s jobID (cs_NodeID spec) (cs_DevicePath spec) (cs_Label spec) now)) (mret (Ok OValidated)))
          end)
      end
  end)).

(** ** Step 2: enumerate *)
Definition protected_refusal (c : StorageCandidate) (reason : string) : error := errors_New ("refusing to claim " +:+ cn_DevicePath c +:+ " [protected]: " +:+ reason).
Definition enumerated (spec : ClaimSpec) (ack : StorageEnumerateAck) (c : StorageCandidate) (moved : bool) : enumerateResult :=
  mkEnumerated (cs_NodeID spec) (cn_DevicePath c) (cn_Fingerprint c) (cn_Model c) (cn_Serial c) (cn_WWN c) (cn_SizeBytes c) moved (cn_HasBackupSet c) (cn_BackupSet c) (ea_Backend ack).
Definition claimEnumerate (raw : string) : MC (result ClaimOut) :=
  k_tryr (ParseClaimSpec raw) (λ spec,
  k_try (api_Enumerate (cs_NodeID spec)) (λ ack,
  k_tryr (findCandidate ack spec) (λ c,
  if cn_Protected c then
    mret (Fail (protected_refusal c (if String.eqb (cn_ProtectedReason c) EmptyString then "it holds the currently-mounted boot or persistent partitions" else cn_ProtectedReason c)))
  else mret (Ok (OEnumerated (enumerated spec ack c (negb (String.eqb (cn_DevicePath c) (cs_DevicePath spec))))))))).

(** ** Step 3: check_existing *)
Definition priorEnumerate (prior : Prior) (spec : ClaimSpec) : MC (result enumerateResult) :=
  let fresh :=
    k_try (api_Enumerate (cs_NodeID spec)) (λ ack,
    k_tryr (findCandidate ack spec) (λ c,
    if cn_Protected c then mret (Fail (protected_refusal c (cn_ProtectedReason c))) else mret (Ok (enumerated spec ack c false)))) in
  match prior !! "enumerate" with
  | None => fresh
  | Some (OEnumerated res) => if negb (String.eqb (er_DevicePath res) EmptyString) then mret (Ok res) else fresh
  | Some _ => mret (Fail (errors_New "decode cached enumerate result"))
  end.
Definition set_refusal (verb : string) (res : enumerateResult) (text : string) : error :=
  errors_New ("refusing to " +:+ verb +:+ " " +:+ er_DevicePath res +:+ " [backup-set-present]: " +:+ text).
Definition plan_of (spec : ClaimSpec) (res : enumerateResult) (adopt wipe : bool) (wiped part key : string) : claimPlan :=
  mkClaimPlan (er_NodeID res) (er_DevicePath res) (er_Fingerprint res) (cs_Label spec) adopt wipe wiped part key.
(** The set is taken over as it stands. *)
Definition adopt_plan (jobID : string) (spec : ClaimSpec) (res : enumerateResult) (set : StorageBackupSet) : MC (result ClaimOut) :=
  k_try (claimKey jobID spec) (λ key,
  let mismatch := match key with
    | Some k => key_present key && negb (String.eqb (bk_KeyID set) EmptyString) && negb (String.eqb (ak_KeyID k) (bk_KeyID set))
    | None => false end in
  if mismatch then
    mret (Fail (errors_New ("refusing to adopt " +:+ er_DevicePath res +:+ ": its generations are encrypted under key " +:+ bk_KeyID set +:+ ", and the claim supplies key " +:+
      match key with Some k => ak_KeyID k | None => EmptyString end +:+ ". Supply the wrapped blobs for the disk's own key, or pick a different disk")))
  else match checkLegacySymmetricKey (er_DevicePath res) set with
       | Some e => mret (Fail e)
       | None =>
           match checkAdoptedKeyCustody (er_DevicePath res) set key with
           | Some e => mret (Fail e)
           | None => mret (Ok (OPlan (plan_of spec res true false EmptyString (bk_PartUUID set) (bk_KeyID set))))
           end
       end).
Definition claimCheckExisting (jobID raw : string) (prior : Prior) : MC (result ClaimOut) :=
  k_tryr (ParseClaimSpec raw) (λ spec,
  k_try (priorEnumerate prior spec) (λ res,
  if negb (er_HasBackupSet res) then
    if cs_Adopt spec then mret (Fail (errors_New ("refusing to adopt " +:+ er_DevicePath res +:+
      ": it carries no Rasputin backup set. `adopt` takes over an EXISTING set — re-run the picker and choose again")))
    else match cs_Wipe spec with
         | Some _ => mret (Fail (errors_New ("refusing to wipe " +:+ er_DevicePath res +:+
             ": it carries no Rasputin backup set. `wipe` destroys an EXISTING set, and an ordinary claim already formats a blank disk — re-run the picker and choose again")))
         | None => mret (Ok (OPlan (plan_of spec res false false EmptyString EmptyString EmptyString)))
         end
  else
    let set := er_BackupSet res in
    match cs_Wipe spec with
    | Some token =>
        if negb (wipeTokenMatches token (WipeToken (er_Fingerprint res) (er_WWN res) (er_Serial res) (er_SizeBytes res) set)) then
          mret (Fail (set_refusal "wipe" res ("the wipe confirmation does not match this disk as it is NOW — " +:+ describeBackupSet set +:+
            ". Either the token was not the one the picker published for this disk, or what the disk holds changed since. Nothing was written. Re-run the picker, look at what is on it, and confirm again")))
        else mret (Ok (OPlan (plan_of spec res false true (describeBackupSet set) EmptyString EmptyString)))
    | None =>
        if negb (cs_Adopt spec) then
          mret (Fail (set_refusal "claim" res (describeBackupSet set +:+
            ". Nothing was written. Choose `adopt` to take this set over as it stands, `wipe` with the confirmation token the picker publishes for this disk to destroy it and claim the disk fresh, or pick a different disk")))
        else
          let no_marker := set_refusal "adopt" res ("it announces a Rasputin backup set but its marker (" +:+ StorageMarkerFile +:+
            ") is unreadable or carries no partition UUID, so there is nothing to adopt it BY. To reclaim this disk, choose `wipe` with the confirmation token the picker publishes for it — that destroys what is on it and claims it fresh") in
          match set with
          | None => mret (Fail no_marker)
          | Some s => if String.eqb (bk_PartUUID s) EmptyString then mret (Fail no_marker) else adopt_plan jobID spec res s
          end
    end)).

(** ** Step 4: claim *)
Definition StorageClaimPurposeMinAgentVersion : string := "2026.08.5-dev.148".
Definition TrimPrefix (s p : string) : string := if HasPrefix s p then drop_str (String.length p) s else s.
Definition CheckClaimPurposeSupported (inv : bool) (nodeID purpose : string) : MC (option error) :=
  if String.eqb purpose StoragePurposeBackup || String.eqb purpose EmptyString then mret None
  else
    let floor := StorageClaimPurposeMinAgentVersion in
    let consequence := "a " +:+ quote purpose +:+ " claim sent to it would be formatted as a BACKUP target — the backup GPT name, the backup filesystem label and the backup marker — and would then read back as a backup disk" in
    let refusing text := Some (errors_New ("refusing to claim a disk on " +:+ nodeID +:+ " for " +:+ quote purpose +:+ ": " +:+ text)) in
    if negb inv then mret (refusing ("this api cannot look up which agent version that node runs, so it cannot tell whether the agent reads the claim's purpose (first read by agent v" +:+ floor +:+ "). " +:+ consequence))
    else
      node ← k_look (λ n, k_node n nodeID);
      mret match node with
           | Fail e => refusing ("the node's agent version could not be read (" +:+ err_text e +:+ "), and an agent below v" +:+ floor +:+ " ignores the purpose. " +:+ consequence)
           | Ok None => refusing ("the node is not registered, so its agent version is unknown (the purpose is first read by agent v" +:+ floor +:+ "). " +:+ consequence)
           | Ok (Some node) =>
               let v := TrimPrefix (Trim (in_AgentVersion node)) "v" in
               if String.eqb v EmptyString then
                 refusing ("that node never reported an agent version, so whether its agent reads the claim's purpose is unknown (first read by agent v" +:+ floor +:+ "). " +:+ consequence +:+ " — update the node and re-register it")
               else match Compare SchemeCalVer v floor with
                    | Fail _ => refusing ("its reported agent version " +:+ quote (in_AgentVersion node) +:+ " could not be compared with v" +:+ floor +:+ ", so whether the agent reads the claim's purpose is unknown. " +:+ consequence)
                    | Ok c =>
                        if c <? 0 then refusing ("the agent there (v" +:+ v +:+ ") predates the claim purpose, which is first read by agent v" +:+ floor +:+ ". " +:+ consequence +:+ " — update the node to ≥ v" +:+ floor +:+ " and claim again")
                        else None
                    end
           end.
Definition with_wrappings (cmd : StorageClaimCmd) (key : option ArchiveKey) : StorageClaimCmd :=
  match key with
  | Some k =>
      if key_present key then
        mkClaimCmd (cc_DevicePath cmd) (cc_Fingerprint cmd) (cc_Purpose cmd) (cc_Label cmd) (cc_ClusterID cmd) (cc_KeyID cmd) (cc_KeyAlg cmd) (cc_PublicKey cmd)
          (ak_WrappedByPassphrase k) (ak_WrappedByRecoveryCode k)
      else cmd
  | None => cmd
  end.
Definition claimCmdBytes (nodeID : string) (cmd : StorageClaimCmd) (key : option ArchiveKey) : MC (result StorageClaimCmd) :=
  e ← CheckClaimPurposeSupported true nodeID (EffectivePurpose cmd);
  mret match e with Some e => Fail e | None => Ok (with_wrappings cmd key) end.

Definition adoptExisting (plan : claimPlan) : MC (result ClaimOut) :=
  r ← k_look (λ n, k_inspect n (cl_NodeID plan) (cl_ExistingPartUUID plan));
  _ ← k_wire (WInspect (cl_NodeID plan) (cl_ExistingPartUUID plan) r);
  mret match r with
       | NoReply e => Fail (wrapped ("inspect rpc to " +:+ cl_NodeID plan) e)
       | BadReply e => Fail (wrapped ("inspect: unreadable reply from " +:+ cl_NodeID plan) e)
       | Replied ack =>
           if negb (ia_OK ack) then Fail (refusalError ("adopt of " +:+ cl_DevicePath plan) (ia_Refusal ack) (ia_Detail ack))
           else if negb (ia_Present ack) then
             Fail (errors_New ("refusing to adopt " +:+ cl_DevicePath plan +:+ " [not-found]: nothing with partition UUID " +:+ cl_ExistingPartUUID plan +:+ " is attached any more"))
           else
             let keyID := match ia_BackupSet ack with Some s => if String.eqb (bk_KeyID s) EmptyString then cl_ExistingKeyID plan else bk_KeyID s | None => cl_ExistingKeyID plan end in
             Ok (OClaimed (mkClaimOutcome true false (cl_ExistingPartUUID plan) (firstNonEmpty [ia_DevicePath ack; cl_DevicePath plan]) (ia_MountPath ack) (ia_FSType ack)
               (ia_TotalBytes ack) EmptyString keyID))
       end.
(** The command of a plan. *)
Definition plan_cmd (clusterID : string) (plan : claimPlan) (key : option ArchiveKey) : StorageClaimCmd :=
  let key_ (f : ArchiveKey → string) := match key with Some k => if key_present key then f k else EmptyString | None => EmptyString end in
  mkClaimCmd (cl_DevicePath plan) (cl_Fingerprint plan) EmptyString (cl_Label plan) clusterID (key_ ak_KeyID) (key_ ak_Alg) (key_ ak_PublicKey) EmptyString EmptyString.
Definition claim_reply (plan : claimPlan) (keyID : string) (r : Reply StorageClaimAck) : result ClaimOut :=
  match r with
  | NoReply e => Fail (wrapped ("claim rpc to " +:+ cl_NodeID plan) e)
  | BadReply e => Fail (wrapped ("claim: unreadable reply from " +:+ cl_NodeID plan) e)
  | Replied ack =>
      if negb (ca_OK ack) then Fail (refusalError ("claim of " +:+ cl_DevicePath plan) (ca_Refusal ack) (ca_Detail ack))
      else if String.eqb (ca_PartUUID ack) EmptyString then
        Fail (errors_New ("claim of " +:+ cl_DevicePath plan +:+ " reported success with no partition UUID — that is the only identifier a target has, so there is nothing to record"))
      else Ok (OClaimed (mkClaimOutcome false (cl_Wipe plan) (ca_PartUUID ack) (firstNonEmpty [ca_DevicePath ack; cl_DevicePath plan]) (ca_MountPath ack) (ca_FSType ack)
             (ca_SizeBytes ack) (ca_Fingerprint ack) keyID))
  end.
Definition claimClaim (clusterID jobID raw : string) (prior : Prior) : MC (result ClaimOut) :=
  k_tryr (ParseClaimSpec raw) (λ spec,
  match prior !! "check_existing" with
  | None => mret (Fail (errors_New "refusing to claim: step check_existing left no plan, so nothing has verified this disk. A destructive step does not reconstruct its own authorization"))
  | Some (OPlan plan) =>
      if String.eqb (cl_DevicePath plan) EmptyString || String.eqb (cl_Fingerprint plan) EmptyString then
        mret (Fail (errors_New "refusing to claim: the plan from check_existing names no disk or no fingerprint"))
      else if cl_Adopt plan then adoptExisting plan
      else
        k_try (claimKey jobID spec) (λ key,
        k_try (claimCmdBytes (cl_NodeID plan) (plan_cmd clusterID plan key) key) (λ cmd,
        r ← k_look (λ n, k_claim n (cl_NodeID plan) cmd);
        _ ← k_wire (WClaim (cl_NodeID plan) cmd r);
        mret (claim_reply plan (cc_KeyID cmd) r)))
  | Some _ => mret (Fail (errors_New "refusing to claim: unreadable plan from check_existing"))
  end).

(** ** Step 5: persist_target *)
Definition supersede_one (jobID : string) (now : Z) (c : TargetRow) : MC unit :=
  if String.eqb (tr_JobID c) jobID then mret tt else _ ← k_rows (λ flt s, MarkReplaced flt s (tr_JobID c) now); mret tt.
Definition supersedePriorTargets (jobID : string) : MC unit :=
  claimed ← k_query ListClaimed;
  match claimed with
  | Fail _ => mret tt
  | Ok claimed => now ← k_look k_clock; for_each (supersede_one jobID now) claimed
  end.
Definition persist_read (jobID : string) : MC (result ClaimOut) :=
  row ← k_query (λ flt s, GetByJob flt s jobID);
  mret match row with
       | Ok (Some row) => Ok (OPersisted row)
       | Ok None => Fail (errors_New "target recorded but could not be read back: <nil>")
       | Fail e => Fail (errors_New ("target recorded but could not be read back: " +:+ err_text e))
       end.
Definition claim_result (out : claimOutcome) (key : option ArchiveKey) (now : Z) : ClaimResult :=
  mkClaimResult (co_PartUUID out) (co_DevicePath out) (co_MountPath out) (co_FSType out) (co_SizeBytes out) (co_Fingerprint out) (co_Adopted out) (co_Wiped out) key
    (if co_Adopted out then co_KeyID out else EmptyString) now.
Definition claimPersist (jobID raw : string) (prior : Prior) : MC (result ClaimOut) :=
  k_tryr (ParseClaimSpec raw) (λ spec,
  match prior !! "claim" with
  | None => mret (Fail (errors_New "no claim result to persist"))
  | Some (OClaimed out) =>
      if String.eqb (co_PartUUID out) EmptyString then mret (Fail (errors_New "claim result carries no partition UUID"))
      else
        row ← k_query (λ flt s, GetByJob flt s jobID);
        match (match row with Ok (Some r) => if bool_decide (tr_Status r = TargetClaimed) && String.eqb (tr_PartUUID r) (co_PartUUID out) then Some r else None | _ => None end) with
        | Some r => mret (Ok (OPersisted r))
        | None =>
            k_try (claimKey jobID spec) (λ key,
            now ← k_look k_clock;
            k_do "persist target" (k_rows (λ flt s, MarkClaimed flt s jobID (claim_result out key now)))
              (_ ← (if cs_Replace spec then supersedePriorTargets jobID else mret tt); persist_read jobID))
        end
  | Some _ => mret (Fail (errors_New "decode claim result"))
  end).

(** ** The terminal hook, and at start *)
Definition finalizeTargetRow (jobID errMsg : string) : MC unit :=
  _ ← k_key (λ flt ks, DiscardStagedClaimKey flt ks jobID);
  row ← k_query (λ flt s, GetByJob flt s jobID);
  match row with
  | Ok (Some row) =>
      if bool_decide (tr_Status row ≠ TargetPending) then mret tt
      else
        now ← k_look k_clock;
        _ ← k_rows (λ flt s, MarkFailed flt s jobID (if String.eqb errMsg EmptyString then "job ended without recording a backup target" else errMsg) now);
        mret tt
  | _ => mret tt
  end.
Definition discard_stranded (job_of : string → result (option Job)) (id : string) : MC unit :=
  match job_of id with
  | Fail _ => mret tt
  | Ok j =>
      let running := match j with
        | Some j => negb (bool_decide (j_Status j = StatusFailed)) && negb (bool_decide (j_Status j = StatusSucceeded)) && negb (bool_decide (j_Status j = StatusCancelled))
        | None => false end in
      if running then mret tt else _ ← k_key (λ flt ks, DiscardStagedClaimKey flt ks id); mret tt
  end.
Definition discardStrandedClaimKeys (job_of : string → result (option Job)) : MC unit :=
  ids ← k_key (λ flt ks, (ks, StagedClaimKeyJobs flt ks));
  match ids with Fail _ => mret tt | Ok ids => for_each (discard_stranded job_of) ids end.
Definition reconcile_row (job_of : string → result (option Job)) (row : TargetRow) : MC unit :=
  match job_of (tr_JobID row) with
  | Ok (Some j) =>
      if negb (bool_decide (j_Status j = StatusFailed)) && negb (bool_decide (j_Status j = StatusSucceeded)) then mret tt
      else
        now ← k_look k_clock;
        _ ← k_rows (λ flt s, MarkFailed flt s (tr_JobID row)
              (if String.eqb (j_Error j) EmptyString then "job reached a terminal state without recording a backup target" else j_Error j) now);
        mret tt
  | _ => mret tt
  end.
Definition ReconcileStrandedRows (job_of : string → result (option Job)) : MC (option error) :=
  _ ← discardStrandedClaimKeys job_of;
  rows ← k_query ListPending;
  match rows with
  | Fail e => mret (Some e)
  | Ok rows => _ ← for_each (reconcile_row job_of) rows; mret None
  end.

(** ** The workflow *)
Definition ClaimJobKind : string := "backup.target.claim".
Record CStep := mkCStep { cst_Name : string; cst_Retries : nat; cst_Do : Prior → MC (result ClaimOut) }.
Definition ClaimWorkflow (clusterID jobID raw : string) : list CStep :=
  [mkCStep "validate" 0 (λ _, claimValidate jobID raw); mkCStep "enumerate" 1 (λ _, claimEnumerate raw);
   mkCStep "check_existing" 1 (claimCheckExisting jobID raw); mkCStep "claim" 0 (claimClaim clusterID jobID raw);
   mkCStep "persist_target" 1 (claimPersist jobID raw)].
Fixpoint claim_attempts (body : MC (result ClaimOut)) (n : nat) : MC (result ClaimOut) :=
  r ← body;
  match r, n with
  | Ok v, _ => mret (Ok v)
  | Fail e, O => mret (Fail e)
  | Fail e, S n => claim_attempts body n
  end.
(** The job's error; [None] is success. *)
Fixpoint run_claim_steps (steps : list CStep) (prior : Prior) : MC (option error) :=
  match steps with
  | [] => mret None
  | st :: steps =>
      r ← claim_attempts (cst_Do st prior) (cst_Retries st);
      match r with
      | Ok v => run_claim_steps steps (<[cst_Name st := v]> prior)
      | Fail e => mret (Some e)
      end
  end.
Definition run_claim (clusterID jobID raw : string) : MC (option error) :=
  e ← run_claim_steps (ClaimWorkflow clusterID jobID raw) ∅;
  _ ← finalizeTargetRow jobID (match e with Some e => err_text e | None => EmptyString end);
  mret e.
End claim.
