(* ===== verification/StorageClaimFacts.v ===== *)
(** * What a claim formats, and what it records

    A disk is formatted for a claim only as the operator confirmed it, on the
    api and on the agent; and the row of a claim says what the agent did.  At
    the end a machine and an api beside it, run. *)
From Stdlib Require Import Ascii String.
From S2P Require Import Prelude GoStrings GoRunes GoPath Ledger NodeUpdateStore Releases BackupMembers BackupEstimate BackupFanOut BackupRuns BackupTarget BackupRun StorageDisk StorageClaim.
Open Scope string_scope.
Open Scope list_scope.
Open Scope Z_scope.
#[local] Arguments String.eqb : simpl never.
#[local] Arguments String.append : simpl nomatch.
#[local] Abbreviation Rows := (list TargetRow).
#[local] Abbreviation Keys := (gmap string ArchiveKey).

(** ** What a claim had been shown *)
Definition is_claim (x : ClaimWire) : Prop := match x with WClaim _ _ _ => True | _ => False end.
#[export] Instance is_claim_dec x : Decision (is_claim x).
Proof. destruct x; apply _. Defined.
Lemma no_claims evs : Forall (λ x, ¬ is_claim x) evs → filter is_claim evs = [].
Proof. induction 1; [done|]. by rewrite filter_cons_False. Qed.
(** The only attached disk with the confirmed fingerprint, and not one of the machine's own. *)
Definition confirmed (spec : ClaimSpec) (ack : StorageEnumerateAck) (c : StorageCandidate) : Prop :=
  c ∈ ea_Candidates ack ∧ cn_Fingerprint c = cs_Fingerprint spec ∧ cn_Protected c = false ∧
  ∀ c', c' ∈ ea_Candidates ack → cn_Fingerprint c' = cs_Fingerprint spec → c' = c.
Section facts.
Context `{!ClaimEnv} (jobID raw : string) (rows0 : Rows) (keys0 : Keys) (wire0 : list ClaimWire).
Implicit Types (w : CW).
#[local] Abbreviation MC := (M CW).

(** A set the agent's answer announces is given up by its token, or taken over;
    where the answer announces none, neither was asked for.  [cn_HasBackupSet] is
    the agent's word: it announces a set whose marker it could read. *)
Definition agreed (spec : ClaimSpec) (c : StorageCandidate) : Prop :=
  if cn_HasBackupSet c then cs_Wipe spec = Some (CandidateWipeToken (Some c)) ∧ CandidateWipeToken (Some c) ≠ EmptyString else cs_Wipe spec = None.
Definition taken_over (spec : ClaimSpec) (c : StorageCandidate) (plan : claimPlan) : Prop :=
  cn_HasBackupSet c = true ∧ cs_Wipe spec = None ∧ ∃ s, cn_BackupSet c = Some s ∧ cl_ExistingPartUUID plan = bk_PartUUID s ∧ bk_PartUUID s ≠ EmptyString ∧
    cl_ExistingKeyID plan = bk_KeyID s ∧ checkAdoptedKeyCustody (cn_DevicePath c) s (keys0 !! jobID) = None.
Definition seen_as (spec : ClaimSpec) (req : list ClaimWire) (res : enumerateResult) : Prop :=
  ∃ ack c moved, WEnumerate (cs_NodeID spec) (Replied ack) ∈ req ∧ confirmed spec ack c ∧ res = enumerated spec ack c moved.
Definition planned (spec : ClaimSpec) (req : list ClaimWire) (plan : claimPlan) : Prop :=
  ∃ ack c, WEnumerate (cs_NodeID spec) (Replied ack) ∈ req ∧ confirmed spec ack c ∧ cl_NodeID plan = cs_NodeID spec ∧ cl_DevicePath plan = cn_DevicePath c ∧
    cl_Fingerprint plan = cn_Fingerprint c ∧ cl_Wipe plan = cn_HasBackupSet c && negb (cs_Adopt spec) ∧ cl_Adopt plan = cs_Adopt spec ∧
    if cs_Adopt spec then taken_over spec c plan else agreed spec c.

(** ** Before and after the request to format *)
Definition quiet (RI : Rows → Prop) (req : list ClaimWire) w : Prop :=
  RI (cw_rows w) ∧ cw_keys w = keys0 ∧ ∃ evs, cw_wire w = wire0 ++ evs ∧ Forall (λ x, ¬ is_claim x) evs ∧ ∀ x, x ∈ req → x ∈ evs.
Definition sent (RI : Rows → Prop) (req : list ClaimWire) (x : ClaimWire) w : Prop :=
  RI (cw_rows w) ∧ cw_keys w = keys0 ∧ ∃ evs post, cw_wire w = wire0 ++ evs ++ x :: post ∧ Forall (λ x, ¬ is_claim x) evs ∧ Forall (λ x, ¬ is_claim x) post ∧ ∀ x, x ∈ req → x ∈ evs.
Lemma quiet_weaken RI req req' w : quiet RI req' w → (∀ x, x ∈ req → x ∈ req') → quiet RI req w.
Proof using. intros (H1 & H2 & evs & E & Hn & Hr) Hs. split_and!; [done..|]. exists evs. split_and!; auto. Qed.
Lemma quiet_nil RI req w : quiet RI req w → quiet RI [] w.
Proof using. intros Hq. eapply quiet_weaken; [exact Hq|]. by intros ? ?%elem_of_nil. Qed.

Lemma look_quiet {A} RI req (f : nat → A) : preserves (quiet RI req) (k_look f).
Proof using. by intros w. Qed.
Lemma query_quiet {A} RI req (op : option error → Rows → result A) : preserves (quiet RI req) (k_query op).
Proof using. by intros w. Qed.
Lemma ret_quiet {A} RI req (a : A) : preserves (quiet RI req) (mret a).
Proof using. by intros w. Qed.
Lemma wire_quiet RI req x : ¬ is_claim x → triple (quiet RI req) (k_wire x) (λ _, quiet RI (x :: req)).
Proof using.
  intros Hx w (H1 & H2 & evs & E & Hn & Hr). split_and!; [done..|]. exists (evs ++ [x]). cbn. rewrite E, <- app_assoc. split_and!; [done|apply Forall_app; by rewrite Forall_singleton|].
  intros y [->|Hy]%elem_of_cons; apply elem_of_app; [right; by apply list_elem_of_singleton|left; auto].
Qed.
(** The slot is read and left. *)
Lemma key_quiet RI req spec : triple (quiet RI req) (claimKey jobID spec) (λ r w, quiet RI req w ∧ match r with Ok k => k = keys0 !! jobID | Fail _ => True end).
Proof using.
  apply (triple_bind _ (λ r w, quiet RI req w ∧ match r with Ok k => k = keys0 !! jobID | Fail _ => True end)).
  { intros w Hw. unfold k_key. cbn. split; [done|]. destruct Hw as (_ & -> & _). unfold StagedClaimKey, query. by destruct (k_fault _). }
  intros [k|e] w [Hw Hk]; (split; [done|]); cbn; [|done]. subst k. unfold matchStagedKey. destruct (keys0 !! jobID); by repeat (destruct (String.eqb _ _); cbn [negb]).
Qed.

(** ** Following the errors *)
Lemma triple_k_try {A B} (P : CW → Prop) (R : A → CW → Prop) (Q : result B → CW → Prop) (m : MC (result A)) (k : A → MC (result B)) :
  triple P m (λ r w, match r with Ok a => R a w | Fail e => Q (Fail e) w end) → (∀ a, triple (R a) (k a) Q) → triple P (k_try m k) Q.
Proof using. intros Hm Hk. unfold k_try. eapply triple_bind; [exact Hm|]. intros [a|e]; [apply Hk|by intros w]. Qed.
Lemma triple_k_tryr {A B} (P : CW → Prop) (Q : result B → CW → Prop) (r : result A) (k : A → MC (result B)) :
  (∀ w e, P w → Q (Fail e) w) → (∀ a, r = Ok a → triple P (k a) Q) → triple P (k_tryr r k) Q.
Proof using. intros Hf Hk. destruct r; [by apply Hk|]. intros w Hw. by apply Hf. Qed.
Lemma triple_attempts (P : CW → Prop) (Q : result ClaimOut → CW → Prop) (body : MC (result ClaimOut)) n :
  triple P body Q → (∀ e w, Q (Fail e) w → P w) → triple P (claim_attempts body n) Q.
Proof using.
  intros Hb Hf. induction n as [|n IH]; cbn [claim_attempts]; (eapply triple_bind; [exact Hb|]; intros [v|e]; try by intros w).
  intros w Hw. apply IH. by eapply Hf.
Qed.

Lemma triple_once (P : CW → Prop) (Q : result ClaimOut → CW → Prop) (body : MC (result ClaimOut)) : triple P body Q → triple P (claim_attempts body 0) Q.
Proof using. intros Hb. eapply triple_bind; [exact Hb|]. by intros [v|e] w. Qed.

(** ** The disk, found *)
Lemma find_confirmed ack spec c : findCandidate ack spec = Ok c → cn_Protected c = false → confirmed spec ack c.
Proof using.
  unfold findCandidate. cbv zeta. destruct (filter _ _) as [|c' [|c'' l]] eqn:E.
  - by destruct (last _).
  - intros [= <-] Hp. assert (c' ∈ filter (λ c, cn_Fingerprint c ≠ EmptyString ∧ cn_Fingerprint c = cs_Fingerprint spec) (ea_Candidates ack)) as Hc by (rewrite E; left).
    apply list_elem_of_filter in Hc as [[Hn Hf] Hin]. split_and!; [done..|]. intros d Hd Hfd.
    assert (d ∈ [c']) as Hd' by (rewrite <- E; apply list_elem_of_filter; split; [|done]; split; congruence). by apply list_elem_of_singleton in Hd'.
  - done.
Qed.
(** Enumerating and finding it. *)
Definition found_in (RI : Rows → Prop) (spec : ClaimSpec) (req : list ClaimWire) (r : result enumerateResult) w : Prop :=
  match r with Ok res => ∃ req', req ⊆ req' ∧ seen_as spec req' res ∧ quiet RI req' w | Fail _ => quiet RI req w end.
Lemma ask_quiet RI req node : triple (quiet RI req) (api_Enumerate node) (λ r w, match r with Ok ack => quiet RI (WEnumerate node (Replied ack) :: req) w | Fail _ => quiet RI req w end).
Proof using.
  unfold api_Enumerate. case_match; [by intros w Hw|].
  eapply triple_bind; [apply look_quiet|]. intros r. eapply triple_bind; [apply (wire_quiet RI req (WEnumerate node r)); by intros []|]. intros _ w Hw. cbn.
  assert (quiet RI req w) by (eapply quiet_weaken; [exact Hw|]; intros x Hx; by right).
  destruct r as [e|e|ack]; try done. by destruct (ea_OK ack).
Qed.
Lemma pick_quiet RI spec req moved reason : triple (quiet RI req) (k_try (api_Enumerate (cs_NodeID spec)) (λ ack, k_tryr (findCandidate ack spec) (λ c,
    if cn_Protected c then mret (Fail (protected_refusal c (reason c))) else mret (Ok (enumerated spec ack c (moved c)))))) (found_in RI spec req).
Proof using.
  apply (triple_k_try _ (λ ack, quiet RI (WEnumerate (cs_NodeID spec) (Replied ack) :: req))); [eapply triple_conseq; [apply ask_quiet|done|by intros [] ?]|].
  intros ack. set (req' := _ :: req). assert (req ⊆ req') as Hsub by (intros x Hx; by right).
  assert (∀ w, quiet RI req' w → quiet RI req w) as Hw' by (intros w Hw; eapply quiet_weaken; [exact Hw|exact Hsub]). apply triple_k_tryr; [intros w e; apply Hw'|].
  intros c Hc. destruct (cn_Protected c) eqn:Hp; intros w Hw; [by apply Hw'|]. exists req'. split; [done|]. split; [|exact Hw]. exists ack, c, (moved c). split_and!; [left|by apply find_confirmed|done].
Qed.
Definition found_out (RI : Rows → Prop) (spec : ClaimSpec) (r : result ClaimOut) w : Prop :=
  match r with Ok o => ∃ res req, o = OEnumerated res ∧ seen_as spec req res ∧ quiet RI req w | Fail _ => quiet RI [] w end.
Lemma enumerate_spec RI spec : ParseClaimSpec raw = Ok spec → triple (quiet RI []) (claimEnumerate raw) (found_out RI spec).
Proof using.
  intros Hs. unfold claimEnumerate. rewrite Hs. cbn [k_tryr].
  apply (triple_k_try _ (λ ack, quiet RI [WEnumerate (cs_NodeID spec) (Replied ack)])); [eapply triple_conseq; [apply ask_quiet|done|by intros [] ?]|].
  intros ack. apply triple_k_tryr; [intros w e Hw; by eapply quiet_nil|].
  intros c Hc. destruct (cn_Protected c) eqn:Hp; intros w Hw; [by eapply quiet_nil|]. eexists _, _. split; [done|]. split; [|exact Hw]. eexists ack, c, _. split_and!; [left|by apply find_confirmed|done].
Qed.

(** ** The plan *)
Lemma parse_spec spec : ParseClaimSpec raw = Ok spec → Trim (cs_Fingerprint spec) ≠ EmptyString ∧ (is_Some (cs_Wipe spec) → cs_Adopt spec = false).
Proof using.
  unfold ParseClaimSpec, check_spec. destruct (k_spec raw) as [sp|]; [|done]. destruct (k_inline raw); [done|].
  destruct (String.eqb_spec (Trim (cs_NodeID sp)) EmptyString); [done|]. destruct (String.eqb_spec (Trim (cs_DevicePath sp)) EmptyString); [done|].
  destruct (String.eqb_spec (Trim (cs_Fingerprint sp)) EmptyString); [done|]. destruct (cs_Wipe sp) eqn:Ew; [|intros [= <-]; split; [done|]; rewrite Ew; by intros [? ?]].
  destruct (cs_Adopt sp) eqn:Ea; [done|]. by destruct (String.eqb (Trim _) _); intros [= <-].
Qed.
Definition plan_out (RI : Rows → Prop) (spec : ClaimSpec) (req0 : list ClaimWire) (r : result ClaimOut) w : Prop :=
  match r with Ok o => ∃ plan req, o = OPlan plan ∧ planned spec req plan ∧ quiet RI req w | Fail _ => quiet RI req0 w end.
Lemma wipe_matches a b : wipeTokenMatches a b = true → a = b ∧ b ≠ EmptyString.
Proof using.
  unfold wipeTokenMatches. destruct (String.eqb_spec a EmptyString), (String.eqb_spec b EmptyString); cbn; try done. by intros ->%String.eqb_eq.
Qed.
Lemma adopt_spec RI spec ack c moved s req : WEnumerate (cs_NodeID spec) (Replied ack) ∈ req → confirmed spec ack c → cn_HasBackupSet c = true → cn_BackupSet c = Some s →
  cs_Adopt spec = true → cs_Wipe spec = None → bk_PartUUID s ≠ EmptyString → triple (quiet RI req) (adopt_plan jobID spec (enumerated spec ack c moved) s) (plan_out RI spec req).
Proof using.
  intros Hin Hc Hh Hs Ha Hw Hu. unfold adopt_plan. apply (triple_k_try _ (λ k w, quiet RI req w ∧ k = keys0 !! jobID)).
  { eapply triple_conseq; [apply key_quiet|done|]. by intros [k|e] w [Hq ?]. }
  intros key w [Hq ->]. cbv zeta. match goal with |- context [if ?x then _ else _] => destruct x; [exact Hq|] end.
  destruct (checkLegacySymmetricKey _ _); [exact Hq|]. destruct (checkAdoptedKeyCustody _ _ _) eqn:E; [exact Hq|].
  eexists _, req. split; [done|]. split; [|done]. exists ack, c. rewrite Ha. split_and!; try done; [by rewrite andb_false_r|]. split_and!; [done..|]. exists s. by split_and!.
Qed.
Lemma existing_spec RI spec prior req res : ParseClaimSpec raw = Ok spec → prior !! "enumerate" = Some (OEnumerated res) → seen_as spec req res →
  triple (quiet RI req) (claimCheckExisting jobID raw prior) (plan_out RI spec req).
Proof using.
  intros Hs Hp Hseen. unfold claimCheckExisting. rewrite Hs. cbn [k_tryr]. apply (triple_k_try _ (λ res, found_in RI spec req (Ok res))).
  { unfold priorEnumerate. rewrite Hp. cbv zeta. destruct (String.eqb (er_DevicePath res) EmptyString); cbn [negb].
    - eapply triple_conseq; [apply (pick_quiet RI spec req (λ _, false) cn_ProtectedReason)|done|by intros []].
    - intros w Hw. by exists req. }
  clear res Hp Hseen. intros res w (req' & Hsub & (ack & c & moved & Hin & Hc & ->) & Hq). revert w Hq.
  apply (triple_conseq _ (quiet RI req') _ (plan_out RI spec req')); [|done|by intros [o|e] w Hw; [|eapply quiet_weaken]].
  cbn [enumerated er_HasBackupSet er_BackupSet er_Fingerprint er_WWN er_Serial er_SizeBytes].
  assert (∀ e, triple (quiet RI req') (mret (Fail e)) (plan_out RI spec req')) as HF by (by intros e w Hw).
  assert (cn_Protected c = false) as Hprot by apply Hc.
  destruct (cn_HasBackupSet c) eqn:Hh; cbn [negb].
  - destruct (cs_Wipe spec) as [token|] eqn:Hw.
    + match goal with |- context [wipeTokenMatches ?a ?b] => destruct (wipeTokenMatches a b) eqn:Em; cbn [negb]; [|done] end. apply wipe_matches in Em as [-> Hne].
      assert (cs_Adopt spec = false) as Ha by (apply parse_spec in Hs as [_ Ha]; apply Ha; by rewrite Hw).
      intros w Hq. eexists _, req'. split; [done|]. split; [|done]. exists ack, c. rewrite Ha, Hh. split_and!; try done. unfold agreed, CandidateWipeToken. by rewrite Hh, Hprot.
    + destruct (cs_Adopt spec) eqn:Ha; cbn [negb]; [|done]. destruct (cn_BackupSet c) as [s|] eqn:Es; [|done]. destruct (String.eqb_spec (bk_PartUUID s) EmptyString); [done|]. by apply adopt_spec.
  - destruct (cs_Adopt spec) eqn:Ha; [done|]. destruct (cs_Wipe spec) eqn:Hw; [done|]. intros w Hq. eexists _, req'. split; [done|]. split; [|done].
    exists ack, c. rewrite Ha, Hh. split_and!; try done. unfold agreed. by rewrite Hh.
Qed.

(** ** The request *)
Definition aimed_at (plan : claimPlan) (cmd : StorageClaimCmd) : Prop :=
  cc_DevicePath cmd = cl_DevicePath plan ∧ cc_Fingerprint cmd = cl_Fingerprint plan ∧ EffectivePurpose cmd = StoragePurposeBackup.
Definition asked (RI : Rows → Prop) (spec : ClaimSpec) w : Prop :=
  ∃ req plan cmd r, planned spec req plan ∧ cs_Adopt spec = false ∧ aimed_at plan cmd ∧ sent RI req (WClaim (cs_NodeID spec) cmd r) w.
Definition guarded (RI : Rows → Prop) (spec : ClaimSpec) w : Prop := quiet RI [] w ∨ asked RI spec w.
(** What became of the disk. *)
Definition done_with (RI : Rows → Prop) (spec : ClaimSpec) (out : claimOutcome) w : Prop :=
  co_PartUUID out ≠ EmptyString ∧ co_Adopted out = cs_Adopt spec ∧ ∃ req plan, planned spec req plan ∧ co_Wiped out = cl_Wipe plan ∧
  if cs_Adopt spec
  then ∃ ack, ia_OK ack = true ∧ ia_Present ack = true ∧ co_PartUUID out = cl_ExistingPartUUID plan ∧ quiet RI (WInspect (cs_NodeID spec) (cl_ExistingPartUUID plan) (Replied ack) :: req) w
  else ∃ cmd ack, aimed_at plan cmd ∧ ca_OK ack = true ∧ co_PartUUID out = ca_PartUUID ack ∧ sent RI req (WClaim (cs_NodeID spec) cmd (Replied ack)) w.
Definition claim_out (RI : Rows → Prop) (spec : ClaimSpec) (r : result ClaimOut) w : Prop :=
  match r with Ok o => ∃ out, o = OClaimed out ∧ done_with RI spec out w | Fail _ => guarded RI spec w end.
Lemma done_guarded RI spec out w : done_with RI spec out w → guarded RI spec w.
Proof using.
  intros (_ & _ & req & plan & Hp & _ & Hd). destruct (cs_Adopt spec) eqn:Ha.
  - destruct Hd as (ack & _ & _ & _ & Hq). left. by eapply quiet_nil.
  - destruct Hd as (cmd & ack & Hc & _ & _ & Hs). right. exists req, plan, cmd, (Replied ack). by split_and!.
Qed.
Lemma wire_sent RI req x w : quiet RI req w → sent RI req x (snd (k_wire x w)).
Proof using. intros (H1 & H2 & evs & E & Hn & Hr). split_and!; [done..|]. exists evs, []. cbn. rewrite E, <- app_assoc. by split_and!. Qed.
Lemma cmd_quiet RI req clusterID plan key : triple (quiet RI req) (claimCmdBytes (cl_NodeID plan) (plan_cmd clusterID plan key) key) (λ r w, quiet RI req w ∧
  match r with Ok cmd => aimed_at plan cmd | Fail _ => True end).
Proof using.
  unfold claimCmdBytes, CheckClaimPurposeSupported. intros w Hw. split; [done|]. cbn. unfold with_wrappings, aimed_at. destruct key; [destruct (key_present _)|]; by split_and!.
Qed.
Lemma adopt_reply RI spec req plan : cs_Adopt spec = true → planned spec req plan → triple (quiet RI req) (adoptExisting plan) (claim_out RI spec).
Proof using.
  intros Ha Hpl. pose proof Hpl as (ack0 & c & Hin & Hc & Hnode & Hdev & Hfp & Hwipe & Had & Hto). rewrite Ha in Hto. destruct Hto as (Hb & Hw & s & Hs & Hu & Hne & _).
  unfold adoptExisting. rewrite Hnode. eapply triple_bind; [apply look_quiet|]. intros r. eapply triple_bind; [apply (wire_quiet RI req (WInspect _ _ r)); by intros []|].
  intros _ w Hq. cbn. assert (guarded RI spec w) as HF by (left; by eapply quiet_nil). destruct r as [e|e|ack]; try apply HF.
  destruct (ia_OK ack) eqn:Eo; cbn; [|apply HF]. destruct (ia_Present ack) eqn:Ep; cbn; [|apply HF]. eexists. split; [done|].
  split_and!; [cbn; congruence|by rewrite Ha|]. exists req, plan. split; [done|]. split; [by rewrite Hwipe, Ha, andb_false_r|]. rewrite Ha. by exists ack.
Qed.
Lemma claim_step RI clusterID spec prior req plan : ParseClaimSpec raw = Ok spec → prior !! "check_existing" = Some (OPlan plan) → planned spec req plan →
  triple (quiet RI req) (claimClaim clusterID jobID raw prior) (claim_out RI spec).
Proof using.
  intros Hs Hp Hpl. pose proof Hpl as (ack0 & c & Hin & Hc & Hnode & Hdev & Hfp & Hwipe & Had & Hto).
  assert (∀ e w, quiet RI req w → claim_out RI spec (Fail e) w) as HF by (intros e w Hw; left; by eapply quiet_nil).
  unfold claimClaim. rewrite Hs. cbn [k_tryr]. rewrite Hp. destruct (_ || _); [intros w; apply HF|]. rewrite Had.
  destruct (cs_Adopt spec) eqn:Ha; [by apply adopt_reply|].
  apply (triple_k_try _ (λ _, quiet RI req)); [eapply triple_conseq; [apply key_quiet|done|]; intros [k|e] w [Hq _]; [done|by apply HF]|]. intros key.
  apply (triple_k_try _ (λ cmd w, quiet RI req w ∧ aimed_at plan cmd)); [eapply triple_conseq; [apply cmd_quiet|done|]; intros [k|e] w [Hq ?]; [done|by apply HF]|].
  intros cmd w [Hq Hcmd]. rewrite Hnode. set (r := k_claim (cw_tick w) (cs_NodeID spec) cmd).
  change (claim_out RI spec (claim_reply plan (cc_KeyID cmd) r) (mkCW (cw_rows w) (cw_keys w) (cw_wire w ++ [WClaim (cs_NodeID spec) cmd r]) (S (cw_tick w)))). clearbody r.
  pose proof (wire_sent RI req (WClaim (cs_NodeID spec) cmd r) _ Hq) as Hsent. cbn in Hsent.
  assert (guarded RI spec (mkCW (cw_rows w) (cw_keys w) (cw_wire w ++ [WClaim (cs_NodeID spec) cmd r]) (S (cw_tick w)))) as HF'
    by (right; exists req, plan, cmd, r; by split_and!).
  unfold claim_reply. destruct r as [e|e|ack]; try apply HF'. destruct (ca_OK ack) eqn:Eo; cbn; [|apply HF']. destruct (String.eqb_spec (ca_PartUUID ack) EmptyString); [apply HF'|].
  eexists. split; [done|]. split_and!; [done..|]. exists req, plan. split; [done|]. split; [done|]. rewrite Ha. exists cmd, ack. by split_and!.
Qed.

(** ** The steps in their order *)
Lemma workflow_spec (RI RI' : Rows → Prop) clusterID spec (Q : option error → CW → Prop) : ParseClaimSpec raw = Ok spec →
  triple (quiet RI []) (claimValidate jobID raw) (λ r w, match r with Ok _ => quiet RI' [] w | Fail e => Q (Some e) w end) →
  (∀ e w, guarded RI' spec w → Q (Some e) w) →
  (∀ prior out, prior !! "claim" = Some (OClaimed out) →
     triple (done_with RI' spec out) (claim_attempts (claimPersist jobID raw prior) 1) (λ r, Q (match r with Ok _ => None | Fail e => Some e end))) →
  triple (quiet RI []) (run_claim_steps (ClaimWorkflow clusterID jobID raw) ∅) Q.
Proof using.
  intros Hs Hv HF Hp. unfold ClaimWorkflow. cbn [run_claim_steps cst_Do cst_Retries cst_Name].
  eapply triple_bind; [apply triple_once; exact Hv|]. intros [v|e]; [|by intros w].
  eapply triple_bind; [apply triple_attempts; [by apply (enumerate_spec RI' spec)|done]|]. intros [o|e]; [|by intros w Hw; apply HF; left].
  set (prior := <["enumerate" := o]> _). assert (prior !! "enumerate" = Some o) as Hpr by apply lookup_insert_eq. clearbody prior.
  intros w (res & req & -> & Hseen & Hq). revert w Hq. apply (triple_conseq _ (quiet RI' req) _ Q); [|done..].
  eapply triple_bind; [apply triple_attempts; [by apply (existing_spec RI' spec prior req res)|done]|]. intros [o|e]; [|by intros w Hw; apply HF; left; eapply quiet_nil].
  set (prior' := <["check_existing" := o]> _). assert (prior' !! "check_existing" = Some o) as Hpr' by apply lookup_insert_eq. clearbody prior'.
  intros w (plan & req' & -> & Hpl & Hq). revert w Hq. apply (triple_conseq _ (quiet RI' req') _ Q); [|done..].
  eapply triple_bind; [apply triple_once; by apply (claim_step RI' clusterID spec prior' req' plan)|]. intros [o|e]; [|by intros w; apply HF].
  intros w (out & -> & Hd). revert w Hd. apply (triple_conseq _ (done_with RI' spec out) _ Q); [|done..].
  eapply triple_bind; [apply (Hp _ out); apply lookup_insert_eq|]. by intros [v'|e] w.
Qed.

(** ** The steps that only write the ledger *)
Definition ledger_only (w w' : CW) : Prop := cw_keys w' = cw_keys w ∧ cw_wire w' = cw_wire w.
#[local] Instance ledger_only_preorder : PreOrder ledger_only.
Proof using. split; [by intros w|]. intros w1 w2 w3 [] []. split; congruence. Qed.
Definition off_wire (w w' : CW) : Prop := cw_wire w' = cw_wire w.
#[local] Instance off_wire_preorder : PreOrder off_wire.
Proof using. split; [by intros w|]. intros w1 w2 w3 E1 E2. red in E1, E2 |- *. congruence. Qed.
Lemma ledger_look {A} (f : nat → A) : yields ledger_only (k_look f).
Proof using. by intros w. Qed.
Lemma ledger_query {A} (op : option error → Rows → result A) : yields ledger_only (k_query op).
Proof using. by intros w. Qed.
Lemma ledger_rows op : yields ledger_only (k_rows op).
Proof using. intros w. unfold k_rows. by destruct (op _ _). Qed.
Lemma ledger_key spec : yields ledger_only (claimKey jobID spec).
Proof using. by intros w. Qed.
#[local] Hint Resolve ledger_look ledger_query ledger_rows ledger_key : yields.
Lemma ledger_try {A B} (m : MC (result A)) (k : A → MC (result B)) : yields ledger_only m → (∀ a, yields ledger_only (k a)) → yields ledger_only (k_try m k).
Proof using. intros Hm Hk. unfold k_try. yield; done. Qed.
Lemma ledger_wrap {A B} text (m : MC (result A)) (k : A → MC (result B)) : yields ledger_only m → (∀ a, yields ledger_only (k a)) → yields ledger_only (k_wrap text m k).
Proof using. intros Hm Hk. unfold k_wrap. yield; done. Qed.
Lemma ledger_do {B} text (m : MC (option error)) (k : MC (result B)) : yields ledger_only m → yields ledger_only k → yields ledger_only (k_do text m k).
Proof using. intros Hm Hk. unfold k_do. yield; done. Qed.
Ltac ledger := repeat first [apply ledger_try; [|intros ?]|apply ledger_wrap; [|intros ?]|apply ledger_do|progress yield].
Lemma validate_ledger : yields ledger_only (claimValidate jobID raw).
Proof using. unfold claimValidate, k_tryr. ledger. Qed.
Lemma persist_ledger prior : yields ledger_only (claimPersist jobID raw prior).
Proof using. unfold claimPersist, k_tryr, supersedePriorTargets, supersede_one, persist_read. ledger. Qed.
Lemma attempts_ledger body n : yields ledger_only body → yields ledger_only (claim_attempts body n).
Proof using. intros Hb. induction n; cbn [claim_attempts]; yield; done. Qed.
Lemma finalize_off_wire errMsg : yields off_wire (finalizeTargetRow jobID errMsg).
Proof using.
  assert (∀ A (m : MC A), yields ledger_only m → yields off_wire m) as Hl by (intros A m Hm; eapply yields_mono; [exact Hm|]; by intros w w' []).
  unfold finalizeTargetRow. apply yields_bind; [apply _| |intros _].
  { intros w. unfold k_key. by destruct (DiscardStagedClaimKey _ _ _). }
  apply Hl. yield.
Qed.
#[local] Abbreviation any_rows := (λ _ : Rows, True).
Lemma quiet_ledger w w' : ledger_only w w' → quiet any_rows [] w → quiet any_rows [] w'.
Proof using. intros [E1 E2] (_ & H2 & H3). unfold quiet. by rewrite E1, E2. Qed.
Lemma guarded_ledger spec w w' : ledger_only w w' → guarded any_rows spec w → guarded any_rows spec w'.
Proof using.
  intros Hl [Hq|Ha]; [left; exact (quiet_ledger _ _ Hl Hq)|right]. destruct Hl as [E1 E2]. destruct Ha as (req & plan & cmd & r & Hpl & Had & Hc & _ & H2 & H3). exists req, plan, cmd, r.
  split_and!; [done..|]. unfold sent. by rewrite E1, E2.
Qed.
Lemma steps_guarded clusterID spec : ParseClaimSpec raw = Ok spec → triple (quiet any_rows []) (run_claim_steps (ClaimWorkflow clusterID jobID raw) ∅) (λ _, guarded any_rows spec).
Proof using.
  intros Hs. apply (workflow_spec any_rows any_rows clusterID spec); [done| |done|].
  - intros w Hw. pose proof (quiet_ledger _ _ (validate_ledger w) Hw). destruct (claimValidate jobID raw w) as [[]]; [done|by left].
  - intros prior out _ w Hw%done_guarded. eapply guarded_ledger; [apply attempts_ledger, persist_ledger|exact Hw].
Qed.
Lemma steps_unparsed clusterID e : ParseClaimSpec raw = Fail e → ∀ w, exec (run_claim_steps (ClaimWorkflow clusterID jobID raw) ∅) w = w.
Proof using. intros Hs w. unfold ClaimWorkflow. cbn [run_claim_steps cst_Do cst_Retries cst_Name claim_attempts]. unfold claimValidate. by rewrite Hs. Qed.
Lemma run_wire clusterID w : cw_wire (exec (run_claim clusterID jobID raw) w) = cw_wire (exec (run_claim_steps (ClaimWorkflow clusterID jobID raw) ∅) w).
Proof using.
  unfold run_claim. rewrite exec_bind. set (e := eval _ w). set (w' := exec (run_claim_steps _ _) w). rewrite exec_bind, exec_ret. apply (finalize_off_wire (match e with Some e => err_text e | None => EmptyString end) w').
Qed.
End facts.

(** ** The row *)
Definition is_claimed (r : TargetRow) : bool := bool_decide (tr_Status r = TargetClaimed).
(** The others give way. *)
Definition superseded (at_ : Z) (rows : Rows) : Rows := (λ r, if is_claimed r then replaced_at at_ r else r) <$> rows.
Definition pending_row (jobID : string) (spec : ClaimSpec) (now : Z) : TargetRow :=
  mkTargetRow jobID (cs_NodeID spec) (cs_Label spec) EmptyString (cs_DevicePath spec) EmptyString EmptyString 0 EmptyString EmptyString EmptyString EmptyString EmptyString
    EmptyString false false TargetPending (stored_ms now) None EmptyString.
(** The row says what the agent answered; an adopted set keeps its own key, and nothing was formatted for it. *)
Definition row_backed (spec : ClaimSpec) (evs : list ClaimWire) (row : TargetRow) : Prop :=
  if cs_Adopt spec
  then filter is_claim evs = [] ∧ ∃ ack c s iack, WEnumerate (cs_NodeID spec) (Replied ack) ∈ evs ∧ confirmed spec ack c ∧ cn_BackupSet c = Some s ∧
    WInspect (cs_NodeID spec) (bk_PartUUID s) (Replied iack) ∈ evs ∧ ia_OK iack = true ∧ ia_Present iack = true ∧ tr_PartUUID row = bk_PartUUID s ∧
    (markerCarriesWrappings s = true → tr_PublicKey row = bk_PublicKey s ∧ tr_wrappedByPassphrase row = bk_WrappedByPassphrase s ∧
      tr_wrappedByRecoveryCode row = bk_WrappedByRecoveryCode s)
  else ∃ cmd ack, filter is_claim evs = [WClaim (cs_NodeID spec) cmd (Replied ack)] ∧ cc_Fingerprint cmd = cs_Fingerprint spec ∧ ca_OK ack = true ∧
    tr_PartUUID row = ca_PartUUID ack.

Section record.
Context `{!ClaimEnv} (steady : ∀ n, k_fault n = None) (jobID raw : string) (rows0 : Rows) (keys0 : Keys) (wire0 : list ClaimWire).
Context (fresh : jobID ∉ tr_JobID <$> rows0).
Implicit Types (w : CW).
#[local] Abbreviation MC := (M CW).
#[local] Abbreviation quiet' := (quiet keys0 wire0).
Definition opened (spec : ClaimSpec) (rows : Rows) : Prop :=
  (cs_Replace spec = true ∨ Forall (λ r, is_claimed r = false) rows0) ∧ ∃ now, rows = rows0 ++ [pending_row jobID spec now].

Lemma query_steady {A} (P : CW → Prop) (Q : result A → CW → Prop) (op : option error → Rows → result A) :
  (∀ w n, P w → Q (op None (cw_rows w)) (mkCW (cw_rows w) (cw_keys w) (cw_wire w) n)) → triple P (k_query op) Q.
Proof using steady. intros HQ w Hw. unfold k_query. cbn. rewrite steady. by apply HQ. Qed.
Lemma rows_steady (P : CW → Prop) (Q : option error → CW → Prop) (op : option error → Rows → Rows * option error) :
  (∀ w n, P w → Q (snd (op None (cw_rows w))) (mkCW (fst (op None (cw_rows w))) (cw_keys w) (cw_wire w) n)) → triple P (k_rows op) Q.
Proof using steady. intros HQ w Hw. unfold k_rows. rewrite steady. specialize (HQ w (S (cw_tick w)) Hw). by destruct (op None (cw_rows w)). Qed.

Lemma fresh_not : ∀ r, r ∈ rows0 → tr_JobID r ≠ jobID.
Proof using fresh. intros r Hr E. apply fresh. rewrite <- E. by apply list_elem_of_fmap_2. Qed.
Lemma map_same (f : TargetRow → TargetRow) (l : Rows) : (∀ r, r ∈ l → f r = r) → f <$> l = l.
Proof using. intros Hf. rewrite <- (list_fmap_id l) at 2. apply list_fmap_ext. intros i r Hr. apply Hf. by eapply list_elem_of_lookup_2. Qed.
Lemma where_mine st f row : target_where (job_status jobID st) f (rows0 ++ [row]) = rows0 ++ (if job_status jobID st row then [f row] else [row]).
Proof using fresh.
  unfold target_where. rewrite fmap_app. f_equal; [|cbn; by destruct (job_status jobID st row)]. 
  apply map_same. intros r Hr. unfold job_status. destruct (String.eqb_spec (tr_JobID r) jobID) as [E|]; [by apply fresh_not in E|done].
Qed.
Lemma target_row_none rows : jobID ∉ tr_JobID <$> rows → target_row rows jobID = None.
Proof using.
  intros Hf. unfold target_row. destruct (filter _ rows) as [|r l] eqn:E; [done|]. assert (r ∈ filter (λ r, tr_JobID r = jobID) rows) as [E' Hr]%list_elem_of_filter by (rewrite E; left).
  exfalso. apply Hf. rewrite <- E'. by apply list_elem_of_fmap_2.
Qed.
Lemma row_last rows row : jobID ∉ tr_JobID <$> rows → tr_JobID row = jobID → target_row (rows ++ [row]) jobID = Some row.
Proof using.
  intros Hf E. pose proof (target_row_none rows Hf) as Hn. unfold target_row in *. rewrite filter_app, filter_cons_True by done. by destruct (filter _ rows).
Qed.
Lemma superseded_ids at_ : tr_JobID <$> superseded at_ rows0 = tr_JobID <$> rows0.
Proof using. unfold superseded. rewrite <- list_fmap_compose. apply list_fmap_ext. intros i r _. cbn. by destruct (is_claimed r). Qed.

Lemma create_mine spec now : CreatePending None rows0 jobID (cs_NodeID spec) (cs_DevicePath spec) (cs_Label spec) now = (rows0 ++ [pending_row jobID spec now], None).
Proof using fresh. unfold CreatePending, t_stmt. by rewrite bool_decide_false. Qed.
Lemma open_spec spec : cs_Replace spec = true ∨ Forall (λ r, is_claimed r = false) rows0 →
  triple (quiet' (λ rows, rows = rows0) []) (k_try (claimKey jobID spec) (λ _, now ← k_look k_clock;
    k_do "record claim attempt" (k_rows (λ flt s, CreatePending flt s jobID (cs_NodeID spec) (cs_DevicePath spec) (cs_Label spec) now)) (mret (Ok OValidated))))
  (λ r w, match r with Ok _ => quiet' (opened spec) [] w | Fail _ => quiet' (λ rows, rows = rows0) [] w end).
Proof using steady fresh.
  intros Hr. apply (triple_k_try _ (λ _, quiet' (λ rows, rows = rows0) [])); [eapply triple_conseq; [apply key_quiet|done|]; by intros [k|e] w [Hq _]|]. intros k.
  eapply triple_bind; [apply look_quiet|]. intros now. apply (triple_bind _ (λ e w, e = None ∧ quiet' (opened spec) [] w)); [|by intros e w [-> Hw]].
  apply rows_steady. intros w n (E & H2 & H3). rewrite E, create_mine. split; [done|]. split_and!; [|done..]. split; [done|]. by exists now.
Qed.
Lemma claimed_none rows : listed_as TargetClaimed rows = [] → Forall (λ r, is_claimed r = false) rows.
Proof using.
  intros E. apply Forall_forall. intros r Hr. unfold is_claimed. apply bool_decide_false. intros Hc.
  assert (r ∈ listed_as TargetClaimed rows) as Hin by (unfold listed_as; rewrite (merge_sort_Permutation created_desc); by apply list_elem_of_filter). rewrite E in Hin. by apply elem_of_nil in Hin.
Qed.
Lemma claim_validate_spec spec : ParseClaimSpec raw = Ok spec → triple (quiet' (λ rows, rows = rows0) []) (claimValidate jobID raw)
  (λ r w, match r with Ok _ => quiet' (opened spec) [] w | Fail _ => quiet' (λ rows, rows = rows0) [] w end).
Proof using steady fresh.
  intros Hs. unfold claimValidate. rewrite Hs. cbn [k_tryr]. unfold k_wrap at 1. eapply triple_bind; [apply look_quiet|]. intros [[node|]|e]; try by intros w.
  destruct (CanHoldTarget _ _); [by intros w|]. unfold k_wrap.
  apply (triple_bind _ (λ r w, r = Ok (listed_as TargetClaimed rows0) ∧ quiet' (λ rows, rows = rows0) [] w)).
  { apply query_steady. intros w n Hw. split; [|done]. destruct Hw as [-> _]. done. }
  intros r. apply triple_pure. intros ->. destruct (listed_as TargetClaimed rows0) as [|cur l] eqn:E.
  - apply (open_spec spec). right. by apply claimed_none.
  - destruct (cs_Replace spec) eqn:Er; cbn [negb]; [|by intros w]. apply (open_spec spec). by left.
Qed.

(** Every other row among [ids] gives way. *)
Definition yield_to (at_ : Z) (ids : list string) (r : TargetRow) : TargetRow :=
  if is_claimed r && bool_decide (tr_JobID r ∈ ids) && negb (String.eqb (tr_JobID r) jobID) then replaced_at at_ r else r.
Lemma replaced_not_claimed at_ r : is_claimed (replaced_at at_ r) = false.
Proof using. done. Qed.
Lemma yield_step at_ c ids (rows : Rows) : yield_to at_ ids <$> (if String.eqb c jobID then rows else target_where (job_status c TargetClaimed) (replaced_at at_) rows) =
  yield_to at_ (c :: ids) <$> rows.
Proof using.
  destruct (String.eqb_spec c jobID) as [->|Hc]; [|unfold target_where; rewrite <- list_fmap_compose]; (apply list_fmap_ext; intros i r _; cbn).
  - unfold yield_to. destruct (String.eqb_spec (tr_JobID r) jobID) as [E|E]; cbn [negb]; [by rewrite !andb_false_r|].
    rewrite (bool_decide_ext (tr_JobID r ∈ jobID :: ids) (tr_JobID r ∈ ids)); [done|]. rewrite elem_of_cons. tauto.
  - unfold job_status. fold (is_claimed r). destruct (String.eqb_spec (tr_JobID r) c) as [E|E]; cbn [andb].
    + destruct (is_claimed r) eqn:Ec; unfold yield_to; cbn [andb]; [|by rewrite Ec]. rewrite replaced_not_claimed, Ec. cbn [andb].
      rewrite bool_decide_true by (rewrite E; left). rewrite E. by destruct (String.eqb_spec c jobID).
    + unfold yield_to. rewrite (bool_decide_ext (tr_JobID r ∈ c :: ids) (tr_JobID r ∈ ids)); [done|]. rewrite elem_of_cons. tauto.
Qed.
Lemma supersede_spec at_ l : ∀ (rows : Rows) (Q : Keys → list ClaimWire → Prop), triple (λ w, cw_rows w = rows ∧ Q (cw_keys w) (cw_wire w)) (for_each (supersede_one jobID at_) l)
  (λ _ w, cw_rows w = yield_to at_ (tr_JobID <$> l) <$> rows ∧ Q (cw_keys w) (cw_wire w)).
Proof using steady.
  induction l as [|c l IH]; intros rows Q; cbn [for_each].
  { intros w [E Hw]. split; [|done]. cbn. rewrite E. symmetry. apply map_same. intros r _. unfold yield_to. rewrite bool_decide_false by apply not_elem_of_nil. by rewrite andb_false_r. }
  set (rows' := if String.eqb (tr_JobID c) jobID then rows else target_where (job_status (tr_JobID c) TargetClaimed) (replaced_at at_) rows).
  apply (triple_bind _ (λ _ w, cw_rows w = rows' ∧ Q (cw_keys w) (cw_wire w))); [unfold rows'|intros _; eapply triple_conseq; [apply (IH rows' Q)|done|]; intros ? w; unfold rows'; by rewrite yield_step].
  unfold supersede_one. destruct (String.eqb (tr_JobID c) jobID); [by intros w|]. apply (triple_bind _ (λ _ w, cw_rows w = rows' ∧ Q (cw_keys w) (cw_wire w))); [|by intros e w].
  apply rows_steady. intros w n [E Hw]. cbn. by rewrite E.
Qed.

(** What the run left when it worked. *)
Definition recorded_as (spec : ClaimSpec) (out : claimOutcome) (rows : Rows) : Prop :=
  ∃ now at_ later, rows = (if cs_Replace spec then superseded at_ rows0 else rows0) ++ [with_claim (claim_result out (keys0 !! jobID) later) (pending_row jobID spec now)].
Lemma supersede_all at_ mine : tr_JobID mine = jobID → yield_to at_ (tr_JobID <$> listed_as TargetClaimed (rows0 ++ [mine])) <$> (rows0 ++ [mine]) = superseded at_ rows0 ++ [mine].
Proof using fresh.
  intros Em. rewrite fmap_app. f_equal; [|cbn; unfold yield_to; by rewrite Em, String.eqb_refl, andb_false_r].
  apply list_fmap_ext. intros i r Hr%list_elem_of_lookup_2. unfold yield_to. destruct (is_claimed r) eqn:Ec; [|done]. cbn [andb].
  rewrite bool_decide_true; [destruct (String.eqb_spec (tr_JobID r) jobID) as [E|]; [by apply fresh_not in E|done]|].
  apply list_elem_of_fmap_2. unfold listed_as. rewrite (merge_sort_Permutation created_desc). apply list_elem_of_filter. split; [by apply bool_decide_eq_true in Ec|]. apply elem_of_app. by left.
Qed.
(** [done_with] but for the rows. *)
Definition evidence (spec : ClaimSpec) (out : claimOutcome) (w : CW) : Prop := done_with jobID keys0 wire0 (λ _, True) spec out w.
Lemma evidence_of RI spec out w : done_with jobID keys0 wire0 RI spec out w → evidence spec out w ∧ RI (cw_rows w) ∧ cw_keys w = keys0.
Proof using.
  intros (H1 & H2 & req & plan & H3 & H4 & H5). unfold evidence, done_with. destruct (cs_Adopt spec).
  - destruct H5 as (ack & ? & ? & ? & Hr & Hk & Hq). split; [|done]. split_and!; [done..|]. exists req, plan. split_and!; [done..|]. exists ack. by split_and!.
  - destruct H5 as (cmd & ack & ? & ? & ? & Hr & Hk & Hq). split; [|done]. split_and!; [done..|]. exists req, plan. split_and!; [done..|]. exists cmd, ack. by split_and!.
Qed.
Lemma evidence_ledger spec out w w' : ledger_only w w' → evidence spec out w → evidence spec out w'.
Proof using.
  intros [E1 E2] (H1 & H2 & req & plan & H3 & H4 & H5). unfold evidence, done_with. split_and!; [done..|]. exists req, plan. split_and!; [done..|].
  unfold quiet, sent in *. by rewrite E1, E2.
Qed.
Lemma evidence_rows (RI : Rows → Prop) spec out w : evidence spec out w → RI (cw_rows w) → done_with jobID keys0 wire0 RI spec out w.
Proof using.
  intros (H1 & H2 & req & plan & H3 & H4 & H5) Hr. unfold done_with. split_and!; [done..|]. exists req, plan. split_and!; [done..|]. destruct (cs_Adopt spec).
  - destruct H5 as (ack & ? & ? & ? & _ & Hk & Hq). exists ack. by split_and!.
  - destruct H5 as (cmd & ack & ? & ? & ? & _ & Hk & Hq). exists cmd, ack. by split_and!.
Qed.
Definition at_rows (rows : Rows) w : Prop := cw_rows w = rows ∧ cw_keys w = keys0.
Lemma look_at {A} rows (f : nat → A) : preserves (at_rows rows) (k_look f).
Proof using. by intros w. Qed.
Lemma key_at rows spec : triple (at_rows rows) (claimKey jobID spec) (λ r w, at_rows rows w ∧ match r with Ok k => k = keys0 !! jobID | Fail _ => True end).
Proof using.
  intros w [E1 E2]. pose proof (key_quiet jobID keys0 (cw_wire w) (λ r, r = rows) [] spec w) as Hk. destruct Hk as [(H1 & H2 & _) H3]; [|by split].
  split_and!; [done..|]. exists []. rewrite app_nil_r. split_and!; [done|constructor|by intros ? ?%elem_of_nil].
Qed.
Lemma read_back rows mine (Q : result ClaimOut → CW → Prop) : jobID ∉ tr_JobID <$> rows → tr_JobID mine = jobID →
  (∀ w, at_rows (rows ++ [mine]) w → Q (Ok (OPersisted mine)) w) → triple (at_rows (rows ++ [mine])) (persist_read jobID) Q.
Proof using steady.
  intros Hf Hm HQ. unfold persist_read. apply (triple_bind _ (λ r w, r = Ok (Some mine) ∧ at_rows (rows ++ [mine]) w)); [|by intros r w [-> Hw]; apply HQ].
  apply query_steady. intros w n [E1 E2]. split; [|done]. rewrite E1. unfold GetByJob, query. by rewrite row_last.
Qed.
Lemma give_way rows mine : rows = rows0 → tr_JobID mine = jobID →
  triple (at_rows (rows ++ [mine])) (supersedePriorTargets jobID) (λ _ w, ∃ at_, at_rows (superseded at_ rows0 ++ [mine]) w).
Proof using steady fresh.
  intros -> Hm. unfold supersedePriorTargets.
  apply (triple_bind _ (λ r w, r = Ok (listed_as TargetClaimed (rows0 ++ [mine])) ∧ at_rows (rows0 ++ [mine]) w)); [apply query_steady; intros w n [E1 E2]; by rewrite E1|].
  intros r. apply triple_pure. intros ->. eapply triple_bind; [apply look_at|]. intros at_.
  eapply triple_conseq; [apply (supersede_spec at_ _ (rows0 ++ [mine]) (λ k _, k = keys0))|done|]. intros _ w [E1 E2]. exists at_. split; [|done]. by rewrite E1, supersede_all.
Qed.
Lemma persist_rows spec out prior now : ParseClaimSpec raw = Ok spec → prior !! "claim" = Some (OClaimed out) →
  triple (at_rows (rows0 ++ [pending_row jobID spec now])) (claimPersist jobID raw prior)
    (λ r w, cw_keys w = keys0 ∧ match r with Ok _ => recorded_as spec out (cw_rows w) | Fail _ => cw_rows w = rows0 ++ [pending_row jobID spec now] end).
Proof using steady fresh.
  intros Hs Hp. set (mine := pending_row jobID spec now). set (Q := λ r w, _). unfold claimPersist. rewrite Hs. cbn [k_tryr]. rewrite Hp. destruct (String.eqb _ _); [by intros w [? ?]|].
  apply (triple_bind _ (λ r w, r = Ok (Some mine) ∧ at_rows (rows0 ++ [mine]) w)).
  { apply query_steady. intros w n [E1 E2]. split; [|done]. rewrite E1. unfold GetByJob, query. by rewrite row_last. }
  intros r. apply triple_pure. intros ->. cbn [tr_Status mine pending_row]. rewrite bool_decide_false by done. cbn [andb].
  apply (triple_k_try _ (λ k w, k = keys0 !! jobID ∧ at_rows (rows0 ++ [mine]) w)); [eapply triple_conseq; [apply key_at|done|]; by intros [k|e] w [[? ?] ?]|].
  intros key. apply triple_pure. intros ->. eapply triple_bind; [apply look_at|]. intros later. set (claimed := with_claim (claim_result out (keys0 !! jobID) later) mine).
  apply (triple_bind _ (λ e w, e = None ∧ at_rows (rows0 ++ [claimed]) w)).
  { apply rows_steady. intros w n [E1 E2]. cbn. rewrite E1, where_mine. unfold job_status. cbn [tr_JobID tr_Status mine pending_row]. rewrite String.eqb_refl.
    rewrite existsb_app. cbn. rewrite String.eqb_refl, orb_true_r. done. }
  intros e. apply triple_pure. intros ->. destruct (cs_Replace spec) eqn:Er.
  - eapply triple_bind; [by apply give_way|]. intros ?. apply triple_exists. intros at_. apply read_back; [by rewrite superseded_ids|done|]. intros w [E1 E2]. split; [done|].
    exists now, at_, later. by rewrite Er, E1.
  - apply (triple_bind _ (λ _, at_rows (rows0 ++ [claimed]))); [by intros w|]. intros _. apply read_back; [done..|]. intros w [E1 E2]. split; [done|]. exists now, 0, later. by rewrite Er, E1.
Qed.

Definition settled (spec : ClaimSpec) (r : option error) w : Prop :=
  cw_keys w = keys0 ∧ match r with
  | None => (cs_Replace spec = true ∨ Forall (λ r, is_claimed r = false) rows0) ∧ ∃ out, evidence spec out w ∧ recorded_as spec out (cw_rows w)
  | Some _ => cw_rows w = rows0 ∨ opened spec (cw_rows w) end.
Lemma guarded_settled spec e w : guarded jobID keys0 wire0 (opened spec) spec w → settled spec (Some e) w.
Proof using. intros [(H1 & H2 & _)|(? & ? & ? & ? & _ & _ & _ & H1 & H2 & _)]; (split; [done|by right]). Qed.
Lemma persist_settled spec out prior : ParseClaimSpec raw = Ok spec → prior !! "claim" = Some (OClaimed out) →
  triple (done_with jobID keys0 wire0 (opened spec) spec out) (claimPersist jobID raw prior)
    (λ r w, match r with Ok _ => settled spec None w | Fail _ => done_with jobID keys0 wire0 (opened spec) spec out w end).
Proof using steady fresh.
  intros Hs Hp w Hd. apply evidence_of in Hd as (Hev & (Hr & now & Hrows) & Hk).
  pose proof (evidence_ledger spec out _ _ (persist_ledger jobID raw prior w) Hev) as Hev'.
  destruct (persist_rows spec out prior now Hs Hp w (conj Hrows Hk)) as [Hk' HQ]. destruct (claimPersist jobID raw prior w) as [[o|e] w']; cbn in *.
  - split; [done|]. split; [done|]. by exists out.
  - apply evidence_rows; [done|]. split; [done|]. by exists now.
Qed.
Lemma steps_settled clusterID spec : ParseClaimSpec raw = Ok spec → triple (quiet' (λ rows, rows = rows0) []) (run_claim_steps (ClaimWorkflow clusterID jobID raw) ∅) (settled spec).
Proof using steady fresh.
  intros Hs. apply (workflow_spec jobID raw keys0 wire0 _ (opened spec) clusterID spec); [done| |apply guarded_settled|].
  - eapply triple_conseq; [by apply claim_validate_spec|done|]. intros [o|e] w Hw; [done|]. destruct Hw as (H1 & H2 & _). split; [done|by left].
  - intros prior out Hp. eapply triple_conseq; [eapply triple_attempts; [by apply persist_settled|done]|done|].
    intros [o|e] w Hw; [done|]. apply evidence_of in Hw as (_ & Ho & Hk). split; [done|by right].
Qed.

Definition ended_text (errMsg : string) : string := if String.eqb errMsg EmptyString then "job ended without recording a backup target" else errMsg.
Definition let_go (row : TargetRow) (at_ : Z) (errMsg : string) : TargetRow :=
  if bool_decide (tr_Status row = TargetPending) then with_target_status TargetFailed (Some (stored_ms at_)) (ended_text errMsg) row else row.
Lemma discard_spec rows : triple (at_rows rows) (k_key (λ flt ks, DiscardStagedClaimKey flt ks jobID)) (λ _ w, cw_rows w = rows ∧ cw_keys w = delete jobID keys0).
Proof using steady. intros w [E1 E2]. unfold k_key, DiscardStagedClaimKey. rewrite steady. cbn. by rewrite E1, E2. Qed.
Lemma where_last rows f row : jobID ∉ tr_JobID <$> rows → job_status jobID TargetPending row = true → target_where (job_status jobID TargetPending) f (rows ++ [row]) = rows ++ [f row].
Proof using.
  intros Hf Hr. unfold target_where. rewrite fmap_app. cbn. rewrite Hr. f_equal. apply map_same. intros r Hin. unfold job_status.
  destruct (String.eqb_spec (tr_JobID r) jobID) as [E|]; [|done]. destruct Hf. rewrite <- E. by apply list_elem_of_fmap_2.
Qed.
Lemma finalize_row rows row errMsg : jobID ∉ tr_JobID <$> rows → tr_JobID row = jobID → triple (at_rows (rows ++ [row])) (finalizeTargetRow jobID errMsg)
  (λ _ w, cw_keys w = delete jobID keys0 ∧ ∃ at_, cw_rows w = rows ++ [let_go row at_ errMsg]).
Proof using steady.
  intros Hf Hj. unfold finalizeTargetRow. eapply triple_bind; [apply discard_spec|]. intros ?.
  apply (triple_bind _ (λ r w, r = Ok (Some row) ∧ cw_rows w = rows ++ [row] ∧ cw_keys w = delete jobID keys0)).
  { apply query_steady. intros w n [E1 E2]. rewrite E1. split; [|done]. unfold GetByJob, query. by rewrite row_last. }
  intros r. apply triple_pure. intros ->. unfold let_go. destruct (bool_decide_reflect (tr_Status row = TargetPending)) as [Hp|Hp].
  - rewrite bool_decide_false by tauto. apply (triple_bind _ (λ _ w, cw_rows w = rows ++ [row] ∧ cw_keys w = delete jobID keys0)); [by intros w|]. intros now.
    apply (triple_bind _ (λ _ w, cw_keys w = delete jobID keys0 ∧ cw_rows w = rows ++ [with_target_status TargetFailed (Some (stored_ms now)) (ended_text errMsg) row])).
    + apply rows_steady. intros w n [E1 E2]. cbn. rewrite E1. split; [done|]. apply where_last; [done|]. unfold job_status. by rewrite Hj, String.eqb_refl, bool_decide_true.
    + intros _ w [E1 E2]. split; [done|]. by exists now.
  - rewrite bool_decide_true by done. intros w [E1 E2]. split; [done|]. by exists 0.
Qed.
Lemma finalize_none errMsg : triple (at_rows rows0) (finalizeTargetRow jobID errMsg) (λ _ w, cw_keys w = delete jobID keys0 ∧ cw_rows w = rows0).
Proof using steady fresh.
  unfold finalizeTargetRow. eapply triple_bind; [apply discard_spec|]. intros ?.
  apply (triple_bind _ (λ r w, r = Ok None ∧ cw_rows w = rows0 ∧ cw_keys w = delete jobID keys0)).
  { apply query_steady. intros w n [E1 E2]. rewrite E1. split; [|done]. unfold GetByJob, query. by rewrite target_row_none. }
  intros r. apply triple_pure. intros ->. by intros w [E1 E2].
Qed.

Lemma custody_same devicePath s key : checkAdoptedKeyCustody devicePath s key = None → markerCarriesWrappings s = true →
  ∃ k, key = Some k ∧ ak_PublicKey k = bk_PublicKey s ∧ ak_WrappedByPassphrase k = bk_WrappedByPassphrase s ∧ ak_WrappedByRecoveryCode k = bk_WrappedByRecoveryCode s.
Proof using.
  unfold checkAdoptedKeyCustody. intros Hc Hm. rewrite Hm in Hc. cbn [negb] in Hc. destruct key as [k|]; [|done]. exists k. destruct (key_present (Some k)); [|done]. cbn [negb] in Hc.
  destruct (same_key k s) eqn:E; [|done]. unfold same_key in E. apply andb_true_iff in E as [[[E1%String.eqb_eq E2%String.eqb_eq]%andb_true_iff E3%String.eqb_eq]%andb_true_iff _]. by split_and!.
Qed.
Lemma evidence_backed spec out w later now : evidence spec out w → ∃ evs, cw_wire w = wire0 ++ evs ∧
  row_backed spec evs (with_claim (claim_result out (keys0 !! jobID) later) (pending_row jobID spec now)).
Proof using.
  intros (H1 & H2 & req & plan & (ack & c & Hin & Hc & _ & _ & Hfp & _ & _ & Hto) & H4 & H5). unfold row_backed. cbn [tr_PartUUID with_claim claim_result cr_PartUUID].
  destruct (cs_Adopt spec).
  - destruct H5 as (iack & Ho & Hpr & Hu & _ & Hk & evs & E & Hn & Hr). exists evs. split; [done|]. split; [by apply no_claims|]. destruct Hto as (_ & _ & s & Hs & Hu' & _ & _ & Hcu).
    exists ack, c, s, iack. split_and!; try done; [apply Hr; by right|rewrite <- Hu'; apply Hr; left|congruence|].
    intros Hm. destruct (custody_same _ _ _ Hcu Hm) as (k & -> & ? & ? & ?). by split_and!.
  - destruct H5 as (cmd & cack & (_ & Hcf & _) & Ho & Hu & _ & Hk & pre & post & E & Hn & Hn' & _). exists (pre ++ WClaim (cs_NodeID spec) cmd (Replied cack) :: post).
    split; [done|]. exists cmd, cack. rewrite filter_app, filter_cons_True, !no_claims by done. split_and!; try done. destruct Hc as (_ & ? & _). congruence.
Qed.
Lemma sole_claimed spec at_ row : cs_Replace spec = true ∨ Forall (λ r, is_claimed r = false) rows0 →
  ∀ r, r ∈ (if cs_Replace spec then superseded at_ rows0 else rows0) ++ [row] → tr_Status r = TargetClaimed → r = row.
Proof using.
  intros Hr r [Hin|Hin]%elem_of_app Hc; [|by apply list_elem_of_singleton in Hin]. exfalso. destruct (cs_Replace spec).
  - apply list_elem_of_fmap in Hin as (r' & -> & _). unfold is_claimed in Hc. by case_bool_decide.
  - destruct Hr as [?|Hr]; [done|]. rewrite Forall_forall in Hr. apply Hr in Hin. unfold is_claimed in Hin. by rewrite bool_decide_true in Hin.
Qed.
End record.
(** C16. A claim asks an agent to format a disk at most once.  It asks only
    after an answer of that agent in which exactly one attached disk has the
    fingerprint the operator confirmed, that disk is not one the machine runs
    from, and either that answer announces no backup set on it and neither adopt
    nor wipe was chosen, or the answer announces one and the operator gave the
    token published for it; the command names that disk and that fingerprint.
    The set is the announced one: an agent that cannot read the marker of a set
    announces none, and such a disk is formatted without a token
    ([unread_set_is_formatted]).  And whatever the agent finds when the command
    arrives, it writes nothing, or it had just seen at that
    path a whole disk with that fingerprint, outside the disks it had resolved
    as its own, none of its partitions mounted except at the agent's own mount
    points, which it had released; all it writes then goes to that disk. *)
Theorem claim_confirmed `{!ClaimEnv} clusterID jobID raw w :
  ∃ evs, cw_wire (exec (run_claim clusterID jobID raw) w) = cw_wire w ++ evs ∧ (length (filter is_claim evs) ≤ 1)%nat ∧
  ∀ node cmd r, WClaim node cmd r ∈ evs → ∃ spec ack c pre post,
    ParseClaimSpec raw = Ok spec ∧ node = cs_NodeID spec ∧ evs = pre ++ WClaim node cmd r :: post ∧ WEnumerate node (Replied ack) ∈ pre ∧ confirmed spec ack c ∧
    cs_Adopt spec = false ∧ agreed spec c ∧ cc_DevicePath cmd = cn_DevicePath c ∧ cc_Fingerprint cmd = cs_Fingerprint spec ∧ EffectivePurpose cmd = StoragePurposeBackup ∧
    ∀ (D : DiskEnv) b, claim_outcome (x_log b) cmd (eval (Claim cmd) b) (exec (Claim cmd) b).
Proof.
  rewrite run_wire. destruct (ParseClaimSpec raw) as [spec|e] eqn:Hs.
  2:{ rewrite (steps_unparsed _ _ _ e Hs). exists []. rewrite app_nil_r. split_and!; [done|cbn; lia|]. by intros ? ? ? ?%elem_of_nil. }
  assert (quiet (cw_keys w) (cw_wire w) (λ _, True) [] w) as Hq by (split_and!; [done..|]; exists []; rewrite app_nil_r; split_and!; [done|constructor|by intros ? ?%elem_of_nil]).
  pose proof (steps_guarded jobID raw (cw_keys w) (cw_wire w) clusterID spec Hs w Hq) as [(_ & _ & evs & E & Hn & _)|(req & plan & cmd & r & Hpl & Ha & Hc & _ & _ & pre & post & E & Hn & Hn' & Hr)].
  { exists evs. split; [exact E|]. split; [rewrite no_claims; [cbn; lia|done]|]. rewrite Forall_forall in Hn. intros node cmd r Hin. by apply Hn in Hin. }
  exists (pre ++ WClaim (cs_NodeID spec) cmd r :: post). split; [exact E|]. split; [rewrite filter_app, filter_cons_True, !no_claims; [cbn; lia|done..]|].
  intros node cmd' r' [Hin|[Heq|Hin]%elem_of_cons]%elem_of_app; [rewrite Forall_forall in Hn; by apply Hn in Hin| |rewrite Forall_forall in Hn'; by apply Hn' in Hin].
  injection Heq as -> -> ->. destruct Hpl as (ack & c & Hin & Hcf & _ & Hdev & Hfp & _ & _ & Hto). rewrite Ha in Hto. destruct Hc as (Hc1 & Hc2 & Hc3).
  exists spec, ack, c, pre, post. split_and!; try done; [by apply Hr|congruence|destruct Hcf as (_ & ? & _); congruence|]. intros D b. apply claim_spec. exists []. rewrite app_nil_r.
  split_and!; [done|constructor|by intros ? ?%elem_of_nil].
Qed.

(** C34. For a database that answers and a job id not in use, a claim that
    ends well has one row, claimed, with the partition id the agent
    acknowledged for the one request to format, or, adopted, with the id and the
    sealed key the disk itself announced and no request to format; it is then
    the only claimed row, the others replaced if it was asked to replace them.
    A claim that fails leaves the other rows as they were and at most a failed
    row with its reason.  Either way the staged key is gone. *)
Theorem claim_recorded `{!ClaimEnv} clusterID jobID raw w : (∀ n, k_fault n = None) → jobID ∉ tr_JobID <$> cw_rows w →
  let w' := exec (run_claim clusterID jobID raw) w in
  cw_keys w' = delete jobID (cw_keys w) ∧
  match eval (run_claim clusterID jobID raw) w with
  | Some e => cw_rows w' = cw_rows w ∨ ∃ spec now at_,
      cw_rows w' = cw_rows w ++ [with_target_status TargetFailed (Some (stored_ms at_)) (ended_text (err_text e)) (pending_row jobID spec now)]
  | None => ∃ spec row at_ evs, ParseClaimSpec raw = Ok spec ∧ cw_rows w' = (if cs_Replace spec then superseded at_ (cw_rows w) else cw_rows w) ++ [row] ∧
      tr_JobID row = jobID ∧ tr_NodeID row = cs_NodeID spec ∧ tr_Status row = TargetClaimed ∧ tr_Adopted row = cs_Adopt spec ∧ tr_PartUUID row ≠ EmptyString ∧
      (∀ r, r ∈ cw_rows w' → tr_Status r = TargetClaimed → r = row) ∧ cw_wire w' = cw_wire w ++ evs ∧ row_backed spec evs row
  end.
Proof.
  intros steady fresh. cbv zeta. unfold run_claim. rewrite eval_bind, exec_bind. set (r := eval (run_claim_steps _ _) w). set (w1 := exec (run_claim_steps _ _) w).
  rewrite eval_bind, exec_bind, eval_ret, exec_ret. set (msg := match r with Some e => err_text e | None => EmptyString end). set (w' := exec (finalizeTargetRow jobID msg) w1).
  assert (cw_wire w' = cw_wire w1) as Ew by apply (finalize_off_wire jobID msg w1).
  destruct (ParseClaimSpec raw) as [spec|e] eqn:Hs; cycle 1.
  { assert (w1 = w) as -> by (by apply (steps_unparsed _ _ _ e)). assert (∃ e, r = Some e) as [e' ->].
    { unfold r, eval, ClaimWorkflow. cbn [run_claim_steps cst_Do cst_Retries cst_Name claim_attempts]. unfold claimValidate. rewrite Hs. by eexists. }
    destruct (finalize_none steady jobID (cw_rows w) (cw_keys w) fresh msg w (conj eq_refl eq_refl)) as [E1 E2]. split; [done|]. by left. }
  assert (quiet (cw_keys w) (cw_wire w) (λ rows, rows = cw_rows w) [] w) as Hq by (split_and!; [done..|]; exists []; rewrite app_nil_r; split_and!; [done|constructor|by intros ? ?%elem_of_nil]).
  destruct (steps_settled steady jobID raw (cw_rows w) (cw_keys w) (cw_wire w) fresh clusterID spec Hs w Hq) as [Hk Hset]. fold (eval (run_claim_steps (ClaimWorkflow clusterID jobID raw) ∅) w) in Hset. fold r in Hset. fold (exec (run_claim_steps (ClaimWorkflow clusterID jobID raw) ∅) w) in Hk, Hset. fold w1 in Hk, Hset.
  destruct r as [e|].
  - destruct Hset as [Hrows|(_ & now & Hrows)].
    + destruct (finalize_none steady jobID (cw_rows w) (cw_keys w) fresh msg w1 (conj Hrows Hk)) as [E1 E2]. split; [done|]. by left.
    + destruct (finalize_row steady jobID (cw_keys w) (cw_rows w) (pending_row jobID spec now) msg fresh eq_refl w1 (conj Hrows Hk)) as [E1 [at_ E2]]. split; [done|]. right. by exists spec, now, at_.
  - destruct Hset as (Hr & out & Hev & now & at_ & later & Hrows). pose proof Hev as (Hne & Had & _).
    destruct (evidence_backed jobID (cw_keys w) (cw_wire w) spec out w1 later now Hev) as (evs & Ewire & Hb).
    assert (jobID ∉ tr_JobID <$> (if cs_Replace spec then superseded at_ (cw_rows w) else cw_rows w)) as Hf by (destruct (cs_Replace spec); [by rewrite superseded_ids|done]).
    destruct (finalize_row steady jobID (cw_keys w) _ (with_claim (claim_result out (cw_keys w !! jobID) later) (pending_row jobID spec now)) msg Hf eq_refl w1 (conj Hrows Hk)) as [E1 [at' E2]]. split; [done|]. change (snd (finalizeTargetRow jobID msg w1)) with w' in E2.
    eexists spec, _, at_, evs. split; [done|]. split; [exact E2|]. split_and!; try done; [|by rewrite Ew]. intros r. rewrite E2. by apply sole_claimed.
Qed.

(** ** A claim in the concrete *)
Module ClaimDemo.
Definition fields (l : list string) : string := Join l " ".
Definition mountinfo : string := fields ["22"; "1"; "8:1"; "/"; "/"; "rw"; "-"; "ext4"; "/dev/sda1"; "rw"].
Definition sysfs : Sysfs := {|
  sy_eval p := if String.eqb p "/sys/dev/block/8:1" then Ok "/sys/devices/block/sda/sda1" else Fail (errors_New "no such file");
  sy_slaves _ := Ok []; sy_partition d := String.eqb d "/sys/devices/block/sda/sda1" |}.
Definition part (name label mountpoint : string) : lsblkDevice := mkBlk name name EmptyString "part" 900 EmptyString EmptyString EmptyString EmptyString false "ext4" label "c1-01" mountpoint [].
Definition disk (name serial : string) (parts : list lsblkDevice) : lsblkDevice :=
  mkBlk name name EmptyString "disk" 1000 "SSD" serial EmptyString "usb" true EmptyString EmptyString EmptyString EmptyString parts.
Definition stick : lsblkDevice := disk "sdb" "S2" [part "sdb1" "RASPUTIN-BACKUP" EmptyString].
(** A machine, by the file at the root of the disk. *)
Definition machine (marker : result string) : DiskEnv := {|
  d_sha256 s := s; d_mountinfo _ := Ok mountinfo; d_sysfs _ := sysfs;
  d_lsblk _ dev := if String.eqb dev EmptyString then Ok [disk "sda" "S1" [part "sda1" "root" "/"]; stick] else Ok [stick];
  d_run _ _ := None; d_mkdirTemp _ := Ok "/tmp/peek"; d_mkdirAll _ := None; d_blkid _ _ := Ok "c1-02"; d_file _ _ := marker;
  d_backup_json s := Ok (mkBackupSet 1 "other" s EmptyString EmptyString EmptyString EmptyString EmptyString "old" 0 0);
  d_data_json _ := Fail (errors_New "no data marker"); d_generations _ _ := Ok 3; d_writeMarker _ := None; d_usage _ _ := Ok (0, 0); d_clock _ := 7;
  d_partprobe := true; d_udevadm := true |}.
Definition idle : Box := mkBox 0 [].
Definition shown (D : DiskEnv) : StorageEnumerateAck := eval handle_enumerate idle.
(** The api beside that machine. *)
Definition api (D : DiskEnv) (spec : ClaimSpec) : ClaimEnv := {|
  k_fault _ := None; k_clock _ := 5; k_node _ id := Ok (Some (mkInvNode id "controlplane" "cp" "2026.09.1"));
  k_enumerate _ _ := Replied (shown D); k_claim _ _ cmd := Replied (eval (handle_claim cmd) idle); k_inspect _ _ _ := NoReply (errors_New "timeout");
  k_spec _ := Ok spec; k_inline _ := false; k_spec_json _ := Ok EmptyString; k_key_ok _ := None; k_sha256 s := s;
  k_wipe_json _ fp wwn serial _ _ := Ok (wwn +:+ serial) |}.
Definition fingerprint (D : DiskEnv) : string := blk_fingerprint stick.
Definition spec_for (D : DiskEnv) (wipe : option string) : ClaimSpec := mkClaimSpec "cp" "/dev/sdb" (fingerprint D) "weekly" true false wipe EmptyString.
Definition old_row : TargetRow := with_target_status TargetClaimed (Some 1) EmptyString (pending_row "J0" (mkClaimSpec "cp" "/dev/sdz" EmptyString "old" false false None EmptyString) 1).
Definition before : CW := mkCW [old_row] ∅ [] 0.
Definition marked : DiskEnv := machine (Ok "c1-01").
Definition wiping : ClaimEnv := api marked (spec_for marked (Some "wipe-S2")).
Definition claims (w : CW) : nat := length (filter is_claim (cw_wire w)).
End ClaimDemo.
Definition ClaimDemo_end : CW := Eval vm_compute in exec (@run_claim ClaimDemo.wiping "cluster" "J1" EmptyString) ClaimDemo.before.
Lemma ClaimDemo_runs : @run_claim ClaimDemo.wiping "cluster" "J1" EmptyString ClaimDemo.before = (None, ClaimDemo_end).
Proof. by vm_compute. Qed.
Lemma claim_recorded_witness :
  ∃ row, row ∈ cw_rows ClaimDemo_end ∧ tr_JobID row = "J1" ∧ tr_Status row = TargetClaimed ∧ (∀ r, r ∈ cw_rows ClaimDemo_end → tr_Status r = TargetClaimed → r = row) ∧
    row_backed (ClaimDemo.spec_for ClaimDemo.marked (Some "wipe-S2")) (cw_wire ClaimDemo_end) row.
Proof.
  assert ("J1" ∉ tr_JobID <$> cw_rows ClaimDemo.before) as Hf by (intros [E|E%elem_of_nil]%elem_of_cons; done).
  pose proof (@claim_recorded ClaimDemo.wiping "cluster" "J1" EmptyString ClaimDemo.before (λ _, eq_refl) Hf) as [_ Hr].
  unfold eval, exec in Hr. rewrite ClaimDemo_runs in Hr. cbn [fst snd] in Hr. destruct Hr as (spec & row & at_ & evs & Hs & Hrows & Hj & _ & Hst & _ & _ & Hone & Hw & Hb).
  exists row. split; [rewrite Hrows; apply elem_of_app; right; by apply list_elem_of_singleton|]. split_and!; [done..|].
  assert (@ParseClaimSpec ClaimDemo.wiping EmptyString = Ok (ClaimDemo.spec_for ClaimDemo.marked (Some "wipe-S2"))) as Hp by (by vm_compute).
  rewrite Hp in Hs. injection Hs as <-. change (cw_wire ClaimDemo.before) with (@nil ClaimWire) in Hw. by rewrite Hw.
Defined.

(** Without the token of the set on it, the disk is not formatted. *)
Example set_needs_its_token :
  let '(e, w) := @run_claim (ClaimDemo.api ClaimDemo.marked (ClaimDemo.spec_for ClaimDemo.marked None)) "cluster" "J1" EmptyString ClaimDemo.before in
  is_Some e ∧ ClaimDemo.claims w = 0%nat ∧ tr_Status <$> cw_rows w = [TargetClaimed; TargetFailed].
Proof. vm_compute. split; [by eexists|done]. Qed.
(** A set whose marker cannot be read is not announced: the same claim, with no
    token, formats the disk that carries it. *)
Example unread_set_is_formatted :
  let D := ClaimDemo.machine (Fail (errors_New "read: input/output error")) in
  let '(e, w) := @run_claim (ClaimDemo.api D (ClaimDemo.spec_for D None)) "cluster" "J1" EmptyString ClaimDemo.before in
  e = None ∧ ClaimDemo.claims w = 1%nat ∧
  (λ c, (pt_Label <$> cn_Partitions c, cn_HasBackupSet c)) <$> ea_Candidates (ClaimDemo.shown D) = [(["root"], false); (["RASPUTIN-BACKUP"], false)].
Proof. by vm_compute. Qed.
