(* ===== verification/StorageHealth.v ===== *)
(** * The health of a claimed target

    agent/internal/storage/health.go and the inspect handler, and
    api/internal/storage/target_health.go with the health columns of store.go:
    the probe an agent writes, the verdict the api reads out of its answer, and
    the poll that records it beside the claim.  The world of a claim
    (StorageClaim) is extended with the columns and with what was asked.  The
    inventory's account of a silent node is a parameter; a probe that outlives
    its budget is taken to finish; the sentence that describes a health record
    is left out. *)
From Stdlib Require Import Ascii String.
From S2P Require Import Prelude GoStrings GoRunes GoPath GoDuration Ledger NodeUpdateStore Releases BackupMembers BackupEstimate BackupFanOut BackupRuns BackupTarget BackupRun StorageDisk StorageClaim StorageClaimFacts.
Open Scope string_scope.
Open Scope list_scope.
Open Scope Z_scope.
#[local] Arguments String.eqb : simpl never.
#[local] Arguments String.append : simpl nomatch.

(** ** The write probe, on the agent *)
Definition writeProbeBytes : Z := 4096.
Definition writeProbeBudget : Z := 20 * Second.
Definition StorageHealthProbeDir : string := ".rasputin-health".
Record StorageWriteProbe := mkWriteProbe { wp_OK : bool; wp_Detail : string; wp_DurationMs : Z }.
(** The files of the probe directory, and the calls made. *)
Inductive ProbeCall := PMkdir | PReaddir | PRemove (name : string) | PCreate (name : string) | PWrite | PSync | PClose | PRead (name : string) | PSyncDir.
Record Medium := mkMedium { md_files : gmap string string; md_calls : list (ProbeCall * bool); md_tick : nat }.
Class ProbeEnv := {
  p_fail : nat → option error;
  p_random : nat → result string;          (* crypto/rand: the name's suffix, the payload *)
  p_back : nat → string → string;          (* what the medium gives back for what it holds *)
  p_late : nat → bool;                     (* the budget ran out first *)
  p_clock : nat → Z }.

Section probe.
Context `{!ProbeEnv}.
#[local] Abbreviation MP := (M Medium).
Definition p_look {A} (f : nat → A) : MP A := λ s, (f (md_tick s), mkMedium (md_files s) (md_calls s) (S (md_tick s))).
(** A call that does [f] unless it fails. *)
Definition p_call (c : ProbeCall) (f : gmap string string → gmap string string) : MP (option error) := λ s,
  match p_fail (md_tick s) with
  | Some e => (Some e, mkMedium (md_files s) (md_calls s ++ [(c, false)]) (S (md_tick s)))
  | None => (None, mkMedium (f (md_files s)) (md_calls s ++ [(c, true)]) (S (md_tick s)))
  end.
Definition probe_remove (name : string) : MP (option error) := p_call (PRemove name) (delete name).
Definition p_try (text : string) (m : MP (option error)) (undo : MP unit) (k : MP (option error)) : MP (option error) :=
  e ← m; match e with None => k | Some e => _ ← undo; mret (Some (wrapped text e)) end.
Definition os_exists : error := errors_New "file exists".
Definition p_create (name : string) : MP (option error) := λ s,
  if bool_decide (md_files s !! name = None) then p_call (PCreate name) <[name := EmptyString]> s
  else (Some os_exists, mkMedium (md_files s) (md_calls s ++ [(PCreate name, false)]) (S (md_tick s))).
Definition p_read (name : string) : MP (result string) := λ s,
  match p_fail (md_tick s) with
  | Some e => (Fail e, mkMedium (md_files s) (md_calls s ++ [(PRead name, false)]) (S (md_tick s)))
  | None => (Ok (p_back (md_tick s) (default EmptyString (md_files s !! name))), mkMedium (md_files s) (md_calls s ++ [(PRead name, true)]) (S (md_tick s)))
  end.
Definition sweepProbeDir : MP unit :=
  e ← p_call PReaddir (λ m, m);
  match e with
  | Some _ => mret tt
  | None =>
      files ← (λ s, (md_files s, s));
      for_each (λ name, _ ← probe_remove name; mret tt) (filter (λ n, HasPrefix n "probe-" = true) (fst <$> map_to_list files))
  end.
Definition writeProbeOnce (mountPath : string) : MP (option error) :=
  let dir := filepath_Join [mountPath; StorageHealthProbeDir] in
  let none : MP unit := mret tt in
  p_try ("create " +:+ dir) (p_call PMkdir (λ m, m)) none (
  _ ← sweepProbeDir;
  suffix ← p_look p_random;
  match suffix with
  | Fail e => mret (Some (wrapped "random probe name" e))
  | Ok suffix =>
      let name := "probe-" +:+ suffix in
      let undo : MP unit := _ ← probe_remove name; mret tt in
      payload ← p_look p_random;
      match payload with
      | Fail e => mret (Some (wrapped "random probe payload" e))
      | Ok payload =>
          p_try "create probe file" (p_create name) none (
          p_try "write probe file" (p_call PWrite <[name := payload]>) (_ ← p_call PClose (λ m, m); undo) (
          p_try "fsync probe file" (p_call PSync (λ m, m)) (_ ← p_call PClose (λ m, m); undo) (
          p_try "close probe file" (p_call PClose (λ m, m)) undo (
          back ← p_read name;
          match back with
          | Fail e => _ ← undo; mret (Some (wrapped "read probe file back" e))
          | Ok back =>
              if negb (String.eqb back payload) then
                _ ← undo; mret (Some (errors_New "the probe file read back differs from what was written — the disk is returning wrong data"))
              else
                p_try "delete probe file" (probe_remove name) none (
                p_try ("fsync " +:+ dir) (p_call PSyncDir (λ m, m)) none (mret None))
          end))))
      end
  end).
Definition Milliseconds (d : Z) : Z := Z.quot d Millisecond.
Definition WriteProbe (mountPath : string) : MP StorageWriteProbe :=
  started ← p_look p_clock;
  if String.eqb (Trim mountPath) EmptyString then mret (mkWriteProbe false "no mount path to probe" 0)
  else
    e ← writeProbeOnce mountPath;
    late ← p_look p_late;
    now ← p_look p_clock;
    let took := Milliseconds (time_Sub now started) in
    mret (if late : bool then mkWriteProbe false ("the write probe did not complete within " +:+ Duration_String writeProbeBudget +:+
             " — the disk is not taking writes in any useful time") took
          else match e with
               | Some e => mkWriteProbe false (err_text e) took
               | None => mkWriteProbe true ("wrote, fsynced, read back and deleted a " +:+ pretty writeProbeBytes +:+ "-byte file under " +:+
                   filepath_Join [mountPath; StorageHealthProbeDir] +:+ " in " +:+ pretty took +:+ " ms") took
               end).
End probe.

(** ** The answer to an inspect, with the probe's finding *)
#[local] Abbreviation InspectReply := (StorageInspectAck * option StorageWriteProbe)%type.
Definition handle_inspect `{!DiskEnv} (wp : string → StorageWriteProbe) (probe : bool) (partUUID : string) : M Box InspectReply :=
  r ← Inspect partUUID;
  mret match r with
       | Fail e => (mkInspectAck false partUUID EmptyString EmptyString EmptyString EmptyString false 0 0 None None (refusalFor e) (err_text e), None)
       | Ok ack => (ack, if probe && ia_OK ack && ia_Present ack && negb (String.eqb (ia_MountPath ack) EmptyString) then Some (wp (ia_MountPath ack)) else None)
       end.

(** ** Health, and its columns *)
Definition BackupTargetHealthUnknown : string := "unknown".
Definition BackupTargetHealthOK : string := "ok".
Definition BackupTargetHealthUnmounted : string := "unmounted".
Definition BackupTargetHealthUnwritable : string := "unwritable".
Definition BackupTargetHealthUnreachable : string := "unreachable".
Definition BackupTargetHealthInterval : Z := 5 * Minute.
Record BackupTargetHealth := mkTargetHealth { bh_State : string; bh_CheckedAt : Z; bh_Since : Z; bh_Detail : string; bh_ProbeDurationMs : Z }.
Record HealthCols := mkHealthCols { hc_state : string; hc_checked_at : option Z; hc_since : option Z; hc_detail : string; hc_probe_ms : Z }.
(** As a row is read: a claimed one has a health, checked or not. *)
Definition scan_health (t : TargetRow) (c : option HealthCols) : option BackupTargetHealth :=
  if negb (bool_decide (tr_Status t = TargetClaimed)) then None
  else
    let unchecked := mkTargetHealth BackupTargetHealthUnknown zeroTime zeroTime
      ("not checked yet — the first health check runs within " +:+ Duration_String BackupTargetHealthInterval +:+ " of the api starting") 0 in
    Some match c with
         | Some c =>
             match hc_checked_at c with
             | Some at_ =>
                 if String.eqb (hc_state c) EmptyString then unchecked
                 else mkTargetHealth (hc_state c) (fromMillis at_) (fromMillis (default at_ (hc_since c))) (hc_detail c) (hc_probe_ms c)
             | None => unchecked
             end
         | None => unchecked
         end.

(** ** The world *)
Inductive HealthWire := HInspect (nodeID partUUID : string) (r : Reply InspectReply).
(** The columns are kept by the row's job. *)
Record HW := mkHW { hw_claims : CW; hw_cols : gmap string HealthCols; hw_asked : list HealthWire }.
Class HealthEnv := {
  h_inspect : nat → string → string → Reply InspectReply;
  h_silence : nat → string → string }.     (* inventory.ExplainNoResponder *)
#[local] Abbreviation rows_of w := (cw_rows (hw_claims w)).

Section health.
Context `{!ClaimEnv, !HealthEnv}.
#[local] Abbreviation MH := (M HW).
Definition in_claims {A} (m : M CW A) : MH A := λ w, let '(a, c) := m (hw_claims w) in (a, mkHW c (hw_cols w) (hw_asked w)).
Definition read_cols : MH (gmap string HealthCols) := λ w, (hw_cols w, w).
Definition set_cols (jobID : string) (c : HealthCols) : MH unit := modify (λ w, mkHW (hw_claims w) (<[jobID := c]> (hw_cols w)) (hw_asked w)).
(** A statement on the columns. *)
Definition h_stmt (run : MH unit) : MH (option error) :=
  flt ← in_claims (k_look k_fault); match flt with Some e => mret (Some e) | None => _ ← run; mret None end.

Definition with_cols (cols : gmap string HealthCols) (t : TargetRow) : TargetRow * option BackupTargetHealth := (t, scan_health t (cols !! tr_JobID t)).
(** [UPDATE … WHERE job_id = ? AND status = 'claimed'] *)
Definition update_health (jobID : string) (c : HealthCols) : MH unit :=
  rows ← (λ w, (rows_of w, w)); if existsb (job_status jobID TargetClaimed) rows then set_cols jobID c else mret tt.
Definition RecordHealth (partUUID : string) (h : BackupTargetHealth) : MH (BackupTargetHealth * option error) :=
  if String.eqb (bh_State h) EmptyString || String.eqb (bh_State h) BackupTargetHealthUnknown then
    mret (h, Some (errors_New "a health check that records nothing is not a check: state is required and may not be unknown"))
  else
    now ← (if bh_CheckedAt h =? zeroTime then in_claims (k_look k_clock) else mret (bh_CheckedAt h));
    let checked := stored_ms now in
    let at_check := mkTargetHealth (bh_State h) checked (bh_Since h) (bh_Detail h) (bh_ProbeDurationMs h) in
    prev ← in_claims (k_query (λ flt s, GetByPartUUID flt s partUUID));
    match prev with
    | Fail e => mret (at_check, Some e)
    | Ok None => mret (at_check, Some (errors_New "no claimed backup target with that partition UUID"))
    | Ok (Some prev) =>
        cols ← read_cols;
        let since := match snd (with_cols cols prev) with
                     | Some p => if String.eqb (bh_State p) (bh_State h) && negb (bh_Since p =? zeroTime) then bh_Since p else checked
                     | None => checked end in
        let h := mkTargetHealth (bh_State h) checked since (bh_Detail h) (bh_ProbeDurationMs h) in
        e ← h_stmt (update_health (tr_JobID prev) (mkHealthCols (bh_State h) (Some (tsMillis checked)) (Some (tsMillis since)) (bh_Detail h) (bh_ProbeDurationMs h)));
        mret (h, e)
    end.
Record HealthReport := mkHealthReport { hr_PartUUID : string; hr_Label : string; hr_NodeID : string; hr_Health : BackupTargetHealth }.
Definition ClaimedTargetHealth : MH (result (list HealthReport)) :=
  claimed ← in_claims (k_query ListClaimed);
  match claimed with
  | Fail e => mret (Fail e)
  | Ok claimed =>
      cols ← read_cols;
      mret (Ok (omap (λ t, (λ h, mkHealthReport (tr_PartUUID t) (tr_Label t) (tr_NodeID t) h) <$> snd (with_cols cols t)) claimed))
  end.

(** ** The verdict *)
Definition StorageInspectWork : Z := 60 * Second.
Definition rpcSlack : Z := 15 * (60 * Second) / 100.
Definition inspectWithProbe (nodeID partUUID : string) : MH (result InspectReply) :=
  r ← in_claims (k_look (λ n, h_inspect n nodeID partUUID));
  _ ← modify (λ w, mkHW (hw_claims w) (hw_cols w) (hw_asked w ++ [HInspect nodeID partUUID r]));
  mret match r with NoReply e => Fail e | BadReply e => Fail (wrapped "unreadable reply" e) | Replied ack => Ok ack end.
Definition explainSilence (inv : bool) (nodeID : string) (e : error) : MH string :=
  let head := "no answer from the agent on " +:+ nodeID +:+ " to storage.inspect within " +:+ Duration_String (Truncate (StorageInspectWork + rpcSlack) Second) in
  if errors_Is e "nats.ErrNoResponders" || errors_Is e "context.DeadlineExceeded" then
    if inv then d ← in_claims (k_look (λ n, h_silence n nodeID)); mret (head +:+ ": " +:+ d) else mret head
  else mret (head +:+ ": " +:+ err_text e).
Definition StorageInspectProbeMinAgentVersion : string := "2026.08.5-dev.144".
Definition explainNoProbe (inv : bool) (nodeID : string) : MH string :=
  let floor := "v" +:+ StorageInspectProbeMinAgentVersion in
  let bare := "the agent on " +:+ nodeID +:+ " answered without one (first probed by agent " +:+ floor +:+ ")" in
  if negb inv then mret bare
  else
    node ← in_claims (k_look (λ n, k_node n nodeID));
    mret match node with
         | Ok (Some node) =>
             let v := TrimPrefix (Trim (in_AgentVersion node)) "v" in
             if String.eqb v EmptyString then "the agent on " +:+ nodeID +:+ " never reported a version and answered without one (first probed by agent " +:+ floor +:+ ")"
             else if match Compare SchemeCalVer v StorageInspectProbeMinAgentVersion with Ok c => c <? 0 | Fail _ => false end then
               "the agent on " +:+ nodeID +:+ " (v" +:+ v +:+ ") predates the write probe; update the node to ≥ " +:+ floor
             else "the agent on " +:+ nodeID +:+ " (v" +:+ v +:+ ") should have probed and did not"
         | _ => bare
         end.
Definition describeCandidate (c : StorageCandidate) : string :=
  let parts := (if filled (cn_Model c) then [cn_Model c] else []) ++ (if filled (cn_Serial c) then ["serial " +:+ cn_Serial c] else []) ++
               (if 0 <? cn_SizeBytes c then [humanBytes (cn_SizeBytes c)] else []) in
  if bool_decide (parts = []) then "no model, serial or size reported" else Join parts ", ".
Definition whatIsAtTheOldPath (target : TargetRow) : MH string :=
  let path := Trim (tr_DevicePath target) in
  if String.eqb path EmptyString then mret "no device path was recorded at claim time, so nothing was looked for in its place"
  else
    ack ← in_claims (api_Enumerate (tr_NodeID target));
    mret match ack with
         | Fail e => "what is at " +:+ path +:+ " now could not be determined (" +:+ err_text e +:+ ")"
         | Ok ack =>
             match head (filter (λ c, cn_DevicePath c = path) (ea_Candidates ack)) with
             | None => "nothing is attached at " +:+ path +:+ " either"
             | Some c =>
                 let desc := describeCandidate c in
                 if String.eqb (tr_Fingerprint target) EmptyString then
                   "a disk is at " +:+ path +:+ " now (" +:+ desc +:+ ") but the claim recorded no fingerprint to compare it against"
                 else if negb (String.eqb (cn_Fingerprint c) (tr_Fingerprint target)) then
                   "a DIFFERENT disk is at " +:+ path +:+ " now (" +:+ desc +:+ "; fingerprint " +:+ ShortFingerprint (cn_Fingerprint c) +:+ " ≠ the claimed " +:+
                   ShortFingerprint (tr_Fingerprint target) +:+ ") — not the claimed target, and nothing will be written to it"
                 else "the disk at " +:+ path +:+ " fingerprints as the claimed one (" +:+ desc +:+ ") but no longer carries the partition — its partition table changed underneath the claim"
             end
         end.
Definition where_it_is (target : TargetRow) (ack : StorageInspectAck) : string :=
  "attached to " +:+ tr_NodeID target +:+ " as " +:+ firstNonEmpty [ia_DevicePath ack; "?"] +:+ ", mounted at " +:+ firstNonEmpty [ia_MountPath ack; "?"] +:+
  (if 0 <? ia_TotalBytes ack then ", " +:+ humanBytes (ia_FreeBytes ack) +:+ " free of " +:+ humanBytes (ia_TotalBytes ack) else EmptyString).
(** A disk that is there and mounted. *)
Definition mounted_health (inv : bool) (now : Z) (target : TargetRow) (ack : StorageInspectAck) (probe : option StorageWriteProbe) : MH BackupTargetHealth :=
  let place := where_it_is target ack in
  let found state detail ms := mkTargetHealth state now zeroTime detail ms in
  match ia_BackupSet ack with
  | None => mret (found BackupTargetHealthMissing (place +:+ "; but it carries no readable " +:+ StorageMarkerFile +:+
      " marker — by its own account it is not the claimed target, and nothing will be written to it") 0)
  | Some s =>
      if negb (String.eqb (Trim (bk_PartUUID s)) EmptyString) && negb (String.eqb (bk_PartUUID s) (tr_PartUUID target)) then
        mret (found BackupTargetHealthMissing (place +:+ "; but its marker names partition " +:+ bk_PartUUID s +:+ ", not " +:+ tr_PartUUID target +:+
          " — a different backup set, and nothing will be written to it") 0)
      else match probe with
           | None => d ← explainNoProbe inv (tr_NodeID target); mret (found BackupTargetHealthOK (place +:+ "; write probe NOT performed — " +:+ d) 0)
           | Some p =>
               if negb (wp_OK p) then mret (found BackupTargetHealthUnwritable (place +:+ "; write probe FAILED: " +:+ wp_Detail p) (wp_DurationMs p))
               else mret (found BackupTargetHealthOK (place +:+ "; " +:+ wp_Detail p) (wp_DurationMs p))
           end
  end.
(** The bus and the inventory may be absent. *)
Definition ProbeTarget (nc inv : bool) (target : TargetRow) : MH BackupTargetHealth :=
  now ← in_claims (k_look k_clock);
  let found state detail := mkTargetHealth state now zeroTime detail 0 in
  if String.eqb (Trim (tr_PartUUID target)) EmptyString then
    mret (found BackupTargetHealthMissing "the claimed target has no partition UUID recorded, which is the only identifier a target has; nothing can be looked for. Re-claim the disk")
  else if negb nc then mret (found BackupTargetHealthUnreachable "this api has no bus connection, so the node holding the target could not be asked")
  else
    r ← inspectWithProbe (tr_NodeID target) (tr_PartUUID target);
    match r with
    | Fail e => d ← explainSilence inv (tr_NodeID target) e; mret (found BackupTargetHealthUnreachable d)
    | Ok (ack, probe) =>
        if negb (ia_Present ack) then
          d ← whatIsAtTheOldPath target;
          mret (found BackupTargetHealthMissing ("nothing attached to " +:+ tr_NodeID target +:+ " carries partition UUID " +:+ tr_PartUUID target +:+
            (if filled (ia_Detail ack) && negb (String.eqb (ia_Detail ack) "no attached disk carries that partition UUID") then " (" +:+ ia_Detail ack +:+ ")" else EmptyString) +:+
            "; " +:+ d))
        else if negb (ia_OK ack) then
          mret (found BackupTargetHealthUnmounted ((if filled (ia_Detail ack) then ia_Detail ack
            else "the partition is attached to " +:+ tr_NodeID target +:+ " but could not be mounted") +:+
            (if filled (ia_Refusal ack) then " [" +:+ ia_Refusal ack +:+ "]" else EmptyString)))
        else mounted_health inv now target ack probe
    end.

(** ** The poll *)
Definition CheckTarget (nc inv : bool) (target : TargetRow) : MH (BackupTargetHealth * option error) :=
  h ← ProbeTarget nc inv target; RecordHealth (tr_PartUUID target) h.
Record targetHealthLine := mkHealthLine { hl_PartUUID : string; hl_Label : string; hl_NodeID : string; hl_State : string; hl_Since : Z; hl_Detail : string }.
Fixpoint probe_each (nc inv : bool) (l : list TargetRow) : MH (list targetHealthLine * option error) :=
  match l with
  | [] => mret ([], None)
  | t :: l =>
      r ← CheckTarget nc inv t;
      rest ← probe_each nc inv l;
      mret match snd r with
           | Some e => (fst rest, Some e)
           | None => (mkHealthLine (tr_PartUUID t) (tr_Label t) (tr_NodeID t) (bh_State (fst r)) (bh_Since (fst r)) (bh_Detail (fst r)) :: fst rest, snd rest)
           end
  end.
(** The lines, and the first error. *)
Definition targetHealthProbe (nc inv : bool) : MH (result (list targetHealthLine * option error)) :=
  claimed ← in_claims (k_query ListClaimed);
  match claimed with
  | Fail e => mret (Fail (wrapped "claimed targets" e))
  | Ok claimed => r ← probe_each nc inv claimed; mret (Ok r)
  end.
Definition TargetHealthDue : MH (bool * string) :=
  claimed ← in_claims (k_query ListClaimed);
  mret match claimed with
       | Fail e => (false, "could not read claimed targets: " +:+ err_text e)
       | Ok claimed => (bool_decide (claimed ≠ []), EmptyString)
       end.
End health.

(** ** A probe that passes *)
Section passed.
Context `{!ProbeEnv}.
#[local] Abbreviation MP := (M Medium).
Definition did (l : list ProbeCall) (s : Medium) : Prop := ∀ c, c ∈ l → (c, true) ∈ md_calls s.
(** [Q] is only promised of an answer without an error. *)
Definition passes (P : Medium → Prop) (m : MP (option error)) (Q : Medium → Prop) : Prop := triple P m (λ e s, e = None → Q s).
Lemma did_more l s f n c (b : bool) : did l s → did (if b then c :: l else l) (mkMedium f (md_calls s ++ [(c, b)]) n).
Proof using. intros Hs x Hx. cbn. apply elem_of_app. destruct b; [|left; auto]. apply elem_of_cons in Hx as [->|Hx]; [right; by apply list_elem_of_singleton|left; auto]. Qed.
Lemma call_passes l c f : passes (did l) (p_call c f) (did (c :: l)).
Proof using. intros s Hs. unfold p_call. destruct (p_fail _); [done|]. intros _. by apply (did_more l s _ _ c true). Qed.
Lemma create_passes l name : passes (did l) (p_create name) (did (PCreate name :: l)).
Proof using. intros s Hs. unfold p_create. case_bool_decide; [by apply call_passes|done]. Qed.
Lemma try_passes (P R Q : Medium → Prop) text m undo k : passes P m R → passes R k Q → passes P (p_try text m undo k) Q.
Proof using.
  intros Hm Hk. unfold p_try. eapply triple_bind; [exact Hm|]. intros [e|]; cbn beta; [intros s _; rewrite bind_run; done|]. intros s Hs. apply Hk. by apply Hs.
Qed.
Lemma call_keeps l c f : preserves (did l) (p_call c f).
Proof using. intros s Hs. unfold p_call. destruct (p_fail _); [exact (did_more l s _ _ c false Hs)|]. intros x Hx. apply (did_more l s _ _ c true Hs). by right. Qed.
#[local] Hint Resolve call_keeps : triples.
Lemma sweep_keeps l : preserves (did l) sweepProbeDir.
Proof using. unfold sweepProbeDir, probe_remove. apply preserves_bind; [apply call_keeps|]. intros [e|]; [by intros s|]. apply preserves_bind; [by intros s|]. intros files. preserve. Qed.
(** The file was created, written, synced, read back as it was, deleted, and
    the directory synced. *)
Lemma probe_passed mountPath : passes (λ _, True) (writeProbeOnce mountPath) (λ s, ∃ name, did [PSyncDir; PRemove name; PRead name; PSync; PWrite; PCreate name] s).
Proof using.
  unfold writeProbeOnce. cbv zeta. apply (try_passes _ (did [PMkdir])); [intros s _; apply (call_passes [] PMkdir); by intros ? ?%elem_of_nil|].
  eapply (triple_bind _ (λ _, did [PMkdir])); [apply sweep_keeps|]. intros _. apply (triple_bind _ (λ _, did [PMkdir])); [by intros s|]. intros [suffix|e]; [|by intros s].
  set (name := "probe-" +:+ suffix). apply (triple_bind _ (λ _, did [PMkdir])); [by intros s|]. intros [payload|e]; [|by intros s].
  eapply try_passes; [apply create_passes|]. eapply try_passes; [apply call_passes|]. eapply try_passes; [apply call_passes|]. eapply try_passes; [apply call_passes|].
  set (l := [PClose; PSync; PWrite; PCreate name; PMkdir]).
  apply (triple_bind _ (λ r s, match r with Ok _ => did (PRead name :: l) s | Fail _ => True end)).
  { intros s Hs. unfold p_read. destruct (p_fail _); [done|]. by apply (did_more l s _ _ (PRead name) true). }
  intros [back|e]; [|intros s _; rewrite bind_run; done]. destruct (String.eqb back payload); cbn [negb]; [|intros s _; rewrite bind_run; done].
  eapply try_passes; [apply call_passes|]. eapply try_passes; [apply call_passes|]. intros s Hs _. exists name. intros c Hc. apply Hs. unfold l. set_solver.
Qed.
End passed.

(** ** Keys of a list *)
Lemma key_inj {A} (f : A → string) (l : list A) x y : NoDup (f <$> l) → x ∈ l → y ∈ l → f x = f y → x = y.
Proof.
  induction l as [|z l IH]; [by intros _ ?%elem_of_nil|]. rewrite fmap_cons, NoDup_cons. intros [Hz Hn] [->|Hx]%elem_of_cons [->|Hy]%elem_of_cons E; [done| | |by apply IH].
  - destruct Hz. rewrite E. by apply list_elem_of_fmap_2.
  - destruct Hz. rewrite <- E. by apply list_elem_of_fmap_2.
Qed.
Lemma key_filter {A} (f : A → string) (P : A → Prop) `{∀ x, Decision (P x)} (l : list A) : NoDup (f <$> l) → NoDup (f <$> filter P l).
Proof.
  induction l as [|x l IH]; [done|]. rewrite fmap_cons, NoDup_cons. intros [Hx Hn]. rewrite filter_cons. destruct (decide (P x)); [|by apply IH].
  rewrite fmap_cons, NoDup_cons. split; [|by apply IH]. intros (y & E & [_ Hy]%list_elem_of_filter)%list_elem_of_fmap. apply Hx. rewrite E. by apply list_elem_of_fmap_2.
Qed.

(** ** What the poll records *)
(** The state an answer stands for. *)
Definition verdict (t : TargetRow) (r : Reply InspectReply) : string :=
  match r with
  | NoReply _ | BadReply _ => BackupTargetHealthUnreachable
  | Replied (ack, probe) =>
      if negb (ia_Present ack) then BackupTargetHealthMissing
      else if negb (ia_OK ack) then BackupTargetHealthUnmounted
      else match ia_BackupSet ack with
           | None => BackupTargetHealthMissing
           | Some s =>
               if negb (String.eqb (Trim (bk_PartUUID s)) EmptyString) && negb (String.eqb (bk_PartUUID s) (tr_PartUUID t)) then BackupTargetHealthMissing
               else match probe with Some p => if wp_OK p then BackupTargetHealthOK else BackupTargetHealthUnwritable | None => BackupTargetHealthOK end
           end
  end.
Lemma verdict_known t r : verdict t r ≠ EmptyString ∧ verdict t r ≠ BackupTargetHealthUnknown.
Proof. unfold verdict. repeat case_match; done. Qed.
(** OK is an answer from a disk that is there, mounted, and says it is the
    target, and that took a write if it was asked to. *)
Lemma verdict_ok t r : verdict t r = BackupTargetHealthOK → ∃ ack probe s, r = Replied (ack, probe) ∧ ia_Present ack = true ∧ ia_OK ack = true ∧
  ia_BackupSet ack = Some s ∧ (Trim (bk_PartUUID s) = EmptyString ∨ bk_PartUUID s = tr_PartUUID t) ∧ ∀ p, probe = Some p → wp_OK p = true.
Proof.
  destruct r as [e|e|[ack probe]]; [done..|]. cbn. destruct (ia_Present ack) eqn:Hp; [|done]. destruct (ia_OK ack) eqn:Ho; [|done]. cbn [negb].
  destruct (ia_BackupSet ack) as [s|] eqn:Es; [|done]. destruct (String.eqb_spec (Trim (bk_PartUUID s)) EmptyString) as [E|E]; cbn [negb andb].
  - intros Hv. exists ack, probe, s. split_and!; try done; [by left|]. intros p ->. by destruct (wp_OK p).
  - destruct (String.eqb_spec (bk_PartUUID s) (tr_PartUUID t)) as [E'|]; cbn [negb]; [|done]. intros Hv. exists ack, probe, s. split_and!; try done; [by right|].
    intros p ->. by destruct (wp_OK p).
Qed.
Section poll.
Context `{!ClaimEnv, !HealthEnv} (steady : ∀ n, k_fault n = None) (inv : bool) (rows : list TargetRow).
Implicit Types (w : HW).
#[local] Abbreviation MH := (M HW).
Definition stands (cols : gmap string HealthCols) (asked : list HealthWire) w : Prop := rows_of w = rows ∧ hw_cols w = cols ∧ hw_asked w = asked.
Lemma claims_stand {A} cols asked (m : M CW A) : (∀ c, cw_rows (snd (m c)) = cw_rows c) → preserves (stands cols asked) (in_claims m).
Proof using. intros Hm w (H1 & H2 & H3). unfold in_claims. specialize (Hm (hw_claims w)). destruct (m (hw_claims w)) as [a c]. cbn [snd] in *. split_and!; [|done..]. change (cw_rows c = rows). by rewrite Hm. Qed.
Lemma look_stands {A} cols asked (f : nat → A) : preserves (stands cols asked) (in_claims (k_look f)).
Proof using. by apply claims_stand. Qed.
Lemma ret_stands {A} cols asked (a : A) : preserves (stands cols asked) (mret a).
Proof using. by intros w. Qed.
Lemma enumerate_rows node c : cw_rows (snd (api_Enumerate node c)) = cw_rows c.
Proof using. unfold api_Enumerate. by destruct (String.eqb node EmptyString). Qed.
#[local] Hint Resolve look_stands ret_stands claims_stand enumerate_rows : triples.
Lemma silence_stands cols asked node e : preserves (stands cols asked) (explainSilence inv node e).
Proof using. unfold explainSilence. preserve. Qed.
Lemma noprobe_stands cols asked node : preserves (stands cols asked) (explainNoProbe inv node).
Proof using. unfold explainNoProbe. preserve. Qed.
Lemma oldpath_stands cols asked t : preserves (stands cols asked) (whatIsAtTheOldPath t).
Proof using. unfold whatIsAtTheOldPath. preserve. Qed.
#[local] Hint Resolve silence_stands noprobe_stands oldpath_stands : triples.

(** One question, and its answer is the verdict. *)
Definition judged (t : TargetRow) (cols : gmap string HealthCols) (asked : list HealthWire) (h : BackupTargetHealth) w : Prop :=
  ∃ r, bh_State h = verdict t r ∧ (∃ n, bh_CheckedAt h = k_clock n) ∧ stands cols (asked ++ [HInspect (tr_NodeID t) (tr_PartUUID t) r]) w.
Lemma judged_ret t cols asked r state n since detail ms : verdict t r = state →
  triple (stands cols (asked ++ [HInspect (tr_NodeID t) (tr_PartUUID t) r])) (mret (mkTargetHealth state (k_clock n) since detail ms)) (judged t cols asked).
Proof using. intros Hv w Hw. exists r. split_and!; [done|by exists n|done]. Qed.
Lemma mounted_spec t cols asked n ack probe : ia_Present ack = true → ia_OK ack = true →
  triple (stands cols (asked ++ [HInspect (tr_NodeID t) (tr_PartUUID t) (Replied (ack, probe))])) (mounted_health inv (k_clock n) t ack probe) (judged t cols asked).
Proof using.
  intros Hp Ho. unfold mounted_health. cbv zeta.
  destruct (ia_BackupSet ack) as [s|] eqn:Es; [|apply judged_ret; cbn; by rewrite Hp, Ho, Es].
  destruct (negb (String.eqb (Trim (bk_PartUUID s)) EmptyString) && negb (String.eqb (bk_PartUUID s) (tr_PartUUID t))) eqn:Em;
    [apply judged_ret; cbn; by rewrite Hp, Ho, Es, Em|].
  destruct probe as [p|]; [|eapply triple_bind; [apply noprobe_stands|]; intros d; apply judged_ret; cbn; by rewrite Hp, Ho, Es, Em].
  destruct (wp_OK p) eqn:Ep; cbn [negb]; apply judged_ret; cbn; by rewrite Hp, Ho, Es, Em, Ep.
Qed.
Lemma probe_spec t cols asked : Trim (tr_PartUUID t) ≠ EmptyString → triple (stands cols asked) (ProbeTarget true inv t) (judged t cols asked).
Proof using.
  intros Ht. unfold ProbeTarget. apply (triple_bind _ (λ now w, (∃ n, now = k_clock n) ∧ stands cols asked w)).
  { intros w Hw. split; [by eexists|]. by apply look_stands. }
  intros now. apply triple_pure. intros [n ->]. destruct (String.eqb_spec (Trim (tr_PartUUID t)) EmptyString); [done|]. cbn [negb].
  apply (triple_bind _ (λ r w, ∃ r0, r = match r0 with NoReply e => Fail e | BadReply e => Fail (wrapped "unreadable reply" e) | Replied ack => Ok ack end ∧
    stands cols (asked ++ [HInspect (tr_NodeID t) (tr_PartUUID t) r0]) w)).
  { intros w (H1 & H2 & H3). set (r0 := h_inspect (cw_tick (hw_claims w)) (tr_NodeID t) (tr_PartUUID t)). exists r0. split; [done|]. split_and!; [done..|].
    change (hw_asked w ++ [HInspect (tr_NodeID t) (tr_PartUUID t) r0] = asked ++ [HInspect (tr_NodeID t) (tr_PartUUID t) r0]). by rewrite H3. }
  intros r. apply triple_exists. intros r0. apply triple_pure. intros ->. destruct r0 as [e|e|[ack probe]].
  - eapply triple_bind; [apply silence_stands|]. intros d. by apply judged_ret.
  - eapply triple_bind; [apply silence_stands|]. intros d. by apply judged_ret.
  - destruct (ia_Present ack) eqn:Hp; cbn [negb]; [|eapply triple_bind; [apply oldpath_stands|]; intros d; apply judged_ret; cbn; by rewrite Hp].
    destruct (ia_OK ack) eqn:Ho; cbn [negb]; [by apply mounted_spec|]. apply judged_ret. cbn. by rewrite Hp, Ho.
Qed.

(** ** The record *)
Definition next_since (prev : option BackupTargetHealth) (state : string) (checked : Z) : Z :=
  match prev with Some p => if String.eqb (bh_State p) state && negb (bh_Since p =? zeroTime) then bh_Since p else checked | None => checked end.
(** The columns of [t] after a check that found [h]. *)
Definition noted (t : TargetRow) (cols : gmap string HealthCols) (state : string) (c : HealthCols) : Prop :=
  ∃ n h, scan_health t (Some c) = Some h ∧ bh_State h = state ∧ bh_CheckedAt h = stored_ms (k_clock n) ∧
    bh_Since h = next_since (scan_health t (cols !! tr_JobID t)) state (bh_CheckedAt h).
Lemma stored_ms_back x : fromMillis (tsMillis (stored_ms x)) = stored_ms x.
Proof using. unfold stored_ms, fromMillis, tsMillis. by rewrite Z.div_mul. Qed.
Lemma scan_ms t c h : scan_health t c = Some h → bh_Since h ≠ zeroTime → fromMillis (tsMillis (bh_Since h)) = bh_Since h.
Proof using.
  unfold scan_health. destruct (negb _); [done|]. intros [= <-]. destruct c as [c|]; [|done]. destruct (hc_checked_at c) as [z|]; [|done].
  destruct (String.eqb _ _); [done|]. intros _. cbn. unfold fromMillis, tsMillis. by rewrite Z.div_mul.
Qed.
Lemma next_since_ms t c state n : fromMillis (tsMillis (next_since (scan_health t c) state (stored_ms (k_clock n)))) = next_since (scan_health t c) state (stored_ms (k_clock n)).
Proof using.
  unfold next_since. destruct (scan_health t c) as [p|] eqn:E; [|apply stored_ms_back]. destruct (String.eqb _ _); [|apply stored_ms_back].
  destruct (Z.eqb_spec (bh_Since p) zeroTime); [apply stored_ms_back|]. by eapply scan_ms.
Qed.
Context (one : ∀ t t', t ∈ rows → t' ∈ rows → tr_Status t = TargetClaimed → tr_Status t' = TargetClaimed → tr_PartUUID t = tr_PartUUID t' → t = t').
Lemma by_uuid t : t ∈ rows → tr_Status t = TargetClaimed → tr_PartUUID t ≠ EmptyString → GetByPartUUID None rows (tr_PartUUID t) = Ok (Some t).
Proof using one.
  intros Hin Hc Hu. unfold GetByPartUUID. destruct (String.eqb_spec (tr_PartUUID t) EmptyString); [done|]. unfold query. do 2 f_equal.
  set (l := filter _ rows). assert (t ∈ merge_sort created_desc l) as Ht by (rewrite merge_sort_Permutation; by apply list_elem_of_filter).
  destruct (merge_sort created_desc l) as [|t' l'] eqn:E; [by apply elem_of_nil in Ht|]. cbn. f_equal.
  assert (t' ∈ l) as [[H1 H2] H3]%list_elem_of_filter by (rewrite <- (merge_sort_Permutation created_desc l), E; left). by apply one.
Qed.
Lemma record_spec t cols asked h n : t ∈ rows → tr_Status t = TargetClaimed → tr_PartUUID t ≠ EmptyString → bh_CheckedAt h = k_clock n →
  bh_State h ≠ EmptyString → bh_State h ≠ BackupTargetHealthUnknown →
  triple (stands cols asked) (RecordHealth (tr_PartUUID t) h) (λ r w, snd r = None ∧ ∃ c, noted t cols (bh_State h) c ∧ stands (<[tr_JobID t := c]> cols) asked w).
Proof using steady one.
  intros Hin Hc Hu Hn H1 H2. unfold RecordHealth. destruct (String.eqb_spec (bh_State h) EmptyString); [done|]. destruct (String.eqb_spec (bh_State h) BackupTargetHealthUnknown); [done|]. cbn [orb].
  apply (triple_bind _ (λ now w, (∃ n, now = k_clock n) ∧ stands cols asked w)).
  { destruct (bh_CheckedAt h =? zeroTime); [|by intros w Hw; split; [exists n|]]. intros w Hw. split; [by eexists|by apply look_stands]. }
  intros now. apply triple_pure. intros [m ->]. cbv zeta.
  apply (triple_bind _ (λ r w, r = Ok (Some t) ∧ stands cols asked w)).
  { intros w Hw. split; [|by apply claims_stand]. destruct Hw as (E & _). unfold in_claims, k_query. cbn. rewrite steady, E. by apply by_uuid. }
  intros r. apply triple_pure. intros ->. apply (triple_bind _ (λ c w, c = cols ∧ stands cols asked w)); [by intros w (? & ? & ?)|].
  intros cols'. apply triple_pure. intros ->. cbn [with_cols snd]. fold (next_since (scan_health t (cols !! tr_JobID t)) (bh_State h) (stored_ms (k_clock m))).
  cbn [bh_State bh_Detail bh_ProbeDurationMs]. set (since := next_since _ _ _).
  set (c := mkHealthCols (bh_State h) (Some (tsMillis (stored_ms (k_clock m)))) (Some (tsMillis since)) (bh_Detail h) (bh_ProbeDurationMs h)).
  apply (triple_bind _ (λ e w, e = None ∧ stands (<[tr_JobID t := c]> cols) asked w)).
  { unfold h_stmt. apply (triple_bind _ (λ f w, f = None ∧ stands cols asked w)).
    { intros w Hw. split; [unfold in_claims, k_look; cbn; apply steady|by apply look_stands]. }
    intros f. apply triple_pure. intros ->. apply (triple_bind _ (λ _, stands (<[tr_JobID t := c]> cols) asked)); [|by intros ? w].
    intros w (E1 & E2 & E3). unfold update_health. rewrite bind_run. change (eval (λ w, (rows_of w, w)) w) with (rows_of w). change (exec (λ w, (rows_of w, w)) w) with w. rewrite E1.
    assert (existsb (job_status (tr_JobID t) TargetClaimed) rows = true) as ->.
    { apply existsb_exists. exists t. split; [by apply list_elem_of_In|]. unfold job_status. by rewrite String.eqb_refl, bool_decide_true. }
    split_and!; [done| |done]. change (<[tr_JobID t := c]> (hw_cols w) = <[tr_JobID t := c]> cols). by rewrite E2. }
  intros e w [-> Hw]. split; [done|]. exists c. split; [|done]. eexists m, _. unfold scan_health at 1. rewrite bool_decide_true by done. cbn [negb hc_checked_at c hc_state].
  destruct (String.eqb_spec (bh_State h) EmptyString); [done|]. split; [reflexivity|]. cbn. split_and!; [done|apply stored_ms_back|]. rewrite stored_ms_back. apply next_since_ms.
Qed.

(** ** All of them *)
Definition checked_as (cols cols' : gmap string HealthCols) (t : TargetRow) (x : HealthWire) : Prop :=
  ∃ r c, x = HInspect (tr_NodeID t) (tr_PartUUID t) r ∧ cols' !! tr_JobID t = Some c ∧ noted t cols (verdict t r) c.
Lemma check_spec_target t cols asked : t ∈ rows → tr_Status t = TargetClaimed → Trim (tr_PartUUID t) ≠ EmptyString →
  triple (stands cols asked) (CheckTarget true inv t) (λ r w, snd r = None ∧ ∃ x c, checked_as cols (<[tr_JobID t := c]> cols) t x ∧
    stands (<[tr_JobID t := c]> cols) (asked ++ [x]) w).
Proof using steady one.
  intros Hin Hc Hu. assert (tr_PartUUID t ≠ EmptyString) as Hne by (intros E; by rewrite E in Hu). unfold CheckTarget. eapply triple_bind; [by apply probe_spec|]. intros h. apply triple_exists. intros r.
  apply triple_pure. intros Hv. apply triple_pure. intros [n Hn]. destruct (verdict_known t r) as [H1 H2]. rewrite <- Hv in H1, H2.
  eapply triple_conseq; [by apply (record_spec t cols (asked ++ [HInspect (tr_NodeID t) (tr_PartUUID t) r]) h n)|done|]. intros [h' e] w (He & c & Hno & Hw). split; [done|]. eexists _, c. split; [|exact Hw].
  exists r, c. split_and!; [done|by rewrite lookup_insert_eq|by rewrite <- Hv].
Qed.
Definition pollable (t : TargetRow) : Prop := t ∈ rows ∧ tr_Status t = TargetClaimed ∧ Trim (tr_PartUUID t) ≠ EmptyString.
Lemma checked_first cols cols' t x c : checked_as cols (<[tr_JobID t := c]> cols) t x → cols' !! tr_JobID t = Some c → checked_as cols cols' t x.
Proof using. intros (r & c' & -> & E & Hn) E'. rewrite lookup_insert_eq in E. injection E as ->. exists r, c'. by split_and!. Qed.
Lemma checked_later cols cols' t id c x : tr_JobID t ≠ id → checked_as (<[id := c]> cols) cols' t x → checked_as cols cols' t x.
Proof using.
  intros Hne (r & c' & -> & E & n & h & H1 & H2 & H3 & H4). exists r, c'. split_and!; [done..|]. exists n, h. split_and!; [done..|].
  by rewrite lookup_insert_ne in H4.
Qed.
Lemma each_spec l : Forall pollable l → NoDup (tr_JobID <$> l) → ∀ cols asked, triple (stands cols asked) (probe_each true inv l) (λ r w,
  snd r = None ∧ hl_PartUUID <$> fst r = tr_PartUUID <$> l ∧
  ∃ cols' xs, Forall2 (checked_as cols cols') l xs ∧ (∀ job, job ∉ tr_JobID <$> l → cols' !! job = cols !! job) ∧ stands cols' (asked ++ xs) w).
Proof using steady one.
  induction 1 as [|t l (Hin & Hc & Hu) Hl IH]; intros Hnd cols asked; cbn [probe_each].
  { intros w Hw. split_and!; [done..|]. exists cols, []. rewrite app_nil_r. by split_and!; [constructor|..]. }
  rewrite fmap_cons, NoDup_cons in Hnd. destruct Hnd as [Hni Hnd]. eapply triple_bind; [by apply check_spec_target|]. intros [h e]. apply triple_pure. cbn [snd]. intros ->.
  apply triple_exists. intros x. apply triple_exists. intros c. apply triple_pure. intros Hx.
  eapply triple_bind; [by apply IH|]. intros [lines err] w (He & Hlines & cols' & xs & HF & Hk & Hw). cbn in He, Hlines. subst err. cbn. split_and!; [done|by rewrite Hlines|].
  exists cols', (x :: xs). rewrite <- app_assoc in Hw. split_and!; [|intros job Hj|done].
  - constructor; [eapply checked_first; [exact Hx|]; rewrite Hk by done; by rewrite lookup_insert_eq|].
    clear -HF Hni. induction HF as [|t' x' l xs Ht HF IH]; [constructor|]. rewrite fmap_cons, not_elem_of_cons in Hni. destruct Hni as [Hne Hni].
    constructor; [by eapply checked_later; [|exact Ht]|by apply IH].
  - rewrite not_elem_of_cons in Hj. destruct Hj as [Hne Hj]. rewrite Hk by done. by rewrite lookup_insert_ne.
Qed.
End poll.

(** ** What the states mean, on the node

    The machine that answers: its disks and tools, the probe's file system, and
    where both stand when the question comes. *)
Section meaning.
Context {D : DiskEnv} {P : ProbeEnv} (box : Box) (medium : Medium) (u : string).
Definition probe_of (mountPath : string) : StorageWriteProbe := eval (WriteProbe mountPath) medium.
Definition answer_of : InspectReply := eval (handle_inspect probe_of true u) box.
(** The partition is on a disk the kernel lists; or on none of them. *)
Definition attached (c : lsblkDevice) : Prop :=
  ∃ n l d, d_lsblk n EmptyString = Ok l ∧ d ∈ l ∧ c ∈ ld_Children d ∧ Trim (ld_PartUUID c) = u.
Definition detached : Prop := ∃ n l, d_lsblk n EmptyString = Ok l ∧ ∀ d c, d ∈ l → c ∈ ld_Children d → Trim (ld_PartUUID c) ≠ u.
Definition mounted_at (c : lsblkDevice) (mp : string) : Prop :=
  mp ≠ EmptyString ∧ (Trim (ld_MountPoint c) = mp ∨ ∃ n opts, d_run n (CMount opts (blk_path c) mp) = None).
(** The marker file on the mount reads and names this target, or names none. *)
Definition marks (s : StorageBackupSet) : Prop := Trim (bk_PartUUID s) = EmptyString ∨ bk_PartUUID s = u.
Definition marker_read (mp : string) (s : StorageBackupSet) : Prop :=
  ∃ n b s0, d_file n (filepath_Join [mp; StorageMarkerFile]) = Ok b ∧ d_backup_json b = Ok s0 ∧ bk_PartUUID s = bk_PartUUID s0.
(** A file was created, written, synced, read back and deleted, and its
    directory synced. *)
Definition took_write (mp : string) : Prop :=
  ∃ name, did [PSyncDir; PRemove name; PRead name; PSync; PWrite; PCreate name] (exec (WriteProbe mp) medium).
(** The agent could not look: its tools failed it, or refused the id or the disk. *)
Definition blind : Prop := ∃ e, eval (findByPartUUID u) box = Fail e ∧ (errors_Is e "storage.ErrNotFound" = false ∨ ∃ n e', d_lsblk n EmptyString = Fail e' ∨ protected_from (d_sysfs n) (d_mountinfo n) = Fail e').

Definition reads_as (state : string) : Prop :=
  (state = BackupTargetHealthOK ∧ ∃ c mp s, attached c ∧ mounted_at c mp ∧ marker_read mp s ∧ marks s ∧ took_write mp) ∨
  (state = BackupTargetHealthUnwritable ∧ ∃ c mp s, attached c ∧ mounted_at c mp ∧ marker_read mp s ∧ marks s ∧ wp_OK (probe_of mp) = false) ∨
  (state = BackupTargetHealthUnmounted ∧ ∃ c, attached c ∧ Trim (ld_MountPoint c) = EmptyString) ∨
  (state = BackupTargetHealthMissing ∧
     (detached ∨ (∃ c mp, attached c ∧ mounted_at c mp ∧ ∀ s, ia_BackupSet (fst (answer_of)) = Some s → ¬ marks s) ∨ blind ∨ safePartUUID u = false)).

Lemma with_uuid_in l d c : with_uuid u l = Some (d, c) → d ∈ l ∧ c ∈ ld_Children d ∧ Trim (ld_PartUUID c) = u.
Proof using.
  unfold with_uuid. intros H%head_Some_elem_of. apply list_elem_of_join in H as (x & Hx & Hin).
  apply list_elem_of_fmap in Hin as (d' & -> & Hd). apply list_elem_of_fmap in Hx as (c' & [= -> ->] & [Hu Hc]%list_elem_of_filter). done.
Qed.
Lemma with_uuid_none l : with_uuid u l = None → ∀ d c, d ∈ l → c ∈ ld_Children d → Trim (ld_PartUUID c) ≠ u.
Proof using.
  unfold with_uuid. intros H%head_None d c Hd Hc Hu.
  assert ((d, c) ∈ mjoin ((λ d, (pair d) <$> filter (λ c, Trim (ld_PartUUID c) = u) (ld_Children d)) <$> l)) as Hin.
  { apply list_elem_of_join. eexists. split; [|apply list_elem_of_fmap_2, Hd]. apply list_elem_of_fmap_2. by apply list_elem_of_filter. }
  rewrite H in Hin. by apply elem_of_nil in Hin.
Qed.

(** What the search finds. *)
Definition found_as (r : result claimedPartition) : Prop :=
  match r with
  | Ok f => ∃ c, attached c ∧ cp_devicePath f = blk_path c ∧ cp_mountPoint f = Trim (ld_MountPoint c)
  | Fail e => errors_Is e "storage.ErrNotFound" = true → detached ∨ ∃ n e', d_lsblk n EmptyString = Fail e' ∨ protected_from (d_sysfs n) (d_mountinfo n) = Fail e'
  end.
Lemma find_spec b : found_as (eval (findByPartUUID u) b).
Proof using.
  unfold findByPartUUID, ok_or, lsblk. cbn [String.eqb]. rewrite !eval_bind. change (String.eqb EmptyString EmptyString) with true. cbn iota.
  rewrite eval_bind. change (eval (look (λ n, d_lsblk n EmptyString)) b) with (d_lsblk (x_tick b) EmptyString).
  destruct (d_lsblk (x_tick b) EmptyString) as [l|e] eqn:El; rewrite !eval_bind, ?eval_ret; [|cbn; intros _; right; eauto].
  unfold resolve_protected. rewrite !eval_bind, ?eval_ret. set (b' := exec _ b). change (eval (look _) b') with (protected_from (d_sysfs (x_tick b')) (d_mountinfo (x_tick b'))).
  destruct (protected_from _ _) as [protected|e] eqn:Ep; [|cbn; intros _; right; eauto].
  destruct (with_uuid u l) as [[d c]|] eqn:Ew.
  - apply with_uuid_in in Ew as (Hd & Hc & Hu). assert (attached c) as Hat by (by exists (x_tick b), l, d).
    destruct (protected !! blk_path d); [by cbn|]. cbn. by exists c.
  - cbn. intros _. left. exists (x_tick b), l. split; [done|by apply with_uuid_none].
Qed.

Lemma readMarker_spec mp b s : eval (readMarker mp) b = Ok s → marker_read mp s.
Proof using.
  unfold readMarker, ok_or, readMarkerFile. rewrite !eval_bind. cbn [eval look fst mret].
  destruct (d_file (x_tick b) (filepath_Join [mp; StorageMarkerFile])) as [f|e] eqn:Ef; [|done].
  destruct (Nat.ltb markerMaxBytes (String.length f)); [done|]. destruct (d_backup_json f) as [s0|e] eqn:Ej; [|done].
  rewrite eval_ret, eval_bind, eval_ret. destruct (eval (look _) _) as [n|e]; intros [= <-]; by exists (x_tick b), f, s0.
Qed.
Lemma Clean_nonempty x : Clean x ≠ EmptyString.
Proof using.
  unfold Clean, render. pose proof (components_proper x) as Hp. destruct (IsAbs x); [done|]. destruct (components x) as [|c l]; [done|].
  apply Forall_cons in Hp as [Hc _]. destruct c as [|a c]; [by destruct Hc|]. by destruct l.
Qed.
Lemma mountPartition_spec part spec b dir : eval (mountPartition part u spec) b = Ok dir → dir ≠ EmptyString ∧ ∃ n opts, d_run n (CMount opts part dir) = None.
Proof using.
  unfold mountPartition, mountRootFor. destruct (spec_of (sp_Purpose spec)) as [s|]; [|done].
  destruct (String.eqb (sp_MountRoot s) EmptyString) eqn:Er; [done|]. unfold unless, run_cmd. rewrite !eval_bind.
  destruct (eval (look d_mkdirAll) b); [done|]. rewrite !eval_bind. set (b' := exec (look d_mkdirAll) b). cbn [eval look fst mret].
  destruct (d_run (x_tick b') _) as [e|] eqn:Ed; [done|]. intros [= <-]. split; [|eauto]. cbn [filepath_Join]. rewrite Er. apply Clean_nonempty.
Qed.
Lemma label_has_spec label : ∃ spec, mountSpecForLabel label = Ok spec.
Proof using.
  unfold mountSpecForLabel, StoragePurposeForFSLabel, storagePurposeSpecs. rewrite !filter_cons.
  repeat case_decide; eexists; vm_compute; reflexivity.
Qed.

(** The answer about a partition that is mounted. *)
Lemma inspect_mounted_spec f c mp b : attached c → mounted_at c mp → ∃ ack, eval (inspect_mounted u f mp) b = Ok ack ∧ ia_Present ack = true ∧ ia_OK ack = true ∧
  ia_MountPath ack = mp ∧ ∀ s, ia_BackupSet ack = Some s → marker_read mp s.
Proof using.
  intros Hc Hm. unfold inspect_mounted. rewrite !eval_bind. destruct (match eval (look _) b with Ok x => x | Fail _ => (0, 0) end) as [total free].
  rewrite !eval_bind. set (b1 := exec _ b). rewrite eval_ret. eexists. split; [reflexivity|]. cbn [ia_Present ia_OK ia_MountPath ia_BackupSet]. do 3 (split; [reflexivity|]). intros s.
  destruct (eval (readMarker mp) b1) as [s'|] eqn:Es; [|done]. intros [= <-]. by eapply readMarker_spec.
Qed.

(** What an inspect answers, by what is on the node. *)
Definition inspected (r : result StorageInspectAck) : Prop :=
  match r with
  | Ok ack =>
      if ia_Present ack then
        ∃ c, attached c ∧
          if ia_OK ack then mounted_at c (ia_MountPath ack) ∧ ∀ s, ia_BackupSet ack = Some s → marker_read (ia_MountPath ack) s
          else Trim (ld_MountPoint c) = EmptyString
      else detached ∨ blind
  | Fail _ => blind ∨ safePartUUID u = false
  end.
Lemma Inspect_spec : inspected (eval (Inspect u) box).
Proof using.
  unfold Inspect, checkPartUUID. destruct (safePartUUID u) eqn:Eu; cbn [negb]; [|by right]. rewrite eval_bind.
  pose proof (find_spec box) as Hf. unfold found_as in Hf. destruct (eval (findByPartUUID u) box) as [f|e] eqn:Ef.
  - destruct Hf as (c & Hc & Hdev & Hmp). set (b1 := exec _ box). destruct (String.eqb_spec (cp_mountPoint f) EmptyString) as [E|E]; cbn [negb].
    + destruct (label_has_spec (cp_fsLabel f)) as [spec ->]. rewrite eval_bind.
      destruct (eval (mountPartition (cp_devicePath f) u spec) b1) as [dir|e] eqn:Em.
      * apply mountPartition_spec in Em as (Hne & n & opts & Hrun). rewrite Hdev in Hrun.
        destruct (inspect_mounted_spec f c dir (exec (mountPartition (cp_devicePath f) u spec) b1) Hc) as (ack & -> & Hp & Ho & Hm & Hmark); [split; eauto|].
        unfold inspected. rewrite Hp, Ho, Hm. exists c. split_and!; [done|split; eauto|done].
      * cbn. exists c. by rewrite <- Hmp.
    + destruct (inspect_mounted_spec f c (cp_mountPoint f) b1 Hc) as (ack & -> & Hp & Ho & Hm & Hmark); [split; [done|left; by rewrite Hmp]|].
      unfold inspected. rewrite Hp, Ho, Hm. exists c. split_and!; [done|split; [done|left; by rewrite Hmp]|done].
  - destruct (errors_Is e "storage.ErrNotFound") eqn:Enf; cbn.
    + destruct (Hf eq_refl) as [|Hb]; [by left|right]. exists e. auto.
    + left. exists e. auto.
Qed.

Lemma probe_took mp : wp_OK (probe_of mp) = true → took_write mp.
Proof using.
  unfold probe_of, took_write, WriteProbe. rewrite !eval_bind, !exec_bind. destruct (String.eqb (Trim mp) EmptyString); [done|].
  rewrite !eval_bind, !exec_bind, exec_ret. set (s1 := exec (p_look p_clock) medium).
  pose proof (probe_passed mp s1 I) as Hp. change (fst (writeProbeOnce mp s1)) with (eval (writeProbeOnce mp) s1) in Hp.
  change (snd (writeProbeOnce mp s1)) with (exec (writeProbeOnce mp) s1) in Hp. cbn [eval look p_look fst mret].
  destruct (p_late _); [done|]. destruct (eval (writeProbeOnce mp) s1); [done|]. intros _. destruct (Hp eq_refl) as [name Hd].
  exists name. exact Hd.
Qed.

(** The state an answer stands for is what the node's disks are. *)
Lemma verdict_reads t : tr_PartUUID t = u → reads_as (verdict t (Replied answer_of)).
Proof using.
  intros Hu. pose proof Inspect_spec as Hi. unfold reads_as. unfold answer_of at 1 2 3 4, handle_inspect. rewrite eval_bind, eval_ret.
  unfold inspected in Hi. destruct (eval (Inspect u) box) as [ack|e] eqn:Ei; cbn [verdict].
  2: { cbn. do 3 right. split; [done|]. tauto. }
  destruct (ia_Present ack) eqn:Hp; cbn [negb]; [|do 3 right; split; [done|]; tauto].
  destruct Hi as (c & Hc & Hm). destruct (ia_OK ack) eqn:Ho; cbn [negb]; [|right; right; left; by split; [|exists c]].
  destruct Hm as [Hm Hmark].
  assert (fst answer_of = ack) as Ha by (unfold answer_of, handle_inspect; by rewrite eval_bind, eval_ret, Ei).
  assert ((∀ s, ia_BackupSet ack = Some s → ¬ marks s) → (BackupTargetHealthMissing = BackupTargetHealthMissing ∧
     (detached ∨ (∃ c mp, attached c ∧ mounted_at c mp ∧ ∀ s, ia_BackupSet (fst answer_of) = Some s → ¬ marks s) ∨ blind ∨ safePartUUID u = false))) as Hmiss.
  { intros Hno. split; [done|]. right. left. exists c, (ia_MountPath ack). by rewrite Ha. }
  destruct (ia_BackupSet ack) as [s|] eqn:Es; [|do 3 right; by apply Hmiss].
  destruct (decide (Trim (bk_PartUUID s) = EmptyString ∨ bk_PartUUID s = u)) as [Hs|Hs].
  - assert (negb (String.eqb (Trim (bk_PartUUID s)) EmptyString) && negb (String.eqb (bk_PartUUID s) (tr_PartUUID t)) = false) as ->.
    { rewrite Hu. destruct Hs as [->| ->]; [done|]. rewrite String.eqb_refl. apply andb_false_r. }
    destruct Hm as [Hne Hm]. apply String.eqb_neq in Hne as Hne'. rewrite Hne'. cbn [negb andb].
    destruct (wp_OK (probe_of (ia_MountPath ack))) eqn:Ew; [left|right; left]; (split; [done|]); exists c, (ia_MountPath ack), s;
      split_and!; try done; [by apply Hmark|by apply probe_took|by apply Hmark].
  - assert (negb (String.eqb (Trim (bk_PartUUID s)) EmptyString) && negb (String.eqb (bk_PartUUID s) (tr_PartUUID t)) = true) as ->.
    { rewrite Hu. apply andb_true_iff. rewrite !negb_true_iff, !String.eqb_neq. tauto. }
    do 3 right. apply Hmiss. intros s' [= <-]. exact Hs.
Qed.
End meaning.

(** What a check leaves in a target's row: asked once; the state is never
    blank or unknown; unreachable exactly without a readable answer; an answer
    of the agent's handler gives the state its disks are in; and the state
    counts since the first of the checks that agree. *)
Definition checked_truly `{!ClaimEnv} (cols cols' : gmap string HealthCols) (t : TargetRow) (x : HealthWire) : Prop :=
  ∃ r c h, x = HInspect (tr_NodeID t) (tr_PartUUID t) r ∧ cols' !! tr_JobID t = Some c ∧ scan_health t (Some c) = Some h ∧
    bh_State h ≠ EmptyString ∧ bh_State h ≠ BackupTargetHealthUnknown ∧
    (bh_State h = BackupTargetHealthUnreachable ↔ ∀ a, r ≠ Replied a) ∧
    (∀ (D : DiskEnv) (P : ProbeEnv) box medium, r = Replied (answer_of box medium (tr_PartUUID t)) → reads_as box medium (tr_PartUUID t) (bh_State h)) ∧
    (∃ n, bh_CheckedAt h = stored_ms (k_clock n)) ∧
    (∀ p, scan_health t (cols !! tr_JobID t) = Some p →
       bh_Since h = if decide (bh_State p = bh_State h ∧ bh_Since p ≠ zeroTime) then bh_Since p else bh_CheckedAt h).
Lemma verdict_silent t r : verdict t r = BackupTargetHealthUnreachable ↔ ∀ a, r ≠ Replied a.
Proof.
  destruct r as [e|e|[ack probe]]; cbn; [done..|]. split; [|intros H; by destruct (H (ack, probe))].
  repeat case_match; done.
Qed.
Lemma checked_as_truly `{!ClaimEnv} cols cols' t x : checked_as cols cols' t x → checked_truly cols cols' t x.
Proof.
  intros (r & c & -> & Hc & n & h & Hs & Hst & Hat & Hsince). exists r, c, h. destruct (verdict_known t r) as [H1 H2]. rewrite Hst in *.
  split_and!; [done..|by apply verdict_silent| |by exists n|].
  - intros D P box medium ->. by apply verdict_reads.
  - intros p Hp. rewrite Hsince. unfold next_since. rewrite Hp.
    destruct (String.eqb_spec (bh_State p) (verdict t r)), (Z.eqb_spec (bh_Since p) zeroTime); cbn [negb andb];
      (rewrite decide_True by done; done) || (rewrite decide_False by naive_solver; done).
Qed.

Lemma poll_records `{!ClaimEnv, !HealthEnv} inv w : (∀ n, k_fault n = None) → NoDup (tr_JobID <$> rows_of w) →
  NoDup (tr_PartUUID <$> filter (λ t, tr_Status t = TargetClaimed) (rows_of w)) →
  Forall (λ t, tr_Status t = TargetClaimed → Trim (tr_PartUUID t) ≠ EmptyString) (rows_of w) →
  let w' := exec (targetHealthProbe true inv) w in
  let claimed := listed_as TargetClaimed (rows_of w) in
  ∃ lines asked, eval (targetHealthProbe true inv) w = Ok (lines, None) ∧ hl_PartUUID <$> lines = tr_PartUUID <$> claimed ∧
    rows_of w' = rows_of w ∧ hw_asked w' = hw_asked w ++ asked ∧ Forall2 (checked_as (hw_cols w) (hw_cols w')) claimed asked ∧
    ∀ job, job ∉ tr_JobID <$> claimed → hw_cols w' !! job = hw_cols w !! job.
Proof.
  intros steady Hids Huuids Hblank. cbv zeta.
  assert (∀ t t', t ∈ rows_of w → t' ∈ rows_of w → tr_Status t = TargetClaimed → tr_Status t' = TargetClaimed → tr_PartUUID t = tr_PartUUID t' → t = t') as one.
  { intros t t' H1 H2 H3 H4 E. eapply (key_inj tr_PartUUID); try done; by apply list_elem_of_filter. }
  set (claimed := listed_as TargetClaimed (rows_of w)). assert (claimed ≡ₚ filter (λ t, tr_Status t = TargetClaimed) (rows_of w)) as Hp by apply merge_sort_Permutation.
  assert (triple (stands (rows_of w) (hw_cols w) (hw_asked w)) (targetHealthProbe true inv) (λ r w', ∃ lines asked, r = Ok (lines, None) ∧ hl_PartUUID <$> lines = tr_PartUUID <$> claimed ∧
    rows_of w' = rows_of w ∧ hw_asked w' = hw_asked w ++ asked ∧ Forall2 (checked_as (hw_cols w) (hw_cols w')) claimed asked ∧
    ∀ job, job ∉ tr_JobID <$> claimed → hw_cols w' !! job = hw_cols w !! job)) as Ht; [|by apply Ht].
  unfold targetHealthProbe. apply (triple_bind _ (λ r w', r = Ok claimed ∧ stands (rows_of w) (hw_cols w) (hw_asked w) w')).
  { intros w1 Hw. split; [|by apply claims_stand]. destruct Hw as (E & _). unfold in_claims, k_query. cbn. by rewrite steady, E. }
  intros r. apply triple_pure. intros ->. eapply triple_bind; [apply (each_spec steady inv (rows_of w) one claimed)|].
  - apply Forall_forall. intros t [Hc Ht]%(list_elem_of_In _ _)%(Permutation_in _ Hp)%list_elem_of_In%list_elem_of_filter. rewrite Forall_forall in Hblank. split_and!; auto.
  - rewrite Hp. by apply key_filter.
  - intros [lines e] w' (He & Hl & cols' & xs & HF & Hk & E1 & E2 & E3). cbn in He, Hl. subst. exists lines, xs. by split_and!.
Qed.


(** ** A poll in the concrete *)
Module HealthDemo.
Definition target : TargetRow := mkTargetRow "J1" "cp" "weekly" "c1-01" "/dev/sdb" "/mnt" "ext4" 900 EmptyString EmptyString EmptyString EmptyString EmptyString EmptyString
  false false TargetClaimed 0 (Some 1) EmptyString.
Definition files : ProbeEnv := {| p_fail _ := None; p_random _ := Ok "5eed"; p_back _ b := b; p_late _ := false; p_clock n := Z.of_nat n * Millisecond |}.
Definition medium : Medium := mkMedium ∅ [] 0.
Definition claims : ClaimEnv := ClaimDemo.api ClaimDemo.marked (ClaimDemo.spec_for ClaimDemo.marked None).
Definition health (D : DiskEnv) : HealthEnv := {| h_inspect _ _ partUUID := Replied (@answer_of D files ClaimDemo.idle medium partUUID); h_silence _ _ := "offline" |}.
Definition at_rest : HW := mkHW (mkCW [replaced_at 2 ClaimDemo.old_row; target] ∅ [] 0) ∅ [].
Definition poll (D : DiskEnv) : M HW (result (list targetHealthLine * option error)) := @targetHealthProbe claims (health D) true true.
(** The stick alone, by what mountinfo answers. *)
Definition machine (D : DiskEnv) (mi : result string) : DiskEnv := {|
  d_sha256 := d_sha256; d_mountinfo _ := mi; d_sysfs := d_sysfs; d_lsblk _ _ := Ok [ClaimDemo.stick]; d_run := d_run; d_mkdirTemp := d_mkdirTemp;
  d_mkdirAll := d_mkdirAll; d_blkid := d_blkid; d_file := d_file; d_backup_json := d_backup_json; d_data_json := d_data_json; d_generations := d_generations;
  d_writeMarker := d_writeMarker; d_usage := d_usage; d_clock := d_clock; d_partprobe := d_partprobe; d_udevadm := d_udevadm |}.
Definition states (D : DiskEnv) : list (string * string) :=
  match eval (poll D) at_rest with Ok (lines, _) => (λ l, (hl_PartUUID l, hl_State l)) <$> lines | Fail _ => [] end.
End HealthDemo.
Definition HealthDemo_plugged : DiskEnv := HealthDemo.machine ClaimDemo.marked (Ok ClaimDemo.mountinfo).
Definition HealthDemo_end : HW := Eval vm_compute in exec (HealthDemo.poll HealthDemo_plugged) HealthDemo.at_rest.
Lemma HealthDemo_runs : exec (HealthDemo.poll HealthDemo_plugged) HealthDemo.at_rest = HealthDemo_end.
Proof. by vm_compute. Qed.

Example plugged_is_ok : HealthDemo.states HealthDemo_plugged = [("c1-01", BackupTargetHealthOK)].
Proof. by vm_compute. Qed.
(** An agent that could not look at its disks is recorded as a disk unplugged. *)
Example blind_is_missing :
  HealthDemo.states (HealthDemo.machine ClaimDemo.marked (Fail (errors_New "permission denied"))) = [("c1-01", BackupTargetHealthMissing)].
Proof. by vm_compute. Qed.

(** The same disk, on an agent that does not know the probe: OK, and nothing was
    written. *)
Definition HealthDemo_older : HealthEnv := {|
  h_inspect _ _ partUUID := Replied (fst (@answer_of HealthDemo_plugged HealthDemo.files ClaimDemo.idle HealthDemo.medium partUUID), None);
  h_silence _ _ := "offline" |}.
Example unprobed_reads_ok :
  hl_State <$> match eval (@targetHealthProbe HealthDemo.claims HealthDemo_older true true) HealthDemo.at_rest with Ok (lines, _) => lines | Fail _ => [] end
  = [BackupTargetHealthOK].
Proof. by vm_compute. Qed.
